(* ===== verification/_CoqProject ===== *)
-Q . S2P
Prelude.v
IntUtil.v
Keccak.v
Chacha8.v
Varint.v
Stream.v
StringTools.v
ShuffleGenerator.v
Base58.v
CryptoNote.v
Interest.v
Serializer.v
Serialization.v
TransactionExtra.v
Currency.v
Difficulty.v
DepositIndex.v
BlockIndex.v
Checkpoints.v
UpgradeDetector.v
TreeHash.v
BlockchainIndices.v
ChainState.v
Validation.v
Blockchain.v
TransactionApi.v
TransactionConstruction.v
TransactionPool.v
PoolInvariant.v
Reorganization.v
MainChain.v
TransfersContainer.v
TransfersInvariant.v
TransfersTheory.v
SynchronizationState.v
ChainQueries.v
BlockchainSynchronizer.v
WalletSync.v
TransfersConsumer.v
ConsumerTheory.v
Limbs.v
ScalarOps.v
Recoding.v
FieldOps.v
Group.v
PrimeField.v
Edwards.v
GroupOps.v
BaseTable.v
BaseMultiples.v
ScalarMult.v
HashToPoint.v
Cofactor.v
Crypto.v
CryptoTheory.v
Payments.v
PaymentPool.v
KVBinary.v
KVTheory.v
KVCodec.v
P2pProtocol.v
Levin.v
PeerList.v
ProtocolHandler.v
