(* ===== verification/Prelude.v ===== *)
(** * A verification of the MoonBank node

    MoonBank is a CryptoNote coin with term deposits.  The program under [src/]
    consists of a full node (daemon), wallets and tools.  This library models the
    part that decides which blocks and transactions are valid and what they do to
    the ledger, from the byte formats up to the arrival of a block, the wallets' view
    of it, and the cryptography underneath, and proves the properties the rest of the
    program depends on.

    ** How the parts interact

    A block or transaction comes in as bytes.  [Common/StreamTools.cpp] and the
    serializers turn it into the structures of [include/CryptoNote.h]; its
    identifier is a hash of its bytes and of the tree of transaction hashes.
    A transaction is checked without context ([core::check_tx_semantic]), then
    against the chain, and enters the pool ([tx_memory_pool::add_tx]).  A block
    goes to [Blockchain::addNewBlock]: on top of the main chain [pushBlock] checks
    its header, proof of work, miner transaction and transactions, taking the
    transactions out of the pool, and records outputs, spent key images, deposits
    and indexes; elsewhere it becomes an alternative block, and the main chain is
    reorganised when the alternative chain is better.  The rules that depend on
    parameters (rewards, fees, interest, difficulty) are in [Currency.cpp].

    ** Files and what they model

    - [Prelude]: machine integers with explicit wrap-around ([u8] to [u64],
      [i64]), the outcome monad (value or thrown exception), indexed access to
      vectors, assertions ([massert], active or not by the build configuration),
      lists, sums, tactics and hint databases.
    - [IntUtil], [Varint], [Stream], [StringTools], [Base58]: [src/Common/]
      (int-util.h, Varint.h, StreamTools.cpp and the streams, StringTools.cpp,
      Base58.cpp).
    - [CryptoNote]: the data types of [include/CryptoNote.h] and the functions
      on transactions of [CryptoNoteFormatUtils.cpp].
    - [Serializer], [Serialization]: [src/Serialization/] (ISerializer and its
      binary implementations) and [CryptoNoteSerialization.cpp]; one definition
      per [serialize] overload, used for reading and for writing.
    - [TransactionExtra]: [TransactionExtra.cpp].
    - [Interest], [Currency], [Difficulty]: [Currency.cpp], [Difficulty.cpp];
      interest with IEEE 754 arithmetic.
    - [DepositIndex], [BlockIndex], [Checkpoints], [UpgradeDetector],
      [BlockchainIndices]: the files of these names in [src/CryptoNoteCore/].
    - [TreeHash]: [crypto/tree-hash.c] and the block hash.
    - [ChainState], [Validation], [Blockchain]: [Blockchain.cpp], in three layers:
      what one transaction does to the ledger, the checks, and single blocks.
    - [TransactionPool], [PoolInvariant]: [TransactionPool.cpp] and the stateless
      checks of [Core.cpp]; the pool sees the chain through the class
      [ITransactionValidator].
    - [Reorganization], [MainChain]: the chain and the pool together, alternative
      chains, [addNewBlock]; there the chain is the instance of
      [ITransactionValidator].
    - [TransactionApi]: the transaction objects of the wallets
      ([TransactionUtils.cpp], [TransactionPrefixImpl.cpp], [Transaction.cpp],
      [TransactionApiExtra.h]); readers implement the class
      [ITransactionReader].
    - [TransactionConstruction]: [constructTransaction] of
      [CryptoNoteFormatUtils.cpp].
    - [TransfersContainer], [TransfersInvariant], [TransfersTheory]:
      [Transfers/TransfersContainer.cpp], the outputs a wallet account owns, its
      invariant and what follows for the wallet.  The container reads
      transactions through [ITransactionReader].
    - [ShuffleGenerator]: [Common/ShuffleGenerator.h].
    - [ChainQueries]: the questions wallets ask the chain ([Blockchain.cpp],
      [Core.cpp]).
    - [SynchronizationState], [BlockchainSynchronizer]: what a wallet knows of
      the chain, and the synchronizer ([Transfers/BlockchainSynchronizer.cpp])
      with the states of its worker thread as a step relation.  Wallets implement
      the class [IBlockchainConsumer]; what they promise is the class
      [ConsumerLaws], against which the synchronizer is verified.
    - [WalletSync]: the node, the synchronizer and its wallets together.
    - [TransfersConsumer], [ConsumerTheory]: the search for the outputs of
      accounts ([Transfers/TransfersConsumer.cpp], [TransfersSubscription.cpp])
      and its instance of [ConsumerLaws].
    - [Keccak]: the hash function ([crypto/keccak.c], [crypto/hash.c]) and the Keccak
      reference.
    - [Limbs], [ScalarOps], [FieldOps], [Recoding]: the arithmetic of
      [crypto/crypto-ops.c] on limbs: 64-bit operations whose overflow is undefined,
      with an interval analysis and a symbolic execution proved correct once; scalars
      modulo the group order, field elements modulo 2^255 - 19, recodings.
    - [Group], [PrimeField], [Edwards], [Cofactor]: the mathematics: groups as a class
      and multiples, Fermat's theorem, primality certificates and square roots, the
      group of the curve (an instance of the class), and that eight times the group
      order kills every point.
    - [GroupOps], [BaseTable], [BaseMultiples], [ScalarMult], [HashToPoint]: the
      functions [ge_*] of [crypto-ops.c] and the tables of [crypto-ops-data.c], and
      that they compute in that group.
    - [Crypto], [CryptoTheory]: the class [crypto_ops] of [crypto/crypto.cpp] and the
      random generator ([random.c]), on top of the above.
    - [Chacha8]: the cipher of messages ([crypto/chacha8.c]).
    - [KVBinary], [KVTheory], [KVCodec]: the key-value format of the messages
      between nodes ([Serialization/KVBinary*], [JsonInputValueSerializer.cpp]): the
      parser, the reader and the writer; safety on every input; round trips composed
      from those of the members.
    - [P2pProtocol], [Levin]: the messages ([P2p/P2pProtocolDefinitions.h],
      [CryptoNoteProtocolDefinitions.h]) and their framing on a connection
      ([P2p/LevinProtocol.cpp]).  A message is an instance of the class [KVMessage], a
      connection one of the stream classes.
    - [PeerList]: the lists of peers ([P2p/PeerListManager.cpp]), blocked hosts and the
      queues of messages ([P2p/NetNode.cpp]).
    - [ProtocolHandler]: the handlers of the messages
      ([CryptoNoteProtocolHandler.cpp], [P2p/NetNode.cpp]) against the interface
      [ICore] of the core, and the loop of a connection.
    - [Payments]: the wallet, the node and the cryptography together; there the
      functions of [Crypto], [Keccak] and [Chacha8] are the instances of the classes
      through which the chain and the wallets see them.
    - [PaymentPool]: a payment on its way through the core's and the pool's checks.

    Each object of the source is a record, each method a function from the state
    to an [outcome] of the result and the new state, with the name of the
    method.  Hash maps are finite maps ([gmap]); containers whose order matters
    are lists.  Code outside of [src/src] is a parameter or an operation of a class;
    so are the cryptographic functions in the files on the chain, the pool and the
    wallets, which do not depend on how these are computed; where a theorem relies on
    them the hypothesis is in its statement.

    ** What the theorems show

    - Ledger: no key image is recorded as spent twice; for blocks whose
      transactions have new and distinct hashes, popping a block restores the state
      before it (but for the size limit), and a rejected block changes nothing
      unless its size is refused.
    - Main chain: whatever arrives, the main chain is a chain of hashes that
      agrees with its indexes, and reorganisation replaces exactly the blocks
      above the split.
    - Validation: what an accepted input proves about the output it spends
      (existence, unlocked, term over, signatures), and that an accepted miner
      transaction claims no more than the reward.
    - Pool: its tables are those of its transactions, it holds no conflicts among
      the transactions of peers, and block templates are sound.
    - Formats: parsers and writers are inverse to one another, accepted encodings
      are canonical, and the block identifier commits to the whole block.
    - Money and difficulty: rewards, penalties and interest have their exact
      values or bounds without overflow.
    - Indexes: they refine the plain history of the blocks.
    - Wallet: transaction objects never hold a stale hash or a signature for
      another prefix; the container of transfers is consistent after every
      sequence of operations that return, forgets exactly the deleted and detached
      transactions and counts no coin twice.
    - Synchronization: a round brings wallets on any fork to the node's chain;
      the consumer of transfers keeps the promise on which this relies and records
      what it finds, whatever the order of its worker threads; a request to stop ends
      the worker thread as soon as the node answers the query in flight; outputs
      offered for mixing can be used, and as many are offered as there are.
    - Cryptography, from the machine integers up, with no assumption: hashing is
      Keccak-256; every operation on scalars, field elements and points is exact and
      never overflows; signatures, transaction proofs and ring signatures made by the
      code are accepted by the code; the checks accept exactly what satisfies the
      verification equations (and key images in the subgroup); both ends of a
      one-time address agree.
    - Network: every input is parsed, or refused with an exception, into a value no
      larger than itself; every message arrives as it was sent, a request reaches the
      handler and its response comes back; messages without nested structures can be
      decoded from any bytes.  The parser has one unit of fuel per byte of input and
      one more; [KVTheory.kv_parser_safe] shows that it is never used up.
    - Peers: whatever other nodes send, the lists of peers stay ordered, bounded and
      without repeated or forbidden addresses ([PeerList.peerlists_invariant]); a host
      that fails ten times is refused for a day ([PeerList.failing_host_blocked]);
      of a response with blocks the core gets only blocks that were requested, each
      once, and transactions they name ([ProtocolHandler.response_solicited]).
    - Payments, end to end and with this cryptography: every order an account can pay
      becomes a transaction, whatever the random numbers; the core's, the chain's and
      the pool's checks accept it if its key images are new; the receiver's wallet finds every output paid to it and reads the messages.

    Behaviours of the code that differ from what it means to do are theorems too
    (for example [Blockchain.money_from_nothing], [Difficulty.LWMA3_long_window],
    [MainChain.alternative_difficulty]).

    ** Fuel and bounds

    Recursion is structural wherever the loop of the source is over a container.
    The loops that are not carry fuel computed from their input: [readVarint] ten
    steps (a 64-bit varint has at most ten bytes), the Merkle tree the number of
    hashes, the extra parser the number of bytes, the walk along an alternative
    chain the number of alternative blocks plus one, the walk down the timestamps
    the height plus one, the blocks of a hash and of random bytes their number of
    bytes; the theorems about these functions show that the fuel is
    never exhausted, or the function throws when it is and the theorems about its
    success cover the rest.

    ** Not modelled

    Log output, timers, locks and files; accepting and opening connections and
    writing to them, RPC and HTTP,
    the system layer (coroutines, sockets), the proof-of-work hash (vector
    instructions), the files of wallets, the command line programs and the
    graphical or service wallets; start-up from disk.  What cryptography assumes of
    discrete logarithms and of hashes is not stated: the theorems on signatures are
    about what the code computes.  Vendored code under [external/] is not part of the program. *)
From stdpp Require Export base numbers list gmap sorting strings.
From Stdlib Require Export ZArith Lia.

Open Scope Z_scope.

(** * Machine integers

    A w-bit unsigned integer of the source is a [Z]; the operations of the
    source that can leave the range wrap explicitly with [u8], [u16], [u32],
    [u64]; a conversion to [int64_t] is [i64]. *)

Definition u8 (x : Z) : Z := x mod 256.
Definition u16 (x : Z) : Z := x mod 65536.
Definition u32 (x : Z) : Z := x mod 4294967296.
Definition u64 (x : Z) : Z := x mod 18446744073709551616.
Definition i64 (x : Z) : Z :=
  (x + 9223372036854775808) mod 18446744073709551616 - 9223372036854775808.

Definition is_u8 (x : Z) : Prop := 0 <= x < 256.
Definition is_u16 (x : Z) : Prop := 0 <= x < 65536.
Definition is_u32 (x : Z) : Prop := 0 <= x < 4294967296.
Definition is_u64 (x : Z) : Prop := 0 <= x < 18446744073709551616.
Definition is_i64 (x : Z) : Prop :=
  -9223372036854775808 <= x < 9223372036854775808.

#[export] Instance is_u8_dec x : Decision (is_u8 x).
Proof. unfold is_u8. apply _. Defined.
#[export] Instance is_u32_dec x : Decision (is_u32 x).
Proof. unfold is_u32. apply _. Defined.
#[export] Instance is_u64_dec x : Decision (is_u64 x).
Proof. unfold is_u64. apply _. Defined.
#[export] Instance is_i64_dec x : Decision (is_i64 x).
Proof. unfold is_i64. apply _. Defined.

Definition UINT32_MAX : Z := 4294967295.
Definition UINT64_MAX : Z := 18446744073709551615.

(** Arithmetic on wrapped integers: unfold the wrapping, turn division and
    modulo by constants into equations, and call [lia]. *)
Ltac wunfold :=
  unfold is_u8, is_u16, is_u32, is_u64, is_i64, u8, u16, u32, u64, i64,
    UINT32_MAX, UINT64_MAX in *.
Ltac mlia := wunfold; Z.to_euclidean_division_equations; lia.

Lemma u64_small x : is_u64 x -> u64 x = x.
Proof. intros; apply Z.mod_small; assumption. Qed.
Lemma u32_small x : is_u32 x -> u32 x = x.
Proof. intros; apply Z.mod_small; assumption. Qed.
Lemma u16_small x : is_u16 x -> u16 x = x.
Proof. intros; apply Z.mod_small; assumption. Qed.
Lemma u8_small x : is_u8 x -> u8 x = x.
Proof. intros; apply Z.mod_small; assumption. Qed.
Lemma i64_small x : is_i64 x -> i64 x = x.
Proof. unfold is_i64, i64. intros. rewrite Z.mod_small; lia. Qed.

Lemma u64_range x : is_u64 (u64 x).
Proof. apply Z.mod_pos_bound; lia. Qed.
Lemma u32_range x : is_u32 (u32 x).
Proof. apply Z.mod_pos_bound; lia. Qed.
Lemma u8_range x : is_u8 (u8 x).
Proof. apply Z.mod_pos_bound; lia. Qed.
Lemma i64_range x : is_i64 (i64 x).
Proof.
  unfold is_i64, i64.
  pose proof (Z.mod_pos_bound (x + 9223372036854775808) 18446744073709551616). lia.
Qed.

Create HintDb machine.
#[export] Hint Resolve u64_range u32_range u8_range i64_range : machine.
#[export] Hint Rewrite u64_small u32_small u16_small u8_small i64_small
  using (wunfold; lia) : machine.

(** * Outcomes

    A call of the program returns a value, throws a C++ exception, stops at a
    failed [assert], or has undefined behaviour (an index out of range of a
    [std::vector] through [operator[]], a null pointer dereference, ...). *)

Inductive exn :=
| runtime_error
| out_of_range
| invalid_argument
| bad_get.

Inductive outcome (A : Type) :=
| Ok (a : A)
| Throw (e : exn)
| AssertFailed
| Undefined.
Arguments Ok {A} a.
Arguments Throw {A} e.
Arguments AssertFailed {A}.
Arguments Undefined {A}.

#[export] Instance exn_eq_dec : EqDecision exn.
Proof. solve_decision. Defined.
#[export] Instance outcome_eq_dec {A} `{EqDecision A} : EqDecision (outcome A).
Proof. solve_decision. Defined.

#[export] Instance outcome_ret : MRet outcome := fun A a => Ok a.
#[export] Instance outcome_bind : MBind outcome := fun A B f m =>
  match m with
  | Ok a => f a
  | Throw e => Throw e
  | AssertFailed => AssertFailed
  | Undefined => Undefined
  end.
#[export] Instance outcome_map : FMap outcome := fun A B f m =>
  match m with
  | Ok a => Ok (f a)
  | Throw e => Throw e
  | AssertFailed => AssertFailed
  | Undefined => Undefined
  end.

Lemma bind_Ok {A B} (m : outcome A) (f : A -> outcome B) b :
  (m ≫= f) = Ok b <-> exists a, m = Ok a /\ f a = Ok b.
Proof. destruct m; cbn; naive_solver. Qed.

(** The build configuration: [NDEBUG] removes the [assert]s.  The Makefile's
    release target runs [cmake] without a build type, which leaves them in;
    a Release configuration removes them. *)
Class BuildConfig := { NDEBUG : bool }.

Definition massert `{BuildConfig} (b : bool) : outcome unit :=
  if NDEBUG then Ok tt else if b then Ok tt else AssertFailed.

Lemma massert_true `{BuildConfig} b : b = true -> massert b = Ok tt.
Proof. intros ->. unfold massert. by destruct NDEBUG. Qed.

(** The two configurations. *)
Definition debug_build : BuildConfig := {| NDEBUG := false |}.
Definition release_build : BuildConfig := {| NDEBUG := true |}.

(** [v[i]] on a [std::vector]: undefined out of range. *)
Definition vget {A} (v : list A) (i : Z) : outcome A :=
  if (i <? 0) then Undefined
  else match v !! Z.to_nat i with Some a => Ok a | None => Undefined end.

(** [v.back()]. *)
Definition vback {A} (v : list A) : outcome A :=
  match last v with Some a => Ok a | None => Undefined end.

(** [v[i]] and [v.back()] on a [SwappedVector], which throw out of range. *)
Definition sget {A} (v : list A) (i : Z) : outcome A :=
  if (i <? 0) then Throw runtime_error
  else match v !! Z.to_nat i with Some a => Ok a | None => Throw runtime_error end.
Definition sback {A} (v : list A) : outcome A :=
  match last v with Some a => Ok a | None => Throw runtime_error end.

(** [std::vector::pop_back]. *)
Definition vpop {A} (v : list A) : list A := take (length v - 1) v.

Definition zlen {A} (v : list A) : Z := Z.of_nat (length v).

Lemma zlen_app {A} (l k : list A) : zlen (l ++ k) = zlen l + zlen k.
Proof. unfold zlen. rewrite length_app. lia. Qed.
Lemma zlen_cons {A} (x : A) l : zlen (x :: l) = 1 + zlen l.
Proof. unfold zlen. simpl. lia. Qed.
Lemma zlen_nil {A} : zlen (@nil A) = 0.
Proof. reflexivity. Qed.
Lemma zlen_snoc {A} (l : list A) x : zlen (l ++ [x]) = zlen l + 1.
Proof. by rewrite zlen_app. Qed.
Lemma zlen_nonneg {A} (l : list A) : 0 <= zlen l.
Proof. unfold zlen. lia. Qed.
#[export] Hint Rewrite @zlen_app @zlen_cons @zlen_nil : machine.

Lemma vget_Ok {A} (v : list A) i a :
  vget v i = Ok a <-> 0 <= i /\ v !! Z.to_nat i = Some a.
Proof.
  unfold vget. destruct (Z.ltb_spec i 0); [naive_solver lia|].
  destruct (v !! Z.to_nat i); naive_solver.
Qed.

Lemma vget_nat {A} (v : list A) n :
  vget v (Z.of_nat n) = match v !! n with Some a => Ok a | None => Undefined end.
Proof. unfold vget. destruct (Z.ltb_spec (Z.of_nat n) 0); [lia|]. by rewrite Nat2Z.id. Qed.

Lemma sget_Ok {A} (v : list A) i a :
  sget v i = Ok a <-> 0 <= i /\ v !! Z.to_nat i = Some a.
Proof.
  unfold sget. destruct (Z.ltb_spec i 0); [naive_solver lia|].
  destruct (v !! Z.to_nat i); naive_solver.
Qed.

Lemma vget_in_range {A} (v : list A) i :
  0 <= i < zlen v -> exists a, vget v i = Ok a.
Proof.
  intros [H1 H2]. unfold zlen in H2.
  destruct (lookup_lt_is_Some_2 v (Z.to_nat i)) as [a Ha]; [lia|].
  exists a. apply vget_Ok. by split.
Qed.

Lemma sget_in_range {A} (v : list A) i :
  0 <= i < zlen v -> exists a, sget v i = Ok a.
Proof.
  intros [a Ha]%vget_in_range. exists a. apply sget_Ok. by apply vget_Ok.
Qed.

Lemma vpop_app {A} (v : list A) a : vpop (v ++ [a]) = v.
Proof.
  unfold vpop. rewrite length_app. simpl.
  replace (length v + 1 - 1)%nat with (length v) by lia. apply take_app_length.
Qed.

Lemma rev_replicate {A} n (x : A) : rev (replicate n x) = replicate n x.
Proof. induction n as [|n IH]; [done|]. rewrite replicate_S_end at 2. cbn. by rewrite IH. Qed.
Lemma map_replicate {A B} (f : A -> B) n x : map f (replicate n x) = replicate n (f x).
Proof. induction n as [|n IH]; [done|]. cbn. by rewrite IH. Qed.

(** * Sums of 64-bit integers *)

(** The accumulation loop [for (x : l) acc += f(x);] on [uint64_t]. *)
Definition sum_u64 (l : list Z) : Z := fold_left (fun acc x => u64 (acc + x)) l 0.

Definition sum_Z (l : list Z) : Z := foldr Z.add 0 l.

Lemma u64_add_l x y : u64 (u64 x + y) = u64 (x + y).
Proof. unfold u64. apply Zplus_mod_idemp_l. Qed.
Lemma u64_add_r x y : u64 (x + u64 y) = u64 (x + y).
Proof. unfold u64. apply Zplus_mod_idemp_r. Qed.

Lemma fold_u64_sum l a :
  fold_left (fun acc x => u64 (acc + x)) l (u64 a) = u64 (a + sum_Z l).
Proof.
  revert a. induction l as [|x l IH]; intros a; simpl.
  - f_equal. lia.
  - rewrite u64_add_l, IH. f_equal. lia.
Qed.

Lemma sum_u64_spec l : sum_u64 l = u64 (sum_Z l).
Proof. apply (fold_u64_sum l 0). Qed.

Lemma sum_Z_app l k : sum_Z (l ++ k) = sum_Z l + sum_Z k.
Proof. induction l; simpl; lia. Qed.

Lemma sum_Z_nonneg l : Forall (fun x => 0 <= x) l -> 0 <= sum_Z l.
Proof. induction 1; simpl; lia. Qed.

#[export] Instance sum_Z_perm : Proper ((≡ₚ) ==> (=)) sum_Z.
Proof. intros l k. induction 1; simpl in *; lia. Qed.

(** * Positional numerals

    [digits b n x]: the [n] least significant digits of [x] in base [b], least
    significant first; [value b l]: the number a digit list denotes. *)

Fixpoint digits (b : Z) (n : nat) (x : Z) : list Z :=
  match n with O => [] | S n => x mod b :: digits b n (x / b) end.

Definition value (b : Z) (l : list Z) : Z := foldr (fun d v => d + b * v) 0 l.

Definition is_digit (b d : Z) : Prop := 0 <= d < b.

Lemma length_digits b n x : length (digits b n x) = n.
Proof. revert x. induction n; intros; simpl; auto. Qed.

Lemma digits_ok b n x : 0 < b -> Forall (is_digit b) (digits b n x).
Proof.
  intros Hb. revert x. induction n; intros; simpl; constructor; auto.
  apply Z.mod_pos_bound; lia.
Qed.

Lemma value_bound b l :
  0 < b -> Forall (is_digit b) l -> 0 <= value b l < b ^ zlen l.
Proof.
  intros Hb. induction 1 as [|d l Hd Hl IH]; [change (b ^ zlen []) with 1; cbn; lia|].
  rewrite zlen_cons, Z.pow_add_r, Z.pow_1_r by (pose proof (zlen_nonneg l); lia).
  unfold is_digit in Hd. unfold value in *. cbn [foldr]. nia.
Qed.

Lemma value_digits b n x : 0 < b -> 0 <= x < b ^ Z.of_nat n -> value b (digits b n x) = x.
Proof.
  intros Hb. revert x. induction n as [|n IH]; intros x Hx.
  { change (b ^ Z.of_nat 0) with 1 in Hx. cbn. lia. }
  rewrite Nat2Z.inj_succ, Z.pow_succ_r in Hx by lia.
  unfold value in *. cbn [digits foldr]. rewrite IH.
  - pose proof (Z.div_mod x b ltac:(lia)). lia.
  - split; [apply Z.div_pos; lia|apply Z.div_lt_upper_bound; lia].
Qed.

Lemma digits_value b l : 0 < b -> Forall (is_digit b) l -> digits b (length l) (value b l) = l.
Proof.
  intros Hb. induction 1 as [|d l Hd Hl IH]; [done|].
  unfold is_digit in Hd. unfold value in *. cbn [length digits foldr].
  rewrite (Z.mul_comm b), Z.mod_add, Z.mod_small by lia.
  rewrite Z.div_add, Z.div_small, Z.add_0_l by lia. by rewrite IH.
Qed.

Lemma digits_zero b n : 0 < b -> digits b n 0 = replicate n 0.
Proof.
  intros Hb. induction n as [|n IH]; [done|]. cbn [digits replicate].
  rewrite Z.mod_0_l, Z.div_0_l by lia. by rewrite IH.
Qed.

Lemma value_app b l k : 0 < b -> value b (l ++ k) = value b l + b ^ zlen l * value b k.
Proof.
  intros Hb. induction l as [|d l IH].
  - change (b ^ zlen []) with 1. cbn [app]. unfold value at 2. cbn. lia.
  - rewrite zlen_cons, Z.pow_add_r, Z.pow_1_r by (pose proof (zlen_nonneg l); lia).
    cbn [app]. unfold value in *. cbn [foldr]. rewrite IH. ring.
Qed.

(** * Case analysis helpers *)

(** Destruct the innermost [if] / [match] scrutinee of the goal or of [H]. *)
Ltac case_step :=
  match goal with
  | |- context [if ?b then _ else _] =>
      lazymatch b with context [if _ then _ else _] => fail | _ => destruct b eqn:? end
  | |- context [match ?x with _ => _ end] =>
      lazymatch x with context [match _ with _ => _ end] => fail | _ => destruct x eqn:? end
  end.
Ltac case_in H :=
  match type of H with
  | context [if ?b then _ else _] =>
      lazymatch b with context [if _ then _ else _] => fail | _ => destruct b eqn:? end
  | context [match ?x with _ => _ end] =>
      lazymatch x with context [match _ with _ => _ end] => fail | _ => destruct x eqn:? end
  end.

(** Turn boolean comparisons on [Z] in the context into propositions. *)
Ltac zbool :=
  repeat match goal with
  | H : (_ && _)%bool = true |- _ => apply andb_prop in H; destruct H
  | H : (_ && _)%bool = false |- _ => apply andb_false_iff in H
  | H : (_ || _)%bool = true |- _ => apply orb_true_iff in H
  | H : (_ || _)%bool = false |- _ => apply orb_false_iff in H; destruct H
  | H : negb _ = true |- _ => apply negb_true_iff in H
  | H : negb _ = false |- _ => apply negb_false_iff in H
  | H : (_ <? _) = true |- _ => apply Z.ltb_lt in H
  | H : (_ <? _) = false |- _ => apply Z.ltb_ge in H
  | H : (_ <=? _) = true |- _ => apply Z.leb_le in H
  | H : (_ <=? _) = false |- _ => apply Z.leb_gt in H
  | H : (_ =? _) = true |- _ => apply Z.eqb_eq in H
  | H : (_ =? _) = false |- _ => apply Z.eqb_neq in H
  | H : bool_decide _ = true |- _ => apply bool_decide_eq_true in H
  | H : bool_decide _ = false |- _ => apply bool_decide_eq_false in H
  end.
