(* ===== verification/IntUtil.v ===== *)
(** Fixed-width integer helpers: [Common/int-util.h].

    128-bit multiplication and division built from 64-bit operations, and the
    byte swaps.  The targets of the program are little endian, so [swap64le]
    is the identity and [SWAP64BE] is the byte reversal [SWAP64]. *)
From S2P Require Import Prelude.

Definition rol32 (x r : Z) : Z :=
  Z.lor (u32 (Z.shiftl x (Z.land r 31))) (Z.shiftr x (Z.land (- r) 31)).

Definition rol64 (x r : Z) : Z :=
  Z.lor (u64 (Z.shiftl x (Z.land r 63))) (Z.shiftr x (Z.land (- r) 63)).

Definition hi_dword (val : Z) : Z := Z.shiftr val 32.

Definition lo_dword (val : Z) : Z := Z.land val 4294967295.

(** [mul128] returns the low word and stores the high word in [product_hi];
    here the pair of both.  The closing [assert(ac <= *product_hi)] is part of
    [mul128_spec]. *)
Definition mul128 (multiplier multiplicand : Z) : Z * Z :=
  let a := hi_dword multiplier in
  let b := lo_dword multiplier in
  let c := hi_dword multiplicand in
  let d := lo_dword multiplicand in
  let ac := u64 (a * c) in
  let ad := u64 (a * d) in
  let bc := u64 (b * c) in
  let bd := u64 (b * d) in
  let adbc := u64 (ad + bc) in
  let adbc_carry := if adbc <? ad then 1 else 0 in
  let product_lo := u64 (bd + u64 (Z.shiftl adbc 32)) in
  let product_lo_carry := if product_lo <? bd then 1 else 0 in
  let product_hi :=
    u64 (u64 (u64 (ac + Z.shiftr adbc 32) + Z.shiftl adbc_carry 32) + product_lo_carry) in
  (product_lo, product_hi).

(** [div_with_reminder dividend divisor remainder]: quotient and new
    remainder. *)
Definition div_with_reminder (dividend divisor remainder : Z) : Z * Z :=
  let dividend := Z.lor dividend (Z.shiftl remainder 32) in
  (dividend / divisor, u32 (dividend mod divisor)).

(** Long division with base 2^32: (remainder, quotient_hi, quotient_lo). *)
Definition div128_32 (dividend_hi dividend_lo divisor : Z) : Z * Z * Z :=
  let d3 := hi_dword dividend_hi in
  let d2 := lo_dword dividend_hi in
  let d1 := hi_dword dividend_lo in
  let d0 := lo_dword dividend_lo in
  let '(q3, r3) := div_with_reminder d3 divisor 0 in
  let '(q2, r2) := div_with_reminder d2 divisor r3 in
  let '(q1, r1) := div_with_reminder d1 divisor r2 in
  let '(q0, r0) := div_with_reminder d0 divisor r1 in
  (r0, Z.lor (u64 (Z.shiftl q3 32)) q2, Z.lor (u64 (Z.shiftl q1 32)) q0).

Definition SWAP64 (x : Z) : Z :=
  Z.lor (Z.shiftl (Z.land x 0xff) 56)
  (Z.lor (Z.shiftl (Z.land x 0xff00) 40)
  (Z.lor (Z.shiftl (Z.land x 0xff0000) 24)
  (Z.lor (Z.shiftl (Z.land x 0xff000000) 8)
  (Z.lor (Z.shiftr (Z.land x 0xff00000000) 8)
  (Z.lor (Z.shiftr (Z.land x 0xff0000000000) 24)
  (Z.lor (Z.shiftr (Z.land x 0xff000000000000) 40)
         (Z.shiftr (Z.land x 0xff00000000000000) 56))))))).

Definition swap32 (x : Z) : Z :=
  let x := Z.lor (u32 (Z.shiftl (Z.land x 0x00ff00ff) 8))
                 (Z.shiftr (Z.land x 0xff00ff00) 8) in
  Z.lor (u32 (Z.shiftl x 16)) (Z.shiftr x 16).

Definition swap64 (x : Z) : Z :=
  let x := Z.lor (u64 (Z.shiftl (Z.land x 0x00ff00ff00ff00ff) 8))
                 (Z.shiftr (Z.land x 0xff00ff00ff00ff00) 8) in
  let x := Z.lor (u64 (Z.shiftl (Z.land x 0x0000ffff0000ffff) 16))
                 (Z.shiftr (Z.land x 0xffff0000ffff0000) 16) in
  Z.lor (u64 (Z.shiftl x 32)) (Z.shiftr x 32).

Definition ident64 (x : Z) : Z := x.

(** * Words and half words *)

Lemma hi_dword_div x : hi_dword x = x / 4294967296.
Proof. unfold hi_dword. rewrite Z.shiftr_div_pow2 by lia. reflexivity. Qed.

Lemma lo_dword_mod x : lo_dword x = x mod 4294967296.
Proof. unfold lo_dword. change 4294967295 with (Z.ones 32). by rewrite Z.land_ones by lia. Qed.

Lemma shiftl32 x : Z.shiftl x 32 = x * 4294967296.
Proof. by rewrite Z.shiftl_mul_pow2 by lia. Qed.

Lemma shiftr32 x : Z.shiftr x 32 = x / 4294967296.
Proof. by rewrite Z.shiftr_div_pow2 by lia. Qed.

Lemma split_dwords x :
  is_u64 x ->
  x = hi_dword x * 4294967296 + lo_dword x /\ is_u32 (hi_dword x) /\ is_u32 (lo_dword x).
Proof. intros Hx. rewrite hi_dword_div, lo_dword_mod. mlia. Qed.

(** A disjoint [or] is an addition. *)
Lemma lor_add_disjoint k hi lo :
  0 <= k -> 0 <= lo < 2 ^ k -> Z.lor lo (Z.shiftl hi k) = hi * 2 ^ k + lo.
Proof.
  intros Hk Hlo. rewrite Z.add_comm, <- Z.shiftl_mul_pow2 by lia.
  rewrite Z.add_nocarry_lxor.
  - apply Z.bits_inj'. intros i Hi. rewrite Z.lxor_spec, Z.lor_spec.
    destruct (Z.lt_ge_cases i k).
    + rewrite Z.shiftl_spec_low by lia. by destruct (Z.testbit lo i).
    + rewrite <- (Z.mod_small lo (2 ^ k)) by lia.
      rewrite Z.mod_pow2_bits_high by lia. by destruct (Z.testbit _ i).
  - apply Z.bits_inj'. intros i Hi. rewrite Z.land_spec, Z.bits_0.
    destruct (Z.lt_ge_cases i k).
    + rewrite Z.shiftl_spec_low by lia. by rewrite andb_false_r.
    + rewrite <- (Z.mod_small lo (2 ^ k)) by lia.
      by rewrite Z.mod_pow2_bits_high by lia.
Qed.

(** The carry arithmetic of [mul128], with the four partial products as
    variables. *)
Lemma mul128_carries ac ad bc bd p :
  p = ac * 18446744073709551616 + (ad + bc) * 4294967296 + bd ->
  0 <= ac <= 18446744065119617025 -> 0 <= ad <= 18446744065119617025 ->
  0 <= bc <= 18446744065119617025 -> 0 <= bd <= 18446744065119617025 ->
  p < 340282366920938463463374607431768211456 ->
  let adbc := u64 (ad + bc) in
  let lo := u64 (bd + u64 (adbc * 4294967296)) in
  let hi := u64 (u64 (u64 (ac + adbc / 4294967296)
                      + (if adbc <? ad then 1 else 0) * 4294967296)
                 + (if lo <? bd then 1 else 0)) in
  hi * 18446744073709551616 + lo = p /\ ac <= hi.
Proof.
  intros Hp ? ? ? ? Hlt adbc lo hi.
  assert (Hadbc : adbc + (if adbc <? ad then 1 else 0) * 18446744073709551616 = ad + bc /\ is_u64 adbc).
  { subst adbc. case_step; zbool; mlia. }
  destruct Hadbc as [Hadbc Hr]. clearbody adbc.
  assert (Hlo : lo + (if lo <? bd then 1 else 0) * 18446744073709551616
                = bd + u64 (adbc * 4294967296) /\ is_u64 lo).
  { subst lo. pose proof (u64_range (adbc * 4294967296)).
    set (t := u64 (adbc * 4294967296)) in *. clearbody t. case_step; zbool; mlia. }
  destruct Hlo as [Hlo Hrl]. clearbody lo.
  set (c1 := if adbc <? ad then 1 else 0) in *.
  set (c2 := if lo <? bd then 1 else 0) in *.
  assert (0 <= c1 <= 1 /\ 0 <= c2 <= 1) by (subst c1 c2; repeat case_step; lia).
  clearbody c1 c2.
  assert (Hsh : u64 (adbc * 4294967296) =
    adbc * 4294967296 - adbc / 4294967296 * 18446744073709551616) by mlia.
  rewrite Hsh in Hlo.
  set (q := adbc / 4294967296) in *.
  assert (0 <= q < 4294967296) by (subst q; mlia). clearbody q.
  assert (hi = ac + q + c1 * 4294967296 + c2).
  { subst hi. assert (ac + q + c1 * 4294967296 + c2 < 18446744073709551616) by (wunfold; lia).
    rewrite (u64_small (ac + q)), (u64_small (_ + c1 * _)), u64_small; wunfold; lia. }
  lia.
Qed.

(** The whole contract of [mul128], for its callers. *)
Lemma mul128_product (x y : Z) :
  is_u64 x -> is_u64 y ->
  let '(lo, hi) := mul128 x y in
  hi * 2 ^ 64 + lo = x * y /\ is_u64 lo /\ is_u64 hi /\
  u64 (hi_dword x * hi_dword y) <= hi.
Proof.
  intros Hx Hy.
  destruct (split_dwords x Hx) as (Ex & Ha & Hb).
  destruct (split_dwords y Hy) as (Ey & Hc & Hd).
  unfold mul128. rewrite !shiftl32, shiftr32.
  set (a := hi_dword x) in *. set (b := lo_dword x) in *.
  set (c := hi_dword y) in *. set (d := lo_dword y) in *.
  assert (Hp : forall u v, is_u32 u -> is_u32 v -> 0 <= u * v <= 18446744065119617025)
    by (wunfold; nia).
  pose proof (Hp a c Ha Hc). pose proof (Hp a d Ha Hd).
  pose proof (Hp b c Hb Hc). pose proof (Hp b d Hb Hd).
  rewrite (u64_small (a * c)), (u64_small (a * d)), (u64_small (b * c)),
    (u64_small (b * d)) by (wunfold; lia).
  destruct (mul128_carries (a * c) (a * d) (b * c) (b * d) (x * y)) as [E1 E2];
    try assumption.
  - rewrite Ex, Ey. ring.
  - wunfold. nia.
  - split; [exact E1|]. auto with machine.
Qed.

Lemma mul128_exact x y :
  is_u64 x -> is_u64 y ->
  let '(lo, hi) := mul128 x y in hi * 2 ^ 64 + lo = x * y /\ is_u64 lo /\ is_u64 hi.
Proof.
  intros Hx Hy. pose proof (mul128_product x y Hx Hy) as M.
  destruct (mul128 x y). naive_solver.
Qed.

(** [mul128] computes the full 128-bit product of two 64-bit integers:
    [product_hi * 2^64 + product_lo = multiplier * multiplicand], both words in
    range, and the assertion [ac <= *product_hi] at its end always holds. *)
Theorem mul128_spec (x y : Z) :
  is_u64 x -> is_u64 y ->
  let '(lo, hi) := mul128 x y in
  hi * 2 ^ 64 + lo = x * y /\ is_u64 lo /\ is_u64 hi /\
  u64 (hi_dword x * hi_dword y) <= hi.
Proof. exact (mul128_product x y). Qed.

Lemma mul128_spec_witness :
  is_u64 18446744073709551615 /\
  (let '(lo, hi) := mul128 18446744073709551615 18446744073709551615 in
   hi * 2 ^ 64 + lo = 18446744073709551615 * 18446744073709551615 /\ is_u64 lo /\ is_u64 hi /\
   u64 (hi_dword 18446744073709551615 * hi_dword 18446744073709551615) <= hi).
Proof.
  split; [unfold is_u64; lia|].
  exact (mul128_spec 18446744073709551615 18446744073709551615
           ltac:(unfold is_u64; lia) ltac:(unfold is_u64; lia)).
Defined.

(** One step of the long division. *)
Lemma div_with_reminder_spec dividend divisor remainder :
  is_u32 dividend -> 0 < divisor < 4294967296 -> 0 <= remainder < divisor ->
  let '(q, r) := div_with_reminder dividend divisor remainder in
  remainder * 4294967296 + dividend = q * divisor + r /\ 0 <= r < divisor /\ is_u32 q.
Proof.
  intros Hd Hv Hr. unfold div_with_reminder.
  rewrite lor_add_disjoint by (wunfold; lia). change (2 ^ 32) with 4294967296.
  set (t := remainder * 4294967296 + dividend).
  pose proof (Z.div_mod t divisor ltac:(lia)).
  pose proof (Z.mod_pos_bound t divisor ltac:(lia)).
  assert (t < divisor * 4294967296) by (subst t; wunfold; nia).
  assert (0 <= t) by (subst t; wunfold; nia).
  rewrite u32_small by (wunfold; lia).
  split; [lia|]. split; [lia|]. split.
  - apply Z.div_pos; lia.
  - apply Z.div_lt_upper_bound; lia.
Qed.

Lemma join_dwords q1 q0 :
  is_u32 q1 -> is_u32 q0 -> Z.lor (u64 (Z.shiftl q1 32)) q0 = q1 * 4294967296 + q0.
Proof.
  intros H1 H0. rewrite u64_small by (rewrite shiftl32; wunfold; lia).
  rewrite Z.lor_comm, lor_add_disjoint by (wunfold; lia). reflexivity.
Qed.

Lemma div128_32_exact (hi lo divisor : Z) :
  is_u64 hi -> is_u64 lo -> 0 < divisor < 4294967296 ->
  let '(rem, qhi, qlo) := div128_32 hi lo divisor in
  qhi * 2 ^ 64 + qlo = (hi * 2 ^ 64 + lo) / divisor /\
  rem = (hi * 2 ^ 64 + lo) mod divisor /\ is_u64 qhi /\ is_u64 qlo.
Proof.
  intros Hhi Hlo Hd.
  destruct (split_dwords hi Hhi) as (Eh & H3 & H2).
  destruct (split_dwords lo Hlo) as (El & H1 & H0).
  unfold div128_32.
  pose proof (div_with_reminder_spec _ _ 0 H3 Hd ltac:(lia)) as S3.
  destruct (div_with_reminder (hi_dword hi) divisor 0) as [q3 r3]. destruct S3 as (E3 & R3 & Q3).
  pose proof (div_with_reminder_spec _ _ _ H2 Hd R3) as S2.
  destruct (div_with_reminder (lo_dword hi) divisor r3) as [q2 r2]. destruct S2 as (E2 & R2 & Q2).
  pose proof (div_with_reminder_spec _ _ _ H1 Hd R2) as S1.
  destruct (div_with_reminder (hi_dword lo) divisor r2) as [q1 r1]. destruct S1 as (E1 & R1 & Q1).
  pose proof (div_with_reminder_spec _ _ _ H0 Hd R1) as S0.
  destruct (div_with_reminder (lo_dword lo) divisor r1) as [q0 r0]. destruct S0 as (E0 & R0 & Q0).
  rewrite !join_dwords by assumption.
  assert (E : hi * 2 ^ 64 + lo =
    divisor * ((q3 * 4294967296 + q2) * 2 ^ 64 + (q1 * 4294967296 + q0)) + r0).
  { rewrite Eh, El. change (2 ^ 64) with 18446744073709551616. lia. }
  split; [|split; [|split]].
  - eapply Z.div_unique_pos; [exact R0|exact E].
  - eapply Z.mod_unique_pos; [exact R0|exact E].
  - wunfold; lia.
  - wunfold; lia.
Qed.

(** [div128_32] is the long division of a 128-bit number by a 32-bit
    divisor: quotient and remainder of the exact Euclidean division. *)
Theorem div128_32_spec (hi lo divisor : Z) :
  is_u64 hi -> is_u64 lo -> 0 < divisor < 4294967296 ->
  let '(rem, qhi, qlo) := div128_32 hi lo divisor in
  qhi * 2 ^ 64 + qlo = (hi * 2 ^ 64 + lo) / divisor /\
  rem = (hi * 2 ^ 64 + lo) mod divisor /\ is_u64 qhi /\ is_u64 qlo.
Proof. exact (div128_32_exact hi lo divisor). Qed.

Lemma div128_32_spec_witness :
  let '(rem, qhi, qlo) := div128_32 5 7 100 in
  qhi * 2 ^ 64 + qlo = (5 * 2 ^ 64 + 7) / 100 /\
  rem = (5 * 2 ^ 64 + 7) mod 100 /\ is_u64 qhi /\ is_u64 qlo.
Proof.
  exact (div128_32_spec 5 7 100 ltac:(unfold is_u64; lia) ltac:(unfold is_u64; lia) ltac:(lia)).
Defined.

(** * Byte reversal *)

Lemma land_byte x k mask :
  0 <= k -> mask = Z.shiftl 255 k -> Z.land x mask = ((x / 2 ^ k) mod 256) * 2 ^ k.
Proof.
  intros Hk ->. change 256 with (2 ^ 8). change 255 with (Z.ones 8).
  rewrite <- Z.shiftl_mul_pow2, <- Z.shiftr_div_pow2, <- Z.land_ones by lia.
  apply Z.bits_inj'. intros i Hi. rewrite Z.land_spec, !Z.shiftl_spec by lia.
  destruct (Z.lt_ge_cases i k).
  - rewrite !(Z.testbit_neg_r _ (i - k)) by lia. apply andb_false_r.
  - rewrite Z.land_spec, Z.shiftr_spec by lia. by replace (i - k + k) with i by lia.
Qed.

(** Moving an isolated byte. *)
Lemma byte_up b k n : 0 <= k -> 0 <= n -> Z.shiftl (b * 2 ^ k) n = Z.shiftl b (k + n).
Proof. intros. rewrite !Z.shiftl_mul_pow2, Z.pow_add_r by lia. ring. Qed.
Lemma byte_down b k n : 0 <= n <= k -> Z.shiftr (b * 2 ^ k) n = Z.shiftl b (k - n).
Proof.
  intros. rewrite Z.shiftr_div_pow2, Z.shiftl_mul_pow2 by lia.
  replace k with (k - n + n) at 1 by lia. rewrite Z.pow_add_r, Z.mul_assoc by lia.
  apply Z.div_mul. apply Z.pow_nonzero; lia.
Qed.

(** Bytes assembled by [or]: the low part stays below the next position. *)
Lemma lor_byte b k lo :
  0 <= k -> is_u8 b -> 0 <= lo < 2 ^ k ->
  Z.lor (Z.shiftl b k) lo = b * 2 ^ k + lo /\ 0 <= b * 2 ^ k + lo < 2 ^ (k + 8).
Proof.
  intros Hk Hb Hlo. rewrite Z.lor_comm, lor_add_disjoint by lia. split; [done|].
  rewrite Z.pow_add_r by lia. change (2 ^ 8) with 256. unfold is_u8 in Hb. nia.
Qed.

Lemma assemble_bytes b0 b1 b2 b3 b4 b5 b6 b7 :
  is_u8 b0 -> is_u8 b1 -> is_u8 b2 -> is_u8 b3 -> is_u8 b4 -> is_u8 b5 -> is_u8 b6 -> is_u8 b7 ->
  Z.lor (Z.shiftl b0 56) (Z.lor (Z.shiftl b1 48) (Z.lor (Z.shiftl b2 40)
    (Z.lor (Z.shiftl b3 32) (Z.lor (Z.shiftl b4 24) (Z.lor (Z.shiftl b5 16)
    (Z.lor (Z.shiftl b6 8) (Z.shiftl b7 0))))))) =
  value 256 [b7; b6; b5; b4; b3; b2; b1; b0].
Proof.
  intros H0 H1 H2 H3 H4 H5 H6 H7. rewrite Z.shiftl_0_r.
  destruct (lor_byte b6 8 b7) as [-> B6]; [lia|done|exact H7|].
  destruct (lor_byte b5 16 _ ltac:(lia) H5 B6) as [-> B5].
  destruct (lor_byte b4 24 _ ltac:(lia) H4 B5) as [-> B4].
  destruct (lor_byte b3 32 _ ltac:(lia) H3 B4) as [-> B3].
  destruct (lor_byte b2 40 _ ltac:(lia) H2 B3) as [-> B2].
  destruct (lor_byte b1 48 _ ltac:(lia) H1 B2) as [-> B1].
  destruct (lor_byte b0 56 _ ltac:(lia) H0 B1) as [-> B0].
  unfold value. cbn [foldr]. lia.
Qed.

(** On a 64-bit word [SWAP64] reverses its eight bytes. *)
Lemma SWAP64_reverses_bytes x :
  digits 256 8 (SWAP64 x) = rev (digits 256 8 x).
Proof.
  assert (E : SWAP64 x = value 256 (rev (digits 256 8 x))).
  { unfold SWAP64.
    rewrite (land_byte x 0 0xff), (land_byte x 8 0xff00), (land_byte x 16 0xff0000),
      (land_byte x 24 0xff000000), (land_byte x 32 0xff00000000), (land_byte x 40 0xff0000000000),
      (land_byte x 48 0xff000000000000), (land_byte x 56 0xff00000000000000)
      by (lia || reflexivity).
    rewrite !byte_up, !byte_down by lia.
    rewrite (assemble_bytes _ _ _ _ _ _ _ _) by apply (Z.mod_pos_bound _ 256 ltac:(lia)).
    cbn [digits rev app]. by rewrite !Z.div_div, Z.div_1_r by lia. }
  rewrite E.
  replace 8%nat with (length (rev (digits 256 8 x))) at 1
    by (rewrite length_rev; apply length_digits).
  apply digits_value; [lia|]. apply Forall_rev, digits_ok. lia.
Qed.
