(* ===== verification/Keccak.v ===== *)
(** The hash function of the program: [keccakf] and [keccak] of [crypto/keccak.c],
    [hash_process] and [cn_fast_hash] of [crypto/hash.c]; that a round is the round of
    the Keccak reference and that the byte loops are its sponge with the padding of
    the third-round submission. *)
From S2P Require Import Prelude IntUtil.

(** * Operations *)

Definition KECCAK_ROUNDS : nat := 24.
Definition HASH_SIZE : nat := 32.
Definition keccakf_rndc : list Z :=
  [0x0000000000000001; 0x0000000000008082; 0x800000000000808a;
   0x8000000080008000; 0x000000000000808b; 0x0000000080000001;
   0x8000000080008081; 0x8000000000008009; 0x000000000000008a;
   0x0000000000000088; 0x0000000080008009; 0x000000008000000a;
   0x000000008000808b; 0x800000000000008b; 0x8000000000008089;
   0x8000000000008003; 0x8000000000008002; 0x8000000000000080;
   0x000000000000800a; 0x800000008000000a; 0x8000000080008081;
   0x8000000000008080; 0x0000000080000001; 0x8000000080008008].
Definition keccakf_rotc : list Z := [1; 3; 6; 10; 15; 21; 28; 36; 45; 55; 2; 14; 27; 41; 56; 8; 25; 43; 62; 18; 39; 61; 20; 44].
Definition keccakf_piln : list nat := [10; 7; 11; 17; 18; 3; 5; 16; 8; 21; 24; 4; 15; 23; 19; 13; 12; 2; 20; 14; 22; 9; 6; 1]%nat.

Definition ROTL64 (x y : Z) : Z := Z.lor (u64 (Z.shiftl x y)) (Z.shiftr x (64 - y)).

Definition theta (st : list Z) : list Z :=
  let bc := map (fun i => Z.lxor (Z.lxor (Z.lxor (Z.lxor (st !!! i) (st !!! (i + 5)%nat)) (st !!! (i + 10)%nat)) (st !!! (i + 15)%nat)) (st !!! (i + 20)%nat)) (seq 0 5) in
  foldl (fun st i =>
    let t := Z.lxor (bc !!! ((i + 4) mod 5)%nat) (ROTL64 (bc !!! ((i + 1) mod 5)%nat) 1) in
    foldl (fun st j => <[(j + i)%nat := Z.lxor (st !!! (j + i)%nat) t]> st) st [0; 5; 10; 15; 20]%nat) st (seq 0 5).
Definition rho_pi (st : list Z) : list Z :=
  (foldl (fun s i =>
    let '(st, t) := s in
    let j := keccakf_piln !!! i in
    let bc0 := st !!! j in
    (<[j := ROTL64 t (keccakf_rotc !!! i)]> st, bc0)) (st, st !!! 1%nat) (seq 0 24)).1.
Definition chi (st : list Z) : list Z :=
  foldl (fun st j =>
    let bc := map (fun i => st !!! (j + i)%nat) (seq 0 5) in
    foldl (fun st i => <[(j + i)%nat := Z.lxor (st !!! (j + i)%nat) (Z.land (u64 (Z.lnot (bc !!! ((i + 1) mod 5)%nat))) (bc !!! ((i + 2) mod 5)%nat))]> st) st (seq 0 5)) st [0; 5; 10; 15; 20]%nat.
Definition iota (st : list Z) (round : nat) : list Z := <[0%nat := Z.lxor (st !!! 0%nat) (keccakf_rndc !!! round)]> st.
Definition keccakf_round (st : list Z) (round : nat) : list Z := iota (chi (rho_pi (theta st))) round.
Definition keccakf (st : list Z) (rounds : nat) : list Z := foldl keccakf_round st (seq 0 rounds).

(** [st[i] ^= ((uint64_t * ) in)[i]] for the first [n] words. *)
Definition word (s : list Z) (i : nat) : Z := value 256 (take 8 (drop (8 * i) s)).
Definition absorb (st : list Z) (n : nat) (block : list Z) : list Z := foldl (fun st i => <[i := Z.lxor (st !!! i) (word block i)]> st) st (seq 0 n).

(** [for ( ; inlen >= rsiz; inlen -= rsiz, in += rsiz)]; [fuel] bounds the rounds.  What
    is left of the input is returned with the state. *)
Fixpoint absorb_blocks (fuel : nat) (rsiz : nat) (st : list Z) (input : list Z) : list Z * list Z :=
  match fuel with
  | O => (st, input)
  | S fuel => if (rsiz <=? length input)%nat then absorb_blocks fuel rsiz (keccakf (absorb st (rsiz / 8) input) KECCAK_ROUNDS) (drop rsiz input) else (st, input)
  end.
(** The last block: [temp]. *)
Definition last_block (rsiz : nat) (input : list Z) : list Z :=
  let temp := input ++ [1] in
  let temp := temp ++ replicate (rsiz - length temp) 0 in
  <[(rsiz - 1)%nat := u8 (Z.lor (temp !!! (rsiz - 1)%nat) 0x80)]> temp.
Definition state_bytes (st : list Z) : list Z := flat_map (digits 256 8) st.
(** [temp] has 144 bytes; outside of these sizes the function writes past it, or does
    not return. *)
Definition keccak (input : list Z) (mdlen : Z) : outcome (list Z) :=
  let rsiz := if 200 =? mdlen then 136 else 200 - 2 * mdlen in
  if (0 <? rsiz) && (rsiz <=? 144) && (mdlen <=? 200) then
    let rsiz := Z.to_nat rsiz in
    let '(st, input) := absorb_blocks (S (length input)) rsiz (replicate 25 0) input in
    let st := keccakf (absorb st (rsiz / 8) (last_block rsiz input)) KECCAK_ROUNDS in
    Ok (take (Z.to_nat mdlen) (state_bytes st))
  else Undefined.
Definition keccak1600 (input : list Z) : outcome (list Z) := keccak input 200.
(** The length is converted to [int]; a negative one is passed to [memcpy]. *)
Definition to_int (x : Z) : Z := (x + 2 ^ 31) mod 2 ^ 32 - 2 ^ 31.
Definition hash_process (buf : list Z) : outcome (list Z) :=
  let inlen := to_int (zlen buf) in
  if inlen <? 0 then Undefined else keccak1600 (take (Z.to_nat inlen) buf).
Definition cn_fast_hash (data : list Z) : outcome (list Z) := state ← hash_process data; Ok (take HASH_SIZE state).

(** The hash of nothing. *)
Example cn_fast_hash_empty : cn_fast_hash [] = Ok
  [0xc5; 0xd2; 0x46; 0x01; 0x86; 0xf7; 0x23; 0x3c; 0x92; 0x7e; 0x7d; 0xb2; 0xdc; 0xc7; 0x03; 0xc0;
   0xe5; 0x00; 0xb6; 0x53; 0xca; 0x82; 0x27; 0x3b; 0x7b; 0xfa; 0xd8; 0x04; 0x5d; 0x85; 0xa4; 0x70].
Proof. vm_compute. reflexivity. Qed.

(** * The Keccak reference *)

Section Reference.
(** The lane at column [x] and row [y]. *)
Definition lane (st : list Z) (x y : nat) : Z := st !!! (x + 5 * y)%nat.
Definition of_lanes (a : nat -> nat -> Z) : list Z := map (fun k => a (k mod 5) (k / 5))%nat (seq 0 25).
Definition rotate (x r : Z) : Z := if r =? 0 then x else ROTL64 x r.

Definition parity (a : nat -> nat -> Z) (x : nat) : Z := Z.lxor (Z.lxor (Z.lxor (Z.lxor (a x 0%nat) (a x 1%nat)) (a x 2%nat)) (a x 3%nat)) (a x 4%nat).
Definition theta_ref (a : nat -> nat -> Z) (x y : nat) : Z := Z.lxor (a x y) (Z.lxor (parity a ((x + 4) mod 5)%nat) (rotate (parity a ((x + 1) mod 5)%nat) 1)).
(** The rotation of a lane: step [t] of the walk from (1, 0) along (x, y) -> (y, 2x + 3y)
    has offset (t + 1) (t + 2) / 2. *)
Fixpoint walk (n : nat) (t : Z) (u v x y : nat) : Z :=
  match n with
  | O => 0
  | S n => if ((u =? x) && (v =? y))%nat then ((t + 1) * (t + 2) / 2) mod 64 else walk n (t + 1) v ((2 * u + 3 * v) mod 5)%nat x y
  end.
Definition offset (x y : nat) : Z := walk 24 0 1%nat 0%nat x y.
Definition rho_ref (a : nat -> nat -> Z) (x y : nat) : Z := rotate (a x y) (offset x y).
Definition pi_ref (a : nat -> nat -> Z) (x y : nat) : Z := a ((x + 3 * y) mod 5)%nat x.
Definition chi_ref (a : nat -> nat -> Z) (x y : nat) : Z := Z.lxor (a x y) (Z.land (u64 (Z.lnot (a ((x + 1) mod 5)%nat y))) (a ((x + 2) mod 5)%nat y)).
(** The round constants, from the shift register of the reference. *)
Definition lfsr (r : Z) : Z := let r := Z.shiftl r 1 in if Z.testbit r 8 then Z.lxor r 0x171 else r.
Definition rc (t : nat) : bool := Z.testbit (Nat.iter t lfsr 1) 0.
Definition RC (round : nat) : Z := foldr (fun j c => if rc (j + 7 * round)%nat then Z.lor c (Z.shiftl 1 (2 ^ Z.of_nat j - 1)) else c) 0 (seq 0 7).
Definition iota_ref (round : nat) (a : nat -> nat -> Z) (x y : nat) : Z := if ((x =? 0) && (y =? 0))%nat then Z.lxor (a x y) (RC round) else a x y.
Definition round_ref (st : list Z) (round : nat) : list Z :=
  of_lanes (iota_ref round (chi_ref (pi_ref (rho_ref (theta_ref (lane st)))))).
Definition keccakf_ref (st : list Z) : list Z := foldl round_ref st (seq 0 24).
End Reference.

(** A rotation moves the bits. *)
Lemma ROTL64_bits x r i : is_u64 x -> 0 < r < 64 -> 0 <= i < 64 -> Z.testbit (ROTL64 x r) i = Z.testbit x ((i - r) mod 64).
Proof.
  intros Hx Hr Hi. unfold ROTL64, u64. change 18446744073709551616 with (2 ^ 64). rewrite Z.lor_spec, Z.mod_pow2_bits_low, Z.shiftl_spec, Z.shiftr_spec by lia.
  destruct (Z.lt_ge_cases i r) as [H|H].
  - rewrite (Z.testbit_neg_r x (i - r)) by lia. cbn [orb]. f_equal. symmetry. rewrite <- (Z.mod_add (i - r) 1) by lia. rewrite Z.mod_small; lia.
  - rewrite (Z.mod_small (i - r)) by lia. destruct (Z.testbit x (i - r)); [done|]. cbn [orb]. apply Z.bits_above_log2; [unfold is_u64 in Hx; lia|].
    destruct (decide (x = 0)) as [-> |]; [cbn; lia|]. assert (Z.log2 x < 64) by (apply Z.log2_lt_pow2; unfold is_u64 in Hx; lia). lia.
Qed.

Lemma keccakf_rndc_RC round : (round < 24)%nat -> keccakf_rndc !!! round = RC round.
Proof.
  intros H. assert (E : forallb (fun r => keccakf_rndc !!! r =? RC r) (seq 0 24) = true) by (vm_compute; reflexivity). rewrite forallb_forall in E. apply Z.eqb_eq, E, in_seq. lia.
Qed.

Lemma list_25 (st : list Z) : length st = 25%nat -> exists a0 a1 a2 a3 a4 a5 a6 a7 a8 a9 a10 a11 a12 a13 a14 a15 a16 a17 a18 a19 a20 a21 a22 a23 a24,
  st = [a0; a1; a2; a3; a4; a5; a6; a7; a8; a9; a10; a11; a12; a13; a14; a15; a16; a17; a18; a19; a20; a21; a22; a23; a24].
Proof. intros H. do 25 (destruct st as [|? st]; [done|]). destruct st; [|done]. repeat eexists. Qed.

Lemma keccakf_round_ref st round : length st = 25%nat -> (round < 24)%nat -> keccakf_round st round = round_ref st round.
Proof.
  intros Hl Hr. unfold keccakf_round, round_ref, iota, iota_ref. rewrite keccakf_rndc_RC by done.
  destruct (list_25 st Hl) as (a0 & a1 & a2 & a3 & a4 & a5 & a6 & a7 & a8 & a9 & a10 & a11 & a12 & a13 & a14 & a15 & a16 & a17 & a18 & a19 & a20 & a21 & a22 & a23 & a24 & ->).
  generalize (RC round). intros c. cbv -[Z.lxor Z.land Z.lnot u64 ROTL64]. reflexivity.
Qed.
Lemma keccakf_ref_spec st : length st = 25%nat -> keccakf st KECCAK_ROUNDS = keccakf_ref st /\ length (keccakf st KECCAK_ROUNDS) = 25%nat.
Proof.
  intros Hl. unfold keccakf, keccakf_ref, KECCAK_ROUNDS. assert (Hr : Forall (fun r => r < 24)%nat (seq 0 24)) by (apply Forall_seq; lia). revert st Hl. induction Hr as [|r l Hr _ IH]; intros st Hl; [done|].
  cbn [foldl]. rewrite keccakf_round_ref by done. apply IH. apply length_map.
Qed.

(** * The sponge *)

Definition rate : nat := 136.
(** The padding: a one, zeros and a one, in bits. *)
Definition pad (m : list Z) : list Z :=
  let r := (length m mod rate)%nat in
  m ++ if (r =? rate - 1)%nat then [0x81] else 1 :: replicate (rate - 2 - r) 0 ++ [0x80].
Definition blocks (m : list Z) : list (list Z) := map (fun i => take rate (drop (rate * i) m)) (seq 0 (length m / rate)).
Definition absorb_ref (st block : list Z) : list Z := keccakf_ref (absorb st 17 block).
Definition sponge (m : list Z) : list Z := state_bytes (foldl absorb_ref (replicate 25 0) (blocks (pad m))).

Lemma length_absorb st n b : length (absorb st n b) = length st.
Proof. unfold absorb. generalize (seq 0 n). intros l. revert st. induction l as [|i l IH]; intros st; [done|]. cbn [foldl]. by rewrite IH, length_insert. Qed.
Lemma absorb_ref_length st b : length st = 25%nat -> length (absorb_ref st b) = 25%nat.
Proof. intros H. unfold absorb_ref. rewrite <- (proj1 (keccakf_ref_spec _ (eq_trans (length_absorb _ _ _) H))). apply keccakf_ref_spec. by rewrite length_absorb. Qed.
Lemma foldl_ext_Forall {A B} (f g : A -> B -> A) (l : list B) a : Forall (fun b => forall a, f a b = g a b) l -> foldl f a l = foldl g a l.
Proof. intros H. revert a. induction H as [|b l E _ IH]; intros a; [done|]. cbn [foldl]. by rewrite E, IH. Qed.
Lemma absorb_take st m : absorb st 17 (take rate m) = absorb st 17 m.
Proof.
  apply foldl_ext_Forall, Forall_seq. intros i Hi st'. unfold word. do 2 f_equal. unfold rate. f_equal. rewrite skipn_firstn_comm, take_take. f_equal. lia.
Qed.
Lemma absorb_ref_take st m : absorb_ref st (take rate m) = absorb_ref st m.
Proof. unfold absorb_ref. by rewrite absorb_take. Qed.

(** The blocks of a message and the bytes left. *)
Lemma blocks_cons m : (rate <= length m)%nat -> blocks m = take rate m :: blocks (drop rate m).
Proof.
  intros H. unfold blocks. rewrite length_drop. assert (E : (length m / rate = S ((length m - rate) / rate))%nat).
  { replace (length m) with (length m - rate + 1 * rate)%nat at 1 by lia. rewrite Nat.div_add by done. lia. }
  rewrite E. cbn [seq map]. rewrite Nat.mul_0_r, drop_0. f_equal. rewrite <- seq_shift, map_map. apply map_ext. intros i. rewrite drop_drop. do 2 f_equal. lia.
Qed.
Lemma pad_drop m : (rate <= length m)%nat -> drop rate (pad m) = pad (drop rate m) /\ take rate (pad m) = take rate m.
Proof.
  intros H. unfold pad. rewrite length_drop. assert (E : ((length m - rate) mod rate = length m mod rate)%nat).
  { replace (length m) with (length m - rate + 1 * rate)%nat at 2 by lia. by rewrite Nat.Div0.mod_add. }
  rewrite E, drop_app_le, take_app_le by done. done.
Qed.
Lemma pad_short_length m : (length m < rate)%nat -> length (pad m) = rate.
Proof.
  intros H. unfold pad. rewrite Nat.mod_small by done. case_match eqn:E; [apply Nat.eqb_eq in E|]; rewrite !length_app; cbn [length]; rewrite ?length_app, ?length_replicate; cbn [length]; unfold rate in *; [lia|]. apply Nat.eqb_neq in E. lia.
Qed.
Lemma pad_short m : (length m < rate)%nat -> pad m = last_block rate m.
Proof.
  intros H. unfold pad, last_block. rewrite Nat.mod_small by done. rewrite (length_app m [1]). cbn [length]. destruct (Nat.eqb_spec (length m) (rate - 1)) as [E|E].
  - replace (rate - (length m + 1))%nat with 0%nat by (unfold rate in *; lia). cbn [replicate]. rewrite app_nil_r, <- E, lookup_total_app_r, insert_app_r_alt, Nat.sub_diag by lia. done.
  - replace (rate - (length m + 1))%nat with (rate - 2 - length m + 1)%nat by (unfold rate in *; lia). set (k := (rate - 2 - length m)%nat). rewrite replicate_add. cbn [replicate].
    assert (El : length ((m ++ [1]) ++ replicate k 0) = (rate - 1)%nat) by (rewrite !length_app, length_replicate; cbn [length]; unfold k, rate in *; lia).
    rewrite (app_assoc (m ++ [1])), <- El, lookup_total_app_r, insert_app_r_alt, Nat.sub_diag by lia. rewrite <- !app_assoc. done.
Qed.

Lemma absorb_blocks_spec fuel st m : length st = 25%nat -> (length m < fuel * rate)%nat -> let '(st', rest) := absorb_blocks fuel rate st m in
  length st' = 25%nat /\ (length rest < rate)%nat /\ foldl absorb_ref st (blocks (pad m)) = absorb_ref st' (last_block rate rest).
Proof.
  revert st m. induction fuel as [|fuel IH]; intros st m Hst Hf; [lia|]. cbn [absorb_blocks]. destruct (Nat.leb_spec rate (length m)) as [H|H].
  - rewrite (proj1 (keccakf_ref_spec _ (eq_trans (length_absorb _ _ _) Hst))). change (rate / 8)%nat with 17%nat. fold (absorb_ref st m). destruct (pad_drop m H) as [Ed Et].
    rewrite blocks_cons by (unfold pad; rewrite length_app; lia). rewrite Ed, Et. cbn [foldl]. rewrite absorb_ref_take. apply IH; [by apply absorb_ref_length|rewrite length_drop; lia].
  - split; [done|]. split; [done|]. rewrite blocks_cons by (rewrite pad_short_length by done; lia). rewrite take_ge, drop_ge, pad_short by first [done|rewrite pad_short_length by done; lia]. done.
Qed.

Lemma keccak1600_sponge m : keccak1600 m = Ok (sponge m).
Proof.
  unfold keccak1600, keccak, sponge. cbn [Z.eqb Pos.eqb Z.ltb Z.leb Z.compare Pos.compare Pos.compare_cont andb]. change (Z.to_nat 136) with rate.
  pose proof (absorb_blocks_spec (S (length m)) (replicate 25 0) m eq_refl ltac:(unfold rate; lia)) as H. destruct (absorb_blocks (S (length m)) rate (replicate 25 0) m) as [st rest]. destruct H as (Hst & _ & ->).
  rewrite (proj1 (keccakf_ref_spec _ (eq_trans (length_absorb _ _ _) Hst))). fold (absorb_ref st (last_block rate rest)). apply (f_equal Ok), take_ge.
  pose proof (absorb_ref_length st (last_block rate rest) Hst) as Hl. revert Hl. generalize (absorb_ref st (last_block rate rest)). intros s Hs. clear -Hs. 
  destruct (list_25 s Hs) as (a0 & a1 & a2 & a3 & a4 & a5 & a6 & a7 & a8 & a9 & a10 & a11 & a12 & a13 & a14 & a15 & a16 & a17 & a18 & a19 & a20 & a21 & a22 & a23 & a24 & ->).
  unfold state_bytes. cbn [flat_map]. rewrite !length_app, !length_digits. cbn [length]. lia.
Qed.

(** The hash is 32 bytes. *)
Lemma state_bytes_spec st : Forall is_u8 (state_bytes st) /\ length (state_bytes st) = (8 * length st)%nat.
Proof.
  unfold state_bytes. split.
  - apply Forall_forall. intros x Hx%list_elem_of_In. apply in_flat_map in Hx as (w & _ & Hx). pose proof (digits_ok 256 8 w ltac:(lia)) as H. rewrite Forall_forall in H. apply H. by apply list_elem_of_In.
  - induction st as [|w st IH]; [done|]. cbn [flat_map]. rewrite length_app, length_digits, IH. cbn [length]. lia.
Qed.
Lemma sponge_bytes m : Forall is_u8 (sponge m) /\ length (sponge m) = 200%nat.
Proof.
  unfold sponge, state_bytes. set (st := foldl absorb_ref (replicate 25 0) (blocks (pad m))). assert (Hl : length st = 25%nat).
  { unfold st. generalize (blocks (pad m)). intros l. assert (H0 : length (replicate 25 0) = 25%nat) by done. revert H0. generalize (replicate 25 0). induction l as [|b l IH]; intros s Hs; [done|]. apply IH. by apply absorb_ref_length. }
  destruct (state_bytes_spec st) as [Hb Hn]. split; [exact Hb|]. fold (state_bytes st). lia.
Qed.
Lemma hash_process_spec m : zlen m < 2 ^ 31 -> hash_process m = Ok (sponge m).
Proof.
  intros Hm. unfold zlen in Hm. assert (E : to_int (zlen m) = zlen m) by (unfold to_int, zlen; rewrite Z.mod_small; lia). unfold hash_process. rewrite E. replace (zlen m <? 0) with false by (symmetry; apply Z.ltb_ge; unfold zlen; lia).
  cbn zeta. rewrite take_ge by (unfold zlen; lia). apply keccak1600_sponge.
Qed.
Lemma hash_bytes m : Forall is_u8 (take 32 (sponge m)) /\ length (take 32 (sponge m)) = 32%nat.
Proof. destruct (sponge_bytes m) as [Hb Hl]. split; [by apply Forall_take|rewrite length_take; lia]. Qed.
Lemma cn_fast_hash_spec m : zlen m < 2 ^ 31 -> cn_fast_hash m = Ok (take 32 (sponge m)).
Proof. intros Hm. unfold cn_fast_hash. by rewrite hash_process_spec. Qed.
(** Of a longer message only what the low 32 bits of the length count is hashed. *)
Lemma cn_fast_hash_prefix m n : 0 <= n < 2 ^ 31 -> zlen m = 2 ^ 32 + n -> cn_fast_hash m = Ok (take 32 (sponge (take (Z.to_nat n) m))).
Proof.
  intros Hn Hm. unfold cn_fast_hash, hash_process. assert (E : to_int (zlen m) = n) by (unfold to_int; rewrite Hm; replace (2 ^ 32 + n + 2 ^ 31) with (n + 2 ^ 31 + 1 * 2 ^ 32) by ring; rewrite Z.mod_add, Z.mod_small; lia).
  rewrite E, (proj2 (Z.ltb_ge n 0)), keccak1600_sponge by lia. done.
Qed.

(** C26.  [cn_fast_hash] is Keccak-256 of the third-round submission: for every message
    shorter than 2^31 bytes it returns the first 32 bytes of the sponge of rate 1088
    over the permutation of the reference (theta, rho, pi, chi and iota on the 5 x 5
    lanes, with the rotations of the reference's walk and the round constants of its
    shift register), the message padded with a one, zeros and a one; the in-place
    round of the code is that round on every state. *)
Theorem cn_fast_hash_keccak m st round : zlen m < 2 ^ 31 -> length st = 25%nat -> (round < 24)%nat ->
  cn_fast_hash m = Ok (take 32 (sponge m)) /\ keccakf_round st round = round_ref st round.
Proof. intros Hm Hl Hr. split; [by apply cn_fast_hash_spec|by apply keccakf_round_ref]. Qed.
Lemma cn_fast_hash_keccak_witness : cn_fast_hash (replicate 200 97) = Ok (take 32 (sponge (replicate 200 97))) /\ keccakf_round (map Z.of_nat (seq 0 25)) 23 = round_ref (map Z.of_nat (seq 0 25)) 23.
Proof. exact (cn_fast_hash_keccak (replicate 200 97) (map Z.of_nat (seq 0 25)) 23 eq_refl eq_refl ltac:(lia)). Defined.
