(* ===== verification/Chacha8.v ===== *)
(** The cipher of messages and wallet files: [chacha8] of [crypto/chacha8.c]; that it
    is the exclusive or with the ChaCha key stream of 8 rounds, and its own
    inverse. *)
From S2P Require Import Prelude IntUtil.

(** * Operations *)

Definition PLUS (v w : Z) : Z := u32 (v + w).
(** [QUARTERROUND] on four of the variables [x0] to [x15]. *)
Definition QUARTERROUND (x : list Z) (a b c d : nat) : list Z :=
  let x := <[a := PLUS (x !!! a) (x !!! b)]> x in
  let x := <[d := rol32 (Z.lxor (x !!! d) (x !!! a)) 16]> x in
  let x := <[c := PLUS (x !!! c) (x !!! d)]> x in
  let x := <[b := rol32 (Z.lxor (x !!! b) (x !!! c)) 12]> x in
  let x := <[a := PLUS (x !!! a) (x !!! b)]> x in
  let x := <[d := rol32 (Z.lxor (x !!! d) (x !!! a)) 8]> x in
  let x := <[c := PLUS (x !!! c) (x !!! d)]> x in
  <[b := rol32 (Z.lxor (x !!! b) (x !!! c)) 7]> x.
Definition double_round (x : list Z) : list Z :=
  let x := QUARTERROUND x 0 4 8 12 in
  let x := QUARTERROUND x 1 5 9 13 in
  let x := QUARTERROUND x 2 6 10 14 in
  let x := QUARTERROUND x 3 7 11 15 in
  let x := QUARTERROUND x 0 5 10 15 in
  let x := QUARTERROUND x 1 6 11 12 in
  let x := QUARTERROUND x 2 7 8 13 in
  QUARTERROUND x 3 4 9 14.

(** [U8TO32_LITTLE] of [n] words. *)
Fixpoint words (n : nat) (s : list Z) : list Z := match n with O => [] | S n => value 256 (take 4 s) :: words n (drop 4 s) end.
(** [U32TO8_LITTLE]. *)
Definition bytes_of (x : list Z) : list Z := flat_map (digits 256 4) x.
(** [expand 32-byte k]. *)
Definition sigma : list Z := [101; 120; 112; 97; 110; 100; 32; 51; 50; 45; 98; 121; 116; 101; 32; 107].

(** The counter: [j12] and [j13]. *)
Definition next_counter (j : list Z) : list Z :=
  let j := <[12%nat := PLUS (j !!! 12%nat) 1]> j in
  if j !!! 12%nat =? 0 then <[13%nat := PLUS (j !!! 13%nat) 1]> j else j.
(** The loop; [fuel] bounds the blocks.  The rest of [tmp] after a short last block is
    not initialised in the source, and what is computed of it is not copied; here it
    is zero. *)
Fixpoint chacha_blocks (fuel : nat) (j data : list Z) : list Z :=
  match fuel with
  | O => []
  | S fuel =>
      let tmp := take 64 data ++ replicate (64 - length data) 0 in
      let x := Nat.iter 4 double_round j in
      let x := zip_with PLUS x j in
      let x := zip_with Z.lxor x (words 16 tmp) in
      let j := next_counter j in
      if (length data <=? 64)%nat then take (length data) (bytes_of x)
      else bytes_of x ++ chacha_blocks fuel j (drop 64 data)
  end.
Definition chacha8 (data key iv : list Z) : list Z :=
  if (length data =? 0)%nat then []
  else chacha_blocks (S (length data / 64)) (words 4 sigma ++ words 8 key ++ [0; 0] ++ words 2 iv) data.

(** * The key stream *)

Section Reference.
(** Four words, and the four columns of a matrix of 4 x 4 words given by its rows. *)
Definition quarter (q : Z * Z * Z * Z) : Z * Z * Z * Z :=
  let '(a, b, c, d) := q in
  let a := PLUS a b in let d := rol32 (Z.lxor d a) 16 in
  let c := PLUS c d in let b := rol32 (Z.lxor b c) 12 in
  let a := PLUS a b in let d := rol32 (Z.lxor d a) 8 in
  let c := PLUS c d in let b := rol32 (Z.lxor b c) 7 in (a, b, c, d).
Definition column (m : list (list Z)) (i : nat) : Z * Z * Z * Z := (m !!! 0%nat !!! i, m !!! 1%nat !!! i, m !!! 2%nat !!! i, m !!! 3%nat !!! i).
Definition column_round (m : list (list Z)) : list (list Z) :=
  let q := map (fun i => quarter (column m i)) (seq 0 4) in
  [map (fun q => q.1.1.1) q; map (fun q => q.1.1.2) q; map (fun q => q.1.2) q; map (fun q => q.2) q].
(** Row [i] turned left by [i] places, and back. *)
Definition turn (k : nat) (r : list Z) : list Z := drop k r ++ take k r.
Definition diagonals (m : list (list Z)) : list (list Z) := imap turn m.
Definition undiagonals (m : list (list Z)) : list (list Z) := imap (fun i => turn (4 - i)) m.
Definition diagonal_round (m : list (list Z)) : list (list Z) := undiagonals (column_round (diagonals m)).
Definition rows (x : list Z) : list (list Z) := map (fun i => take 4 (drop (4 * i) x)) (seq 0 4).
(** ChaCha with 8 rounds. *)
Definition core (x : list Z) : list Z := concat (Nat.iter 4 (fun m => diagonal_round (column_round m)) (rows x)).
Definition initial (key iv : list Z) (n : Z) : list Z := words 4 sigma ++ words 8 key ++ [u32 n; u32 (n / 2 ^ 32)] ++ words 2 iv.
Definition stream_block (key iv : list Z) (n : Z) : list Z := bytes_of (zip_with PLUS (core (initial key iv n)) (initial key iv n)).
Definition key_stream (key iv : list Z) (from : Z) (blocks : nat) : list Z := flat_map (fun i => stream_block key iv (from + Z.of_nat i)) (seq 0 blocks).
End Reference.

Lemma list_16 (x : list Z) : length x = 16%nat -> exists x0 x1 x2 x3 x4 x5 x6 x7 x8 x9 x10 x11 x12 x13 x14 x15, x = [x0; x1; x2; x3; x4; x5; x6; x7; x8; x9; x10; x11; x12; x13; x14; x15].
Proof. intros H. do 16 (destruct x as [|? x]; [discriminate|]). destruct x; [|discriminate]. by repeat eexists. Qed.
Lemma column_round_rows x : length x = 16%nat ->
  rows (QUARTERROUND (QUARTERROUND (QUARTERROUND (QUARTERROUND x 0 4 8 12) 1 5 9 13) 2 6 10 14) 3 7 11 15) = column_round (rows x).
Proof.
  intros (x0 & x1 & x2 & x3 & x4 & x5 & x6 & x7 & x8 & x9 & x10 & x11 & x12 & x13 & x14 & x15 & ->)%list_16. cbv -[PLUS rol32 Z.lxor]. reflexivity.
Qed.
Lemma diagonal_round_rows x : length x = 16%nat ->
  rows (QUARTERROUND (QUARTERROUND (QUARTERROUND (QUARTERROUND x 0 5 10 15) 1 6 11 12) 2 7 8 13) 3 4 9 14) = diagonal_round (rows x).
Proof.
  intros (x0 & x1 & x2 & x3 & x4 & x5 & x6 & x7 & x8 & x9 & x10 & x11 & x12 & x13 & x14 & x15 & ->)%list_16. cbv -[PLUS rol32 Z.lxor]. reflexivity.
Qed.
Lemma QUARTERROUND_length x a b c d : length (QUARTERROUND x a b c d) = length x.
Proof. unfold QUARTERROUND. cbv zeta. by rewrite !length_insert. Qed.
Lemma double_round_rows x : length x = 16%nat -> rows (double_round x) = diagonal_round (column_round (rows x)) /\ length (double_round x) = 16%nat.
Proof.
  intros Hx. unfold double_round. cbv zeta. split; [|by rewrite !QUARTERROUND_length]. rewrite <- (column_round_rows x Hx). apply diagonal_round_rows. by rewrite !QUARTERROUND_length.
Qed.
Lemma concat_rows x : length x = 16%nat -> concat (rows x) = x.
Proof. intros (x0 & x1 & x2 & x3 & x4 & x5 & x6 & x7 & x8 & x9 & x10 & x11 & x12 & x13 & x14 & x15 & ->)%list_16. reflexivity. Qed.
Lemma core_spec x : length x = 16%nat -> Nat.iter 4 double_round x = core x /\ length (core x) = 16%nat.
Proof.
  intros Hx. assert (H : forall n, rows (Nat.iter n double_round x) = Nat.iter n (fun m => diagonal_round (column_round m)) (rows x) /\ length (Nat.iter n double_round x) = 16%nat).
  { induction n as [|n [IH Hl] ]; [done|]. rewrite !Nat.iter_succ. destruct (double_round_rows _ Hl) as [-> Hl']. by rewrite IH. }
  destruct (H 4%nat) as [E Hl]. unfold core. rewrite <- E, (concat_rows _ Hl). done.
Qed.

(** * Exclusive or of bytes *)

Lemma digits_lxor n x y : digits 256 n (Z.lxor x y) = zip_with Z.lxor (digits 256 n x) (digits 256 n y).
Proof.
  revert x y. induction n as [|n IH]; intros x y; [done|]. cbn [digits zip_with]. change 256 with (2 ^ 8). rewrite <- !Z.land_ones, <- !Z.shiftr_div_pow2, Z.shiftr_lxor by lia. f_equal; [|apply IH].
  apply Z.bits_inj. intros k. rewrite Z.land_spec, !Z.lxor_spec, !Z.land_spec. by destruct (Z.testbit x k), (Z.testbit y k), (Z.testbit (Z.ones 8) k).
Qed.
Lemma bytes_of_lxor n x s : length x = n -> length s = (4 * n)%nat -> Forall is_u8 s -> bytes_of (zip_with Z.lxor x (words n s)) = zip_with Z.lxor (bytes_of x) s.
Proof.
  revert x s. induction n as [|n IH]; intros x s Hx Hs Hb; (destruct x as [|w x]; [|]); try discriminate; [done|]. cbn [words zip_with bytes_of flat_map].
  rewrite digits_lxor. assert (E : digits 256 4 (value 256 (take 4 s)) = take 4 s).
  { replace 4%nat with (length (take 4 s)) at 1 by (rewrite length_take; lia). apply digits_value; [lia|]. by apply Forall_take. }
  rewrite E. rewrite <- (take_drop 4 s) at 3. rewrite zip_with_app by (rewrite length_digits, length_take; lia). f_equal.
  apply IH; [by injection Hx|rewrite length_drop; lia|by apply Forall_drop].
Qed.
Lemma length_words n s : length (words n s) = n.
Proof. revert s. induction n as [|n IH]; intros s; [done|]. cbn [words length]. by rewrite IH. Qed.
Lemma bytes_of_spec x : length (bytes_of x) = (4 * length x)%nat /\ Forall is_u8 (bytes_of x).
Proof.
  unfold bytes_of. induction x as [|w x [IH1 IH2] ]; [done|]. cbn [flat_map]. rewrite length_app, length_digits, IH1. cbn [length]. split; [lia|]. apply Forall_app. split; [apply (digits_ok 256); lia|done].
Qed.

(** * The cipher is the exclusive or with the key stream *)

Lemma initial_length key iv n : length (initial key iv n) = 16%nat.
Proof. unfold initial. by rewrite !length_app, !length_words. Qed.
Lemma next_counter_initial key iv n : 0 <= n -> next_counter (initial key iv n) = initial key iv (n + 1).
Proof.
  intros Hn. unfold initial. set (a := words 4 sigma). set (b := words 8 key). set (c := words 2 iv). assert (Ha : length a = 4%nat) by apply length_words. assert (Hb : length b = 8%nat) by apply length_words.
  assert (E : forall x y, next_counter (a ++ b ++ [x; y] ++ c) = a ++ b ++ [PLUS x 1; if PLUS x 1 =? 0 then PLUS y 1 else y] ++ c).
  { intros x y. clearbody a b c. do 4 (destruct a as [|? a]; [discriminate|]). destruct a; [|discriminate]. do 8 (destruct b as [|? b]; [discriminate|]). destruct b; [|discriminate].
    unfold next_counter. cbn [app list_insert insert lookup_total list_lookup_total]. by destruct (PLUS x 1 =? 0). }
  rewrite E. unfold PLUS, u32. change 4294967296 with (2 ^ 32). rewrite Zplus_mod_idemp_l.
  assert (H : (if (n + 1) mod 2 ^ 32 =? 0 then ((n / 2 ^ 32) mod 2 ^ 32 + 1) mod 2 ^ 32 else (n / 2 ^ 32) mod 2 ^ 32) = ((n + 1) / 2 ^ 32) mod 2 ^ 32); [|by rewrite H].
  pose proof (Z.div_mod n (2 ^ 32) ltac:(lia)). pose proof (Z.mod_pos_bound n (2 ^ 32) ltac:(lia)). set (q := n / 2 ^ 32) in *. set (r := n mod 2 ^ 32) in *.
  destruct (Z.eq_dec (r + 1) (2 ^ 32)) as [Er|Er].
  - assert (E1 : n + 1 = (q + 1) * 2 ^ 32) by lia. rewrite E1, Z.mod_mul, Z.div_mul, Z.eqb_refl by lia. apply Zplus_mod_idemp_l.
  - assert (E1 : (n + 1) / 2 ^ 32 = q) by (symmetry; apply (Z.div_unique _ _ _ (r + 1)); lia). assert (E2 : (n + 1) mod 2 ^ 32 = r + 1) by (symmetry; apply (Z.mod_unique _ _ q); lia).
    rewrite E1, E2. destruct (Z.eqb_spec (r + 1) 0); [lia|done].
Qed.
Lemma initial_zero key iv : words 4 sigma ++ words 8 key ++ [0; 0] ++ words 2 iv = initial key iv 0.
Proof. done. Qed.

Lemma stream_block_length key iv n : length (stream_block key iv n) = 64%nat.
Proof. unfold stream_block. rewrite (proj1 (bytes_of_spec _)), length_zip_with, (proj2 (core_spec _ (initial_length key iv n))), initial_length. done. Qed.
Lemma key_stream_S key iv n k : key_stream key iv n (S k) = stream_block key iv n ++ key_stream key iv (n + 1) k.
Proof.
  unfold key_stream. cbn [seq flat_map]. rewrite Z.add_0_r. apply (f_equal2 app); [reflexivity|]. rewrite <- seq_shift. generalize (seq 0 k) (stream_block key iv). intros l g. induction l as [|i l IH]; [done|]. cbn [map flat_map].
  rewrite IH. by replace (n + Z.of_nat (S i)) with (n + 1 + Z.of_nat i) by lia.
Qed.
Lemma key_stream_length key iv n k : length (key_stream key iv n k) = (64 * k)%nat.
Proof. revert n. induction k as [|k IH]; intros n; [done|]. rewrite key_stream_S, length_app, stream_block_length, IH. lia. Qed.

Lemma zip_with_take_l {A B C} (f : A -> B -> C) l k : zip_with f l k = zip_with f l (take (length l) k).
Proof. revert k. induction l as [|x l IH]; intros [|y k]; try done. cbn. by rewrite <- IH. Qed.
Lemma zip_lxor_comm l k : zip_with Z.lxor l k = zip_with Z.lxor k l.
Proof. revert k. induction l as [|x l IH]; intros [|y k]; try done. cbn [zip_with]. by rewrite Z.lxor_comm, IH. Qed.
Lemma chacha_blocks_spec fuel key iv n data : 0 <= n -> Forall is_u8 data -> (0 < length data <= 64 * fuel)%nat ->
  chacha_blocks fuel (initial key iv n) data = zip_with Z.lxor data (key_stream key iv n fuel).
Proof.
  revert n data. induction fuel as [|fuel IH]; intros n data Hn Hb Hl; [lia|]. cbn [chacha_blocks]. rewrite next_counter_initial by done. rewrite (proj1 (core_spec _ (initial_length key iv n))).
  set (tmp := take 64 data ++ replicate (64 - length data) 0). assert (Ht : length tmp = 64%nat) by (unfold tmp; rewrite length_app, length_take, length_replicate; lia).
  assert (Hb' : Forall is_u8 tmp) by (apply Forall_app; split; [by apply Forall_take|apply Forall_replicate; unfold is_u8; lia]).
  rewrite (bytes_of_lxor 16); [|rewrite length_zip_with, (proj2 (core_spec _ (initial_length key iv n))), initial_length; done|done|done]. fold (stream_block key iv n). rewrite key_stream_S.
  assert (E : zip_with Z.lxor (stream_block key iv n) tmp = zip_with Z.lxor tmp (stream_block key iv n)) by apply zip_lxor_comm. rewrite E.
  pose proof (stream_block_length key iv n) as Hs. destruct (Nat.leb_spec (length data) 64) as [Hd|Hd].
  - unfold tmp. rewrite (take_ge data 64) by lia. rewrite <- (take_drop (length data) (stream_block key iv n)) at 1. rewrite zip_with_app by (rewrite length_take; lia).
    rewrite take_app_le by (rewrite length_zip_with, length_take; lia). rewrite take_ge by (rewrite length_zip_with, length_take; lia).
    rewrite (zip_with_take_l _ data (_ ++ _)), take_app_le by lia. done.
  - rewrite IH by (first [lia|by apply Forall_drop|rewrite length_drop; lia]). unfold tmp. replace (64 - length data)%nat with 0%nat by lia. rewrite app_nil_r. rewrite <- zip_with_app by (rewrite length_take; lia). by rewrite take_drop.
Qed.

Definition blocks_of (data : list Z) : nat := S (length data / 64).
Lemma chacha8_spec data key iv : Forall is_u8 data -> chacha8 data key iv = zip_with Z.lxor data (key_stream key iv 0 (blocks_of data)).
Proof.
  intros Hb. unfold chacha8, blocks_of. destruct (Nat.eqb_spec (length data) 0) as [E|E]; [by destruct data|]. rewrite initial_zero. apply chacha_blocks_spec; [lia|done|]. pose proof (Nat.div_mod (length data) 64 ltac:(lia)). pose proof (Nat.mod_upper_bound (length data) 64 ltac:(lia)). lia.
Qed.
Lemma key_stream_bytes key iv n k : Forall is_u8 (key_stream key iv n k).
Proof. revert n. induction k as [|k IH]; intros n; [constructor|]. rewrite key_stream_S. apply Forall_app. split; [apply bytes_of_spec|apply IH]. Qed.
Lemma lxor_u8 x y : is_u8 x -> is_u8 y -> is_u8 (Z.lxor x y).
Proof.
  unfold is_u8. intros Hx Hy. assert (E : Z.lxor x y = Z.lxor x y mod 2 ^ 8); [|rewrite E; pose proof (Z.mod_pos_bound (Z.lxor x y) (2 ^ 8) ltac:(lia)); lia].
  pose proof (digits_lxor 1 x y) as H. cbn [digits zip_with] in H. injection H as H. rewrite (Z.mod_small x), (Z.mod_small y) in H by lia. by symmetry.
Qed.
Lemma chacha8_length data key iv : Forall is_u8 data -> length (chacha8 data key iv) = length data.
Proof.
  intros Hb. rewrite chacha8_spec, length_zip_with, key_stream_length by done. unfold blocks_of. pose proof (Nat.div_mod (length data) 64 ltac:(lia)). pose proof (Nat.mod_upper_bound (length data) 64 ltac:(lia)). lia.
Qed.
Lemma chacha8_bytes data key iv : Forall is_u8 data -> Forall is_u8 (chacha8 data key iv).
Proof.
  intros Hb. rewrite chacha8_spec by done. pose proof (key_stream_bytes key iv 0 (blocks_of data)) as Hk. revert Hk. generalize (key_stream key iv 0 (blocks_of data)). induction Hb as [|x data Hx Hb IH]; intros k Hk; [constructor|].
  destruct Hk as [|y k Hy Hk]; [constructor|]. cbn [zip_with]. constructor; [by apply lxor_u8|by apply IH].
Qed.
Lemma lxor_twice l k : (length l <= length k)%nat -> zip_with Z.lxor (zip_with Z.lxor l k) k = l.
Proof. revert k. induction l as [|x l IH]; intros [|y k] H; cbn [length] in H; try done; [lia|]. cbn [zip_with]. rewrite Z.lxor_assoc, Z.lxor_nilpotent, Z.lxor_0_r, IH by lia. done. Qed.
Lemma chacha8_twice data key iv : Forall is_u8 data -> chacha8 (chacha8 data key iv) key iv = data.
Proof.
  intros Hb. rewrite (chacha8_spec (chacha8 data key iv)) by by apply chacha8_bytes. unfold blocks_of. rewrite chacha8_length by done. fold (blocks_of data). rewrite chacha8_spec by done. apply lxor_twice.
  rewrite key_stream_length. unfold blocks_of. pose proof (Nat.div_mod (length data) 64 ltac:(lia)). pose proof (Nat.mod_upper_bound (length data) 64 ltac:(lia)). lia.
Qed.

(** [chacha8] is the stream cipher ChaCha with 8 rounds: for every data, key and
    initial value it returns the exclusive or of the data with the key stream of
    consecutive counters from 0 (the blocks computed by column and diagonal rounds on
    the matrix of the reference), across the carry of the 64-bit counter and for a
    short last block; applying it twice gives the data back. *)
Theorem chacha8_stream (data key iv : list Z) : Forall is_u8 data ->
  chacha8 data key iv = zip_with Z.lxor data (key_stream key iv 0 (blocks_of data)) /\ chacha8 (chacha8 data key iv) key iv = data.
Proof. intros Hb. split; [by apply chacha8_spec|by apply chacha8_twice]. Qed.
Lemma chacha8_stream_witness : chacha8 (chacha8 (replicate 100 7) (replicate 32 1) (replicate 8 2)) (replicate 32 1) (replicate 8 2) = replicate 100 7.
Proof.
  assert (Hb : Forall is_u8 (replicate 100 7)) by (apply Forall_replicate; unfold is_u8; lia). destruct (chacha8_stream (replicate 100 7) (replicate 32 1) (replicate 8 2) Hb) as [_ H]. exact H.
Defined.
(** Key stream for the zero key: the test vector of the cipher's authors. *)
Example chacha8_zero : chacha8 (replicate 16 0) (replicate 32 0) (replicate 8 0) =
  [0x3e; 0x00; 0xef; 0x2f; 0x89; 0x5f; 0x40; 0xd6; 0x7f; 0x5b; 0xb8; 0xe8; 0x1f; 0x09; 0xa5; 0xa1].
Proof. vm_compute. reflexivity. Qed.
