(* ===== verification/Varint.v ===== *)
(** Variable-length integers: [Common/Varint.h].

    [write_varint] emits seven bits per byte, least significant group first,
    with the high bit of every byte but the last set; [read_varint] decodes and
    rejects overlong and overflowing encodings. *)
From S2P Require Import Prelude IntUtil.

(** Bytes of a [std::string] / [std::vector<uint8_t>] are integers in
    [0, 256). *)
Definition bytes_ok (l : list Z) : Prop := Forall is_u8 l.

(** The loop of [write_varint] with fuel for its iterations. *)
Fixpoint write_varint_loop (fuel : nat) (i : Z) : list Z :=
  match fuel with
  | O => []
  | S fuel =>
      if 128 <=? i
      then Z.lor (Z.land (u8 i) 127) 128 :: write_varint_loop fuel (Z.shiftr i 7)
      else [u8 i]
  end.

(** [i] has [log2 i + 1] bits and every iteration removes seven of them. *)
Definition write_varint (i : Z) : list Z :=
  write_varint_loop (S (Z.to_nat (Z.log2 i))) i.

Definition get_varint_data (v : Z) : list Z := write_varint v.

(** [read_varint<bits>]: the returned [int] (number of bytes read, or -1 for an
    overflow, -2 for a non-canonical encoding) and the decoded value. *)
Fixpoint read_varint_loop (bits : Z) (input : list Z) (read shift i : Z) : Z * Z :=
  match input with
  | [] => (read, i)
  | byte :: rest =>
      let read := read + 1 in
      if (bits <=? shift + 7) && (Z.shiftl 1 (bits - shift) <=? byte) then (-1, i)
      else if (byte =? 0) && negb (shift =? 0) then (-2, i)
      else
        let i := Z.lor i (Z.shiftl (Z.land byte 127) shift) in
        if Z.land byte 128 =? 0 then (read, i)
        else read_varint_loop bits rest read (shift + 7) i
  end.

Definition read_varint (bits : Z) (input : list Z) : Z * Z :=
  read_varint_loop bits input 0 0 0.

(** The overload that takes [bits] from the type of [i]; its callers decode
    into a [uint64_t]. *)
Definition read_varint_u64 (input : list Z) : Z * Z := read_varint 64 input.

(** * Groups of seven bits *)

Lemma land127 x : Z.land x 127 = x mod 128.
Proof. change 127 with (Z.ones 7). by rewrite Z.land_ones by lia. Qed.

Lemma shiftr7 x : Z.shiftr x 7 = x / 128.
Proof. by rewrite Z.shiftr_div_pow2 by lia. Qed.

Lemma lor128 x : 0 <= x < 128 -> Z.lor x 128 = x + 128.
Proof.
  intros H. change 128 with (Z.shiftl 1 7) at 1.
  rewrite lor_add_disjoint by lia. change (2 ^ 7) with 128. lia.
Qed.

Lemma group_byte i : Z.lor (Z.land (u8 i) 127) 128 = i mod 128 + 128.
Proof.
  rewrite land127, lor128 by (apply Z.mod_pos_bound; lia). unfold u8.
  f_equal. mlia.
Qed.

(** The high bit of a byte. *)
Lemma high_bit b : is_u8 b -> (Z.land b 128 =? 0) = (b <? 128).
Proof.
  intros Hb. unfold is_u8 in Hb.
  assert (Hall : forallb (fun n => Bool.eqb (Z.land (Z.of_nat n) 128 =? 0) (Z.of_nat n <? 128))
                  (seq 0 256) = true) by (vm_compute; reflexivity).
  rewrite forallb_forall in Hall.
  specialize (Hall (Z.to_nat b)). rewrite Z2Nat.id in Hall by lia.
  apply eqb_prop, Hall, in_seq. lia.
Qed.

Lemma log2_group i : 128 <= i -> Z.log2 (i / 128) = Z.log2 i - 7.
Proof.
  intros H. rewrite <- shiftr7, Z.log2_shiftr by lia.
  pose proof (Z.log2_le_mono 128 i H) as L. change (Z.log2 128) with 7 in L. lia.
Qed.

Lemma write_varint_loop_fuel n m i :
  0 <= i -> (Z.to_nat (Z.log2 i) < n)%nat -> (Z.to_nat (Z.log2 i) < m)%nat ->
  write_varint_loop n i = write_varint_loop m i.
Proof.
  revert m i. induction n as [|n IH]; intros m i Hi Hn Hm; [lia|].
  destruct m as [|m]; [lia|]. cbn [write_varint_loop].
  destruct (Z.leb_spec 128 i); [|reflexivity].
  f_equal. rewrite shiftr7. pose proof (log2_group i ltac:(lia)).
  pose proof (Z.log2_le_mono 128 i ltac:(lia)) as L. change (Z.log2 128) with 7 in L.
  apply IH; [apply Z.div_pos; lia|lia|lia].
Qed.

(** The recursive equation of [write_varint]. *)
Lemma write_varint_eq i :
  0 <= i ->
  write_varint i = if i <? 128 then [i] else i mod 128 + 128 :: write_varint (i / 128).
Proof.
  intros Hi. unfold write_varint at 1. cbn [write_varint_loop].
  rewrite group_byte, shiftr7.
  destruct (Z.leb_spec 128 i); destruct (Z.ltb_spec i 128); try lia.
  - f_equal. pose proof (log2_group i ltac:(lia)).
    pose proof (Z.log2_le_mono 128 i ltac:(lia)) as L. change (Z.log2 128) with 7 in L.
    unfold write_varint. apply write_varint_loop_fuel; [apply Z.div_pos; lia|lia|lia].
  - f_equal. apply u8_small. wunfold; lia.
Qed.

(** Strong induction on the number of seven-bit groups. *)
Lemma varint_ind (P : Z -> Prop) :
  (forall i, 0 <= i < 128 -> P i) ->
  (forall i, 128 <= i -> P (i / 128) -> P i) ->
  forall i, 0 <= i -> P i.
Proof.
  intros Hb Hs. apply (Zlt_0_ind (fun i => P i)). intros x IH Hx. destruct (Z.lt_ge_cases x 128); [apply Hb; lia|].
  apply Hs; [lia|]. apply IH. split; [apply Z.div_pos; lia|].
  apply Z.div_lt; lia.
Qed.

Lemma write_varint_bytes i : 0 <= i -> bytes_ok (write_varint i).
Proof.
  revert i. apply varint_ind; intros i Hi.
  - rewrite write_varint_eq by lia. case_step; zbool; [|lia].
    repeat constructor; lia.
  - intros IH. rewrite write_varint_eq by lia. case_step; zbool; [lia|].
    constructor; [|exact IH]. mlia.
Qed.

Lemma write_varint_nonempty i : 0 <= i -> write_varint i <> [].
Proof. intros. rewrite write_varint_eq by lia. by case_step. Qed.

(** Decoding of one group: the accumulator [acc] holds the bits below
    [shift]. *)
Lemma accumulate_group acc b shift :
  0 <= shift -> 0 <= acc < 2 ^ shift -> is_u8 b ->
  Z.lor acc (Z.shiftl (Z.land b 127) shift) = acc + (b mod 128) * 2 ^ shift.
Proof.
  intros Hs Ha Hb. rewrite land127, lor_add_disjoint by lia. lia.
Qed.

Lemma pow_group bits shift :
  0 <= shift <= bits -> 2 ^ bits = 2 ^ shift * 2 ^ (bits - shift).
Proof. intros. rewrite <- Z.pow_add_r by lia. f_equal. lia. Qed.

(** [read_varint] inverts [write_varint] in the middle of an input, with the
    accumulator holding the groups read so far. *)
Lemma read_write_loop bits i :
  0 <= i -> forall rest read shift acc,
  0 <= shift < bits -> 0 <= acc < 2 ^ shift -> i < 2 ^ (bits - shift) ->
  (i = 0 -> shift = 0) ->
  read_varint_loop bits (write_varint i ++ rest) read shift acc =
    (read + zlen (write_varint i), acc + i * 2 ^ shift).
Proof.
  intros Hi0. pattern i. revert i Hi0. refine (varint_ind _ _ _); intros i Hi.
  - intros rest read shift acc Hs Ha Hb Hz.
    rewrite write_varint_eq by lia. destruct (Z.ltb_spec i 128); [|lia].
    cbn [app read_varint_loop].
    rewrite high_bit, accumulate_group by (wunfold; lia).
    rewrite Z.shiftl_1_l. change (zlen [i]) with 1.
    destruct (Z.leb_spec (2 ^ (bits - shift)) i); [lia|]. rewrite andb_false_r.
    destruct (Z.eqb_spec i 0); destruct (Z.eqb_spec shift 0); cbn [andb negb]; try lia;
      (destruct (Z.ltb_spec i 128); [|lia]); rewrite Z.mod_small by lia; f_equal; lia.
  - intros IH rest read shift acc Hs Ha Hb _.
    rewrite write_varint_eq by lia. destruct (Z.ltb_spec i 128); [lia|].
    cbn [app read_varint_loop].
    set (b := i mod 128 + 128). assert (Hbb : 128 <= b < 256) by (subst b; mlia).
    rewrite high_bit, accumulate_group by (wunfold; lia).
    assert (Hsh : shift + 7 < bits).
    { destruct (Z.lt_ge_cases (shift + 7) bits); [lia|].
      assert (2 ^ (bits - shift) <= 2 ^ 7) by (apply Z.pow_le_mono_r; lia).
      change (2 ^ 7) with 128 in *. lia. }
    destruct (Z.leb_spec bits (shift + 7)); [lia|]. cbn [andb].
    destruct (Z.eqb_spec b 0); [lia|]. cbn [andb].
    destruct (Z.ltb_spec b 128); [lia|].
    assert (Hb7 : b mod 128 = i mod 128) by (subst b; mlia).
    pose proof (Z.mod_pos_bound i 128 ltac:(lia)).
    rewrite IH.
    + rewrite zlen_cons, Hb7, Z.pow_add_r by lia. change (2 ^ 7) with 128.
      f_equal; [lia|]. rewrite (Z.div_mod i 128) at 3 by lia. ring.
    + lia.
    + rewrite Hb7, Z.pow_add_r by lia. change (2 ^ 7) with 128. nia.
    + replace (bits - (shift + 7)) with (bits - shift - 7) by lia.
      apply Z.div_lt_upper_bound; [lia|].
      change 128 with (2 ^ 7). rewrite <- Z.pow_add_r by lia.
      by replace (7 + (bits - shift - 7)) with (bits - shift) by lia.
    + intros E. exfalso. assert (1 <= i / 128) by (apply Z.div_le_lower_bound; lia). lia.
Qed.

(** The converse: whatever [read_varint] accepts is the encoding of its
    value, or an input that stops in the middle of an encoding. *)
Lemma read_varint_loop_sound bits l :
  bytes_ok l -> forall read shift acc n v,
  0 <= read -> 0 <= shift < bits -> 0 <= acc < 2 ^ shift ->
  read_varint_loop bits l read shift acc = (n, v) -> 0 <= n ->
  (Forall (fun b => 128 <= b) l /\ n = read + zlen l) \/
  exists i rest, l = write_varint i ++ rest /\ 0 <= i < 2 ^ (bits - shift) /\
    (i = 0 -> shift = 0) /\ n = read + zlen (write_varint i) /\ v = acc + i * 2 ^ shift.
Proof.
  induction 1 as [|b l Hb Hl IH]; intros read shift acc n v Hr Hs Ha E Hn; cbn in E.
  { left. simplify_eq. rewrite zlen_nil. split; [constructor|lia]. }
  rewrite Z.shiftl_1_l, high_bit, accumulate_group in E by (wunfold; lia).
  destruct ((bits <=? shift + 7) && (2 ^ (bits - shift) <=? b)) eqn:Ov; [simplify_eq; lia|].
  destruct ((b =? 0) && negb (shift =? 0)) eqn:Nc; [simplify_eq; lia|].
  assert (Hfit : shift + 7 < bits \/ b < 2 ^ (bits - shift)) by (zbool; lia).
  destruct (Z.ltb_spec b 128) as [Hlast|Hcont].
  - right. exists b, l. rewrite write_varint_eq by (wunfold; lia).
    destruct (Z.ltb_spec b 128); [|lia]. simplify_eq.
    rewrite Z.mod_small by (wunfold; lia). change (zlen [b]) with 1.
    assert (b < 2 ^ (bits - shift)).
    { destruct Hfit; [|done]. eapply Z.lt_le_trans; [exact Hlast|].
      change 128 with (2 ^ 7). apply Z.pow_le_mono_r; lia. }
    wunfold. destruct (Z.eqb_spec b 0), (Z.eqb_spec shift 0); try discriminate; naive_solver lia.
  - assert (Hsh : shift + 7 < bits).
    { destruct Hfit; [done|]. destruct (Z.lt_ge_cases (shift + 7) bits); [done|].
      assert (2 ^ (bits - shift) <= 2 ^ 7) by (apply Z.pow_le_mono_r; lia).
      change (2 ^ 7) with 128 in *. lia. }
    assert (Hacc : 0 <= acc + b mod 128 * 2 ^ shift < 2 ^ (shift + 7)).
    { pose proof (Z.mod_pos_bound b 128 ltac:(lia)). rewrite Z.pow_add_r by lia.
      change (2 ^ 7) with 128. nia. }
    destruct (IH (read + 1) (shift + 7) _ n v ltac:(lia) ltac:(lia) Hacc E Hn)
      as [[Hall ->]|(i & rest & -> & Hi & Hz & -> & ->)].
    + left. rewrite zlen_cons. split; [by constructor|lia].
    + right. exists (b mod 128 + 128 * i), rest.
      pose proof (Z.mod_pos_bound b 128 ltac:(lia)).
      assert (i <> 0) by lia.
      rewrite (write_varint_eq (b mod 128 + 128 * i)) by lia.
      destruct (Z.ltb_spec (b mod 128 + 128 * i) 128); [lia|].
      replace ((b mod 128 + 128 * i) mod 128 + 128) with b by (wunfold; mlia).
      replace ((b mod 128 + 128 * i) / 128) with i by mlia.
      rewrite zlen_cons. split; [done|]. split; [|split; [lia|split; [lia|]]].
      * replace (bits - shift) with (7 + (bits - (shift + 7))) by lia.
        rewrite Z.pow_add_r by lia. change (2 ^ 7) with 128. lia.
      * rewrite Z.pow_add_r by lia. change (2 ^ 7) with 128. ring.
Qed.

Lemma read_write_varint_exact bits i rest :
  0 < bits -> 0 <= i < 2 ^ bits ->
  read_varint bits (write_varint i ++ rest) = (zlen (write_varint i), i).
Proof.
  intros Hb Hi. unfold read_varint.
  rewrite read_write_loop; rewrite ?Z.sub_0_r; try lia. f_equal; lia.
Qed.

(** Reading back what [write_varint] wrote, with anything after it,
    returns the number of bytes written and the value: the encoding is
    self-delimiting. *)
Theorem read_write_varint (bits i : Z) (rest : list Z) :
  0 < bits -> 0 <= i < 2 ^ bits ->
  read_varint bits (write_varint i ++ rest) = (zlen (write_varint i), i).
Proof. apply read_write_varint_exact. Qed.

Lemma read_write_varint_witness :
  read_varint 64 (write_varint 18446744073709551615 ++ [7]) = (10, 18446744073709551615).
Proof.
  change 10 with (zlen (write_varint 18446744073709551615)).
  apply (read_write_varint 64 18446744073709551615 [7]); lia.
Defined.

Lemma read_varint_unique (bits : Z) (l : list Z) (n v : Z) :
  0 < bits -> bytes_ok l -> read_varint bits l = (n, v) -> 0 <= n ->
  (Forall (fun b => 128 <= b) l /\ n = zlen l) \/
  exists rest, l = write_varint v ++ rest /\ n = zlen (write_varint v) /\ 0 <= v < 2 ^ bits.
Proof.
  intros Hb Hl E Hn.
  destruct (read_varint_loop_sound bits l Hl 0 0 0 n v ltac:(lia) ltac:(lia) ltac:(lia) E Hn)
    as [[? ->]|(i & rest & -> & Hi & _ & -> & ->)]; [left; split; [done|lia]|].
  right. exists rest. rewrite Z.sub_0_r in Hi.
  replace (0 + i * 2 ^ 0) with i by lia. split; [done|lia].
Qed.

(** Canonicity: if [read_varint] succeeds on an input that does not end in
    the middle of a number, then the bytes it consumed are exactly the encoding
    of the value it returned.  (On an input that runs out, it returns the number
    of bytes it saw, so a caller that only tests [read > 0] accepts it.) *)
Theorem read_varint_canonical (bits : Z) (l : list Z) (n v : Z) :
  0 < bits -> bytes_ok l -> read_varint bits l = (n, v) -> 0 <= n ->
  (Forall (fun b => 128 <= b) l /\ n = zlen l) \/
  exists rest, l = write_varint v ++ rest /\ n = zlen (write_varint v) /\ 0 <= v < 2 ^ bits.
Proof. apply read_varint_unique. Qed.

Lemma read_varint_canonical_witness :
  read_varint 64 [172; 2; 9] = (2, 300) /\
  ((Forall (fun b => 128 <= b) [172; 2; 9] /\ 2 = zlen [172; 2; 9]) \/
   exists rest, [172; 2; 9] = write_varint 300 ++ rest /\ 2 = zlen (write_varint 300) /\
     0 <= 300 < 2 ^ 64).
Proof.
  split; [reflexivity|].
  apply (read_varint_canonical 64 [172; 2; 9] 2 300); [lia| |reflexivity|lia].
  repeat constructor; unfold is_u8; lia.
Defined.
