(* ===== verification/Stream.v ===== *)
(** Byte streams: [Common/IInputStream.h], [Common/IOutputStream.h], their
    in-memory implementations and the primitives of [Common/StreamTools.cpp].

    The stream interfaces are type classes.  The primitives ([read],
    [readVarint], [write], [writeVarint]) are written against the interface and
    proved for every lawful stream; [MemoryInputStream], [StringInputStream],
    [VectorOutputStream] and [StringOutputStream] are instances.  Sizes of
    buffers are [nat]: they count bytes of an object in memory. *)
From S2P Require Import Prelude IntUtil Varint.

(** * The interfaces *)

(** [IInputStream]: [readSome] returns the bytes it stored and the stream
    after the call. *)
Class IInputStream (S : Type) := {
  readSome : BuildConfig -> S -> nat -> outcome (list Z * S);
}.

(** What the primitives rely on: a stream has pending bytes, [readSome] takes a
    prefix of them no longer than asked, and an empty one only when nothing was
    asked for or nothing is left. *)
Class InputStreamLaws (S : Type) `{IInputStream S} := {
  pending : S -> list Z;
  in_sane : S -> Prop;
  readSome_prefix B s size :
    in_sane s ->
    exists d s', readSome B s size = Ok (d, s') /\ in_sane s' /\
      pending s = d ++ pending s' /\ (length d <= size)%nat /\
      (d = [] -> size = 0%nat \/ pending s = []);
}.

(** [IOutputStream]: [writeSome] returns the number of bytes it took. *)
Class IOutputStream (S : Type) := {
  writeSome : S -> list Z -> nat * S;
}.

Class OutputStreamLaws (S : Type) `{IOutputStream S} := {
  written : S -> list Z;
  writeSome_prefix s data :
    let '(n, s') := writeSome s data in
    (n <= length data)%nat /\ written s' = written s ++ take n data /\
    (n = 0%nat -> data = []);
}.

(** * In-memory streams *)

Record MemoryInputStream := { mis_buffer : list Z; mis_position : nat }.

Definition MemoryInputStream_new (buffer : list Z) : MemoryInputStream :=
  {| mis_buffer := buffer; mis_position := 0 |}.

Definition MemoryInputStream_endOfStream (s : MemoryInputStream) : bool :=
  (mis_position s =? length (mis_buffer s))%nat.

Definition MemoryInputStream_readSome (B : BuildConfig) (s : MemoryInputStream) (size : nat)
  : outcome (list Z * MemoryInputStream) :=
  _ ← massert (mis_position s <=? length (mis_buffer s))%nat;
  let readSize := Nat.min size (length (mis_buffer s) - mis_position s) in
  if (0 <? readSize)%nat then
    Ok (take readSize (drop (mis_position s) (mis_buffer s)),
        {| mis_buffer := mis_buffer s; mis_position := mis_position s + readSize |})
  else Ok ([], s).

#[export] Instance MemoryInputStream_stream : IInputStream MemoryInputStream :=
  {| readSome := MemoryInputStream_readSome |}.

Record StringInputStream := { sis_in : list Z; sis_offset : nat }.

Definition StringInputStream_readSome (B : BuildConfig) (s : StringInputStream) (size : nat)
  : outcome (list Z * StringInputStream) :=
  let size := if (length (sis_in s) - sis_offset s <? size)%nat
              then (length (sis_in s) - sis_offset s)%nat else size in
  Ok (take size (drop (sis_offset s) (sis_in s)),
      {| sis_in := sis_in s; sis_offset := sis_offset s + size |}).

#[export] Instance StringInputStream_stream : IInputStream StringInputStream :=
  {| readSome := StringInputStream_readSome |}.

Definition VectorOutputStream_writeSome (out data : list Z) : nat * list Z :=
  (length data, out ++ data).

(** [StringOutputStream] appends to a [std::string] the same way. *)
Definition StringOutputStream_writeSome (out data : list Z) : nat * list Z :=
  (length data, out ++ data).

#[export] Instance VectorOutputStream_stream : IOutputStream (list Z) :=
  {| writeSome := VectorOutputStream_writeSome |}.

(** * The primitives of StreamTools *)

Section Input.
Context {S : Type} `{IInputStream S} {B : BuildConfig}.

(** The [while (size > 0)] loop of [read]; every iteration reads at least one
    byte, so [size] iterations are enough fuel. *)
Fixpoint read_loop (fuel : nat) (s : S) (data : list Z) (size : nat) : outcome (list Z * S) :=
  match fuel with
  | O => Ok (data, s)
  | Datatypes.S fuel =>
      if (size =? 0)%nat then Ok (data, s) else
      '(d, s) ← readSome B s size;
      if (length d =? 0)%nat then Throw runtime_error
      else read_loop fuel s (data ++ d) (size - length d)
  end.

Definition read (s : S) (size : nat) : outcome (list Z * S) := read_loop size s [] size.

(** Little-endian value of a byte buffer. *)
Definition le_combine (l : list Z) : Z := value 256 l.

(** Reinterpretation of a w-bit pattern as a signed integer. *)
Definition signed (w x : Z) : Z := if x <? 2 ^ (w - 1) then x else x - 2 ^ w.

Definition read_uint (n : nat) (s : S) : outcome (Z * S) :=
  '(d, s) ← read s n; Ok (le_combine d, s).
Definition read_sint (n : nat) (s : S) : outcome (Z * S) :=
  '(d, s) ← read s n; Ok (signed (8 * Z.of_nat n) (le_combine d), s).

Definition read_int8 := read_sint 1.
Definition read_int16 := read_sint 2.
Definition read_int32 := read_sint 4.
Definition read_int64 := read_sint 8.
Definition read_uint8 := read_uint 1.
Definition read_uint16 := read_uint 2.
Definition read_uint32 := read_uint 4.
Definition read_uint64 := read_uint 8.

(** [read(in, std::vector<uint8_t>&, size)] and the [std::string] overload. *)
Definition read_vector (s : S) (size : nat) : outcome (list Z * S) := read s size.
Definition read_string (s : S) (size : nat) : outcome (list Z * S) := read s size.

(** [readVarint] for an unsigned type of [w] bits ([sizeof(temp) * 8]).  Seven
    bits are consumed per iteration, so ten iterations read at most 70 bits; the
    out-of-fuel value is never reached ([readVarint_total]). *)
Fixpoint readVarint_loop (w : Z) (fuel : nat) (s : S) (shift temp : Z) : outcome (Z * S) :=
  match fuel with
  | O => Undefined
  | Datatypes.S fuel =>
      '(piece, s) ← read_uint8 s;
      if (w - 7 <=? shift) && (Z.shiftl 1 (w - shift) <=? piece) then Throw runtime_error
      else
        let temp := (Z.lor temp (Z.shiftl (Z.land piece 127) shift)) mod 2 ^ w in
        if Z.land piece 128 =? 0 then
          if (piece =? 0) && negb (shift =? 0) then Throw runtime_error else Ok (temp, s)
        else readVarint_loop w fuel s (u8 (shift + 7)) temp
  end.

Definition readVarint (w : Z) (s : S) : outcome (Z * S) := readVarint_loop w 10 s 0 0.

Definition readVarint_uint8 := readVarint 8.
Definition readVarint_uint16 := readVarint 16.
Definition readVarint_uint32 := readVarint 32.
Definition readVarint_uint64 := readVarint 64.
End Input.

Section Output.
Context {S : Type} `{IOutputStream S}.

Fixpoint write_loop (fuel : nat) (s : S) (data : list Z) : outcome S :=
  match fuel with
  | O => Ok s
  | Datatypes.S fuel =>
      if (length data =? 0)%nat then Ok s else
      let '(n, s) := writeSome s data in
      if (n =? 0)%nat then Throw runtime_error
      else write_loop fuel s (drop n data)
  end.

Definition write (s : S) (data : list Z) : outcome S := write_loop (length data) s data.

(** The [n] little-endian bytes of an integer (two's complement). *)
Definition le_split (n : nat) (x : Z) : list Z := digits 256 n x.

Definition write_int (n : nat) (s : S) (value : Z) : outcome S := write s (le_split n value).
Definition write_uint8 := write_int 1.
Definition write_uint16 := write_int 2.
Definition write_uint32 := write_int 4.
Definition write_uint64 := write_int 8.

Fixpoint writeVarint_loop (fuel : nat) (s : S) (value : Z) : outcome S :=
  match fuel with
  | O => Ok s
  | Datatypes.S fuel =>
      if 128 <=? value then
        s ← write_uint8 s (u8 (Z.lor value 128));
        writeVarint_loop fuel s (Z.shiftr value 7)
      else write_uint8 s (u8 value)
  end.

Definition writeVarint (s : S) (value : Z) : outcome S :=
  writeVarint_loop (Datatypes.S (Z.to_nat (Z.log2 value))) s value.
Definition writeVarint_uint32 := writeVarint.
End Output.

(** * The in-memory streams obey the laws *)

#[export] Program Instance MemoryInputStream_laws : InputStreamLaws MemoryInputStream := {|
  pending s := drop (mis_position s) (mis_buffer s);
  in_sane s := (mis_position s <= length (mis_buffer s))%nat;
|}.
Next Obligation.
  intros B [buf pos] size Hs. cbn in *. unfold MemoryInputStream_readSome; cbn [mis_position mis_buffer].
  rewrite massert_true by (apply Nat.leb_le; exact Hs).
  cbn [mbind outcome_bind mis_position mis_buffer].
  destruct (Nat.ltb_spec 0 (size `min` (length buf - pos))).
  - eexists _, _. split; [reflexivity|]. cbn. split; [lia|].
    rewrite <- drop_drop, take_drop, length_take, length_drop. split; [done|].
    split; [lia|]. intros E%(f_equal length).
    rewrite length_take, length_drop in E. cbn in E. lia.
  - eexists [], _. split; [reflexivity|]. cbn. repeat split; [lia|lia|].
    intros _. destruct size; [by left|right]. apply drop_ge. lia.
Qed.

#[export] Program Instance StringInputStream_laws : InputStreamLaws StringInputStream := {|
  pending s := drop (sis_offset s) (sis_in s);
  in_sane s := (sis_offset s <= length (sis_in s))%nat;
|}.
Next Obligation.
  intros B [buf pos] size Hs. cbn in *. unfold StringInputStream_readSome; cbn [sis_in sis_offset].
  set (n := if (length buf - pos <? size)%nat then (length buf - pos)%nat else size).
  assert (Hn : n = (size `min` (length buf - pos))%nat)
    by (subst n; destruct (Nat.ltb_spec (length buf - pos) size); lia).
  clearbody n. subst n. eexists _, _. split; [reflexivity|]. cbn. split; [lia|].
  rewrite <- drop_drop, take_drop, length_take, length_drop. split; [done|].
  split; [lia|]. intros E%(f_equal length).
  rewrite length_take, length_drop in E. cbn in E.
  destruct (decide (size = 0%nat)); [by left|right]. apply drop_ge. lia.
Qed.

#[export] Program Instance VectorOutputStream_laws : OutputStreamLaws (list Z) := {|
  written s := s;
|}.
Next Obligation.
  intros s data. cbn. rewrite firstn_all. repeat split; [lia|].
  by destruct data.
Qed.

(** * Reading from a lawful stream *)

Section InputTheory.
Context {S : Type} `{InputStreamLaws S} {B : BuildConfig}.

Lemma read_loop_spec fuel s data size :
  in_sane s -> (size <= fuel)%nat ->
  if (size <=? length (pending s))%nat
  then exists s', read_loop fuel s data size = Ok (data ++ take size (pending s), s') /\
         in_sane s' /\ pending s' = drop size (pending s)
  else read_loop fuel s data size = Throw runtime_error.
Proof.
  revert s data size. induction fuel as [|fuel IH]; intros s data size Hs Hf.
  { assert (size = 0)%nat as -> by lia. cbn. exists s. by rewrite app_nil_r, drop_0. }
  cbn [read_loop]. destruct (Nat.eqb_spec size 0) as [->|Hz].
  { cbn. exists s. by rewrite app_nil_r, drop_0. }
  destruct (readSome_prefix B s size Hs) as (d & s' & -> & Hs' & Ep & Hl & He). cbn.
  destruct (Nat.eqb_spec (length d) 0) as [E0|E0].
  { apply nil_length_inv in E0. destruct (He E0) as [|Ee]; [lia|]. rewrite Ee.
    destruct size; [lia|]. reflexivity. }
  specialize (IH s' (data ++ d) (size - length d)%nat Hs' ltac:(lia)).
  rewrite Ep, length_app.
  destruct (Nat.leb_spec (size - length d) (length (pending s')));
    destruct (Nat.leb_spec size (length d + length (pending s'))); try lia; [|exact IH].
  destruct IH as (s'' & -> & Hs'' & Ep''). exists s''. rewrite Ep''.
  rewrite take_app_ge, drop_app_ge by lia. by rewrite app_assoc.
Qed.

Lemma read_exact (s : S) (size : nat) :
  in_sane s ->
  if (size <=? length (pending s))%nat
  then exists s', read s size = Ok (take size (pending s), s') /\
         in_sane s' /\ pending s' = drop size (pending s)
  else read s size = Throw runtime_error.
Proof. intros Hs. apply (read_loop_spec size s [] size Hs). lia. Qed.

(** For every stream that obeys the interface, [read] of [size] bytes
    returns exactly the next [size] bytes and leaves the rest, however the
    stream splits them over calls to [readSome]; it throws exactly when fewer
    are left. *)
Theorem read_spec (s : S) (size : nat) :
  in_sane s ->
  if (size <=? length (pending s))%nat
  then exists s', read s size = Ok (take size (pending s), s') /\
         in_sane s' /\ pending s' = drop size (pending s)
  else read s size = Throw runtime_error.
Proof. exact (read_exact s size). Qed.

Lemma read_uint8_spec s :
  in_sane s ->
  match pending s with
  | [] => read_uint8 s = Throw runtime_error
  | b :: rest => exists s', read_uint8 s = Ok (b, s') /\ in_sane s' /\ pending s' = rest
  end.
Proof.
  intros Hs. pose proof (read_loop_spec 1 s [] 1 Hs ltac:(lia)) as R.
  unfold read_uint8, read_uint, read. destruct (pending s) as [|b rest].
  - cbn -[read_loop] in R |- *. by rewrite R.
  - cbn -[read_loop] in R |- *. destruct R as (s' & -> & Hs' & E).
    exists s'. rewrite E, drop_0, take_0. cbn. by rewrite Z.add_0_r.
Qed.

(** [readVarint] on a stream against [read_varint] on its pending bytes. *)
Lemma readVarint_loop_spec w fuel s shift temp rd :
  in_sane s -> bytes_ok (pending s) -> 0 <= shift < w -> w <= 64 ->
  w - shift <= 7 * Z.of_nat fuel -> 0 <= temp < 2 ^ shift -> 0 <= rd ->
  let '(n, v) := read_varint_loop w (pending s) rd shift temp in
  match readVarint_loop w fuel s shift temp with
  | Ok (v', s') => v' = v /\ 0 <= n /\ in_sane s' /\
      exists c, pending s = c ++ pending s' /\ zlen c = n - rd /\ Exists (fun b => b < 128) c
  | Throw e => e = runtime_error /\ (n < 0 \/ Forall (fun b => 128 <= b) (pending s))
  | _ => False
  end.
Proof.
  revert s shift temp rd.
  induction fuel as [|fuel IH]; intros s shift temp rd Hs Hb Hsh Hw Hf Ht Hrd; [lia|].
  cbn [readVarint_loop]. pose proof (read_uint8_spec s Hs) as R.
  destruct (pending s) as [|b rest] eqn:Ep.
  { cbn [read_varint_loop]. rewrite R. cbn [mbind outcome_bind]. split; [done|]. by right. }
  destruct R as (s1 & -> & Hs1 & E1). cbn [mbind outcome_bind read_varint_loop].
  apply Forall_cons in Hb as [Hb Hrest].
  rewrite !Z.shiftl_1_l, !high_bit, !accumulate_group by (wunfold; lia).
  replace (w - 7 <=? shift) with (w <=? shift + 7)
    by (destruct (Z.leb_spec w (shift + 7)), (Z.leb_spec (w - 7) shift); lia).
  destruct ((w <=? shift + 7) && (2 ^ (w - shift) <=? b)) eqn:Ov; [split; [done|lia]|].
  assert (Hfit : shift + 7 < w \/ b < 2 ^ (w - shift)) by (zbool; lia).
  pose proof (Z.mod_pos_bound b 128 ltac:(lia)) as Hm.
  assert (Hacc : 0 <= temp + b mod 128 * 2 ^ shift < 2 ^ w).
  { rewrite (pow_group w shift) by lia. destruct Hfit.
    - assert (2 ^ 7 <= 2 ^ (w - shift)) by (apply Z.pow_le_mono_r; lia).
      change (2 ^ 7) with 128 in *. nia.
    - assert (b mod 128 <= b) by (apply Z.mod_le; wunfold; lia). nia. }
  rewrite (Z.mod_small (temp + _)) by lia.
  destruct (Z.ltb_spec b 128) as [Hlast|Hcont].
  - destruct ((b =? 0) && negb (shift =? 0)); [split; [done|lia]|].
    split; [done|]. split; [lia|]. split; [done|]. exists [b].
    rewrite E1. split; [done|]. change (zlen [b]) with 1. split; [lia|by constructor].
  - destruct ((b =? 0) && negb (shift =? 0)) eqn:Nc; [zbool; lia|].
    assert (Hs7 : shift + 7 < w).
    { destruct Hfit as [|Hlt]; [done|]. destruct (Z.lt_ge_cases (shift + 7) w); [done|].
      assert (2 ^ (w - shift) <= 2 ^ 7) by (apply Z.pow_le_mono_r; lia).
      change (2 ^ 7) with 128 in *. lia. }
    rewrite u8_small by (wunfold; lia).
    assert (Ht7 : 0 <= temp + b mod 128 * 2 ^ shift < 2 ^ (shift + 7)).
    { rewrite Z.pow_add_r by lia. change (2 ^ 7) with 128. nia. }
    specialize (IH s1 (shift + 7) _ (rd + 1) Hs1 ltac:(by rewrite E1)
      ltac:(lia) Hw ltac:(lia) Ht7 ltac:(lia)).
    rewrite E1 in IH.
    destruct (read_varint_loop w rest (rd + 1) (shift + 7) _) as [n v].
    destruct (readVarint_loop w fuel s1 (shift + 7) _) as [[v' s']|e| |]; try done.
    + destruct IH as (? & ? & ? & c & -> & ? & ?). split; [done|]. split; [done|].
      split; [done|]. exists (b :: c). rewrite zlen_cons. split; [done|].
      split; [lia|by right].
    + destruct IH as [? [?|?]]; split; try done; [by left|right; by constructor].
Qed.

Lemma readVarint_spec w s :
  in_sane s -> bytes_ok (pending s) -> 0 < w <= 64 ->
  let '(n, v) := read_varint w (pending s) in
  match readVarint w s with
  | Ok (v', s') => v' = v /\ 0 <= n /\ in_sane s' /\
      exists c, pending s = c ++ pending s' /\ zlen c = n /\ Exists (fun b => b < 128) c
  | Throw e => e = runtime_error /\ (n < 0 \/ Forall (fun b => 128 <= b) (pending s))
  | _ => False
  end.
Proof.
  intros Hs Hb Hw. unfold read_varint, readVarint.
  pose proof (readVarint_loop_spec w 10 s 0 0 0 Hs Hb ltac:(lia) ltac:(lia) ltac:(lia)
    ltac:(lia) ltac:(lia)) as R.
  destruct (read_varint_loop w (pending s) 0 0 0) as [n v].
  destruct (readVarint_loop w 10 s 0 0) as [[v' s']|e| |]; try done.
  destruct R as (? & ? & ? & c & ? & ? & ?). repeat split; try done.
  exists c. rewrite Z.sub_0_r in *. done.
Qed.
End InputTheory.

Lemma write_varint_last i : 0 <= i -> Exists (fun b => b < 128) (write_varint i).
Proof.
  revert i. apply varint_ind; intros i Hi.
  - rewrite write_varint_eq by lia. case_step; zbool; [by constructor|lia].
  - intros IH. rewrite write_varint_eq by lia. case_step; zbool; [lia|by right].
Qed.

Lemma Exists_not_Forall_ge (c l : list Z) :
  Exists (fun b => b < 128) c -> ~ Forall (fun b => 128 <= b) (c ++ l).
Proof.
  intros HE HF. apply Forall_app in HF as [HF _].
  apply Exists_exists in HE as (x & Hx & Hlt).
  rewrite Forall_forall in HF. specialize (HF x Hx). lia.
Qed.

Section VarintStream.
Context {S : Type} `{InputStreamLaws S} {B : BuildConfig}.

Lemma readVarint_next (w v : Z) (s : S) (rest : list Z) :
  in_sane s -> 0 < w <= 64 -> 0 <= v < 2 ^ w -> bytes_ok rest ->
  pending s = write_varint v ++ rest ->
  exists s', readVarint w s = Ok (v, s') /\ in_sane s' /\ pending s' = rest.
Proof.
  intros Hs Hw Hv Hr Ep.
  assert (Hb : bytes_ok (pending s))
    by (rewrite Ep; apply Forall_app; split; [apply write_varint_bytes; lia|done]).
  pose proof (readVarint_spec w s Hs Hb Hw) as R.
  rewrite Ep, read_write_varint_exact in R by lia.
  destruct (readVarint w s) as [[v' s']|e| |]; try done.
  - destruct R as (-> & _ & Hs' & c & Ec & Hc & _). exists s'. split; [done|]. split; [done|].
    apply app_inj_1 in Ec as [_ ?]; [done|]. unfold zlen in Hc. lia.
  - destruct R as [_ [Hn|HF]]; [pose proof (zlen_nonneg (write_varint v)); lia|].
    exfalso. eapply Exists_not_Forall_ge; [|exact HF]. apply write_varint_last; lia.
Qed.

(** [readVarint] on any lawful stream returns the value whose encoding is
    next and leaves the stream right behind it. *)
Theorem readVarint_decodes (w v : Z) (s : S) (rest : list Z) :
  in_sane s -> 0 < w <= 64 -> 0 <= v < 2 ^ w -> bytes_ok rest ->
  pending s = write_varint v ++ rest ->
  exists s', readVarint w s = Ok (v, s') /\ in_sane s' /\ pending s' = rest.
Proof. exact (readVarint_next w v s rest). Qed.

Lemma readVarint_inv (w v : Z) (s s' : S) :
  in_sane s -> 0 < w <= 64 -> bytes_ok (pending s) ->
  readVarint w s = Ok (v, s') ->
  pending s = write_varint v ++ pending s' /\ 0 <= v < 2 ^ w /\ in_sane s'.
Proof.
  intros Hs Hw Hb E. pose proof (readVarint_spec w s Hs Hb Hw) as R.
  rewrite E in R. destruct (read_varint w (pending s)) as [n v'] eqn:Er.
  destruct R as (-> & Hn & Hs' & c & Ec & Hc & HE).
  destruct (read_varint_unique w _ n v' ltac:(lia) Hb Er Hn)
    as [[HF _]|(rest & Ew & Hl & Hv)].
  - rewrite Ec in HF. exfalso. by eapply Exists_not_Forall_ge.
  - rewrite Ec in Ew |- *. apply app_inj_1 in Ew as [-> _]; [done|].
    unfold zlen in *. lia.
Qed.

(** Conversely a successful [readVarint] consumed the canonical encoding of
    the value it returned, which fits the width: no two byte strings decode to
    the same number. *)
Theorem readVarint_canonical (w v : Z) (s s' : S) :
  in_sane s -> 0 < w <= 64 -> bytes_ok (pending s) ->
  readVarint w s = Ok (v, s') ->
  pending s = write_varint v ++ pending s' /\ 0 <= v < 2 ^ w.
Proof. intros ????. edestruct (readVarint_inv w v s s') as (? & ? & _); eauto. Qed.

(** [readVarint] always returns or throws: the fuel is never exhausted. *)
Lemma readVarint_total w (s : S) :
  in_sane s -> 0 < w <= 64 -> bytes_ok (pending s) ->
  readVarint w s = Throw runtime_error \/ exists v s', readVarint w s = Ok (v, s') /\ in_sane s'.
Proof.
  intros Hs Hw Hb. pose proof (readVarint_spec w s Hs Hb Hw) as R.
  destruct (read_varint w (pending s)) as [n v].
  destruct (readVarint w s) as [[v' s']|e| |]; try done.
  - right. naive_solver.
  - left. by destruct R as [-> _].
Qed.
End VarintStream.

(** The witnesses run on a [MemoryInputStream]. *)
Local Notation wB := debug_build.
Local Notation wm := (MemoryInputStream_new [172; 2; 9; 9]).

Lemma read_spec_witness :
  in_sane wm /\
  exists s', read (B := wB) wm 3 = Ok ([172; 2; 9], s') /\ in_sane s' /\ pending s' = [9].
Proof. split; [cbn; lia|]. refine (read_spec (B := wB) wm 3 _). cbn. lia. Defined.

Lemma readVarint_decodes_witness :
  exists s', readVarint (B := wB) 32 wm = Ok (300, s') /\ in_sane s' /\ pending s' = [9; 9].
Proof.
  apply (readVarint_decodes (B := wB) 32 300 wm [9; 9]);
    [cbn; lia|lia|lia|repeat constructor; unfold is_u8; lia|reflexivity].
Defined.

Lemma readVarint_canonical_witness :
  pending wm = write_varint 300 ++
    pending {| mis_buffer := [172; 2; 9; 9]; mis_position := 2 |} /\ 0 <= 300 < 2 ^ 32.
Proof.
  apply (readVarint_canonical (B := wB) 32 300 wm {| mis_buffer := [172; 2; 9; 9]; mis_position := 2 |});
    [cbn; lia|lia|repeat constructor; unfold is_u8; lia|reflexivity].
Defined.

(** * Writing to a lawful stream *)

Section OutputTheory.
Context {S : Type} `{OutputStreamLaws S}.

Lemma write_loop_spec fuel s data :
  (length data <= fuel)%nat ->
  exists s', write_loop fuel s data = Ok s' /\ written s' = written s ++ data.
Proof.
  revert s data. induction fuel as [|fuel IH]; intros s data Hf.
  { destruct data; [|cbn in Hf; lia]. exists s. cbn. by rewrite app_nil_r. }
  cbn [write_loop]. destruct (Nat.eqb_spec (length data) 0) as [E0|E0].
  { apply nil_length_inv in E0 as ->. exists s. by rewrite app_nil_r. }
  pose proof (writeSome_prefix s data) as W. destruct (writeSome s data) as [n s1].
  destruct W as (Hn & Ew & Hz). destruct (Nat.eqb_spec n 0) as [->|Hn0].
  { specialize (Hz eq_refl). subst. cbn in E0. lia. }
  destruct (IH s1 (drop n data)) as (s' & -> & E'); [rewrite length_drop; lia|].
  exists s'. split; [done|]. by rewrite E', Ew, <- app_assoc, take_drop.
Qed.

Lemma write_spec s data :
  exists s', write s data = Ok s' /\ written s' = written s ++ data.
Proof. by apply write_loop_spec. Qed.

Lemma write_uint8_spec s b :
  is_u8 b -> exists s', write_uint8 s b = Ok s' /\ written s' = written s ++ [b].
Proof.
  intros Hb. unfold write_uint8, write_int, le_split. cbn [digits].
  rewrite Z.mod_small by exact Hb. apply write_spec.
Qed.

Lemma high_or v : 0 <= v -> u8 (Z.lor v 128) = v mod 128 + 128.
Proof.
  intros Hv. rewrite <- group_byte. unfold u8.
  change 256 with (2 ^ 8). change 127 with (Z.ones 7). rewrite <- !Z.land_ones by lia.
  apply Z.bits_inj'. intros i Hi.
  rewrite !Z.land_spec, !Z.lor_spec, !Z.land_spec.
  destruct (Z.lt_ge_cases i 7); [|destruct (Z.eq_dec i 7) as [->|]].
  - rewrite (Z.ones_spec_low 8), (Z.ones_spec_low 7) by lia. by rewrite !andb_true_r.
  - rewrite (Z.ones_spec_low 8), (Z.ones_spec_high 7) by lia.
    change (Z.testbit 128 7) with true. by rewrite !orb_true_r.
  - rewrite !(Z.ones_spec_high 8) by lia. rewrite !andb_false_r. cbn.
    symmetry. change 128 with (2 ^ 7). rewrite Z.pow2_bits_false by lia. done.
Qed.

Lemma writeVarint_loop_spec fuel s v :
  0 <= v -> (Z.to_nat (Z.log2 v) < fuel)%nat ->
  exists s', writeVarint_loop fuel s v = Ok s' /\ written s' = written s ++ write_varint v.
Proof.
  revert s v. induction fuel as [|fuel IH]; intros s v Hv Hf; [lia|].
  cbn [writeVarint_loop]. rewrite (write_varint_eq v) by lia.
  destruct (Z.leb_spec 128 v); destruct (Z.ltb_spec v 128); try lia.
  - rewrite high_or, shiftr7 by lia. pose proof (Z.mod_pos_bound v 128 ltac:(lia)).
    destruct (write_uint8_spec s (v mod 128 + 128)) as (s1 & -> & E1); [wunfold; lia|].
    cbn [mbind outcome_bind]. pose proof (log2_group v ltac:(lia)).
    pose proof (Z.log2_le_mono 128 v ltac:(lia)) as L. change (Z.log2 128) with 7 in L.
    destruct (IH s1 (v / 128)) as (s' & -> & E'); [apply Z.div_pos; lia|lia|].
    exists s'. split; [done|]. by rewrite E', E1, <- app_assoc.
  - rewrite u8_small by (wunfold; lia). apply write_uint8_spec. wunfold; lia.
Qed.

Lemma writeVarint_ok (s : S) (v : Z) :
  0 <= v ->
  exists s', writeVarint s v = Ok s' /\ written s' = written s ++ write_varint v.
Proof. intros Hv. apply writeVarint_loop_spec; [done|lia]. Qed.

(** [writeVarint] of [StreamTools] appends to any lawful stream exactly the
    bytes that [Varint.h]'s [write_varint] produces: the two encoders agree. *)
Theorem writeVarint_appends (s : S) (v : Z) :
  0 <= v ->
  exists s', writeVarint s v = Ok s' /\ written s' = written s ++ write_varint v.
Proof. exact (writeVarint_ok s v). Qed.
End OutputTheory.

Lemma writeVarint_appends_witness :
  exists s', writeVarint (S := list Z) [1] 300 = Ok s' /\ written s' = written [1] ++ write_varint 300.
Proof. exact (writeVarint_appends (S := list Z) [1] 300 ltac:(lia)). Defined.
