(* ===== verification/StringTools.v ===== *)
(** Text helpers: the hexadecimal conversions and [extract] of
    [Common/StringTools.cpp].  A [std::string] is the list of its character
    codes (unsigned). *)
From S2P Require Import Prelude.

(** Character codes of a string literal. *)
Definition chars (s : String.string) : list Z :=
  map (fun a => Z.of_N (Ascii.N_of_ascii a)) (String.list_ascii_of_string s).

(** [characterValues[c]]: 0xff outside the hexadecimal digits. *)
Definition characterValues (c : Z) : Z :=
  if (48 <=? c) && (c <=? 57) then c - 48
  else if (65 <=? c) && (c <=? 70) then c - 55
  else if (97 <=? c) && (c <=? 102) then c - 87
  else 255.

(** [fromHex(char)], which throws, and [fromHex(char, value)], which reports. *)
Definition fromHex_char (c : Z) : outcome Z :=
  let value := characterValues c in
  if 15 <? value then Throw runtime_error else Ok value.
Definition fromHex_char_opt (c : Z) : option Z :=
  if 15 <? characterValues c then None else Some (characterValues c).

(** The loop over pairs of characters. *)
Fixpoint fromHex_pairs (text : list Z) : option (list Z) :=
  match text with
  | c1 :: c2 :: text =>
      match fromHex_char_opt c1, fromHex_char_opt c2 with
      | Some v1, Some v2 =>
          rest ← fromHex_pairs text;
          Some (u8 (Z.lor (Z.shiftl v1 4) v2) :: rest)
      | _, _ => None
      end
  | _ => Some []
  end.

(** [fromHex(text, data)]: [None] when it returns false. *)
Definition fromHex (text : list Z) : option (list Z) :=
  if negb (Z.land (zlen text) 1 =? 0) then None else fromHex_pairs text.

(** [fromHex(text, data, bufferSize, size)]. *)
Definition fromHex_buffer (text : list Z) (bufferSize : Z) : option (list Z) :=
  if negb (Z.land (zlen text) 1 =? 0) then None
  else if bufferSize <? Z.shiftr (zlen text) 1 then None
  else fromHex_pairs text.

(** [std::vector<uint8_t> fromHex(text)]: throws where the other reports. *)
Fixpoint fromHex_pairs_throw (text : list Z) : outcome (list Z) :=
  match text with
  | c1 :: c2 :: text =>
      v1 ← fromHex_char c1;
      v2 ← fromHex_char c2;
      rest ← fromHex_pairs_throw text;
      Ok (u8 (Z.lor (Z.shiftl v1 4) v2) :: rest)
  | _ => Ok []
  end.
Definition fromHex_throw (text : list Z) : outcome (list Z) :=
  if negb (Z.land (zlen text) 1 =? 0) then Throw runtime_error else fromHex_pairs_throw text.

Definition hex_digits : list Z := chars "0123456789abcdef"%string.
Definition hex_digit (d : Z) : Z := default 0 (hex_digits !! Z.to_nat d).

Definition toHex (data : list Z) : list Z :=
  concat (map (fun b => [hex_digit (Z.shiftr b 4); hex_digit (Z.land b 15)]) data).

(** [text.find(delimiter, offset)]. *)
Fixpoint find_from (text : list Z) (delimiter : Z) (pos : nat) : option nat :=
  match text with
  | [] => None
  | c :: text => if c =? delimiter then Some pos else find_from text delimiter (S pos)
  end.

(** [extract(text, delimiter)]: the returned part and [text] afterwards. *)
Definition extract (text : list Z) (delimiter : Z) : list Z * list Z :=
  match find_from text delimiter 0 with
  | Some p => (take p text, drop (S p) text)
  | None => (text, [])
  end.

(** [extract(text, delimiter, offset)]: the returned part and the new offset.
    [substr(pos, n)] throws when [pos] is beyond the end. *)
Definition substr (text : list Z) (pos n : nat) : outcome (list Z) :=
  if (length text <? pos)%nat then Throw out_of_range else Ok (take n (drop pos text)).
Definition extract_at (text : list Z) (delimiter : Z) (offset : nat) : outcome (list Z * nat) :=
  match find_from (drop offset text) delimiter offset with
  | Some p => r ← substr text (S p) p; Ok (r, S p)
  | None => r ← substr text (length text) (length text); Ok (r, length text)
  end.

(** * Hexadecimal round trip *)

Lemma land15 b : Z.land b 15 = b mod 16.
Proof. change 15 with (Z.ones 4). rewrite Z.land_ones by lia. done. Qed.
Lemma shiftr4 b : Z.shiftr b 4 = b / 16.
Proof. rewrite Z.shiftr_div_pow2 by lia. done. Qed.

Lemma hex_digit_inv d : 0 <= d < 16 -> fromHex_char_opt (hex_digit d) = Some d.
Proof.
  intros Hd. assert (Hn : exists n, d = Z.of_nat n /\ (n < 16)%nat) by (exists (Z.to_nat d); lia).
  destruct Hn as (n & -> & Hn). do 16 (destruct n as [|n]; [reflexivity|]). lia.
Qed.

Lemma nibbles hi lo : 0 <= hi < 16 -> 0 <= lo < 16 -> Z.lor (Z.shiftl hi 4) lo = hi * 16 + lo.
Proof.
  intros Hh Hl. rewrite Z.shiftl_mul_pow2 by lia. change (2 ^ 4) with 16.
  rewrite <- Z.add_lor_land.
  assert (Z.land (hi * 16) lo = 0) as ->; [|lia].
  apply Z.bits_inj'. intros i Hi. rewrite Z.land_spec, Z.bits_0.
  destruct (Z.lt_ge_cases i 4).
  - change 16 with (2 ^ 4). rewrite Z.mul_pow2_bits_low by lia. done.
  - replace lo with (lo mod 2 ^ 4) by (apply Z.mod_small; lia).
    rewrite (Z.mod_pow2_bits_high lo 4 i) by lia. apply andb_false_r.
Qed.

Lemma zlen_even_land {A} (l : list A) n : zlen l = 2 * n -> Z.land (zlen l) 1 =? 0 = true.
Proof.
  intros ->. change 1 with (Z.ones 1). rewrite Z.land_ones by lia. change (2 ^ 1) with 2.
  rewrite Z.mul_comm, Z.mod_mul by lia. done.
Qed.

Lemma zlen_toHex data : zlen (toHex data) = 2 * zlen data.
Proof. induction data as [|b data IH]; [done|]. unfold toHex in *. cbn [map concat]. rewrite zlen_app, IH, !zlen_cons, zlen_nil. lia. Qed.

Lemma fromHex_pairs_toHex data : Forall is_u8 data -> fromHex_pairs (toHex data) = Some data.
Proof.
  induction 1 as [|b data Hb HF IH]; [done|]. unfold toHex in *. cbn [map concat app fromHex_pairs].
  unfold is_u8 in Hb. rewrite shiftr4, land15, !hex_digit_inv by (Z.to_euclidean_division_equations; lia).
  rewrite IH. cbn [mbind option_bind]. rewrite nibbles by (Z.to_euclidean_division_equations; lia).
  f_equal. f_equal. mlia.
Qed.

Lemma list_pair_ind {A} (P : list A -> Prop) :
  P [] -> (forall a, P [a]) -> (forall a b l, P l -> P (a :: b :: l)) -> forall l, P l.
Proof.
  intros H0 H1 H2. fix IH 1. intros [|a [|b l]]; [exact H0|exact (H1 a)|exact (H2 a b l (IH l))].
Qed.

Lemma fromHex_pairs_throw_spec text :
  fromHex_pairs_throw text =
  match fromHex_pairs text with Some d => Ok d | None => Throw runtime_error end.
Proof.
  induction text as [| |c1 c2 text IH] using list_pair_ind; [done|done|].
  cbn [fromHex_pairs fromHex_pairs_throw]. unfold fromHex_char, fromHex_char_opt.
  destruct (15 <? characterValues c1); [done|]. destruct (15 <? characterValues c2); [done|].
  cbn. rewrite IH. by destruct (fromHex_pairs text).
Qed.

Lemma odd_cons {A} (c : A) l :
  Z.land (zlen l) 1 =? 0 = true -> Z.land (zlen (c :: l)) 1 =? 0 = false.
Proof.
  rewrite zlen_cons. change 1 with (Z.ones 1) at 1 3. rewrite !Z.land_ones by lia.
  change (2 ^ 1) with 2. intros E%Z.eqb_eq. apply Z.eqb_neq. mlia.
Qed.

(** [fromHex] inverts [toHex] on every byte string, in all its variants: the
    reporting one, the one with a buffer that is large enough, and the throwing
    one; and one character more, which makes the length odd, is rejected. *)
Theorem hex_roundtrip (data : list Z) (c : Z) :
  Forall is_u8 data ->
  fromHex (toHex data) = Some data /\
  fromHex_buffer (toHex data) (zlen data) = Some data /\
  fromHex_throw (toHex data) = Ok data /\
  fromHex (c :: toHex data) = None /\
  fromHex_throw (c :: toHex data) = Throw runtime_error.
Proof.
  intros HF. pose proof (zlen_toHex data) as L. pose proof (zlen_even_land _ _ L) as Ev.
  unfold fromHex, fromHex_buffer, fromHex_throw. rewrite (odd_cons c _ Ev), Ev. cbn [negb].
  rewrite fromHex_pairs_throw_spec, fromHex_pairs_toHex by done.
  rewrite L, Z.shiftr_div_pow2 by lia. change (2 ^ 1) with 2.
  rewrite Z.mul_comm, Z.div_mul, Z.ltb_irrefl by lia. done.
Qed.

Lemma hex_roundtrip_witness : fromHex (toHex [0; 171; 255]) = Some [0; 171; 255].
Proof.
  apply (hex_roundtrip [0; 171; 255] 48). repeat constructor; unfold is_u8; lia.
Defined.

(** [extract] with an offset does not return the field at the offset: the
    offset is moved before the field is cut. *)
Lemma extract_at_wrong :
  let text := chars "ab;cd"%string in
  extract text 59 = (chars "ab"%string, chars "cd"%string) /\
  extract_at text 59 0 = Ok (chars "cd"%string, 3%nat) /\
  extract_at text 59 3 = Ok ([], 5%nat).
Proof. by vm_compute. Qed.
