(* ===== verification/ShuffleGenerator.v ===== *)
(** Random permutations drawn one element at a time: [Common/ShuffleGenerator.h].

    The draws of [std::uniform_int_distribution] are an argument; what the library
    promises of a draw is that it lies within the bounds asked for. *)
From S2P Require Import Prelude.

(** [selected] holds the elements that differ from their index. *)
Record ShuffleGenerator := { N : Z; count : Z; selected : gmap Z Z }.

Definition new_shuffle (n : Z) : ShuffleGenerator := {| N := n; count := n; selected := ∅ |}.

(** [operator()]; [value] is the draw between 0 and the decremented count. *)
Definition next (g : ShuffleGenerator) (value : Z) : outcome (Z * ShuffleGenerator) :=
  if count g =? 0 then Throw runtime_error else
  let count := count g - 1 in
  let rval := default count (selected g !! count) in
  match selected g !! value with
  | Some x => Ok (x, {| N := N g; count := count; selected := <[value := rval]> (selected g) |})
  | None => Ok (value, {| N := N g; count := count; selected := <[value := rval]> (selected g) |})
  end.

Definition reset (g : ShuffleGenerator) : ShuffleGenerator := {| N := N g; count := N g; selected := ∅ |}.

Fixpoint next_all (g : ShuffleGenerator) (draws : list Z) : outcome (list Z * ShuffleGenerator) :=
  match draws with
  | [] => Ok ([], g)
  | v :: draws => '(x, g) ← next g v; '(xs, g) ← next_all g draws; Ok (x :: xs, g)
  end.

(** The draws are within their bounds. *)
Fixpoint draws_ok (count : Z) (draws : list Z) : Prop :=
  match draws with [] => True | v :: draws => 0 <= v < count /\ draws_ok (count - 1) draws end.

(** The elements left: the array of the shuffle. *)
Definition element (g : ShuffleGenerator) (i : Z) : Z := default i (selected g !! i).
Definition left_over (g : ShuffleGenerator) : list Z := map (element g) (seqZ 0 (count g)).

Lemma swap_remove {A} (l : list A) i x a : l !! i = Some x -> l ++ [a] ≡ₚ x :: <[i := a]> l.
Proof.
  intros Hi. pose proof (lookup_lt_Some _ _ _ Hi) as Hl. rewrite <- (take_drop_middle l i x Hi) at 1. rewrite (insert_take_drop l i a Hl).
  rewrite <- app_assoc. cbn. rewrite <- Permutation_middle. constructor. by rewrite app_assoc, <- Permutation_cons_append, Permutation_middle.
Qed.

Lemma next_spec g v : 0 <= v < count g ->
  exists x g', next g v = Ok (x, g') /\ count g' = count g - 1 /\ N g' = N g /\ left_over g ≡ₚ x :: left_over g'.
Proof.
  intros Hv. unfold next. rewrite (proj2 (Z.eqb_neq _ _)) by lia. cbn zeta.
  set (rval := default (count g - 1) (selected g !! (count g - 1))).
  set (g' := {| N := N g; count := count g - 1; selected := <[v := rval]> (selected g) |}).
  exists (element g v), g'. split; [unfold element; by destruct (selected g !! v)|]. split_and!; [done|done|].
  assert (E : left_over g = map (element g) (seqZ 0 (count g - 1)) ++ [rval]).
  { unfold left_over. replace (count g) with ((count g - 1) + 1) at 1 by lia. rewrite seqZ_app by lia. rewrite map_app. f_equal. }
  assert (E' : left_over g' = (if decide (v = count g - 1) then map (element g) (seqZ 0 (count g - 1))
                               else <[Z.to_nat v := rval]> (map (element g) (seqZ 0 (count g - 1))))).
  { apply list_eq. intros i. unfold left_over. cbn [count g']. rewrite list_lookup_fmap.
    assert (Hg : forall z, element g' z = if decide (z = v) then rval else element g z).
    { intros z. unfold element, g'. cbn. case_decide; [subst; by rewrite lookup_insert_eq|by rewrite lookup_insert_ne]. }
    destruct (decide (v = count g - 1)) as [Ev|Ev].
    - rewrite list_lookup_fmap. destruct (seqZ 0 (count g - 1) !! i) as [z|] eqn:Ez; [|done]. cbn. rewrite Hg.
      apply lookup_seqZ in Ez. case_decide; [lia|done].
    - destruct (decide (i = Z.to_nat v)) as [->|Hi].
      + rewrite list_lookup_insert_eq by (rewrite length_map, length_seqZ; lia).
        rewrite (proj2 (lookup_seqZ _ _ _ _)) by (split; [reflexivity|lia]). cbn. rewrite Hg. case_decide; [done|lia].
      + rewrite list_lookup_insert_ne by done. rewrite list_lookup_fmap. destruct (seqZ 0 (count g - 1) !! i) as [z|] eqn:Ez; [|done].
        cbn. rewrite Hg. apply lookup_seqZ in Ez. case_decide; [lia|done]. }
  rewrite E, E'. destruct (decide (v = count g - 1)) as [->|Hv'].
  - rewrite <- Permutation_cons_append. done.
  - apply swap_remove. rewrite list_lookup_fmap, (proj2 (lookup_seqZ _ _ _ v)); [done|lia].
Qed.

Lemma next_all_spec draws g : draws_ok (count g) draws ->
  exists xs g', next_all g draws = Ok (xs, g') /\ count g' = count g - zlen draws /\ N g' = N g /\ left_over g ≡ₚ xs ++ left_over g'.
Proof.
  revert g. induction draws as [|v draws IH]; intros g Hd; cbn [next_all].
  { exists [], g. rewrite zlen_nil. split_and!; [done|lia|done|done]. }
  destruct Hd as [Hv Hd]. destruct (next_spec g v Hv) as (x & g1 & -> & Ec & En & HP). cbn [mbind outcome_bind].
  rewrite <- Ec in Hd. destruct (IH g1 Hd) as (xs & g2 & -> & Ec2 & En2 & HP2). cbn [mbind outcome_bind].
  exists (x :: xs), g2. rewrite zlen_cons. split_and!; [done|lia|by rewrite En2|]. rewrite HP, HP2. done.
Qed.

Lemma left_over_new n : left_over (new_shuffle n) = seqZ 0 n.
Proof. unfold left_over, element. cbn. rewrite <- (map_id (seqZ 0 n)) at 2. apply map_ext. intros i. by rewrite lookup_empty. Qed.

(** Whatever numbers the random source draws, the generator yields every
    index below [n] exactly once: the first [k] values are different indexes, all
    [n] of them are a permutation, and the next call throws. *)
Theorem shuffle_permutation (n : Z) (draws : list Z) :
  0 <= n -> zlen draws <= n -> draws_ok n draws ->
  exists xs g, next_all (new_shuffle n) draws = Ok (xs, g) /\ zlen xs = zlen draws /\ NoDup xs /\
    Forall (fun x => 0 <= x < n) xs /\
    (zlen draws = n -> xs ≡ₚ seqZ 0 n /\ forall v, next g v = Throw runtime_error).
Proof.
  intros Hn Hl Hd. destruct (next_all_spec draws (new_shuffle n) Hd) as (xs & g & E & Ec & _ & HP). cbn [count new_shuffle] in Ec.
  rewrite left_over_new in HP. exists xs, g.
  assert (Hlen : length (left_over g) = Z.to_nat (count g)) by (unfold left_over; by rewrite length_map, length_seqZ).
  pose proof (Permutation_length HP) as HL. rewrite length_app, length_seqZ, Hlen in HL.
  assert (HN : NoDup (xs ++ left_over g)) by (rewrite <- HP; apply NoDup_seqZ).
  apply NoDup_app in HN as (HN & _ & _). split_and!; [done|unfold zlen in *; lia|done| |].
  - apply Forall_forall. intros x Hx. assert (Hin : x ∈ seqZ 0 n) by (rewrite HP; apply elem_of_app; by left).
    apply elem_of_seqZ in Hin. lia.
  - intros Ez. assert (Hg : left_over g = []) by (apply nil_length_inv; lia). rewrite Hg, app_nil_r in HP. split; [done|].
    intros v. unfold next. by rewrite (proj2 (Z.eqb_eq (count g) 0)) by lia.
Qed.

Lemma shuffle_permutation_witness :
  exists g, next_all (new_shuffle 4) [1; 1; 0; 0] = Ok ([1; 3; 0; 2], g) /\ [1; 3; 0; 2] ≡ₚ seqZ 0 4.
Proof.
  destruct (shuffle_permutation 4 [1; 1; 0; 0]) as (xs & g & E & _ & _ & _ & H); [lia|done|cbn; lia|].
  assert (Ex : xs = [1; 3; 0; 2]). { vm_compute in E. by injection E as <- _. }
  exists g. rewrite <- Ex. split; [exact E|]. by apply H.
Defined.
