(* ===== verification/Base58.v ===== *)
(** Base58 text encoding of addresses: [Common/Base58.cpp].

    Data is cut in blocks of eight bytes, each written as eleven base-58 digits
    (shorter tails use the table [encoded_block_sizes]); an address is a varint
    tag, the keys and four bytes of checksum.  The hash function of the checksum
    is a parameter. *)
From S2P Require Import Prelude IntUtil Varint Stream StringTools.

Definition alphabet : list Z :=
  chars "123456789ABCDEFGHJKLMNPQRSTUVWXYZabcdefghijkmnopqrstuvwxyz"%string.
Definition alphabet_size : Z := zlen alphabet.
Definition encoded_block_sizes : list nat := [0; 2; 3; 5; 6; 7; 9; 10; 11]%nat.
Definition full_block_size : nat := 8.
Definition full_encoded_block_size : nat := 11.
Definition addr_checksum_size : nat := 4.

Definition alpha (d : Z) : Z := default 0 (alphabet !! Z.to_nat d).
Definition encoded_block_size (n : nat) : nat := default 0%nat (encoded_block_sizes !! n).

(** The constructor of [reverse_alphabet]: [m_data] has one slot per character
    from the first to the last of the alphabet, -1 where there is no digit. *)
Definition reverse_alphabet_data : list Z :=
  fold_left (fun m i => <[Z.to_nat (alpha (Z.of_nat i) - alpha 0) := Z.of_nat i]> m)
    (seq 0 58) (replicate (Z.to_nat (alpha (alphabet_size - 1) - alpha 0 + 1)) (-1)).

(** [operator()(char letter)]; [char] is signed on the targets. *)
Definition reverse_alphabet (letter : Z) : Z :=
  let idx := u64 (signed 8 letter - alpha 0) in
  if idx <? zlen reverse_alphabet_data
  then default (-1) (reverse_alphabet_data !! Z.to_nat idx) else -1.

Definition decoded_block_sizes_data : list Z :=
  fold_left (fun m i => <[encoded_block_size i := Z.of_nat i]> m)
    (seq 0 9) (replicate (full_encoded_block_size + 1) (-1)).

Definition decoded_block_sizes `{BuildConfig} (size : nat) : outcome Z :=
  _ ← massert (size <=? full_encoded_block_size)%nat;
  vget decoded_block_sizes_data (Z.of_nat size).

(** The fall-through switch of [uint_8be_to_64] shifts in one byte per case. *)
Definition uint_8be_to_64 (data : list Z) : Z :=
  fold_left (fun res b => Z.lor (u64 (Z.shiftl res 8)) b) data 0.

(** [memcpy] of the last [size] bytes of the byte-swapped word. *)
Definition uint_64_to_8be (num : Z) (size : nat) : list Z :=
  drop (8 - size) (le_split 8 (SWAP64 num)).

(** The [while (0 < num)] loop of [encode_block]; [slots] is [i + 1], so a write
    with no slot left would be [res[-1]]. *)
Fixpoint encode_block_loop (slots : nat) (num : Z) (res : list Z) : outcome (list Z) :=
  if num <=? 0 then Ok res else
  match slots with
  | O => Undefined
  | S i => encode_block_loop i (num / alphabet_size)
             (<[i := alpha (num mod alphabet_size)]> res)
  end.

(** [encode_block] on the part of the result it writes to, which [encode]
    filled with [alphabet[0]]. *)
Definition encode_block `{BuildConfig} (block : list Z) (res : list Z) : outcome (list Z) :=
  let size := length block in
  _ ← massert ((1 <=? size) && (size <=? full_block_size))%nat;
  encode_block_loop (encoded_block_size size) (uint_8be_to_64 block) res.

(** The digit loop of [decode_block], from the last character to the first. *)
Fixpoint decode_block_loop (rblock : list Z) (res_num order : Z) : option Z :=
  match rblock with
  | [] => Some res_num
  | c :: rest =>
      let digit := reverse_alphabet c in
      if digit <? 0 then None else
      let '(lo, product_hi) := mul128 order digit in
      let tmp := u64 (res_num + lo) in
      if (tmp <? res_num) || negb (product_hi =? 0) then None
      else decode_block_loop rest tmp (u64 (order * alphabet_size))
  end.

(** [decode_block]: [None] for the return value [false]. *)
Definition decode_block `{BuildConfig} (block : list Z) : outcome (option (list Z)) :=
  let size := length block in
  _ ← massert ((1 <=? size) && (size <=? full_encoded_block_size))%nat;
  res_size ← decoded_block_sizes size;
  if res_size <=? 0 then Ok None else
  match decode_block_loop (rev block) 0 1 with
  | None => Ok None
  | Some res_num =>
      if (res_size <? Z.of_nat full_block_size) &&
         (u64 (Z.shiftl 1 (8 * res_size)) <=? res_num) then Ok None
      else Ok (Some (uint_64_to_8be res_num (Z.to_nat res_size)))
  end.

(** The block loops of [encode] and [decode]: [n] full blocks, then the tail. *)
Fixpoint encode_blocks `{BuildConfig} (n : nat) (data : list Z) : outcome (list Z) :=
  match n with
  | O =>
      if (0 <? length data)%nat
      then encode_block data (replicate (encoded_block_size (length data)) (alpha 0))
      else Ok []
  | S n =>
      b ← encode_block (take full_block_size data) (replicate full_encoded_block_size (alpha 0));
      r ← encode_blocks n (drop full_block_size data);
      Ok (b ++ r)
  end.

Definition encode `{BuildConfig} (data : list Z) : outcome (list Z) :=
  match data with
  | [] => Ok []
  | _ => encode_blocks (length data / full_block_size) data
  end.

Fixpoint decode_blocks `{BuildConfig} (n : nat) (enc : list Z) : outcome (option (list Z)) :=
  match n with
  | O => if (0 <? length enc)%nat then decode_block enc else Ok (Some [])
  | S n =>
      b ← decode_block (take full_encoded_block_size enc);
      match b with
      | None => Ok None
      | Some b =>
          r ← decode_blocks n (drop full_encoded_block_size enc);
          match r with None => Ok None | Some r => Ok (Some (b ++ r)) end
      end
  end.

Definition decode `{BuildConfig} (enc : list Z) : outcome (option (list Z)) :=
  match enc with
  | [] => Ok (Some [])
  | _ =>
      last_block_decoded_size ←
        decoded_block_sizes (length enc `mod` full_encoded_block_size)%nat;
      if last_block_decoded_size <? 0 then Ok None
      else decode_blocks (length enc / full_encoded_block_size) enc
  end.

Section Address.
Context `{BuildConfig}.
(** [Crypto::cn_fast_hash]: the 32 bytes of the hash of a buffer. *)
Variable cn_fast_hash : list Z -> list Z.

Definition encode_addr (tag : Z) (data : list Z) : outcome (list Z) :=
  let buf := get_varint_data tag ++ data in
  encode (buf ++ take addr_checksum_size (cn_fast_hash buf)).

Definition decode_addr (addr : list Z) : outcome (option (Z * list Z)) :=
  r ← decode addr;
  match r with
  | None => Ok None
  | Some addr_data =>
      if (length addr_data <=? addr_checksum_size)%nat then Ok None else
      let n := (length addr_data - addr_checksum_size)%nat in
      let checksum := drop n addr_data in
      let addr_data := take n addr_data in
      let expected_checksum := take addr_checksum_size (cn_fast_hash addr_data) in
      if bool_decide (expected_checksum = checksum) then
        let '(read, tag) := read_varint_u64 addr_data in
        if read <=? 0 then Ok None
        else Ok (Some (tag, drop (Z.to_nat read) addr_data))
      else Ok None
  end.
End Address.

(** * The tables *)

Lemma alphabet_size_eq : alphabet_size = 58.
Proof. reflexivity. Qed.

(** Every digit has a letter, and the reverse table maps it back. *)
Lemma reverse_alpha d : is_digit 58 d -> reverse_alphabet (alpha d) = d.
Proof.
  intros Hd. unfold is_digit in Hd.
  assert (Hall : forallb (fun n => reverse_alphabet (alpha (Z.of_nat n)) =? Z.of_nat n)
                  (seq 0 58) = true) by (vm_compute; reflexivity).
  rewrite forallb_forall in Hall. specialize (Hall (Z.to_nat d)).
  rewrite Z2Nat.id in Hall by lia. apply Z.eqb_eq, Hall, in_seq. lia.
Qed.

(** A byte is a letter of a digit, or the reverse table gives -1. *)
Lemma reverse_alphabet_byte c :
  is_u8 c -> reverse_alphabet c = -1 \/
  (is_digit 58 (reverse_alphabet c) /\ alpha (reverse_alphabet c) = c).
Proof.
  intros Hc. unfold is_u8 in Hc.
  assert (Hall : forallb (fun n => let c := Z.of_nat n in let d := reverse_alphabet c in
      (d =? -1) || ((0 <=? d) && (d <? 58) && (alpha d =? c))) (seq 0 256) = true)
    by (vm_compute; reflexivity).
  rewrite forallb_forall in Hall. specialize (Hall (Z.to_nat c)).
  cbv zeta in Hall. rewrite Z2Nat.id in Hall by lia.
  assert (H : In (Z.to_nat c) (seq 0 256)) by (apply in_seq; lia).
  specialize (Hall H). unfold is_digit. zbool.
  destruct Hall as [E|E]; zbool; [by left|right; split; [lia|done]].
Qed.

(** [encoded_block_sizes] gives enough digits for a block, and the decoded size
    table inverts it. *)
Lemma block_size_fits n : (n <= 8)%nat -> 256 ^ Z.of_nat n <= 58 ^ Z.of_nat (encoded_block_size n).
Proof.
  intros Hn. do 9 (destruct n as [|n]; [vm_compute; discriminate|]). lia.
Qed.

Lemma encoded_block_size_bounds n :
  (1 <= n <= 8)%nat -> (1 <= encoded_block_size n <= 11)%nat.
Proof. intros Hn. do 9 (destruct n as [|n]; [cbn; lia|]). lia. Qed.

Lemma decoded_encoded_size `{BuildConfig} n :
  (n <= 8)%nat -> decoded_block_sizes (encoded_block_size n) = Ok (Z.of_nat n).
Proof.
  intros Hn. unfold decoded_block_sizes.
  do 9 (destruct n as [|n]; [rewrite massert_true by reflexivity; reflexivity|]). lia.
Qed.

Lemma encoded_decoded_size `{BuildConfig} m k :
  (m <= 11)%nat -> decoded_block_sizes m = Ok k -> 0 <= k ->
  (Z.to_nat k <= 8)%nat /\ m = encoded_block_size (Z.to_nat k) /\ (k = 0 -> m = 0%nat).
Proof.
  intros Hm. unfold decoded_block_sizes.
  do 12 (destruct m as [|m];
    [rewrite massert_true by reflexivity; intros [= <-]; cbn; intros; try lia; (split; [lia|]; split; [reflexivity|]; lia)|]).
  lia.
Qed.

(** * Blocks as numbers *)

Lemma uint_8be_to_64_fold data acc :
  bytes_ok data -> 0 <= acc -> acc * 256 ^ zlen data < 2 ^ 64 -> (length data <= 8)%nat ->
  (acc + 1) * 256 ^ zlen data <= 2 ^ 64 ->
  fold_left (fun res b => Z.lor (u64 (Z.shiftl res 8)) b) data acc =
  acc * 256 ^ zlen data + value 256 (rev data).
Proof.
  intros Hb. revert acc. induction Hb as [|b data Hb Hd IH]; intros acc Ha _ Hl Hlt.
  { cbn. change (256 ^ zlen []) with 1. lia. }
  rewrite zlen_cons, Z.pow_add_r in Hlt |- * by (pose proof (zlen_nonneg data); lia).
  change (256 ^ 1) with 256 in *.
  assert (Hp : 1 <= 256 ^ zlen data)
    by (pose proof (Z.pow_pos_nonneg 256 (zlen data) ltac:(lia) (zlen_nonneg data)); lia).
  cbn [fold_left rev]. unfold is_u8 in Hb.
  assert (Hst : Z.lor (u64 (Z.shiftl acc 8)) b = acc * 256 + b).
  { rewrite u64_small.
    - rewrite Z.lor_comm, lor_add_disjoint by (change (2 ^ 8) with 256; lia). done.
    - rewrite Z.shiftl_mul_pow2 by lia. change (2 ^ 8) with 256. wunfold. nia. }
  rewrite Hst, IH; [|lia|nia|cbn in Hl; lia|nia].
  rewrite value_app by lia.
  replace (zlen (rev data)) with (zlen data) by (unfold zlen; by rewrite length_rev).
  replace (value 256 [b]) with b by (unfold value; cbn; lia). ring.
Qed.

Lemma uint_8be_to_64_value data :
  bytes_ok data -> (length data <= 8)%nat -> uint_8be_to_64 data = value 256 (rev data).
Proof.
  intros Hb Hl. unfold uint_8be_to_64. rewrite uint_8be_to_64_fold; try done; try lia.
  rewrite Z.add_0_l, Z.mul_1_l. change (2 ^ 64) with (256 ^ 8).
  apply Z.pow_le_mono_r; unfold zlen; lia.
Qed.

Lemma uint_64_to_8be_digits num size :
  (size <= 8)%nat -> uint_64_to_8be num size = rev (digits 256 size num).
Proof.
  intros Hs. unfold uint_64_to_8be, le_split. rewrite SWAP64_reverses_bytes.
  do 9 (destruct size as [|size]; [reflexivity|]). lia.
Qed.

Lemma bytes_digits l : bytes_ok l <-> Forall (is_digit 256) l.
Proof. reflexivity. Qed.

(** * Encoding a block *)

Definition alphas (l : list Z) : list Z := map alpha l.

Lemma encode_block_loop_spec slots num suffix :
  0 <= num < 58 ^ Z.of_nat slots ->
  encode_block_loop slots num (replicate slots (alpha 0) ++ suffix) =
  Ok (alphas (rev (digits 58 slots num)) ++ suffix).
Proof.
  revert num suffix. induction slots as [|i IH]; intros num suffix Hn.
  { change (58 ^ Z.of_nat 0) with 1 in Hn. assert (num = 0) as -> by lia. done. }
  cbn [encode_block_loop]. destruct (Z.leb_spec num 0).
  { assert (num = 0) as -> by lia. rewrite digits_zero by lia. do 2 f_equal.
    unfold alphas. by rewrite rev_replicate, map_replicate. }
  rewrite Nat2Z.inj_succ, Z.pow_succ_r in Hn by lia.
  rewrite alphabet_size_eq, replicate_S_end, <- app_assoc, insert_app_r_alt
    by (rewrite length_replicate; lia).
  rewrite length_replicate, Nat.sub_diag. cbn [app list_insert insert].
  rewrite IH; [|split; [apply Z.div_pos; lia|apply Z.div_lt_upper_bound; lia]].
  cbn [digits rev]. unfold alphas. rewrite map_app, <- app_assoc. done.
Qed.

Lemma encode_block_eq `{BuildConfig} data :
  bytes_ok data -> (1 <= length data <= 8)%nat ->
  encode_block data (replicate (encoded_block_size (length data)) (alpha 0)) =
  Ok (alphas (rev (digits 58 (encoded_block_size (length data)) (value 256 (rev data))))).
Proof.
  intros Hb Hl. unfold encode_block.
  rewrite massert_true by (apply andb_true_iff; split; apply Nat.leb_le; unfold full_block_size; lia).
  cbn [mbind outcome_bind]. rewrite uint_8be_to_64_value by (done || lia).
  rewrite <- (app_nil_r (replicate _ _)), encode_block_loop_spec, app_nil_r; [done|].
  pose proof (value_bound 256 (rev data) ltac:(lia) (Forall_rev Hb)) as V.
  replace (zlen (rev data)) with (Z.of_nat (length data)) in V
    by (unfold zlen; by rewrite length_rev).
  pose proof (block_size_fits (length data) ltac:(lia)). lia.
Qed.

(** * Decoding a block *)

(** Overflow detection of one digit step. *)
Lemma digit_step acc order d :
  is_u64 acc -> is_u64 order -> is_digit 58 d ->
  let '(lo, hi) := mul128 order d in
  (u64 (acc + lo) <? acc) || negb (hi =? 0) = negb (acc + order * d <? 2 ^ 64) /\
  (acc + order * d < 2 ^ 64 -> u64 (acc + lo) = acc + order * d).
Proof.
  intros Ha Ho Hd. unfold is_digit in Hd.
  pose proof (mul128_exact order d Ho ltac:(wunfold; lia)) as M.
  destruct (mul128 order d) as [lo hi]. destruct M as (E & Hlo & Hhi).
  assert (0 <= order * d) by (wunfold; nia).
  generalize dependent (order * d). intros p E Hp. change (2 ^ 64) with 18446744073709551616 in *.
  destruct (Z.eqb_spec hi 0) as [->|Hne].
  - cbn [negb]. rewrite orb_false_r. replace lo with p by lia. split.
    + destruct (Z.ltb_spec (acc + p) 18446744073709551616);
        destruct (Z.ltb_spec (u64 (acc + p)) acc); cbn [negb]; try done; mlia.
    + intros. apply u64_small. wunfold. lia.
  - cbn [negb]. rewrite orb_true_r. split; [|wunfold; lia].
    destruct (Z.ltb_spec (acc + p) 18446744073709551616); [|done]. wunfold; lia.
Qed.

Lemma pow58_u64 k : (k <= 10)%nat -> is_u64 (58 ^ Z.of_nat k).
Proof. intros Hk. do 11 (destruct k as [|k]; [vm_compute; intuition discriminate|]). lia. Qed.

Lemma pow58_step k : u64 (u64 (58 ^ Z.of_nat k) * alphabet_size) = u64 (58 ^ Z.of_nat (S k)).
Proof.
  rewrite Nat2Z.inj_succ, Z.pow_succ_r by lia. unfold u64.
  rewrite Z.mul_mod_idemp_l by lia. by rewrite alphabet_size_eq, Z.mul_comm.
Qed.

Lemma decode_block_loop_spec rb k acc :
  bytes_ok rb -> (k + length rb <= 11)%nat -> is_u64 acc ->
  let ds := map reverse_alphabet rb in
  match decode_block_loop rb acc (u64 (58 ^ Z.of_nat k)) with
  | Some v => Forall (is_digit 58) ds /\ v = acc + 58 ^ Z.of_nat k * value 58 ds /\ is_u64 v
  | None => Forall (is_digit 58) ds -> 2 ^ 64 <= acc + 58 ^ Z.of_nat k * value 58 ds
  end.
Proof.
  intros Hb. revert k acc. induction Hb as [|c rb Hc Hb IH]; intros k acc Hk Ha ds.
  { cbn. split; [constructor|]. split; [lia|done]. }
  subst ds. cbn [map decode_block_loop]. cbn [length] in Hk.
  set (d := reverse_alphabet c). set (ds := map reverse_alphabet rb) in *.
  assert (Hv : value 58 (d :: ds) = d + 58 * value 58 ds) by reflexivity.
  destruct (Z.ltb_spec d 0) as [Hneg|Hnn].
  { intros HF. apply Forall_cons in HF as [Hd _]. unfold is_digit in Hd. lia. }
  assert (Hd : is_digit 58 d).
  { destruct (reverse_alphabet_byte c Hc) as [E|[E _]]; [fold d in E; lia|exact E]. }
  rewrite u64_small by (apply pow58_u64; lia).
  pose proof (digit_step acc (58 ^ Z.of_nat k) d Ha (pow58_u64 k ltac:(lia)) Hd) as D.
  destruct (mul128 (58 ^ Z.of_nat k) d) as [lo hi]. destruct D as [-> Htmp].
  assert (Hpow : 58 ^ Z.of_nat (S k) = 58 * 58 ^ Z.of_nat k)
    by (rewrite Nat2Z.inj_succ, Z.pow_succ_r by lia; done).
  assert (Hpp : 0 < 58 ^ Z.of_nat k) by (apply Z.pow_pos_nonneg; lia).
  rewrite Hv. destruct (Z.ltb_spec (acc + 58 ^ Z.of_nat k * d) (2 ^ 64)) as [Hlt|Hge]; cbn [negb].
  - rewrite (Htmp Hlt).
    replace (u64 (58 ^ Z.of_nat k * alphabet_size)) with (u64 (58 ^ Z.of_nat (S k)))
      by (rewrite <- pow58_step; by rewrite (u64_small (58 ^ Z.of_nat k)) by (apply pow58_u64; lia)).
    specialize (IH (S k) (acc + 58 ^ Z.of_nat k * d) ltac:(lia)
      ltac:(unfold is_digit in Hd; wunfold; change (2 ^ 64) with 18446744073709551616 in Hlt; nia)).
    cbv zeta in IH. fold ds in IH.
    destruct (decode_block_loop rb _ _) as [v|]; rewrite Hpow in IH.
    + destruct IH as (HF & -> & Hr). split; [by constructor|]. split; [ring|done].
    + intros HF. apply Forall_cons in HF as [_ HF]. specialize (IH HF). lia.
  - intros HF. apply Forall_cons in HF as [_ HF].
    pose proof (value_bound 58 ds ltac:(lia) HF). nia.
Qed.

Lemma alphas_reverse ds :
  Forall (is_digit 58) ds -> map reverse_alphabet (alphas ds) = ds.
Proof.
  unfold alphas. induction 1 as [|d ds Hd Hds IH]; [done|]. cbn [map].
  by rewrite reverse_alpha, IH.
Qed.

Lemma reverse_alphas rb :
  bytes_ok rb -> Forall (is_digit 58) (map reverse_alphabet rb) ->
  alphas (map reverse_alphabet rb) = rb.
Proof.
  unfold alphas. induction 1 as [|c rb Hc Hb IH]; intros HF; [done|]. cbn [map] in HF |- *.
  apply Forall_cons in HF as [Hd HF]. rewrite IH by done. f_equal.
  destruct (reverse_alphabet_byte c Hc) as [E|[_ E]]; [|done].
  unfold is_digit in Hd. lia.
Qed.

Lemma alphas_bytes ds : Forall (is_digit 58) ds -> bytes_ok (alphas ds).
Proof.
  intros HF. apply Forall_map. eapply Forall_impl; [exact HF|]. intros d Hd. cbn.
  assert (Hall : forallb (fun n => bool_decide (is_u8 (alpha (Z.of_nat n)))) (seq 0 58) = true)
    by (vm_compute; reflexivity).
  rewrite forallb_forall in Hall. unfold is_digit in Hd. specialize (Hall (Z.to_nat d)).
  rewrite Z2Nat.id in Hall by lia. eapply bool_decide_eq_true, Hall, in_seq. lia.
Qed.

(** The bound check on the last, short block. *)
Lemma short_block_check size x :
  (1 <= size <= 8)%nat -> is_u64 x ->
  (Z.of_nat size <? Z.of_nat full_block_size) && (u64 (Z.shiftl 1 (8 * Z.of_nat size)) <=? x) =
  negb (x <? 256 ^ Z.of_nat size).
Proof.
  intros Hs Hx. rewrite Z.shiftl_1_l.
  replace (2 ^ (8 * Z.of_nat size)) with (256 ^ Z.of_nat size)
    by (change 256 with (2 ^ 8); by rewrite <- Z.pow_mul_r by lia).
  destruct (decide (size = 8%nat)) as [->|Hne].
  - change (256 ^ Z.of_nat 8) with 18446744073709551616. unfold full_block_size, is_u64 in *.
    destruct (Z.ltb_spec x 18446744073709551616); [done|lia].
  - unfold full_block_size. destruct (Z.ltb_spec (Z.of_nat size) (Z.of_nat 8)); [|lia].
    cbn [andb]. rewrite u64_small.
    + destruct (Z.leb_spec (256 ^ Z.of_nat size) x), (Z.ltb_spec x (256 ^ Z.of_nat size)); lia || done.
    + do 8 (destruct size as [|size]; [vm_compute; intuition discriminate|]). lia.
Qed.

Lemma decode_block_unfold `{BuildConfig} enc k :
  (1 <= length enc <= 11)%nat -> decoded_block_sizes (length enc) = Ok k ->
  decode_block enc =
    if k <=? 0 then Ok None else
    match decode_block_loop (rev enc) 0 1 with
    | None => Ok None
    | Some x => if (k <? Z.of_nat full_block_size) && (u64 (Z.shiftl 1 (8 * k)) <=? x)
                then Ok None else Ok (Some (uint_64_to_8be x (Z.to_nat k)))
    end.
Proof.
  intros Hl E. unfold decode_block.
  rewrite massert_true by (apply andb_true_iff; split; apply Nat.leb_le; unfold full_encoded_block_size; lia).
  cbn [mbind outcome_bind]. by rewrite E.
Qed.

(** A block of bytes decodes back from its digits. *)
Lemma decode_encode_block `{BuildConfig} data :
  bytes_ok data -> (1 <= length data <= 8)%nat ->
  decode_block (alphas (rev (digits 58 (encoded_block_size (length data)) (value 256 (rev data)))))
  = Ok (Some data).
Proof.
  intros Hb Hl. set (n := encoded_block_size (length data)). set (x := value 256 (rev data)).
  pose proof (encoded_block_size_bounds (length data) Hl) as Hn. fold n in Hn.
  set (ds := digits 58 n x). set (enc := alphas (rev ds)).
  assert (Hlen : length enc = n)
    by (unfold enc, alphas, ds; by rewrite length_map, length_rev, length_digits).
  assert (Hds : Forall (is_digit 58) ds) by (apply digits_ok; lia).
  pose proof (value_bound 256 (rev data) ltac:(lia) (Forall_rev Hb)) as Vb. fold x in Vb.
  replace (zlen (rev data)) with (Z.of_nat (length data)) in Vb
    by (unfold zlen; by rewrite length_rev).
  assert (Hx : is_u64 x).
  { assert (256 ^ Z.of_nat (length data) <= 256 ^ 8) by (apply Z.pow_le_mono_r; lia).
    change (256 ^ 8) with 18446744073709551616 in *. wunfold; lia. }
  assert (Hvx : value 58 ds = x).
  { apply value_digits; [lia|]. pose proof (block_size_fits (length data) ltac:(lia)). fold n in H0. lia. }
  erewrite decode_block_unfold; [|lia|rewrite Hlen; apply decoded_encoded_size; lia].
  destruct (Z.leb_spec (Z.of_nat (length data)) 0); [lia|].
  assert (Hrev : rev enc = alphas ds)
    by (unfold enc, alphas; by rewrite <- map_rev, rev_involutive).
  pose proof (decode_block_loop_spec (rev enc) 0 0) as D.
  change (u64 (58 ^ Z.of_nat 0)) with 1 in D. rewrite Hrev in *.
  specialize (D (alphas_bytes ds Hds)).
  rewrite (alphas_reverse ds Hds) in D. unfold alphas in D at 1. rewrite length_map in D.
  unfold ds in D at 1. rewrite length_digits in D.
  specialize (D ltac:(lia) ltac:(wunfold; lia)). cbv zeta in D.
  change (58 ^ Z.of_nat 0) with 1 in D. rewrite Hvx in D.
  destruct (decode_block_loop (alphas ds) 0 1) as [v|].
  - destruct D as (_ & -> & _). replace (0 + 1 * x) with x by lia.
    rewrite short_block_check by (done || lia).
    destruct (Z.ltb_spec x (256 ^ Z.of_nat (length data))); [|lia]. cbn [negb].
    rewrite Nat2Z.id, uint_64_to_8be_digits by lia. unfold x.
    rewrite <- (length_rev data), digits_value by (lia || by apply Forall_rev).
    by rewrite rev_involutive.
  - specialize (D Hds). change (2 ^ 64) with 18446744073709551616 in D. wunfold; lia.
Qed.

(** What [decode_block] accepts is the encoding of what it returns. *)
Lemma decode_block_sound `{BuildConfig} enc data :
  bytes_ok enc -> (1 <= length enc <= 11)%nat -> decode_block enc = Ok (Some data) ->
  bytes_ok data /\ (1 <= length data <= 8)%nat /\ length enc = encoded_block_size (length data) /\
  enc = alphas (rev (digits 58 (length enc) (value 256 (rev data)))).
Proof.
  intros Hb Hl E.
  assert (exists k, decoded_block_sizes (length enc) = Ok k) as [k Ek].
  { unfold decoded_block_sizes. rewrite massert_true
      by (apply Nat.leb_le; unfold full_encoded_block_size; lia).
    apply vget_in_range. change (zlen decoded_block_sizes_data) with 12. lia. }
  rewrite (decode_block_unfold enc k Hl Ek) in E.
  destruct (Z.leb_spec k 0) as [|Hk]; [done|].
  destruct (encoded_decoded_size (length enc) k ltac:(lia) Ek ltac:(lia)) as (Hk8 & Hsz & _).
  pose proof (decode_block_loop_spec (rev enc) 0 0 (Forall_rev Hb)
    ltac:(rewrite length_rev; lia) ltac:(wunfold; lia)) as D. cbv zeta in D.
  change (u64 (58 ^ Z.of_nat 0)) with 1 in D. change (58 ^ Z.of_nat 0) with 1 in D.
  destruct (decode_block_loop (rev enc) 0 1) as [x|]; [|done].
  destruct D as (HF & Hx & Hr).
  replace k with (Z.of_nat (Z.to_nat k)) in E by lia.
  rewrite Nat2Z.id, short_block_check in E by (done || lia).
  destruct (Z.ltb_spec x (256 ^ Z.of_nat (Z.to_nat k))) as [Hlt|]; [|done].
  cbn [negb] in E. injection E as <-. rewrite uint_64_to_8be_digits by lia.
  rewrite rev_involutive, length_rev, length_digits, value_digits by (lia || wunfold; lia).
  split; [apply Forall_rev, digits_ok; lia|]. split; [lia|]. split; [done|].
  rewrite Hx, Z.add_0_l, Z.mul_1_l.
  replace (length enc) with (length (map reverse_alphabet (rev enc)))
    by (by rewrite length_map, length_rev).
  rewrite digits_value by (done || lia).
  unfold alphas. rewrite map_rev. fold (alphas (map reverse_alphabet (rev enc))).
  rewrite reverse_alphas by (done || by apply Forall_rev). by rewrite rev_involutive.
Qed.

(** * Whole strings *)

Lemma encoded_block_size_lt k : (k < 8)%nat -> (encoded_block_size k < 11)%nat.
Proof. intros Hk. do 8 (destruct k as [|k]; [cbn; lia|]). lia. Qed.

Lemma encoded_block_size_inj_zero k : (k <= 8)%nat -> encoded_block_size k = 0%nat -> k = 0%nat.
Proof. intros Hk. do 9 (destruct k as [|k]; [cbn; lia|]). lia. Qed.

Lemma encode_blocks_spec `{BuildConfig} n data :
  bytes_ok data -> (8 * n <= length data < 8 * n + 8)%nat ->
  exists enc, encode_blocks n data = Ok enc /\ bytes_ok enc /\
    length enc = (11 * n + encoded_block_size (length data - 8 * n))%nat /\
    decode_blocks n enc = Ok (Some data).
Proof.
  revert data. induction n as [|n IH]; intros data Hb Hl.
  - rewrite Nat.mul_0_r, Nat.sub_0_r. cbn [encode_blocks decode_blocks Nat.add].
    destruct (Nat.ltb_spec 0 (length data)).
    + rewrite encode_block_eq by (done || lia). eexists. split; [reflexivity|].
      rewrite decode_encode_block by (done || lia).
      split; [apply alphas_bytes, Forall_rev, digits_ok; lia|].
      unfold alphas. rewrite length_map, length_rev, length_digits. split; [lia|].
      pose proof (encoded_block_size_bounds (length data) ltac:(lia)).
      destruct (Nat.ltb_spec 0 (encoded_block_size (length data))); [done|lia].
    + assert (data = []) as -> by (apply nil_length_inv; lia). exists []. cbn. done.
  - assert (Ht : length (take full_block_size data) = 8%nat)
      by (rewrite length_take; unfold full_block_size; lia).
    assert (Hbt : bytes_ok (take full_block_size data)) by (by apply Forall_take).
    destruct (IH (drop full_block_size data)) as (r & Er & Hbr & Hlr & Dr).
    { by apply Forall_drop. }
    { rewrite length_drop. unfold full_block_size. lia. }
    pose proof (encode_block_eq (take full_block_size data) Hbt ltac:(lia)) as Eb.
    pose proof (decode_encode_block (take full_block_size data) Hbt ltac:(lia)) as Db.
    rewrite Ht in Eb, Db. change (encoded_block_size 8) with full_encoded_block_size in Eb, Db.
    set (b := alphas _) in Eb, Db.
    assert (Hlb : length b = full_encoded_block_size)
      by (unfold b, alphas; by rewrite length_map, length_rev, length_digits).
    assert (Hbb : bytes_ok b) by (apply alphas_bytes, Forall_rev, digits_ok; lia).
    clearbody b. cbn [encode_blocks]. rewrite Eb. cbn [mbind outcome_bind]. rewrite Er.
    cbn [mbind outcome_bind]. exists (b ++ r). split; [done|].
    split; [by apply Forall_app|]. split.
    + rewrite length_app, Hlb, Hlr, length_drop. unfold full_block_size, full_encoded_block_size.
      replace (length data - 8 - 8 * n)%nat with (length data - 8 * S n)%nat by lia. lia.
    + cbn [decode_blocks]. rewrite <- Hlb, take_app_length, drop_app_length, Db.
      cbn [mbind outcome_bind]. rewrite Dr. cbn [mbind outcome_bind].
      by rewrite take_drop.
Qed.

Lemma decode_blocks_sound `{BuildConfig} n enc data k :
  bytes_ok enc -> (length enc = 11 * n + encoded_block_size k)%nat -> (k < 8)%nat ->
  decode_blocks n enc = Ok (Some data) ->
  bytes_ok data /\ (length data = 8 * n + k)%nat /\ encode_blocks n data = Ok enc.
Proof.
  revert enc data. induction n as [|n IH]; intros enc data Hb Hl Hk E.
  - rewrite Nat.mul_0_r in *. cbn [decode_blocks Nat.add] in E, Hl |- *.
    destruct (Nat.ltb_spec 0 (length enc)).
    + pose proof (encoded_block_size_lt k Hk).
      destruct (decode_block_sound enc data Hb ltac:(lia) E) as (Hbd & Hld & Hsz & He).
      assert (length data = k) as Hkd.
      { revert Hsz. rewrite Hl. generalize (length data) Hld. clear -Hk. intros m Hm.
        do 9 (destruct m as [|m]; [do 8 (destruct k as [|k]; [cbn; lia|]); lia|]). lia. }
      split; [done|]. split; [done|]. cbn [encode_blocks].
      destruct (Nat.ltb_spec 0 (length data)); [|lia].
      rewrite encode_block_eq by (done || lia). by rewrite <- Hsz, <- He.
    + assert (k = 0%nat) as -> by (apply encoded_block_size_inj_zero; lia).
      injection E as <-. assert (enc = []) as -> by (apply nil_length_inv; lia). done.
  - cbn [decode_blocks] in E.
    assert (Ht : length (take full_encoded_block_size enc) = 11%nat)
      by (rewrite length_take; unfold full_encoded_block_size; lia).
    apply bind_Ok in E as (ob & Eb & E). destruct ob as [b|]; [|done].
    apply bind_Ok in E as (or & Er & E). destruct or as [r|]; [|done]. injection E as <-.
    destruct (decode_block_sound (take full_encoded_block_size enc) b
      (Forall_take _ _ _ Hb) ltac:(lia) Eb) as (Hbb & Hlb & Hsz & He).
    destruct (IH (drop full_encoded_block_size enc) r) as (Hbr & Hlr & Ee); [by apply Forall_drop| |done|done|].
    { rewrite length_drop. unfold full_encoded_block_size. lia. }
    assert (Hl8 : length b = 8%nat).
    { revert Hsz. rewrite Ht. generalize (length b) Hlb. clear. intros m Hm.
      do 9 (destruct m as [|m]; [cbn; lia|]). lia. }
    split; [by apply Forall_app|]. split; [rewrite length_app; lia|].
    cbn [encode_blocks]. change full_block_size with 8%nat.
    rewrite <- Hl8, take_app_length, drop_app_length.
    change full_encoded_block_size with (encoded_block_size 8). rewrite <- Hl8.
    rewrite encode_block_eq by (done || lia). cbn [mbind outcome_bind]. rewrite Ee.
    cbn [mbind outcome_bind]. rewrite <- Hsz, <- He. by rewrite take_drop.
Qed.

Lemma decode_encode `{BuildConfig} data :
  bytes_ok data ->
  exists enc, encode data = Ok enc /\ bytes_ok enc /\ decode enc = Ok (Some data).
Proof.
  intros Hb. destruct data as [|c data']; [by exists []|]. set (data := c :: data') in *.
  pose proof (Nat.div_mod (length data) 8 ltac:(lia)) as DM.
  pose proof (Nat.mod_upper_bound (length data) 8 ltac:(lia)) as MB.
  destruct (encode_blocks_spec (length data / 8) data Hb ltac:(lia)) as (enc & E & He & Hl & D).
  exists enc. split; [exact E|]. split; [done|].
  set (k := (length data - 8 * (length data / 8))%nat) in *.
  assert (Hk : (k < 8)%nat) by lia. pose proof (encoded_block_size_lt k Hk) as Hlt.
  assert (Hdiv : (length enc / 11 = length data / 8)%nat).
  { symmetry. apply (Nat.div_unique _ _ _ (encoded_block_size k)); [exact Hlt|]. rewrite Hl. lia. }
  assert (Hmod : (length enc `mod` 11 = encoded_block_size k)%nat).
  { symmetry. apply (Nat.mod_unique _ _ (length data / 8)); [exact Hlt|]. rewrite Hl. lia. }
  unfold decode. destruct enc as [|e enc']; [|].
  { exfalso. change (length (@nil Z)) with 0%nat in Hl. assert (length data / 8 = 0)%nat by lia.
    assert (k = 0%nat) by (apply encoded_block_size_inj_zero; lia).
    assert (length data = 0)%nat by lia. done. }
  set (enc := e :: enc') in *. unfold full_encoded_block_size.
  rewrite Hmod, decoded_encoded_size by lia. cbn [mbind outcome_bind].
  destruct (Z.ltb_spec (Z.of_nat k) 0); [lia|]. by rewrite Hdiv.
Qed.

Lemma encode_decode `{BuildConfig} enc data :
  bytes_ok enc -> decode enc = Ok (Some data) -> bytes_ok data /\ encode data = Ok enc.
Proof.
  intros Hb E. destruct enc as [|e enc']; [injection E as <-; done|].
  set (enc := e :: enc') in *. change (decode enc) with
    (sz ← decoded_block_sizes (length enc `mod` 11)%nat;
     if sz <? 0 then Ok None else decode_blocks (length enc / 11) enc) in E.
  pose proof (Nat.div_mod (length enc) 11 ltac:(lia)) as DM.
  pose proof (Nat.mod_upper_bound (length enc) 11 ltac:(lia)) as MB.
  apply bind_Ok in E as (k & Ek & E). destruct (Z.ltb_spec k 0); [done|].
  destruct (encoded_decoded_size (length enc `mod` 11) k ltac:(lia) Ek ltac:(lia)) as (Hk8 & Hsz & Hz).
  assert (Hk : (Z.to_nat k < 8)%nat).
  { destruct (decide (Z.to_nat k = 8%nat)) as [E8|]; [|lia]. rewrite E8 in Hsz.
    change (encoded_block_size 8) with 11%nat in Hsz. lia. }
  destruct (decode_blocks_sound (length enc / 11) enc data (Z.to_nat k) Hb ltac:(lia) Hk E) as (Hbd & Hl & Ee).
  split; [done|]. rewrite <- Ee. unfold encode. destruct data as [|d data'].
  - exfalso. change (length (@nil Z)) with 0%nat in Hl.
    assert (length enc / 11 = 0)%nat by lia. assert (k = 0) by lia.
    rewrite (Hz ltac:(done)) in DM. assert (length enc = 0)%nat by lia. done.
  - set (data := d :: data') in *. f_equal. unfold full_block_size.
    symmetry. apply (Nat.div_unique _ _ _ (Z.to_nat k)); lia.
Qed.

(** Base58 round trip: every byte string encodes, and decoding the result
    gives the string back.  In particular no write of [encode_block] leaves its
    buffer. *)
Theorem base58_roundtrip `{BuildConfig} (data : list Z) :
  bytes_ok data ->
  exists enc, encode data = Ok enc /\ decode enc = Ok (Some data).
Proof. intros Hb. destruct (decode_encode data Hb) as (enc & ? & _ & ?). by exists enc. Qed.

Lemma base58_roundtrip_witness :
  exists enc, encode (H := debug_build) [0; 255; 1; 2; 3; 4; 5; 6; 7] = Ok enc /\
    decode (H := debug_build) enc = Ok (Some [0; 255; 1; 2; 3; 4; 5; 6; 7]).
Proof.
  apply (base58_roundtrip (H := debug_build)). repeat constructor; unfold is_u8; lia.
Defined.

(** Base58 is not malleable: a string that [decode] accepts is the one that
    [encode] produces for the decoded bytes, so the overflow checks of
    [decode_block] leave exactly one text per byte string. *)
Theorem base58_canonical `{BuildConfig} (enc data : list Z) :
  bytes_ok enc -> decode enc = Ok (Some data) -> encode data = Ok enc.
Proof. intros Hb E. by apply encode_decode. Qed.

Lemma base58_canonical_witness :
  decode (H := debug_build) (chars "5Q"%string) = Ok (Some [255]) /\
  encode (H := debug_build) [255] = Ok (chars "5Q"%string).
Proof.
  split; [vm_compute; reflexivity|].
  apply (base58_canonical (H := debug_build)); [|vm_compute; reflexivity].
  repeat constructor; unfold is_u8; vm_compute; intuition discriminate.
Defined.

Section AddressTheory.
Context `{BuildConfig}.
Variable cn_fast_hash : list Z -> list Z.
(** The documented interface of the hash: 32 bytes for any input. *)
Hypothesis cn_fast_hash_length : forall l, length (cn_fast_hash l) = 32%nat.
Hypothesis cn_fast_hash_bytes : forall l, bytes_ok (cn_fast_hash l).

(** Address round trip: [decode_addr] recovers the tag and the data of
    every address text that [encode_addr] produced, whatever the hash function
    of the checksum is. *)
Theorem address_roundtrip (tag : Z) (data : list Z) :
  is_u64 tag -> bytes_ok data ->
  exists text, encode_addr cn_fast_hash tag data = Ok text /\
    decode_addr cn_fast_hash text = Ok (Some (tag, data)).
Proof.
  intros Ht Hd. unfold encode_addr, get_varint_data.
  set (buf := write_varint tag ++ data). set (ck := take addr_checksum_size (cn_fast_hash buf)).
  assert (Hbuf : bytes_ok buf)
    by (apply Forall_app; split; [apply write_varint_bytes; wunfold; lia|done]).
  assert (Hck : length ck = 4%nat) by (unfold ck; rewrite length_take, cn_fast_hash_length; done).
  destruct (decode_encode (buf ++ ck)) as (text & E & _ & D).
  { apply Forall_app. split; [done|]. apply Forall_take, cn_fast_hash_bytes. }
  exists text. split; [exact E|]. unfold decode_addr. rewrite D. cbn [mbind outcome_bind].
  assert (Hlen : (0 < length (write_varint tag))%nat).
  { pose proof (write_varint_nonempty tag ltac:(wunfold; lia)). destruct (write_varint tag); [done|cbn; lia]. }
  rewrite length_app, Hck. unfold addr_checksum_size.
  destruct (Nat.leb_spec (length buf + 4) 4); [unfold buf in *; rewrite length_app in *; lia|].
  replace (length buf + 4 - 4)%nat with (length buf) by lia.
  rewrite take_app_length, drop_app_length, bool_decide_eq_true_2 by reflexivity.
  unfold read_varint_u64, buf.
  rewrite (read_write_varint_exact 64 tag data) by (change (2 ^ 64) with 18446744073709551616; wunfold; lia).
  unfold zlen. destruct (Z.leb_spec (Z.of_nat (length (write_varint tag))) 0); [lia|].
  by rewrite Nat2Z.id, drop_app_length.
Qed.
End AddressTheory.

(** A concrete hash for the witness: the input's length and zeros. *)
Definition toy_hash (l : list Z) : list Z := u8 (zlen l) :: replicate 31 0.

Lemma address_roundtrip_witness :
  exists text, encode_addr (H := debug_build) toy_hash 0x1ca0ce [1; 2; 3] = Ok text /\
    decode_addr (H := debug_build) toy_hash text = Ok (Some (0x1ca0ce, [1; 2; 3])).
Proof.
  apply (address_roundtrip (H := debug_build) toy_hash).
  - reflexivity.
  - intros l. unfold toy_hash. constructor; [apply u8_range|].
    apply Forall_replicate. unfold is_u8; lia.
  - unfold is_u64; lia.
  - repeat constructor; unfold is_u8; lia.
Defined.
