(* ===== verification/CryptoNote.v ===== *)
(** The data model: [include/CryptoNote.h], [include/CryptoTypes.h], and the
    functions on transactions that the other components share
    ([CryptoNoteCore/CryptoNoteFormatUtils.cpp], [Common/Math.h]).

    Hashes, keys, key images and signatures are byte strings; variants are
    inductive types with the source's alternatives. *)
From S2P Require Import Prelude IntUtil.

Notation Hash := (list Z) (only parsing).
Notation PublicKey := (list Z) (only parsing).
Notation KeyImage := (list Z) (only parsing).
Notation Signature := (list Z) (only parsing).

Definition NULL_HASH : list Z := replicate 32 0.

Record BaseInput := { blockIndex : Z }.

Record KeyInput := {
  ki_amount : Z;
  outputIndexes : list Z;
  keyImage : KeyImage;
}.

Record MultisignatureInput := {
  mi_amount : Z;
  signatureCount : Z;
  outputIndex : Z;
  mi_term : Z;
}.

Inductive TransactionInput :=
| InBase (i : BaseInput)
| InKey (i : KeyInput)
| InMultisignature (i : MultisignatureInput).

Record KeyOutput := { ko_key : PublicKey }.

Record MultisignatureOutput := {
  mo_keys : list PublicKey;
  requiredSignatureCount : Z;
  mo_term : Z;
}.

Inductive TransactionOutputTarget :=
| OutKey (o : KeyOutput)
| OutMultisignature (o : MultisignatureOutput).

Record TransactionOutput := { out_amount : Z; target : TransactionOutputTarget }.

Record TransactionPrefix := {
  version : Z;
  unlockTime : Z;
  inputs : list TransactionInput;
  outputs : list TransactionOutput;
  extra : list Z;
}.

Record Transaction := {
  prefix : TransactionPrefix;
  signatures : list (list Signature);
}.

Record BlockHeader := {
  majorVersion : Z;
  minorVersion : Z;
  nonce : Z;
  timestamp : Z;
  previousBlockHash : Hash;
}.

Record Block := {
  header : BlockHeader;
  baseTransaction : Transaction;
  transactionHashes : list Hash;
}.

Record AccountPublicAddress := {
  spendPublicKey : PublicKey;
  viewPublicKey : PublicKey;
}.

#[export] Instance BaseInput_eq_dec : EqDecision BaseInput.
Proof. solve_decision. Defined.
#[export] Instance KeyInput_eq_dec : EqDecision KeyInput.
Proof. solve_decision. Defined.
#[export] Instance MultisignatureInput_eq_dec : EqDecision MultisignatureInput.
Proof. solve_decision. Defined.
#[export] Instance TransactionInput_eq_dec : EqDecision TransactionInput.
Proof. solve_decision. Defined.
#[export] Instance KeyOutput_eq_dec : EqDecision KeyOutput.
Proof. solve_decision. Defined.
#[export] Instance MultisignatureOutput_eq_dec : EqDecision MultisignatureOutput.
Proof. solve_decision. Defined.
#[export] Instance TransactionOutputTarget_eq_dec : EqDecision TransactionOutputTarget.
Proof. solve_decision. Defined.
#[export] Instance TransactionOutput_eq_dec : EqDecision TransactionOutput.
Proof. solve_decision. Defined.
#[export] Instance TransactionPrefix_eq_dec : EqDecision TransactionPrefix.
Proof. solve_decision. Defined.
#[export] Instance Transaction_eq_dec : EqDecision Transaction.
Proof. solve_decision. Defined.
#[export] Instance BlockHeader_eq_dec : EqDecision BlockHeader.
Proof. solve_decision. Defined.
#[export] Instance Block_eq_dec : EqDecision Block.
Proof. solve_decision. Defined.

(** Members of [Transaction] reached through its base class. *)
Definition tx_version (tx : Transaction) := version (prefix tx).
Definition tx_unlockTime (tx : Transaction) := unlockTime (prefix tx).
Definition tx_inputs (tx : Transaction) := inputs (prefix tx).
Definition tx_outputs (tx : Transaction) := outputs (prefix tx).
Definition tx_extra (tx : Transaction) := extra (prefix tx).

(** Amounts in range of [uint64_t]. *)
Definition input_in_range (i : TransactionInput) : Prop :=
  match i with
  | InBase i => is_u32 (blockIndex i)
  | InKey i => is_u64 (ki_amount i)
  | InMultisignature i => is_u64 (mi_amount i) /\ is_u8 (signatureCount i) /\
      is_u32 (outputIndex i) /\ is_u32 (mi_term i)
  end.
Definition output_in_range (o : TransactionOutput) : Prop :=
  is_u64 (out_amount o) /\
  match target o with
  | OutKey _ => True
  | OutMultisignature m => is_u8 (requiredSignatureCount m) /\ is_u32 (mo_term m)
  end.

(** * Amounts *)

(** [get_inputs_money_amount]: the amounts as written, without interest. *)
Definition raw_input_amount (i : TransactionInput) : Z :=
  match i with
  | InBase _ => 0
  | InKey i => ki_amount i
  | InMultisignature i => mi_amount i
  end.
Definition get_inputs_money_amount (tx : Transaction) : Z :=
  sum_u64 (map raw_input_amount (tx_inputs tx)).

Definition get_outs_money_amount (tx : Transaction) : Z :=
  sum_u64 (map out_amount (tx_outputs tx)).

Definition get_block_height (b : Block) : Z :=
  match tx_inputs (baseTransaction b) with
  | [InBase i] => blockIndex i
  | _ => 0
  end.

Definition check_inputs_types_supported (tx : TransactionPrefix) : bool :=
  forallb (fun i => match i with
    | InMultisignature _ => negb (version tx <? 2)
    | InKey _ => true
    | InBase _ => false
    end) (inputs tx).

(** [checkMultisignatureInputsDiff]: the pairs (amount, outputIndex) inserted in
    a set, failing at the first one already there. *)
Fixpoint multisignature_inputs_diff (used : gset (Z * Z)) (ins : list TransactionInput) : bool :=
  match ins with
  | [] => true
  | InMultisignature i :: ins =>
      if decide ((mi_amount i, outputIndex i) ∈ used) then false
      else multisignature_inputs_diff ({[(mi_amount i, outputIndex i)]} ∪ used) ins
  | _ :: ins => multisignature_inputs_diff used ins
  end.
Definition checkMultisignatureInputsDiff (tx : TransactionPrefix) : bool :=
  multisignature_inputs_diff ∅ (inputs tx).

Section OutsValid.
(** [Crypto::check_key]: whether 32 bytes are a point of the curve. *)
Variable check_key : PublicKey -> bool.

(** [check_outs_valid(tx, error)]; [have_error] tells whether the caller passed
    a string to store the message in.  The branch for a multisignature output in
    a version 1 transaction writes the message without testing the pointer. *)
Definition output_valid (have_error : bool) (v : Z) (out : TransactionOutput) : outcome bool :=
  match target out with
  | OutKey k =>
      if out_amount out =? 0 then Ok false else Ok (check_key (ko_key k))
  | OutMultisignature m =>
      if v <? 2 then (if have_error then Ok false else Undefined)
      else if zlen (mo_keys m) <? requiredSignatureCount m then Ok false
      else Ok (forallb check_key (mo_keys m))
  end.

Fixpoint outs_valid (have_error : bool) (v : Z) (outs : list TransactionOutput) : outcome bool :=
  match outs with
  | [] => Ok true
  | o :: outs =>
      r ← output_valid have_error v o;
      if r : bool then outs_valid have_error v outs else Ok false
  end.

Definition check_outs_valid (tx : TransactionPrefix) (have_error : bool) : outcome bool :=
  outs_valid have_error (version tx) (outputs tx).
End OutsValid.

(** * Overflow checks *)

Definition DEPOSIT_MAX_TOTAL_RATE : Z := 4.

(** The [money > amount + money] test on [uint64_t]. *)
Fixpoint no_sum_overflow (money : Z) (l : list Z) : bool :=
  match l with
  | [] => true
  | a :: l => if u64 (a + money) <? money then false else no_sum_overflow (u64 (money + a)) l
  end.

Definition check_outs_overflow (tx : TransactionPrefix) : bool :=
  no_sum_overflow 0 (map out_amount (outputs tx)).

(** The amount an input counts for: [None] where the function returns false. *)
Definition overflow_input_amount (i : TransactionInput) : option Z :=
  match i with
  | InBase _ => Some 0
  | InKey i => Some (ki_amount i)
  | InMultisignature i =>
      let amount := mi_amount i in
      if mi_term i =? 0 then Some amount else
      let '(lo, hi) := mul128 amount DEPOSIT_MAX_TOTAL_RATE in
      let '(_, maxInterestHi, maxInterestLo) := div128_32 hi lo 100 in
      if 0 <? maxInterestHi then None
      else if UINT64_MAX - maxInterestLo <? amount then None
      else Some (u64 (amount + maxInterestLo))
  end.

Fixpoint inputs_no_overflow (money : Z) (ins : list TransactionInput) : bool :=
  match ins with
  | [] => true
  | i :: ins =>
      match overflow_input_amount i with
      | None => false
      | Some a => if u64 (a + money) <? money then false else inputs_no_overflow (u64 (money + a)) ins
      end
  end.

Definition check_inputs_overflow (tx : TransactionPrefix) : bool := inputs_no_overflow 0 (inputs tx).

Definition check_money_overflow (tx : TransactionPrefix) : bool :=
  check_inputs_overflow tx && check_outs_overflow tx.

(** * Output offsets *)

Fixpoint absolute_from (prev : Z) (off : list Z) : list Z :=
  match off with [] => [] | x :: off => let y := u32 (x + prev) in y :: absolute_from y off end.
Definition relative_output_offsets_to_absolute (off : list Z) : list Z :=
  match off with [] => [] | x :: off => x :: absolute_from x off end.

Fixpoint relative_from (prev : Z) (off : list Z) : list Z :=
  match off with [] => [] | x :: off => u32 (x - prev) :: relative_from x off end.
(** [std::sort] then differences from the last index down. *)
Definition absolute_output_offsets_to_relative (off : list Z) : list Z :=
  match merge_sort Z.le off with [] => [] | x :: off => x :: relative_from x off end.

(** * Decomposition of amounts *)

(** The digit loop of [decompose_amount_into_digits]: chunks and dust are
    appended to one list in the order of the handler calls.  A 64-bit amount has
    at most twenty decimal digits. *)
Fixpoint decompose_loop (fuel : nat) (amount order dust dust_threshold : Z)
    (is_dust_handled : bool) (acc : list Z) : list Z :=
  match fuel with
  | O => if negb is_dust_handled && negb (dust =? 0) then acc ++ [dust] else acc
  | S fuel =>
      if amount =? 0 then
        if negb is_dust_handled && negb (dust =? 0) then acc ++ [dust] else acc
      else
        let chunk := u64 ((amount mod 10) * order) in
        let amount := amount / 10 in
        let order := u64 (order * 10) in
        if u64 (dust + chunk) <=? dust_threshold
        then decompose_loop fuel amount order (u64 (dust + chunk)) dust_threshold is_dust_handled acc
        else
          let '(is_dust_handled, acc) :=
            if negb is_dust_handled && negb (dust =? 0) then (true, acc ++ [dust])
            else (is_dust_handled, acc) in
          let acc := if chunk =? 0 then acc else acc ++ [chunk] in
          decompose_loop fuel amount order dust dust_threshold is_dust_handled acc
  end.

Definition decompose_amount_into_digits (amount dust_threshold : Z) : list Z :=
  if amount =? 0 then [] else decompose_loop 20 amount 1 0 dust_threshold false [].

(** * Median *)

(** [Common::medianValue] of [uint64_t] values. *)
Definition medianValue (v : list Z) : Z :=
  match v with
  | [] => 0
  | [x] => x
  | _ =>
      let n := (length v / 2)%nat in
      let v := merge_sort Z.le v in
      if (length v `mod` 2 =? 0)%nat
      then u64 (default 0 (v !! (n - 1)%nat) + default 0 (v !! n)) / 2
      else default 0 (v !! n)
  end.

(** * Overflow checks are exact *)

Lemma no_sum_overflow_spec money l :
  is_u64 money -> Forall is_u64 l ->
  no_sum_overflow money l = true <-> money + sum_Z l < 2 ^ 64.
Proof.
  change (2 ^ 64) with 18446744073709551616.
  intros Hm HF. revert money Hm. induction HF as [|a l Ha HF IH]; intros money Hm.
  { cbn. wunfold. split; [lia|done]. }
  assert (Hs : 0 <= sum_Z l)
    by (apply sum_Z_nonneg; eapply Forall_impl; [exact HF|]; unfold is_u64; lia).
  cbn [no_sum_overflow sum_Z foldr]. fold (sum_Z l).
  destruct (Z.ltb_spec (u64 (a + money)) money) as [Hov|Hno].
  - split; [done|]. intros Hlt. rewrite u64_small in Hov by (wunfold; lia). wunfold. lia.
  - assert (a + money < 18446744073709551616) by mlia.
    rewrite (u64_small (money + a)) by (wunfold; lia).
    rewrite IH by (wunfold; lia). wunfold. lia.
Qed.

(** [check_outs_overflow] accepts a transaction exactly when the true sum of
    its output amounts fits 64 bits; then [get_outs_money_amount], which adds
    with wrap-around, is that sum. *)
Theorem check_outs_overflow_exact (tx : Transaction) :
  Forall (fun o => is_u64 (out_amount o)) (tx_outputs tx) ->
  (check_outs_overflow (prefix tx) = true <-> sum_Z (map out_amount (tx_outputs tx)) < 2 ^ 64) /\
  (check_outs_overflow (prefix tx) = true ->
   get_outs_money_amount tx = sum_Z (map out_amount (tx_outputs tx))).
Proof.
  intros HF. assert (HF' : Forall is_u64 (map out_amount (tx_outputs tx))) by (by apply Forall_map).
  assert (Hiff : check_outs_overflow (prefix tx) = true <->
    sum_Z (map out_amount (tx_outputs tx)) < 2 ^ 64).
  { unfold check_outs_overflow. rewrite no_sum_overflow_spec by (done || (unfold is_u64; lia)).
    by rewrite Z.add_0_l. }
  split; [exact Hiff|]. intros Hok%Hiff. unfold get_outs_money_amount.
  rewrite sum_u64_spec. apply u64_small. split; [|exact Hok].
  apply sum_Z_nonneg. eapply Forall_impl; [exact HF'|]. unfold is_u64; lia.
Qed.

Definition example_tx (amounts : list Z) : Transaction :=
  {| prefix := {| version := 1; unlockTime := 0; inputs := [];
                  outputs := map (fun a => {| out_amount := a; target := OutKey {| ko_key := [] |} |}) amounts;
                  extra := [] |};
     signatures := [] |}.

Lemma check_outs_overflow_exact_witness :
  check_outs_overflow (prefix (example_tx [5; 7])) = true /\
  get_outs_money_amount (example_tx [5; 7]) = 12.
Proof.
  split; [reflexivity|].
  apply (check_outs_overflow_exact (example_tx [5; 7])); [|reflexivity].
  repeat constructor; unfold is_u64; cbn; lia.
Defined.

(** * Decomposition *)

(** What a part of a decomposition is: dust, or one non-zero decimal digit. *)
Definition good_part (thr x : Z) : Prop :=
  0 < x /\ (x <= thr \/ exists d k, 1 <= d <= 9 /\ 0 <= k /\ x = d * 10 ^ k).

Lemma flush_dust (handled : bool) dust thr acc :
  0 <= dust <= thr -> Forall (good_part thr) acc ->
  let r := if negb handled && negb (dust =? 0) then acc ++ [dust] else acc in
  sum_Z r = sum_Z acc + (if handled then 0 else dust) /\ Forall (good_part thr) r.
Proof.
  intros Hd Hacc. destruct handled; cbn [negb andb]; [split; [lia|done]|].
  destruct (Z.eqb_spec dust 0) as [->|]; cbn [negb]; [split; [lia|done]|].
  rewrite sum_Z_app. split; [cbn; lia|]. apply Forall_app. split; [done|].
  constructor; [split; lia|done].
Qed.

Lemma good_dust thr x : 0 < x <= thr -> Forall (good_part thr) [x].
Proof. constructor; [split; lia|done]. Qed.

Lemma good_chunk thr d k :
  0 <= d <= 9 -> d * 10 ^ Z.of_nat k <> 0 -> Forall (good_part thr) [d * 10 ^ Z.of_nat k].
Proof.
  intros Hd Hn. constructor; [|done].
  assert (0 < 10 ^ Z.of_nat k) by (apply Z.pow_pos_nonneg; lia).
  split; [nia|]. right. exists d, (Z.of_nat k). repeat split; nia.
Qed.

Lemma decompose_loop_spec fuel k amount dust thr handled acc :
  (k + fuel = 20)%nat -> 0 <= amount < 10 ^ Z.of_nat fuel ->
  amount * 10 ^ Z.of_nat k + dust < 18446744073709551616 ->
  0 <= dust <= thr -> is_u64 thr ->
  (handled = true -> thr < dust + 10 ^ Z.of_nat k) ->
  Forall (good_part thr) acc ->
  let r := decompose_loop fuel amount (u64 (10 ^ Z.of_nat k)) dust thr handled acc in
  sum_Z r = sum_Z acc + (if handled then 0 else dust) + amount * 10 ^ Z.of_nat k /\
  Forall (good_part thr) r.
Proof.
  revert k amount dust handled acc.
  induction fuel as [|fuel IH]; intros k amount dust handled acc Hk Ha Hb Hd Ht Hh Hacc.
  { change (10 ^ Z.of_nat 0) with 1 in Ha. assert (amount = 0) as -> by lia.
    rewrite Z.mul_0_l, Z.add_0_r. by apply flush_dust. }
  cbn [decompose_loop]. destruct (Z.eqb_spec amount 0) as [->|Hnz].
  { rewrite Z.mul_0_l, Z.add_0_r. by apply flush_dust. }
  assert (Hp : 0 < 10 ^ Z.of_nat k) by (apply Z.pow_pos_nonneg; lia).
  assert (HS : 10 ^ Z.of_nat (S k) = 10 * 10 ^ Z.of_nat k)
    by (rewrite Nat2Z.inj_succ, Z.pow_succ_r by lia; done).
  assert (Hk19 : is_u64 (10 ^ Z.of_nat k)) by (wunfold; nia).
  rewrite (u64_small (10 ^ Z.of_nat k)) by done.
  replace (u64 (10 ^ Z.of_nat k * 10)) with (u64 (10 ^ Z.of_nat (S k))) by (rewrite HS; f_equal; lia).
  pose proof (Z.div_mod amount 10 ltac:(lia)) as DM.
  pose proof (Z.mod_pos_bound amount 10 ltac:(lia)) as MB.
  set (d := amount mod 10) in *. set (q := amount / 10) in *.
  pose proof (good_chunk thr d k ltac:(lia)) as Hc.
  set (p := 10 ^ Z.of_nat k) in *.
  assert (Hq : 0 <= q < 10 ^ Z.of_nat fuel).
  { rewrite Nat2Z.inj_succ, Z.pow_succ_r in Ha by lia. lia. }
  assert (Hsum : amount * p = d * p + q * (10 * p)) by (rewrite DM; ring).
  assert (0 <= d * p <= 9 * p) by nia. assert (0 <= q * (10 * p)) by nia.
  clearbody d q p. rewrite (u64_small (d * p)), (u64_small (dust + d * p)) by (wunfold; lia).
  destruct (Z.leb_spec (dust + d * p) thr) as [Hle|Hgt].
  - destruct (IH (S k) q (dust + d * p) handled acc) as [E F]; try done; try lia.
    { rewrite HS. intros Et. specialize (Hh Et). lia. }
    split; [|exact F]. cbv zeta in E. rewrite E, HS. destruct handled; [|lia].
    assert (d * p < p) by (specialize (Hh eq_refl); lia).
    assert (d = 0) as -> by nia. lia.
  - destruct (Z.eqb_spec dust 0) as [->|Hdz]; destruct handled; cbn [negb andb];
      destruct (Z.eqb_spec (d * p) 0); try lia;
      match goal with |- context [decompose_loop fuel q _ ?du thr ?h ?a] =>
        destruct (IH (S k) q du h a) as [E F]; try done; try lia end;
      rewrite ?HS in *; try lia;
      repeat (apply Forall_app; split; try done); auto using good_dust with lia;
      (split; [|exact F]); cbv zeta in E; rewrite E, ?sum_Z_app; cbn [sum_Z foldr]; lia.
Qed.

Lemma decompose_parts amount dust_threshold :
  is_u64 amount -> is_u64 dust_threshold ->
  sum_Z (decompose_amount_into_digits amount dust_threshold) = amount /\
  Forall (good_part dust_threshold) (decompose_amount_into_digits amount dust_threshold).
Proof.
  intros Ha Ht. unfold decompose_amount_into_digits.
  destruct (Z.eqb_spec amount 0) as [->|Hn]; [by split|].
  destruct (decompose_loop_spec 20 0 amount 0 dust_threshold false []) as [E F];
    try done; try (wunfold; lia).
  split; [|exact F]. cbv zeta in E. change (u64 (10 ^ Z.of_nat 0)) with 1 in E.
  rewrite E. change (10 ^ Z.of_nat 0) with 1. cbn. lia.
Qed.

(** [decompose_amount_into_digits] loses nothing: the emitted parts sum to
    the amount, none of them is zero, and each is either dust below the
    threshold or a single non-zero decimal digit of the amount. *)
Theorem decompose_amount_sound amount dust_threshold :
  is_u64 amount -> is_u64 dust_threshold ->
  sum_Z (decompose_amount_into_digits amount dust_threshold) = amount /\
  Forall (good_part dust_threshold) (decompose_amount_into_digits amount dust_threshold).
Proof. exact (decompose_parts amount dust_threshold). Qed.

Lemma decompose_amount_sound_witness :
  decompose_amount_into_digits 62387455827 45 = [27; 800; 5000; 50000; 400000; 7000000; 80000000; 300000000; 2000000000; 60000000000] /\
  sum_Z (decompose_amount_into_digits 62387455827 45) = 62387455827.
Proof.
  split; [reflexivity|].
  apply (decompose_amount_sound 62387455827 45); unfold is_u64; lia.
Defined.

(** * Offsets *)

Lemma absolute_relative_from prev l :
  is_u32 prev -> Forall is_u32 l -> absolute_from prev (relative_from prev l) = l.
Proof.
  intros Hp HF. revert prev Hp. induction HF as [|x l Hx HF IH]; intros prev Hp; [done|].
  cbn [relative_from absolute_from].
  replace (u32 (u32 (x - prev) + prev)) with x by mlia. by rewrite IH.
Qed.

Lemma relative_absolute_from prev l :
  is_u32 prev -> Forall is_u32 l -> relative_from prev (absolute_from prev l) = l.
Proof.
  intros Hp HF. revert prev Hp. induction HF as [|x l Hx HF IH]; intros prev Hp; [done|].
  cbn [relative_from absolute_from].
  replace (u32 (u32 (x + prev) - prev)) with x by mlia. rewrite IH; [done|apply u32_range].
Qed.

#[export] Instance Zle_total_inst : Total Z.le.
Proof. intros x y. lia. Qed.
#[export] Instance Zle_trans_inst : Transitive Z.le.
Proof. intros x y z. lia. Qed.

Lemma absolute_from_sorted prev l :
  is_u32 prev -> Forall is_u32 l -> prev + sum_Z l < 4294967296 ->
  Sorted Z.le (prev :: absolute_from prev l).
Proof.
  intros Hp HF. revert prev Hp. induction HF as [|x l Hx HF IH]; intros prev Hp Hs; [by repeat constructor|].
  cbn [absolute_from]. cbn [sum_Z foldr] in Hs. fold (sum_Z l) in Hs.
  assert (0 <= sum_Z l) by (apply sum_Z_nonneg; eapply Forall_impl; [exact HF|]; unfold is_u32; lia).
  rewrite (u32_small (x + prev)) by (wunfold; lia).
  constructor; [|constructor; wunfold; lia]. apply IH; wunfold; lia.
Qed.

(** The two encodings of ring member indices are inverse: turning absolute
    offsets into relative ones and back gives the sorted offsets, a permutation
    of the input; and the relative offsets of a ring whose last index fits 32
    bits survive the way through absolute ones. *)
Theorem offsets_roundtrip (off : list Z) :
  Forall is_u32 off ->
  relative_output_offsets_to_absolute (absolute_output_offsets_to_relative off) = merge_sort Z.le off /\
  merge_sort Z.le off ≡ₚ off /\
  (sum_Z off < 2 ^ 32 ->
   absolute_output_offsets_to_relative (relative_output_offsets_to_absolute off) = off).
Proof.
  intros HF. split_and!.
  - assert (HF' : Forall is_u32 (merge_sort Z.le off)) by (by rewrite merge_sort_Permutation).
    unfold absolute_output_offsets_to_relative.
    destruct HF' as [|x l Hx Hl]; [done|]. cbn. by rewrite absolute_relative_from.
  - apply merge_sort_Permutation.
  - change (2 ^ 32) with 4294967296. intros Hs. destruct HF as [|x l Hx Hl]; [done|].
    unfold absolute_output_offsets_to_relative. cbn [relative_output_offsets_to_absolute].
    assert (HS : Sorted Z.le (x :: absolute_from x l)) by (by apply absolute_from_sorted).
    rewrite (Sorted_unique Z.le (merge_sort Z.le (x :: absolute_from x l)) (x :: absolute_from x l)).
    + by rewrite relative_absolute_from.
    + apply Sorted_merge_sort, _.
    + done.
    + apply merge_sort_Permutation.
Qed.

Lemma offsets_roundtrip_witness :
  absolute_output_offsets_to_relative (relative_output_offsets_to_absolute [4; 3; 9]) = [4; 3; 9].
Proof.
  apply (offsets_roundtrip [4; 3; 9]); [repeat constructor; unfold is_u32; lia|reflexivity].
Defined.

(** * Multisignature inputs are distinct *)

Definition multisignature_keys (ins : list TransactionInput) : list (Z * Z) :=
  omap (fun i => match i with InMultisignature i => Some (mi_amount i, outputIndex i) | _ => None end) ins.

Lemma multisignature_inputs_diff_spec used ins :
  multisignature_inputs_diff used ins = true <->
  NoDup (multisignature_keys ins) /\ (forall k, k ∈ multisignature_keys ins -> k ∉ used).
Proof.
  revert used. induction ins as [|i ins IH]; intros used.
  { cbn. split; [|done]. intros _. split; [constructor|]. intros k Hk. by apply elem_of_nil in Hk. }
  destruct i as [i|i|i]; cbn [multisignature_inputs_diff multisignature_keys omap list_omap]; try apply IH.
  fold (multisignature_keys ins). case_decide as Hin.
  - split; [done|]. intros [_ H]. exfalso. apply (H (mi_amount i, outputIndex i)); [left|done].
  - rewrite IH, NoDup_cons. set_solver.
Qed.

(** * Null pointer in the multisignature branch of [check_outs_valid] *)

Lemma outs_valid_no_error_ptr check_key v outs :
  1 < v -> outs_valid check_key false v outs = outs_valid check_key true v outs.
Proof.
  intros Hv. induction outs as [|o outs IH]; [done|]. cbn [outs_valid].
  assert (output_valid check_key false v o = output_valid check_key true v o) as ->.
  { unfold output_valid. destruct (target o); [done|].
    by replace (v <? 2) with false by (symmetry; apply Z.ltb_ge; lia). }
  destruct (output_valid check_key true v o) as [[]| | |]; cbn; done.
Qed.
