(* ===== verification/Interest.v ===== *)
(** Deposit interest: [Currency::calculateInterest].

    The function computes with [float] and [double].  The model uses the
    executable IEEE 754 operations of the Standard Library ([SpecFloat]):
    binary32 for [float], binary64 for [double], round to nearest even, with the
    conversions that C++ performs in each mixed expression written out. *)
From S2P Require Import Prelude.
From Stdlib Require Import Floats.SpecFloat.

(** * Formats and conversions *)

Definition fprec : Z := 24.
Definition femax : Z := 128.
Definition dprec : Z := 53.
Definition demax : Z := 1024.

(** Conversion of an integer, and of a value of the other format. *)
Definition float_of_Z (x : Z) : spec_float := binary_normalize fprec femax x 0 false.
Definition double_of_Z (x : Z) : spec_float := binary_normalize dprec demax x 0 false.
Definition convert (prec emax : Z) (x : spec_float) : spec_float :=
  match x with
  | S754_finite s m e => binary_normalize prec emax (if s then Z.neg m else Z.pos m) e s
  | _ => x
  end.
Definition to_float (x : spec_float) : spec_float := convert fprec femax x.
Definition to_double (x : spec_float) : spec_float := convert dprec demax x.

(** A decimal literal [n / d]: the nearest [double] (both are exact in binary64
    and the division rounds once). *)
Definition double_literal (n d : Z) : spec_float := SFdiv dprec demax (double_of_Z n) (double_of_Z d).

(** [static_cast<uint64_t>] truncates; a negative, infinite or NaN operand is
    undefined behaviour. *)
Definition uint64_of_float (x : spec_float) : outcome Z :=
  match x with
  | S754_zero _ => Ok 0
  | S754_finite false m e =>
      let v := if 0 <=? e then Z.pos m * 2 ^ e else Z.pos m / 2 ^ (- e) in
      if v <=? UINT64_MAX then Ok v else Undefined
  | _ => Undefined
  end.

(** * The function *)

(** The tiers of [baseInterest]. *)
Definition baseInterest (amount : Z) : spec_float :=
  let amount4Humans := amount / 100000 in
  let b := to_float (double_literal 49 1000) in
  let b := if (5000 <=? amount4Humans) && (amount4Humans <? 10000)
           then to_float (double_literal 54 1000) else b in
  let b := if (10000 <=? amount4Humans) && (amount4Humans <? 15000)
           then to_float (double_literal 59 1000) else b in
  let b := if (15000 <=? amount4Humans) && (amount4Humans <? 20000)
           then to_float (double_literal 64 1000) else b in
  if 20000 <=? amount4Humans then to_float (double_literal 69 1000) else b.

(** [float months = term / 21900; if (months > 12) months = 12;] *)
Definition months (term : Z) : spec_float :=
  let m := float_of_Z (term / 21900) in
  match SFcompare m (float_of_Z 12) with
  | Some Gt => float_of_Z 12
  | _ => m
  end.

(** [float ear = baseInterest + (months - 1) * 0.001]: the subtraction is in
    [float], the product and the sum in [double];
    [float eir = (ear / 12) * months] is all in [float]. *)
Definition ear (base m : spec_float) : spec_float :=
  to_float (SFadd dprec demax (to_double base)
    (SFmul dprec demax (to_double (SFsub fprec femax m (float_of_Z 1))) (double_literal 1 1000))).
Definition eir (base m : spec_float) : spec_float :=
  SFmul fprec femax (SFdiv fprec femax (ear base m) (float_of_Z 12)) m.

Definition calculateInterest (amount term : Z) : outcome Z :=
  let r := eir (baseInterest amount) (months term) in
  _ ← uint64_of_float r;
  uint64_of_float (SFmul fprec femax (float_of_Z amount) r).


(** * Rounding never gains more than one unit in the last place *)

Lemma shr_1_half r : 0 <= shr_m r -> shr_m (shr_1 r) = shr_m r / 2.
Proof.
  destruct r as [m r s]. cbn. intros Hm.
  destruct m as [|[p|p|]|p]; cbn [shr_m]; try lia; mlia.
Qed.

Lemma iter_shr_1 p r : 0 <= shr_m r -> shr_m (SpecFloat.iter_pos shr_1 p r) = shr_m r / 2 ^ Z.pos p.
Proof.
  revert r. induction p as [p IH|p IH|]; intros r Hr; cbn [SpecFloat.iter_pos].
  - assert (0 <= shr_m (shr_1 r)) by (rewrite shr_1_half by done; mlia).
    rewrite IH by (rewrite IH by done; apply Z.div_pos; [done|apply Z.pow_pos_nonneg; lia]).
    rewrite IH, shr_1_half by done. rewrite !Z.div_div by (try apply Z.pow_pos_nonneg; lia).
    f_equal. rewrite (Pos2Z.inj_xI p), Z.pow_add_r, Z.pow_1_r by lia.
    replace (2 * Z.pos p) with (Z.pos p + Z.pos p) by lia. rewrite Z.pow_add_r by lia. ring.
  - rewrite IH by (rewrite IH by done; apply Z.div_pos; [done|apply Z.pow_pos_nonneg; lia]).
    rewrite IH by done. rewrite Z.div_div by (try apply Z.pow_pos_nonneg; lia).
    f_equal. rewrite (Pos2Z.inj_xO p). replace (2 * Z.pos p) with (Z.pos p + Z.pos p) by lia.
    rewrite Z.pow_add_r by lia. done.
  - by rewrite shr_1_half, Z.pow_1_r.
Qed.

Lemma digits2_log2 m : 0 < m -> Zdigits2 m = Z.log2 m + 1.
Proof.
  destruct m as [|p|p]; try lia. intros _. cbn [Zdigits2].
  induction p as [p IH|p IH|]; [| |done]; cbn [digits2_pos]; rewrite Pos2Z.inj_succ, IH.
  - change (Z.pos p~1) with (2 * Z.pos p + 1). rewrite Z.log2_succ_double by lia. lia.
  - change (Z.pos p~0) with (2 * Z.pos p). rewrite Z.log2_double by lia. lia.
Qed.

Lemma digits2_bounds m d : 0 < m -> Zdigits2 m = d -> 2 ^ (d - 1) <= m < 2 ^ d.
Proof.
  intros Hm <-. rewrite digits2_log2 by done. replace (Z.log2 m + 1 - 1) with (Z.log2 m) by lia.
  apply Z.log2_spec. done.
Qed.

Lemma round_ne_bounds m l : m <= round_nearest_even m l <= m + 1.
Proof. unfold round_nearest_even. repeat case_step; lia. Qed.

Lemma shr_fexp_spec prec emax m e :
  0 <= m ->
  exists r n, shr_fexp prec emax m e loc_Exact = (r, e + n) /\ shr_m r = m / 2 ^ n /\
    n = Z.max 0 (fexp prec emax (Zdigits2 m + e) - e) /\ (n = 0 -> loc_of_shr_record r = loc_Exact).
Proof.
  intros Hm. unfold shr_fexp, shr. destruct (fexp prec emax (Zdigits2 m + e) - e) as [|p|p] eqn:En.
  - exists (shr_record_of_loc m loc_Exact), 0. rewrite Z.add_0_r, Z.pow_0_r, Z.div_1_r. done.
  - eexists _, (Z.pos p). split; [done|]. split; [|split; [lia|lia]]. by rewrite iter_shr_1.
  - exists (shr_record_of_loc m loc_Exact), 0. rewrite Z.add_0_r, Z.pow_0_r, Z.div_1_r. split; [done|].
    split; [done|]. split; [lia|done].
Qed.

(** Rounding a positive [m * 2^e] of normal size: the result is positive and at
    most [m * 2^e * (1 + 2^(1-prec))]. *)
Lemma round_upper prec emax m e :
  1 < prec -> 0 < m -> emin prec emax <= Zdigits2 m + e - prec ->
  exists m' e', binary_round_aux prec emax false m e loc_Exact =
      (if e' <=? emax - prec then S754_finite false m' e' else S754_infinity false) /\
    e <= e' /\ Z.pos m' * 2 ^ (e' - e) * 2 ^ (prec - 1) <= m * (2 ^ (prec - 1) + 1).
Proof.
  intros Hp Hm Hn. unfold binary_round_aux.
  destruct (shr_fexp_spec prec emax m e ltac:(lia)) as (r & n & -> & Er & En & Hl).
  pose proof (digits2_bounds m _ Hm eq_refl) as Hd. unfold fexp in En.
  rewrite (Z.max_l (Zdigits2 m + e - prec)) in En by lia.
  assert (Hq : 2 ^ n * (m / 2 ^ n) <= m < 2 ^ n * (m / 2 ^ n) + 2 ^ n).
  { assert (0 < 2 ^ n) by (apply Z.pow_pos_nonneg; lia).
    pose proof (Z.div_mod m (2 ^ n) ltac:(lia)). pose proof (Z.mod_pos_bound m (2 ^ n) ltac:(lia)). lia. }
  set (m1 := m / 2 ^ n) in *. rewrite Er.
  set (m2 := round_nearest_even m1 (loc_of_shr_record r)).
  assert (Hm2 : m1 <= m2 <= m1 + 1 /\ (n = 0 -> m2 = m)).
  { split; [apply round_ne_bounds|]. intros E0. unfold m2. rewrite (Hl E0). cbn. subst m1.
    rewrite E0, Z.pow_0_r, Z.div_1_r. done. }
  assert (Hpn : 0 < 2 ^ n) by (apply Z.pow_pos_nonneg; lia).
  assert (Hm1 : 0 < m1).
  { destruct (Z.eq_dec n 0) as [->|]; [rewrite Z.pow_0_r in Hq; lia|].
    assert (2 ^ n < 2 ^ (Zdigits2 m)) by (apply Z.pow_lt_mono_r; lia).
    assert (2 ^ n <= 2 ^ (Zdigits2 m - 1)) by (apply Z.pow_le_mono_r; lia). nia. }
  (* the error of the first step *)
  assert (Herr : m2 * 2 ^ n * 2 ^ (prec - 1) <= m * (2 ^ (prec - 1) + 1)).
  { destruct (Z.eq_dec n 0) as [E0|Hn0].
    - rewrite (proj2 Hm2 E0), E0, Z.pow_0_r. nia.
    - assert (En' : n + (prec - 1) = Zdigits2 m - 1) by lia.
      assert (2 ^ n * 2 ^ (prec - 1) <= m) by (rewrite <- Z.pow_add_r by lia; rewrite En'; lia).
      assert (0 < 2 ^ (prec - 1)) by (apply Z.pow_pos_nonneg; lia). nia. }
  clearbody m2. destruct (shr_fexp_spec prec emax m2 (e + n) ltac:(lia)) as (r2 & n2 & -> & Er2 & En2 & _).
  assert (Hpn2 : 0 < 2 ^ n2) by (apply Z.pow_pos_nonneg; lia).
  assert (Hm3 : 0 < m2 / 2 ^ n2 /\ m2 / 2 ^ n2 * 2 ^ n2 <= m2).
  { split; [|pose proof (Z.mul_div_le m2 (2 ^ n2) Hpn2); lia].
    apply Z.div_str_pos. split; [done|].
    pose proof (digits2_bounds m2 _ ltac:(lia) eq_refl) as Hd2. unfold fexp in En2.
    assert (Zdigits2 m2 >= 1) by (rewrite digits2_log2 by lia; pose proof (Z.log2_nonneg m2); lia).
    transitivity (2 ^ (Zdigits2 m2 - 1)); [|lia]. apply Z.pow_le_mono_r; [lia|].
    assert (n + e >= emin prec emax \/ n = 0) by lia. lia. }
  rewrite Er2. destruct (m2 / 2 ^ n2) as [|m3|m3] eqn:E3; try lia.
  exists m3, (e + n + n2). split; [done|]. split; [lia|].
  replace (e + n + n2 - e) with (n2 + n) by lia. rewrite Z.pow_add_r by lia.
  assert (0 < 2 ^ (prec - 1)) by (apply Z.pow_pos_nonneg; lia). nia.
Qed.

Lemma iter_xO m d : Z.pos (Pos.iter xO m d) = Z.pos m * 2 ^ Z.pos d.
Proof.
  induction d as [|d IH] using Pos.peano_ind; [cbn; lia|].
  rewrite Pos.iter_succ, Pos2Z.inj_xO, IH, Pos2Z.inj_succ, Z.pow_succ_r by lia. lia.
Qed.

(** Not overflowing: an exponent that small keeps the result finite. *)
Lemma round_finite prec emax m e :
  1 < prec -> 0 < m -> emin prec emax <= Zdigits2 m + e - prec -> 2 * m < 2 ^ (emax - prec + 1 - e) ->
  exists m' e', binary_round_aux prec emax false m e loc_Exact = S754_finite false m' e' /\
    e <= e' /\ Z.pos m' * 2 ^ (e' - e) * 2 ^ (prec - 1) <= m * (2 ^ (prec - 1) + 1).
Proof.
  intros Hp Hm Hn Hb. destruct (round_upper prec emax m e Hp Hm Hn) as (m' & e' & E & He & Hle).
  exists m', e'. split; [|done]. rewrite E.
  destruct (Z.leb_spec e' (emax - prec)) as [|Hgt]; [done|exfalso].
  assert (2 ^ (emax - prec + 1 - e) <= 2 ^ (e' - e)) by (apply Z.pow_le_mono_r; lia).
  assert (1 <= 2 ^ (prec - 1)) by (apply (Z.pow_le_mono_r 2 0); lia).
  assert (0 < 2 ^ (e' - e)) by (apply Z.pow_pos_nonneg; lia).
  assert (2 ^ (e' - e) * 2 ^ (prec - 1) <= m * (2 ^ (prec - 1) + 1)) by nia. nia.
Qed.

Lemma float_of_amount amount :
  0 < amount -> is_u64 amount ->
  exists m e, float_of_Z amount = S754_finite false m e /\ -23 <= e <= 104 /\
    Z.pos m * 2 ^ (e + 23) <= amount * (2 ^ 23 + 1).
Proof.
  intros Ha Hu. unfold float_of_Z, binary_normalize. destruct amount as [|p|p]; try lia.
  unfold binary_round. assert (Hd := digits2_bounds (Z.pos p) _ Ha eq_refl). cbn [Zdigits2] in Hd.
  set (d := Z.pos (digits2_pos p)) in *.
  assert (Hd64 : 1 <= d <= 64).
  { split; [lia|]. destruct (Z.le_gt_cases d 64); [done|].
    assert (2 ^ 64 <= 2 ^ (d - 1)) by (apply Z.pow_le_mono_r; lia). unfold is_u64 in Hu. lia. }
  assert (Hfe : fexp fprec femax (d + 0) = d - 24) by (unfold fexp, emin, fprec, femax; lia).
  rewrite Hfe. unfold shl_align. rewrite Z.sub_0_r.
  assert (Hcase : forall m e, 0 < m -> -23 <= e <= 0 -> m * 2 ^ (e + 23) = Z.pos p * 2 ^ 23 ->
    exists m' e', binary_round_aux fprec femax false m e loc_Exact = S754_finite false m' e' /\
      -23 <= e' <= 104 /\ Z.pos m' * 2 ^ (e' + 23) <= Z.pos p * (2 ^ 23 + 1)).
  { intros m e Hm He Em.
    assert (Hm87 : m < 2 ^ 87).
    { assert (1 <= 2 ^ (e + 23)) by (apply (Z.pow_le_mono_r 2 0); lia). unfold is_u64 in Hu. nia. }
    destruct (round_finite fprec femax m e) as (m' & e' & E & He' & Hle);
      [unfold fprec; lia|done| | |].
    - unfold emin, fprec, femax. assert (1 <= Zdigits2 m); [|lia].
      rewrite digits2_log2 by done. pose proof (Z.log2_nonneg m). lia.
    - unfold fprec, femax. assert (2 ^ 105 <= 2 ^ (128 - 24 + 1 - e)) by (apply Z.pow_le_mono_r; lia). lia.
    - exists m', e'. split; [done|].
      assert (Hs : 2 ^ (e' + 23) = 2 ^ (e' - e) * 2 ^ (e + 23)) by (rewrite <- Z.pow_add_r by lia; f_equal; lia).
      split.
      + split; [lia|]. destruct (Z.le_gt_cases e' 104); [done|].
        assert (2 ^ 105 <= 2 ^ (e' - e)) by (apply Z.pow_le_mono_r; lia). unfold fprec in Hle. nia.
      + rewrite Hs. unfold fprec in Hle. change (24 - 1) with 23 in Hle.
        assert (0 < 2 ^ (e + 23)) by (apply Z.pow_pos_nonneg; lia). nia. }
  destruct (d - 24) as [|q|q] eqn:Ed; apply Hcase; try lia.
  rewrite iter_xO, <- Z.mul_assoc, <- Z.pow_add_r by lia. f_equal. f_equal. lia.
Qed.

(** * The effective rate *)

(** The rates the tiers and months can give: at most 0.0800001. *)
Definition rate_ok (r : spec_float) : bool :=
  match r with
  | S754_zero false => true
  | S754_finite false m e =>
      (-60 <=? e) && (e <=? -24) && (Z.pos m * 10000000 <=? 800001 * 2 ^ (- e)) && (Z.pos m <? 2 ^ 24)
  | _ => false
  end.

Definition base_rates : list spec_float :=
  map (fun n => to_float (double_literal n 1000)) [49; 54; 59; 64; 69].

Lemma baseInterest_tier amount : In (baseInterest amount) base_rates.
Proof. unfold baseInterest. repeat case_step; zbool; cbn [base_rates map In]; tauto || lia. Qed.

Definition month_values : list spec_float := map float_of_Z (map Z.of_nat (seq 0 13)).

(** Integers of at most 23 bits convert exactly. *)
Lemma float_of_Z_exact p d :
  Z.pos (digits2_pos p) + Z.pos d = 24 ->
  float_of_Z (Z.pos p) = S754_finite false (Pos.iter xO p d) (- Z.pos d).
Proof.
  intros Hd. unfold float_of_Z, binary_normalize, binary_round.
  replace (fexp fprec femax (Z.pos (digits2_pos p) + 0)) with (Z.neg d)
    by (unfold fexp, emin, fprec, femax; lia).
  unfold shl_align. change (Z.neg d - 0) with (Z.neg d). cbv iota. unfold binary_round_aux.
  assert (Hdig : Zdigits2 (Z.pos (Pos.iter xO p d)) = 24).
  { rewrite digits2_log2, iter_xO, Z.log2_mul_pow2 by lia.
    pose proof (digits2_log2 (Z.pos p) ltac:(lia)) as L. cbn [Zdigits2] in L. lia. }
  assert (Hs : shr_fexp fprec femax (Z.pos (Pos.iter xO p d)) (Z.neg d) loc_Exact =
    (shr_record_of_loc (Z.pos (Pos.iter xO p d)) loc_Exact, Z.neg d)).
  { unfold shr_fexp. rewrite Hdig.
    replace (fexp fprec femax (24 + Z.neg d) - Z.neg d) with 0 by (unfold fexp, emin, fprec, femax; lia). done. }
  rewrite Hs. cbn [shr_record_of_loc shr_m loc_of_shr_record round_nearest_even]. rewrite Hs.
  cbn [shr_record_of_loc shr_m].
  destruct (Z.leb_spec (Z.neg d) (femax - fprec)); [done|unfold femax, fprec in *; lia].
Qed.

Lemma months_cap k :
  16 <= k < 2 ^ 23 -> SFcompare (float_of_Z k) (float_of_Z 12) = Some Gt.
Proof.
  intros Hk. destruct k as [|p|p]; try lia.
  pose proof (digits2_log2 (Z.pos p) ltac:(lia)) as L. cbn [Zdigits2] in L.
  assert (4 <= Z.log2 (Z.pos p)) by (apply (Z.log2_le_mono 16); lia).
  assert (Z.log2 (Z.pos p) < 23) by (apply Z.log2_lt_pow2; lia).
  rewrite (float_of_Z_exact p (Z.to_pos (23 - Z.log2 (Z.pos p)))) by lia.
  change (float_of_Z 12) with (S754_finite false 12582912 (-20)). cbn [SFcompare].
  destruct (Z.compare_spec (- Z.pos (Z.to_pos (23 - Z.log2 (Z.pos p)))) (-20)); lia || done.
Qed.

Lemma months_small k : 0 <= k < 16 ->
  match SFcompare (float_of_Z k) (float_of_Z 12) with Some Gt => 12 < k | _ => k <= 12 end.
Proof.
  intros Hk. assert (Hn : exists n, k = Z.of_nat n /\ (n < 16)%nat) by (exists (Z.to_nat k); lia).
  destruct Hn as (n & -> & Hn). do 16 (destruct n as [|n]; [by vm_compute|]). lia.
Qed.

(** The months counted are the whole months of the term, at most twelve. *)
Lemma months_spec term : is_u32 term -> months term = float_of_Z (Z.min 12 (term / 21900)).
Proof.
  intros Ht. unfold months.
  assert (Hk : 0 <= term / 21900 < 2 ^ 23) by (unfold is_u32 in Ht; change (2 ^ 23) with 8388608; mlia).
  destruct (Z.lt_ge_cases (term / 21900) 16) as [Hlt|Hge].
  - pose proof (months_small (term / 21900) ltac:(lia)) as M.
    destruct (SFcompare (float_of_Z (term / 21900)) (float_of_Z 12)) as [[]|]; f_equal; lia.
  - rewrite months_cap by lia. f_equal. lia.
Qed.

Lemma rates_ok b k : In b base_rates -> 0 <= k <= 12 -> rate_ok (eir b (float_of_Z k)) = true.
Proof.
  intros Hb Hk.
  assert (Hall : forallb (fun b => forallb (fun k => rate_ok (eir b (float_of_Z (Z.of_nat k)))) (seq 0 13)) base_rates = true)
    by (vm_compute; reflexivity).
  rewrite forallb_forall in Hall. specialize (Hall b Hb). rewrite forallb_forall in Hall.
  specialize (Hall (Z.to_nat k)). rewrite Z2Nat.id in Hall by lia. apply Hall, in_seq. lia.
Qed.

Lemma truncate_le m e K v :
  0 <= K -> - K <= e ->
  v = (if 0 <=? e then Z.pos m * 2 ^ e else Z.pos m / 2 ^ (- e)) ->
  0 <= v /\ v * 2 ^ K <= Z.pos m * 2 ^ (e + K).
Proof.
  intros HK He ->. destruct (Z.leb_spec 0 e).
  - assert (0 < 2 ^ e) by (apply Z.pow_pos_nonneg; lia). rewrite Z.pow_add_r by lia. nia.
  - assert (0 < 2 ^ (- e)) by (apply Z.pow_pos_nonneg; lia).
    pose proof (Z.mul_div_le (Z.pos m) (2 ^ (- e)) ltac:(lia)).
    assert (HK2 : 2 ^ K = 2 ^ (- e) * 2 ^ (e + K)) by (rewrite <- Z.pow_add_r by lia; f_equal; lia).
    assert (0 < 2 ^ (e + K)) by (apply Z.pow_pos_nonneg; lia).
    assert (0 <= Z.pos m / 2 ^ (- e)) by (apply Z.div_pos; lia). rewrite HK2. nia.
Qed.

(** Multiplying an amount by a rate in [float]. *)
Lemma interest_bound amount r :
  0 < amount -> is_u64 amount -> rate_ok r = true ->
  exists v, uint64_of_float (SFmul fprec femax (float_of_Z amount) r) = Ok v /\
    0 <= v /\ 10000 * v <= 801 * amount.
Proof.
  intros Ha Hu Hr. destruct (float_of_amount amount Ha Hu) as (mA & eA & -> & HeA & HA).
  destruct r as [[]| | |[] mr er]; try done; [exists 0; split; [done|lia]|]. cbn [rate_ok] in Hr. zbool.
  cbn [SFmul xorb].
  assert (HmA : Z.pos mA * 2 ^ (eA + 23) < 2 ^ 88) by (unfold is_u64 in Hu; lia).
  assert (HpA : 0 < 2 ^ (eA + 23)) by (apply Z.pow_pos_nonneg; lia).
  destruct (round_finite fprec femax (Z.pos (mA * mr)) (eA + er)) as (m' & e' & -> & He' & Hle).
  - unfold fprec; lia.
  - lia.
  - unfold emin, fprec, femax. pose proof (digits2_log2 (Z.pos (mA * mr)) ltac:(lia)).
    pose proof (Z.log2_nonneg (Z.pos (mA * mr))). lia.
  - unfold fprec, femax. rewrite Pos2Z.inj_mul.
    assert (H105 : 2 ^ (128 - 24 + 1 - (eA + er)) * 2 ^ (eA + 23) = 2 ^ (128 - er))
      by (rewrite <- Z.pow_add_r by lia; f_equal; lia).
    assert (2 ^ 152 <= 2 ^ (128 - er)) by (apply Z.pow_le_mono_r; lia). nia.
  - cbn [uint64_of_float].
    destruct (truncate_le m' e' 83 _ ltac:(lia) ltac:(lia) eq_refl) as [Hv0 Hv].
    set (v := if 0 <=? e' then _ else _) in *. clearbody v.
    assert (Hs : 2 ^ (e' + 83) = 2 ^ (e' - (eA + er)) * (2 ^ (eA + 23) * 2 ^ (er + 60)))
      by (rewrite <- !Z.pow_add_r by lia; f_equal; lia).
    assert (Hr60 : 2 ^ 60 = 2 ^ (er + 60) * 2 ^ (- er)) by (rewrite <- Z.pow_add_r by lia; f_equal; lia).
    assert (Hp60 : 0 < 2 ^ (er + 60)) by (apply Z.pow_pos_nonneg; lia).
    assert (Hrate : Z.pos mr * 2 ^ (er + 60) * 10000000 <= 800001 * 2 ^ 60) by (rewrite Hr60; nia).
    unfold fprec in Hle. change (24 - 1) with 23 in Hle. rewrite Pos2Z.inj_mul in Hle.
    rewrite Hs in Hv. set (D := 2 ^ (e' - (eA + er))) in *.
    set (a := 2 ^ (eA + 23)) in *. set (b := 2 ^ (er + 60)) in *. clearbody D a b.
    assert (Hx1 : Z.pos m' * D * 2 ^ 23 * (a * b) <= (Z.pos mA * a) * (Z.pos mr * b) * (2 ^ 23 + 1)).
    { assert (0 < a * b) by nia.
      transitivity (Z.pos mA * Z.pos mr * (2 ^ 23 + 1) * (a * b)); [apply Z.mul_le_mono_nonneg_r; lia|].
      apply Z.eq_le_incl. ring. }
    assert (Hx2 : (Z.pos mA * a) * (Z.pos mr * b) <= (amount * (2 ^ 23 + 1)) * (Z.pos mr * b))
      by (apply Z.mul_le_mono_nonneg_r; [nia|lia]).
    assert (Hx3 : (amount * (2 ^ 23 + 1)) * (Z.pos mr * b) * 10000000 <= (amount * (2 ^ 23 + 1)) * (800001 * 2 ^ 60))
      by (rewrite <- Z.mul_assoc; apply Z.mul_le_mono_nonneg_l; lia).
    assert (Hfin : 10000 * v <= 801 * amount) by lia.
    destruct (Z.leb_spec v UINT64_MAX) as [|Hbig]; [by exists v|]. wunfold. lia.
Qed.

Lemma zero_interest r :
  rate_ok r = true -> uint64_of_float (SFmul fprec femax (float_of_Z 0) r) = Ok 0.
Proof. by destruct r as [[]| | |[] m e]. Qed.

(** C37.  Interest is bounded and total: for every 64-bit amount and 32-bit term
    the floating-point computation of [calculateInterest] is defined, pays
    nothing before the first full month, never pays more than 8.01% of the
    amount, and a term beyond twelve months pays as twelve months do. *)
Theorem calculateInterest_bound (amount term : Z) :
  is_u64 amount -> is_u32 term ->
  exists v, calculateInterest amount term = Ok v /\ 0 <= v /\ 10000 * v <= 801 * amount /\
    (term < 21900 -> v = 0) /\
    (262800 <= term -> calculateInterest amount 262800 = Ok v).
Proof.
  intros Ha Ht. unfold calculateInterest. rewrite (months_spec term Ht).
  rewrite (months_spec 262800) by (unfold is_u32; lia).
  assert (Hmon : 0 <= Z.min 12 (term / 21900) <= 12) by mlia.
  pose proof (rates_ok _ _ (baseInterest_tier amount) Hmon) as Hr.
  assert (Hcast : exists u, uint64_of_float (eir (baseInterest amount) (float_of_Z (Z.min 12 (term / 21900)))) = Ok u).
  { clear -Hr. destruct (eir _ _) as [[]| | |[] m e]; try done; [by exists 0|]. cbn in Hr |- *. zbool.
    destruct (Z.leb_spec 0 e); [lia|].
    assert (0 < 2 ^ (- e)) by (apply Z.pow_pos_nonneg; lia).
    assert (Z.pos m / 2 ^ (- e) <= UINT64_MAX); [|by destruct (Z.leb_spec (Z.pos m / 2 ^ (- e)) UINT64_MAX); [eexists|lia]].
    transitivity (Z.pos m); [apply Z.div_le_upper_bound; nia|unfold UINT64_MAX; lia]. }
  destruct Hcast as [u Eu]. rewrite Eu. cbn [mbind outcome_bind].
  assert (Hsame : 262800 <= term -> Z.min 12 (262800 / 21900) = Z.min 12 (term / 21900)) by mlia.
  destruct (Z.eq_dec amount 0) as [->|Hn].
  { exists 0. rewrite (zero_interest _ Hr). split_and!; [done|lia|lia|lia|].
    intros Hterm. by rewrite (Hsame Hterm), Eu, (zero_interest _ Hr). }
  destruct (interest_bound amount _ ltac:(unfold is_u64 in Ha; lia) Ha Hr) as (v & E & Hv & Hb).
  exists v. split_and!; [done|lia|lia|..].
  - intros Hlt. assert (Z.min 12 (term / 21900) = 0) as H0 by mlia. rewrite H0 in E.
    destruct (float_of_amount amount) as (mA & eA & EA & _); [unfold is_u64 in Ha; lia|done|]. rewrite EA in E.
    assert (Hz : eir (baseInterest amount) (float_of_Z 0) = S754_zero false).
    { pose proof (baseInterest_tier amount) as T. cbn [base_rates map In] in T.
      destruct T as [<-|[<-|[<-|[<-|[<-|[]]]]]]; vm_compute; done. }
    rewrite Hz in E. cbn in E. congruence.
  - intros Hge. by rewrite (Hsame Hge), Eu.
Qed.

Lemma calculateInterest_bound_witness :
  calculateInterest 2000000000 300000 = Ok 160000000 /\
  exists v, calculateInterest 2000000000 300000 = Ok v /\ 0 <= v /\ 10000 * v <= 801 * 2000000000 /\
    (300000 < 21900 -> v = 0) /\ (262800 <= 300000 -> calculateInterest 2000000000 262800 = Ok v).
Proof.
  split; [vm_compute; reflexivity|].
  apply (calculateInterest_bound 2000000000 300000); unfold is_u64, is_u32; lia.
Defined.
