(* ===== verification/Serializer.v ===== *)
(** The serialization framework: [Serialization/ISerializer.h], its binary
    implementations [BinaryInputStreamSerializer] and
    [BinaryOutputStreamSerializer], and the overloads of
    [SerializationOverloads.h] for vectors and binary blobs.

    A [serialize(T&, ISerializer&)] function of the source serves both
    directions: it takes the value by reference and either writes or overwrites
    it.  Here it is a function [T -> ser S T] in a state-and-outcome monad over
    the stream, written once against the record of operations [ISerializer].
    [codec] states what a pair of directions promises; the combinators at the
    end prove it for every composite type from its parts. *)
From S2P Require Import Prelude Varint Stream.

(** * The monad: the stream is the state *)

Definition ser (S A : Type) : Type := S -> outcome (A * S).

#[export] Instance ser_ret {S} : MRet (ser S) := fun A a s => Ok (a, s).
#[export] Instance ser_bind {S} : MBind (ser S) := fun A B f m s =>
  '(a, s) ← m s; f a s.
Definition ser_throw {S A} (e : exn) : ser S A := fun _ => Throw e.

(** * The interface *)

Inductive SerializerType := INPUT | OUTPUT.

(** [beginObject] and [beginArray] can refuse (the JSON and key-value
    implementations do when a name is missing).  The size of an array is passed
    by reference. *)
Record ISerializer (S : Type) := {
  type : SerializerType;
  beginObject : ser S bool;
  endObject : ser S unit;
  beginArray : Z -> ser S (bool * Z);
  endArray : ser S unit;
  ser_uint8 : Z -> ser S Z;
  ser_int16 : Z -> ser S Z;
  ser_uint16 : Z -> ser S Z;
  ser_int32 : Z -> ser S Z;
  ser_uint32 : Z -> ser S Z;
  ser_int64 : Z -> ser S Z;
  ser_uint64 : Z -> ser S Z;
  ser_double : list Z -> ser S (list Z);
  ser_bool : bool -> ser S bool;
  ser_string : list Z -> ser S (list Z);
  ser_binary : nat -> list Z -> ser S (list Z);
  ser_binary_string : list Z -> ser S (list Z);
}.
Arguments type {S}.
Arguments beginObject {S}.
Arguments endObject {S}.
Arguments beginArray {S}.
Arguments endArray {S}.
Arguments ser_uint8 {S}.
Arguments ser_int16 {S}.
Arguments ser_uint16 {S}.
Arguments ser_int32 {S}.
Arguments ser_uint32 {S}.
Arguments ser_int64 {S}.
Arguments ser_uint64 {S}.
Arguments ser_double {S}.
Arguments ser_bool {S}.
Arguments ser_string {S}.
Arguments ser_binary {S}.
Arguments ser_binary_string {S}.

(** * Reading *)

Section BinaryInput.
Context {S : Type} `{IInputStream S} {B : BuildConfig}.

(** [readVarintAs<StorageType>]: read an unsigned [w]-bit varint and cast it to
    the signed type of the same width. *)
Definition readVarintAs (w : Z) : ser S Z := fun s =>
  '(i, s) ← readVarint w s; Ok (signed w i, s).

Definition MAX_CONTAINER : Z := 100 * 1024 * 1024.

Definition in_beginArray : ser S (bool * Z) := fun s =>
  '(size, s) ← readVarint 64 s;
  if MAX_CONTAINER <? size then Throw runtime_error else Ok ((true, size), s).

Definition in_bool : ser S bool := fun s =>
  '(b, s) ← read_uint8 s; Ok (negb (b =? 0), s).

Definition in_checkedRead (size : nat) : ser S (list Z) := fun s => read s size.

Definition in_string : ser S (list Z) := fun s =>
  '(size, s) ← readVarint 64 s;
  if MAX_CONTAINER <? size then Throw runtime_error
  else if 0 <? size then in_checkedRead (Z.to_nat size) s
  else Ok ([], s).

Definition BinaryInputStreamSerializer : ISerializer S := {|
  type := INPUT;
  beginObject := mret true;
  endObject := mret tt;
  beginArray := fun _ => in_beginArray;
  endArray := mret tt;
  ser_uint8 := fun _ => readVarint 8;
  ser_int16 := fun _ => readVarintAs 16;
  ser_uint16 := fun _ => readVarint 16;
  ser_int32 := fun _ => readVarintAs 32;
  ser_uint32 := fun _ => readVarint 32;
  ser_int64 := fun _ => readVarintAs 64;
  ser_uint64 := fun _ => readVarint 64;
  ser_double := fun _ s => _ ← massert false; Throw runtime_error;
  ser_bool := fun _ => in_bool;
  ser_string := fun _ => in_string;
  ser_binary := fun size _ => in_checkedRead size;
  ser_binary_string := fun _ => in_string;
|}.
End BinaryInput.

(** * Writing *)

Section BinaryOutput.
Context {S : Type} `{IOutputStream S} {B : BuildConfig}.

Definition out_varint (v raw : Z) : ser S Z := fun s => s ← writeVarint s raw; Ok (v, s).

Definition out_checkedWrite (data : list Z) : ser S (list Z) := fun s =>
  s ← write s data; Ok (data, s).

Definition out_beginArray (size : Z) : ser S (bool * Z) := fun s =>
  s ← writeVarint s size; Ok ((true, size), s).

Definition out_bool (value : bool) : ser S bool := fun s =>
  s ← write s [if value then 1 else 0]; Ok (value, s).

Definition out_string (value : list Z) : ser S (list Z) := fun s =>
  s ← writeVarint s (zlen value); out_checkedWrite value s.

Definition BinaryOutputStreamSerializer : ISerializer S := {|
  type := OUTPUT;
  beginObject := mret true;
  endObject := mret tt;
  beginArray := out_beginArray;
  endArray := mret tt;
  ser_uint8 := fun v => out_varint v v;
  ser_int16 := fun v => out_varint v (u16 v);
  ser_uint16 := fun v => out_varint v v;
  ser_int32 := fun v => out_varint v (u32 v);
  ser_uint32 := fun v => out_varint v v;
  ser_int64 := fun v => out_varint v (u64 v);
  ser_uint64 := fun v => out_varint v v;
  ser_double := fun _ s => _ ← massert false; Throw runtime_error;
  ser_bool := out_bool;
  ser_string := out_string;
  ser_binary := fun _ value => out_checkedWrite value;
  ser_binary_string := out_string;
|}.
End BinaryOutput.

(** * Overloads *)

Section Overloads.
Context {S : Type} (serializer : ISerializer S).

(** The template [serialize(T&, StringView, ISerializer&)] of [ISerializer.h]
    that [serializer(value, name)] reaches for a structure. *)
Definition serialize_object {A} (serialize : ISerializer S -> A -> ser S A) (value : A) : ser S A :=
  b ← beginObject serializer;
  if b : bool then
    v ← serialize serializer value;
    _ ← endObject serializer;
    mret v
  else mret value.

(** [std::vector::resize]. *)
Definition vresize {A} (d : A) (n : nat) (l : list A) : list A :=
  take n l ++ replicate (n - length l) d.

(** [for (auto& item : value) serializer(item, "")]. *)
Fixpoint serialize_items {A} (item : A -> ser S A) (l : list A) : ser S (list A) :=
  match l with
  | [] => mret []
  | x :: l => y ← item x; ys ← serialize_items item l; mret (y :: ys)
  end.

(** [serializeContainer] for a vector; [d] is the value-initialized element. *)
Definition serializeContainer {A} (d : A) (item : A -> ser S A) (value : list A) : ser S (list A) :=
  '(b, size) ← beginArray serializer (zlen value);
  if b : bool then
    v ← serialize_items item (vresize d (Z.to_nat size) value);
    _ ← endArray serializer;
    mret v
  else mret [].

(** [serializeAsBinary] for [std::vector<uint8_t>]: the blob is the vector. *)
Definition serializeAsBinary (value : list Z) : ser S (list Z) :=
  match type serializer with
  | INPUT => ser_binary_string serializer []
  | OUTPUT => ser_binary_string serializer value
  end.
End Overloads.

(** * What a serializer promises *)

(** Serializers of a type, for every implementation of the interface. *)
Notation serializer_of A := (forall S, ISerializer S -> A -> ser S A).

(** Sequencing, with a second part that may depend on the first value. *)
Definition ser_dep {A C} (f : serializer_of A) (g : A -> serializer_of C) : serializer_of (A * C) :=
  fun S z p => a ← f S z p.1; c ← g a S z p.2; mret (a, c).

(** A check that throws. *)
Definition ser_guard (bad : bool) : serializer_of unit :=
  fun S z _ => if bad then ser_throw runtime_error else mret tt.

Section Codec.
Context {SI : Type} `{InputStreamLaws SI} {SO : Type} `{OutputStreamLaws SO} {B : BuildConfig}.

(** [codec f wf enc]: writing a well-formed value appends [enc x]; reading
    [enc x] back gives [x] whatever was in the variable before; reading
    never does anything but return or throw on any bytes; and when it returns, the
    bytes consumed are the encoding of the (well-formed) value returned. *)
Record codec {A} (f : serializer_of A) (wf : A -> Prop) (enc : A -> list Z) : Prop := {
  codec_bytes x : wf x -> bytes_ok (enc x);
  codec_write x (s : SO) : wf x ->
    exists s', f SO BinaryOutputStreamSerializer x s = Ok (x, s') /\ written s' = written s ++ enc x;
  codec_read x y (s : SI) rest : wf x -> in_sane s -> bytes_ok rest -> pending s = enc x ++ rest ->
    exists s', f SI BinaryInputStreamSerializer y s = Ok (x, s') /\ in_sane s' /\ pending s' = rest;
  codec_total y (s : SI) : in_sane s -> bytes_ok (pending s) ->
    match f SI BinaryInputStreamSerializer y s with
    | Ok (x, s') => wf x /\ in_sane s' /\ pending s = enc x ++ pending s'
    | Throw e => e = runtime_error
    | _ => False
    end;
}.

Lemma bytes_ok_app_r (a b : list Z) : bytes_ok (a ++ b) -> bytes_ok b.
Proof. intros [_ ?]%Forall_app. done. Qed.

(** ** Primitive types *)

Lemma codec_varint (f : serializer_of Z) w :
  0 < w <= 64 ->
  (forall y, f SI BinaryInputStreamSerializer y = readVarint w) ->
  (forall y, f SO BinaryOutputStreamSerializer y = out_varint y y) ->
  codec f (fun x => 0 <= x < 2 ^ w) write_varint.
Proof.
  intros Hw Ei Eo. split.
  - intros x Hx. apply write_varint_bytes. lia.
  - intros x s Hx. rewrite Eo. unfold out_varint.
    destruct (writeVarint_ok s x) as (s' & -> & E); [lia|]. by exists s'.
  - intros x y s rest Hx Hs Hr Ep. rewrite Ei. by apply (readVarint_next w x s rest).
  - intros y s Hs Hb. rewrite Ei. destruct (readVarint_total w s Hs Hw Hb) as [->|(v & s' & E & _)]; [done|].
    rewrite E. destruct (readVarint_inv w v s s' Hs Hw Hb E) as (? & ? & ?). done.
Qed.

Lemma codec_uint8 : codec (@ser_uint8) (fun x => 0 <= x < 2 ^ 8) write_varint.
Proof. apply codec_varint; [lia|done|done]. Qed.
Lemma codec_uint32 : codec (@ser_uint32) (fun x => 0 <= x < 2 ^ 32) write_varint.
Proof. apply codec_varint; [lia|done|done]. Qed.
Lemma codec_uint64 : codec (@ser_uint64) (fun x => 0 <= x < 2 ^ 64) write_varint.
Proof. apply codec_varint; [lia|done|done]. Qed.

Lemma codec_binary n :
  codec (fun S z => ser_binary z n) (fun x => length x = n /\ bytes_ok x) (fun x => x).
Proof.
  split.
  - by intros x [_ ?].
  - intros x s [Hl Hb]. cbn [BinaryOutputStreamSerializer ser_binary]. unfold out_checkedWrite.
    destruct (write_spec s x) as (s' & -> & E). by exists s'.
  - intros x y s rest [<- Hb] Hs Hr Ep. cbn [BinaryInputStreamSerializer ser_binary]. unfold in_checkedRead.
    pose proof (read_exact s (length x) Hs) as R. rewrite Ep, length_app in R.
    destruct (Nat.leb_spec (length x) (length x + length rest)); [|lia].
    by rewrite take_app_length, drop_app_length in R.
  - intros y s Hs Hb. cbn [BinaryInputStreamSerializer ser_binary]. unfold in_checkedRead.
    pose proof (read_exact s n Hs) as R. destruct (Nat.leb_spec n (length (pending s))) as [Hn|]; [|by rewrite R].
    destruct R as (s' & -> & Hs' & ->). rewrite take_drop. split; [|done].
    split; [rewrite length_take; lia|]. unfold bytes_ok in *. by apply Forall_take.
Qed.

(** ** Combinators *)

Lemma codec_guard bad : codec (ser_guard bad) (fun _ => bad = false) (fun _ => []).
Proof.
  split; unfold ser_guard.
  - constructor.
  - intros [] s ->. exists s. by rewrite app_nil_r.
  - intros [] y s rest -> Hs Hr Ep. by exists s.
  - intros y s Hs Hb. by destruct bad.
Qed.

Lemma codec_dep {A C} (f : serializer_of A) (g : A -> serializer_of C) wf wg ef eg :
  codec f wf ef -> (forall a, wf a -> codec (g a) (wg a) (eg a)) ->
  codec (ser_dep f g) (fun p => wf p.1 /\ wg p.1 p.2) (fun p => ef p.1 ++ eg p.1 p.2).
Proof.
  intros F G. split.
  - intros [a c] [Ha Hc]. apply Forall_app. split; [by apply (codec_bytes _ _ _ F)|].
    by apply (codec_bytes _ _ _ (G a Ha)).
  - intros [a c] s [Ha Hc]. cbn [fst snd] in *. unfold ser_dep, mbind, ser_bind. cbn [fst snd].
    destruct (codec_write _ _ _ F a s Ha) as (s1 & -> & E1). cbn.
    destruct (codec_write _ _ _ (G a Ha) c s1 Hc) as (s2 & -> & E2). cbn.
    exists s2. by rewrite E2, E1, app_assoc.
  - intros [a c] y s rest [Ha Hc] Hs Hr Ep. cbn [fst snd] in *. rewrite <- app_assoc in Ep.
    unfold ser_dep, mbind, ser_bind.
    destruct (codec_read _ _ _ F a y.1 s (eg a c ++ rest) Ha Hs) as (s1 & -> & Hs1 & E1); [|done|].
    { apply Forall_app. split; [by apply (codec_bytes _ _ _ (G a Ha))|done]. }
    cbn. destruct (codec_read _ _ _ (G a Ha) c y.2 s1 rest Hc Hs1 Hr E1) as (s2 & -> & Hs2 & E2).
    cbn. by exists s2.
  - intros y s Hs Hb. unfold ser_dep, mbind, ser_bind.
    pose proof (codec_total _ _ _ F y.1 s Hs Hb) as R.
    destruct (f SI _ y.1 s) as [[a s1]|e| |]; cbn; try done. destruct R as (Ha & Hs1 & E1).
    rewrite E1 in Hb |- *. pose proof (codec_total _ _ _ (G a Ha) y.2 s1 Hs1 (bytes_ok_app_r _ _ Hb)) as R.
    destruct (g a SI _ y.2 s1) as [[c s2]|e| |]; cbn; try done. destruct R as (Hc & Hs2 & ->).
    by rewrite <- app_assoc.
Qed.

(** A structure is its tuple of members. *)
Lemma codec_iso {A C} (f : serializer_of A) (g : serializer_of C) (to : A -> C) (from : C -> A)
    (wf' : A -> Prop) wf enc :
  codec g wf enc ->
  (forall x, wf' x -> wf (to x) /\ from (to x) = x) ->
  (forall y, wf y -> wf' (from y) /\ to (from y) = y) ->
  (forall S z x s, f S z x s = ('(y, s) ← g S z (to x) s; Ok (from y, s))) ->
  codec f wf' (fun x => enc (to x)).
Proof.
  intros G Hto Hfrom E. split.
  - intros x [Hx _]%Hto. by apply (codec_bytes _ _ _ G).
  - intros x s [Hx Hft]%Hto. rewrite E. destruct (codec_write _ _ _ G (to x) s Hx) as (s' & -> & Ew).
    cbn. exists s'. by rewrite Hft.
  - intros x y s rest [Hx Hft]%Hto Hs Hr Ep. rewrite E.
    destruct (codec_read _ _ _ G (to x) (to y) s rest Hx Hs Hr Ep) as (s' & -> & ? & ?).
    cbn. exists s'. by rewrite Hft.
  - intros y s Hs Hb. rewrite E. pose proof (codec_total _ _ _ G (to y) s Hs Hb) as R.
    destruct (g SI _ (to y) s) as [[x s']|e| |]; cbn; try done.
    destruct R as (Hx & ? & ?). destruct (Hfrom x Hx) as [? ->]. done.
Qed.

Lemma codec_ext {A} (f : serializer_of A) wf wf' enc enc' :
  codec f wf enc -> (forall x, wf x <-> wf' x) -> (forall x, wf x -> enc x = enc' x) -> codec f wf' enc'.
Proof.
  intros F Hwf Henc. split.
  - intros x Hx%Hwf. rewrite <- Henc by done. by apply (codec_bytes _ _ _ F).
  - intros x s Hx%Hwf. rewrite <- Henc by done. by apply (codec_write _ _ _ F).
  - intros x y s rest Hx%Hwf. rewrite <- Henc by done. by apply (codec_read _ _ _ F).
  - intros y s Hs Hb. pose proof (codec_total _ _ _ F y s Hs Hb) as R.
    destruct (f SI _ y s) as [[x s']|e| |]; try done. destruct R as (Hx & ? & ?).
    rewrite <- Henc, <- Hwf by done. done.
Qed.

Lemma codec_object {A} (f : serializer_of A) wf enc :
  codec f wf enc -> codec (fun S z => serialize_object z (f S)) wf enc.
Proof.
  intros F.
  split; intros; unfold serialize_object; cbn [beginObject endObject BinaryInputStreamSerializer
    BinaryOutputStreamSerializer]; unfold mbind, ser_bind, mret, ser_ret; cbn [mbind outcome_bind].
  - by apply (codec_bytes _ _ _ F).
  - edestruct (codec_write _ _ _ F x s) as (s' & -> & E); [done|]. by exists s'.
  - edestruct (codec_read _ _ _ F x y s rest) as (s' & -> & ? & ?); try done. by exists s'.
  - pose proof (codec_total _ _ _ F y s) as R.
    destruct (f SI _ y s) as [[]| | |]; cbn; auto.
Qed.

(** ** Vectors *)

Definition enc_items {A} (enc : A -> list Z) (l : list A) : list Z := concat (map enc l).

Lemma enc_items_bytes {A} (f : serializer_of A) wf enc l :
  codec f wf enc -> Forall wf l -> bytes_ok (enc_items enc l).
Proof.
  intros F HF. apply Forall_concat, Forall_map. eapply Forall_impl; [exact HF|].
  intros. by apply (codec_bytes _ _ _ F).
Qed.

Lemma codec_items {A} (f : serializer_of A) wf enc n :
  codec f wf enc ->
  (forall x (s : SO), Forall wf x ->
    exists s', serialize_items (f SO BinaryOutputStreamSerializer) x s = Ok (x, s') /\
      written s' = written s ++ enc_items enc x) /\
  (forall x y (s : SI) rest, length x = n -> length y = n -> Forall wf x -> in_sane s -> bytes_ok rest ->
    pending s = enc_items enc x ++ rest ->
    exists s', serialize_items (f SI BinaryInputStreamSerializer) y s = Ok (x, s') /\ in_sane s' /\ pending s' = rest) /\
  (forall y (s : SI), length y = n -> in_sane s -> bytes_ok (pending s) ->
    match serialize_items (f SI BinaryInputStreamSerializer) y s with
    | Ok (x, s') => (length x = n /\ Forall wf x) /\ in_sane s' /\ pending s = enc_items enc x ++ pending s'
    | Throw e => e = runtime_error
    | _ => False
    end).
Proof.
  intros F. split_and!.
  - intros x. induction x as [|a x IH]; intros s HF; cbn [serialize_items].
    { exists s. cbn. by rewrite app_nil_r. }
    apply Forall_cons in HF as [Ha Hx]. unfold mbind, ser_bind.
    destruct (codec_write _ _ _ F a s Ha) as (s1 & -> & E1). cbn -[serialize_items].
    destruct (IH s1 Hx) as (s2 & -> & E2). cbn. exists s2. split; [done|].
    rewrite E2, E1. unfold enc_items. cbn [map concat]. by rewrite app_assoc.
  - induction n as [|n IH]; intros x y s rest Hx Hy HF Hs Hr Ep.
    { apply nil_length_inv in Hx as ->, Hy as ->. by exists s. }
    destruct x as [|a x], y as [|b y]; try done. cbn [serialize_items].
    apply Forall_cons in HF as [Ha HF]. unfold mbind, ser_bind.
    unfold enc_items in Ep. cbn [map concat] in Ep. rewrite <- app_assoc in Ep.
    destruct (codec_read _ _ _ F a b s (enc_items enc x ++ rest) Ha Hs) as (s1 & -> & Hs1 & E1); [|done|].
    { apply Forall_app. split; [by eapply enc_items_bytes|done]. }
    cbn -[serialize_items].
    destruct (IH x y s1 rest) as (s2 & -> & ? & ?); try done; [cbn in *; lia..|]. cbn. by exists s2.
  - induction n as [|n IH]; intros y s Hy Hs Hb.
    { apply nil_length_inv in Hy as ->. cbn. by repeat split. }
    destruct y as [|b y]; [done|]. cbn [serialize_items]. unfold mbind, ser_bind.
    pose proof (codec_total _ _ _ F b s Hs Hb) as R.
    destruct (f SI _ b s) as [[a s1]|e| |]; cbn -[serialize_items]; try done.
    destruct R as (Ha & Hs1 & E1). rewrite E1 in Hb |- *.
    specialize (IH y s1 ltac:(cbn in *; lia) Hs1 (bytes_ok_app_r _ _ Hb)).
    destruct (serialize_items (f SI _) y s1) as [[x s2]|e| |]; cbn -[enc_items]; try done.
    destruct IH as ([<- HF] & Hs2 & ->). split; [split; [done|by constructor]|]. split; [done|].
    unfold enc_items. cbn [map concat]. by rewrite <- app_assoc.
Qed.

Lemma length_vresize {A} (d : A) n l : length (vresize d n l) = n.
Proof. unfold vresize. rewrite length_app, length_take, length_replicate. lia. Qed.
Lemma vresize_same {A} (d : A) l : vresize d (length l) l = l.
Proof. unfold vresize. rewrite firstn_all, Nat.sub_diag. apply app_nil_r. Qed.

Lemma vresize_S {A} (d : A) n l : vresize d (Datatypes.S n) l = default d (head l) :: vresize d n (tail l).
Proof. destruct l; unfold vresize; cbn; [|done]. by rewrite take_nil, Nat.sub_0_r. Qed.

Lemma codec_container {A} (d : A) (f : serializer_of A) wf enc :
  codec f wf enc ->
  codec (fun S z => serializeContainer z d (f S z))
    (fun l => zlen l <= MAX_CONTAINER /\ Forall wf l)
    (fun l => write_varint (zlen l) ++ enc_items enc l).
Proof.
  intros F. split.
  - intros l [Hn HF]. apply Forall_app. split; [apply write_varint_bytes, zlen_nonneg|].
    by eapply enc_items_bytes.
  - intros l s [Hn HF]. unfold serializeContainer, mbind, ser_bind.
    cbn [beginArray endArray BinaryOutputStreamSerializer out_beginArray]. unfold out_beginArray.
    destruct (writeVarint_ok s (zlen l)) as (s1 & -> & E1); [apply zlen_nonneg|]. cbn -[serialize_items].
    replace (Z.to_nat (zlen l)) with (length l) by (unfold zlen; lia). rewrite vresize_same.
    destruct (codec_items f wf enc 0 F) as (W & _ & _).
    destruct (W l s1 HF) as (s2 & -> & E2). cbn. exists s2. by rewrite E2, E1, app_assoc.
  - intros l y s rest [Hn HF] Hs Hr Ep. unfold serializeContainer, mbind, ser_bind.
    cbn [beginArray endArray BinaryInputStreamSerializer]. unfold in_beginArray.
    rewrite <- app_assoc in Ep. pose proof (zlen_nonneg l).
    unfold MAX_CONTAINER in *.
    destruct (readVarint_next 64 (zlen l) s (enc_items enc l ++ rest) Hs ltac:(lia) ltac:(lia))
      as (s1 & -> & Hs1 & E1); [|done|].
    { apply Forall_app. split; [by eapply enc_items_bytes|done]. }
    cbn -[serialize_items Z.ltb]. destruct (Z.ltb_spec (100 * 1024 * 1024) (zlen l)); [lia|].
    cbn -[serialize_items].
    destruct (codec_items f wf enc (length l) F) as (_ & R & _).
    replace (Z.to_nat (zlen l)) with (length l) by (unfold zlen; lia).
    destruct (R l (vresize d (length l) y) s1 rest) as (s2 & -> & ? & ?); try done; [by rewrite length_vresize|].
    cbn. by exists s2.
  - intros y s Hs Hb. unfold serializeContainer, mbind, ser_bind.
    cbn [beginArray endArray BinaryInputStreamSerializer]. unfold in_beginArray.
    destruct (readVarint_total 64 s Hs ltac:(lia) Hb) as [->|(v & s1 & E & _)]; [done|]. rewrite E.
    destruct (readVarint_inv 64 v s s1 Hs ltac:(lia) Hb E) as (Ep & Hv & Hs1). rewrite Ep in Hb |- *.
    cbn -[serialize_items MAX_CONTAINER]. destruct (Z.ltb_spec MAX_CONTAINER v); [done|].
    cbn -[serialize_items MAX_CONTAINER].
    destruct (codec_items f wf enc (Z.to_nat v) F) as (_ & _ & T).
    specialize (T (vresize d (Z.to_nat v) y) s1 (length_vresize _ _ _) Hs1 (bytes_ok_app_r _ _ Hb)).
    destruct (serialize_items (f SI _) _ s1) as [[x s2]|e| |]; cbn -[enc_items MAX_CONTAINER]; try done.
    destruct T as ([Hl HF] & Hs2 & ->). assert (zlen x = v) as -> by (unfold zlen; lia).
    split; [done|]. split; [done|]. by rewrite app_assoc.
Qed.

(** ** Strings and blobs *)

Lemma codec_blob (f : serializer_of (list Z)) :
  (forall y, f SI BinaryInputStreamSerializer y = in_string) ->
  (forall y, f SO BinaryOutputStreamSerializer y = out_string y) ->
  codec f (fun l => zlen l <= MAX_CONTAINER /\ bytes_ok l) (fun l => write_varint (zlen l) ++ l).
Proof.
  intros Ei Eo. split.
  - intros l [_ Hb]. apply Forall_app. split; [apply write_varint_bytes, zlen_nonneg|done].
  - intros l s [Hn Hb]. rewrite Eo. unfold out_string, out_checkedWrite.
    destruct (writeVarint_ok s (zlen l)) as (s1 & -> & E1); [apply zlen_nonneg|]. cbn.
    destruct (write_spec s1 l) as (s2 & -> & E2). cbn. exists s2. by rewrite E2, E1, app_assoc.
  - intros l y s rest [Hn Hb] Hs Hr Ep. rewrite Ei. unfold in_string.
    rewrite <- app_assoc in Ep. pose proof (zlen_nonneg l). unfold MAX_CONTAINER in *.
    destruct (readVarint_next 64 (zlen l) s (l ++ rest) Hs) as (s1 & -> & Hs1 & E1); try done; try lia.
    { by apply Forall_app. }
    cbn -[Z.ltb]. destruct (Z.ltb_spec (100 * 1024 * 1024) (zlen l)); [lia|].
    destruct (Z.ltb_spec 0 (zlen l)) as [Hp|Hz].
    + unfold in_checkedRead. pose proof (read_exact s1 (Z.to_nat (zlen l)) Hs1) as R.
      replace (Z.to_nat (zlen l)) with (length l) in * by (unfold zlen; lia).
      rewrite E1, length_app in R. destruct (Nat.leb_spec (length l) (length l + length rest)); [|lia].
      by rewrite take_app_length, drop_app_length in R.
    + assert (l = []) as -> by (destruct l; [done|rewrite zlen_cons in *; pose proof (zlen_nonneg l); lia]).
      by exists s1.
  - intros y s Hs Hb. rewrite Ei. unfold in_string.
    destruct (readVarint_total 64 s Hs ltac:(lia) Hb) as [->|(v & s1 & E & _)]; [done|]. rewrite E.
    destruct (readVarint_inv 64 v s s1 Hs ltac:(lia) Hb E) as (Ep & Hv & Hs1). rewrite Ep in Hb |- *.
    apply bytes_ok_app_r in Hb. cbn -[MAX_CONTAINER Z.ltb].
    destruct (Z.ltb_spec MAX_CONTAINER v); [done|]. destruct (Z.ltb_spec 0 v).
    + unfold in_checkedRead. pose proof (read_exact s1 (Z.to_nat v) Hs1) as R.
      destruct (Nat.leb_spec (Z.to_nat v) (length (pending s1))); [|by rewrite R].
      destruct R as (s2 & -> & Hs2 & ->).
      assert (El : zlen (take (Z.to_nat v) (pending s1)) = v) by (unfold zlen; rewrite length_take; lia).
      rewrite El, <- app_assoc, take_drop. repeat split; try done. by apply Forall_take.
    + assert (v = 0) as -> by lia. split; [split; [done|constructor]|]. split; [done|].
      by rewrite app_nil_r.
Qed.

Lemma codec_serializeAsBinary :
  codec (@serializeAsBinary) (fun l => zlen l <= MAX_CONTAINER /\ bytes_ok l)
    (fun l => write_varint (zlen l) ++ l).
Proof. by apply codec_blob. Qed.
End Codec.

(** Splitting a [serialize] function of the source into its sequence of parts. *)
Ltac head_of t := lazymatch t with ?f _ => head_of f | _ => t end.
Ltac ser_cases :=
  cbv [mbind ser_bind outcome_bind mret ser_ret ser_dep ser_guard ser_throw fst snd];
  repeat match goal with
  | |- context [match ?x with _ => _ end] =>
      lazymatch x with context [match _ with _ => _ end] => fail | _ => destruct x end
  end; try done.
Ltac ser_parts :=
  intros; match goal with |- ?l = _ => let h := head_of l in unfold h end; ser_cases.
