(* ===== verification/Serialization.v ===== *)
(** The consensus wire format: [CryptoNoteCore/CryptoNoteSerialization.cpp] and
    the whole-object entry points of [CryptoNoteCore/CryptoNoteTools.h].

    One definition per [serialize] overload of the source, serving both
    directions; [wf_*] are the values of the C++ types that can be written,
    [enc_*] their bytes.  The theorems say that [toBinaryArray] and
    [fromBinaryArray] are inverse bijections between well-formed values and the
    byte strings the parser accepts. *)
From S2P Require Import Prelude Varint Stream CryptoNote Serializer.

Definition TRANSACTION_VERSION_1 : Z := 1.
Definition TRANSACTION_VERSION_2 : Z := 2.
Definition BLOCK_MAJOR_VERSION_1 : Z := 1.
Definition BLOCK_MAJOR_VERSION_2 : Z := 2.

Definition getSignaturesCount (input : TransactionInput) : nat :=
  match input with
  | InBase _ => 0
  | InKey i => length (outputIndexes i)
  | InMultisignature i => Z.to_nat (signatureCount i)
  end.

(** [BinaryVariantTagGetter]. *)
Definition input_tag (i : TransactionInput) : Z :=
  match i with InBase _ => 255 | InKey _ => 2 | InMultisignature _ => 3 end.
Definition output_tag (o : TransactionOutputTarget) : Z :=
  match o with OutKey _ => 2 | OutMultisignature _ => 3 end.

Section Serialize.
Context {S : Type}.
Implicit Type serializer : ISerializer S.

(** [serializePod] of an array of [n] bytes ([Hash], [PublicKey], [KeyImage],
    [SecretKey]: 32; [Signature]: 64). *)
Definition serializePod (n : nat) serializer (v : list Z) : ser S (list Z) :=
  ser_binary serializer n v.

Definition serializeVarintVector serializer (vector : list Z) : ser S (list Z) :=
  '(b, size) ← beginArray serializer (zlen vector);
  if b : bool then
    v ← serialize_items (ser_uint32 serializer) (vresize 0 (Z.to_nat size) vector);
    _ ← endArray serializer;
    mret v
  else mret [].

Definition serialize_BaseInput serializer (gen : BaseInput) : ser S BaseInput :=
  h ← ser_uint32 serializer (blockIndex gen);
  mret {| blockIndex := h |}.

Definition serialize_KeyInput serializer (key : KeyInput) : ser S KeyInput :=
  a ← ser_uint64 serializer (ki_amount key);
  o ← serializeVarintVector serializer (outputIndexes key);
  k ← serializePod 32 serializer (keyImage key);
  mret {| ki_amount := a; outputIndexes := o; keyImage := k |}.

Definition serialize_MultisignatureInput serializer (m : MultisignatureInput) : ser S MultisignatureInput :=
  a ← ser_uint64 serializer (mi_amount m);
  c ← ser_uint8 serializer (signatureCount m);
  o ← ser_uint32 serializer (outputIndex m);
  t ← ser_uint32 serializer (mi_term m);
  mret {| mi_amount := a; signatureCount := c; outputIndex := o; mi_term := t |}.

(** [getVariantValue] for inputs; the locals [v] start value-initialized here,
    uninitialized in the source, and are overwritten before use. *)
Definition getVariantValue_input serializer (tag : Z) : ser S TransactionInput :=
  if tag =? 255 then
    v ← serialize_object serializer serialize_BaseInput {| blockIndex := 0 |};
    mret (InBase v)
  else if tag =? 2 then
    v ← serialize_object serializer serialize_KeyInput
          {| ki_amount := 0; outputIndexes := []; keyImage := NULL_HASH |};
    mret (InKey v)
  else if tag =? 3 then
    v ← serialize_object serializer serialize_MultisignatureInput
          {| mi_amount := 0; signatureCount := 0; outputIndex := 0; mi_term := 0 |};
    mret (InMultisignature v)
  else ser_throw runtime_error.

(** A [uint8_t] passed to [binary(&tag, sizeof(tag))]. *)
Definition serialize_tag serializer (tag : Z) : ser S Z :=
  b ← ser_binary serializer 1 [tag]; mret (le_combine b).

Definition serialize_TransactionInput serializer (i : TransactionInput) : ser S TransactionInput :=
  match type serializer with
  | OUTPUT =>
      _ ← serialize_tag serializer (input_tag i);
      match i with
      | InBase v => v ← serialize_object serializer serialize_BaseInput v; mret (InBase v)
      | InKey v => v ← serialize_object serializer serialize_KeyInput v; mret (InKey v)
      | InMultisignature v =>
          v ← serialize_object serializer serialize_MultisignatureInput v; mret (InMultisignature v)
      end
  | INPUT =>
      tag ← serialize_tag serializer 0;
      getVariantValue_input serializer tag
  end.

Definition serialize_KeyOutput serializer (o : KeyOutput) : ser S KeyOutput :=
  k ← serializePod 32 serializer (ko_key o); mret {| ko_key := k |}.

Definition serialize_MultisignatureOutput serializer (m : MultisignatureOutput)
  : ser S MultisignatureOutput :=
  ks ← serializeContainer serializer NULL_HASH (serializePod 32 serializer) (mo_keys m);
  r ← ser_uint8 serializer (requiredSignatureCount m);
  t ← ser_uint32 serializer (mo_term m);
  mret {| mo_keys := ks; requiredSignatureCount := r; mo_term := t |}.

Definition getVariantValue_output serializer (tag : Z) : ser S TransactionOutputTarget :=
  if tag =? 2 then
    v ← serialize_object serializer serialize_KeyOutput {| ko_key := NULL_HASH |};
    mret (OutKey v)
  else if tag =? 3 then
    v ← serialize_object serializer serialize_MultisignatureOutput
          {| mo_keys := []; requiredSignatureCount := 0; mo_term := 0 |};
    mret (OutMultisignature v)
  else ser_throw runtime_error.

Definition serialize_TransactionOutputTarget serializer (o : TransactionOutputTarget)
  : ser S TransactionOutputTarget :=
  match type serializer with
  | OUTPUT =>
      _ ← serialize_tag serializer (output_tag o);
      match o with
      | OutKey v => v ← serialize_object serializer serialize_KeyOutput v; mret (OutKey v)
      | OutMultisignature v =>
          v ← serialize_object serializer serialize_MultisignatureOutput v; mret (OutMultisignature v)
      end
  | INPUT =>
      tag ← serialize_tag serializer 0;
      getVariantValue_output serializer tag
  end.

Definition serialize_TransactionOutput serializer (o : TransactionOutput) : ser S TransactionOutput :=
  a ← ser_uint64 serializer (out_amount o);
  t ← serialize_object serializer serialize_TransactionOutputTarget (target o);
  mret {| out_amount := a; target := t |}.

Definition default_input : TransactionInput := InBase {| blockIndex := 0 |}.
Definition default_output : TransactionOutput :=
  {| out_amount := 0; target := OutKey {| ko_key := NULL_HASH |} |}.

Definition serialize_TransactionPrefix serializer (txP : TransactionPrefix) : ser S TransactionPrefix :=
  v ← ser_uint8 serializer (version txP);
  if TRANSACTION_VERSION_2 <? v then ser_throw runtime_error else
  u ← ser_uint64 serializer (unlockTime txP);
  i ← serializeContainer serializer default_input
        (serialize_object serializer serialize_TransactionInput) (inputs txP);
  o ← serializeContainer serializer default_output
        (serialize_object serializer serialize_TransactionOutput) (outputs txP);
  e ← serializeAsBinary serializer (extra txP);
  mret {| version := v; unlockTime := u; inputs := i; outputs := o; extra := e |}.

Definition NULL_SIGNATURE : list Z := replicate 64 0.

(** The body of the loop over the inputs for an input at index [i] with its
    vector [tx.signatures[i]]. *)
Definition serialize_input_signatures serializer (i : TransactionInput) (sigs : list (list Z))
  : ser S (list (list Z)) :=
  let signatureSize := getSignaturesCount i in
  match type serializer with
  | OUTPUT =>
      if negb (signatureSize =? length sigs)%nat then ser_throw runtime_error
      else serialize_items (serializePod 64 serializer) sigs
  | INPUT => serialize_items (serializePod 64 serializer) (replicate signatureSize NULL_SIGNATURE)
  end.

Fixpoint serialize_signature_loop serializer (ins : list TransactionInput) (sigs : list (list (list Z)))
  : ser S (list (list (list Z))) :=
  match ins, sigs with
  | i :: ins, s :: sigs =>
      s ← serialize_input_signatures serializer i s;
      sigs ← serialize_signature_loop serializer ins sigs;
      mret (s :: sigs)
  | _, _ => mret sigs
  end.

(** The part of [serialize(Transaction&)] after the prefix. *)
Definition serialize_signatures serializer (ins : list TransactionInput) (sigs : list (list (list Z)))
  : ser S (list (list (list Z))) :=
  let sigs := match type serializer with INPUT => vresize [] (length ins) sigs | OUTPUT => sigs end in
  let signaturesNotExpected := (length sigs =? 0)%nat in
  if negb signaturesNotExpected && negb (length ins =? length sigs)%nat then ser_throw runtime_error
  else if signaturesNotExpected then
    if forallb (fun i => getSignaturesCount i =? 0)%nat ins then mret sigs else ser_throw runtime_error
  else serialize_signature_loop serializer ins sigs.

Definition serialize_Transaction serializer (tx : Transaction) : ser S Transaction :=
  p ← serialize_TransactionPrefix serializer (prefix tx);
  s ← serialize_signatures serializer (inputs p) (signatures tx);
  mret {| prefix := p; signatures := s |}.

(** [binary(&header.nonce, sizeof(header.nonce))] on a little-endian machine. *)
Definition serialize_nonce serializer (n : Z) : ser S Z :=
  b ← ser_binary serializer 4 (le_split 4 n); mret (le_combine b).

Definition serializeBlockHeader serializer (h : BlockHeader) : ser S BlockHeader :=
  mj ← ser_uint8 serializer (majorVersion h);
  if BLOCK_MAJOR_VERSION_2 <? mj then ser_throw runtime_error else
  mn ← ser_uint8 serializer (minorVersion h);
  t ← ser_uint64 serializer (timestamp h);
  p ← serializePod 32 serializer (previousBlockHash h);
  n ← serialize_nonce serializer (nonce h);
  mret {| majorVersion := mj; minorVersion := mn; nonce := n; timestamp := t; previousBlockHash := p |}.

Definition serialize_Block serializer (b : Block) : ser S Block :=
  h ← serializeBlockHeader serializer (header b);
  t ← serialize_object serializer serialize_Transaction (baseTransaction b);
  l ← serializeContainer serializer NULL_HASH (serializePod 32 serializer) (transactionHashes b);
  mret {| header := h; baseTransaction := t; transactionHashes := l |}.

Definition serialize_AccountPublicAddress serializer (a : AccountPublicAddress)
  : ser S AccountPublicAddress :=
  s ← serializePod 32 serializer (spendPublicKey a);
  v ← serializePod 32 serializer (viewPublicKey a);
  mret {| spendPublicKey := s; viewPublicKey := v |}.
End Serialize.

(** * Whole objects *)

Section Tools.
Context {B : BuildConfig}.

(** [toBinaryArray(object, binaryArray)]: [None] when it returns false (the
    array then holds what was written before the exception). *)
Definition toBinaryArray {A} (serialize : serializer_of A) (object : A) : outcome (option (list Z)) :=
  match serialize (list Z) BinaryOutputStreamSerializer object [] with
  | Ok (_, ba) => Ok (Some ba)
  | Throw _ => Ok None
  | AssertFailed => AssertFailed
  | Undefined => Undefined
  end.

(** [fromBinaryArray(object, binaryArray)]: [None] when it returns false. *)
Definition fromBinaryArray {A} (serialize : serializer_of A) (object : A) (ba : list Z) : outcome (option A) :=
  match serialize MemoryInputStream BinaryInputStreamSerializer object (MemoryInputStream_new ba) with
  | Ok (x, stream) => Ok (if MemoryInputStream_endOfStream stream then Some x else None)
  | Throw _ => Ok None
  | AssertFailed => AssertFailed
  | Undefined => Undefined
  end.

Definition SIZE_MAX : Z := 18446744073709551615.

(** [getObjectBinarySize(object, size)] with its result and [size]. *)
Definition getObjectBinarySize {A} (serialize : serializer_of A) (object : A) : outcome (bool * Z) :=
  r ← toBinaryArray serialize object;
  Ok (match r with Some ba => (true, zlen ba) | None => (false, SIZE_MAX) end).

Section Hashes.
Variable cn_fast_hash : list Z -> list Z.
Definition getBinaryArrayHash (ba : list Z) : list Z := cn_fast_hash ba.
(** [getObjectHash(object, hash, size)]. *)
Definition getObjectHash {A} (serialize : serializer_of A) (object : A) : outcome (bool * list Z * Z) :=
  r ← toBinaryArray serialize object;
  Ok (match r with
      | Some ba => (true, getBinaryArrayHash ba, zlen ba)
      | None => (false, NULL_HASH, SIZE_MAX)
      end).
End Hashes.
End Tools.

(** * Values and bytes *)

Definition is_pod (n : nat) (l : list Z) : Prop := length l = n /\ bytes_ok l.

Definition wf_input (i : TransactionInput) : Prop :=
  match i with
  | InBase i => 0 <= blockIndex i < 2 ^ 32
  | InKey i => 0 <= ki_amount i < 2 ^ 64 /\
      (zlen (outputIndexes i) <= MAX_CONTAINER /\ Forall (fun x => 0 <= x < 2 ^ 32) (outputIndexes i)) /\
      is_pod 32 (keyImage i)
  | InMultisignature i => 0 <= mi_amount i < 2 ^ 64 /\ 0 <= signatureCount i < 2 ^ 8 /\
      0 <= outputIndex i < 2 ^ 32 /\ 0 <= mi_term i < 2 ^ 32
  end.
Definition enc_input (i : TransactionInput) : list Z :=
  input_tag i ::
  match i with
  | InBase i => write_varint (blockIndex i)
  | InKey i => write_varint (ki_amount i) ++
      (write_varint (zlen (outputIndexes i)) ++ enc_items write_varint (outputIndexes i)) ++ keyImage i
  | InMultisignature i => write_varint (mi_amount i) ++ write_varint (signatureCount i) ++
      write_varint (outputIndex i) ++ write_varint (mi_term i)
  end.

Definition wf_target (o : TransactionOutputTarget) : Prop :=
  match o with
  | OutKey o => is_pod 32 (ko_key o)
  | OutMultisignature m => (zlen (mo_keys m) <= MAX_CONTAINER /\ Forall (is_pod 32) (mo_keys m)) /\
      0 <= requiredSignatureCount m < 2 ^ 8 /\ 0 <= mo_term m < 2 ^ 32
  end.
Definition enc_target (o : TransactionOutputTarget) : list Z :=
  output_tag o ::
  match o with
  | OutKey o => ko_key o
  | OutMultisignature m => (write_varint (zlen (mo_keys m)) ++ enc_items (fun k => k) (mo_keys m)) ++
      write_varint (requiredSignatureCount m) ++ write_varint (mo_term m)
  end.

Definition wf_output (o : TransactionOutput) : Prop := 0 <= out_amount o < 2 ^ 64 /\ wf_target (target o).
Definition enc_output (o : TransactionOutput) : list Z := write_varint (out_amount o) ++ enc_target (target o).

Definition wf_prefix (p : TransactionPrefix) : Prop :=
  0 <= version p <= 2 /\ 0 <= unlockTime p < 2 ^ 64 /\
  (zlen (inputs p) <= MAX_CONTAINER /\ Forall wf_input (inputs p)) /\
  (zlen (outputs p) <= MAX_CONTAINER /\ Forall wf_output (outputs p)) /\
  (zlen (extra p) <= MAX_CONTAINER /\ bytes_ok (extra p)).
Definition enc_prefix (p : TransactionPrefix) : list Z :=
  write_varint (version p) ++ write_varint (unlockTime p) ++
  (write_varint (zlen (inputs p)) ++ enc_items enc_input (inputs p)) ++
  (write_varint (zlen (outputs p)) ++ enc_items enc_output (outputs p)) ++
  (write_varint (zlen (extra p)) ++ extra p).

(** One signature per ring member. *)
Definition wf_signatures (ins : list TransactionInput) (sigs : list (list (list Z))) : Prop :=
  Forall2 (fun i s => length s = getSignaturesCount i /\ Forall (is_pod 64) s) ins sigs.
Definition enc_signatures (sigs : list (list (list Z))) : list Z := enc_items (enc_items (fun s => s)) sigs.

Definition wf_tx (tx : Transaction) : Prop :=
  wf_prefix (prefix tx) /\ wf_signatures (inputs (prefix tx)) (signatures tx).
Definition enc_tx (tx : Transaction) : list Z := enc_prefix (prefix tx) ++ enc_signatures (signatures tx).

Definition wf_header (h : BlockHeader) : Prop :=
  0 <= majorVersion h <= 2 /\ 0 <= minorVersion h < 2 ^ 8 /\ 0 <= timestamp h < 2 ^ 64 /\
  is_pod 32 (previousBlockHash h) /\ 0 <= nonce h < 2 ^ 32.
Definition enc_header (h : BlockHeader) : list Z :=
  write_varint (majorVersion h) ++ write_varint (minorVersion h) ++ write_varint (timestamp h) ++
  previousBlockHash h ++ le_split 4 (nonce h).

Definition wf_block (b : Block) : Prop :=
  wf_header (header b) /\ wf_tx (baseTransaction b) /\
  (zlen (transactionHashes b) <= MAX_CONTAINER /\ Forall (is_pod 32) (transactionHashes b)).
Definition enc_block (b : Block) : list Z :=
  enc_header (header b) ++ enc_tx (baseTransaction b) ++
  (write_varint (zlen (transactionHashes b)) ++ enc_items (fun h => h) (transactionHashes b)).

(** * Each overload is a codec *)

Section Codecs.
Context {SI : Type} `{InputStreamLaws SI} {SO : Type} `{OutputStreamLaws SO} {B : BuildConfig}.
Local Notation codec := (codec (SI := SI) (SO := SO)).

Lemma codec_pod n : codec (fun S => @serializePod S n) (is_pod n) (fun x => x).
Proof. apply codec_binary. Qed.

Lemma codec_varint_vector :
  codec (@serializeVarintVector)
    (fun l => zlen l <= MAX_CONTAINER /\ Forall (fun x => 0 <= x < 2 ^ 32) l)
    (fun l => write_varint (zlen l) ++ enc_items write_varint l).
Proof. exact (codec_container 0 _ _ _ codec_uint32). Qed.

Lemma codec_BaseInput :
  codec (@serialize_BaseInput) (fun i => 0 <= blockIndex i < 2 ^ 32) (fun i => write_varint (blockIndex i)).
Proof.
  apply (codec_iso _ _ blockIndex Build_BaseInput _ _ _ codec_uint32); [by intros []|done|ser_parts].
Qed.

Lemma codec_KeyInput :
  codec (@serialize_KeyInput) (fun i => wf_input (InKey i)) (fun i => tail (enc_input (InKey i))).
Proof.
  refine (codec_iso _ _ (fun i => (ki_amount i, (outputIndexes i, keyImage i)))
    (fun p => Build_KeyInput p.1 p.2.1 p.2.2) _ _ _
    (codec_dep _ (fun _ => _) _ _ _ _ codec_uint64 (fun _ _ =>
      codec_dep _ (fun _ => _) _ _ _ _ codec_varint_vector (fun _ _ => codec_pod 32))) _ _ _);
    [by intros []|by intros [? []]|ser_parts].
Qed.

Lemma codec_MultisignatureInput :
  codec (@serialize_MultisignatureInput) (fun i => wf_input (InMultisignature i))
    (fun i => tail (enc_input (InMultisignature i))).
Proof.
  refine (codec_iso _ _ (fun i => (mi_amount i, (signatureCount i, (outputIndex i, mi_term i))))
    (fun p => Build_MultisignatureInput p.1 p.2.1 p.2.2.1 p.2.2.2) _ _ _
    (codec_dep _ (fun _ => _) _ _ _ _ codec_uint64 (fun _ _ =>
      codec_dep _ (fun _ => _) _ _ _ _ codec_uint8 (fun _ _ =>
      codec_dep _ (fun _ => _) _ _ _ _ codec_uint32 (fun _ _ => codec_uint32)))) _ _ _);
    [by intros []|by intros [? [? []]]|ser_parts].
Qed.

Lemma codec_KeyOutput : codec (@serialize_KeyOutput) (fun o => is_pod 32 (ko_key o)) ko_key.
Proof.
  apply (codec_iso _ _ ko_key Build_KeyOutput _ _ _ (codec_pod 32)); [by intros []|done|ser_parts].
Qed.

Lemma codec_hashes :
  codec (fun S z => serializeContainer z NULL_HASH (serializePod 32 z))
    (fun l => zlen l <= MAX_CONTAINER /\ Forall (is_pod 32) l)
    (fun l => write_varint (zlen l) ++ enc_items (fun k => k) l).
Proof. exact (codec_container NULL_HASH _ _ _ (codec_pod 32)). Qed.

Lemma codec_MultisignatureOutput :
  codec (@serialize_MultisignatureOutput) (fun m => wf_target (OutMultisignature m))
    (fun m => tail (enc_target (OutMultisignature m))).
Proof.
  refine (codec_iso _ _ (fun i => (mo_keys i, (requiredSignatureCount i, mo_term i)))
    (fun p => Build_MultisignatureOutput p.1 p.2.1 p.2.2) _ _ _
    (codec_dep _ (fun _ => _) _ _ _ _ codec_hashes (fun _ _ =>
      codec_dep _ (fun _ => _) _ _ _ _ codec_uint8 (fun _ _ => codec_uint32))) _ _ _);
    [by intros []|by intros [? []]|ser_parts].
Qed.

Lemma le_combine_1 b : le_combine [b] = b.
Proof. unfold le_combine, value. cbn [foldr]. lia. Qed.

(** Reading and writing a one-byte tag. *)
Lemma codec_tag : codec (@serialize_tag) is_u8 (fun t => [t]).
Proof.
  refine (codec_iso _ _ (fun t => [t]) le_combine _ _ (fun x => x) (codec_binary 1) _ _ _).
  - intros t Ht. split; [split; [done|by constructor]|apply le_combine_1].
  - intros y [Hl Hy]. destruct y as [|b [|]]; try done. apply Forall_cons in Hy as [Hy _].
    by rewrite le_combine_1.
  - ser_parts.
Qed.

Lemma codec_nonce : codec (@serialize_nonce) (fun n => 0 <= n < 2 ^ 32) (le_split 4).
Proof.
  refine (codec_iso _ _ (le_split 4) le_combine _ _ (fun x => x) (codec_binary 4) _ _ _).
  - intros n Hn. split; [split; [done|]|by apply value_digits].
    apply (digits_ok 256 4 n). lia.
  - intros y [Hl Hy]. unfold le_combine, le_split. rewrite <- Hl. split.
    + pose proof (value_bound 256 y ltac:(lia) Hy) as V. unfold zlen in V. rewrite Hl in V. exact V.
    + by apply digits_value.
  - ser_parts.
Qed.

(** ** Variants *)

(** What both variants do: write the tag and the alternative, or read a tag and
    dispatch on it. *)
Lemma codec_variant {A} (f : serializer_of A) (tag : A -> Z) wf (body : A -> list Z)
    (put : A -> ser SO A) (get : Z -> ser SI A) :
  (forall y, f SI BinaryInputStreamSerializer y = (t ← serialize_tag BinaryInputStreamSerializer 0; get t)) ->
  (forall x, f SO BinaryOutputStreamSerializer x =
     (_ ← serialize_tag BinaryOutputStreamSerializer (tag x); put x)) ->
  (forall x, is_u8 (tag x)) ->
  (forall x, wf x -> bytes_ok (body x)) ->
  (forall x s, wf x -> exists s', put x s = Ok (x, s') /\ written s' = written s ++ body x) ->
  (forall x s rest, wf x -> in_sane s -> bytes_ok rest -> pending s = body x ++ rest ->
     exists s', get (tag x) s = Ok (x, s') /\ in_sane s' /\ pending s' = rest) ->
  (forall t s, in_sane s -> bytes_ok (pending s) ->
     match get t s with
     | Ok (x, s') => t = tag x /\ wf x /\ in_sane s' /\ pending s = body x ++ pending s'
     | Throw e => e = runtime_error
     | _ => False
     end) ->
  codec f wf (fun x => tag x :: body x).
Proof.
  intros Ei Eo Ht Hb Hp Hg Htot. split.
  - intros x Hx. constructor; [apply Ht|by apply Hb].
  - intros x s Hx. rewrite Eo. unfold mbind, ser_bind.
    destruct (codec_write _ _ _ codec_tag (tag x) s (Ht x)) as (s1 & -> & E1). cbn.
    destruct (Hp x s1 Hx) as (s2 & -> & E2). exists s2. by rewrite E2, E1, <- app_assoc.
  - intros x y s rest Hx Hs Hr Ep. rewrite Ei. unfold mbind, ser_bind.
    destruct (codec_read _ _ _ codec_tag (tag x) 0 s (body x ++ rest) (Ht x) Hs) as (s1 & -> & Hs1 & E1);
      [apply Forall_app; split; [by apply Hb|done]|done|]. by apply Hg.
  - intros y s Hs Hbs. rewrite Ei. unfold mbind, ser_bind.
    pose proof (codec_total _ _ _ codec_tag 0 s Hs Hbs) as R.
    destruct (serialize_tag _ 0 s) as [[t s1]|e| |]; try done. destruct R as (_ & Hs1 & E1).
    rewrite E1 in Hbs |- *. cbn [mbind outcome_bind].
    specialize (Htot t s1 Hs1 (bytes_ok_app_r _ _ Hbs)).
    destruct (get t s1) as [[x s2]|e| |]; try done. destruct Htot as (-> & ? & ? & ->). done.
Qed.

(** One alternative of a variant. *)
Section Alternative.
Context {A C : Type} (con : C -> A) (f : serializer_of C) (wf : C -> Prop) (enc : C -> list Z)
  (F : codec f wf enc).

Lemma alt_write c (s : SO) : wf c ->
  exists s', (v ← serialize_object BinaryOutputStreamSerializer (f SO) c; mret (con v)) s = Ok (con c, s') /\
    written s' = written s ++ enc c.
Proof.
  intros Hc. unfold mbind, ser_bind.
  destruct (codec_write _ _ _ (codec_object _ _ _ F) c s Hc) as (s' & -> & E). by exists s'.
Qed.

Lemma alt_read c d (s : SI) rest : wf c -> in_sane s -> bytes_ok rest -> pending s = enc c ++ rest ->
  exists s', (v ← serialize_object BinaryInputStreamSerializer (f SI) d; mret (con v)) s = Ok (con c, s') /\
    in_sane s' /\ pending s' = rest.
Proof.
  intros Hc Hs Hr Ep. unfold mbind, ser_bind.
  destruct (codec_read _ _ _ (codec_object _ _ _ F) c d s rest Hc Hs Hr Ep) as (s' & -> & ? & ?). by exists s'.
Qed.

Lemma alt_total d (s : SI) : in_sane s -> bytes_ok (pending s) ->
  match (v ← serialize_object BinaryInputStreamSerializer (f SI) d; mret (con v)) s with
  | Ok (x, s') => exists c, x = con c /\ wf c /\ in_sane s' /\ pending s = enc c ++ pending s'
  | Throw e => e = runtime_error
  | _ => False
  end.
Proof.
  intros Hs Hb. unfold mbind, ser_bind.
  pose proof (codec_total _ _ _ (codec_object _ _ _ F) d s Hs Hb) as R.
  cbv beta in R. destruct (serialize_object _ _ d s) as [[c s']|e| |]; try done. by exists c.
Qed.
End Alternative.

(** Decide the tag tests of a dispatch and finish with the alternative's lemma. *)
Ltac by_alternative L :=
  match goal with
  | |- match ?m with _ => _ end =>
      pose proof L as R; destruct m as [[]| | |]; try done;
      destruct R as (? & -> & ? & ? & ?); done
  end.

Lemma codec_TransactionInput : codec (@serialize_TransactionInput) wf_input enc_input.
Proof.
  apply (codec_variant _ input_tag wf_input (fun i => tail (enc_input i))
    (fun i => match i with
      | InBase v => v ← serialize_object BinaryOutputStreamSerializer serialize_BaseInput v; mret (InBase v)
      | InKey v => v ← serialize_object BinaryOutputStreamSerializer serialize_KeyInput v; mret (InKey v)
      | InMultisignature v =>
          v ← serialize_object BinaryOutputStreamSerializer serialize_MultisignatureInput v;
          mret (InMultisignature v)
      end) (getVariantValue_input BinaryInputStreamSerializer)); try done.
  - intros []; unfold is_u8; cbn; lia.
  - intros [i|i|i] Hi; [apply (codec_bytes _ _ _ codec_BaseInput i Hi)
      |apply (codec_bytes _ _ _ codec_KeyInput i Hi)|apply (codec_bytes _ _ _ codec_MultisignatureInput i Hi)].
  - intros [i|i|i] s Hi; [apply (alt_write InBase _ _ _ codec_BaseInput)
      |apply (alt_write InKey _ _ _ codec_KeyInput)
      |apply (alt_write InMultisignature _ _ _ codec_MultisignatureInput)]; done.
  - intros [i|i|i] s rest Hi Hs Hr Ep; [apply (alt_read InBase _ _ _ codec_BaseInput)
      |apply (alt_read InKey _ _ _ codec_KeyInput)
      |apply (alt_read InMultisignature _ _ _ codec_MultisignatureInput)]; done.
  - intros t s Hs Hb. unfold getVariantValue_input.
    destruct (Z.eqb_spec t 255) as [->|]; [|destruct (Z.eqb_spec t 2) as [->|];
      [|destruct (Z.eqb_spec t 3) as [->|]]]; [..|done].
    + by_alternative (alt_total InBase _ _ _ codec_BaseInput {| blockIndex := 0 |} s Hs Hb).
    + by_alternative (alt_total InKey _ _ _ codec_KeyInput
        {| ki_amount := 0; outputIndexes := []; keyImage := NULL_HASH |} s Hs Hb).
    + by_alternative (alt_total InMultisignature _ _ _ codec_MultisignatureInput
        {| mi_amount := 0; signatureCount := 0; outputIndex := 0; mi_term := 0 |} s Hs Hb).
Qed.

Lemma codec_TransactionOutputTarget : codec (@serialize_TransactionOutputTarget) wf_target enc_target.
Proof.
  apply (codec_variant _ output_tag wf_target (fun i => tail (enc_target i))
    (fun i => match i with
      | OutKey v => v ← serialize_object BinaryOutputStreamSerializer serialize_KeyOutput v; mret (OutKey v)
      | OutMultisignature v =>
          v ← serialize_object BinaryOutputStreamSerializer serialize_MultisignatureOutput v;
          mret (OutMultisignature v)
      end) (getVariantValue_output BinaryInputStreamSerializer)); try done.
  - intros []; unfold is_u8; cbn; lia.
  - intros [i|i] Hi; [apply (codec_bytes _ _ _ codec_KeyOutput i Hi)
      |apply (codec_bytes _ _ _ codec_MultisignatureOutput i Hi)].
  - intros [i|i] s Hi; [apply (alt_write OutKey _ _ _ codec_KeyOutput)
      |apply (alt_write OutMultisignature _ _ _ codec_MultisignatureOutput)]; done.
  - intros [i|i] s rest Hi Hs Hr Ep; [apply (alt_read OutKey _ _ _ codec_KeyOutput)
      |apply (alt_read OutMultisignature _ _ _ codec_MultisignatureOutput)]; done.
  - intros t s Hs Hb. unfold getVariantValue_output.
    destruct (Z.eqb_spec t 2) as [->|]; [|destruct (Z.eqb_spec t 3) as [->|]]; [..|done].
    + by_alternative (alt_total OutKey _ _ _ codec_KeyOutput {| ko_key := NULL_HASH |} s Hs Hb).
    + by_alternative (alt_total OutMultisignature _ _ _ codec_MultisignatureOutput
        {| mo_keys := []; requiredSignatureCount := 0; mo_term := 0 |} s Hs Hb).
Qed.

Lemma codec_TransactionOutput : codec (@serialize_TransactionOutput) wf_output enc_output.
Proof.
  refine (codec_iso _ _ (fun o => (out_amount o, target o)) (fun p => Build_TransactionOutput p.1 p.2) _ _ _
    (codec_dep _ (fun _ => _) _ _ _ _ codec_uint64 (fun _ _ =>
      codec_object _ _ _ codec_TransactionOutputTarget)) _ _ _);
    [by intros []|by intros []|ser_parts].
Qed.

(** ** Transactions *)

Lemma codec_inputs :
  codec (fun S z => serializeContainer z default_input (serialize_object z serialize_TransactionInput))
    (fun l => zlen l <= MAX_CONTAINER /\ Forall wf_input l)
    (fun l => write_varint (zlen l) ++ enc_items enc_input l).
Proof. exact (codec_container default_input _ _ _ (codec_object _ _ _ codec_TransactionInput)). Qed.

Lemma codec_outputs :
  codec (fun S z => serializeContainer z default_output (serialize_object z serialize_TransactionOutput))
    (fun l => zlen l <= MAX_CONTAINER /\ Forall wf_output l)
    (fun l => write_varint (zlen l) ++ enc_items enc_output l).
Proof. exact (codec_container default_output _ _ _ (codec_object _ _ _ codec_TransactionOutput)). Qed.

(** A [uint8_t] version that must not exceed a maximum. *)
Lemma codec_version vmax :
  0 <= vmax < 256 ->
  codec (ser_dep (@ser_uint8) (fun v => ser_guard (vmax <? v)))
    (fun p => 0 <= p.1 <= vmax) (fun p => write_varint p.1).
Proof.
  intros Hm. refine (codec_ext _ _ _ _ _ (codec_dep _ _ _ (fun v _ => (vmax <? v) = false) _ (fun _ _ => [])
    codec_uint8 (fun v _ => codec_guard _)) _ _).
  - intros [v []]. cbn [fst snd]. destruct (Z.ltb_spec vmax v); naive_solver lia.
  - intros [v []] _. by rewrite app_nil_r.
Qed.

Lemma codec_TransactionPrefix : codec (@serialize_TransactionPrefix) wf_prefix enc_prefix.
Proof.
  refine (codec_iso _ _
    (fun p => ((version p, tt), (unlockTime p, (inputs p, (outputs p, extra p)))))
    (fun p => Build_TransactionPrefix p.1.1 p.2.1 p.2.2.1 p.2.2.2.1 p.2.2.2.2) _ _ _
    (codec_dep _ (fun _ => _) _ _ _ _ (codec_version TRANSACTION_VERSION_2 ltac:(unfold TRANSACTION_VERSION_2; lia)) (fun _ _ =>
      codec_dep _ (fun _ => _) _ _ _ _ codec_uint64 (fun _ _ =>
      codec_dep _ (fun _ => _) _ _ _ _ codec_inputs (fun _ _ =>
      codec_dep _ (fun _ => _) _ _ _ _ codec_outputs (fun _ _ => codec_serializeAsBinary))))) _ _ _);
    [by intros []|by intros [[? []] [? [? []]]]|ser_parts].
Qed.

(** The vector of signatures of one input has the length its input asks for. *)
Lemma codec_input_signatures i :
  codec (fun S z => serialize_input_signatures z i)
    (fun s => length s = getSignaturesCount i /\ Forall (is_pod 64) s) (enc_items (fun s => s)).
Proof.
  destruct (codec_items _ _ _ (getSignaturesCount i) (codec_pod 64)) as (W & R & T).
  split.
  - intros s [_ Hs]. by apply (enc_items_bytes _ _ _ _ (codec_pod 64)).
  - intros x s [Hl Hx]. unfold serialize_input_signatures. cbn [type BinaryOutputStreamSerializer].
    rewrite Hl, Nat.eqb_refl. by apply W.
  - intros x y s rest [Hl Hx] Hs Hr Ep. unfold serialize_input_signatures.
    cbn [type BinaryInputStreamSerializer]. apply R; try done. apply length_replicate.
  - intros y s Hs Hb. unfold serialize_input_signatures. cbn [type BinaryInputStreamSerializer].
    apply T; try done. apply length_replicate.
Qed.

Lemma codec_signature_loop ins :
  codec (fun S z sigs => serialize_signature_loop z ins (vresize [] (length ins) sigs))
    (wf_signatures ins) enc_signatures.
Proof.
  induction ins as [|i ins IH].
  - split.
    + intros x Hx%Forall2_nil_inv_l. subst. constructor.
    + intros x s Hx%Forall2_nil_inv_l. subst. exists s. split; [done|]. by rewrite app_nil_r.
    + intros x y s rest Hx%Forall2_nil_inv_l Hs Hr Ep. subst. by exists s.
    + intros y s Hs Hb. cbn. split; [|done]. constructor.
  - refine (codec_ext _ _ _ _ _ (codec_iso _ _
      (fun l => (default [] (head l), tail l)) (fun p => p.1 :: p.2)
      (wf_signatures (i :: ins)) _ (fun p => enc_items (fun s => s) p.1 ++ enc_signatures p.2)
      (codec_dep _ (fun _ => _) _ _ _ _ (codec_input_signatures i) (fun _ _ => IH)) _ _ _) _ _).
    + intros x Hx. inversion Hx; subst. done.
    + intros [x l] [Hx Hl]. split; [by constructor|done].
    + intros S z x s. cbn [length]. rewrite vresize_S. cbn [serialize_signature_loop]. ser_cases.
    + done.
    + intros x Hx. by inversion Hx; subst.
Qed.

Lemma codec_signatures ins :
  codec (fun S z => serialize_signatures z ins) (wf_signatures ins) enc_signatures.
Proof.
  destruct (codec_signature_loop ins) as [Cb Cw Cr Ct].
  assert (Ein : forall y s, serialize_signatures (S := SI) BinaryInputStreamSerializer ins y s =
    serialize_signature_loop BinaryInputStreamSerializer ins (vresize [] (length ins) y) s).
  { intros y s. unfold serialize_signatures. cbn [type BinaryInputStreamSerializer].
    rewrite length_vresize, Nat.eqb_refl, andb_false_r. by destruct ins. }
  split.
  - exact Cb.
  - intros x s Hx. pose proof (Forall2_length _ _ _ Hx) as El.
    destruct (Cw x s Hx) as (s' & E & Ew). exists s'. split; [|done].
    rewrite El, vresize_same in E. unfold serialize_signatures. cbn [type BinaryOutputStreamSerializer].
    rewrite El, Nat.eqb_refl, andb_false_r. destruct x; [|exact E].
    apply Forall2_length in Hx. destruct ins; [|done]. done.
  - intros x y s rest. cbv beta. rewrite Ein. apply Cr.
  - intros y s. cbv beta. rewrite Ein. apply Ct.
Qed.

Lemma codec_Transaction : codec (@serialize_Transaction) wf_tx enc_tx.
Proof.
  refine (codec_iso _ _ (fun t => (prefix t, signatures t)) (fun p => Build_Transaction p.1 p.2) _ _ _
    (codec_dep _ (fun p S z => serialize_signatures z (inputs p)) _ (fun p => wf_signatures (inputs p)) _ _
      codec_TransactionPrefix (fun p _ => codec_signatures (inputs p))) _ _ _);
    [by intros []|by intros []|ser_parts].
Qed.

(** ** Blocks *)

Lemma codec_BlockHeader : codec (@serializeBlockHeader) wf_header enc_header.
Proof.
  refine (codec_iso _ _
    (fun h => ((majorVersion h, tt), (minorVersion h, (timestamp h, (previousBlockHash h, nonce h)))))
    (fun p => Build_BlockHeader p.1.1 p.2.1 p.2.2.2.2 p.2.2.1 p.2.2.2.1) _ _ _
    (codec_dep _ (fun _ => _) _ _ _ _
      (codec_version BLOCK_MAJOR_VERSION_2 ltac:(unfold BLOCK_MAJOR_VERSION_2; lia)) (fun _ _ =>
      codec_dep _ (fun _ => _) _ _ _ _ codec_uint8 (fun _ _ =>
      codec_dep _ (fun _ => _) _ _ _ _ codec_uint64 (fun _ _ =>
      codec_dep _ (fun _ => _) _ _ _ _ (codec_pod 32) (fun _ _ => codec_nonce))))) _ _ _);
    [by intros []|by intros [[? []] [? [? []]]]|ser_parts].
Qed.

Lemma codec_Block : codec (@serialize_Block) wf_block enc_block.
Proof.
  refine (codec_iso _ _ (fun b => (header b, (baseTransaction b, transactionHashes b)))
    (fun p => Build_Block p.1 p.2.1 p.2.2) _ _ _
    (codec_dep _ (fun _ => _) _ _ _ _ codec_BlockHeader (fun _ _ =>
      codec_dep _ (fun _ => _) _ _ _ _ (codec_object _ _ _ codec_Transaction) (fun _ _ => codec_hashes))) _ _ _);
    [by intros []|by intros [? []]|ser_parts].
Qed.

Lemma codec_AccountPublicAddress :
  codec (@serialize_AccountPublicAddress)
    (fun a => is_pod 32 (spendPublicKey a) /\ is_pod 32 (viewPublicKey a))
    (fun a => spendPublicKey a ++ viewPublicKey a).
Proof.
  refine (codec_iso _ _ (fun a => (spendPublicKey a, viewPublicKey a))
    (fun p => Build_AccountPublicAddress p.1 p.2) _ _ _
    (codec_dep _ (fun _ => _) _ _ _ _ (codec_pod 32) (fun _ _ => codec_pod 32)) _ _ _);
    [by intros []|by intros []|ser_parts].
Qed.
End Codecs.

(** * Whole objects *)

Section Whole.
Context {B : BuildConfig}.

Lemma endOfStream_pending (s : MemoryInputStream) :
  in_sane s -> MemoryInputStream_endOfStream s = bool_decide (pending s = []).
Proof.
  destruct s as [buf pos]. cbn. intros Hs. unfold MemoryInputStream_endOfStream. cbn.
  destruct (Nat.eqb_spec pos (length buf)) as [->|Hn].
  - symmetry. apply bool_decide_eq_true. by rewrite drop_all.
  - symmetry. apply bool_decide_eq_false. intros E%(f_equal length). rewrite length_drop in E. cbn in E. lia.
Qed.

Lemma whole_object {A} (f : serializer_of A) wf enc :
  codec (SI := MemoryInputStream) (SO := list Z) f wf enc ->
  (forall x, wf x -> toBinaryArray f x = Ok (Some (enc x))) /\
  (forall x y, wf x -> fromBinaryArray f y (enc x) = Ok (Some x)) /\
  (forall y ba, bytes_ok ba -> exists r, fromBinaryArray f y ba = Ok r /\
     forall x, r = Some x -> wf x /\ ba = enc x).
Proof.
  intros F. unfold toBinaryArray, fromBinaryArray. split_and!.
  - intros x Hx. destruct (codec_write _ _ _ F x [] Hx) as (s' & -> & E). cbn in E. by subst.
  - intros x y Hx. destruct (codec_read _ _ _ F x y (MemoryInputStream_new (enc x)) [] Hx)
      as (s' & -> & Hs' & E); [cbn; lia|constructor|cbn; by rewrite app_nil_r|].
    by rewrite endOfStream_pending, E.
  - intros y ba Hb. pose proof (codec_total _ _ _ F y (MemoryInputStream_new ba)) as R.
    cbn [pending MemoryInputStream_laws in_sane MemoryInputStream_new mis_position mis_buffer] in R.
    rewrite drop_0 in R. specialize (R ltac:(lia) Hb).
    destruct (f MemoryInputStream _ y _) as [[x s']|e| |]; try done; [|by eexists].
    destruct R as (Hx & Hs' & E). eexists. split; [done|]. rewrite endOfStream_pending by done.
    case_bool_decide as Ee; [|done]. intros ? [= <-]. split; [done|]. rewrite E.
    change (drop (mis_position s') (mis_buffer s')) with (pending s'). by rewrite Ee, app_nil_r.
Qed.

(** C32.  Transactions round-trip: a transaction whose fields are in range and that
    carries one signature per ring member of each input is written, and the
    bytes parse back to it, whatever the destination object held before. *)
Theorem transaction_roundtrip (tx junk : Transaction) :
  wf_tx tx ->
  exists ba, toBinaryArray (@serialize_Transaction) tx = Ok (Some ba) /\
    fromBinaryArray (@serialize_Transaction) junk ba = Ok (Some tx).
Proof.
  destruct (whole_object _ _ _ codec_Transaction) as (W & R & _). intros Hx.
  exists (enc_tx tx). split; [by apply W|by apply R].
Qed.

(** The transaction parser is safe and not malleable: on every byte string
    it returns or reports failure (no assertion, no undefined behaviour), and
    when it accepts, writing the parsed transaction gives back exactly the bytes
    received, so the hash computed from the object is the hash of the bytes. *)
Theorem transaction_parse_canonical (junk : Transaction) (ba : list Z) :
  bytes_ok ba ->
  fromBinaryArray (@serialize_Transaction) junk ba = Ok None \/
  exists tx, fromBinaryArray (@serialize_Transaction) junk ba = Ok (Some tx) /\
    toBinaryArray (@serialize_Transaction) tx = Ok (Some ba) /\
    length (signatures tx) = length (inputs (prefix tx)).
Proof.
  destruct (whole_object _ _ _ codec_Transaction) as (W & _ & T). intros Hb.
  destruct (T junk ba Hb) as ([tx|] & E & HS); [right|by left].
  destruct (HS tx eq_refl) as [Hw ->]. exists tx. split_and!; [done|by apply W|].
  symmetry. apply (Forall2_length _ _ _ (proj2 Hw)).
Qed.

(** The same two facts for blocks: header, base transaction and
    transaction hashes round-trip, and an accepted byte string is the unique
    encoding of the block it parses to. *)
Theorem block_wire_format (junk : Block) :
  (forall b, wf_block b -> exists ba, toBinaryArray (@serialize_Block) b = Ok (Some ba) /\
     fromBinaryArray (@serialize_Block) junk ba = Ok (Some b)) /\
  (forall ba, bytes_ok ba ->
     fromBinaryArray (@serialize_Block) junk ba = Ok None \/
     exists b, fromBinaryArray (@serialize_Block) junk ba = Ok (Some b) /\
       toBinaryArray (@serialize_Block) b = Ok (Some ba) /\ majorVersion (header b) <= 2).
Proof.
  destruct (whole_object _ _ _ codec_Block) as (W & R & T). split.
  - intros b Hb. exists (enc_block b). split; [by apply W|by apply R].
  - intros ba Hb. destruct (T junk ba Hb) as ([b|] & E & HS); [right|by left].
    destruct (HS b eq_refl) as [Hw ->]. exists b. split_and!; [done|by apply W|]. apply Hw.
Qed.

(** A base transaction is built without signature vectors; it is written as one
    with an empty vector for its input, which is what the parser returns. *)
Lemma unsigned_transaction (p : TransactionPrefix) :
  wf_prefix p -> Forall (fun i => getSignaturesCount i = 0%nat) (inputs p) ->
  toBinaryArray (@serialize_Transaction) {| prefix := p; signatures := [] |} =
  toBinaryArray (@serialize_Transaction) {| prefix := p; signatures := replicate (length (inputs p)) [] |}.
Proof.
  intros Hp Hc. unfold toBinaryArray, serialize_Transaction, mbind, ser_bind. cbn [prefix signatures].
  destruct (codec_write (SI := MemoryInputStream) _ _ _ codec_TransactionPrefix p [] Hp) as (s1 & -> & E1).
  cbn -[serialize_signatures].
  destruct (codec_write (SI := MemoryInputStream) _ _ _ (codec_signatures (inputs p))
    (replicate (length (inputs p)) []) s1) as (s2 & E & E2).
  { clear -Hc. induction Hc; constructor; auto. }
  rewrite E. cbn. assert (s2 = s1) as ->.
  { cbn in E2. rewrite E2. clear. unfold enc_signatures.
    induction (length (inputs p)); cbn; [by rewrite app_nil_r|done]. }
  unfold serialize_signatures. cbn.
  assert (forallb (fun i => getSignaturesCount i =? 0)%nat (inputs p) = true) as ->; [|done].
  apply forallb_forall. intros i Hi. rewrite Forall_forall in Hc.
  by rewrite (Hc i) by (by apply list_elem_of_In).
Qed.
End Whole.

(** Witnesses: a version 2 transaction with a ring of two and a deposit output. *)
Definition sample_key (b : Z) : list Z := replicate 32 b.
Definition sample_tx : Transaction := {|
  prefix := {|
    version := 2; unlockTime := 300;
    inputs := [InKey {| ki_amount := 1000; outputIndexes := [7; 130]; keyImage := sample_key 5 |}];
    outputs := [{| out_amount := 900; target := OutMultisignature
                    {| mo_keys := [sample_key 9]; requiredSignatureCount := 1; mo_term := 21900 |} |};
                {| out_amount := 90; target := OutKey {| ko_key := sample_key 3 |} |}];
    extra := [1; 2; 3] |};
  signatures := [[replicate 64 17; replicate 64 18]];
|}.
Definition sample_block : Block := {|
  header := {| majorVersion := 1; minorVersion := 0; nonce := 305419896; timestamp := 1500000000;
               previousBlockHash := sample_key 77 |};
  baseTransaction := {| prefix := {| version := 1; unlockTime := 70;
      inputs := [InBase {| blockIndex := 60 |}]; outputs := []; extra := [] |}; signatures := [[]] |};
  transactionHashes := [sample_key 1; sample_key 2];
|}.

Ltac solve_wf :=
  repeat match goal with
  | |- _ /\ _ => split
  | |- Forall _ _ => constructor
  | |- Forall2 _ _ _ => constructor
  | |- is_pod _ _ => split
  | |- wf_input _ => unfold wf_input
  | |- wf_output _ => unfold wf_output, wf_target; cbn [target]
  | |- _ <= _ < _ => vm_compute; split; [done|done]
  | |- bytes_ok (sample_key _) => apply Forall_replicate
  | |- bytes_ok (replicate _ _) => apply Forall_replicate
  | |- bytes_ok _ => unfold bytes_ok
  end; unfold is_u8; cbn; try reflexivity; try lia; try done.

Lemma wf_sample_tx : wf_tx sample_tx.
Proof. unfold wf_tx, wf_prefix, wf_signatures; cbn -[Z.pow]. solve_wf. Qed.
Lemma wf_sample_block : wf_block sample_block.
Proof. unfold wf_block, wf_header, wf_tx, wf_prefix, wf_signatures; cbn -[Z.pow]. solve_wf. Qed.

Lemma transaction_roundtrip_witness :
  exists ba, toBinaryArray (B := debug_build) (@serialize_Transaction) sample_tx = Ok (Some ba) /\
    fromBinaryArray (B := debug_build) (@serialize_Transaction) sample_tx ba = Ok (Some sample_tx).
Proof. exact (transaction_roundtrip (B := debug_build) sample_tx sample_tx wf_sample_tx). Defined.

Lemma transaction_parse_canonical_witness :
  fromBinaryArray (B := debug_build) (@serialize_Transaction) sample_tx [3; 0; 0; 0; 0] = Ok None /\
  (fromBinaryArray (B := debug_build) (@serialize_Transaction) sample_tx [1; 0; 0; 0; 0] = Ok None \/
  exists tx, fromBinaryArray (B := debug_build) (@serialize_Transaction) sample_tx [1; 0; 0; 0; 0] = Ok (Some tx) /\
    toBinaryArray (B := debug_build) (@serialize_Transaction) tx = Ok (Some [1; 0; 0; 0; 0]) /\
    length (signatures tx) = length (inputs (prefix tx))).
Proof.
  split; [vm_compute; reflexivity|].
  apply (transaction_parse_canonical (B := debug_build) sample_tx).
  repeat constructor; unfold is_u8; lia.
Defined.

Lemma block_wire_format_witness :
  exists ba, toBinaryArray (B := debug_build) (@serialize_Block) sample_block = Ok (Some ba) /\
     fromBinaryArray (B := debug_build) (@serialize_Block) sample_block ba = Ok (Some sample_block).
Proof. exact (proj1 (block_wire_format (B := debug_build) sample_block) sample_block wf_sample_block). Defined.
