(* ===== verification/TransactionExtra.v ===== *)
(** The [extra] field of transactions: [CryptoNoteCore/TransactionExtra.cpp] and
    the serializer of the merge mining tag ([CryptoNoteSerialization.cpp]).

    The parser fills its output vector as it goes, so it returns the fields
    parsed so far together with its verdict; some callers ignore the verdict.
    Message encryption takes the key derivation, the hash and the cipher as
    parameters. *)
From S2P Require Import Prelude Varint Stream StringTools CryptoNote Serializer Serialization.

Definition TX_EXTRA_PADDING_MAX_COUNT : Z := 255.
Definition TX_EXTRA_NONCE_MAX_COUNT : Z := 255.
Definition TX_EXTRA_TAG_PADDING : Z := 0.
Definition TX_EXTRA_TAG_PUBKEY : Z := 1.
Definition TX_EXTRA_NONCE : Z := 2.
Definition TX_EXTRA_MERGE_MINING_TAG : Z := 3.
Definition TX_EXTRA_MESSAGE_TAG : Z := 4.
Definition TX_EXTRA_TTL : Z := 5.
Definition TX_EXTRA_NONCE_PAYMENT_ID : Z := 0.

Record TransactionExtraMergeMiningTag := { depth : Z; merkleRoot : list Z }.

Inductive TransactionExtraField :=
| ExtraPadding (size : Z)
| ExtraPublicKey (publicKey : list Z)
| ExtraNonce (nonce : list Z)
| ExtraMergeMiningTag (tag : TransactionExtraMergeMiningTag)
| ExtraMessage (data : list Z)
| ExtraTTL (ttl : Z).

#[export] Instance TransactionExtraMergeMiningTag_eq_dec : EqDecision TransactionExtraMergeMiningTag.
Proof. solve_decision. Defined.
#[export] Instance TransactionExtraField_eq_dec : EqDecision TransactionExtraField.
Proof. solve_decision. Defined.

(** * The merge mining tag is a string that holds its serialization *)

Definition doSerialize {S} (serializer : ISerializer S) (tag : TransactionExtraMergeMiningTag)
  : ser S TransactionExtraMergeMiningTag :=
  d ← ser_uint64 serializer (depth tag);
  r ← serializePod 32 serializer (merkleRoot tag);
  mret {| depth := d; merkleRoot := r |}.

Section MergeMiningTag.
Context {B : BuildConfig}.

(** The result of a computation on a nested stream, in the outer one. *)
Definition nested {S A T} (r : outcome (A * T)) (k : A -> T -> ser S A) : ser S A :=
  match r with
  | Ok (a, t) => k a t
  | Throw e => ser_throw e
  | AssertFailed => fun _ => AssertFailed
  | Undefined => fun _ => Undefined
  end.

Definition serialize_MergeMiningTag {S} (serializer : ISerializer S) (tag : TransactionExtraMergeMiningTag)
  : ser S TransactionExtraMergeMiningTag :=
  match type serializer with
  | OUTPUT =>
      nested (doSerialize (S := list Z) BinaryOutputStreamSerializer tag [])
        (fun t field => _ ← ser_string serializer field; mret t)
  | INPUT =>
      field ← ser_string serializer [];
      nested (doSerialize (S := MemoryInputStream) BinaryInputStreamSerializer tag (MemoryInputStream_new field))
        (fun t _ => mret t)
  end.

Definition serialize_message {S} (serializer : ISerializer S) (data : list Z) : ser S (list Z) :=
  ser_string serializer data.

(** * Parsing *)

Local Notation ar := (BinaryInputStreamSerializer (S := MemoryInputStream)).

(** The [for] loop over padding: [None] at a non-zero byte, else the count.  Its
    counter runs from 1 to 256 at most. *)
Fixpoint padding_loop (fuel : nat) (size : Z) (iss : MemoryInputStream)
  : outcome (option Z * MemoryInputStream) :=
  match fuel with
  | O => Ok (Some size, iss)
  | Datatypes.S fuel =>
      if negb (MemoryInputStream_endOfStream iss) && (size <=? TX_EXTRA_PADDING_MAX_COUNT) then
        '(b, iss) ← read_uint8 iss;
        if negb (b =? 0) then Ok (None, iss) else padding_loop fuel (size + 1) iss
      else Ok (Some size, iss)
  end.

(** The primitives of StreamTools on this stream. *)
Definition get_uint8 : ser MemoryInputStream Z := read_uint8.
Definition get_bytes (n : nat) : ser MemoryInputStream (list Z) := fun s => read s n.
Definition get_varint (w : Z) : ser MemoryInputStream Z := readVarint w.

(** One iteration of the parser: [None] where it returns false, [Some None] at
    an unknown tag, which is skipped. *)
Definition parse_field : ser MemoryInputStream (option (option TransactionExtraField)) :=
  c ← get_uint8;
  if c =? TX_EXTRA_TAG_PADDING then
    r ← (padding_loop 256 1 : ser MemoryInputStream (option Z));
    match r with
    | None => mret None
    | Some size => if TX_EXTRA_PADDING_MAX_COUNT <? size then mret None
                   else mret (Some (Some (ExtraPadding size)))
    end
  else if c =? TX_EXTRA_TAG_PUBKEY then
    k ← serializePod 32 ar NULL_HASH; mret (Some (Some (ExtraPublicKey k)))
  else if c =? TX_EXTRA_NONCE then
    size ← get_uint8;
    if 0 <? size then
      n ← get_bytes (Z.to_nat size); mret (Some (Some (ExtraNonce n)))
    else mret (Some (Some (ExtraNonce [])))
  else if c =? TX_EXTRA_MERGE_MINING_TAG then
    t ← serialize_object ar serialize_MergeMiningTag {| depth := 0; merkleRoot := NULL_HASH |};
    mret (Some (Some (ExtraMergeMiningTag t)))
  else if c =? TX_EXTRA_MESSAGE_TAG then
    d ← ser_string ar []; mret (Some (Some (ExtraMessage d)))
  else if c =? TX_EXTRA_TTL then
    _ ← get_varint 8;
    ttl ← get_varint 64;
    mret (Some (Some (ExtraTTL ttl)))
  else mret (Some None).

(** The [while] loop inside the [try]; every iteration reads a byte, so the
    number of bytes left is enough fuel ([parse_loop_fuel]). *)
Fixpoint parse_loop (fuel : nat) (iss : MemoryInputStream) (fields : list TransactionExtraField)
  : outcome (bool * list TransactionExtraField) :=
  match fuel with
  | O => Ok (true, fields)
  | Datatypes.S fuel =>
      if MemoryInputStream_endOfStream iss then Ok (true, fields) else
      match parse_field iss with
      | Ok (None, _) => Ok (false, fields)
      | Ok (Some None, iss) => parse_loop fuel iss fields
      | Ok (Some (Some f), iss) => parse_loop fuel iss (fields ++ [f])
      | Throw _ => Ok (false, fields)
      | AssertFailed => AssertFailed
      | Undefined => Undefined
      end
  end.

Definition parseTransactionExtra (extra : list Z) : outcome (bool * list TransactionExtraField) :=
  if (length extra =? 0)%nat then Ok (true, [])
  else parse_loop (length extra) (MemoryInputStream_new extra) [].

(** * Writing *)

Definition addTransactionPublicKeyToExtra (extra key : list Z) : list Z :=
  extra ++ [TX_EXTRA_TAG_PUBKEY] ++ key.

(** [None] when it returns false. *)
Definition addExtraNonceToTransactionExtra (extra nonce : list Z) : option (list Z) :=
  if TX_EXTRA_NONCE_MAX_COUNT <? zlen nonce then None
  else Some (extra ++ [TX_EXTRA_NONCE; u8 (zlen nonce)] ++ nonce).

Definition appendMergeMiningTagToExtra (extra : list Z) (tag : TransactionExtraMergeMiningTag)
  : outcome (option (list Z)) :=
  r ← toBinaryArray (@serialize_MergeMiningTag) tag;
  Ok (blob ← r; Some (extra ++ [TX_EXTRA_MERGE_MINING_TAG] ++ blob)).

Definition append_message_to_extra (extra data : list Z) : outcome (option (list Z)) :=
  r ← toBinaryArray (@serialize_message) data;
  Ok (blob ← r; Some (extra ++ [TX_EXTRA_MESSAGE_TAG] ++ blob)).

Definition appendTTLToExtra (extra : list Z) (ttl : Z) : list Z :=
  let ttlData := write_varint ttl in
  extra ++ [TX_EXTRA_TTL] ++ write_varint (zlen ttlData) ++ ttlData.

(** [ExtraSerializerVisitor]. *)
Definition write_field (extra : list Z) (f : TransactionExtraField) : outcome (option (list Z)) :=
  match f with
  | ExtraPadding size =>
      Ok (if TX_EXTRA_PADDING_MAX_COUNT <? size then None else Some (extra ++ replicate (Z.to_nat size) 0))
  | ExtraPublicKey k => Ok (Some (addTransactionPublicKeyToExtra extra k))
  | ExtraNonce n => Ok (addExtraNonceToTransactionExtra extra n)
  | ExtraMergeMiningTag t => appendMergeMiningTagToExtra extra t
  | ExtraMessage d => append_message_to_extra extra d
  | ExtraTTL ttl => Ok (Some (appendTTLToExtra extra ttl))
  end.

(** [writeTransactionExtra]: [None] when it returns false. *)
Fixpoint writeTransactionExtra (extra : list Z) (fields : list TransactionExtraField) : outcome (option (list Z)) :=
  match fields with
  | [] => Ok (Some extra)
  | f :: fields =>
      r ← write_field extra f;
      match r with Some extra => writeTransactionExtra extra fields | None => Ok None end
  end.

(** * Lookups *)

(** [findTransactionExtraFieldByType]: the first field of the type. *)
Fixpoint find_field {A} (get : TransactionExtraField -> option A) (fields : list TransactionExtraField) : option A :=
  match fields with
  | [] => None
  | f :: fields => match get f with Some a => Some a | None => find_field get fields end
  end.
Definition as_publicKey f := match f with ExtraPublicKey k => Some k | _ => None end.
Definition as_nonce f := match f with ExtraNonce n => Some n | _ => None end.
Definition as_mergeMiningTag f := match f with ExtraMergeMiningTag t => Some t | _ => None end.

(** The verdict of the parser is not looked at. *)
Definition getTransactionPublicKeyFromExtra (extra : list Z) : outcome (list Z) :=
  '(_, fields) ← parseTransactionExtra extra;
  Ok (default NULL_HASH (find_field as_publicKey fields)).

Definition getMergeMiningTagFromExtra (extra : list Z) : outcome (option TransactionExtraMergeMiningTag) :=
  '(_, fields) ← parseTransactionExtra extra;
  Ok (find_field as_mergeMiningTag fields).

Definition setPaymentIdToTransactionExtraNonce (payment_id : list Z) : list Z :=
  TX_EXTRA_NONCE_PAYMENT_ID :: payment_id.

Definition getPaymentIdFromTransactionExtraNonce (nonce : list Z) : option (list Z) :=
  if negb (33 =? zlen nonce) then None
  else match nonce with
       | t :: id => if negb (TX_EXTRA_NONCE_PAYMENT_ID =? t) then None else Some id
       | [] => None
       end.

(** [Common::podFromHex] into a [Hash]. *)
Definition parsePaymentId (text : list Z) : option (list Z) :=
  match fromHex_buffer text 32 with
  | Some id => if zlen id =? 32 then Some id else None
  | None => None
  end.

Definition createTxExtraWithPaymentId (text extra : list Z) : option (list Z) :=
  id ← parsePaymentId text;
  addExtraNonceToTransactionExtra extra (setPaymentIdToTransactionExtraNonce id).

Definition getPaymentIdFromTxExtra (extra : list Z) : outcome (option (list Z)) :=
  '(ok, fields) ← parseTransactionExtra extra;
  Ok (if ok : bool
      then n ← find_field as_nonce fields; getPaymentIdFromTransactionExtraNonce n
      else None).
End MergeMiningTag.

(** * Messages *)

Section Messages.
Context {B : BuildConfig}.
Variable generate_key_derivation : list Z -> list Z -> option (list Z).
Variable cn_fast_hash : list Z -> list Z.
Variable chacha8 : list Z -> list Z -> list Z -> list Z.

Definition TX_EXTRA_MESSAGE_CHECKSUM_SIZE : nat := 4.

(** The key: hash of the derivation followed by the two magic bytes. *)
Definition message_key (derivation : list Z) : list Z := cn_fast_hash (derivation ++ [128; 0]).

Definition encrypt (index : Z) (message : list Z) (recipient : option AccountPublicAddress) (secretKey : list Z)
  : option (list Z) :=
  let buf := message ++ replicate TX_EXTRA_MESSAGE_CHECKSUM_SIZE 0 in
  match recipient with
  | None => Some buf
  | Some r =>
      derivation ← generate_key_derivation (spendPublicKey r) secretKey;
      Some (chacha8 buf (message_key derivation) (le_split 8 index))
  end.

Definition decrypt (index : Z) (txkey : list Z) (recepient_secret_key : option (list Z)) (data : list Z)
  : option (list Z) :=
  if (length data <? TX_EXTRA_MESSAGE_CHECKSUM_SIZE)%nat then None else
  buf ← (match recepient_secret_key with
         | Some k =>
             derivation ← generate_key_derivation txkey k;
             Some (chacha8 data (message_key derivation) (le_split 8 index))
         | None => Some data
         end);
  let mlen := (length data - TX_EXTRA_MESSAGE_CHECKSUM_SIZE)%nat in
  if forallb (fun b => b =? 0) (take TX_EXTRA_MESSAGE_CHECKSUM_SIZE (drop mlen buf))
  then Some (take mlen buf) else None.

(** The index passed to [decrypt] counts the messages met. *)
Fixpoint decrypt_fields (i : Z) (txkey : list Z) (key : option (list Z)) (fields : list TransactionExtraField)
  : list (list Z) :=
  match fields with
  | [] => []
  | ExtraMessage d :: fields =>
      match decrypt i txkey key d with Some m => [m] | None => [] end ++ decrypt_fields (i + 1) txkey key fields
  | _ :: fields => decrypt_fields i txkey key fields
  end.

Definition get_messages_from_extra (extra txkey : list Z) (key : option (list Z)) : outcome (list (list Z)) :=
  '(ok, fields) ← parseTransactionExtra extra;
  Ok (if ok : bool then decrypt_fields 0 txkey key fields else []).
End Messages.

(** * Round trip *)

Definition wf_mmtag (t : TransactionExtraMergeMiningTag) : Prop :=
  0 <= depth t < 2 ^ 64 /\ is_pod 32 (merkleRoot t).
Definition enc_mmtag (t : TransactionExtraMergeMiningTag) : list Z := write_varint (depth t) ++ merkleRoot t.

Definition wf_field (f : TransactionExtraField) : Prop :=
  match f with
  | ExtraPadding size => 1 <= size <= TX_EXTRA_PADDING_MAX_COUNT
  | ExtraPublicKey k => is_pod 32 k
  | ExtraNonce n => zlen n <= TX_EXTRA_NONCE_MAX_COUNT /\ bytes_ok n
  | ExtraMergeMiningTag t => wf_mmtag t
  | ExtraMessage d => zlen d <= MAX_CONTAINER /\ bytes_ok d
  | ExtraTTL ttl => 0 <= ttl < 2 ^ 64
  end.

Definition enc_field (f : TransactionExtraField) : list Z :=
  match f with
  | ExtraPadding size => replicate (Z.to_nat size) 0
  | ExtraPublicKey k => TX_EXTRA_TAG_PUBKEY :: k
  | ExtraNonce n => TX_EXTRA_NONCE :: zlen n :: n
  | ExtraMergeMiningTag t => TX_EXTRA_MERGE_MINING_TAG :: write_varint (zlen (enc_mmtag t)) ++ enc_mmtag t
  | ExtraMessage d => TX_EXTRA_MESSAGE_TAG :: write_varint (zlen d) ++ d
  | ExtraTTL ttl => TX_EXTRA_TTL :: write_varint (zlen (write_varint ttl)) ++ write_varint ttl
  end.

(** Padding runs to the end of the field, so it can only come last. *)
Fixpoint padding_last (fields : list TransactionExtraField) : Prop :=
  match fields with
  | [] | [_] => True
  | f :: fields => match f with ExtraPadding _ => False | _ => True end /\ padding_last fields
  end.

Section RoundTrip.
Context {B : BuildConfig}.
Local Notation MIS := MemoryInputStream.

Lemma codec_doSerialize {SI : Type} `{InputStreamLaws SI} {SO : Type} `{OutputStreamLaws SO} :
  codec (SI := SI) (SO := SO) (@doSerialize) wf_mmtag enc_mmtag.
Proof.
  refine (codec_iso _ _ (fun t => (depth t, merkleRoot t)) (fun p => Build_TransactionExtraMergeMiningTag p.1 p.2) _ _ _
    (codec_dep _ (fun _ => _) _ _ _ _ codec_uint64 (fun _ _ => codec_pod 32)) _ _ _);
    [by intros []|by intros []|ser_parts].
Qed.

Lemma codec_string : codec (SI := MIS) (SO := list Z) (@ser_string)
  (fun l => zlen l <= MAX_CONTAINER /\ bytes_ok l) (fun l => write_varint (zlen l) ++ l).
Proof. by apply codec_blob. Qed.

Lemma write_varint_length v : 0 <= v < 2 ^ 64 -> zlen (write_varint v) <= 10.
Proof.
  intros Hv. assert (G : forall n v, 0 <= v < 2 ^ (7 * Z.of_nat (S n)) -> zlen (write_varint v) <= Z.of_nat (S n)).
  { clear. induction n as [|n IH]; intros v Hv; rewrite write_varint_eq by lia.
    - destruct (Z.ltb_spec v 128); [done|]. change (2 ^ (7 * Z.of_nat 1)) with 128 in Hv. lia.
    - destruct (Z.ltb_spec v 128); [change (zlen [v]) with 1; lia|]. rewrite zlen_cons.
      specialize (IH (v / 128)). rewrite (Nat2Z.inj_succ (S n)) in Hv |- *.
      replace (7 * Z.succ (Z.of_nat (S n))) with (7 + 7 * Z.of_nat (S n)) in Hv by lia.
      rewrite Z.pow_add_r in Hv by lia. change (2 ^ 7) with 128 in Hv.
      assert (0 <= v / 128 < 2 ^ (7 * Z.of_nat (S n)))
        by (split; [apply Z.div_pos; lia|apply Z.div_lt_upper_bound; lia]). specialize (IH ltac:(lia)). lia. }
  apply (G 9%nat). change (7 * Z.of_nat 10) with 70. assert (2 ^ 64 < 2 ^ 70) by (apply Z.pow_lt_mono_r; lia). lia.
Qed.

Lemma enc_mmtag_ok t : wf_mmtag t -> zlen (enc_mmtag t) <= 42 /\ bytes_ok (enc_mmtag t).
Proof.
  intros [Hd [Hl Hb]]. unfold enc_mmtag. rewrite zlen_app. pose proof (write_varint_length _ Hd).
  split; [unfold zlen at 2; rewrite Hl; lia|]. apply Forall_app. split; [apply write_varint_bytes; lia|done].
Qed.

Lemma codec_MergeMiningTag_write t :
  wf_mmtag t -> toBinaryArray (@serialize_MergeMiningTag B) t =
    Ok (Some (write_varint (zlen (enc_mmtag t)) ++ enc_mmtag t)).
Proof.
  intros Ht. unfold toBinaryArray, serialize_MergeMiningTag.
  change (type (S := list Z) BinaryOutputStreamSerializer) with OUTPUT. cbv iota.
  destruct (codec_write (SI := MIS) _ _ _ codec_doSerialize t [] Ht) as (s1 & -> & E1). cbn [nested].
  unfold mbind, ser_bind. cbn [written VectorOutputStream_laws app] in E1. subst s1. destruct (enc_mmtag_ok t Ht) as [Hl Hb].
  destruct (codec_write _ _ _ codec_string (enc_mmtag t) []) as (s2 & -> & E2);
    [split; [unfold MAX_CONTAINER; lia|done]|].
  cbn [written VectorOutputStream_laws app] in E2. by subst.
Qed.

Lemma MergeMiningTag_read t y (s : MIS) rest :
  wf_mmtag t -> in_sane s -> bytes_ok rest ->
  pending s = (write_varint (zlen (enc_mmtag t)) ++ enc_mmtag t) ++ rest ->
  exists s', serialize_MergeMiningTag BinaryInputStreamSerializer y s = Ok (t, s') /\ in_sane s' /\ pending s' = rest.
Proof.
  intros Ht Hs Hr Ep. unfold serialize_MergeMiningTag.
  change (type (S := MIS) BinaryInputStreamSerializer) with INPUT. cbv iota.
  destruct (enc_mmtag_ok t Ht) as [Hl Hb]. unfold mbind, ser_bind.
  destruct (codec_read _ _ _ codec_string (enc_mmtag t) [] s rest) as (s1 & -> & Hs1 & E1);
    try done; [split; [unfold MAX_CONTAINER; lia|done]|]. cbn [mbind outcome_bind].
  destruct (codec_read (SO := list Z) _ _ _ codec_doSerialize t y (MemoryInputStream_new (enc_mmtag t)) [])
    as (s2 & -> & _); [done|cbn; lia|constructor|by rewrite app_nil_r|]. by exists s1.
Qed.

Lemma write_field_spec extra f : wf_field f -> write_field extra f = Ok (Some (extra ++ enc_field f)).
Proof.
  destruct f as [size|k|n|t|d|ttl]; cbn [wf_field write_field enc_field]; intros Hf.
  - destruct (Z.ltb_spec TX_EXTRA_PADDING_MAX_COUNT size); [lia|done].
  - done.
  - unfold addExtraNonceToTransactionExtra. destruct (Z.ltb_spec TX_EXTRA_NONCE_MAX_COUNT (zlen n)); [lia|].
    rewrite u8_small; [done|]. pose proof (zlen_nonneg n). unfold TX_EXTRA_NONCE_MAX_COUNT in *. wunfold. lia.
  - unfold appendMergeMiningTagToExtra. by rewrite codec_MergeMiningTag_write.
  - unfold append_message_to_extra, toBinaryArray, serialize_message.
    destruct (codec_write _ _ _ codec_string d [] Hf) as (s & -> & E). cbn [written VectorOutputStream_laws app] in E. by subst.
  - done.
Qed.

Lemma writeTransactionExtra_spec extra fields :
  Forall wf_field fields -> writeTransactionExtra extra fields = Ok (Some (extra ++ enc_items enc_field fields)).
Proof.
  intros HF. revert extra. induction HF as [|f fields Hf HF IH]; intros extra.
  - cbn. by rewrite app_nil_r.
  - cbn [writeTransactionExtra]. rewrite write_field_spec by done. cbn [mbind outcome_bind].
    rewrite IH. unfold enc_items. cbn [map concat]. by rewrite app_assoc.
Qed.

Lemma enc_field_bytes f : wf_field f -> bytes_ok (enc_field f).
Proof.
  assert (Hnn : forall l : list Z, 0 <= zlen l) by (intros; apply zlen_nonneg).
  destruct f as [size|k|n|t|d|ttl]; cbn [wf_field enc_field]; intros Hf.
  - apply Forall_replicate. unfold is_u8. lia.
  - constructor; [by vm_compute|apply Hf].
  - destruct Hf. constructor; [by vm_compute|]. constructor; [|done].
    specialize (Hnn n). unfold TX_EXTRA_NONCE_MAX_COUNT in *. unfold is_u8. lia.
  - constructor; [by vm_compute|]. apply Forall_app. split; [apply write_varint_bytes, Hnn|by apply enc_mmtag_ok].
  - constructor; [by vm_compute|]. apply Forall_app. split; [apply write_varint_bytes, Hnn|apply Hf].
  - constructor; [by vm_compute|]. apply Forall_app. split; apply write_varint_bytes; [apply Hnn|lia].
Qed.

Lemma get_uint8_next (s : MIS) b rest :
  in_sane s -> pending s = b :: rest -> exists s', get_uint8 s = Ok (b, s') /\ in_sane s' /\ pending s' = rest.
Proof. intros Hs Ep. pose proof (read_uint8_spec s Hs) as R. rewrite Ep in R. exact R. Qed.

Lemma get_bytes_next (s : MIS) d rest :
  in_sane s -> pending s = d ++ rest -> exists s', get_bytes (length d) s = Ok (d, s') /\ in_sane s' /\ pending s' = rest.
Proof.
  intros Hs Ep. pose proof (read_exact s (length d) Hs) as R. rewrite Ep, length_app in R.
  destruct (Nat.leb_spec (length d) (length d + length rest)); [|lia].
  by rewrite take_app_length, drop_app_length in R.
Qed.

Lemma get_varint_next w v (s : MIS) rest :
  0 < w <= 64 -> 0 <= v < 2 ^ w -> in_sane s -> bytes_ok rest -> pending s = write_varint v ++ rest ->
  exists s', get_varint w s = Ok (v, s') /\ in_sane s' /\ pending s' = rest.
Proof. intros. by apply (readVarint_next w v s rest). Qed.

(** Reading one field that is not padding. *)
Lemma parse_field_next f (s : MIS) rest :
  wf_field f -> (forall n, f <> ExtraPadding n) -> in_sane s -> bytes_ok rest ->
  pending s = enc_field f ++ rest ->
  exists s', parse_field s = Ok (Some (Some f), s') /\ in_sane s' /\ pending s' = rest.
Proof.
  intros Hf Hp Hs Hr Ep. unfold parse_field, mbind, ser_bind.
  destruct f as [size|k|n|t|d|ttl]; cbn [wf_field enc_field app] in *; [by destruct (Hp size)|..];
    edestruct (get_uint8_next s) as (s1 & -> & Hs1 & E1); try done; cbn [mbind outcome_bind];
    unfold TX_EXTRA_TAG_PADDING, TX_EXTRA_TAG_PUBKEY, TX_EXTRA_NONCE, TX_EXTRA_MERGE_MINING_TAG,
      TX_EXTRA_MESSAGE_TAG, TX_EXTRA_TTL; cbn [Z.eqb Pos.eqb].
  - destruct (codec_read (SO := list Z) _ _ _ (codec_pod 32) k NULL_HASH s1 rest) as (s2 & -> & ? & ?); try done.
    by exists s2.
  - destruct Hf as [Hn Hb]. cbn [mbind ser_bind].
    edestruct (get_uint8_next s1) as (s2 & -> & Hs2 & E2); try done. cbn [mbind outcome_bind].
    destruct (Z.ltb_spec 0 (zlen n)) as [Hpos|Hz].
    + destruct (get_bytes_next s2 n rest) as (s3 & E3 & ? & ?); try done.
      replace (Z.to_nat (zlen n)) with (length n) by (unfold zlen; lia). rewrite E3. by exists s3.
    + assert (n = []) as -> by (destruct n; [done|rewrite zlen_cons in Hz; pose proof (zlen_nonneg n); lia]).
      by exists s2.
  - unfold serialize_object, mbind, ser_bind.
    cbn [beginObject endObject BinaryInputStreamSerializer mret ser_ret mbind outcome_bind].
    destruct (MergeMiningTag_read t {| depth := 0; merkleRoot := NULL_HASH |} s1 rest) as (s2 & -> & ? & ?); try done.
    by exists s2.
  - destruct (codec_read _ _ _ codec_string d [] s1 rest) as (s2 & -> & ? & ?); try done. by exists s2.
  - pose proof (write_varint_length ttl Hf). rewrite <- app_assoc in E1.
    destruct (get_varint_next 8 (zlen (write_varint ttl)) s1 (write_varint ttl ++ rest)) as (s2 & -> & Hs2 & E2);
      [lia|pose proof (zlen_nonneg (write_varint ttl)); lia|done| |done|].
    { apply Forall_app. split; [apply write_varint_bytes; lia|done]. }
    cbn [mbind outcome_bind]. destruct (get_varint_next 64 ttl s2 rest) as (s3 & -> & ? & ?); try done.
    by exists s3.
Qed.

Lemma padding_loop_spec n fuel size (s : MIS) :
  in_sane s -> pending s = replicate n 0 -> (n < fuel)%nat -> size + Z.of_nat n <= 255 ->
  exists s', padding_loop fuel size s = Ok (Some (size + Z.of_nat n), s') /\ in_sane s' /\ pending s' = [].
Proof.
  revert fuel size s. induction n as [|n IH]; intros fuel size s Hs Ep Hf Hsz;
    (destruct fuel as [|fuel]; [lia|]); cbn [padding_loop];
    rewrite endOfStream_pending, Ep by done.
  - cbn. exists s. rewrite Z.add_0_r. done.
  - rewrite bool_decide_eq_false_2 by done. unfold TX_EXTRA_PADDING_MAX_COUNT.
    destruct (Z.leb_spec size 255); [|lia]. cbn [negb andb].
    destruct (get_uint8_next s 0 (replicate n 0) Hs Ep) as (s1 & R & Hs1 & E1).
    unfold get_uint8 in R. rewrite R. cbn [mbind outcome_bind Z.eqb negb].
    destruct (IH fuel (size + 1) s1) as (s2 & -> & ? & ?); try done; try lia.
    exists s2. split; [|done]. do 3 f_equal. lia.
Qed.

Lemma parse_padding size (s : MIS) :
  1 <= size <= 255 -> in_sane s -> pending s = replicate (Z.to_nat size) 0 ->
  exists s', parse_field s = Ok (Some (Some (ExtraPadding size)), s') /\ in_sane s' /\ pending s' = [].
Proof.
  intros Hsz Hs Ep. destruct (Z.to_nat size) as [|n] eqn:En; [lia|].
  unfold parse_field, mbind, ser_bind. destruct (get_uint8_next s 0 (replicate n 0) Hs Ep) as (s1 & -> & Hs1 & E1).
  cbn [mbind outcome_bind TX_EXTRA_TAG_PADDING Z.eqb].
  destruct (padding_loop_spec n 256 1 s1) as (s2 & -> & ? & ?); try done; try lia. cbn [mbind outcome_bind].
  unfold TX_EXTRA_PADDING_MAX_COUNT. destruct (Z.ltb_spec 255 (1 + Z.of_nat n)); [lia|].
  exists s2. split; [|done]. unfold mret, ser_ret. do 5 f_equal. lia.
Qed.

Lemma enc_field_nonempty f : wf_field f -> (0 < length (enc_field f))%nat.
Proof.
  destruct f; cbn [wf_field enc_field]; intros Hf; cbn [length]; try lia. rewrite length_replicate. lia.
Qed.

Lemma parse_loop_spec fuel (s : MIS) acc fields :
  Forall wf_field fields -> padding_last fields -> in_sane s -> pending s = enc_items enc_field fields ->
  (length (pending s) <= fuel)%nat -> parse_loop fuel s acc = Ok (true, acc ++ fields).
Proof.
  intros HF. revert fuel s acc. induction HF as [|f fields Hf HF IH]; intros fuel s acc Hl Hs Ep Hfuel.
  { rewrite app_nil_r. destruct fuel; [done|]. cbn [parse_loop].
    rewrite endOfStream_pending, Ep by done. done. }
  assert (Hne : pending s <> []).
  { rewrite Ep. unfold enc_items. cbn [map concat]. pose proof (enc_field_nonempty f Hf).
    destruct (enc_field f); [cbn in *; lia|done]. }
  destruct fuel as [|fuel]; [destruct (pending s); [done|cbn in Hfuel; lia]|]. cbn [parse_loop].
  rewrite endOfStream_pending, bool_decide_eq_false_2 by done.
  unfold enc_items in Ep. cbn [map concat] in Ep. fold (enc_items enc_field fields) in Ep.
  assert (Hnext : exists s', parse_field s = Ok (Some (Some f), s') /\ in_sane s' /\
    pending s' = enc_items enc_field fields /\ padding_last fields).
  { assert ((exists n, f = ExtraPadding n) \/ ~ exists n, f = ExtraPadding n) as [[n ->]|Hnp]
      by (destruct f; [left; eauto|right; by intros []..]).
    - destruct fields; [|by destruct Hl]. cbn [enc_field enc_items map concat] in Ep. rewrite app_nil_r in Ep.
      destruct (parse_padding n s Hf Hs Ep) as (s' & ? & ? & ?). by exists s'.
    - assert (padding_last fields) by (destruct fields; [done|by destruct Hl]).
      destruct (parse_field_next f s (enc_items enc_field fields)) as (s' & ? & ? & ?); try done.
      + intros n ->. apply Hnp. by exists n.
      + apply Forall_concat, Forall_map. eapply Forall_impl; [exact HF|]. apply enc_field_bytes.
      + by exists s'. }
  destruct Hnext as (s' & -> & Hs' & Ep' & Hl').
  rewrite (IH fuel s' (acc ++ [f]) Hl' Hs' Ep'); [by rewrite <- app_assoc|].
  rewrite Ep in Hfuel. rewrite length_app in Hfuel. pose proof (enc_field_nonempty f Hf). rewrite Ep'. lia.
Qed.

Lemma parse_write fields :
  Forall wf_field fields -> padding_last fields ->
  parseTransactionExtra (enc_items enc_field fields) = Ok (true, fields).
Proof.
  intros HF Hl. unfold parseTransactionExtra.
  destruct (Nat.eqb_spec (length (enc_items enc_field fields)) 0) as [E|_].
  - destruct HF as [|f fields Hf HF]; [done|]. unfold enc_items in E. cbn [map concat] in E.
    rewrite length_app in E. pose proof (enc_field_nonempty f Hf). lia.
  - rewrite (parse_loop_spec _ _ [] fields); try done. cbn; lia.
Qed.

(** Transaction extra round-trips: writing any list of well-formed fields
    with padding only at the end succeeds, and the parser accepts the bytes and
    returns exactly these fields. *)
Theorem extra_roundtrip (fields : list TransactionExtraField) :
  Forall wf_field fields -> padding_last fields ->
  exists extra, writeTransactionExtra [] fields = Ok (Some extra) /\
    parseTransactionExtra extra = Ok (true, fields).
Proof.
  intros HF Hl. exists (enc_items enc_field fields).
  split; [by apply writeTransactionExtra_spec|by apply parse_write].
Qed.

(** A payment id survives: the text form of 32 bytes, turned into extra data
    after a transaction public key, is found again by [getPaymentIdFromTxExtra],
    and the key by [getTransactionPublicKeyFromExtra]. *)
Theorem payment_id_roundtrip (key id : list Z) :
  is_pod 32 key -> is_pod 32 id ->
  exists extra, createTxExtraWithPaymentId (toHex id) (addTransactionPublicKeyToExtra [] key) = Some extra /\
    getPaymentIdFromTxExtra extra = Ok (Some id) /\ getTransactionPublicKeyFromExtra extra = Ok key.
Proof.
  intros Hk Hi. destruct Hi as [Hil Hib].
  assert (Hz : zlen id = 32) by (unfold zlen; lia).
  set (fields := [ExtraPublicKey key; ExtraNonce (setPaymentIdToTransactionExtraNonce id)]).
  assert (Hz1 : zlen (setPaymentIdToTransactionExtraNonce id) = 33)
    by (unfold setPaymentIdToTransactionExtraNonce; rewrite zlen_cons; lia).
  assert (HF : Forall wf_field fields).
  { constructor; [exact Hk|]. constructor; [|constructor]. cbn [wf_field]. rewrite Hz1.
    split; [by vm_compute|]. constructor; [by vm_compute|done]. }
  assert (HP := parse_write fields HF ltac:(by split)).
  exists (enc_items enc_field fields). split_and!.
  - unfold createTxExtraWithPaymentId, parsePaymentId, fromHex_buffer.
    pose proof (zlen_toHex id) as L. rewrite (zlen_even_land _ _ L), L, Hz. cbn [negb].
    change (32 <? Z.shiftr (2 * 32) 1) with false. cbv iota.
    rewrite fromHex_pairs_toHex by done. rewrite Hz. cbn [Z.eqb Pos.eqb mbind option_bind].
    unfold addExtraNonceToTransactionExtra. rewrite Hz1.
    change (TX_EXTRA_NONCE_MAX_COUNT <? 33) with false. change (u8 33) with 33. cbv iota.
    unfold fields, enc_items. cbn [map concat enc_field]. rewrite Hz1, app_nil_r. done.
  - unfold getPaymentIdFromTxExtra. rewrite HP. cbn [mbind outcome_bind find_field fields as_nonce option_bind].
    unfold getPaymentIdFromTransactionExtraNonce. rewrite Hz1. done.
  - unfold getTransactionPublicKeyFromExtra. rewrite HP. done.
Qed.
End RoundTrip.

Definition sample_fields : list TransactionExtraField :=
  [ExtraPublicKey (sample_key 7); ExtraNonce [1; 2; 3]; ExtraTTL 1600000000;
   ExtraMergeMiningTag {| depth := 300; merkleRoot := sample_key 8 |}; ExtraMessage [104; 105]; ExtraPadding 3].

Lemma extra_roundtrip_witness :
  exists extra, writeTransactionExtra (B := debug_build) [] sample_fields = Ok (Some extra) /\
    parseTransactionExtra (B := debug_build) extra = Ok (true, sample_fields).
Proof.
  apply (extra_roundtrip (B := debug_build)); [|cbn; tauto].
  repeat constructor; try (by vm_compute); unfold is_u8; try lia.
Defined.

Lemma payment_id_roundtrip_witness :
  exists extra, createTxExtraWithPaymentId (toHex (sample_key 9)) (addTransactionPublicKeyToExtra [] (sample_key 5)) = Some extra /\
    getPaymentIdFromTxExtra (B := debug_build) extra = Ok (Some (sample_key 9)) /\
    getTransactionPublicKeyFromExtra (B := debug_build) extra = Ok (sample_key 5).
Proof.
  apply (payment_id_roundtrip (B := debug_build)); (split; [done|apply Forall_replicate; unfold is_u8; lia]).
Defined.
