(* ===== verification/Currency.v ===== *)
(** Currency rules: [CryptoNoteConfig.h], [CryptoNoteCore/Currency.cpp] and
    [getPenalizedAmount] of [CryptoNoteCore/CryptoNoteBasicImpl.cpp].

    The [Currency] object is a record of its parameters; [CurrencyBuilder] gives
    the defaults and its checked setters.  Monetary operations are written at
    64 bits with their assertions. *)
From S2P Require Import Prelude IntUtil Varint Stream StringTools CryptoNote Interest Serializer Serialization TransactionExtra.

(** * Parameters ([CryptoNoteConfig.h]) *)

Module parameters.
Definition MAX_BLOCK_NUMBER : Z := 500000000.
Definition MAX_BLOCK_BLOB_SIZE : Z := 500000000.
Definition MAX_TX_SIZE : Z := 1000000000.
Definition PUBLIC_ADDRESS_BASE58_PREFIX : Z := 0x1ca0ce.
Definition MINED_COINS_UNLOCK_WINDOW : Z := 10.
Definition DECIMAL_POINT : nat := 5.
Definition COIN : Z := 100000.
Definition MONEY_SUPPLY : Z := 30000000000000.
Definition MINIMUM_FEE : Z := 100.
Definition MINIMUM_FEE_BANKING : Z := 100.
Definition DEFAULT_DUST_THRESHOLD : Z := 10.
Definition DIFFICULTY_TARGET : Z := 120.
Definition DIFFICULTY_WINDOW : Z := 120.
Definition BLOCK_FUTURE_TIME_LIMIT : Z := 360.
Definition BLOCKCHAIN_TIMESTAMP_CHECK_WINDOW : Z := 11.
Definition DIFFICULTY_BLOCKS_COUNT : Z := DIFFICULTY_WINDOW + 1.
Definition EXPECTED_NUMBER_OF_BLOCKS_PER_DAY : Z := 24 * 60 * 60 / DIFFICULTY_TARGET.
Definition DEPOSIT_MIN_AMOUNT : Z := 1 * COIN.
Definition DEPOSIT_MIN_TERM : Z := 21900.
Definition DEPOSIT_MAX_TERM : Z := 1 * 12 * 21900.
Definition DEPOSIT_MIN_TOTAL_RATE_FACTOR : Z := 0.
Definition DEPOSIT_MAX_TOTAL_RATE : Z := 4.
Definition UPGRADE_HEIGHT : Z := 1.
Definition UPGRADE_HEIGHT_V2 : Z := 2.
Definition UPGRADE_VOTING_THRESHOLD : Z := 90.
Definition UPGRADE_VOTING_WINDOW : Z := EXPECTED_NUMBER_OF_BLOCKS_PER_DAY.
Definition UPGRADE_WINDOW : Z := EXPECTED_NUMBER_OF_BLOCKS_PER_DAY.
Definition REWARD_BLOCKS_WINDOW : Z := 100.
Definition COINBASE_BLOB_RESERVED_SIZE : Z := 600.
Definition BLOCK_GRANTED_FULL_REWARD_ZONE : Z := 100000.
Definition MAX_BLOCK_SIZE_INITIAL : Z := BLOCK_GRANTED_FULL_REWARD_ZONE * 10.
Definition MAX_BLOCK_SIZE_GROWTH_SPEED_NUMERATOR : Z := 100 * 1024.
Definition MAX_BLOCK_SIZE_GROWTH_SPEED_DENOMINATOR : Z := 365 * 24 * 60 * 60 / DIFFICULTY_TARGET.
Definition MAX_TX_SIZE_LIMIT : Z := BLOCK_GRANTED_FULL_REWARD_ZONE - COINBASE_BLOB_RESERVED_SIZE.
Definition LOCKED_TX_ALLOWED_DELTA_BLOCKS : Z := 1.
Definition LOCKED_TX_ALLOWED_DELTA_SECONDS : Z := DIFFICULTY_TARGET * LOCKED_TX_ALLOWED_DELTA_BLOCKS.
Definition MEMPOOL_TX_LIVETIME : Z := 60 * 60 * 12.
Definition MEMPOOL_TX_FROM_ALT_BLOCK_LIVETIME : Z := 60 * 60 * 12.
Definition NUMBER_OF_PERIODS_TO_FORGET_TX_DELETED_FROM_POOL : Z := 7.
Definition FUSION_TX_MAX_SIZE : Z := BLOCK_GRANTED_FULL_REWARD_ZONE * 30 / 100.
Definition FUSION_TX_MIN_INPUT_COUNT : Z := 12.
Definition FUSION_TX_MIN_IN_OUT_COUNT_RATIO : Z := 4.
End parameters.

Definition BLOCK_REWARD : Z := 3 * parameters.COIN.
Definition STATIC_BLOCK_REWARD : Z := 5 * parameters.COIN.
Definition REWARD_INCREASE_INTERVAL : Z := parameters.EXPECTED_NUMBER_OF_BLOCKS_PER_DAY * 90.
Definition FOUNDATION_TRUST : Z := 15000000 * parameters.COIN.
Definition GENESIS_COINBASE_TX_HEX : list Z :=
  chars "010a01ff0001e0a712029b2e4c0281c0b02e7c53291a94d1d0cbff8883f8024f5142ee494ffbbd0880712101eb3a873dca57fcce7808230df788f8a88c4d3702f10687db73d427f99257cb5b"%string.
Definition GENESIS_NONCE : Z := 10000.
Definition GENESIS_TIMESTAMP : Z := 1605434400.
Definition BLOCK_MINOR_VERSION_0 : Z := 0.
Definition BLOCK_MINOR_VERSION_1 : Z := 1.

(** * The object *)

Record Currency := {
  maxBlockHeight : Z;
  maxBlockBlobSize : Z;
  maxTxSize : Z;
  publicAddressBase58Prefix : Z;
  minedMoneyUnlockWindow : Z;
  timestampCheckWindow : Z;
  blockFutureTimeLimit : Z;
  moneySupply : Z;
  rewardBlocksWindow : Z;
  blockGrantedFullRewardZone : Z;
  minerTxBlobReservedSize : Z;
  numberOfDecimalPlaces : nat;
  coin : Z;
  minimumFee : Z;
  minimumFeeBanking : Z;
  defaultDustThreshold : Z;
  difficultyTarget : Z;
  difficultyWindow : Z;
  depositMinAmount : Z;
  depositMinTerm : Z;
  depositMaxTerm : Z;
  depositMinTotalRateFactor : Z;
  depositMaxTotalRate : Z;
  maxBlockSizeInitial : Z;
  maxBlockSizeGrowthSpeedNumerator : Z;
  maxBlockSizeGrowthSpeedDenominator : Z;
  lockedTxAllowedDeltaSeconds : Z;
  lockedTxAllowedDeltaBlocks : Z;
  mempoolTxLiveTime : Z;
  mempoolTxFromAltBlockLiveTime : Z;
  numberOfPeriodsToForgetTxDeletedFromPool : Z;
  upgradeHeightV2 : Z;
  upgradeHeightV3 : Z;
  upgradeVotingThreshold : Z;
  upgradeVotingWindow : Z;
  upgradeWindow : Z;
  transactionMaxSize : Z;
  fusionTxMaxSize : Z;
  fusionTxMinInputCount : Z;
  fusionTxMinInOutCountRatio : Z;
  isTestnet : bool;
}.

(** [numberOfDecimalPlaces(val)] multiplies [m_coin] by ten [val] times. *)
Definition coin_of_places (places : nat) : Z := Nat.iter places (fun c => u64 (c * 10)) 1.

(** The checked setters of [CurrencyBuilder]. *)
Definition set_difficultyWindow (val : Z) : outcome Z :=
  if val <? 2 then Throw invalid_argument else Ok val.
Definition set_upgradeVotingThreshold (val : Z) : outcome Z :=
  if (val <=? 0) || (100 <? val) then Throw invalid_argument else Ok val.
Definition set_upgradeWindow (val : Z) : outcome Z :=
  if val <=? 0 then Throw invalid_argument else Ok val.

(** The parameters the constructor of [CurrencyBuilder] stores;
    [m_upgradeHeightV3] is not set by it (an indeterminate value). *)
Definition builder_values (uninitializedV3 window threshold upgrade : Z) (testnet : bool) : Currency := {|
  maxBlockHeight := parameters.MAX_BLOCK_NUMBER;
  maxBlockBlobSize := parameters.MAX_BLOCK_BLOB_SIZE;
  maxTxSize := parameters.MAX_TX_SIZE;
  publicAddressBase58Prefix := parameters.PUBLIC_ADDRESS_BASE58_PREFIX;
  minedMoneyUnlockWindow := parameters.MINED_COINS_UNLOCK_WINDOW;
  timestampCheckWindow := parameters.BLOCKCHAIN_TIMESTAMP_CHECK_WINDOW;
  blockFutureTimeLimit := parameters.BLOCK_FUTURE_TIME_LIMIT;
  moneySupply := parameters.MONEY_SUPPLY;
  rewardBlocksWindow := parameters.REWARD_BLOCKS_WINDOW;
  blockGrantedFullRewardZone := parameters.BLOCK_GRANTED_FULL_REWARD_ZONE;
  minerTxBlobReservedSize := parameters.COINBASE_BLOB_RESERVED_SIZE;
  numberOfDecimalPlaces := parameters.DECIMAL_POINT;
  coin := coin_of_places parameters.DECIMAL_POINT;
  minimumFee := parameters.MINIMUM_FEE;
  minimumFeeBanking := parameters.MINIMUM_FEE_BANKING;
  defaultDustThreshold := parameters.DEFAULT_DUST_THRESHOLD;
  difficultyTarget := parameters.DIFFICULTY_TARGET;
  difficultyWindow := window;
  depositMinAmount := parameters.DEPOSIT_MIN_AMOUNT;
  depositMinTerm := parameters.DEPOSIT_MIN_TERM;
  depositMaxTerm := parameters.DEPOSIT_MAX_TERM;
  depositMinTotalRateFactor := parameters.DEPOSIT_MIN_TOTAL_RATE_FACTOR;
  depositMaxTotalRate := parameters.DEPOSIT_MAX_TOTAL_RATE;
  maxBlockSizeInitial := parameters.MAX_BLOCK_SIZE_INITIAL;
  maxBlockSizeGrowthSpeedNumerator := parameters.MAX_BLOCK_SIZE_GROWTH_SPEED_NUMERATOR;
  maxBlockSizeGrowthSpeedDenominator := parameters.MAX_BLOCK_SIZE_GROWTH_SPEED_DENOMINATOR;
  lockedTxAllowedDeltaSeconds := parameters.LOCKED_TX_ALLOWED_DELTA_SECONDS;
  lockedTxAllowedDeltaBlocks := parameters.LOCKED_TX_ALLOWED_DELTA_BLOCKS;
  mempoolTxLiveTime := parameters.MEMPOOL_TX_LIVETIME;
  mempoolTxFromAltBlockLiveTime := parameters.MEMPOOL_TX_FROM_ALT_BLOCK_LIVETIME;
  numberOfPeriodsToForgetTxDeletedFromPool := parameters.NUMBER_OF_PERIODS_TO_FORGET_TX_DELETED_FROM_POOL;
  upgradeHeightV2 := parameters.UPGRADE_HEIGHT_V2;
  upgradeHeightV3 := uninitializedV3;
  upgradeVotingThreshold := threshold;
  upgradeVotingWindow := parameters.UPGRADE_VOTING_WINDOW;
  upgradeWindow := upgrade;
  transactionMaxSize := parameters.MAX_TX_SIZE_LIMIT;
  fusionTxMaxSize := parameters.FUSION_TX_MAX_SIZE;
  fusionTxMinInputCount := parameters.FUSION_TX_MIN_INPUT_COUNT;
  fusionTxMinInOutCountRatio := parameters.FUSION_TX_MIN_IN_OUT_COUNT_RATIO;
  isTestnet := testnet;
|}.

Definition CurrencyBuilder (uninitializedV3 : Z) (testnet : bool) : outcome Currency :=
  window ← set_difficultyWindow parameters.DIFFICULTY_WINDOW;
  threshold ← set_upgradeVotingThreshold parameters.UPGRADE_VOTING_THRESHOLD;
  upgrade ← set_upgradeWindow parameters.UPGRADE_WINDOW;
  Ok (builder_values uninitializedV3 window threshold upgrade testnet).

(** The main network's object. *)
Definition default_currency : Currency :=
  builder_values 0 parameters.DIFFICULTY_WINDOW parameters.UPGRADE_VOTING_THRESHOLD parameters.UPGRADE_WINDOW false.

(** [init()] on a test network changes the upgrade heights; [upgradeHeight] is
    the getter the upgrade detectors use. *)
Definition upgradeHeight (c : Currency) (majorVersion : Z) : Z :=
  if majorVersion =? BLOCK_MAJOR_VERSION_2
  then (if isTestnet c then 0 else upgradeHeightV2 c) else UINT32_MAX.
Definition minNumberVotingBlocks (c : Currency) : Z :=
  u32 (u32 (upgradeVotingWindow c * upgradeVotingThreshold c + 99) / 100).
Definition maxUpgradeDistance (c : Currency) : Z := u32 (7 * upgradeWindow c).
Definition calculateUpgradeHeight (c : Currency) (voteCompleteHeight : Z) : Z :=
  u32 (voteCompleteHeight + upgradeWindow c).

(** * Rewards *)

Section Rewards.
Context {B : BuildConfig}.

(** [getPenalizedAmount] of [CryptoNoteBasicImpl.cpp]. *)
Definition getPenalizedAmount (amount medianSize currentBlockSize : Z) : outcome Z :=
  _ ← massert (currentBlockSize <=? u64 (2 * medianSize));
  _ ← massert (medianSize <=? UINT32_MAX);
  _ ← massert (currentBlockSize <=? UINT32_MAX);
  if amount =? 0 then Ok 0
  else if currentBlockSize <=? medianSize then Ok amount
  else
    let '(productLo, productHi) := mul128 amount (u64 (currentBlockSize * u64 (u64 (2 * medianSize) - currentBlockSize))) in
    let '(_, hi, lo) := div128_32 productHi productLo (u32 medianSize) in
    let '(_, hi, lo) := div128_32 hi lo (u32 medianSize) in
    _ ← massert (0 =? hi);
    _ ← massert (lo <? amount);
    Ok lo.

Definition REWARD_INCREASING_FACTOR : list Z :=
  [0; 25000; 50000; 75000; 100000; 125000; 150000; 175000; 200000].

Variable c : Currency.

Definition baseRewardFunction (alreadyGeneratedCoins height : Z) : outcome Z :=
  if height =? 1 then Ok FOUNDATION_TRUST else
  let incrIntervals := height / REWARD_INCREASE_INTERVAL in
  factor ← vget REWARD_INCREASING_FACTOR incrIntervals;
  let base_reward := u64 (BLOCK_REWARD + factor) in
  let base_reward := Z.min base_reward STATIC_BLOCK_REWARD in
  Ok (Z.min base_reward (u64 (moneySupply c - alreadyGeneratedCoins))).

(** [getBlockReward]: [None] when it returns false, else reward and emission
    change. *)
Definition getBlockReward (medianSize currentBlockSize alreadyGeneratedCoins fee height : Z)
  : outcome (option (Z * Z)) :=
  _ ← massert (alreadyGeneratedCoins <=? moneySupply c);
  baseReward ← baseRewardFunction alreadyGeneratedCoins height;
  let medianSize := Z.max medianSize (blockGrantedFullRewardZone c) in
  if u64 (2 * medianSize) <? currentBlockSize then Ok None else
  penalizedBaseReward ← getPenalizedAmount baseReward medianSize currentBlockSize;
  penalizedFee ← getPenalizedAmount fee medianSize currentBlockSize;
  let emissionChange := i64 (u64 (penalizedBaseReward - u64 (fee - penalizedFee))) in
  let reward := u64 (penalizedBaseReward + penalizedFee) in
  Ok (Some (reward, emissionChange)).

Definition maxBlockCumulativeSize (height : Z) : outcome Z :=
  _ ← massert (height <=? UINT64_MAX / maxBlockSizeGrowthSpeedNumerator c);
  let maxSize := u64 (maxBlockSizeInitial c +
    u64 (height * maxBlockSizeGrowthSpeedNumerator c) / maxBlockSizeGrowthSpeedDenominator c) in
  _ ← massert (maxBlockSizeInitial c <=? maxSize);
  Ok maxSize.

(** * Interest and fees *)

Definition calculateTotalTransactionInterest (tx : Transaction) : outcome Z :=
  fold_left (fun acc i => interest ← acc;
    match i with
    | InMultisignature m =>
        if negb (mi_term m =? 0) then
          v ← calculateInterest (mi_amount m) (mi_term m); Ok (u64 (interest + v))
        else Ok interest
    | _ => Ok interest
    end) (tx_inputs tx) (Ok 0).

Definition getTransactionInputAmount (i : TransactionInput) : outcome Z :=
  match i with
  | InKey k => Ok (ki_amount k)
  | InMultisignature m =>
      if mi_term m =? 0 then Ok (mi_amount m)
      else v ← calculateInterest (mi_amount m) (mi_term m); Ok (u64 (mi_amount m + v))
  | InBase _ => Ok 0
  end.

Definition getTransactionAllInputsAmount (tx : Transaction) : outcome Z :=
  fold_left (fun acc i => amount ← acc; v ← getTransactionInputAmount i; Ok (u64 (amount + v)))
    (tx_inputs tx) (Ok 0).

(** [getTransactionFee(tx, fee, height)]: [None] when it returns false. *)
Definition getTransactionFee (tx : Transaction) : outcome (option Z) :=
  amount_in ← getTransactionAllInputsAmount tx;
  let amount_out := get_outs_money_amount tx in
  if amount_in <? amount_out then
    if (0 <? zlen (tx_inputs tx)) && (0 <? zlen (tx_outputs tx)) &&
       (u64 (amount_in + parameters.MINIMUM_FEE) <? amount_out)
    then Ok (Some parameters.MINIMUM_FEE)
    else Ok None
  else Ok (Some (amount_in - amount_out)).

(** The overload that returns the fee, 0 on failure. *)
Definition getTransactionFee_or_zero (tx : Transaction) : outcome Z :=
  r ← getTransactionFee tx; Ok (default 0 r).

(** * Fusion *)

Definition decomposeAmount (amount dustThreshold : Z) : list Z :=
  decompose_amount_into_digits amount dustThreshold.

Definition isFusionTransaction_amounts (inputsAmounts outputsAmounts : list Z) (size : Z) : bool :=
  if fusionTxMaxSize c <? size then false
  else if zlen inputsAmounts <? fusionTxMinInputCount c then false
  else if zlen inputsAmounts <? zlen outputsAmounts * fusionTxMinInOutCountRatio c then false
  else if existsb (fun a => a <? defaultDustThreshold c) inputsAmounts then false
  else
    let inputAmount := sum_u64 inputsAmounts in
    bool_decide (merge_sort Z.le (decomposeAmount inputAmount (defaultDustThreshold c)) = outputsAmounts).

(** [getInputsAmounts] of [CryptoNoteTools.cpp]. *)
Definition getInputsAmounts (tx : Transaction) : list Z :=
  omap (fun i => match i with
    | InKey k => Some (ki_amount k)
    | InMultisignature m => Some (mi_amount m)
    | InBase _ => None end) (tx_inputs tx).

Definition isFusionTransaction_sized (tx : Transaction) (size : Z) : outcome bool :=
  '(_, actual) ← getObjectBinarySize (@serialize_Transaction) tx;
  _ ← massert (actual =? size);
  Ok (isFusionTransaction_amounts (getInputsAmounts tx) (map out_amount (tx_outputs tx)) size).

Definition isFusionTransaction (tx : Transaction) : outcome bool :=
  '(_, size) ← getObjectBinarySize (@serialize_Transaction) tx;
  isFusionTransaction_sized tx size.

Definition PRETTY_AMOUNTS : list Z :=
  concat (map (fun k => map (fun d => Z.of_nat d * 10 ^ Z.of_nat k) (seq 1 9)) (seq 0 19)) ++ [10 ^ 19].

(** [std::lower_bound]: index of the first element not below the value. *)
Fixpoint lower_bound (l : list Z) (x : Z) : nat :=
  match l with
  | [] => 0
  | y :: l => if y <? x then S (lower_bound l x) else 0
  end.

(** The power of ten of an applicable amount; [None] when it returns false. *)
Definition isAmountApplicableInFusionTransactionInput (amount threshold : Z) : option Z :=
  if threshold <=? amount then None
  else if amount <? defaultDustThreshold c then None
  else
    let it := lower_bound PRETTY_AMOUNTS amount in
    match PRETTY_AMOUNTS !! it with
    | None => None
    | Some x => if negb (amount =? x) then None else Some (u8 (Z.of_nat it / 9))
    end.

(** [getApproximateMaximumInputCount] *)
Definition getApproximateMaximumInputCount (transactionSize outputCount mixinCount : Z) : Z :=
  let outputsSize := u64 (outputCount * (1 + 32 + 10)) in
  let headerSize := 1 + 8 + 1 + 32 in
  let inputSize := u64 (1 + 10 + 32 + 64 + 1 + 4 + u64 (mixinCount * (4 + 64))) in
  u64 (u64 (transactionSize - headerSize) - outputsSize) / inputSize.
End Rewards.

(** * The miner transaction *)

Section Miner.
Context {B : BuildConfig}.
(** Curve operations and the fresh key pair of the transaction. *)
Variable generate_key_derivation : list Z -> list Z -> option (list Z).
Variable derive_public_key : list Z -> Z -> list Z -> option (list Z).
Variable c : Currency.

(** [while (maxOuts < outAmounts.size())]: the last amount is added to the one
    before it.  One element disappears per iteration. *)
Fixpoint merge_outs (fuel : nat) (maxOuts : Z) (outAmounts : list Z) : list Z :=
  match fuel with
  | O => outAmounts
  | S fuel =>
      if maxOuts <? zlen outAmounts then
        let n := length outAmounts in
        let back := default 0 (last outAmounts) in
        merge_outs fuel maxOuts
          (take (n - 1) (<[(n - 2)%nat := u64 (default 0 (outAmounts !! (n - 2)%nat) + back)]> outAmounts))
      else outAmounts
  end.

(** The output at index [no]; [None] when a curve operation fails. *)
Definition miner_output (secretKey : list Z) (addr : AccountPublicAddress) (no : nat) (amount : Z)
  : option TransactionOutput :=
  derivation ← generate_key_derivation (viewPublicKey addr) secretKey;
  key ← derive_public_key derivation (Z.of_nat no) (spendPublicKey addr);
  Some {| out_amount := amount; target := OutKey {| ko_key := key |} |}.

Fixpoint miner_outputs (secretKey : list Z) (addr : AccountPublicAddress) (no : nat) (amounts : list Z)
  : option (list TransactionOutput) :=
  match amounts with
  | [] => Some []
  | a :: amounts =>
      o ← miner_output secretKey addr no a;
      os ← miner_outputs secretKey addr (S no) amounts;
      Some (o :: os)
  end.

(** [constructMinerTx]; [txkey] is the generated pair (public, secret); [tx] the
    object passed in, whose signatures are left as they are.  [None] when it
    returns false. *)
Definition constructMinerTx (txkey : list Z * list Z) (height medianSize alreadyGeneratedCoins currentBlockSize fee : Z)
    (minerAddress : AccountPublicAddress) (tx : Transaction) (extraNonce : list Z) (maxOuts : Z)
  : outcome (option Transaction) :=
  let extra0 := addTransactionPublicKeyToExtra [] txkey.1 in
  match (if (length extraNonce =? 0)%nat then Some extra0 else addExtraNonceToTransactionExtra extra0 extraNonce) with
  | None => Ok None
  | Some extra =>
      r ← getBlockReward c medianSize currentBlockSize alreadyGeneratedCoins fee height;
      match r with
      | None => Ok None
      | Some (blockReward, _) =>
          let outAmounts := decompose_amount_into_digits blockReward (defaultDustThreshold c) in
          if negb (1 <=? maxOuts) then Ok None else
          let outAmounts := merge_outs (length outAmounts) maxOuts outAmounts in
          match miner_outputs txkey.2 minerAddress 0 outAmounts with
          | None => Ok None
          | Some outs =>
              if negb (sum_u64 outAmounts =? blockReward) then Ok None else
              Ok (Some {| prefix := {| version := TRANSACTION_VERSION_1;
                                       unlockTime := u64 (height + minedMoneyUnlockWindow c);
                                       inputs := [InBase {| blockIndex := height |}];
                                       outputs := outs;
                                       extra := extra |};
                          signatures := signatures tx |})
          end
      end
  end.
End Miner.

(** * Text form of amounts *)

(** [std::to_string] of an unsigned integer, most significant digit first. *)
Fixpoint to_string_loop (fuel : nat) (x : Z) (acc : list Z) : list Z :=
  match fuel with
  | O => acc
  | S fuel => let acc := (48 + x mod 10) :: acc in
              if x <? 10 then acc else to_string_loop fuel (x / 10) acc
  end.
Definition to_string (x : Z) : list Z := to_string_loop 20 x [].

Definition POINT : Z := 46.

Definition formatAmount (c : Currency) (amount : Z) : list Z :=
  let s := to_string amount in
  let places := numberOfDecimalPlaces c in
  let s := if (length s <? places + 1)%nat then replicate (places + 1 - length s) 48 ++ s else s in
  take (length s - places) s ++ [POINT] ++ drop (length s - places) s.

Definition formatAmount_signed (c : Currency) (amount : Z) : list Z :=
  let s := formatAmount c (u64 (Z.abs amount)) in
  if amount <? 0 then 45 :: s else s.

(** [boost::algorithm::trim] with the classic locale's [isspace]. *)
Definition is_space (ch : Z) : bool := (ch =? 32) || ((9 <=? ch) && (ch <=? 13)).
Fixpoint trim_left (s : list Z) : list Z :=
  match s with
  | [] => []
  | ch :: s' => if is_space ch then trim_left s' else s
  end.
Definition trim (s : list Z) : list Z := rev (trim_left (rev (trim_left s))).

Definition is_dec_digit (ch : Z) : bool := (48 <=? ch) && (ch <=? 57).

(** [fromString<uint64_t>] on a string of digits: stream extraction fails when
    the number does not fit. *)
Definition fromString_uint64 (s : list Z) : option Z :=
  let v := fold_left (fun v ch => v * 10 + (ch - 48)) s 0 in
  if UINT64_MAX <? v then None else Some v.

(** The loop that drops trailing zeros of a fraction that is too long. *)
Fixpoint drop_zeros (fuel : nat) (places : nat) (s : list Z) (fractionSize : nat) : list Z * nat :=
  match fuel with
  | O => (s, fractionSize)
  | S fuel =>
      if (places <? fractionSize)%nat && (default 0 (last s) =? 48)
      then drop_zeros fuel places (take (length s - 1) s) (fractionSize - 1)
      else (s, fractionSize)
  end.

(** [parseAmount]: [None] when it returns false. *)
Definition parseAmount (c : Currency) (str : list Z) : option Z :=
  let strAmount := trim str in
  let places := numberOfDecimalPlaces c in
  let stage :=
    match find_from strAmount POINT 0 with
    | Some pointIndex =>
        let fractionSize := (length strAmount - pointIndex - 1)%nat in
        let '(s, fractionSize) := drop_zeros fractionSize places strAmount fractionSize in
        if (places <? fractionSize)%nat then None
        else Some (take pointIndex s ++ drop (S pointIndex) s, fractionSize)
    | None => Some (strAmount, 0%nat)
    end in
  match stage with
  | None => None
  | Some (s, fractionSize) =>
      if (length s =? 0)%nat then None
      else if negb (forallb is_dec_digit s) then None
      else
        let s := if (fractionSize <? places)%nat then s ++ replicate (places - fractionSize) 48 else s in
        fromString_uint64 s
  end.

(** * Genesis *)

Definition empty_tx : Transaction :=
  {| prefix := {| version := 0; unlockTime := 0; inputs := []; outputs := []; extra := [] |}; signatures := [] |}.

(** [generateGenesisBlock]: [None] when it returns false. *)
Definition generateGenesisBlock {B : BuildConfig} (c : Currency) : outcome (option Block) :=
  match fromHex GENESIS_COINBASE_TX_HEX with
  | None => Ok None
  | Some blob =>
      r ← fromBinaryArray (@serialize_Transaction) empty_tx blob;
      match r with
      | None => Ok None
      | Some tx =>
          Ok (Some {| header := {| majorVersion := BLOCK_MAJOR_VERSION_1; minorVersion := BLOCK_MINOR_VERSION_0;
                                   nonce := if isTestnet c then GENESIS_NONCE + 1 else GENESIS_NONCE;
                                   timestamp := GENESIS_TIMESTAMP; previousBlockHash := NULL_HASH |};
                      baseTransaction := tx; transactionHashes := [] |})
      end
  end.

(** * The penalty on large blocks *)

Section RewardTheory.
Context {B : BuildConfig}.

Lemma penalized_large amount m cur :
  0 < amount -> is_u64 amount -> 0 < m -> m < cur <= 2 * m -> cur <= UINT32_MAX ->
  getPenalizedAmount amount m cur = Ok (amount * (cur * (2 * m - cur)) / m / m) /\
  0 <= amount * (cur * (2 * m - cur)) / m / m < amount.
Proof.
  intros Ha Hu Hm Hc Hc32. unfold UINT32_MAX in Hc32.
  assert (Hlt : 0 <= amount * (cur * (2 * m - cur)) / m / m < amount).
  { assert (0 <= cur * (2 * m - cur)) by (apply Z.mul_nonneg_nonneg; lia).
    assert (cur * (2 * m - cur) < m * m) by nia.
    split; [apply Z.div_pos; [apply Z.div_pos; [apply Z.mul_nonneg_nonneg; lia|lia]|lia]|].
    rewrite Z.div_div by lia. apply Z.div_lt_upper_bound; nia. }
  split; [|exact Hlt]. unfold getPenalizedAmount. unfold is_u64 in Hu.
  rewrite (u64_small (2 * m)) by (wunfold; lia).
  rewrite (massert_true (cur <=? 2 * m)), (massert_true (m <=? UINT32_MAX)), (massert_true (cur <=? UINT32_MAX))
    by (apply Z.leb_le; unfold UINT32_MAX; lia).
  cbn [mbind outcome_bind]. destruct (Z.eqb_spec amount 0); [lia|].
  destruct (Z.leb_spec cur m); [lia|].
  rewrite (u64_small (2 * m - cur)), u64_small by (wunfold; nia). rewrite u32_small by (wunfold; lia).
  pose proof (mul128_exact amount (cur * (2 * m - cur)) ltac:(wunfold; lia) ltac:(wunfold; nia)) as M.
  destruct (mul128 amount _) as [plo phi]. destruct M as (EM & Hlo & Hhi).
  pose proof (div128_32_exact phi plo m Hhi Hlo ltac:(lia)) as D.
  destruct (div128_32 phi plo m) as [[r1 h1] l1]. destruct D as (ED & _ & Hh1 & Hl1).
  pose proof (div128_32_exact h1 l1 m Hh1 Hl1 ltac:(lia)) as D2.
  destruct (div128_32 h1 l1 m) as [[r2 h2] l2]. destruct D2 as (ED2 & _ & Hh2 & Hl2).
  rewrite ED, EM in ED2. rewrite <- ED2 in Hlt |- *. change (2 ^ 64) with 18446744073709551616 in *.
  assert (h2 = 0) as -> by (wunfold; lia).
  rewrite (massert_true (0 =? 0)), (massert_true (l2 <? amount)) by (done || (apply Z.ltb_lt; lia)). done.
Qed.

(** What the penalty leaves of an amount in a block of the given size. *)
Definition penalized (amount m cur : Z) : Z :=
  if cur <=? m then amount else amount * (cur * (2 * m - cur)) / m / m.

Lemma penalized_spec amount m cur :
  is_u64 amount -> 0 < m <= UINT32_MAX -> 0 <= cur <= 2 * m -> cur <= UINT32_MAX ->
  getPenalizedAmount amount m cur = Ok (penalized amount m cur) /\ 0 <= penalized amount m cur <= amount.
Proof.
  intros Hu Hm Hc Hc32. unfold penalized. destruct (Z.eq_dec amount 0) as [->|Hn].
  - rewrite Z.mul_0_l, !Z.div_0_l by lia. split; [|by destruct (cur <=? m)].
    unfold getPenalizedAmount. rewrite (u64_small (2 * m)) by (wunfold; lia).
    rewrite (massert_true (cur <=? 2 * m)), (massert_true (m <=? UINT32_MAX)), (massert_true (cur <=? UINT32_MAX))
      by (apply Z.leb_le; lia). cbn. by destruct (cur <=? m).
  - unfold is_u64 in Hu. destruct (Z.leb_spec cur m) as [Hle|Hgt].
    + split; [|lia]. unfold getPenalizedAmount. rewrite (u64_small (2 * m)) by (wunfold; lia).
      rewrite (massert_true (cur <=? 2 * m)), (massert_true (m <=? UINT32_MAX)), (massert_true (cur <=? UINT32_MAX))
        by (apply Z.leb_le; lia). cbn [mbind outcome_bind].
      destruct (Z.eqb_spec amount 0); [lia|]. destruct (Z.leb_spec cur m); [done|lia].
    + destruct (penalized_large amount m cur) as [E R]; try done; try lia. rewrite E. split; [done|lia].
Qed.

(** [getPenalizedAmount] is exact: in a block no larger than the median it
    keeps the amount, in a larger one up to twice the median it keeps
    [amount * cur * (2 * median - cur) / median^2], rounded down, strictly less
    than the amount; none of its five assertions can fail. *)
Theorem getPenalizedAmount_exact (amount medianSize currentBlockSize : Z) :
  is_u64 amount -> 0 < medianSize <= UINT32_MAX -> 0 <= currentBlockSize <= 2 * medianSize ->
  currentBlockSize <= UINT32_MAX ->
  getPenalizedAmount amount medianSize currentBlockSize =
    Ok (if currentBlockSize <=? medianSize then amount
        else amount * currentBlockSize * (2 * medianSize - currentBlockSize) / (medianSize * medianSize)) /\
  (medianSize < currentBlockSize -> 0 < amount ->
   amount * currentBlockSize * (2 * medianSize - currentBlockSize) / (medianSize * medianSize) < amount).
Proof.
  intros Hu Hm Hc Hc32.
  rewrite <- (Z.div_div (amount * _ * _) medianSize medianSize), <- Z.mul_assoc by lia. split.
  - apply (penalized_spec amount medianSize currentBlockSize); done.
  - intros H1 H2. apply (penalized_large amount medianSize currentBlockSize); lia || done.
Qed.

(** ** Block reward *)

(** The nine intervals the table covers. *)
Definition last_reward_height : Z := 9 * REWARD_INCREASE_INTERVAL.

Lemma reward_factor k : 0 <= k < 9 -> vget REWARD_INCREASING_FACTOR k = Ok (25000 * k).
Proof.
  intros Hk. assert (Hn : exists n, k = Z.of_nat n /\ (n < 9)%nat) by (exists (Z.to_nat k); lia).
  destruct Hn as (n & -> & Hn). do 9 (destruct n as [|n]; [reflexivity|]). lia.
Qed.

Lemma baseReward_spec c generated height :
  0 <= generated <= moneySupply c -> is_u64 (moneySupply c) -> 0 <= height < last_reward_height -> height <> 1 ->
  baseRewardFunction c generated height =
    Ok (Z.min (300000 + 25000 * (height / 64800)) (moneySupply c - generated)).
Proof.
  intros Hg Hs Hh H1. unfold baseRewardFunction. destruct (Z.eqb_spec height 1); [done|].
  change REWARD_INCREASE_INTERVAL with 64800. change last_reward_height with 583200 in Hh.
  assert (Hk : 0 <= height / 64800 < 9) by (Z.to_euclidean_division_equations; lia).
  rewrite reward_factor by done. cbn [mbind outcome_bind]. change BLOCK_REWARD with 300000.
  change STATIC_BLOCK_REWARD with 500000. set (k := height / 64800) in *. clearbody k.
  rewrite (u64_small (300000 + 25000 * k)), u64_small by (wunfold; lia).
  f_equal. lia.
Qed.

(** The base reward of a height: the foundation's coins at height 1, whatever
    the supply; elsewhere 3 coins, raised by 0.25 every 64800 blocks and capped
    by what the supply leaves. *)
Definition base_reward (c : Currency) (generated height : Z) : Z :=
  if height =? 1 then FOUNDATION_TRUST
  else Z.min (300000 + 25000 * (height / 64800)) (moneySupply c - generated).

Lemma base_reward_spec c generated height :
  0 <= generated <= moneySupply c -> is_u64 (moneySupply c) -> 0 <= height < last_reward_height ->
  baseRewardFunction c generated height = Ok (base_reward c generated height) /\
  0 <= base_reward c generated height < 2 ^ 62.
Proof.
  intros Hg Hs Hh. unfold base_reward. change (2 ^ 62) with 4611686018427387904.
  destruct (Z.eqb_spec height 1) as [->|H1]; [split; [done|]; by vm_compute|].
  split; [by apply baseReward_spec|]. change last_reward_height with 583200 in Hh. mlia.
Qed.

(** C35.  The block reward at every height the reward table covers (below
    583200), for supplies and fees below 2^62 and sizes and medians of 32 bits:
    base reward ([base_reward]: the foundation's coins at height 1) and fees,
    both under the size penalty; the emission counts the penalty on fees as
    destroyed; a block above twice the median gets none.  Nothing overflows and
    no assertion fails.  The penalised base reward stays within the money supply
    at every height but 1, and at height 1 when the supply leaves room for the
    foundation's coins.  (The interest that pushBlock adds to the generated
    coins is no part of this function.) *)
Theorem getBlockReward_exact (c : Currency) (medianSize cur generated fee height : Z) :
  0 <= generated <= moneySupply c -> moneySupply c < 2 ^ 62 -> 0 <= fee < 2 ^ 62 ->
  0 <= height < last_reward_height ->
  let m := Z.max medianSize (blockGrantedFullRewardZone c) in
  0 < m <= UINT32_MAX -> 0 <= cur <= UINT32_MAX ->
  let base := base_reward c generated height in
  getBlockReward c medianSize cur generated fee height =
    Ok (if cur <=? 2 * m
        then Some (penalized base m cur + penalized fee m cur,
                   penalized base m cur - (fee - penalized fee m cur))
        else None) /\
  (cur <= 2 * m -> height <> 1 \/ generated + FOUNDATION_TRUST <= moneySupply c ->
   generated + penalized base m cur <= moneySupply c).
Proof.
  intros Hg Hs Hf Hh m Hm Hc base.
  destruct (base_reward_spec c generated height) as [Eb Hb]; [done|change (2 ^ 62) with 4611686018427387904 in Hs; wunfold; lia|done|].
  fold base in Eb, Hb. change (2 ^ 62) with 4611686018427387904 in *.
  assert (Hpb : 0 <= cur <= 2 * m -> getPenalizedAmount base m cur = Ok (penalized base m cur) /\ 0 <= penalized base m cur <= base)
    by (intros ?; apply penalized_spec; wunfold; lia).
  assert (Hpf : 0 <= cur <= 2 * m -> getPenalizedAmount fee m cur = Ok (penalized fee m cur) /\ 0 <= penalized fee m cur <= fee)
    by (intros ?; apply penalized_spec; wunfold; lia).
  split; [|intros Hle Hroom; destruct Hpb as [_ Hpb]; [lia|]; subst base; unfold base_reward in *;
           destruct (Z.eqb_spec height 1); lia].
  unfold getBlockReward. rewrite massert_true by (apply Z.leb_le; lia). cbn [mbind outcome_bind].
  rewrite Eb. cbn [mbind outcome_bind]. fold m.
  rewrite (u64_small (2 * m)) by (wunfold; lia). rewrite Z.ltb_antisym.
  destruct (Z.leb_spec cur (2 * m)) as [Hle|Hgt]; [|done]. cbn [negb].
  destruct (Hpb ltac:(lia)) as [-> Rb]. destruct (Hpf ltac:(lia)) as [-> Rf]. cbn [mbind outcome_bind].
  rewrite (u64_small (fee - _)), (u64_small (_ + _)) by (wunfold; lia). do 3 f_equal.
  wunfold. Z.to_euclidean_division_equations. lia.
Qed.
End RewardTheory.

Lemma getPenalizedAmount_exact_witness :
  getPenalizedAmount (B := debug_build) 300000 100000 150000 = Ok 225000.
Proof.
  refine (proj1 (getPenalizedAmount_exact (B := debug_build) 300000 100000 150000 _ _ _ _)); unfold is_u64, UINT32_MAX; lia.
Defined.

Lemma getBlockReward_exact_witness :
  getBlockReward (B := debug_build) default_currency 0 150000 1000 500 100 = Ok (Some (225375, 224875)).
Proof.
  refine (proj1 (getBlockReward_exact (B := debug_build) default_currency 0 150000 1000 500 100 _ _ _ _ _ _));
    vm_compute; intuition discriminate.
Defined.

(** At height 583200 (810 days of blocks) the table index leaves the table. *)
Lemma baseReward_out_of_table c generated height :
  last_reward_height <= height -> baseRewardFunction c generated height = Undefined.
Proof.
  intros Hh. change last_reward_height with 583200 in Hh. unfold baseRewardFunction.
  destruct (Z.eqb_spec height 1); [lia|]. change REWARD_INCREASE_INTERVAL with 64800.
  assert (9 <= height / 64800) by (Z.to_euclidean_division_equations; lia).
  unfold vget. destruct (Z.ltb_spec (height / 64800) 0); [lia|].
  rewrite lookup_ge_None_2; [done|]. cbn. lia.
Qed.

(** * Miner transactions pay exactly the reward *)

Section MinerTheory.
Context {B : BuildConfig}.
Variable generate_key_derivation : list Z -> list Z -> option (list Z).
Variable derive_public_key : list Z -> Z -> list Z -> option (list Z).

Lemma miner_outputs_amounts sk addr no amounts outs :
  miner_outputs generate_key_derivation derive_public_key sk addr no amounts = Some outs ->
  map out_amount outs = amounts.
Proof.
  revert no outs. induction amounts as [|a amounts IH]; intros no outs; cbn [miner_outputs].
  { by intros [= <-]. }
  unfold miner_output. destruct (generate_key_derivation _ _) as [d|]; [|done]. cbn [mbind option_bind].
  destruct (derive_public_key _ _ _) as [k|]; [|done]. cbn [mbind option_bind].
  destruct (miner_outputs _ _ _ _ _ amounts) as [os|] eqn:E; [|done]. cbn.
  intros [= <-]. cbn. f_equal. by apply (IH (S no)).
Qed.

Lemma sum_Z_insert l i x y :
  l !! i = Some x -> sum_Z (<[i := y]> l) = sum_Z l - x + y.
Proof.
  revert i. induction l as [|z l IH]; intros [|i] Hi; try done.
  - injection Hi as ->. cbn. lia.
  - change (z + sum_Z (<[i := y]> l) = z + sum_Z l - x + y). rewrite (IH i Hi). lia.
Qed.

Lemma sum_Z_take_last l x : last l = Some x -> sum_Z (take (length l - 1) l) = sum_Z l - x.
Proof.
  intros Hl. apply last_Some in Hl as [l' ->]. rewrite length_app. cbn [length].
  replace (length l' + 1 - 1)%nat with (length l') by lia.
  rewrite take_app_length, sum_Z_app. cbn. lia.
Qed.

Lemma merge_outs_spec fuel maxOuts l :
  1 <= maxOuts -> (length l <= fuel)%nat -> Forall (fun x => 0 <= x) l -> is_u64 (sum_Z l) ->
  sum_Z (merge_outs fuel maxOuts l) = sum_Z l /\ zlen (merge_outs fuel maxOuts l) <= maxOuts /\
  Forall (fun x => 0 <= x) (merge_outs fuel maxOuts l).
Proof.
  intros Hm. revert l. induction fuel as [|fuel IH]; intros l Hf HF Hs; cbn [merge_outs].
  { destruct l; [|cbn in Hf; lia]. split; [done|]. rewrite zlen_nil. split; [lia|done]. }
  destruct (Z.ltb_spec maxOuts (zlen l)) as [Hlt|Hge]; [|split; [done|split; [lia|done]]].
  assert (Hlen : (2 <= length l)%nat) by (unfold zlen in Hlt; lia).
  destruct (lookup_lt_is_Some_2 l (length l - 2)) as [x Hx]; [lia|].
  destruct (last l) as [y|] eqn:Hy; [|apply last_None in Hy; subst; cbn in Hlen; lia].
  rewrite Hx. cbn [from_option id].
  set (l1 := <[(length l - 2)%nat := u64 (x + y)]> l).
  assert (Hy1 : last l1 = Some y).
  { unfold l1. rewrite last_lookup in Hy |- *. rewrite length_insert.
    rewrite list_lookup_insert_ne by lia. done. }
  assert (Hxy : x + y <= sum_Z l /\ 0 <= x /\ 0 <= y).
  { assert (0 <= x) by (eapply Forall_lookup_1 in HF; [|exact Hx]; done).
    assert (0 <= y) by (rewrite last_lookup in Hy; eapply Forall_lookup_1 in HF; [|exact Hy]; done).
    split; [|done]. pose proof (sum_Z_insert l _ _ 0 Hx) as E0.
    assert (Hy0 : last (<[(length l - 2)%nat := 0]> l) = Some y).
    { rewrite last_lookup in Hy |- *. rewrite length_insert, list_lookup_insert_ne by lia. done. }
    apply sum_Z_take_last in Hy0. rewrite E0 in Hy0.
    assert (0 <= sum_Z (take (length (<[(length l - 2)%nat := 0]> l) - 1) (<[(length l - 2)%nat := 0]> l))).
    { apply sum_Z_nonneg, Forall_take, Forall_insert; [done|lia]. }
    lia. }
  assert (Hl1 : length l1 = length l) by apply length_insert.
  assert (Hsum : sum_Z (take (length l - 1) l1) = sum_Z l).
  { rewrite <- Hl1, (sum_Z_take_last _ _ Hy1). unfold l1. rewrite (sum_Z_insert _ _ _ _ Hx).
    rewrite u64_small by (wunfold; lia). lia. }
  destruct (IH (take (length l - 1) l1)) as (E & L & F).
  - rewrite length_take, Hl1. lia.
  - apply Forall_take, Forall_insert; [done|]. apply u64_range.
  - by rewrite Hsum.
  - rewrite E, Hsum. split; [done|]. split; [lia|done].
Qed.

(** A miner transaction pays exactly the block reward: whenever
    [constructMinerTx] succeeds, its output amounts sum to the reward that
    [getBlockReward] grants, it has at most [maxOuts] outputs, one base input
    with the height, version 1, and it is locked for the unlock window. *)
Theorem constructMinerTx_pays_reward (c : Currency) txkey height medianSize generated cur fee addr tx nonce maxOuts tx' :
  is_u64 (defaultDustThreshold c) ->
  constructMinerTx generate_key_derivation derive_public_key c txkey height medianSize generated cur fee addr tx nonce maxOuts
    = Ok (Some tx') ->
  exists reward emission,
    getBlockReward c medianSize cur generated fee height = Ok (Some (reward, emission)) /\
    sum_Z (map out_amount (tx_outputs tx')) = reward /\
    get_outs_money_amount tx' = reward /\
    zlen (tx_outputs tx') <= maxOuts /\
    tx_inputs tx' = [InBase {| blockIndex := height |}] /\ tx_version tx' = 1 /\
    tx_unlockTime tx' = u64 (height + minedMoneyUnlockWindow c).
Proof.
  intros Hd. unfold constructMinerTx.
  destruct (if (length nonce =? 0)%nat then _ else _) as [ex|]; [|done].
  destruct (getBlockReward c medianSize cur generated fee height) as [[[reward em]|]| | |] eqn:Er; try done.
  cbn [mbind outcome_bind].
  destruct (Z.leb_spec 1 maxOuts) as [Hmax|]; [cbn [negb]|done].
  assert (Hr : is_u64 reward).
  { unfold getBlockReward in Er. repeat (apply bind_Ok in Er as (? & ? & Er)). case_in Er; [done|].
    repeat (apply bind_Ok in Er as (? & ? & Er)). injection Er as <- <-. apply u64_range. }
  destruct (decompose_parts reward (defaultDustThreshold c) Hr Hd) as [Es HF].
  set (l := decompose_amount_into_digits reward (defaultDustThreshold c)) in *.
  destruct (merge_outs_spec (length l) maxOuts l Hmax) as (E & L & F); [lia| |by rewrite Es|].
  { eapply Forall_impl; [exact HF|]. intros x [? _]. lia. }
  set (l' := merge_outs (length l) maxOuts l) in *.
  destruct (miner_outputs _ _ _ _ _ l') as [outs|] eqn:Eo; [|done].
  destruct (sum_u64 l' =? reward); [cbn [negb]|done]. intros [= <-].
  apply miner_outputs_amounts in Eo. exists reward, em. split; [done|].
  match goal with |- sum_Z (map _ (tx_outputs ?t)) = _ /\ _ =>
    assert (Em : map out_amount (tx_outputs t) = l') by exact Eo; unfold get_outs_money_amount; rewrite Em end.
  rewrite sum_u64_spec, E, Es. split_and!; try done; [by apply u64_small|].
  change (zlen outs <= maxOuts).
  assert (zlen outs = zlen l') as -> by (rewrite <- Eo; unfold zlen; by rewrite length_map).
  lia.
Qed.
End MinerTheory.

Lemma constructMinerTx_pays_reward_witness :
  exists tx',
    constructMinerTx (B := debug_build) (fun _ _ => Some []) (fun _ _ _ => Some []) default_currency
      ([], []) 100 0 1000 150000 537 {| spendPublicKey := []; viewPublicKey := [] |} empty_tx [] 3 = Ok (Some tx') /\
    map out_amount (tx_outputs tx') = [2; 400; 225000] /\
    exists reward emission, getBlockReward (B := debug_build) default_currency 0 150000 1000 537 100 = Ok (Some (reward, emission)) /\
      sum_Z (map out_amount (tx_outputs tx')) = reward.
Proof.
  eexists. split; [vm_compute; reflexivity|]. split; [vm_compute; reflexivity|].
  edestruct (constructMinerTx_pays_reward (B := debug_build) (fun _ _ => Some []) (fun _ _ _ => Some []) default_currency
      ([], []) 100 0 1000 150000 537 {| spendPublicKey := []; viewPublicKey := [] |} empty_tx [] 3)
    as (r & e & H1 & H2 & _); [vm_compute; intuition discriminate|vm_compute; reflexivity|].
  exists r, e. split; [exact H1|exact H2].
Defined.

(** * Amounts as text *)

Definition dec_value (s : list Z) (v : Z) : Z := fold_left (fun v ch => v * 10 + (ch - 48)) s v.
Definition is_dec (ch : Z) : Prop := 48 <= ch <= 57.

Lemma to_string_loop_S n x acc :
  to_string_loop (S n) x acc =
  if x <? 10 then (48 + x mod 10) :: acc else to_string_loop n (x / 10) ((48 + x mod 10) :: acc).
Proof. done. Qed.

Lemma to_string_loop_spec fuel x acc :
  0 <= x < 10 ^ Z.of_nat (S fuel) ->
  exists ds, to_string_loop (S fuel) x acc = ds ++ acc /\ Forall is_dec ds /\ ds <> [] /\
    forall v, dec_value ds v = v * 10 ^ zlen ds + x.
Proof.
  revert x acc. induction fuel as [|fuel IH]; intros x acc Hx;
    (assert (Hd : is_dec (48 + x mod 10)) by (unfold is_dec; pose proof (Z.mod_pos_bound x 10); lia));
    rewrite to_string_loop_S; destruct (Z.ltb_spec x 10) as [Hlt|Hge].
  1,3: exists [48 + x mod 10]; split; [done|]; split; [by constructor|]; split; [done|];
    intros v; unfold dec_value; cbn [fold_left]; change (zlen [48 + x mod 10]) with 1;
    rewrite Z.mod_small, Z.pow_1_r by lia; lia.
  - change (10 ^ Z.of_nat 1) with 10 in Hx. lia.
  - destruct (IH (x / 10) ((48 + x mod 10) :: acc)) as (ds & -> & Hds & Hne & Hv).
    { rewrite (Nat2Z.inj_succ (S fuel)), Z.pow_succ_r in Hx by lia.
      split; [apply Z.div_pos; lia|apply Z.div_lt_upper_bound; lia]. }
    exists (ds ++ [48 + x mod 10]). split; [by rewrite <- app_assoc|].
    split; [apply Forall_app; split; [done|by constructor]|]. split; [by destruct ds|].
    intros v. unfold dec_value in *. rewrite fold_left_app. cbn [fold_left]. rewrite Hv.
    rewrite zlen_app, Z.pow_add_r by (pose proof (zlen_nonneg ds); done || lia).
    change (10 ^ zlen [48 + x mod 10]) with 10. pose proof (Z.div_mod x 10). lia.
Qed.

Lemma to_string_spec x :
  is_u64 x -> Forall is_dec (to_string x) /\ to_string x <> [] /\ dec_value (to_string x) 0 = x.
Proof.
  intros Hx. unfold to_string. destruct (to_string_loop_spec 19 x []) as (ds & -> & Hd & Hn & Hv).
  { unfold is_u64 in Hx. change (10 ^ Z.of_nat 20) with 100000000000000000000. lia. }
  rewrite app_nil_r. split; [done|]. split; [done|]. rewrite Hv. lia.
Qed.

Lemma dec_value_zeros n s : dec_value (replicate n 48 ++ s) 0 = dec_value s 0.
Proof. induction n as [|n IH]; [done|]. exact IH. Qed.

Lemma trim_left_id s : Forall (fun ch => is_space ch = false) s -> trim_left s = s.
Proof. destruct 1 as [|ch s Hch _]; [done|]. cbn. by rewrite Hch. Qed.

Lemma trim_left_spaces x y : Forall (fun ch => is_space ch = true) x -> trim_left (x ++ y) = trim_left y.
Proof. induction 1 as [|ch x Hch _ IH]; [done|]. cbn. by rewrite Hch. Qed.

Lemma trim_spaces x y z :
  Forall (fun ch => is_space ch = true) x -> Forall (fun ch => is_space ch = true) z ->
  Forall (fun ch => is_space ch = false) y -> y <> [] -> trim (x ++ y ++ z) = y.
Proof.
  intros Hx Hz Hy Hne. unfold trim. rewrite trim_left_spaces by done.
  assert (trim_left (y ++ z) = y ++ z) as -> by (destruct Hy as [|ch y Hch _]; [done|]; cbn; by rewrite Hch).
  rewrite rev_app_distr, trim_left_spaces by (by apply Forall_rev).
  rewrite trim_left_id by (by apply Forall_rev). apply rev_involutive.
Qed.

Lemma find_from_split a b k pos :
  Forall (fun ch => ch <> k) a -> find_from (a ++ k :: b) k pos = Some (pos + length a)%nat.
Proof.
  intros HF. revert pos. induction HF as [|ch a Hch HF IH]; intros pos; cbn [app find_from length].
  - rewrite Z.eqb_refl. f_equal. lia.
  - destruct (Z.eqb_spec ch k); [done|]. rewrite IH. f_equal. lia.
Qed.

(** Amounts round-trip through their text form: for every number of decimal
    places, [parseAmount] reads back what [formatAmount] printed, with any white
    space around it. *)
Theorem amount_text_roundtrip (c : Currency) (amount : Z) (before after : list Z) :
  is_u64 amount -> Forall (fun ch => is_space ch = true) before -> Forall (fun ch => is_space ch = true) after ->
  parseAmount c (before ++ formatAmount c amount ++ after) = Some amount.
Proof.
  intros Ha Hbef Haft. destruct (to_string_spec amount Ha) as (Hd & Hne & Hv).
  set (p := numberOfDecimalPlaces c). set (s0 := to_string amount) in *.
  set (s := if (length s0 <? p + 1)%nat then replicate (p + 1 - length s0) 48 ++ s0 else s0).
  assert (Hs : Forall is_dec s /\ (p + 1 <= length s)%nat /\ dec_value s 0 = amount).
  { unfold s. destruct (Nat.ltb_spec (length s0) (p + 1)).
    - split; [apply Forall_app; split; [apply Forall_replicate; unfold is_dec; lia|done]|].
      rewrite length_app, length_replicate, dec_value_zeros. split; [lia|done].
    - split; [done|]. split; [lia|done]. }
  destruct Hs as (Hsd & Hlen & Hval). set (a := take (length s - p) s). set (b := drop (length s - p) s).
  assert (Hab : a ++ b = s) by apply take_drop.
  assert (Hla : length a = (length s - p)%nat) by (subst a; rewrite length_take; lia).
  assert (Hlb : length b = p) by (subst b; rewrite length_drop; lia).
  assert (Ef : formatAmount c amount = a ++ [POINT] ++ b) by done.
  rewrite <- Hab in Hsd. apply Forall_app in Hsd as [Had Hbd].
  assert (Hns : Forall (fun ch => is_space ch = false) (a ++ [POINT] ++ b)).
  { assert (G : forall l, Forall is_dec l -> Forall (fun ch => is_space ch = false) l).
    { intros l Hl. eapply Forall_impl; [exact Hl|]. intros ch Hch. unfold is_dec in Hch. unfold is_space.
      destruct (Z.eqb_spec ch 32), (Z.leb_spec 9 ch), (Z.leb_spec ch 13); cbn; lia || done. }
    repeat (apply Forall_app; split); [by apply G|by repeat constructor|by apply G]. }
  assert (Et : trim (before ++ formatAmount c amount ++ after) = a ++ [POINT] ++ b).
  { rewrite Ef. apply trim_spaces; try done. by destruct a. }
  unfold parseAmount. rewrite Et. fold p. cbn [app]. rewrite find_from_split.
  2:{ eapply Forall_impl; [exact Had|]. unfold is_dec, POINT. intros; lia. }
  rewrite Nat.add_0_l, length_app. cbn [length].
  replace (length a + S (length b) - length a - 1)%nat with p by lia.
  assert (drop_zeros p p (a ++ POINT :: b) p = (a ++ POINT :: b, p)) as ->
    by (destruct p; [done|]; cbn [drop_zeros]; by rewrite Nat.ltb_irrefl).
  rewrite Nat.ltb_irrefl, take_app_length.
  assert (drop (S (length a)) (a ++ POINT :: b) = b) as ->.
  { rewrite drop_app_ge by lia. replace (S (length a) - length a)%nat with 1%nat by lia. done. }
  rewrite Hab. destruct (Nat.eqb_spec (length s) 0); [lia|].
  assert (forallb is_dec_digit s = true) as ->.
  { rewrite <- Hab. apply forallb_forall. intros ch Hin.
    assert (Hch : is_dec ch).
    { assert (HF : Forall is_dec (a ++ b)) by (by apply Forall_app).
      rewrite Forall_forall in HF. apply HF. by apply list_elem_of_In. }
    unfold is_dec in Hch. unfold is_dec_digit.
    destruct (Z.leb_spec 48 ch), (Z.leb_spec ch 57); cbn; lia || done. }
  cbn [negb]. rewrite ?Nat.ltb_irrefl. unfold fromString_uint64.
  change (fold_left _ s 0) with (dec_value s 0). rewrite Hval.
  destruct (Z.ltb_spec UINT64_MAX amount); [wunfold; lia|done].
Qed.

Lemma amount_text_roundtrip_witness :
  formatAmount default_currency 1205 = chars "0.01205"%string /\
  parseAmount default_currency ([32] ++ formatAmount default_currency 1205 ++ [32; 10]) = Some 1205.
Proof.
  split; [vm_compute; reflexivity|].
  apply (amount_text_roundtrip default_currency 1205 [32] [32; 10]);
    [unfold is_u64; lia|repeat constructor|repeat constructor].
Defined.

(** * Fusion transactions *)

(** A transaction recognised as fusion creates and burns nothing: its output
    amounts are the sorted decimal digits of the (64-bit) sum of its inputs and
    add up to it, none is zero, and it has at least twelve inputs and four
    inputs per output with the default parameters. *)
Theorem fusion_conserves (c : Currency) (ins outs : list Z) (size : Z) :
  is_u64 (defaultDustThreshold c) ->
  isFusionTransaction_amounts c ins outs size = true ->
  sum_Z outs = u64 (sum_Z ins) /\ Forall (fun x => 0 < x) outs /\ Sorted Z.le outs /\
  fusionTxMinInputCount c <= zlen ins /\ zlen outs * fusionTxMinInOutCountRatio c <= zlen ins /\
  size <= fusionTxMaxSize c.
Proof.
  intros Hd. unfold isFusionTransaction_amounts. repeat (case_step; [done|]). zbool. intros E. zbool. subst outs.
  destruct (decompose_parts (sum_u64 ins) (defaultDustThreshold c)) as [Es HF];
    [rewrite sum_u64_spec; apply u64_range|done|].
  assert (HP := merge_sort_Permutation Z.le (decomposeAmount (sum_u64 ins) (defaultDustThreshold c))).
  split_and!; try lia.
  - rewrite HP. unfold decomposeAmount. by rewrite Es, sum_u64_spec.
  - rewrite HP. eapply Forall_impl; [exact HF|]. by intros x [? _].
  - apply Sorted_merge_sort, _.
Qed.

Lemma fusion_conserves_witness :
  isFusionTransaction_amounts default_currency (replicate 12 50) [600] 1000 = true /\
  sum_Z [600] = u64 (sum_Z (replicate 12 50)).
Proof.
  split; [vm_compute; reflexivity|].
  refine (proj1 (fusion_conserves default_currency (replicate 12 50) [600] 1000 _ _)); [|vm_compute; reflexivity].
  vm_compute. intuition discriminate.
Defined.

(** * Two properties the code does not have *)

Definition key_in (amount : Z) : TransactionInput :=
  InKey {| ki_amount := amount; outputIndexes := []; keyImage := [] |}.
Definition key_out (amount : Z) : TransactionOutput :=
  {| out_amount := amount; target := OutKey {| ko_key := [] |} |}.
Definition tx_of (ins : list TransactionInput) (outs : list TransactionOutput) : Transaction :=
  {| prefix := {| version := 1; unlockTime := 0; inputs := ins; outputs := outs; extra := [] |}; signatures := [] |}.

(** A transaction that spends 1000 and pays out a million has a fee: an
    overspend beyond the minimum fee is taken for interest. *)
Lemma overspending_has_fee :
  getTransactionFee (tx_of [key_in 1000] [key_out 1000000]) = Ok (Some 100) /\
  getTransactionFee (tx_of [key_in 1000] [key_out 1050]) = Ok None.
Proof. by vm_compute. Qed.

(** [check_inputs_overflow] allows for 4% interest, [calculateInterest] pays 8%:
    an input can pass the check and its amount with interest still wrap. *)
Lemma interest_escapes_overflow_check :
  let i := InMultisignature {| mi_amount := 17700000000000000000; signatureCount := 1; outputIndex := 0; mi_term := 262800 |} in
  check_inputs_overflow (prefix (tx_of [i] [])) = true /\
  exists v, getTransactionInputAmount i = Ok v /\ v < 17700000000000000000.
Proof. split; [by vm_compute|]. eexists. split; [by vm_compute|lia]. Qed.

(** * Genesis *)

(** The hard-coded genesis transaction parses, is a base transaction of height 0
    and pays exactly the base reward of height 0. *)
Lemma genesis_block_valid :
  exists b, generateGenesisBlock (B := debug_build) default_currency = Ok (Some b) /\
    get_block_height b = 0 /\
    baseRewardFunction default_currency 0 0 = Ok (get_outs_money_amount (baseTransaction b)).
Proof. eexists. split; [vm_compute; reflexivity|]. by vm_compute. Qed.
