(* ===== verification/Difficulty.v ===== *)
(** Proof of work difficulty: [CryptoNoteCore/Difficulty.cpp] ([check_hash]) and
    [Currency::LWMA3Difficulty].  *)
From S2P Require Import Prelude IntUtil Stream CryptoNote Currency.

(** * [check_hash] *)

(** [mul] through [unsigned __int128]. *)
Definition mul (a b : Z) : Z * Z :=
  let res := a * b in (u64 res, u64 (Z.shiftr res 64)).

Definition cadd (a b : Z) : bool := u64 (a + b) <? a.
Definition cadc (a b : Z) (c : bool) : bool :=
  (u64 (a + b) <? a) || (c && (u64 (a + b) =? UINT64_MAX)).

(** Word [i] of the hash, little-endian. *)
Definition hash_word (hash : list Z) (i : nat) : Z := le_combine (take 8 (drop (8 * i) hash)).

Definition check_hash (hash : list Z) (difficulty : Z) : bool :=
  let '(top, high) := mul (hash_word hash 3) difficulty in
  if negb (high =? 0) then false else
  let '(low, cur) := mul (hash_word hash 0) difficulty in
  let '(low, high) := mul (hash_word hash 1) difficulty in
  let carry := cadd cur low in
  let cur := high in
  let '(low, high) := mul (hash_word hash 2) difficulty in
  let carry := cadc cur low carry in
  let carry := cadc high top carry in
  negb carry.

(** * [LWMA3Difficulty] *)

(** The loop over the last [N] solve times, from [i] up; state: weighted sum,
    sum of the last three solve times, previous timestamp. *)
Fixpoint lwma_loop (fuel : nat) (T N i : Z) (timestamps : list Z) (L sum_3_ST previous : Z) : outcome (Z * Z) :=
  match fuel with
  | O => Ok (L, sum_3_ST)
  | S fuel =>
      t ← vget timestamps i;
      let this_timestamp := if previous <? t then t else u64 (previous + 1) in
      let ST := Z.min (6 * T) (u64 (this_timestamp - previous)) in
      let L := u64 (L + u64 (ST * i)) in
      let sum_3_ST := if u64 (N - 3) <? i then u64 (sum_3_ST + ST) else sum_3_ST in
      lwma_loop fuel T N (i + 1) timestamps L sum_3_ST this_timestamp
  end.

Section LWMA.
Context {B : BuildConfig}.
Variable c : Currency.

(** The part after the choice of [N]. *)
Definition lwma_next (T N : Z) (timestamps cumulative_difficulties : list Z) : outcome Z :=
  previous_timestamp ← vget timestamps 0;
  '(L, sum_3_ST) ← lwma_loop (Z.to_nat N) T N 1 timestamps 0 0 previous_timestamp;
  cdN ← vget cumulative_difficulties N;
  cd0 ← vget cumulative_difficulties 0;
  let denominator := u64 (u64 (100 * 2) * L) in
  if denominator =? 0 then Undefined else
  let next_D := u64 (u64 (u64 (u64 (cdN - cd0) * T) * (N + 1)) * 99) / denominator in
  cdM ← vget cumulative_difficulties (N - 1);
  let prev_D := u64 (cdN - cdM) in
  let next_D := Z.max (u64 (prev_D * 67) / 100) (Z.min next_D (u64 (prev_D * 150) / 100)) in
  let next_D := if sum_3_ST <? (8 * T) / 10 then Z.max next_D (u64 (prev_D * 108) / 100) else next_D in
  Ok next_D.

Definition LWMA3Difficulty (timestamps cumulative_difficulties : list Z) : outcome Z :=
  let T := 120 in
  let N := 60 in
  let length := zlen timestamps in
  _ ← massert (length <=? difficultyWindow c);
  if length <=? 1 then Ok 1 else
  _ ← massert ((zlen timestamps =? zlen cumulative_difficulties) && (zlen timestamps <=? N + 1));
  let difficulty_guess := 100 in
  if zlen timestamps <=? 10 then Ok difficulty_guess else
  let N := if zlen timestamps <? N + 1 then zlen timestamps - 1 else N in
  lwma_next T N timestamps cumulative_difficulties.
End LWMA.

(** * [check_hash] compares the 256-bit product *)

Lemma mul_spec a b :
  is_u64 a -> is_u64 b -> a * b = (mul a b).1 + 18446744073709551616 * (mul a b).2 /\ is_u64 (mul a b).1 /\ is_u64 (mul a b).2.
Proof.
  intros Ha Hb. unfold mul. cbn [fst snd]. rewrite Z.shiftr_div_pow2 by lia.
  change (2 ^ 64) with 18446744073709551616. unfold is_u64 in *.
  rewrite (u64_small (a * b / _)) by (wunfold; split; [apply Z.div_pos; nia|apply Z.div_lt_upper_bound; nia]).
  split; [unfold u64; pose proof (Z.div_mod (a * b) 18446744073709551616); lia|].
  split; [apply u64_range|]. split; [apply Z.div_pos; nia|apply Z.div_lt_upper_bound; nia].
Qed.

Lemma cadd_spec a b : is_u64 a -> is_u64 b -> cadd a b = (18446744073709551616 <=? a + b).
Proof.
  intros Ha Hb. unfold cadd. destruct (Z.leb_spec 18446744073709551616 (a + b)).
  - apply Z.ltb_lt. mlia.
  - apply Z.ltb_ge. mlia.
Qed.

Lemma cadc_spec a b c : is_u64 a -> is_u64 b -> cadc a b c = (18446744073709551616 <=? a + b + Z.b2z c).
Proof.
  intros Ha Hb. unfold cadc.
  replace (u64 (a + b) <? a) with (18446744073709551616 <=? a + b) by (symmetry; by apply cadd_spec).
  destruct (Z.leb_spec 18446744073709551616 (a + b)); destruct c; cbn [orb andb Z.b2z];
    destruct (Z.leb_spec 18446744073709551616 (a + b + 1)), (Z.leb_spec 18446744073709551616 (a + b + 0)); try lia; try done;
    destruct (Z.eqb_spec (u64 (a + b)) UINT64_MAX) as [E|E]; try done; revert E; mlia.
Qed.

Lemma hash_value hash :
  length hash = 32%nat -> Forall is_u8 hash ->
  le_combine hash = hash_word hash 0 + 2 ^ 64 * (hash_word hash 1 + 2 ^ 64 * (hash_word hash 2 + 2 ^ 64 * hash_word hash 3)) /\
  forall i, (i < 4)%nat -> is_u64 (hash_word hash i).
Proof.
  intros Hl HF. split.
  - unfold le_combine, hash_word, le_combine. change (8 * 0)%nat with 0%nat. rewrite drop_0.
    assert (E : forall l, (8 <= length l)%nat -> value 256 l = value 256 (take 8 l) + 2 ^ 64 * value 256 (drop 8 l)).
    { intros l Hlen. rewrite <- (take_drop 8 l) at 1. rewrite value_app by lia. f_equal. f_equal.
      unfold zlen. rewrite length_take, Nat.min_l by lia. done. }
    rewrite (E hash) by lia. rewrite (E (drop 8 hash)) by (rewrite length_drop; lia).
    rewrite (E (drop 8 (drop 8 hash))) by (rewrite !length_drop; lia). rewrite !drop_drop.
    cbn [Nat.add Nat.mul]. rewrite (take_ge (drop 24 hash)) by (rewrite length_drop; lia). done.
  - intros i Hi. unfold hash_word, le_combine, is_u64.
    pose proof (value_bound 256 (take 8 (drop (8 * i) hash)) ltac:(lia)) as V.
    assert (zlen (take 8 (drop (8 * i) hash)) = 8) as E by (unfold zlen; rewrite length_take, length_drop; lia).
    rewrite E in V. apply V. by apply Forall_take, Forall_drop.
Qed.

(** [check_hash] decides exactly whether the hash, read as a 256-bit
    little-endian number, times the difficulty stays below 2^256: the word-wise
    carries lose nothing. *)
Theorem check_hash_exact (hash : list Z) (difficulty : Z) :
  length hash = 32%nat -> Forall is_u8 hash -> is_u64 difficulty ->
  check_hash hash difficulty = true <-> le_combine hash * difficulty < 2 ^ 256.
Proof.
  intros Hl HF Hd. destruct (hash_value hash Hl HF) as [-> Hw].
  pose proof (Hw 0%nat ltac:(lia)) as H0. pose proof (Hw 1%nat ltac:(lia)) as H1.
  pose proof (Hw 2%nat ltac:(lia)) as H2. pose proof (Hw 3%nat ltac:(lia)) as H3. clear Hw.
  unfold check_hash.
  destruct (mul_spec _ _ H3 Hd) as (E3 & L3 & R3). destruct (mul_spec _ _ H0 Hd) as (E0 & L0 & R0).
  destruct (mul_spec _ _ H1 Hd) as (E1 & L1 & R1). destruct (mul_spec _ _ H2 Hd) as (E2 & L2 & R2).
  destruct (mul (hash_word hash 3) difficulty) as [top high3].
  destruct (mul (hash_word hash 0) difficulty) as [low0 cur0].
  destruct (mul (hash_word hash 1) difficulty) as [low1 high1].
  destruct (mul (hash_word hash 2) difficulty) as [low2 high2]. cbn [fst snd] in *.
  change (2 ^ 64) with 18446744073709551616.
  change (2 ^ 256) with (18446744073709551616 * (18446744073709551616 * (18446744073709551616 * 18446744073709551616))).
  set (W := 18446744073709551616) in *.
  replace ((hash_word hash 0 + W * (hash_word hash 1 + W * (hash_word hash 2 + W * hash_word hash 3))) * difficulty)
    with (low0 + W * ((cur0 + low1) + W * ((high1 + low2) + W * ((high2 + top) + W * high3)))) by nia.
  clear E0 E1 E2 E3 H0 H1 H2 H3. unfold is_u64 in *. subst W.
  destruct (Z.eqb_spec high3 0) as [->|Hn]; cbn [negb]; [|split; [done|lia]].
  rewrite cadd_spec, !cadc_spec by (wunfold; lia).
  destruct (Z.leb_spec 18446744073709551616 (cur0 + low1)); cbn [Z.b2z];
  match goal with |- context [Z.b2z (?a <=? ?b)] => destruct (Z.leb_spec a b) end; cbn [Z.b2z];
  match goal with |- context [negb (?a <=? ?b)] => destruct (Z.leb_spec a b) end; cbn [negb]; split; done || lia.
Qed.

Lemma check_hash_exact_witness :
  check_hash (replicate 31 0 ++ [1]) 200 = true /\
  (check_hash (replicate 31 0 ++ [1]) 256 = true <-> le_combine (replicate 31 0 ++ [1]) * 256 < 2 ^ 256).
Proof.
  split; [vm_compute; reflexivity|].
  apply (check_hash_exact (replicate 31 0 ++ [1]) 256); [reflexivity| |unfold is_u64; lia].
  apply Forall_app. split; [apply Forall_replicate; unfold is_u8; lia|repeat constructor; unfold is_u8; lia].
Defined.

(** * The LWMA step is bounded *)

Lemma lwma_loop_spec fuel N i ts L s previous :
  1 <= i -> i + Z.of_nat fuel <= 61 -> i + Z.of_nat fuel <= zlen ts ->
  Forall (fun t => 0 <= t < 2 ^ 63) ts -> 0 <= previous < 2 ^ 63 + i -> 0 <= L <= 43200 * i ->
  exists L' s', lwma_loop fuel 120 N i ts L s previous = Ok (L', s') /\
    L + Z.of_nat fuel <= L' <= L + 43200 * Z.of_nat fuel.
Proof.
  change (2 ^ 63) with 9223372036854775808. revert i L s previous.
  induction fuel as [|fuel IH]; intros i L s previous Hi Hf Hl HF Hp HL; cbn [lwma_loop].
  { exists L, s. split; [done|lia]. }
  destruct (vget_in_range ts i) as [t Ht]; [lia|]. rewrite Ht. cbn [mbind outcome_bind].
  assert (Htr : 0 <= t < 9223372036854775808).
  { apply vget_Ok in Ht as [_ Ht]. eapply Forall_lookup_1 in HF; [|exact Ht]. done. }
  set (this := if previous <? t then t else u64 (previous + 1)).
  assert (Hthis : previous < this < 9223372036854775808 + (i + 1)).
  { unfold this. destruct (Z.ltb_spec previous t); [lia|]. rewrite u64_small by (wunfold; lia). lia. }
  clearbody this. rewrite (u64_small (this - previous)) by (wunfold; lia).
  set (ST := Z.min (6 * 120) (this - previous)). assert (HST : 1 <= ST <= 720) by lia. clearbody ST.
  assert (1 <= ST * i <= 43200) by nia.
  rewrite (u64_small (ST * i)), (u64_small (L + ST * i)) by (wunfold; nia).
  destruct (IH (i + 1) (L + ST * i) (if u64 (N - 3) <? i then u64 (s + ST) else s) this) as (L' & s' & -> & HL');
    [lia|lia|lia|done|lia|nia|]. exists L', s'. split; [done|]. lia.
Qed.

Section LWMATheory.
Context {B : BuildConfig}.

(** The difficulty moves slowly and the computation is defined: on a window
    of 11 to 61 blocks with increasing cumulative difficulties, [LWMA3Difficulty]
    returns (in both build configurations) a difficulty between 67% and 150% of
    that of the last block of the window. *)
Theorem LWMA3_bounded (c : Currency) (ts cds : list Z) (cdN cdM : Z) :
  11 <= zlen ts <= 61 -> zlen cds = zlen ts -> zlen ts <= difficultyWindow c ->
  Forall (fun t => 0 <= t < 2 ^ 63) ts -> 
  vget cds (zlen cds - 1) = Ok cdN -> vget cds (zlen cds - 2) = Ok cdM ->
  0 <= cdM <= cdN -> cdN < 2 ^ 64 -> (cdN - cdM) * 150 < 2 ^ 64 ->
  exists d, LWMA3Difficulty c ts cds = Ok d /\
    (cdN - cdM) * 67 / 100 <= d <= (cdN - cdM) * 150 / 100.
Proof.
  change (2 ^ 64) with 18446744073709551616.
  intros Hlen Hlc Hw Hts HN HM Hle HcN Hov. unfold LWMA3Difficulty. cbv zeta.
  rewrite (massert_true (zlen ts <=? difficultyWindow c)) by (apply Z.leb_le; lia). cbn [mbind outcome_bind].
  destruct (Z.leb_spec (zlen ts) 1); [lia|].
  rewrite massert_true by (apply andb_true_intro; split; [apply Z.eqb_eq|apply Z.leb_le]; lia). cbn [mbind outcome_bind].
  destruct (Z.leb_spec (zlen ts) 10); [lia|].
  replace (if zlen ts <? 60 + 1 then zlen ts - 1 else 60) with (zlen ts - 1)
    by (destruct (Z.ltb_spec (zlen ts) (60 + 1)); lia). unfold lwma_next.
  destruct (vget_in_range ts 0) as [t0 Ht0]; [lia|]. rewrite Ht0. cbn [mbind outcome_bind].
  assert (Ht0r : 0 <= t0 < 2 ^ 63).
  { apply vget_Ok in Ht0 as [_ Ht0]. eapply Forall_lookup_1 in Hts; [|exact Ht0]. done. }
  destruct (lwma_loop_spec (Z.to_nat (zlen ts - 1)) (zlen ts - 1) 1 ts 0 0 t0) as (L & s3 & -> & HL); try done; [lia..|].
  cbn [mbind outcome_bind]. rewrite <- Hlc, HN. cbn [mbind outcome_bind].
  destruct (vget_in_range cds 0) as [cd0 ->]; [lia|]. cbn [mbind outcome_bind].
  change (u64 (100 * 2)) with 200. rewrite (u64_small (200 * L)) by (wunfold; lia).
  destruct (Z.eqb_spec (200 * L) 0); [lia|].
  replace (zlen cds - 1 - 1) with (zlen cds - 2) by lia. rewrite HM. cbn [mbind outcome_bind].
  rewrite (u64_small (cdN - cdM)) by (wunfold; lia).
  rewrite (u64_small ((cdN - cdM) * 67)), (u64_small ((cdN - cdM) * 150)), (u64_small ((cdN - cdM) * 108)) by (wunfold; lia).
  assert (0 <= cdN - cdM) by lia. set (p := cdN - cdM) in *. set (q := _ / (200 * L)). clearbody p q.
  eexists. split; [reflexivity|]. assert (p * 67 / 100 <= p * 108 / 100 <= p * 150 / 100) by (split; apply Z.div_le_mono; lia).
  destruct (s3 <? 8 * 120 / 10); lia.
Qed.
End LWMATheory.

Definition sample_window (n : nat) : list Z := map (fun i => 1000 + 120 * Z.of_nat i) (seq 0 n).
Definition sample_cds (n : nat) : list Z := map (fun i => 500 * Z.of_nat i) (seq 0 n).

Lemma LWMA3_bounded_witness :
  LWMA3Difficulty (B := debug_build) default_currency (sample_window 61) (sample_cds 61) = Ok 495 /\
  exists d, LWMA3Difficulty (B := debug_build) default_currency (sample_window 61) (sample_cds 61) = Ok d /\
    (30000 - 29500) * 67 / 100 <= d <= (30000 - 29500) * 150 / 100.
Proof.
  split; [vm_compute; reflexivity|].
  apply (LWMA3_bounded (B := debug_build) default_currency (sample_window 61) (sample_cds 61) 30000 29500);
    [by vm_compute|by vm_compute|by vm_compute| |by vm_compute|by vm_compute|lia|lia|lia].
  apply Forall_map, Forall_forall. intros i Hi. apply elem_of_seq in Hi. lia.
Defined.

(** * Longer windows

    [Blockchain::getDifficultyForNextBlock] passes up to
    [DIFFICULTY_BLOCKS_COUNT] = 121 blocks, oldest first. *)

Lemma vget_take {A} (l : list A) n i : i < Z.of_nat n -> vget (take n l) i = vget l i.
Proof.
  intros Hi. unfold vget. destruct (Z.ltb_spec i 0); [done|]. by rewrite lookup_take_lt by lia.
Qed.

Lemma lwma_loop_take fuel T N i ts L s previous n :
  1 <= i -> i + Z.of_nat fuel <= Z.of_nat n ->
  lwma_loop fuel T N i (take n ts) L s previous = lwma_loop fuel T N i ts L s previous.
Proof.
  revert i L s previous. induction fuel as [|fuel IH]; intros i L s previous Hi Hf; [done|].
  cbn [lwma_loop]. rewrite vget_take by lia. destruct (vget ts i); [|done..]. cbn [mbind outcome_bind].
  apply IH; lia.
Qed.

Lemma lwma_next_take T N ts cds n :
  1 <= N < Z.of_nat n -> lwma_next T N (take n ts) (take n cds) = lwma_next T N ts cds.
Proof.
  intros HN. unfold lwma_next. rewrite !vget_take by lia.
  destruct (vget ts 0) as [t0| | |]; [|done..]. cbn [mbind outcome_bind].
  by rewrite lwma_loop_take by lia.
Qed.

(** With more than 61 blocks the algorithm fails its own assertion, and
    where assertions are compiled out it uses the 61 oldest blocks of the window
    and none of the recent ones. *)
Theorem LWMA3_long_window (c : Currency) (ts cds : list Z) :
  61 < zlen ts -> zlen cds = zlen ts ->
  LWMA3Difficulty (B := debug_build) c ts cds = AssertFailed /\
  LWMA3Difficulty (B := release_build) c ts cds =
  LWMA3Difficulty (B := release_build) c (take 61 ts) (take 61 cds).
Proof.
  intros Hl Hc. assert (Ht : zlen (take 61 ts) = 61) by (unfold zlen in *; rewrite length_take; lia). split.
  - unfold LWMA3Difficulty, massert. cbn [NDEBUG debug_build].
    destruct (zlen ts <=? difficultyWindow c); [|done]. cbn [mbind outcome_bind].
    destruct (Z.leb_spec (zlen ts) 1); [lia|].
    destruct (Z.leb_spec (zlen ts) (60 + 1)); [lia|]. by rewrite andb_false_r.
  - unfold LWMA3Difficulty, massert. cbn [NDEBUG release_build mbind outcome_bind]. rewrite Ht.
    destruct (Z.leb_spec (zlen ts) 1); [lia|]. destruct (Z.leb_spec (zlen ts) 10); [lia|].
    destruct (Z.ltb_spec (zlen ts) (60 + 1)); [lia|].
    change (61 <=? 1) with false. change (61 <=? 10) with false. change (61 <? 60 + 1) with false. cbv iota.
    symmetry. apply lwma_next_take. lia.
Qed.

Lemma LWMA3_long_window_witness :
  LWMA3Difficulty (B := debug_build) default_currency (sample_window 120) (sample_cds 120) = AssertFailed.
Proof. apply (LWMA3_long_window default_currency (sample_window 120) (sample_cds 120)); reflexivity. Defined.
