(* ===== verification/DepositIndex.v ===== *)
(** The deposit index: [CryptoNoteCore/DepositIndex.cpp].
    ([CryptoNoteCore/InvestmentIndex.cpp] is the same code under other names.)

    The index keeps one entry, with running totals, for each block that changed
    the deposited amount.  Its specification is the plain history of what was
    pushed for each block: [rep d hist]. *)
From S2P Require Import Prelude Stream Serializer.

Record DepositIndexEntry := { de_height : Z; de_amount : Z; de_interest : Z }.
Record DepositIndex := { index : list DepositIndexEntry; blockCount : Z }.

#[export] Instance DepositIndexEntry_eq_dec : EqDecision DepositIndexEntry.
Proof. solve_decision. Defined.

Definition empty_index : DepositIndex := {| index := []; blockCount := 0 |}.

Definition last_amount (l : list DepositIndexEntry) : Z :=
  match last l with Some e => de_amount e | None => 0 end.
Definition last_interest (l : list DepositIndexEntry) : Z :=
  match last l with Some e => de_interest e | None => 0 end.

Definition fullDepositAmount (d : DepositIndex) : Z := last_amount (index d).
Definition fullInterestAmount (d : DepositIndex) : Z := last_interest (index d).

Definition INT64_MAX : Z := 9223372036854775807.
Definition INT64_MIN : Z := -9223372036854775808.

(** [sumWillOverflow] for signed and unsigned operands. *)
Definition sumWillOverflow_signed (x y : Z) : bool :=
  if (0 <? y) && (INT64_MAX - y <? x) then true
  else if (y <? 0) && (x <? INT64_MIN - y) then true
  else false.
Definition sumWillOverflow_unsigned (x y : Z) : bool := UINT64_MAX - y <? x.

(** [upperBound]: position of the first entry above the height. *)
Fixpoint upperBound (l : list DepositIndexEntry) (height : Z) : nat :=
  match l with
  | [] => 0
  | e :: l => if height <? de_height e then 0 else S (upperBound l height)
  end.

Section Operations.
Context {B : BuildConfig}.

(** A signed overflow of [amount + lastAmount] is undefined behaviour. *)
Definition pushBlock (d : DepositIndex) (amount interest : Z) : outcome DepositIndex :=
  let lastAmount := last_amount (index d) in
  let lastInterest := last_interest (index d) in
  _ ← massert (negb (sumWillOverflow_signed amount lastAmount));
  _ ← massert (negb (sumWillOverflow_unsigned interest lastInterest));
  if bool_decide (is_i64 (amount + lastAmount)) then
    _ ← massert (0 <=? amount + lastAmount);
    Ok {| index := if negb (amount =? 0)
                   then index d ++ [{| de_height := blockCount d; de_amount := amount + lastAmount;
                                       de_interest := u64 (interest + lastInterest) |}]
                   else index d;
          blockCount := u32 (blockCount d + 1) |}
  else Undefined.

Definition popBlock (d : DepositIndex) : outcome DepositIndex :=
  _ ← massert (0 <? blockCount d);
  let count := u32 (blockCount d - 1) in
  Ok {| index := match last (index d) with
                 | Some e => if de_height e =? count then vpop (index d) else index d
                 | None => index d
                 end;
        blockCount := count |}.

Definition size (d : DepositIndex) : Z := blockCount d.

Definition popBlocks (d : DepositIndex) (from : Z) : Z * DepositIndex :=
  if blockCount d <=? from then (0, d) else
  let it := upperBound (index d) from in
  let it := match it with
            | O => O
            | S p => match index d !! p with
                     | Some e => if negb (de_height e =? from) then it else p
                     | None => it
                     end
            end in
  let diff := u32 (blockCount d - from) in
  (diff, {| index := take it (index d); blockCount := u32 (blockCount d - diff) |}).

(** The entry before the upper bound. *)
Definition entry_at (d : DepositIndex) (height : Z) : option DepositIndexEntry :=
  match upperBound (index d) height with O => None | S p => index d !! p end.

Definition depositAmountAtHeight (d : DepositIndex) (height : Z) : Z :=
  if blockCount d =? 0 then 0
  else match entry_at d height with Some e => de_amount e | None => 0 end.
Definition depositInterestAtHeight (d : DepositIndex) (height : Z) : Z :=
  if blockCount d =? 0 then 0
  else match entry_at d height with Some e => de_interest e | None => 0 end.

Definition serialize_entry {S} (s : ISerializer S) (e : DepositIndexEntry) : ser S DepositIndexEntry :=
  h ← ser_uint32 s (de_height e);
  a ← ser_int64 s (de_amount e);
  i ← ser_uint64 s (de_interest e);
  mret {| de_height := h; de_amount := a; de_interest := i |}.

(** [readSequence]/[writeSequence]: reading appends to the index. *)
Definition serialize_DepositIndex {S} (s : ISerializer S) (d : DepositIndex) : ser S DepositIndex :=
  n ← ser_uint32 s (blockCount d);
  match type s with
  | INPUT =>
      '(_, size) ← beginArray s 0;
      l ← serialize_items (serialize_object s serialize_entry)
            (replicate (Z.to_nat size) {| de_height := 0; de_amount := 0; de_interest := 0 |});
      _ ← endArray s;
      mret {| index := index d ++ l; blockCount := n |}
  | OUTPUT =>
      _ ← beginArray s (zlen (index d));
      l ← serialize_items (serialize_object s serialize_entry) (index d);
      _ ← endArray s;
      mret {| index := l; blockCount := n |}
  end.
End Operations.

(** * Specification: the history of pushed blocks *)

Notation history := (list (Z * Z)).

Definition total_amount (hist : history) : Z := sum_Z (map fst hist).
Definition total_interest (hist : history) : Z := sum_Z (map snd hist).

(** The interest of the blocks in which deposits and withdrawals cancel out:
    the index makes no entry for such a block. *)
Definition cancelled_interest (hist : history) : Z :=
  sum_Z (map (fun b => if b.1 =? 0 then b.2 else 0) hist).

(** What the entries add up to. *)
Definition recorded_interest (hist : history) : Z :=
  sum_Z (map (fun b => if b.1 =? 0 then 0 else b.2) hist).

Fixpoint entries_from (h a i : Z) (hist : history) : list DepositIndexEntry :=
  match hist with
  | [] => []
  | (x, y) :: hist =>
      if x =? 0 then entries_from (h + 1) a i hist
      else {| de_height := h; de_amount := a + x; de_interest := i + y |} ::
           entries_from (h + 1) (a + x) (i + y) hist
  end.

Definition rep (d : DepositIndex) (hist : history) : Prop :=
  index d = entries_from 0 0 0 hist /\ blockCount d = zlen hist.

(** Histories a chain can have: amounts never negative in total, nothing
    overflows, and fewer than 2^32 blocks. *)
Definition history_ok (hist : history) : Prop :=
  zlen hist < 4294967295 /\
  (forall n, 0 <= total_amount (take n hist) <= INT64_MAX) /\
  sum_Z (map snd hist) <= UINT64_MAX /\
  Forall (fun b => is_i64 b.1 /\ is_u64 b.2) hist.

Lemma total_amount_app l k : total_amount (l ++ k) = total_amount l + total_amount k.
Proof. unfold total_amount. by rewrite map_app, sum_Z_app. Qed.
Lemma recorded_interest_app l k : recorded_interest (l ++ k) = recorded_interest l + recorded_interest k.
Proof. unfold recorded_interest. by rewrite map_app, sum_Z_app. Qed.

Lemma recorded_interest_total hist : recorded_interest hist + cancelled_interest hist = total_interest hist.
Proof.
  unfold recorded_interest, cancelled_interest, total_interest, sum_Z.
  induction hist as [|[x y] hist IH]; [done|]. cbn [map foldr fst snd]. destruct (x =? 0); lia.
Qed.

Lemma cancelled_interest_zero hist :
  Forall (fun b => b.1 = 0 -> b.2 = 0) hist -> cancelled_interest hist = 0.
Proof.
  unfold cancelled_interest, sum_Z. induction 1 as [|[x y] hist Hb _ IH]; [done|]. cbn [map foldr fst snd] in *.
  destruct (Z.eqb_spec x 0); [rewrite Hb by done|]; lia.
Qed.

Lemma entries_app h a i l k :
  entries_from h a i (l ++ k) =
  entries_from h a i l ++ entries_from (h + zlen l) (a + total_amount l) (i + recorded_interest l) k.
Proof.
  revert h a i. induction l as [|[x y] l IH]; intros h a i.
  - cbn. by rewrite !Z.add_0_r.
  - cbn [app entries_from]. rewrite zlen_cons. unfold total_amount, recorded_interest in *. cbn [map fst snd sum_Z foldr].
    destruct (Z.eqb_spec x 0) as [->|Hx]; rewrite IH.
    + f_equal. f_equal; unfold sum_Z; lia.
    + cbn [app]. f_equal. f_equal. f_equal; unfold sum_Z; lia.
Qed.

Lemma entries_last h a i hist :
  match last (entries_from h a i hist) with
  | Some e => de_amount e = a + total_amount hist /\ de_interest e = i + recorded_interest hist /\ h <= de_height e < h + zlen hist
  | None => total_amount hist = 0 /\ recorded_interest hist = 0
  end.
Proof.
  induction hist as [|[x y] hist IH] using rev_ind; [done|].
  rewrite entries_app, total_amount_app, recorded_interest_app, zlen_app. cbn [entries_from].
  change (total_amount [(x, y)]) with (x + 0). change (recorded_interest [(x, y)]) with ((if x =? 0 then 0 else y) + 0).
  change (zlen [(x, y)]) with 1. destruct (Z.eqb_spec x 0) as [->|Hx].
  - rewrite app_nil_r. destruct (last _); lia.
  - rewrite last_snoc. cbn [de_amount de_interest de_height]. pose proof (zlen_nonneg hist). lia.
Qed.

Lemma last_amount_spec hist : last_amount (entries_from 0 0 0 hist) = total_amount hist.
Proof. unfold last_amount. pose proof (entries_last 0 0 0 hist). destruct (last _); lia. Qed.
Lemma last_interest_spec hist : last_interest (entries_from 0 0 0 hist) = recorded_interest hist.
Proof. unfold last_interest. pose proof (entries_last 0 0 0 hist). destruct (last _); lia. Qed.

Lemma entries_heights h a i hist :
  Forall (fun e => h <= de_height e < h + zlen hist) (entries_from h a i hist).
Proof.
  revert h a i. induction hist as [|[x y] hist IH]; intros h a i; [constructor|].
  cbn [entries_from]. rewrite zlen_cons. pose proof (zlen_nonneg hist).
  assert (HF : forall a i, Forall (fun e => h <= de_height e < h + (1 + zlen hist)) (entries_from (h + 1) a i hist)).
  { intros. eapply Forall_impl; [apply IH|]. cbn. lia. }
  destruct (x =? 0); [done|]. constructor; [cbn; lia|done].
Qed.

Lemma upperBound_app l k height :
  Forall (fun e => de_height e <= height) l -> Forall (fun e => height < de_height e) k ->
  upperBound (l ++ k) height = length l.
Proof.
  intros Hl Hk. induction Hl as [|e l He Hl IH]; cbn [app upperBound length].
  - destruct Hk as [|e k He Hk]; [done|]. cbn. by destruct (Z.ltb_spec height (de_height e)); [|lia].
  - destruct (Z.ltb_spec height (de_height e)); [lia|]. by rewrite IH.
Qed.

(** Splitting the entries of a history at a block. *)
Lemma entries_split hist n :
  (n <= length hist)%nat ->
  exists k, entries_from 0 0 0 hist = entries_from 0 0 0 (take n hist) ++ k /\
    Forall (fun e => de_height e < Z.of_nat n) (entries_from 0 0 0 (take n hist)) /\
    Forall (fun e => Z.of_nat n <= de_height e) k.
Proof.
  intros Hn. pose proof (entries_app 0 0 0 (take n hist) (drop n hist)) as E. rewrite take_drop in E.
  eexists. split; [exact E|].
  assert (Hz : zlen (take n hist) = Z.of_nat n) by (unfold zlen; rewrite length_take; lia).
  split; (eapply Forall_impl; [apply entries_heights|]); cbn; lia.
Qed.

Lemma recorded_interest_bound hist :
  Forall (fun b => is_i64 b.1 /\ is_u64 b.2) hist -> 0 <= recorded_interest hist <= sum_Z (map snd hist).
Proof.
  unfold recorded_interest. induction 1 as [|[x y] hist [_ Hy] HF IH]; [done|].
  cbn [map fst snd] in *. unfold is_u64 in Hy. destruct (x =? 0); cbn [sum_Z foldr]; unfold sum_Z in *; lia.
Qed.

Section Refinement.
Context {B : BuildConfig}.

Lemma pushBlock_rep d hist x y :
  rep d hist -> history_ok (hist ++ [(x, y)]) ->
  exists d', pushBlock d x y = Ok d' /\ rep d' (hist ++ [(x, y)]).
Proof.
  intros [Ei Ec] (Hl & Hs & Hi & HF). unfold pushBlock. rewrite Ei, Ec, last_amount_spec, last_interest_spec.
  pose proof (Hs (length hist)) as Ha0. rewrite take_app_length in Ha0.
  pose proof (Hs (length (hist ++ [(x, y)]))) as Ha1. rewrite firstn_all, total_amount_app in Ha1.
  change (total_amount [(x, y)]) with (x + 0) in Ha1.
  rewrite map_app, sum_Z_app in Hi. change (sum_Z (map snd [(x, y)])) with (y + 0) in Hi.
  apply Forall_app in HF as [HF [Hxy _]%Forall_cons]. destruct Hxy as [Hx Hy]. cbn [fst snd] in Hx, Hy.
  pose proof (recorded_interest_bound hist HF) as Ht. unfold is_i64 in Hx. unfold is_u64 in Hy.
  unfold INT64_MAX, UINT64_MAX in *. rewrite zlen_app in Hl. change (zlen [(x, y)]) with 1 in Hl.
  rewrite (massert_true (negb (sumWillOverflow_signed _ _))).
  2:{ unfold sumWillOverflow_signed, INT64_MAX, INT64_MIN. apply negb_true_iff.
      destruct (Z.ltb_spec 0 (total_amount hist)), (Z.ltb_spec (9223372036854775807 - total_amount hist) x),
        (Z.ltb_spec (total_amount hist) 0); cbn; lia || done. }
  cbn [mbind outcome_bind]. rewrite (massert_true (negb (sumWillOverflow_unsigned _ _))).
  2:{ unfold sumWillOverflow_unsigned, UINT64_MAX. apply negb_true_iff, Z.ltb_ge. lia. }
  cbn [mbind outcome_bind]. rewrite bool_decide_eq_true_2 by (unfold is_i64; lia).
  rewrite massert_true by (apply Z.leb_le; lia). cbn [mbind outcome_bind].
  eexists. split; [done|]. split; cbn [index blockCount].
  - rewrite entries_app. cbn [entries_from]. destruct (Z.eqb_spec x 0); cbn [negb]; [by rewrite app_nil_r|].
    rewrite (u64_small (y + _)) by (wunfold; lia). do 3 f_equal; lia.
  - rewrite zlen_app, u32_small by (pose proof (zlen_nonneg hist); wunfold; lia). done.
Qed.

Lemma popBlock_rep d hist b :
  rep d (hist ++ [b]) -> zlen hist < 4294967295 -> exists d', popBlock d = Ok d' /\ rep d' hist.
Proof.
  intros [Ei Ec] Hl. unfold popBlock. rewrite Ec, zlen_app. change (zlen [b]) with 1. pose proof (zlen_nonneg hist).
  rewrite massert_true by (apply Z.ltb_lt; lia). cbn [mbind outcome_bind].
  replace (zlen hist + 1 - 1) with (zlen hist) by lia. rewrite u32_small by (wunfold; lia).
  eexists. split; [done|]. split; cbn [index blockCount]; [|done]. rewrite Ei.
  destruct b as [x y]. rewrite entries_app. cbn [entries_from]. destruct (x =? 0).
  - rewrite app_nil_r. pose proof (entries_last 0 0 0 hist) as El. destruct (last (entries_from 0 0 0 hist)) as [e|]; [|done].
    destruct (Z.eqb_spec (de_height e) (zlen hist)); [lia|done].
  - rewrite last_snoc. cbn [de_height]. rewrite Z.add_0_l, Z.eqb_refl. apply vpop_app.
Qed.

Lemma popBlocks_rep d hist from :
  rep d hist -> zlen hist < 4294967295 -> 0 <= from < zlen hist ->
  exists d', popBlocks d from = (zlen hist - from, d') /\ rep d' (take (Z.to_nat from) hist).
Proof.
  intros [Ei Ec] Hl Hf. unfold popBlocks. rewrite Ei, Ec. destruct (Z.leb_spec (zlen hist) from); [lia|].
  rewrite (u32_small (zlen hist - from)), u32_small by (wunfold; lia).
  destruct (entries_split hist (Z.to_nat from)) as (k & E & H1 & H2); [unfold zlen in *; lia|].
  assert (Hz : zlen (take (Z.to_nat from) hist) = from) by (unfold zlen in *; rewrite length_take; lia).
  set (pre := entries_from 0 0 0 (take (Z.to_nat from) hist)) in *.
  assert (Hit : match upperBound (entries_from 0 0 0 hist) from with
     | O => O | S p => match entries_from 0 0 0 hist !! p with
       | Some e => if negb (de_height e =? from) then upperBound (entries_from 0 0 0 hist) from else p
       | None => upperBound (entries_from 0 0 0 hist) from end end = length pre).
  { destruct (entries_split hist (S (Z.to_nat from))) as (k' & E' & H1' & H2'); [unfold zlen in *; lia|].
    assert (Hub : upperBound (entries_from 0 0 0 hist) from = length (entries_from 0 0 0 (take (S (Z.to_nat from)) hist))).
    { rewrite E'. apply upperBound_app; (eapply Forall_impl; [eassumption|]); cbn; lia. }
    rewrite Hub. destruct (lookup_lt_is_Some_2 hist (Z.to_nat from)) as [[x y] Hb]; [unfold zlen in *; lia|].
    assert (Et : entries_from 0 0 0 (take (S (Z.to_nat from)) hist) =
      pre ++ entries_from from (total_amount (take (Z.to_nat from) hist)) (recorded_interest (take (Z.to_nat from) hist)) [(x, y)]).
    { rewrite (take_S_r _ _ _ Hb), entries_app, Hz. done. }
    rewrite Et. cbn [entries_from]. destruct (x =? 0) eqn:Ex.
    - rewrite app_nil_r. destruct (length pre) as [|p] eqn:Ep; [done|].
      destruct (entries_from 0 0 0 hist !! p) as [e|] eqn:Ee; [|done].
      destruct (Z.eqb_spec (de_height e) from) as [Eh|]; [|done]. exfalso.
      rewrite E, lookup_app_l in Ee by lia. eapply Forall_lookup_1 in H1; [|exact Ee]. cbn in H1. lia.
    - rewrite length_app. cbn [length]. replace (length pre + 1)%nat with (S (length pre)) by lia.
      rewrite E', Et. cbn [entries_from]. rewrite Ex, <- app_assoc.
      rewrite lookup_app_r, Nat.sub_diag by lia. cbn. by rewrite Z.eqb_refl. }
  rewrite Hit. eexists. split; [done|]. split; cbn [index blockCount].
  - rewrite E. apply take_app_length.
  - lia.
Qed.

Lemma lookup_rep d hist height :
  rep d hist -> 0 <= height ->
  depositAmountAtHeight d height = total_amount (take (S (Z.to_nat height)) hist) /\
  depositInterestAtHeight d height = recorded_interest (take (S (Z.to_nat height)) hist).
Proof.
  intros [Ei Ec] Hh. unfold depositAmountAtHeight, depositInterestAtHeight, entry_at. rewrite Ec, Ei.
  destruct (Z.eqb_spec (zlen hist) 0) as [E0|E0].
  { destruct hist; [by rewrite take_nil|rewrite zlen_cons in E0; pose proof (zlen_nonneg hist); lia]. }
  assert (exists n, n = Nat.min (S (Z.to_nat height)) (length hist)) as [n Hn] by eauto.
  assert (Et : take (S (Z.to_nat height)) hist = take n hist).
  { destruct (Nat.le_ge_cases (S (Z.to_nat height)) (length hist)); [by rewrite Hn, Nat.min_l|].
    rewrite Hn, Nat.min_r by done. by rewrite firstn_all, take_ge. }
  rewrite Et. destruct (entries_split hist n) as (k & E & H1 & H2); [lia|].
  assert (Hk : Forall (fun e => height < de_height e) k).
  { destruct (Nat.le_ge_cases (S (Z.to_nat height)) (length hist)).
    - eapply Forall_impl; [exact H2|]. intros e He. cbv beta in He. lia.
    - assert (Hn' : n = length hist) by lia. rewrite Hn', firstn_all in E.
      assert (k = []) as -> by (apply (f_equal length) in E; rewrite length_app in E; destruct k; [done|cbn in E; lia]).
      constructor. }
  assert (Hub : upperBound (entries_from 0 0 0 hist) height = length (entries_from 0 0 0 (take n hist))).
  { rewrite E. apply upperBound_app; [|done]. eapply Forall_impl; [exact H1|]. cbn. lia. }
  rewrite Hub. pose proof (entries_last 0 0 0 (take n hist)) as El. rewrite last_lookup in El.
  destruct (length (entries_from 0 0 0 (take n hist))) as [|p] eqn:Ep.
  - apply nil_length_inv in Ep. rewrite Ep in El. cbn in El. lia.
  - cbn [pred] in El. rewrite E, lookup_app_l by lia.
    destruct (entries_from 0 0 0 (take n hist) !! p) as [e|] eqn:Ee; [lia|].
    apply lookup_ge_None in Ee. lia.
Qed.
End Refinement.

(** * The index as a whole *)

Section Theorems.
Context {B : BuildConfig}.

Fixpoint push_all (d : DepositIndex) (hist : history) : outcome DepositIndex :=
  match hist with
  | [] => Ok d
  | (x, y) :: hist => d ← pushBlock d x y; push_all d hist
  end.

Lemma history_ok_take hist n : history_ok hist -> history_ok (take n hist).
Proof.
  intros (Hl & Hs & Hi & HF). split; [unfold zlen in *; rewrite length_take; lia|].
  split; [intros k; rewrite take_take; apply Hs|]. split; [|by apply Forall_take].
  rewrite <- (take_drop n hist), map_app, sum_Z_app in Hi.
  assert (0 <= sum_Z (map snd (drop n hist))); [|lia]. apply sum_Z_nonneg, Forall_map.
  eapply Forall_impl; [apply Forall_drop; exact HF|]. intros b [_ Hb]. unfold is_u64 in Hb. lia.
Qed.

Lemma push_all_rep hist d pre :
  rep d pre -> history_ok (pre ++ hist) -> exists d', push_all d hist = Ok d' /\ rep d' (pre ++ hist).
Proof.
  revert d pre. induction hist as [|[x y] hist IH]; intros d pre Hr Hok; cbn [push_all].
  { exists d. by rewrite app_nil_r. }
  destruct (pushBlock_rep d pre x y Hr) as (d1 & -> & Hr1).
  { pose proof (history_ok_take _ (S (length pre)) Hok) as H.
    replace (take (S (length pre)) (pre ++ (x, y) :: hist)) with (pre ++ [(x, y)]) in H; [done|].
    rewrite take_app_ge by lia. by replace (S (length pre) - length pre)%nat with 1%nat by lia. }
  cbn [mbind outcome_bind]. rewrite (cons_middle (x, y) pre hist) in Hok. rewrite app_assoc in Hok.
  destruct (IH d1 (pre ++ [(x, y)]) Hr1 Hok) as (d' & -> & Hr'). exists d'. by rewrite <- app_assoc in Hr'.
Qed.

Lemma rep_unique d1 d2 hist : rep d1 hist -> rep d2 hist -> d1 = d2.
Proof. destruct d1, d2. intros [E1 E2] [F1 F2]. cbn in *. congruence. Qed.

(** C36.  The deposit index answers from the whole history.  Let blocks be
    pushed whose running total of deposits stays between 0 and the largest
    signed 64-bit number, whose interests add up to at most 2^64 - 1, and fewer
    than 2^32 - 1 of them.  Then no assertion fails and no arithmetic
    overflows; for every height the amount answered is the sum of all amounts
    up to that block, and the interest answered is the sum of all interest up
    to that block less the interest of the blocks whose own amount is 0, which
    make no entry.  So where every block that pays interest also changes the
    amount, the interest is the plain sum. *)
Theorem deposit_index_lookup (hist : history) :
  history_ok hist ->
  exists d, push_all empty_index hist = Ok d /\ size d = zlen hist /\
    fullDepositAmount d = total_amount hist /\
    fullInterestAmount d = total_interest hist - cancelled_interest hist /\
    (forall height, 0 <= height ->
      depositAmountAtHeight d height = total_amount (take (S (Z.to_nat height)) hist) /\
      depositInterestAtHeight d height =
        total_interest (take (S (Z.to_nat height)) hist) - cancelled_interest (take (S (Z.to_nat height)) hist)) /\
    (Forall (fun b => b.1 = 0 -> b.2 = 0) hist -> forall height, 0 <= height ->
      depositInterestAtHeight d height = total_interest (take (S (Z.to_nat height)) hist)).
Proof.
  intros Hok. destruct (push_all_rep hist empty_index []) as (d & E & Hr); [done|done|].
  exists d. split; [done|]. split; [apply Hr|]. cbn [app] in Hr. destruct Hr as [Ei Ec] eqn:Er.
  unfold fullDepositAmount, fullInterestAmount. rewrite Ei, last_amount_spec, last_interest_spec.
  split; [done|]. split; [pose proof (recorded_interest_total hist); lia|]. split.
  - intros h Hh. destruct (lookup_rep d hist h Hr Hh) as [-> ->]. split; [done|].
    pose proof (recorded_interest_total (take (S (Z.to_nat h)) hist)). lia.
  - intros HF h Hh. destruct (lookup_rep d hist h Hr Hh) as [_ ->].
    rewrite <- recorded_interest_total, cancelled_interest_zero by (by apply Forall_take). lia.
Qed.

(** Rolling back is exact: [popBlocks(from)] leaves the index that pushing
    only the first [from] blocks builds and returns the number of blocks removed,
    and [popBlock] undoes the last push. *)
Theorem deposit_index_rollback (hist : history) (from : Z) :
  history_ok hist -> 0 <= from < zlen hist ->
  exists d d1 d2, push_all empty_index hist = Ok d /\
    push_all empty_index (take (Z.to_nat from) hist) = Ok d1 /\ popBlocks d from = (zlen hist - from, d1) /\
    push_all empty_index (removelast hist) = Ok d2 /\ popBlock d = Ok d2.
Proof.
  intros Hok Hf. destruct (push_all_rep hist empty_index []) as (d & E & Hr); [done|done|]. cbn [app] in Hr.
  destruct (push_all_rep (take (Z.to_nat from) hist) empty_index []) as (d1 & E1 & Hr1);
    [done|by apply history_ok_take|]. cbn [app] in Hr1.
  assert (Hne : hist <> []) by (intros ->; unfold zlen in Hf; cbn in Hf; lia).
  assert (Hsplit := app_removelast_last (0, 0) Hne).
  assert (Hrm : history_ok (removelast hist)).
  { replace (removelast hist) with (take (length hist - 1) hist); [by apply history_ok_take|].
    rewrite Hsplit at 1 2. rewrite length_app. cbn [length].
    replace (length (removelast hist) + 1 - 1)%nat with (length (removelast hist)) by lia. apply take_app_length. }
  destruct (push_all_rep (removelast hist) empty_index []) as (d2 & E2 & Hr2); [done|done|]. cbn [app] in Hr2.
  exists d, d1, d2. split_and!; try done.
  - destruct (popBlocks_rep d hist from Hr) as (d' & -> & Hr'); [apply Hok|done|].
    f_equal. by eapply rep_unique.
  - rewrite Hsplit in Hr. destruct (popBlock_rep d _ _ Hr) as (d' & -> & Hr'); [apply Hrm|].
    f_equal. by eapply rep_unique.
Qed.
End Theorems.

Definition sample_history : history := [(0, 0); (500, 7); (0, 0); (-200, 9); (100, 0)].

Lemma sample_history_ok : history_ok sample_history.
Proof.
  split; [by vm_compute|]. split; [|split; [by vm_compute|]].
  - intros n. do 6 (destruct n as [|n]; [vm_compute; intuition discriminate|]).
    rewrite take_ge by (cbn; lia). vm_compute; intuition discriminate.
  - repeat constructor; vm_compute; intuition discriminate.
Qed.

Lemma deposit_index_lookup_witness :
  exists d, push_all (B := debug_build) empty_index sample_history = Ok d /\
    depositAmountAtHeight d 3 = 300 /\ depositInterestAtHeight d 3 = 16.
Proof.
  destruct (deposit_index_lookup (B := debug_build) sample_history sample_history_ok) as (d & E & _ & _ & _ & L & F).
  exists d. split; [exact E|]. split; [exact (proj1 (L 3 ltac:(lia)))|].
  refine (F _ 3 ltac:(lia)). repeat constructor; cbn; intros; lia.
Defined.

Lemma deposit_index_rollback_witness :
  exists d d1 d2, push_all (B := debug_build) empty_index sample_history = Ok d /\
    push_all (B := debug_build) empty_index (take (Z.to_nat 2) sample_history) = Ok d1 /\
    popBlocks d 2 = (zlen sample_history - 2, d1) /\
    push_all (B := debug_build) empty_index (removelast sample_history) = Ok d2 /\ popBlock (B := debug_build) d = Ok d2.
Proof.
  apply (deposit_index_rollback (B := debug_build) sample_history 2 sample_history_ok).
  vm_compute; intuition discriminate.
Defined.

(** Interest of a block in which deposits and withdrawals cancel is lost. *)
Lemma interest_dropped :
  match push_all (B := debug_build) empty_index [(500, 0); (0, 40)] with
  | Ok d => fullInterestAmount d = 0 /\ fullDepositAmount d = 500
  | _ => False
  end.
Proof. by vm_compute. Qed.
