(* ===== verification/BlockIndex.v ===== *)
(** The block hash index: [CryptoNoteCore/BlockIndex.h] and [.cpp].

    The container is a [boost::multi_index_container] with a random access index
    and a unique hashed index on the hash itself: a duplicate-free sequence. *)
From S2P Require Import Prelude Stream CryptoNote Serializer Serialization.

Record BlockIndex := { m_container : list (list Z) }.

Definition empty_block_index : BlockIndex := {| m_container := [] |}.

(** [push_back] of a container with a unique index refuses a duplicate. *)
Definition push (b : BlockIndex) (h : list Z) : bool * BlockIndex :=
  if decide (h ∈ m_container b) then (false, b)
  else (true, {| m_container := m_container b ++ [h] |}).

Definition pop (b : BlockIndex) : BlockIndex := {| m_container := vpop (m_container b) |}.

Definition hasBlock (b : BlockIndex) (h : list Z) : bool := bool_decide (h ∈ m_container b).

(** Position in the random access index. *)
Fixpoint position (l : list (list Z)) (h : list Z) : option nat :=
  match l with
  | [] => None
  | x :: l => if decide (x = h) then Some O else S <$> position l h
  end.
Definition getBlockHeight (b : BlockIndex) (h : list Z) : option Z :=
  (fun n => u32 (Z.of_nat n)) <$> position (m_container b) h.

Definition size (b : BlockIndex) : Z := u32 (zlen (m_container b)).
Definition clear (b : BlockIndex) : BlockIndex := {| m_container := [] |}.

Section Operations.
Context {B : BuildConfig}.

Definition getBlockId (b : BlockIndex) (height : Z) : outcome (list Z) :=
  _ ← massert (height <? zlen (m_container b));
  vget (m_container b) height.

Definition getBlockIds (b : BlockIndex) (startBlockIndex maxCount : Z) : list (list Z) :=
  if zlen (m_container b) <=? startBlockIndex then []
  else
    let count := Z.min maxCount (zlen (m_container b) - startBlockIndex) in
    take (Z.to_nat count) (drop (Z.to_nat startBlockIndex) (m_container b)).

(** The height of the first known hash; [None] when it returns false. *)
Fixpoint findSupplement (b : BlockIndex) (ids : list (list Z)) : option Z :=
  match ids with
  | [] => None
  | id :: ids => match getBlockHeight b id with Some h => Some h | None => findSupplement b ids end
  end.

(** [for (i = 1; i <= sparseChainEnd; i *= 2)]: at most 33 iterations for a
    32-bit height. *)
Fixpoint sparse_loop (fuel : nat) (i sparseChainEnd : Z) (container : list (list Z)) : outcome (list (list Z)) :=
  match fuel with
  | O => Ok []
  | S fuel =>
      if i <=? sparseChainEnd then
        h ← vget container (sparseChainEnd - i);
        rest ← sparse_loop fuel (i * 2) sparseChainEnd container;
        Ok (h :: rest)
      else Ok []
  end.

Definition buildSparseChain (b : BlockIndex) (startBlockId : list Z) : outcome (list (list Z)) :=
  _ ← massert (hasBlock b startBlockId);
  match getBlockHeight b startBlockId with
  | None => Undefined
  | Some startBlockHeight =>
      let sparseChainEnd := u32 (startBlockHeight + 1) in
      result ← sparse_loop 33 1 sparseChainEnd (m_container b);
      back ← vback result;
      genesis ← vget (m_container b) 0;
      Ok (if bool_decide (back = genesis) then result else result ++ [genesis])
  end.

Definition getTailId (b : BlockIndex) : outcome (list Z) :=
  _ ← massert (negb (length (m_container b) =? 0)%nat);
  vback (m_container b).

(** Reading appends to the container ([push_back] through a back inserter, which
    drops duplicates). *)
Definition serialize_BlockIndex {S} (s : ISerializer S) (b : BlockIndex) : ser S BlockIndex :=
  match type s with
  | INPUT =>
      '(_, n) ← beginArray s 0;
      l ← serialize_items (serializePod 32 s) (replicate (Z.to_nat n) NULL_HASH);
      _ ← endArray s;
      mret (fold_left (fun b h => (push b h).2) l b)
  | OUTPUT =>
      _ ← beginArray s (zlen (m_container b));
      l ← serialize_items (serializePod 32 s) (m_container b);
      _ ← endArray s;
      mret b
  end.
End Operations.

(** * Reachable indexes *)

Inductive step : BlockIndex -> BlockIndex -> Prop :=
| step_push b h : step b (push b h).2
| step_pop b : m_container b <> [] -> step b (pop b)
| step_clear b : step b (clear b).

Inductive reachable : BlockIndex -> Prop :=
| reach_empty : reachable empty_block_index
| reach_step b b' : reachable b -> step b b' -> reachable b'.

Lemma reachable_NoDup b : reachable b -> NoDup (m_container b).
Proof.
  induction 1 as [|b b' _ IH Hs]; [constructor|]. destruct Hs as [b h|b Hne|b].
  - unfold push. case_decide as Hin; [done|]. cbn. apply NoDup_app. split; [done|].
    split; [intros x Hx ->%list_elem_of_singleton; done|]. apply NoDup_singleton.
  - cbn. unfold vpop. rewrite <- (take_drop (length (m_container b) - 1) (m_container b)) in IH.
    by apply NoDup_app in IH as [? _].
  - constructor.
Qed.

Lemma position_Some l h n : position l h = Some n -> l !! n = Some h.
Proof.
  revert n. induction l as [|x l IH]; intros n; cbn [position]; [done|].
  case_decide as E; [by intros [= <-]; subst|].
  destruct (position l h) as [m|]; [|done]. intros [= <-]. by apply IH.
Qed.

Lemma position_NoDup l h n : NoDup l -> l !! n = Some h -> position l h = Some n.
Proof.
  revert n. induction l as [|x l IH]; intros n Hd Hl; [done|]. apply NoDup_cons in Hd as [Hx Hd].
  cbn [position]. destruct n as [|n]; cbn in Hl.
  - injection Hl as ->. by rewrite decide_True.
  - rewrite decide_False by (intros ->; apply Hx; by eapply list_elem_of_lookup_2).
    by rewrite (IH n).
Qed.

Lemma position_elem l h : h ∈ l -> exists n, position l h = Some n /\ l !! n = Some h.
Proof.
  induction l as [|x l IH]; intros Hin; [by apply elem_of_nil in Hin|]. cbn [position].
  case_decide as E; [exists O; by subst|]. apply elem_of_cons in Hin as [->|Hin]; [done|].
  destruct (IH Hin) as (n & -> & Hn). by exists (S n).
Qed.

Section Theorems.
Context {B : BuildConfig}.

(** Heights and hashes are inverse: in every index reachable by pushes,
    pops and clears (of fewer than 2^32 blocks) the height of a hash is the
    position where [getBlockId] returns it, and a hash has at most one. *)
Theorem block_index_inverse (b : BlockIndex) (h : list Z) (n : Z) :
  reachable b -> zlen (m_container b) < 4294967296 -> 0 <= n ->
  getBlockHeight b h = Some n <-> n < zlen (m_container b) /\ getBlockId b n = Ok h.
Proof.
  intros Hr Hs Hn. apply reachable_NoDup in Hr. unfold getBlockHeight, getBlockId. split.
  - destruct (position (m_container b) h) as [k|] eqn:E; [|done]. intros [= <-].
    apply position_Some in E. pose proof (lookup_lt_Some _ _ _ E). unfold zlen in *.
    rewrite u32_small by (wunfold; lia). split; [lia|].
    rewrite massert_true by (apply Z.ltb_lt; lia). apply vget_Ok. rewrite Nat2Z.id. by split; [lia|].
  - intros [Hlt E]. rewrite massert_true in E by (by apply Z.ltb_lt). apply vget_Ok in E as [_ E].
    rewrite (position_NoDup _ _ _ Hr E). cbn. rewrite Z2Nat.id by lia. rewrite u32_small by (wunfold; lia). done.
Qed.

Lemma sparse_loop_spec fuel i e l :
  0 < i -> e < i * 2 ^ Z.of_nat fuel -> e <= zlen l ->
  exists r, sparse_loop fuel i e l = Ok r /\
    Forall (fun h => h ∈ l) r /\ (i <= e -> exists h rest, r = h :: rest /\ l !! Z.to_nat (e - i) = Some h).
Proof.
  revert i. induction fuel as [|fuel IH]; intros i Hi He Hl; cbn [sparse_loop].
  { exists []. split; [done|]. split; [constructor|]. rewrite Z.pow_0_r in He. lia. }
  destruct (Z.leb_spec i e) as [Hle|]; [|exists []; split; [done|]; split; [constructor|lia]].
  destruct (vget_in_range l (e - i)) as [h Hh]; [lia|]. rewrite Hh. cbn [mbind outcome_bind].
  rewrite Nat2Z.inj_succ, Z.pow_succ_r in He by lia.
  destruct (IH (i * 2)) as (r & -> & HF & _); [lia|lia|done|]. cbn [mbind outcome_bind].
  apply vget_Ok in Hh as [_ Hh]. exists (h :: r). split; [done|]. split; [|by eauto].
  constructor; [by eapply list_elem_of_lookup_2|done].
Qed.

(** A sparse chain is usable by any peer with the same genesis block: it is
    defined for every known start block, begins with it, contains only known
    hashes and ends with the genesis hash, so [findSupplement] on an index with
    the same genesis always finds a common block. *)
Theorem sparse_chain_supplement (b peer : BlockIndex) (start genesis : list Z) :
  start ∈ m_container b -> zlen (m_container b) < 4294967295 ->
  m_container b !! 0%nat = Some genesis -> m_container peer !! 0%nat = Some genesis ->
  exists chain, buildSparseChain b start = Ok chain /\ head chain = Some start /\ last chain = Some genesis /\
    Forall (fun h => h ∈ m_container b) chain /\
    exists off common, findSupplement peer chain = Some off /\ common ∈ chain /\ getBlockHeight peer common = Some off.
Proof.
  intros Hin Hs Hg Hpg. unfold buildSparseChain, hasBlock.
  rewrite massert_true by (by apply bool_decide_eq_true). cbn [mbind outcome_bind].
  destruct (position_elem _ _ Hin) as (n & En & Hn). unfold getBlockHeight at 1. rewrite En. cbn [fmap option_fmap option_map].
  pose proof (lookup_lt_Some _ _ _ Hn) as Hlt. unfold zlen in Hs.
  rewrite (u32_small (Z.of_nat n)), u32_small by (wunfold; lia).
  destruct (sparse_loop_spec 33 1 (Z.of_nat n + 1) (m_container b)) as (r & E & HF & Hh);
    [lia|change (2 ^ Z.of_nat 33) with 8589934592; lia|unfold zlen; lia|].
  rewrite E. destruct Hh as (h & rest & -> & Eh); [lia|].
  replace (Z.to_nat (Z.of_nat n + 1 - 1)) with n in Eh by lia. rewrite Hn in Eh. injection Eh as <-.
  cbn [mbind outcome_bind]. unfold vback. destruct (last (start :: rest)) as [back|] eqn:El;
    [|apply last_None in El; done]. cbn [mbind outcome_bind].
  assert (vget (m_container b) 0 = Ok genesis) as -> by (by apply vget_Ok). cbn [mbind outcome_bind].
  eexists. split; [reflexivity|].
  assert (Hsup : forall chain, genesis ∈ chain -> exists off common,
    findSupplement peer chain = Some off /\ common ∈ chain /\ getBlockHeight peer common = Some off).
  { clear -Hpg. induction chain as [|x chain IH]; intros Hgc; [by apply elem_of_nil in Hgc|]. cbn [findSupplement].
    destruct (getBlockHeight peer x) as [o|] eqn:Ex; [exists o, x; split; [done|]; split; [left|done]|].
    apply elem_of_cons in Hgc as [<-|Hgc].
    - unfold getBlockHeight in Ex. destruct (position_elem (m_container peer) genesis) as (k & Ek & _);
        [by eapply list_elem_of_lookup_2|]. by rewrite Ek in Ex.
    - destruct (IH Hgc) as (o & y & ? & ? & ?). exists o, y. split; [done|]. split; [by right|done]. }
  case_bool_decide as Eb.
  - subst back. split; [done|]. split; [done|]. split; [done|]. apply Hsup.
    rewrite last_lookup in El. by eapply list_elem_of_lookup_2.
  - split; [done|]. split; [apply last_snoc|]. split.
    + apply Forall_app. split; [done|]. constructor; [by eapply list_elem_of_lookup_2|constructor].
    + apply Hsup. apply elem_of_app. right. by apply list_elem_of_singleton.
Qed.
End Theorems.

Definition sample_index : BlockIndex := {| m_container := [[0]; [1]; [2]; [3]; [4]; [5]] |}.

Lemma sample_reachable : reachable sample_index.
Proof.
  assert (E : sample_index = (push (push (push (push (push (push empty_block_index [0]).2 [1]).2 [2]).2 [3]).2 [4]).2 [5]).2)
    by (vm_compute; reflexivity).
  rewrite E. do 6 (eapply reach_step; [|apply step_push]). constructor.
Qed.

Lemma block_index_inverse_witness :
  getBlockHeight sample_index [4] = Some 4 /\
  (getBlockHeight sample_index [4] = Some 4 <-> 4 < zlen (m_container sample_index) /\ getBlockId (B := debug_build) sample_index 4 = Ok [4]).
Proof.
  split; [vm_compute; reflexivity|].
  apply (block_index_inverse (B := debug_build) sample_index [4] 4 sample_reachable); [by vm_compute|lia].
Defined.

Lemma sparse_chain_supplement_witness :
  buildSparseChain (B := debug_build) sample_index [5] = Ok [[5]; [4]; [2]; [0]] /\
  exists chain, buildSparseChain (B := debug_build) sample_index [5] = Ok chain /\ last chain = Some [0].
Proof.
  split; [vm_compute; reflexivity|].
  destruct (sparse_chain_supplement (B := debug_build) sample_index {| m_container := [[0]; [7]] |} [5] [0])
    as (chain & E & _ & L & _); [|by vm_compute|reflexivity|reflexivity|by exists chain].
  apply list_elem_of_In. cbn. tauto.
Defined.
