(* ===== verification/Checkpoints.v ===== *)
(** Checkpoints: [CryptoNoteCore/Checkpoints.cpp].

    [m_points] is an ordered map from height to hash; the records of the DNS
    server are an argument of the function that loads them. *)
From S2P Require Import Prelude StringTools CryptoNote TransactionExtra Currency.

Notation Checkpoints := (gmap Z (list Z)).

(** The keys in the order of the [std::map]. *)
Definition keys (m : Checkpoints) : list Z := merge_sort Z.le (map fst (map_to_list m)).

(** [None] when it returns false.  [podFromHex] into a hash is [parsePaymentId]'s
    conversion. *)
Definition add_checkpoint (m : Checkpoints) (height : Z) (hash_str : list Z) : option Checkpoints :=
  match parsePaymentId hash_str with
  | None => None
  | Some h => match m !! height with
              | Some _ => None
              | None => Some (<[height := h]> m)
              end
  end.

(** [load_checkpoints] ignores the result of each call. *)
Definition load_checkpoints (m : Checkpoints) (table : list (Z * list Z)) : Checkpoints :=
  fold_left (fun m cp => default m (add_checkpoint m cp.1 cp.2)) table m.

(** [load_checkpoints_from_dns]: [records] are the records of the DNS server that
    parse as a height and a hash; known heights are skipped. *)
Definition load_checkpoints_from_dns (m : Checkpoints) (records : list (Z * list Z)) : Checkpoints :=
  fold_left (fun m r => match m !! r.1 with Some _ => m | None => default m (add_checkpoint m r.1 r.2) end) records m.

Definition is_in_checkpoint_zone (m : Checkpoints) (height : Z) : bool :=
  match last (keys m) with Some k => height <=? k | None => false end.

(** The result and [is_a_checkpoint]. *)
Definition check_block (m : Checkpoints) (height : Z) (h : list Z) : bool * bool :=
  match m !! height with
  | None => (true, false)
  | Some p => (bool_decide (p = h), true)
  end.

(** The key before [upper_bound(height)]. *)
Definition last_not_above (l : list Z) (height : Z) : option Z := last (filter (fun k => k <= height) l).

Definition is_alternative_block_allowed (m : Checkpoints) (blockchain_height block_height : Z) : bool :=
  if 0 =? block_height then false
  else if (block_height <? u32 (blockchain_height - parameters.MINED_COINS_UNLOCK_WINDOW)) &&
          negb (is_in_checkpoint_zone m block_height) then false
  else match last_not_above (keys m) blockchain_height with
       | None => true
       | Some checkpoint_height => checkpoint_height <? block_height
       end.

Definition getCheckpointHeights (m : Checkpoints) : list Z := keys m.

(** * Properties *)

Lemma elem_of_keys m k : k ∈ keys m <-> is_Some (m !! k).
Proof.
  unfold keys. rewrite merge_sort_Permutation, list_elem_of_fmap. split.
  - intros ([k' h] & -> & Hin). apply elem_of_map_to_list in Hin. eauto.
  - intros [h Hh]. exists (k, h). split; [done|]. by apply elem_of_map_to_list.
Qed.

Lemma keys_sorted m : Sorted Z.le (keys m).
Proof. apply Sorted_merge_sort, _. Qed.

Lemma sorted_last_max l k x : Sorted Z.le l -> last l = Some x -> k ∈ l -> k <= x.
Proof.
  intros Hs%Sorted_StronglySorted Hl Hk; [|apply _]. apply last_Some in Hl as [l' ->].
  apply elem_of_app in Hk as [Hk|Hk%list_elem_of_singleton]; [|lia].
  clear -Hs Hk. induction l' as [|y l' IH]; [by apply elem_of_nil in Hk|].
  cbn in Hs. apply StronglySorted_inv in Hs as [Hs HF]. apply elem_of_cons in Hk as [->|Hk]; [|auto].
  rewrite Forall_forall in HF. apply HF. apply elem_of_app. right. by left.
Qed.

Lemma filter_sorted (P : Z -> Prop) `{!forall x, Decision (P x)} l : Sorted Z.le l -> Sorted Z.le (filter P l).
Proof.
  intros Hs%Sorted_StronglySorted; [|apply _]. apply StronglySorted_Sorted.
  induction Hs as [|x l Hs IH HF]; [constructor|]. rewrite filter_cons. case_decide; [|done].
  constructor; [done|]. rewrite Forall_forall in HF |- *. intros y Hy. apply HF.
  by apply list_elem_of_filter in Hy as [_ ?].
Qed.

(** Checkpoints are final: when an alternative block at [block_height] is
    allowed on a chain of height [blockchain_height], it lies above every
    checkpoint the chain has passed, it is not the genesis block, and (the chain
    being at least ten blocks high) it is at most ten blocks deep unless it lies
    in the zone below a later checkpoint. *)
Theorem alternative_respects_checkpoints (m : Checkpoints) (blockchain_height block_height : Z) :
  10 <= blockchain_height < 4294967296 -> 0 <= block_height ->
  is_alternative_block_allowed m blockchain_height block_height = true ->
  0 < block_height /\
  (forall k, is_Some (m !! k) -> k <= blockchain_height -> k < block_height) /\
  (blockchain_height - 10 <= block_height \/ exists k, is_Some (m !! k) /\ blockchain_height < k /\ block_height <= k).
Proof.
  intros Hb Hh. unfold is_alternative_block_allowed. destruct (Z.eqb_spec 0 block_height); [done|].
  change parameters.MINED_COINS_UNLOCK_WINDOW with 10. rewrite u32_small by (wunfold; lia).
  destruct (_ && negb _) eqn:Eg; [done|]. intros Ha. split; [lia|].
  assert (Hall : forall k, is_Some (m !! k) -> k <= blockchain_height -> k < block_height).
  { intros k Hk Hle. unfold last_not_above in Ha.
    destruct (last (filter _ (keys m))) as [x|] eqn:El.
    - apply Z.ltb_lt in Ha. assert (k <= x); [|lia]. eapply sorted_last_max; [|exact El|].
      { apply (filter_sorted (fun k => k <= blockchain_height)), keys_sorted. }
      apply list_elem_of_filter. split; [done|]. by apply elem_of_keys.
    - apply last_None in El. assert (k ∈ filter (fun k => k <= blockchain_height) (keys m)) as Hin
        by (apply list_elem_of_filter; split; [done|by apply elem_of_keys]).
      rewrite El in Hin. by apply elem_of_nil in Hin. }
  split; [exact Hall|]. apply andb_false_iff in Eg as [Eg|Eg]; [apply Z.ltb_ge in Eg; by left|].
  apply negb_false_iff in Eg. unfold is_in_checkpoint_zone in Eg.
  destruct (last (keys m)) as [k|] eqn:El; [|done]. apply Z.leb_le in Eg.
  assert (Hk : is_Some (m !! k)).
  { apply elem_of_keys. apply last_Some in El as [l ->]. apply elem_of_app. right. by left. }
  destruct (Z.le_gt_cases k blockchain_height) as [Hle|Hgt]; [specialize (Hall k Hk Hle); lia|].
  right. by exists k.
Qed.

Lemma alternative_respects_checkpoints_witness :
  let m : Checkpoints := <[50 := [1]]> (<[90 := [2]]> ∅) in
  is_alternative_block_allowed m 100 95 = true /\ (0 < 95 /\
  (forall k, is_Some (m !! k) -> k <= 100 -> k < 95) /\
  (100 - 10 <= 95 \/ exists k, is_Some (m !! k) /\ 100 < k /\ 95 <= k)).
Proof.
  intros m. split; [vm_compute; reflexivity|].
  apply (alternative_respects_checkpoints m 100 95); [lia|lia|vm_compute; reflexivity].
Defined.

(** Below height ten the subtraction wraps: outside a checkpoint zone no
    alternative block is allowed at all. *)
Lemma shallow_chain_rejects m blockchain_height block_height :
  0 <= blockchain_height < 10 -> 0 <= block_height < 4294967286 -> is_in_checkpoint_zone m block_height = false ->
  is_alternative_block_allowed m blockchain_height block_height = false.
Proof.
  intros Hb Hh Hz. unfold is_alternative_block_allowed. destruct (0 =? block_height); [done|].
  rewrite Hz. change parameters.MINED_COINS_UNLOCK_WINDOW with 10.
  assert ((block_height <? u32 (blockchain_height - 10)) = true) as ->; [|done]. apply Z.ltb_lt. mlia.
Qed.
