(* ===== verification/UpgradeDetector.v ===== *)
(** Version upgrades by vote: [CryptoNoteCore/UpgradeDetector.h].

    [BasicUpgradeDetector<BC>] is a template over the block container; the model
    sees a block as its major and minor version.  The detector's own state is
    [m_votingCompleteHeight]. *)
From S2P Require Import Prelude CryptoNote Serialization Currency.

Record version_info := { vi_major : Z; vi_minor : Z }.
Notation versions := (list version_info).

Definition UNDEF_HEIGHT : Z := UINT32_MAX.

Section Detector.
Context {B : BuildConfig}.
Variable c : Currency.
Variable m_targetVersion : Z.

(** The vote count over [i] .. [i + fuel - 1]. *)
Fixpoint count_votes (fuel : nat) (i : Z) (chain : versions) (voteCounter : Z) : outcome Z :=
  match fuel with
  | O => Ok voteCounter
  | S fuel =>
      b ← sget chain i;
      count_votes fuel (i + 1) chain
        (voteCounter + if (vi_major b =? m_targetVersion - 1) && (vi_minor b =? BLOCK_MINOR_VERSION_1) then 1 else 0)
  end.

Definition getNumberOfVotes (chain : versions) (height : Z) : outcome Z :=
  if height <? u32 (upgradeVotingWindow c - 1) then Ok 0
  else count_votes (Z.to_nat (upgradeVotingWindow c)) (u32 (height + 1 - upgradeVotingWindow c)) chain 0.

Definition isVotingComplete (chain : versions) (height : Z) : outcome bool :=
  _ ← massert (upgradeHeight c m_targetVersion =? UNDEF_HEIGHT);
  _ ← massert (1 <? upgradeVotingWindow c);
  _ ← massert ((0 <? upgradeVotingThreshold c) && (upgradeVotingThreshold c <=? 100));
  voteCounter ← getNumberOfVotes chain height;
  Ok (u32 (upgradeVotingThreshold c * upgradeVotingWindow c) <=? 100 * voteCounter).

Fixpoint find_voting (fuel : nat) (i : Z) (chain : versions) : outcome Z :=
  match fuel with
  | O => Ok UNDEF_HEIGHT
  | S fuel =>
      v ← isVotingComplete chain i;
      if v : bool then Ok i else find_voting fuel (i + 1) chain
  end.

Definition findVotingCompleteHeight (chain : versions) (probableUpgradeHeight : Z) : outcome Z :=
  _ ← massert (upgradeHeight c m_targetVersion =? UNDEF_HEIGHT);
  let from := if maxUpgradeDistance c <? probableUpgradeHeight
              then probableUpgradeHeight - maxUpgradeDistance c else 0 in
  find_voting (Z.to_nat (probableUpgradeHeight + 1 - from)) from chain.

(** [upgradeHeight()] of the detector. *)
Definition detector_upgradeHeight (votingCompleteHeight : Z) : Z :=
  if upgradeHeight c m_targetVersion =? UNDEF_HEIGHT then
    if votingCompleteHeight =? UNDEF_HEIGHT then UNDEF_HEIGHT else calculateUpgradeHeight c votingCompleteHeight
  else upgradeHeight c m_targetVersion.

(** [std::lower_bound] on the major version. *)
Fixpoint first_version (chain : versions) (i : Z) : Z :=
  match chain with
  | [] => i
  | b :: chain => if vi_major b <? m_targetVersion then first_version chain (i + 1) else i
  end.

(** [init()]: the result and [m_votingCompleteHeight] afterwards. *)
Definition init (chain : versions) (votingCompleteHeight : Z) : outcome (bool * Z) :=
  let height := upgradeHeight c m_targetVersion in
  if height =? UNDEF_HEIGHT then
    match last chain with
    | None => Ok (true, UNDEF_HEIGHT)
    | Some b =>
        if m_targetVersion - 1 =? vi_major b then
          h ← findVotingCompleteHeight chain (u32 (zlen chain - 1)); Ok (true, h)
        else if m_targetVersion <=? vi_major b then
          let it := first_version chain 0 in
          match chain !! Z.to_nat it with
          | None => Ok (false, votingCompleteHeight)
          | Some b => if negb (vi_major b =? m_targetVersion) then Ok (false, votingCompleteHeight) else
              h ← findVotingCompleteHeight chain (u32 it);
              Ok (negb (h =? UNDEF_HEIGHT), h)
          end
        else Ok (true, UNDEF_HEIGHT)
    end
  else
    match last chain with
    | None => Ok (true, votingCompleteHeight)
    | Some b =>
        if zlen chain <=? u32 (height + 1) then Ok (negb (m_targetVersion <=? vi_major b), votingCompleteHeight)
        else
          _ ← sget chain height;
          after ← sget chain (u32 (height + 1));
          Ok (vi_major after =? m_targetVersion, votingCompleteHeight)
    end.

(** [blockPushed()] after the block was appended to the container. *)
Definition blockPushed (chain : versions) (votingCompleteHeight : Z) : outcome Z :=
  _ ← massert (negb (length chain =? 0)%nat);
  b ← sback chain;
  if negb (upgradeHeight c m_targetVersion =? UNDEF_HEIGHT) then
    _ ← massert (if zlen chain <=? u32 (upgradeHeight c m_targetVersion + 1)
                 then vi_major b <=? m_targetVersion - 1 else m_targetVersion <=? vi_major b);
    Ok votingCompleteHeight
  else if negb (votingCompleteHeight =? UNDEF_HEIGHT) then
    _ ← massert (votingCompleteHeight <? zlen chain);
    let upgrade := detector_upgradeHeight votingCompleteHeight in
    _ ← massert (if zlen chain <=? upgrade then vi_major b =? m_targetVersion - 1
                 else if zlen chain =? u32 (upgrade + 1) then vi_major b =? m_targetVersion - 1
                 else vi_major b =? m_targetVersion);
    Ok votingCompleteHeight
  else
    let lastBlockHeight := u32 (zlen chain - 1) in
    done ← isVotingComplete chain lastBlockHeight;
    Ok (if done : bool then lastBlockHeight else votingCompleteHeight).

(** [blockPopped()] after the block was removed from the container. *)
Definition blockPopped (chain : versions) (votingCompleteHeight : Z) : outcome Z :=
  if negb (votingCompleteHeight =? UNDEF_HEIGHT) then
    _ ← massert (upgradeHeight c m_targetVersion =? UNDEF_HEIGHT);
    if zlen chain =? votingCompleteHeight then Ok UNDEF_HEIGHT
    else _ ← massert (votingCompleteHeight <? zlen chain); Ok votingCompleteHeight
  else Ok votingCompleteHeight.

(** * Votes *)

Definition is_vote (b : version_info) : bool :=
  (vi_major b =? m_targetVersion - 1) && (vi_minor b =? BLOCK_MINOR_VERSION_1).

Definition votes_of (l : versions) : Z := sum_Z (map (fun b => if is_vote b then 1 else 0) l).

Lemma count_votes_spec fuel i chain n :
  0 <= i -> i + Z.of_nat fuel <= zlen chain ->
  count_votes fuel i chain n = Ok (n + votes_of (take fuel (drop (Z.to_nat i) chain))).
Proof.
  revert i n. induction fuel as [|fuel IH]; intros i n Hi Hl; cbn [count_votes].
  { cbn. by rewrite Z.add_0_r. }
  destruct (sget_in_range chain i) as [b Hb]; [lia|]. rewrite Hb. cbn [mbind outcome_bind].
  rewrite IH by lia. apply sget_Ok in Hb as [_ Hb]. f_equal.
  rewrite (drop_S _ _ _ Hb). cbn [take]. unfold votes_of. cbn [map sum_Z foldr].
  replace (Z.to_nat (i + 1)) with (S (Z.to_nat i)) by lia. unfold is_vote, sum_Z. lia.
Qed.

(** The voting rule: at a height with a full window behind it the detector
    counts exactly the voting blocks of the window, and voting is complete
    exactly when they reach [minNumberVotingBlocks]. *)
Theorem voting_complete_iff (chain : versions) (height : Z) :
  upgradeHeight c m_targetVersion = UNDEF_HEIGHT ->
  1 < upgradeVotingWindow c < 2 ^ 24 -> 0 < upgradeVotingThreshold c <= 100 ->
  upgradeVotingWindow c - 1 <= height < zlen chain -> zlen chain < 2 ^ 32 ->
  let votes := votes_of (take (Z.to_nat (upgradeVotingWindow c)) (drop (Z.to_nat (height + 1 - upgradeVotingWindow c)) chain)) in
  getNumberOfVotes chain height = Ok votes /\
  isVotingComplete chain height = Ok (minNumberVotingBlocks c <=? votes).
Proof.
  change (2 ^ 24) with 16777216. change (2 ^ 32) with 4294967296.
  intros Hu Hw Ht Hh Hl votes.
  assert (Hn : getNumberOfVotes chain height = Ok votes).
  { unfold getNumberOfVotes. rewrite (u32_small (upgradeVotingWindow c - 1)) by (wunfold; lia).
    destruct (Z.ltb_spec height (upgradeVotingWindow c - 1)); [lia|]. rewrite u32_small by (wunfold; lia).
    rewrite count_votes_spec by lia. done. }
  split; [done|]. unfold isVotingComplete. rewrite Hu.
  rewrite (massert_true (UNDEF_HEIGHT =? UNDEF_HEIGHT)) by apply Z.eqb_refl. cbn [mbind outcome_bind].
  rewrite (massert_true (1 <? _)) by (apply Z.ltb_lt; lia). cbn [mbind outcome_bind].
  rewrite massert_true by (apply andb_true_intro; split; [apply Z.ltb_lt|apply Z.leb_le]; lia).
  cbn [mbind outcome_bind]. rewrite Hn. cbn [mbind outcome_bind]. f_equal. unfold minNumberVotingBlocks.
  set (w := upgradeVotingWindow c) in *. set (t := upgradeVotingThreshold c) in *.
  assert (0 < t * w <= 1677721600) by nia. rewrite (Z.mul_comm w t).
  rewrite (u32_small (t * w)), (u32_small (t * w + 99)) by (wunfold; lia). set (p := t * w) in *. clearbody p votes.
  rewrite u32_small by mlia.
  destruct (Z.leb_spec p (100 * votes)), (Z.leb_spec ((p + 99) / 100) votes); try done; exfalso; revert H0; revert H1; mlia.
Qed.

(** Popping a block returns the detector to its state before the push. *)
Lemma popped_undoes_pushed (chain : versions) b v v' :
  upgradeHeight c m_targetVersion = UNDEF_HEIGHT -> zlen chain < UNDEF_HEIGHT ->
  (v = UNDEF_HEIGHT \/ 0 <= v < zlen chain) ->
  blockPushed (chain ++ [b]) v = Ok v' -> blockPopped chain v' = Ok v.
Proof.
  intros Hu Hl Hv. unfold blockPushed, blockPopped. rewrite Hu, Z.eqb_refl. cbn [negb].
  pose proof (zlen_nonneg chain). unfold UNDEF_HEIGHT, UINT32_MAX in *.
  intros E. apply bind_Ok in E as (? & _ & E). apply bind_Ok in E as (? & _ & E).
  destruct (Z.eqb_spec v 4294967295) as [->|Hn]; cbn [negb] in E.
  - rewrite zlen_app in E. change (zlen [b]) with 1 in E.
    replace (zlen chain + 1 - 1) with (zlen chain) in E by lia. rewrite u32_small in E by (wunfold; lia).
    apply bind_Ok in E as (d & _ & E). injection E as <-. destruct d; [|done].
    destruct (Z.eqb_spec (zlen chain) 4294967295); [lia|]. cbn [negb].
    rewrite (massert_true true) by done. cbn [mbind outcome_bind]. by rewrite Z.eqb_refl.
  - apply bind_Ok in E as (? & _ & E). apply bind_Ok in E as (? & _ & E). injection E as <-.
    destruct (Z.eqb_spec v 4294967295); [done|]. cbn [negb]. rewrite (massert_true true) by done. cbn [mbind outcome_bind].
    destruct (Z.eqb_spec (zlen chain) v); [lia|]. rewrite massert_true by (apply Z.ltb_lt; lia). done.
Qed.
End Detector.

(** Version 3 has no fixed height in this currency, so it is decided by vote. *)
Definition voting_chain (n : nat) : versions := replicate n {| vi_major := 2; vi_minor := 1 |}.

Lemma voting_complete_iff_witness :
  isVotingComplete (B := debug_build) default_currency 3 (voting_chain 720) 719 = Ok true.
Proof.
  destruct (voting_complete_iff (B := debug_build) default_currency 3 (voting_chain 720) 719) as [_ E];
    [reflexivity|by vm_compute|by vm_compute|by vm_compute|by vm_compute|].
  rewrite E. vm_compute. reflexivity.
Defined.
