(* ===== verification/TreeHash.v ===== *)
(** Block identifiers: the Merkle tree of [crypto/tree-hash.c] and the block hash
    of [CryptoNoteCore/CryptoNoteFormatUtils.cpp].

    [cn_fast_hash] is a parameter.  The theorems are about commitment: two
    different inputs with the same identifier exhibit a collision of
    [cn_fast_hash]. *)
From S2P Require Import Prelude Varint Stream CryptoNote Serializer Serialization.

(** [cnt]: the largest power of two below [count], computed by smearing the
    bits of [count - 1] to the right; [i] runs over 1, 2, 4, ..., 32. *)
Definition tree_cnt (count : Z) : Z :=
  let cnt := fold_left (fun cnt i => Z.lor cnt (Z.shiftr cnt i)) [1; 2; 4; 8; 16; 32] (count - 1) in
  Z.land cnt (u64 (Z.lnot (Z.shiftr cnt 1))).

Section TreeHash.
Context {B : BuildConfig}.
Variable cn_fast_hash : list Z -> list Z.

(** [cn_fast_hash(v[i], 2 * HASH_SIZE, ...)]: two adjacent entries. *)
Definition hash_two (v : list (list Z)) (i : Z) : outcome (list Z) :=
  a ← vget v i; b ← vget v (i + 1); Ok (cn_fast_hash (a ++ b)).

(** [ints[j] = h]. *)
Definition vset (v : list (list Z)) (j : Z) (h : list Z) : outcome (list (list Z)) :=
  if (0 <=? j) && (j <? zlen v) then Ok (<[Z.to_nat j := h]> v) else Undefined.

(** The first loop, from [hashes] to [ints]: [n] iterations left. *)
Fixpoint leaf_loop (n : nat) (i j : Z) (hashes ints : list (list Z)) : outcome (Z * list (list Z)) :=
  match n with
  | O => Ok (i, ints)
  | S n =>
      h ← hash_two hashes i;
      ints ← vset ints j h;
      leaf_loop n (i + 2) (j + 1) hashes ints
  end.

(** The inner loop of a level, in place. *)
Fixpoint level_loop (n : nat) (i j : Z) (ints : list (list Z)) : outcome (list (list Z)) :=
  match n with
  | O => Ok ints
  | S n =>
      h ← hash_two ints i;
      ints ← vset ints j h;
      level_loop n (i + 2) (j + 1) ints
  end.

(** [while (cnt > 2)]: [cnt] halves, so 64 iterations are enough for a
    [size_t]. *)
Fixpoint tree_loop (fuel : nat) (cnt : Z) (ints : list (list Z)) : outcome (list (list Z)) :=
  match fuel with
  | O => Undefined
  | S fuel =>
      if 2 <? cnt then
        let cnt := Z.shiftr cnt 1 in
        ints ← level_loop (Z.to_nat cnt) 0 0 ints;
        tree_loop fuel cnt ints
      else Ok ints
  end.

(** The entries of [ints] that [alloca] leaves uninitialised are zero here;
    they are written before they are read. *)
Definition tree_hash (hashes : list (list Z)) : outcome (list Z) :=
  let count := zlen hashes in
  _ ← massert (0 <? count);
  if count =? 1 then vget hashes 0
  else if count =? 2 then hash_two hashes 0
  else
    let cnt := tree_cnt count in
    let m := 2 * cnt - count in
    let ints := take (Z.to_nat m) hashes ++ replicate (Z.to_nat (cnt - m)) NULL_HASH in
    '(i, ints) ← leaf_loop (Z.to_nat (cnt - m)) m m hashes ints;
    _ ← massert (i =? count);
    ints ← tree_loop 64 cnt ints;
    hash_two ints 0.

(** * Block hashes *)

Definition get_tx_tree_hash (b : Block) : outcome (list Z) :=
  '(_, h, _) ← getObjectHash cn_fast_hash (@serialize_Transaction) (baseTransaction b);
  tree_hash (h :: transactionHashes b).

Definition get_block_hashing_blob (b : Block) : outcome (option (list Z)) :=
  r ← toBinaryArray (@serializeBlockHeader) (header b);
  match r with
  | None => Ok None
  | Some ba =>
      treeRootHash ← get_tx_tree_hash b;
      Ok (Some (ba ++ treeRootHash ++ get_varint_data (u64 (zlen (transactionHashes b) + 1))))
  end.

(** [get_block_hash(b, res)]: [None] when it returns false.  [getObjectHash] of
    a byte array hashes the array itself. *)
Definition get_block_hash_opt (b : Block) : outcome (option (list Z)) :=
  r ← get_block_hashing_blob b;
  Ok (match r with Some ba => Some (getBinaryArrayHash cn_fast_hash ba) | None => None end).

(** [get_block_hash(b)]. *)
Definition get_block_hash (b : Block) : outcome (list Z) :=
  r ← get_block_hash_opt b; Ok (default NULL_HASH r).

(** [get_block_longhash]: the proof-of-work hash, by major version. *)
Variables cn_slow_hash cn_moonbank_slow_hash_v0 : list Z -> list Z.
Definition get_block_longhash (b : Block) : outcome (option (list Z)) :=
  r ← get_block_hashing_blob b;
  Ok (match r with
      | None => None
      | Some bd => Some (if 2 <=? majorVersion (header b) then cn_moonbank_slow_hash_v0 bd else cn_slow_hash bd)
      end).
End TreeHash.

(** * The tree as a function *)

Lemma smear_step L w c :
  0 <= L -> 0 < w ->
  (forall k, L < k -> Z.testbit c k = false) ->
  (forall k, 0 <= k -> L - w < k <= L -> Z.testbit c k = true) ->
  let c' := Z.lor c (Z.shiftr c w) in
  (forall k, L < k -> Z.testbit c' k = false) /\
  (forall k, 0 <= k -> L - 2 * w < k <= L -> Z.testbit c' k = true).
Proof.
  intros HL Hw Hhi Hlo c'. subst c'. split.
  - intros k Hk. rewrite Z.lor_spec, Z.shiftr_spec, Hhi, Hhi by lia. done.
  - intros k Hk Hr. rewrite Z.lor_spec, Z.shiftr_spec by lia.
    destruct (decide (L - w < k)); [by rewrite Hlo by lia|].
    rewrite (Hlo (k + w)) by lia. apply orb_true_r.
Qed.

Lemma tree_cnt_spec n : 1 <= n < 2 ^ 64 -> tree_cnt (n + 1) = 2 ^ Z.log2 n.
Proof.
  intros Hn. set (L := Z.log2 n).
  assert (0 <= L) by apply Z.log2_nonneg.
  assert (L < 64) by (apply Z.log2_lt_pow2; lia).
  unfold tree_cnt. replace (n + 1 - 1) with n by lia. cbn [fold_left].
  assert (S0 : (forall k, L < k -> Z.testbit n k = false) /\
               (forall k, 0 <= k -> L - 1 < k <= L -> Z.testbit n k = true)).
  { split; intros; [by apply Z.bits_above_log2; lia|].
    replace k with L by lia. apply Z.bit_log2. lia. }
  destruct S0 as [A0 B0].
  destruct (smear_step L 1 n) as [A1 B1]; [lia..|done|done|].
  destruct (smear_step L 2 _ ltac:(lia) ltac:(lia) A1 B1) as [A2 B2].
  destruct (smear_step L 4 _ ltac:(lia) ltac:(lia) A2 B2) as [A3 B3].
  destruct (smear_step L 8 _ ltac:(lia) ltac:(lia) A3 B3) as [A4 B4].
  destruct (smear_step L 16 _ ltac:(lia) ltac:(lia) A4 B4) as [A5 B5].
  destruct (smear_step L 32 _ ltac:(lia) ltac:(lia) A5 B5) as [A6 B6].
  cbv zeta in A6, B6. set (c := Z.lor _ _) in A6, B6 |- *. clearbody c.
  apply Z.bits_inj'. intros k Hk. rewrite Z.land_spec, Z.pow2_bits_eqb by lia.
  destruct (decide (L < k)).
  { rewrite A6 by lia. symmetry. apply Z.eqb_neq. lia. }
  rewrite B6 by lia. cbn [andb]. unfold u64. change 18446744073709551616 with (2 ^ 64).
  rewrite Z.mod_pow2_bits_low, Z.lnot_spec, Z.shiftr_spec by lia.
  destruct (Z.eqb_spec L k) as [->|]; [by rewrite A6 by lia|by rewrite B6 by lia].
Qed.

#[local] Opaque tree_cnt.

Section Merkle.
Context {B : BuildConfig}.
Variable cn_fast_hash : list Z -> list Z.

(** Hashing adjacent entries, and the root of [2 ^ k] entries. *)
Fixpoint pairs (l : list (list Z)) : list (list Z) :=
  match l with
  | a :: b :: l => cn_fast_hash (a ++ b) :: pairs l
  | _ => []
  end.
Fixpoint root (k : nat) (l : list (list Z)) : list Z :=
  match k with O => hd [] l | S k => root k (pairs l) end.
(** The leaves of the perfect tree: the first hashes as they are, the others
    hashed in pairs. *)
Definition leaves (hashes : list (list Z)) : list (list Z) :=
  let m := Z.to_nat (2 * tree_cnt (zlen hashes) - zlen hashes) in
  take m hashes ++ pairs (drop m hashes).

Lemma length_pairs n l : length l = (2 * n)%nat -> length (pairs l) = n.
Proof.
  revert l. induction n as [|n IH]; intros [|a [|b l]] E; cbn in *; try lia. rewrite IH; lia.
Qed.

Lemma hash_two_spec v i a b :
  0 <= i -> v !! Z.to_nat i = Some a -> v !! S (Z.to_nat i) = Some b ->
  hash_two cn_fast_hash v i = Ok (cn_fast_hash (a ++ b)).
Proof.
  intros Hi Ha Hb. unfold hash_two.
  rewrite (proj2 (vget_Ok v i a)) by done. cbn [mbind outcome_bind].
  rewrite (proj2 (vget_Ok v (i + 1) b)); [done|].
  split; [lia|]. by replace (Z.to_nat (i + 1)) with (S (Z.to_nat i)) by lia.
Qed.

Lemma drop_two {A} (l : list A) n :
  (n + 2 <= length l)%nat -> exists a b, l !! n = Some a /\ l !! S n = Some b /\ drop n l = a :: b :: drop (S (S n)) l.
Proof.
  intros H. destruct (lookup_lt_is_Some_2 l n) as [a Ha]; [lia|].
  destruct (lookup_lt_is_Some_2 l (S n)) as [b Hb]; [lia|].
  exists a, b. split_and!; [done..|].
  by rewrite (drop_S _ _ _ Ha), (drop_S _ _ _ Hb).
Qed.

Lemma vset_in v j h : (j < length v)%nat -> vset v (Z.of_nat j) h = Ok (<[j := h]> v).
Proof.
  intros H. unfold vset, zlen.
  destruct (Z.leb_spec 0 (Z.of_nat j)); [|lia]. destruct (Z.ltb_spec (Z.of_nat j) (Z.of_nat (length v))); [|lia].
  cbn [andb]. by rewrite Nat2Z.id.
Qed.

Lemma leaf_loop_spec n i hashes p r :
  (i + 2 * n <= length hashes)%nat -> length r = n ->
  leaf_loop cn_fast_hash n (Z.of_nat i) (Z.of_nat (length p)) hashes (p ++ r) =
    Ok (Z.of_nat (i + 2 * n), p ++ pairs (take (2 * n) (drop i hashes))).
Proof.
  revert i p r. induction n as [|n IH]; intros i p r Hi Hr.
  { apply nil_length_inv in Hr as ->. cbn. by rewrite Nat.add_0_r. }
  destruct r as [|x r]; [done|]. cbn [leaf_loop].
  destruct (drop_two hashes i) as (a & b & Ha & Hb & ->); [lia|].
  rewrite (hash_two_spec _ _ a b) by (rewrite ?Nat2Z.id; try lia; done). cbn [mbind outcome_bind].
  rewrite vset_in by (rewrite length_app; cbn; lia). cbn [mbind outcome_bind].
  rewrite insert_app_r_alt, Nat.sub_diag by lia. cbn [list_insert insert].
  specialize (IH (S (S i)) (p ++ [cn_fast_hash (a ++ b)]) r).
  rewrite length_app, <- app_assoc in IH. cbn [app length] in IH.
  replace (Z.of_nat i + 2) with (Z.of_nat (S (S i))) by lia.
  replace (Z.of_nat (length p) + 1) with (Z.of_nat (length p + 1)) by lia.
  rewrite IH by (cbn in Hr; lia). f_equal. f_equal; [lia|].
  replace (2 * S n)%nat with (S (S (2 * n))) by lia. cbn [take pairs]. by rewrite <- app_assoc.
Qed.

Lemma level_loop_spec n j ints :
  (2 * j + 2 * n <= length ints)%nat ->
  exists out, level_loop cn_fast_hash n (Z.of_nat (2 * j)) (Z.of_nat j) ints = Ok out /\
    length out = length ints /\
    take (j + n) out = take j ints ++ pairs (take (2 * n) (drop (2 * j) ints)).
Proof.
  revert j ints. induction n as [|n IH]; intros j ints H.
  { exists ints. split_and!; [done..|]. cbn. by rewrite app_nil_r, Nat.add_0_r. }
  cbn [level_loop]. destruct (drop_two ints (2 * j)) as (a & b & Ha & Hb & ED); [lia|].
  rewrite (hash_two_spec _ _ a b) by (rewrite ?Nat2Z.id; try lia; done). cbn [mbind outcome_bind].
  rewrite vset_in by lia. cbn [mbind outcome_bind].
  set (h := cn_fast_hash (a ++ b)). set (ints' := <[j := h]> ints).
  assert (EL : length ints' = length ints) by (unfold ints'; by rewrite length_insert).
  destruct (IH (S j) ints') as (out & E & HL & HT); [lia|].
  replace (Z.of_nat (2 * j) + 2) with (Z.of_nat (2 * S j)) by lia.
  replace (Z.of_nat j + 1) with (Z.of_nat (S j)) by lia.
  exists out. split_and!; [done|lia|].
  replace (j + S n)%nat with (S j + n)%nat by lia. rewrite HT, ED.
  replace (2 * S n)%nat with (S (S (2 * n))) by lia. cbn [take pairs]. fold h.
  unfold ints'. rewrite drop_insert_lt by lia.
  replace (2 * S j)%nat with (S (S (2 * j))) by lia.
  rewrite (take_S_r _ _ h) by (apply list_lookup_insert_eq; lia).
  rewrite take_insert_ge by lia. by rewrite <- app_assoc.
Qed.

Lemma tree_loop_spec k fuel ints :
  (S k < fuel)%nat -> (2 ^ S k <= length ints)%nat ->
  exists out, tree_loop cn_fast_hash fuel (2 ^ Z.of_nat (S k)) ints = Ok out /\
    hash_two cn_fast_hash out 0 = Ok (root (S k) (take (2 ^ S k) ints)).
Proof.
  revert fuel ints. induction k as [|k IH]; intros fuel ints Hf Hl.
  - destruct fuel as [|fuel]; [lia|]. exists ints. split; [done|].
    destruct ints as [|a [|b r]]; cbn in Hl; try lia. done.
  - destruct fuel as [|fuel]; [lia|]. cbn [tree_loop].
    assert (E2 : 2 ^ Z.of_nat (S (S k)) = 2 * 2 ^ Z.of_nat (S k)) by (rewrite <- Z.pow_succ_r by lia; f_equal; lia).
    assert (2 ^ Z.of_nat (S k) = 2 * 2 ^ Z.of_nat k) by (rewrite <- Z.pow_succ_r by lia; f_equal; lia).
    pose proof (Z.pow_pos_nonneg 2 (Z.of_nat k)).
    destruct (Z.ltb_spec 2 (2 ^ Z.of_nat (S (S k)))) as [_|]; [|lia].
    assert (Z.shiftr (2 ^ Z.of_nat (S (S k))) 1 = 2 ^ Z.of_nat (S k)) as ->.
    { rewrite Z.shiftr_div_pow2, E2, Z.pow_1_r, Z.mul_comm by lia. apply Z.div_mul. lia. }
    assert (Z.to_nat (2 ^ Z.of_nat (S k)) = (2 ^ S k)%nat) as ->.
    { change 2 with (Z.of_nat 2). rewrite <- Nat2Z.inj_pow. apply Nat2Z.id. }
    assert (EN : (2 ^ S (S k) = 2 * 2 ^ S k)%nat) by (cbn; lia).
    destruct (level_loop_spec (2 ^ S k) 0 ints) as (out & E & HL & HT); [lia|].
    change (Z.of_nat (2 * 0)) with 0 in E. change (Z.of_nat 0) with 0 in E. rewrite E.
    cbn [mbind outcome_bind]. destruct (IH fuel out) as (out' & E' & R); [lia|lia|].
    exists out'. split; [done|]. rewrite R.
    rewrite Nat.add_0_l, Nat.mul_0_r, take_0, drop_0, app_nil_l in HT. rewrite HT, EN. done.
Qed.

Lemma tree_hash_root hashes :
  (2 <= length hashes)%nat -> zlen hashes <= 2 ^ 64 ->
  exists k : nat, tree_cnt (zlen hashes) = 2 ^ Z.of_nat k /\
    length (leaves hashes) = (2 ^ k)%nat /\
    Nat.Even (length hashes - Z.to_nat (2 * tree_cnt (zlen hashes) - zlen hashes)) /\
    tree_hash cn_fast_hash hashes = Ok (root k (leaves hashes)).
Proof.
  intros H2 H64. assert (2 <= zlen hashes) by (unfold zlen; lia).
  pose proof (tree_cnt_spec (zlen hashes - 1) ltac:(lia)) as EC.
  replace (zlen hashes - 1 + 1) with (zlen hashes) in EC by lia.
  set (L := Z.log2 (zlen hashes - 1)) in EC. assert (0 <= L) by apply Z.log2_nonneg.
  assert (L < 64) by (apply Z.log2_lt_pow2; lia).
  destruct (Z.log2_spec (zlen hashes - 1)) as [LA LB]; [lia|].
  change (2 ^ L <= zlen hashes - 1) in LA. change (zlen hashes - 1 < 2 ^ Z.succ L) in LB.
  rewrite Z.pow_succ_r in LB by lia. clearbody L. exists (Z.to_nat L). rewrite Z2Nat.id by lia.
  set (c := tree_cnt (zlen hashes)) in *. set (m := Z.to_nat (2 * c - zlen hashes)).
  assert (Ec : Z.of_nat (2 ^ Z.to_nat L) = c) by (rewrite Nat2Z.inj_pow, Z2Nat.id by lia; cbn; lia).
  assert (Em : Z.of_nat m = 2 * c - zlen hashes) by (unfold m; lia).
  assert (Ed : length (drop m hashes) = (2 * (2 ^ Z.to_nat L - m))%nat) by (rewrite length_drop; unfold zlen in *; lia).
  assert (Elv : leaves hashes = take m hashes ++ pairs (drop m hashes)) by done.
  assert (ELe : length (leaves hashes) = (2 ^ Z.to_nat L)%nat).
  { unfold leaves. fold c m. rewrite length_app, (length_pairs (2 ^ Z.to_nat L - m)) by done.
    rewrite length_take. unfold zlen in *. lia. }
  split_and!; [done|done|exists (2 ^ Z.to_nat L - m)%nat; unfold zlen in *; lia|].
  unfold tree_hash. rewrite massert_true by (apply Z.ltb_lt; lia). cbn [mbind outcome_bind].
  destruct (Z.eqb_spec (zlen hashes) 1); [lia|]. destruct (Z.eqb_spec (zlen hashes) 2) as [E|Hn].
  - unfold leaves. fold c m. assert (L = 0) as -> by (assert (2 ^ L < 2) by lia; destruct (decide (1 <= L)); [|lia];
      pose proof (Z.pow_le_mono_r 2 1 L); lia).
    cbn in EC. destruct hashes as [|a [|b [|]]]; unfold zlen in E; cbn in E; try lia.
    assert (m = 0%nat) as -> by (unfold zlen in *; cbn in *; lia). done.
  - fold c. replace (Z.to_nat (2 * c - zlen hashes)) with m by lia.
    assert (length (take m hashes) = m) as HLm by (rewrite length_take; unfold zlen in *; lia).
    assert (En : Z.to_nat (c - (2 * c - zlen hashes)) = (2 ^ Z.to_nat L - m)%nat) by (unfold zlen in *; lia).
    pose proof (leaf_loop_spec (2 ^ Z.to_nat L - m) m hashes (take m hashes)
      (replicate (2 ^ Z.to_nat L - m) NULL_HASH)) as LL.
    rewrite HLm, Em, <- Ed in LL. rewrite En, LL; [|rewrite length_drop; unfold zlen in *; lia|by rewrite length_replicate].
    cbn [mbind outcome_bind]. rewrite massert_true by (apply Z.eqb_eq; rewrite length_drop; unfold zlen in *; lia).
    cbn [mbind outcome_bind]. rewrite firstn_all. rewrite <- Elv.
    assert (1 <= L) by (destruct (decide (L = 0)) as [->|]; [cbn in *; lia|lia]).
    destruct (Z.to_nat L) as [|k] eqn:EL; [lia|].
    destruct (tree_loop_spec k 64 (leaves hashes)) as (out & E & R); [lia|lia|].
    replace (Z.of_nat (S k)) with L in E by lia. rewrite EC, E. cbn [mbind outcome_bind].
    rewrite R. by rewrite <- ELe, firstn_all.
Qed.

(** * Commitment *)

(** What the hash function is applied to on the way to the root of a tree. *)
Fixpoint pair_inputs (l : list (list Z)) : list (list Z) :=
  match l with
  | a :: b :: l => (a ++ b) :: pair_inputs l
  | _ => []
  end.
Fixpoint root_inputs (k : nat) (l : list (list Z)) : list (list Z) :=
  match k with O => [] | S k => pair_inputs l ++ root_inputs k (pairs l) end.
Definition tree_inputs (hashes : list (list Z)) : list (list Z) :=
  let c := tree_cnt (zlen hashes) in
  if (length hashes <=? 1)%nat then []
  else pair_inputs (drop (Z.to_nat (2 * c - zlen hashes)) hashes) ++
       root_inputs (Z.to_nat (Z.log2 c)) (leaves hashes).

(** Two of these inputs, one of each list, that are different and have the same
    hash. *)
Definition collision (xs ys : list (list Z)) : Prop :=
  exists x y, x ∈ xs /\ y ∈ ys /\ x <> y /\ cn_fast_hash x = cn_fast_hash y.

Lemma collision_mono xs ys xs' ys' : xs ⊆ xs' -> ys ⊆ ys' -> collision xs ys -> collision xs' ys'.
Proof. intros Hx Hy (x & y & ? & ? & ?). exists x, y. auto. Qed.

Hypothesis hash_size : forall x, is_pod 32 (cn_fast_hash x).

Lemma hash_inj x y xs ys : x ∈ xs -> y ∈ ys -> cn_fast_hash x = cn_fast_hash y -> x = y \/ collision xs ys.
Proof. intros Hx Hy E. destruct (decide (x = y)); [by left|right; by exists x, y]. Qed.

Notation sized := (Forall (fun h : list Z => length h = 32%nat)).

Lemma pairs_pods l : Forall (is_pod 32) (pairs l).
Proof. revert l. fix IH 1. intros [|a [|b l]]; cbn; try constructor; [apply hash_size|apply IH]. Qed.
Lemma pairs_sized l : sized (pairs l).
Proof. eapply Forall_impl; [apply pairs_pods|]. by intros ? []. Qed.

Lemma pairs_inj n l k :
  length l = (2 * n)%nat -> length k = (2 * n)%nat -> sized l -> sized k ->
  pairs l = pairs k -> l = k \/ collision (pair_inputs l) (pair_inputs k).
Proof.
  revert l k. induction n as [|n IH]; intros l k Hl Hk Sl Sk E.
  { apply nil_length_inv in Hl as ->. apply nil_length_inv in Hk as ->. by left. }
  destruct l as [|a [|b l]]; cbn in Hl; try lia. destruct k as [|a' [|b' k]]; cbn in Hk; try lia.
  cbn in E. injection E as E E'. apply Forall_cons in Sl as [? [? ?]%Forall_cons]. apply Forall_cons in Sk as [? [? ?]%Forall_cons].
  cbn [pair_inputs]. destruct (hash_inj (a ++ b) (a' ++ b') ((a ++ b) :: pair_inputs l) ((a' ++ b') :: pair_inputs k)) as [EA|];
    [left|left|done| |by right]. apply app_inj_1 in EA as [-> ->]; [|congruence].
  destruct (IH l k) as [->|HC]; [lia..|done|done|done|by left|right]. by eapply collision_mono; [| |exact HC]; apply list_subseteq_cons.
Qed.

Lemma root_inj j l k :
  length l = (2 ^ j)%nat -> length k = (2 ^ j)%nat -> sized l -> sized k ->
  root j l = root j k -> l = k \/ collision (root_inputs j l) (root_inputs j k).
Proof.
  revert l k. induction j as [|j IH]; intros l k Hl Hk Sl Sk E.
  - destruct l as [|a [|]]; cbn in Hl; try lia. destruct k as [|b [|]]; cbn in Hk; try lia.
    cbn in E. left. by subst.
  - cbn [root root_inputs] in *. assert (EN : (2 ^ S j = 2 * 2 ^ j)%nat) by (cbn; lia). rewrite EN in *.
    destruct (IH (pairs l) (pairs k)) as [EP|HC]; try (apply length_pairs; done); try apply pairs_sized; [done| |].
    + destruct (pairs_inj (2 ^ j) l k) as [|HC]; [done..|by left|right].
      eapply collision_mono; [| |exact HC]; apply list_subseteq_app_l; done.
    + right. eapply collision_mono; [| |exact HC]; apply list_subseteq_app_r; done.
Qed.

Lemma tree_hash_one a : tree_hash cn_fast_hash [a] = Ok a.
Proof. unfold tree_hash. by rewrite massert_true by done. Qed.

Lemma leaves_sized l : sized l -> sized (leaves l).
Proof. intros H. apply Forall_app. split; [by apply Forall_take|apply pairs_sized]. Qed.

Lemma leaves_inj m e l k :
  length l = length k -> (length l - m = 2 * e)%nat -> sized l -> sized k ->
  take m l ++ pairs (drop m l) = take m k ++ pairs (drop m k) ->
  l = k \/ collision (pair_inputs (drop m l)) (pair_inputs (drop m k)).
Proof.
  intros EL He Sl Sk EA. apply app_inj_1 in EA as [ET EP]; [|rewrite !length_take; lia].
  destruct (pairs_inj e (drop m l) (drop m k)) as [ED|]; rewrite ?length_drop; try lia;
    try (by apply Forall_drop); [done| |by right].
  left. rewrite <- (take_drop m l), <- (take_drop m k). by rewrite ET, ED.
Qed.

Lemma tree_hash_commits l k h :
  length l = length k -> (1 <= length l)%nat -> zlen l <= 2 ^ 64 -> sized l -> sized k ->
  tree_hash cn_fast_hash l = Ok h -> tree_hash cn_fast_hash k = Ok h ->
  l = k \/ collision (tree_inputs l) (tree_inputs k).
Proof.
  intros EL H1 H64 Sl Sk El Ek. assert (EZ : zlen l = zlen k) by (unfold zlen; lia).
  destruct (decide (length l = 1%nat)) as [E1|].
  { destruct l as [|a [|]]; cbn in E1; try lia. destruct k as [|b [|]]; cbn in EL; try lia.
    rewrite tree_hash_one in El, Ek. left. congruence. }
  destruct (tree_hash_root l) as (j & Ec & Ll & Ev & R); [lia..|].
  destruct (tree_hash_root k) as (j' & Ec' & Lk & Ev' & R'); [lia..|].
  rewrite <- EZ in Ec'. rewrite Ec in Ec'. apply Z.pow_inj_r in Ec'; [|lia..]. assert (j' = j) as -> by lia.
  unfold tree_inputs. rewrite <- EL, <- EZ. destruct (Nat.leb_spec (length l) 1); [lia|].
  assert (Ej : Z.to_nat (Z.log2 (tree_cnt (zlen l))) = j) by (rewrite Ec, Z.log2_pow2; lia). rewrite Ej.
  destruct (root_inj j (leaves l) (leaves k)) as [EA|HC]; [done|done|by apply leaves_sized..|congruence| |].
  - unfold leaves in EA. rewrite <- EZ in EA. destruct Ev as [e He].
    destruct (leaves_inj _ e l k EL He Sl Sk EA) as [|HC]; [by left|right].
    eapply collision_mono; [| |exact HC]; apply list_subseteq_app_l; done.
  - right. eapply collision_mono; [| |exact HC]; apply list_subseteq_app_r; done.
Qed.

Lemma tree_hash_total l :
  (1 <= length l)%nat -> zlen l <= 2 ^ 64 -> Forall (is_pod 32) l ->
  exists h, tree_hash cn_fast_hash l = Ok h /\ is_pod 32 h.
Proof.
  intros H1 H64 Sl. destruct (decide (length l = 1%nat)) as [E1|].
  { destruct l as [|a [|]]; cbn in E1; try lia. exists a.
    rewrite tree_hash_one. split; [done|]. by apply Forall_cons in Sl as [? _]. }
  destruct (tree_hash_root l) as (j & Ec & Ll & Ev & R); [lia..|]. eexists. split; [exact R|].
  assert (Forall (is_pod 32) (leaves l)) as HF.
  { apply Forall_app. split; [by apply Forall_take|apply pairs_pods]. }
  revert Ll HF. generalize (leaves l). clear R Ec. induction j as [|j IH]; intros r Ll HF.
  - destruct r as [|a [|]]; cbn in Ll; try lia. by apply Forall_cons in HF as [? _].
  - cbn [root]. apply IH; [apply length_pairs; rewrite Ll; cbn; lia|apply pairs_pods].
Qed.

(** * Blocks *)

Lemma varint_prefix_unique a b : 0 <= a < 2 ^ 64 -> 0 <= b < 2 ^ 64 -> write_varint a = write_varint b -> a = b.
Proof.
  intros Ha Hb E. pose proof (read_write_varint_exact 64 a []) as R. pose proof (read_write_varint_exact 64 b []) as R'.
  rewrite E in R. rewrite R in R' by lia. specialize (R' ltac:(lia)). by injection R'.
Qed.

Lemma codec_inj {A} (f : serializer_of A) wf enc x y r r' :
  codec (SI := MemoryInputStream) (SO := list Z) f wf enc -> wf x -> wf y -> bytes_ok r -> bytes_ok r' ->
  enc x ++ r = enc y ++ r' -> x = y /\ r = r'.
Proof.
  intros F Hx Hy Hr Hr' E. set (s := MemoryInputStream_new (enc x ++ r)).
  destruct (codec_read _ _ _ F x x s r) as (s1 & E1 & _ & P1); [done|cbn; lia|done|done|].
  destruct (codec_read _ _ _ F y x s r') as (s2 & E2 & _ & P2); [done|cbn; lia|done|done|].
  rewrite E1 in E2. injection E2 as -> ->. split; [done|]. by rewrite <- P1, <- P2.
Qed.

(** What a block identifier is computed from. *)
Lemma block_hash_form b :
  wf_block b ->
  exists r, tree_hash cn_fast_hash (cn_fast_hash (enc_tx (baseTransaction b)) :: transactionHashes b) = Ok r /\
    is_pod 32 r /\
    get_block_hashing_blob cn_fast_hash b =
      Ok (Some (enc_header (header b) ++ r ++ write_varint (zlen (transactionHashes b) + 1))) /\
    get_block_hash cn_fast_hash b =
      Ok (cn_fast_hash (enc_header (header b) ++ r ++ write_varint (zlen (transactionHashes b) + 1))).
Proof.
  intros Hb. pose proof Hb as (Hh & Ht & Hx).
  assert (zlen (transactionHashes b) <= 104857600) as Hz by apply Hx.
  destruct (tree_hash_total (cn_fast_hash (enc_tx (baseTransaction b)) :: transactionHashes b)) as (r & Er & Hr);
    [cbn; lia|rewrite zlen_cons; lia|constructor; [apply hash_size|apply Hx]|].
  exists r. split; [done|]. split; [done|].
  assert (EB : get_block_hashing_blob cn_fast_hash b =
      Ok (Some (enc_header (header b) ++ r ++ write_varint (zlen (transactionHashes b) + 1)))).
  { unfold get_block_hashing_blob, get_tx_tree_hash, getObjectHash.
    rewrite (proj1 (whole_object _ _ _ codec_BlockHeader) _ Hh).
    cbn [mbind outcome_bind]. rewrite (proj1 (whole_object _ _ _ codec_Transaction) _ Ht).
    cbn [mbind outcome_bind]. unfold getBinaryArrayHash. rewrite Er. cbn [mbind outcome_bind].
    pose proof (zlen_nonneg (transactionHashes b)).
    rewrite u64_small by (unfold is_u64; lia). done. }
  split; [done|]. unfold get_block_hash, get_block_hash_opt. by rewrite EB.
Qed.

Lemma enc_tx_inj x y : wf_tx x -> wf_tx y -> enc_tx x = enc_tx y -> x = y.
Proof.
  intros Hx Hy E. apply (codec_inj _ _ _ x y [] [] codec_Transaction Hx Hy); [constructor..|].
  by rewrite !app_nil_r.
Qed.

(** What the hash function is applied to for a block: the miner transaction, the
    nodes of the tree, and the blob with the header, the root and the number of
    transactions. *)
Definition block_inputs (b : Block) : list (list Z) :=
  enc_tx (baseTransaction b) ::
  tree_inputs (cn_fast_hash (enc_tx (baseTransaction b)) :: transactionHashes b) ++
  match get_block_hashing_blob cn_fast_hash b with Ok (Some blob) => [blob] | _ => [] end.

Lemma block_hash_commits b1 b2 h :
  wf_block b1 -> wf_block b2 ->
  get_block_hash cn_fast_hash b1 = Ok h -> get_block_hash cn_fast_hash b2 = Ok h ->
  b1 = b2 \/ collision (block_inputs b1) (block_inputs b2).
Proof.
  intros H1 H2 E1 E2.
  destruct (block_hash_form b1) as (r1 & T1 & P1 & G1 & F1); [done..|].
  destruct (block_hash_form b2) as (r2 & T2 & P2 & G2 & F2); [done..|].
  rewrite F1 in E1. rewrite F2 in E2. pose proof (zlen_nonneg (transactionHashes b1)). pose proof (zlen_nonneg (transactionHashes b2)).
  unfold block_inputs. rewrite G1, G2. set (t1 := tree_inputs _). set (t2 := tree_inputs _).
  edestruct hash_inj as [EB|HC]; [right; apply elem_of_app; right; left|right; apply elem_of_app; right; left| | |right; exact HC].
  { injection E1 as E1. injection E2 as E2. by rewrite E1, E2. }
  destruct H1 as (Hh1 & Ht1 & Z1 & Hx1), H2 as (Hh2 & Ht2 & Z2 & Hx2). change MAX_CONTAINER with 104857600 in Z1, Z2.
  apply (codec_inj _ _ _ (header b1) (header b2) _ _ codec_BlockHeader Hh1 Hh2) in EB as [EH ER];
    [|apply Forall_app; split; [apply P1 || apply P2|apply write_varint_bytes; lia]..].
  apply app_inj_1 in ER as [<- EV]; [|destruct P1, P2; congruence].
  apply varint_prefix_unique in EV; [|lia..].
  assert (sized (transactionHashes b1) /\ sized (transactionHashes b2)) as [S1 S2].
  { split; (eapply Forall_impl; [eassumption|]; by intros ? []). }
  destruct (fun h1 h2 h3 h4 h5 => tree_hash_commits _ _ r1 h1 h2 h3 h4 h5 T1 T2) as [EA|HC];
    [cbn; unfold zlen in EV; lia|cbn; lia|rewrite zlen_cons; lia|constructor; [apply hash_size|done]..| |].
  2:{ right. eapply collision_mono; [| |exact HC]; intros x Hx; right; apply elem_of_app; by left. }
  injection EA as EA EX. edestruct hash_inj as [ET|HC]; [left|left|exact EA| |right; exact HC].
  apply enc_tx_inj in ET; [|done..].
  left. destruct b1, b2; cbn in *. congruence.
Qed.

(** C15.  A block identifier commits to the whole block: when two different
    well-formed blocks have the same [get_block_hash], then among the byte strings
    that are hashed for the identifier of the first block (its miner transaction,
    the nodes of its Merkle tree, its hashing blob) and those hashed for the second
    there are two, one of each, that differ and have the same [cn_fast_hash].  This
    covers the header, the miner transaction and the list of transaction hashes,
    whatever their number. *)
Theorem block_hash_binding (b1 b2 : Block) (h : list Z) :
  wf_block b1 -> wf_block b2 ->
  get_block_hash cn_fast_hash b1 = Ok h -> get_block_hash cn_fast_hash b2 = Ok h ->
  b1 <> b2 ->
  exists x y, x ∈ block_inputs b1 /\ y ∈ block_inputs b2 /\ x <> y /\ cn_fast_hash x = cn_fast_hash y.
Proof. intros H1 H2 E1 E2 Hn. by destruct (block_hash_commits b1 b2 h). Qed.

(** The optimised in-place [tree_hash] computes a perfect binary tree: for
    two or more hashes no index leaves the arrays, the assertion on the number
    of consumed hashes holds, and the result is the root of a tree with [2 ^ k]
    leaves, the largest power of two below their number, whose last leaves are
    the hashes of pairs. *)
Theorem tree_hash_perfect (hashes : list (list Z)) :
  (2 <= length hashes)%nat -> zlen hashes <= 2 ^ 64 ->
  exists k : nat, (2 ^ k < length hashes <= 2 * 2 ^ k)%nat /\
    let m := (2 * 2 ^ k - length hashes)%nat in
    tree_hash cn_fast_hash hashes = Ok (root k (take m hashes ++ pairs (drop m hashes))).
Proof.
  intros H2 H64. destruct (tree_hash_root hashes) as (k & Ec & Ll & Ev & R); [done..|].
  exists k. assert (Ec' : tree_cnt (zlen hashes) = Z.of_nat (2 ^ k)) by (rewrite Ec, Nat2Z.inj_pow; done).
  pose proof (tree_cnt_spec (zlen hashes - 1)) as S. replace (zlen hashes - 1 + 1) with (zlen hashes) in S by lia.
  unfold zlen in *. destruct (Z.log2_spec (Z.of_nat (length hashes) - 1)) as [LA LB]; [lia|].
  rewrite Z.pow_succ_r, <- S, Ec' in LB by (try apply Z.log2_nonneg; lia).
  rewrite <- S, Ec' in LA by lia. split; [lia|].
  rewrite R. unfold leaves, zlen. rewrite Ec'. cbv zeta. do 2 f_equal. f_equal; [|f_equal]; f_equal; lia.
Qed.
End Merkle.

(** A stand-in of the right size for [cn_fast_hash]. *)
Definition sum_hash (l : list Z) : list Z := u8 (sum_Z l) :: replicate 31 0.
Lemma sum_hash_pod l : is_pod 32 (sum_hash l).
Proof.
  split; [done|]. unfold bytes_ok. constructor; [apply u8_range|apply Forall_replicate; unfold is_u8; lia].
Qed.

Definition swapped_block : Block := {|
  header := header sample_block; baseTransaction := baseTransaction sample_block;
  transactionHashes := rev (transactionHashes sample_block) |}.

Lemma block_hash_binding_witness :
  get_block_hash (B := debug_build) sum_hash sample_block = Ok (105 :: replicate 31 0) /\
  exists x y, x ∈ block_inputs (B := debug_build) sum_hash sample_block /\
    y ∈ block_inputs (B := debug_build) sum_hash swapped_block /\ x <> y /\ sum_hash x = sum_hash y.
Proof.
  split; [vm_compute; reflexivity|].
  apply (block_hash_binding (B := debug_build) sum_hash sum_hash_pod sample_block swapped_block (105 :: replicate 31 0)).
  - exact wf_sample_block.
  - unfold wf_block, wf_header, wf_tx, wf_prefix, wf_signatures; cbn -[Z.pow]. solve_wf.
  - vm_compute; reflexivity.
  - vm_compute; reflexivity.
  - intros E. discriminate (f_equal transactionHashes E).
Defined.

Lemma tree_hash_perfect_witness :
  tree_hash (B := debug_build) sum_hash [[1]; [2]; [3]; [4]; [5]] = Ok (15 :: replicate 31 0) /\
  exists k : nat, (2 ^ k < 5 <= 2 * 2 ^ k)%nat /\
    let m := (2 * 2 ^ k - 5)%nat in
    tree_hash (B := debug_build) sum_hash [[1]; [2]; [3]; [4]; [5]] =
      Ok (root sum_hash k (take m [[1]; [2]; [3]; [4]; [5]] ++ pairs sum_hash (drop m [[1]; [2]; [3]; [4]; [5]]))).
Proof.
  split; [vm_compute; reflexivity|].
  apply (tree_hash_perfect (B := debug_build) sum_hash [[1]; [2]; [3]; [4]; [5]]); [cbn; lia|vm_compute; discriminate].
Defined.
