(* ===== verification/BlockchainIndices.v ===== *)
(** The explorer indexes: [CryptoNoteCore/BlockchainIndices.cpp].

    An [unordered_multimap] is a multiset of its pairs; a [std::multimap] is a
    list of pairs sorted by key, equal keys in the order of their insertion. *)
From stdpp Require Import gmultiset.
From S2P Require Import Prelude CryptoNote Serializer Serialization TransactionExtra TreeHash.

(** [boost::get<BaseInput>(block.baseTransaction.inputs.front()).blockIndex]. *)
Definition base_index (b : Block) : outcome Z :=
  match tx_inputs (baseTransaction b) with
  | [] => Undefined
  | InBase i :: _ => Ok (blockIndex i)
  | _ => Throw bad_get
  end.

Module PaymentIdIndex.
Section Ops.
Context {B : BuildConfig}.
Variable cn_fast_hash : list Z -> list Z.
Definition t := gmultiset (list Z * list Z).

(** [BlockchainExplorerDataBuilder::getPaymentId]: the result of the parser is
    not looked at. *)
Definition getPaymentId (tx : Transaction) : outcome (option (list Z)) :=
  '(_, fields) ← parseTransactionExtra (tx_extra tx);
  Ok (n ← find_field as_nonce fields; getPaymentIdFromTransactionExtraNonce n).

Definition entry_of (tx : Transaction) : outcome (option (list Z * list Z)) :=
  '(_, transactionHash, _) ← getObjectHash cn_fast_hash (@serialize_Transaction) tx;
  r ← getPaymentId tx;
  Ok (match r with Some paymentId => Some (paymentId, transactionHash) | None => None end).

Definition add (index : t) (tx : Transaction) : outcome (bool * t) :=
  r ← entry_of tx;
  Ok (match r with Some e => (true, {[+ e +]} ⊎ index) | None => (false, index) end).

(** The first pair of the equal range with the hash is erased. *)
Definition remove (index : t) (tx : Transaction) : outcome (bool * t) :=
  r ← entry_of tx;
  Ok (match r with
      | Some e => if decide (e ∈ index) then (true, index ∖ {[+ e +]}) else (false, index)
      | None => (false, index)
      end).

(** [find]: the hashes, in an unspecified order. *)
Definition find (index : t) (paymentId : list Z) : list (list Z) :=
  map snd (filter (fun e => e.1 = paymentId) (elements index)).
Definition clear (index : t) : t := ∅.

Lemma payment_remove_add index tx ok index' :
  add index tx = Ok (ok, index') -> remove index' tx = Ok (ok, index).
Proof.
  unfold add, remove. destruct (entry_of tx) as [r| | |]; try done. cbn [mbind outcome_bind].
  destruct r as [e|]; intros [= <- <-]; [|done].
  rewrite decide_True by multiset_solver. do 2 f_equal. multiset_solver.
Qed.
End Ops.
End PaymentIdIndex.

Module TimestampBlocksIndex.
Definition t := list (Z * list Z).

(** [index.emplace(timestamp, hash)]: behind every key not greater. *)
Fixpoint add (index : t) (timestamp : Z) (hash : list Z) : t :=
  match index with
  | [] => [(timestamp, hash)]
  | e :: index => if e.1 <=? timestamp then e :: add index timestamp hash else (timestamp, hash) :: e :: index
  end.

(** The first pair of the equal range with the hash is erased. *)
Fixpoint remove (index : t) (timestamp : Z) (hash : list Z) : bool * t :=
  match index with
  | [] => (false, [])
  | e :: index =>
      if (e.1 =? timestamp) && bool_decide (e.2 = hash) then (true, index)
      else let '(ok, index) := remove index timestamp hash in (ok, e :: index)
  end.

(** [None] when it returns false before it has set anything, else the result,
    the hashes and their number. *)
Definition find (index : t) (timestampBegin timestampEnd hashesNumberLimit : Z) : option (bool * list (list Z) * Z) :=
  if timestampEnd <? timestampBegin then None
  else
    let range := filter (fun e => timestampBegin <= e.1 <= timestampEnd) index in
    let hashes := take (Z.to_nat hashesNumberLimit) (map snd range) in
    Some (0 <? zlen hashes, hashes, u32 (zlen range)).
Definition clear (index : t) : t := [].

Lemma timestamp_remove_add index ts h :
  (ts, h) ∉ index -> remove (add index ts h) ts h = (true, index).
Proof.
  induction index as [|[k v] index IH]; intros Hn; cbn.
  { rewrite Z.eqb_refl. by rewrite bool_decide_eq_true_2. }
  apply not_elem_of_cons in Hn as [Hne Hn].
  destruct (Z.leb_spec k ts); cbn.
  - destruct (Z.eqb_spec k ts) as [->|]; cbn; [|by rewrite IH].
    rewrite bool_decide_eq_false_2 by congruence. by rewrite IH.
  - rewrite Z.eqb_refl. by rewrite bool_decide_eq_true_2.
Qed.

Lemma timestamp_add_perm index ts h : add index ts h ≡ₚ (ts, h) :: index.
Proof.
  induction index as [|e index IH]; cbn; [done|]. destruct (e.1 <=? ts); [|done].
  rewrite IH. apply perm_swap.
Qed.
End TimestampBlocksIndex.

(** The index of the transaction pool: the same [add] and [remove], and a
    [find] that includes the first entry when the end of the range is 0. *)
Module TimestampTransactionsIndex.
Definition t := TimestampBlocksIndex.t.
Definition add (index : t) (timestamp : Z) (hash : list Z) : t := TimestampBlocksIndex.add index timestamp hash.
Definition remove (index : t) (timestamp : Z) (hash : list Z) : bool * t := TimestampBlocksIndex.remove index timestamp hash.
Definition find (index : t) (timestampBegin timestampEnd hashesNumberLimit : Z) : option (bool * list (list Z) * Z) :=
  if timestampEnd <? timestampBegin then None
  else
    let range := filter (fun e => timestampBegin <= e.1 <= timestampEnd) index in
    let at_begin := bool_decide (filter (fun e => e.1 < timestampBegin) index = []) in
    let range := if (timestampEnd =? 0) && bool_decide (range = []) && at_begin then take 1 index else range in
    let hashes := take (Z.to_nat hashesNumberLimit) (map snd range) in
    Some (0 <? zlen hashes, hashes, u32 (zlen range)).
Definition clear (index : t) : t := [].
End TimestampTransactionsIndex.

Module GeneratedTransactionsIndex.
Record t := { index : gmap Z Z; lastGeneratedTxNumber : Z }.
Definition empty : t := {| index := ∅; lastGeneratedTxNumber := 0 |}.

Section Ops.
Context {B : BuildConfig}.

Definition add (g : t) (block : Block) : outcome (bool * t) :=
  blockHeight ← base_index block;
  if negb (Z.of_nat (size (index g)) =? blockHeight) then Ok (false, g)
  else
    let n := u64 (lastGeneratedTxNumber g + zlen (transactionHashes block) + 1) in
    Ok (match index g !! blockHeight with
        | Some _ => (false, g)
        | None => (true, {| index := <[blockHeight := n]> (index g); lastGeneratedTxNumber := n |})
        end).

(** Erasing or dereferencing the end iterator is undefined. *)
Definition remove (g : t) (block : Block) : outcome (bool * t) :=
  blockHeight ← base_index block;
  if negb (blockHeight =? u64 (Z.of_nat (size (index g)) - 1)) then Ok (false, g)
  else
    _ ← massert (bool_decide (is_Some (index g !! blockHeight)));
    match index g !! blockHeight with
    | None => Undefined
    | Some _ =>
        let idx := delete blockHeight (index g) in
        if negb (blockHeight =? 0) then
          _ ← massert (bool_decide (is_Some (idx !! (blockHeight - 1))));
          match idx !! (blockHeight - 1) with
          | None => Undefined
          | Some n => Ok (true, {| index := idx; lastGeneratedTxNumber := n |})
          end
        else Ok (true, {| index := idx; lastGeneratedTxNumber := 0 |})
    end.

Definition find (g : t) (height : Z) : option Z := index g !! height.
(** The counter is not reset. *)
Definition clear (g : t) : t := {| index := ∅; lastGeneratedTxNumber := lastGeneratedTxNumber g |}.
End Ops.

(** ** Specification: the number of transactions of the first blocks *)

Definition txs_of (b : Block) : Z := zlen (transactionHashes b) + 1.
Definition total (chain : list Block) : Z := sum_Z (map txs_of chain).
Definition numbered (chain : list Block) : Prop :=
  forall i b, chain !! i = Some b -> base_index b = Ok (Z.of_nat i).

Definition rep (g : t) (chain : list Block) : Prop :=
  lastGeneratedTxNumber g = total chain /\
  forall h n, index g !! h = Some n <-> 0 <= h < zlen chain /\ n = total (take (S (Z.to_nat h)) chain).

Lemma total_snoc c b : total (c ++ [b]) = total c + txs_of b.
Proof. unfold total. rewrite map_app, sum_Z_app. cbn. lia. Qed.

Lemma generated_rep_size g chain : rep g chain -> Z.of_nat (size (index g)) = zlen chain.
Proof.
  intros [_ HI]. rewrite <- size_dom.
  assert (dom (index g) = list_to_set (map Z.of_nat (seq 0 (length chain))) :> gset Z) as ->.
  { apply set_eq. intros h. rewrite elem_of_dom, elem_of_list_to_set, list_elem_of_fmap. split.
    - intros [n Hn]. apply HI in Hn as [Hh _]. unfold zlen in Hh.
      exists (Z.to_nat h). split; [lia|]. apply elem_of_seq. lia.
    - intros (i & -> & Hi%elem_of_seq). eexists. apply HI. unfold zlen. split; [lia|done]. }
  rewrite size_list_to_set.
  - unfold zlen. by rewrite length_map, length_seq.
  - apply NoDup_fmap_2; [apply _|]. apply NoDup_seq.
Qed.

Section Refinement.
Context {B : BuildConfig}.

Lemma generated_add_rep g chain b :
  rep g chain -> base_index b = Ok (zlen chain) -> total (chain ++ [b]) < 2 ^ 64 ->
  exists g', add g b = Ok (true, g') /\ rep g' (chain ++ [b]).
Proof.
  intros R Hb HT. pose proof (generated_rep_size _ _ R) as HS. destruct R as [HL HI].
  unfold add. rewrite Hb. cbn [mbind outcome_bind]. rewrite HS, Z.eqb_refl. cbn [negb].
  destruct (index g !! zlen chain) eqn:E; [apply HI in E; lia|].
  assert (0 <= total chain).
  { unfold total. apply sum_Z_nonneg. apply Forall_map, Forall_true. intros x. unfold txs_of.
    pose proof (zlen_nonneg (transactionHashes x)). cbn. lia. }
  rewrite total_snoc in HT. pose proof (zlen_nonneg (transactionHashes b)).
  assert (En : u64 (lastGeneratedTxNumber g + zlen (transactionHashes b) + 1) = total (chain ++ [b])).
  { rewrite HL, total_snoc. unfold txs_of in *. rewrite u64_small; [lia|]. unfold is_u64. lia. }
  eexists. split; [done|]. rewrite En. split; [done|]. cbn [index]. intros h n.
  pose proof (zlen_nonneg chain). destruct (decide (h = zlen chain)) as [->|Hne].
  - rewrite lookup_insert_eq, zlen_snoc. unfold zlen. rewrite Nat2Z.id.
    rewrite take_ge by (rewrite length_app; cbn; lia). split; [intros [= <-]; split; [lia|done]|intros [_ ->]; done].
  - rewrite lookup_insert_ne by done. rewrite HI, zlen_snoc.
    unfold zlen in *. split; intros [Hr ->]; (split; [lia|]).
    + by rewrite take_app_le by lia.
    + by rewrite take_app_le by lia.
Qed.

Lemma generated_remove_rep g chain b :
  rep g (chain ++ [b]) -> base_index b = Ok (zlen chain) -> zlen chain < 2 ^ 32 ->
  exists g', remove g b = Ok (true, g') /\ rep g' chain.
Proof.
  intros R Hb HZ. pose proof (generated_rep_size _ _ R) as HS. destruct R as [HL HI].
  rewrite zlen_snoc in HS. pose proof (zlen_nonneg chain).
  unfold remove. rewrite Hb. cbn [mbind outcome_bind]. rewrite HS.
  rewrite u64_small by (unfold is_u64; lia). rewrite (proj2 (Z.eqb_eq _ _)) by lia. cbn [negb].
  assert (E : index g !! zlen chain = Some (total (chain ++ [b]))).
  { apply HI. rewrite zlen_snoc. split; [lia|]. unfold zlen. rewrite Nat2Z.id.
    by rewrite take_ge by (rewrite length_app; cbn; lia). }
  rewrite E. rewrite (massert_true (bool_decide (is_Some (Some (total (chain ++ [b])))))) by (apply bool_decide_eq_true_2; by eexists). cbn [mbind outcome_bind].
  assert (HD : forall h n, delete (zlen chain) (index g) !! h = Some n <->
    0 <= h < zlen chain /\ n = total (take (S (Z.to_nat h)) chain)).
  { intros h n. rewrite lookup_delete_Some, HI, zlen_snoc. unfold zlen in *.
    split; [intros (? & ? & ->)|intros [? ->]]; (split_and?; try lia); by rewrite take_app_le by lia. }
  destruct (Z.eqb_spec (zlen chain) 0) as [E0|]; cbn [negb].
  - eexists. split; [done|]. split; [|exact HD]. cbn. by apply nil_length_inv in E0 as -> || (destruct chain; [done|unfold zlen in E0; cbn in E0; lia]).
  - assert (EP : delete (zlen chain) (index g) !! (zlen chain - 1) = Some (total chain)).
    { apply HD. split; [lia|]. by rewrite take_ge by (unfold zlen; lia). }
    rewrite EP. rewrite massert_true by (apply bool_decide_eq_true_2; by eexists). cbn [mbind outcome_bind].
    eexists. split; [done|]. split; [done|exact HD].
Qed.

Fixpoint add_all (g : t) (chain : list Block) : outcome t :=
  match chain with
  | [] => Ok g
  | b :: chain => '(_, g) ← add g b; add_all g chain
  end.

Lemma total_nonneg chain : 0 <= total chain.
Proof.
  unfold total. apply sum_Z_nonneg. apply Forall_map, Forall_true. intros x. unfold txs_of.
  pose proof (zlen_nonneg (transactionHashes x)). cbn. lia.
Qed.

Lemma add_all_rep chain g pre :
  rep g pre -> numbered (pre ++ chain) -> total (pre ++ chain) < 2 ^ 64 ->
  exists g', add_all g chain = Ok g' /\ rep g' (pre ++ chain).
Proof.
  revert g pre. induction chain as [|b chain IH]; intros g pre R HN HT.
  { exists g. by rewrite app_nil_r. }
  replace (pre ++ b :: chain) with ((pre ++ [b]) ++ chain) in * by (by rewrite <- app_assoc).
  destruct (generated_add_rep g pre b R) as (g' & E & R').
  { apply HN. rewrite <- app_assoc. by apply list_lookup_middle. }
  { unfold total in *. rewrite map_app, sum_Z_app in HT. pose proof (total_nonneg chain) as Hn. unfold total in Hn. lia. }
  cbn [add_all]. rewrite E. cbn [mbind outcome_bind]. by apply IH.
Qed.

Lemma empty_rep : rep empty [].
Proof. split; [done|]. intros h n. cbn. rewrite lookup_empty. split; [done|]. unfold zlen. cbn. lia. Qed.

Lemma rep_find g chain h :
  rep g chain -> find g h = if (0 <=? h) && (h <? zlen chain) then Some (total (take (S (Z.to_nat h)) chain)) else None.
Proof.
  intros [_ HI]. unfold find. destruct ((0 <=? h) && (h <? zlen chain)) eqn:Eb; zbool.
  - apply HI. split; [lia|done].
  - destruct (index g !! h) eqn:E; [|done]. apply HI in E. destruct Eb; zbool; lia.
Qed.

Lemma rep_functional g1 g2 chain : rep g1 chain -> rep g2 chain -> g1 = g2.
Proof.
  intros [L1 I1] [L2 I2]. destruct g1 as [x1 n1], g2 as [x2 n2]. cbn in *. f_equal; [|congruence].
  apply map_eq. intros h. apply option_eq. intros n. by rewrite I1, I2.
Qed.

(** The transaction counter of the explorer: after adding the blocks of a
    chain in order, [find(h)] is the number of transactions, miner transactions
    included, in the blocks up to height [h] (and nothing above the top), and
    removing the top block gives exactly the index of the shorter chain.  No
    assertion of [add] or [remove] can fail on the way. *)
Theorem generated_transactions_index (chain : list Block) (b : Block) :
  numbered (chain ++ [b]) -> total (chain ++ [b]) < 2 ^ 64 -> zlen chain < 2 ^ 32 ->
  exists g g', add_all empty (chain ++ [b]) = Ok g /\ add_all empty chain = Ok g' /\
    remove g b = Ok (true, g') /\
    forall h, find g h = if (0 <=? h) && (h <? zlen chain + 1)
                         then Some (total (take (S (Z.to_nat h)) (chain ++ [b]))) else None.
Proof.
  intros HN HT HZ. destruct (add_all_rep (chain ++ [b]) empty [] empty_rep HN HT) as (g & E & R).
  cbn [app] in R.
  destruct (add_all_rep chain empty [] empty_rep) as (g' & E' & R').
  { intros i x Hx. apply HN. by apply lookup_app_l_Some. }
  { cbn [app]. rewrite total_snoc in HT. unfold txs_of in HT. pose proof (zlen_nonneg (transactionHashes b)). lia. }
  destruct (generated_remove_rep g chain b R) as (g2 & E2 & R2).
  { apply HN. by apply list_lookup_middle. }
  { done. }
  exists g, g'. split_and!; [done|done| |].
  - rewrite E2. do 2 f_equal. by eapply rep_functional.
  - intros h. rewrite (rep_find _ _ _ R). by rewrite zlen_snoc.
Qed.
End Refinement.

(** A chain of three blocks with two, none and two transactions. *)
Definition numbered_block (i : Z) (hashes : list (list Z)) : Block := {|
  header := header sample_block;
  baseTransaction := {| prefix := {| version := 1; unlockTime := 0; inputs := [InBase {| blockIndex := i |}];
    outputs := []; extra := [] |}; signatures := [] |};
  transactionHashes := hashes |}.
Definition numbered_chain : list Block :=
  [numbered_block 0 [sample_key 1; sample_key 2]; numbered_block 1 []].

Lemma generated_transactions_index_witness :
  exists g g', add_all empty (numbered_chain ++ [numbered_block 2 [sample_key 3]]) = Ok g /\
    add_all empty numbered_chain = Ok g' /\
    remove (B := debug_build) g (numbered_block 2 [sample_key 3]) = Ok (true, g') /\
    forall h, find g h = if (0 <=? h) && (h <? zlen numbered_chain + 1)
      then Some (total (take (S (Z.to_nat h)) (numbered_chain ++ [numbered_block 2 [sample_key 3]]))) else None.
Proof.
  apply (generated_transactions_index (B := debug_build) numbered_chain (numbered_block 2 [sample_key 3])).
  - intros [|[|[|i]]] x [= <-]; reflexivity.
  - reflexivity.
  - reflexivity.
Defined.

(** [clear] keeps the counter, so a rebuilt index continues from the old one. *)
Lemma clear_keeps_counter :
  (g ← add_all empty [numbered_block 0 []]; g' ← add_all (clear g) [numbered_block 0 []];
   Ok (find g 0, find g' 0)) = Ok (Some 1, Some 2).
Proof. vm_compute. reflexivity. Qed.
End GeneratedTransactionsIndex.

Module OrphanBlocksIndex.
Section Ops.
Context {B : BuildConfig}.
Variable cn_fast_hash : list Z -> list Z.
Definition t := gmultiset (Z * list Z).

Definition entry_of (block : Block) : outcome (Z * list Z) :=
  blockHash ← get_block_hash cn_fast_hash block;
  blockHeight ← base_index block;
  Ok (blockHeight, blockHash).

Definition add (index : t) (block : Block) : outcome (bool * t) :=
  e ← entry_of block; Ok (true, {[+ e +]} ⊎ index).
Definition remove (index : t) (block : Block) : outcome (bool * t) :=
  e ← entry_of block;
  Ok (if decide (e ∈ index) then (true, index ∖ {[+ e +]}) else (false, index)).
Definition find (index : t) (height : Z) : list (list Z) :=
  map snd (filter (fun e => e.1 = height) (elements index)).
Definition clear (index : t) : t := ∅.
End Ops.
End OrphanBlocksIndex.
