(* ===== verification/ChainState.v ===== *)
(** The transaction state of the chain: the part of [Blockchain]
    ([CryptoNoteCore/Blockchain.h] and [.cpp]) that a transaction changes when it
    is pushed or popped: the transaction map, spent key images, key outputs,
    multisignature outputs and the payment id index.

    Hash maps are finite maps; [m[k]] on a missing key creates an empty vector. *)
From stdpp Require Import gmultiset.
From S2P Require Import Prelude CryptoNote Serializer Serialization TransactionExtra Currency TreeHash BlockchainIndices.

Record TransactionIndex := { ti_block : Z; ti_transaction : Z }.
Record MultisignatureOutputUsage := {
  transactionIndex : TransactionIndex;
  usage_outputIndex : Z;
  isUsed : bool;
}.
Record TransactionEntry := { te_tx : Transaction; m_global_output_indexes : list Z }.
Record BlockEntry := {
  bl : Block;
  be_height : Z;
  block_cumulative_size : Z;
  cumulative_difficulty : Z;
  already_generated_coins : Z;
  be_transactions : list TransactionEntry;
}.

#[export] Instance TransactionIndex_eq_dec : EqDecision TransactionIndex.
Proof. solve_decision. Defined.
#[export] Instance MultisignatureOutputUsage_eq_dec : EqDecision MultisignatureOutputUsage.
Proof. solve_decision. Defined.

Notation outputs_container := (gmap Z (list (TransactionIndex * Z))).
Notation MultisignatureOutputsContainer := (gmap Z (list MultisignatureOutputUsage)).
Notation key_images_container := (gmap (list Z) Z).

Record Store := {
  m_transactionMap : gmap (list Z) TransactionIndex;
  m_spent_keys : key_images_container;
  m_outputs : outputs_container;
  m_multisignatureOutputs : MultisignatureOutputsContainer;
  m_paymentIdIndex : PaymentIdIndex.t;
}.
Definition empty_store : Store := {|
  m_transactionMap := ∅; m_spent_keys := ∅; m_outputs := ∅; m_multisignatureOutputs := ∅;
  m_paymentIdIndex := ∅ |}.

Definition with_tx (e : TransactionEntry) (ixs : list Z) : TransactionEntry :=
  {| te_tx := te_tx e; m_global_output_indexes := ixs |}.
Definition with_transactions (b : BlockEntry) (txs : list TransactionEntry) : BlockEntry :=
  {| bl := bl b; be_height := be_height b; block_cumulative_size := block_cumulative_size b;
     cumulative_difficulty := cumulative_difficulty b; already_generated_coins := already_generated_coins b;
     be_transactions := txs |}.

(** * Inputs *)

(** The rollback loop of [pushTransaction]: [prev] are the inputs before the
    failing one, nearest first; [boost::get<KeyInput>] throws on any other kind. *)
Fixpoint unspend_keys (prev : list TransactionInput) (keys : key_images_container) : outcome key_images_container :=
  match prev with
  | [] => Ok keys
  | InKey i :: prev => unspend_keys prev (delete (keyImage i) keys)
  | _ :: _ => Throw bad_get
  end.

(** The loop that inserts the key images; the flag is false after a rollback. *)
Fixpoint spend_keys (height : Z) (prev ins : list TransactionInput) (keys : key_images_container)
  : outcome (bool * key_images_container) :=
  match ins with
  | [] => Ok (true, keys)
  | InKey i :: ins =>
      match keys !! keyImage i with
      | Some _ => keys ← unspend_keys prev keys; Ok (false, keys)
      | None => spend_keys height (InKey i :: prev) ins (<[keyImage i := height]> keys)
      end
  | i :: ins => spend_keys height (i :: prev) ins keys
  end.

Definition set_isUsed (b : bool) (u : MultisignatureOutputUsage) : MultisignatureOutputUsage :=
  {| transactionIndex := transactionIndex u; usage_outputIndex := usage_outputIndex u; isUsed := b |}.

(** [m_multisignatureOutputs[amount][i].isUsed = b]. *)
Definition set_used (b : bool) (amount i : Z) (m : MultisignatureOutputsContainer)
  : outcome MultisignatureOutputsContainer :=
  let amountOutputs := default [] (m !! amount) in
  u ← vget amountOutputs i;
  Ok (<[amount := <[Z.to_nat i := set_isUsed b u]> amountOutputs]> m).

(** The loop over the multisignature inputs. *)
Fixpoint mark_inputs (b : bool) (ins : list TransactionInput) (m : MultisignatureOutputsContainer)
  : outcome MultisignatureOutputsContainer :=
  match ins with
  | [] => Ok m
  | InMultisignature i :: ins => m ← set_used b (mi_amount i) (outputIndex i) m; mark_inputs b ins m
  | _ :: ins => mark_inputs b ins m
  end.

(** * Outputs *)

Notation output_maps := (outputs_container * MultisignatureOutputsContainer)%type.

(** One iteration of the output loop of [pushTransaction]: the global index and
    the containers. *)
Definition push_output (idx : TransactionIndex) (output : Z) (out : TransactionOutput) (s : output_maps)
  : Z * output_maps :=
  let '(outs, msig) := s in
  match target out with
  | OutKey _ =>
      let amountOutputs := default [] (outs !! out_amount out) in
      (u32 (zlen amountOutputs), (<[out_amount out := amountOutputs ++ [(idx, output)]]> outs, msig))
  | OutMultisignature _ =>
      let amountOutputs := default [] (msig !! out_amount out) in
      let usage := {| transactionIndex := idx; usage_outputIndex := output; isUsed := false |} in
      (u32 (zlen amountOutputs), (outs, <[out_amount out := amountOutputs ++ [usage]]> msig))
  end.

Fixpoint push_outputs (idx : TransactionIndex) (output : Z) (outs : list TransactionOutput) (s : output_maps)
  : list Z * output_maps :=
  match outs with
  | [] => ([], s)
  | out :: outs =>
      let '(g, s) := push_output idx output out s in
      let '(gs, s) := push_outputs idx (output + 1) outs s in
      (g :: gs, s)
  end.

(** [v.pop_back()], erasing the entry when it becomes empty. *)
Definition pop_entry {A} (m : gmap Z (list A)) (amount : Z) (l : list A) : gmap Z (list A) :=
  match vpop l with [] => delete amount m | l => <[amount := l]> m end.

(** One iteration of the output loop of [popTransaction], which leaves the
    containers alone when it finds them inconsistent. *)
Definition pop_output (idx : TransactionIndex) (output : Z) (out : TransactionOutput) (s : output_maps) : output_maps :=
  let '(outs, msig) := s in
  match target out with
  | OutKey _ =>
      match outs !! out_amount out with
      | None => s
      | Some amountOutputs =>
          match last amountOutputs with
          | None => s
          | Some (i, o) =>
              if negb (ti_block i =? ti_block idx) || negb (ti_transaction i =? ti_transaction idx) then s
              else if negb (o =? output) then s
              else (pop_entry outs (out_amount out) amountOutputs, msig)
          end
      end
  | OutMultisignature _ =>
      match msig !! out_amount out with
      | None => s
      | Some amountOutputs =>
          match last amountOutputs with
          | None => s
          | Some u =>
              if isUsed u then s
              else if negb (ti_block (transactionIndex u) =? ti_block idx)
                      || negb (ti_transaction (transactionIndex u) =? ti_transaction idx) then s
              else if negb (usage_outputIndex u =? output) then s
              else (outs, pop_entry msig (out_amount out) amountOutputs)
          end
      end
  end.

(** The loop runs from the last output to the first: the tail is done before
    the head. *)
Fixpoint pop_outputs (idx : TransactionIndex) (output : Z) (outs : list TransactionOutput) (s : output_maps) : output_maps :=
  match outs with
  | [] => s
  | out :: outs => pop_output idx output out (pop_outputs idx (output + 1) outs s)
  end.

(** * Transactions *)

Section Transactions.
Context {B : BuildConfig}.
Variable cn_fast_hash : list Z -> list Z.

(** [pushTransaction(block, transactionHash, transactionIndex)]: the result, the
    state and the block entry with the global indexes.  The output loop counts
    in 16 bits and does not end on more than 65535 outputs. *)
Definition pushTransaction (st : Store) (block : BlockEntry) (transactionHash : list Z) (idx : TransactionIndex)
  : outcome (bool * Store * BlockEntry) :=
  match m_transactionMap st !! transactionHash with
  | Some _ => Ok (false, st, block)
  | None =>
      let txmap := <[transactionHash := idx]> (m_transactionMap st) in
      let erased := {| m_transactionMap := delete transactionHash txmap; m_spent_keys := m_spent_keys st;
        m_outputs := m_outputs st; m_multisignatureOutputs := m_multisignatureOutputs st;
        m_paymentIdIndex := m_paymentIdIndex st |} in
      transaction ← vget (be_transactions block) (ti_transaction idx);
      let tx := te_tx transaction in
      if negb (checkMultisignatureInputsDiff (prefix tx)) then Ok (false, erased, block)
      else
        '(ok, keys) ← spend_keys (be_height block) [] (tx_inputs tx) (m_spent_keys st);
        if negb (ok : bool) then
          Ok (false, {| m_transactionMap := delete transactionHash txmap; m_spent_keys := keys;
            m_outputs := m_outputs st; m_multisignatureOutputs := m_multisignatureOutputs st;
            m_paymentIdIndex := m_paymentIdIndex st |}, block)
        else
          msig ← mark_inputs true (tx_inputs tx) (m_multisignatureOutputs st);
          if 65535 <? zlen (tx_outputs tx) then Undefined else
          let '(gs, (outs, msig)) := push_outputs idx 0 (tx_outputs tx) (m_outputs st, msig) in
          '(_, pidx) ← PaymentIdIndex.add cn_fast_hash (m_paymentIdIndex st) tx;
          Ok (true, {| m_transactionMap := txmap; m_spent_keys := keys; m_outputs := outs;
                       m_multisignatureOutputs := msig; m_paymentIdIndex := pidx |},
              with_transactions block
                (<[Z.to_nat (ti_transaction idx) := with_tx transaction gs]> (be_transactions block)))
  end.

Fixpoint erase_keys (ins : list TransactionInput) (keys : key_images_container) : key_images_container :=
  match ins with
  | [] => keys
  | InKey i :: ins => erase_keys ins (delete (keyImage i) keys)
  | _ :: ins => erase_keys ins keys
  end.

(** [popTransaction]: [at] throws on an unknown hash.  Its input loop erases key
    images and clears the used flags independently. *)
Definition popTransaction (st : Store) (tx : Transaction) (transactionHash : list Z) : outcome Store :=
  match m_transactionMap st !! transactionHash with
  | None => Throw out_of_range
  | Some idx =>
      let '(outs, msig) := pop_outputs idx 0 (tx_outputs tx) (m_outputs st, m_multisignatureOutputs st) in
      let keys := erase_keys (tx_inputs tx) (m_spent_keys st) in
      msig ← mark_inputs false (tx_inputs tx) msig;
      '(_, pidx) ← PaymentIdIndex.remove cn_fast_hash (m_paymentIdIndex st) tx;
      Ok {| m_transactionMap := delete transactionHash (m_transactionMap st); m_spent_keys := keys;
            m_outputs := outs; m_multisignatureOutputs := msig; m_paymentIdIndex := pidx |}
  end.

(** The transactions after the miner transaction, last first, then the miner
    transaction.  [n] iterations are left. *)
Fixpoint pop_loop (n : nat) (st : Store) (block : BlockEntry) : outcome Store :=
  match n with
  | O => Ok st
  | S n =>
      e ← vget (be_transactions block) (Z.of_nat (S n));
      h ← vget (transactionHashes (bl block)) (Z.of_nat n);
      st ← popTransaction st (te_tx e) h;
      pop_loop n st block
  end.

(** [block.transactions.size() - 1] wraps on an empty vector, whose elements are
    then read out of range. *)
Definition popTransactions (st : Store) (block : BlockEntry) (minerTransactionHash : list Z) : outcome Store :=
  match be_transactions block with
  | [] => Undefined
  | _ :: txs =>
      st ← pop_loop (length txs) st block;
      popTransaction st (baseTransaction (bl block)) minerTransactionHash
  end.
End Transactions.

(** * Key images *)

Definition key_images (ins : list TransactionInput) : list (list Z) :=
  omap (fun i => match i with InKey i => Some (keyImage i) | _ => None end) ins.

Lemma unspend_keys_lookup prev keys keys' :
  unspend_keys prev keys = Ok keys' ->
  forall k, keys' !! k = if decide (k ∈ key_images prev) then None else keys !! k.
Proof.
  revert keys. induction prev as [|[i|i|i] prev IH]; intros keys E k; cbn in E; try done.
  { injection E as ->. by rewrite decide_False by apply not_elem_of_nil. }
  rewrite (IH _ E k). cbn. destruct (decide (k = keyImage i)) as [->|Hn].
  - rewrite (decide_True (P := keyImage i ∈ _ :: _)) by left. rewrite lookup_delete_eq. by case_decide.
  - rewrite lookup_delete_ne by done. apply decide_ext. rewrite elem_of_cons. tauto.
Qed.

Lemma erase_keys_lookup ins keys k :
  erase_keys ins keys !! k = if decide (k ∈ key_images ins) then None else keys !! k.
Proof.
  revert keys. induction ins as [|[i|i|i] ins IH]; intros keys; cbn; [by rewrite decide_False by apply not_elem_of_nil|apply IH| |apply IH].
  rewrite IH. destruct (decide (k = keyImage i)) as [->|Hn].
  - rewrite (decide_True (P := keyImage i ∈ _ :: _)) by left. rewrite lookup_delete_eq. by case_decide.
  - rewrite lookup_delete_ne by done. apply decide_ext. rewrite elem_of_cons. tauto.
Qed.

(** The loop invariant: [prev] has been inserted into [base]. *)
Definition spent_over (height : Z) (prev : list TransactionInput) (base keys : key_images_container) : Prop :=
  (forall k, k ∈ key_images prev -> base !! k = None) /\
  forall k, keys !! k = if decide (k ∈ key_images prev) then Some height else base !! k.

Lemma spent_over_nil h base : spent_over h [] base base.
Proof. split; [by intros k ?%elem_of_nil|]. intros k. by rewrite decide_False by apply not_elem_of_nil. Qed.

Lemma spent_over_key h i prev base keys :
  spent_over h prev base keys -> keys !! keyImage i = None ->
  spent_over h (InKey i :: prev) base (<[keyImage i := h]> keys).
Proof.
  intros [HF HL] Hn. pose proof (HL (keyImage i)) as Hi. rewrite Hn in Hi. case_decide; [done|]. split.
  - intros k [->|Hk]%elem_of_cons; [done|by apply HF].
  - intros k. cbn. destruct (decide (k = keyImage i)) as [->|].
    + by rewrite lookup_insert_eq, decide_True by left.
    + rewrite lookup_insert_ne, HL by done. apply decide_ext. rewrite elem_of_cons. tauto.
Qed.

Lemma spend_keys_spec h prev ins base keys ok keys' :
  spent_over h prev base keys -> spend_keys h prev ins keys = Ok (ok, keys') ->
  if ok then NoDup (key_images ins) /\ (forall k, k ∈ key_images ins -> keys !! k = None) /\
             spent_over h (rev ins ++ prev) base keys'
  else keys' = base.
Proof.
  revert prev keys. induction ins as [|i ins IH]; intros prev keys HP E.
  { injection E as <- <-. split_and!; [constructor|by intros k ?%elem_of_nil|done]. }
  assert (HK : forall i', key_images (i :: ins) = key_images ins -> spend_keys h (i :: prev) ins keys = Ok (ok, keys') ->
    key_images (i :: prev) = key_images prev -> i' = i -> if ok then NoDup (key_images (i :: ins)) /\
      (forall k, k ∈ key_images (i :: ins) -> keys !! k = None) /\ spent_over h (rev (i :: ins) ++ prev) base keys' else keys' = base).
  { intros i' E1 E2 E3 ->. rewrite E1. cbn [rev]. rewrite <- app_assoc. apply (IH (i :: prev) keys); [|done].
    unfold spent_over in *. by rewrite E3. }
  destruct i as [i|i|i]; cbn [spend_keys] in E; [by apply (HK (InBase i))| |by apply (HK (InMultisignature i))].
  clear HK. destruct (keys !! keyImage i) eqn:Ek.
  - apply bind_Ok in E as (k2 & EU & [= <- <-]). apply map_eq. intros k.
    rewrite (unspend_keys_lookup _ _ _ EU). destruct HP as [HF HL]. rewrite HL.
    case_decide; [symmetry; by apply HF|done].
  - specialize (IH (InKey i :: prev) (<[keyImage i := h]> keys) (spent_over_key _ _ _ _ _ HP Ek) E).
    destruct ok; [|done]. destruct IH as (HN & HF & HS). cbn [rev]. rewrite <- app_assoc. cbn. split_and!; [|..|done].
    + constructor; [|done]. intros Hin%HF. by rewrite lookup_insert_eq in Hin.
    + intros k [->|Hk]%elem_of_cons; [done|]. destruct (decide (k = keyImage i)) as [->|]; [done|].
      specialize (HF k Hk). by rewrite lookup_insert_ne in HF.
Qed.

Lemma key_images_rev ins k : k ∈ key_images (rev ins ++ []) <-> k ∈ key_images ins.
Proof.
  rewrite app_nil_r. unfold key_images. rewrite !list_elem_of_omap.
  by setoid_rewrite <- (Permutation_rev ins).
Qed.

Lemma spend_success h ins keys keys' :
  spend_keys h [] ins keys = Ok (true, keys') ->
  NoDup (key_images ins) /\ (forall k, k ∈ key_images ins -> keys !! k = None) /\
  (forall k, keys' !! k = if decide (k ∈ key_images ins) then Some h else keys !! k) /\
  erase_keys ins keys' = keys.
Proof.
  intros E. destruct (spend_keys_spec h [] ins keys keys true keys' (spent_over_nil _ _) E) as (HN & HF & _ & HL).
  assert (HL' : forall k, keys' !! k = if decide (k ∈ key_images ins) then Some h else keys !! k).
  { intros k. rewrite HL. apply decide_ext, key_images_rev. }
  split_and!; [done..|]. apply map_eq. intros k. rewrite erase_keys_lookup, HL'. case_decide; [symmetry; by apply HF|done].
Qed.

(** * Used flags *)

Definition positions (ins : list TransactionInput) : list (Z * Z) :=
  omap (fun i => match i with InMultisignature i => Some (mi_amount i, outputIndex i) | _ => None end) ins.

Definition usage_at (m : MultisignatureOutputsContainer) (p : Z * Z) : option MultisignatureOutputUsage :=
  if p.2 <? 0 then None else m !! p.1 ≫= (fun l => l !! Z.to_nat p.2).

Definition upd (b : bool) (p : Z * Z) (m : MultisignatureOutputsContainer) : MultisignatureOutputsContainer :=
  alter (alter (set_isUsed b) (Z.to_nat p.2)) p.1 m.

Lemma set_used_spec b a i m :
  set_used b a i m = match usage_at m (a, i) with Some _ => Ok (upd b (a, i) m) | None => Undefined end.
Proof.
  unfold set_used, usage_at, upd, vget. cbn [fst snd]. destruct (i <? 0); [done|].
  destruct (m !! a) as [l|] eqn:El; cbn [default from_option id mbind option_bind]; [|by rewrite lookup_nil].
  destruct (l !! Z.to_nat i) as [u|] eqn:Eu; [|done]. cbn. f_equal.
  apply map_eq. intros a'. destruct (decide (a' = a)) as [->|].
  - rewrite lookup_insert_eq, lookup_alter_eq, El. cbn. f_equal.
    apply list_eq. intros j. destruct (decide (j = Z.to_nat i)) as [->|].
    + rewrite list_lookup_insert_eq by (by eapply lookup_lt_Some). by rewrite list_lookup_alter_eq, Eu.
    + by rewrite list_lookup_insert_ne, list_lookup_alter_ne by done.
  - by rewrite lookup_insert_ne, lookup_alter_ne by done.
Qed.

Lemma usage_upd_ne b p q m : 0 <= p.2 -> p <> q -> usage_at (upd b p m) q = usage_at m q.
Proof.
  destruct p as [a i], q as [a' i']. unfold usage_at, upd. cbn. intros Hi Hne. destruct (Z.ltb_spec i' 0); [done|].
  destruct (decide (a = a')) as [->|]; [|by rewrite lookup_alter_ne].
  rewrite lookup_alter_eq. destruct (m !! a'); [|done]. cbn. apply list_lookup_alter_ne.
  intros ?. apply Hne. f_equal. lia.
Qed.

Lemma usage_upd_eq b p m : usage_at (upd b p m) p = set_isUsed b <$> usage_at m p.
Proof.
  destruct p as [a i]. unfold usage_at, upd. cbn. destruct (i <? 0); [done|]. rewrite lookup_alter_eq.
  destruct (m !! a); [|done]. cbn. apply list_lookup_alter_eq.
Qed.

Lemma usage_nonneg m p u : usage_at m p = Some u -> 0 <= p.2.
Proof. unfold usage_at. destruct (Z.ltb_spec p.2 0); [done|lia]. Qed.

Lemma upd_comm b c p q m : 0 <= p.2 -> 0 <= q.2 -> p <> q -> upd b p (upd c q m) = upd c q (upd b p m).
Proof.
  destruct p as [a i], q as [a' i']. unfold upd. cbn. intros Hi Hi' Hne.
  destruct (decide (a = a')) as [->|]; [|by apply alter_alter_ne].
  rewrite !alter_alter_eq. apply alter_ext. intros l _. cbn. apply list_alter_alter_ne.
  intros ?. apply Hne. f_equal. lia.
Qed.

Lemma upd_cancel p m u : usage_at m p = Some u -> isUsed u = false -> upd false p (upd true p m) = m.
Proof.
  destruct p as [a i]. unfold usage_at, upd. cbn. destruct (i <? 0); [done|]. intros E Hu.
  rewrite alter_alter_eq. apply map_eq. intros a'. destruct (decide (a = a')) as [->|]; [|by rewrite lookup_alter_ne].
  rewrite lookup_alter_eq. destruct (m !! a') as [l|] eqn:El; [|done]. cbn in *. f_equal.
  rewrite list_alter_alter_eq. apply list_eq. intros j. destruct (decide (Z.to_nat i = j)) as [<-|];
    [|by rewrite list_lookup_alter_ne]. rewrite list_lookup_alter_eq, E. destruct u. cbn in *. by subst.
Qed.

Definition upd_all (b : bool) (ps : list (Z * Z)) (m : MultisignatureOutputsContainer) : MultisignatureOutputsContainer :=
  fold_left (fun m p => upd b p m) ps m.

Lemma upd_all_cons b p ps m : upd_all b (p :: ps) m = upd_all b ps (upd b p m).
Proof. done. Qed.

Lemma usage_upd_Some b p q m : 0 <= p.2 -> is_Some (usage_at (upd b p m) q) <-> is_Some (usage_at m q).
Proof.
  intros Hp. destruct (decide (p = q)) as [<-|]; [|by rewrite usage_upd_ne].
  rewrite usage_upd_eq. apply fmap_is_Some.
Qed.

Lemma mark_inputs_spec b ins m :
  (forall p, p ∈ positions ins -> is_Some (usage_at m p)) -> mark_inputs b ins m = Ok (upd_all b (positions ins) m).
Proof.
  revert m. induction ins as [|[i|i|i] ins IH]; intros m HV; [done|by apply IH..|].
  cbn. rewrite set_used_spec. destruct (HV (mi_amount i, outputIndex i)) as [u Hu]; [left|].
  rewrite Hu. cbn [mbind outcome_bind]. apply IH. intros p Hp.
  apply usage_upd_Some; [by apply (usage_nonneg m (mi_amount i, outputIndex i) u)|]. apply HV. by right.
Qed.

Lemma mark_inputs_valid b ins m m' :
  mark_inputs b ins m = Ok m' -> forall p, p ∈ positions ins -> is_Some (usage_at m p).
Proof.
  revert m. induction ins as [|[i|i|i] ins IH]; intros m E p Hp; [by apply elem_of_nil in Hp|by eapply IH..|].
  cbn in E, Hp. rewrite set_used_spec in E. destruct (usage_at m (mi_amount i, outputIndex i)) as [u|] eqn:Eu; [|done].
  apply elem_of_cons in Hp as [->|Hp]; [by rewrite Eu|]. apply (IH _ E) in Hp.
  by apply usage_upd_Some in Hp; [|apply (usage_nonneg _ _ _ Eu)].
Qed.

Lemma upd_past b c p ps m : 0 <= p.2 -> p ∉ ps -> Forall (fun q => 0 <= q.2) ps ->
  upd b p (upd_all c ps m) = upd_all c ps (upd b p m).
Proof.
  intros Hp. revert m. induction ps as [|q ps IH]; intros m Hn HF; [done|].
  apply not_elem_of_cons in Hn as [Hne Hn]. apply Forall_cons in HF as [Hq HF].
  rewrite !upd_all_cons, IH by done. by rewrite upd_comm.
Qed.

Lemma unmark_mark ps m :
  NoDup ps -> (forall p, p ∈ ps -> exists u, usage_at m p = Some u /\ isUsed u = false) ->
  upd_all false ps (upd_all true ps m) = m.
Proof.
  revert m. induction ps as [|p ps IH]; intros m HN HU; [done|]. apply NoDup_cons in HN as [Hn HN].
  assert (HP : Forall (fun q => 0 <= q.2) ps).
  { apply Forall_forall. intros q Hq. destruct (HU q) as (u & Hu & _); [by right|]. by apply (usage_nonneg m q u). }
  destruct (HU p) as (u & Hu & Hf); [left|]. rewrite !upd_all_cons, upd_past; [|by apply (usage_nonneg m p u)|done..].
  rewrite (upd_cancel _ _ u) by done. apply IH; [done|]. intros q Hq. apply HU. by right.
Qed.

Lemma diff_NoDup used ins :
  multisignature_inputs_diff used ins = true -> NoDup (positions ins) /\ forall p, p ∈ positions ins -> p ∉ used.
Proof.
  revert used. induction ins as [|[i|i|i] ins IH]; intros used E; cbn in E |- *; [|by apply IH..|].
  { split; [constructor|]. by intros p ?%elem_of_nil. }
  case_decide; [done|]. destruct (IH _ E) as [HN HU]. split.
  - constructor; [|done]. intros Hp%HU. set_solver.
  - intros p [->|Hp]%elem_of_cons; [done|]. apply HU in Hp. set_solver.
Qed.

(** * Output containers *)

(** No empty vector is kept. *)
Definition no_empty {A} (m : gmap Z (list A)) : Prop := forall a, m !! a <> Some [].
Definition wf_store (st : Store) : Prop := no_empty (m_outputs st) /\ no_empty (m_multisignatureOutputs st).

Lemma no_empty_insert {A} (m : gmap Z (list A)) a l : no_empty m -> l <> [] -> no_empty (<[a := l]> m).
Proof. intros Hm Hl b. destruct (decide (a = b)) as [->|]; [rewrite lookup_insert_eq; congruence|by rewrite lookup_insert_ne]. Qed.
Lemma no_empty_delete {A} (m : gmap Z (list A)) a : no_empty m -> no_empty (delete a m).
Proof. intros Hm b. destruct (decide (a = b)) as [->|]; [by rewrite lookup_delete_eq|by rewrite lookup_delete_ne]. Qed.

Lemma pop_entry_no_empty {A} (m : gmap Z (list A)) a l : no_empty m -> no_empty (pop_entry m a l).
Proof.
  intros Hm. unfold pop_entry. destruct (vpop l) eqn:E; [by apply no_empty_delete|by apply no_empty_insert].
Qed.

Lemma pop_entry_push {A} (m : gmap Z (list A)) a x :
  no_empty m -> pop_entry (<[a := default [] (m !! a) ++ [x]]> m) a (default [] (m !! a) ++ [x]) = m.
Proof.
  intros Hm. unfold pop_entry. rewrite vpop_app. destruct (m !! a) as [l|] eqn:E; cbn [default from_option id].
  - destruct l as [|y l]; [by destruct (Hm a)|]. rewrite insert_insert_eq. by apply insert_id.
  - rewrite delete_insert_eq. by apply delete_id.
Qed.

Lemma push_output_wf idx o out (s : output_maps) :
  no_empty s.1 -> no_empty s.2 -> no_empty (push_output idx o out s).2.1 /\ no_empty (push_output idx o out s).2.2.
Proof.
  destruct s as [outs msig]. unfold push_output. cbn [fst snd]. intros H1 H2.
  destruct (target out); cbn [fst snd]; (split; [|try done]); try done; apply no_empty_insert; try done; by intros [_ ?]%app_eq_nil.
Qed.

Lemma pop_push_output idx o out (s : output_maps) :
  no_empty s.1 -> no_empty s.2 -> pop_output idx o out (push_output idx o out s).2 = s.
Proof.
  destruct s as [outs msig]. unfold push_output, pop_output. cbn [fst snd]. intros H1 H2.
  destruct (target out); cbn [fst snd]; rewrite lookup_insert_eq, last_snoc; cbn; rewrite !Z.eqb_refl; cbn; by rewrite pop_entry_push.
Qed.

Lemma push_outputs_cons idx o out outs s :
  push_outputs idx o (out :: outs) s =
    ((push_output idx o out s).1 :: (push_outputs idx (o + 1) outs (push_output idx o out s).2).1,
     (push_outputs idx (o + 1) outs (push_output idx o out s).2).2).
Proof. cbn. destruct (push_output idx o out s) as [g s']. cbn. by destruct (push_outputs _ _ _ _). Qed.

Lemma pop_push_outputs idx o outs (s : output_maps) :
  no_empty s.1 -> no_empty s.2 ->
  pop_outputs idx o outs (push_outputs idx o outs s).2 = s /\
  no_empty (push_outputs idx o outs s).2.1 /\ no_empty (push_outputs idx o outs s).2.2.
Proof.
  revert o s. induction outs as [|out outs IH]; intros o s H1 H2; [done|].
  rewrite push_outputs_cons. cbn [snd pop_outputs].
  destruct (push_output_wf idx o out s H1 H2) as [W1 W2].
  destruct (IH (o + 1) (push_output idx o out s).2 W1 W2) as (E & W). split; [|done].
  rewrite E. by apply pop_push_output.
Qed.

Lemma upd_no_empty b p m : no_empty m -> no_empty (upd b p m).
Proof.
  intros Hm a E. unfold upd in E. destruct (decide (p.1 = a)) as [<-|]; [|rewrite lookup_alter_ne in E by done; by apply (Hm a)].
  rewrite lookup_alter_eq in E. destruct (m !! p.1) as [l|] eqn:El; [|done]. cbn in E. injection E as E.
  destruct l as [|x l]; [by apply (Hm p.1)|]. apply (f_equal length) in E. by rewrite length_alter in E.
Qed.
Lemma upd_all_no_empty b ps m : no_empty m -> no_empty (upd_all b ps m).
Proof. revert m. induction ps as [|p ps IH]; intros m Hm; [done|]. rewrite upd_all_cons. by apply IH, upd_no_empty. Qed.

(** Entries that exist stay where they are when outputs are pushed. *)
Lemma push_outputs_extend idx o outs (s : output_maps) a :
  (exists l, default [] ((push_outputs idx o outs s).2.1 !! a) = default [] (s.1 !! a) ++ l) /\
  (exists l, default [] ((push_outputs idx o outs s).2.2 !! a) = default [] (s.2 !! a) ++ l).
Proof.
  revert o s. induction outs as [|out outs IH]; intros o s; [split; exists []; by rewrite app_nil_r|].
  rewrite push_outputs_cons. cbn [snd]. destruct (IH (o + 1) (push_output idx o out s).2) as [[l1 ->] [l2 ->]].
  destruct s as [m1 m2]. unfold push_output. cbn [fst snd].
  destruct (target out); cbn [fst snd]; destruct (decide (out_amount out = a)) as [->|];
    rewrite ?lookup_insert_eq, ?lookup_insert_ne by done; cbn [default from_option id]; rewrite <- ?app_assoc; eauto.
Qed.

(** * Properties *)

Section Theory.
Context {B : BuildConfig}.
Variable cn_fast_hash : list Z -> list Z.

(** What a successful [pushTransaction] did. *)
Lemma push_success st block h idx st' block' :
  pushTransaction cn_fast_hash st block h idx = Ok (true, st', block') ->
  exists e keys gs pidx, be_transactions block !! Z.to_nat (ti_transaction idx) = Some e /\ 0 <= ti_transaction idx /\
    m_transactionMap st !! h = None /\
    checkMultisignatureInputsDiff (prefix (te_tx e)) = true /\
    spend_keys (be_height block) [] (tx_inputs (te_tx e)) (m_spent_keys st) = Ok (true, keys) /\
    (forall p, p ∈ positions (tx_inputs (te_tx e)) -> is_Some (usage_at (m_multisignatureOutputs st) p)) /\
    zlen (tx_outputs (te_tx e)) <= 65535 /\
    PaymentIdIndex.add cn_fast_hash (m_paymentIdIndex st) (te_tx e) = Ok pidx /\
    let p := push_outputs idx 0 (tx_outputs (te_tx e))
      (m_outputs st, upd_all true (positions (tx_inputs (te_tx e))) (m_multisignatureOutputs st)) in
    gs = p.1 /\
    st' = {| m_transactionMap := <[h := idx]> (m_transactionMap st); m_spent_keys := keys; m_outputs := p.2.1;
             m_multisignatureOutputs := p.2.2; m_paymentIdIndex := pidx.2 |} /\
    block' = with_transactions block (<[Z.to_nat (ti_transaction idx) := with_tx e gs]> (be_transactions block)).
Proof.
  unfold pushTransaction. destruct (m_transactionMap st !! h) eqn:Em; [done|]. intros E.
  apply bind_Ok in E as (e & [He1 He2]%vget_Ok & E).
  destruct (checkMultisignatureInputsDiff _) eqn:Ed; [|done]. cbn [negb] in E.
  apply bind_Ok in E as ([ok keys] & Es & E). destruct ok; [|done]. cbn [negb] in E.
  apply bind_Ok in E as (msig & EM & E). destruct (Z.ltb_spec 65535 (zlen (tx_outputs (te_tx e)))); [done|].
  pose proof (mark_inputs_valid _ _ _ _ EM) as HV. rewrite (mark_inputs_spec _ _ _ HV) in EM. injection EM as <-.
  destruct (push_outputs _ _ _ _) as [gs [outs msig]] eqn:EP.
  apply bind_Ok in E as ([ok pidx] & Ep & [= <- <-]).
  exists e, keys, gs, (ok, pidx). cbv zeta. rewrite EP. split_and!; done.
Qed.

(** The flag is false exactly when nothing changed. *)
Lemma push_failure st block h idx st' block' :
  pushTransaction cn_fast_hash st block h idx = Ok (false, st', block') -> st' = st /\ block' = block.
Proof.
  unfold pushTransaction. destruct (m_transactionMap st !! h) eqn:Em; [by intros [= <- <-]|]. intros E.
  assert (ED : delete h (<[h := idx]> (m_transactionMap st)) = m_transactionMap st).
  { rewrite delete_insert_eq. by apply delete_id. }
  apply bind_Ok in E as (e & _ & E). rewrite ED in E. destruct (checkMultisignatureInputsDiff _); cbn [negb] in E.
  - apply bind_Ok in E as ([ok keys] & Es & E). destruct ok; cbn [negb] in E.
    + apply bind_Ok in E as (msig & EM & E). case_in E; [done|].
      destruct (push_outputs _ _ _ _) as [gs [outs msig']]. apply bind_Ok in E as ([? ?] & _ & [=]).
    + injection E as <- <-.
      pose proof (spend_keys_spec _ [] _ _ _ false keys (spent_over_nil _ _) Es) as ->. by destruct st.
  - injection E as <- <-. by destruct st.
Qed.

(** Every multisignature input names an output that is not used yet. *)
Definition inputs_unused (st : Store) (tx : Transaction) : Prop :=
  forall p, p ∈ positions (tx_inputs tx) -> exists u, usage_at (m_multisignatureOutputs st) p = Some u /\ isUsed u = false.

Lemma pop_undoes_push st block h idx st' block' e :
  wf_store st -> be_transactions block !! Z.to_nat (ti_transaction idx) = Some e -> inputs_unused st (te_tx e) ->
  pushTransaction cn_fast_hash st block h idx = Ok (true, st', block') ->
  popTransaction cn_fast_hash st' (te_tx e) h = Ok st /\ wf_store st'.
Proof.
  intros [W1 W2] He HU HP.
  destruct (push_success _ _ _ _ _ _ HP) as (e' & keys & gs & pidx & He' & _ & Hm & Hd & Hs & HV & _ & Hp & Eq & -> & _).
  assert (e' = e) as -> by congruence. clear He' Eq gs.
  destruct (spend_success _ _ _ _ Hs) as (_ & _ & _ & EK).
  apply diff_NoDup in Hd as [HN _].
  pose proof (upd_all_no_empty true (positions (tx_inputs (te_tx e))) _ W2) as W2'.
  destruct (pop_push_outputs idx 0 (tx_outputs (te_tx e))
    (m_outputs st, upd_all true (positions (tx_inputs (te_tx e))) (m_multisignatureOutputs st)) W1 W2') as (EO & WO).
  split; [|done]. unfold popTransaction. cbn [m_transactionMap m_outputs m_multisignatureOutputs m_spent_keys m_paymentIdIndex].
  rewrite lookup_insert_eq, <- surjective_pairing, EO, EK.
  rewrite mark_inputs_spec.
  2:{ intros p Hp'. apply HV in Hp'. clear -Hp' HV. revert HV Hp'. generalize (positions (tx_inputs (te_tx e))).
      intros ps HV Hp. revert HV Hp. generalize (m_multisignatureOutputs st). induction ps as [|q ps IH]; intros m HV Hp; [done|].
      assert (0 <= q.2) by (destruct (HV q) as [u Hu]; [left|by apply (usage_nonneg m q u)]).
      rewrite upd_all_cons. apply IH; [|by apply usage_upd_Some]. intros r Hr. apply usage_upd_Some; [done|]. apply HV. by right. }
  rewrite unmark_mark by done. cbn [mbind outcome_bind].
  destruct pidx as [ok pidx]. cbn [snd]. rewrite (PaymentIdIndex.payment_remove_add _ _ _ _ _ Hp). cbn [mbind outcome_bind snd].
  rewrite delete_insert_eq, delete_id by done. by destruct st.
Qed.

Lemma lookup_extended {A} (l k : list A) x y : y = l ++ [x] ++ k -> y !! length l = Some x.
Proof. intros ->. by apply list_lookup_middle. Qed.

(** Pushed outputs are found at their global indexes. *)
Definition output_found (idx : TransactionIndex) (o : Z) (out : TransactionOutput) (g : Z) (s : output_maps) : Prop :=
  match target out with
  | OutKey _ => vget (default [] (s.1 !! out_amount out)) g = Ok (idx, o)
  | OutMultisignature _ => vget (default [] (s.2 !! out_amount out)) g =
      Ok {| transactionIndex := idx; usage_outputIndex := o; isUsed := false |}
  end.

Lemma push_outputs_found idx o outs (s : output_maps) j out :
  zlen (default [] ((push_outputs idx o outs s).2.1 !! out_amount out)) < 2 ^ 32 ->
  zlen (default [] ((push_outputs idx o outs s).2.2 !! out_amount out)) < 2 ^ 32 ->
  outs !! j = Some out ->
  exists g, (push_outputs idx o outs s).1 !! j = Some g /\
    output_found idx (o + Z.of_nat j) out g (push_outputs idx o outs s).2.
Proof.
  revert o s j. induction outs as [|x outs IH]; intros o s j B1 B2 Hj; [done|].
  rewrite push_outputs_cons in *. cbn [fst snd] in *. destruct j as [|j]; cbn in Hj.
  2:{ destruct (IH (o + 1) (push_output idx o x s).2 j) as (g & Hg & HF); [done..|]. exists g. split; [done|].
      by replace (o + Z.of_nat (S j)) with (o + 1 + Z.of_nat j) by lia. }
  injection Hj as ->. eexists. split; [done|]. rewrite Z.add_0_r. unfold output_found.
  destruct (push_outputs_extend idx (o + 1) outs (push_output idx o out s).2 (out_amount out)) as [[l1 E1] [l2 E2]].
  rewrite E1 in B1. rewrite E2 in B2. rewrite E1, E2.
  destruct s as [m1 m2]. unfold push_output in *. cbn [fst snd] in *.
  destruct (target out); cbn [fst snd] in *; rewrite lookup_insert_eq in *; cbn [default from_option id] in *;
    rewrite !zlen_app in *; change (zlen [_]) with 1 in *; rewrite u32_small by (unfold is_u32; 
      pose proof (zlen_nonneg l1); pose proof (zlen_nonneg l2);
      match goal with |- 0 <= zlen ?x < _ => pose proof (zlen_nonneg x) end; lia);
    (apply vget_Ok; split; [apply zlen_nonneg|]; unfold zlen; rewrite Nat2Z.id; rewrite <- app_assoc; by apply list_lookup_middle).
Qed.

(** C7.  Popping a transaction undoes pushing it: from a state without empty
    vectors, when the multisignature inputs name unused outputs, a successful
    [pushTransaction] followed by [popTransaction] restores the transaction map,
    the spent key images, both output containers and the payment id index
    exactly; and a [pushTransaction] that returns false (known hash, repeated
    multisignature input, spent key image) has changed nothing. *)
Theorem push_pop_transaction (st : Store) (block : BlockEntry) (h : list Z) (idx : TransactionIndex)
    (ok : bool) (st' : Store) (block' : BlockEntry) (e : TransactionEntry) :
  wf_store st -> be_transactions block !! Z.to_nat (ti_transaction idx) = Some e -> inputs_unused st (te_tx e) ->
  pushTransaction cn_fast_hash st block h idx = Ok (ok, st', block') ->
  if ok then popTransaction cn_fast_hash st' (te_tx e) h = Ok st /\ wf_store st'
  else st' = st /\ block' = block.
Proof.
  intros W He HU HP. destruct ok; [by eapply pop_undoes_push|by eapply push_failure].
Qed.

Lemma spend_keys_total h prev ins keys :
  Forall (fun i => match i with InKey _ => True | _ => False end) (prev ++ ins) ->
  exists r, spend_keys h prev ins keys = Ok r.
Proof.
  revert prev keys. induction ins as [|[i|i|i] ins IH]; intros prev keys HF; cbn; [by eexists| | |].
  1,3: by apply Forall_app in HF as [_ [[] _]%Forall_cons].
  destruct (keys !! keyImage i) eqn:E; [|apply IH; cbn; constructor; [done|]; apply Forall_app in HF as [? [_ ?]%Forall_cons]; by apply Forall_app].
  apply Forall_app in HF as [HP _]. assert (HU : exists k, unspend_keys prev keys = Ok k); [|destruct HU as [k ->]; by eexists].
  clear IH E. revert keys. induction HP as [|[]]; intros keys; cbn; [by eexists|done|by eauto|done].
Qed.

(** C4.  No key image is spent twice: a pushed transaction has pairwise distinct
    key images, none of which was spent, and records exactly them, at the height
    of the block; and a transaction with key inputs only that repeats a key image
    or spends a spent one is refused without a trace. *)
Theorem pushTransaction_no_double_spend (st : Store) (block : BlockEntry) (h : list Z) (idx : TransactionIndex)
    (e : TransactionEntry) :
  be_transactions block !! Z.to_nat (ti_transaction idx) = Some e -> 0 <= ti_transaction idx ->
  let ks := key_images (tx_inputs (te_tx e)) in
  (forall st' block', pushTransaction cn_fast_hash st block h idx = Ok (true, st', block') ->
     NoDup ks /\ (forall k, k ∈ ks -> m_spent_keys st !! k = None) /\
     forall k, m_spent_keys st' !! k = if decide (k ∈ ks) then Some (be_height block) else m_spent_keys st !! k) /\
  (Forall (fun i => match i with InKey _ => True | _ => False end) (tx_inputs (te_tx e)) ->
   ~ (NoDup ks /\ forall k, k ∈ ks -> m_spent_keys st !! k = None) ->
   pushTransaction cn_fast_hash st block h idx = Ok (false, st, block)).
Proof.
  intros He Hi ks. split.
  - intros st' block' (e' & keys & gs & pidx & He' & _ & _ & _ & Hs & _ & _ & _ & _ & -> & _)%push_success.
    assert (e' = e) as -> by congruence. destruct (spend_success _ _ _ _ Hs) as (HN & HF & HL & _). split_and!; done.
  - intros HK HD. destruct (spend_keys_total (be_height block) [] (tx_inputs (te_tx e)) (m_spent_keys st) HK) as [[ok keys] Es].
    assert (EP : exists st' block', pushTransaction cn_fast_hash st block h idx = Ok (false, st', block')).
    { unfold pushTransaction. destruct (m_transactionMap st !! h); [by do 2 eexists|].
      rewrite (proj2 (vget_Ok _ _ e)) by done. cbn [mbind outcome_bind].
      destruct (checkMultisignatureInputsDiff _); cbn [negb]; [|by do 2 eexists]. rewrite Es. cbn [mbind outcome_bind].
      destruct ok; cbn [negb]; [|by do 2 eexists]. destruct HD. by destruct (spend_success _ _ _ _ Es) as (? & ? & _). }
    destruct EP as (st' & block' & EP). by destruct (push_failure _ _ _ _ _ _ EP) as [-> ->].
Qed.

(** Global output indexes are right: after a successful push every output of
    the transaction is found at the index recorded for it, in the container of
    its kind and amount, as belonging to this transaction and position. *)
Theorem pushTransaction_global_indexes (st : Store) (block : BlockEntry) (h : list Z) (idx : TransactionIndex)
    (st' : Store) (block' : BlockEntry) (e : TransactionEntry) (j : nat) (out : TransactionOutput) :
  be_transactions block !! Z.to_nat (ti_transaction idx) = Some e ->
  pushTransaction cn_fast_hash st block h idx = Ok (true, st', block') ->
  zlen (default [] (m_outputs st' !! out_amount out)) < 2 ^ 32 ->
  zlen (default [] (m_multisignatureOutputs st' !! out_amount out)) < 2 ^ 32 ->
  tx_outputs (te_tx e) !! j = Some out ->
  exists e' g, be_transactions block' !! Z.to_nat (ti_transaction idx) = Some e' /\ te_tx e' = te_tx e /\
    m_global_output_indexes e' !! j = Some g /\
    output_found idx (Z.of_nat j) out g (m_outputs st', m_multisignatureOutputs st').
Proof.
  intros He (e' & keys & gs & pidx & He' & _ & _ & _ & Hs & _ & _ & _ & -> & -> & ->)%push_success B1 B2 Hj.
  assert (e' = e) as -> by congruence. cbn [m_outputs m_multisignatureOutputs] in *.
  destruct (push_outputs_found _ 0 _ _ j out B1 B2 Hj) as (g & Hg & HF).
  eexists. exists g. cbn [be_transactions with_transactions].
  rewrite list_lookup_insert_eq by (by eapply lookup_lt_Some). split_and!; [done|done|done|].
  rewrite <- surjective_pairing. exact HF.
Qed.
End Theory.

(** Witnesses: a deposit of an earlier block is withdrawn together with a key
    output; one output of each kind is created. *)
Definition spending_tx : Transaction := {|
  prefix := {| version := 2; unlockTime := 0;
    inputs := [InKey {| ki_amount := 50; outputIndexes := [0]; keyImage := sample_key 5 |};
               InMultisignature {| mi_amount := 1000; signatureCount := 1; outputIndex := 0; mi_term := 21900 |}];
    outputs := [{| out_amount := 900; target := OutKey {| ko_key := sample_key 3 |} |};
                {| out_amount := 1000; target := OutMultisignature
                    {| mo_keys := [sample_key 9]; requiredSignatureCount := 1; mo_term := 0 |} |}];
    extra := [] |};
  signatures := [[replicate 64 17]; [replicate 64 18]] |}.
Definition spending_store : Store := {|
  m_transactionMap := {[sample_key 1 := {| ti_block := 3; ti_transaction := 0 |}]};
  m_spent_keys := {[sample_key 4 := 2]};
  m_outputs := {[50 := [({| ti_block := 1; ti_transaction := 0 |}, 0)]]};
  m_multisignatureOutputs := {[1000 := [{| transactionIndex := {| ti_block := 3; ti_transaction := 0 |};
                                           usage_outputIndex := 1; isUsed := false |}]]};
  m_paymentIdIndex := ∅ |}.
Definition spending_block (tx : Transaction) : BlockEntry := {|
  bl := sample_block; be_height := 7; block_cumulative_size := 0; cumulative_difficulty := 0;
  already_generated_coins := 0; be_transactions := [{| te_tx := tx; m_global_output_indexes := [] |}] |}.
Definition first_index : TransactionIndex := {| ti_block := 7; ti_transaction := 0 |}.

Lemma spending_store_wf : wf_store spending_store.
Proof.
  split; intros a E; unfold spending_store in E; cbn [m_outputs m_multisignatureOutputs] in E;
    apply lookup_singleton_Some in E as [_ E]; discriminate E.
Qed.

Lemma spending_unused : inputs_unused spending_store spending_tx.
Proof.
  intros p Hp. change (positions (tx_inputs spending_tx)) with [(1000, 0)] in Hp.
  apply list_elem_of_singleton in Hp as ->. eexists. split; vm_compute; reflexivity.
Qed.

Lemma push_pop_transaction_witness :
  match pushTransaction (B := debug_build) sum_hash spending_store (spending_block spending_tx) (sample_key 2) first_index with
  | Ok (ok, st', _) => ok = true /\ popTransaction (B := debug_build) sum_hash st' spending_tx (sample_key 2) = Ok spending_store
  | _ => False
  end.
Proof.
  destruct (pushTransaction (B := debug_build) sum_hash spending_store (spending_block spending_tx) (sample_key 2) first_index)
    as [[[ok st'] block']|e| |] eqn:E; [|vm_compute in E; discriminate E..].
  pose proof (push_pop_transaction (B := debug_build) sum_hash spending_store (spending_block spending_tx) (sample_key 2)
    first_index ok st' block' _ spending_store_wf eq_refl spending_unused E) as H.
  destruct ok; [split; [reflexivity|exact (proj1 H)]|]. vm_compute in E. discriminate E.
Defined.

Lemma pushTransaction_no_double_spend_witness :
  let respend := tx_of [InKey {| ki_amount := 50; outputIndexes := [0]; keyImage := sample_key 4 |}] [] in
  pushTransaction (B := debug_build) sum_hash spending_store (spending_block respend) (sample_key 2) first_index =
    Ok (false, spending_store, spending_block respend).
Proof.
  intros respend.
  apply (pushTransaction_no_double_spend (B := debug_build) sum_hash spending_store (spending_block respend) (sample_key 2)
    first_index {| te_tx := respend; m_global_output_indexes := [] |}); [reflexivity|vm_compute; discriminate| |].
  - constructor; [exact I|constructor].
  - intros [_ HF]. specialize (HF (sample_key 4)). vm_compute in HF. discriminate HF. left.
Defined.

Lemma pushTransaction_global_indexes_witness :
  match pushTransaction (B := debug_build) sum_hash spending_store (spending_block spending_tx) (sample_key 2) first_index with
  | Ok (_, st', block') => exists e' g,
      be_transactions block' !! 0%nat = Some e' /\ te_tx e' = spending_tx /\ m_global_output_indexes e' !! 1%nat = Some g /\
      vget (default [] (m_multisignatureOutputs st' !! 1000)) g =
        Ok {| transactionIndex := first_index; usage_outputIndex := 1; isUsed := false |}
  | _ => False
  end.
Proof.
  destruct (pushTransaction (B := debug_build) sum_hash spending_store (spending_block spending_tx) (sample_key 2) first_index)
    as [[[ok st'] block']|e| |] eqn:E; [|vm_compute in E; discriminate E..].
  destruct ok; [|vm_compute in E; discriminate E].
  apply (pushTransaction_global_indexes (B := debug_build) sum_hash spending_store (spending_block spending_tx) (sample_key 2)
    first_index st' block' _ 1 {| out_amount := 1000; target := OutMultisignature
                    {| mo_keys := [sample_key 9]; requiredSignatureCount := 1; mo_term := 0 |} |} eq_refl E);
    vm_compute in E; injection E as <- <-; vm_compute; reflexivity.
Defined.

(** The rollback of key images throws when an earlier input is not a key input:
    the exception leaves [pushTransaction] with the hash and the first key images
    inserted. *)
Lemma push_rollback_throws :
  let tx := tx_of [InMultisignature {| mi_amount := 1000; signatureCount := 1; outputIndex := 0; mi_term := 0 |};
                   InKey {| ki_amount := 50; outputIndexes := [0]; keyImage := sample_key 4 |}] [] in
  pushTransaction (B := release_build) sum_hash spending_store (spending_block tx) (sample_key 2) first_index = Throw bad_get.
Proof. vm_compute. reflexivity. Qed.
