(* ===== verification/Validation.v ===== *)
(** Validation against the chain: the checking methods of [Blockchain]
    ([CryptoNoteCore/Blockchain.cpp]) for inputs, outputs, timestamps, versions,
    sizes and miner transactions.

    [now] is the result of [time(NULL)].  The primitives of [crypto/] are the
    operations of a type class. *)
From S2P Require Import Prelude CryptoNote Serializer Serialization TransactionExtra Currency Difficulty DepositIndex.
From S2P Require Import BlockIndex Checkpoints UpgradeDetector TreeHash BlockchainIndices ChainState.

Class Crypto := {
  cn_fast_hash : list Z -> list Z;
  cn_slow_hash : list Z -> list Z;
  cn_moonbank_slow_hash_v0 : list Z -> list Z;
  check_key : list Z -> bool;
  check_signature : list Z -> list Z -> list Z -> bool;
  check_ring_signature : list Z -> list Z -> list (list Z) -> list (list Z) -> bool;
  scalarmultKey : list Z -> list Z -> list Z;
}.

Record Blockchain := {
  m_blocks : list BlockEntry;
  m_blockIndex : BlockIndex;
  m_depositIndex : DepositIndex;
  m_store : Store;
  m_alternative_chains : gmap (list Z) BlockEntry;
  m_checkpoints : Checkpoints;
  m_votingCompleteHeight : Z;
  m_current_block_cumul_sz_limit : Z;
  m_timestampIndex : TimestampBlocksIndex.t;
  m_generatedTransactionsIndex : GeneratedTransactionsIndex.t;
  m_orthanBlocksIndex : OrphanBlocksIndex.t;
}.

Section Validation.
Context {B : BuildConfig} {K : Crypto}.
Variable m_currency : Currency.

(** The upgrade detector of the chain watches for version 2. *)
Definition upgradeHeightV2_of (bc : Blockchain) : Z :=
  detector_upgradeHeight m_currency BLOCK_MAJOR_VERSION_2 (m_votingCompleteHeight bc).

Definition getCurrentBlockchainHeight (bc : Blockchain) : Z := u32 (zlen (m_blocks bc)).
Definition getTailId (bc : Blockchain) : outcome (list Z) :=
  match m_blocks bc with [] => Ok NULL_HASH | _ => BlockIndex.getTailId (m_blockIndex bc) end.
Definition have_tx_keyimg_as_spent (bc : Blockchain) (key_im : list Z) : bool :=
  bool_decide (is_Some (m_spent_keys (m_store bc) !! key_im)).
Definition haveTransaction (bc : Blockchain) (id : list Z) : bool :=
  bool_decide (is_Some (m_transactionMap (m_store bc) !! id)).
Definition haveTransactionKeyImagesAsSpent (bc : Blockchain) (tx : Transaction) : bool :=
  existsb (fun i => match i with InKey i => have_tx_keyimg_as_spent bc (keyImage i) | _ => false end) (tx_inputs tx).
Definition isInCheckpointZone (bc : Blockchain) (height : Z) : bool := is_in_checkpoint_zone (m_checkpoints bc) height.
Definition haveBlock (bc : Blockchain) (id : list Z) : bool :=
  hasBlock (m_blockIndex bc) id || bool_decide (is_Some (m_alternative_chains bc !! id)).

Definition transactionByIndex (bc : Blockchain) (index : TransactionIndex) : outcome TransactionEntry :=
  b ← sget (m_blocks bc) (ti_block index);
  vget (be_transactions b) (ti_transaction index).

(** * Inputs *)

Definition is_tx_spendtime_unlocked (bc : Blockchain) (now unlock_time : Z) : bool :=
  if unlock_time <? maxBlockHeight m_currency
  then unlock_time <=? u64 (u32 (getCurrentBlockchainHeight bc - 1) + lockedTxAllowedDeltaBlocks m_currency)
  else unlock_time <=? u64 (now + lockedTxAllowedDeltaSeconds m_currency).

(** [outputs_visitor::handle_output]: the key of an unlocked key output. *)
Definition handle_output (bc : Blockchain) (now : Z) (tx : Transaction) (out : TransactionOutput) : option (list Z) :=
  if negb (is_tx_spendtime_unlocked bc now (tx_unlockTime tx)) then None
  else match target out with OutKey k => Some (ko_key k) | OutMultisignature _ => None end.

(** The loop of [scanOutputKeysForIndexes] with that visitor; [pmax] is the
    content of [pmax_related_block_height] when the pointer is not null, updated
    at the last offset.  [None] when it returns false. *)
Fixpoint scan_outputs (bc : Blockchain) (now : Z) (vec : list (TransactionIndex * Z)) (offsets : list Z)
    (keys : list (list Z)) (pmax : option Z) : outcome (option (list (list Z)) * option Z) :=
  match offsets with
  | [] => Ok (Some keys, pmax)
  | i :: offsets =>
      if zlen vec <=? i then Ok (None, pmax) else
      '(idx, o) ← vget vec i;
      e ← transactionByIndex bc idx;
      if negb (o <? zlen (tx_outputs (te_tx e))) then Ok (None, pmax) else
      out ← vget (tx_outputs (te_tx e)) o;
      match handle_output bc now (te_tx e) out with
      | None => Ok (None, pmax)
      | Some key =>
          let pmax := match offsets, pmax with
                      | [], Some m => Some (if m <? ti_block idx then ti_block idx else m)
                      | _, _ => pmax
                      end in
          scan_outputs bc now vec offsets (keys ++ [key]) pmax
      end
  end.

Definition scanOutputKeysForIndexes (bc : Blockchain) (now : Z) (txin : KeyInput) (pmax : option Z)
  : outcome (option (list (list Z)) * option Z) :=
  match m_outputs (m_store bc) !! ki_amount txin with
  | None => Ok (None, pmax)
  | Some vec =>
      match outputIndexes txin with
      | [] => Ok (None, pmax)
      | _ => scan_outputs bc now vec (relative_output_offsets_to_absolute (outputIndexes txin)) [] pmax
      end
  end.

(** The constants of the key image check: the identity and the group order. *)
Definition KEYIMAGE_I : list Z := 1 :: replicate 31 0.
Definition KEYIMAGE_L : list Z :=
  [237; 211; 245; 92; 26; 99; 18; 88; 214; 156; 247; 162; 222; 249; 222; 20] ++ replicate 15 0 ++ [16].

Definition check_tx_input (bc : Blockchain) (now : Z) (txin : KeyInput) (tx_prefix_hash : list Z) (sig : list (list Z))
    (pmax : option Z) : outcome (bool * option Z) :=
  '(r, pmax) ← scanOutputKeysForIndexes bc now txin pmax;
  Ok (match r with
      | None => false
      | Some output_keys =>
          if negb (zlen (outputIndexes txin) =? zlen output_keys) then false
          else if negb (zlen sig =? zlen output_keys) then false
          else if isInCheckpointZone bc (getCurrentBlockchainHeight bc) then true
          else if negb (bool_decide (scalarmultKey (keyImage txin) KEYIMAGE_L = KEYIMAGE_I)) then false
          else check_ring_signature tx_prefix_hash (keyImage txin) output_keys sig
      end, pmax).

(** The signature loop of [validateInput]: [n] signatures are left, the next
    one is number [i]. *)
Fixpoint signature_loop (h : list Z) (keys : list (list Z)) (n : nat) (i : Z) (sigs : list (list Z)) : outcome bool :=
  match n with
  | O => Ok true
  | S n' =>
      match keys with
      | [] => Ok false
      | key :: keys =>
          s ← vget sigs i;
          if check_signature h key s then signature_loop h keys n' (i + 1) sigs
          else signature_loop h keys n i sigs
      end
  end.

Definition validateInput (bc : Blockchain) (now : Z) (input : MultisignatureInput) (transactionPrefixHash : list Z)
    (transactionSignatures : list (list Z)) : outcome bool :=
  _ ← massert (signatureCount input =? zlen transactionSignatures);
  match m_multisignatureOutputs (m_store bc) !! mi_amount input with
  | None => Ok false
  | Some amountOutputs =>
      if zlen amountOutputs <=? outputIndex input then Ok false else
      usage ← vget amountOutputs (outputIndex input);
      if isUsed usage then Ok false else
      e ← transactionByIndex bc (transactionIndex usage);
      let outputTransaction := te_tx e in
      if negb (is_tx_spendtime_unlocked bc now (tx_unlockTime outputTransaction)) then Ok false else
      out ← vget (tx_outputs outputTransaction) (usage_outputIndex usage);
      _ ← massert (out_amount out =? mi_amount input);
      _ ← massert (match target out with OutMultisignature _ => true | OutKey _ => false end);
      match target out with
      | OutKey _ => Throw bad_get
      | OutMultisignature output =>
          if negb (signatureCount input =? requiredSignatureCount output) then Ok false
          else if negb (mi_term input =? mo_term output) then Ok false
          else if negb (mo_term output =? 0) &&
                  (getCurrentBlockchainHeight bc <? u32 (ti_block (transactionIndex usage) + mo_term output)) then Ok false
          else signature_loop transactionPrefixHash (mo_keys output) (Z.to_nat (signatureCount input)) 0 transactionSignatures
      end
  end.

(** The loop over the inputs; [inputIndex] counts the inputs met. *)
Fixpoint check_inputs (bc : Blockchain) (now : Z) (tx : Transaction) (tx_prefix_hash : list Z) (inputIndex : Z)
    (ins : list TransactionInput) (pmax : option Z) : outcome (bool * option Z) :=
  match ins with
  | [] => Ok (true, pmax)
  | txin :: ins =>
      _ ← massert (inputIndex <? zlen (signatures tx));
      match txin with
      | InKey in_to_key =>
          match outputIndexes in_to_key with
          | [] => Ok (false, pmax)
          | _ =>
              if have_tx_keyimg_as_spent bc (keyImage in_to_key) then Ok (false, pmax)
              else if isInCheckpointZone bc (getCurrentBlockchainHeight bc)
              then check_inputs bc now tx tx_prefix_hash (inputIndex + 1) ins pmax
              else
                sig ← vget (signatures tx) inputIndex;
                '(ok, pmax) ← check_tx_input bc now in_to_key tx_prefix_hash sig pmax;
                if ok : bool then check_inputs bc now tx tx_prefix_hash (inputIndex + 1) ins pmax else Ok (false, pmax)
          end
      | InMultisignature input =>
          if isInCheckpointZone bc (getCurrentBlockchainHeight bc)
          then check_inputs bc now tx tx_prefix_hash (inputIndex + 1) ins pmax
          else
            sig ← vget (signatures tx) inputIndex;
            ok ← validateInput bc now input tx_prefix_hash sig;
            if ok : bool then check_inputs bc now tx tx_prefix_hash (inputIndex + 1) ins pmax else Ok (false, pmax)
      | InBase _ => Ok (false, pmax)
      end
  end.

(** [checkTransactionInputs(tx, pmax_used_block_height)]: a non-null pointer is
    reset to 0 first. *)
Definition checkTransactionInputs (bc : Blockchain) (now : Z) (tx : Transaction) (pmax : option Z)
  : outcome (bool * option Z) :=
  '(_, tx_prefix_hash, _) ← getObjectHash cn_fast_hash (@serialize_TransactionPrefix) (prefix tx);
  check_inputs bc now tx tx_prefix_hash 0 (tx_inputs tx) (match pmax with Some _ => Some 0 | None => None end).

Definition check_tx_outputs (tx : Transaction) : bool :=
  forallb (fun out => match target out with
    | OutKey _ => true
    | OutMultisignature m =>
        if tx_version tx <? TRANSACTION_VERSION_2 then false
        else if negb (mo_term m =? 0) then
          if (mo_term m <? depositMinTerm m_currency) || (depositMaxTerm m_currency <? mo_term m) then false
          else negb (out_amount out <? depositMinAmount m_currency)
        else true
    end) (tx_outputs tx).

(** * Block headers and sizes *)

Definition block_timestamp (b : BlockEntry) : Z := timestamp (header (bl b)).

Definition check_block_timestamp (timestamps : list Z) (b : Block) : bool :=
  if zlen timestamps <? timestampCheckWindow m_currency then true
  else negb (timestamp (header b) <? medianValue timestamps).

Definition check_block_timestamp_main (bc : Blockchain) (now : Z) (b : Block) : bool :=
  if u64 (now + blockFutureTimeLimit m_currency) <? timestamp (header b) then false
  else
    let size := zlen (m_blocks bc) in
    let offset := if size <=? timestampCheckWindow m_currency then 0 else size - timestampCheckWindow m_currency in
    check_block_timestamp (map block_timestamp (drop (Z.to_nat offset) (m_blocks bc))) b.

Definition get_block_major_version_for_height (bc : Blockchain) (height : Z) : Z :=
  if upgradeHeightV2_of bc <? height then BLOCK_MAJOR_VERSION_2 else BLOCK_MAJOR_VERSION_1.

Definition checkBlockVersion (bc : Blockchain) (b : Block) : bool :=
  majorVersion (header b) =? get_block_major_version_for_height bc (get_block_height b).

Definition checkCumulativeBlockSize (cumulativeBlockSize height : Z) : outcome bool :=
  m ← maxBlockCumulativeSize m_currency height;
  Ok (negb (m <? cumulativeBlockSize)).

Definition getDifficultyForNextBlock (bc : Blockchain) : outcome Z :=
  let size := zlen (m_blocks bc) in
  let offset := size - Z.min size parameters.DIFFICULTY_BLOCKS_COUNT in
  let offset := if offset =? 0 then 1 else offset in
  let window := drop (Z.to_nat offset) (m_blocks bc) in
  LWMA3Difficulty m_currency (map block_timestamp window) (map cumulative_difficulty window).

(** [getBackwardBlocksSize]: [None] when it returns false. *)
Definition getBackwardBlocksSize (bc : Blockchain) (from_height count : Z) : option (list Z) :=
  if negb (from_height <? zlen (m_blocks bc)) then None
  else
    let start_offset := from_height + 1 - Z.min (from_height + 1) count in
    Some (map block_cumulative_size
      (take (Z.to_nat (from_height + 1 - start_offset)) (drop (Z.to_nat start_offset) (m_blocks bc)))).

Definition get_last_n_blocks_sizes (bc : Blockchain) (count : Z) : list Z :=
  match m_blocks bc with
  | [] => []
  | _ => default [] (getBackwardBlocksSize bc (zlen (m_blocks bc) - 1) count)
  end.

(** The new [m_current_block_cumul_sz_limit]. *)
Definition update_next_comulative_size_limit (bc : Blockchain) : Z :=
  let median := medianValue (get_last_n_blocks_sizes bc (rewardBlocksWindow m_currency)) in
  let median := if median <=? blockGrantedFullRewardZone m_currency then blockGrantedFullRewardZone m_currency else median in
  u64 (median * 2).

Definition checkTransactionSize (bc : Blockchain) (blobSize : Z) : bool :=
  negb (u64 (m_current_block_cumul_sz_limit bc - minerTxBlobReservedSize m_currency) <=? blobSize).

(** * Miner transactions *)

(** [check_outs_valid] is called without a place for the error message. *)
Definition prevalidate_miner_transaction (b : Block) (height : Z) : outcome bool :=
  let base := baseTransaction b in
  if negb (zlen (tx_inputs base) =? 1) then Ok false
  else if 1 <? zlen (signatures base) then Ok false
  else
    i ← vget (tx_inputs base) 0;
    match i with
    | InBase i =>
        if negb (blockIndex i =? height) then Ok false
        else if negb (tx_unlockTime base =? u64 (height + minedMoneyUnlockWindow m_currency)) then Ok false
        else
          valid ← check_outs_valid check_key (prefix base) false;
          if negb (valid : bool) then Ok false
          else Ok (check_outs_overflow (prefix base))
    | _ => Ok false
    end.

(** The reward and the emission change, [None] when it returns false. *)
Definition validate_miner_transaction (bc : Blockchain) (b : Block) (height cumulativeBlockSize alreadyGeneratedCoins fee : Z)
  : outcome (option (Z * Z)) :=
  let minerReward := get_outs_money_amount (baseTransaction b) in
  let blocksSizeMedian := medianValue (get_last_n_blocks_sizes bc (rewardBlocksWindow m_currency)) in
  r ← getBlockReward m_currency blocksSizeMedian cumulativeBlockSize alreadyGeneratedCoins fee height;
  Ok (match r with
      | None => None
      | Some (reward, emissionChange) =>
          if reward <? minerReward then (if height <? 290700 then Some (reward, emissionChange) else None)
          else if minerReward <? reward then (if height <? 290700 then Some (reward, emissionChange) else None)
          else Some (reward, emissionChange)
      end).

Definition checkProofOfWork (block : Block) (currentDifficulty : Z) : outcome bool :=
  r ← get_block_longhash cn_fast_hash cn_slow_hash cn_moonbank_slow_hash_v0 block;
  Ok (match r with None => false | Some proofOfWork => check_hash proofOfWork currentDifficulty end).
End Validation.

(** * Properties *)

Section Theory.
Context {B : BuildConfig} {K : Crypto}.
Variable m_currency : Currency.

(** The first [n] signatures from position [i] are by a subsequence of the keys. *)
Lemma signature_loop_sound h keys n i sigs :
  0 <= i -> signature_loop h keys n i sigs = Ok true ->
  exists ks, sublist ks keys /\ length ks = n /\
    forall j k, ks !! j = Some k -> exists s, sigs !! (Z.to_nat i + j)%nat = Some s /\ check_signature h k s = true.
Proof.
  revert n i. induction keys as [|key keys IH]; intros n i Hi E.
  { destruct n; cbn in E; [|done]. exists []. split_and!; [constructor|done|done]. }
  destruct n as [|n]; [exists []; split_and!; [apply sublist_nil_l|done|done]|].
  cbn [signature_loop] in E. apply bind_Ok in E as (s & [_ Hs]%vget_Ok & E).
  destruct (check_signature h key s) eqn:Ec.
  - destruct (IH n (i + 1)) as (ks & HS & HL & HF); [lia|done|]. exists (key :: ks). split_and!; [by constructor|cbn; lia|].
    intros [|j] k Hk; cbn in Hk.
    + injection Hk as <-. exists s. by rewrite Nat.add_0_r.
    + destruct (HF j k Hk) as (s' & Hs' & Hc). exists s'. split; [|done].
      by replace (Z.to_nat i + S j)%nat with (Z.to_nat (i + 1) + j)%nat by lia.
  - destruct (IH (S n) i) as (ks & HS & HL & HF); [done..|]. exists ks. split_and!; [by apply sublist_cons|done|done].
Qed.

(** C8.  What a valid multisignature input proves: when [validateInput] accepts,
    the input names an entry of the table of multisignature outputs of its amount
    that is not marked as used; the entry leads to a multisignature output of a
    transaction whose lock time is over, and with assertions compiled in the
    output has the input's amount; the deposit's term is the one claimed and, if it
    is not zero, the height of the deposit plus the term, in 32 bits, is not above
    the height of the chain (so that the term has elapsed if that sum does not
    wrap); and the required number of signatures of the transaction are there, the
    first by one key of the output, the next by one further down in its list of
    keys, and so on (a key listed twice can sign twice). *)
Theorem validateInput_sound (bc : Blockchain) (now : Z) (input : MultisignatureInput) (h : list Z) (sigs : list (list Z)) :
  0 <= signatureCount input ->
  validateInput m_currency bc now input h sigs = Ok true ->
  exists usage e output amount keys,
    usage_at (m_multisignatureOutputs (m_store bc)) (mi_amount input, outputIndex input) = Some usage /\
    isUsed usage = false /\
    transactionByIndex bc (transactionIndex usage) = Ok e /\
    is_tx_spendtime_unlocked m_currency bc now (tx_unlockTime (te_tx e)) = true /\
    vget (tx_outputs (te_tx e)) (usage_outputIndex usage) =
      Ok {| out_amount := amount; target := OutMultisignature output |} /\
    (NDEBUG = false -> amount = mi_amount input) /\
    mo_term output = mi_term input /\
    (mo_term output <> 0 ->
     u32 (ti_block (transactionIndex usage) + mo_term output) <= getCurrentBlockchainHeight bc) /\
    sublist keys (mo_keys output) /\ zlen keys = requiredSignatureCount output /\
    forall j k, keys !! j = Some k -> exists s, sigs !! j = Some s /\ check_signature h k s = true.
Proof.
  intros Hsc E. unfold validateInput in E. apply bind_Ok in E as (_ & _ & E).
  destruct (m_multisignatureOutputs (m_store bc) !! mi_amount input) as [l|] eqn:El; [|done].
  case_in E; [done|]. apply bind_Ok in E as (usage & Hu & E). destruct (isUsed usage) eqn:Eu; [done|].
  apply bind_Ok in E as (e & He & E). destruct (is_tx_spendtime_unlocked _ _ _ _) eqn:Es; [|done]. cbn [negb] in E.
  apply bind_Ok in E as ([amount tgt] & Ho & E). cbn [out_amount target] in E.
  apply bind_Ok in E as ([] & Ha & E). apply bind_Ok in E as (_ & _ & E). destruct tgt as [?|output]; [done|].
  destruct (Z.eqb_spec (signatureCount input) (requiredSignatureCount output)) as [Er|]; [|done].
  destruct (Z.eqb_spec (mi_term input) (mo_term output)) as [Et|]; [|done]. cbn [negb] in E.
  destruct (negb (mo_term output =? 0) && _) eqn:Eb; [done|].
  destruct (signature_loop_sound h (mo_keys output) _ 0 sigs ltac:(lia) E) as (ks & HS & HL & HF).
  pose proof Hu as [Hi Hl]%vget_Ok.
  exists usage, e, output, amount, ks. split_and!; try done.
  - unfold usage_at. cbn [fst snd]. rewrite El. cbn. by destruct (Z.ltb_spec (outputIndex input) 0); [lia|].
  - intros Hd. unfold massert in Ha. rewrite Hd in Ha. case_in Ha; [|done]. by zbool.
  - intros Hn. apply andb_false_iff in Eb. destruct Eb as [Eb|Eb]; zbool; [done|lia].
  - unfold zlen. rewrite HL. lia.
Qed.

(** The ring members found by the scan. *)
Definition ring_member (bc : Blockchain) (now : Z) (vec : list (TransactionIndex * Z)) (i : Z) (key : list Z) : Prop :=
  exists idx o e amount, vget vec i = Ok (idx, o) /\ transactionByIndex bc idx = Ok e /\
    vget (tx_outputs (te_tx e)) o = Ok {| out_amount := amount; target := OutKey {| ko_key := key |} |} /\
    is_tx_spendtime_unlocked m_currency bc now (tx_unlockTime (te_tx e)) = true.

Lemma scan_outputs_sound bc now vec offsets keys pmax keys' pmax' :
  scan_outputs m_currency bc now vec offsets keys pmax = Ok (Some keys', pmax') ->
  exists new, keys' = keys ++ new /\ Forall2 (ring_member bc now vec) offsets new.
Proof.
  revert keys pmax. induction offsets as [|i offsets IH]; intros keys pmax E; cbn [scan_outputs] in E.
  { injection E as <- <-. exists []. split; [by rewrite app_nil_r|constructor]. }
  case_in E; [done|]. apply bind_Ok in E as ([idx o] & Hv & E). apply bind_Ok in E as (e & He & E).
  case_in E; [done|]. apply bind_Ok in E as (out & Ho & E).
  destruct (handle_output m_currency bc now (te_tx e) out) as [key|] eqn:Eh; [|done].
  destruct (IH _ _ E) as (new & -> & HF). exists (key :: new). split; [by rewrite <- app_assoc|]. constructor; [|done].
  unfold handle_output in Eh. destruct (is_tx_spendtime_unlocked _ _ _ _) eqn:Eu; [|done]. cbn [negb] in Eh.
  destruct out as [amount [[k]|]]; cbn in Eh; [|done]. injection Eh as ->. by exists idx, o, e, amount.
Qed.

(** C9.  What a valid key input proves: when [check_tx_input] accepts, inside the
    checkpoint zone or outside, the input has ring members, each of them is an
    entry of the table of key outputs of the input's amount and leads to a key
    output of an existing transaction whose lock time is over, and there is one
    signature per member; and outside the checkpoint zone the key image lies in the
    prime order subgroup and the ring signature over exactly these keys verifies. *)
Theorem check_tx_input_sound (bc : Blockchain) (now : Z) (txin : KeyInput) (h : list Z) (sig : list (list Z))
    (pmax pmax' : option Z) :
  check_tx_input m_currency bc now txin h sig pmax = Ok (true, pmax') ->
  exists vec keys, m_outputs (m_store bc) !! ki_amount txin = Some vec /\
    outputIndexes txin <> [] /\
    Forall2 (ring_member bc now vec) (relative_output_offsets_to_absolute (outputIndexes txin)) keys /\
    zlen sig = zlen keys /\
    (isInCheckpointZone bc (getCurrentBlockchainHeight bc) = false ->
     scalarmultKey (keyImage txin) KEYIMAGE_L = KEYIMAGE_I /\
     check_ring_signature h (keyImage txin) keys sig = true).
Proof.
  intros E. unfold check_tx_input in E. apply bind_Ok in E as ([r pmax1] & Es & E). injection E as E _.
  destruct r as [keys|]; [|done]. case_in E; [done|]. case_in E; [done|].
  unfold scanOutputKeysForIndexes in Es.
  destruct (m_outputs (m_store bc) !! ki_amount txin) as [vec|] eqn:Ev; [|done].
  destruct (outputIndexes txin) as [|x l] eqn:Ei; [done|].
  destruct (scan_outputs_sound _ _ _ _ _ _ _ _ Es) as (new & -> & HF). cbn [app] in *.
  exists vec, new. zbool. split_and!; [done..|]. intros Hz. rewrite Hz in E. case_in E; [done|]. zbool. done.
Qed.

(** Rewards are enforced exactly from height 290700 on: a miner transaction
    is accepted there only if its outputs add up to the block reward, neither
    more nor less; below that height any amount is accepted. *)
Theorem miner_reward_enforced (bc : Blockchain) (b : Block) (height cumulativeBlockSize coins fee reward emission : Z) :
  getBlockReward m_currency (medianValue (get_last_n_blocks_sizes bc (rewardBlocksWindow m_currency)))
    cumulativeBlockSize coins fee height = Ok (Some (reward, emission)) ->
  validate_miner_transaction m_currency bc b height cumulativeBlockSize coins fee =
    Ok (if (height <? 290700) || (get_outs_money_amount (baseTransaction b) =? reward) then Some (reward, emission) else None).
Proof.
  intros E. unfold validate_miner_transaction. rewrite E. cbn [mbind outcome_bind]. f_equal.
  destruct (Z.eqb_spec (get_outs_money_amount (baseTransaction b)) reward) as [->|].
  - rewrite Z.ltb_irrefl, orb_true_r. done.
  - rewrite orb_false_r. destruct (height <? 290700); repeat case_step; try done. zbool. lia.
Qed.
End Theory.

(** Witnesses: a chain of three blocks whose first one holds a key output of 50
    and a deposit of 1000 with a term of two blocks. *)
Definition toy_crypto : Crypto := {|
  cn_fast_hash := sum_hash; cn_slow_hash := sum_hash; cn_moonbank_slow_hash_v0 := sum_hash;
  check_key := fun _ => true; check_signature := fun _ k s => bool_decide (take 32 s = k);
  check_ring_signature := fun _ _ _ _ => true; scalarmultKey := fun _ _ => KEYIMAGE_I |}.

Definition deposit_output : MultisignatureOutput :=
  {| mo_keys := [sample_key 8; sample_key 9]; requiredSignatureCount := 1; mo_term := 2 |}.
Definition funding_tx : Transaction := tx_of []
  [{| out_amount := 50; target := OutKey {| ko_key := sample_key 3 |} |};
   {| out_amount := 1000; target := OutMultisignature deposit_output |}].
Definition sample_chain : Blockchain := {|
  m_blocks := [spending_block funding_tx; spending_block empty_tx; spending_block empty_tx];
  m_blockIndex := {| m_container := [sample_key 1; sample_key 2; sample_key 3] |};
  m_depositIndex := empty_index;
  m_store := {| m_transactionMap := ∅; m_spent_keys := ∅;
    m_outputs := {[50 := [({| ti_block := 0; ti_transaction := 0 |}, 0)]]};
    m_multisignatureOutputs := {[1000 := [{| transactionIndex := {| ti_block := 0; ti_transaction := 0 |};
                                             usage_outputIndex := 1; isUsed := false |}]]};
    m_paymentIdIndex := ∅ |};
  m_alternative_chains := ∅; m_checkpoints := ∅; m_votingCompleteHeight := UNDEF_HEIGHT;
  m_current_block_cumul_sz_limit := 0; m_timestampIndex := [];
  m_generatedTransactionsIndex := GeneratedTransactionsIndex.empty; m_orthanBlocksIndex := ∅ |}.

Definition withdrawal : MultisignatureInput :=
  {| mi_amount := 1000; signatureCount := 1; outputIndex := 0; mi_term := 2 |}.

Lemma validateInput_sound_witness :
  exists usage e output amount keys,
    usage_at (m_multisignatureOutputs (m_store sample_chain)) (1000, 0) = Some usage /\
    isUsed usage = false /\
    transactionByIndex sample_chain (transactionIndex usage) = Ok e /\
    is_tx_spendtime_unlocked default_currency sample_chain 0 (tx_unlockTime (te_tx e)) = true /\
    vget (tx_outputs (te_tx e)) (usage_outputIndex usage) =
      Ok {| out_amount := amount; target := OutMultisignature output |} /\
    (@NDEBUG debug_build = false -> amount = 1000) /\
    mo_term output = 2 /\
    (mo_term output <> 0 ->
     u32 (ti_block (transactionIndex usage) + mo_term output) <= getCurrentBlockchainHeight sample_chain) /\
    sublist keys (mo_keys output) /\ zlen keys = requiredSignatureCount output /\
    forall j k, keys !! j = Some k -> exists s, [sample_key 9 ++ sample_key 0] !! j = Some s /\
      check_signature (Crypto := toy_crypto) [] k s = true.
Proof.
  apply (validateInput_sound (B := debug_build) (K := toy_crypto) default_currency sample_chain 0 withdrawal []
    [sample_key 9 ++ sample_key 0]).
  - vm_compute; discriminate.
  - vm_compute; reflexivity.
Defined.

Lemma check_tx_input_sound_witness :
  exists vec keys, m_outputs (m_store sample_chain) !! 50 = Some vec /\ [0] <> [] /\
    Forall2 (ring_member default_currency sample_chain 0 vec) (relative_output_offsets_to_absolute [0]) keys /\
    zlen [replicate 64 1] = zlen keys /\
    (isInCheckpointZone sample_chain (getCurrentBlockchainHeight sample_chain) = false ->
     scalarmultKey (Crypto := toy_crypto) (sample_key 5) KEYIMAGE_L = KEYIMAGE_I /\
     check_ring_signature (Crypto := toy_crypto) [] (sample_key 5) keys [replicate 64 1] = true).
Proof.
  apply (check_tx_input_sound (K := toy_crypto) default_currency sample_chain 0
    {| ki_amount := 50; outputIndexes := [0]; keyImage := sample_key 5 |} [] [replicate 64 1] None None);
    vm_compute; reflexivity.
Defined.

Lemma miner_reward_enforced_witness :
  validate_miner_transaction (B := debug_build) default_currency sample_chain sample_block 300000 0 0 0 = Ok None.
Proof.
  destruct (getBlockReward (B := debug_build) default_currency
    (medianValue (get_last_n_blocks_sizes sample_chain (rewardBlocksWindow default_currency))) 0 0 0 300000)
    as [[[reward emission]|]|e| |] eqn:E; [|vm_compute in E; discriminate E..].
  rewrite (miner_reward_enforced (B := debug_build) default_currency sample_chain sample_block 300000 0 0 0 reward emission E).
  vm_compute in E. injection E as <- <-. vm_compute. reflexivity.
Defined.
