(* ===== verification/Blockchain.v ===== *)
(** Adding and removing blocks: [pushBlock], [popBlock], [removeLastBlock] and
    [rollbackBlockchainTo] of [CryptoNoteCore/Blockchain.cpp].

    The transactions of a block are an argument, as in the second overload of
    [pushBlock]; what [popBlock] gives back to the pool is returned with the new
    state.  Log messages, timers and the lock are not modelled. *)
From S2P Require Import Prelude CryptoNote Serializer Serialization TransactionExtra Interest Currency Difficulty.
From S2P Require Import DepositIndex BlockIndex Checkpoints UpgradeDetector TreeHash BlockchainIndices ChainState Validation.

Record block_verification_context := {
  m_added_to_main_chain : bool;
  m_verification_failed : bool;
  m_marked_as_orphaned : bool;
  m_already_exists : bool;
  m_switched_to_alt_chain : bool;
}.
Definition fail (bvc : block_verification_context) : block_verification_context :=
  {| m_added_to_main_chain := m_added_to_main_chain bvc; m_verification_failed := true;
     m_marked_as_orphaned := m_marked_as_orphaned bvc; m_already_exists := m_already_exists bvc;
     m_switched_to_alt_chain := m_switched_to_alt_chain bvc |}.
Definition added (bvc : block_verification_context) : block_verification_context :=
  {| m_added_to_main_chain := true; m_verification_failed := m_verification_failed bvc;
     m_marked_as_orphaned := m_marked_as_orphaned bvc; m_already_exists := m_already_exists bvc;
     m_switched_to_alt_chain := m_switched_to_alt_chain bvc |}.
(** [boost::value_initialized<block_verification_context>()]. *)
Definition no_bvc : block_verification_context := {|
  m_added_to_main_chain := false; m_verification_failed := false; m_marked_as_orphaned := false;
  m_already_exists := false; m_switched_to_alt_chain := false |}.

(** Updates of single members. *)
Definition with_store (bc : Blockchain) (st : Store) : Blockchain := {|
  m_blocks := m_blocks bc; m_blockIndex := m_blockIndex bc; m_depositIndex := m_depositIndex bc; m_store := st;
  m_alternative_chains := m_alternative_chains bc; m_checkpoints := m_checkpoints bc;
  m_votingCompleteHeight := m_votingCompleteHeight bc; m_current_block_cumul_sz_limit := m_current_block_cumul_sz_limit bc;
  m_timestampIndex := m_timestampIndex bc; m_generatedTransactionsIndex := m_generatedTransactionsIndex bc;
  m_orthanBlocksIndex := m_orthanBlocksIndex bc |}.
Definition with_chain (bc : Blockchain) (blocks : list BlockEntry) (index : BlockIndex)
    (timestamps : TimestampBlocksIndex.t) (generated : GeneratedTransactionsIndex.t) : Blockchain := {|
  m_blocks := blocks; m_blockIndex := index; m_depositIndex := m_depositIndex bc; m_store := m_store bc;
  m_alternative_chains := m_alternative_chains bc; m_checkpoints := m_checkpoints bc;
  m_votingCompleteHeight := m_votingCompleteHeight bc; m_current_block_cumul_sz_limit := m_current_block_cumul_sz_limit bc;
  m_timestampIndex := timestamps; m_generatedTransactionsIndex := generated;
  m_orthanBlocksIndex := m_orthanBlocksIndex bc |}.
Definition with_deposits (bc : Blockchain) (d : DepositIndex) : Blockchain := {|
  m_blocks := m_blocks bc; m_blockIndex := m_blockIndex bc; m_depositIndex := d; m_store := m_store bc;
  m_alternative_chains := m_alternative_chains bc; m_checkpoints := m_checkpoints bc;
  m_votingCompleteHeight := m_votingCompleteHeight bc; m_current_block_cumul_sz_limit := m_current_block_cumul_sz_limit bc;
  m_timestampIndex := m_timestampIndex bc; m_generatedTransactionsIndex := m_generatedTransactionsIndex bc;
  m_orthanBlocksIndex := m_orthanBlocksIndex bc |}.
Definition with_voting (bc : Blockchain) (v : Z) : Blockchain := {|
  m_blocks := m_blocks bc; m_blockIndex := m_blockIndex bc; m_depositIndex := m_depositIndex bc; m_store := m_store bc;
  m_alternative_chains := m_alternative_chains bc; m_checkpoints := m_checkpoints bc;
  m_votingCompleteHeight := v; m_current_block_cumul_sz_limit := m_current_block_cumul_sz_limit bc;
  m_timestampIndex := m_timestampIndex bc; m_generatedTransactionsIndex := m_generatedTransactionsIndex bc;
  m_orthanBlocksIndex := m_orthanBlocksIndex bc |}.
Definition with_limit (bc : Blockchain) (limit : Z) : Blockchain := {|
  m_blocks := m_blocks bc; m_blockIndex := m_blockIndex bc; m_depositIndex := m_depositIndex bc; m_store := m_store bc;
  m_alternative_chains := m_alternative_chains bc; m_checkpoints := m_checkpoints bc;
  m_votingCompleteHeight := m_votingCompleteHeight bc; m_current_block_cumul_sz_limit := limit;
  m_timestampIndex := m_timestampIndex bc; m_generatedTransactionsIndex := m_generatedTransactionsIndex bc;
  m_orthanBlocksIndex := m_orthanBlocksIndex bc |}.

Definition block_versions (bc : Blockchain) : versions :=
  map (fun e => {| vi_major := majorVersion (header (bl e)); vi_minor := minorVersion (header (bl e)) |}) (m_blocks bc).

Section Chain.
Context {B : BuildConfig} {K : Crypto}.
Variable m_currency : Currency.

(** [getObjectHash(tx)]. *)
Definition tx_hash (tx : Transaction) : outcome (list Z) :=
  '(_, h, _) ← getObjectHash cn_fast_hash (@serialize_Transaction) tx; Ok h.

(** * Deposits *)

(** The deposit balance of a block in [int64_t] arithmetic. *)
Definition input_deposit (deposit : Z) (i : TransactionInput) : Z :=
  match i with
  | InMultisignature m => if 0 <? mi_term m then i64 (deposit - mi_amount m) else deposit
  | _ => deposit
  end.
Definition output_deposit (deposit : Z) (out : TransactionOutput) : Z :=
  match target out with
  | OutMultisignature m => if 0 <? mo_term m then i64 (deposit + out_amount out) else deposit
  | OutKey _ => deposit
  end.
Definition block_deposit (block : BlockEntry) : Z :=
  fold_left (fun d e => fold_left output_deposit (tx_outputs (te_tx e)) (fold_left input_deposit (tx_inputs (te_tx e)) d))
    (be_transactions block) 0.

Definition pushToDepositIndex (bc : Blockchain) (block : BlockEntry) (interest : Z) : outcome Blockchain :=
  d ← DepositIndex.pushBlock (m_depositIndex bc) (block_deposit block) interest;
  Ok (with_deposits bc d).

(** * Single blocks *)

(** [pushBlock(BlockEntry &)]. *)
Definition pushBlock_entry (bc : Blockchain) (block : BlockEntry) : outcome Blockchain :=
  blockHash ← get_block_hash cn_fast_hash (bl block);
  let blocks := m_blocks bc ++ [block] in
  let '(_, index) := push (m_blockIndex bc) blockHash in
  let timestamps := TimestampBlocksIndex.add (m_timestampIndex bc) (timestamp (header (bl block))) blockHash in
  '(_, generated) ← GeneratedTransactionsIndex.add (m_generatedTransactionsIndex bc) (bl block);
  _ ← massert (BlockIndex.size index =? zlen blocks);
  Ok (with_chain bc blocks index timestamps generated).

(** The part [popBlock] and [removeLastBlock] share: the transactions and the
    two explorer indexes, then the two block containers.  [hash] is the block
    hash, which [removeLastBlock] looks up after popping the transactions. *)
Definition pop_last (bc : Blockchain) (last_block : BlockEntry) (hash : outcome (list Z)) : outcome Blockchain :=
  h ← tx_hash (baseTransaction (bl last_block));
  st ← popTransactions cn_fast_hash (m_store bc) last_block h;
  blockHash ← hash;
  let '(_, timestamps) := TimestampBlocksIndex.remove (m_timestampIndex bc) (timestamp (header (bl last_block))) blockHash in
  '(_, generated) ← GeneratedTransactionsIndex.remove (m_generatedTransactionsIndex bc) (bl last_block);
  Ok (with_chain (with_store bc st) (vpop (m_blocks bc)) (pop (m_blockIndex bc)) timestamps generated).

(** [popBlock]: the new state and the transactions given back to the pool. *)
Definition popBlock (bc : Blockchain) (blockHash : list Z) : outcome (Blockchain * list Transaction) :=
  match last (m_blocks bc) with
  | None => Ok (bc, [])
  | Some last_block =>
      let transactions := map te_tx (drop 1 (be_transactions last_block)) in
      bc' ← pop_last bc last_block (Ok blockHash);
      d ← DepositIndex.popBlock (m_depositIndex bc');
      _ ← massert (BlockIndex.size (m_blockIndex bc') =? zlen (m_blocks bc'));
      v ← blockPopped m_currency BLOCK_MAJOR_VERSION_2 (block_versions bc') (m_votingCompleteHeight bc');
      Ok (with_voting (with_deposits bc' d) v, transactions)
  end.

(** [removeLastBlock]: neither the deposit index nor the upgrade detector is
    told. *)
Definition removeLastBlock (bc : Blockchain) : outcome (bool * Blockchain) :=
  match last (m_blocks bc) with
  | None => Ok (false, bc)
  | Some last_block =>
      bc' ← pop_last bc last_block
        (_ ← massert (be_height last_block <? BlockIndex.size (m_blockIndex bc));
         getBlockId (m_blockIndex bc) (be_height last_block));
      _ ← massert (BlockIndex.size (m_blockIndex bc') =? zlen (m_blocks bc'));
      Ok (true, bc')
  end.

(** [while (height + 1 < m_blocks.size())]: each iteration removes a block, so
    their number is enough fuel. *)
Fixpoint rollback_loop (fuel : nat) (bc : Blockchain) (height : Z) : outcome Blockchain :=
  if u32 (height + 1) <? zlen (m_blocks bc) then
    match fuel with
    | O => Undefined
    | S fuel => '(_, bc) ← removeLastBlock bc; rollback_loop fuel bc height
    end
  else Ok bc.
Definition rollbackBlockchainTo (bc : Blockchain) (height : Z) : outcome Blockchain :=
  rollback_loop (length (m_blocks bc)) bc height.

(** * [pushBlock(blockData, transactions, id, bvc)] *)

(** The checks before the first change of state: the difficulty, or the
    verification context to return false with. *)
Definition check_new_block (bc : Blockchain) (now : Z) (blockData : Block) (blockHash : list Z)
    (bvc : block_verification_context) : outcome (Z + block_verification_context) :=
  if hasBlock (m_blockIndex bc) blockHash then Ok (inr (fail bvc))
  else if negb (checkBlockVersion m_currency bc blockData) then Ok (inr (fail bvc))
  else
    merged ← (match getBlockHeight (m_blockIndex bc) blockHash with
              | None => Ok false
              | Some height =>
                  tag ← getMergeMiningTagFromExtra (tx_extra (baseTransaction blockData));
                  Ok (bool_decide (is_Some tag) && (parameters.UPGRADE_HEIGHT_V2 <=? height))
              end);
    if merged : bool then Ok (inr bvc) else
    tail ← getTailId bc;
    if negb (bool_decide (previousBlockHash (header blockData) = tail)) then Ok (inr (fail bvc))
    else if negb (check_block_timestamp_main m_currency bc now blockData) then Ok (inr (fail bvc))
    else
      currentDifficulty ← getDifficultyForNextBlock m_currency bc;
      if currentDifficulty =? 0 then Ok (inr bvc) else
      pow ← (if is_in_checkpoint_zone (m_checkpoints bc) (getCurrentBlockchainHeight bc)
             then Ok (check_block (m_checkpoints bc) (getCurrentBlockchainHeight bc) blockHash).1
             else checkProofOfWork blockData currentDifficulty);
      if negb (pow : bool) then Ok (inr (fail bvc)) else
      valid ← prevalidate_miner_transaction m_currency blockData (u32 (zlen (m_blocks bc)));
      if negb (valid : bool) then Ok (inr (fail bvc)) else Ok (inl currentDifficulty).

(** What the loop over the transactions accumulates. *)
Record totals := { cumulative_block_size : Z; fee_summary : Z; interestSummary : Z }.

(** The fee counted for a transaction: the minimum fee when the outputs exceed
    the inputs. *)
Definition counted_fee (tx : Transaction) : outcome Z :=
  in_amount ← getTransactionAllInputsAmount tx;
  let out_amount := get_outs_money_amount tx in
  Ok (if in_amount <? out_amount then parameters.MINIMUM_FEE else u64 (in_amount - out_amount)).

Definition append_tx (block : BlockEntry) (tx : Transaction) : BlockEntry :=
  with_transactions block (be_transactions block ++ [{| te_tx := tx; m_global_output_indexes := [] |}]).

(** The loop from transaction [i] on; [t] is the 16-bit [transactionIndex.transaction].
    [inr] carries the state after [popTransactions] when a transaction is invalid.
    A transaction that cannot be serialized counts no bytes; the parser returns
    none. *)
Fixpoint transactions_loop (bc : Blockchain) (now : Z) (blockData : Block) (minerTransactionHash : list Z) (i t : Z)
    (txs : list Transaction) (block : BlockEntry) (tot : totals)
  : outcome (Blockchain * BlockEntry * totals + Blockchain) :=
  match txs with
  | [] => Ok (inl (bc, block, tot))
  | tx :: txs =>
      tx_id ← vget (transactionHashes blockData) i;
      blob ← toBinaryArray (@serialize_Transaction) tx;
      let blob_size := zlen (default [] blob) in
      fee ← counted_fee tx;
      '(inputs_ok, _) ← checkTransactionInputs m_currency bc now tx None;
      if ((majorVersion (header blockData) =? BLOCK_MAJOR_VERSION_1) && (TRANSACTION_VERSION_1 <? tx_version tx))
         || negb (inputs_ok : bool) || negb (check_tx_outputs m_currency tx)
      then
        st ← popTransactions cn_fast_hash (m_store bc) block minerTransactionHash;
        Ok (inr (with_store bc st))
      else
        let t := u16 (t + 1) in
        '(_, st, block) ← pushTransaction cn_fast_hash (m_store bc) (append_tx block tx) tx_id
                            {| ti_block := be_height block; ti_transaction := t |};
        interest ← calculateTotalTransactionInterest tx;
        transactions_loop (with_store bc st) now blockData minerTransactionHash (i + 1) t txs block
          {| cumulative_block_size := u64 (cumulative_block_size tot + blob_size);
             fee_summary := u64 (fee_summary tot + fee);
             interestSummary := u64 (interestSummary tot + interest) |}
  end.

Definition pushBlock (bc : Blockchain) (now : Z) (blockData : Block) (transactions : list Transaction) (id : list Z)
    (bvc : block_verification_context) : outcome (bool * block_verification_context * Blockchain) :=
  checked ← check_new_block bc now blockData id bvc;
  match checked with
  | inr bvc => Ok (false, bvc, bc)
  | inl currentDifficulty =>
      minerTransactionHash ← tx_hash (baseTransaction blockData);
      let block := {| bl := blockData; be_height := u32 (zlen (m_blocks bc)); block_cumulative_size := 0;
        cumulative_difficulty := 0; already_generated_coins := 0;
        be_transactions := [{| te_tx := baseTransaction blockData; m_global_output_indexes := [] |}] |} in
      '(_, st, block) ← pushTransaction cn_fast_hash (m_store bc) block minerTransactionHash
                          {| ti_block := be_height block; ti_transaction := 0 |};
      '(_, coinbase_blob_size) ← getObjectBinarySize (@serialize_Transaction) (baseTransaction blockData);
      looped ← transactions_loop (with_store bc st) now blockData minerTransactionHash 0 0 transactions block
        {| cumulative_block_size := coinbase_blob_size; fee_summary := 0; interestSummary := 0 |};
      match looped with
      | inr bc => Ok (false, fail bvc, bc)
      | inl (bc, block, tot) =>
          size_ok ← checkCumulativeBlockSize m_currency (cumulative_block_size tot) (be_height block);
          if negb (size_ok : bool) then Ok (false, fail bvc, bc) else
          let already := match last (m_blocks bc) with Some e => already_generated_coins e | None => 0 end in
          r ← validate_miner_transaction m_currency bc blockData (be_height block) (cumulative_block_size tot) already
                (fee_summary tot);
          match r with
          | None =>
              st ← popTransactions cn_fast_hash (m_store bc) block minerTransactionHash;
              Ok (false, fail bvc, with_store bc st)
          | Some (_, emissionChange) =>
              let difficulty := u64 (currentDifficulty +
                match last (m_blocks bc) with Some e => cumulative_difficulty e | None => 0 end) in
              let block := {| bl := bl block; be_height := be_height block;
                block_cumulative_size := cumulative_block_size tot; cumulative_difficulty := difficulty;
                already_generated_coins := u64 (already + emissionChange + interestSummary tot);
                be_transactions := be_transactions block |} in
              bc ← pushBlock_entry bc block;
              bc ← pushToDepositIndex bc block (interestSummary tot);
              v ← blockPushed m_currency BLOCK_MAJOR_VERSION_2 (block_versions bc) (m_votingCompleteHeight bc);
              let bc := with_voting bc v in
              Ok (true, added bvc, with_limit bc (update_next_comulative_size_limit m_currency bc))
          end
      end
  end.
End Chain.

(** * Pushing succeeds on well-formed transactions *)

Lemma spend_keys_fresh h prev ins keys :
  NoDup (key_images ins) -> (forall k, k ∈ key_images ins -> keys !! k = None) ->
  exists keys', spend_keys h prev ins keys = Ok (true, keys').
Proof.
  revert prev keys. induction ins as [|[i|i|i] ins IH]; intros prev keys HN HF; cbn; [by eexists|by apply IH| |by apply IH].
  cbn in HN, HF. apply NoDup_cons in HN as [Hn HN]. rewrite HF by left. apply IH; [done|].
  intros k Hk. rewrite lookup_insert_ne by (intros <-; done). apply HF. by right.
Qed.

Section Theory.
Context {B : BuildConfig} {K : Crypto}.
Variable m_currency : Currency.

(** What [core::check_tx_semantic] has checked of a transaction before it came to
    the pool. *)
Definition tx_ok (tx : Transaction) : Prop :=
  NoDup (key_images (tx_inputs tx)) /\ checkMultisignatureInputsDiff (prefix tx) = true.

Lemma push_true st block h idx e ok st' block' :
  be_transactions block !! Z.to_nat (ti_transaction idx) = Some e -> 0 <= ti_transaction idx -> tx_ok (te_tx e) ->
  m_transactionMap st !! h = None ->
  (forall k, k ∈ key_images (tx_inputs (te_tx e)) -> m_spent_keys st !! k = None) ->
  pushTransaction cn_fast_hash st block h idx = Ok (ok, st', block') -> ok = true.
Proof.
  intros He Hi [HN HD] Hm HF E. destruct ok; [done|]. unfold pushTransaction in E. rewrite Hm in E.
  rewrite (proj2 (vget_Ok _ _ e)) in E by done. cbn [mbind outcome_bind] in E. rewrite HD in E. cbn [negb] in E.
  destruct (spend_keys_fresh (be_height block) [] _ _ HN HF) as [keys Ek]. rewrite Ek in E. cbn [mbind outcome_bind negb] in E.
  apply bind_Ok in E as (msig & _ & E). case_in E; [done|]. destruct (push_outputs _ _ _ _) as [? [? ?]].
  by apply bind_Ok in E as ([? ?] & _ & [=]).
Qed.

Lemma validateInput_unused bc now input h sigs :
  validateInput m_currency bc now input h sigs = Ok true ->
  exists u, usage_at (m_multisignatureOutputs (m_store bc)) (mi_amount input, outputIndex input) = Some u /\ isUsed u = false.
Proof.
  intros E. unfold validateInput in E. apply bind_Ok in E as (_ & _ & E).
  destruct (m_multisignatureOutputs (m_store bc) !! mi_amount input) as [l|] eqn:El; [|done].
  case_in E; [done|]. apply bind_Ok in E as (usage & [Hi Hl]%vget_Ok & E). destruct (isUsed usage) eqn:Eu; [done|].
  exists usage. split; [|done]. unfold usage_at. cbn. rewrite El. cbn. by destruct (Z.ltb_spec (outputIndex input) 0); [lia|].
Qed.

(** Accepted inputs are unspent, and unused outside the checkpoint zone. *)
Lemma check_inputs_unspent bc now tx h i ins pmax pmax' :
  isInCheckpointZone bc (getCurrentBlockchainHeight bc) = false ->
  check_inputs m_currency bc now tx h i ins pmax = Ok (true, pmax') ->
  (forall k, k ∈ key_images ins -> m_spent_keys (m_store bc) !! k = None) /\
  (forall p, p ∈ positions ins -> exists u, usage_at (m_multisignatureOutputs (m_store bc)) p = Some u /\ isUsed u = false).
Proof.
  intros Hz. revert i pmax. induction ins as [|x ins IH]; intros i pmax E; cbn [check_inputs] in E.
  { split; by intros ? ?%elem_of_nil. }
  apply bind_Ok in E as (_ & _ & E). rewrite Hz in E. destruct x as [x|x|x]; [done|..].
  - destruct (outputIndexes x); [done|]. destruct (have_tx_keyimg_as_spent bc (keyImage x)) eqn:Es; [done|].
    apply bind_Ok in E as (sig & _ & E). apply bind_Ok in E as ([[] ?] & _ & E); [|done].
    destruct (IH _ _ E) as [H1 H2]. split; [|done]. cbn. intros k [->|Hk]%elem_of_cons; [|by apply H1].
    unfold have_tx_keyimg_as_spent in Es. zbool. by apply eq_None_not_Some.
  - apply bind_Ok in E as (sig & _ & E). apply bind_Ok in E as ([] & Ev & E); [|done].
    destruct (IH _ _ E) as [H1 H2]. split; [done|]. cbn. intros p [->|Hp]%elem_of_cons; [|by apply H2].
    by eapply validateInput_unused.
Qed.

Lemma checked_inputs bc now tx pmax :
  isInCheckpointZone bc (getCurrentBlockchainHeight bc) = false ->
  checkTransactionInputs m_currency bc now tx None = Ok (true, pmax) ->
  (forall k, k ∈ key_images (tx_inputs tx) -> m_spent_keys (m_store bc) !! k = None) /\ inputs_unused (m_store bc) tx.
Proof.
  intros Hz E. unfold checkTransactionInputs in E. apply bind_Ok in E as ([[? h] ?] & _ & E).
  by apply check_inputs_unspent in E.
Qed.

(** * Popping what was pushed *)

(** The states the loop of [pushBlock] goes through: the miner transaction, then
    the others, each pushed successfully. *)
Inductive pushed (st0 : Store) (mh : list Z) : Store -> BlockEntry -> Prop :=
| pushed_miner block st' block' ixs idx :
    be_transactions block = [{| te_tx := baseTransaction (bl block); m_global_output_indexes := ixs |}] ->
    ti_transaction idx = 0 -> inputs_unused st0 (baseTransaction (bl block)) ->
    pushTransaction cn_fast_hash st0 block mh idx = Ok (true, st', block') ->
    pushed st0 mh st' block'
| pushed_next st block tx h idx st' block' :
    pushed st0 mh st block ->
    transactionHashes (bl block) !! (length (be_transactions block) - 1)%nat = Some h ->
    ti_transaction idx = zlen (be_transactions block) -> inputs_unused st tx ->
    pushTransaction cn_fast_hash st (append_tx block tx) h idx = Ok (true, st', block') ->
    pushed st0 mh st' block'.

Lemma pop_loop_ext n st b1 b2 :
  (forall i, (1 <= i <= n)%nat -> te_tx <$> be_transactions b1 !! i = te_tx <$> be_transactions b2 !! i) -> bl b1 = bl b2 ->
  pop_loop cn_fast_hash n st b1 = pop_loop cn_fast_hash n st b2.
Proof.
  intros HE Hb. revert st HE. induction n as [|n IH]; intros st HE; [done|]. cbn [pop_loop].
  specialize (HE (S n) ltac:(lia)) as H1. rewrite Hb, !vget_nat.
  destruct (be_transactions b1 !! S n) as [e1|], (be_transactions b2 !! S n) as [e2|]; cbn in H1; try done.
  cbn [mbind outcome_bind]. assert (te_tx e1 = te_tx e2) as -> by congruence.
  destruct (transactionHashes (bl b2) !! n); [|done]. cbn [mbind outcome_bind].
  destruct (popTransaction _ _ _ _); try done. cbn [mbind outcome_bind]. apply IH. intros i Hi. apply HE. lia.
Qed.

(** The shape a push gives to the block entry. *)
Lemma push_shape st block h idx st' block' :
  pushTransaction cn_fast_hash st block h idx = Ok (true, st', block') ->
  bl block' = bl block /\ be_height block' = be_height block /\
  map te_tx (be_transactions block') = map te_tx (be_transactions block) /\
  m_transactionMap st' = <[h := idx]> (m_transactionMap st).
Proof.
  intros (e & keys & gs & pidx & He & Hi & _ & _ & _ & _ & _ & _ & _ & -> & ->)%push_success.
  split_and!; [done..| |done]. cbn [with_transactions be_transactions]. change (map te_tx) with (fmap (M := list) te_tx).
  rewrite list_fmap_insert. apply list_insert_id. rewrite list_lookup_fmap, He. done.
Qed.

Lemma map_lookup_tx l k i : map te_tx l = map te_tx k -> te_tx <$> l !! i = te_tx <$> k !! i.
Proof. intros E. change (map te_tx) with (fmap (M := list) te_tx) in E. by rewrite <- !list_lookup_fmap, E. Qed.

Lemma pushed_pop st0 mh st block :
  wf_store st0 -> pushed st0 mh st block ->
  wf_store st /\ (1 <= length (be_transactions block))%nat /\ popTransactions cn_fast_hash st block mh = Ok st0.
Proof.
  intros W HP. induction HP as [block st' block' ixs idx Hb Ht HU E|st block tx h idx st' block' HP IH Hh Ht HU E].
  - destruct (push_shape _ _ _ _ _ _ E) as (Eb & _ & Em & _).
    assert (HE : be_transactions block !! Z.to_nat (ti_transaction idx) = Some {| te_tx := baseTransaction (bl block); m_global_output_indexes := ixs |})
      by (by rewrite Ht, Hb).
    destruct (pop_undoes_push _ _ _ _ _ _ _ _ W HE HU E) as [EP W'].
    rewrite Hb in Em. destruct (be_transactions block') as [|e [|]] eqn:Eb'; try done. split_and!; [done|cbn; lia|].
    unfold popTransactions. rewrite Eb', Eb. exact EP.
  - destruct IH as (W1 & HL & IH). destruct (push_shape _ _ _ _ _ _ E) as (Eb & _ & Em & _). cbn [append_tx with_transactions bl be_transactions] in Eb, Em.
    assert (HE : be_transactions (append_tx block tx) !! Z.to_nat (ti_transaction idx) = Some {| te_tx := tx; m_global_output_indexes := [] |}).
    { rewrite Ht. unfold zlen. rewrite Nat2Z.id. cbn. by apply list_lookup_middle. }
    destruct (pop_undoes_push _ _ _ _ _ _ _ _ W1 HE HU E) as [EP W'].
    assert (EL : length (be_transactions block') = S (length (be_transactions block))).
    { apply (f_equal length) in Em. rewrite !length_map, length_app in Em. cbn in Em. lia. }
    split_and!; [done|lia|]. unfold popTransactions in IH |- *.
    destruct (be_transactions block') as [|m l'] eqn:Eb'; [done|]. destruct (be_transactions block) as [|m0 l] eqn:El; [cbn in HL; lia|].
    cbn in EL. assert (length l' = S (length l)) as -> by lia. cbn [pop_loop].
    assert (HT : te_tx <$> be_transactions block' !! S (length l) = Some tx).
    { rewrite Eb'. rewrite (map_lookup_tx _ _ _ Em). change (S (length l)) with (length (m0 :: l)). by rewrite list_lookup_middle. }
    apply fmap_Some in HT as (e & He & ->).
    rewrite !vget_nat, He, Eb. cbn [mbind outcome_bind]. cbn in Hh. rewrite Nat.sub_0_r in Hh. rewrite Hh.
    cbn [mbind outcome_bind]. cbn [te_tx] in EP. rewrite EP. cbn [mbind outcome_bind].
    rewrite (pop_loop_ext _ _ block' block); [exact IH| |done].
    intros i Hi. rewrite Eb', El, (map_lookup_tx _ _ _ Em). f_equal. apply lookup_app_l. cbn. lia.
Qed.

Lemma pushed_recorded st0 mh st block : pushed st0 mh st block -> is_Some (m_transactionMap st !! mh).
Proof.
  induction 1 as [? ? ? ? ? _ _ _ E|? ? ? ? ? ? ? _ IH _ _ _ E]; destruct (push_shape _ _ _ _ _ _ E) as (_ & _ & _ & ->).
  - by rewrite lookup_insert_eq.
  - rewrite lookup_insert_is_Some'. by right.
Qed.

Lemma with_store_id bc : with_store bc (m_store bc) = bc.
Proof. by destruct bc. Qed.

(** The loop over the transactions either pushes them all or restores the state
    the miner transaction was pushed to. *)
Lemma transactions_loop_pushed st0 mh now blockData txs bc block tot i r :
  wf_store st0 -> pushed st0 mh (m_store bc) block -> bl block = blockData ->
  isInCheckpointZone bc (getCurrentBlockchainHeight bc) = false ->
  i = zlen (be_transactions block) - 1 -> i + zlen txs < 65535 -> Forall tx_ok txs ->
  NoDup (transactionHashes blockData) ->
  (forall j h, (Z.to_nat i <= j)%nat -> transactionHashes blockData !! j = Some h -> m_transactionMap (m_store bc) !! h = None) ->
  transactions_loop m_currency bc now blockData mh i i txs block tot = Ok r ->
  match r with
  | inl (bc', block', _) =>
      bc' = with_store bc (m_store bc') /\ pushed st0 mh (m_store bc') block' /\ bl block' = blockData /\
      be_height block' = be_height block /\ map te_tx (be_transactions block') = map te_tx (be_transactions block) ++ txs
  | inr bc' => bc' = with_store bc st0
  end.
Proof.
  intros W. revert bc block tot i. induction txs as [|tx txs IH]; intros bc block tot i HP Hb Hz Hi Hn HT HD HF E;
    cbn [transactions_loop] in E.
  { injection E as <-. rewrite with_store_id, app_nil_r. split_and!; done. }
  apply bind_Ok in E as (tx_id & [Hi0 Hh]%vget_Ok & E). apply bind_Ok in E as (blob & _ & E).
  apply bind_Ok in E as (fee & _ & E). apply bind_Ok in E as ([ok pmax] & Ec & E).
  destruct (pushed_pop _ _ _ _ W HP) as (W1 & HL & EP).
  destruct ((_ && _ || _ || _)%bool) eqn:Ev.
  { rewrite EP in E. by injection E as <-. }
  zbool. subst ok. destruct (checked_inputs _ _ _ _ Hz Ec) as [HK HU]. apply Forall_cons in HT as [Hok HT].
  apply bind_Ok in E as ([[ok st'] block'] & Epush & E). rewrite zlen_cons in Hn.
  assert (Eu : u16 (i + 1) = zlen (be_transactions block)) by (rewrite u16_small; [lia|unfold is_u16; pose proof (zlen_nonneg txs); lia]).
  rewrite Eu in Epush, E.
  assert (HE : be_transactions (append_tx block tx) !! Z.to_nat (zlen (be_transactions block)) =
    Some {| te_tx := tx; m_global_output_indexes := [] |}).
  { unfold zlen. rewrite Nat2Z.id. by apply list_lookup_middle. }
  assert (ok = true) as ->.
  { apply (push_true (m_store bc) (append_tx block tx) tx_id
      {| ti_block := be_height block; ti_transaction := zlen (be_transactions block) |} _ ok st' block' HE); cbn [ti_transaction te_tx];
      [apply zlen_nonneg|done| |done|exact Epush]. by apply (HF (Z.to_nat i)). }
  destruct (push_shape _ _ _ _ _ _ Epush) as (Eb & Eh & Em & Emap). cbn [append_tx with_transactions bl be_height be_transactions] in Eb, Eh, Em.
  assert (ELn : zlen (be_transactions block') = zlen (be_transactions block) + 1).
  { apply (f_equal length) in Em. rewrite !length_map, length_app in Em. unfold zlen. cbn in Em. lia. }
  assert (HP' : pushed st0 mh st' block').
  { apply (pushed_next _ _ (m_store bc) block tx tx_id
      {| ti_block := be_height block; ti_transaction := zlen (be_transactions block) |}); [exact HP| |reflexivity|exact HU|exact Epush].
    rewrite Hb. rewrite <- Hh. f_equal. unfold zlen in Hi. lia. }
  apply bind_Ok in E as (interest & _ & E).
  replace (zlen (be_transactions block)) with (i + 1) in E by lia.
  apply (IH (with_store bc st') block') in E; [|exact HP'|congruence|exact Hz|lia|lia|done|done|].
  - destruct r as [[[bc' block''] ?]|bc']; [|by rewrite E].
    destruct E as (E1 & E2 & E3 & E4 & E5). split_and!; [by rewrite E1|done|done|congruence|].
    rewrite E5, Em, map_app, <- app_assoc. done.
  - intros j h Hj Hjh. cbn [m_store with_store]. rewrite Emap, lookup_insert_ne; [apply (HF j); [lia|done]|].
    intros ->. assert (Z.to_nat i = j) by (by eapply NoDup_lookup). lia.
Qed.

(** The size that [pushBlock] sums up for a block, by itself. *)
Fixpoint blob_sizes (size : Z) (txs : list Transaction) : outcome Z :=
  match txs with
  | [] => Ok size
  | tx :: txs => blob ← toBinaryArray (@serialize_Transaction) tx; blob_sizes (u64 (size + zlen (default [] blob))) txs
  end.
Definition block_blob_size (b : Block) (txs : list Transaction) : outcome Z :=
  '(_, size) ← getObjectBinarySize (@serialize_Transaction) (baseTransaction b); blob_sizes size txs.

Lemma transactions_loop_size now blockData mh txs bc block tot i t bc' block' tot' :
  transactions_loop m_currency bc now blockData mh i t txs block tot = Ok (inl (bc', block', tot')) ->
  blob_sizes (cumulative_block_size tot) txs = Ok (cumulative_block_size tot').
Proof.
  revert bc block tot i t. induction txs as [|tx txs IH]; intros bc block tot i t E; cbn [transactions_loop] in E.
  { by injection E as _ _ <-. }
  cbn [blob_sizes]. apply bind_Ok in E as (? & _ & E). apply bind_Ok in E as (blob & -> & E).
  apply bind_Ok in E as (? & _ & E). apply bind_Ok in E as ([? ?] & _ & E). case_in E.
  { by apply bind_Ok in E as (? & _ & E). }
  apply bind_Ok in E as ([ [? ?] ?] & _ & E). apply bind_Ok in E as (? & _ & E). by apply IH in E.
Qed.

Lemma prevalidated_miner b height :
  prevalidate_miner_transaction m_currency b height = Ok true -> exists i, tx_inputs (baseTransaction b) = [InBase i].
Proof.
  unfold prevalidate_miner_transaction. destruct (tx_inputs (baseTransaction b)) as [|x [|y l]] eqn:E; [done|..].
  - change (zlen [x] =? 1) with true. change (vget [x] 0) with (Ok x). cbn [negb mbind outcome_bind].
    destruct (1 <? zlen (signatures (baseTransaction b))); [done|]. destruct x; [intros _; by eexists|done..].
  - rewrite !zlen_cons. pose proof (zlen_nonneg l). by destruct (Z.eqb_spec (1 + (1 + zlen l)) 1); [lia|].
Qed.

Lemma checked_block bc now b id bvc d :
  check_new_block m_currency bc now b id bvc = Ok (inl d) ->
  (exists i, tx_inputs (baseTransaction b) = [InBase i] /\ blockIndex i = u32 (zlen (m_blocks bc))) /\ hasBlock (m_blockIndex bc) id = false.
Proof.
  unfold check_new_block. destruct (hasBlock (m_blockIndex bc) id); [done|]. case_step; [done|]. intros E. split; [|done].
  apply bind_Ok in E as (merged & _ & E). destruct merged; [done|].
  apply bind_Ok in E as (tail & _ & E). repeat (case_in E; [done|]). apply bind_Ok in E as (dd & _ & E).
  case_in E; [done|]. apply bind_Ok in E as (pow & _ & E). case_in E; [done|].
  apply bind_Ok in E as (valid & Ev & E). destruct valid; [|done].
  pose proof Ev as Ev'. apply prevalidated_miner in Ev as [i Ei]. exists i. split; [done|].
  unfold prevalidate_miner_transaction in Ev'. rewrite Ei in Ev'. change (zlen [InBase i] =? 1) with true in Ev'.
  change (vget [InBase i] 0) with (Ok (InBase i)) in Ev'. cbn [negb mbind outcome_bind] in Ev'.
  destruct (1 <? zlen (signatures (baseTransaction b))); [done|].
  destruct (Z.eqb_spec (blockIndex i) (u32 (zlen (m_blocks bc)))); [done|]. done.
Qed.

(** * Whole blocks *)

(** The block can be added: the pool has checked its transactions, and its
    hashes are new and distinct. *)
Record block_fits (bc : Blockchain) (b : Block) (txs : list Transaction) (mh : list Z) : Prop := {
  fits_zone : isInCheckpointZone bc (getCurrentBlockchainHeight bc) = false;
  fits_count : zlen txs < 65535;
  fits_txs : Forall tx_ok txs;
  fits_miner : tx_hash (baseTransaction b) = Ok mh;
  fits_distinct : NoDup (mh :: transactionHashes b);
  fits_new : Forall (fun h => m_transactionMap (m_store bc) !! h = None) (mh :: transactionHashes b);
}.

(** How a call of [pushBlock] can end. *)
Lemma pushBlock_cases bc now b txs id bvc mh ok bvc' bc' :
  wf_store (m_store bc) -> block_fits bc b txs mh ->
  pushBlock m_currency bc now b txs id bvc = Ok (ok, bvc', bc') ->
  (ok = false /\ bc' = bc) \/
  exists st block tot, pushed (m_store bc) mh st block /\ bl block = b /\
    map te_tx (be_transactions block) = baseTransaction b :: txs /\
    hasBlock (m_blockIndex bc) id = false /\
    (exists i, tx_inputs (baseTransaction b) = [InBase i] /\ blockIndex i = u32 (zlen (m_blocks bc))) /\
    ((ok = false /\ bc' = with_store bc st /\ block_blob_size b txs = Ok (cumulative_block_size tot) /\
      checkCumulativeBlockSize m_currency (cumulative_block_size tot) (u32 (zlen (m_blocks bc))) = Ok false) \/
     (ok = true /\ exists block2 bc1 bc2 v, bl block2 = b /\ be_transactions block2 = be_transactions block /\
        pushBlock_entry (with_store bc st) block2 = Ok bc1 /\
        pushToDepositIndex bc1 block2 (interestSummary tot) = Ok bc2 /\
        blockPushed m_currency BLOCK_MAJOR_VERSION_2 (block_versions bc2) (m_votingCompleteHeight bc2) = Ok v /\
        bc' = with_limit (with_voting bc2 v) (update_next_comulative_size_limit m_currency (with_voting bc2 v)))).
Proof.
  intros W [Hz Hc HT Hmh HD HF] E. apply NoDup_cons in HD as [HD1 HD2]. apply Forall_cons in HF as [HF1 HF2].
  unfold pushBlock in E. apply bind_Ok in E as (checked & Ec & E). destruct checked as [d|bvc1].
  2:{ injection E as <- <- <-. by left. }
  destruct (checked_block _ _ _ _ _ _ Ec) as [(i & Ei & Eidx) Hhas]. rewrite Hmh in E. cbn [mbind outcome_bind] in E.
  apply bind_Ok in E as ([[ok0 st1] block1] & Epush & E).
  assert (ok0 = true) as ->.
  { eapply push_true; [| | |exact HF1| |exact Epush]; [reflexivity|done| |]; cbn [te_tx]; rewrite ?Ei.
    - split; [rewrite Ei; constructor|]. unfold checkMultisignatureInputsDiff. fold (tx_inputs (baseTransaction b)). by rewrite Ei.
    - by intros k ?%elem_of_nil. }
  destruct (push_shape _ _ _ _ _ _ Epush) as (Eb & Eh & Em & Emap). cbn [bl be_height be_transactions] in Eb, Eh, Em.
  assert (EL : zlen (be_transactions block1) = 1).
  { apply (f_equal length) in Em. rewrite length_map in Em. unfold zlen. by rewrite Em. }
  assert (HP : pushed (m_store bc) mh st1 block1).
  { eapply pushed_miner; [| | |exact Epush]; [reflexivity|done|]. cbn [bl]. intros p. rewrite Ei. by intros ?%elem_of_nil. }
  apply bind_Ok in E as ([? csize] & Ecs & E). apply bind_Ok in E as (looped & El & E).
  assert (HS : forall bc1 block tot, looped = inl (bc1, block, tot) -> block_blob_size b txs = Ok (cumulative_block_size tot)).
  { intros bc1 block tot ->. unfold block_blob_size. rewrite Ecs. cbn [mbind outcome_bind]. by apply transactions_loop_size in El. }
  eapply (transactions_loop_pushed (m_store bc) mh) in El; [|done|exact HP|done|exact Hz|by rewrite EL|lia|done|done|].
  2:{ intros j h _ Hj. cbn [m_store with_store]. rewrite Emap. assert (h ∈ transactionHashes b) by (by eapply list_elem_of_lookup_2).
      rewrite lookup_insert_ne by (intros <-; done). rewrite Forall_forall in HF2. by apply HF2. }
  destruct looped as [[[bc1 block] tot]|bc1].
  2:{ injection E as <- <- <-. left. split; [done|]. subst bc1. by destruct bc. }
  destruct El as (E1 & HP' & Eb' & Eh' & Em'). rewrite Em in Em'. cbn [map te_tx app] in Em'.
  assert (E2 : bc1 = with_store bc (m_store bc1)) by (rewrite E1; done). clear E1.
  rewrite Eh', Eh in E. apply bind_Ok in E as (size_ok & Es & E).
  destruct size_ok; cbn [negb] in E.
  2:{ injection E as <- <- <-. right. exists (m_store bc1), block, tot. split_and!; [done..|by exists i|]. left. split_and!; [done..|by eapply HS|done]. }
  apply bind_Ok in E as (r & _ & E). destruct r as [[rw em]|].
  - right. exists (m_store bc1), block, tot. split_and!; [done..|by exists i|]. right.
    apply bind_Ok in E as (bc2 & Ep & E). apply bind_Ok in E as (bc3 & Ed & E). apply bind_Ok in E as (v & Ev & E).
    injection E as <- <- <-. split; [done|]. rewrite <- E2. eexists _, bc2, bc3, v.
    refine (conj _ (conj _ (conj Ep (conj Ed (conj Ev eq_refl))))); done.
  - left. apply bind_Ok in E as (st & Ept & [= <- <- <-]). split; [done|].
    destruct (pushed_pop _ _ _ _ W HP') as (_ & _ & Epp). rewrite Epp in Ept. injection Ept as <-.
    rewrite E2. by destruct bc.
Qed.

Lemma rejected_block bc now b txs id bvc mh bvc' bc' :
  wf_store (m_store bc) -> block_fits bc b txs mh ->
  pushBlock m_currency bc now b txs id bvc = Ok (false, bvc', bc') ->
  bc' = bc \/ exists size st block,
    block_blob_size b txs = Ok size /\ checkCumulativeBlockSize m_currency size (u32 (zlen (m_blocks bc))) = Ok false /\
    bc' = with_store bc st /\ map te_tx (be_transactions block) = baseTransaction b :: txs /\ bl block = b /\
    popTransactions cn_fast_hash st block mh = Ok (m_store bc) /\ is_Some (m_transactionMap st !! mh).
Proof.
  intros W HB E. destruct (pushBlock_cases _ _ _ _ _ _ _ _ _ _ W HB E) as [[_ ->]|(st & block & tot & HP & Hb & Hm & _ & _ & [(_ & -> & Hsz & Hs)|[? _]])];
    [by left| |done]. right. exists (cumulative_block_size tot), st, block.
  destruct (pushed_pop _ _ _ _ W HP) as (_ & _ & Ep). split_and!; try done. by eapply pushed_recorded.
Qed.

(** The invariant of the main chain: the containers that run in parallel with
    [m_blocks] agree with it. *)
Record chain_inv (bc : Blockchain) : Prop := {
  inv_store : wf_store (m_store bc);
  inv_index : zlen (m_container (m_blockIndex bc)) = zlen (m_blocks bc);
  inv_timestamps : forall ts h, (ts, h) ∈ m_timestampIndex bc -> h ∈ m_container (m_blockIndex bc);
  inv_generated : GeneratedTransactionsIndex.rep (m_generatedTransactionsIndex bc) (map bl (m_blocks bc));
  inv_deposits : blockCount (m_depositIndex bc) = zlen (m_blocks bc);
  inv_heights : Forall (fun e => de_height e < zlen (m_blocks bc)) (index (m_depositIndex bc));
  inv_voting : m_votingCompleteHeight bc = UNDEF_HEIGHT;
}.

Lemma deposit_push d a i d' :
  DepositIndex.pushBlock d a i = Ok d' -> 0 <= blockCount d -> blockCount d + 1 < 2 ^ 32 ->
  Forall (fun e => de_height e < blockCount d) (index d) ->
  blockCount d' = blockCount d + 1 /\ Forall (fun e => de_height e < blockCount d + 1) (index d') /\
  DepositIndex.popBlock d' = Ok d.
Proof.
  intros E H0 Hc HF. unfold DepositIndex.pushBlock in E. apply bind_Ok in E as (_ & _ & E). apply bind_Ok in E as (_ & _ & E).
  case_in E; [|done]. apply bind_Ok in E as (_ & _ & E). injection E as <-. cbn [blockCount index].
  rewrite u32_small by (unfold is_u32; lia). split; [done|].
  assert (HF' : Forall (fun e => de_height e < blockCount d + 1) (index d)) by (eapply Forall_impl; [exact HF|]; cbn; lia).
  split. { case_step; [|done]. apply Forall_app. split; [done|]. by repeat constructor; cbn; lia. }
  unfold DepositIndex.popBlock. cbn [blockCount index]. rewrite massert_true by (apply Z.ltb_lt; lia). cbn [mbind outcome_bind].
  replace (blockCount d + 1 - 1) with (blockCount d) by lia. rewrite u32_small by (unfold is_u32; lia). f_equal.
  destruct (a =? 0); cbn [negb].
  - destruct (last (index d)) as [e|] eqn:El; [|by destruct d]. apply last_Some in El as [l El].
    destruct (Z.eqb_spec (de_height e) (blockCount d)) as [Eq|]; [|by destruct d].
    rewrite El in HF. apply Forall_app in HF as [_ [HF _]%Forall_cons]. lia.
  - rewrite last_snoc. cbn [de_height]. rewrite Z.eqb_refl, vpop_app. by destruct d.
Qed.

Lemma popTransactions_ext st b1 b2 mh :
  be_transactions b1 = be_transactions b2 -> bl b1 = bl b2 ->
  popTransactions cn_fast_hash st b1 mh = popTransactions cn_fast_hash st b2 mh.
Proof.
  intros Et Eb. unfold popTransactions. rewrite <- Et, <- Eb. destruct (be_transactions b1) eqn:E; [done|].
  rewrite (pop_loop_ext _ _ b1 b2); [done| |done]. intros i _. by rewrite E, Et.
Qed.

Hypothesis fixed_height : upgradeHeight m_currency BLOCK_MAJOR_VERSION_2 <> UNDEF_HEIGHT.

(** A block committed after its transactions were pushed can be popped. *)
Lemma commit_pop bc b txs id mh st block block2 bc1 bc2 v interest limit :
  chain_inv bc -> block_fits bc b txs mh ->
  zlen (m_blocks bc) + 1 < 2 ^ 32 ->
  GeneratedTransactionsIndex.total (map bl (m_blocks bc) ++ [b]) < 2 ^ 64 ->
  get_block_hash cn_fast_hash b = Ok id -> hasBlock (m_blockIndex bc) id = false ->
  (exists i, tx_inputs (baseTransaction b) = [InBase i] /\ blockIndex i = u32 (zlen (m_blocks bc))) ->
  pushed (m_store bc) mh st block -> bl block = b -> map te_tx (be_transactions block) = baseTransaction b :: txs ->
  bl block2 = b -> be_transactions block2 = be_transactions block ->
  pushBlock_entry (with_store bc st) block2 = Ok bc1 ->
  pushToDepositIndex bc1 block2 interest = Ok bc2 ->
  blockPushed m_currency BLOCK_MAJOR_VERSION_2 (block_versions bc2) (m_votingCompleteHeight bc2) = Ok v ->
  let bc' := with_limit (with_voting bc2 v) limit in
  chain_inv bc' /\ popBlock m_currency bc' id = Ok (with_limit bc limit, txs).
Proof.
  intros [I1 I2 I3 I4 I5 I6 I7] [_ _ _ Hmh _ _] Hz HT Hid Hhas (i & Ei & Eidx) HP Hb Hm Hb2 Ht2 E1 E2 E3 bc'. pose proof (zlen_nonneg (m_blocks bc)).
  unfold pushBlock_entry in E1. rewrite Hb2, Hid in E1. cbn [mbind outcome_bind] in E1.
  unfold push in E1. cbn [with_store m_blockIndex m_blocks m_timestampIndex m_generatedTransactionsIndex] in E1.
  unfold hasBlock in Hhas. apply bool_decide_eq_false in Hhas. rewrite decide_False in E1 by done.
  rewrite u32_small in Eidx by (unfold is_u32; lia).
  assert (Hbase : base_index b = Ok (zlen (map bl (m_blocks bc)))).
  { unfold base_index. rewrite Ei, Eidx. unfold zlen. by rewrite length_map. }
  destruct (GeneratedTransactionsIndex.generated_add_rep _ _ b I4 Hbase HT) as (g & Eg & Rg).
  destruct (GeneratedTransactionsIndex.generated_remove_rep _ _ b Rg Hbase) as (g0 & Er & Rg0); [unfold zlen in *; rewrite length_map; lia|].
  assert (g0 = m_generatedTransactionsIndex bc) as -> by (by eapply GeneratedTransactionsIndex.rep_functional).
  rewrite Eg in E1. cbn [mbind outcome_bind] in E1. apply bind_Ok in E1 as (_ & _ & [= <-]).
  unfold pushToDepositIndex in E2. apply bind_Ok in E2 as (d & Ed & [= <-]). cbn [with_chain with_store m_depositIndex] in Ed.
  rewrite <- I5 in I6. destruct (deposit_push _ _ _ _ Ed) as (Dc & Dh & Dp); [lia|lia|done|].
  assert (v = UNDEF_HEIGHT) as ->.
  { cbn [with_deposits with_chain with_store m_votingCompleteHeight] in E3. rewrite I7 in E3. unfold blockPushed in E3.
    apply bind_Ok in E3 as (_ & _ & E3). apply bind_Ok in E3 as (? & _ & E3).
    rewrite (proj2 (Z.eqb_neq _ _) fixed_height) in E3. cbn [negb] in E3. apply bind_Ok in E3 as (_ & _ & E3). congruence. }
  destruct (pushed_pop _ _ _ _ I1 HP) as (W & _ & EP). split.
  - split; subst bc'; cbn; try done.
    + rewrite !zlen_snoc. lia.
    + intros ts h. rewrite (TimestampBlocksIndex.timestamp_add_perm _ _ _), elem_of_cons, elem_of_app.
      intros [[= -> ->]|Hin]; [right; by apply list_elem_of_singleton|left; by eapply I3].
    + rewrite map_app. cbn [map]. by rewrite Hb2.
    + rewrite zlen_snoc. lia.
    + rewrite zlen_snoc, <- I5. done.
  - unfold popBlock. subst bc'. cbn [with_limit with_voting with_deposits with_chain with_store m_blocks]. rewrite last_snoc.
    unfold pop_last. rewrite Hb2, Hmh. cbn [mbind outcome_bind m_store m_timestampIndex m_generatedTransactionsIndex m_blockIndex m_depositIndex
      with_limit with_voting with_deposits with_chain with_store m_blocks].
    rewrite (popTransactions_ext _ block2 block), EP by (done || congruence). cbn [mbind outcome_bind].
    rewrite TimestampBlocksIndex.timestamp_remove_add by (intros Hin%I3; done). rewrite Er. cbn [mbind outcome_bind m_depositIndex with_limit with_voting with_deposits with_chain with_store].
    rewrite Dp. cbn [mbind outcome_bind m_blockIndex m_blocks with_chain with_store with_deposits with_voting with_limit].
    unfold pop. cbn [m_container]. rewrite !vpop_app. rewrite massert_true.
    2:{ unfold BlockIndex.size. cbn [m_container]. rewrite I2, u32_small by (unfold is_u32; lia). apply Z.eqb_refl. }
    cbn [mbind outcome_bind m_votingCompleteHeight with_chain with_store with_deposits with_voting with_limit].
    unfold blockPopped. rewrite Z.eqb_refl. cbn [negb mbind outcome_bind]. f_equal. f_equal.
    + destruct bc as [? [] ? ? ? ? ? ? ? ? ?]. cbn in *. by rewrite I7.
    + rewrite Ht2. change (map te_tx (drop 1 (be_transactions block))) with (fmap (M := list) te_tx (drop 1 (be_transactions block))).
      rewrite fmap_drop. change (te_tx <$> be_transactions block) with (map te_tx (be_transactions block)). by rewrite Hm.
Qed.

(** C5.  A rejected block leaves no trace, with one exception.  On a chain that
    satisfies [chain_inv] and for a block that [block_fits] (the height is outside
    the checkpoint zone, there are fewer than 65535 transactions, each has distinct
    key images and distinct multisignature inputs, and the hashes of the block's
    transactions are new to the chain and distinct): when [pushBlock] returns
    false, the whole state is what it was, whichever check failed and however many
    transactions had been pushed; except when the block's own size, the sum of the
    sizes of its transactions, is refused by [checkCumulativeBlockSize]: then no
    block is added but its transactions, the miner transaction included, stay
    pushed, and popping them would have restored the state. *)
Theorem rejected_block_atomic (bc : Blockchain) (now : Z) (b : Block) (txs : list Transaction) (id mh : list Z)
    (bvc bvc' : block_verification_context) (bc' : Blockchain) :
  chain_inv bc -> block_fits bc b txs mh ->
  pushBlock m_currency bc now b txs id bvc = Ok (false, bvc', bc') ->
  bc' = bc \/
  exists size st block,
    block_blob_size b txs = Ok size /\ checkCumulativeBlockSize m_currency size (u32 (zlen (m_blocks bc))) = Ok false /\
    bc' = with_store bc st /\ map te_tx (be_transactions block) = baseTransaction b :: txs /\ bl block = b /\
    popTransactions cn_fast_hash st block mh = Ok (m_store bc) /\ is_Some (m_transactionMap st !! mh).
Proof. intros HI HB HE. eapply rejected_block; [apply HI|exact HB|exact HE]. Qed.

(** C2.  Adding a block and taking it away again is the identity but for the block
    size limit.  On a chain that satisfies [chain_inv], shorter than 2^32 - 1
    blocks, and for a block that [block_fits] (the height is outside the checkpoint
    zone, there are fewer than 65535 transactions, each has distinct key images and
    distinct multisignature inputs, and the hashes of the block's transactions are
    new to the chain and distinct): a successful [pushBlock] keeps [chain_inv], and
    [popBlock] then restores every container (blocks, block index, transaction
    state, deposit index, timestamp and transaction counters, upgrade votes) and
    gives back the block's transactions in order; the block size limit stays that
    of the longer chain.  (Without [block_fits] it fails: the result of
    [pushTransaction] is ignored, so that a block that repeats a hash is added and
    cannot be popped.) *)
Theorem pushBlock_popBlock (bc : Blockchain) (now : Z) (b : Block) (txs : list Transaction) (id mh : list Z)
    (bvc bvc' : block_verification_context) (bc' : Blockchain) :
  chain_inv bc -> block_fits bc b txs mh ->
  zlen (m_blocks bc) + 1 < 2 ^ 32 ->
  GeneratedTransactionsIndex.total (map bl (m_blocks bc) ++ [b]) < 2 ^ 64 ->
  get_block_hash cn_fast_hash b = Ok id ->
  pushBlock m_currency bc now b txs id bvc = Ok (true, bvc', bc') ->
  chain_inv bc' /\
  popBlock m_currency bc' id = Ok (with_limit bc (m_current_block_cumul_sz_limit bc'), txs).
Proof.
  intros HI HB Hz HT Hid HE.
  destruct (pushBlock_cases _ _ _ _ _ _ _ _ _ _ (inv_store _ HI) HB HE)
    as [[? _]|(st & block & tot & HP & Hb & Hm & Hhas & Hi & [[? _]|(_ & block2 & bc1 & bc2 & v & Hb2 & Ht2 & E1 & E2 & E3 & ->)])]; [done..|].
  by eapply commit_pop.
Qed.
End Theory.

(** Witnesses: the first block of an empty chain, with one more transaction. *)
Definition empty_chain : Blockchain := {|
  m_blocks := []; m_blockIndex := empty_block_index; m_depositIndex := empty_index; m_store := empty_store;
  m_alternative_chains := ∅; m_checkpoints := ∅; m_votingCompleteHeight := UNDEF_HEIGHT;
  m_current_block_cumul_sz_limit := 0; m_timestampIndex := [];
  m_generatedTransactionsIndex := GeneratedTransactionsIndex.empty; m_orthanBlocksIndex := ∅ |}.

Lemma empty_chain_inv : chain_inv empty_chain.
Proof.
  split; try done.
  - by intros ts h ?%elem_of_nil.
  - apply GeneratedTransactionsIndex.empty_rep.
Qed.

Definition first_tx (v : Z) : Transaction := {|
  prefix := {| version := v; unlockTime := 0; inputs := []; outputs := [key_out 700]; extra := [] |}; signatures := [] |}.
Definition first_block : Block := {|
  header := {| majorVersion := 1; minorVersion := 0; nonce := 0; timestamp := 1000; previousBlockHash := NULL_HASH |};
  baseTransaction := {| prefix := {| version := 1; unlockTime := 10; inputs := [InBase {| blockIndex := 0 |}];
    outputs := [key_out 500]; extra := [] |}; signatures := [] |};
  transactionHashes := [sample_key 6] |}.
Definition first_block_id : list Z :=
  match get_block_hash (B := debug_build) sum_hash first_block with Ok h => h | _ => [] end.
Definition first_miner_hash : list Z :=
  match tx_hash (B := debug_build) (K := toy_crypto) (baseTransaction first_block) with Ok h => h | _ => [] end.

Lemma first_block_fits v : block_fits (B := debug_build) (K := toy_crypto) empty_chain first_block [first_tx v] first_miner_hash.
Proof.
  split.
  - reflexivity.
  - reflexivity.
  - constructor; [|constructor]. split; [constructor|reflexivity].
  - vm_compute. reflexivity.
  - apply (bool_decide_unpack _). vm_compute. exact I.
  - repeat constructor.
Qed.

Lemma main_fixed_height : upgradeHeight default_currency BLOCK_MAJOR_VERSION_2 <> UNDEF_HEIGHT.
Proof. vm_compute. discriminate. Qed.

Lemma pushBlock_popBlock_witness :
  match pushBlock (B := debug_build) (K := toy_crypto) default_currency empty_chain 2000 first_block [first_tx 1] first_block_id no_bvc with
  | Ok (true, _, bc') => chain_inv bc' /\ zlen (m_blocks bc') = 1 /\
      popBlock (B := debug_build) (K := toy_crypto) default_currency bc' first_block_id =
        Ok (with_limit empty_chain (m_current_block_cumul_sz_limit bc'), [first_tx 1])
  | _ => False
  end.
Proof.
  destruct (pushBlock (B := debug_build) (K := toy_crypto) default_currency empty_chain 2000 first_block [first_tx 1] first_block_id no_bvc)
    as [[[[] bvc'] bc']|e| |] eqn:E; try (vm_compute in E; discriminate E).
  destruct (pushBlock_popBlock (B := debug_build) (K := toy_crypto) default_currency main_fixed_height empty_chain 2000 first_block
    [first_tx 1] first_block_id first_miner_hash no_bvc bvc' bc' empty_chain_inv (first_block_fits 1)) as [H1 H2].
  - vm_compute. reflexivity.
  - vm_compute. reflexivity.
  - vm_compute. reflexivity.
  - exact E.
  - split; [exact H1|]. split; [|exact H2].
    apply (f_equal (fun o => match o with Ok (_, _, bc) => zlen (m_blocks bc) | _ => 0 end)) in E. rewrite <- E.
    vm_compute. reflexivity.
Defined.

Lemma rejected_block_atomic_witness :
  match pushBlock (B := debug_build) (K := toy_crypto) default_currency empty_chain 2000 first_block [first_tx 2] first_block_id no_bvc with
  | Ok (false, _, bc') => bc' = empty_chain
  | _ => False
  end.
Proof.
  destruct (pushBlock (B := debug_build) (K := toy_crypto) default_currency empty_chain 2000 first_block [first_tx 2] first_block_id no_bvc)
    as [[[[] bvc'] bc']|e| |] eqn:E; try (vm_compute in E; discriminate E).
  destruct (rejected_block_atomic (B := debug_build) (K := toy_crypto) default_currency empty_chain 2000 first_block [first_tx 2]
    first_block_id first_miner_hash no_bvc bvc' bc' empty_chain_inv (first_block_fits 2) E) as [H|(size & st & block & Hs & Hc & _)]; [exact H|].
  vm_compute in Hs. injection Hs as <-. vm_compute in Hc. discriminate Hc.
Defined.

(** [pushBlock] has no check that a transaction spends what it creates: the
    transaction of the first witness has no inputs and an output of 700. *)
Lemma money_from_nothing :
  getTransactionAllInputsAmount (first_tx 1) = Ok 0 /\ get_outs_money_amount (first_tx 1) = 700 /\
  counted_fee (first_tx 1) = Ok parameters.MINIMUM_FEE.
Proof. split_and!; vm_compute; reflexivity. Qed.
