(* ===== verification/TransactionApi.v ===== *)
(** Building and reading transactions: [CryptoNoteCore/TransactionUtils.cpp],
    [TransactionApiExtra.h], [TransactionPrefixImpl.cpp], [Transaction.cpp] and
    [constructTransaction] of [CryptoNoteFormatUtils.cpp].

    [ITransactionReader] is the interface through which the wallet sees a
    transaction; the two implementations of the source are its instances.  The
    functions of [crypto/] are the operations of a class; the random numbers they
    draw are an argument.  A result parameter that a failed call leaves
    uninitialised and that is used all the same is [Undefined]. *)
From S2P Require Import Prelude Varint Stream CryptoNote Serializer Serialization TransactionExtra.

(** * Inputs and outputs by index *)

Inductive InputType := InputInvalid | InputTypeKey | InputTypeMultisignature | InputGenerating.
Inductive OutputType := OutputInvalid | OutputTypeKey | OutputTypeMultisignature.

#[export] Instance InputType_eq_dec : EqDecision InputType.
Proof. solve_decision. Defined.
#[export] Instance OutputType_eq_dec : EqDecision OutputType.
Proof. solve_decision. Defined.

Fixpoint keyimages_distinct (ki : gset (list Z)) (ins : list TransactionInput) : bool :=
  match ins with
  | [] => true
  | InKey i :: ins => if decide (keyImage i ∈ ki) then false else keyimages_distinct ({[keyImage i]} ∪ ki) ins
  | _ :: ins => keyimages_distinct ki ins
  end.
Definition checkInputsKeyimagesDiff (tx : TransactionPrefix) : bool := keyimages_distinct ∅ (inputs tx).

Definition getRequiredSignaturesCount_input (i : TransactionInput) : Z :=
  match i with
  | InKey k => zlen (outputIndexes k)
  | InMultisignature m => signatureCount m
  | InBase _ => 0
  end.

Definition getTransactionInputAmount (i : TransactionInput) : Z :=
  match i with
  | InKey k => ki_amount k
  | InMultisignature m => mi_amount m
  | InBase _ => 0
  end.

Definition getTransactionInputType (i : TransactionInput) : InputType :=
  match i with
  | InKey _ => InputTypeKey
  | InMultisignature _ => InputTypeMultisignature
  | InBase _ => InputGenerating
  end.

Definition getTransactionOutputType (t : TransactionOutputTarget) : OutputType :=
  match t with OutKey _ => OutputTypeKey | OutMultisignature _ => OutputTypeMultisignature end.

Definition getInputChecked (tx : TransactionPrefix) (index : Z) : outcome TransactionInput :=
  if zlen (inputs tx) <=? index then Throw runtime_error else vget (inputs tx) index.
Definition getInputChecked_typed (tx : TransactionPrefix) (index : Z) (type : InputType) : outcome TransactionInput :=
  input ← getInputChecked tx index;
  if decide (getTransactionInputType input = type) then Ok input else Throw runtime_error.

Definition getOutputChecked (tx : TransactionPrefix) (index : Z) : outcome TransactionOutput :=
  if zlen (outputs tx) <=? index then Throw runtime_error else vget (outputs tx) index.
Definition getOutputChecked_typed (tx : TransactionPrefix) (index : Z) (type : OutputType) : outcome TransactionOutput :=
  output ← getOutputChecked tx index;
  if decide (getTransactionOutputType (target output) = type) then Ok output else Throw runtime_error.

(** [boost::get<T>] on the variants. *)
Definition get_KeyInput (i : TransactionInput) : outcome KeyInput :=
  match i with InKey k => Ok k | _ => Throw bad_get end.
Definition get_MultisignatureInput (i : TransactionInput) : outcome MultisignatureInput :=
  match i with InMultisignature m => Ok m | _ => Throw bad_get end.
Definition get_KeyOutput (t : TransactionOutputTarget) : outcome KeyOutput :=
  match t with OutKey k => Ok k | _ => Throw bad_get end.
Definition get_MultisignatureOutput (t : TransactionOutputTarget) : outcome MultisignatureOutput :=
  match t with OutMultisignature m => Ok m | _ => Throw bad_get end.

(** The getters both implementations write out on the transaction they hold. *)
Definition prefix_KeyInput (tx : TransactionPrefix) (index : Z) : outcome KeyInput :=
  i ← getInputChecked_typed tx index InputTypeKey; get_KeyInput i.
Definition prefix_MultisignatureInput (tx : TransactionPrefix) (index : Z) : outcome MultisignatureInput :=
  i ← getInputChecked_typed tx index InputTypeMultisignature; get_MultisignatureInput i.
Definition prefix_KeyOutput (tx : TransactionPrefix) (index : Z) : outcome (KeyOutput * Z) :=
  o ← getOutputChecked_typed tx index OutputTypeKey; k ← get_KeyOutput (target o); Ok (k, out_amount o).
Definition prefix_MultisignatureOutput (tx : TransactionPrefix) (index : Z) : outcome (MultisignatureOutput * Z) :=
  o ← getOutputChecked_typed tx index OutputTypeMultisignature; m ← get_MultisignatureOutput (target o); Ok (m, out_amount o).
Definition prefix_InputTotalAmount (tx : TransactionPrefix) : Z :=
  fold_left (fun val i => u64 (val + getTransactionInputAmount i)) (inputs tx) 0.
Definition prefix_OutputTotalAmount (tx : TransactionPrefix) : Z :=
  fold_left (fun val o => u64 (val + out_amount o)) (outputs tx) 0.
Definition prefix_validateInputs (tx : TransactionPrefix) : bool :=
  check_inputs_types_supported tx && check_inputs_overflow tx && checkInputsKeyimagesDiff tx && checkMultisignatureInputsDiff tx.

(** * Keys *)

Record AccountKeys := { address : AccountPublicAddress; spendSecretKey : list Z; viewSecretKey : list Z }.
Record KeyPair := { kp_publicKey : list Z; kp_secretKey : list Z }.

Class KeyCrypto := {
  generate_key_derivation : list Z -> list Z -> option (list Z);
  derive_public_key : list Z -> Z -> list Z -> option (list Z);
  derive_secret_key : list Z -> Z -> list Z -> list Z;
  generate_key_image : list Z -> list Z -> list Z;
  secret_key_to_public_key : list Z -> option (list Z);
  generate_signature : list Z -> list Z -> list Z -> list Z -> list Z;
  generate_ring_signature : list Z -> list Z -> list Z -> list (list Z) -> list Z -> Z -> list (list Z);
  chacha8 : list Z -> list Z -> list Z -> list Z;
  fast_hash : list Z -> list Z;
  is_valid_key : list Z -> bool;
}.

(** A result parameter used although the call may have failed. *)
Definition out_param {A} (r : option A) : outcome A :=
  match r with Some a => Ok a | None => Undefined end.

Section Keys.
Context {B : BuildConfig} {C : KeyCrypto}.

Definition derivePublicKey (to : AccountPublicAddress) (txKey : list Z) (outputIndex : Z) : outcome (list Z) :=
  derivation ← out_param (generate_key_derivation (viewPublicKey to) txKey);
  out_param (derive_public_key derivation outputIndex (spendPublicKey to)).

(** The ephemeral keys and the key image; [None] when it returns false. *)
Definition generate_key_image_helper (ack : AccountKeys) (tx_public_key : list Z) (real_output_index : Z)
  : outcome (option (KeyPair * list Z)) :=
  let recv_derivation := generate_key_derivation tx_public_key (viewSecretKey ack) in
  _ ← massert (bool_decide (is_Some recv_derivation));
  match recv_derivation with
  | None => Ok None
  | Some recv_derivation =>
      let pk := derive_public_key recv_derivation real_output_index (spendPublicKey (address ack)) in
      _ ← massert (bool_decide (is_Some pk));
      match pk with
      | None => Ok None
      | Some pk =>
          let sk := derive_secret_key recv_derivation real_output_index (spendSecretKey ack) in
          Ok (Some ({| kp_publicKey := pk; kp_secretKey := sk |}, generate_key_image pk sk))
      end
  end.

Definition isOutToKey (spendPublicKey outKey derivation : list Z) (keyIndex : Z) : outcome bool :=
  pk ← out_param (derive_public_key derivation keyIndex spendPublicKey);
  Ok (bool_decide (pk = outKey)).

(** [is_out_to_acc(acc, out_key, derivation, keyIndex)]. *)
Definition is_out_to_acc (acc : AccountPublicAddress) (out_key : KeyOutput) (derivation : list Z) (keyIndex : Z) : outcome bool :=
  pk ← out_param (derive_public_key derivation keyIndex (spendPublicKey acc));
  Ok (bool_decide (pk = ko_key out_key)).

(** The keys of a multisignature output are tried with the index of the output;
    [out] gets the index once for each that matches. *)
Fixpoint multisignature_keys_to_account (spend derivation : list Z) (outputIndex : Z) (keys : list (list Z)) (out : list Z)
  : outcome (list Z) :=
  match keys with
  | [] => Ok out
  | key :: keys =>
      mine ← isOutToKey spend key derivation outputIndex;
      multisignature_keys_to_account spend derivation outputIndex keys (if mine : bool then out ++ [outputIndex] else out)
  end.

Fixpoint outputs_to_account (addr : AccountPublicAddress) (derivation : list Z) (keyIndex outputIndex : Z)
    (outs : list TransactionOutput) (out : list Z) (amount : Z) : outcome (list Z * Z) :=
  match outs with
  | [] => Ok (out, amount)
  | o :: outs =>
      match target o with
      | OutKey k =>
          mine ← is_out_to_acc addr k derivation keyIndex;
          let '(out, amount) := if mine : bool then (out ++ [outputIndex], u64 (amount + out_amount o)) else (out, amount) in
          outputs_to_account addr derivation (u64 (keyIndex + 1)) (u32 (outputIndex + 1)) outs out amount
      | OutMultisignature m =>
          out ← multisignature_keys_to_account (spendPublicKey addr) derivation outputIndex (mo_keys m) out;
          outputs_to_account addr derivation (u64 (keyIndex + zlen (mo_keys m))) (u32 (outputIndex + 1)) outs out amount
      end
  end.

(** [out] is appended to; [amount] is set. *)
Definition findOutputsToAccount (tx : TransactionPrefix) (addr : AccountPublicAddress) (viewSecretKey : list Z)
    (out : list Z) : outcome (list Z * Z) :=
  txPubKey ← getTransactionPublicKeyFromExtra (extra tx);
  derivation ← out_param (generate_key_derivation txPubKey viewSecretKey);
  outputs_to_account addr derivation 0 0 (outputs tx) out 0.
End Keys.

(** * The extra fields of a transaction: class [TransactionExtra] *)

Module Extra.
Section Extra.
Context {B : BuildConfig}.

Definition same_alternative (f g : TransactionExtraField) : bool :=
  match f, g with
  | ExtraPadding _, ExtraPadding _ | ExtraPublicKey _, ExtraPublicKey _ | ExtraNonce _, ExtraNonce _
  | ExtraMergeMiningTag _, ExtraMergeMiningTag _ | ExtraMessage _, ExtraMessage _ | ExtraTTL _, ExtraTTL _ => true
  | _, _ => false
  end.

(** The fields parsed before an error stay. *)
Definition parse (extra : list Z) : outcome (bool * list TransactionExtraField) := parseTransactionExtra extra.

Fixpoint set (value : TransactionExtraField) (fields : list TransactionExtraField) : list TransactionExtraField :=
  match fields with
  | [] => [value]
  | f :: fields => if same_alternative value f then value :: fields else f :: set value fields
  end.
Definition append (value : TransactionExtraField) (fields : list TransactionExtraField) : list TransactionExtraField :=
  fields ++ [value].
Definition getPublicKey (fields : list TransactionExtraField) : option (list Z) := find_field as_publicKey fields.
Definition getNonce (fields : list TransactionExtraField) : option (list Z) := find_field as_nonce fields.

(** [writeTransactionExtra] stops at the field it cannot write, and its verdict
    is not looked at. *)
Fixpoint write_all (extra : list Z) (fields : list TransactionExtraField) : outcome (list Z) :=
  match fields with
  | [] => Ok extra
  | f :: fields =>
      r ← write_field extra f;
      match r with Some extra => write_all extra fields | None => Ok extra end
  end.
Definition serialize (fields : list TransactionExtraField) : outcome (list Z) := write_all [] fields.
End Extra.
End Extra.

(** * The reader interface *)

Class ITransactionReader (T : Type) := {
  getTransactionHash : T -> outcome (list Z);
  getTransactionPublicKey : T -> list Z;
  getUnlockTime : T -> Z;
  getPaymentId : T -> option (list Z);
  getExtraNonce : T -> option (list Z);
  getExtra : T -> list Z;
  getInputCount : T -> Z;
  getInputTotalAmount : T -> Z;
  getInputType : T -> Z -> outcome InputType;
  getInput_Key : T -> Z -> outcome KeyInput;
  getInput_Multisignature : T -> Z -> outcome MultisignatureInput;
  getOutputCount : T -> Z;
  getOutputTotalAmount : T -> Z;
  getOutputType : T -> Z -> outcome OutputType;
  getOutput_Key : T -> Z -> outcome (KeyOutput * Z);
  getOutput_Multisignature : T -> Z -> outcome (MultisignatureOutput * Z);
}.

(** The payment id in a nonce, for both implementations. *)
Definition payment_id_of (fields : list TransactionExtraField) : option (list Z) :=
  nonce ← Extra.getNonce fields; getPaymentIdFromTransactionExtraNonce nonce.

(** * Transaction prefixes: class [TransactionPrefixImpl] *)

Record TransactionPrefixImpl := {
  m_txPrefix : TransactionPrefix;
  m_extra : list TransactionExtraField;
  m_txHash : list Z;
}.

Section PrefixImpl.
Context {B : BuildConfig} {C : KeyCrypto}.

(** [createTransactionPrefix(prefix, transactionHash)]. *)
Definition createTransactionPrefix (prefix : TransactionPrefix) (transactionHash : list Z) : outcome TransactionPrefixImpl :=
  '(_, fields) ← Extra.parse (extra prefix);
  Ok {| m_txPrefix := prefix; m_extra := fields; m_txHash := transactionHash |}.

(** [createTransactionPrefix(fullTransaction)]. *)
Definition createTransactionPrefix_full (tx : Transaction) : outcome TransactionPrefixImpl :=
  '(_, h, _) ← getObjectHash fast_hash (@serialize_Transaction) tx;
  createTransactionPrefix (prefix tx) h.

#[export] Instance TransactionPrefixImpl_reader : ITransactionReader TransactionPrefixImpl := {|
  getTransactionHash t := Ok (m_txHash t);
  getTransactionPublicKey t := default NULL_HASH (Extra.getPublicKey (m_extra t));
  getUnlockTime t := unlockTime (m_txPrefix t);
  getPaymentId t := payment_id_of (m_extra t);
  getExtraNonce t := Extra.getNonce (m_extra t);
  getExtra t := extra (m_txPrefix t);
  getInputCount t := zlen (inputs (m_txPrefix t));
  getInputTotalAmount t := prefix_InputTotalAmount (m_txPrefix t);
  getInputType t i := o ← getInputChecked (m_txPrefix t) i; Ok (getTransactionInputType o);
  getInput_Key t := prefix_KeyInput (m_txPrefix t);
  getInput_Multisignature t := prefix_MultisignatureInput (m_txPrefix t);
  getOutputCount t := zlen (outputs (m_txPrefix t));
  getOutputTotalAmount t := prefix_OutputTotalAmount (m_txPrefix t);
  getOutputType t i := o ← getOutputChecked (m_txPrefix t) i; Ok (getTransactionOutputType (target o));
  getOutput_Key t := prefix_KeyOutput (m_txPrefix t);
  getOutput_Multisignature t := prefix_MultisignatureOutput (m_txPrefix t);
|}.

Definition prefix_hash (tx : TransactionPrefix) : outcome (list Z) :=
  '(_, h, _) ← getObjectHash fast_hash (@serialize_TransactionPrefix) tx; Ok h.
End PrefixImpl.

(** * Transactions under construction: class [TransactionImpl] *)

Record TransactionImpl := {
  transaction : Transaction;
  secretKey : option (list Z);
  transactionHash : option (list Z);
  ti_extra : list TransactionExtraField;
}.

Record GlobalOutput := { targetKey : list Z; go_outputIndex : Z }.
Record OutputKeyInfo := { oki_transactionPublicKey : list Z; oki_transactionIndex : Z; oki_outputInTransaction : Z }.
Record InputKeyInfo := { ik_amount : Z; ik_outputs : list GlobalOutput; realOutput : OutputKeyInfo }.

(** Assignments to the members of [transaction]. *)
Definition with_prefix (tx : Transaction) (p : TransactionPrefix) : Transaction :=
  {| prefix := p; signatures := signatures tx |}.
Definition upd_unlockTime (t : Z) (p : TransactionPrefix) : TransactionPrefix :=
  {| version := version p; unlockTime := t; inputs := inputs p; outputs := outputs p; extra := extra p |}.
Definition upd_version (v : Z) (p : TransactionPrefix) : TransactionPrefix :=
  {| version := v; unlockTime := unlockTime p; inputs := inputs p; outputs := outputs p; extra := extra p |}.
Definition upd_extra (e : list Z) (p : TransactionPrefix) : TransactionPrefix :=
  {| version := version p; unlockTime := unlockTime p; inputs := inputs p; outputs := outputs p; extra := e |}.
Definition append_input (i : TransactionInput) (p : TransactionPrefix) : TransactionPrefix :=
  {| version := version p; unlockTime := unlockTime p; inputs := inputs p ++ [i]; outputs := outputs p; extra := extra p |}.
Definition append_output (o : TransactionOutput) (p : TransactionPrefix) : TransactionPrefix :=
  {| version := version p; unlockTime := unlockTime p; inputs := inputs p; outputs := outputs p ++ [o]; extra := extra p |}.

Definition with_transaction (t : TransactionImpl) (tx : Transaction) : TransactionImpl :=
  {| transaction := tx; secretKey := secretKey t; transactionHash := transactionHash t; ti_extra := ti_extra t |}.
Definition with_fields (t : TransactionImpl) (fields : list TransactionExtraField) : TransactionImpl :=
  {| transaction := transaction t; secretKey := secretKey t; transactionHash := transactionHash t; ti_extra := fields |}.
Definition with_hash (t : TransactionImpl) (h : option (list Z)) : TransactionImpl :=
  {| transaction := transaction t; secretKey := secretKey t; transactionHash := h; ti_extra := ti_extra t |}.
Definition invalidateHash (t : TransactionImpl) : TransactionImpl := with_hash t None.

Definition checkIfSigning (t : TransactionImpl) : outcome unit :=
  match signatures (transaction t) with [] => Ok tt | _ :: _ => Throw runtime_error end.

Definition txSecretKey (t : TransactionImpl) : outcome (list Z) :=
  match secretKey t with Some k => Ok k | None => Throw runtime_error end.

(** A change of the prefix by a writer: refused once there are signatures, and
    followed by [invalidateHash]. *)
Definition change_prefix (f : TransactionPrefix -> TransactionPrefix) (t : TransactionImpl) : outcome TransactionImpl :=
  _ ← checkIfSigning t;
  Ok (invalidateHash (with_transaction t (with_prefix (transaction t) (f (prefix (transaction t)))))).

Definition tx_prefix (t : TransactionImpl) : TransactionPrefix := prefix (transaction t).
Definition last_input (t : TransactionImpl) : Z := zlen (inputs (tx_prefix t)) - 1.
Definition output_count (t : TransactionImpl) : Z := zlen (outputs (tx_prefix t)).

Section Impl.
Context {B : BuildConfig} {C : KeyCrypto}.

(** The constructors; the key pair that [generateKeyPair] draws is an argument. *)
Definition TransactionImpl_new (txKeys : KeyPair) : outcome TransactionImpl :=
  let fields := Extra.set (ExtraPublicKey (kp_publicKey txKeys)) [] in
  e ← Extra.serialize fields;
  Ok {| transaction := {| prefix := {| version := TRANSACTION_VERSION_1; unlockTime := 0; inputs := []; outputs := []; extra := e |};
                          signatures := [] |};
        secretKey := Some (kp_secretKey txKeys); transactionHash := None; ti_extra := fields |}.

Definition default_Transaction : Transaction :=
  {| prefix := {| version := 0; unlockTime := 0; inputs := []; outputs := []; extra := [] |}; signatures := [] |}.

Definition TransactionImpl_of_blob (ba : list Z) : outcome TransactionImpl :=
  r ← fromBinaryArray (@serialize_Transaction) default_Transaction ba;
  match r with
  | None => Throw runtime_error
  | Some tx =>
      '(_, fields) ← Extra.parse (tx_extra tx);
      Ok {| transaction := tx; secretKey := None; transactionHash := Some (getBinaryArrayHash fast_hash ba); ti_extra := fields |}
  end.

Definition TransactionImpl_of_tx (tx : Transaction) : outcome TransactionImpl :=
  '(_, fields) ← Extra.parse (tx_extra tx);
  Ok {| transaction := tx; secretKey := None; transactionHash := None; ti_extra := fields |}.

(** The hash is computed once and kept. *)
Definition TransactionImpl_getTransactionHash (t : TransactionImpl) : outcome (list Z * TransactionImpl) :=
  match transactionHash t with
  | Some h => Ok (h, t)
  | None =>
      '(_, h, _) ← getObjectHash fast_hash (@serialize_Transaction) (transaction t);
      Ok (h, with_hash t (Some h))
  end.

Definition getTransactionPrefixHash (t : TransactionImpl) : outcome (list Z) := prefix_hash (tx_prefix t).

#[export] Instance TransactionImpl_reader : ITransactionReader TransactionImpl := {|
  getTransactionHash t := fst <$> TransactionImpl_getTransactionHash t;
  getTransactionPublicKey t := default NULL_HASH (Extra.getPublicKey (ti_extra t));
  getUnlockTime t := unlockTime (tx_prefix t);
  getPaymentId t := payment_id_of (ti_extra t);
  getExtraNonce t := Extra.getNonce (ti_extra t);
  getExtra t := extra (tx_prefix t);
  getInputCount t := zlen (inputs (tx_prefix t));
  getInputTotalAmount t := prefix_InputTotalAmount (tx_prefix t);
  getInputType t i := o ← getInputChecked (tx_prefix t) i; Ok (getTransactionInputType o);
  getInput_Key t := prefix_KeyInput (tx_prefix t);
  getInput_Multisignature t := prefix_MultisignatureInput (tx_prefix t);
  getOutputCount t := zlen (outputs (tx_prefix t));
  getOutputTotalAmount t := prefix_OutputTotalAmount (tx_prefix t);
  getOutputType t i := o ← getOutputChecked (tx_prefix t) i; Ok (getTransactionOutputType (target o));
  getOutput_Key t := prefix_KeyOutput (tx_prefix t);
  getOutput_Multisignature t := prefix_MultisignatureOutput (tx_prefix t);
|}.

Definition setUnlockTime (t : TransactionImpl) (unlockTime : Z) : outcome TransactionImpl :=
  change_prefix (upd_unlockTime unlockTime) t.

Definition getTransactionSecretKey (t : TransactionImpl) : option (list Z) := secretKey t.

Definition setTransactionSecretKey (t : TransactionImpl) (key : list Z) : outcome TransactionImpl :=
  pk ← out_param (secret_key_to_public_key key);
  txPubKey ← out_param (Extra.getPublicKey (ti_extra t));
  if decide (txPubKey = pk)
  then Ok {| transaction := transaction t; secretKey := Some key; transactionHash := transactionHash t; ti_extra := ti_extra t |}
  else Throw runtime_error.

Definition addInput_Key (t : TransactionImpl) (input : KeyInput) : outcome (Z * TransactionImpl) :=
  t ← change_prefix (append_input (InKey input)) t; Ok (last_input t, t).

(** The ephemeral keys are a result; the verdict of the helper is not looked
    at. *)
Definition addInput_account (t : TransactionImpl) (senderKeys : AccountKeys) (info : InputKeyInfo)
  : outcome (Z * KeyPair * TransactionImpl) :=
  _ ← checkIfSigning t;
  r ← generate_key_image_helper senderKeys (oki_transactionPublicKey (realOutput info)) (oki_outputInTransaction (realOutput info));
  '(ephKeys, image) ← out_param r;
  '(i, t) ← addInput_Key t {| ki_amount := ik_amount info;
    outputIndexes := absolute_output_offsets_to_relative (map go_outputIndex (ik_outputs info)); keyImage := image |};
  Ok (i, ephKeys, t).

Definition addInput_Multisignature (t : TransactionImpl) (input : MultisignatureInput) : outcome (Z * TransactionImpl) :=
  t ← change_prefix (fun p => upd_version TRANSACTION_VERSION_2 (append_input (InMultisignature input) p)) t; Ok (last_input t, t).

Definition addOutput_address (t : TransactionImpl) (amount : Z) (to : AccountPublicAddress) : outcome (Z * TransactionImpl) :=
  _ ← checkIfSigning t;
  txKey ← txSecretKey t;
  key ← derivePublicKey to txKey (output_count t);
  t ← change_prefix (append_output {| out_amount := amount; target := OutKey {| ko_key := key |} |}) t;
  Ok (output_count t - 1, t).

Fixpoint derivePublicKeys (to : list AccountPublicAddress) (txKey : list Z) (outputIndex : Z) : outcome (list (list Z)) :=
  match to with
  | [] => Ok []
  | a :: to => k ← derivePublicKey a txKey outputIndex; ks ← derivePublicKeys to txKey outputIndex; Ok (k :: ks)
  end.

Definition addOutput_addresses (t : TransactionImpl) (amount : Z) (to : list AccountPublicAddress) (requiredSignatures term : Z)
  : outcome (Z * TransactionImpl) :=
  _ ← checkIfSigning t;
  txKey ← txSecretKey t;
  let outputIndex := output_count t in
  keys ← derivePublicKeys to txKey outputIndex;
  t ← change_prefix (fun p => upd_version TRANSACTION_VERSION_2 (append_output
        {| out_amount := amount; target := OutMultisignature
             {| mo_keys := keys; requiredSignatureCount := requiredSignatures; mo_term := term |} |} p)) t;
  Ok (outputIndex, t).

Definition addOutput_Key (t : TransactionImpl) (amount : Z) (out : KeyOutput) : outcome (Z * TransactionImpl) :=
  let outputIndex := output_count t in
  t ← change_prefix (append_output {| out_amount := amount; target := OutKey out |}) t; Ok (outputIndex, t).

(** Unlike the overload with addresses it leaves the version as it is. *)
Definition addOutput_Multisignature (t : TransactionImpl) (amount : Z) (out : MultisignatureOutput) : outcome (Z * TransactionImpl) :=
  let outputIndex := output_count t in
  t ← change_prefix (append_output {| out_amount := amount; target := OutMultisignature out |}) t; Ok (outputIndex, t).

(** [getSignatures(input)]: the signatures resized to the number of inputs, when
    the index is in range. *)
Definition getSignatures (t : TransactionImpl) (input : Z) : outcome (list (list (list Z))) :=
  let sigs := signatures (transaction t) in
  let n := length (inputs (tx_prefix t)) in
  let sigs := if (length sigs <? n)%nat then sigs ++ replicate (n - length sigs) [] else sigs in
  if zlen sigs <=? input then Throw runtime_error else Ok sigs.

Definition set_signatures (t : TransactionImpl) (sigs : list (list (list Z))) : TransactionImpl :=
  invalidateHash (with_transaction t {| prefix := tx_prefix t; signatures := sigs |}).

Definition signInputKey (rnd : list Z) (t : TransactionImpl) (index : Z) (info : InputKeyInfo) (ephKeys : KeyPair) : outcome TransactionImpl :=
  i ← getInputChecked_typed (tx_prefix t) index InputTypeKey;
  input ← get_KeyInput i;
  prefixHash ← getTransactionPrefixHash t;
  let keys := map targetKey (ik_outputs info) in
  let sigs := generate_ring_signature rnd prefixHash (keyImage input) keys (kp_secretKey ephKeys) (oki_transactionIndex (realOutput info)) in
  all ← getSignatures t index;
  Ok (set_signatures t (<[Z.to_nat index := sigs]> all)).

Definition signInputMultisignature (rnd : list Z) (t : TransactionImpl) (index : Z) (ephemeralKeys : KeyPair) : outcome TransactionImpl :=
  txPrefixHash ← getTransactionPrefixHash t;
  let signature := generate_signature rnd txPrefixHash (kp_publicKey ephemeralKeys) (kp_secretKey ephemeralKeys) in
  all ← getSignatures t index;
  Ok (set_signatures t (alter (fun s => s ++ [signature]) (Z.to_nat index) all)).

Definition signInputMultisignature_account (rnd : list Z) (t : TransactionImpl) (index : Z) (sourceTransactionKey : list Z)
    (outputIndex : Z) (accountKeys : AccountKeys) : outcome TransactionImpl :=
  derivation ← out_param (generate_key_derivation sourceTransactionKey (viewSecretKey accountKeys));
  pk ← out_param (derive_public_key derivation outputIndex (spendPublicKey (address accountKeys)));
  let sk := derive_secret_key derivation outputIndex (spendSecretKey accountKeys) in
  signInputMultisignature rnd t index {| kp_publicKey := pk; kp_secretKey := sk |}.

Definition getTransactionData (t : TransactionImpl) : outcome (list Z) :=
  r ← toBinaryArray (@serialize_Transaction) (transaction t); Ok (default [] r).

Definition setExtraNonce (t : TransactionImpl) (nonce : list Z) : outcome TransactionImpl :=
  _ ← checkIfSigning t;
  let fields := Extra.set (ExtraNonce nonce) (ti_extra t) in
  e ← Extra.serialize fields;
  Ok (invalidateHash (with_transaction (with_fields t fields) (with_prefix (transaction t) (upd_extra e (tx_prefix t))))).

Definition setPaymentId (t : TransactionImpl) (hash : list Z) : outcome TransactionImpl :=
  _ ← checkIfSigning t;
  setExtraNonce t (setPaymentIdToTransactionExtraNonce hash).

(** Neither the hash nor the parsed fields are updated. *)
Definition appendExtra (t : TransactionImpl) (extraData : list Z) : outcome TransactionImpl :=
  _ ← checkIfSigning t;
  Ok (with_transaction t (with_prefix (transaction t) (upd_extra (extra (tx_prefix t) ++ extraData) (tx_prefix t)))).

Definition getRequiredSignaturesCount (t : TransactionImpl) (index : Z) : outcome Z :=
  i ← getInputChecked (tx_prefix t) index; Ok (getRequiredSignaturesCount_input i).

Definition validateInputs (t : TransactionImpl) : bool := prefix_validateInputs (tx_prefix t).

Definition validateOutputs (t : TransactionImpl) : outcome bool :=
  valid ← check_outs_valid is_valid_key (tx_prefix t) false;
  Ok (valid && check_outs_overflow (tx_prefix t)).

Fixpoint enough_signatures (ins : list TransactionInput) (sigs : list (list (list Z))) : bool :=
  match ins, sigs with
  | [], _ => true
  | i :: ins, s :: sigs => if zlen s <? getRequiredSignaturesCount_input i then false else enough_signatures ins sigs
  | _ :: _, [] => false
  end.
Definition validateSignatures (t : TransactionImpl) : bool :=
  if zlen (signatures (transaction t)) <? zlen (inputs (tx_prefix t)) then false
  else enough_signatures (inputs (tx_prefix t)) (signatures (transaction t)).
End Impl.

(** * Properties of [TransactionImpl] *)

Section ImplTheory.
Context {B : BuildConfig} {C : KeyCrypto}.

(** The operations of a transaction under construction that keep its hash up to
    date: every one except [appendExtra]. *)
Inductive impl_step (t : TransactionImpl) : TransactionImpl -> Prop :=
| step_hash h t' : TransactionImpl_getTransactionHash t = Ok (h, t') -> impl_step t t'
| step_unlockTime x t' : setUnlockTime t x = Ok t' -> impl_step t t'
| step_secretKey k t' : setTransactionSecretKey t k = Ok t' -> impl_step t t'
| step_input_key i n t' : addInput_Key t i = Ok (n, t') -> impl_step t t'
| step_input_account keys info n e t' : addInput_account t keys info = Ok (n, e, t') -> impl_step t t'
| step_input_multisignature i n t' : addInput_Multisignature t i = Ok (n, t') -> impl_step t t'
| step_output_address a to n t' : addOutput_address t a to = Ok (n, t') -> impl_step t t'
| step_output_addresses a to r term n t' : addOutput_addresses t a to r term = Ok (n, t') -> impl_step t t'
| step_output_key a o n t' : addOutput_Key t a o = Ok (n, t') -> impl_step t t'
| step_output_multisignature a o n t' : addOutput_Multisignature t a o = Ok (n, t') -> impl_step t t'
| step_nonce n t' : setExtraNonce t n = Ok t' -> impl_step t t'
| step_payment_id h t' : setPaymentId t h = Ok t' -> impl_step t t'
| step_sign_key rnd i info e t' : signInputKey rnd t i info e = Ok t' -> impl_step t t'
| step_sign_multisignature rnd i e t' : signInputMultisignature rnd t i e = Ok t' -> impl_step t t'
| step_sign_account rnd i k o a t' : signInputMultisignature_account rnd t i k o a = Ok t' -> impl_step t t'.

Inductive any_step (t : TransactionImpl) : TransactionImpl -> Prop :=
| any_impl t' : impl_step t t' -> any_step t t'
| any_append d t' : appendExtra t d = Ok t' -> any_step t t'.

(** The three ways a transaction object comes into being. *)
Inductive impl_start : TransactionImpl -> Prop :=
| start_new keys t : TransactionImpl_new keys = Ok t -> impl_start t
| start_blob ba t : bytes_ok ba -> TransactionImpl_of_blob ba = Ok t -> impl_start t
| start_tx tx t : signatures tx = [] -> TransactionImpl_of_tx tx = Ok t -> impl_start t.

(** A signature made for the hash [h]. *)
Definition made_for (h s : list Z) : Prop :=
  (exists rnd pk sk, s = generate_signature rnd h pk sk) \/
  (exists rnd image keys sk n, s ∈ generate_ring_signature rnd h image keys sk n).

Definition signs_prefix (t : TransactionImpl) : Prop :=
  forall l s, l ∈ signatures (transaction t) -> s ∈ l -> exists h, prefix_hash (tx_prefix t) = Ok h /\ made_for h s.

Definition hash_fresh (t : TransactionImpl) : Prop :=
  forall h, transactionHash t = Some h ->
  exists r n, getObjectHash fast_hash (@serialize_Transaction) (transaction t) = Ok (r, h, n).

(** What a step does: it keeps the transaction, or changes the prefix of an
    unsigned one, or adds signatures of the present prefix. *)
Definition step_kind (t t' : TransactionImpl) : Prop :=
  (transaction t' = transaction t /\ (transactionHash t' = transactionHash t \/ hash_fresh t')) \/
  (transactionHash t' = None /\ signatures (transaction t) = [] /\ signatures (transaction t') = []) \/
  (transactionHash t' = None /\ tx_prefix t' = tx_prefix t /\
   forall l s, l ∈ signatures (transaction t') -> s ∈ l ->
     (exists l0, l0 ∈ signatures (transaction t) /\ s ∈ l0) \/ exists h, prefix_hash (tx_prefix t) = Ok h /\ made_for h s).

Lemma change_prefix_kind f t t' : change_prefix f t = Ok t' -> step_kind t t'.
Proof.
  unfold change_prefix, checkIfSigning. intros H. destruct (signatures (transaction t)) eqn:E; [|discriminate H]. injection H as <-.
  right; left. by rewrite E.
Qed.

Lemma getSignatures_from t i all l :
  getSignatures t i = Ok all -> l ∈ all -> l = [] \/ l ∈ signatures (transaction t).
Proof.
  unfold getSignatures. intros E Hl.
  match type of E with (if ?c then _ else _) = _ => destruct c; [done|] end. injection E as <-. case_in Hl; [|by right].
  apply elem_of_app in Hl as [?|[-> _]%elem_of_replicate]; [by right|by left].
Qed.

Lemma sign_kind t i all f (sig : list (list Z)) :
  getSignatures t i = Ok all ->
  (forall l s, s ∈ f l -> s ∈ l \/ s ∈ sig) ->
  (forall s, s ∈ sig -> exists h, prefix_hash (tx_prefix t) = Ok h /\ made_for h s) ->
  step_kind t (set_signatures t (alter f (Z.to_nat i) all)).
Proof.
  intros E Hf Hs. right; right. split_and!; [done..|]. cbn. intros l s Hl Hsl.
  apply list_elem_of_lookup in Hl as [j Hj].
  assert (H : exists l0, l0 ∈ all /\ (l = l0 \/ l = f l0)).
  { destruct (decide (j = Z.to_nat i)) as [->|Hn].
    - rewrite list_lookup_alter_eq in Hj. destruct (all !! Z.to_nat i) as [l0|] eqn:E0; [|done]. injection Hj as <-.
      exists l0. split; [by eapply list_elem_of_lookup_2|by right].
    - rewrite list_lookup_alter_ne in Hj by done. exists l. split; [by eapply list_elem_of_lookup_2|by left]. }
  destruct H as (l0 & Hin & Hl). assert (s ∈ l0 \/ s ∈ sig) as [H|H].
  { destruct Hl as [->| ->]; [by left|by apply Hf]. }
  - left. destruct (getSignatures_from _ _ _ _ E Hin) as [->|]; [by apply elem_of_nil in H|by exists l0].
  - right. by apply Hs.
Qed.

Lemma setExtraNonce_kind t n t' : setExtraNonce t n = Ok t' -> step_kind t t'.
Proof.
  unfold setExtraNonce, checkIfSigning. intros H. destruct (signatures (transaction t)) eqn:E; [|discriminate H].
  apply bind_Ok in H as (_ & _ & H). apply bind_Ok in H as (e & _ & [= <-]). right; left. cbn. by rewrite E.
Qed.

Lemma signInputMultisignature_kind rnd t i e t' : signInputMultisignature rnd t i e = Ok t' -> step_kind t t'.
Proof.
  unfold signInputMultisignature. intros H. apply bind_Ok in H as (h & Hh & H). apply bind_Ok in H as (all & Ha & [= <-]).
  eapply (sign_kind _ _ _ _ [_]); [exact Ha|intros l s Hs; by apply elem_of_app in Hs|].
  intros s ->%list_elem_of_singleton. exists h. split; [done|left; eauto].
Qed.

Lemma step_kinds t t' : impl_step t t' -> step_kind t t'.
Proof.
  destruct 1 as [h ? H|? ? H|? ? H|? ? ? H|? ? ? ? ? H|? ? ? H|? ? ? ? H|? ? ? ? ? ? H|? ? ? ? H|? ? ? ? H|? ? H|? ? H|rnd i info e ? H|? ? ? ? H|? ? ? ? ? ? H].
  - left. unfold TransactionImpl_getTransactionHash in H. destruct (transactionHash t) eqn:Eh.
    + injection H as <- <-. auto.
    + apply bind_Ok in H as ([[r h'] n] & Hr & H). injection H as <- <-. split; [done|right]. intros k [= <-]. cbn. eauto.
  - by eapply change_prefix_kind.
  - left. unfold setTransactionSecretKey in H. apply bind_Ok in H as (pk & _ & H). apply bind_Ok in H as (pk' & _ & H).
    case_in H; simplify_eq. auto.
  - apply bind_Ok in H as (? & H & [= <- <-]). by eapply change_prefix_kind.
  - apply bind_Ok in H as (? & _ & H). apply bind_Ok in H as (? & _ & H). apply bind_Ok in H as ([? ?] & _ & H).
    apply bind_Ok in H as ([? ?] & H & [= <- <- <-]). apply bind_Ok in H as (? & H & [= <- <-]). by eapply change_prefix_kind.
  - apply bind_Ok in H as (? & H & [= <- <-]). by eapply change_prefix_kind.
  - do 3 apply bind_Ok in H as (? & _ & H). apply bind_Ok in H as (? & H & [= <- <-]). by eapply change_prefix_kind.
  - do 3 apply bind_Ok in H as (? & _ & H). apply bind_Ok in H as (? & H & [= <- <-]). by eapply change_prefix_kind.
  - apply bind_Ok in H as (? & H & [= <- <-]). by eapply change_prefix_kind.
  - apply bind_Ok in H as (? & H & [= <- <-]). by eapply change_prefix_kind.
  - by eapply setExtraNonce_kind.
  - apply bind_Ok in H as (? & _ & H). by eapply setExtraNonce_kind.
  - unfold signInputKey in H. do 2 apply bind_Ok in H as (? & _ & H). apply bind_Ok in H as (h & Hh & H).
    apply bind_Ok in H as (all & Ha & [= <-]).
    match goal with |- step_kind _ (set_signatures _ (<[_ := ?s]> _)) => set (sig := s) end.
    replace (<[Z.to_nat i:=sig]> all) with (alter (fun _ => sig) (Z.to_nat i) all).
    2: { apply list_eq. intros j. destruct (decide (j = Z.to_nat i)) as [->|].
         - rewrite list_lookup_alter_eq. destruct (all !! Z.to_nat i) eqn:E.
           + rewrite list_lookup_insert_eq; [done|]. by eapply lookup_lt_Some.
           + by rewrite list_insert_ge, E by by apply lookup_ge_None.
         - by rewrite list_lookup_alter_ne, list_lookup_insert_ne. }
    eapply (sign_kind _ _ _ _ sig); [exact Ha|by right|]. intros s Hs. exists h. split; [done|right; eauto 8].
  - by eapply signInputMultisignature_kind.
  - do 2 apply bind_Ok in H as (? & _ & H). by eapply signInputMultisignature_kind.
Qed.

Lemma appendExtra_kind t d t' :
  appendExtra t d = Ok t' -> signatures (transaction t) = [] /\ signatures (transaction t') = [].
Proof.
  unfold appendExtra, checkIfSigning. intros H. destruct (signatures (transaction t)) eqn:E; [|discriminate H].
  injection H as <-. cbn. by rewrite E.
Qed.

Lemma signs_prefix_unsigned t : signatures (transaction t) = [] -> signs_prefix t.
Proof. intros E l s Hl. rewrite E in Hl. by apply elem_of_nil in Hl. Qed.

Lemma any_step_signs t t' : any_step t t' -> signs_prefix t -> signs_prefix t'.
Proof.
  destruct 1 as [t' [ [E _]|[(_ & _ & E)|(_ & E & H)]]%step_kinds|d t' [_ E]%appendExtra_kind]; intros HI.
  - intros l s. unfold tx_prefix. rewrite E. apply HI.
  - by apply signs_prefix_unsigned.
  - intros l s Hl Hs. rewrite E. destruct (H l s Hl Hs) as [(l0 & H0 & Hs0)|]; [|done]. by apply (HI l0).
  - by apply signs_prefix_unsigned.
Qed.

Lemma impl_step_fresh t t' : impl_step t t' -> hash_fresh t -> hash_fresh t'.
Proof.
  intros [ [E [Eh|?] ]|[ (E & _)|(E & _)] ]%step_kinds HI; [|done|intros h Hh; congruence..].
  intros h. unfold hash_fresh in HI. rewrite Eh, E. apply HI.
Qed.

Lemma start_fresh t : impl_start t -> hash_fresh t.
Proof.
  destruct 1 as [keys t H|ba t Hb H|tx t _ H].
  - apply bind_Ok in H as (e & _ & [= <-]). by intros h [=].
  - unfold TransactionImpl_of_blob in H. destruct (whole_object _ _ _ codec_Transaction) as (W & _ & T).
    destruct (T default_Transaction ba Hb) as ([tx|] & E & HS); rewrite E in H; [|discriminate H].
    destruct (HS tx eq_refl) as [Hw ->]. apply bind_Ok in H as ([? ?] & [= <-] & H) || cbn [mbind outcome_bind] in H.
    apply bind_Ok in H as ([? fields] & _ & [= <-]). intros h [= <-]. cbn. unfold getObjectHash. rewrite (W _ Hw). cbn. eauto.
  - apply bind_Ok in H as ([? fields] & _ & [= <-]). by intros h [=].
Qed.

(** C28.  The cached transaction hash is never stale: in every state of a
    transaction object reached from any constructor by any sequence of the
    operations of [ITransaction] other than [appendExtra],
    [getTransactionHash] returns the hash of the present transaction. *)
Theorem transaction_hash_fresh (t0 t t' : TransactionImpl) (h : list Z) :
  impl_start t0 -> rtc impl_step t0 t -> TransactionImpl_getTransactionHash t = Ok (h, t') ->
  exists r n, getObjectHash fast_hash (@serialize_Transaction) (transaction t) = Ok (r, h, n).
Proof.
  intros H0 Hr E. assert (HF : hash_fresh t).
  { clear E. apply start_fresh in H0. induction Hr as [|? ? ? Hs _ IH]; [done|]. by eapply IH, impl_step_fresh. }
  unfold TransactionImpl_getTransactionHash in E. destruct (transactionHash t) as [k|] eqn:Ek.
  - injection E as <- <-. by apply HF.
  - apply bind_Ok in E as ([ [r h'] n] & Hr' & E). injection E as <- <-. eauto.
Qed.

(** C29.  Signatures always sign the present transaction: for an object that starts
    without signatures (not one built from a signed transaction), whatever is done
    to the object in whatever order, every signature it holds was made for the
    hash of its present prefix. *)
Theorem signatures_sign_prefix (t0 t : TransactionImpl) (l : list (list Z)) (s : list Z) :
  signatures (transaction t0) = [] -> rtc any_step t0 t ->
  l ∈ signatures (transaction t) -> s ∈ l ->
  exists h, prefix_hash (tx_prefix t) = Ok h /\ made_for h s.
Proof.
  intros H0 Hr. revert l s. change (signs_prefix t). apply signs_prefix_unsigned in H0.
  induction Hr as [|? ? ? Hs _ IH]; [done|]. by eapply IH, any_step_signs.
Qed.

(** Fields without padding can be written in any order. *)
Definition no_padding (f : TransactionExtraField) : Prop := match f with ExtraPadding _ => False | _ => True end.

Lemma no_padding_last fields : Forall no_padding fields -> padding_last fields.
Proof. induction 1 as [|f [|g fields] Hf _ IH]; [done..|]. split; [by destruct f|done]. Qed.

Lemma write_all_spec e fields : Forall wf_field fields -> Extra.write_all e fields = Ok (e ++ enc_items enc_field fields).
Proof.
  intros HF. revert e. induction HF as [|f fields Hf _ IH]; intros e; cbn [Extra.write_all].
  { by rewrite app_nil_r. }
  rewrite (write_field_spec e f Hf). cbn [mbind outcome_bind]. by rewrite IH, <- app_assoc.
Qed.

Lemma set_Forall (P : TransactionExtraField -> Prop) f fields : P f -> Forall P fields -> Forall P (Extra.set f fields).
Proof.
  intros Hf. induction 1 as [|g fields Hg HF IH]; cbn; [by constructor|].
  destruct (Extra.same_alternative f g); by constructor.
Qed.

Lemma set_nonce n fields : Extra.getNonce (Extra.set (ExtraNonce n) fields) = Some n.
Proof. unfold Extra.getNonce. by induction fields as [|[] fields IH]. Qed.

Lemma set_nonce_key n fields : Extra.getPublicKey (Extra.set (ExtraNonce n) fields) = Extra.getPublicKey fields.
Proof. unfold Extra.getPublicKey. by induction fields as [|[] fields IH]. Qed.

(** A payment id set on a transaction under construction is found again: on
    the object itself, and by whoever parses the extra bytes of the transaction
    it has become, together with the transaction public key it had. *)
Theorem payment_id_set_get (t : TransactionImpl) (id hash : list Z) :
  signatures (transaction t) = [] -> Forall wf_field (ti_extra t) -> Forall no_padding (ti_extra t) -> is_pod 32 id ->
  exists t' r, setPaymentId t id = Ok t' /\ getPaymentId t' = Some id /\
    createTransactionPrefix (tx_prefix t') hash = Ok r /\ getPaymentId r = Some id /\
    getTransactionPublicKey r = getTransactionPublicKey t.
Proof.
  intros Hs HF HP [Hl Hb].
  set (nonce := ExtraNonce (setPaymentIdToTransactionExtraNonce id)).
  assert (Hn : wf_field nonce). { cbn. unfold zlen. cbn. rewrite Hl. split; [done|]. by constructor. }
  assert (HW : Forall wf_field (Extra.set nonce (ti_extra t))) by by apply set_Forall.
  assert (HL : padding_last (Extra.set nonce (ti_extra t))) by by apply no_padding_last, set_Forall.
  assert (HG : payment_id_of (Extra.set nonce (ti_extra t)) = Some id).
  { unfold payment_id_of, nonce. rewrite set_nonce. cbn. unfold getPaymentIdFromTransactionExtraNonce, zlen. cbn. by rewrite Hl. }
  do 2 eexists. split_and!.
  - unfold setPaymentId, setExtraNonce, checkIfSigning. rewrite Hs. cbn [mbind outcome_bind].
    unfold Extra.serialize. fold nonce. rewrite (write_all_spec [] _ HW). cbn [mbind outcome_bind]. reflexivity.
  - exact HG.
  - unfold createTransactionPrefix, Extra.parse. cbn [tx_prefix with_transaction with_fields invalidateHash with_hash transaction prefix with_prefix upd_extra extra].
    rewrite (parse_write _ HW HL). cbn [mbind outcome_bind]. reflexivity.
  - exact HG.
  - unfold nonce. cbn. by rewrite set_nonce_key.
Qed.
End ImplTheory.

(** * Witnesses *)

(** A stand-in for the primitives: derivations and keys are sums. *)
Definition toy_keys : KeyCrypto := {|
  generate_key_derivation := fun p s => Some (zip_with (fun a b => u8 (a + b)) p s);
  derive_public_key := fun d i p => Some (zip_with (fun a b => u8 (a + b + i)) d p);
  derive_secret_key := fun d i s => zip_with (fun a b => u8 (a + b + i)) d s;
  generate_key_image := fun p s => p;
  secret_key_to_public_key := fun s => Some s;
  generate_signature := fun r h p s => s ++ p;
  generate_ring_signature := fun r h i ks s n => map (fun k => k ++ h) ks;
  chacha8 := fun d k iv => d;
  fast_hash := fun l => u8 (sum_Z l) :: replicate 31 0;
  is_valid_key := fun _ => true |}.

Definition sample_keys : KeyPair := {| kp_publicKey := sample_key 5; kp_secretKey := sample_key 5 |}.
Definition sample_address : AccountPublicAddress := {| spendPublicKey := sample_key 6; viewPublicKey := sample_key 7 |}.
Definition fresh_transaction : TransactionImpl := {|
  transaction := {| prefix := {| version := 1; unlockTime := 0; inputs := []; outputs := []; extra := 1 :: sample_key 5 |}; signatures := [] |};
  secretKey := Some (sample_key 5); transactionHash := None; ti_extra := [ExtraPublicKey (sample_key 5)] |}.

Lemma fresh_transaction_new : TransactionImpl_new (B := debug_build) sample_keys = Ok fresh_transaction.
Proof. reflexivity. Qed.

Lemma transaction_hash_fresh_witness :
  exists t h t' r n, setUnlockTime fresh_transaction 9 = Ok t /\
    TransactionImpl_getTransactionHash (B := debug_build) (C := toy_keys) t = Ok (h, t') /\
    getObjectHash (B := debug_build) (fast_hash (KeyCrypto := toy_keys)) (@serialize_Transaction) (transaction t) = Ok (r, h, n).
Proof.
  set (t := invalidateHash (with_transaction fresh_transaction (with_prefix (transaction fresh_transaction)
              (upd_unlockTime 9 (tx_prefix fresh_transaction))))).
  assert (E : TransactionImpl_getTransactionHash (B := debug_build) (C := toy_keys) t = Ok (204 :: replicate 31 0, with_hash t (Some (204 :: replicate 31 0))))
    by (vm_compute; reflexivity).
  destruct (transaction_hash_fresh (B := debug_build) (C := toy_keys) fresh_transaction t _ _
    (start_new _ _ fresh_transaction_new) (rtc_once _ _ (step_unlockTime fresh_transaction 9 t eq_refl)) E) as (r & n & Eh).
  exists t, (204 :: replicate 31 0), (with_hash t (Some (204 :: replicate 31 0))), r, n. split_and!; [reflexivity|exact E|exact Eh].
Defined.

(** [appendExtra] leaves the cached hash of the transaction before: the hash
    returned afterwards is not the hash of the transaction. *)
Lemma appendExtra_stale_hash :
  exists t1 t2 t3 h h', TransactionImpl_getTransactionHash (B := debug_build) (C := toy_keys) fresh_transaction = Ok (h, t1) /\
    appendExtra t1 [2; 1; 77] = Ok t2 /\ TransactionImpl_getTransactionHash (B := debug_build) (C := toy_keys) t2 = Ok (h, t3) /\
    (exists n, getObjectHash (B := debug_build) (fast_hash (KeyCrypto := toy_keys)) (@serialize_Transaction) (transaction t2) = Ok (true, h', n)) /\
    h <> h'.
Proof.
  do 5 eexists. split_and!; try (vm_compute; reflexivity); [eexists; vm_compute; reflexivity|vm_compute; discriminate].
Qed.

(** An object with one signed input. *)
Definition signed_transaction : outcome TransactionImpl :=
  '(i, t) ← addInput_Multisignature fresh_transaction {| mi_amount := 100; signatureCount := 1; outputIndex := 3; mi_term := 0 |};
  signInputMultisignature (B := debug_build) (C := toy_keys) [] t i sample_keys.

Lemma signatures_sign_prefix_witness :
  exists t s, signed_transaction = Ok t /\ signatures (transaction t) = [[s]] /\
  exists h, prefix_hash (B := debug_build) (C := toy_keys) (tx_prefix t) = Ok h /\ made_for (C := toy_keys) h s.
Proof.
  do 2 eexists. split_and!; [vm_compute; reflexivity|vm_compute; reflexivity|].
  eapply (signatures_sign_prefix (B := debug_build) (C := toy_keys) fresh_transaction);
    [reflexivity| |apply list_elem_of_here|apply list_elem_of_here].
  eapply rtc_l; [apply any_impl; eapply (step_input_multisignature _ {| mi_amount := 100; signatureCount := 1; outputIndex := 3; mi_term := 0 |}); vm_compute; reflexivity|].
  apply rtc_once, any_impl. eapply (step_sign_multisignature _ [] 0 sample_keys). vm_compute. reflexivity.
Defined.

Lemma payment_id_set_get_witness :
  exists t' r, setPaymentId (B := debug_build) fresh_transaction (sample_key 9) = Ok t' /\
    getPaymentId (ITransactionReader := TransactionImpl_reader (B := debug_build) (C := toy_keys)) t' = Some (sample_key 9) /\
    createTransactionPrefix (B := debug_build) (tx_prefix t') NULL_HASH = Ok r /\ getPaymentId r = Some (sample_key 9) /\
    getTransactionPublicKey r = getTransactionPublicKey (ITransactionReader := TransactionImpl_reader (B := debug_build) (C := toy_keys)) fresh_transaction.
Proof.
  apply (payment_id_set_get (B := debug_build) (C := toy_keys)); [reflexivity| | |].
  - repeat constructor; unfold is_u8; lia.
  - repeat constructor.
  - split; [done|apply Forall_replicate; unfold is_u8; lia].
Defined.
