(* ===== verification/TransactionConstruction.v ===== *)
(** The wallet's transactions are accepted by the node: [constructTransaction] of
    [CryptoNoteCore/CryptoNoteFormatUtils.cpp] against the validation of
    [Blockchain.cpp].

    What the wallet and the node rely on in [crypto/] is the record
    [ring_signatures_complete]; [Payments] shows that the functions of [crypto/]
    satisfy it. *)
From S2P Require Import Prelude Varint Stream CryptoNote Serializer Serialization TransactionExtra Currency.
From S2P Require Import BlockIndex Checkpoints UpgradeDetector TreeHash BlockchainIndices ChainState Validation TransactionApi.

Record TransactionSourceEntry := {
  se_outputs : list (Z * list Z);
  se_realOutput : Z;
  realTransactionPublicKey : list Z;
  realOutputIndexInTransaction : Z;
  se_amount : Z;
}.
Record TransactionDestinationEntry := { de_amount : Z; de_addr : AccountPublicAddress }.
Record tx_message_entry := { me_message : list Z; me_encrypt : bool; me_addr : AccountPublicAddress }.

(** The order by amount of [std::sort]; it does not fix the order of equal
    amounts, here they keep the order given. *)
Definition amount_le (d e : TransactionDestinationEntry) : Prop := de_amount d <= de_amount e.
#[export] Instance amount_le_dec : RelDecision amount_le.
Proof. intros d e. unfold amount_le. apply _. Defined.

Section Construction.
Context {B : BuildConfig} {C : KeyCrypto}.

(** One iteration of the loop over the sources: the input and the ephemeral
    keys, [None] when the function returns false. *)
Definition source_input (keys : AccountKeys) (src : TransactionSourceEntry) : outcome (option (KeyInput * KeyPair)) :=
  if zlen (se_outputs src) <=? se_realOutput src then Ok None else
  r ← generate_key_image_helper keys (realTransactionPublicKey src) (realOutputIndexInTransaction src);
  match r with
  | None => Ok None
  | Some (in_ephemeral, img) =>
      real ← vget (se_outputs src) (se_realOutput src);
      if negb (bool_decide (kp_publicKey in_ephemeral = snd real)) then Ok None else
      Ok (Some ({| ki_amount := se_amount src;
                   outputIndexes := absolute_output_offsets_to_relative (map fst (se_outputs src));
                   keyImage := img |}, in_ephemeral))
  end.

Fixpoint fill_inputs (keys : AccountKeys) (sources : list TransactionSourceEntry) (money : Z)
  : outcome (option (list (KeyInput * KeyPair) * Z)) :=
  match sources with
  | [] => Ok (Some ([], money))
  | src :: sources =>
      r ← source_input keys src;
      match r with
      | None => Ok None
      | Some i =>
          rest ← fill_inputs keys sources (u64 (money + se_amount src));
          Ok (match rest with Some (l, money) => Some (i :: l, money) | None => None end)
      end
  end.

Fixpoint fill_outputs (txSecret : list Z) (output_index : Z) (dsts : list TransactionDestinationEntry) (money : Z)
  : option (list TransactionOutput * Z) :=
  match dsts with
  | [] => Some ([], money)
  | d :: dsts =>
      if negb (0 <? de_amount d) then None else
      derivation ← generate_key_derivation (viewPublicKey (de_addr d)) txSecret;
      key ← derive_public_key derivation output_index (spendPublicKey (de_addr d));
      '(l, money) ← fill_outputs txSecret (u64 (output_index + 1)) dsts (u64 (money + de_amount d));
      Some ({| out_amount := de_amount d; target := OutKey {| ko_key := key |} |} :: l, money)
  end.

Fixpoint fill_messages (txSecret : list Z) (i : Z) (messages : list tx_message_entry) (extra : list Z) : outcome (option (list Z)) :=
  match messages with
  | [] => Ok (Some extra)
  | msg :: messages =>
      match encrypt generate_key_derivation fast_hash chacha8 i (me_message msg)
              (if me_encrypt msg then Some (me_addr msg) else None) txSecret with
      | None => Ok None
      | Some tag =>
          r ← append_message_to_extra extra tag;
          match r with None => Ok None | Some extra => fill_messages txSecret (i + 1) messages extra end
      end
  end.

(** The ring signature of each source; [rnd i] are the random numbers drawn for
    input [i]. *)
Fixpoint fill_signatures (rnd : Z -> list Z) (h : list Z) (i : Z) (sources : list TransactionSourceEntry)
    (ins : list (KeyInput * KeyPair)) : list (list (list Z)) :=
  match sources, ins with
  | src :: sources, (input, eph) :: ins =>
      generate_ring_signature (rnd i) h (keyImage input) (map snd (se_outputs src)) (kp_secretKey eph) (se_realOutput src)
      :: fill_signatures rnd h (i + 1) sources ins
  | _, _ => []
  end.

(** [constructTransaction]: the transaction and its secret key, [None] when it
    returns false.  [txkey] is the key pair drawn by [generateKeyPair]. *)
Definition constructTransaction (rnd : Z -> list Z) (txkey : KeyPair) (keys : AccountKeys) (sources : list TransactionSourceEntry)
    (destinations : list TransactionDestinationEntry) (messages : list tx_message_entry) (ttl : Z) (extra : list Z)
    (unlock_time : Z) : outcome (option (Transaction * list Z)) :=
  let e := addTransactionPublicKeyToExtra extra (kp_publicKey txkey) in
  r ← fill_inputs keys sources 0;
  match r with
  | None => Ok None
  | Some (ins, summary_inputs_money) =>
      match fill_outputs (kp_secretKey txkey) 0 (merge_sort amount_le destinations) 0 with
      | None => Ok None
      | Some (outs, summary_outs_money) =>
          if summary_inputs_money <? summary_outs_money then Ok None else
          r ← fill_messages (kp_secretKey txkey) 0 messages e;
          match r with
          | None => Ok None
          | Some e =>
              let e := if negb (ttl =? 0) then appendTTLToExtra e ttl else e in
              let p := {| version := TRANSACTION_VERSION_1; unlockTime := unlock_time;
                          inputs := map (fun i => InKey (fst i)) ins; outputs := outs; CryptoNote.extra := e |} in
              h ← prefix_hash p;
              Ok (Some ({| prefix := p; signatures := fill_signatures rnd h 0 sources ins |}, kp_secretKey txkey))
          end
      end
  end.
End Construction.

(** * Acceptance *)

Section Acceptance.
Context {B : BuildConfig} {C : KeyCrypto} {K : Crypto}.
Variable m_currency : Currency.

(** [pk] is the public key of the secret key [sk]. *)
Definition owns (pk sk : list Z) : Prop := is_pod 32 sk /\ secret_key_to_public_key sk = Some pk.
(** The keys of a ring: points, and less than 2^24 of them. *)
Definition ring_keys (pks : list (list Z)) : Prop := zlen pks < 2 ^ 24 /\ Forall (fun k => is_pod 32 k /\ check_key k = true) pks.

(** What the wallet and the node rely on in [crypto/]: hashes and derivations have 32
    bytes, derived keys belong together, a ring signature by the owner of a member
    verifies and has one part for each member, and key images are in the prime order
    subgroup. *)
Record ring_signatures_complete : Prop := {
  hash_size l : length (fast_hash l) = 32%nat;
  derivation_size p s d : generate_key_derivation p s = Some d -> length d = 32%nat;
  derive_owns d i pk sk pk' : length d = 32%nat -> is_u64 i -> owns pk sk -> derive_public_key d i pk = Some pk' -> owns pk' (derive_secret_key d i sk);
  ring_verifies rnd h pks n pk sk : length h = 32%nat -> ring_keys pks -> owns pk sk -> vget pks n = Ok pk ->
    let sigs := generate_ring_signature rnd h (generate_key_image pk sk) pks sk n in
    length sigs = length pks /\ check_ring_signature h (generate_key_image pk sk) pks sigs = true;
  image_subgroup pk sk : owns pk sk -> scalarmultKey (generate_key_image pk sk) KEYIMAGE_L = KEYIMAGE_I;
}.

(** A source the wallet prepared: its ring is listed by ascending global index and
    consists of unlocked key outputs of the amount, whose keys were checked when they
    came into the chain. *)
Definition source_ok (bc : Blockchain) (now : Z) (src : TransactionSourceEntry) : Prop :=
  Sorted Z.le (map fst (se_outputs src)) /\ Forall is_u32 (map fst (se_outputs src)) /\ ring_keys (map snd (se_outputs src)) /\
  is_u64 (realOutputIndexInTransaction src) /\
  exists vec, m_outputs (m_store bc) !! se_amount src = Some vec /\
    Forall2 (ring_member m_currency bc now vec) (map fst (se_outputs src)) (map snd (se_outputs src)).

Lemma sorted_offsets l :
  Sorted Z.le l -> Forall is_u32 l -> relative_output_offsets_to_absolute (absolute_output_offsets_to_relative l) = l.
Proof.
  intros HS HF. unfold absolute_output_offsets_to_relative.
  rewrite (Sorted_unique Z.le (merge_sort Z.le l) l); [|apply Sorted_merge_sort, _|done|apply merge_sort_Permutation].
  destruct HF as [|x l Hx Hl]; [done|]. cbn. by rewrite absolute_relative_from.
Qed.

Lemma relative_length l : length (absolute_output_offsets_to_relative l) = length l.
Proof.
  unfold absolute_output_offsets_to_relative. rewrite <- (merge_sort_Permutation Z.le l) at 2.
  destruct (merge_sort Z.le l) as [|x k]; [done|]. cbn. f_equal. revert x. induction k as [|y k IH]; intros x; [done|].
  cbn. by rewrite IH.
Qed.

Lemma scan_outputs_complete bc now vec offsets keys acc pmax :
  Forall2 (ring_member m_currency bc now vec) offsets keys ->
  exists pmax', scan_outputs m_currency bc now vec offsets acc pmax = Ok (Some (acc ++ keys), pmax').
Proof.
  intros HF. revert acc pmax. induction HF as [|i key offsets keys H HF IH]; intros acc pmax; cbn [scan_outputs].
  { exists pmax. by rewrite app_nil_r. }
  destruct H as (idx & o & e & amount & Hv & He & Ho & Hu).
  pose proof Hv as [Hi Hv']%vget_Ok. pose proof (lookup_lt_Some _ _ _ Hv').
  destruct (Z.leb_spec (zlen vec) i) as [Hz|_]; [unfold zlen in Hz; lia|]. rewrite Hv. cbn [mbind outcome_bind]. rewrite He.
  cbn [mbind outcome_bind]. pose proof Ho as [Hi2 Ho']%vget_Ok. pose proof (lookup_lt_Some _ _ _ Ho').
  destruct (Z.ltb_spec o (zlen (tx_outputs (te_tx e)))) as [_|Hz]; [|unfold zlen in Hz; lia]. cbn [negb].
  rewrite Ho. cbn [mbind outcome_bind]. unfold handle_output at 1. rewrite Hu. cbn [negb target ko_key].
  match goal with |- context [scan_outputs _ _ _ _ _ _ ?p] => destruct (IH (acc ++ [key]) p) as [m ->] end.
  exists m. by rewrite <- app_assoc.
Qed.

Lemma source_input_spec keys src i eph :
  source_input keys src = Ok (Some (i, eph)) ->
  exists pk, ki_amount i = se_amount src /\ outputIndexes i = absolute_output_offsets_to_relative (map fst (se_outputs src)) /\
    keyImage i = generate_key_image pk (kp_secretKey eph) /\
    vget (map snd (se_outputs src)) (se_realOutput src) = Ok pk /\
    exists d, generate_key_derivation (realTransactionPublicKey src) (viewSecretKey keys) = Some d /\
      derive_public_key d (realOutputIndexInTransaction src) (spendPublicKey (address keys)) = Some pk /\
      kp_secretKey eph = derive_secret_key d (realOutputIndexInTransaction src) (spendSecretKey keys).
Proof.
  unfold source_input, generate_key_image_helper. intros E. case_in E; [done|]. apply bind_Ok in E as (r & Hr & E).
  apply bind_Ok in Hr as (_ & _ & Hr). destruct (generate_key_derivation _ _) as [d|] eqn:Ed; [|by simplify_eq].
  apply bind_Ok in Hr as (_ & _ & Hr). destruct (derive_public_key _ _ _) as [pk|] eqn:Ep; [|by simplify_eq].
  injection Hr as <-. apply bind_Ok in E as ([g key] & Hv & E). cbn [kp_publicKey snd] in E.
  destruct (decide (pk = key)) as [->|Hn]; [rewrite bool_decide_true in E by done|by rewrite bool_decide_false in E by done].
  injection E as <- <-. exists key. split_and!; [done..| |by eexists].
  apply vget_Ok in Hv as [Hi Hv]. apply vget_Ok. split; [done|]. by rewrite list_lookup_fmap, Hv.
Qed.

Definition unspent (bc : Blockchain) (i : KeyInput * KeyPair) : Prop := have_tx_keyimg_as_spent bc (keyImage (fst i)) = false.

Lemma check_tx_input_complete bc now keys src i eph rnd h pmax :
  ring_signatures_complete -> length h = 32%nat -> owns (spendPublicKey (address keys)) (spendSecretKey keys) -> source_ok bc now src ->
  source_input keys src = Ok (Some (i, eph)) ->
  outputIndexes i <> [] /\
  exists pmax', check_tx_input m_currency bc now i h
    (generate_ring_signature rnd h (keyImage i) (map snd (se_outputs src)) (kp_secretKey eph) (se_realOutput src)) pmax = Ok (true, pmax').
Proof.
  intros HC Hh Hown (HS & HU & HK & HJ & vec & Hvec & HF) (pk & Ha & Ho & Hi & Hv & d & Hgen & Hd & Hs)%source_input_spec.
  assert (Hlen : length (map fst (se_outputs src)) = length (map snd (se_outputs src))) by by rewrite !length_map.
  assert (Hne : outputIndexes i <> []).
  { rewrite Ho. intros E%(f_equal length). rewrite relative_length, Hlen in E.
    apply vget_Ok in Hv as [_ Hv%lookup_lt_Some]. rewrite E in Hv. cbn in Hv. lia. }
  split; [done|]. unfold check_tx_input, scanOutputKeysForIndexes. rewrite Ha, Hvec.
  destruct (outputIndexes i) as [|x l] eqn:El; [done|]. rewrite Ho, sorted_offsets by done.
  destruct (scan_outputs_complete bc now vec _ _ [] pmax HF) as [pmax' ->]. cbn [mbind outcome_bind app].
  assert (Hw : owns pk (kp_secretKey eph)) by (rewrite Hs; eapply derive_owns; eauto using derivation_size).
  rewrite Hi. destruct (ring_verifies HC rnd h _ _ pk _ Hh HK Hw Hv) as [Hrl Hrv].
  exists pmax'. do 2 f_equal. unfold zlen. rewrite Hrl, relative_length, Hlen, !Z.eqb_refl.
  destruct (isInCheckpointZone _ _); [done|]. cbn [negb]. by rewrite bool_decide_true by by apply image_subgroup.
Qed.

Lemma fill_inputs_spec keys sources money ins total :
  fill_inputs keys sources money = Ok (Some (ins, total)) ->
  Forall2 (fun src i => source_input keys src = Ok (Some i)) sources ins /\
  total = fold_left (fun m src => u64 (m + se_amount src)) sources money.
Proof.
  revert money ins total. induction sources as [|src sources IH]; intros money ins total E; cbn [fill_inputs] in E.
  { injection E as <- <-. by split. }
  apply bind_Ok in E as ([i|] & Hi & E); [|done]. apply bind_Ok in E as ([ [l m]|] & Hl & E); [|done].
  injection E as <- <-. destruct (IH _ _ _ Hl) as [HF ->]. split; [by constructor|done].
Qed.

Lemma check_inputs_complete bc now keys rnd h sources ins done0 tx pmax :
  ring_signatures_complete -> length h = 32%nat -> owns (spendPublicKey (address keys)) (spendSecretKey keys) ->
  Forall (source_ok bc now) sources -> Forall (unspent bc) ins ->
  Forall2 (fun src i => source_input keys src = Ok (Some i)) sources ins ->
  signatures tx = done0 ++ fill_signatures rnd h (zlen done0) sources ins ->
  exists pmax', check_inputs m_currency bc now tx h (zlen done0) (map (fun i => InKey (fst i)) ins) pmax = Ok (true, pmax').
Proof.
  intros HC Hh Hown HS HN HF. revert done0 pmax HS HN.
  induction HF as [|src [i eph] sources ins Hi HF IH]; intros done0 pmax HS HN Hsig; [by exists pmax|].
  apply Forall_cons in HS as [Hs HS]. apply Forall_cons in HN as [Hn HN]. cbn [fill_signatures map fst] in *.
  set (sig := generate_ring_signature _ _ _ _ _ _) in Hsig.
  assert (Hg : vget (signatures tx) (zlen done0) = Ok sig).
  { unfold zlen. rewrite vget_nat, Hsig, lookup_app_r, Nat.sub_diag by lia. done. }
  cbn [check_inputs]. rewrite massert_true.
  2: { apply Z.ltb_lt. rewrite Hsig, zlen_app, zlen_cons. pose proof (zlen_nonneg (fill_signatures rnd h (zlen done0 + 1) sources ins)). lia. }
  cbn [mbind outcome_bind]. destruct (check_tx_input_complete bc now keys src i eph (rnd (zlen done0)) h pmax HC Hh Hown Hs Hi) as [Hne [p1 Hc]].
  destruct (outputIndexes i) eqn:Eo; [done|]. unfold unspent in Hn. cbn [fst] in Hn. rewrite Hn.
  assert (HR : forall p, exists pmax', check_inputs m_currency bc now tx h (zlen done0 + 1) (map (fun i => InKey (fst i)) ins) p = Ok (true, pmax')).
  { intros p. rewrite <- (zlen_snoc done0 sig). apply IH; [done..|]. by rewrite Hsig, zlen_snoc, <- app_assoc. }
  destruct (isInCheckpointZone _ _); [apply HR|]. rewrite Hg. cbn [mbind outcome_bind]. fold sig in Hc. rewrite Hc. cbn [mbind outcome_bind].
  apply HR.
Qed.

Lemma fill_outputs_spec txSecret k dsts money outs total :
  fill_outputs txSecret k dsts money = Some (outs, total) ->
  map out_amount outs = map de_amount dsts /\
  total = fold_left (fun m x => u64 (m + x)) (map de_amount dsts) money /\
  Forall (fun o => exists key, target o = OutKey key) outs.
Proof.
  revert k money outs total. induction dsts as [|d dsts IH]; intros k money outs total E; cbn [fill_outputs] in E.
  { injection E as <- <-. by repeat split. }
  case_in E; [done|]. apply bind_Some in E as (dv & _ & E). apply bind_Some in E as (key & _ & E).
  apply bind_Some in E as ([l m] & Hl & [= <- <-]). destruct (IH _ _ _ _ Hl) as (Hm & -> & HF). cbn. rewrite Hm.
  split_and!; [done..|]. constructor; [by eexists|done].
Qed.

Lemma fold_amounts {A} (f : A -> Z) l m : fold_left (fun m x => u64 (m + f x)) l m = fold_left (fun m x => u64 (m + x)) (map f l) m.
Proof. revert m. induction l as [|x l IH]; intros m; [done|]. apply IH. Qed.

Lemma inputs_amounts keys sources ins :
  Forall2 (fun src i => source_input keys src = Ok (Some i)) sources ins ->
  map raw_input_amount (map (fun i => InKey (fst i)) ins) = map se_amount sources.
Proof.
  induction 1 as [|src [i eph] sources ins Hi _ IH]; [done|]. cbn. rewrite IH. f_equal.
  by destruct (source_input_spec _ _ _ _ Hi) as (pk & Ha & _).
Qed.

(** What the wallet constructs the node accepts: a transaction that
    [constructTransaction] builds from rings of unlocked outputs listed by
    ascending index passes [checkTransactionInputs] and the check of its outputs
    as long as its key images are unspent, pays exactly the destinations, and
    its outputs claim no more than its inputs bring. *)
Theorem constructTransaction_accepted (bc : Blockchain) (now : Z) (rnd : Z -> list Z) (txkey : KeyPair) (keys : AccountKeys)
    (sources : list TransactionSourceEntry) (destinations : list TransactionDestinationEntry)
    (messages : list tx_message_entry) (ttl : Z) (extra : list Z) (unlock_time : Z) (tx : Transaction) (sk : list Z) (pmax : option Z) :
  ring_signatures_complete -> (forall l, fast_hash l = cn_fast_hash l) ->
  owns (spendPublicKey (address keys)) (spendSecretKey keys) ->
  Forall (source_ok bc now) sources ->
  constructTransaction rnd txkey keys sources destinations messages ttl extra unlock_time = Ok (Some (tx, sk)) ->
  (forall i, InKey i ∈ tx_inputs tx -> have_tx_keyimg_as_spent bc (keyImage i) = false) ->
  (exists m, checkTransactionInputs m_currency bc now tx pmax = Ok (true, m)) /\
  check_tx_outputs m_currency tx = true /\
  map out_amount (tx_outputs tx) ≡ₚ map de_amount destinations /\
  get_outs_money_amount tx <= get_inputs_money_amount tx.
Proof.
  intros HC Hh Hown HS E HN. unfold constructTransaction in E.
  apply bind_Ok in E as ([ [ins total]|] & Hi & E); [|done]. apply fill_inputs_spec in Hi as [HF Ht].
  destruct (fill_outputs _ _ _ _) as [ [outs paid]|] eqn:Eo; [|done]. apply fill_outputs_spec in Eo as (Ho & Hp & HT).
  destruct (Z.ltb_spec total paid) as [|Hle]; [done|]. apply bind_Ok in E as ([e|] & _ & E); [|done].
  apply bind_Ok in E as (h & Hph & [= <- <-]).
  unfold tx_inputs, tx_outputs, check_tx_outputs, get_outs_money_amount, get_inputs_money_amount, tx_inputs, tx_outputs in *.
  cbn [prefix inputs outputs signatures] in *. split_and!.
  - unfold checkTransactionInputs, prefix_hash, getObjectHash in *. cbn [prefix] in *.
    apply bind_Ok in Hph as ([ [r h'] n] & Hph & [= ->]). apply bind_Ok in Hph as (ba & Hba & Hph).
    rewrite Hba. cbn [mbind outcome_bind].
    assert (Hr : exists r n, match ba with
      | Some ba => (true, getBinaryArrayHash cn_fast_hash ba, zlen ba) | None => (false, NULL_HASH, SIZE_MAX) end = (r, h, n)).
    { unfold getBinaryArrayHash in *. destruct ba as [ba|]; injection Hph as <- <- <-; [rewrite <- Hh|]; eauto. }
    assert (H32 : length h = 32%nat) by (destruct ba as [ba|]; injection Hph as <- <- <-; [apply (hash_size HC)|done]).
    destruct Hr as (r1 & n1 & ->). unfold tx_inputs. cbn [prefix inputs].
    apply (check_inputs_complete bc now keys rnd h sources ins []); try done.
    apply Forall_forall. intros [i eph] Hin. apply HN. cbn. by apply (list_elem_of_fmap_2 (fun i : KeyInput * KeyPair => InKey (fst i)) _ (i, eph)).
  - apply forallb_forall. intros o Hin%list_elem_of_In. rewrite Forall_forall in HT. by destruct (HT _ Hin) as [key ->].
  - rewrite Ho. apply fmap_Permutation, merge_sort_Permutation.
  - rewrite (inputs_amounts keys sources ins HF), Ho. unfold sum_u64. rewrite <- Hp, <- fold_amounts, <- Ht. done.
Qed.
End Acceptance.
