(* ===== verification/TransactionPool.v ===== *)
(** The transaction pool: [CryptoNoteCore/TransactionPool.cpp] and [.h], and the
    stateless transaction checks of [CryptoNoteCore/Core.cpp] in front of it.

    [m_transactions] is a multi-index container with unique ids and an ordered
    view by priority; it is a list in the order of that view.  The blockchain is
    seen through its interface [ITransactionValidator]. *)
From stdpp Require Import gmultiset.
From S2P Require Import Prelude IntUtil CryptoNote Serializer Serialization TransactionExtra Currency BlockIndex.
From S2P Require Import TreeHash BlockchainIndices ChainState Validation Blockchain.

Record BlockInfo := { bi_height : Z; bi_id : list Z }.
Definition no_block : BlockInfo := {| bi_height := 0; bi_id := NULL_HASH |}.
Definition bi_empty (b : BlockInfo) : bool := bool_decide (bi_id b = NULL_HASH).

(** [ITransactionValidator]; the references are returned with the result. *)
Class ITransactionValidator := {
  validator_checkTransactionInputs : Transaction -> BlockInfo -> outcome (bool * BlockInfo);
  validator_recheckTransactionInputs : Transaction -> BlockInfo -> BlockInfo -> outcome (bool * BlockInfo * BlockInfo);
  validator_haveSpentKeyImages : Transaction -> bool;
  validator_checkTransactionSize : Z -> bool;
}.

Record TransactionDetails := {
  td_id : list Z;
  td_tx : Transaction;
  td_blobSize : Z;
  td_fee : Z;
  td_keptByBlock : bool;
  td_receiveTime : Z;
  td_maxUsedBlock : BlockInfo;
  td_lastFailedBlock : BlockInfo;
}.

Record tx_verification_context := {
  tvc_should_be_relayed : bool;
  tvc_verification_failed : bool;
  tvc_verification_impossible : bool;
  tvc_added_to_pool : bool;
}.
Definition tvc_fail (v : tx_verification_context) (failed : bool) : tx_verification_context :=
  {| tvc_should_be_relayed := tvc_should_be_relayed v; tvc_verification_failed := failed;
     tvc_verification_impossible := tvc_verification_impossible v; tvc_added_to_pool := tvc_added_to_pool v |}.

(** A context before anything is written to it. *)
Definition no_tvc : tx_verification_context := {|
  tvc_should_be_relayed := false; tvc_verification_failed := false; tvc_verification_impossible := false; tvc_added_to_pool := false |}.

(** [TransactionPriorityComparator]: [lhs] comes before [rhs]. *)
Definition priority (lhs rhs : TransactionDetails) : bool :=
  let '(lhs_lo, lhs_hi) := mul128 (td_fee lhs) (td_blobSize rhs) in
  let '(rhs_lo, rhs_hi) := mul128 (td_fee rhs) (td_blobSize lhs) in
  (rhs_hi <? lhs_hi)
  || ((lhs_hi =? rhs_hi) && (rhs_lo <? lhs_lo))
  || ((lhs_hi =? rhs_hi) && (lhs_lo =? rhs_lo) && (td_blobSize lhs <? td_blobSize rhs))
  || ((lhs_hi =? rhs_hi) && (lhs_lo =? rhs_lo) && (td_blobSize lhs =? td_blobSize rhs)
      && (td_receiveTime lhs <? td_receiveTime rhs)).

Notation pool_images := (gmap (list Z) (gset (list Z))).
Notation pool_outputs := (gset (Z * Z)).

Record tx_memory_pool := {
  p_spent_key_images : pool_images;
  p_spentOutputs : pool_outputs;
  p_transactions : list TransactionDetails;
  p_recentlyDeletedTransactions : gmap (list Z) Z;
  p_paymentIdIndex : PaymentIdIndex.t;
  p_timestampIndex : TimestampTransactionsIndex.t;
  p_ttlIndex : gmap (list Z) Z;
}.
Definition empty_pool : tx_memory_pool := {|
  p_spent_key_images := ∅; p_spentOutputs := ∅; p_transactions := []; p_recentlyDeletedTransactions := ∅;
  p_paymentIdIndex := ∅; p_timestampIndex := []; p_ttlIndex := ∅ |}.

(** * The container *)

Definition find_tx (l : list TransactionDetails) (id : list Z) : option TransactionDetails :=
  List.find (fun d => bool_decide (td_id d = id)) l.
Definition have_tx (p : tx_memory_pool) (id : list Z) : bool := bool_decide (is_Some (find_tx (p_transactions p) id)).
Definition get_transactions_count (p : tx_memory_pool) : Z := zlen (p_transactions p).

(** Insertion in the ordered view, behind equivalent elements. *)
Fixpoint insert_tx (d : TransactionDetails) (l : list TransactionDetails) : list TransactionDetails :=
  match l with
  | [] => [d]
  | x :: l => if priority d x then d :: x :: l else x :: insert_tx d l
  end.
Definition erase_tx (id : list Z) (l : list TransactionDetails) : list TransactionDetails :=
  filter (fun d => td_id d <> id) l.

(** * Inputs *)

Definition haveSpentInputs (p : tx_memory_pool) (tx : Transaction) : bool :=
  existsb (fun i => match i with
    | InKey i => bool_decide (is_Some (p_spent_key_images p !! keyImage i))
    | InMultisignature m => bool_decide ((mi_amount m, outputIndex m) ∈ p_spentOutputs p)
    | InBase _ => false
    end) (tx_inputs tx).

Section Pool.
Context {B : BuildConfig}.

(** [addTransactionInputs]: on failure the inputs before stay registered. *)
Fixpoint add_inputs (id : list Z) (keptByBlock : bool) (ins : list TransactionInput) (imgs : pool_images) (outs : pool_outputs)
  : outcome (bool * pool_images * pool_outputs) :=
  match ins with
  | [] => Ok (true, imgs, outs)
  | InKey i :: ins =>
      let kei_image_set := default ∅ (imgs !! keyImage i) in
      if negb (keptByBlock || (base.size kei_image_set =? 0)%nat) then Ok (false, <[keyImage i := kei_image_set]> imgs, outs)
      else if decide (id ∈ kei_image_set) then Ok (false, <[keyImage i := kei_image_set]> imgs, outs)
      else add_inputs id keptByBlock ins (<[keyImage i := {[id]} ∪ kei_image_set]> imgs) outs
  | InMultisignature m :: ins =>
      if keptByBlock then add_inputs id keptByBlock ins imgs outs
      else
        _ ← massert (bool_decide ((mi_amount m, outputIndex m) ∉ outs));
        add_inputs id keptByBlock ins imgs ({[(mi_amount m, outputIndex m)]} ∪ outs)
  | InBase _ :: ins => add_inputs id keptByBlock ins imgs outs
  end.
Definition addTransactionInputs (p : tx_memory_pool) (id : list Z) (tx : Transaction) (keptByBlock : bool)
  : outcome (bool * pool_images * pool_outputs) :=
  add_inputs id keptByBlock (tx_inputs tx) (p_spent_key_images p) (p_spentOutputs p).

(** [removeTransactionInputs]: stops at the first inconsistency. *)
Fixpoint remove_inputs (id : list Z) (keptByBlock : bool) (ins : list TransactionInput) (imgs : pool_images) (outs : pool_outputs)
  : outcome (bool * pool_images * pool_outputs) :=
  match ins with
  | [] => Ok (true, imgs, outs)
  | InKey i :: ins =>
      match imgs !! keyImage i with
      | None => Ok (false, imgs, outs)
      | Some key_image_set =>
          if (base.size key_image_set =? 0)%nat then Ok (false, imgs, outs)
          else if decide (id ∈ key_image_set) then
            let key_image_set := key_image_set ∖ {[id]} in
            let imgs := if (base.size key_image_set =? 0)%nat then delete (keyImage i) imgs
                        else <[keyImage i := key_image_set]> imgs in
            remove_inputs id keptByBlock ins imgs outs
          else Ok (false, imgs, outs)
      end
  | InMultisignature m :: ins =>
      if keptByBlock then remove_inputs id keptByBlock ins imgs outs
      else
        _ ← massert (bool_decide ((mi_amount m, outputIndex m) ∈ outs));
        remove_inputs id keptByBlock ins imgs (outs ∖ {[(mi_amount m, outputIndex m)]})
  | InBase _ :: ins => remove_inputs id keptByBlock ins imgs outs
  end.
Definition removeTransactionInputs (p : tx_memory_pool) (id : list Z) (tx : Transaction) (keptByBlock : bool)
  : outcome (bool * pool_images * pool_outputs) :=
  remove_inputs id keptByBlock (tx_inputs tx) (p_spent_key_images p) (p_spentOutputs p).

Context {K : Crypto} {V : ITransactionValidator}.
Variable m_currency : Currency.

(** [removeTransaction(it)]: the result of [removeTransactionInputs] is not
    looked at. *)
Definition removeTransaction (p : tx_memory_pool) (d : TransactionDetails) : outcome tx_memory_pool :=
  '(_, imgs, outs) ← removeTransactionInputs p (td_id d) (td_tx d) (td_keptByBlock d);
  '(_, pidx) ← PaymentIdIndex.remove cn_fast_hash (p_paymentIdIndex p) (td_tx d);
  let '(_, tidx) := TimestampTransactionsIndex.remove (p_timestampIndex p) (td_receiveTime d) (td_id d) in
  Ok {| p_spent_key_images := imgs; p_spentOutputs := outs;
        p_transactions := erase_tx (td_id d) (p_transactions p);
        p_recentlyDeletedTransactions := p_recentlyDeletedTransactions p;
        p_paymentIdIndex := pidx; p_timestampIndex := tidx; p_ttlIndex := delete (td_id d) (p_ttlIndex p) |}.

(** [take_tx]: [None] when it returns false. *)
Definition take_tx (p : tx_memory_pool) (id : list Z) : outcome (option (Transaction * Z * Z) * tx_memory_pool) :=
  match find_tx (p_transactions p) id with
  | None => Ok (None, p)
  | Some txd =>
      p ← removeTransaction p txd;
      Ok (Some (td_tx txd, td_blobSize txd, td_fee txd), p)
  end.

(** * Adding *)

Definition as_ttl (f : TransactionExtraField) : option Z := match f with ExtraTTL t => Some t | _ => None end.
Definition get_ttl (tx : Transaction) : outcome Z :=
  '(_, fields) ← parseTransactionExtra (tx_extra tx);
  Ok (default 0 (find_field as_ttl fields)).

(** A transaction after its members were moved away: the vectors are empty. *)
Definition moved_from (tx : Transaction) : Transaction :=
  {| prefix := {| version := tx_version tx; unlockTime := tx_unlockTime tx; inputs := []; outputs := []; extra := [] |};
     signatures := [] |}.

(** [add_tx(tx, id, blobSize, tvc, keptByBlock, height)].  [now] is [time(nullptr)]
    and [received] is [m_timeProvider.now()].  The payment id index is given
    [txd.tx] after [txd] was moved into the container. *)
Definition add_tx (p : tx_memory_pool) (now received : Z) (tx : Transaction) (id : list Z) (blobSize : Z)
    (tvc : tx_verification_context) (keptByBlock : bool)
  : outcome (bool * tx_verification_context * tx_memory_pool) :=
  if negb (check_inputs_types_supported (prefix tx)) then Ok (false, tvc_fail tvc true, p) else
  inputs_amount ← getTransactionAllInputsAmount tx;
  let outputs_amount := get_outs_money_amount tx in
  if inputs_amount <? outputs_amount then Ok (false, tvc_fail tvc true, p) else
  ttl ← get_ttl tx;
  let fee := inputs_amount - outputs_amount in
  isFusion ← (if fee =? 0 then isFusionTransaction_sized m_currency tx blobSize else Ok false);
  if negb (ttl =? 0) && negb keptByBlock &&
     ((ttl <=? now)
      || (u64 (mempoolTxLiveTime m_currency + blockFutureTimeLimit m_currency) <? ttl - now)
      || negb (fee =? 0))
  then Ok (false, tvc_fail tvc true, p)
  else if negb keptByBlock && haveSpentInputs p tx then Ok (false, tvc_fail tvc true, p)
  else
    '(inputsValid, maxUsedBlock) ← validator_checkTransactionInputs tx no_block;
    if negb (inputsValid : bool) && negb keptByBlock then Ok (false, tvc_fail tvc true, p) else
    let maxUsedBlock := if inputsValid then maxUsedBlock else no_block in
    let tvc := if inputsValid then tvc else
      {| tvc_should_be_relayed := tvc_should_be_relayed tvc; tvc_verification_failed := tvc_verification_failed tvc;
         tvc_verification_impossible := true; tvc_added_to_pool := tvc_added_to_pool tvc |} in
    if negb keptByBlock && negb (validator_checkTransactionSize blobSize) then Ok (false, tvc_fail tvc true, p)
    else if negb keptByBlock && bool_decide (is_Some (p_recentlyDeletedTransactions p !! id)) then
      Ok (true, {| tvc_should_be_relayed := false; tvc_verification_failed := false;
                   tvc_verification_impossible := tvc_verification_impossible tvc; tvc_added_to_pool := false |}, p)
    else
      let txd := {| td_id := id; td_tx := tx; td_blobSize := blobSize; td_fee := fee; td_keptByBlock := keptByBlock;
                    td_receiveTime := received; td_maxUsedBlock := maxUsedBlock; td_lastFailedBlock := no_block |} in
      if have_tx p id then Ok (false, tvc, p) else
      '(_, pidx) ← PaymentIdIndex.add cn_fast_hash (p_paymentIdIndex p) (moved_from tx);
      let tidx := TimestampTransactionsIndex.add (p_timestampIndex p) received id in
      let ttls := if negb (ttl =? 0) then match p_ttlIndex p !! id with Some _ => p_ttlIndex p | None => <[id := ttl]> (p_ttlIndex p) end
                  else p_ttlIndex p in
      let tvc := {| tvc_should_be_relayed := inputsValid && ((0 <? fee) || isFusion || negb (ttl =? 0));
                    tvc_verification_failed := true; tvc_verification_impossible := tvc_verification_impossible tvc;
                    tvc_added_to_pool := true |} in
      '(ok, imgs, outs) ← addTransactionInputs p id tx keptByBlock;
      let p := {| p_spent_key_images := imgs; p_spentOutputs := outs; p_transactions := insert_tx txd (p_transactions p);
                  p_recentlyDeletedTransactions := p_recentlyDeletedTransactions p; p_paymentIdIndex := pidx;
                  p_timestampIndex := tidx; p_ttlIndex := ttls |} in
      Ok (ok, tvc_fail tvc (negb ok), p).

(** * Expiry *)

Definition is_expired (p : tx_memory_pool) (now : Z) (d : TransactionDetails) : bool :=
  let txAge := u64 (now - td_receiveTime d) in
  let limit := if td_keptByBlock d then mempoolTxFromAltBlockLiveTime m_currency else mempoolTxLiveTime m_currency in
  (limit <? txAge) || match p_ttlIndex p !! td_id d with Some ttl => ttl <=? now | None => false end.

(** The loop over the transactions (the hashed view has no order of its own). *)
Fixpoint expire_loop (p : tx_memory_pool) (now : Z) (l : list TransactionDetails) : outcome tx_memory_pool :=
  match l with
  | [] => Ok p
  | d :: l =>
      if is_expired p now d then
        p ← removeTransaction p d;
        expire_loop {| p_spent_key_images := p_spent_key_images p; p_spentOutputs := p_spentOutputs p;
          p_transactions := p_transactions p;
          p_recentlyDeletedTransactions := match p_recentlyDeletedTransactions p !! td_id d with
            | Some _ => p_recentlyDeletedTransactions p | None => <[td_id d := now]> (p_recentlyDeletedTransactions p) end;
          p_paymentIdIndex := p_paymentIdIndex p; p_timestampIndex := p_timestampIndex p; p_ttlIndex := p_ttlIndex p |} now l
      else expire_loop p now l
  end.

Definition removeExpiredTransactions (p : tx_memory_pool) (now : Z) : outcome tx_memory_pool :=
  let keep := filter (fun e => ~ (u64 (numberOfPeriodsToForgetTxDeletedFromPool m_currency * mempoolTxLiveTime m_currency)
                                   < u64 (now - e.2))) (p_recentlyDeletedTransactions p) in
  expire_loop {| p_spent_key_images := p_spent_key_images p; p_spentOutputs := p_spentOutputs p;
    p_transactions := p_transactions p; p_recentlyDeletedTransactions := keep;
    p_paymentIdIndex := p_paymentIdIndex p; p_timestampIndex := p_timestampIndex p; p_ttlIndex := p_ttlIndex p |}
    now (p_transactions p).

(** * Block templates *)

Record BlockTemplate := { bt_keyImages : gset (list Z); bt_usedOutputs : gset (Z * Z); bt_txHashes : list (list Z) }.
Definition empty_template : BlockTemplate := {| bt_keyImages := ∅; bt_usedOutputs := ∅; bt_txHashes := [] |}.

Definition canAdd (t : BlockTemplate) (tx : Transaction) : bool :=
  forallb (fun i => match i with
    | InKey i => bool_decide (keyImage i ∉ bt_keyImages t)
    | InMultisignature m => bool_decide ((mi_amount m, outputIndex m) ∉ bt_usedOutputs t)
    | InBase _ => true
    end) (tx_inputs tx).

Fixpoint template_inputs (ins : list TransactionInput) (imgs : gset (list Z)) (outs : gset (Z * Z))
  : outcome (gset (list Z) * gset (Z * Z)) :=
  match ins with
  | [] => Ok (imgs, outs)
  | InKey i :: ins =>
      _ ← massert (bool_decide (keyImage i ∉ imgs)); template_inputs ins ({[keyImage i]} ∪ imgs) outs
  | InMultisignature m :: ins =>
      _ ← massert (bool_decide ((mi_amount m, outputIndex m) ∉ outs));
      template_inputs ins imgs ({[(mi_amount m, outputIndex m)]} ∪ outs)
  | InBase _ :: ins => template_inputs ins imgs outs
  end.

Definition addTransaction (t : BlockTemplate) (txid : list Z) (tx : Transaction) : outcome (bool * BlockTemplate) :=
  if negb (canAdd t tx) then Ok (false, t)
  else
    '(imgs, outs) ← template_inputs (tx_inputs tx) (bt_keyImages t) (bt_usedOutputs t);
    Ok (true, {| bt_keyImages := imgs; bt_usedOutputs := outs; bt_txHashes := bt_txHashes t ++ [txid] |}).

(** The copy of the check information is discarded. *)
Definition is_transaction_ready_to_go (d : TransactionDetails) : outcome bool :=
  '(ok, _, _) ← validator_recheckTransactionInputs (td_tx d) (td_maxUsedBlock d) (td_lastFailedBlock d);
  if negb (ok : bool) then Ok false
  else Ok (negb (validator_haveSpentKeyImages (td_tx d))).

(** The loop of [fill_block_template] over the ordered view, last first. *)
Fixpoint template_loop (p : tx_memory_pool) (median_size max_total_size : Z) (l : list TransactionDetails)
    (t : BlockTemplate) (total_size fee : Z) : outcome (BlockTemplate * Z * Z) :=
  match l with
  | [] => Ok (t, total_size, fee)
  | txd :: l =>
      if bool_decide (is_Some (p_ttlIndex p !! td_id txd)) then template_loop p median_size max_total_size l t total_size fee
      else
        inputs_amount ← getTransactionAllInputsAmount (td_tx txd);
        if inputs_amount <? get_outs_money_amount (td_tx txd)
        then template_loop p median_size max_total_size l t total_size fee
        else
          let blockSizeLimit := if td_fee txd =? 0 then median_size else max_total_size in
          if blockSizeLimit <? u64 (total_size + td_blobSize txd)
          then template_loop p median_size max_total_size l t total_size fee
          else
            ready ← is_transaction_ready_to_go txd;
            '(ok, t) ← (if ready : bool then addTransaction t (td_id txd) (td_tx txd) else Ok (false, t));
            if ok : bool
            then template_loop p median_size max_total_size l t (u64 (total_size + td_blobSize txd)) (u64 (fee + td_fee txd))
            else template_loop p median_size max_total_size l t total_size fee
  end.

(** The transaction hashes, [total_size] and [fee]. *)
Definition fill_block_template (p : tx_memory_pool) (median_size maxCumulativeSize : Z) : outcome (list (list Z) * Z * Z) :=
  let max_total_size := u64 (u64 (125 * median_size) / 100 - minerTxBlobReservedSize m_currency) in
  let max_total_size := Z.min max_total_size maxCumulativeSize in
  '(t, total_size, fee) ← template_loop p median_size max_total_size (rev (p_transactions p)) empty_template 0 0;
  Ok (bt_txHashes t, total_size, fee).

(** * Stateless checks of the core *)

Fixpoint keyimages_diff (ki : gset (list Z)) (ins : list TransactionInput) : bool :=
  match ins with
  | [] => true
  | InKey i :: ins => if decide (keyImage i ∈ ki) then false else keyimages_diff ({[keyImage i]} ∪ ki) ins
  | _ :: ins => keyimages_diff ki ins
  end.
Definition check_tx_inputs_keyimages_diff (tx : Transaction) : bool := keyimages_diff ∅ (tx_inputs tx).

(** The second computation of the input amount, for another height, gives the
    same value: the height is not used. *)
Definition check_tx_semantic (tx : Transaction) : outcome bool :=
  match tx_inputs tx with
  | [] => Ok false
  | _ =>
      if negb (check_inputs_types_supported (prefix tx)) then Ok false else
      valid ← check_outs_valid check_key (prefix tx) true;
      if negb (valid : bool) then Ok false else
      if negb (check_money_overflow (prefix tx)) then Ok false else
      amount_in ← getTransactionAllInputsAmount tx;
      let amount_out := get_outs_money_amount tx in
      if amount_in <? amount_out then Ok false
      else if negb (check_tx_inputs_keyimages_diff tx) then Ok false
      else Ok (checkMultisignatureInputsDiff (prefix tx))
  end.
End Pool.
