(* ===== verification/PoolInvariant.v ===== *)
(** The transaction pool keeps its invariant: theorems about [TransactionPool].

    The tables of spent inputs are exactly those of the transactions in the
    pool, transactions that came from peers do not conflict, and the ordered view
    is ordered by fee per byte.  Adding is all or nothing and [take_tx] undoes
    it; a block template holds no conflicting transactions. *)
From stdpp Require Import gmultiset.
From S2P Require Import Prelude IntUtil CryptoNote Serializer Serialization TransactionExtra Currency BlockIndex.
From S2P Require Import TreeHash BlockchainIndices ChainState Validation Blockchain TransactionPool.

Ltac pool_simpl :=
  cbn [p_spent_key_images p_spentOutputs p_transactions p_recentlyDeletedTransactions p_paymentIdIndex p_timestampIndex p_ttlIndex].

(** * Registered inputs *)

Lemma size_zero (s : gset (list Z)) : (base.size s =? 0)%nat = bool_decide (s = ∅).
Proof.
  destruct (Nat.eqb_spec (base.size s) 0) as [E|E]; symmetry.
  - apply bool_decide_eq_true. apply size_empty_inv in E. by apply leibniz_equiv in E.
  - apply bool_decide_eq_false. intros ->. by apply E.
Qed.

Section Theory.
Context {B : BuildConfig}.

Lemma add_inputs_spec id kept ins imgs outs :
  NoDup (key_images ins) -> NoDup (positions ins) ->
  (forall k, k ∈ key_images ins -> id ∉ default ∅ (imgs !! k) /\ (kept = false -> default ∅ (imgs !! k) = ∅)) ->
  (kept = false -> forall q, q ∈ positions ins -> q ∉ outs) ->
  exists imgs', add_inputs id kept ins imgs outs =
      Ok (true, imgs', if kept then outs else list_to_set (positions ins) ∪ outs) /\
    forall k, imgs' !! k = if decide (k ∈ key_images ins) then Some ({[id]} ∪ default ∅ (imgs !! k)) else imgs !! k.
Proof.
  revert imgs outs. induction ins as [|[i|i|m] ins IH]; intros imgs outs HN HP HI HO; cbn [add_inputs].
  - exists imgs. cbn. split; [destruct kept; [done|do 2 f_equal; set_solver]|]. intros k. by rewrite decide_False by apply not_elem_of_nil.
  - by apply IH.
  - cbn in HN, HI. apply NoDup_cons in HN as [Hn HN]. destruct (HI (keyImage i)) as [H1 H2]; [left|].
    assert ((kept || (base.size (default ∅ (imgs !! keyImage i) : gset (list Z)) =? 0)%nat) = true) as ->.
    { destruct kept; [done|]. rewrite size_zero. apply bool_decide_eq_true. by apply H2. }
    cbn [negb]. rewrite decide_False by done.
    destruct (IH (<[keyImage i := {[id]} ∪ default ∅ (imgs !! keyImage i)]> imgs) outs HN HP) as (imgs' & E & HL); [|done|].
    + intros k Hk. rewrite lookup_insert_ne by (intros <-; done). apply HI. by right.
    + exists imgs'. split; [exact E|]. intros k. rewrite HL. cbn. destruct (decide (k = keyImage i)) as [->|Hne].
      * rewrite decide_False by done. rewrite lookup_insert_eq. by rewrite decide_True by left.
      * rewrite lookup_insert_ne by done. apply decide_ext. rewrite elem_of_cons. tauto.
  - cbn in HP, HO. apply NoDup_cons in HP as [Hn HP]. destruct kept; [by apply IH|].
    rewrite massert_true by (apply bool_decide_eq_true; apply HO; [done|left]). cbn [mbind outcome_bind].
    destruct (IH imgs ({[(mi_amount m, outputIndex m)]} ∪ outs) HN HP HI) as (imgs' & E & HL).
    + intros _ q Hq. specialize (HO eq_refl q ltac:(by right)). set_solver.
    + exists imgs'. split; [|exact HL]. rewrite E. cbn. do 2 f_equal. set_solver.
Qed.

Lemma remove_inputs_spec id kept ins imgs outs :
  NoDup (key_images ins) -> NoDup (positions ins) ->
  (forall k, k ∈ key_images ins -> id ∈ (default ∅ (imgs !! k) : gset (list Z))) ->
  (kept = false -> forall q, q ∈ positions ins -> q ∈ outs) ->
  exists imgs', remove_inputs id kept ins imgs outs =
      Ok (true, imgs', if kept then outs else outs ∖ list_to_set (positions ins)) /\
    forall k, imgs' !! k = if decide (k ∈ key_images ins) then
        let s := (default ∅ (imgs !! k) : gset (list Z)) ∖ {[id]} in if decide (s = ∅) then None else Some s
      else imgs !! k.
Proof.
  revert imgs outs. induction ins as [|[i|i|m] ins IH]; intros imgs outs HN HP HI HO; cbn [remove_inputs].
  - exists imgs. cbn. split; [destruct kept; [done|do 2 f_equal; set_solver]|]. intros k. by rewrite decide_False by apply not_elem_of_nil.
  - by apply IH.
  - cbn in HN, HI. apply NoDup_cons in HN as [Hn HN]. specialize (HI (keyImage i)) as H1.
    destruct (imgs !! keyImage i) as [s|] eqn:Es; [|by specialize (H1 ltac:(left))]. cbn in H1.
    rewrite !size_zero. rewrite bool_decide_eq_false_2 by set_solver. rewrite decide_True by (apply H1; left).
    set (imgs1 := if bool_decide _ then _ else _).
    assert (H2 : forall k, imgs1 !! k = if decide (k = keyImage i) then (if decide (s ∖ {[id]} = ∅) then None else Some (s ∖ {[id]})) else imgs !! k).
    { intros k. subst imgs1. repeat case_decide; case_bool_decide; subst; try done;
        rewrite ?lookup_insert_eq, ?lookup_delete_eq, ?lookup_insert_ne, ?lookup_delete_ne by done; done. }
    destruct (IH imgs1 outs HN HP) as (imgs' & E & HL); [|done|].
    + intros k Hk. rewrite H2, decide_False by (intros ->; done). apply HI. by right.
    + exists imgs'. split; [exact E|]. intros k. rewrite HL, H2. cbn. destruct (decide (k = keyImage i)) as [->|Hne].
      * rewrite decide_False by done. rewrite Es. cbn.
        match goal with |- context [decide (keyImage i ∈ ?l)] => by rewrite (decide_True (P := keyImage i ∈ l)) by left end.
      * apply decide_ext. rewrite elem_of_cons. tauto.
  - cbn in HP, HO. apply NoDup_cons in HP as [Hn HP]. destruct kept; [by apply IH|].
    rewrite massert_true by (apply bool_decide_eq_true; apply HO; [done|left]). cbn [mbind outcome_bind].
    destruct (IH imgs (outs ∖ {[(mi_amount m, outputIndex m)]}) HN HP HI) as (imgs' & E & HL).
    + intros _ q Hq. apply elem_of_difference. split; [apply HO; [done|by right]|]. intros ->%elem_of_singleton. done.
    + exists imgs'. split; [|exact HL]. rewrite E. change (positions (InMultisignature m :: ins)) with ((mi_amount m, outputIndex m) :: positions ins).
      by rewrite list_to_set_cons, difference_difference_l_L.
Qed.
End Theory.

Lemma insert_tx_perm d l : insert_tx d l ≡ₚ d :: l.
Proof.
  induction l as [|y l IH]; cbn [insert_tx]; [done|]. destruct (priority d y); [done|]. rewrite IH. apply perm_swap.
Qed.
Lemma elem_of_insert_tx d l x : x ∈ insert_tx d l <-> x = d \/ x ∈ l.
Proof. by rewrite insert_tx_perm, elem_of_cons. Qed.
Lemma elem_of_erase_tx id l x : x ∈ erase_tx id l <-> td_id x <> id /\ x ∈ l.
Proof. unfold erase_tx. by rewrite list_elem_of_filter. Qed.
Lemma erase_absent id l : id ∉ map td_id l -> erase_tx id l = l.
Proof.
  unfold erase_tx. induction l as [|y l IH]; intros Hn; [done|]. cbn in Hn. apply not_elem_of_cons in Hn as [Hne Hn].
  rewrite filter_cons_True by congruence. f_equal. by apply IH.
Qed.
Lemma erase_insert_tx d l : td_id d ∉ map td_id l -> erase_tx (td_id d) (insert_tx d l) = l.
Proof.
  induction l as [|y l IH]; intros Hn; cbn [insert_tx].
  - unfold erase_tx. rewrite filter_cons_False by (intros HH; by apply HH). done.
  - destruct (priority d y).
    + unfold erase_tx at 1. rewrite filter_cons_False by (intros HH; by apply HH). by apply (erase_absent _ (y :: l)).
    + cbn in Hn. apply not_elem_of_cons in Hn as [Hne Hn]. unfold erase_tx at 1.
      rewrite filter_cons_True by congruence. f_equal. by apply IH.
Qed.
Lemma find_tx_Some l id d : NoDup (map td_id l) -> d ∈ l -> td_id d = id -> find_tx l id = Some d.
Proof.
  unfold find_tx. intros HN Hd <-. induction l as [|x l IH]; [by apply elem_of_nil in Hd|]. cbn in *.
  apply NoDup_cons in HN as [Hn HN]. case_bool_decide as E.
  - apply elem_of_cons in Hd as [->|Hd]; [done|]. exfalso. apply Hn. rewrite E. by apply list_elem_of_fmap_2.
  - apply IH; [done|]. apply elem_of_cons in Hd as [->|Hd]; done.
Qed.
Lemma find_tx_elem l id d : find_tx l id = Some d -> d ∈ l /\ td_id d = id.
Proof.
  unfold find_tx. intros E. apply List.find_some in E as [H1 H2]. split; [by apply list_elem_of_In|by apply bool_decide_eq_true in H2].
Qed.
Lemma find_tx_None l id : find_tx l id = None -> id ∉ map td_id l.
Proof.
  unfold find_tx. intros E Hin. apply list_elem_of_fmap in Hin as (d & -> & Hd).
  pose proof (List.find_none _ _ E d (proj1 (list_elem_of_In _ _) Hd)) as H. by apply bool_decide_eq_false in H.
Qed.

(** * The ordered view *)

(** The order of the fee index: more fee per byte first, then smaller, then
    older. *)
Definition better (a b : TransactionDetails) : Prop :=
  td_fee b * td_blobSize a < td_fee a * td_blobSize b \/
  td_fee b * td_blobSize a = td_fee a * td_blobSize b /\
    (td_blobSize a < td_blobSize b \/ td_blobSize a = td_blobSize b /\ td_receiveTime a < td_receiveTime b).

Definition well_sized (d : TransactionDetails) : Prop := 0 < td_blobSize d < 2 ^ 64 /\ is_u64 (td_fee d).

(** The comparison of 128-bit products in two words compares the products. *)
Lemma priority_better a b : well_sized a -> well_sized b -> priority a b = true <-> better a b.
Proof.
  intros [Ha1 Ha2] [Hb1 Hb2]. unfold priority, better.
  pose proof (mul128_exact (td_fee a) (td_blobSize b) Ha2 ltac:(wunfold; lia)) as El.
  pose proof (mul128_exact (td_fee b) (td_blobSize a) Hb2 ltac:(wunfold; lia)) as Er.
  destruct (mul128 (td_fee a) (td_blobSize b)) as [llo lhi], (mul128 (td_fee b) (td_blobSize a)) as [rlo rhi].
  destruct El as (El & ? & ?), Er as (Er & ? & ?).
  rewrite !orb_true_iff, !andb_true_iff, !Z.ltb_lt, !Z.eqb_eq, <- El, <- Er. wunfold. lia.
Qed.

Lemma better_trans a b c : well_sized a -> well_sized b -> well_sized c -> better a b -> better b c -> better a c.
Proof.
  unfold better, well_sized. intros [Ha _] [Hb _] [Hc _] H1 H2.
  assert (HC : forall x y, x * td_blobSize b < y * td_blobSize b -> x < y) by (intros; nia).
  assert (HE : forall x y, x * td_blobSize b = y * td_blobSize b -> x = y) by (intros; nia).
  assert (X1 : td_fee b * td_blobSize a * td_blobSize c <= td_fee a * td_blobSize b * td_blobSize c) by nia.
  assert (X2 : td_fee c * td_blobSize b * td_blobSize a <= td_fee b * td_blobSize c * td_blobSize a) by nia.
  destruct H1 as [H1|[E1 H1]].
  { left. apply HC. assert (td_fee b * td_blobSize a * td_blobSize c < td_fee a * td_blobSize b * td_blobSize c) by nia. lia. }
  destruct H2 as [H2|[E2 H2]].
  { left. apply HC. assert (td_fee c * td_blobSize b * td_blobSize a < td_fee b * td_blobSize c * td_blobSize a) by nia. lia. }
  right. split; [|lia]. apply HE. assert (td_fee b * td_blobSize a * td_blobSize c = td_fee a * td_blobSize b * td_blobSize c) by nia.
  assert (td_fee c * td_blobSize b * td_blobSize a = td_fee b * td_blobSize c * td_blobSize a) by nia. lia.
Qed.

Lemma better_irrefl a b : better a b -> better b a -> False.
Proof. unfold better. lia. Qed.

(** No transaction comes behind one that it should precede. *)
Definition ordered (l : list TransactionDetails) : Prop := StronglySorted (fun a b => ~ better b a) l.

Lemma insert_tx_ordered d l : well_sized d -> (forall x, x ∈ l -> well_sized x) -> ordered l -> ordered (insert_tx d l).
Proof.
  unfold ordered. intros Hd. induction l as [|x l IH]; intros HS HO; cbn [insert_tx]; [by repeat constructor|].
  apply StronglySorted_inv in HO as [HO HF]. assert (Hx : well_sized x) by (apply HS; left).
  assert (HS' : forall y, y ∈ l -> well_sized y) by (intros y Hy; apply HS; by right). rewrite Forall_forall in HF.
  destruct (priority d x) eqn:E.
  - apply priority_better in E; [|done..]. constructor; [by constructor; [|apply Forall_forall]|].
    apply Forall_forall. intros y [->|Hy]%elem_of_cons Hb; [by apply (better_irrefl d x)|].
    apply (HF y Hy). by apply (better_trans y d x); auto.
  - apply not_true_iff_false in E. rewrite priority_better in E by done. constructor; [by apply IH|].
    apply Forall_forall. intros y [->|Hy]%elem_of_insert_tx; [done|by apply HF].
Qed.

Lemma erase_tx_ordered id l : ordered l -> ordered (erase_tx id l).
Proof.
  unfold ordered, erase_tx. induction l as [|x l IH]; intros HO; [done|]. apply StronglySorted_inv in HO as [HO HF].
  rewrite filter_cons. case_decide; [|by apply IH]. constructor; [by apply IH|].
  rewrite Forall_forall in HF |- *. intros y [_ Hy]%list_elem_of_filter. by apply HF.
Qed.

(** * The invariant of the pool *)

Section Invariant.
Context {B : BuildConfig} {K : Crypto}.
Variable m_currency : Currency.

(** The ids of the transactions with the key image [k]. *)
Definition holders (l : list TransactionDetails) (k : list Z) : gset (list Z) :=
  list_to_set (map td_id (filter (fun d => k ∈ key_images (tx_inputs (td_tx d))) l)).

Record pool_inv (p : tx_memory_pool) : Prop := {
  pi_ids : NoDup (map td_id (p_transactions p));
  pi_ok : forall d, d ∈ p_transactions p -> tx_ok (td_tx d);
  (** The table of key images is exactly the one of the transactions. *)
  pi_images : forall k, p_spent_key_images p !! k =
    if decide (holders (p_transactions p) k = ∅) then None else Some (holders (p_transactions p) k);
  pi_outputs : forall q, q ∈ p_spentOutputs p <->
    exists d, d ∈ p_transactions p /\ td_keptByBlock d = false /\ q ∈ positions (tx_inputs (td_tx d));
  (** Transactions that came from peers do not conflict. *)
  pi_exclusive : forall d d', d ∈ p_transactions p -> d' ∈ p_transactions p -> td_id d <> td_id d' ->
    td_keptByBlock d = false -> td_keptByBlock d' = false ->
    key_images (tx_inputs (td_tx d)) ## key_images (tx_inputs (td_tx d')) /\
    positions (tx_inputs (td_tx d)) ## positions (tx_inputs (td_tx d'));
  pi_timestamps : p_timestampIndex p ≡ₚ map (fun d => (td_receiveTime d, td_id d)) (p_transactions p);
  pi_ttl : forall id t, p_ttlIndex p !! id = Some t <->
    exists d, d ∈ p_transactions p /\ td_id d = id /\ get_ttl (td_tx d) = Ok t /\ t <> 0;
  pi_payment : p_paymentIdIndex p = ∅;
  pi_sized : forall d, d ∈ p_transactions p -> well_sized d;
  pi_ordered : ordered (p_transactions p);
}.

Lemma elem_of_holders l k id :
  id ∈ holders l k <-> exists d, d ∈ l /\ td_id d = id /\ k ∈ key_images (tx_inputs (td_tx d)).
Proof.
  unfold holders. rewrite elem_of_list_to_set, list_elem_of_fmap. setoid_rewrite list_elem_of_filter. naive_solver.
Qed.

Lemma empty_pool_inv : pool_inv empty_pool.
Proof.
  split; cbn; [constructor|set_solver..| | |done|set_solver|constructor]; [done|].
  intros id t. rewrite lookup_empty. split; [done|]. intros (d & Hd & _). by apply elem_of_nil in Hd.
Qed.

Lemma default_images p k : pool_inv p -> default ∅ (p_spent_key_images p !! k) = holders (p_transactions p) k.
Proof. intros H. rewrite (pi_images _ H). case_decide; cbn; congruence. Qed.

(** Two transactions of the pool with the same id are the same. *)
Lemma same_id p d d' : pool_inv p -> d ∈ p_transactions p -> d' ∈ p_transactions p -> td_id d = td_id d' -> d = d'.
Proof.
  intros H Hd Hd' E. pose proof (find_tx_Some _ _ _ (pi_ids _ H) Hd E) as E1.
  pose proof (find_tx_Some _ _ _ (pi_ids _ H) Hd' eq_refl) as E2. congruence.
Qed.

Lemma not_spent_inputs p tx :
  pool_inv p -> haveSpentInputs p tx = false ->
  (forall k, k ∈ key_images (tx_inputs tx) -> holders (p_transactions p) k = ∅) /\
  (forall q, q ∈ positions (tx_inputs tx) -> q ∉ p_spentOutputs p).
Proof.
  intros H E. unfold haveSpentInputs in E. rewrite <- not_true_iff_false, existsb_exists in E. split.
  - intros k Hk. unfold key_images in Hk. apply list_elem_of_omap in Hk as (i & Hi & Ei). destruct i as [|i|]; [done| |done].
    injection Ei as [= <-]. destruct (decide (holders (p_transactions p) (keyImage i) = ∅)) as [|Hne]; [done|].
    exfalso. apply E. exists (InKey i). split; [by apply list_elem_of_In|]. apply bool_decide_eq_true.
    rewrite (pi_images _ H), decide_False by done. by eexists.
  - intros q Hq Hin. unfold positions in Hq. apply list_elem_of_omap in Hq as (i & Hi & Ei). destruct i as [| |i]; [done|done|].
    injection Ei as [= <-]. apply E. exists (InMultisignature i). split; [by apply list_elem_of_In|]. by apply bool_decide_eq_true.
Qed.

Definition add_details (p : tx_memory_pool) (d : TransactionDetails) (ttl : Z) (imgs : pool_images) (outs : pool_outputs)
  : tx_memory_pool := {|
  p_spent_key_images := imgs; p_spentOutputs := outs; p_transactions := insert_tx d (p_transactions p);
  p_recentlyDeletedTransactions := p_recentlyDeletedTransactions p; p_paymentIdIndex := p_paymentIdIndex p;
  p_timestampIndex := TimestampTransactionsIndex.add (p_timestampIndex p) (td_receiveTime d) (td_id d);
  p_ttlIndex := if negb (ttl =? 0)
    then match p_ttlIndex p !! td_id d with Some _ => p_ttlIndex p | None => <[td_id d := ttl]> (p_ttlIndex p) end
    else p_ttlIndex p |}.

Lemma holders_insert d l k :
  holders (insert_tx d l) k =
  if decide (k ∈ key_images (tx_inputs (td_tx d))) then {[td_id d]} ∪ holders l k else holders l k.
Proof.
  apply set_eq. intros id. rewrite elem_of_holders. setoid_rewrite elem_of_insert_tx.
  destruct (decide (k ∈ key_images (tx_inputs (td_tx d)))).
  - rewrite elem_of_union, elem_of_singleton, elem_of_holders. naive_solver.
  - rewrite elem_of_holders. naive_solver.
Qed.

(** [addTransactionInputs] does not fail on a checked transaction, and the pool
    with it is well-formed. *)
Lemma add_details_inv p d ttl :
  pool_inv p -> td_id d ∉ map td_id (p_transactions p) -> tx_ok (td_tx d) -> well_sized d -> get_ttl (td_tx d) = Ok ttl ->
  (td_keptByBlock d = false -> haveSpentInputs p (td_tx d) = false) ->
  exists imgs outs, addTransactionInputs p (td_id d) (td_tx d) (td_keptByBlock d) = Ok (true, imgs, outs) /\
    pool_inv (add_details p d ttl imgs outs).
Proof.
  intros H Hid Hok Hsz Httl HS. pose proof Hok as [HN HD]. apply diff_NoDup in HD as [HP _].
  assert (HS' : td_keptByBlock d = false -> _) by (intros E; apply (not_spent_inputs p (td_tx d) H (HS E))).
  assert (Hh : forall k, td_id d ∉ holders (p_transactions p) k).
  { intros k (e & He & Ee & _)%elem_of_holders. apply Hid. rewrite <- Ee. by apply list_elem_of_fmap_2. }
  destruct (add_inputs_spec (td_id d) (td_keptByBlock d) (tx_inputs (td_tx d)) (p_spent_key_images p) (p_spentOutputs p) HN HP)
    as (imgs & E & HL).
  { intros k Hk. rewrite default_images by done. split; [done|]. intros Ek. by apply (HS' Ek). }
  { intros Ek. apply (HS' Ek). }
  exists imgs, (if td_keptByBlock d then p_spentOutputs p else list_to_set (positions (tx_inputs (td_tx d))) ∪ p_spentOutputs p).
  split; [exact E|]. split; unfold add_details; pool_simpl.
  - rewrite insert_tx_perm. cbn. by apply NoDup_cons; split; [|apply (pi_ids _ H)].
  - intros e [->|He]%elem_of_insert_tx; [done|by apply (pi_ok _ H)].
  - intros k. rewrite HL, holders_insert, default_images by done. destruct (decide (k ∈ key_images _)).
    + rewrite decide_False; [done|]. set_solver.
    + apply (pi_images _ H).
  - intros q. setoid_rewrite elem_of_insert_tx. pose proof (pi_outputs _ H q) as Ho. destruct (td_keptByBlock d) eqn:Ek.
    + rewrite Ho. split; [naive_solver|]. intros (e & [->|He] & Hk & Hq); [congruence|naive_solver].
    + rewrite elem_of_union, elem_of_list_to_set, Ho. naive_solver.
  - intros e e' He He' Hne Hk Hk'. apply elem_of_insert_tx in He, He'.
    assert (HX : forall e0, e0 ∈ p_transactions p -> td_keptByBlock e0 = false -> td_keptByBlock d = false ->
      key_images (tx_inputs (td_tx d)) ## key_images (tx_inputs (td_tx e0)) /\
      positions (tx_inputs (td_tx d)) ## positions (tx_inputs (td_tx e0))).
    { intros e0 He0 Hk0 Ekd. destruct (HS' Ekd) as [H1 H2]. split.
      - intros k Hkd Hke. apply (not_elem_of_empty (C := gset (list Z)) (td_id e0)). rewrite <- (H1 k Hkd). apply elem_of_holders. eauto.
      - intros q Hqd Hqe. apply (H2 q Hqd). apply (pi_outputs _ H). eauto. }
    destruct He as [->|He], He' as [->|He']; [done|by apply HX| |by apply (pi_exclusive _ H)].
    destruct (HX e He Hk Hk') as [H1 H2]. split; intros x Hx Hx'; [by apply (H1 x)|by apply (H2 x)].
  - unfold TimestampTransactionsIndex.add. rewrite TimestampBlocksIndex.timestamp_add_perm, insert_tx_perm. cbn.
    by rewrite (pi_timestamps _ H).
  - intros id t. setoid_rewrite elem_of_insert_tx. pose proof (pi_ttl _ H id t) as Ht.
    assert (Hn : p_ttlIndex p !! td_id d = None).
    { destruct (p_ttlIndex p !! td_id d) as [t'|] eqn:Et; [|done]. apply (pi_ttl _ H) in Et as (e & He & Ee & _).
      exfalso. apply Hid. rewrite <- Ee. by apply list_elem_of_fmap_2. }
    rewrite Hn. destruct (Z.eqb_spec ttl 0) as [Ez|Ez]; cbn [negb].
    + rewrite Ht. split; [naive_solver|]. intros (e & [->|He] & Ee & Eg & Hne); [congruence|naive_solver].
    + destruct (decide (id = td_id d)) as [->|Hid'].
      * rewrite lookup_insert_eq. split; [naive_solver|]. intros (e & [->|He] & Ee & Eg & Hne); [congruence|].
        exfalso. apply Hid. rewrite <- Ee. by apply list_elem_of_fmap_2.
      * rewrite lookup_insert_ne by done. rewrite Ht. naive_solver.
  - apply (pi_payment _ H).
  - intros e [->|He]%elem_of_insert_tx; [done|by apply (pi_sized _ H)].
  - by apply insert_tx_ordered; [|apply (pi_sized _ H)|apply (pi_ordered _ H)].
Qed.

Lemma holders_erase p d k :
  pool_inv p -> d ∈ p_transactions p ->
  holders (erase_tx (td_id d) (p_transactions p)) k = holders (p_transactions p) k ∖ {[td_id d]}.
Proof.
  intros H Hd. apply set_eq. intros id. rewrite elem_of_difference, !elem_of_holders, elem_of_singleton.
  setoid_rewrite elem_of_erase_tx. naive_solver.
Qed.


Lemma timestamp_remove_elem index ts h :
  (ts, h) ∈ index -> (ts, h) :: (TimestampBlocksIndex.remove index ts h).2 ≡ₚ index.
Proof.
  induction index as [|[k v] index IH]; intros Hin; [by apply elem_of_nil in Hin|]. cbn [TimestampBlocksIndex.remove fst snd].
  destruct ((k =? ts) && bool_decide (v = h)) eqn:E.
  - apply andb_true_iff in E as [->%Z.eqb_eq ->%bool_decide_eq_true]. done.
  - apply elem_of_cons in Hin as [[= <- <-]|Hin]; [by rewrite Z.eqb_refl, bool_decide_eq_true_2 in E|].
    destruct (TimestampBlocksIndex.remove index ts h) as [ok r]. cbn in IH |- *. rewrite perm_swap. by rewrite IH.
Qed.

Lemma erase_tx_perm d l : NoDup (map td_id l) -> d ∈ l -> d :: erase_tx (td_id d) l ≡ₚ l.
Proof.
  induction l as [|y l IH]; intros HN Hd; [by apply elem_of_nil in Hd|]. cbn in HN. apply NoDup_cons in HN as [Hn HN].
  unfold erase_tx. apply elem_of_cons in Hd as [->|Hd].
  - rewrite filter_cons_False by tauto. fold (erase_tx (td_id y) l). by rewrite erase_absent.
  - rewrite filter_cons_True; [rewrite perm_swap; by rewrite IH|]. intros E. apply Hn. rewrite E. by apply list_elem_of_fmap_2.
Qed.

(** Removing a transaction of the pool: its inputs are found, and the pool
    without it is well-formed. *)
Lemma removeTransaction_inv p d p' :
  pool_inv p -> d ∈ p_transactions p -> removeTransaction p d = Ok p' ->
  pool_inv p' /\ p_transactions p' = erase_tx (td_id d) (p_transactions p) /\
  p_recentlyDeletedTransactions p' = p_recentlyDeletedTransactions p.
Proof.
  intros H Hd E. destruct (pi_ok _ H d Hd) as [HN HD]. apply diff_NoDup in HD as [HP _].
  destruct (remove_inputs_spec (td_id d) (td_keptByBlock d) (tx_inputs (td_tx d)) (p_spent_key_images p) (p_spentOutputs p) HN HP)
    as (imgs & Ei & HL).
  { intros k Hk. rewrite default_images by done. apply elem_of_holders. eauto. }
  { intros Ek q Hq. apply (pi_outputs _ H). eauto. }
  unfold removeTransaction, removeTransactionInputs in E. rewrite Ei in E. cbn [mbind outcome_bind] in E.
  apply bind_Ok in E as ([ok pidx] & Ep & E).
  destruct (TimestampTransactionsIndex.remove _ _ _) as [? tidx] eqn:Et. injection E as [= <-].
  split; [|done]. split; pool_simpl.
  - apply (NoDup_cons_1_2 (td_id d)). change (td_id d :: map td_id (erase_tx (td_id d) (p_transactions p)))
      with (map td_id (d :: erase_tx (td_id d) (p_transactions p))). rewrite erase_tx_perm; [apply (pi_ids _ H)..|done].
  - intros e [_ He]%elem_of_erase_tx. by apply (pi_ok _ H).
  - intros k. rewrite HL, default_images, holders_erase by done. cbn zeta. destruct (decide (k ∈ key_images _)); [done|].
    rewrite (pi_images _ H). assert (HX : td_id d ∉ holders (p_transactions p) k).
    { intros (e & He & Ee & Hk)%elem_of_holders. apply (same_id p) in Ee; [by subst|done..]. }
    assert (holders (p_transactions p) k ∖ {[td_id d]} = holders (p_transactions p) k) as -> by set_solver. done.
  - intros q. setoid_rewrite elem_of_erase_tx. pose proof (pi_outputs _ H q) as Ho.
    assert (HX : (exists e, (td_id e <> td_id d /\ e ∈ p_transactions p) /\ td_keptByBlock e = false /\ q ∈ positions (tx_inputs (td_tx e)))
      <-> q ∈ p_spentOutputs p /\ ~ (td_keptByBlock d = false /\ q ∈ positions (tx_inputs (td_tx d)))).
    { rewrite Ho. split.
      - intros (e & [Hne He] & Hk & Hq). split; [eauto|]. intros [Hkd Hqd].
        by apply (proj2 (pi_exclusive _ H e d He Hd Hne Hk Hkd) q).
      - intros [(e & He & Hk & Hq) Hnd]. exists e. split_and!; try done. intros Ee. apply Hnd.
        apply (same_id p) in Ee; [by subst|done..]. }
    rewrite HX. destruct (td_keptByBlock d) eqn:Ek; [naive_solver|].
    rewrite elem_of_difference, elem_of_list_to_set. naive_solver.
  - intros e e' [_ He]%elem_of_erase_tx [_ He']%elem_of_erase_tx. by apply (pi_exclusive _ H).
  - unfold TimestampTransactionsIndex.remove in Et.
    apply (Permutation_cons_inv (a := (td_receiveTime d, td_id d))).
    rewrite <- (f_equal snd Et : _ = tidx). cbn [snd]. rewrite timestamp_remove_elem.
    + rewrite (pi_timestamps _ H). symmetry. change ((td_receiveTime d, td_id d) :: map (fun d => (td_receiveTime d, td_id d)) (erase_tx (td_id d) (p_transactions p)))
        with (map (fun d => (td_receiveTime d, td_id d)) (d :: erase_tx (td_id d) (p_transactions p))).
      by rewrite (erase_tx_perm d) by (done || apply (pi_ids _ H)).
    + rewrite (pi_timestamps _ H). apply list_elem_of_fmap. eauto.
  - intros id t. setoid_rewrite elem_of_erase_tx. destruct (decide (id = td_id d)) as [->|Hne].
    + rewrite lookup_delete_eq. naive_solver.
    + rewrite lookup_delete_ne by done. rewrite (pi_ttl _ H). naive_solver.
  - unfold PaymentIdIndex.remove in Ep. apply bind_Ok in Ep as (r & _ & Ep). rewrite (pi_payment _ H) in Ep.
    destruct r as [e|]; [|by injection Ep]. rewrite decide_False in Ep by multiset_solver. by injection Ep.
  - intros e [_ He]%elem_of_erase_tx. by apply (pi_sized _ H).
  - apply erase_tx_ordered, (pi_ordered _ H).
Qed.

Lemma moved_payment index tx b index' :
  PaymentIdIndex.add cn_fast_hash index (moved_from tx) = Ok (b, index') -> index' = index.
Proof.
  unfold PaymentIdIndex.add. intros (r & Er & E)%bind_Ok. unfold PaymentIdIndex.entry_of in Er.
  apply bind_Ok in Er as ([[? ?] ?] & _ & Er). cbn in Er. injection Er as [= <-]. by injection E.
Qed.

Lemma inputs_amount_u64 tx v : getTransactionAllInputsAmount tx = Ok v -> is_u64 v.
Proof.
  unfold getTransactionAllInputsAmount. assert (H0 : forall a, Ok 0 = Ok a -> is_u64 a) by (intros a [= <-]; by vm_compute).
  revert H0. generalize (Ok 0 : outcome Z). induction (tx_inputs tx) as [|i l IH]; intros o H0 E; [by apply H0|].
  cbn in E. apply IH in E; [done|]. intros a (b & Eb & (c & Ec & Ea)%bind_Ok)%bind_Ok. injection Ea as [= <-]. auto with machine.
Qed.

(** What [add_tx] does to a well-formed pool: nothing, or it adds the
    transaction and its inputs. *)
Lemma add_tx_cases `{V : ITransactionValidator} p now received tx id size tvc kept ok tvc' p' :
  pool_inv p -> tx_ok tx -> 0 < size < 2 ^ 64 -> add_tx m_currency p now received tx id size tvc kept = Ok (ok, tvc', p') ->
  p' = p /\ (tvc_added_to_pool tvc' = true -> tvc_added_to_pool tvc = true) \/
  ok = true /\ tvc_added_to_pool tvc' = true /\ tvc_verification_failed tvc' = false /\ have_tx p id = false /\
  exists d ttl imgs outs, p' = add_details p d ttl imgs outs /\ td_id d = id /\ td_tx d = tx /\ td_blobSize d = size /\
    td_keptByBlock d = kept /\ getTransactionAllInputsAmount tx = Ok (td_fee d + get_outs_money_amount tx) /\
    well_sized d /\ get_ttl tx = Ok ttl /\ (kept = false -> haveSpentInputs p tx = false) /\
    addTransactionInputs p id tx kept = Ok (true, imgs, outs).
Proof.
  intros H Hok Hsz E. unfold add_tx in E.
  destruct (negb (check_inputs_types_supported (prefix tx))); [injection E as [= <- <- <-]; left; split; [done|by try destruct iv]|].
  apply bind_Ok in E as (ia & Eia & E). destruct (Z.ltb_spec ia (get_outs_money_amount tx)); [injection E as [= <- <- <-]; left; split; [done|by try destruct iv]|].
  apply bind_Ok in E as (ttl & Et & E). apply bind_Ok in E as (fus & _ & E).
  destruct (negb (ttl =? 0) && negb kept && _); [injection E as [= <- <- <-]; left; split; [done|by try destruct iv]|].
  destruct (negb kept && haveSpentInputs p tx) eqn:Es; [injection E as [= <- <- <-]; left; split; [done|by try destruct iv]|].
  apply bind_Ok in E as ([iv mub] & _ & E).
  destruct (negb iv && negb kept); [injection E as [= <- <- <-]; left; split; [done|by try destruct iv]|].
  destruct (negb kept && negb _); [injection E as [= <- <- <-]; left; split; [done|by try destruct iv]|].
  destruct (negb kept && bool_decide _); [injection E as [= <- <- <-]; left; split; [done|by try destruct iv]|].
  destruct (have_tx p id) eqn:Eh; [injection E as [= <- <- <-]; left; split; [done|by try destruct iv]|].
  apply bind_Ok in E as ([b pidx] & Ep & E). apply moved_payment in Ep as ->.
  assert (HS : kept = false -> haveSpentInputs p tx = false) by (intros ->; exact Es).
  set (d := {| td_id := id; td_tx := tx; td_blobSize := size; td_fee := ia - get_outs_money_amount tx; td_keptByBlock := kept;
    td_receiveTime := received; td_maxUsedBlock := if iv then mub else no_block; td_lastFailedBlock := no_block |}) in E.
  assert (Hsd : well_sized d).
  { split; [done|]. apply inputs_amount_u64 in Eia. pose proof (u64_range (sum_Z (map out_amount (tx_outputs tx)))) as HO.
    rewrite <- sum_u64_spec in HO. unfold get_outs_money_amount in *. cbn. wunfold. lia. }
  destruct (add_details_inv p d ttl H) as (imgs & outs & Ea & _); [|done..|].
  { apply bool_decide_eq_false in Eh. apply find_tx_None. destruct (find_tx _ _); [|done]. exfalso. eauto. }
  change (addTransactionInputs p id tx kept = Ok (true, imgs, outs)) in Ea.
  rewrite Ea in E. cbn [mbind outcome_bind] in E. injection E as [= <- <- <-]. right. split_and!; try done.
  exists d, ttl, imgs, outs. split_and!; try done. cbn. rewrite Eia. f_equal. lia.
Qed.

Lemma have_tx_false p id : have_tx p id = false -> id ∉ map td_id (p_transactions p).
Proof.
  intros Eh. apply bool_decide_eq_false in Eh. apply find_tx_None. destruct (find_tx _ _); [|done]. exfalso. eauto.
Qed.

Lemma add_tx_inv `{V : ITransactionValidator} p now received tx id size tvc kept r :
  pool_inv p -> tx_ok tx -> 0 < size < 2 ^ 64 -> add_tx m_currency p now received tx id size tvc kept = Ok r -> pool_inv r.2.
Proof.
  intros H Hok Hsz E. destruct r as [[ok tvc'] p'].
  destruct (add_tx_cases _ _ _ _ _ _ _ _ _ _ _ H Hok Hsz E) as [[-> _]|(-> & _ & _ & Eh & d & ttl & imgs & outs & -> & <- & <- & <- & <- & Ef & Hf & Et & HS & Ea)]; [done|].
  destruct (add_details_inv p d ttl H) as (imgs' & outs' & Ea' & HI); [by apply have_tx_false|done..|].
  rewrite Ea in Ea'. injection Ea' as [= <- <-]. exact HI.
Qed.

Lemma with_deleted_inv p m :
  pool_inv p -> pool_inv {| p_spent_key_images := p_spent_key_images p; p_spentOutputs := p_spentOutputs p;
    p_transactions := p_transactions p; p_recentlyDeletedTransactions := m; p_paymentIdIndex := p_paymentIdIndex p;
    p_timestampIndex := p_timestampIndex p; p_ttlIndex := p_ttlIndex p |}.
Proof. intros []. by split. Qed.

Lemma expire_loop_inv p now l p' :
  pool_inv p -> NoDup (map td_id l) -> (forall d, d ∈ l -> d ∈ p_transactions p) ->
  expire_loop m_currency p now l = Ok p' -> pool_inv p'.
Proof.
  revert p. induction l as [|d l IH]; intros p H HN Hl E; cbn [expire_loop] in E; [by injection E as [= <-]|].
  cbn in HN. apply NoDup_cons in HN as [Hn HN]. assert (Hd : d ∈ p_transactions p) by (apply Hl; left).
  destruct (is_expired m_currency p now d).
  - apply bind_Ok in E as (p1 & E1 & E). destruct (removeTransaction_inv p d p1 H Hd E1) as (H1 & Ht & _).
    apply (IH _ (with_deleted_inv _ _ H1)) in E; [done..|]. cbn. rewrite Ht. intros e He. apply elem_of_erase_tx.
    split; [|apply Hl; by right]. intros Ee. apply Hn. rewrite <- Ee. by apply list_elem_of_fmap_2.
  - apply (IH p) in E; [done..|]. intros e He. apply Hl. by right.
Qed.

(** The life of a pool.  The chain behind the validator may change between two
    operations; the transactions passed [check_tx_semantic]. *)
Inductive pool_step (p : tx_memory_pool) : tx_memory_pool -> Prop :=
| step_add (V : ITransactionValidator) now received tx id size tvc kept r :
    tx_ok tx -> 0 < size < 2 ^ 64 -> add_tx m_currency p now received tx id size tvc kept = Ok r -> pool_step p r.2
| step_take id r : take_tx p id = Ok r -> pool_step p r.2
| step_expire now p' : removeExpiredTransactions m_currency p now = Ok p' -> pool_step p p'.

Lemma pool_step_inv p p' : pool_inv p -> pool_step p p' -> pool_inv p'.
Proof.
  intros H [V now received tx id size tvc kept r Hok Hsz E|id r E|now q E].
  - by apply (add_tx_inv _ _ _ _ _ _ _ _ _ H Hok Hsz E).
  - unfold take_tx in E. destruct (find_tx (p_transactions p) id) as [d|] eqn:Ef; [|by injection E as [= <-]].
    apply bind_Ok in E as (q & Eq & E). injection E as [= <-]. apply find_tx_elem in Ef as [Hd _].
    by apply (removeTransaction_inv p d q H Hd Eq).
  - unfold removeExpiredTransactions in E. apply (expire_loop_inv _ now _ q (with_deleted_inv p _ H)) in E; [done|apply (pi_ids _ H)|done].
Qed.

Lemma pool_reachable_inv p : rtc pool_step empty_pool p -> pool_inv p.
Proof.
  intros HR. remember empty_pool as p0 eqn:E0. assert (H0 : pool_inv p0) by (subst; apply empty_pool_inv). clear E0.
  induction HR as [p|p q r S HR IH]; [done|]. apply IH. by apply (pool_step_inv p q).
Qed.
End Invariant.

(** * Block templates *)

Section Templates.
Context {B : BuildConfig} {K : Crypto} {V : ITransactionValidator}.
Variable m_currency : Currency.

Notation imgs_of d := (key_images (tx_inputs (td_tx d))).
Notation outs_of d := (positions (tx_inputs (td_tx d))).

Lemma template_inputs_spec ins imgs outs imgs' outs' :
  template_inputs ins imgs outs = Ok (imgs', outs') ->
  imgs' = list_to_set (key_images ins) ∪ imgs /\ outs' = list_to_set (positions ins) ∪ outs.
Proof.
  revert imgs outs. induction ins as [|[i|i|m] ins IH]; intros imgs outs E; cbn [template_inputs] in E.
  - injection E as [= <- <-]. cbn. by rewrite !union_empty_l_L.
  - by apply IH.
  - apply bind_Ok in E as (? & _ & E). apply IH in E as [-> ->].
    change (key_images (InKey i :: ins)) with (keyImage i :: key_images ins). rewrite list_to_set_cons. split; [|done]. set_solver.
  - apply bind_Ok in E as (? & _ & E). apply IH in E as [-> ->].
    change (positions (InMultisignature m :: ins)) with ((mi_amount m, outputIndex m) :: positions ins).
    rewrite list_to_set_cons. split; [done|]. set_solver.
Qed.

Lemma canAdd_spec t tx :
  canAdd t tx = true ->
  (forall k, k ∈ key_images (tx_inputs tx) -> k ∉ bt_keyImages t) /\
  (forall q, q ∈ positions (tx_inputs tx) -> q ∉ bt_usedOutputs t).
Proof.
  unfold canAdd. rewrite forallb_forall. intros E. split.
  - intros k (i & Hi & Ei)%list_elem_of_omap. destruct i as [|i|]; [done| |done]. injection Ei as [= <-].
    apply list_elem_of_In, E in Hi. by apply bool_decide_eq_true in Hi.
  - intros q (i & Hi & Ei)%list_elem_of_omap. destruct i as [| |i]; [done|done|]. injection Ei as [= <-].
    apply list_elem_of_In, E in Hi. by apply bool_decide_eq_true in Hi.
Qed.

(** The transactions [ds] fit a template: ready, without time to live, spending
    no more than they have, and without conflicts among themselves or with the
    inputs used before. *)
Record selected (p : tx_memory_pool) (t : BlockTemplate) (ds : list TransactionDetails) : Prop := {
  sel_ready : forall d, d ∈ ds -> is_transaction_ready_to_go d = Ok true /\ p_ttlIndex p !! td_id d = None /\
    exists amount, getTransactionAllInputsAmount (td_tx d) = Ok amount /\ get_outs_money_amount (td_tx d) <= amount;
  sel_images : NoDup (concat (map (fun d => imgs_of d) ds));
  sel_outputs : NoDup (concat (map (fun d => outs_of d) ds));
  sel_new_images : forall k, k ∈ concat (map (fun d => imgs_of d) ds) -> k ∉ bt_keyImages t;
  sel_new_outputs : forall q, q ∈ concat (map (fun d => outs_of d) ds) -> q ∉ bt_usedOutputs t;
}.

Lemma selected_nil p t : selected p t [].
Proof. split; cbn; try set_solver; constructor. Qed.

Lemma selected_cons p t d ds imgs outs hs :
  is_transaction_ready_to_go d = Ok true -> p_ttlIndex p !! td_id d = None ->
  (exists amount, getTransactionAllInputsAmount (td_tx d) = Ok amount /\ get_outs_money_amount (td_tx d) <= amount) ->
  tx_ok (td_tx d) -> canAdd t (td_tx d) = true ->
  template_inputs (tx_inputs (td_tx d)) (bt_keyImages t) (bt_usedOutputs t) = Ok (imgs, outs) ->
  selected p {| bt_keyImages := imgs; bt_usedOutputs := outs; bt_txHashes := hs |} ds -> selected p t (d :: ds).
Proof.
  intros HR Httl HA [HN HD] HC E H. apply diff_NoDup in HD as [HP _]. apply canAdd_spec in HC as [HC1 HC2].
  apply template_inputs_spec in E as [-> ->]. destruct H as [H1 H2 H3 H4 H5]. cbn [bt_keyImages bt_usedOutputs] in *. split; cbn [map concat].
  - intros e [->|He]%elem_of_cons; [done|by apply H1].
  - apply NoDup_app. split_and!; [done| |done]. intros k Hk Hk'. apply (H4 k Hk'). apply elem_of_union_l, elem_of_list_to_set, Hk.
  - apply NoDup_app. split_and!; [done| |done]. intros q Hq Hq'. apply (H5 q Hq'). apply elem_of_union_l, elem_of_list_to_set, Hq.
  - intros k [Hk|Hk]%elem_of_app; [by apply HC1|]. intros Ht. apply (H4 k Hk). by apply elem_of_union_r.
  - intros q [Hq|Hq]%elem_of_app; [by apply HC2|]. intros Ht. apply (H5 q Hq). by apply elem_of_union_r.
Qed.

Definition sizes (ds : list TransactionDetails) : Z := sum_Z (map td_blobSize ds).
Definition fees (ds : list TransactionDetails) : Z := sum_Z (map td_fee ds).

Lemma sizes_nonneg ds : (forall d, d ∈ ds -> well_sized d) -> 0 <= sizes ds /\ 0 <= fees ds.
Proof.
  intros H. split; apply sum_Z_nonneg; apply Forall_map, Forall_forall; intros d Hd; destruct (H d Hd) as [? [? ?]]; cbn; lia.
Qed.

Lemma template_loop_spec p median mx l t ts f t' ts' f' :
  (forall d, d ∈ l -> tx_ok (td_tx d) /\ well_sized d) ->
  0 <= ts -> ts + sizes l < 2 ^ 64 -> 0 <= f -> f + fees l < 2 ^ 64 ->
  template_loop p median mx l t ts f = Ok (t', ts', f') ->
  exists ds, sublist ds l /\ selected p t ds /\ bt_txHashes t' = bt_txHashes t ++ map td_id ds /\
    ts' = ts + sizes ds /\ f' = f + fees ds /\ (ds = [] \/ ts' <= Z.max median mx).
Proof.
  change (2 ^ 64) with 18446744073709551616.
  revert t ts f. induction l as [|d l IH]; intros t ts f HO Hts Hs Hf Hfs E; cbn [template_loop] in E.
  { injection E as [= <- <- <-]. exists []. rewrite app_nil_r. cbn.
    split_and!; try done; [apply selected_nil|lia|lia|by left]. }
  assert (HO' : forall e, e ∈ l -> tx_ok (td_tx e) /\ well_sized e) by (intros e He; apply HO; by right).
  destruct (HO d ltac:(left)) as [Hok Hsz]. pose proof (sizes_nonneg l ltac:(intros e He; by apply HO')) as [Hn1 Hn2].
  unfold sizes, fees in Hs, Hfs. cbn [map sum_Z foldr] in Hs, Hfs. fold (sum_Z (map td_blobSize l)) in Hs. fold (sum_Z (map td_fee l)) in Hfs.
  fold (sizes l) in Hs. fold (fees l) in Hfs. destruct Hsz as [Hd1 Hd2].
  assert (HSkip : template_loop p median mx l t ts f = Ok (t', ts', f') ->
    exists ds, sublist ds (d :: l) /\ selected p t ds /\ bt_txHashes t' = bt_txHashes t ++ map td_id ds /\
      ts' = ts + sizes ds /\ f' = f + fees ds /\ (ds = [] \/ ts' <= Z.max median mx)).
  { intros E'. apply IH in E' as (ds & H1 & H2); [|done|lia|wunfold; lia|lia|wunfold; lia].
    exists ds. split; [by constructor|done]. }
  case_bool_decide as Httl; [by apply HSkip|]. apply bind_Ok in E as (amount & Ea & E).
  destruct (Z.ltb_spec amount (get_outs_money_amount (td_tx d))); [by apply HSkip|].
  rewrite (u64_small (ts + _)) in E by (wunfold; lia). rewrite (u64_small (f + _)) in E by (wunfold; lia).
  destruct (Z.ltb_spec (if td_fee d =? 0 then median else mx) (ts + td_blobSize d)) as [|Hlim]; [by apply HSkip|].
  apply bind_Ok in E as (ready & Er & E). apply bind_Ok in E as ([ok t1] & Et & E).
  destruct ready; [|injection Et as [= <- <-]; by apply HSkip]. unfold addTransaction in Et.
  destruct (canAdd t (td_tx d)) eqn:Ec; cbn [negb] in Et; [|injection Et as [= <- <-]; by apply HSkip].
  apply bind_Ok in Et as ([imgs outs] & Ei & Et). injection Et as [= <- <-].
  apply IH in E as (ds & H1 & H2 & H3 & H4 & H5 & H6); [|done|lia|lia|wunfold; lia|lia].
  exists (d :: ds). split_and!.
  - by constructor.
  - eapply selected_cons; try done; [|by eexists]. destruct (p_ttlIndex p !! td_id d); [|done]. exfalso. apply Httl. by eexists.
  - rewrite H3. cbn. by rewrite <- app_assoc.
  - change (sizes (d :: ds)) with (td_blobSize d + sizes ds). lia.
  - change (fees (d :: ds)) with (td_fee d + fees ds). lia.
  - right. destruct H6 as [->|]; [|done]. change (sizes []) with 0 in H4. destruct (td_fee d =? 0); lia.
Qed.
End Templates.

(** * Taking back what was added *)

Section Claims.
Context {B : BuildConfig} {K : Crypto}.
Variable m_currency : Currency.

Lemma payment_remove_empty tx e :
  PaymentIdIndex.entry_of cn_fast_hash tx = Ok e -> PaymentIdIndex.remove cn_fast_hash ∅ tx = Ok (false, ∅).
Proof.
  intros Ee. unfold PaymentIdIndex.remove. rewrite Ee. cbn [mbind outcome_bind]. destruct e as [e|]; [|done].
  by rewrite decide_False by multiset_solver.
Qed.

Lemma remove_added p d ttl imgs outs e :
  pool_inv p -> td_id d ∉ map td_id (p_transactions p) -> tx_ok (td_tx d) -> well_sized d -> get_ttl (td_tx d) = Ok ttl ->
  (td_keptByBlock d = false -> haveSpentInputs p (td_tx d) = false) ->
  addTransactionInputs p (td_id d) (td_tx d) (td_keptByBlock d) = Ok (true, imgs, outs) ->
  PaymentIdIndex.entry_of cn_fast_hash (td_tx d) = Ok e ->
  removeTransaction (add_details p d ttl imgs outs) d = Ok p.
Proof.
  intros H Hid Hok Hsz Httl HS Ea Ee. pose proof Hok as [HN HD]. apply diff_NoDup in HD as [HP _].
  destruct (add_details_inv p d ttl H) as (imgs' & outs' & Ea' & H'); [done..|]. rewrite Ea in Ea'. injection Ea' as [= <- <-].
  assert (Hd : d ∈ p_transactions (add_details p d ttl imgs outs)) by (apply elem_of_insert_tx; by left).
  destruct (remove_inputs_spec (td_id d) (td_keptByBlock d) (tx_inputs (td_tx d)) imgs outs HN HP) as (imgs2 & Er & HL).
  { intros k Hk. rewrite (default_images (add_details p d ttl imgs outs)) by done. apply elem_of_holders. eauto. }
  { intros Ek q Hq. apply (pi_outputs _ H'). eauto. }
  assert (Hh : forall k, td_id d ∉ holders (p_transactions p) k).
  { intros k (x & Hx & Ex & _)%elem_of_holders. apply Hid. rewrite <- Ex. by apply list_elem_of_fmap_2. }
  unfold removeTransaction, removeTransactionInputs, add_details. pool_simpl. rewrite Er. cbn [mbind outcome_bind].
  rewrite (pi_payment _ H), (payment_remove_empty _ e Ee). cbn [mbind outcome_bind].
  unfold TimestampTransactionsIndex.remove, TimestampTransactionsIndex.add. rewrite TimestampBlocksIndex.timestamp_remove_add.
  2:{ intros Hin. rewrite (pi_timestamps _ H) in Hin. apply list_elem_of_fmap in Hin as (x & [= _ Ex] & Hx). apply Hid.
      rewrite Ex. by apply list_elem_of_fmap_2. }
  assert (imgs2 = p_spent_key_images p) as ->.
  { apply map_eq. intros k. rewrite HL, (default_images (add_details p d ttl imgs outs)) by done.
    pose proof (pi_images _ H' k) as Hk. unfold add_details in *. cbn [p_transactions p_spent_key_images] in Hk |- *. rewrite holders_insert in Hk |- *.
    rewrite (pi_images _ H). specialize (Hh k). destruct (decide (k ∈ key_images _)) as [Hk'|Hk']; cbn zeta.
    - assert (({[td_id d]} ∪ holders (p_transactions p) k) ∖ {[td_id d]} = holders (p_transactions p) k) as -> by set_solver. done.
    - exact Hk. }
  assert ((if td_keptByBlock d then outs else outs ∖ list_to_set (positions (tx_inputs (td_tx d)))) = p_spentOutputs p) as ->.
  { unfold addTransactionInputs in Ea. destruct (add_inputs_spec (td_id d) (td_keptByBlock d) (tx_inputs (td_tx d))
      (p_spent_key_images p) (p_spentOutputs p) HN HP) as (? & Eo & _).
    { intros k Hk. rewrite default_images by done. split; [done|]. intros Ek. by apply (not_spent_inputs p (td_tx d) H (HS Ek)). }
    { intros Ek. apply (not_spent_inputs p (td_tx d) H (HS Ek)). }
    rewrite Ea in Eo. injection Eo as [= _ ->]. destruct (td_keptByBlock d); [done|].
    apply set_eq. intros q. pose proof (proj2 (not_spent_inputs p (td_tx d) H (HS eq_refl)) q) as Hq.
    rewrite elem_of_difference, elem_of_union, elem_of_list_to_set. tauto. }
  rewrite erase_insert_tx by done. pose proof (pi_payment _ H) as Epp. destruct p as [i o l r pp t tt]; cbn in *. subst pp.
  assert (Hn : tt !! td_id d = None).
  { destruct (tt !! td_id d) as [t'|] eqn:Et; [|done]. apply (pi_ttl _ H) in Et as (x & Hx & Ex & _).
    exfalso. apply Hid. rewrite <- Ex. by apply list_elem_of_fmap_2. }
  rewrite Hn. destruct (negb (ttl =? 0)); [by rewrite delete_insert_id|by rewrite delete_id].
Qed.

(** C3.  Every state the pool can reach is consistent: ids are unique, the
    tables of spent key images and outputs are exactly those of the transactions
    in the pool, transactions that came from peers do not conflict, the time and
    TTL indices list exactly the transactions in the pool, and the ordered view
    is ordered by fee per byte, then size, then age.  (The payment id index is
    always empty: [add_tx] gives it a transaction that was moved away.) *)
Theorem pool_invariant p : rtc (pool_step m_currency) empty_pool p -> pool_inv p.
Proof. apply pool_reachable_inv. Qed.

(** Adding a transaction to the pool is all or nothing: either the pool is
    unchanged, or the call succeeded, the transaction pays a non-negative fee,
    and [take_tx] gives it back with its size and fee and restores the pool
    exactly. *)
Theorem add_tx_take_tx `{V : ITransactionValidator} p now received tx id size tvc kept ok tvc' p' e :
  rtc (pool_step m_currency) empty_pool p -> tx_ok tx -> 0 < size < 2 ^ 64 ->
  PaymentIdIndex.entry_of cn_fast_hash tx = Ok e -> tvc_added_to_pool tvc = false ->
  add_tx m_currency p now received tx id size tvc kept = Ok (ok, tvc', p') ->
  if tvc_added_to_pool tvc' then
    ok = true /\ tvc_verification_failed tvc' = false /\ have_tx p id = false /\
    exists fee, is_u64 fee /\ getTransactionAllInputsAmount tx = Ok (fee + get_outs_money_amount tx) /\
      take_tx p' id = Ok (Some (tx, size, fee), p)
  else p' = p.
Proof.
  intros HR Hok Hsz Ee Htvc E. apply pool_reachable_inv in HR as H.
  destruct (add_tx_cases _ _ _ _ _ _ _ _ _ _ _ _ H Hok Hsz E)
    as [[-> Hn]|(-> & Ht & Hv & Eh & d & ttl & imgs & outs & -> & <- & <- & <- & <- & Ef & Hd & Et & HS & Ea)].
  - destruct (tvc_added_to_pool tvc'); [|done]. by rewrite Hn in Htvc.
  - rewrite Ht. split_and!; try done. exists (td_fee d). split_and!; [apply Hd|done|]. unfold take_tx.
    apply have_tx_false in Eh.
    destruct (add_details_inv p d ttl H) as (imgs' & outs' & Ea' & H'); [done..|]. rewrite Ea in Ea'. injection Ea' as [= <- <-].
    rewrite (find_tx_Some _ _ d (pi_ids _ H')); [|apply elem_of_insert_tx; by left|done].
    by rewrite (remove_added p d ttl imgs outs e).
Qed.

(** C33.  A block template: the chosen transactions are transactions of the pool,
    in the order of the fee index from its end; each is ready to go, has no time
    to live and spends no more than it has; no two of them share a key image or a
    deposit; the size and fee are their sums, and the size keeps the limits. *)
Theorem fill_block_template_sound `{V : ITransactionValidator} p median maxCumulativeSize hashes total fee :
  rtc (pool_step m_currency) empty_pool p -> sizes (p_transactions p) < 2 ^ 64 -> fees (p_transactions p) < 2 ^ 64 ->
  fill_block_template m_currency p median maxCumulativeSize = Ok (hashes, total, fee) ->
  exists ds, sublist ds (rev (p_transactions p)) /\ hashes = map td_id ds /\ total = sizes ds /\ fee = fees ds /\
    selected p empty_template ds /\
    (ds = [] \/ total <= Z.max median (Z.min (u64 (u64 (125 * median) / 100 - minerTxBlobReservedSize m_currency)) maxCumulativeSize)).
Proof.
  intros HR Hs Hf E. apply pool_reachable_inv in HR as H. unfold fill_block_template in E.
  apply bind_Ok in E as ([[t ts] f] & E & [= <- <- <-]).
  assert (HP : forall g : TransactionDetails -> Z, sum_Z (map g (rev (p_transactions p))) = sum_Z (map g (p_transactions p))).
  { intros g. apply sum_Z_perm. by rewrite <- Permutation_rev. }
  apply template_loop_spec in E as (ds & H1 & H2 & H3 & H4 & H5 & H6).
  - exists ds. split_and!; done.
  - intros d Hd. rewrite <- Permutation_rev in Hd. split; [by apply (pi_ok _ H)|by apply (pi_sized _ H)].
  - lia.
  - unfold sizes. rewrite HP. exact Hs.
  - lia.
  - unfold fees. rewrite HP. exact Hf.
Qed.
End Claims.

(** * The stateless checks *)

Lemma keyimages_diff_NoDup ki ins :
  keyimages_diff ki ins = true -> NoDup (key_images ins) /\ forall k, k ∈ key_images ins -> k ∉ ki.
Proof.
  revert ki. induction ins as [|[i|i|m] ins IH]; intros ki E; cbn [keyimages_diff] in E; [|by apply IH| |by apply IH].
  { split; [constructor|]. by intros k ?%elem_of_nil. }
  case_decide as Hi; [done|]. apply IH in E as [HN HK]. change (key_images (InKey i :: ins)) with (keyImage i :: key_images ins).
  split; [apply NoDup_cons; split; [|done]; intros Hk; apply (HK _ Hk); set_solver|].
  intros k [->|Hk]%elem_of_cons; [done|]. intros Hin. apply (HK k Hk). set_solver.
Qed.

(** The amount of an input without interest. *)
Definition plain_amount (i : TransactionInput) : Z :=
  match i with InKey k => ki_amount k | InMultisignature m => mi_amount m | InBase _ => 0 end.
Definition no_interest (i : TransactionInput) : Prop :=
  match i with InMultisignature m => mi_term m = 0 | _ => True end.

Lemma inputs_no_overflow_spec money ins :
  is_u64 money -> Forall no_interest ins -> Forall (fun i => is_u64 (plain_amount i)) ins ->
  inputs_no_overflow money ins = no_sum_overflow money (map plain_amount ins).
Proof.
  intros Hm HI HA. revert money Hm. induction HI as [|i ins Hi HI IH]; intros money Hm; [done|].
  apply Forall_cons in HA as [Ha HA]. cbn [inputs_no_overflow no_sum_overflow map].
  assert (overflow_input_amount i = Some (plain_amount i)) as ->.
  { destruct i as [i|i|m]; [done..|]. cbn in Hi |- *. by rewrite Hi. }
  destruct (_ <? _); [done|]. apply IH; [done|auto with machine].
Qed.

Lemma all_inputs_amount_spec ins acc :
  Forall no_interest ins ->
  fold_left (fun acc i => amount ← acc; v ← getTransactionInputAmount i; Ok (u64 (amount + v))) ins (Ok (u64 acc)) =
  Ok (u64 (acc + sum_Z (map plain_amount ins))).
Proof.
  intros HI. revert acc. induction HI as [|i ins Hi HI IH]; intros acc; [cbn; by rewrite Z.add_0_r|].
  assert (Ei : getTransactionInputAmount i = Ok (plain_amount i)).
  { destruct i as [i|i|m]; [done..|]. cbn in Hi |- *. by rewrite Hi. }
  cbn [fold_left map]. rewrite Ei. cbn [mbind outcome_bind]. rewrite u64_add_l, IH. do 2 f_equal.
  change (sum_Z (plain_amount i :: map plain_amount ins)) with (plain_amount i + sum_Z (map plain_amount ins)). lia.
Qed.

Section Semantic.
Context {K : Crypto}.

(** C34.  A transaction that passes [check_tx_semantic] has inputs, no two of
    which spend the same key image or the same deposit, and outputs whose sum
    fits 64 bits and does not exceed what the wallet rules count as its inputs;
    without interest-bearing inputs that is the true sum of its inputs: it
    creates no money. *)
Theorem check_tx_semantic_sound tx :
  Forall (fun o => is_u64 (out_amount o)) (tx_outputs tx) ->
  Forall (fun i => is_u64 (plain_amount i)) (tx_inputs tx) ->
  check_tx_semantic tx = Ok true ->
  tx_inputs tx <> [] /\ tx_ok tx /\ sum_Z (map out_amount (tx_outputs tx)) < 2 ^ 64 /\
  (exists v, getTransactionAllInputsAmount tx = Ok v /\ sum_Z (map out_amount (tx_outputs tx)) <= v) /\
  (Forall no_interest (tx_inputs tx) ->
   sum_Z (map out_amount (tx_outputs tx)) <= sum_Z (map plain_amount (tx_inputs tx)) < 2 ^ 64).
Proof.
  intros HO HI E. unfold check_tx_semantic in E. destruct (tx_inputs tx) as [|i0 ins] eqn:Eins; [done|]. rewrite <- Eins in *.
  destruct (check_inputs_types_supported (prefix tx)); [|done]. apply bind_Ok in E as (valid & _ & E).
  destruct valid; [|done]. destruct (check_money_overflow (prefix tx)) eqn:Em; [|done].
  apply bind_Ok in E as (v & Ev & E). cbn [negb] in E. destruct (Z.ltb_spec v (get_outs_money_amount tx)); [done|].
  destruct (check_tx_inputs_keyimages_diff tx) eqn:Ek; [|done]. injection E as [= Ed].
  apply andb_true_iff in Em as [Emi Emo]. destruct (check_outs_overflow_exact tx HO) as [Hiff Hsum].
  rewrite (Hsum Emo) in *. apply Hiff in Emo as Hlt.
  split_and!; [congruence| |done|eauto|].
  - split; [by apply (keyimages_diff_NoDup ∅)|done].
  - intros HN. unfold check_inputs_overflow in Emi. fold (tx_inputs tx) in Emi. rewrite inputs_no_overflow_spec in Emi by (done || (wunfold; lia)).
    apply no_sum_overflow_spec in Emi; [|wunfold; lia|by apply Forall_map].
    unfold getTransactionAllInputsAmount in Ev. change (Ok 0) with (Ok (u64 0)) in Ev. rewrite all_inputs_amount_spec in Ev by done.
    injection Ev as [= <-]. rewrite Z.add_0_l in *. rewrite u64_small in *; [lia|]. split; [|done].
    apply sum_Z_nonneg. apply Forall_map. eapply Forall_impl; [exact HI|]. unfold is_u64. cbn. lia.
Qed.
End Semantic.

(** * Witnesses *)

Definition toy_validator : ITransactionValidator := {|
  validator_checkTransactionInputs := fun _ b => Ok (true, b);
  validator_recheckTransactionInputs := fun _ b c => Ok (true, b, c);
  validator_haveSpentKeyImages := fun _ => false;
  validator_checkTransactionSize := fun _ => true |}.
Definition pool_tx : Transaction :=
  tx_of [InKey {| ki_amount := 1000; outputIndexes := [0]; keyImage := sample_key 5 |}] [key_out 600; key_out 300].
Definition pool_add := add_tx (B := debug_build) (K := toy_crypto) (V := toy_validator) default_currency empty_pool 50 60 pool_tx
  (sample_key 7) 200 no_tvc false.
Definition pool_after : tx_memory_pool := match pool_add with Ok (_, _, p) => p | _ => empty_pool end.

Lemma pool_tx_ok : tx_ok pool_tx.
Proof. split; [repeat constructor; by intros ?%elem_of_nil|reflexivity]. Qed.

Lemma pool_after_reachable : rtc (pool_step (B := debug_build) (K := toy_crypto) default_currency) empty_pool pool_after.
Proof.
  destruct pool_add as [[[ok tvc] p]|e| |] eqn:E; try (vm_compute in E; discriminate E).
  unfold pool_after. rewrite E. apply rtc_once.
  exact (step_add (B := debug_build) (K := toy_crypto) default_currency empty_pool toy_validator 50 60 pool_tx (sample_key 7) 200 no_tvc false
    (ok, tvc, p) pool_tx_ok ltac:(lia) E).
Qed.

Lemma pool_invariant_witness :
  pool_inv (B := debug_build) pool_after /\ map td_id (p_transactions pool_after) = [sample_key 7].
Proof.
  split; [|vm_compute; reflexivity].
  exact (pool_invariant (B := debug_build) (K := toy_crypto) default_currency pool_after pool_after_reachable).
Defined.

Lemma add_tx_take_tx_witness :
  match pool_add with
  | Ok (ok, tvc', p') => tvc_added_to_pool tvc' = true /\
      exists fee, is_u64 fee /\ getTransactionAllInputsAmount pool_tx = Ok (fee + get_outs_money_amount pool_tx) /\
        take_tx (B := debug_build) (K := toy_crypto) p' (sample_key 7) = Ok (Some (pool_tx, 200, fee), empty_pool)
  | _ => False
  end.
Proof.
  destruct pool_add as [[[ok tvc'] p']|e| |] eqn:E; try (vm_compute in E; discriminate E).
  pose proof (add_tx_take_tx (B := debug_build) (K := toy_crypto) (V := toy_validator) default_currency empty_pool 50 60 pool_tx
    (sample_key 7) 200 no_tvc false ok tvc' p' None (rtc_refl _ _) pool_tx_ok ltac:(lia) ltac:(vm_compute; reflexivity) eq_refl E) as H.
  assert (Ht : tvc_added_to_pool tvc' = true).
  { apply (f_equal (fun o => match o with Ok (_, t, _) => tvc_added_to_pool t | _ => false end)) in E. rewrite <- E. vm_compute. reflexivity. }
  rewrite Ht in H. split; [exact Ht|]. apply H.
Defined.

Lemma fill_block_template_sound_witness :
  exists ds, [sample_key 7] = map td_id ds /\ 200 = sizes ds /\ 100 = fees ds /\
    selected (V := toy_validator) pool_after empty_template ds.
Proof.
  destruct (fill_block_template_sound (B := debug_build) (K := toy_crypto) (V := toy_validator) default_currency pool_after 100000 200000
    [sample_key 7] 200 100 pool_after_reachable ltac:(vm_compute; reflexivity) ltac:(vm_compute; reflexivity) ltac:(vm_compute; reflexivity))
    as (ds & _ & H1 & H2 & H3 & H4 & _).
  exists ds. split_and!; assumption.
Defined.

Lemma check_tx_semantic_sound_witness :
  tx_ok pool_tx /\ sum_Z (map out_amount (tx_outputs pool_tx)) <= sum_Z (map plain_amount (tx_inputs pool_tx)).
Proof.
  destruct (check_tx_semantic_sound (K := toy_crypto) pool_tx) as (_ & H1 & _ & _ & H2).
  - repeat constructor; vm_compute; congruence.
  - repeat constructor; vm_compute; congruence.
  - vm_compute. reflexivity.
  - split; [exact H1|]. apply H2. repeat constructor.
Defined.
