(* ===== verification/Reorganization.v ===== *)
(** The chain and the transaction pool together: the blockchain as the validator
    of the pool, moving transactions between the two, alternative chains and
    reorganisation, and [addNewBlock] ([CryptoNoteCore/Blockchain.cpp]).

    [now] is the time during a call and [dns] the checkpoint records of the DNS
    server.  The iterators of [m_alternative_chains] that an alternative chain is
    a list of are pairs of key and entry.  Messages, observers and log output are
    not modelled. *)
From stdpp Require Import gmultiset.
From S2P Require Import Prelude CryptoNote Serializer Serialization TransactionExtra Interest Currency Difficulty.
From S2P Require Import DepositIndex BlockIndex Checkpoints UpgradeDetector TreeHash BlockchainIndices ChainState Validation.
From S2P Require Import Blockchain TransactionPool.

Record Node := { n_chain : Blockchain; n_pool : tx_memory_pool }.
Definition with_pool (n : Node) (p : tx_memory_pool) : Node := {| n_chain := n_chain n; n_pool := p |}.

Definition with_alternatives (bc : Blockchain) (alt : gmap (list Z) BlockEntry) (orphans : OrphanBlocksIndex.t) : Blockchain := {|
  m_blocks := m_blocks bc; m_blockIndex := m_blockIndex bc; m_depositIndex := m_depositIndex bc; m_store := m_store bc;
  m_alternative_chains := alt; m_checkpoints := m_checkpoints bc;
  m_votingCompleteHeight := m_votingCompleteHeight bc; m_current_block_cumul_sz_limit := m_current_block_cumul_sz_limit bc;
  m_timestampIndex := m_timestampIndex bc; m_generatedTransactionsIndex := m_generatedTransactionsIndex bc;
  m_orthanBlocksIndex := orphans |}.
Definition with_checkpoints (bc : Blockchain) (cp : Checkpoints) : Blockchain := {|
  m_blocks := m_blocks bc; m_blockIndex := m_blockIndex bc; m_depositIndex := m_depositIndex bc; m_store := m_store bc;
  m_alternative_chains := m_alternative_chains bc; m_checkpoints := cp;
  m_votingCompleteHeight := m_votingCompleteHeight bc; m_current_block_cumul_sz_limit := m_current_block_cumul_sz_limit bc;
  m_timestampIndex := m_timestampIndex bc; m_generatedTransactionsIndex := m_generatedTransactionsIndex bc;
  m_orthanBlocksIndex := m_orthanBlocksIndex bc |}.

Section Node.
Context {B : BuildConfig} {K : Crypto}.
Variable m_currency : Currency.
Variable now : Z.

(** * The blockchain as the validator of the pool *)

Definition getBlockIdByHeight (bc : Blockchain) (height : Z) : outcome (list Z) :=
  _ ← massert (height <? BlockIndex.size (m_blockIndex bc));
  getBlockId (m_blockIndex bc) height.

(** [getTailId(height)]. *)
Definition getTail (bc : Blockchain) : outcome BlockInfo :=
  _ ← massert (negb (length (m_blocks bc) =? 0)%nat);
  id ← getTailId bc;
  Ok {| bi_height := u32 (getCurrentBlockchainHeight bc - 1); bi_id := id |}.

(** [checkTransactionInputs(tx, max_used_block_height, max_used_block_id, tail)]:
    the height is written even when the check fails, the id only when it
    succeeds.  [with_tail] is whether [tail] is not null. *)
Definition checkTransactionInputs_at (bc : Blockchain) (tx : Transaction) (maxUsed : BlockInfo) (with_tail : bool)
  : outcome (bool * BlockInfo * BlockInfo) :=
  tail ← (if with_tail then getTail bc else Ok no_block);
  '(res, pmax) ← checkTransactionInputs m_currency bc now tx (Some (bi_height maxUsed));
  let height := default (bi_height maxUsed) pmax in
  let maxUsed := {| bi_height := height; bi_id := bi_id maxUsed |} in
  if negb (res : bool) then Ok (false, maxUsed, tail)
  else if negb (height <? zlen (m_blocks bc)) then Ok (false, maxUsed, tail)
  else
    e ← sget (m_blocks bc) height;
    id ← get_block_hash_opt cn_fast_hash (bl e);
    Ok (true, {| bi_height := height; bi_id := default (bi_id maxUsed) id |}, tail).

(** The first overload of the interface. *)
Definition chain_checkTransactionInputs (bc : Blockchain) (tx : Transaction) (maxUsedBlock : BlockInfo)
  : outcome (bool * BlockInfo) :=
  '(ok, maxUsedBlock, _) ← checkTransactionInputs_at bc tx maxUsedBlock false;
  Ok ((ok : bool) && check_tx_outputs m_currency tx, maxUsedBlock).

(** The second overload, which remembers the block of the last failure. *)
Definition chain_recheckTransactionInputs (bc : Blockchain) (tx : Transaction) (maxUsedBlock lastFailed : BlockInfo)
  : outcome (bool * BlockInfo * BlockInfo) :=
  let check :=
    '(ok, maxUsedBlock, tail) ← checkTransactionInputs_at bc tx maxUsedBlock true;
    Ok (ok, maxUsedBlock, if ok : bool then lastFailed else tail) in
  if bi_empty maxUsedBlock then
    known ← (if negb (bi_empty lastFailed) && (bi_height lastFailed <? getCurrentBlockchainHeight bc)
             then id ← getBlockIdByHeight bc (bi_height lastFailed); Ok (bool_decide (id = bi_id lastFailed))
             else Ok false);
    if known : bool then Ok (false, maxUsedBlock, lastFailed) else check
  else if getCurrentBlockchainHeight bc <=? bi_height maxUsedBlock then Ok (false, maxUsedBlock, lastFailed)
  else
    id ← getBlockIdByHeight bc (bi_height maxUsedBlock);
    if negb (bool_decide (id = bi_id maxUsedBlock)) then
      failed ← getBlockIdByHeight bc (bi_height lastFailed);
      if bool_decide (bi_id lastFailed = failed) then Ok (false, maxUsedBlock, lastFailed) else check
    else Ok (true, maxUsedBlock, lastFailed).

Definition chain_validator (bc : Blockchain) : ITransactionValidator := {|
  validator_checkTransactionInputs := chain_checkTransactionInputs bc;
  validator_recheckTransactionInputs := chain_recheckTransactionInputs bc;
  validator_haveSpentKeyImages := haveTransactionKeyImagesAsSpent bc;
  validator_checkTransactionSize := checkTransactionSize m_currency bc |}.

(** * Moving transactions between the chain and the pool *)

(** [add_tx(tx, tvc, keeped_by_block, height)] of the pool. *)
Definition add_tx_hashed (n : Node) (tx : Transaction) (tvc : tx_verification_context) (kept : bool)
  : outcome (bool * tx_verification_context * tx_memory_pool) :=
  '(_, h, blobSize) ← getObjectHash cn_fast_hash (@serialize_Transaction) tx;
  add_tx (V := chain_validator (n_chain n)) m_currency (n_pool n) now now tx h blobSize tvc kept.

(** Puts transactions back in this order, as kept by a block. *)
Fixpoint put_back (n : Node) (txs : list Transaction) : outcome Node :=
  match txs with
  | [] => Ok n
  | tx :: txs =>
      '(ok, _, p) ← add_tx_hashed n tx no_tvc true;
      if ok : bool then put_back (with_pool n p) txs else Throw runtime_error
  end.

(** [taken] are the transactions taken so far, last first. *)
Fixpoint load_loop (n : Node) (hashes : list (list Z)) (taken : list Transaction) : outcome (option (list Transaction) * Node) :=
  match hashes with
  | [] => Ok (Some (rev taken), n)
  | h :: hashes =>
      '(r, p) ← take_tx (n_pool n) h;
      match r with
      | Some (tx, _, _) => load_loop (with_pool n p) hashes (tx :: taken)
      | None => n ← put_back (with_pool n p) taken; Ok (None, n)
      end
  end.
Definition loadTransactions (n : Node) (block : Block) : outcome (option (list Transaction) * Node) :=
  load_loop n (transactionHashes block) [].
Definition saveTransactions (n : Node) (transactions : list Transaction) : outcome Node := put_back n (rev transactions).

(** [pushBlock(blockData, id, bvc, height)]. *)
Definition pushBlock_pooled (n : Node) (blockData : Block) (id : list Z) (bvc : block_verification_context)
  : outcome (bool * block_verification_context * Node) :=
  '(r, n) ← loadTransactions n blockData;
  match r with
  | None => Ok (false, fail bvc, n)
  | Some transactions =>
      '(ok, bvc, bc) ← pushBlock m_currency (n_chain n) now blockData transactions id bvc;
      let n := {| n_chain := bc; n_pool := n_pool n |} in
      if ok : bool then Ok (true, bvc, n)
      else n ← saveTransactions n transactions; Ok (false, bvc, n)
  end.

(** [popBlock]: the transactions go back to the pool before the block is popped. *)
Definition popBlock_pooled (n : Node) (blockHash : list Z) : outcome Node :=
  match last (m_blocks (n_chain n)) with
  | None => Ok n
  | Some e =>
      n ← saveTransactions n (map te_tx (drop 1 (be_transactions e)));
      '(bc, _) ← popBlock m_currency (n_chain n) blockHash;
      Ok {| n_chain := bc; n_pool := n_pool n |}
  end.

(** [getBlockchainTransactions] and then the pool: the transactions found and the
    hashes missed. *)
Fixpoint chain_transactions (bc : Blockchain) (ids : list (list Z)) : outcome (list Transaction * list (list Z)) :=
  match ids with
  | [] => Ok ([], [])
  | id :: ids =>
      found ← (match m_transactionMap (m_store bc) !! id with
               | None => Ok None
               | Some idx => e ← transactionByIndex bc idx; Ok (Some (te_tx e))
               end);
      '(txs, missed) ← chain_transactions bc ids;
      Ok (match found with Some tx => (tx :: txs, missed) | None => (txs, id :: missed) end)
  end.
Definition pool_transactions (p : tx_memory_pool) (ids : list (list Z)) : list Transaction * list (list Z) :=
  foldr (fun id acc => match find_tx (p_transactions p) id with
    | Some d => (td_tx d :: acc.1, acc.2) | None => (acc.1, id :: acc.2) end) ([], []) ids.
Definition getTransactions (n : Node) (ids : list (list Z)) : outcome (list Transaction * list (list Z)) :=
  '(txs, missed) ← chain_transactions (n_chain n) ids;
  let '(more, missed) := pool_transactions (n_pool n) missed in
  Ok (txs ++ more, missed).

(** The size, and whether it is precise. *)
Definition getBlockCumulativeSize (n : Node) (block : Block) : outcome (bool * Z) :=
  '(blockTxs, missedTxs) ← getTransactions n (transactionHashes block);
  '(_, base) ← getObjectBinarySize (@serialize_Transaction) (baseTransaction block);
  size ← foldr (fun tx acc => total ← acc; '(_, s) ← getObjectBinarySize (@serialize_Transaction) tx; Ok (u64 (total + s)))
           (Ok base) (rev blockTxs);
  Ok (bool_decide (missedTxs = []), size).

(** * Alternative chains *)

Definition getBlockMajorVersionForHeight (bc : Blockchain) (height : Z) : Z :=
  if upgradeHeightV2_of m_currency bc <? height then BLOCK_MAJOR_VERSION_2 else BLOCK_MAJOR_VERSION_1.

(** The vectors get the last [min(alt_chain.size(), DFC)] blocks. *)
Definition get_next_difficulty_for_alternative_chain (bc : Blockchain) (alt_chain : list (list Z * BlockEntry)) : outcome Z :=
  let DFC := getBlockMajorVersionForHeight bc (u32 (zlen alt_chain)) in
  let count := Z.min (zlen alt_chain) DFC in
  let window := drop (length alt_chain - Z.to_nat count) alt_chain in
  LWMA3Difficulty m_currency (map (fun e => block_timestamp e.2) window) (map (fun e => cumulative_difficulty e.2) window).

(** The do-while loop of [complete_timestamps_vector] from height [h] down. *)
Fixpoint timestamps_loop (fuel : nat) (bc : Blockchain) (h stop_offset : Z) (timestamps : list Z) : outcome (list Z) :=
  match fuel with
  | O => Undefined
  | S fuel =>
      e ← sget (m_blocks bc) h;
      let timestamps := timestamps ++ [block_timestamp e] in
      if h =? 0 then Ok timestamps
      else if h - 1 =? stop_offset then Ok timestamps
      else timestamps_loop fuel bc (h - 1) stop_offset timestamps
  end.
Definition complete_timestamps_vector (bc : Blockchain) (start_top_height : Z) (timestamps : list Z) : outcome (bool * list Z) :=
  if timestampCheckWindow m_currency <=? zlen timestamps then Ok (true, timestamps)
  else
    let need_elements := timestampCheckWindow m_currency - zlen timestamps in
    if negb (start_top_height <? zlen (m_blocks bc)) then Ok (false, timestamps)
    else
      let stop_offset := if need_elements <? start_top_height then start_top_height - need_elements else 0 in
      timestamps ← timestamps_loop (S (Z.to_nat start_top_height)) bc start_top_height stop_offset timestamps;
      Ok (true, timestamps).

(** The loop that follows the previous hashes through the alternative blocks:
    the chain, nearest to the main chain first, and the timestamps, newest
    first. *)
Fixpoint alt_loop (fuel : nat) (alt : gmap (list Z) BlockEntry) (h : list Z) (chain : list (list Z * BlockEntry)) (timestamps : list Z)
  : outcome (list (list Z * BlockEntry) * list Z) :=
  match alt !! h with
  | None => Ok (chain, timestamps)
  | Some e =>
      match fuel with
      | O => Undefined
      | S fuel => alt_loop fuel alt (previousBlockHash (header (bl e))) ((h, e) :: chain) (timestamps ++ [block_timestamp e])
      end
  end.

(** [popBlock(get_block_hash(m_blocks.back().bl))], [k] times; the popped blocks
    come oldest first. *)
Fixpoint pop_blocks (k : nat) (n : Node) (popped : list Block) : outcome (Node * list Block) :=
  match k with
  | O => Ok (n, popped)
  | S k =>
      e ← sback (m_blocks (n_chain n));
      h ← get_block_hash cn_fast_hash (bl e);
      n ← popBlock_pooled n h;
      pop_blocks k n (bl e :: popped)
  end.

(** Pushes blocks while they are added; the rest when one is not. *)
Fixpoint push_blocks (n : Node) (blocks : list Block) : outcome (list Block * Node) :=
  match blocks with
  | [] => Ok ([], n)
  | b :: rest =>
      h ← get_block_hash cn_fast_hash b;
      '(r, bvc, n) ← pushBlock_pooled n b h no_bvc;
      if (r : bool) && m_added_to_main_chain bvc then push_blocks n rest else Ok (blocks, n)
  end.

(** The loop counts down to [rollback_height]; down to 0 it would not stop before
    the blocks are exhausted. *)
Definition blocks_above (n : Node) (height : Z) : outcome nat :=
  if height =? 0 then Throw runtime_error else Ok (length (m_blocks (n_chain n)) - Z.to_nat height)%nat.

Definition rollback_blockchain_switching (n : Node) (original_chain : list Block) (rollback_height : Z) : outcome (bool * Node) :=
  k ← blocks_above n rollback_height;
  '(n, _) ← pop_blocks k n [];
  '(rest, n) ← push_blocks n original_chain;
  Ok (match rest with [] => true | _ => false end, n).

(** [m_orthanBlocksIndex.remove(bl); m_alternative_chains.erase(it)] for each. *)
Fixpoint erase_alternatives (bc : Blockchain) (chain : list (list Z * BlockEntry)) : outcome Blockchain :=
  match chain with
  | [] => Ok bc
  | (h, e) :: chain =>
      '(_, orphans) ← OrphanBlocksIndex.remove cn_fast_hash (m_orthanBlocksIndex bc) (bl e);
      erase_alternatives (with_alternatives bc (delete h (m_alternative_chains bc)) orphans) chain
  end.

Definition on_chain (n : Node) (f : Blockchain -> outcome Blockchain) : outcome Node :=
  bc ← f (n_chain n); Ok {| n_chain := bc; n_pool := n_pool n |}.

(** [switch_to_alternative_blockchain]; [handle] is [handle_alternative_block],
    which is called on the blocks of the old chain. *)
Section Switch.
Variable handle : Node -> Block -> list Z -> block_verification_context -> outcome (bool * block_verification_context * Node).

(** The old chain becomes an alternative chain. *)
Fixpoint keep_old_chain (n : Node) (old : list Block) : outcome (bool * Node) :=
  match old with
  | [] => Ok (true, n)
  | b :: old =>
      h ← get_block_hash cn_fast_hash b;
      '(r, _, n) ← handle n b h no_bvc;
      if r : bool then keep_old_chain n old else Ok (false, n)
  end.

Definition switch_to_alternative_blockchain (n : Node) (alt_chain : list (list Z * BlockEntry)) (discard_disconnected_chain : bool)
  : outcome (bool * Node) :=
  match alt_chain with
  | [] => Ok (false, n)
  | (_, front) :: _ =>
      let split_height := be_height front in
      let blocks := m_blocks (n_chain n) in
      if negb (split_height <? zlen blocks) then Ok (false, n) else
      k ← blocks_above n split_height;
      let mainChainTxHashes := concat (map (fun e => transactionHashes (bl e)) (rev (drop (Z.to_nat split_height) blocks))) in
      let altChainTxHashes := concat (map (fun e => transactionHashes (bl e.2)) alt_chain) in
      if negb (forallb (fun h => bool_decide (h ∈ altChainTxHashes)) mainChainTxHashes) then Ok (false, n) else
      '(n, disconnected_chain) ← pop_blocks k n [];
      '(rest, n) ← push_blocks n (map (fun e => bl e.2) alt_chain);
      match rest with
      | _ :: _ =>
          '(_, n) ← rollback_blockchain_switching n disconnected_chain split_height;
          n ← on_chain n (fun bc => erase_alternatives bc (drop (length alt_chain - length rest) alt_chain));
          Ok (false, n)
      | [] =>
          '(kept, n) ← (if discard_disconnected_chain then Ok (true, n) else keep_old_chain n disconnected_chain);
          if negb (kept : bool) then
            '(_, n) ← rollback_blockchain_switching n disconnected_chain split_height;
            Ok (false, n)
          else
            n ← on_chain n (fun bc => erase_alternatives bc alt_chain);
            Ok (true, n)
      end
  end.
End Switch.

(** * [handle_alternative_block] *)

Definition switched (bvc : block_verification_context) : block_verification_context :=
  {| m_added_to_main_chain := true; m_verification_failed := m_verification_failed bvc;
     m_marked_as_orphaned := m_marked_as_orphaned bvc; m_already_exists := m_already_exists bvc; m_switched_to_alt_chain := true |}.
Definition orphaned (bvc : block_verification_context) : block_verification_context :=
  {| m_added_to_main_chain := m_added_to_main_chain bvc; m_verification_failed := m_verification_failed bvc;
     m_marked_as_orphaned := true; m_already_exists := m_already_exists bvc;
     m_switched_to_alt_chain := m_switched_to_alt_chain bvc |}.

(** The connection of an alternative chain to the main chain and the timestamps
    before the new block: [None] when the function returns false.  [mainPrev] is
    the height of the previous block in the main chain. *)
Definition connect_alternative (bc : Blockchain) (alt_chain : list (list Z * BlockEntry)) (timestamps : list Z) (mainPrev : option Z)
  : outcome (option (list Z)) :=
  match alt_chain with
  | (_, front) :: _ =>
      if negb (be_height front <? zlen (m_blocks bc)) then Ok None
      else
        e ← sget (m_blocks bc) (be_height front - 1);
        h ← get_block_hash_opt cn_fast_hash (bl e);
        if negb (bool_decide (default NULL_HASH h = previousBlockHash (header (bl front)))) then Ok None
        else '(_, timestamps) ← complete_timestamps_vector bc (be_height front - 1) timestamps; Ok (Some timestamps)
  | [] =>
      match mainPrev with
      | None => Ok None
      | Some h => '(_, timestamps) ← complete_timestamps_vector bc h timestamps; Ok (Some timestamps)
      end
  end.

(** The checks of a block that has a previous block: [inl (bei, is_a_checkpoint)],
    or [inr bvc] to return false with. *)
Definition check_alternative (bc : Blockchain) (b : Block) (id : list Z) (bvc : block_verification_context)
    (alt_chain : list (list Z * BlockEntry)) (timestamps : list Z) (mainPrev : option Z)
  : outcome (BlockEntry * bool + block_verification_context) :=
  connected ← connect_alternative bc alt_chain timestamps mainPrev;
  match connected with
  | None => Ok (inr bvc)
  | Some timestamps =>
      if negb (check_block_timestamp m_currency timestamps b) then Ok (inr (fail bvc)) else
      let mainPrevHeight := default 0 mainPrev in
      let height := u32 (match last alt_chain with Some (_, e) => be_height e + 1 | None => mainPrevHeight + 1 end) in
      let '(ok, is_a_checkpoint) := check_block (m_checkpoints bc) height id in
      if negb ok then Ok (inr (fail bvc)) else
      tag ← getMergeMiningTagFromExtra (tx_extra (baseTransaction b));
      if bool_decide (is_Some tag) && (parameters.UPGRADE_HEIGHT_V2 <=? height) then Ok (inr bvc) else
      current_diff ← get_next_difficulty_for_alternative_chain bc alt_chain;
      if current_diff =? 0 then Ok (inr bvc) else
      pow ← checkProofOfWork b current_diff;
      if negb (pow : bool) then Ok (inr (fail bvc)) else
      valid ← prevalidate_miner_transaction m_currency b height;
      if negb (valid : bool) then Ok (inr (fail bvc)) else
      before ← (match last alt_chain with
                | Some (_, e) => Ok (cumulative_difficulty e)
                | None => e ← sget (m_blocks bc) mainPrevHeight; Ok (cumulative_difficulty e)
                end);
      Ok (inl ({| bl := b; be_height := height; block_cumulative_size := 0;
                  cumulative_difficulty := u64 (before + current_diff); already_generated_coins := 0;
                  be_transactions := [] |}, is_a_checkpoint))
  end.

(** [depth] bounds how often a reorganisation may follow from keeping the blocks
    of the chain that was left. *)
Section Handle.
Variable dns : list (Z * list Z).

Fixpoint handle_alternative_block (depth : nat) (n : Node) (b : Block) (id : list Z) (bvc : block_verification_context)
  : outcome (bool * block_verification_context * Node) :=
  match depth with
  | O => Undefined
  | S depth =>
      let block_height := get_block_height b in
      if block_height =? 0 then Ok (false, fail bvc, n) else
      let n := {| n_chain := with_checkpoints (n_chain n) (load_checkpoints_from_dns (m_checkpoints (n_chain n)) dns);
                  n_pool := n_pool n |} in
      let bc := n_chain n in
      if negb (is_alternative_block_allowed (m_checkpoints bc) (getCurrentBlockchainHeight bc) block_height) then Ok (false, fail bvc, n)
      else if negb (checkBlockVersion m_currency bc b) then Ok (false, fail bvc, n)
      else
        '(_, cumulativeSize) ← getBlockCumulativeSize n b;
        size_ok ← checkCumulativeBlockSize m_currency cumulativeSize block_height;
        if negb (size_ok : bool) then Ok (false, fail bvc, n) else
        let mainPrev := getBlockHeight (m_blockIndex bc) (previousBlockHash (header b)) in
        let it_prev := m_alternative_chains bc !! previousBlockHash (header b) in
        if negb (bool_decide (is_Some it_prev)) && negb (bool_decide (is_Some mainPrev)) then Ok (true, orphaned bvc, n) else
        '(alt_chain, timestamps) ← alt_loop (base.size (m_alternative_chains bc)) (m_alternative_chains bc)
                                     (previousBlockHash (header b)) [] [];
        checked ← check_alternative bc b id bvc alt_chain timestamps mainPrev;
        match checked with
        | inr bvc => Ok (false, bvc, n)
        | inl (bei, is_a_checkpoint) =>
            if bool_decide (is_Some (m_alternative_chains bc !! id)) then Ok (false, bvc, n) else
            '(_, orphans) ← OrphanBlocksIndex.add cn_fast_hash (m_orthanBlocksIndex bc) b;
            let n := {| n_chain := with_alternatives bc (<[id := bei]> (m_alternative_chains bc)) orphans; n_pool := n_pool n |} in
            back ← (if is_a_checkpoint then Ok 0
                    else e ← sback (m_blocks bc); Ok (cumulative_difficulty e));
            if is_a_checkpoint || (back <? cumulative_difficulty bei) then
              '(r, n) ← switch_to_alternative_blockchain (handle_alternative_block depth) n (alt_chain ++ [(id, bei)]) is_a_checkpoint;
              Ok (r, if r : bool then switched bvc else fail bvc, n)
            else Ok (true, bvc, n)
        end
  end.

(** [addNewBlock]. *)
Definition addNewBlock (depth : nat) (n : Node) (b : Block) (bvc : block_verification_context)
  : outcome (bool * block_verification_context * Node) :=
  r ← get_block_hash_opt cn_fast_hash b;
  match r with
  | None => Ok (false, fail bvc, n)
  | Some id =>
      if haveBlock (n_chain n) id then
        Ok (false, {| m_added_to_main_chain := m_added_to_main_chain bvc; m_verification_failed := m_verification_failed bvc;
                      m_marked_as_orphaned := m_marked_as_orphaned bvc; m_already_exists := true;
                      m_switched_to_alt_chain := m_switched_to_alt_chain bvc |}, n)
      else
        tail ← getTailId (n_chain n);
        if negb (bool_decide (previousBlockHash (header b) = tail)) then
          handle_alternative_block depth n b id
            {| m_added_to_main_chain := false; m_verification_failed := m_verification_failed bvc;
               m_marked_as_orphaned := m_marked_as_orphaned bvc; m_already_exists := m_already_exists bvc;
               m_switched_to_alt_chain := m_switched_to_alt_chain bvc |}
        else pushBlock_pooled n b id bvc
  end.
End Handle.
End Node.
