(* ===== verification/MainChain.v ===== *)
(** Properties of the main chain under every way it changes: [addNewBlock],
    reorganisation and its rollback.

    The main chain is always a chain of blocks linked by their hashes, with the
    block index and the heights in agreement, and its first block never changes.
    A reorganisation replaces the blocks above the split by the alternative
    chain, and a failed one leaves a prefix of the original blocks. *)
From stdpp Require Import gmultiset.
From S2P Require Import Prelude CryptoNote Serializer Serialization TransactionExtra Interest Currency Difficulty.
From S2P Require Import DepositIndex BlockIndex Checkpoints UpgradeDetector TreeHash BlockchainIndices ChainState Validation.
From S2P Require Import Blockchain TransactionPool Reorganization.

Ltac chain_simpl := cbn [m_blocks m_blockIndex m_alternative_chains m_store with_store with_chain with_deposits with_voting with_limit
  with_alternatives with_checkpoints n_chain n_pool with_pool].
Ltac chain_simpl_in H := cbn [m_blocks m_blockIndex m_alternative_chains m_store with_store with_chain with_deposits with_voting with_limit
  with_alternatives with_checkpoints n_chain n_pool with_pool] in H.

Section Frame.
Context {B : BuildConfig} {K : Crypto}.
Variable m_currency : Currency.

Lemma push_keeps_block st block h idx ok st' block' :
  pushTransaction cn_fast_hash st block h idx = Ok (ok, st', block') -> bl block' = bl block /\ be_height block' = be_height block.
Proof.
  unfold pushTransaction. destruct (m_transactionMap st !! h); [by intros [= <- <- <-]|].
  intros (e & _ & E)%bind_Ok. case_in E; [by injection E as [= <- <- <-]|].
  apply bind_Ok in E as ([ok1 keys] & _ & E). case_in E; [by injection E as [= <- <- <-]|].
  apply bind_Ok in E as (msig & _ & E). case_in E; [done|]. destruct (push_outputs _ _ _ _) as [? [? ?]].
  apply bind_Ok in E as ([? ?] & _ & E). by injection E as [= <- <- <-].
Qed.

Lemma transactions_loop_frame now b mh i t txs bc block tot r :
  transactions_loop m_currency bc now b mh i t txs block tot = Ok r ->
  match r with
  | inl (bc', block', _) => bc' = with_store bc (m_store bc') /\ bl block' = bl block /\ be_height block' = be_height block
  | inr bc' => bc' = with_store bc (m_store bc')
  end.
Proof.
  revert i t bc block tot. induction txs as [|tx txs IH]; intros i t bc block tot E; cbn [transactions_loop] in E.
  { injection E as [= <-]. by rewrite with_store_id. }
  apply bind_Ok in E as (tx_id & _ & E). apply bind_Ok in E as (blob & _ & E). apply bind_Ok in E as (fee & _ & E).
  apply bind_Ok in E as ([ok pmax] & _ & E). case_in E.
  { apply bind_Ok in E as (st & _ & E). by injection E as [= <-]. }
  apply bind_Ok in E as ([[ok1 st'] block'] & Ep & E). apply push_keeps_block in Ep as [E1 E2].
  apply bind_Ok in E as (interest & _ & E). apply IH in E. destruct r as [[[bc1 block1] tot1]|bc1].
  - destruct E as (E3 & E4 & E5). split_and!; [by rewrite E3|by rewrite E4, E1|by rewrite E5, E2].
  - by rewrite E.
Qed.

(** A call of [pushBlock] adds exactly the block, on top of its previous block,
    or leaves the chain of blocks alone. *)
Lemma pushBlock_frame bc now b txs id bvc ok bvc' bc' :
  pushBlock m_currency bc now b txs id bvc = Ok (ok, bvc', bc') ->
  m_alternative_chains bc' = m_alternative_chains bc /\
  if ok then
    m_added_to_main_chain bvc' = true /\
    exists e h, m_blocks bc' = m_blocks bc ++ [e] /\ bl e = b /\ be_height e = u32 (zlen (m_blocks bc)) /\
      get_block_hash cn_fast_hash b = Ok h /\ m_blockIndex bc' = (push (m_blockIndex bc) h).2 /\
      hasBlock (m_blockIndex bc) id = false /\ getTailId bc = Ok (previousBlockHash (header b)) /\
      tx_inputs (baseTransaction b) = [InBase {| blockIndex := u32 (zlen (m_blocks bc)) |}]
  else m_blocks bc' = m_blocks bc /\ m_blockIndex bc' = m_blockIndex bc.
Proof.
  unfold pushBlock. intros (checked & Ec & E)%bind_Ok. destruct checked as [d|bvc1].
  2:{ injection E as [= <- <- <-]. done. }
  pose proof (checked_block m_currency _ _ _ _ _ _ Ec) as [(i & Ei & Eidx) Hhas].
  assert (Ht : getTailId bc = Ok (previousBlockHash (header b))).
  { unfold check_new_block in Ec. case_in Ec; [done|]. case_in Ec; [done|]. apply bind_Ok in Ec as (m & _ & Ec).
    case_in Ec; [done|]. apply bind_Ok in Ec as (tail & Et & Ec). case_bool_decide; [|done]. by subst. }
  apply bind_Ok in E as (mh & _ & E). apply bind_Ok in E as ([[ok1 st] block] & Ep & E).
  apply push_keeps_block in Ep as [Eb Eh]. cbn [bl be_height] in Eb, Eh.
  apply bind_Ok in E as ([? csize] & _ & E). apply bind_Ok in E as (looped & El & E). apply transactions_loop_frame in El.
  destruct looped as [[[bc1 block1] tot]|bc1].
  2:{ injection E as [= <- <- <-]. rewrite El. done. }
  destruct El as (E1 & E2 & E3). apply bind_Ok in E as (size_ok & _ & E). case_in E.
  { injection E as [= <- <- <-]. rewrite E1. done. }
  apply bind_Ok in E as (r & _ & E). destruct r as [[rw em]|].
  2:{ apply bind_Ok in E as (st2 & _ & E). injection E as [= <- <- <-]. rewrite E1. done. }
  apply bind_Ok in E as (bc2 & Epush & E). apply bind_Ok in E as (bc3 & Ed & E). apply bind_Ok in E as (v & _ & E).
  injection E as [= <- <- <-]. unfold pushBlock_entry in Epush. cbn [bl] in Epush. rewrite E2, Eb in Epush.
  apply bind_Ok in Epush as (h & Eh2 & Epush). destruct (push (m_blockIndex bc1) h) as [? index] eqn:Eix.
  apply bind_Ok in Epush as ([? g] & _ & Epush). apply bind_Ok in Epush as (? & _ & Epush). injection Epush as [= <-].
  unfold pushToDepositIndex in Ed. apply bind_Ok in Ed as (dd & _ & Ed). injection Ed as [= <-]. chain_simpl.
  split; [by rewrite E1|]. split; [done|]. rewrite E1 in Eix |- *. chain_simpl_in Eix. chain_simpl.
  eexists _, h. split_and!; [reflexivity|by cbn; congruence|by cbn; congruence|done|by rewrite Eix|done|done|].
  rewrite Ei. destruct i as [i]. cbn in Eidx. by subst.
Qed.

Lemma popBlock_frame bc h bc' txs :
  popBlock m_currency bc h = Ok (bc', txs) ->
  m_alternative_chains bc' = m_alternative_chains bc /\ m_blocks bc' = vpop (m_blocks bc) /\
  (m_blocks bc <> [] -> m_container (m_blockIndex bc') = vpop (m_container (m_blockIndex bc))) /\
  (m_blocks bc = [] -> bc' = bc).
Proof.
  unfold popBlock. destruct (last (m_blocks bc)) as [e|] eqn:El.
  2:{ apply last_None in El. intros [= <- <-]. rewrite El. done. }
  intros (bc1 & E1 & E)%bind_Ok. apply bind_Ok in E as (d & _ & E). apply bind_Ok in E as (? & _ & E).
  apply bind_Ok in E as (v & _ & E). injection E as [= <- <-]. unfold pop_last in E1.
  apply bind_Ok in E1 as (mh & _ & E1). apply bind_Ok in E1 as (st & _ & E1). apply bind_Ok in E1 as (bh & _ & E1).
  destruct (TimestampBlocksIndex.remove _ _ _) as [? tidx]. apply bind_Ok in E1 as ([? g] & _ & E1). injection E1 as [= <-].
  chain_simpl. split_and!; [done..|]. intros E0. by rewrite E0 in El.
Qed.
End Frame.

(** * The linked main chain *)

Section Linked.
Context {B : BuildConfig} {K : Crypto}.

(** Blocks and the hashes of the block index: each hash is that of its block,
    no hash occurs twice, every block names the hash of the one before it, and
    knows its height, in its entry and in its miner transaction. *)
Record linked (blocks : list BlockEntry) (hashes : list (list Z)) : Prop := {
  lk_hashes : Forall2 (fun e h => get_block_hash cn_fast_hash (bl e) = Ok h) blocks hashes;
  lk_distinct : NoDup hashes;
  lk_previous : forall i e, blocks !! i = Some e ->
    previousBlockHash (header (bl e)) = default NULL_HASH (match i with O => None | S j => hashes !! j end);
  lk_heights : forall i e, blocks !! i = Some e ->
    be_height e = u32 (Z.of_nat i) /\ tx_inputs (baseTransaction (bl e)) = [InBase {| blockIndex := u32 (Z.of_nat i) |}];
}.

Lemma linked_nil : linked [] [].
Proof. split; try done; constructor. Qed.

Lemma linked_length blocks hashes : linked blocks hashes -> length blocks = length hashes.
Proof. intros H. apply (Forall2_length _ _ _ (lk_hashes _ _ H)). Qed.

Lemma linked_snoc blocks hashes e h :
  linked blocks hashes -> get_block_hash cn_fast_hash (bl e) = Ok h -> h ∉ hashes ->
  previousBlockHash (header (bl e)) = default NULL_HASH (last hashes) ->
  be_height e = u32 (zlen blocks) -> tx_inputs (baseTransaction (bl e)) = [InBase {| blockIndex := u32 (zlen blocks) |}] ->
  linked (blocks ++ [e]) (hashes ++ [h]).
Proof.
  intros H Hh Hn Hp Hb Ht. pose proof (linked_length _ _ H) as HL. destruct H as [H1 H2 H3 H4]. split.
  - apply Forall2_app; [done|]. by repeat constructor.
  - apply NoDup_app. split_and!; [done| |apply NoDup_singleton]. intros x Hx ->%list_elem_of_singleton. done.
  - intros i x [Hx|[Hl Hx]]%lookup_app_Some.
    + rewrite (H3 i x Hx). destruct i as [|j]; [done|]. apply lookup_lt_Some in Hx. rewrite lookup_app_l by lia. done.
    + apply list_lookup_singleton_Some in Hx as [Hi ->]. rewrite Hp, last_lookup. destruct i as [|j].
      * destruct blocks; [|cbn in *; lia]. destruct hashes; [done|cbn in *; lia].
      * assert (j = (length hashes - 1)%nat) as -> by lia. rewrite lookup_app_l by lia.
        by replace (pred (length hashes)) with (length hashes - 1)%nat by lia.
  - intros i x [Hx|[Hl Hx]]%lookup_app_Some; [by apply H4|]. apply list_lookup_singleton_Some in Hx as [Hi ->].
    unfold zlen in *. assert (i = length blocks) as -> by lia. done.
Qed.

Lemma linked_take k blocks hashes : linked blocks hashes -> linked (take k blocks) (take k hashes).
Proof.
  intros [H1 H2 H3 H4]. split.
  - by apply Forall2_take.
  - eapply sublist_NoDup; [done|]. apply sublist_take.
  - intros i e [Hi He]%lookup_take_Some. rewrite (H3 i e Hi). destruct i as [|j]; [done|]. by rewrite lookup_take_lt by lia.
  - intros i e [Hi He]%lookup_take_Some. by apply H4.
Qed.

Lemma vpop_take {A} (l : list A) : vpop l = take (length l - 1) l.
Proof.
  destruct (last l) as [x|] eqn:E.
  - apply last_Some in E as [l' ->]. rewrite vpop_app, length_app. cbn. rewrite Nat.add_sub. by rewrite take_app_length.
  - apply last_None in E as ->. done.
Qed.

(** The state of the chain: linked, starting with the block [g], and no
    alternative block below height 0. *)
Record chain_ok (g : Block) (bc : Blockchain) : Prop := {
  co_linked : linked (m_blocks bc) (m_container (m_blockIndex bc));
  co_genesis : head (map bl (m_blocks bc)) = Some g;
  co_alternatives : forall h e, m_alternative_chains bc !! h = Some e -> 0 <= be_height e;
}.

Variable m_currency : Currency.

Lemma tail_of bc : linked (m_blocks bc) (m_container (m_blockIndex bc)) ->
  forall h, getTailId bc = Ok h -> h = default NULL_HASH (last (m_container (m_blockIndex bc))).
Proof.
  intros HL h E. apply linked_length in HL. unfold getTailId in E. destruct (m_blocks bc) as [|e l] eqn:Eb.
  - injection E as [= <-]. by destruct (m_container (m_blockIndex bc)).
  - unfold BlockIndex.getTailId in E. apply bind_Ok in E as (? & _ & E). unfold vback in E.
    destruct (last (m_container (m_blockIndex bc))) as [y|]; [by injection E as [= <-]|done].
Qed.

(** Also for the very first block. *)
Lemma pushBlock_linked bc now b txs id bvc ok bvc' bc' :
  linked (m_blocks bc) (m_container (m_blockIndex bc)) -> get_block_hash cn_fast_hash b = Ok id ->
  pushBlock m_currency bc now b txs id bvc = Ok (ok, bvc', bc') ->
  linked (m_blocks bc') (m_container (m_blockIndex bc')).
Proof.
  intros HL Hid E. apply pushBlock_frame in E as [_ E]. destruct ok.
  - destruct E as (_ & e & h & -> & Eb & Eh & Ehash & -> & Hhas & Et & Ei). rewrite Hid in Ehash. injection Ehash as [= <-].
    unfold hasBlock in Hhas. apply bool_decide_eq_false in Hhas. unfold push. rewrite decide_False by done. cbn [snd m_container].
    apply linked_snoc; rewrite ?Eb; try done. by apply tail_of.
  - destruct E as [-> ->]. done.
Qed.

Lemma pushBlock_ok g bc now b txs id bvc ok bvc' bc' :
  chain_ok g bc -> get_block_hash cn_fast_hash b = Ok id ->
  pushBlock m_currency bc now b txs id bvc = Ok (ok, bvc', bc') ->
  chain_ok g bc' /\ map bl (m_blocks bc') = map bl (m_blocks bc) ++ (if ok then [b] else []).
Proof.
  intros [H1 H2 H3] Hid E. pose proof (pushBlock_linked _ _ _ _ _ _ _ _ _ H1 Hid E) as HL.
  apply pushBlock_frame in E as [Ea E].
  assert (EM : map bl (m_blocks bc') = map bl (m_blocks bc) ++ (if ok then [b] else [])).
  { destruct ok; [|destruct E as [-> _]; by rewrite app_nil_r]. destruct E as (_ & e & h & -> & Eb & _). rewrite map_app. cbn. by rewrite Eb. }
  split; [|done]. split; [done| |by rewrite Ea]. rewrite EM. destruct (map bl (m_blocks bc)); [done|]. done.
Qed.

Lemma popBlock_ok g bc h bc' txs :
  chain_ok g bc -> (1 < length (m_blocks bc))%nat -> popBlock m_currency bc h = Ok (bc', txs) ->
  chain_ok g bc' /\ m_blocks bc' = take (length (m_blocks bc) - 1) (m_blocks bc).
Proof.
  intros [H1 H2 H3] HL E. apply popBlock_frame in E as (Ea & Eb & Ec & _).
  rewrite vpop_take in Eb. specialize (Ec ltac:(by destruct (m_blocks bc))). rewrite vpop_take, <- (linked_length _ _ H1) in Ec.
  split; [|done]. split; rewrite ?Eb, ?Ec, ?Ea; [by apply linked_take| |done].
  destruct (m_blocks bc) as [|e l]; [done|]. cbn in HL |- *. rewrite Nat.sub_0_r. destruct (length l) eqn:El; [lia|]. done.
Qed.
End Linked.

(** * The pool does not touch the chain *)

Section Nodes.
Context {B : BuildConfig} {K : Crypto}.
Variable m_currency : Currency.
Variable now : Z.

Lemma put_back_chain n txs n' : put_back m_currency now n txs = Ok n' -> n_chain n' = n_chain n.
Proof.
  revert n. induction txs as [|tx txs IH]; intros n E; cbn [put_back] in E; [by injection E as [= <-]|].
  apply bind_Ok in E as ([[ok t] p] & _ & E). destruct ok; [|done]. by apply IH in E.
Qed.

Lemma load_loop_chain n hs taken r n' : load_loop m_currency now n hs taken = Ok (r, n') -> n_chain n' = n_chain n.
Proof.
  revert n taken. induction hs as [|h hs IH]; intros n taken E; cbn [load_loop] in E; [by injection E as [= _ <-]|].
  apply bind_Ok in E as ([[[[tx ?] ?]|] p] & _ & E); [by apply IH in E|].
  apply bind_Ok in E as (n1 & E1 & E). injection E as [= _ <-]. by apply put_back_chain in E1.
Qed.

Lemma pushBlock_pooled_ok g n b id bvc ok bvc' n' :
  chain_ok g (n_chain n) -> get_block_hash cn_fast_hash b = Ok id ->
  pushBlock_pooled m_currency now n b id bvc = Ok (ok, bvc', n') ->
  chain_ok g (n_chain n') /\ map bl (m_blocks (n_chain n')) = map bl (m_blocks (n_chain n)) ++ (if ok then [b] else []) /\
  (ok = true -> m_added_to_main_chain bvc' = true).
Proof.
  intros H Hid E. unfold pushBlock_pooled in E. apply bind_Ok in E as ([r n1] & El & E). apply load_loop_chain in El.
  rewrite <- El in H |- *. destruct r as [txs|].
  2:{ injection E as [= <- <- <-]. rewrite app_nil_r. done. }
  apply bind_Ok in E as ([[ok1 bvc1] bc] & Ep & E). pose proof (pushBlock_ok m_currency _ _ _ _ _ _ _ _ _ _ H Hid Ep) as [H1 H2].
  apply pushBlock_frame in Ep as [_ Ep]. destruct ok1.
  - injection E as [= <- <- <-]. chain_simpl. split_and!; try done. intros _. apply Ep.
  - apply bind_Ok in E as (n2 & Es & E). injection E as [= <- <- <-]. apply put_back_chain in Es. rewrite Es. chain_simpl. done.
Qed.

Lemma popBlock_pooled_ok g n h n' :
  chain_ok g (n_chain n) -> (1 < length (m_blocks (n_chain n)))%nat -> popBlock_pooled m_currency now n h = Ok n' ->
  chain_ok g (n_chain n') /\
  m_blocks (n_chain n') = take (length (m_blocks (n_chain n)) - 1) (m_blocks (n_chain n)).
Proof.
  intros H HL E. unfold popBlock_pooled in E. destruct (last (m_blocks (n_chain n))) as [e|] eqn:El.
  2:{ apply last_None in El. rewrite El in HL. cbn in HL. lia. }
  apply bind_Ok in E as (n1 & Es & E). apply put_back_chain in Es. apply bind_Ok in E as ([bc ?] & Ep & E).
  injection E as [= <-]. rewrite Es in Ep. chain_simpl. by eapply popBlock_ok.
Qed.

(** Popping [k] blocks leaves the blocks below and returns the blocks above. *)
Lemma pop_blocks_ok g k n popped n' popped' :
  chain_ok g (n_chain n) -> (k < length (m_blocks (n_chain n)))%nat ->
  pop_blocks m_currency now k n popped = Ok (n', popped') ->
  chain_ok g (n_chain n') /\
  m_blocks (n_chain n') = take (length (m_blocks (n_chain n)) - k) (m_blocks (n_chain n)) /\
  popped' = map bl (drop (length (m_blocks (n_chain n)) - k) (m_blocks (n_chain n))) ++ popped.
Proof.
  revert n popped. induction k as [|k IH]; intros n popped H HL E; cbn [pop_blocks] in E.
  { injection E as [= <- <-]. rewrite Nat.sub_0_r, firstn_all, drop_all. done. }
  apply bind_Ok in E as (e & Ee & E). apply bind_Ok in E as (h & Eh & E). apply bind_Ok in E as (n1 & E1 & E).
  apply (popBlock_pooled_ok g) in E1 as [H1 Hb]; [|done|lia]. set (l := m_blocks (n_chain n)) in *.
  assert (HL1 : length (m_blocks (n_chain n1)) = (length l - 1)%nat) by (rewrite Hb, length_take; lia).
  apply IH in E as (H2 & H3 & H4); [|done|lia]. rewrite HL1 in H3, H4. rewrite Hb in H3, H4. split; [done|]. split.
  - rewrite H3, take_take. f_equal. lia.
  - rewrite H4. unfold sback in Ee. destruct (last l) as [e'|] eqn:El; [|done]. injection Ee as [= ->].
    apply last_Some in El as [l' El]. rewrite El, length_app in *. cbn [length] in *. rewrite Nat.add_sub.
    rewrite take_app_length. replace (length l' + 1 - S k)%nat with (length l' - k)%nat by lia.
    rewrite drop_app_le by lia. rewrite map_app. cbn. by rewrite <- app_assoc.
Qed.

(** Pushing blocks appends those before the first that is refused. *)
Lemma push_blocks_ok g n bs rest n' :
  chain_ok g (n_chain n) -> push_blocks m_currency now n bs = Ok (rest, n') ->
  chain_ok g (n_chain n') /\ exists ds, bs = ds ++ rest /\ map bl (m_blocks (n_chain n')) = map bl (m_blocks (n_chain n)) ++ ds.
Proof.
  revert n. induction bs as [|b bs IH]; intros n H E; cbn [push_blocks] in E.
  { injection E as [= <- <-]. split; [done|]. exists []. split; [done|]. by rewrite app_nil_r. }
  apply bind_Ok in E as (h & Eh & E). apply bind_Ok in E as ([[r bvc] n1] & E1 & E).
  apply (pushBlock_pooled_ok g) in E1 as (H1 & Hm & Ha); [|done..]. destruct r; cbn [andb] in E.
  - rewrite (Ha eq_refl) in E. apply IH in E as (H2 & ds & -> & Hd); [|done]. split; [done|]. exists (b :: ds).
    split; [done|]. by rewrite Hd, Hm, <- app_assoc.
  - injection E as [= <- <-]. split; [done|]. exists []. split; [done|]. exact Hm.
Qed.

(** A rollback leaves the blocks below the split and a prefix of the original
    ones, all of them when it succeeds. *)
Lemma rollback_ok g n original height ok n' :
  chain_ok g (n_chain n) -> 0 <= height -> rollback_blockchain_switching m_currency now n original height = Ok (ok, n') ->
  0 < height /\ chain_ok g (n_chain n') /\ exists ds rest, original = ds ++ rest /\ (ok = true -> rest = []) /\
    map bl (m_blocks (n_chain n')) = take (Z.to_nat height) (map bl (m_blocks (n_chain n))) ++ ds.
Proof.
  intros H Hh E. unfold rollback_blockchain_switching, blocks_above in E. destruct (Z.eqb_spec height 0); [done|].
  cbn [mbind outcome_bind] in E. apply bind_Ok in E as ([n1 p] & E1 & E). apply bind_Ok in E as ([rest n2] & E2 & E).
  injection E as [= <- <-]. split; [lia|].
  assert (HL : (0 < length (m_blocks (n_chain n)))%nat) by (pose proof (co_genesis _ _ H) as Hg; destruct (m_blocks (n_chain n)); [done|cbn; lia]).
  apply (pop_blocks_ok g) in E1 as (H1 & Hb & _); [|done|lia].
  apply (push_blocks_ok g) in E2 as (H2 & ds & -> & Hd); [|done]. split; [done|]. exists ds, rest.
  split_and!; [done|by destruct rest|]. rewrite Hd, Hb. f_equal.
  change (map bl) with (fmap (M := list) bl). rewrite fmap_take.
  destruct (decide (Z.to_nat height <= length (m_blocks (n_chain n)))%nat) as [Hle|Hgt].
  - f_equal. lia.
  - rewrite !take_ge by (rewrite ?length_fmap; lia). done.
Qed.

Lemma erase_alternatives_ok g bc chain bc' :
  chain_ok g bc -> erase_alternatives bc chain = Ok bc' -> chain_ok g bc' /\ m_blocks bc' = m_blocks bc.
Proof.
  revert bc. induction chain as [|[h e] chain IH]; intros bc H E; cbn [erase_alternatives] in E; [by injection E as [= <-]|].
  apply bind_Ok in E as ([? orphans] & _ & E). apply IH in E as [H1 H2]; [by rewrite H2|].
  destruct H as [L1 L2 L3]. split; chain_simpl; [done|done|]. intros h' e' [_ He']%lookup_delete_Some. by eapply L3.
Qed.


(** * Reorganisation *)

Definition preserves (g : Block) (handle : Node -> Block -> list Z -> block_verification_context ->
    outcome (bool * block_verification_context * Node)) : Prop :=
  forall n b id bvc r bvc' n', chain_ok g (n_chain n) -> handle n b id bvc = Ok (r, bvc', n') -> chain_ok g (n_chain n').

Lemma keep_old_chain_ok g handle n old r n' :
  preserves g handle -> chain_ok g (n_chain n) -> keep_old_chain handle n old = Ok (r, n') -> chain_ok g (n_chain n').
Proof.
  intros HP. revert n. induction old as [|b old IH]; intros n H E; cbn [keep_old_chain] in E; [by injection E as [= <- <-]|].
  apply bind_Ok in E as (h & _ & E). apply bind_Ok in E as ([[r1 ?] n1] & E1 & E). apply HP in E1; [|done].
  destruct r1; [by apply IH in E|by injection E as [= <- <-]].
Qed.

Lemma on_chain_ok g n chain n' :
  chain_ok g (n_chain n) -> on_chain n (fun bc => erase_alternatives bc chain) = Ok n' ->
  chain_ok g (n_chain n') /\ m_blocks (n_chain n') = m_blocks (n_chain n).
Proof.
  intros H (bc & E & [= <-])%bind_Ok. chain_simpl. by eapply erase_alternatives_ok.
Qed.

(** What a reorganisation that discards the old chain does to the blocks: on
    success those from the height of the first alternative block on are replaced
    by the alternative chain; on failure the original blocks below that height,
    and the following ones as far as they could be added again, remain. *)
Definition reorganised (n n' : Node) (alt_chain : list (list Z * BlockEntry)) (r : bool) : Prop :=
  match alt_chain with
  | [] => n' = n
  | (_, front) :: _ =>
      let old := map bl (m_blocks (n_chain n)) in
      let split := Z.to_nat (be_height front) in
      if r then map bl (m_blocks (n_chain n')) = take split old ++ map (fun e => bl e.2) alt_chain
      else exists j, (split `min` length old <= j)%nat /\ map bl (m_blocks (n_chain n')) = take j old
  end.

Lemma reorganised_same n alt_chain : reorganised n n alt_chain false.
Proof.
  destruct alt_chain as [|[h front] alt]; [done|]. exists (length (map bl (m_blocks (n_chain n)))). split; [lia|]. by rewrite firstn_all.
Qed.

Lemma prefix_again {A} (old ds rest : list A) s :
  (s <= length old)%nat -> drop s old = ds ++ rest -> take s old ++ ds = take (s + length ds) old.
Proof.
  intros Hs E. rewrite <- (take_drop s old) at 2. rewrite E, take_app_ge by (rewrite length_take; lia). f_equal.
  rewrite length_take. replace (s + length ds - s `min` length old)%nat with (length ds) by lia. by rewrite take_app_length.
Qed.

Lemma switch_ok g handle n alt_chain discard r n' :
  preserves g handle -> chain_ok g (n_chain n) -> (forall h e, (h, e) ∈ alt_chain -> 0 <= be_height e) ->
  switch_to_alternative_blockchain m_currency now handle n alt_chain discard = Ok (r, n') ->
  chain_ok g (n_chain n') /\ (discard = true -> reorganised n n' alt_chain r).
Proof.
  intros HP H HA E. unfold switch_to_alternative_blockchain in E.
  destruct alt_chain as [|[h front] alt] eqn:Ealt; [by injection E as [= <- <-]|]. rewrite <- Ealt in *.
  assert (Hf : 0 <= be_height front) by (apply (HA h); rewrite Ealt; left).
  destruct (Z.ltb_spec (be_height front) (zlen (m_blocks (n_chain n)))) as [Hlt|]; cbn [negb] in E.
  2:{ injection E as [= <- <-]. split; [done|]. intros _. apply reorganised_same. }
  apply bind_Ok in E as (k & Ek & E). unfold blocks_above in Ek. destruct (Z.eqb_spec (be_height front) 0); [done|]. injection Ek as [= <-].
  case_in E. { injection E as [= <- <-]. split; [done|]. intros _. apply reorganised_same. }
  set (s := Z.to_nat (be_height front)) in *. set (old := map bl (m_blocks (n_chain n))).
  assert (Hs : (s < length (m_blocks (n_chain n)))%nat) by (unfold zlen in Hlt; subst s; lia).
  apply bind_Ok in E as ([n1 disconnected] & E1 & E). apply (pop_blocks_ok g) in E1 as (H1 & Hb1 & Hp1); [|done|lia].
  replace (length (m_blocks (n_chain n)) - (length (m_blocks (n_chain n)) - s))%nat with s in Hb1, Hp1 by lia. rewrite app_nil_r in Hp1.
  assert (Hold : map bl (m_blocks (n_chain n1)) = take s old) by (rewrite Hb1; apply (fmap_take bl)).
  assert (Hdis : disconnected = drop s old) by (rewrite Hp1; apply (fmap_drop bl)).
  assert (Hlen : length old = length (m_blocks (n_chain n))) by (apply length_map).
  apply bind_Ok in E as ([rest n2] & E2 & E). apply (push_blocks_ok g) in E2 as (H2 & ds & Hds & Hb2); [|done].
  assert (HR : reorganised n n' alt_chain r = _) by reflexivity. rewrite Ealt in HR at 2. cbn [reorganised] in HR. fold old s in HR.
  destruct rest as [|b0 rest].
  - rewrite app_nil_r in Hds. apply bind_Ok in E as ([kept n3] & E3 & E).
    assert (H3 : chain_ok g (n_chain n3)).
    { destruct discard; [by injection E3 as [= <- <-]|]. by eapply keep_old_chain_ok. }
    destruct kept; cbn [negb] in E.
    + apply bind_Ok in E as (n4 & E4 & E). injection E as [= <- <-]. apply (on_chain_ok g) in E4 as [H4 Hb4]; [|done].
      split; [done|]. intros ->. injection E3 as [= <-]. rewrite HR, Hb4, Hb2, Hold, <- Hds, Ealt. done.
    + apply bind_Ok in E as ([? n4] & E4 & E). injection E as [= <- <-]. apply (rollback_ok g) in E4 as (_ & H4 & _); [|done..].
      split; [done|]. intros ->. discriminate.
  - apply bind_Ok in E as ([? n3] & E3 & E). apply (rollback_ok g) in E3 as (_ & H3 & ds2 & rest2 & Hd2 & _ & Hb3); [|done..].
    apply bind_Ok in E as (n4 & E4 & E). injection E as [= <- <-]. apply (on_chain_ok g) in E4 as [H4 Hb4]; [|done].
    split; [done|]. intros _. rewrite HR, Hb4, Hb3, Hb2, Hold. exists (s + length ds2)%nat. split; [lia|].
    fold s. rewrite take_app_le by (rewrite length_take; lia). rewrite take_take, Nat.min_id.
    apply (prefix_again _ _ rest2); [lia|]. by rewrite <- Hdis.
Qed.

Lemma alt_loop_entries fuel alt h chain ts chain' ts' :
  (forall x e, (x, e) ∈ chain -> alt !! x = Some e) -> alt_loop fuel alt h chain ts = Ok (chain', ts') ->
  forall x e, (x, e) ∈ chain' -> alt !! x = Some e.
Proof.
  revert h chain ts. induction fuel as [|fuel IH]; intros h chain ts HC E; cbn [alt_loop] in E;
    destruct (alt !! h) as [e0|] eqn:Eh; try done; try by injection E as [= <- <-].
  refine (IH _ _ _ _ E). intros x e [[= -> ->]|Hin]%elem_of_cons; [done|by apply HC].
Qed.

Lemma check_alternative_height bc b id bvc chain ts mainPrev bei is_cp :
  check_alternative m_currency bc b id bvc chain ts mainPrev = Ok (inl (bei, is_cp)) -> 0 <= be_height bei /\ bl bei = b.
Proof.
  unfold check_alternative. intros (connected & _ & E)%bind_Ok. destruct connected as [ts1|]; [|done]. case_in E; [done|].
  destruct (check_block _ _ _) as [ok cp]. case_in E; [done|]. apply bind_Ok in E as (tag & _ & E). case_in E; [done|].
  apply bind_Ok in E as (d & _ & E). case_in E; [done|]. apply bind_Ok in E as (pow & _ & E). case_in E; [done|].
  apply bind_Ok in E as (valid & _ & E). case_in E; [done|]. apply bind_Ok in E as (before & _ & E). injection E as [= <- <-].
  split; [|done]. apply u32_range.
Qed.

Lemma handle_ok g dns depth : preserves g (handle_alternative_block m_currency now dns depth).
Proof.
  induction depth as [|depth IH]; intros n b id bvc r bvc' n' H E; cbn [handle_alternative_block] in E; [done|].
  case_in E; [by injection E as [= <- <- <-]|]. cbn [n_chain n_pool] in E.
  set (bc := with_checkpoints _ _) in E. assert (HC : chain_ok g bc) by (by destruct H). clearbody bc.
  case_in E; [by injection E as [= <- <- <-]|]. case_in E; [by injection E as [= <- <- <-]|].
  apply bind_Ok in E as ([? csize] & _ & E). apply bind_Ok in E as (size_ok & _ & E). case_in E; [by injection E as [= <- <- <-]|].
  case_in E; [by injection E as [= <- <- <-]|]. apply bind_Ok in E as ([chain ts] & Ec & E).
  apply bind_Ok in E as (checked & Ek & E). destruct checked as [[bei is_cp]|bvc1]; [|by injection E as [= <- <- <-]].
  case_in E; [by injection E as [= <- <- <-]|]. apply bind_Ok in E as ([? orphans] & _ & E). apply bind_Ok in E as (back & _ & E).
  apply check_alternative_height in Ek as [Hbei _]. destruct HC as [L1 L2 L3].
  assert (HC' : chain_ok g (with_alternatives bc (<[id := bei]> (m_alternative_chains bc)) orphans)).
  { split; chain_simpl; [done|done|]. intros x e [[-> ->]|[_ He]]%lookup_insert_Some; [done|by eapply L3]. }
  destruct (is_cp || (back <? cumulative_difficulty bei)); [|injection E as [= <- <- <-]; exact HC'].
  apply bind_Ok in E as ([r1 n1] & Es & E). injection E as [= <- <- <-].
  apply (switch_ok g) in Es; [by destruct Es|done|done|].
  intros x e [Hin|Hin]%elem_of_app.
  - eapply L3. eapply alt_loop_entries; [|exact Ec|exact Hin]. by intros ? ? ?%elem_of_nil.
  - apply list_elem_of_singleton in Hin as [= -> ->]. done.
Qed.

Lemma addNewBlock_ok g dns depth n b bvc r bvc' n' :
  chain_ok g (n_chain n) -> addNewBlock m_currency now dns depth n b bvc = Ok (r, bvc', n') -> chain_ok g (n_chain n').
Proof.
  intros H E. unfold addNewBlock in E. apply bind_Ok in E as (id & Eid & E). destruct id as [id|]; [|by injection E as [= <- <- <-]].
  case_in E; [by injection E as [= <- <- <-]|]. apply bind_Ok in E as (tail & _ & E).
  case_in E; [by eapply handle_ok|]. eapply pushBlock_pooled_ok in E; [by destruct E|done|].
  unfold get_block_hash. by rewrite Eid.
Qed.
End Nodes.

(** * Claims *)

Section Claims.
Context {B : BuildConfig} {K : Crypto}.
Variable m_currency : Currency.

(** A node receives blocks, at any times and with any checkpoints from DNS. *)
Inductive node_step (n : Node) : Node -> Prop :=
| receive_block now dns depth b bvc r bvc' n' :
    addNewBlock m_currency now dns depth n b bvc = Ok (r, bvc', n') -> node_step n n'.

Lemma reachable_chain_ok g n n' : chain_ok g (n_chain n) -> rtc node_step n n' -> chain_ok g (n_chain n').
Proof.
  intros H HR. induction HR as [n|n n1 n2 S HR IH]; [done|]. apply IH. destruct S. by eapply addNewBlock_ok.
Qed.

(** C1.  Whatever blocks arrive, in whatever order, with any number of
    reorganisations and failed reorganisations, the main chain stays a hash chain:
    the block index holds exactly the hashes of the blocks in order, no block
    occurs twice, every block names the hash of the block before it, heights are
    right in the entries and in the miner transactions, and the first block is
    never replaced. *)
Theorem main_chain_linked g n n' :
  chain_ok g (n_chain n) -> rtc node_step n n' ->
  linked (m_blocks (n_chain n')) (m_container (m_blockIndex (n_chain n'))) /\ head (map bl (m_blocks (n_chain n'))) = Some g.
Proof. intros H HR. destruct (reachable_chain_ok _ _ _ H HR). done. Qed.

(** C6.  A reorganisation at a checkpoint: on success the blocks of the main
    chain from the height of the first alternative block on are replaced by
    exactly the alternative chain; on failure the blocks of the main chain are
    the original ones, cut off at most where an original block could not be added
    again, and never below the split. *)
Theorem reorganisation_blocks now dns depth g n alt_chain r n' :
  chain_ok g (n_chain n) -> (forall h e, (h, e) ∈ alt_chain -> 0 <= be_height e) ->
  switch_to_alternative_blockchain m_currency now (handle_alternative_block m_currency now dns depth) n alt_chain true = Ok (r, n') ->
  reorganised n n' alt_chain r.
Proof. intros H HA E. eapply switch_ok in E as [_ E]; [by apply E|apply (handle_ok m_currency now g)|done|done]. Qed.

(** The difficulty demanded of an alternative block does not depend on the
    difficulty of the main chain: it is 1 or 100. *)
Theorem alternative_difficulty bc alt_chain :
  2 <= difficultyWindow m_currency ->
  exists d, get_next_difficulty_for_alternative_chain m_currency bc alt_chain = Ok d /\ (d = 1 \/ d = 100).
Proof.
  intros HW. unfold get_next_difficulty_for_alternative_chain.
  set (DFC := getBlockMajorVersionForHeight _ _ _). assert (HD : 1 <= DFC <= 2).
  { subst DFC. unfold getBlockMajorVersionForHeight. case_step; vm_compute; split; congruence. }
  set (window := drop _ _). assert (HL : zlen window <= 2).
  { subst window. unfold zlen. rewrite length_drop. lia. }
  unfold LWMA3Difficulty. unfold zlen in *. rewrite !length_map.
  rewrite (massert_true (Z.of_nat (length window) <=? difficultyWindow m_currency)) by (apply Z.leb_le; lia). cbn [mbind outcome_bind].
  destruct (Z.leb_spec (Z.of_nat (length window)) 1); [eauto|].
  rewrite massert_true by (apply andb_true_iff; split; [apply Z.eqb_refl|apply Z.leb_le; lia]). cbn [mbind outcome_bind].
  destruct (Z.leb_spec (Z.of_nat (length window)) 10); [eauto|lia].
Qed.

(** The timestamps at heights [h], [h - 1], ..., [count] of them. *)
Fixpoint timestamps_down (bc : Blockchain) (h : Z) (count : nat) : list Z :=
  match count with
  | O => []
  | S count => match m_blocks bc !! Z.to_nat h with Some e => [block_timestamp e] | None => [] end ++ timestamps_down bc (h - 1) count
  end.

Lemma timestamps_loop_spec fuel bc h stop ts :
  0 <= stop -> (stop < h \/ h = 0) -> h < zlen (m_blocks bc) -> (Z.to_nat h < fuel)%nat ->
  timestamps_loop fuel bc h stop ts = Ok (ts ++ timestamps_down bc h (Z.to_nat (Z.max 1 (h - stop)))).
Proof.
  revert h ts. induction fuel as [|fuel IH]; intros h ts Hs Hh HL Hf; [lia|]. cbn [timestamps_loop].
  destruct (m_blocks bc !! Z.to_nat h) as [e|] eqn:Ee.
  2:{ apply lookup_ge_None in Ee. unfold zlen in HL. lia. }
  rewrite (proj2 (sget_Ok _ _ e)) by (split; [lia|done]). cbn [mbind outcome_bind].
  assert (HD : forall k, timestamps_down bc h (S k) = block_timestamp e :: timestamps_down bc (h - 1) k) by (intros k; cbn [timestamps_down]; by rewrite Ee).
  destruct (Z.eqb_spec h 0) as [->|Hne].
  { replace (Z.to_nat (Z.max 1 (0 - stop))) with 1%nat by lia. by rewrite HD. }
  destruct (Z.eqb_spec (h - 1) stop) as [<-|Hns].
  { replace (Z.to_nat (Z.max 1 (h - (h - 1)))) with 1%nat by lia. by rewrite HD. }
  rewrite IH by lia. replace (Z.to_nat (Z.max 1 (h - stop))) with (S (Z.to_nat (Z.max 1 (h - 1 - stop)))) by lia.
  by rewrite HD, <- app_assoc.
Qed.

(** [complete_timestamps_vector] always returns: with enough timestamps it
    does nothing, beyond the main chain it fails, and otherwise it appends the
    timestamps of the blocks from the given height down, as many as are missing
    or as there are above the first block. *)
Theorem complete_timestamps_terminates bc start ts :
  0 <= start ->
  complete_timestamps_vector m_currency bc start ts =
    Ok (if timestampCheckWindow m_currency <=? zlen ts then (true, ts)
        else if zlen (m_blocks bc) <=? start then (false, ts)
        else (true, ts ++ timestamps_down bc start (Z.to_nat (Z.max 1 (Z.min start (timestampCheckWindow m_currency - zlen ts)))))).
Proof.
  intros Hs. unfold complete_timestamps_vector. destruct (Z.leb_spec (timestampCheckWindow m_currency) (zlen ts)); [done|].
  destruct (Z.ltb_spec start (zlen (m_blocks bc))), (Z.leb_spec (zlen (m_blocks bc)) start); try lia; cbn [negb]; [|done].
  set (need := timestampCheckWindow m_currency - zlen ts) in *.
  set (stop := if need <? start then start - need else 0).
  assert (HS : 0 <= stop /\ (stop < start \/ start = 0) /\ Z.max 1 (start - stop) = Z.max 1 (Z.min start need)).
  { subst stop. destruct (Z.ltb_spec need start); lia. }
  rewrite timestamps_loop_spec by (try apply HS; try done; lia). cbn [mbind outcome_bind]. by rewrite (proj2 (proj2 HS)).
Qed.
End Claims.

(** * Witnesses *)

(** The first block of an empty chain. *)
Lemma genesis_ok {B : BuildConfig} {K : Crypto} m_currency now n b id bvc bvc' n' :
  m_blocks (n_chain n) = [] -> m_container (m_blockIndex (n_chain n)) = [] -> m_alternative_chains (n_chain n) = ∅ ->
  get_block_hash cn_fast_hash b = Ok id -> pushBlock_pooled m_currency now n b id bvc = Ok (true, bvc', n') -> chain_ok b (n_chain n').
Proof.
  intros H1 H2 H3 Hid E. unfold pushBlock_pooled in E. apply bind_Ok in E as ([r n1] & El & E). apply load_loop_chain in El.
  destruct r as [txs|]; [|done]. apply bind_Ok in E as ([[ok bvc1] bc] & Ep & E).
  destruct ok; [|by apply bind_Ok in E as (? & _ & ?)]. injection E as [= <- <-]. rewrite El in Ep.
  pose proof (pushBlock_linked m_currency _ _ _ _ _ _ _ _ _ ltac:(rewrite H1, H2; apply linked_nil) Hid Ep) as HL.
  apply pushBlock_frame in Ep as (Ea & _ & e & h & Eb & Ebl & _). split; chain_simpl; [done|rewrite Eb, H1; cbn; by rewrite Ebl|].
  rewrite Ea, H3. intros x y. by rewrite lookup_empty.
Qed.

Definition toy_block (height time nonce : Z) (previous : list Z) : Block := {|
  header := {| majorVersion := 1; minorVersion := 0; nonce := nonce; timestamp := time; previousBlockHash := previous |};
  baseTransaction := {| prefix := {| version := 1; unlockTime := height + 10; inputs := [InBase {| blockIndex := height |}];
    outputs := [key_out 500]; extra := [] |}; signatures := [] |};
  transactionHashes := [] |}.
Definition hash_of (b : Block) : list Z := match get_block_hash (B := debug_build) sum_hash b with Ok h => h | _ => [] end.
Definition genesis : Block := toy_block 0 1000 0 NULL_HASH.
Definition second : Block := toy_block 1 1100 0 (hash_of genesis).
Definition rival : Block := toy_block 1 1150 5 (hash_of genesis).

Definition node_of (o : outcome (bool * block_verification_context * Node)) : option Node :=
  match o with Ok (true, _, n) => Some n | _ => None end.
Definition empty_node : Node := {| n_chain := empty_chain; n_pool := empty_pool |}.
Definition receive (n : Node) (b : Block) :=
  addNewBlock (B := debug_build) (K := toy_crypto) default_currency 2000 [] 2 n b no_bvc.
Definition genesis_node : Node := default empty_node
  (node_of (pushBlock_pooled (B := debug_build) (K := toy_crypto) default_currency 2000 empty_node genesis (hash_of genesis) no_bvc)).
Definition second_node : Node := default empty_node (node_of (receive genesis_node second)).

Lemma genesis_node_ok : chain_ok (B := debug_build) (K := toy_crypto) genesis (n_chain genesis_node).
Proof.
  destruct (pushBlock_pooled (B := debug_build) (K := toy_crypto) default_currency 2000 empty_node genesis (hash_of genesis) no_bvc)
    as [[[[] bvc'] n']|e| |] eqn:E; try (vm_compute in E; discriminate E).
  unfold genesis_node. rewrite E.
  refine (genesis_ok (B := debug_build) (K := toy_crypto) _ _ empty_node genesis (hash_of genesis) _ _ _ eq_refl eq_refl eq_refl _ E).
  vm_compute. reflexivity.
Qed.

Lemma second_step : node_step (B := debug_build) (K := toy_crypto) default_currency genesis_node second_node.
Proof.
  destruct (receive genesis_node second) as [[[[] bvc'] n']|e| |] eqn:E; try (vm_compute in E; discriminate E).
  unfold second_node. rewrite E. exact (receive_block (B := debug_build) (K := toy_crypto) _ _ _ _ _ _ _ _ _ _ E).
Qed.

Lemma main_chain_linked_witness :
  linked (B := debug_build) (K := toy_crypto) (m_blocks (n_chain second_node)) (m_container (m_blockIndex (n_chain second_node))) /\
  map bl (m_blocks (n_chain second_node)) = [genesis; second].
Proof.
  split; [|vm_compute; reflexivity].
  exact (proj1 (main_chain_linked (B := debug_build) (K := toy_crypto) default_currency genesis genesis_node second_node
    genesis_node_ok (rtc_once _ _ second_step))).
Defined.

(** The rival of the second block replaces it. *)
Definition rival_entry : BlockEntry := {| bl := rival; be_height := 1; block_cumulative_size := 0; cumulative_difficulty := 100;
  already_generated_coins := 0; be_transactions := [] |}.
Definition rival_switch :=
  switch_to_alternative_blockchain (B := debug_build) (K := toy_crypto) default_currency 2000
    (handle_alternative_block (B := debug_build) (K := toy_crypto) default_currency 2000 [] 2) second_node [(hash_of rival, rival_entry)] true.

Lemma reorganisation_blocks_witness :
  match rival_switch with
  | Ok (true, n') => map bl (m_blocks (n_chain n')) = [genesis; rival]
  | _ => False
  end.
Proof.
  destruct rival_switch as [[[] n']|e| |] eqn:E; try (vm_compute in E; discriminate E).
  pose proof (reorganisation_blocks (B := debug_build) (K := toy_crypto) default_currency 2000 [] 2 genesis second_node
    [(hash_of rival, rival_entry)] true n'
    (reachable_chain_ok (B := debug_build) (K := toy_crypto) default_currency genesis genesis_node second_node genesis_node_ok
      (rtc_once _ _ second_step))) as H.
  rewrite H; [vm_compute; reflexivity| |exact E].
  intros h e Hin. apply list_elem_of_singleton in Hin. injection Hin as [= -> ->]. cbn. lia.
Defined.

Lemma alternative_difficulty_witness :
  2 <= difficultyWindow default_currency /\
  exists d, get_next_difficulty_for_alternative_chain (B := debug_build) default_currency sample_chain [] = Ok d /\ (d = 1 \/ d = 100).
Proof.
  assert (H : 2 <= difficultyWindow default_currency) by (vm_compute; discriminate).
  split; [exact H|]. exact (alternative_difficulty (B := debug_build) default_currency sample_chain [] H).
Defined.

Lemma complete_timestamps_terminates_witness :
  complete_timestamps_vector default_currency (n_chain second_node) 1 [] = Ok (true, [1100]).
Proof.
  rewrite (complete_timestamps_terminates default_currency (n_chain second_node) 1 [] ltac:(lia)).
  vm_compute. reflexivity.
Defined.
