(* ===== verification/TransfersContainer.v ===== *)
(** The outputs a wallet account owns: [Transfers/TransfersContainer.cpp] and
    [include/ITransfersContainer.h].

    The containers of transfers are multi-index containers with a unique index on
    the output key (transaction hash and output number): finite maps from that
    key.  Where the source takes elements of a hashed index in its unspecified
    order, or sorts elements that compare equal, the model takes them in the order
    of the map.  The transactions are a list in the order of their index by block
    height. *)
From S2P Require Import Prelude CryptoNote Currency TransactionApi.

Definition WALLET_LEGACY_UNCONFIRMED_TRANSACTION_HEIGHT : Z := UINT32_MAX.
Definition UNCONFIRMED_TRANSACTION_GLOBAL_OUTPUT_INDEX : Z := UINT32_MAX.
Notation UNCONFIRMED := WALLET_LEGACY_UNCONFIRMED_TRANSACTION_HEIGHT.

(** * Data *)

(** [TransactionOutputKey]. *)
Notation TransactionOutputKey := (list Z * Z)%type.

(** [TransactionOutputInformationIn]; [outputKey] is meaningful for keys,
    [requiredSignatures] and [term] for multisignatures.
    [TransactionOutputInformation], its base, is the same without the key
    image. *)
Record TransactionOutputInformationIn := {
  type : OutputType;
  amount : Z;
  globalOutputIndex : Z;
  outputInTransaction : Z;
  oi_transactionHash : list Z;
  transactionPublicKey : list Z;
  outputKey : list Z;
  requiredSignatures : Z;
  term : Z;
  oi_keyImage : list Z;
}.

Record TransactionOutputInformationEx := {
  info : TransactionOutputInformationIn;
  oi_unlockTime : Z;
  oi_blockHeight : Z;
  oi_transactionIndex : Z;
  visible : bool;
}.

Record TransactionBlockInfo := { bk_height : Z; bk_timestamp : Z; bk_transactionIndex : Z }.

Record SpentTransactionOutput := {
  spent_output : TransactionOutputInformationEx;
  spendingBlock : TransactionBlockInfo;
  spendingTransactionHash : list Z;
  inputInTransaction : Z;
}.

Record TransactionInformation := {
  tx_hash : list Z;
  tx_publicKey : list Z;
  tx_blockHeight : Z;
  tx_timestamp : Z;
  tx_unlock : Z;
  totalAmountIn : Z;
  totalAmountOut : Z;
  info_extra : list Z;
  paymentId : list Z;
  info_messages : list (list Z);
}.

Definition getTransactionOutputKey (o : TransactionOutputInformationEx) : TransactionOutputKey :=
  (oi_transactionHash (info o), outputInTransaction (info o)).

(** [SpentOutputDescriptor]: what identifies an output when it is spent. *)
Inductive SpentOutputDescriptor :=
| DescriptorInvalid
| DescriptorKey (keyImage : list Z)
| DescriptorMultisignature (amount globalOutputIndex : Z).
#[export] Instance SpentOutputDescriptor_eq_dec : EqDecision SpentOutputDescriptor.
Proof. solve_decision. Defined.

Definition descriptor (i : TransactionOutputInformationIn) : SpentOutputDescriptor :=
  match type i with
  | OutputTypeKey => DescriptorKey (oi_keyImage i)
  | OutputTypeMultisignature => DescriptorMultisignature (amount i) (globalOutputIndex i)
  | OutputInvalid => DescriptorInvalid
  end.

(** [operator==], which asserts on an invalid descriptor and is false there. *)
Definition descriptor_matches (d : SpentOutputDescriptor) (i : TransactionOutputInformationIn) : bool :=
  match d with DescriptorInvalid => false | _ => bool_decide (d = descriptor i) end.

Notation transfers := (gmap TransactionOutputKey TransactionOutputInformationEx).
Notation spent_transfers := (gmap TransactionOutputKey SpentTransactionOutput).

(** Ranges of the indexes: by descriptor, by containing transaction and by
    spending transaction. *)
Definition has_descriptor (d : SpentOutputDescriptor) (m : transfers) : transfers :=
  filter (fun p => descriptor_matches d (info (snd p)) = true) m.
Definition spent_has_descriptor (d : SpentOutputDescriptor) (m : spent_transfers) : spent_transfers :=
  filter (fun p => descriptor_matches d (info (spent_output (snd p))) = true) m.
Definition of_transaction (h : list Z) (m : transfers) : transfers :=
  filter (fun p => oi_transactionHash (info (snd p)) = h) m.
Definition spent_by (h : list Z) (m : spent_transfers) : spent_transfers :=
  filter (fun p => spendingTransactionHash (snd p) = h) m.

Definition by_descriptor (d : SpentOutputDescriptor) (m : transfers) : list (TransactionOutputKey * TransactionOutputInformationEx) :=
  map_to_list (has_descriptor d m).
Definition spent_by_descriptor (d : SpentOutputDescriptor) (m : spent_transfers) : list (TransactionOutputKey * SpentTransactionOutput) :=
  map_to_list (spent_has_descriptor d m).
Definition by_transaction (h : list Z) (m : transfers) : list (TransactionOutputKey * TransactionOutputInformationEx) :=
  map_to_list (of_transaction h m).
Definition by_spending (h : list Z) (m : spent_transfers) : list (TransactionOutputKey * SpentTransactionOutput) :=
  map_to_list (spent_by h m).

Record TransfersContainer := {
  m_transactions : list TransactionInformation;
  m_unconfirmedTransfers : transfers;
  m_availableTransfers : transfers;
  m_spentTransfers : spent_transfers;
  m_transfersUnlockJobs : gmap TransactionOutputKey Z;
  m_currentHeight : Z;
}.

Definition empty_container : TransfersContainer := {|
  m_transactions := []; m_unconfirmedTransfers := ∅; m_availableTransfers := ∅; m_spentTransfers := ∅;
  m_transfersUnlockJobs := ∅; m_currentHeight := 0 |}.

(** Assignments to members. *)
Definition with_transactions (l : list TransactionInformation) (c : TransfersContainer) : TransfersContainer := {|
  m_transactions := l; m_unconfirmedTransfers := m_unconfirmedTransfers c; m_availableTransfers := m_availableTransfers c;
  m_spentTransfers := m_spentTransfers c; m_transfersUnlockJobs := m_transfersUnlockJobs c; m_currentHeight := m_currentHeight c |}.
Definition with_unconfirmed (u : transfers) (c : TransfersContainer) : TransfersContainer := {|
  m_transactions := m_transactions c; m_unconfirmedTransfers := u; m_availableTransfers := m_availableTransfers c;
  m_spentTransfers := m_spentTransfers c; m_transfersUnlockJobs := m_transfersUnlockJobs c; m_currentHeight := m_currentHeight c |}.
Definition with_available (a : transfers) (c : TransfersContainer) : TransfersContainer := {|
  m_transactions := m_transactions c; m_unconfirmedTransfers := m_unconfirmedTransfers c; m_availableTransfers := a;
  m_spentTransfers := m_spentTransfers c; m_transfersUnlockJobs := m_transfersUnlockJobs c; m_currentHeight := m_currentHeight c |}.
Definition with_spent (s : spent_transfers) (c : TransfersContainer) : TransfersContainer := {|
  m_transactions := m_transactions c; m_unconfirmedTransfers := m_unconfirmedTransfers c; m_availableTransfers := m_availableTransfers c;
  m_spentTransfers := s; m_transfersUnlockJobs := m_transfersUnlockJobs c; m_currentHeight := m_currentHeight c |}.
Definition with_jobs (j : gmap TransactionOutputKey Z) (c : TransfersContainer) : TransfersContainer := {|
  m_transactions := m_transactions c; m_unconfirmedTransfers := m_unconfirmedTransfers c; m_availableTransfers := m_availableTransfers c;
  m_spentTransfers := m_spentTransfers c; m_transfersUnlockJobs := j; m_currentHeight := m_currentHeight c |}.
Definition with_height (h : Z) (c : TransfersContainer) : TransfersContainer := {|
  m_transactions := m_transactions c; m_unconfirmedTransfers := m_unconfirmedTransfers c; m_availableTransfers := m_availableTransfers c;
  m_spentTransfers := m_spentTransfers c; m_transfersUnlockJobs := m_transfersUnlockJobs c; m_currentHeight := h |}.

Definition set_visible (v : bool) (o : TransactionOutputInformationEx) : TransactionOutputInformationEx :=
  {| info := info o; oi_unlockTime := oi_unlockTime o; oi_blockHeight := oi_blockHeight o;
     oi_transactionIndex := oi_transactionIndex o; visible := v |}.
Definition set_spent_visible (v : bool) (s : SpentTransactionOutput) : SpentTransactionOutput :=
  {| spent_output := set_visible v (spent_output s); spendingBlock := spendingBlock s;
     spendingTransactionHash := spendingTransactionHash s; inputInTransaction := inputInTransaction s |}.

(** * Visibility *)

(** [lessTIterator] and [minElement]: the first least element. *)
Definition less_transfer (a b : TransactionOutputInformationEx) : bool :=
  (oi_blockHeight a <? oi_blockHeight b) ||
  ((oi_blockHeight a =? oi_blockHeight b) && (oi_transactionIndex a <? oi_transactionIndex b)).
Fixpoint minElement {K} (l : list (K * TransactionOutputInformationEx)) : option (K * TransactionOutputInformationEx) :=
  match l with
  | [] => None
  | x :: l => match minElement l with Some y => if less_transfer (snd y) (snd x) then Some y else Some x | None => Some x end
  end.

(** [updateVisibility] of the elements with a descriptor. *)
Definition updateVisibility (d : SpentOutputDescriptor) (v : bool) (m : transfers) : transfers :=
  (fun o => if descriptor_matches d (info o) then set_visible v o else o) <$> m.
Definition updateSpentVisibility (d : SpentOutputDescriptor) (v : bool) (m : spent_transfers) : spent_transfers :=
  (fun s => if descriptor_matches d (info (spent_output s)) then set_spent_visible v s else s) <$> m.

Section Container.
Context {B : BuildConfig}.

Definition updateTransfersVisibility (c : TransfersContainer) (keyImage : list Z) : outcome TransfersContainer :=
  let d := DescriptorKey keyImage in
  let unconfirmedCount := length (by_descriptor d (m_unconfirmedTransfers c)) in
  let availableRange := by_descriptor d (m_availableTransfers c) in
  let spentCount := length (spent_by_descriptor d (m_spentTransfers c)) in
  _ ← massert ((spentCount =? 0) || (spentCount =? 1))%nat;
  Ok (if (0 <? spentCount)%nat then
        with_unconfirmed (updateVisibility d false (m_unconfirmedTransfers c))
          (with_available (updateVisibility d false (m_availableTransfers c))
             (with_spent (updateSpentVisibility d true (m_spentTransfers c)) c))
      else match minElement availableRange with
           | Some (k, _) =>
               with_unconfirmed (updateVisibility d false (m_unconfirmedTransfers c))
                 (with_available (alter (set_visible true) k (updateVisibility d false (m_availableTransfers c))) c)
           | None => with_unconfirmed (updateVisibility d (unconfirmedCount =? 1)%nat (m_unconfirmedTransfers c)) c
           end).

(** [if (type == Key) updateTransfersVisibility(keyImage)]. *)
Definition update_if_key (c : TransfersContainer) (i : TransactionOutputInformationIn) : outcome TransfersContainer :=
  match type i with OutputTypeKey => updateTransfersVisibility c (oi_keyImage i) | _ => Ok c end.

(** * Unlock jobs *)

Variable m_currency : Currency.
Variable m_transactionSpendableAge : Z.

Definition makeTransferUnlockJob (o : TransactionOutputInformationEx) : Z :=
  let transactionSpendableAge := u32 m_transactionSpendableAge in
  let unlockTime := u32 (if oi_unlockTime o =? 0 then oi_blockHeight o else oi_unlockTime o) in
  let soft := u32 (u32 (oi_blockHeight o + transactionSpendableAge) + 1) in
  if bool_decide (type (info o) = OutputTypeMultisignature) && negb (term (info o) =? 0)
  then Z.max (Z.max unlockTime (u32 (oi_blockHeight o + term (info o)))) soft
  else Z.max unlockTime soft.

(** [emplace] does nothing when the key is there, and the result is asserted. *)
Definition addUnlockJob (c : TransfersContainer) (o : TransactionOutputInformationEx) : outcome TransfersContainer :=
  let k := getTransactionOutputKey o in
  match m_transfersUnlockJobs c !! k with
  | Some _ => _ ← massert false; Ok c
  | None => Ok (with_jobs (<[k := makeTransferUnlockJob o]> (m_transfersUnlockJobs c)) c)
  end.

Definition deleteUnlockJob (c : TransfersContainer) (o : TransactionOutputInformationEx) : TransfersContainer :=
  with_jobs (delete (getTransactionOutputKey o) (m_transfersUnlockJobs c)) c.

(** The emplacements into the containers of transfers. *)
Definition emplace_unconfirmed (c : TransfersContainer) (o : TransactionOutputInformationEx) : outcome TransfersContainer :=
  _ ← massert (negb (bool_decide (type (info o) = OutputInvalid)));
  let k := getTransactionOutputKey o in
  match m_unconfirmedTransfers c !! k with
  | Some _ => _ ← massert false; Ok c
  | None => Ok (with_unconfirmed (<[k := o]> (m_unconfirmedTransfers c)) c)
  end.
Definition emplace_available (c : TransfersContainer) (o : TransactionOutputInformationEx) : outcome TransfersContainer :=
  _ ← massert (negb (bool_decide (type (info o) = OutputInvalid)));
  let k := getTransactionOutputKey o in
  match m_availableTransfers c !! k with
  | Some _ => _ ← massert false; Ok c
  | None => Ok (with_available (<[k := o]> (m_availableTransfers c)) c)
  end.
(** The spent transfers have a second unique index, on the descriptor. *)
Definition emplace_spent (c : TransfersContainer) (s : SpentTransactionOutput) : outcome TransfersContainer :=
  _ ← massert (negb (bool_decide (type (info (spent_output s)) = OutputInvalid)));
  let k := getTransactionOutputKey (spent_output s) in
  match m_spentTransfers c !! k, spent_by_descriptor (descriptor (info (spent_output s))) (m_spentTransfers c) with
  | None, [] => Ok (with_spent (<[k := s]> (m_spentTransfers c)) c)
  | _, _ => _ ← massert false; Ok c
  end.

Definition copyToSpent (c : TransfersContainer) (block : TransactionBlockInfo) (txHash : list Z) (inputIndex : Z)
    (o : TransactionOutputInformationEx) : outcome TransfersContainer :=
  _ ← massert (negb (oi_blockHeight o =? UNCONFIRMED));
  _ ← massert (negb (globalOutputIndex (info o) =? UNCONFIRMED_TRANSACTION_GLOBAL_OUTPUT_INDEX));
  emplace_spent c {| spent_output := o; spendingBlock := block; spendingTransactionHash := txHash; inputInTransaction := u32 inputIndex |}.

(** [count(descriptor) > 0] in the available or the spent transfers. *)
Definition multisignature_exists (c : TransfersContainer) (i : TransactionOutputInformationIn) : bool :=
  match by_descriptor (descriptor i) (m_availableTransfers c), spent_by_descriptor (descriptor i) (m_spentTransfers c) with
  | [], [] => false
  | _, _ => true
  end.

(** A confirmed transfer becomes available: the duplicate check of
    multisignatures, the unlock job and the emplacement. *)
Definition make_available (c : TransfersContainer) (o : TransactionOutputInformationEx) : outcome TransfersContainer :=
  if bool_decide (type (info o) = OutputTypeMultisignature) && multisignature_exists c (info o) then Throw runtime_error else
  c ← addUnlockJob c o;
  emplace_available c o.

(** * Adding transactions *)

Section Reader.
Context {T : Type} {R : ITransactionReader T}.

Definition set_hash (i : TransactionOutputInformationIn) (h : list Z) : TransactionOutputInformationIn :=
  {| type := type i; amount := amount i; globalOutputIndex := globalOutputIndex i; outputInTransaction := outputInTransaction i;
     oi_transactionHash := h; transactionPublicKey := transactionPublicKey i; outputKey := outputKey i;
     requiredSignatures := requiredSignatures i; term := term i; oi_keyImage := oi_keyImage i |}.

Fixpoint addTransactionOutputs (c : TransfersContainer) (block : TransactionBlockInfo) (tx : T) (txHash : list Z)
    (transfers : list TransactionOutputInformationIn) : outcome TransfersContainer :=
  match transfers with
  | [] => Ok c
  | transfer :: transfers =>
      _ ← massert (outputInTransaction transfer <? getOutputCount tx);
      _ ← (if NDEBUG then Ok tt else t ← getOutputType tx (outputInTransaction transfer); massert (bool_decide (type transfer = t)));
      _ ← massert (0 <? amount transfer);
      let transferIsUnconfirmed := globalOutputIndex transfer =? UNCONFIRMED_TRANSACTION_GLOBAL_OUTPUT_INDEX in
      if negb (Bool.eqb (bk_height block =? UNCONFIRMED) transferIsUnconfirmed) then Throw invalid_argument else
      let o := {| info := set_hash transfer txHash; oi_unlockTime := getUnlockTime tx; oi_blockHeight := bk_height block;
                  oi_transactionIndex := bk_transactionIndex block; visible := true |} in
      c ← (if transferIsUnconfirmed then emplace_unconfirmed c o else make_available c o);
      c ← update_if_key c (info o);
      addTransactionOutputs c block tx txHash transfers
  end.

(** The order of [sort]; [findFirstByAmount] takes the first of the amount. *)
Definition transfer_le (a b : TransactionOutputKey * TransactionOutputInformationEx) : Prop :=
  less_transfer (snd b) (snd a) = false.
#[local] Instance transfer_le_dec : RelDecision transfer_le.
Proof. intros a b. unfold transfer_le. apply _. Defined.
Definition findFirstByAmount (a : Z) (l : list (TransactionOutputKey * TransactionOutputInformationEx)) :
  option (TransactionOutputKey * TransactionOutputInformationEx) :=
  head (List.filter (fun p => amount (info (snd p)) =? a) l).

(** An available transfer is spent: its job is deleted, it is copied to the
    spent transfers and erased. *)
Definition spend_transfer (c : TransfersContainer) (block : TransactionBlockInfo) (txHash : list Z) (i : Z)
    (k : TransactionOutputKey) (o : TransactionOutputInformationEx) : outcome TransfersContainer :=
  c ← copyToSpent (deleteUnlockJob c o) block txHash i o;
  Ok (with_available (delete k (m_availableTransfers c)) c).

Definition add_key_input (c : TransfersContainer) (block : TransactionBlockInfo) (txHash : list Z) (i : Z) (input : KeyInput)
  : outcome (bool * TransfersContainer) :=
  let d := DescriptorKey (keyImage input) in
  match spent_by_descriptor d (m_spentTransfers c) with
  | _ :: _ => Throw runtime_error
  | [] =>
      match by_descriptor d (m_availableTransfers c) with
      | [] => match by_descriptor d (m_unconfirmedTransfers c) with
              | [] => Ok (false, c)
              | _ :: _ => Throw runtime_error
              end
      | availableOutputsRange =>
          match findFirstByAmount (ki_amount input) (merge_sort transfer_le availableOutputsRange) with
          | None => Throw runtime_error
          | Some (k, o) =>
              _ ← massert (bool_decide (oi_keyImage (info o) = keyImage input));
              c ← spend_transfer c block txHash i k o;
              c ← updateTransfersVisibility c (keyImage input);
              Ok (true, c)
          end
      end
  end.

Definition add_multisignature_input (c : TransfersContainer) (block : TransactionBlockInfo) (txHash : list Z) (i : Z)
    (input : MultisignatureInput) : outcome (bool * TransfersContainer) :=
  match by_descriptor (DescriptorMultisignature (mi_amount input) (outputIndex input)) (m_availableTransfers c) with
  | [] => Ok (false, c)
  | (k, o) :: _ => c ← spend_transfer c block txHash i k o; Ok (true, c)
  end.

Definition add_input (c : TransfersContainer) (block : TransactionBlockInfo) (tx : T) (txHash : list Z) (i : Z)
  : outcome (bool * TransfersContainer) :=
  inputType ← getInputType tx i;
  match inputType with
  | InputTypeKey => input ← getInput_Key tx i; add_key_input c block txHash i input
  | InputTypeMultisignature => input ← getInput_Multisignature tx i; add_multisignature_input c block txHash i input
  | _ => _ ← massert (bool_decide (inputType = InputGenerating)); Ok (false, c)
  end.

(** [n] inputs are left, the next one is number [i]. *)
Fixpoint addTransactionInputs (n : nat) (c : TransfersContainer) (block : TransactionBlockInfo) (tx : T) (txHash : list Z)
    (i : Z) (inputsAdded : bool) : outcome (bool * TransfersContainer) :=
  match n with
  | O => Ok (inputsAdded, c)
  | S n =>
      '(added, c) ← add_input c block tx txHash i;
      addTransactionInputs n c block tx txHash (i + 1) (inputsAdded || added)
  end.

(** Insertion into the index by height: after the transactions of equal
    height. *)
Fixpoint insert_transaction (t : TransactionInformation) (l : list TransactionInformation) : list TransactionInformation :=
  match l with
  | [] => [t]
  | u :: l' => if tx_blockHeight t <? tx_blockHeight u then t :: l else u :: insert_transaction t l'
  end.
Definition find_transaction (h : list Z) (l : list TransactionInformation) : option TransactionInformation :=
  head (List.filter (fun t => bool_decide (tx_hash t = h)) l).
Definition erase_transaction (h : list Z) (l : list TransactionInformation) : list TransactionInformation :=
  List.filter (fun t => negb (bool_decide (tx_hash t = h))) l.

(** The private [addTransaction]. *)
Definition add_transaction_info (c : TransfersContainer) (block : TransactionBlockInfo) (tx : T) (messages : list (list Z))
  : outcome TransfersContainer :=
  txHash ← getTransactionHash tx;
  let t := {| tx_hash := txHash; tx_publicKey := getTransactionPublicKey tx; tx_blockHeight := bk_height block;
              tx_timestamp := bk_timestamp block; tx_unlock := getUnlockTime tx; totalAmountIn := getInputTotalAmount tx;
              totalAmountOut := getOutputTotalAmount tx; info_extra := getExtra tx;
              paymentId := default NULL_HASH (getPaymentId tx); info_messages := messages |} in
  match find_transaction txHash (m_transactions c) with
  | Some _ => _ ← massert false; Ok c
  | None => Ok (with_transactions (insert_transaction t (m_transactions c)) c)
  end.
End Reader.

(** * Heights *)

Definition getAvailableOutput (c : TransfersContainer) (k : TransactionOutputKey) : outcome TransactionOutputInformationIn :=
  _ ← massert (bool_decide (is_Some (m_availableTransfers c !! k)));
  match m_availableTransfers c !! k with Some o => Ok (info o) | None => Throw invalid_argument end.

Fixpoint getAvailableOutputs (c : TransfersContainer) (ks : list TransactionOutputKey) : outcome (list TransactionOutputInformationIn) :=
  match ks with
  | [] => Ok []
  | k :: ks => o ← getAvailableOutput c k; l ← getAvailableOutputs c ks; Ok (o :: l)
  end.

(** The jobs between two bounds of the height index: above [lo] (all of them
    when there is none) and up to [hi].  When the bounds are the wrong way round
    the loop of the source runs past the end, unless they coincide. *)
Definition job_le (a b : TransactionOutputKey * Z) : Prop := snd a <= snd b.
#[local] Instance job_le_dec : RelDecision job_le.
Proof. intros a b. unfold job_le. apply _. Defined.
Definition jobs_in (lo : option Z) (hi : Z) (jobs : gmap TransactionOutputKey Z) : list TransactionOutputKey :=
  map fst (merge_sort job_le (List.filter (fun p => (match lo with Some lo => lo <? snd p | None => true end) && (snd p <=? hi)) (map_to_list jobs))).
Definition jobs_range (c : TransfersContainer) (lo : option Z) (hi : Z) : outcome (list TransactionOutputKey) :=
  match lo with
  | Some l => if hi <? l then match jobs_in (Some hi) l (m_transfersUnlockJobs c) with [] => Ok [] | _ => Undefined end
              else Ok (jobs_in lo hi (m_transfersUnlockJobs c))
  | None => Ok (jobs_in None hi (m_transfersUnlockJobs c))
  end.

Definition getUnlockingTransfers (c : TransfersContainer) (prevHeight currentHeight : Z) : outcome (list TransactionOutputInformationIn) :=
  if currentHeight <? prevHeight then _ ← massert false; Throw invalid_argument else
  ks ← jobs_range c (if prevHeight =? 0 then None else Some (u32 (prevHeight + 1))) (u32 (currentHeight + 1));
  getAvailableOutputs c ks.

Definition getLockingTransfers (c : TransfersContainer) (prevHeight currentHeight : Z) : outcome (list TransactionOutputInformationIn) :=
  if prevHeight <? currentHeight then Ok [] else
  ks ← jobs_range c (Some (u32 (currentHeight + 1))) (u32 (prevHeight + 1));
  getAvailableOutputs c ks.

(** [advanceHeight]: the outputs that are unlocked and the new state. *)
Definition doAdvanceHeight (c : TransfersContainer) (height : Z) : outcome (list TransactionOutputInformationIn * TransfersContainer) :=
  if height <? m_currentHeight c then Throw invalid_argument else
  let c' := with_height height c in
  l ← getUnlockingTransfers c' (m_currentHeight c) height;
  Ok (l, c').

(** [addTransaction]: whether anything was added, the outputs that are unlocked
    and the new state. *)
Definition addTransaction {T} `{ITransactionReader T} (c : TransfersContainer) (block : TransactionBlockInfo) (tx : T)
    (transfers : list TransactionOutputInformationIn) (messages : list (list Z))
  : outcome (bool * list TransactionOutputInformationIn * TransfersContainer) :=
  if bk_height block <? m_currentHeight c then Throw invalid_argument else
  txHash ← getTransactionHash tx;
  match find_transaction txHash (m_transactions c) with
  | Some _ => Throw invalid_argument
  | None =>
      c ← addTransactionOutputs c block tx txHash transfers;
      '(added, c) ← addTransactionInputs (Z.to_nat (getInputCount tx)) c block tx txHash 0 (match transfers with [] => false | _ => true end);
      c ← (if added : bool then add_transaction_info c block tx messages else Ok c);
      if negb (bk_height block =? UNCONFIRMED)
      then '(l, c) ← doAdvanceHeight c (bk_height block); Ok (added, l, c)
      else Ok (added, [], c)
  end.

(** * Removing transactions *)

(** The three loops of [deleteTransactionTransfers], over the keys of the ranges:
    spent transfers become available again, unconfirmed and available ones are
    erased. *)
Fixpoint unspend_loop (c : TransfersContainer) (ks : list TransactionOutputKey) : outcome TransfersContainer :=
  match ks with
  | [] => Ok c
  | k :: ks =>
      match m_spentTransfers c !! k with
      | None => unspend_loop c ks
      | Some s =>
          let o := spent_output s in
          _ ← massert (negb (oi_blockHeight o =? UNCONFIRMED));
          _ ← massert (negb (globalOutputIndex (info o) =? UNCONFIRMED_TRANSACTION_GLOBAL_OUTPUT_INDEX));
          c ← addUnlockJob c o;
          c ← emplace_available c o;
          let c := with_spent (delete k (m_spentTransfers c)) c in
          c ← update_if_key c (info o);
          unspend_loop c ks
      end
  end.
Fixpoint erase_unconfirmed_loop (c : TransfersContainer) (ks : list TransactionOutputKey) : outcome TransfersContainer :=
  match ks with
  | [] => Ok c
  | k :: ks =>
      match m_unconfirmedTransfers c !! k with
      | None => erase_unconfirmed_loop c ks
      | Some o =>
          c ← update_if_key (with_unconfirmed (delete k (m_unconfirmedTransfers c)) c) (info o);
          erase_unconfirmed_loop c ks
      end
  end.
Fixpoint erase_available_loop (c : TransfersContainer) (ks : list TransactionOutputKey) : outcome TransfersContainer :=
  match ks with
  | [] => Ok c
  | k :: ks =>
      match m_availableTransfers c !! k with
      | None => erase_available_loop c ks
      | Some o =>
          let c := deleteUnlockJob c o in
          c ← update_if_key (with_available (delete k (m_availableTransfers c)) c) (info o);
          erase_available_loop c ks
      end
  end.

Definition deleteTransactionTransfers (c : TransfersContainer) (h : list Z) : outcome TransfersContainer :=
  c ← unspend_loop c (map fst (by_spending h (m_spentTransfers c)));
  c ← erase_unconfirmed_loop c (map fst (by_transaction h (m_unconfirmedTransfers c)));
  erase_available_loop c (map fst (by_transaction h (m_availableTransfers c))).

Definition deleteUnconfirmedTransaction (c : TransfersContainer) (h : list Z) : outcome (bool * TransfersContainer) :=
  match find_transaction h (m_transactions c) with
  | None => Ok (false, c)
  | Some t =>
      if negb (tx_blockHeight t =? UNCONFIRMED) then Ok (false, c) else
      c ← deleteTransactionTransfers c h;
      Ok (true, with_transactions (erase_transaction h (m_transactions c)) c)
  end.

(** * Confirming *)

Definition confirm_transfer (o : TransactionOutputInformationEx) (block : TransactionBlockInfo) (index : Z) : TransactionOutputInformationEx :=
  let i := info o in
  {| info := {| type := type i; amount := amount i; globalOutputIndex := index; outputInTransaction := outputInTransaction i;
                oi_transactionHash := oi_transactionHash i; transactionPublicKey := transactionPublicKey i; outputKey := outputKey i;
                requiredSignatures := requiredSignatures i; term := term i; oi_keyImage := oi_keyImage i |};
     oi_unlockTime := oi_unlockTime o; oi_blockHeight := bk_height block; oi_transactionIndex := bk_transactionIndex block;
     visible := visible o |}.

Fixpoint confirm_loop (c : TransfersContainer) (block : TransactionBlockInfo) (globalIndices : list Z) (ks : list TransactionOutputKey)
  : outcome TransfersContainer :=
  match ks with
  | [] => Ok c
  | k :: ks =>
      match m_unconfirmedTransfers c !! k with
      | None => confirm_loop c block globalIndices ks
      | Some o =>
          _ ← massert (oi_blockHeight o =? UNCONFIRMED);
          _ ← massert (globalOutputIndex (info o) =? UNCONFIRMED_TRANSACTION_GLOBAL_OUTPUT_INDEX);
          if zlen globalIndices <=? outputInTransaction (info o) then Throw invalid_argument else
          index ← vget globalIndices (outputInTransaction (info o));
          let o := confirm_transfer o block index in
          c ← make_available c o;
          c ← update_if_key (with_unconfirmed (delete k (m_unconfirmedTransfers c)) c) (info o);
          confirm_loop c block globalIndices ks
      end
  end.

Definition confirm_spent (block : TransactionBlockInfo) (h : list Z) (m : spent_transfers) : spent_transfers :=
  (fun s => if bool_decide (spendingTransactionHash s = h)
            then {| spent_output := spent_output s; spendingBlock := block;
                    spendingTransactionHash := spendingTransactionHash s; inputInTransaction := inputInTransaction s |}
            else s) <$> m.

Definition confirm_info (block : TransactionBlockInfo) (t : TransactionInformation) : TransactionInformation :=
  {| tx_hash := tx_hash t; tx_publicKey := tx_publicKey t; tx_blockHeight := bk_height block; tx_timestamp := bk_timestamp block;
     tx_unlock := tx_unlock t; totalAmountIn := totalAmountIn t; totalAmountOut := totalAmountOut t; info_extra := info_extra t;
     paymentId := paymentId t; info_messages := info_messages t |}.

Definition markTransactionConfirmed (c : TransfersContainer) (block : TransactionBlockInfo) (h : list Z) (globalIndices : list Z)
  : outcome (bool * TransfersContainer) :=
  if bk_height block =? UNCONFIRMED then Throw invalid_argument else
  match find_transaction h (m_transactions c) with
  | None => Ok (false, c)
  | Some t =>
      if negb (tx_blockHeight t =? UNCONFIRMED) then Ok (false, c) else
      let c := with_transactions (insert_transaction (confirm_info block t) (erase_transaction h (m_transactions c))) c in
      c ← confirm_loop c block globalIndices (map fst (by_transaction h (m_unconfirmedTransfers c)));
      _ ← massert (forallb (fun p => bk_height (spendingBlock (snd p)) =? UNCONFIRMED) (by_spending h (m_spentTransfers c)));
      Ok (true, with_spent (confirm_spent block h (m_spentTransfers c)) c)
  end.

(** * Detaching blocks *)

(** The loop runs down the index by height; [ts] are the transactions not yet
    met, last first. *)
Fixpoint detach_loop (c : TransfersContainer) (height : Z) (ts : list TransactionInformation) (deleted : list (list Z))
  : outcome (list (list Z) * TransfersContainer) :=
  match ts with
  | [] => Ok (deleted, c)
  | t :: ts =>
      let erase :=
        c ← deleteTransactionTransfers c (tx_hash t);
        detach_loop (with_transactions (erase_transaction (tx_hash t) (m_transactions c)) c) height ts (deleted ++ [tx_hash t]) in
      if tx_blockHeight t =? UNCONFIRMED then
        if existsb (fun p => height <=? oi_blockHeight (spent_output (snd p))) (by_spending (tx_hash t) (m_spentTransfers c))
        then erase else detach_loop c height ts deleted
      else if height <=? tx_blockHeight t then erase
      else Ok (deleted, c)
  end.

(** The deleted transactions, the outputs that are locked again and the new
    state. *)
Definition detach (c : TransfersContainer) (height : Z) : outcome (list (list Z) * list TransactionOutputInformationIn * TransfersContainer) :=
  _ ← massert (height <? UNCONFIRMED);
  '(deleted, c1) ← detach_loop c height (rev (m_transactions c)) [];
  let c2 := with_height (if height =? 0 then 0 else height - 1) c1 in
  l ← getLockingTransfers c2 (m_currentHeight c1) (m_currentHeight c2);
  Ok (deleted, l, c2).

(** * Queries *)

Definition transfersCount (c : TransfersContainer) : Z :=
  Z.of_nat (base.size (m_unconfirmedTransfers c) + base.size (m_availableTransfers c) + base.size (m_spentTransfers c)).
Definition transactionsCount (c : TransfersContainer) : Z := zlen (m_transactions c).

Definition IncludeStateUnlocked : Z := 1.
Definition IncludeStateLocked : Z := 2.
Definition IncludeStateSoftLocked : Z := 4.
Definition IncludeStateSpent : Z := 8.
Definition IncludeTypeKey : Z := 256.
Definition IncludeTypeMultisignature : Z := 512.
Definition IncludeTypeDeposit : Z := 1024.
Definition IncludeStateAll : Z := 255.
Definition IncludeTypeAll : Z := 65280.
Definition IncludeKeyUnlocked : Z := Z.lor IncludeTypeKey IncludeStateUnlocked.
Definition IncludeAll : Z := Z.lor IncludeTypeAll IncludeStateAll.

Definition flag (flags f : Z) : bool := negb (Z.land flags f =? 0).

Definition isSpendTimeUnlocked (c : TransfersContainer) (now : Z) (o : TransactionOutputInformationEx) : bool :=
  let unlocked :=
    if oi_unlockTime o <? maxBlockHeight m_currency
    then oi_unlockTime o <=? u64 (m_currentHeight c + lockedTxAllowedDeltaBlocks m_currency)
    else oi_unlockTime o <=? u64 (now + lockedTxAllowedDeltaSeconds m_currency) in
  if unlocked && bool_decide (type (info o) = OutputTypeMultisignature) && negb (term (info o) =? 0)
  then u32 (oi_blockHeight o + term (info o)) <=? u32 (m_currentHeight c + 1)
  else unlocked.

(** The static [isIncluded(output, state, flags)]. *)
Definition isIncluded_state (i : TransactionOutputInformationIn) (state flags : Z) : bool :=
  ((flag flags IncludeTypeKey && bool_decide (type i = OutputTypeKey))
   || (flag flags IncludeTypeMultisignature && bool_decide (type i = OutputTypeMultisignature) && (term i =? 0))
   || (flag flags IncludeTypeDeposit && bool_decide (type i = OutputTypeMultisignature) && (0 <? term i)))
  && flag flags state.

Definition isIncluded (c : TransfersContainer) (now : Z) (o : TransactionOutputInformationEx) (flags : Z) : bool :=
  let state :=
    if (oi_blockHeight o =? UNCONFIRMED) || negb (isSpendTimeUnlocked c now o) then IncludeStateLocked
    else if m_currentHeight c <? u64 (oi_blockHeight o + m_transactionSpendableAge) then IncludeStateSoftLocked
    else IncludeStateUnlocked in
  isIncluded_state (info o) state flags.

(** The transfers that [balance] adds up and [getOutputs] lists. *)
Definition getOutputs (c : TransfersContainer) (now flags : Z) : list TransactionOutputInformationIn :=
  map info (List.filter (fun o => visible o && isIncluded c now o flags) (map snd (map_to_list (m_availableTransfers c)))) ++
  (if flag flags IncludeStateLocked
   then map info (List.filter (fun o => visible o && isIncluded_state (info o) IncludeStateLocked flags)
                    (map snd (map_to_list (m_unconfirmedTransfers c))))
   else []).

Definition add_amounts (p : TransactionOutputInformationEx -> bool) (m : transfers) (a : Z) : Z :=
  fold_left (fun a o => if p o then u64 (a + amount (info o)) else a) (map snd (map_to_list m)) a.
Definition balance (c : TransfersContainer) (now flags : Z) : Z :=
  let a := add_amounts (fun o => visible o && isIncluded c now o flags) (m_availableTransfers c) 0 in
  if flag flags IncludeStateLocked
  then add_amounts (fun o => visible o && isIncluded_state (info o) IncludeStateLocked flags) (m_unconfirmedTransfers c) a
  else a.

(** The transaction with the sums of its own transfers in and out. *)
Definition getTransactionInformation (c : TransfersContainer) (h : list Z) : option (TransactionInformation * Z * Z) :=
  t ← find_transaction h (m_transactions c);
  let outs := if tx_blockHeight t =? UNCONFIRMED then map snd (by_transaction h (m_unconfirmedTransfers c))
              else map snd (by_transaction h (m_availableTransfers c)) ++
                   List.filter (fun o => bool_decide (oi_transactionHash (info o) = h)) (map (fun p => spent_output (snd p)) (map_to_list (m_spentTransfers c))) in
  Some (t, sum_u64 (map (fun p => amount (info (spent_output (snd p)))) (by_spending h (m_spentTransfers c))),
        sum_u64 (map (fun o => amount (info o)) outs)).

Definition getTransactionOutputs (c : TransfersContainer) (now : Z) (h : list Z) (flags : Z) : list TransactionOutputInformationIn :=
  map info (List.filter (fun o => isIncluded c now o flags) (map snd (by_transaction h (m_availableTransfers c)))) ++
  (if flag flags IncludeStateLocked
   then map info (List.filter (fun o => isIncluded_state (info o) IncludeStateLocked flags) (map snd (by_transaction h (m_unconfirmedTransfers c))))
   else []) ++
  (if flag flags IncludeStateSpent
   then map info (List.filter (fun o => bool_decide (oi_transactionHash (info o) = h) && isIncluded_state (info o) IncludeStateAll flags)
                    (map (fun p => spent_output (snd p)) (map_to_list (m_spentTransfers c))))
   else []).

Definition getTransactionInputs (c : TransfersContainer) (h : list Z) (flags : Z) : outcome (list TransactionOutputInformationIn) :=
  _ ← massert (Z.land flags IncludeStateAll =? 0);
  let flags := Z.lor flags IncludeStateUnlocked in
  Ok (map info (List.filter (fun o => isIncluded_state (info o) IncludeStateUnlocked flags)
                  (map (fun p => spent_output (snd p)) (by_spending h (m_spentTransfers c))))).

Definition getUnconfirmedTransactions (c : TransfersContainer) : list (list Z) :=
  map tx_hash (List.filter (fun t => tx_blockHeight t =? UNCONFIRMED) (m_transactions c)).

Definition getSpentOutputs (c : TransfersContainer) : list (TransactionOutputInformationIn * Z * Z * list Z * Z) :=
  map (fun p => let s := snd p in (info (spent_output s), bk_height (spendingBlock s), bk_timestamp (spendingBlock s),
                                   spendingTransactionHash s, inputInTransaction s)) (map_to_list (m_spentTransfers c)).

Inductive TransferState := TransferUnconfirmed | TransferLocked | TransferAvailable | TransferSpent.

(** For a spent transfer the source dereferences the end iterator of the
    unconfirmed transfers. *)
Definition getTransfer (c : TransfersContainer) (now : Z) (h : list Z) (n : Z)
  : outcome (option (TransactionOutputInformationIn * TransferState)) :=
  match m_availableTransfers c !! (h, n) with
  | Some o => Ok (Some (info o,
      if negb (isSpendTimeUnlocked c now o) || (m_currentHeight c <? u64 (oi_blockHeight o + m_transactionSpendableAge))
      then TransferLocked else TransferAvailable))
  | None =>
      match m_unconfirmedTransfers c !! (h, n) with
      | Some o => Ok (Some (info o, TransferUnconfirmed))
      | None => match m_spentTransfers c !! (h, n) with Some _ => Undefined | None => Ok None end
      end
  end.

(** [rebuildTransfersUnlockJobs], for files of version 0: it makes jobs for the
    spent transfers too. *)
Definition rebuildTransfersUnlockJobs (available : transfers) (spent : spent_transfers) : gmap TransactionOutputKey Z :=
  (makeTransferUnlockJob <$> available) ∪ ((fun s => makeTransferUnlockJob (spent_output s)) <$> spent).
End Container.
