(* ===== verification/TransfersInvariant.v ===== *)
(** The wallet's container of transfers keeps its invariant: theorems about
    [TransfersContainer].

    The state is consistent after every operation: unlock jobs are those of the
    available transfers, one transfer at most of each key image is visible, and
    the transfers belong to the transactions listed.  Adding and deleting an
    unconfirmed transaction cancel out, and detaching leaves nothing of the
    detached blocks. *)
From S2P Require Import Prelude CryptoNote Currency TransactionApi TransfersContainer.

(** * Visibility *)

Notation image ki := (DescriptorKey ki).

Lemma has_lookup (d : SpentOutputDescriptor) (m : transfers) (k : TransactionOutputKey) :
  has_descriptor d m !! k = (o ← m !! k; if descriptor_matches d (info o) then Some o else None).
Proof.
  unfold has_descriptor. rewrite map_lookup_filter. destruct (m !! k) as [o|]; [|done]. cbn.
  destruct (descriptor_matches d (info o)) eqn:E; [by rewrite option_guard_True|by rewrite option_guard_False].
Qed.
Lemma spent_has_lookup (d : SpentOutputDescriptor) (m : spent_transfers) (k : TransactionOutputKey) :
  spent_has_descriptor d m !! k = (s ← m !! k; if descriptor_matches d (info (spent_output s)) then Some s else None).
Proof.
  unfold spent_has_descriptor. rewrite map_lookup_filter. destruct (m !! k) as [o|]; [|done]. cbn.
  destruct (descriptor_matches d _) eqn:E; [by rewrite option_guard_True|by rewrite option_guard_False].
Qed.

Lemma matches_image ki i : descriptor_matches (image ki) i = true <-> descriptor i = image ki.
Proof. cbn. rewrite bool_decide_eq_true. naive_solver. Qed.

(** Pointwise reasoning on the containers. *)
Ltac by_keys k :=
  apply map_eq; intros k;
  rewrite ?lookup_fmap, ?has_lookup, ?spent_has_lookup, ?lookup_fmap; cbn.

Lemma update_other d d' v m : (forall i, descriptor_matches d i = true -> descriptor_matches d' i = false) ->
  has_descriptor d' (updateVisibility d v m) = has_descriptor d' m.
Proof.
  intros Hd. unfold updateVisibility. by_keys k. destruct (m !! k) as [o|]; [|done]. cbn.
  destruct (descriptor_matches d (info o)) eqn:E; [|done]. cbn. by rewrite (Hd _ E).
Qed.
Lemma update_same d v m : has_descriptor d (updateVisibility d v m) = set_visible v <$> has_descriptor d m.
Proof.
  unfold updateVisibility. by_keys k. destruct (m !! k) as [o|]; [|done]. cbn.
  destruct (descriptor_matches d (info o)) eqn:E; cbn; by rewrite E.
Qed.
Lemma update_spent_other d d' v m : (forall i, descriptor_matches d i = true -> descriptor_matches d' i = false) ->
  spent_has_descriptor d' (updateSpentVisibility d v m) = spent_has_descriptor d' m.
Proof.
  intros Hd. unfold updateSpentVisibility. by_keys k. destruct (m !! k) as [o|]; [|done]. cbn.
  destruct (descriptor_matches d (info (spent_output o))) eqn:E; [|done]. cbn. by rewrite (Hd _ E).
Qed.
Lemma update_spent_same d v m : spent_has_descriptor d (updateSpentVisibility d v m) = set_spent_visible v <$> spent_has_descriptor d m.
Proof.
  unfold updateSpentVisibility. by_keys k. destruct (m !! k) as [o|]; [|done]. cbn.
  destruct (descriptor_matches d (info (spent_output o))) eqn:E; cbn; by rewrite E.
Qed.
Lemma alter_other d k v m : (forall o, m !! k = Some o -> descriptor_matches d (info o) = false) ->
  has_descriptor d (alter (set_visible v) k m) = has_descriptor d m.
Proof.
  intros H. by_keys j. destruct (decide (k = j)) as [<-|Hn]; [|by rewrite lookup_alter_ne].
  rewrite lookup_alter_eq. destruct (m !! k) as [o|]; [|done]. cbn. by rewrite (H o eq_refl).
Qed.
Lemma alter_same d k v m : has_descriptor d (alter (set_visible v) k m) = alter (set_visible v) k (has_descriptor d m).
Proof.
  by_keys j. destruct (decide (k = j)) as [<-|Hn]; [|by rewrite !lookup_alter_ne, has_lookup by done].
  rewrite !lookup_alter_eq, has_lookup. destruct (m !! k) as [o|]; [|done]. cbn. by destruct (descriptor_matches d (info o)).
Qed.

Lemma images_differ ki ki' i : ki <> ki' -> descriptor_matches (image ki) i = true -> descriptor_matches (image ki') i = false.
Proof.
  intros Hn E%matches_image. destruct (descriptor_matches (image ki') i) eqn:E'; [|done]. apply matches_image in E'. congruence.
Qed.

(** The earliest transfer, by key. *)
Definition earliest (a : transfers) : option TransactionOutputKey := fst <$> minElement (map_to_list a).

Lemma minElement_map {K} (f : TransactionOutputInformationEx -> TransactionOutputInformationEx) (l : list (K * TransactionOutputInformationEx)) :
  (forall x y, less_transfer (f x) (f y) = less_transfer x y) ->
  minElement (map (fun p => (fst p, f (snd p))) l) = (fun p => (fst p, f (snd p))) <$> minElement l.
Proof.
  intros Hf. induction l as [|x l IH]; [done|]. cbn [map minElement]. rewrite IH. destruct (minElement l) as [y|]; [|done]. cbn.
  rewrite Hf. by destruct (less_transfer (snd y) (snd x)).
Qed.

Lemma earliest_fmap (f : TransactionOutputInformationEx -> TransactionOutputInformationEx) (a : transfers) :
  (forall x y, less_transfer (f x) (f y) = less_transfer x y) -> earliest (f <$> a) = earliest a.
Proof.
  intros Hf. unfold earliest. rewrite map_to_list_fmap.
  replace (prod_map id f <$> map_to_list a) with (map (fun p => (fst p, f (snd p))) (map_to_list a)).
  2: { apply map_ext. by intros []. }
  rewrite minElement_map by done. by destruct (minElement (map_to_list a)) as [[]|].
Qed.

Lemma minElement_elem {K} (l : list (K * TransactionOutputInformationEx)) x : minElement l = Some x -> x ∈ l.
Proof.
  revert x. induction l as [|y l IH]; intros x; [done|]. cbn. destruct (minElement l) as [z|].
  - destruct (less_transfer (snd z) (snd y)); intros [= <-]; [right; by apply IH|by left].
  - intros [= <-]. by left.
Qed.
Lemma minElement_None {K} (l : list (K * TransactionOutputInformationEx)) : minElement l = None -> l = [].
Proof. destruct l as [|x l]; [done|]. cbn. destruct (minElement l) as [y|]; [|done]. by destruct (less_transfer (snd y) (snd x)). Qed.

Lemma earliest_lookup a k : earliest a = Some k -> is_Some (a !! k).
Proof.
  unfold earliest. destruct (minElement (map_to_list a)) as [[j o]|] eqn:E; [|done]. cbn. intros [= <-].
  apply minElement_elem, elem_of_map_to_list in E. eauto.
Qed.
Lemma earliest_None a : earliest a = None -> a = ∅.
Proof.
  unfold earliest. destruct (minElement (map_to_list a)) as [p|] eqn:E; [done|]. intros _.
  by apply map_to_list_empty_iff, minElement_None.
Qed.

(** Which transfers of one key image are visible: the spent one if there is one,
    else the earliest available one, else an unconfirmed one if it is the only
    one. *)
Definition vis_rule (u a : transfers) (s : spent_transfers) : Prop :=
  (forall k x, s !! k = Some x -> visible (spent_output x) = true) /\
  (forall k o, a !! k = Some o -> visible o = (base.size s =? 0)%nat && bool_decide (earliest a = Some k)) /\
  (forall k o, u !! k = Some o -> visible o = (base.size s =? 0)%nat && (base.size a =? 0)%nat && (base.size u =? 1)%nat).
Definition vis_ok (c : TransfersContainer) (ki : list Z) : Prop :=
  vis_rule (has_descriptor (image ki) (m_unconfirmedTransfers c)) (has_descriptor (image ki) (m_availableTransfers c))
    (spent_has_descriptor (image ki) (m_spentTransfers c)).

(** Equal up to the visibility flags. *)
Definition same_flagless (m m' : transfers) : Prop := set_visible true <$> m = set_visible true <$> m'.
Definition same_spent_flagless (m m' : spent_transfers) : Prop := set_spent_visible true <$> m = set_spent_visible true <$> m'.
Record same_core (c c' : TransfersContainer) : Prop := {
  core_transactions : m_transactions c' = m_transactions c;
  core_jobs : m_transfersUnlockJobs c' = m_transfersUnlockJobs c;
  core_height : m_currentHeight c' = m_currentHeight c;
  core_unconfirmed : same_flagless (m_unconfirmedTransfers c') (m_unconfirmedTransfers c);
  core_available : same_flagless (m_availableTransfers c') (m_availableTransfers c);
  core_spent : same_spent_flagless (m_spentTransfers c') (m_spentTransfers c);
}.

(** Transfers without the key image [ki] are untouched. *)
Record untouched (ki : list Z) (c c' : TransfersContainer) : Prop := {
  unt_unconfirmed k o : m_unconfirmedTransfers c' !! k = Some o -> descriptor (info o) <> image ki -> m_unconfirmedTransfers c !! k = Some o;
  unt_available k o : m_availableTransfers c' !! k = Some o -> descriptor (info o) <> image ki -> m_availableTransfers c !! k = Some o;
  unt_spent k s : m_spentTransfers c' !! k = Some s -> descriptor (info (spent_output s)) <> image ki -> m_spentTransfers c !! k = Some s;
  unt_vis ki' : ki' <> ki -> vis_ok c ki' -> vis_ok c' ki';
}.

Lemma update_flagless d v m : same_flagless (updateVisibility d v m) m.
Proof.
  unfold same_flagless, updateVisibility. rewrite <- map_fmap_compose. apply map_fmap_ext. intros k o _. cbn.
  by destruct (descriptor_matches d (info o)).
Qed.
Lemma alter_flagless k v m : same_flagless (alter (set_visible v) k m) m.
Proof.
  unfold same_flagless. apply map_eq. intros j. rewrite !lookup_fmap.
  destruct (decide (k = j)) as [<-|Hn]; [|by rewrite lookup_alter_ne].
  rewrite lookup_alter_eq. by destruct (m !! k).
Qed.
Lemma update_spent_flagless d v m : same_spent_flagless (updateSpentVisibility d v m) m.
Proof.
  unfold same_spent_flagless, updateSpentVisibility. rewrite <- map_fmap_compose. apply map_fmap_ext. intros k o _. cbn.
  by destruct (descriptor_matches d (info (spent_output o))).
Qed.
Lemma update_untouched d v m k o :
  updateVisibility d v m !! k = Some o -> descriptor_matches d (info o) = false -> m !! k = Some o.
Proof.
  unfold updateVisibility. rewrite lookup_fmap. destruct (m !! k) as [p|]; [|done]. cbn.
  destruct (descriptor_matches d (info p)) eqn:E; intros [= <-] H; [|done]. cbn in H. congruence.
Qed.
Lemma update_spent_untouched d v m k o :
  updateSpentVisibility d v m !! k = Some o -> descriptor_matches d (info (spent_output o)) = false -> m !! k = Some o.
Proof.
  unfold updateSpentVisibility. rewrite lookup_fmap. destruct (m !! k) as [p|]; [|done]. cbn.
  destruct (descriptor_matches d (info (spent_output p))) eqn:E; intros [= <-] H; [|done]. cbn in H. congruence.
Qed.
Lemma not_image ki i : descriptor i <> image ki -> descriptor_matches (image ki) i = false.
Proof. intros H. destruct (descriptor_matches (image ki) i) eqn:E; [|done]. by apply matches_image in E. Qed.

Lemma size_set_visible (v : bool) (m : transfers) : base.size (set_visible v <$> m) = base.size m.
Proof. apply map_size_fmap. Qed.
Lemma length_by (d : SpentOutputDescriptor) m : length (by_descriptor d m) = base.size (has_descriptor d m).
Proof. apply length_map_to_list. Qed.
Lemma length_spent_by (d : SpentOutputDescriptor) m : length (spent_by_descriptor d m) = base.size (spent_has_descriptor d m).
Proof. apply length_map_to_list. Qed.

Lemma same_flagless_size m m' : same_flagless m m' -> base.size m = base.size m'.
Proof. intros H%(f_equal base.size). by rewrite !size_set_visible in H. Qed.

Lemma earliest_flagless m m' : same_flagless m m' -> earliest m = earliest m'.
Proof.
  intros H. rewrite <- (earliest_fmap (set_visible true) m), <- (earliest_fmap (set_visible true) m') by done. by rewrite H.
Qed.

(** The three cases of the rule. *)
Definition shows_spent (ki : list Z) (c : TransfersContainer) : TransfersContainer :=
  with_unconfirmed (updateVisibility (image ki) false (m_unconfirmedTransfers c))
    (with_available (updateVisibility (image ki) false (m_availableTransfers c))
       (with_spent (updateSpentVisibility (image ki) true (m_spentTransfers c)) c)).
Definition shows_available (ki : list Z) (k : TransactionOutputKey) (c : TransfersContainer) : TransfersContainer :=
  with_unconfirmed (updateVisibility (image ki) false (m_unconfirmedTransfers c))
    (with_available (alter (set_visible true) k (updateVisibility (image ki) false (m_availableTransfers c))) c).
Definition shows_unconfirmed (ki : list Z) (v : bool) (c : TransfersContainer) : TransfersContainer :=
  with_unconfirmed (updateVisibility (image ki) v (m_unconfirmedTransfers c)) c.

Lemma other_image ki ki' i : ki' <> ki -> descriptor_matches (image ki) i = true -> descriptor_matches (image ki') i = false.
Proof. intros Hn. apply images_differ. congruence. Qed.

Lemma lookup_set_visible (v : bool) (m : transfers) (k : TransactionOutputKey) o : (set_visible v <$> m) !! k = Some o -> visible o = v.
Proof. rewrite lookup_fmap. destruct (m !! k); [|done]. by intros [= <-]. Qed.

Lemma shows_spent_spec ki c :
  base.size (spent_has_descriptor (image ki) (m_spentTransfers c)) <> 0%nat ->
  same_core c (shows_spent ki c) /\ untouched ki c (shows_spent ki c) /\ vis_ok (shows_spent ki c) ki.
Proof.
  intros Hs. split_and!; split; cbn; try done; try apply update_flagless; try apply update_spent_flagless.
  - intros k o H Hd. eapply update_untouched; [exact H|by apply not_image].
  - intros k o H Hd. eapply update_untouched; [exact H|by apply not_image].
  - intros k o H Hd. eapply update_spent_untouched; [exact H|by apply not_image].
  - intros ki' Hn. unfold vis_ok. cbn. by rewrite !update_other, update_spent_other by (intros i; by apply other_image).
  - rewrite update_spent_same. intros k x. rewrite lookup_fmap. destruct (spent_has_descriptor _ _ !! k); [|done]. by intros [= <-].
  - rewrite !update_same, update_spent_same, map_size_fmap. apply Nat.eqb_neq in Hs. rewrite Hs.
    split; intros k o; apply lookup_set_visible.
Qed.

Lemma empty_spent ki c k x :
  base.size (spent_has_descriptor (image ki) (m_spentTransfers c)) = 0%nat ->
  spent_has_descriptor (image ki) (m_spentTransfers c) !! k = Some x -> False.
Proof. intros ->%map_size_empty_inv. by rewrite lookup_empty. Qed.

Lemma shows_available_spec ki k0 c :
  base.size (spent_has_descriptor (image ki) (m_spentTransfers c)) = 0%nat ->
  earliest (has_descriptor (image ki) (m_availableTransfers c)) = Some k0 ->
  same_core c (shows_available ki k0 c) /\ untouched ki c (shows_available ki k0 c) /\ vis_ok (shows_available ki k0 c) ki.
Proof.
  intros Es Hk. pose proof (earliest_lookup _ _ Hk) as [o1 Ho1]. rewrite has_lookup in Ho1. apply bind_Some in Ho1 as (o & Ho & Hm).
  destruct (descriptor_matches (image ki) (info o)) eqn:Emat; [|done].
  assert (Hu : updateVisibility (image ki) false (m_availableTransfers c) !! k0 = Some (set_visible false o)).
  { unfold updateVisibility. rewrite lookup_fmap, Ho. cbn -[descriptor_matches]. by rewrite Emat. }
  split_and!; split; cbn; try done; try apply update_flagless.
  - unfold same_flagless. etransitivity; [apply alter_flagless|apply update_flagless].
  - intros k p H Hd. eapply update_untouched; [exact H|by apply not_image].
  - intros k p H Hd. destruct (decide (k0 = k)) as [<-|Hn].
    + rewrite lookup_alter_eq, Hu in H. injection H as <-. by apply matches_image in Emat.
    + rewrite lookup_alter_ne in H by done. eapply update_untouched; [exact H|by apply not_image].
  - intros ki' Hn. unfold vis_ok. cbn. rewrite alter_other, !update_other; [done|intros i; by apply other_image..|].
    intros p. rewrite Hu. intros [= <-]. by apply (other_image ki).
  - intros k x H. by destruct (empty_spent ki c k x).
  - rewrite alter_same, !update_same, Es.
    assert (Hf : same_flagless (alter (set_visible true) k0 (set_visible false <$> has_descriptor (image ki) (m_availableTransfers c)))
                   (has_descriptor (image ki) (m_availableTransfers c))).
    { rewrite <- update_same, <- alter_same. rewrite alter_same, update_same. unfold same_flagless.
      etransitivity; [apply alter_flagless|]. by rewrite <- map_fmap_compose. }
    rewrite (earliest_flagless _ _ Hf), (same_flagless_size _ _ Hf), Hk. cbn [Nat.eqb andb].
    split.
    + intros k p. destruct (decide (k0 = k)) as [<-|Hn].
      * rewrite lookup_alter_eq, bool_decide_true by done. destruct ((set_visible false <$> _) !! k0); [|done]. by intros [= <-].
      * rewrite lookup_alter_ne by done. rewrite bool_decide_false by congruence. apply lookup_set_visible.
    + intros k p. destruct (Nat.eqb_spec (base.size (has_descriptor (image ki) (m_availableTransfers c))) 0) as [E0|_].
      * apply map_size_empty_inv in E0. rewrite E0 in Hk. done.
      * apply lookup_set_visible.
Qed.

Lemma shows_unconfirmed_spec ki c :
  base.size (spent_has_descriptor (image ki) (m_spentTransfers c)) = 0%nat ->
  has_descriptor (image ki) (m_availableTransfers c) = ∅ ->
  let v := (base.size (has_descriptor (image ki) (m_unconfirmedTransfers c)) =? 1)%nat in
  same_core c (shows_unconfirmed ki v c) /\ untouched ki c (shows_unconfirmed ki v c) /\ vis_ok (shows_unconfirmed ki v c) ki.
Proof.
  intros Es Ea v. split_and!; split; cbn; try done; try apply update_flagless.
  - intros k p H Hd. eapply update_untouched; [exact H|by apply not_image].
  - intros ki' Hn. unfold vis_ok. cbn. by rewrite !update_other by (intros i; by apply other_image).
  - intros k x H. by destruct (empty_spent ki c k x).
  - rewrite Ea, update_same, Es, map_size_fmap. split; [intros k o; by rewrite lookup_empty|]. intros k o. apply lookup_set_visible.
Qed.

Section Invariant.
Context {B : BuildConfig}.

Lemma update_spec c ki c' :
  updateTransfersVisibility c ki = Ok c' -> same_core c c' /\ untouched ki c c' /\ vis_ok c' ki.
Proof.
  intros E. unfold updateTransfersVisibility in E. apply bind_Ok in E as (_ & _ & E). injection E as <-.
  rewrite length_spent_by, length_by. destruct (Nat.ltb_spec 0 (base.size (spent_has_descriptor (image ki) (m_spentTransfers c)))) as [Es|Es].
  - apply shows_spent_spec. lia.
  - destruct (minElement (by_descriptor (image ki) (m_availableTransfers c))) as [ [k0 o0]|] eqn:Em.
    + apply shows_available_spec; [lia|]. unfold earliest. fold (by_descriptor (image ki) (m_availableTransfers c)). by rewrite Em.
    + apply shows_unconfirmed_spec; [lia|]. apply earliest_None. unfold earliest. fold (by_descriptor (image ki) (m_availableTransfers c)). by rewrite Em.
Qed.

Lemma update_total c ki :
  (base.size (spent_has_descriptor (image ki) (m_spentTransfers c)) <= 1)%nat ->
  exists c', updateTransfersVisibility c ki = Ok c'.
Proof.
  intros H. unfold updateTransfersVisibility. rewrite length_spent_by, massert_true; [by eexists|].
  destruct (base.size _) as [|[|n] ]; [done..|lia].
Qed.

(** * The state without the flags *)

Variable age : Z.

Definition confirmed (c : TransfersContainer) (k : TransactionOutputKey) (o : TransactionOutputInformationEx) : Prop :=
  m_availableTransfers c !! k = Some o \/ exists s, m_spentTransfers c !! k = Some s /\ spent_output s = o.

Definition listed (ts : list TransactionInformation) (h : list Z) (height : Z) : Prop :=
  exists t, t ∈ ts /\ tx_hash t = h /\ tx_blockHeight t = height.

(** The transaction [h1] comes before [h2]. *)
Definition later (ts : list TransactionInformation) (h1 h2 : list Z) : Prop :=
  exists l1 l2, ts = l1 ++ l2 /\ h1 ∈ map tx_hash l1 /\ h2 ∈ map tx_hash l2.

Definition ts_ok (ts : list TransactionInformation) : Prop :=
  NoDup (map tx_hash ts) /\ StronglySorted (fun t u => tx_blockHeight t <= tx_blockHeight u) ts.

(** The invariant on everything but the flags; the unconfirmed transfers belong to
    the transactions [tsu], the others to [ts]. *)
Record core_inv (tsu ts : list TransactionInformation) (c : TransfersContainer) : Prop := {
  ci_unconfirmed k o : m_unconfirmedTransfers c !! k = Some o ->
    getTransactionOutputKey o = k /\ oi_blockHeight o = UNCONFIRMED /\
    globalOutputIndex (info o) = UNCONFIRMED_TRANSACTION_GLOBAL_OUTPUT_INDEX /\ listed tsu (fst k) UNCONFIRMED;
  ci_confirmed k o : confirmed c k o ->
    getTransactionOutputKey o = k /\ oi_blockHeight o <> UNCONFIRMED /\
    globalOutputIndex (info o) <> UNCONFIRMED_TRANSACTION_GLOBAL_OUTPUT_INDEX /\ listed ts (fst k) (oi_blockHeight o);
  ci_spender k s : m_spentTransfers c !! k = Some s ->
    type (info (spent_output s)) <> OutputInvalid /\ later ts (fst k) (spendingTransactionHash s);
  ci_disjoint k o : m_availableTransfers c !! k = Some o -> m_spentTransfers c !! k = None;
  ci_jobs k : m_transfersUnlockJobs c !! k = makeTransferUnlockJob age <$> m_availableTransfers c !! k;
  ci_images ki k1 s1 k2 s2 : m_spentTransfers c !! k1 = Some s1 -> m_spentTransfers c !! k2 = Some s2 ->
    descriptor (info (spent_output s1)) = image ki -> descriptor (info (spent_output s2)) = image ki -> k1 = k2;
  ci_multisignatures k1 o1 k2 o2 : confirmed c k1 o1 -> confirmed c k2 o2 -> type (info o1) = OutputTypeMultisignature ->
    descriptor (info o1) = descriptor (info o2) -> k1 = k2;
}.

Lemma flagless_lookup m m' (k : TransactionOutputKey) o' :
  same_flagless m' m -> m' !! k = Some o' -> exists o, m !! k = Some o /\ set_visible true o = set_visible true o'.
Proof.
  intros H E. apply (f_equal (lookup k)) in H. rewrite !lookup_fmap, E in H. destruct (m !! k) as [o|]; [|done].
  injection H as H1 H2 H3 H4. exists o. split; [done|]. unfold set_visible. congruence.
Qed.
Lemma spent_flagless_lookup m m' (k : TransactionOutputKey) s' :
  same_spent_flagless m' m -> m' !! k = Some s' ->
  exists s, m !! k = Some s /\ set_spent_visible true s = set_spent_visible true s'.
Proof.
  intros H E. apply (f_equal (lookup k)) in H. rewrite !lookup_fmap, E in H. destruct (m !! k) as [s|]; [|done].
  exists s. split; [done|]. change (Some (set_spent_visible true s') = Some (set_spent_visible true s)) in H. congruence.
Qed.

(** What a transfer is apart from its flag. *)
Lemma flagless_parts o o' : set_visible true o = set_visible true o' ->
  info o = info o' /\ oi_blockHeight o = oi_blockHeight o' /\ getTransactionOutputKey o = getTransactionOutputKey o' /\
  makeTransferUnlockJob age o = makeTransferUnlockJob age o'.
Proof.
  intros H. assert (E : info o = info o' /\ oi_unlockTime o = oi_unlockTime o' /\ oi_blockHeight o = oi_blockHeight o').
  { split_and!; [exact (f_equal info H)|exact (f_equal oi_unlockTime H)|exact (f_equal oi_blockHeight H)]. }
  destruct E as (E1 & E2 & E3). unfold getTransactionOutputKey, makeTransferUnlockJob. by rewrite E1, E2, E3.
Qed.

Lemma spent_flagless_parts s s' : set_spent_visible true s = set_spent_visible true s' ->
  set_visible true (spent_output s) = set_visible true (spent_output s') /\ spendingTransactionHash s = spendingTransactionHash s'.
Proof. intros H. split; [exact (f_equal spent_output H)|exact (f_equal spendingTransactionHash H)]. Qed.

Lemma same_core_confirmed c c' k o' : same_core c c' -> confirmed c' k o' ->
  exists o, confirmed c k o /\ set_visible true o = set_visible true o'.
Proof.
  intros H [Ha|(s' & Hs & <-)].
  - destruct (flagless_lookup _ _ _ _ (core_available _ _ H) Ha) as (o & Ho & E). exists o. split; [by left|done].
  - destruct (spent_flagless_lookup _ _ _ _ (core_spent _ _ H) Hs) as (s & Hs0 & E). exists (spent_output s). split; [right; eauto|].
    by apply spent_flagless_parts.
Qed.

Lemma core_inv_same tsu ts c c' : same_core c c' -> core_inv tsu ts c -> core_inv tsu ts c'.
Proof.
  intros HS HI. split.
  - intros k o' Ho'. destruct (flagless_lookup _ _ _ _ (core_unconfirmed _ _ HS) Ho') as (o & Ho & E).
    destruct (flagless_parts _ _ E) as (<- & <- & <- & _). by apply (ci_unconfirmed _ _ _ HI).
  - intros k o' Ho'. destruct (same_core_confirmed _ _ _ _ HS Ho') as (o & Ho & E).
    destruct (flagless_parts _ _ E) as (<- & <- & <- & _). by apply (ci_confirmed _ _ _ HI).
  - intros k s' Hs'. destruct (spent_flagless_lookup _ _ _ _ (core_spent _ _ HS) Hs') as (s & Hs & E).
    destruct (spent_flagless_parts _ _ E) as [E0 <-]. destruct (flagless_parts _ _ E0) as (<- & _).
    by apply (ci_spender _ _ _ HI).
  - intros k o' Ho'. destruct (flagless_lookup _ _ _ _ (core_available _ _ HS) Ho') as (o & Ho & _).
    destruct (m_spentTransfers c' !! k) as [s'|] eqn:Es; [|done].
    destruct (spent_flagless_lookup _ _ _ _ (core_spent _ _ HS) Es) as (s & Hs & _). by rewrite (ci_disjoint _ _ _ HI k o Ho) in Hs.
  - intros k. rewrite (core_jobs _ _ HS), (ci_jobs _ _ _ HI). destruct (m_availableTransfers c' !! k) as [o'|] eqn:E'.
    + destruct (flagless_lookup _ _ _ _ (core_available _ _ HS) E') as (o & -> & E). cbn. f_equal. by apply flagless_parts.
    + destruct (m_availableTransfers c !! k) as [o|] eqn:E0; [|done].
      destruct (flagless_lookup _ _ _ _ (eq_sym (core_available _ _ HS)) E0) as (o' & Ho' & _). congruence.
  - intros ki k1 s1' k2 s2' H1' H2' E1 E2.
    destruct (spent_flagless_lookup _ _ _ _ (core_spent _ _ HS) H1') as (s1 & H1 & F1).
    destruct (spent_flagless_lookup _ _ _ _ (core_spent _ _ HS) H2') as (s2 & H2 & F2).
    apply (ci_images _ _ _ HI ki k1 s1 k2 s2 H1 H2); [rewrite <- E1|rewrite <- E2]; f_equal; by apply flagless_parts, spent_flagless_parts.
  - intros k1 o1' k2 o2' H1' H2'. destruct (same_core_confirmed _ _ _ _ HS H1') as (o1 & H1 & F1).
    destruct (same_core_confirmed _ _ _ _ HS H2') as (o2 & H2 & F2).
    destruct (flagless_parts _ _ F1) as (<- & _). destruct (flagless_parts _ _ F2) as (<- & _). by apply (ci_multisignatures _ _ _ HI).
Qed.

(** * Elementary changes *)

Definition put_available (k : TransactionOutputKey) (o : TransactionOutputInformationEx) (c : TransfersContainer) : TransfersContainer :=
  with_available (<[k := o]> (m_availableTransfers c)) (with_jobs (<[k := makeTransferUnlockJob age o]> (m_transfersUnlockJobs c)) c).
Definition drop_available (k : TransactionOutputKey) (c : TransfersContainer) : TransfersContainer :=
  with_available (delete k (m_availableTransfers c)) (with_jobs (delete k (m_transfersUnlockJobs c)) c).
Definition put_unconfirmed (k : TransactionOutputKey) (o : TransactionOutputInformationEx) (c : TransfersContainer) : TransfersContainer :=
  with_unconfirmed (<[k := o]> (m_unconfirmedTransfers c)) c.
Definition drop_unconfirmed (k : TransactionOutputKey) (c : TransfersContainer) : TransfersContainer :=
  with_unconfirmed (delete k (m_unconfirmedTransfers c)) c.
Definition put_spent (k : TransactionOutputKey) (s : SpentTransactionOutput) (c : TransfersContainer) : TransfersContainer :=
  with_spent (<[k := s]> (m_spentTransfers c)) c.
Definition drop_spent (k : TransactionOutputKey) (c : TransfersContainer) : TransfersContainer :=
  with_spent (delete k (m_spentTransfers c)) c.

Section Core.
Variables (tsu ts : list TransactionInformation) (c : TransfersContainer).
Hypothesis HI : core_inv tsu ts c.

Lemma core_put_unconfirmed k o :
  getTransactionOutputKey o = k -> oi_blockHeight o = UNCONFIRMED ->
  globalOutputIndex (info o) = UNCONFIRMED_TRANSACTION_GLOBAL_OUTPUT_INDEX -> listed tsu (fst k) UNCONFIRMED ->
  core_inv tsu ts (put_unconfirmed k o c).
Proof.
  intros H1 H2 H3 H4. split; cbn; try apply HI.
  intros k' o' [[<- <-]|[Hn Ho]]%lookup_insert_Some; [done|by apply (ci_unconfirmed _ _ _ HI)].
Qed.

Lemma core_drop_unconfirmed k : core_inv tsu ts (drop_unconfirmed k c).
Proof. split; cbn; try apply HI. intros k' o' [_ Ho]%lookup_delete_Some. by apply (ci_unconfirmed _ _ _ HI). Qed.

Lemma confirmed_put_available k o k' o' : confirmed (put_available k o c) k' o' -> k' = k /\ o' = o \/ confirmed c k' o'.
Proof.
  intros [H|H]; [|right; by right]. cbn in H. apply lookup_insert_Some in H as [[<- <-]|[_ H]]; [by left|right; by left].
Qed.
Lemma confirmed_drop_available k k' o' : confirmed (drop_available k c) k' o' -> confirmed c k' o'.
Proof. intros [H|H]; [|by right]. cbn in H. apply lookup_delete_Some in H as [_ H]. by left. Qed.

Lemma core_put_available k o :
  m_availableTransfers c !! k = None -> m_spentTransfers c !! k = None ->
  getTransactionOutputKey o = k -> oi_blockHeight o <> UNCONFIRMED ->
  globalOutputIndex (info o) <> UNCONFIRMED_TRANSACTION_GLOBAL_OUTPUT_INDEX -> listed ts (fst k) (oi_blockHeight o) ->
  (type (info o) = OutputTypeMultisignature -> forall k' o', confirmed c k' o' -> descriptor (info o') <> descriptor (info o)) ->
  core_inv tsu ts (put_available k o c).
Proof.
  intros Ha Hs H1 H2 H3 H4 Hm. split; try apply HI.
  - intros k' o' [[-> ->]|H]%confirmed_put_available; [done|by apply (ci_confirmed _ _ _ HI)].
  - cbn. intros k' o' [[<- <-]|[Hn Ho]]%lookup_insert_Some; [done|by apply (ci_disjoint _ _ _ HI k' o')].
  - cbn. intros k'. destruct (decide (k = k')) as [<-|Hn]; [by rewrite !lookup_insert_eq|].
    rewrite !lookup_insert_ne by done. apply HI.
  - intros k1 o1 k2 o2 [[-> ->]|C1]%confirmed_put_available [[-> ->]|C2]%confirmed_put_available T E; [done| | |].
    + by destruct (Hm T k2 o2 C2).
    + destruct (Hm ltac:(by unfold descriptor in E; rewrite T in E; destruct (type (info o))) k1 o1 C1). done.
    + by apply (ci_multisignatures _ _ _ HI k1 o1 k2 o2).
Qed.

Lemma core_drop_available k : core_inv tsu ts (drop_available k c).
Proof.
  split; try apply HI.
  - intros k' o' H%confirmed_drop_available. by apply (ci_confirmed _ _ _ HI).
  - cbn. intros k' o' [_ H]%lookup_delete_Some. by apply (ci_disjoint _ _ _ HI k' o').
  - cbn. intros k'. destruct (decide (k = k')) as [<-|Hn]; [by rewrite !lookup_delete_eq|].
    rewrite !lookup_delete_ne by done. apply HI.
  - intros k1 o1 k2 o2 C1%confirmed_drop_available C2%confirmed_drop_available. by apply (ci_multisignatures _ _ _ HI).
Qed.

(** Spending moves a transfer from the available to the spent ones. *)
Lemma confirmed_spend k s k' o' :
  m_availableTransfers c !! k = Some (spent_output s) -> confirmed (put_spent k s (drop_available k c)) k' o' -> confirmed c k' o'.
Proof.
  intros Ha [H|(s' & H & <-)]; cbn in H.
  - apply lookup_delete_Some in H as [_ H]. by left.
  - apply lookup_insert_Some in H as [[<- <-]|[_ H]]; [by left|right; eauto].
Qed.

Lemma core_spend k s :
  m_availableTransfers c !! k = Some (spent_output s) -> type (info (spent_output s)) <> OutputInvalid ->
  later ts (fst k) (spendingTransactionHash s) ->
  (forall ki, descriptor (info (spent_output s)) = image ki -> spent_has_descriptor (image ki) (m_spentTransfers c) = ∅) ->
  core_inv tsu ts (put_spent k s (drop_available k c)).
Proof.
  intros Ha Hty Hl Hi. assert (Hd : forall ki k' s', m_spentTransfers c !! k' = Some s' -> descriptor (info (spent_output s')) = image ki ->
    descriptor (info (spent_output s)) = image ki -> False).
  { intros ki k' s' Hs' E' E. pose proof (f_equal (lookup k') (Hi ki E)) as Hi'. rewrite spent_has_lookup, Hs' in Hi'. cbn -[descriptor_matches] in Hi'.
    apply matches_image in E'. by rewrite E', lookup_empty in Hi'. }
  split; try apply HI.
  - intros k' o' H%(confirmed_spend _ _ _ _ Ha). by apply (ci_confirmed _ _ _ HI).
  - cbn. intros k' s' [[<- <-]|[_ H]]%lookup_insert_Some; [done|by apply (ci_spender _ _ _ HI)].
  - cbn. intros k' o' [Hn H]%lookup_delete_Some. rewrite lookup_insert_ne by done. by apply (ci_disjoint _ _ _ HI k' o').
  - cbn. intros k'. destruct (decide (k = k')) as [<-|Hn]; [by rewrite !lookup_delete_eq|].
    rewrite !lookup_delete_ne by done. apply HI.
  - cbn. intros ki k1 s1 k2 s2 [[<- <-]|[_ H1]]%lookup_insert_Some [[<- <-]|[_ H2]]%lookup_insert_Some E1 E2; [done| | |].
    + by destruct (Hd ki k2 s2 H2 E2).
    + by destruct (Hd ki k1 s1 H1 E1).
    + by apply (ci_images _ _ _ HI ki k1 s1 k2 s2).
  - intros k1 o1 k2 o2 C1%(confirmed_spend _ _ _ _ Ha) C2%(confirmed_spend _ _ _ _ Ha). by apply (ci_multisignatures _ _ _ HI).
Qed.

(** And back. *)
Lemma confirmed_unspend k s k' o' :
  m_spentTransfers c !! k = Some s -> confirmed (drop_spent k (put_available k (spent_output s) c)) k' o' -> confirmed c k' o'.
Proof.
  intros Hs [H|(s' & H & <-)]; cbn in H.
  - apply lookup_insert_Some in H as [[<- <-]|[_ H]]; [right; eauto|by left].
  - apply lookup_delete_Some in H as [_ H]. right. eauto.
Qed.

Lemma core_unspend k s :
  m_spentTransfers c !! k = Some s -> core_inv tsu ts (drop_spent k (put_available k (spent_output s) c)).
Proof.
  intros Hs. split; try apply HI.
  - intros k' o' H%(confirmed_unspend _ _ _ _ Hs). by apply (ci_confirmed _ _ _ HI).
  - cbn. intros k' s' [_ H]%lookup_delete_Some. by apply (ci_spender _ _ _ HI).
  - cbn. intros k' o' [[<- <-]|[Hn H]]%lookup_insert_Some; [apply lookup_delete_eq|].
    rewrite lookup_delete_ne by done. by apply (ci_disjoint _ _ _ HI k' o').
  - cbn. intros k'. destruct (decide (k = k')) as [<-|Hn]; [by rewrite !lookup_insert_eq|].
    rewrite !lookup_insert_ne by done. apply HI.
  - cbn. intros ki k1 s1 k2 s2 [_ H1]%lookup_delete_Some [_ H2]%lookup_delete_Some. by apply (ci_images _ _ _ HI ki k1 s1 k2 s2).
  - intros k1 o1 k2 o2 C1%(confirmed_unspend _ _ _ _ Hs) C2%(confirmed_unspend _ _ _ _ Hs). by apply (ci_multisignatures _ _ _ HI).
Qed.
End Core.

(** * The flags after a change *)

Definition any_transfer (c : TransfersContainer) (k : TransactionOutputKey) (o : TransactionOutputInformationEx) : Prop :=
  m_unconfirmedTransfers c !! k = Some o \/ confirmed c k o.
Record vis_inv (c : TransfersContainer) : Prop := {
  vi_images ki : vis_ok c ki;
  vi_others k o : any_transfer c k o -> type (info o) <> OutputTypeKey -> visible o = true;
}.

(** A change that only concerns transfers with the descriptor of [i]. *)
Definition near (i : TransactionOutputInformationIn) (c c' : TransfersContainer) : Prop :=
  forall ki, descriptor i <> image ki ->
    has_descriptor (image ki) (m_unconfirmedTransfers c') = has_descriptor (image ki) (m_unconfirmedTransfers c) /\
    has_descriptor (image ki) (m_availableTransfers c') = has_descriptor (image ki) (m_availableTransfers c) /\
    spent_has_descriptor (image ki) (m_spentTransfers c') = spent_has_descriptor (image ki) (m_spentTransfers c).

Lemma near_refl i c : near i c c.
Proof. done. Qed.
Lemma near_trans i c c' c'' : near i c c' -> near i c' c'' -> near i c c''.
Proof. intros H1 H2 ki Hk. destruct (H2 ki Hk) as (-> & -> & ->). by apply H1. Qed.

Lemma has_insert_other (d : SpentOutputDescriptor) m (k : TransactionOutputKey) o :
  m !! k = None -> descriptor_matches d (info o) = false -> has_descriptor d (<[k := o]> m) = has_descriptor d m.
Proof.
  intros Hk Hm. by_keys j. destruct (decide (k = j)) as [<-|Hn]; [|by rewrite lookup_insert_ne].
  rewrite lookup_insert_eq, Hk. cbn -[descriptor_matches]. by rewrite Hm.
Qed.
Lemma has_delete_other (d : SpentOutputDescriptor) m (k : TransactionOutputKey) o :
  m !! k = Some o -> descriptor_matches d (info o) = false -> has_descriptor d (delete k m) = has_descriptor d m.
Proof.
  intros Hk Hm. by_keys j. destruct (decide (k = j)) as [<-|Hn]; [|by rewrite lookup_delete_ne].
  rewrite lookup_delete_eq, Hk. cbn -[descriptor_matches]. by rewrite Hm.
Qed.
Lemma spent_has_insert_other (d : SpentOutputDescriptor) m (k : TransactionOutputKey) s :
  m !! k = None -> descriptor_matches d (info (spent_output s)) = false -> spent_has_descriptor d (<[k := s]> m) = spent_has_descriptor d m.
Proof.
  intros Hk Hm. by_keys j. destruct (decide (k = j)) as [<-|Hn]; [|by rewrite lookup_insert_ne].
  rewrite lookup_insert_eq, Hk. cbn -[descriptor_matches]. by rewrite Hm.
Qed.
Lemma spent_has_delete_other (d : SpentOutputDescriptor) m (k : TransactionOutputKey) s :
  m !! k = Some s -> descriptor_matches d (info (spent_output s)) = false -> spent_has_descriptor d (delete k m) = spent_has_descriptor d m.
Proof.
  intros Hk Hm. by_keys j. destruct (decide (k = j)) as [<-|Hn]; [|by rewrite lookup_delete_ne].
  rewrite lookup_delete_eq, Hk. cbn -[descriptor_matches]. by rewrite Hm.
Qed.

Lemma near_put_unconfirmed k o c : m_unconfirmedTransfers c !! k = None -> near (info o) c (put_unconfirmed k o c).
Proof. intros Hk ki Hd%not_image. cbn -[has_descriptor]. by rewrite (has_insert_other _ _ _ _ Hk Hd). Qed.
Lemma near_drop_unconfirmed k o c : m_unconfirmedTransfers c !! k = Some o -> near (info o) c (drop_unconfirmed k c).
Proof. intros Hk ki Hd%not_image. cbn -[has_descriptor]. by rewrite (has_delete_other _ _ _ _ Hk Hd). Qed.
Lemma near_put_available k o c : m_availableTransfers c !! k = None -> near (info o) c (put_available k o c).
Proof. intros Hk ki Hd%not_image. cbn -[has_descriptor]. by rewrite (has_insert_other _ _ _ _ Hk Hd). Qed.
Lemma near_drop_available k o c : m_availableTransfers c !! k = Some o -> near (info o) c (drop_available k c).
Proof. intros Hk ki Hd%not_image. cbn -[has_descriptor]. by rewrite (has_delete_other _ _ _ _ Hk Hd). Qed.
Lemma near_put_spent k s c : m_spentTransfers c !! k = None -> near (info (spent_output s)) c (put_spent k s c).
Proof. intros Hk ki Hd%not_image. cbn -[spent_has_descriptor]. by rewrite (spent_has_insert_other _ _ _ _ Hk Hd). Qed.
Lemma near_drop_spent k s c : m_spentTransfers c !! k = Some s -> near (info (spent_output s)) c (drop_spent k c).
Proof. intros Hk ki Hd%not_image. cbn -[spent_has_descriptor]. by rewrite (spent_has_delete_other _ _ _ _ Hk Hd). Qed.

(** [update_if_key] restores the flags after a change. *)
Lemma touch_vis c c1 i c2 :
  vis_inv c -> near i c c1 ->
  (forall k o, any_transfer c1 k o -> type (info o) <> OutputTypeKey -> visible o = true) ->
  update_if_key c1 i = Ok c2 -> vis_inv c2 /\ same_core c1 c2.
Proof.
  intros HV HN H1 E. assert (Hn : forall ki, descriptor i <> image ki -> vis_ok c1 ki).
  { intros ki Hd. destruct (HN ki Hd) as (E1 & E2 & E3). unfold vis_ok. rewrite E1, E2, E3. apply HV. }
  unfold update_if_key in E. destruct (type i) eqn:Et.
  - injection E as <-. split; [|by split]. split; [|done]. intros ki. apply Hn. unfold descriptor. by rewrite Et.
  - apply update_spec in E as (HS & HU & HK). split; [|done]. split.
    + intros ki. destruct (decide (ki = oi_keyImage i)) as [->|Hki]; [done|]. apply (unt_vis _ _ _ HU ki Hki), Hn.
      unfold descriptor. rewrite Et. congruence.
    + intros k o Ho Ht. assert (Hd : descriptor (info o) <> image (oi_keyImage i)) by (unfold descriptor; by destruct (type (info o))).
      apply (H1 k o); [|done]. destruct Ho as [Ho|[Ho|(s & Ho & <-)]].
      * left. by eapply unt_unconfirmed.
      * right; left. by eapply unt_available.
      * right; right. exists s. split; [by eapply unt_spent|done].
  - injection E as <-. split; [|by split]. split; [|done]. intros ki. apply Hn. unfold descriptor. by rewrite Et.
Qed.

Definition inv (tsu ts : list TransactionInformation) (c : TransfersContainer) : Prop := core_inv tsu ts c /\ vis_inv c.

(** A change followed by the update of the flags. *)
Lemma change_inv tsu ts c c1 i c2 :
  vis_inv c -> near i c c1 -> core_inv tsu ts c1 ->
  (forall k o, any_transfer c1 k o -> any_transfer c k o \/ visible o = true) ->
  update_if_key c1 i = Ok c2 -> inv tsu ts c2 /\ same_core c1 c2.
Proof.
  intros HV HN HC Hf E. destruct (touch_vis c c1 i c2 HV HN) as [HV2 HS]; [|done|].
  { intros k o Ho Ht. destruct (Hf k o Ho) as [?|?]; [by apply (vi_others _ HV k o)|done]. }
  split; [|done]. split; [by eapply core_inv_same|done].
Qed.

(** * The operations on one transfer *)

Lemma images_size tsu ts c ki : core_inv tsu ts c -> (base.size (spent_has_descriptor (image ki) (m_spentTransfers c)) <= 1)%nat.
Proof.
  intros HI. destruct (map_choose_or_empty (spent_has_descriptor (image ki) (m_spentTransfers c))) as [(k & s & Hk)|Hk].
  2: { rewrite Hk, map_size_empty. lia. }
  replace (spent_has_descriptor (image ki) (m_spentTransfers c)) with ({[k := s]} : spent_transfers); [by rewrite map_size_singleton|].
  symmetry. apply map_eq. intros j. destruct (decide (k = j)) as [<-|Hn]; [by rewrite lookup_singleton_eq|].
  rewrite lookup_singleton_ne by done. destruct (spent_has_descriptor _ _ !! j) as [s'|] eqn:E; [|done].
  rewrite spent_has_lookup in Hk, E. apply bind_Some in Hk as (x & Hx & Hk). apply bind_Some in E as (y & Hy & E).
  destruct (descriptor_matches (image ki) (info (spent_output x))) eqn:Ex; [|done].
  destruct (descriptor_matches (image ki) (info (spent_output y))) eqn:Ey; [|done].
  apply matches_image in Ex, Ey. by destruct Hn; apply (ci_images _ _ _ HI ki k x j y).
Qed.

Lemma update_if_key_total tsu ts c i : core_inv tsu ts c -> exists c', update_if_key c i = Ok c'.
Proof.
  intros HI. unfold update_if_key. destruct (type i); [eauto| |eauto]. by eapply update_total, images_size.
Qed.

Lemma emplace_unconfirmed_cases c o c' :
  emplace_unconfirmed c o = Ok c' ->
  m_unconfirmedTransfers c !! getTransactionOutputKey o = None /\ c' = put_unconfirmed (getTransactionOutputKey o) o c \/ c' = c.
Proof.
  unfold emplace_unconfirmed. intros (_ & _ & E)%bind_Ok. destruct (m_unconfirmedTransfers c !! _) eqn:Eu.
  - apply bind_Ok in E as (_ & _ & E). injection E as <-. by right.
  - injection E as <-. by left.
Qed.

Lemma by_nil (d : SpentOutputDescriptor) m (k : TransactionOutputKey) o :
  by_descriptor d m = [] -> m !! k = Some o -> descriptor_matches d (info o) = false.
Proof.
  intros E%map_to_list_empty_iff Hk. apply (f_equal (lookup k)) in E. rewrite has_lookup, Hk in E. cbn -[descriptor_matches] in E.
  by destruct (descriptor_matches d (info o)).
Qed.
Lemma spent_by_nil (d : SpentOutputDescriptor) m (k : TransactionOutputKey) s :
  spent_by_descriptor d m = [] -> m !! k = Some s -> descriptor_matches d (info (spent_output s)) = false.
Proof.
  intros E%map_to_list_empty_iff Hk. apply (f_equal (lookup k)) in E. rewrite spent_has_lookup, Hk in E. cbn -[descriptor_matches] in E.
  by destruct (descriptor_matches d (info (spent_output s))).
Qed.
Lemma by_elem (d : SpentOutputDescriptor) m p :
  p ∈ by_descriptor d m -> m !! fst p = Some (snd p) /\ descriptor_matches d (info (snd p)) = true.
Proof.
  destruct p as [k o]. unfold by_descriptor. intros H%elem_of_map_to_list. rewrite has_lookup in H. apply bind_Some in H as (x & Hx & H).
  cbn. destruct (descriptor_matches d (info x)) eqn:E; [|done]. by injection H as <-.
Qed.

Lemma no_multisignature c i :
  multisignature_exists c i = false -> type i = OutputTypeMultisignature ->
  forall k o, confirmed c k o -> descriptor (info o) <> descriptor i.
Proof.
  unfold multisignature_exists. intros E Ht k o Hc Hd.
  destruct (by_descriptor (descriptor i) (m_availableTransfers c)) eqn:Ea; [|done].
  destruct (spent_by_descriptor (descriptor i) (m_spentTransfers c)) eqn:Es; [|done].
  assert (Hm : descriptor_matches (descriptor i) (info o) = true).
  { assert (Hv : descriptor i <> DescriptorInvalid) by (unfold descriptor; by rewrite Ht). unfold descriptor_matches.
    rewrite <- Hd in *. destruct (descriptor (info o)); [done|by apply bool_decide_true..]. }
  destruct Hc as [Ho|(s & Hs & <-)].
  - by rewrite (by_nil _ _ _ _ Ea Ho) in Hm.
  - by rewrite (spent_by_nil _ _ _ _ Es Hs) in Hm.
Qed.

Lemma make_available_cases tsu ts c o c' :
  core_inv tsu ts c -> make_available age c o = Ok c' ->
  m_availableTransfers c !! getTransactionOutputKey o = None /\
    (type (info o) = OutputTypeMultisignature -> forall k' o', confirmed c k' o' -> descriptor (info o') <> descriptor (info o)) /\
    c' = put_available (getTransactionOutputKey o) o c \/ c' = c.
Proof.
  unfold make_available, addUnlockJob, emplace_available. intros HI E.
  destruct (bool_decide (type (info o) = OutputTypeMultisignature) && multisignature_exists c (info o)) eqn:Em; [done|].
  rewrite (ci_jobs _ _ _ HI) in E. destruct (m_availableTransfers c !! getTransactionOutputKey o) eqn:Ea.
  - cbn [fmap option_fmap option_map] in E. apply bind_Ok in E as (c1 & E1 & E). apply bind_Ok in E1 as (_ & _ & [= <-]).
    apply bind_Ok in E as (_ & _ & E). rewrite Ea in E. apply bind_Ok in E as (_ & _ & [= <-]). by right.
  - cbn [fmap option_fmap option_map] in E. apply bind_Ok in E as (c1 & [= <-] & E). apply bind_Ok in E as (_ & _ & E).
    cbn in E. rewrite Ea in E. injection E as <-. left. split_and!; [done| |done].
    intros Ht. apply no_multisignature; [|done]. by rewrite bool_decide_true in Em.
Qed.

Lemma spend_transfer_spec tsu ts c block h i k o c' :
  core_inv tsu ts c -> m_availableTransfers c !! k = Some o ->
  spent_by_descriptor (descriptor (info o)) (m_spentTransfers c) = [] ->
  spend_transfer c block h i k o = Ok c' ->
  c' = put_spent k {| spent_output := o; spendingBlock := block; spendingTransactionHash := h; inputInTransaction := u32 i |} (drop_available k c).
Proof.
  intros HI Ha Hs E. destruct (ci_confirmed _ _ _ HI k o (or_introl Ha)) as (Hk & _).
  unfold spend_transfer, copyToSpent, emplace_spent in E. apply bind_Ok in E as (c1 & E & [= <-]).
  do 3 apply bind_Ok in E as (_ & _ & E). cbn -[spent_by_descriptor descriptor] in E. rewrite Hk, (ci_disjoint _ _ _ HI k o Ha), Hs in E.
  injection E as <-. unfold deleteUnlockJob. by rewrite Hk.
Qed.

Lemma image_type i ki : descriptor i = image ki -> type i = OutputTypeKey /\ oi_keyImage i = ki.
Proof. unfold descriptor. destruct (type i); intros [= <-]; done. Qed.

(** Spending one transfer and updating the flags. *)
Lemma spend_inv tsu ts c k s c2 :
  inv tsu ts c -> m_availableTransfers c !! k = Some (spent_output s) -> type (info (spent_output s)) <> OutputInvalid ->
  later ts (fst k) (spendingTransactionHash s) ->
  (forall ki, descriptor (info (spent_output s)) = image ki -> spent_by_descriptor (image ki) (m_spentTransfers c) = []) ->
  update_if_key (put_spent k s (drop_available k c)) (info (spent_output s)) = Ok c2 ->
  inv tsu ts c2 /\ same_core (put_spent k s (drop_available k c)) c2.
Proof.
  intros [HI HV] Ha Ht Hl Hn. apply (change_inv tsu ts c); [done| | |].
  - eapply near_trans; [by eapply near_drop_available|]. apply near_put_spent. cbn. by apply (ci_disjoint _ _ _ HI k _ Ha).
  - apply core_spend; [done..|]. intros ki Hd. by apply map_to_list_empty_iff, Hn.
  - intros k' o' [H|H]; left; [by left|right]. by eapply confirmed_spend.
Qed.

Lemma findFirstByAmount_elem a l p : findFirstByAmount a l = Some p -> p ∈ l.
Proof.
  unfold findFirstByAmount. destruct (List.filter _ l) as [|q f] eqn:E; [done|]. cbn. intros [= ->].
  assert (Hq : In p (List.filter (fun p => amount (info (snd p)) =? a) l)) by (rewrite E; by left).
  apply filter_In in Hq as [Hq _]. by apply list_elem_of_In.
Qed.

Lemma add_key_input_inv tsu ts c block h i input b c' :
  inv tsu ts c ->
  (forall k o, m_availableTransfers c !! k = Some o -> descriptor (info o) = image (keyImage input) -> later ts (fst k) h) ->
  add_key_input c block h i input = Ok (b, c') ->
  c' = c \/ exists k s, m_availableTransfers c !! k = Some (spent_output s) /\ spendingTransactionHash s = h /\
    descriptor (info (spent_output s)) = image (keyImage input) /\
    inv tsu ts c' /\ same_core (put_spent k s (drop_available k c)) c'.
Proof.
  intros HI Hl E. unfold add_key_input in E.
  destruct (spent_by_descriptor (image (keyImage input)) (m_spentTransfers c)) eqn:Es; [|done].
  destruct (by_descriptor (image (keyImage input)) (m_availableTransfers c)) as [|p0 l0] eqn:Ea.
  { destruct (by_descriptor _ (m_unconfirmedTransfers c)); [|done]. injection E as _ <-. by left. }
  destruct (findFirstByAmount _ _) as [[k o]|] eqn:Ef; [|done]. right.
  apply findFirstByAmount_elem in Ef. rewrite merge_sort_Permutation, <- Ea in Ef. apply by_elem in Ef as [Ho Hm]. cbn -[descriptor_matches] in Ho, Hm.
  apply matches_image in Hm. destruct (image_type _ _ Hm) as [Ht Hk].
  apply bind_Ok in E as (_ & _ & E). apply bind_Ok in E as (c1 & E1 & E). apply bind_Ok in E as (c2 & E2 & [= _ <-]).
  apply (spend_transfer_spec tsu ts) in E1; [|apply HI|done|by rewrite Hm].
  match type of E1 with _ = put_spent k ?x _ => set (s := x) in E1 end. exists k, s.
  assert (HR : inv tsu ts c2 /\ same_core (put_spent k s (drop_available k c)) c2); [|naive_solver].
  apply spend_inv; [done|done|by cbn; rewrite Ht|by eapply Hl|cbn; intros ki Hki; congruence|].
  rewrite <- E1. cbn. unfold update_if_key. by rewrite Ht, Hk.
Qed.

Lemma add_multisignature_input_inv tsu ts c block h i input b c' :
  inv tsu ts c ->
  (forall k o, m_availableTransfers c !! k = Some o ->
     descriptor (info o) = DescriptorMultisignature (mi_amount input) (outputIndex input) -> later ts (fst k) h) ->
  add_multisignature_input c block h i input = Ok (b, c') ->
  c' = c \/ exists k s, m_availableTransfers c !! k = Some (spent_output s) /\ spendingTransactionHash s = h /\
    descriptor (info (spent_output s)) = DescriptorMultisignature (mi_amount input) (outputIndex input) /\
    inv tsu ts c' /\ same_core (put_spent k s (drop_available k c)) c'.
Proof.
  intros HI Hl E. unfold add_multisignature_input in E.
  destruct (by_descriptor _ (m_availableTransfers c)) as [|[k o] l0] eqn:Ea.
  { injection E as _ <-. by left. }
  right. assert (Hp : (k, o) ∈ by_descriptor (DescriptorMultisignature (mi_amount input) (outputIndex input)) (m_availableTransfers c))
    by (rewrite Ea; by left).
  apply by_elem in Hp as [Ho Hm]. cbn in Ho, Hm. apply bool_decide_eq_true in Hm.
  assert (Ht : type (info o) = OutputTypeMultisignature) by (unfold descriptor in Hm; by destruct (type (info o))).
  apply bind_Ok in E as (c1 & E1 & [= _ <-]).
  assert (Hs : spent_by_descriptor (descriptor (info o)) (m_spentTransfers c) = []).
  { destruct (spent_by_descriptor _ _) as [|[k' s'] l'] eqn:Es; [done|]. exfalso.
    assert (Hs' : (k', s') ∈ spent_by_descriptor (descriptor (info o)) (m_spentTransfers c)) by (rewrite Es; by left).
    unfold spent_by_descriptor in Hs'. apply elem_of_map_to_list in Hs'. rewrite spent_has_lookup in Hs'. apply bind_Some in Hs' as (x & Hx & Hs').
    destruct (descriptor_matches (descriptor (info o)) (info (spent_output x))) eqn:Ex; [|done].
    assert (k = k') as <-.
    { apply (ci_multisignatures _ _ _ (proj1 HI) k o k' (spent_output x)); [by left|right; eauto|done|].
      rewrite <- Hm in Ex. cbn in Ex. apply bool_decide_eq_true in Ex. congruence. }
    by rewrite (ci_disjoint _ _ _ (proj1 HI) k o Ho) in Hx. }
  apply (spend_transfer_spec tsu ts) in E1; [|apply HI|done|done].
  match type of E1 with _ = put_spent k ?x _ => set (s := x) in E1 end. exists k, s.
  assert (HR : inv tsu ts c1 /\ same_core (put_spent k s (drop_available k c)) c1); [|naive_solver].
  apply spend_inv; [done|done|by cbn; rewrite Ht|by eapply Hl|cbn; intros ki Hki; congruence|].
  rewrite <- E1. cbn. unfold update_if_key. by rewrite Ht.
Qed.

(** * What is left when a transaction is taken away *)

(** The transfers, up to their flags, without the transaction [h]: its outputs are
    gone and what it spent is available. *)
Definition undo_u (h : list Z) (c : TransfersContainer) (k : TransactionOutputKey) : option TransactionOutputInformationEx :=
  if decide (fst k = h) then None else set_visible true <$> m_unconfirmedTransfers c !! k.
Definition undo_s (h : list Z) (c : TransfersContainer) (k : TransactionOutputKey) : option SpentTransactionOutput :=
  s ← m_spentTransfers c !! k; if decide (spendingTransactionHash s = h) then None else Some (set_spent_visible true s).
Definition undo_a (h : list Z) (c : TransfersContainer) (k : TransactionOutputKey) : option TransactionOutputInformationEx :=
  if decide (fst k = h) then None else
  match m_availableTransfers c !! k with
  | Some o => Some (set_visible true o)
  | None => s ← m_spentTransfers c !! k;
            if decide (spendingTransactionHash s = h) then Some (set_visible true (spent_output s)) else None
  end.
Record frame (h : list Z) (c c' : TransfersContainer) : Prop := {
  fr_unconfirmed k : undo_u h c' k = undo_u h c k;
  fr_available k : undo_a h c' k = undo_a h c k;
  fr_spent k : undo_s h c' k = undo_s h c k;
  fr_transactions : m_transactions c' = m_transactions c;
  fr_height : m_currentHeight c' = m_currentHeight c;
}.

Lemma frame_refl h c : frame h c c.
Proof. by split. Qed.
Lemma frame_trans h c c' c'' : frame h c c' -> frame h c' c'' -> frame h c c''.
Proof.
  intros H1 H2. split.
  - intros k. by rewrite (fr_unconfirmed _ _ _ H2), (fr_unconfirmed _ _ _ H1).
  - intros k. by rewrite (fr_available _ _ _ H2), (fr_available _ _ _ H1).
  - intros k. by rewrite (fr_spent _ _ _ H2), (fr_spent _ _ _ H1).
  - by rewrite (fr_transactions _ _ _ H2), (fr_transactions _ _ _ H1).
  - by rewrite (fr_height _ _ _ H2), (fr_height _ _ _ H1).
Qed.

Lemma flagless_fmap m m' (k : TransactionOutputKey) : same_flagless m' m -> set_visible true <$> m' !! k = set_visible true <$> m !! k.
Proof. intros H%(f_equal (lookup k)). by rewrite !lookup_fmap in H. Qed.
Lemma spent_flagless_fmap m m' (k : TransactionOutputKey) :
  same_spent_flagless m' m -> set_spent_visible true <$> m' !! k = set_spent_visible true <$> m !! k.
Proof. intros H%(f_equal (lookup k)). by rewrite !lookup_fmap in H. Qed.

Lemma frame_same_core h c c' : same_core c c' -> frame h c c'.
Proof.
  intros H. assert (HS : forall k,
    m_spentTransfers c' !! k = None /\ m_spentTransfers c !! k = None \/
    exists s' s, m_spentTransfers c' !! k = Some s' /\ m_spentTransfers c !! k = Some s /\ set_spent_visible true s' = set_spent_visible true s).
  { intros k. pose proof (spent_flagless_fmap _ _ k (core_spent _ _ H)) as E.
    destruct (m_spentTransfers c' !! k) as [s'|] eqn:E', (m_spentTransfers c !! k) as [s|] eqn:E0; try done; [|by left].
    right. exists s', s. split_and!; [done..|]. change (Some (set_spent_visible true s') = Some (set_spent_visible true s)) in E. congruence. }
  split; [| | |apply H|apply H].
  - intros k. unfold undo_u. by rewrite (flagless_fmap _ _ k (core_unconfirmed _ _ H)).
  - intros k. unfold undo_a. destruct (decide (fst k = h)); [done|]. pose proof (flagless_fmap _ _ k (core_available _ _ H)) as E.
    destruct (m_availableTransfers c' !! k), (m_availableTransfers c !! k); try done.
    destruct (HS k) as [[-> ->]|(s' & s & -> & -> & Es)]; [done|]. cbn. destruct (spent_flagless_parts _ _ Es) as [-> ->]. done.
  - intros k. unfold undo_s. destruct (HS k) as [[-> ->]|(s' & s & -> & -> & Es)]; [done|]. cbn -[set_spent_visible].
    destruct (spent_flagless_parts _ _ Es) as [_ ->]. by rewrite Es.
Qed.

Ltac frame_keys k0 :=
  let j := fresh "j" in
  split; cbn; [intros j; unfold undo_u|intros j; unfold undo_a|intros j; unfold undo_s|done|done]; cbn;
  destruct (decide (k0 = j)) as [<-|?];
  rewrite ?lookup_insert_eq, ?lookup_delete_eq, ?lookup_insert_ne, ?lookup_delete_ne by done; try done.

Lemma frame_put_unconfirmed h k o c : fst k = h -> frame h c (put_unconfirmed k o c).
Proof. intros E. frame_keys k; by rewrite !decide_True by done. Qed.
Lemma frame_drop_unconfirmed h k c : fst k = h -> frame h c (drop_unconfirmed k c).
Proof. intros E. frame_keys k; by rewrite !decide_True by done. Qed.
Lemma frame_put_available h k o c : fst k = h -> frame h c (put_available k o c).
Proof. intros E. frame_keys k; by rewrite !decide_True by done. Qed.
Lemma frame_drop_available h k c : fst k = h -> frame h c (drop_available k c).
Proof. intros E. frame_keys k; by rewrite !decide_True by done. Qed.
Lemma frame_spend h k s c :
  m_availableTransfers c !! k = Some (spent_output s) -> m_spentTransfers c !! k = None -> spendingTransactionHash s = h ->
  frame h c (put_spent k s (drop_available k c)).
Proof.
  intros Ha Hs E. frame_keys k.
  - rewrite Ha. cbn. by rewrite (decide_True _ _ E).
  - rewrite Hs. cbn. by rewrite decide_True by done.
Qed.
Lemma frame_unspend h k s c :
  m_spentTransfers c !! k = Some s -> m_availableTransfers c !! k = None -> spendingTransactionHash s = h ->
  frame h c (drop_spent k (put_available k (spent_output s) c)).
Proof.
  intros Hs Ha E. frame_keys k.
  - rewrite Ha, Hs. cbn. by rewrite (decide_True _ _ E).
  - rewrite Hs. cbn. by rewrite decide_True by done.
Qed.

(** * Deleting the transfers of a transaction *)

Definition sub_spent (c c' : TransfersContainer) : Prop :=
  forall k x', m_spentTransfers c' !! k = Some x' ->
  exists x, m_spentTransfers c !! k = Some x /\ set_spent_visible true x = set_spent_visible true x'.

Lemma sub_spent_trans c c' c'' : sub_spent c c' -> sub_spent c' c'' -> sub_spent c c''.
Proof. intros H1 H2 k x'' H. destruct (H2 k x'' H) as (x' & H' & <-). by apply H1. Qed.
Lemma sub_spent_core c c' : same_core c c' -> sub_spent c c'.
Proof. intros H k x' Hx. by eapply spent_flagless_lookup; [apply H|]. Qed.
Lemma sub_spent_drop c c' k : same_core (drop_spent k c) c' -> sub_spent c c' /\ m_spentTransfers c' !! k = None.
Proof.
  intros H. split.
  - intros j x' Hx. destruct (sub_spent_core _ _ H j x' Hx) as (x & Hx0 & E). cbn in Hx0. apply lookup_delete_Some in Hx0 as [_ Hx0]. eauto.
  - destruct (m_spentTransfers c' !! k) as [x'|] eqn:E; [|done].
    destruct (sub_spent_core _ _ H k x' E) as (x & Hx0 & _). cbn in Hx0. by rewrite lookup_delete_eq in Hx0.
Qed.
Lemma core_spent_spender tsu ts c k s : core_inv tsu ts c -> m_spentTransfers c !! k = Some s ->
  m_availableTransfers c !! k = None /\ m_transfersUnlockJobs c !! k = None.
Proof.
  intros HI Hs. assert (Ha : m_availableTransfers c !! k = None).
  { destruct (m_availableTransfers c !! k) as [o|] eqn:E; [|done]. by rewrite (ci_disjoint _ _ _ HI k o E) in Hs. }
  by rewrite (ci_jobs _ _ _ HI), Ha.
Qed.

Lemma unspend_one tsu ts c h k s :
  inv tsu ts c -> m_spentTransfers c !! k = Some s -> spendingTransactionHash s = h ->
  exists c', (c1 ← addUnlockJob age c (spent_output s); c2 ← emplace_available c1 (spent_output s);
              update_if_key (with_spent (delete k (m_spentTransfers c2)) c2) (info (spent_output s))) = Ok c' /\
    inv tsu ts c' /\ frame h c c' /\ sub_spent c c' /\ m_spentTransfers c' !! k = None.
Proof.
  intros [HI HV] Hs Hh. destruct (core_spent_spender _ _ _ _ _ HI Hs) as [Ha Hj].
  destruct (ci_confirmed _ _ _ HI k (spent_output s)) as (Hk & _); [right; eauto|].
  destruct (ci_spender _ _ _ HI k s Hs) as [Ht _].
  assert (HC : core_inv tsu ts (drop_spent k (put_available k (spent_output s) c))) by by apply core_unspend.
  destruct (update_if_key_total tsu ts _ (info (spent_output s)) HC) as [c' E]. exists c'.
  destruct (change_inv tsu ts c (drop_spent k (put_available k (spent_output s) c)) (info (spent_output s)) c') as [HI' HS]; try done.
  { eapply near_trans; [by apply near_put_available|]. by apply near_drop_spent. }
  { intros k' o' [H|H]; left; [by left|right]. by eapply confirmed_unspend. }
  destruct (sub_spent_drop _ _ _ HS) as [Hsub Hnone]. split_and!; try done.
  - unfold addUnlockJob, emplace_available. rewrite Hk, Hj. cbn [mbind outcome_bind]. 
    rewrite (massert_true (negb (bool_decide (type (info (spent_output s)) = OutputInvalid)))); [|by rewrite bool_decide_false].
    cbn -[update_if_key]. by rewrite Ha.
  - eapply frame_trans; [by apply frame_unspend|by apply frame_same_core].
Qed.

Lemma unspend_loop_spec tsu ts h ks c :
  inv tsu ts c -> (forall k s, k ∈ ks -> m_spentTransfers c !! k = Some s -> spendingTransactionHash s = h) ->
  exists c', unspend_loop age c ks = Ok c' /\ inv tsu ts c' /\ frame h c c' /\ sub_spent c c' /\
    (forall k, k ∈ ks -> m_spentTransfers c' !! k = None).
Proof.
  revert c. induction ks as [|k ks IH]; intros c HI Hks.
  { exists c. split_and!; [done|done|apply frame_refl|intros j x; eauto|intros j Hj; by apply elem_of_nil in Hj]. }
  cbn [unspend_loop]. destruct (m_spentTransfers c !! k) as [s|] eqn:Es.
  - destruct (unspend_one tsu ts c h k s HI Es) as (c1 & E1 & HI1 & HF1 & HS1 & HN1); [apply (Hks k); [by left|done]|].
    destruct (IH c1 HI1) as (c' & E' & HI' & HF' & HS' & HN').
    { intros j x Hj Hx. destruct (HS1 j x Hx) as (y & Hy & Ey). destruct (spent_flagless_parts _ _ Ey) as [_ <-].
      apply (Hks j); [by right|done]. }
    exists c'. split_and!; [|done|by eapply frame_trans|by eapply sub_spent_trans|].
    + destruct (ci_confirmed _ _ _ (proj1 HI) k (spent_output s)) as (_ & H1 & H2 & _); [right; eauto|].
      rewrite !massert_true; [|by apply negb_true_iff, Z.eqb_neq..]. cbn [mbind outcome_bind].
      destruct (addUnlockJob age c (spent_output s)) as [c2| | |] eqn:Ej; [|discriminate E1..]. cbn [mbind outcome_bind] in *.
      destruct (emplace_available c2 (spent_output s)) as [c3| | |] eqn:Ee; [|discriminate E1..]. cbn [mbind outcome_bind] in *.
      rewrite E1. exact E'.
    + intros j [->|Hj]%elem_of_cons; [|by apply HN'].
      destruct (m_spentTransfers c' !! k) as [x|] eqn:Ex; [|done]. destruct (HS' k x Ex) as (y & Hy & _). congruence.
  - destruct (IH c HI) as (c' & E' & HI' & HF' & HS' & HN'); [intros j x Hj; apply Hks; by right|].
    exists c'. split_and!; try done. intros j [->|Hj]%elem_of_cons; [|by apply HN'].
    destruct (m_spentTransfers c' !! k) as [x|] eqn:Ex; [|done]. destruct (HS' k x Ex) as (y & Hy & _). congruence.
Qed.

(** Nothing new appears. *)
Record shrinks (c c' : TransfersContainer) : Prop := {
  sh_unconfirmed k : is_Some (m_unconfirmedTransfers c' !! k) -> is_Some (m_unconfirmedTransfers c !! k);
  sh_available k : is_Some (m_availableTransfers c' !! k) -> is_Some (m_availableTransfers c !! k);
  sh_spent : sub_spent c c';
}.
Lemma shrinks_refl c : shrinks c c.
Proof. split; [done..|]. intros k x; eauto. Qed.
Lemma shrinks_trans c c' c'' : shrinks c c' -> shrinks c' c'' -> shrinks c c''.
Proof.
  intros H1 H2. split.
  - intros k Hk. by apply (sh_unconfirmed _ _ H1), (sh_unconfirmed _ _ H2).
  - intros k Hk. by apply (sh_available _ _ H1), (sh_available _ _ H2).
  - eapply sub_spent_trans; [apply H1|apply H2].
Qed.
Lemma shrinks_core c c' : same_core c c' -> shrinks c c'.
Proof.
  intros H. split; [| |by apply sub_spent_core]; intros k [o Ho].
  - destruct (flagless_lookup _ _ _ _ (core_unconfirmed _ _ H) Ho) as (? & ? & _). eauto.
  - destruct (flagless_lookup _ _ _ _ (core_available _ _ H) Ho) as (? & ? & _). eauto.
Qed.
Lemma shrinks_drop_unconfirmed k c : shrinks c (drop_unconfirmed k c).
Proof. split; cbn; [|done|by intros j x; eauto]. intros j [o [_ Ho]%lookup_delete_Some]. eauto. Qed.
Lemma shrinks_drop_available k c : shrinks c (drop_available k c).
Proof. split; cbn; [done| |by intros j x; eauto]. intros j [o [_ Ho]%lookup_delete_Some]. eauto. Qed.

Lemma drop_unconfirmed_one tsu ts c h k o :
  inv tsu ts c -> m_unconfirmedTransfers c !! k = Some o -> fst k = h ->
  exists c', update_if_key (drop_unconfirmed k c) (info o) = Ok c' /\
    inv tsu ts c' /\ frame h c c' /\ shrinks c c' /\ m_unconfirmedTransfers c' !! k = None.
Proof.
  intros [HI HV] Ho Hh. assert (HC : core_inv tsu ts (drop_unconfirmed k c)) by by apply core_drop_unconfirmed.
  destruct (update_if_key_total tsu ts _ (info o) HC) as [c' E]. exists c'.
  destruct (change_inv tsu ts c (drop_unconfirmed k c) (info o) c') as [HI' HS]; try done.
  { by apply near_drop_unconfirmed. }
  { intros k' o' [H|H]; left; [left|by right]. cbn in H. by apply lookup_delete_Some in H as [_ H]. }
  split_and!; [done|done|eapply frame_trans; [by apply frame_drop_unconfirmed|by apply frame_same_core]| |].
  - eapply shrinks_trans; [apply shrinks_drop_unconfirmed|by apply shrinks_core].
  - destruct (m_unconfirmedTransfers c' !! k) as [x|] eqn:Ex; [|done].
    destruct (flagless_lookup _ _ _ _ (core_unconfirmed _ _ HS) Ex) as (y & Hy & _). cbn in Hy. by rewrite lookup_delete_eq in Hy.
Qed.

Lemma erase_unconfirmed_loop_spec tsu ts h ks c :
  inv tsu ts c -> (forall k, k ∈ ks -> fst k = h) ->
  exists c', erase_unconfirmed_loop c ks = Ok c' /\ inv tsu ts c' /\ frame h c c' /\ shrinks c c' /\
    (forall k, k ∈ ks -> m_unconfirmedTransfers c' !! k = None).
Proof.
  revert c. induction ks as [|k ks IH]; intros c HI Hks.
  { exists c. split_and!; [done|done|apply frame_refl|apply shrinks_refl|intros j Hj; by apply elem_of_nil in Hj]. }
  assert (HT : forall j, j ∈ ks -> fst j = h) by (intros j Hj; apply Hks; by right).
  cbn [erase_unconfirmed_loop]. destruct (m_unconfirmedTransfers c !! k) as [o|] eqn:Eo.
  - destruct (drop_unconfirmed_one tsu ts c h k o HI Eo) as (c1 & E1 & HI1 & HF1 & HS1 & HN1); [apply Hks; by left|].
    unfold drop_unconfirmed in E1. rewrite E1. cbn [mbind outcome_bind].
    destruct (IH c1 HI1 HT) as (c' & E' & HI' & HF' & HS' & HN').
    exists c'. split_and!; [done|done|by eapply frame_trans|by eapply shrinks_trans|].
    intros j [->|Hj]%elem_of_cons; [|by apply HN'].
    apply eq_None_not_Some. intros Hx%(sh_unconfirmed _ _ HS'). rewrite HN1 in Hx. by destruct Hx.
  - destruct (IH c HI HT) as (c' & E' & HI' & HF' & HS' & HN'). exists c'. split_and!; try done.
    intros j [->|Hj]%elem_of_cons; [|by apply HN'].
    apply eq_None_not_Some. intros Hx%(sh_unconfirmed _ _ HS'). rewrite Eo in Hx. by destruct Hx.
Qed.

Lemma drop_available_one tsu ts c h k o :
  inv tsu ts c -> m_availableTransfers c !! k = Some o -> fst k = h ->
  exists c', update_if_key (drop_available k c) (info o) = Ok c' /\
    inv tsu ts c' /\ frame h c c' /\ shrinks c c' /\ m_availableTransfers c' !! k = None.
Proof.
  intros [HI HV] Ho Hh. assert (HC : core_inv tsu ts (drop_available k c)) by by apply core_drop_available.
  destruct (update_if_key_total tsu ts _ (info o) HC) as [c' E]. exists c'.
  destruct (change_inv tsu ts c (drop_available k c) (info o) c') as [HI' HS]; try done.
  { by apply near_drop_available. }
  { intros k' o' [H|H]; left; [by left|right]. by eapply confirmed_drop_available. }
  split_and!; [done|done|eapply frame_trans; [by apply frame_drop_available|by apply frame_same_core]| |].
  - eapply shrinks_trans; [apply shrinks_drop_available|by apply shrinks_core].
  - destruct (m_availableTransfers c' !! k) as [x|] eqn:Ex; [|done].
    destruct (flagless_lookup _ _ _ _ (core_available _ _ HS) Ex) as (y & Hy & _). cbn in Hy. by rewrite lookup_delete_eq in Hy.
Qed.

Lemma erase_available_loop_spec tsu ts h ks c :
  inv tsu ts c -> (forall k, k ∈ ks -> fst k = h) ->
  exists c', erase_available_loop c ks = Ok c' /\ inv tsu ts c' /\ frame h c c' /\ shrinks c c' /\
    (forall k, k ∈ ks -> m_availableTransfers c' !! k = None).
Proof.
  revert c. induction ks as [|k ks IH]; intros c HI Hks.
  { exists c. split_and!; [done|done|apply frame_refl|apply shrinks_refl|intros j Hj; by apply elem_of_nil in Hj]. }
  assert (HT : forall j, j ∈ ks -> fst j = h) by (intros j Hj; apply Hks; by right).
  cbn [erase_available_loop]. destruct (m_availableTransfers c !! k) as [o|] eqn:Eo.
  - destruct (drop_available_one tsu ts c h k o HI Eo) as (c1 & E1 & HI1 & HF1 & HS1 & HN1); [apply Hks; by left|].
    destruct (ci_confirmed _ _ _ (proj1 HI) k o (or_introl Eo)) as (Hk & _).
    unfold drop_available in E1. unfold deleteUnlockJob. rewrite Hk. cbn [m_availableTransfers with_jobs]. rewrite E1. cbn [mbind outcome_bind].
    destruct (IH c1 HI1 HT) as (c' & E' & HI' & HF' & HS' & HN').
    exists c'. split_and!; [done|done|by eapply frame_trans|by eapply shrinks_trans|].
    intros j [->|Hj]%elem_of_cons; [|by apply HN'].
    apply eq_None_not_Some. intros Hx%(sh_available _ _ HS'). rewrite HN1 in Hx. by destruct Hx.
  - destruct (IH c HI HT) as (c' & E' & HI' & HF' & HS' & HN'). exists c'. split_and!; try done.
    intros j [->|Hj]%elem_of_cons; [|by apply HN'].
    apply eq_None_not_Some. intros Hx%(sh_available _ _ HS'). rewrite Eo in Hx. by destruct Hx.
Qed.

Lemma by_spending_elem h m (k : TransactionOutputKey) :
  k ∈ map fst (by_spending h m) <-> exists s, m !! k = Some s /\ spendingTransactionHash s = h.
Proof.
  unfold by_spending, spent_by. rewrite list_elem_of_fmap. split.
  - intros ([j s] & -> & H%elem_of_map_to_list). apply map_lookup_filter_Some in H. naive_solver.
  - intros (s & Hs & Hh). exists (k, s). split; [done|]. by apply elem_of_map_to_list, map_lookup_filter_Some.
Qed.
Lemma by_transaction_elem h m (k : TransactionOutputKey) :
  k ∈ map fst (by_transaction h m) <-> exists o, m !! k = Some o /\ oi_transactionHash (info o) = h.
Proof.
  unfold by_transaction, of_transaction. rewrite list_elem_of_fmap. split.
  - intros ([j s] & -> & H%elem_of_map_to_list). apply map_lookup_filter_Some in H. naive_solver.
  - intros (s & Hs & Hh). exists (k, s). split; [done|]. by apply elem_of_map_to_list, map_lookup_filter_Some.
Qed.
Lemma key_hash o (k : TransactionOutputKey) : getTransactionOutputKey o = k -> oi_transactionHash (info o) = fst k.
Proof. by intros <-. Qed.

(** The transaction [h] plays no part. *)
Record forgotten (h : list Z) (c : TransfersContainer) : Prop := {
  fo_unconfirmed k : is_Some (m_unconfirmedTransfers c !! k) -> fst k <> h;
  fo_available k : is_Some (m_availableTransfers c !! k) -> fst k <> h;
  fo_spent k x : m_spentTransfers c !! k = Some x -> fst k <> h /\ spendingTransactionHash x <> h;
}.

Lemma deleteTransactionTransfers_spec tsu ts c h :
  inv tsu ts c -> (forall k s, m_spentTransfers c !! k = Some s -> fst k <> h) ->
  exists c', deleteTransactionTransfers age c h = Ok c' /\ inv tsu ts c' /\ frame h c c' /\ sub_spent c c' /\ forgotten h c'.
Proof.
  intros HI Hs. unfold deleteTransactionTransfers.
  destruct (unspend_loop_spec tsu ts h (map fst (by_spending h (m_spentTransfers c))) c HI) as (c1 & -> & HI1 & HF1 & HS1 & HN1).
  { intros k s (s' & Hk & Hh)%by_spending_elem Hk'. congruence. }
  cbn [mbind outcome_bind].
  destruct (erase_unconfirmed_loop_spec tsu ts h (map fst (by_transaction h (m_unconfirmedTransfers c1))) c1 HI1)
    as (c2 & -> & HI2 & HF2 & HS2 & HN2).
  { intros k (o & Ho & <-)%by_transaction_elem. symmetry. apply key_hash. by apply (ci_unconfirmed _ _ _ (proj1 HI1)). }
  cbn [mbind outcome_bind].
  destruct (erase_available_loop_spec tsu ts h (map fst (by_transaction h (m_availableTransfers c2))) c2 HI2)
    as (c3 & -> & HI3 & HF3 & HS3 & HN3).
  { intros k (o & Ho & <-)%by_transaction_elem. symmetry. apply key_hash. apply (ci_confirmed _ _ _ (proj1 HI2)). by left. }
  assert (HS : sub_spent c c3).
  { eapply sub_spent_trans; [exact HS1|]. eapply sub_spent_trans; [apply (sh_spent _ _ HS2)|apply (sh_spent _ _ HS3)]. }
  exists c3. split_and!; [done|done| |done|].
  { eapply frame_trans; [done|]. by eapply frame_trans. }
  split.
  - intros k Hk Hh. apply (sh_unconfirmed _ _ HS3) in Hk. pose proof (sh_unconfirmed _ _ HS2 _ Hk) as [o Ho].
    destruct Hk as [? Hk]. rewrite HN2 in Hk; [done|]. apply by_transaction_elem. exists o. split; [done|]. rewrite <- Hh.
    apply key_hash. by apply (ci_unconfirmed _ _ _ (proj1 HI1)).
  - intros k Hk Hh. pose proof (sh_available _ _ HS3 _ Hk) as [o Ho]. destruct Hk as [? Hk]. rewrite HN3 in Hk; [done|].
    apply by_transaction_elem. exists o. split; [done|]. rewrite <- Hh. apply key_hash. apply (ci_confirmed _ _ _ (proj1 HI2)). by left.
  - intros k x Hx. destruct (HS k x Hx) as (y & Hy & Ey). destruct (spent_flagless_parts _ _ Ey) as [_ Es]. split; [by eapply Hs|].
    rewrite <- Es. intros Hh.
    assert (HN : m_spentTransfers c1 !! k = None) by (apply HN1, by_spending_elem; eauto).
    destruct (sh_spent _ _ HS3 k x Hx) as (z & Hz & _). destruct (sh_spent _ _ HS2 k z Hz) as (w & Hw & _). congruence.
Qed.

(** * The list of transactions *)

Lemma listed_erase ts h h' z : listed ts h' z -> h' <> h -> listed (erase_transaction h ts) h' z.
Proof.
  intros (t & Ht & <- & <-) Hn. exists t. split_and!; [|done..]. apply list_elem_of_In, filter_In. split; [by apply list_elem_of_In|].
  by rewrite bool_decide_false.
Qed.
Lemma map_hash_erase h ts : forall x, x <> h -> x ∈ map tx_hash ts -> x ∈ map tx_hash (erase_transaction h ts).
Proof.
  intros x Hn (t & -> & Ht)%list_elem_of_fmap. apply list_elem_of_fmap. exists t. split; [done|].
  apply list_elem_of_In, filter_In. split; [by apply list_elem_of_In|]. by rewrite bool_decide_false.
Qed.
Lemma later_erase ts h h1 h2 : later ts h1 h2 -> h1 <> h -> h2 <> h -> later (erase_transaction h ts) h1 h2.
Proof.
  intros (l1 & l2 & -> & H1 & H2) Hn1 Hn2. exists (erase_transaction h l1), (erase_transaction h l2).
  split_and!; [apply List.filter_app|by apply map_hash_erase..].
Qed.
Lemma erase_sublist h ts : sublist (erase_transaction h ts) ts.
Proof. unfold erase_transaction. induction ts as [|t ts IH]; [done|]. cbn. destruct (negb _); by constructor. Qed.
Lemma sorted_sublist {A} (R : A -> A -> Prop) l l' : sublist l' l -> StronglySorted R l -> StronglySorted R l'.
Proof.
  induction 1 as [|x l' l HS IH|x l' l HS IH]; intros H; [done| |]; apply StronglySorted_inv in H as [H1 H2].
  - constructor; [by apply IH|]. rewrite Forall_forall in *. intros y Hy. apply H2. by eapply elem_of_sublist.
  - by apply IH.
Qed.
Lemma sublist_map {A C} (f : A -> C) l l' : sublist l' l -> sublist (map f l') (map f l).
Proof. induction 1; cbn; by constructor. Qed.
Lemma ts_ok_erase h ts : ts_ok ts -> ts_ok (erase_transaction h ts).
Proof.
  intros [H1 H2]. split; [|by eapply sorted_sublist; [apply erase_sublist|]].
  eapply sublist_NoDup; [exact H1|]. apply sublist_map, erase_sublist.
Qed.

Lemma insert_split t ts : StronglySorted (fun t u => tx_blockHeight t <= tx_blockHeight u) ts ->
  exists l1 l2, ts = l1 ++ l2 /\ insert_transaction t ts = l1 ++ t :: l2 /\
    Forall (fun u => tx_blockHeight u <= tx_blockHeight t) l1 /\ Forall (fun u => tx_blockHeight t < tx_blockHeight u) l2.
Proof.
  induction 1 as [|u ts HS IH HF]; [by exists [], []|]. cbn. destruct (Z.ltb_spec (tx_blockHeight t) (tx_blockHeight u)) as [Hl|Hl].
  - exists [], (u :: ts). split_and!; [done..|]. constructor; [done|]. eapply Forall_impl; [exact HF|]. cbn. lia.
  - destruct IH as (l1 & l2 & -> & -> & H1 & H2). exists (u :: l1), l2. split_and!; [done..| |done]. by constructor.
Qed.

Lemma ts_ok_insert t ts : ts_ok ts -> tx_hash t ∉ map tx_hash ts -> ts_ok (insert_transaction t ts).
Proof.
  intros [HN HS] Hf. destruct (insert_split t ts HS) as (l1 & l2 & -> & E & H1 & H2). rewrite E. split.
  - assert (HP : map tx_hash (l1 ++ t :: l2) ≡ₚ tx_hash t :: map tx_hash (l1 ++ l2)) by (rewrite <- Permutation_middle; done).
    rewrite HP. by constructor.
  - clear E HN Hf. induction l1 as [|u l1 IH]; cbn in *.
    + constructor; [done|]. eapply Forall_impl; [exact H2|]. cbn. lia.
    + apply StronglySorted_inv in HS as [HS HF]. apply Forall_cons in H1 as [Hu H1]. constructor; [by apply IH|].
      apply Forall_app in HF as [F1 F2]. apply Forall_app. split; [done|]. by constructor.
Qed.

Lemma listed_insert t ts h z : StronglySorted (fun t u => tx_blockHeight t <= tx_blockHeight u) ts ->
  listed ts h z -> listed (insert_transaction t ts) h z.
Proof.
  intros HS (u & Hu & ? & ?). destruct (insert_split t ts HS) as (l1 & l2 & -> & -> & _). exists u. split; [|done].
  rewrite elem_of_app, elem_of_cons. apply elem_of_app in Hu. tauto.
Qed.
Lemma listed_inserted t ts : StronglySorted (fun t u => tx_blockHeight t <= tx_blockHeight u) ts ->
  listed (insert_transaction t ts) (tx_hash t) (tx_blockHeight t).
Proof.
  intros HS. destruct (insert_split t ts HS) as (l1 & l2 & -> & -> & _). exists t. split; [|done].
  rewrite elem_of_app, elem_of_cons. tauto.
Qed.

Lemma later_middle l1 l2 t h1 h2 : later (l1 ++ l2) h1 h2 -> later (l1 ++ t :: l2) h1 h2.
Proof.
  intros (a & b & E & Ha & Hb). apply app_eq_app in E as (d & [[-> ->]|[-> ->]]).
  - exists a, (d ++ t :: l2). split_and!; [by rewrite app_assoc|done|]. rewrite map_app in *. cbn. rewrite elem_of_app, elem_of_cons.
    apply elem_of_app in Hb. tauto.
  - exists (l1 ++ t :: d), b. split_and!; [by rewrite <- app_assoc| |done]. rewrite map_app in *. cbn. rewrite elem_of_app, elem_of_cons.
    apply elem_of_app in Ha. tauto.
Qed.
Lemma later_insert t ts h1 h2 : StronglySorted (fun t u => tx_blockHeight t <= tx_blockHeight u) ts ->
  later ts h1 h2 -> later (insert_transaction t ts) h1 h2.
Proof. intros HS. destruct (insert_split t ts HS) as (l1 & l2 & -> & -> & _). apply later_middle. Qed.

(** A confirmed transaction that is not above the new one comes before it. *)
Lemma insert_later t ts h z : StronglySorted (fun t u => tx_blockHeight t <= tx_blockHeight u) ts ->
  listed ts h z -> z <= tx_blockHeight t -> later (insert_transaction t ts) h (tx_hash t).
Proof.
  intros HS (u & Hu & <- & <-) Hz. destruct (insert_split t ts HS) as (l1 & l2 & -> & -> & H1 & H2).
  exists l1, (t :: l2). split_and!; [done| |by left]. apply list_elem_of_fmap. exists u. split; [done|].
  apply elem_of_app in Hu as [?|Hu]; [done|]. rewrite Forall_forall in H2. specialize (H2 u Hu). lia.
Qed.

Lemma core_inv_mono tsu ts tsu' ts' c :
  core_inv tsu ts c ->
  (forall k, is_Some (m_unconfirmedTransfers c !! k) -> listed tsu (fst k) UNCONFIRMED -> listed tsu' (fst k) UNCONFIRMED) ->
  (forall k o, confirmed c k o -> listed ts (fst k) (oi_blockHeight o) -> listed ts' (fst k) (oi_blockHeight o)) ->
  (forall k s, m_spentTransfers c !! k = Some s -> later ts (fst k) (spendingTransactionHash s) -> later ts' (fst k) (spendingTransactionHash s)) ->
  core_inv tsu' ts' c.
Proof.
  intros HI H1 H2 H3. split; try apply HI.
  - intros k o Ho. destruct (ci_unconfirmed _ _ _ HI k o Ho) as (? & ? & ? & ?). split_and!; [done..|]. apply H1; [eauto|done].
  - intros k o Ho. destruct (ci_confirmed _ _ _ HI k o Ho) as (? & ? & ? & ?). split_and!; [done..|]. by apply H2.
  - intros k s Hs. destruct (ci_spender _ _ _ HI k s Hs). split; [done|by apply H3].
Qed.

Lemma core_inv_insert t ts c : ts_ok ts -> core_inv ts ts c -> core_inv (insert_transaction t ts) (insert_transaction t ts) c.
Proof.
  intros [_ HS] HI. eapply core_inv_mono; [exact HI|intros; by apply listed_insert..|intros; by apply later_insert].
Qed.
Lemma core_inv_erase h ts c : core_inv ts ts c -> forgotten h c -> core_inv (erase_transaction h ts) (erase_transaction h ts) c.
Proof.
  intros HI HF. eapply core_inv_mono; [exact HI| | |].
  - intros k Hk Hl. apply listed_erase; [done|]. by apply (fo_unconfirmed _ _ HF).
  - intros k o Hc Hl. apply listed_erase; [done|]. destruct Hc as [Ha|(s & Hs & _)]; [apply (fo_available _ _ HF); eauto|by eapply (fo_spent _ _ HF)].
  - intros k s Hs Hl. destruct (fo_spent _ _ HF k s Hs). by apply later_erase.
Qed.

(** * Adding a transaction *)

Section Adding.
Context {T : Type} {R : ITransactionReader T}.
Variables (ts : list TransactionInformation) (block : TransactionBlockInfo) (tx : T) (h : list Z).

(** While the transaction [h] is added: none of its outputs is spent, and the
    available ones have the descriptors [ds]. *)
Record adding (ds : list SpentOutputDescriptor) (c : TransfersContainer) : Prop := {
  ad_spent k s : m_spentTransfers c !! k = Some s -> fst k <> h;
  ad_available k o : m_availableTransfers c !! k = Some o -> fst k = h -> descriptor (info o) ∈ ds;
}.
Lemma adding_core ds c c' : same_core c c' -> adding ds c -> adding ds c'.
Proof.
  intros HS HA. split.
  - intros k s Hs. destruct (sub_spent_core _ _ HS k s Hs) as (x & Hx & _). by apply (ad_spent _ _ HA k x).
  - intros k o Ho Hh. destruct (flagless_lookup _ _ _ _ (core_available _ _ HS) Ho) as (x & Hx & E).
    destruct (flagless_parts _ _ E) as (<- & _). by apply (ad_available _ _ HA k x).
Qed.

Lemma update_noop c i c' : inv ts ts c -> update_if_key c i = Ok c' -> inv ts ts c' /\ same_core c c'.
Proof. intros [HI HV]. apply (change_inv ts ts c c i); [done|apply near_refl|done|]. intros k o H; by left. Qed.

Lemma add_unconfirmed_output c o c1 c2 :
  inv ts ts c ->
  oi_transactionHash (info o) = h -> oi_blockHeight o = UNCONFIRMED -> visible o = true ->
  globalOutputIndex (info o) = UNCONFIRMED_TRANSACTION_GLOBAL_OUTPUT_INDEX -> listed ts h UNCONFIRMED ->
  emplace_unconfirmed c o = Ok c1 -> update_if_key c1 (info o) = Ok c2 ->
  inv ts ts c2 /\ frame h c c2 /\ forall ds, adding ds c -> adding ds c2.
Proof.
  intros HI Hh Hb Hv Hg Hl E1 E2. destruct (emplace_unconfirmed_cases _ _ _ E1) as [[Hn ->]| ->].
  - destruct (change_inv ts ts c _ (info o) c2 (proj2 HI) (near_put_unconfirmed _ o c Hn)) as [HI2 HS]; [| |exact E2|].
    + apply core_put_unconfirmed; try done; [apply HI|]. cbn. by rewrite Hh.
    + intros k o' [H|H]; [|left; by right]. cbn in H. apply lookup_insert_Some in H as [[<- <-]|[_ H]]; [by right|left; by left].
    + split_and!; [done| |].
      * eapply frame_trans; [by apply (frame_put_unconfirmed h (getTransactionOutputKey o) o)|by apply frame_same_core].
      * intros ds HA. apply (adding_core ds _ _ HS). split; cbn; apply HA.
  - destruct (update_noop _ _ _ HI E2) as [HI2 HS]. split_and!; [done|by apply frame_same_core|intros ds; by apply adding_core].
Qed.

Lemma add_available_output ds c o c1 c2 :
  inv ts ts c -> adding ds c -> descriptor (info o) ∈ ds ->
  oi_transactionHash (info o) = h -> oi_blockHeight o <> UNCONFIRMED -> visible o = true ->
  globalOutputIndex (info o) <> UNCONFIRMED_TRANSACTION_GLOBAL_OUTPUT_INDEX -> listed ts h (oi_blockHeight o) ->
  make_available age c o = Ok c1 -> update_if_key c1 (info o) = Ok c2 ->
  inv ts ts c2 /\ frame h c c2 /\ adding ds c2.
Proof.
  intros HI HA Hds Hh Hb Hv Hg Hl E1 E2. destruct (make_available_cases ts ts _ _ _ (proj1 HI) E1) as [(Hn & Hm & ->)| ->].
  - destruct (change_inv ts ts c _ (info o) c2 (proj2 HI) (near_put_available _ o c Hn)) as [HI2 HS]; [| |exact E2|].
    + apply core_put_available; try done; [apply HI| |by cbn; rewrite Hh].
      destruct (m_spentTransfers c !! getTransactionOutputKey o) as [s|] eqn:Es; [|done]. by destruct (ad_spent _ _ HA _ _ Es).
    + intros k o' [H|H]; [left; by left|]. apply confirmed_put_available in H as [[-> ->]|H]; [by right|left; by right].
    + split_and!; [done| |].
      * eapply frame_trans; [by apply (frame_put_available h (getTransactionOutputKey o) o)|by apply frame_same_core].
      * apply (adding_core ds _ _ HS). split; cbn; [apply HA|]. intros k o' [[<- <-]|[_ H]]%lookup_insert_Some; [done|by apply HA].
  - destruct (update_noop _ _ _ HI E2) as [HI2 HS]. split_and!; [done|by apply frame_same_core|by eapply adding_core].
Qed.

Lemma addTransactionOutputs_inv ds trs c c' :
  listed ts h (bk_height block) -> inv ts ts c -> adding ds c -> (forall t, t ∈ trs -> bk_height block <> UNCONFIRMED -> descriptor t ∈ ds) ->
  addTransactionOutputs age c block tx h trs = Ok c' -> inv ts ts c' /\ frame h c c' /\ adding ds c'.
Proof.
  intros Hl. revert c. induction trs as [|t trs IH]; intros c HI HA Hds E; cbn [addTransactionOutputs] in E.
  { injection E as <-. split_and!; [done|apply frame_refl|done]. }
  do 3 apply bind_Ok in E as (_ & _ & E).
  destruct (Bool.eqb (bk_height block =? UNCONFIRMED) (globalOutputIndex t =? UNCONFIRMED_TRANSACTION_GLOBAL_OUTPUT_INDEX)) eqn:Eb; [|done].
  apply eqb_prop in Eb. cbn [negb] in E. apply bind_Ok in E as (c1 & E1 & E). apply bind_Ok in E as (c2 & E2 & E).
  set (o := {| info := set_hash t h; oi_unlockTime := getUnlockTime tx; oi_blockHeight := bk_height block;
               oi_transactionIndex := bk_transactionIndex block; visible := true |}) in *.
  assert (HO : inv ts ts c2 /\ frame h c c2 /\ adding ds c2).
  { destruct (Z.eqb_spec (bk_height block) UNCONFIRMED) as [Hb|Hb]; rewrite <- Eb in E1; symmetry in Eb.
    - apply Z.eqb_eq in Eb. destruct (add_unconfirmed_output c o c1 c2) as (? & ? & HA2); try done; [by rewrite <- Hb|].
      split_and!; [done|done|by apply HA2].
    - apply Z.eqb_neq in Eb. apply (add_available_output ds c o c1 c2); try done. change (descriptor (info o)) with (descriptor t).
      apply Hds; [by left|done]. }
  destruct HO as (HI2 & HF2 & HA2). destruct (IH c2 HI2 HA2) as (HI' & HF' & HA'); [intros u Hu; apply Hds; by right|exact E|].
  split_and!; [done|by eapply frame_trans|done].
Qed.

(** The transaction does not spend its own outputs. *)
Definition no_self_spend (ds : list SpentOutputDescriptor) : Prop :=
  (forall i input, getInput_Key tx i = Ok input -> image (keyImage input) ∉ ds) /\
  (forall i input, getInput_Multisignature tx i = Ok input -> DescriptorMultisignature (mi_amount input) (outputIndex input) ∉ ds).

Lemma spent_one ds c k s c' :
  inv ts ts c -> adding ds c -> m_availableTransfers c !! k = Some (spent_output s) -> spendingTransactionHash s = h -> fst k <> h ->
  same_core (put_spent k s (drop_available k c)) c' -> frame h c c' /\ adding ds c'.
Proof.
  intros HI HA Ha Hs Hn HS. split.
  - eapply frame_trans; [|by apply frame_same_core]. apply frame_spend; [done| |done]. by apply (ci_disjoint _ _ _ (proj1 HI) k _ Ha).
  - apply (adding_core ds _ _ HS). split; cbn.
    + intros k' s' [[<- <-]|[_ H]]%lookup_insert_Some; [done|by apply (ad_spent _ _ HA k' s')].
    + intros k' o' [_ H]%lookup_delete_Some. by apply HA.
Qed.

Lemma add_input_inv ds c i b c' :
  (forall h' z, listed ts h' z -> h' <> h -> z <> UNCONFIRMED -> later ts h' h) -> no_self_spend ds ->
  inv ts ts c -> adding ds c -> add_input c block tx h i = Ok (b, c') -> inv ts ts c' /\ frame h c c' /\ adding ds c'.
Proof.
  intros Hord [Hk Hm] HI HA E.
  assert (HD : forall k o d, d ∉ ds -> m_availableTransfers c !! k = Some o -> descriptor (info o) = d -> fst k <> h /\ later ts (fst k) h).
  { intros k o d Hd Ho Ed. assert (Hn : fst k <> h) by (intros Hh; destruct Hd; rewrite <- Ed; by eapply ad_available).
    split; [done|]. destruct (ci_confirmed _ _ _ (proj1 HI) k o (or_introl Ho)) as (_ & H1 & _ & H2). by eapply Hord. }
  assert (HR : c' = c \/ exists k s, m_availableTransfers c !! k = Some (spent_output s) /\ spendingTransactionHash s = h /\ fst k <> h /\
    inv ts ts c' /\ same_core (put_spent k s (drop_available k c)) c').
  { unfold add_input in E. apply bind_Ok in E as (ty & _ & E). destruct ty.
    - apply bind_Ok in E as (_ & _ & [= _ <-]). by left.
    - apply bind_Ok in E as (input & Hin & E). pose proof (Hk _ _ Hin) as Hds.
      destruct (add_key_input_inv ts ts c block h i input b c' HI) as [->|(k & s & Ha & Hs & Hd & HI' & HS)]; [|exact E|by left|].
      { intros k o Ho Ed. by eapply HD. }
      right. exists k, s. split_and!; try done. by eapply HD.
    - apply bind_Ok in E as (input & Hin & E). pose proof (Hm _ _ Hin) as Hds.
      destruct (add_multisignature_input_inv ts ts c block h i input b c' HI) as [->|(k & s & Ha & Hs & Hd & HI' & HS)]; [|exact E|by left|].
      { intros k o Ho Ed. by eapply HD. }
      right. exists k, s. split_and!; try done. by eapply HD.
    - apply bind_Ok in E as (_ & _ & [= _ <-]). by left. }
  destruct HR as [->|(k & s & Ha & Hs & Hn & HI' & HS)]; [split_and!; [done|apply frame_refl|done]|].
  destruct (spent_one ds c k s c' HI HA Ha Hs Hn HS). done.
Qed.

Lemma addTransactionInputs_inv ds n c i b b' c' :
  (forall h' z, listed ts h' z -> h' <> h -> z <> UNCONFIRMED -> later ts h' h) -> no_self_spend ds ->
  inv ts ts c -> adding ds c -> addTransactionInputs n c block tx h i b = Ok (b', c') -> inv ts ts c' /\ frame h c c'.
Proof.
  intros Hord Hns. revert c i b. induction n as [|n IH]; intros c i b HI HA E; cbn [addTransactionInputs] in E.
  { injection E as _ <-. split; [done|apply frame_refl]. }
  apply bind_Ok in E as ([added c1] & E1 & E). destruct (add_input_inv ds c i added c1 Hord Hns HI HA E1) as (HI1 & HF1 & HA1).
  destruct (IH _ _ _ HI1 HA1 E) as [HI' HF']. split; [done|by eapply frame_trans].
Qed.
End Adding.

Definition container_inv (c : TransfersContainer) : Prop :=
  ts_ok (m_transactions c) /\ inv (m_transactions c) (m_transactions c) c.

Lemma inv_with_transactions tsu ts l c : inv tsu ts c -> inv tsu ts (with_transactions l c).
Proof. intros [[] []]. split; by split. Qed.
Lemma inv_with_height tsu ts z c : inv tsu ts c -> inv tsu ts (with_height z c).
Proof. intros [[] []]. split; by split. Qed.

Lemma find_transaction_None h ts : find_transaction h ts = None -> h ∉ map tx_hash ts.
Proof.
  unfold find_transaction. intros E (t & -> & Ht)%list_elem_of_fmap.
  assert (Hi : In t (List.filter (fun u => bool_decide (tx_hash u = tx_hash t)) ts)).
  { apply filter_In. split; [by apply list_elem_of_In|by apply bool_decide_true]. }
  by destruct (List.filter _ ts).
Qed.
Lemma find_transaction_None_iff h ts : find_transaction h ts = None <-> h ∉ map tx_hash ts.
Proof.
  split; [apply find_transaction_None|]. intros Hn. destruct (find_transaction h ts) as [t|] eqn:E; [|done]. destruct Hn.
  unfold find_transaction in E. destruct (List.filter _ ts) as [|u l] eqn:Ef; [done|]. injection E as ->.
  assert (Hi : In t (List.filter (fun u => bool_decide (tx_hash u = h)) ts)) by (rewrite Ef; by left).
  apply filter_In in Hi as [Hi Hd]. apply bool_decide_eq_true in Hd. apply list_elem_of_fmap. exists t. by rewrite list_elem_of_In.
Qed.
Lemma find_transaction_Some h ts t : find_transaction h ts = Some t -> t ∈ ts /\ tx_hash t = h.
Proof.
  unfold find_transaction. destruct (List.filter _ ts) as [|u l] eqn:E; [done|]. cbn. intros [= ->].
  assert (Hi : In t (List.filter (fun u => bool_decide (tx_hash u = h)) ts)) by (rewrite E; by left).
  apply filter_In in Hi as [Hi Hd]. split; [by apply list_elem_of_In|by apply bool_decide_eq_true in Hd].
Qed.
Lemma inserted_elem t u ts : u ∈ insert_transaction t ts -> StronglySorted (fun t u => tx_blockHeight t <= tx_blockHeight u) ts -> u = t \/ u ∈ ts.
Proof.
  intros Hu HS. destruct (insert_split t ts HS) as (l1 & l2 & E0 & E1 & _). rewrite E1 in Hu. rewrite E0, elem_of_app.
  apply elem_of_app in Hu as [?|[?|?]%elem_of_cons]; tauto.
Qed.
Lemma listed_elem ts h z : listed ts h z -> h ∈ map tx_hash ts.
Proof. intros (t & Ht & <- & _). apply list_elem_of_fmap. eauto. Qed.

Lemma fresh_adding h ds ts c : inv ts ts c -> h ∉ map tx_hash ts -> adding h ds c.
Proof.
  intros [HI _] Hf. split.
  - intros k s Hs <-. destruct (ci_confirmed _ _ _ HI k (spent_output s)) as (_ & _ & _ & H%listed_elem); [right; eauto|done].
  - intros k o Ho <-. destruct (ci_confirmed _ _ _ HI k o (or_introl Ho)) as (_ & _ & _ & H%listed_elem). done.
Qed.

Section AddTransaction.
Context {T : Type} {R : ITransactionReader T}.

Lemma add_input_false c block tx h i c' : add_input (T := T) c block tx h i = Ok (false, c') -> c' = c.
Proof.
  unfold add_input, add_key_input, add_multisignature_input. intros E. apply bind_Ok in E as (ty & _ & E). destruct ty.
  - by apply bind_Ok in E as (_ & _ & [= <-]).
  - apply bind_Ok in E as (input & _ & E). destruct (spent_by_descriptor _ _); [|done]. destruct (by_descriptor _ _).
    + destruct (by_descriptor _ _); [by injection E as <-|done].
    + destruct (findFirstByAmount _ _) as [[]|]; [|done]. apply bind_Ok in E as (_ & _ & E). apply bind_Ok in E as (? & _ & E).
      by apply bind_Ok in E as (? & _ & [=]).
  - apply bind_Ok in E as (input & _ & E). destruct (by_descriptor _ _) as [|[]]; [by injection E as <-|].
    by apply bind_Ok in E as (? & _ & [=]).
  - by apply bind_Ok in E as (_ & _ & [= <-]).
Qed.
Lemma addTransactionInputs_false n c block tx h i b c' :
  addTransactionInputs (T := T) n c block tx h i b = Ok (false, c') -> c' = c /\ b = false.
Proof.
  revert c i b. induction n as [|n IH]; intros c i b E; cbn [addTransactionInputs] in E; [by injection E as -> <-|].
  apply bind_Ok in E as ([added c1] & E1 & E). destruct (IH _ _ _ E) as [-> [-> ->]%orb_false_iff]. by apply add_input_false in E1 as ->.
Qed.

(** Blocks arrive in order: no transaction of the container is above [block]. *)
Definition in_order (c : TransfersContainer) (block : TransactionBlockInfo) : Prop :=
  forall t, t ∈ m_transactions c -> tx_blockHeight t <> UNCONFIRMED -> tx_blockHeight t <= bk_height block.

(** The descriptors of the outputs that become available. *)
Definition new_descriptors (block : TransactionBlockInfo) (trs : list TransactionOutputInformationIn) : list SpentOutputDescriptor :=
  if bk_height block =? UNCONFIRMED then [] else map descriptor trs.

(** The entry of the transaction in the container. *)
Definition entry (block : TransactionBlockInfo) (tx : T) (h : list Z) (messages : list (list Z)) : TransactionInformation :=
  {| tx_hash := h; tx_publicKey := getTransactionPublicKey tx; tx_blockHeight := bk_height block;
     tx_timestamp := bk_timestamp block; tx_unlock := getUnlockTime tx; totalAmountIn := getInputTotalAmount tx;
     totalAmountOut := getOutputTotalAmount tx; info_extra := getExtra tx;
     paymentId := default NULL_HASH (getPaymentId tx); info_messages := messages |}.

Lemma addTransaction_spec c block tx trs messages added l c' h :
  container_inv c -> in_order c block -> no_self_spend tx (new_descriptors block trs) -> getTransactionHash tx = Ok h ->
  addTransaction age c block tx trs messages = Ok (added, l, c') ->
  h ∉ map tx_hash (m_transactions c) /\
  exists c2, c' = (if bk_height block =? UNCONFIRMED then c2 else with_height (bk_height block) c2) /\
    if added : bool
    then exists c1, c2 = with_transactions (insert_transaction (entry block tx h messages) (m_transactions c)) c1 /\ frame h c c1 /\
      inv (insert_transaction (entry block tx h messages) (m_transactions c)) (insert_transaction (entry block tx h messages) (m_transactions c)) c1
    else c2 = c.
Proof.
  intros [HT HI] Hord Hns Hh E. unfold addTransaction in E. case_in E; [done|]. rewrite Hh in E. cbn [mbind outcome_bind] in E.
  destruct (find_transaction h (m_transactions c)) eqn:Ef; [done|]. apply find_transaction_None in Ef. split; [done|].
  apply bind_Ok in E as (ca & Ea & E). apply bind_Ok in E as ([b cb] & Eb & E). apply bind_Ok in E as (c2 & Ec & E).
  exists c2. assert (HE : b = added /\ c' = (if bk_height block =? UNCONFIRMED then c2 else with_height (bk_height block) c2)).
  { destruct (bk_height block =? UNCONFIRMED); cbn [negb] in E; [by injection E as -> <- <-|].
    unfold doAdvanceHeight in E. apply bind_Ok in E as ([l2 c3] & E3 & E). injection E as -> <- <-. case_in E3; [done|].
    apply bind_Ok in E3 as (? & _ & [= _ <-]). done. }
  destruct HE as [-> ->]. split; [done|]. destruct added.
  - set (t := entry block tx h messages). set (ts := insert_transaction t (m_transactions c)).
    assert (HIts : inv ts ts c) by (split; [apply core_inv_insert; [done|apply HI]|apply HI]).
    destruct (addTransactionOutputs_inv (T := T) ts block tx h (new_descriptors block trs) trs c ca) as (HIa & HFa & HAa); [|done| | |exact Ea|].
    + apply (listed_inserted t), HT.
    + eapply fresh_adding; [exact HI|done].
    + intros u Hu Hb. unfold new_descriptors. rewrite (proj2 (Z.eqb_neq _ _) Hb). apply list_elem_of_fmap. eauto.
    + assert (HL : forall h' z, listed ts h' z -> h' <> h -> z <> UNCONFIRMED -> later ts h' h).
      { intros h' z (u & Hu & <- & <-) Hn Hz. apply inserted_elem in Hu as [->|Hu]; [done| |apply HT].
        apply (insert_later t _ _ (tx_blockHeight u)); [apply HT|by exists u|by apply Hord]. }
      destruct (addTransactionInputs_inv ts block tx h _ _ _ _ _ _ _ HL Hns HIa HAa Eb) as [HIb HFb].
      unfold add_transaction_info in Ec. rewrite Hh in Ec. cbn [mbind outcome_bind] in Ec.
      rewrite (fr_transactions _ _ _ HFb), (fr_transactions _ _ _ HFa), (proj2 (find_transaction_None_iff _ _) Ef) in Ec.
      injection Ec as <-. exists cb. split_and!; [done|by eapply frame_trans|done].
  - apply addTransactionInputs_false in Eb as [-> Hb]. injection Ec as <-. destruct trs; [|done]. by injection Ea as <-.
Qed.
End AddTransaction.

(** * The flags are determined by the rest *)

Lemma has_flagless d m m' : same_flagless m m' -> same_flagless (has_descriptor d m) (has_descriptor d m').
Proof.
  intros H. unfold same_flagless. apply map_eq. intros k. rewrite !lookup_fmap, !has_lookup.
  pose proof (flagless_fmap _ _ k H) as E. destruct (m !! k) as [o|], (m' !! k) as [o'|]; try done. cbn -[descriptor_matches] in *.
  assert (info o = info o') as Ei by by injection E. rewrite Ei. by destruct (descriptor_matches d (info o')).
Qed.
Lemma spent_has_size d m m' : same_spent_flagless m m' -> base.size (spent_has_descriptor d m) = base.size (spent_has_descriptor d m').
Proof.
  intros H. assert (E : set_spent_visible true <$> spent_has_descriptor d m = set_spent_visible true <$> spent_has_descriptor d m').
  { apply map_eq. intros k. rewrite !lookup_fmap, !spent_has_lookup. pose proof (spent_flagless_fmap _ _ k H) as E.
    destruct (m !! k) as [s|] eqn:Em, (m' !! k) as [s'|] eqn:Em'; try done. cbn -[descriptor_matches set_spent_visible] in *.
    assert (Es : set_spent_visible true s = set_spent_visible true s') by congruence.
    destruct (spent_flagless_parts _ _ Es) as [Eo _]. destruct (flagless_parts _ _ Eo) as (Ei & _). rewrite Ei.
    destruct (descriptor_matches d (info (spent_output s'))); cbn -[set_spent_visible]; congruence. }
  apply (f_equal base.size) in E. by rewrite !map_size_fmap in E.
Qed.

Lemma set_visible_eq o o' : set_visible true o = set_visible true o' -> visible o = visible o' -> o = o'.
Proof. destruct o, o'. cbn. intros [= -> -> -> ->] ->. done. Qed.

(** The flag of a transfer among the transfers of its key image. *)
Lemma image_of i : type i = OutputTypeKey -> descriptor_matches (image (oi_keyImage i)) i = true.
Proof. intros Ht. apply matches_image. unfold descriptor. by rewrite Ht. Qed.

Lemma type_key_dec (i : TransactionOutputInformationIn) : {type i = OutputTypeKey} + {type i <> OutputTypeKey}.
Proof. destruct (decide (type i = OutputTypeKey)); auto. Qed.

Section Determined.
Variables c c' : TransfersContainer.
Hypotheses (HV : vis_inv c) (HV' : vis_inv c') (Hu : same_flagless (m_unconfirmedTransfers c') (m_unconfirmedTransfers c))
  (Ha : same_flagless (m_availableTransfers c') (m_availableTransfers c)) (Hs : same_spent_flagless (m_spentTransfers c') (m_spentTransfers c)).

Lemma determined_unconfirmed : m_unconfirmedTransfers c' = m_unconfirmedTransfers c.
Proof.
  apply map_eq. intros k. pose proof (flagless_fmap _ _ k Hu) as E.
  destruct (m_unconfirmedTransfers c' !! k) as [o'|] eqn:Eo', (m_unconfirmedTransfers c !! k) as [o|] eqn:Eo; try done.
  change (Some (set_visible true o') = Some (set_visible true o)) in E. f_equal. apply set_visible_eq; [congruence|].
  assert (Ei : info o' = info o) by (apply flagless_parts; congruence).
  destruct (type_key_dec (info o)) as [Ht|Ht].
  - pose proof (image_of _ Ht) as Hk. set (ki := oi_keyImage (info o)) in *. destruct (vi_images _ HV ki) as (_ & _ & H), (vi_images _ HV' ki) as (_ & _ & H').
    rewrite (H k o), (H' k o').
    + by rewrite (spent_has_size _ _ _ Hs), (same_flagless_size _ _ (has_flagless (image ki) _ _ Ha)), (same_flagless_size _ _ (has_flagless (image ki) _ _ Hu)).
    + rewrite has_lookup, Eo'. cbn -[descriptor_matches]. by rewrite Ei, Hk.
    + rewrite has_lookup, Eo. cbn -[descriptor_matches]. by rewrite Hk.
  - rewrite (vi_others _ HV k o), (vi_others _ HV' k o'); [done|by left|by rewrite Ei|by left|done].
Qed.

Lemma determined_available : m_availableTransfers c' = m_availableTransfers c.
Proof.
  apply map_eq. intros k. pose proof (flagless_fmap _ _ k Ha) as E.
  destruct (m_availableTransfers c' !! k) as [o'|] eqn:Eo', (m_availableTransfers c !! k) as [o|] eqn:Eo; try done.
  change (Some (set_visible true o') = Some (set_visible true o)) in E. f_equal. apply set_visible_eq; [congruence|].
  assert (Ei : info o' = info o) by (apply flagless_parts; congruence).
  destruct (type_key_dec (info o)) as [Ht|Ht].
  - pose proof (image_of _ Ht) as Hk. set (ki := oi_keyImage (info o)) in *. destruct (vi_images _ HV ki) as (_ & H & _), (vi_images _ HV' ki) as (_ & H' & _).
    rewrite (H k o), (H' k o').
    + by rewrite (spent_has_size _ _ _ Hs), (earliest_flagless _ _ (has_flagless (image ki) _ _ Ha)).
    + rewrite has_lookup, Eo'. cbn -[descriptor_matches]. by rewrite Ei, Hk.
    + rewrite has_lookup, Eo. cbn -[descriptor_matches]. by rewrite Hk.
  - rewrite (vi_others _ HV k o), (vi_others _ HV' k o'); [done|right; by left|by rewrite Ei|right; by left|done].
Qed.

Lemma determined_spent : m_spentTransfers c' = m_spentTransfers c.
Proof.
  apply map_eq. intros k. pose proof (spent_flagless_fmap _ _ k Hs) as E.
  destruct (m_spentTransfers c' !! k) as [s'|] eqn:Eo', (m_spentTransfers c !! k) as [s|] eqn:Eo; try done.
  change (Some (set_spent_visible true s') = Some (set_spent_visible true s)) in E. f_equal.
  assert (Es : set_spent_visible true s' = set_spent_visible true s) by congruence.
  destruct (spent_flagless_parts _ _ Es) as [Eout _].
  assert (Ei : info (spent_output s') = info (spent_output s)) by by apply flagless_parts.
  assert (Ev : visible (spent_output s') = visible (spent_output s)).
  { destruct (type_key_dec (info (spent_output s))) as [Ht|Ht].
    - pose proof (image_of _ Ht) as Hk. set (ki := oi_keyImage (info (spent_output s))) in *. destruct (vi_images _ HV ki) as (H & _), (vi_images _ HV' ki) as (H' & _).
      rewrite (H k s), (H' k s'); [done| |].
      + rewrite spent_has_lookup, Eo'. cbn -[descriptor_matches]. by rewrite Ei, Hk.
      + rewrite spent_has_lookup, Eo. cbn -[descriptor_matches]. by rewrite Hk.
    - rewrite (vi_others _ HV k (spent_output s)), (vi_others _ HV' k (spent_output s')); [done|right; right; eauto|by rewrite Ei|right; right; eauto|done]. }
  pose proof (set_visible_eq _ _ Eout Ev) as Eo2. destruct s, s'. cbn in *. subst. by injection Es as -> -> ->.
Qed.
End Determined.
End Invariant.
