(* ===== verification/TransfersTheory.v ===== *)
(** What the wallet can rely on in [TransfersContainer]: the invariant holds in
    every state, adding and deleting an unconfirmed transaction cancel out,
    detaching blocks leaves nothing of them, and no key image is counted twice in
    a balance. *)
From S2P Require Import Prelude CryptoNote Currency TransactionApi TransfersContainer TransfersInvariant.

Section Theory.
Context {B : BuildConfig}.
Variable age : Z.

(** * Deleting an unconfirmed transaction *)

Lemma listed_unique ts h z z' : NoDup (map tx_hash ts) -> listed ts h z -> listed ts h z' -> z = z'.
Proof.
  intros HN (t & Ht & <- & <-) (u & Hu & E & <-). f_equal.
  apply list_elem_of_lookup in Ht as [i Hi], Hu as [j Hj].
  assert (i = j) as <-.
  { eapply (NoDup_lookup _ i j (tx_hash t) HN); rewrite list_lookup_fmap; [by rewrite Hi|by rewrite Hj; cbn; rewrite E]. }
  congruence.
Qed.

(** The outputs of an unconfirmed transaction are not spent. *)
Lemma unconfirmed_unspent c t :
  container_inv age c -> t ∈ m_transactions c -> tx_blockHeight t = UNCONFIRMED ->
  forall k s, m_spentTransfers c !! k = Some s -> fst k <> tx_hash t.
Proof.
  intros [[HN _] [HI _]] Ht Hu k s Hs E. destruct (ci_confirmed _ _ _ _ HI k (spent_output s)) as (_ & H1 & _ & H2); [right; eauto|].
  destruct H1. rewrite E in H2. eapply listed_unique; [exact HN|exact H2|]. by exists t.
Qed.

Lemma deleteUnconfirmedTransaction_spec c h t :
  container_inv age c -> find_transaction h (m_transactions c) = Some t -> tx_blockHeight t = UNCONFIRMED ->
  exists c1, deleteUnconfirmedTransaction age c h = Ok (true, with_transactions (erase_transaction h (m_transactions c)) c1) /\
    frame h c c1 /\ forgotten h c1 /\ inv age (m_transactions c) (m_transactions c) c1.
Proof.
  intros HC Ef Hu. destruct (find_transaction_Some _ _ _ Ef) as [Ht <-].
  destruct (deleteTransactionTransfers_spec age _ _ c (tx_hash t) (proj2 HC)) as (c1 & E1 & HI1 & HF1 & _ & HG).
  { by apply unconfirmed_unspent. }
  exists c1. split_and!; try done. unfold deleteUnconfirmedTransaction. rewrite Ef, Hu. cbn [negb Z.eqb]. rewrite Z.eqb_refl. cbn [negb].
  rewrite E1. cbn [mbind outcome_bind]. by rewrite (fr_transactions _ _ _ HF1).
Qed.

(** * Adding and deleting cancel out *)

Lemma fresh_forgotten h c : container_inv age c -> h ∉ map tx_hash (m_transactions c) -> forgotten h c.
Proof.
  intros [_ [HI _]] Hf. split.
  - intros k [o Ho] <-. destruct (ci_unconfirmed _ _ _ _ HI k o Ho) as (_ & _ & _ & H%listed_elem). done.
  - intros k [o Ho] <-. destruct (ci_confirmed _ _ _ _ HI k o (or_introl Ho)) as (_ & _ & _ & H%listed_elem). done.
  - intros k s Hs. split.
    + intros <-. destruct (ci_confirmed _ _ _ _ HI k (spent_output s)) as (_ & _ & _ & H%listed_elem); [right; eauto|done].
    + intros <-. destruct (ci_spender _ _ _ _ HI k s Hs) as (_ & l1 & l2 & E & _ & H2). destruct Hf. rewrite E, map_app. apply elem_of_app. by right.
Qed.

(** Without [h] nothing is undone. *)
Lemma forgotten_undo h c : forgotten h c -> forall k,
  undo_u h c k = set_visible true <$> m_unconfirmedTransfers c !! k /\
  undo_a h c k = set_visible true <$> m_availableTransfers c !! k /\
  undo_s h c k = set_spent_visible true <$> m_spentTransfers c !! k.
Proof.
  intros HF k. unfold undo_u, undo_a, undo_s. split_and!.
  - destruct (decide (fst k = h)) as [E|]; [|done]. destruct (m_unconfirmedTransfers c !! k) eqn:Eo; [|done].
    by destruct (fo_unconfirmed _ _ HF k); [rewrite Eo; eauto|].
  - destruct (decide (fst k = h)) as [E|].
    + destruct (m_availableTransfers c !! k) eqn:Eo; [|done]. by destruct (fo_available _ _ HF k); [rewrite Eo; eauto|].
    + destruct (m_availableTransfers c !! k); [done|]. destruct (m_spentTransfers c !! k) as [s|] eqn:Es; [|done]. cbn.
      rewrite decide_False; [done|]. by eapply fo_spent.
  - destruct (m_spentTransfers c !! k) as [s|] eqn:Es; [|done]. cbn. rewrite decide_False; [done|]. by eapply fo_spent.
Qed.

Lemma erase_insert t ts : StronglySorted (fun t u => tx_blockHeight t <= tx_blockHeight u) ts -> tx_hash t ∉ map tx_hash ts ->
  erase_transaction (tx_hash t) (insert_transaction t ts) = ts.
Proof.
  intros HS Hf. destruct (insert_split t ts HS) as (l1 & l2 & -> & -> & _). unfold erase_transaction. rewrite List.filter_app. cbn.
  rewrite bool_decide_true by done. cbn.
  assert (HF : forall l, tx_hash t ∉ map tx_hash l -> List.filter (fun u => negb (bool_decide (tx_hash u = tx_hash t))) l = l).
  { induction l as [|u l IH]; intros Hn; [done|]. cbn in *. apply not_elem_of_cons in Hn as [H1 H2]. rewrite bool_decide_false by congruence. cbn. by rewrite IH. }
  rewrite map_app, not_elem_of_app in Hf. destruct Hf. by rewrite !HF.
Qed.

Lemma find_inserted t ts : StronglySorted (fun t u => tx_blockHeight t <= tx_blockHeight u) ts -> tx_hash t ∉ map tx_hash ts ->
  find_transaction (tx_hash t) (insert_transaction t ts) = Some t.
Proof.
  intros HS Hf. destruct (insert_split t ts HS) as (l1 & l2 & -> & -> & _). unfold find_transaction. rewrite List.filter_app. cbn.
  rewrite bool_decide_true by done. rewrite map_app, not_elem_of_app in Hf. destruct Hf as [Hf _].
  replace (List.filter (fun u => bool_decide (tx_hash u = tx_hash t)) l1) with (@nil TransactionInformation); [done|].
  clear HS. induction l1 as [|u l1 IH]; [done|]. cbn in *. apply not_elem_of_cons in Hf as [H1 H2]. rewrite bool_decide_false by congruence.
  by apply IH.
Qed.

(** Two containers that agree once [h] is taken away and do not know [h] are
    equal: the flags and the jobs are determined by the transfers. *)
Lemma restored h ts c c3 :
  container_inv age c -> forgotten h c -> forgotten h c3 -> inv age ts ts c3 ->
  (forall k, undo_u h c3 k = undo_u h c k) -> (forall k, undo_a h c3 k = undo_a h c k) -> (forall k, undo_s h c3 k = undo_s h c k) ->
  m_currentHeight c3 = m_currentHeight c -> with_transactions (m_transactions c) c3 = c.
Proof.
  intros [_ [HI HV]] HF HF3 [HI3 HV3] Eu Ea Es Eh.
  assert (Fu : same_flagless (m_unconfirmedTransfers c3) (m_unconfirmedTransfers c)).
  { apply map_eq. intros k. rewrite !lookup_fmap. destruct (forgotten_undo h c HF k) as [<- _], (forgotten_undo h c3 HF3 k) as [<- _]. apply Eu. }
  assert (Fa : same_flagless (m_availableTransfers c3) (m_availableTransfers c)).
  { apply map_eq. intros k. rewrite !lookup_fmap. destruct (forgotten_undo h c HF k) as (_ & <- & _), (forgotten_undo h c3 HF3 k) as (_ & <- & _). apply Ea. }
  assert (Fs : same_spent_flagless (m_spentTransfers c3) (m_spentTransfers c)).
  { apply map_eq. intros k. rewrite !lookup_fmap. destruct (forgotten_undo h c HF k) as (_ & _ & <-), (forgotten_undo h c3 HF3 k) as (_ & _ & <-). apply Es. }
  pose proof (determined_unconfirmed age c c3 HV HV3 Fu Fa Fs) as D1. pose proof (determined_available age c c3 HV HV3 Fa Fs) as D2.
  pose proof (determined_spent age c c3 HV HV3 Fs) as D3.
  assert (D4 : m_transfersUnlockJobs c3 = m_transfersUnlockJobs c).
  { apply map_eq. intros k. by rewrite (ci_jobs _ _ _ _ HI3), (ci_jobs _ _ _ _ HI), D2. }
  destruct c, c3. cbn in *. unfold with_transactions. cbn. congruence.
Qed.

(** C17.  Receiving an unconfirmed transaction and deleting it again leaves the
    wallet exactly as it was: every container, every visibility flag, every
    unlock job and the list of transactions. *)
Theorem unconfirmed_roundtrip {T} `{ITransactionReader T} (c c' : TransfersContainer) (block : TransactionBlockInfo) (tx : T)
    (trs l : list TransactionOutputInformationIn) (messages : list (list Z)) (h : list Z) :
  container_inv age c -> in_order c block -> bk_height block = UNCONFIRMED -> getTransactionHash tx = Ok h ->
  addTransaction age c block tx trs messages = Ok (true, l, c') ->
  deleteUnconfirmedTransaction age c' h = Ok (true, c).
Proof.
  intros HC Hord Hb Hh E.
  destruct (addTransaction_spec age c block tx trs messages true l c' h HC Hord) as (Hf & c2 & E2 & c1 & E1 & HF1 & HI1); [|done..|].
  { unfold new_descriptors. rewrite Hb. split; intros; apply not_elem_of_nil. }
  rewrite Hb in E2. cbn in E2. subst c' c2. set (t := entry block tx h messages) in *. pose proof HC as [[HN HS] _].
  assert (HC' : container_inv age (with_transactions (insert_transaction t (m_transactions c)) c1)).
  { split; [by apply ts_ok_insert|by apply inv_with_transactions]. }
  destruct (deleteUnconfirmedTransaction_spec _ h t HC') as (c3 & -> & HF3 & HG & HI3); [by apply (find_inserted t)|done|].
  cbn [m_transactions with_transactions]. pose proof (erase_insert t _ HS Hf) as Ee.
  change (tx_hash t) with h in Ee. rewrite Ee. do 2 f_equal.
  eapply restored; [exact HC|by apply fresh_forgotten|exact HG|exact HI3| | | |].
  - intros k. by rewrite (fr_unconfirmed _ _ _ HF3), <- (fr_unconfirmed _ _ _ HF1).
  - intros k. by rewrite (fr_available _ _ _ HF3), <- (fr_available _ _ _ HF1).
  - intros k. by rewrite (fr_spent _ _ _ HF3), <- (fr_spent _ _ _ HF1).
  - by rewrite (fr_height _ _ _ HF3), <- (fr_height _ _ _ HF1).
Qed.

(** * Detaching blocks *)

(** Whoever spends an output of [t] comes after [t]. *)
Lemma spender_after c l1 t kept k s :
  container_inv age c -> m_transactions c = l1 ++ t :: kept -> m_spentTransfers c !! k = Some s -> fst k = tx_hash t ->
  spendingTransactionHash s ∈ map tx_hash kept.
Proof.
  intros [[HN _] [HI _]] E Hs Hk. destruct (ci_spender _ _ _ _ HI k s Hs) as (_ & a & b & Eab & Ha & Hb). rewrite Hk in Ha. clear HI.
  rewrite E in *. rewrite map_app, NoDup_app in HN. destruct HN as (_ & Hd & _).
  assert (Ht : tx_hash t ∉ map tx_hash l1) by (intros H; apply (Hd _ H); by left).
  apply app_eq_app in Eab as (d & [[-> E2]|[-> E2]]).
  - destruct Ht. rewrite map_app. apply elem_of_app. by left.
  - destruct d as [|u d]; [by rewrite app_nil_r in Ha|]. cbn in E2. injection E2 as <- ->. rewrite map_app. apply elem_of_app. by right.
Qed.

Lemma erase_middle l1 t l2 : NoDup (map tx_hash (l1 ++ t :: l2)) -> erase_transaction (tx_hash t) (l1 ++ t :: l2) = l1 ++ l2.
Proof.
  intros HN. unfold erase_transaction. rewrite List.filter_app. cbn. rewrite bool_decide_true by done. cbn.
  assert (HF : forall l, tx_hash t ∉ map tx_hash l -> List.filter (fun u => negb (bool_decide (tx_hash u = tx_hash t))) l = l).
  { induction l as [|u l IH]; intros Hn; [done|]. cbn in *. apply not_elem_of_cons in Hn as [H1 H2]. rewrite bool_decide_false by congruence. cbn. by rewrite IH. }
  rewrite map_app, NoDup_app in HN. destruct HN as (_ & Hd & HN). cbn in HN. apply NoDup_cons in HN as [H2 _].
  rewrite !HF; [done|done|]. intros H. apply (Hd _ H). by left.
Qed.

(** ** What is left without some transactions *)

(** The transfers of [c], up to their flags, without the transactions [D]: the
    outputs of these are gone, and what they spent is available again. *)
Definition unconfirmed_without (D : list (list Z)) (c : TransfersContainer) (k : TransactionOutputKey) : option TransactionOutputInformationEx :=
  if decide (fst k ∈ D) then None else set_visible true <$> m_unconfirmedTransfers c !! k.
Definition spent_without (D : list (list Z)) (c : TransfersContainer) (k : TransactionOutputKey) : option SpentTransactionOutput :=
  s ← m_spentTransfers c !! k; if decide (spendingTransactionHash s ∈ D) then None else Some (set_spent_visible true s).
Definition available_without (D : list (list Z)) (c : TransfersContainer) (k : TransactionOutputKey) : option TransactionOutputInformationEx :=
  if decide (fst k ∈ D) then None else
  match m_availableTransfers c !! k with
  | Some o => Some (set_visible true o)
  | None => s ← m_spentTransfers c !! k;
            if decide (spendingTransactionHash s ∈ D) then Some (set_visible true (spent_output s)) else None
  end.
Definition without (D : list (list Z)) (c c' : TransfersContainer) : Prop :=
  forall k, set_visible true <$> m_unconfirmedTransfers c' !! k = unconfirmed_without D c k /\
            set_visible true <$> m_availableTransfers c' !! k = available_without D c k /\
            set_spent_visible true <$> m_spentTransfers c' !! k = spent_without D c k.

Lemma without_none c : without [] c c.
Proof.
  intros k. unfold unconfirmed_without, available_without, spent_without. rewrite decide_False by apply not_elem_of_nil. split_and!; [done| |].
  - destruct (m_availableTransfers c !! k); [done|]. destruct (m_spentTransfers c !! k); [|done]. cbn. by rewrite decide_False by apply not_elem_of_nil.
  - destruct (m_spentTransfers c !! k); [|done]. cbn -[set_spent_visible]. by rewrite decide_False by apply not_elem_of_nil.
Qed.

(** Deleting [h] and then [D]. *)
Lemma without_cons h D c c2 c' : frame h c c2 -> forgotten h c2 -> without D c2 c' -> without (h :: D) c c'.
Proof.
  intros HF HG HW k. destruct (HW k) as (-> & -> & ->). destruct (forgotten_undo h c2 HG k) as (Eu & Ea & Es).
  rewrite (fr_unconfirmed _ _ _ HF) in Eu. rewrite (fr_available _ _ _ HF) in Ea. rewrite (fr_spent _ _ _ HF) in Es.
  unfold unconfirmed_without, available_without, spent_without, undo_u, undo_a, undo_s in *. split_and!.
  - rewrite <- Eu. destruct (decide (fst k ∈ D)), (decide (fst k = h)), (decide (fst k ∈ h :: D)) as [Hin|Hin]; try done;
      rewrite elem_of_cons in Hin; naive_solver.
  - destruct (decide (fst k = h)) as [Ek|Ek].
    { assert (Hin : fst k ∈ h :: D) by (rewrite Ek; by left). rewrite (decide_True _ _ Hin). destruct (decide (fst k ∈ D)); [done|].
      destruct (m_availableTransfers c2 !! k); [done|]. destruct (m_spentTransfers c2 !! k) as [x|] eqn:Ex; [|done].
      by destruct (fo_spent _ _ HG k x Ex). }
    destruct (decide (fst k ∈ D)) as [Hk|Hk]; [by rewrite decide_True by (by right)|].
    rewrite decide_False by (rewrite elem_of_cons; tauto).
    destruct (m_availableTransfers c !! k) as [o|]; [by destruct (m_availableTransfers c2 !! k); [cbn in Ea; congruence|] |].
    destruct (m_spentTransfers c !! k) as [x|]; cbn -[set_visible set_spent_visible] in *.
    + destruct (decide (spendingTransactionHash x = h)) as [Hx|Hx].
      * rewrite decide_True by (rewrite Hx; by left). by destruct (m_availableTransfers c2 !! k); [cbn in Ea; congruence|].
      * destruct (m_availableTransfers c2 !! k); [done|]. destruct (m_spentTransfers c2 !! k) as [y|]; [|done].
        change (Some (set_spent_visible true x) = Some (set_spent_visible true y)) in Es. assert (Ex : set_spent_visible true x = set_spent_visible true y) by congruence. destruct (spent_flagless_parts _ _ Ex) as [E1 E3]. cbn -[set_visible].
        rewrite <- E3. destruct (decide (spendingTransactionHash x ∈ D)) as [Hd|Hd];
          [rewrite decide_True by (by right)|rewrite decide_False by (rewrite elem_of_cons; tauto)]; [|done]. by rewrite E1.
    + destruct (m_availableTransfers c2 !! k); [done|]. by destruct (m_spentTransfers c2 !! k).
  - destruct (m_spentTransfers c !! k) as [x|]; cbn -[set_spent_visible] in *.
    + destruct (decide (spendingTransactionHash x = h)) as [Hx|Hx].
      * rewrite decide_True by (rewrite Hx; by left). by destruct (m_spentTransfers c2 !! k).
      * destruct (m_spentTransfers c2 !! k) as [y|]; [|done].
        change (Some (set_spent_visible true x) = Some (set_spent_visible true y)) in Es. assert (Ex : set_spent_visible true x = set_spent_visible true y) by congruence. destruct (spent_flagless_parts _ _ Ex) as [E1 E3]. cbn -[set_spent_visible].
        rewrite <- E3. destruct (decide (spendingTransactionHash x ∈ D)) as [Hd|Hd];
          [by rewrite decide_True by (by right)|rewrite decide_False by (rewrite elem_of_cons; tauto)].
        by rewrite Ex.
    + by destruct (m_spentTransfers c2 !! k).
Qed.

(** Deleting the transaction [t] with its transfers. *)
Lemma delete_one c l1 t kept :
  container_inv age c -> m_transactions c = l1 ++ t :: kept ->
  (forall k s, m_spentTransfers c !! k = Some s -> fst k <> tx_hash t) ->
  exists c1, deleteTransactionTransfers age c (tx_hash t) = Ok c1 /\ m_transactions c1 = m_transactions c /\
    let c2 := with_transactions (erase_transaction (tx_hash t) (m_transactions c1)) c1 in
    container_inv age c2 /\ m_transactions c2 = l1 ++ kept /\ m_currentHeight c2 = m_currentHeight c /\ sub_spent c c2 /\
    frame (tx_hash t) c c1 /\ forgotten (tx_hash t) c1.
Proof.
  intros HC E Hs. destruct (deleteTransactionTransfers_spec age _ _ c (tx_hash t) (proj2 HC) Hs) as (c1 & E1 & HI1 & HF1 & HS1 & HG).
  exists c1. pose proof (fr_transactions _ _ _ HF1) as Et. split_and!; [done|done|]. cbn zeta. rewrite Et. destruct HC as [HT _].
  split_and!; [|by rewrite E; apply erase_middle; rewrite <- E; apply HT|by apply (fr_height _ _ _ HF1)|done..].
  split; [by apply ts_ok_erase|]. cbn [m_transactions with_transactions]. apply inv_with_transactions.
  split; [by apply core_inv_erase, HG; apply HI1|apply HI1].
Qed.

Definition detached (height : Z) (t : TransactionInformation) : Prop := tx_blockHeight t = UNCONFIRMED \/ tx_blockHeight t < height.

(** The transactions that go with the blocks from [height] on: those of the
    blocks, and the unconfirmed ones that spend an output of the blocks. *)
Definition goes (height : Z) (c : TransfersContainer) (t : TransactionInformation) : Prop :=
  if decide (tx_blockHeight t = UNCONFIRMED)
  then exists k s, m_spentTransfers c !! k = Some s /\ spendingTransactionHash s = tx_hash t /\ height <= oi_blockHeight (spent_output s)
  else height <= tx_blockHeight t.

(** Deleting another transaction makes no difference. *)
Lemma goes_frame height h c c2 t : frame h c c2 -> forgotten h c2 -> tx_hash t <> h -> goes height c2 t <-> goes height c t.
Proof.
  intros HF HG Hn. unfold goes. destruct (decide _); [|done].
  assert (HS : forall k s, spendingTransactionHash s = tx_hash t ->
    (exists x, m_spentTransfers c2 !! k = Some x /\ set_spent_visible true x = set_spent_visible true s) <->
    (exists x, m_spentTransfers c !! k = Some x /\ set_spent_visible true x = set_spent_visible true s)).
  { intros k s Hs. destruct (forgotten_undo h c2 HG k) as (_ & _ & Es). rewrite (fr_spent _ _ _ HF) in Es. unfold undo_s in Es.
    destruct (m_spentTransfers c !! k) as [x|], (m_spentTransfers c2 !! k) as [y|]; cbn -[set_spent_visible] in Es; try (destruct (decide _) as [Hx|Hx]); try done.
    - change (Some (set_spent_visible true x) = Some (set_spent_visible true y)) in Es. split; intros (z & [= <-] & Ez); eexists; (split; [done|]); congruence.
    - split; [by intros (? & ? & _)|]. intros (z & [= <-] & Ez). apply spent_flagless_parts in Ez as [_ Ez]. congruence. }
  split; intros (k & s & Hk & Hs & Hle); destruct (HS k s Hs) as [H1 H2].
  - destruct H1 as (x & Hx & Ex); [by exists s|]. exists k, x. destruct (spent_flagless_parts _ _ Ex) as [Eo E2].
    destruct (flagless_parts age _ _ Eo) as (_ & E3 & _). split_and!; [done|congruence|lia].
  - destruct H2 as (x & Hx & Ex); [by exists s|]. exists k, x. destruct (spent_flagless_parts _ _ Ex) as [Eo E2].
    destruct (flagless_parts age _ _ Eo) as (_ & E3 & _). split_and!; [done|congruence|lia].
Qed.

(** What the loop achieves when the transactions [r] are left and those after
    them, [kept], are unconfirmed and stay. *)
Definition loop_result (height : Z) (c : TransfersContainer) (deleted : list (list Z)) (res : outcome (list (list Z) * TransfersContainer)) : Prop :=
  exists del c', res = Ok (deleted ++ del, c') /\ container_inv age c' /\
    m_currentHeight c' = m_currentHeight c /\ Forall (detached height) (m_transactions c') /\
    (forall t, t ∈ m_transactions c' <-> t ∈ m_transactions c /\ tx_hash t ∉ del) /\
    (height < UNCONFIRMED -> forall h, h ∈ del <-> exists t, t ∈ m_transactions c /\ tx_hash t = h /\ goes height c t) /\ without del c c'.
Definition stays (height : Z) (kept : list TransactionInformation) (c : TransfersContainer) : Prop :=
  Forall (fun t => tx_blockHeight t = UNCONFIRMED) kept /\
  forall k s, m_spentTransfers c !! k = Some s -> spendingTransactionHash s ∈ map tx_hash kept -> oi_blockHeight (spent_output s) < height.
Definition loop_ok (height : Z) (r : list TransactionInformation) : Prop :=
  forall kept c deleted, container_inv age c -> m_transactions c = rev r ++ kept -> stays height kept c ->
  loop_result height c deleted (detach_loop age c height r deleted).

Lemma stays_goes height kept c t : stays height kept c -> t ∈ kept -> ~ goes height c t.
Proof.
  intros [HU HK] Ht. unfold goes. rewrite Forall_forall in HU. rewrite decide_True by by apply HU.
  intros (k & s & Hk & Hs & Hle). assert (oi_blockHeight (spent_output s) < height); [|lia]. eapply HK; [done|].
  rewrite Hs. by apply (list_elem_of_fmap_2 tx_hash).
Qed.

Lemma detach_none height c deleted :
  container_inv age c -> Forall (detached height) (m_transactions c) -> (height < UNCONFIRMED -> forall t, t ∈ m_transactions c -> ~ goes height c t) ->
  loop_result height c deleted (Ok (deleted, c)).
Proof.
  intros HC HF HG. exists [], c. rewrite app_nil_r. split_and!; try done.
  - intros u. split; [intros ?; split; [done|apply not_elem_of_nil]|naive_solver].
  - intros Hmax h. split; [by intros ?%elem_of_nil|]. intros (t & Ht & _ & Hg). by destruct (HG Hmax t Ht).
  - apply without_none.
Qed.

Lemma detach_erase height r t kept c deleted :
  loop_ok height r -> container_inv age c -> m_transactions c = rev r ++ t :: kept -> stays height kept c -> goes height c t ->
  (forall k s, m_spentTransfers c !! k = Some s -> fst k <> tx_hash t) ->
  loop_result height c deleted (c1 ← deleteTransactionTransfers age c (tx_hash t);
    detach_loop age (with_transactions (erase_transaction (tx_hash t) (m_transactions c1)) c1) height r (deleted ++ [tx_hash t])).
Proof.
  intros IH HC E [HU HK] Hgo Hs. destruct (delete_one c (rev r) t kept HC E Hs) as (c1 & -> & _ & HC2 & E2 & Eh & HS2 & HF1 & HG1). cbn [mbind outcome_bind].
  set (c2 := with_transactions _ c1) in *. destruct (IH kept c2 (deleted ++ [tx_hash t]) HC2 E2) as (del & c' & E' & HC' & Eh' & HF' & HT' & HD' & HW').
  { split; [done|]. intros k s Hk Hin. destruct (HS2 k s Hk) as (x & Hx & Ex). destruct (spent_flagless_parts _ _ Ex) as [Eo Es].
    rewrite <- Es in Hin. specialize (HK k x Hx Hin). by destruct (flagless_parts age _ _ Eo) as (_ & <- & _). }
  destruct HC as [[HN _] _]. rewrite E, map_app, NoDup_app in HN. destruct HN as (_ & Hd & HN). cbn in HN. apply NoDup_cons in HN as [Hn _].
  assert (Hother : forall u, u ∈ rev r ++ kept -> tx_hash u <> tx_hash t).
  { intros u [Hu|Hu]%elem_of_app Eu.
    - apply (Hd (tx_hash u)); [by apply (list_elem_of_fmap_2 tx_hash)|]. rewrite Eu. by left.
    - apply Hn. rewrite <- Eu. by apply (list_elem_of_fmap_2 tx_hash). }
  assert (Hg2 : forall u, u ∈ rev r ++ kept -> goes height c2 u <-> goes height c u).
  { intros u Hu. exact (goes_frame height (tx_hash t) c c1 u HF1 HG1 (Hother u Hu)). }
  assert (Hsplit : forall u, u ∈ m_transactions c <-> u = t \/ u ∈ rev r ++ kept) by (intros u; rewrite E, !elem_of_app, elem_of_cons; tauto).
  exists (tx_hash t :: del), c'. rewrite E', <- app_assoc. split_and!; [done|done|by rewrite Eh'|done| | |].
  - intros u. rewrite HT', E2, Hsplit, not_elem_of_cons. split; [|naive_solver]. intros [Hu Hdel]. split_and!; [by right|by apply Hother|done].
  - intros Hmax h. rewrite elem_of_cons, (HD' Hmax). split.
    + intros [->|(u & Hu & <- & Hg)]; [exists t; split_and!; [apply Hsplit; by left|done..]|].
      rewrite E2 in Hu. exists u. split_and!; [apply Hsplit; by right|done|by apply Hg2].
    + intros (u & [->|Hu]%Hsplit & <- & Hg); [by left|]. right. exists u. rewrite E2. split_and!; [done..|by apply Hg2].
  - exact (without_cons (tx_hash t) del c c1 c' HF1 HG1 HW').
Qed.

Lemma sorted_below t l1 l2 u : StronglySorted (fun t u => tx_blockHeight t <= tx_blockHeight u) (l1 ++ t :: l2) -> u ∈ l1 ->
  tx_blockHeight u <= tx_blockHeight t.
Proof.
  intros HS Hin. induction l1 as [|v l IH]; [by apply elem_of_nil in Hin|]. cbn in HS. apply StronglySorted_inv in HS as [HS HF].
  apply elem_of_cons in Hin as [->|Hin]; [|by apply IH]. rewrite Forall_forall in HF. apply HF, elem_of_app. right. by left.
Qed.

Lemma detach_loop_spec height r : loop_ok height r.
Proof.
  induction r as [|t r IH]; intros kept c deleted HC E HK.
  { apply detach_none; [done| |].
    - rewrite E. eapply Forall_impl; [apply HK|]. cbn. intros u Hu. by left.
    - intros _ u. rewrite E. by apply stays_goes. }
  cbn [rev] in E. rewrite <- app_assoc in E. cbn in E.
  assert (Ht : t ∈ m_transactions c) by (rewrite E; apply elem_of_app; right; by left).
  cbn [detach_loop]. destruct (Z.eqb_spec (tx_blockHeight t) UNCONFIRMED) as [Hu|Hu].
  - assert (Hsp : forall k s, In (k, s) (by_spending (tx_hash t) (m_spentTransfers c)) <->
      m_spentTransfers c !! k = Some s /\ spendingTransactionHash s = tx_hash t).
    { intros k s. rewrite <- list_elem_of_In. unfold by_spending, spent_by. rewrite elem_of_map_to_list. by rewrite map_lookup_filter_Some. }
    destruct (existsb _ _) eqn:Ee.
    + eapply detach_erase; try done; [|by apply unconfirmed_unspent]. apply existsb_exists in Ee as ([k s] & Hin & Hle).
      apply Hsp in Hin as [Hk Hs]. unfold goes. rewrite decide_True by done. exists k, s. split_and!; [done..|by apply Z.leb_le].
    + apply (IH (t :: kept)); [done|done|]. split; [constructor; [done|apply HK]|]. intros k s Hk [Hs|Hs]%elem_of_cons; [|by eapply HK].
      apply Z.nle_gt. intros Hle. apply not_true_iff_false in Ee. apply Ee, existsb_exists. exists (k, s). split; [by apply Hsp|]. by apply Z.leb_le.
  - destruct (Z.leb_spec height (tx_blockHeight t)) as [Hl|Hl].
    + eapply detach_erase; try done; [unfold goes; by rewrite decide_False|].
      intros k s Hk Hf. pose proof (spender_after c (rev r) t kept k s HC E Hk Hf) as Hin.
      pose proof (proj2 HK k s Hk Hin) as Hlt.
      destruct HC as [[HN _] [HI _]]. destruct (ci_confirmed _ _ _ _ HI k (spent_output s)) as (_ & _ & _ & H2); [right; eauto|]. rewrite Hf in H2.
      rewrite (listed_unique _ _ _ (tx_blockHeight t) HN H2) in Hlt; [lia|]. by exists t.
    + assert (Hlow : forall u, u ∈ rev r ++ [t] -> tx_blockHeight u < height).
      { intros u [Hin| ->%list_elem_of_singleton]%elem_of_app; [|done]. destruct HC as [[_ HS] _]. rewrite E in HS.
        pose proof (sorted_below _ _ _ u HS Hin). lia. }
      assert (Hsplit : forall u, u ∈ m_transactions c -> u ∈ rev r ++ [t] \/ u ∈ kept).
      { intros u. rewrite E. change (t :: kept) with ([t] ++ kept). rewrite app_assoc. apply elem_of_app. }
      apply detach_none; [done| |].
      * apply Forall_forall. intros u [Hin|Hin]%Hsplit; [right; by apply Hlow|left]. destruct HK as [HU _]. rewrite Forall_forall in HU. by apply HU.
      * intros Hmax u [Hin|Hin]%Hsplit; [|by eapply stays_goes]. specialize (Hlow u Hin). unfold goes. destruct (decide _); lia.
Qed.

(** * Unlocking and locking *)

Lemma jobs_in_elem lo hi jobs k : k ∈ jobs_in lo hi jobs -> is_Some (jobs !! k).
Proof.
  unfold jobs_in. intros ([j z] & -> & H)%list_elem_of_fmap. rewrite merge_sort_Permutation in H. apply list_elem_of_In, filter_In in H as [H _].
  apply list_elem_of_In, elem_of_map_to_list in H. eauto.
Qed.

Lemma getAvailableOutputs_total tsu ts c ks :
  core_inv age tsu ts c -> (forall k, k ∈ ks -> is_Some (m_transfersUnlockJobs c !! k)) -> exists l, getAvailableOutputs c ks = Ok l.
Proof.
  intros HI. induction ks as [|k ks IH]; intros Hks; [by exists []|]. cbn [getAvailableOutputs].
  destruct IH as [l ->]; [intros j Hj; apply Hks; by right|]. assert (Hk : is_Some (m_availableTransfers c !! k)).
  { destruct (Hks k) as [z Hz]; [by left|]. rewrite (ci_jobs _ _ _ _ HI) in Hz. destruct (m_availableTransfers c !! k); [eauto|done]. }
  unfold getAvailableOutput. rewrite massert_true by by apply bool_decide_true. destruct Hk as [o ->]. cbn. eauto.
Qed.

Lemma jobs_range_total tsu ts c lo hi :
  core_inv age tsu ts c -> (match lo with Some lo => lo <= hi | None => True end) ->
  exists l, (ks ← jobs_range c lo hi; getAvailableOutputs c ks) = Ok l.
Proof.
  intros HI Hl. unfold jobs_range. destruct lo as [lo|].
  - destruct (Z.ltb_spec hi lo) as [|_]; [lia|]. cbn [mbind outcome_bind]. eapply getAvailableOutputs_total; [exact HI|]. intros k. apply jobs_in_elem.
  - cbn [mbind outcome_bind]. eapply getAvailableOutputs_total; [exact HI|]. intros k. apply jobs_in_elem.
Qed.

Lemma detach_spec (c : TransfersContainer) (height : Z) :
  container_inv age c -> 0 <= height < UNCONFIRMED -> 0 <= m_currentHeight c < UNCONFIRMED ->
  exists deleted locked c', detach age c height = Ok (deleted, locked, c') /\ container_inv age c' /\
    m_currentHeight c' = Z.max 0 (height - 1) /\
    (forall h, h ∈ deleted <-> exists t, t ∈ m_transactions c /\ tx_hash t = h /\ goes height c t) /\
    (forall t, t ∈ m_transactions c' <-> t ∈ m_transactions c /\ ~ goes height c t) /\
    without deleted c c' /\
    (forall t, t ∈ m_transactions c' -> tx_blockHeight t = UNCONFIRMED \/ tx_blockHeight t < height) /\
    (forall k o, confirmed c' k o -> oi_blockHeight o < height).
Proof.
  intros HC Hh Hc. unfold detach. rewrite massert_true by (apply Z.ltb_lt; lia). cbn [mbind outcome_bind].
  destruct (detach_loop_spec height (rev (m_transactions c)) [] c []) as (del & c1 & -> & HC1 & Eh & HF & HT & HD & HW);
    [done|by rewrite rev_involutive, app_nil_r|split; [constructor|intros k s _ H; by apply elem_of_nil in H]|].
  specialize (HD ltac:(lia)). cbn [mbind outcome_bind app]. set (z := if height =? 0 then 0 else height - 1).
  assert (Ez : z = Z.max 0 (height - 1)) by (unfold z; destruct (Z.eqb_spec height 0); lia).
  assert (HC2 : container_inv age (with_height z c1)) by (split; [apply HC1|by apply inv_with_height, HC1]).
  assert (HL : exists l, getLockingTransfers (with_height z c1) (m_currentHeight c1) z = Ok l).
  { unfold getLockingTransfers. destruct (Z.ltb_spec (m_currentHeight c1) z) as [|Hz]; [eauto|].
    eapply jobs_range_total; [apply HC2|]. rewrite !u32_small; unfold is_u32, UNCONFIRMED, UINT32_MAX in *; lia. }
  destruct HL as [l Hl]. cbn [m_currentHeight with_height]. rewrite Hl. cbn [mbind outcome_bind].
  exists del, l, (with_height z c1). rewrite Forall_forall in HF. destruct HC1 as [ [HN _] [HI _] ]. split_and!; try done.
  - intros t. cbn. rewrite HT. split; intros [Ht Hn]; (split; [done|]); intros Hg; apply Hn.
    + apply HD. by exists t.
    + apply HD in Hg as (u & Hu & Eu & Hg). destruct HC as [ [HNc _] _].
      assert (u = t) as ->; [|done]. apply list_elem_of_lookup in Ht as [i Hi], Hu as [j Hj].
      assert (i = j) as <-; [|congruence]. eapply (NoDup_lookup _ i j (tx_hash t) HNc); rewrite list_lookup_fmap; [by rewrite Hi|by rewrite Hj; cbn; rewrite Eu].
  - intros k o Ho. destruct (ci_confirmed _ _ _ _ HI k o Ho) as (_ & H1 & _ & t & Ht & _ & Eb). destruct (HF t Ht); [congruence|lia].
Qed.

(** C18.  Detaching blocks always succeeds in a consistent wallet and takes away
    exactly what came with them.  The transactions deleted are those of the blocks
    from the height on and the unconfirmed ones that spend an output of these
    blocks, and no others.  Every transfer of the deleted transactions is gone,
    every transfer they had spent is available again, and all other transfers are
    as they were, up to the visibility flags, which the invariant determines.  So
    every confirmed transaction and transfer left is from a block below, and the
    wallet is consistent. *)
Theorem detach_clean (c : TransfersContainer) (height : Z) :
  container_inv age c -> 0 <= height < UNCONFIRMED -> 0 <= m_currentHeight c < UNCONFIRMED ->
  exists deleted locked c', detach age c height = Ok (deleted, locked, c') /\ container_inv age c' /\
    m_currentHeight c' = Z.max 0 (height - 1) /\
    (forall h, h ∈ deleted <-> exists t, t ∈ m_transactions c /\ tx_hash t = h /\ goes height c t) /\
    (forall t, t ∈ m_transactions c' <-> t ∈ m_transactions c /\ ~ goes height c t) /\
    without deleted c c' /\
    (forall t, t ∈ m_transactions c' -> tx_blockHeight t = UNCONFIRMED \/ tx_blockHeight t < height) /\
    (forall k o, confirmed c' k o -> oi_blockHeight o < height).
Proof. apply detach_spec. Qed.

(** * Confirming a transaction *)

Lemma confirm_descriptor o block index ki : descriptor (info (confirm_transfer o block index)) = image ki <-> descriptor (info o) = image ki.
Proof. unfold descriptor. cbn. by destruct (type (info o)). Qed.

Lemma near_weaken i j c c' : (forall ki, descriptor i = image ki -> descriptor j = image ki) -> near i c c' -> near j c c'.
Proof. intros H HN ki Hj. apply HN. intros Hi. by apply Hj, H. Qed.

Section Confirm.
Variables (tsu ts : list TransactionInformation) (block : TransactionBlockInfo) (h : list Z).
Hypothesis Hb : bk_height block <> UNCONFIRMED.
Hypothesis Hl : listed ts h (bk_height block).

Lemma confirm_one c k o index c1 c2 :
  inv age tsu ts c -> (forall k s, m_spentTransfers c !! k = Some s -> fst k <> h) ->
  index <> UNCONFIRMED_TRANSACTION_GLOBAL_OUTPUT_INDEX ->
  m_unconfirmedTransfers c !! k = Some o -> fst k = h ->
  make_available age c (confirm_transfer o block index) = Ok c1 ->
  update_if_key (with_unconfirmed (delete k (m_unconfirmedTransfers c1)) c1) (info (confirm_transfer o block index)) = Ok c2 ->
  inv age tsu ts c2 /\ same_core (drop_unconfirmed k c1) c2 /\ m_spentTransfers c1 = m_spentTransfers c /\
  m_unconfirmedTransfers c1 = m_unconfirmedTransfers c /\ (m_transactions c1 = m_transactions c /\ m_currentHeight c1 = m_currentHeight c).
Proof.
  set (o' := confirm_transfer o block index). intros [HI HV] Hs Hx Hu Hh E1 E2.
  destruct (ci_unconfirmed _ _ _ _ HI k o Hu) as (Hk & _). assert (Hk' : getTransactionOutputKey o' = k) by exact Hk.
  assert (HR : core_inv age tsu ts c1 /\ near (info o') c c1 /\ m_unconfirmedTransfers c1 = m_unconfirmedTransfers c /\
    m_spentTransfers c1 = m_spentTransfers c /\ (m_transactions c1 = m_transactions c /\ m_currentHeight c1 = m_currentHeight c) /\
    (forall k' p, any_transfer c1 k' p -> any_transfer c k' p \/ p = o')).
  { destruct (make_available_cases age tsu ts c o' c1 HI E1) as [(Hn & Hm & ->)| ->].
    - split_and!; try done.
      + apply core_put_available; try done; [|by rewrite Hk', Hh].
        destruct (m_spentTransfers c !! getTransactionOutputKey o') as [s|] eqn:Es; [|done]. rewrite Hk' in Es. by destruct (Hs _ _ Es).
      + by apply near_put_available.
      + intros k' p [H|H]; [left; by left|]. apply confirmed_put_available in H as [[_ ->]|H]; [by right|left; by right].
    - split_and!; try done. intros k' p H. by left. }
  destruct HR as (HI1 & HN1 & Eu & Esp & [Et Eh] & HT1).
  destruct (touch_vis c (drop_unconfirmed k c1) (info o') c2 HV) as [HV2 HS2]; [| |exact E2|].
  - eapply near_trans; [exact HN1|]. eapply near_weaken; [|apply (near_drop_unconfirmed k o); by rewrite Eu].
    intros ki Hki. by apply confirm_descriptor.
  - intros k' p Hp Ht. assert (Hp1 : any_transfer c1 k' p).
    { destruct Hp as [H|H]; [left|by right]. cbn in H. by apply lookup_delete_Some in H as [_ H]. }
    destruct (HT1 k' p Hp1) as [H| ->]; [by apply (vi_others _ HV k' p)|]. apply (vi_others _ HV k o); [by left|exact Ht].
  - split_and!; try done. split; [|done]. eapply core_inv_same; [exact HS2|]. by apply core_drop_unconfirmed.
Qed.

Lemma confirm_loop_inv globalIndices ks c c' :
  Forall (fun i => i <> UNCONFIRMED_TRANSACTION_GLOBAL_OUTPUT_INDEX) globalIndices ->
  inv age tsu ts c -> (forall k s, m_spentTransfers c !! k = Some s -> fst k <> h) -> (forall k, k ∈ ks -> fst k = h) ->
  confirm_loop age c block globalIndices ks = Ok c' ->
  inv age tsu ts c' /\ (m_transactions c' = m_transactions c /\ m_currentHeight c' = m_currentHeight c) /\
  (forall k, k ∈ ks -> m_unconfirmedTransfers c' !! k = None) /\
  (forall k, is_Some (m_unconfirmedTransfers c' !! k) -> is_Some (m_unconfirmedTransfers c !! k)).
Proof.
  intros HG. revert c. induction ks as [|k ks IH]; intros c HI Hs Hks E; cbn [confirm_loop] in E.
  { injection E as <-. split_and!; [done..|intros k Hk; by apply elem_of_nil in Hk|done]. }
  assert (Hks' : forall j, j ∈ ks -> fst j = h) by (intros j Hj; apply Hks; by right).
  destruct (m_unconfirmedTransfers c !! k) as [o|] eqn:Eu.
  - do 2 apply bind_Ok in E as (_ & _ & E). case_in E; [done|]. apply bind_Ok in E as (index & Hi & E). apply bind_Ok in E as (c1 & E1 & E).
    apply bind_Ok in E as (c2 & E2 & E). apply vget_Ok in Hi as [_ Hi].
    destruct (confirm_one c k o index c1 c2) as (HI2 & HS2 & Esp & Eun & Etx & Ehx); try done; [|apply Hks; by left|].
    { rewrite Forall_forall in HG. apply HG. by eapply list_elem_of_lookup_2. }
    destruct (IH c2 HI2) as (HI' & [Et Eh] & Hnone & Hsub); [|done|exact E|].
    { intros j s Hj. destruct (sub_spent_core _ _ HS2 j s Hj) as (x & Hx & _). cbn in Hx. rewrite Esp in Hx. by eapply Hs. }
    assert (Hk2 : forall j, is_Some (m_unconfirmedTransfers c2 !! j) -> j <> k /\ is_Some (m_unconfirmedTransfers c !! j)).
    { intros j Hj. apply (sh_unconfirmed _ _ (shrinks_core _ _ HS2)) in Hj. cbn in Hj. rewrite Eun in Hj. destruct Hj as [x [Hn Hx]%lookup_delete_Some]. eauto. }
    split_and!; [done|by rewrite Et, (core_transactions _ _ HS2)|by rewrite Eh, (core_height _ _ HS2)| |].
    + intros j [->|Hj]%elem_of_cons; [|by apply Hnone]. apply eq_None_not_Some. intros Hx%Hsub. by apply Hk2 in Hx as [? _].
    + intros j Hj. by apply Hk2, Hsub.
  - destruct (IH c HI Hs Hks' E) as (HI' & [Et Eh] & Hnone & Hsub). split_and!; try done.
    intros j [->|Hj]%elem_of_cons; [|by apply Hnone]. apply eq_None_not_Some. intros Hx%Hsub. rewrite Eu in Hx. by destruct Hx.
Qed.
End Confirm.

(** Changing the spending blocks. *)
Lemma confirm_spent_lookup block h m (k : TransactionOutputKey) s' : confirm_spent block h m !! k = Some s' ->
  exists s, m !! k = Some s /\ spent_output s' = spent_output s /\ spendingTransactionHash s' = spendingTransactionHash s.
Proof.
  unfold confirm_spent. rewrite lookup_fmap. destruct (m !! k) as [s|]; [|done]. cbn. intros [= <-]. exists s. by case_bool_decide.
Qed.
Lemma confirm_spent_info block h s : spent_output (if bool_decide (spendingTransactionHash s = h)
            then {| spent_output := spent_output s; spendingBlock := block;
                    spendingTransactionHash := spendingTransactionHash s; inputInTransaction := inputInTransaction s |}
            else s) = spent_output s.
Proof. by case_bool_decide. Qed.
Lemma confirm_spent_has block h d m : spent_has_descriptor d (confirm_spent block h m) = confirm_spent block h (spent_has_descriptor d m).
Proof.
  apply map_eq. intros k. unfold confirm_spent. rewrite spent_has_lookup, !lookup_fmap, spent_has_lookup. destruct (m !! k) as [s|]; [|done].
  cbn -[descriptor_matches]. rewrite confirm_spent_info. by destruct (descriptor_matches d (info (spent_output s))).
Qed.

Lemma confirm_spent_inv block h tsu ts c :
  inv age tsu ts c -> inv age tsu ts (with_spent (confirm_spent block h (m_spentTransfers c)) c).
Proof.
  intros [HI HV]. set (c' := with_spent _ c).
  assert (HC : forall k o, confirmed c' k o -> confirmed c k o).
  { intros k o [H|(s' & H & <-)]; [by left|]. cbn in H. apply confirm_spent_lookup in H as (s & Hs & E & _). right. by exists s. }
  split; split; try apply HI.
  - intros k o H%HC. by apply (ci_confirmed _ _ _ _ HI).
  - cbn. intros k s' (s & Hs & -> & ->)%confirm_spent_lookup. by apply (ci_spender _ _ _ _ HI).
  - cbn. intros k o Ho. unfold confirm_spent. by rewrite lookup_fmap, (ci_disjoint _ _ _ _ HI k o Ho).
  - cbn. intros ki k1 s1' k2 s2' (s1 & H1 & -> & _)%confirm_spent_lookup (s2 & H2 & -> & _)%confirm_spent_lookup.
    by apply (ci_images _ _ _ _ HI ki k1 s1 k2 s2).
  - intros k1 o1 k2 o2 H1%HC H2%HC. by apply (ci_multisignatures _ _ _ _ HI).
  - intros ki. unfold vis_ok. cbn. destruct (vi_images _ HV ki) as (V1 & V2 & V3). rewrite confirm_spent_has.
    assert (Es : base.size (confirm_spent block h (spent_has_descriptor (image ki) (m_spentTransfers c))) =
      base.size (spent_has_descriptor (image ki) (m_spentTransfers c))) by apply map_size_fmap.
    split_and!; rewrite ?Es; [|done..]. intros k x (s & Hs & -> & _)%confirm_spent_lookup. by eapply V1.
  - intros k o [H|H%HC]; apply (vi_others _ HV k o); [by left|by right].
Qed.

(** Nothing confirmed belongs to an unconfirmed transaction. *)
Lemma unconfirmed_none c t k o :
  container_inv age c -> t ∈ m_transactions c -> tx_blockHeight t = UNCONFIRMED -> confirmed c k o -> fst k <> tx_hash t.
Proof.
  intros [ [HN _] [HI _] ] Ht Hu Ho E. destruct (ci_confirmed _ _ _ _ HI k o Ho) as (_ & H1 & _ & H2).
  destruct H1. rewrite E in H2. eapply listed_unique; [exact HN|exact H2|]. by exists t.
Qed.

(** The transfers of a container when its transaction [t] moves to a block. *)
Lemma confirm_listing c t block :
  container_inv age c -> t ∈ m_transactions c -> tx_blockHeight t = UNCONFIRMED -> in_order c block ->
  let ts' := insert_transaction (confirm_info block t) (erase_transaction (tx_hash t) (m_transactions c)) in
  ts_ok ts' /\ listed ts' (tx_hash t) (bk_height block) /\ inv age (m_transactions c) ts' c /\
  (forall h', h' <> tx_hash t -> listed (m_transactions c) h' UNCONFIRMED -> listed ts' h' UNCONFIRMED).
Proof.
  intros HC Ht Hu Ho ts'. pose proof HC as [HT [HI HV] ]. pose proof (ts_ok_erase (tx_hash t) _ HT) as HE.
  assert (Hf : tx_hash t ∉ map tx_hash (erase_transaction (tx_hash t) (m_transactions c))).
  { intros (u & E & Hi)%list_elem_of_fmap. apply list_elem_of_In, filter_In in Hi as [_ Hi]. rewrite bool_decide_true in Hi by done. done. }
  assert (HL : forall h' z, h' <> tx_hash t -> listed (m_transactions c) h' z -> listed ts' h' z).
  { intros h' z Hn Hl. apply listed_insert; [apply HE|by apply listed_erase]. }
  split_and!; [by apply (ts_ok_insert (confirm_info block t))|apply (listed_inserted (confirm_info block t)), HE| |intros; by apply HL].
  split; [|done]. eapply core_inv_mono; [exact HI|done| |].
  - intros k o Hc Hl. apply HL; [by eapply unconfirmed_none|done].
  - intros k s Hs Hl. assert (Hn : fst k <> tx_hash t) by (eapply unconfirmed_unspent; eassumption).
    destruct (decide (spendingTransactionHash s = tx_hash t)) as [->|Hd].
    + destruct (ci_confirmed _ _ _ _ HI k (spent_output s)) as (_ & H1 & _ & u & Hin & E1 & E2); [right; eauto|].
      apply (insert_later (confirm_info block t) _ _ (oi_blockHeight (spent_output s))); [apply HE| |].
      * apply listed_erase; [by exists u|done].
      * cbn. rewrite <- E2. apply Ho; [done|congruence].
    + apply later_insert; [apply HE|by apply later_erase].
Qed.

Lemma insert_elem t u ts : u ∈ insert_transaction t ts -> u = t \/ u ∈ ts.
Proof.
  induction ts as [|v ts IH]; cbn; [intros ->%list_elem_of_singleton; by left|].
  destruct (_ <? _); intros [->|H]%elem_of_cons; [by left|by right|right; by left|]. destruct (IH H); [by left|right; by right].
Qed.
Lemma sublist_elem {A} (l l' : list A) x : sublist l l' -> x ∈ l -> x ∈ l'.
Proof. intros H. rewrite !list_elem_of_In. induction H; cbn; naive_solver. Qed.

Lemma insert_elem_2 t u ts : u = t \/ u ∈ ts -> u ∈ insert_transaction t ts.
Proof.
  induction ts as [|v ts IH]; cbn; [intros [->|H%elem_of_nil]; [by left|done]|].
  destruct (_ <? _); rewrite !elem_of_cons; [tauto|]. intros [->|[->|H] ]; [right; apply IH; by left|by left|right; apply IH; by right].
Qed.

Lemma markTransactionConfirmed_inv c block h globalIndices b c' :
  container_inv age c -> in_order c block -> Forall (fun i => i <> UNCONFIRMED_TRANSACTION_GLOBAL_OUTPUT_INDEX) globalIndices ->
  markTransactionConfirmed age c block h globalIndices = Ok (b, c') ->
  container_inv age c' /\ m_currentHeight c' = m_currentHeight c /\
  (forall t, t ∈ m_transactions c' -> t ∈ m_transactions c \/ tx_blockHeight t = bk_height block) /\
  (forall h' z, listed (m_transactions c) h' z -> h' <> h \/ z <> UNCONFIRMED -> listed (m_transactions c') h' z) /\
  (listed (m_transactions c) h UNCONFIRMED -> listed (m_transactions c') h (bk_height block)).
Proof.
  intros HC Ho HG E. unfold markTransactionConfirmed in E. destruct (Z.eqb_spec (bk_height block) UNCONFIRMED) as [|Hb]; [done|].
  destruct (find_transaction h (m_transactions c)) as [t|] eqn:Ef.
  2:{ injection E as <- <-. split_and!; [done..|by left|done|]. intros Hin%listed_elem. by apply find_transaction_None in Ef. }
  destruct (find_transaction_Some _ _ _ Ef) as [Ht <-].
  assert (Hself : listed (m_transactions c) (tx_hash t) (tx_blockHeight t)) by (by exists t).
  destruct (Z.eqb_spec (tx_blockHeight t) UNCONFIRMED) as [Hu|Hu]; cbn [negb] in E.
  2:{ injection E as <- <-. split_and!; [done..|by left|done|]. intros Hin. destruct Hu.
      eapply listed_unique; [apply HC|exact Hself|exact Hin]. }
  apply bind_Ok in E as (c1 & E1 & E). apply bind_Ok in E as (_ & _ & [= <- <-]).
  destruct (confirm_listing c t block HC Ht Hu Ho) as (HT' & Hl & HI & HL). set (ts' := insert_transaction _ _) in *.
  eapply (confirm_loop_inv (m_transactions c) ts' block (tx_hash t)) in E1 as (HI1 & [Et Ech] & Hnone & Hsub);
    [|done|done|exact HG|by apply inv_with_transactions| |].
  - split_and!; cbn; [|done|..].
    2: { rewrite Et. intros u Hu'. destruct HC as [ [_ HS] _]. apply insert_elem in Hu' as [->|Hu']; [by right|left; by eapply sublist_elem; [apply erase_sublist|] ]. }
    2: { rewrite Et. intros h' z (u & Hin & <- & <-) Hn. exists u. split; [|done]. apply insert_elem_2. right. apply list_elem_of_In, filter_In.
         split; [by apply list_elem_of_In|]. apply negb_true_iff, bool_decide_eq_false. intros Eh. destruct Hn as [Hn|Hn]; [done|]. destruct Hn.
         rewrite <- Hu. eapply listed_unique; [apply HC| |exact Hself]. by exists u. }
    2: { rewrite Et. intros _. exists (confirm_info block t). split; [|done]. apply insert_elem_2. by left. }
    split; cbn; rewrite Et; [done|]. apply confirm_spent_inv. split; [|apply HI1].
    eapply core_inv_mono; [apply HI1| |done|done]. intros k Hk. apply HL. intros Eh.
    assert (Hin : k ∈ map fst (by_transaction (tx_hash t) (m_unconfirmedTransfers c))).
    { apply by_transaction_elem. destruct (Hsub _ Hk) as [o Hko]. exists o. split; [done|]. rewrite <- Eh. apply key_hash.
      destruct HC as [_ [HI0 _] ]. by apply (ci_unconfirmed _ _ _ _ HI0 k o Hko). }
    rewrite (Hnone k Hin) in Hk. by destruct Hk.
  - cbn. by apply unconfirmed_unspent.
  - intros k Hk. apply by_transaction_elem in Hk as (o & Hko & <-). symmetry. apply key_hash.
    destruct HC as [_ [HI0 _] ]. by apply (ci_unconfirmed _ _ _ _ HI0 k o Hko).
Qed.

(** * Every reachable state *)

Lemma addTransaction_inv {T} `{ITransactionReader T} (c c' : TransfersContainer) block (tx : T) trs messages added l h :
  container_inv age c -> in_order c block -> no_self_spend tx (new_descriptors block trs) -> getTransactionHash tx = Ok h ->
  addTransaction age c block tx trs messages = Ok (added, l, c') -> container_inv age c'.
Proof.
  intros HC Ho Hns Hh E. destruct (addTransaction_spec age _ _ _ _ _ _ _ _ _ HC Ho Hns Hh E) as (Hf & c2 & -> & HR).
  assert (HC2 : container_inv age c2).
  { destruct added; [|by subst]. destruct HR as (c1 & -> & _ & HI). split; [by apply ts_ok_insert; [apply HC|]|by apply inv_with_transactions]. }
  destruct (bk_height block =? UNCONFIRMED); [done|]. split; [apply HC2|by apply inv_with_height, HC2].
Qed.

(** An operation that returns.  The transactions that a block confirms or adds come
    in the order of the blocks ([in_order]), do not spend what they create, and
    have real global indices.  An exception from within [addTransaction] or
    [markTransactionConfirmed] is no step: it can leave half of the work done, and
    the source itself says of one such exit that it breaks the consistency of the
    container. *)
Inductive container_step : TransfersContainer -> TransfersContainer -> Prop :=
| step_add {T} {R : ITransactionReader T} (tx : T) c block trs messages h added l c' :
    in_order c block -> no_self_spend tx (new_descriptors block trs) -> getTransactionHash tx = Ok h ->
    addTransaction age c block tx trs messages = Ok (added, l, c') -> container_step c c'
| step_delete c h b c' : deleteUnconfirmedTransaction age c h = Ok (b, c') -> container_step c c'
| step_confirm c block h globalIndices b c' :
    in_order c block -> Forall (fun i => i <> UNCONFIRMED_TRANSACTION_GLOBAL_OUTPUT_INDEX) globalIndices ->
    markTransactionConfirmed age c block h globalIndices = Ok (b, c') -> container_step c c'
| step_detach c height d l c' : detach age c height = Ok (d, l, c') -> container_step c c'
| step_advance c height l c' : doAdvanceHeight c height = Ok (l, c') -> container_step c c'.

Lemma empty_container_inv : container_inv age empty_container.
Proof.
  split; [split; constructor|]. split; split; cbn; try (intros; by rewrite ?lookup_empty in *).
  - intros k o [H|(s & H & _)]; cbn in H; by rewrite lookup_empty in H.
  - intros k1 o1 k2 o2 [H|(s & H & _)]; cbn in H; by rewrite lookup_empty in H.
  - intros k o [H|[H|(s & H & _)] ]; cbn in H; by rewrite lookup_empty in H.
Qed.

Lemma detach_inv c height d l c' : container_inv age c -> detach age c height = Ok (d, l, c') -> container_inv age c'.
Proof.
  intros HC E. unfold detach in E. apply bind_Ok in E as (_ & _ & E). apply bind_Ok in E as ([del c1] & E1 & E).
  apply bind_Ok in E as (l' & _ & [= _ _ <-]).
  destruct (detach_loop_spec height (rev (m_transactions c)) [] c []) as (del' & c1' & E1' & HC1 & _);
    [done|by rewrite rev_involutive, app_nil_r|split; [constructor|intros k s _ H; by apply elem_of_nil in H]|].
  rewrite E1 in E1'. injection E1' as _ ->. split; [apply HC1|by apply inv_with_height, HC1].
Qed.

Lemma step_inv c c' : container_inv age c -> container_step c c' -> container_inv age c'.
Proof.
  intros HC HS. destruct HS as [T R tx c block trs messages h added l c' Ho Hns Hh E|c h b c' E|c block h gi b c' Ho HG E|c height d l c' E|c height l c' E].
  - by eapply (addTransaction_inv c c').
  - unfold deleteUnconfirmedTransaction in E. destruct (find_transaction h (m_transactions c)) as [t|] eqn:Ef; [|by injection E as <- <-].
    destruct (Z.eqb_spec (tx_blockHeight t) UNCONFIRMED) as [Hu|]; cbn [negb] in E; [|by injection E as <- <-].
    destruct (find_transaction_Some _ _ _ Ef) as [Ht <-]. apply list_elem_of_split in Ht as (l1 & l2 & El).
    destruct (delete_one c l1 t l2 HC El) as (c1 & E1 & _ & HC1 & _).
    { apply unconfirmed_unspent; [done| |done]. rewrite El. apply elem_of_app. right. by left. }
    rewrite E1 in E. by injection E as <- <-.
  - by destruct (markTransactionConfirmed_inv c block h gi b c' HC Ho HG E).
  - by eapply detach_inv.
  - unfold doAdvanceHeight in E. destruct (height <? m_currentHeight c); [done|]. apply bind_Ok in E as (l' & _ & [= _ <-]). split; [apply HC|by apply inv_with_height, HC].
Qed.

Lemma reachable_inv c : rtc container_step empty_container c -> container_inv age c.
Proof.
  intros H. pose proof empty_container_inv as H0. induction H as [|a b d Hs _ IH]; [done|]. by apply IH, (step_inv a).
Qed.

(** C16.  The wallet stays consistent under every sequence of operations that
    return without exception, where the transactions of blocks come in the order
    of the blocks, spend no output that they make themselves and are confirmed
    with real global indices, however the chain grows and is detached:
    transactions are sorted by height without duplicates; unconfirmed transfers belong to
    unconfirmed transactions, the others to listed transactions of their height;
    no transfer is both available and spent; a spent transfer is spent by a later
    transaction that is listed; exactly the available transfers have an unlock
    job; a key image is spent at most once; a multisignature output is held once;
    and of each key image the visible transfers are the spent one, else the
    earliest available one, else the only unconfirmed one. *)
Theorem transfers_invariant (c : TransfersContainer) :
  rtc container_step empty_container c -> container_inv age c.
Proof. apply reachable_inv. Qed.

(** In every state the wallet can reach, moving to a height at or above the
    current one succeeds and changes nothing but the height; below it, it is
    refused. *)
Theorem advance_total (c : TransfersContainer) (height : Z) :
  rtc container_step empty_container c -> 0 <= m_currentHeight c -> 0 <= height < UINT32_MAX ->
  if height <? m_currentHeight c then doAdvanceHeight c height = Throw invalid_argument
  else exists l, doAdvanceHeight c height = Ok (l, with_height height c).
Proof.
  intros HR Hc Hh. apply reachable_inv in HR. destruct (height <? m_currentHeight c) eqn:El; unfold doAdvanceHeight; rewrite El; [done|].
  apply Z.ltb_ge in El. unfold getUnlockingTransfers. rewrite (proj2 (Z.ltb_ge _ _) El).
  destruct (jobs_range_total (m_transactions c) (m_transactions c) (with_height height c)
    (if m_currentHeight c =? 0 then None else Some (u32 (m_currentHeight c + 1))) (u32 (height + 1))) as [l Hl].
  - by apply inv_with_height, HR.
  - destruct (m_currentHeight c =? 0); [done|]. rewrite !u32_small; unfold is_u32, UINT32_MAX in *; lia.
  - exists l. by rewrite Hl.
Qed.

(** * The balance *)

Lemma add_amounts_sum (p : TransactionOutputInformationEx -> bool) (m : transfers) (a : Z) :
  add_amounts p m a = fold_left (fun s x => u64 (s + x)) (map (fun o => amount (info o)) (List.filter p (map snd (map_to_list m)))) a.
Proof.
  unfold add_amounts. generalize (map snd (map_to_list m)). intros l. revert a.
  induction l as [|o l IH]; intros a; [done|]. cbn. rewrite IH. by destruct (p o).
Qed.

(** The key image of a transfer to a key. *)
Definition key_image (i : TransactionOutputInformationIn) : option (list Z) :=
  match descriptor i with DescriptorKey ki => Some ki | _ => None end.
Lemma key_image_Some i ki : key_image i = Some ki <-> descriptor i = image ki.
Proof. unfold key_image. destruct (descriptor i); naive_solver. Qed.

(** Values of a map whose images determine their keys have different images. *)
Lemma images_NoDup (p : TransactionOutputInformationEx -> bool) (l : list (TransactionOutputKey * TransactionOutputInformationEx)) :
  NoDup (map fst l) ->
  (forall k1 o1 k2 o2 ki, (k1, o1) ∈ l -> (k2, o2) ∈ l -> p o1 = true -> p o2 = true ->
     descriptor (info o1) = image ki -> descriptor (info o2) = image ki -> k1 = k2) ->
  NoDup (omap key_image (map info (List.filter p (map snd l)))).
Proof.
  intros HN Hi. induction l as [|[k o] l IH]; [constructor|]. cbn in HN. apply NoDup_cons in HN as [Hk HN].
  assert (IH' : NoDup (omap key_image (map info (List.filter p (map snd l))))).
  { apply IH; [done|]. intros k1 o1 k2 o2 ki H1 H2. apply Hi; by right. }
  cbn. destruct (p o) eqn:Ep; [|done]. cbn. destruct (key_image (info o)) as [ki|] eqn:Eki; [|done]. constructor; [|done].
  intros (i & (o2 & -> & Ho2)%list_elem_of_fmap & Ei)%list_elem_of_omap.
  apply list_elem_of_In, filter_In in Ho2 as [Ho2 Ep2]. apply list_elem_of_In, list_elem_of_fmap in Ho2 as ([k2 o2'] & E2 & H2).
  cbn in E2. subst o2'. apply Hk, list_elem_of_fmap. exists (k2, o2). split; [|done]. cbn.
  apply (Hi k o k2 o2 ki); [by left|by right|done|done|by apply key_image_Some..].
Qed.

Section Balance.
Variables (c : TransfersContainer) (HV : vis_inv c).

Lemma has_image (m : transfers) (k : TransactionOutputKey) (o : TransactionOutputInformationEx) (ki : list Z) : m !! k = Some o -> descriptor (info o) = image ki -> has_descriptor (image ki) m !! k = Some o.
Proof. intros Hk Hd%matches_image. by rewrite has_lookup, Hk; cbn -[descriptor_matches]; rewrite Hd. Qed.

Lemma visible_available k o ki :
  m_availableTransfers c !! k = Some o -> visible o = true -> descriptor (info o) = image ki ->
  spent_has_descriptor (image ki) (m_spentTransfers c) = ∅ /\ earliest (has_descriptor (image ki) (m_availableTransfers c)) = Some k.
Proof.
  intros Ho Hv Hd. destruct (vi_images _ HV ki) as (_ & H & _). rewrite (H k o (has_image _ _ _ _ Ho Hd)) in Hv.
  apply andb_true_iff in Hv as [Hs%Nat.eqb_eq Hb%bool_decide_eq_true]. by apply map_size_empty_inv in Hs.
Qed.
Lemma visible_unconfirmed k o ki :
  m_unconfirmedTransfers c !! k = Some o -> visible o = true -> descriptor (info o) = image ki ->
  spent_has_descriptor (image ki) (m_spentTransfers c) = ∅ /\ has_descriptor (image ki) (m_availableTransfers c) = ∅ /\
  base.size (has_descriptor (image ki) (m_unconfirmedTransfers c)) = 1%nat.
Proof.
  intros Ho Hv Hd. destruct (vi_images _ HV ki) as (_ & _ & H). rewrite (H k o (has_image _ _ _ _ Ho Hd)) in Hv.
  apply andb_true_iff in Hv as [ [Hs%Nat.eqb_eq Ha%Nat.eqb_eq]%andb_true_iff Hu%Nat.eqb_eq].
  by apply map_size_empty_inv in Hs, Ha.
Qed.

Lemma size_one (m : transfers) (k1 k2 : TransactionOutputKey) (o1 o2 : TransactionOutputInformationEx) : base.size m = 1%nat -> m !! k1 = Some o1 -> m !! k2 = Some o2 -> k1 = k2.
Proof.
  intros Hs H1 H2. destruct (decide (k1 = k2)) as [|Hn]; [done|].
  assert (Hd : delete k1 m !! k2 = Some o2) by by rewrite lookup_delete_ne.
  assert (E : base.size (delete k1 m) = 0%nat) by by rewrite (map_size_delete_Some k1 m), Hs.
  apply map_size_empty_inv in E. by rewrite E, lookup_empty in Hd.
Qed.

Lemma shown_once (p q : TransactionOutputInformationEx -> bool) :
  (forall o, p o = true -> visible o = true) -> (forall o, q o = true -> visible o = true) ->
  let l := map info (List.filter p (map snd (map_to_list (m_availableTransfers c)))) ++
           map info (List.filter q (map snd (map_to_list (m_unconfirmedTransfers c)))) in
  NoDup (omap key_image l) /\
  (forall k s ki, m_spentTransfers c !! k = Some s -> descriptor (info (spent_output s)) = image ki -> ki ∉ omap key_image l).
Proof.
  intros Hp Hq l.
  assert (HA : forall ki, ki ∈ omap key_image (map info (List.filter p (map snd (map_to_list (m_availableTransfers c))))) ->
    exists k o, m_availableTransfers c !! k = Some o /\ visible o = true /\ descriptor (info o) = image ki).
  { intros ki (i & (o & -> & Ho)%list_elem_of_fmap & Ei)%list_elem_of_omap. apply list_elem_of_In, filter_In in Ho as [Ho Ep].
    apply list_elem_of_In, list_elem_of_fmap in Ho as ([k o'] & E & Hk%elem_of_map_to_list). cbn in E. subst o'. exists k, o.
    split_and!; [done|by apply Hp|by apply key_image_Some]. }
  assert (HU : forall ki, ki ∈ omap key_image (map info (List.filter q (map snd (map_to_list (m_unconfirmedTransfers c))))) ->
    exists k o, m_unconfirmedTransfers c !! k = Some o /\ visible o = true /\ descriptor (info o) = image ki).
  { intros ki (i & (o & -> & Ho)%list_elem_of_fmap & Ei)%list_elem_of_omap. apply list_elem_of_In, filter_In in Ho as [Ho Ep].
    apply list_elem_of_In, list_elem_of_fmap in Ho as ([k o'] & E & Hk%elem_of_map_to_list). cbn in E. subst o'. exists k, o.
    split_and!; [done|by apply Hq|by apply key_image_Some]. }
  unfold l. rewrite omap_app. split.
  - apply NoDup_app. split_and!.
    + apply images_NoDup; [apply NoDup_fst_map_to_list|].
      intros k1 o1 k2 o2 ki H1%elem_of_map_to_list H2%elem_of_map_to_list V1%Hp V2%Hp D1 D2.
      destruct (visible_available k1 o1 ki H1 V1 D1) as [_ E1], (visible_available k2 o2 ki H2 V2 D2) as [_ E2]. congruence.
    + intros ki (k1 & o1 & H1 & V1 & D1)%HA (k2 & o2 & H2 & V2 & D2)%HU.
      destruct (visible_unconfirmed k2 o2 ki H2 V2 D2) as (_ & E & _). pose proof (has_image _ _ _ _ H1 D1) as H. by rewrite E, lookup_empty in H.
    + apply images_NoDup; [apply NoDup_fst_map_to_list|].
      intros k1 o1 k2 o2 ki H1%elem_of_map_to_list H2%elem_of_map_to_list V1%Hq V2%Hq D1 D2.
      destruct (visible_unconfirmed k1 o1 ki H1 V1 D1) as (_ & _ & E). eapply size_one; [exact E|by apply has_image..].
  - intros k s ki Hs Hd [ (k1 & o1 & H1 & V1 & D1)%HA|(k1 & o1 & H1 & V1 & D1)%HU]%elem_of_app.
    + destruct (visible_available k1 o1 ki H1 V1 D1) as [E _]. apply (f_equal (lookup k)) in E. rewrite spent_has_lookup, Hs, lookup_empty in E.
      cbn -[descriptor_matches] in E. by rewrite (proj2 (matches_image _ _) Hd) in E.
    + destruct (visible_unconfirmed k1 o1 ki H1 V1 D1) as [E _]. apply (f_equal (lookup k)) in E. rewrite spent_has_lookup, Hs, lookup_empty in E.
      cbn -[descriptor_matches] in E. by rewrite (proj2 (matches_image _ _) Hd) in E.
Qed.
End Balance.

(** C19.  The balance of a wallet, for any choice of flags, is the sum of the
    outputs it would list, in which no key image appears twice and none that is
    already spent: coins are never counted twice. *)
Theorem balance_counts_once (m_currency : Currency) (c : TransfersContainer) (now flags : Z) :
  rtc container_step empty_container c ->
  balance m_currency age c now flags = sum_u64 (map amount (getOutputs m_currency age c now flags)) /\
  NoDup (omap key_image (getOutputs m_currency age c now flags)) /\
  (forall k s ki, m_spentTransfers c !! k = Some s -> descriptor (info (spent_output s)) = image ki ->
     ki ∉ omap key_image (getOutputs m_currency age c now flags)).
Proof.
  intros HR. apply reachable_inv in HR as [_ [_ HV] ]. split.
  - unfold balance, getOutputs. rewrite !add_amounts_sum. destruct (flag flags IncludeStateLocked).
    + unfold sum_u64. by rewrite map_app, !map_map, fold_left_app.
    + by rewrite app_nil_r, map_map.
  - unfold getOutputs. destruct (flag flags IncludeStateLocked).
    + apply shown_once; [done|intros o Ho; by apply andb_true_iff in Ho as [? _]..].
    + pose proof (shown_once c HV (fun o => visible o && isIncluded m_currency age c now o flags) (fun _ => false)) as H.
      assert (E : List.filter (fun _ : TransactionOutputInformationEx => false) (map snd (map_to_list (m_unconfirmedTransfers c))) = []).
      { generalize (map snd (map_to_list (m_unconfirmedTransfers c))). intros l. induction l; done. }
      rewrite E in H. apply H; [intros o Ho; by apply andb_true_iff in Ho as [? _]|done].
Qed.
End Theory.

(** * A small history: a payment is received in block 5 and spent by an
    unconfirmed transaction that returns change *)

Definition payment_output (image : Z) (amount index : Z) : TransactionOutputInformationIn :=
  {| type := OutputTypeKey; amount := amount; globalOutputIndex := index; outputInTransaction := 0; oi_transactionHash := NULL_HASH;
     transactionPublicKey := NULL_HASH; outputKey := [image]; requiredSignatures := 0; term := 0; oi_keyImage := [image] |}.
Definition received : TransactionPrefixImpl :=
  {| m_txPrefix := {| version := 1; unlockTime := 0; inputs := [];
       outputs := [{| out_amount := 100; target := OutKey {| ko_key := [7] |} |}]; extra := [] |}; m_extra := []; m_txHash := [1] |}.
Definition spending : TransactionPrefixImpl :=
  {| m_txPrefix := {| version := 1; unlockTime := 0; inputs := [InKey {| ki_amount := 100; outputIndexes := [3]; keyImage := [7] |}];
       outputs := [{| out_amount := 40; target := OutKey {| ko_key := [8] |} |}]; extra := [] |}; m_extra := []; m_txHash := [2] |}.
Definition block5 : TransactionBlockInfo := {| bk_height := 5; bk_timestamp := 1000; bk_transactionIndex := 0 |}.
Definition block6 : TransactionBlockInfo := {| bk_height := 6; bk_timestamp := 1100; bk_transactionIndex := 0 |}.
Definition in_pool : TransactionBlockInfo := {| bk_height := UNCONFIRMED; bk_timestamp := 1050; bk_transactionIndex := 0 |}.

Definition state_of {A} (r : outcome (A * TransfersContainer)) : TransfersContainer :=
  match r with Ok (_, c) => c | _ => empty_container end.
Definition with_payment : TransfersContainer :=
  state_of (addTransaction (B := debug_build) 10 empty_container block5 received [payment_output 7 100 3] []).
Definition with_spending : TransfersContainer :=
  state_of (addTransaction (B := debug_build) 10 with_payment in_pool spending [payment_output 8 40 UINT32_MAX] []).
Definition with_confirmed : TransfersContainer :=
  state_of (markTransactionConfirmed (B := debug_build) 10 with_spending block6 [2] [9]).

Lemma in_order_list c block : forallb (fun t => (tx_blockHeight t =? UNCONFIRMED) || (tx_blockHeight t <=? bk_height block)) (m_transactions c) = true ->
  in_order c block.
Proof.
  intros H t Ht Hn. rewrite forallb_forall in H. specialize (H t (proj1 (list_elem_of_In _ _) Ht)).
  apply orb_true_iff in H as [H%Z.eqb_eq|H%Z.leb_le]; [done|lia].
Qed.

Lemma no_input i {A} (r : A) (f : TransactionInput -> outcome A) ty :
  (input ← getInputChecked_typed (m_txPrefix received) i ty; f input) = Ok r -> False.
Proof.
  intros (input & E & _)%bind_Ok. apply bind_Ok in E as (x & E & _). unfold getInputChecked in E.
  destruct (zlen (inputs (m_txPrefix received)) <=? i); [done|]. apply vget_Ok in E as [_ E]. done.
Qed.
Lemma payment_step : container_step (B := debug_build) 10 empty_container with_payment.
Proof.
  eapply (step_add 10 received empty_container block5 [payment_output 7 100 3] [] [1] true).
  - by apply in_order_list.
  - split; intros i input Hi; by eapply no_input in Hi.
  - reflexivity.
  - vm_compute. reflexivity.
Qed.
Lemma spending_step : container_step (B := debug_build) 10 with_payment with_spending.
Proof.
  eapply (step_add 10 spending with_payment in_pool [payment_output 8 40 UINT32_MAX] [] [2] true).
  - apply in_order_list. by vm_compute.
  - split; intros; apply not_elem_of_nil.
  - reflexivity.
  - vm_compute. reflexivity.
Qed.
Lemma confirmed_step : container_step (B := debug_build) 10 with_spending with_confirmed.
Proof.
  eapply (step_confirm 10 with_spending block6 [2] [9] true).
  - apply in_order_list. by vm_compute.
  - by repeat constructor.
  - vm_compute. reflexivity.
Qed.

Lemma history : rtc (container_step (B := debug_build) 10) empty_container with_confirmed.
Proof.
  eapply rtc_l; [apply payment_step|]. eapply rtc_l; [apply spending_step|]. apply rtc_once, confirmed_step.
Qed.

Lemma with_payment_inv : container_inv 10 with_payment.
Proof. eapply reachable_inv, rtc_once, payment_step. Qed.
Lemma with_spending_inv : container_inv 10 with_spending.
Proof. eapply reachable_inv. eapply rtc_l; [apply payment_step|]. apply rtc_once, spending_step. Qed.

Lemma unconfirmed_roundtrip_witness :
  addTransaction (B := debug_build) 10 with_payment in_pool spending [payment_output 8 40 UINT32_MAX] [] = Ok (true, [], with_spending) /\
  base.size (m_spentTransfers with_spending) = 1%nat /\
  deleteUnconfirmedTransaction (B := debug_build) 10 with_spending [2] = Ok (true, with_payment).
Proof.
  split_and!; [vm_compute; reflexivity|vm_compute; reflexivity|].
  eapply (unconfirmed_roundtrip 10 with_payment with_spending in_pool spending [payment_output 8 40 UINT32_MAX] [] []);
    [apply with_payment_inv|apply in_order_list; vm_compute; reflexivity|reflexivity|reflexivity|vm_compute; reflexivity].
Defined.

Lemma detach_clean_witness :
  base.size (m_spentTransfers with_spending) = 1%nat /\
  exists deleted locked c', detach (B := debug_build) 10 with_spending 5 = Ok (deleted, locked, c') /\ container_inv 10 c' /\
    m_currentHeight c' = Z.max 0 (5 - 1) /\
    (forall h, h ∈ deleted <-> exists t, t ∈ m_transactions with_spending /\ tx_hash t = h /\ goes 5 with_spending t) /\
    (forall t, t ∈ m_transactions c' <-> t ∈ m_transactions with_spending /\ ~ goes 5 with_spending t) /\
    without deleted with_spending c' /\
    (forall t, t ∈ m_transactions c' -> tx_blockHeight t = UNCONFIRMED \/ tx_blockHeight t < 5) /\
    (forall k o, confirmed c' k o -> oi_blockHeight o < 5).
Proof.
  split; [vm_compute; reflexivity|]. apply (detach_clean (B := debug_build) 10 with_spending 5); [apply with_spending_inv|vm_compute; split; congruence..].
Defined.

Lemma transfers_invariant_witness : base.size (m_spentTransfers with_confirmed) = 1%nat /\ container_inv 10 with_confirmed.
Proof. split; [vm_compute; reflexivity|]. apply (transfers_invariant (B := debug_build) 10), history. Defined.

Lemma advance_total_witness : exists l, doAdvanceHeight (B := debug_build) with_confirmed 17 = Ok (l, with_height 17 with_confirmed).
Proof.
  apply (advance_total (B := debug_build) 10 with_confirmed 17 history); [vm_compute; congruence|vm_compute; split; congruence].
Defined.

Lemma balance_counts_once_witness :
  balance default_currency 10 (with_height 30 with_confirmed) 0 IncludeKeyUnlocked = 40 /\
  balance default_currency 10 with_confirmed 0 IncludeAll = sum_u64 (map amount (getOutputs default_currency 10 with_confirmed 0 IncludeAll)) /\
  NoDup (omap key_image (getOutputs default_currency 10 with_confirmed 0 IncludeAll)) /\
  (forall k s ki, m_spentTransfers with_confirmed !! k = Some s -> descriptor (info (spent_output s)) = DescriptorKey ki ->
     ki ∉ omap key_image (getOutputs default_currency 10 with_confirmed 0 IncludeAll)).
Proof. split; [vm_compute; reflexivity|]. apply (balance_counts_once (B := debug_build) 10), history. Defined.

(** A second transaction that spends the same payment is refused. *)
Example second_spending : exists e,
  addTransaction (B := debug_build) 10 with_spending in_pool {| m_txPrefix := m_txPrefix spending; m_extra := []; m_txHash := [3] |} [] [] = Throw e.
Proof. eexists. vm_compute. reflexivity. Qed.
