(* ===== verification/SynchronizationState.v ===== *)
(** What a wallet knows of the chain: [Transfers/SynchronizationState.cpp].

    The state is the list of the hashes of the known blocks.  The short history
    sent to the node always ends with the genesis block, so that the node finds a
    common block; [checkInterval] finds the first block that differs from the
    node's answer. *)
From S2P Require Import Prelude CryptoNote.

Record SynchronizationState := { m_blockchain : list (list Z) }.
Record BlockchainInterval := { startHeight : Z; blocks : list (list Z) }.
Record CheckResult := { detachRequired : bool; detachHeight : Z; hasNewBlocks : bool; newBlockHeight : Z }.

(** The constructor. *)
Definition new_state (genesisBlockHash : list Z) : SynchronizationState := {| m_blockchain := [genesisBlockHash] |}.

Section State.
Context {B : BuildConfig}.

(** The loop of [getShortHistory]; it also returns [genesis_included]. *)
Fixpoint short_history_loop (fuel : nat) (bc : list (list Z)) (sz i current_multiplier current_back_offset : Z)
    (genesis_included : bool) : option (outcome (list (list Z) * bool)) :=
  match fuel with
  | O => None
  | S fuel =>
      if current_back_offset <? sz then
        let included := genesis_included || (sz - current_back_offset =? 0) in
        let '(mult, off) :=
          if i <? 10 then (current_multiplier, u32 (current_back_offset + 1))
          else (u32 (current_multiplier * 2), u32 (current_back_offset + u32 (current_multiplier * 2))) in
        rest ← short_history_loop fuel bc sz (u32 (i + 1)) mult off included;
        Some (h ← vget bc (sz - current_back_offset); '(l, g) ← rest; Ok (h :: l, g))
      else Some (Ok ([], genesis_included))
  end.

(** Ten steps of one and the doubling ones. *)
Definition short_history_fuel : nat := 42.

(** [None] when the loop does not end. *)
Definition getShortHistory (s : SynchronizationState) (localHeight : Z) : option (outcome (list (list Z))) :=
  let bc := m_blockchain s in
  let sz := Z.min (u32 (zlen bc)) (u32 (localHeight + 1)) in
  if sz =? 0 then Some (Ok [])
  else
    r ← short_history_loop short_history_fuel bc sz 0 1 1 false;
    Some ('(l, g) ← r; if g : bool then Ok l else h ← vget bc 0; Ok (l ++ [h])).

(** The first height of the range where the hashes differ. *)
Fixpoint first_difference (bc : list (list Z)) (interval : BlockchainInterval) (n : nat) (i : Z) : outcome (option Z) :=
  match n with
  | O => Ok None
  | S n =>
      a ← vget bc i;
      b ← vget (blocks interval) (i - startHeight interval);
      if decide (a = b) then first_difference bc interval n (i + 1) else Ok (Some i)
  end.

Definition checkInterval (s : SynchronizationState) (interval : BlockchainInterval) : outcome CheckResult :=
  _ ← massert (startHeight interval <=? zlen (m_blockchain s));
  let intervalEnd := u32 (startHeight interval + u32 (zlen (blocks interval))) in
  let iterationEnd := Z.min (u32 (zlen (m_blockchain s))) intervalEnd in
  d ← first_difference (m_blockchain s) interval (Z.to_nat (iterationEnd - startHeight interval)) (startHeight interval);
  Ok match d with
     | Some i => {| detachRequired := true; detachHeight := i; hasNewBlocks := true; newBlockHeight := i |}
     | None =>
         if zlen (m_blockchain s) <? intervalEnd
         then {| detachRequired := false; detachHeight := 0; hasNewBlocks := true; newBlockHeight := u32 (zlen (m_blockchain s)) |}
         else {| detachRequired := false; detachHeight := 0; hasNewBlocks := false; newBlockHeight := 0 |}
     end.

(** [resize] pads with zero hashes when it grows. *)
Definition state_detach (s : SynchronizationState) (height : Z) : outcome SynchronizationState :=
  _ ← massert (height <? zlen (m_blockchain s));
  Ok {| m_blockchain := resize (Z.to_nat height) NULL_HASH (m_blockchain s) |}.

Definition addBlocks (s : SynchronizationState) (blockHashes : list (list Z)) (height : Z) : outcome SynchronizationState :=
  _ ← massert (zlen (m_blockchain s) =? height);
  Ok {| m_blockchain := m_blockchain s ++ blockHashes |}.

Definition getHeight (s : SynchronizationState) : Z := u32 (zlen (m_blockchain s)).
Definition getKnownBlockHashes (s : SynchronizationState) : list (list Z) := m_blockchain s.
End State.

(** * The short history *)

(** Hashes of blocks at falling heights between 1 and [hi]. *)
Definition sampled (bc : list (list Z)) (hi : Z) (l : list (list Z)) : Prop :=
  exists hs, StronglySorted Z.gt hs /\ Forall (fun h => 0 < h <= hi) hs /\ Forall2 (fun h x => bc !! Z.to_nat h = Some x) hs l.

Lemma sampled_nil bc hi : sampled bc hi [].
Proof. exists []. split_and!; constructor. Qed.
Lemma sampled_cons bc hi lo x l : 0 < hi -> lo < hi -> bc !! Z.to_nat hi = Some x -> sampled bc lo l -> sampled bc hi (x :: l).
Proof.
  intros H0 Hl Hx (hs & H1 & H2 & H3). exists (hi :: hs). split_and!.
  - constructor; [done|]. eapply Forall_impl; [exact H2|]. cbn. lia.
  - constructor; [lia|]. eapply Forall_impl; [exact H2|]. cbn. lia.
  - by constructor.
Qed.

(** The loop ends within its fuel with hashes from the offset down. *)
Definition loop_done (fuel : nat) (bc : list (list Z)) (sz i mult off : Z) : Prop :=
  exists l, short_history_loop fuel bc sz i mult off false = Some (Ok (l, false)) /\ sampled bc (sz - off) l /\ (length l <= fuel)%nat /\
    (off < sz -> head l = bc !! Z.to_nat (sz - off)).

Lemma loop_step fuel bc sz i mult off mult' off' :
  0 < off -> sz <= zlen bc -> off < off' ->
  (if i <? 10 then (mult, u32 (off + 1)) else (u32 (mult * 2), u32 (off + u32 (mult * 2)))) = (mult', off') ->
  (off < sz -> loop_done fuel bc sz (u32 (i + 1)) mult' off') -> loop_done (S fuel) bc sz i mult off.
Proof.
  intros Ho Hs Hoo E IH. unfold loop_done. cbn [short_history_loop]. destruct (Z.ltb_spec off sz) as [Hl|Hl].
  2: { exists []. split_and!; [done|exists []; split_and!; constructor|cbn; lia|lia]. }
  destruct (IH Hl) as (l & El & HS & HL & _). rewrite (proj2 (Z.eqb_neq (sz - off) 0)) by lia. cbn [orb]. rewrite E, El.
  destruct (vget_in_range bc (sz - off)) as [h Hh]; [lia|]. exists (h :: l). cbn. rewrite Hh. cbn.
  apply vget_Ok in Hh as [_ Hh]. split_and!; [done| |lia|done]. eapply sampled_cons; [lia| |exact Hh|exact HS]. lia.
Qed.

(** The doubling steps: after [k] of them the offset is [2 ^ (k + 1) + 9]. *)
Lemma loop_doubling fuel bc sz k :
  sz <= zlen bc -> sz <= 2 ^ 31 -> 0 <= k -> 31 <= k + Z.of_nat fuel -> k <= 30 ->
  loop_done fuel bc sz (10 + k) (2 ^ k) (2 ^ (k + 1) + 9).
Proof.
  intros Hs H31. revert k. induction fuel as [|fuel IH]; intros k Hk Hf Hk'; [lia|].
  assert (Ek : 2 ^ (k + 1) = 2 * 2 ^ k) by (rewrite Z.pow_add_r by lia; lia).
  assert (Ek2 : 2 ^ (k + 2) = 4 * 2 ^ k) by (rewrite Z.pow_add_r by lia; lia).
  assert (Hp : 2 ^ k <= 2 ^ 30) by (apply Z.pow_le_mono_r; lia). assert (Hp0 : 0 < 2 ^ k) by (apply Z.pow_pos_nonneg; lia).
  change (2 ^ 30) with 1073741824 in Hp. change (2 ^ 31) with 2147483648 in H31.
  destruct (Z.leb_spec sz (2 ^ (k + 1) + 9)) as [Hle|Hgt].
  - unfold loop_done. cbn [short_history_loop]. rewrite (proj2 (Z.ltb_ge _ _) Hle). exists []. split_and!; [done|apply sampled_nil|cbn; lia|lia].
  - assert (k <= 29). { destruct (Z.le_gt_cases k 29); [done|]. replace k with 30 in * by lia. cbn in Hgt. lia. }
    eapply (loop_step _ _ _ _ _ _ (2 ^ (k + 1)) (2 ^ (k + 2) + 9)); [lia|done|lia| |].
    + rewrite (proj2 (Z.ltb_ge _ _)) by lia. rewrite !u32_small; unfold is_u32; [f_equal; lia|lia..].
    + intros _. rewrite u32_small by (unfold is_u32; lia).
      replace (10 + k + 1) with (10 + (k + 1)) by lia. replace (k + 2) with (k + 1 + 1) by lia. apply IH; lia.
Qed.

Lemma loop_single n bc sz i fuel :
  sz <= zlen bc -> sz <= 2 ^ 31 -> 0 <= i -> i + Z.of_nat n = 10 -> (fuel = n + 32)%nat -> loop_done fuel bc sz i 1 (i + 1).
Proof.
  intros Hs H31. revert i fuel. induction n as [|n IH]; intros i fuel Hi Hn ->.
  - replace i with 10 by lia. apply (loop_doubling (0 + 32) bc sz 0); lia.
  - cbn [plus]. eapply (loop_step _ _ _ _ _ _ 1 (i + 1 + 1)); [lia|done|lia| |].
    + rewrite (proj2 (Z.ltb_lt _ _)) by lia. rewrite u32_small by (unfold is_u32; lia). done.
    + intros _. rewrite u32_small by (unfold is_u32; lia). apply IH; lia.
Qed.

(** What [getShortHistory] returns when the wallet knows the first [sz] blocks it
    asks for. *)
Lemma getShortHistory_spec s localHeight :
  1 <= zlen (m_blockchain s) <= 2 ^ 31 -> 0 <= localHeight < UINT32_MAX ->
  let sz := Z.min (zlen (m_blockchain s)) (localHeight + 1) in
  exists l genesis, getShortHistory s localHeight = Some (Ok (l ++ [genesis])) /\ m_blockchain s !! 0%nat = Some genesis /\
    sampled (m_blockchain s) (sz - 1) l /\ (length l <= 42)%nat /\ head (l ++ [genesis]) = m_blockchain s !! Z.to_nat (sz - 1).
Proof.
  intros Hs Hl sz. change (2 ^ 31) with 2147483648 in Hs. unfold UINT32_MAX in Hl. unfold getShortHistory. rewrite !u32_small by (unfold is_u32; lia). fold sz.
  assert (Hsz : 1 <= sz <= zlen (m_blockchain s)) by (unfold sz; lia). clearbody sz.
  rewrite (proj2 (Z.eqb_neq sz 0)) by lia.
  destruct (loop_single 10 (m_blockchain s) sz 0 42) as (l & El & HS & HL & Hh); [lia|change (2 ^ 31) with 2147483648; lia|lia|lia|done|].
  destruct (m_blockchain s) as [|genesis bc] eqn:Eb; [rewrite zlen_nil in Hs; lia|].
  exists l, genesis. rewrite <- Eb in *. unfold short_history_fuel. change (0 + 1) with 1 in *. rewrite El. cbn. split_and!; try done.
  - rewrite Eb. done.
  - by rewrite Eb.
  - destruct (Z.ltb_spec 1 sz) as [H1|H1].
    + destruct l as [|x l]; [|by rewrite <- Hh]. specialize (Hh H1). cbn in Hh.
      destruct (lookup_lt_is_Some_2 (m_blockchain s) (Z.to_nat (sz - 1))) as [y Hy]; [unfold zlen in *; lia|]. cbn in *. congruence.
    + assert (E1 : sz = 1) by lia. replace (sz - 1) with 0 by lia. destruct HS as (hs & _ & HF & H2). destruct H2 as [|h y hs l ? ? ]; [by rewrite Eb|].
      apply Forall_cons in HF as [HF _]. lia.
Qed.

(** * Comparing with the node *)

(** The known blocks with the node's blocks from [start] on. *)
Definition overlay (bc : list (list Z)) (interval : BlockchainInterval) : list (list Z) :=
  take (Z.to_nat (startHeight interval)) bc ++ blocks interval.

Lemma overlay_at (bc bs : list (list Z)) (start i : nat) :
  (start <= i <= length bc)%nat -> (i <= start + length bs)%nat ->
  (forall j, (start <= j < i)%nat -> bc !! j = bs !! (j - start)%nat) ->
  take i bc ++ drop (i - start) bs = take start bc ++ bs.
Proof.
  intros Hi Hb Hj. replace i with (start + (i - start))%nat at 1 by lia. rewrite <- take_take_drop, <- app_assoc. f_equal.
  rewrite <- (take_drop (i - start) bs) at 2. f_equal. apply list_eq. intros j.
  destruct (decide (j < i - start)%nat) as [Hl|Hl].
  - rewrite !lookup_take_lt by lia. rewrite lookup_drop, Hj by lia. f_equal. lia.
  - rewrite !lookup_take_ge by lia. done.
Qed.

Section Check.
Context {B : BuildConfig}.
Variables (s : SynchronizationState) (interval : BlockchainInterval).
Let n := zlen (m_blockchain s).
Let e := startHeight interval + zlen (blocks interval).
Hypothesis Hs : 0 <= startHeight interval <= n.
Hypothesis Hn : n < 2 ^ 32.
Hypothesis He : e < 2 ^ 32.

Lemma first_difference_spec k i :
  startHeight interval <= i -> i + Z.of_nat k <= Z.min n e ->
  exists d, first_difference (m_blockchain s) interval k i = Ok d /\
    (forall j, i <= j < default (i + Z.of_nat k) d -> m_blockchain s !! Z.to_nat j = blocks interval !! Z.to_nat (j - startHeight interval)) /\
    match d with
    | Some h => i <= h < i + Z.of_nat k /\ m_blockchain s !! Z.to_nat h <> blocks interval !! Z.to_nat (h - startHeight interval)
    | None => True
    end.
Proof.
  revert i. induction k as [|k IH]; intros i Hi Hk; cbn [first_difference].
  { exists None. split_and!; [done| |done]. cbn. lia. }
  destruct (vget_in_range (m_blockchain s) i) as [a Ha]; [unfold n in *; lia|].
  destruct (vget_in_range (blocks interval) (i - startHeight interval)) as [b Hb]; [unfold e in *; lia|].
  rewrite Ha, Hb. cbn. apply vget_Ok in Ha as [_ Ha], Hb as [_ Hb]. destruct (decide (a = b)) as [->|Hne].
  - destruct (IH (i + 1)) as (d & -> & H1 & H2); [lia..|]. exists d. split_and!; [done| |].
    + intros j Hj. destruct (decide (j = i)) as [->|Hji]; [by rewrite Ha, Hb|]. apply H1. destruct d; cbn in *; lia.
    + destruct d; [|done]. destruct H2. split; [lia|done].
  - exists (Some i). split_and!; [done|cbn; lia|lia|lia|]. rewrite Ha, Hb. congruence.
Qed.

(** What the wallet's state becomes when it follows the result. *)
Definition follow (r : CheckResult) : outcome SynchronizationState :=
  s ← (if detachRequired r then state_detach s (detachHeight r) else Ok s);
  if hasNewBlocks r then addBlocks s (drop (Z.to_nat (newBlockHeight r - startHeight interval)) (blocks interval)) (newBlockHeight r) else Ok s.

Lemma checkInterval_spec :
  exists r, checkInterval s interval = Ok r /\
    (detachRequired r = true -> hasNewBlocks r = true /\ newBlockHeight r = detachHeight r /\ startHeight interval <= detachHeight r < Z.min n e /\
       m_blockchain s !! Z.to_nat (detachHeight r) <> blocks interval !! Z.to_nat (detachHeight r - startHeight interval)) /\
    (detachRequired r = false -> hasNewBlocks r = true -> newBlockHeight r = n /\ n < e) /\
    (hasNewBlocks r = false -> e <= n) /\
    (forall j, startHeight interval <= j < (if hasNewBlocks r then newBlockHeight r else e) ->
       m_blockchain s !! Z.to_nat j = blocks interval !! Z.to_nat (j - startHeight interval)).
Proof.
  pose proof (zlen_nonneg (blocks interval)) as Hz. change (2 ^ 32) with 4294967296 in *. unfold checkInterval. fold n.
  rewrite massert_true by (apply Z.leb_le; lia). cbn [mbind outcome_bind].
  rewrite (u32_small (zlen (blocks interval))) by (unfold is_u32, e in *; lia). fold e. rewrite (u32_small e), (u32_small n) by (unfold is_u32; lia).
  destruct (first_difference_spec (Z.to_nat (Z.min n e - startHeight interval)) (startHeight interval)) as (d & -> & H1 & H2); [lia|unfold e in *; lia|].
  cbn [mbind outcome_bind]. eexists. split; [done|]. assert (startHeight interval <= e) by (unfold e; lia).
  destruct d as [h|].
  - destruct H2 as [Hh Hne]. cbn. split_and!; try done. intros _. split_and!; [done|done|lia|lia|done].
  - cbn in H1. destruct (Z.ltb_spec n e) as [Hlt|Hle]; cbn; split_and!; try done; intros j Hj; apply H1; lia.
Qed.

Lemma follow_spec : exists r s', checkInterval s interval = Ok r /\ follow r = Ok s' /\
  (if hasNewBlocks r then m_blockchain s' = overlay (m_blockchain s) interval else s' = s) /\
  take (Z.to_nat e) (m_blockchain s') = overlay (m_blockchain s) interval.
Proof.
  pose proof (zlen_nonneg (blocks interval)) as Hz. change (2 ^ 32) with 4294967296 in *.
  destruct checkInterval_spec as (r & Er & H1 & H2 & H3 & H4). exists r.
  assert (Hlen : zlen (overlay (m_blockchain s) interval) = e).
  { unfold overlay. rewrite zlen_app. unfold zlen at 1. rewrite length_take. unfold e, n, zlen in *. lia. }
  assert (Hfin : forall bc, bc = overlay (m_blockchain s) interval -> take (Z.to_nat e) bc = overlay (m_blockchain s) interval).
  { intros bc ->. apply take_ge. unfold zlen in Hlen. lia. }
  assert (Hov : forall i, startHeight interval <= i <= Z.min n e ->
    (forall j, startHeight interval <= j < i -> m_blockchain s !! Z.to_nat j = blocks interval !! Z.to_nat (j - startHeight interval)) ->
    take (Z.to_nat i) (m_blockchain s) ++ drop (Z.to_nat (i - startHeight interval)) (blocks interval) = overlay (m_blockchain s) interval).
  { intros i Hi Hj. replace (Z.to_nat (i - startHeight interval)) with (Z.to_nat i - Z.to_nat (startHeight interval))%nat by lia.
    apply overlay_at; [unfold n, zlen in *; lia|unfold e, zlen in *; lia|]. intros j Hjj. specialize (Hj (Z.of_nat j) ltac:(lia)).
    rewrite Nat2Z.id in Hj. rewrite Hj. f_equal. lia. }
  unfold follow. destruct (detachRequired r) eqn:Ed.
  - destruct (H1 eq_refl) as (Hb & En & Hr & _). rewrite Hb in *. unfold state_detach. fold n. rewrite massert_true by (apply Z.ltb_lt; lia).
    cbn [mbind outcome_bind m_blockchain]. rewrite resize_le by (unfold n, zlen in *; lia). unfold addBlocks. cbn [m_blockchain].
    rewrite massert_true by (apply Z.eqb_eq; unfold n, zlen in *; rewrite length_take; lia). cbn [mbind outcome_bind].
    eexists. split_and!; [done|done|cbn [m_blockchain]|apply Hfin; cbn [m_blockchain]]; rewrite <- En; apply Hov; [lia|done|lia|done].
  - cbn [mbind outcome_bind]. destruct (hasNewBlocks r) eqn:Eb.
    + destruct (H2 eq_refl eq_refl) as [En Hlt]. unfold addBlocks. fold n. rewrite massert_true by (apply Z.eqb_eq; lia). cbn [mbind outcome_bind].
      assert (Eo : m_blockchain s ++ drop (Z.to_nat (newBlockHeight r - startHeight interval)) (blocks interval) = overlay (m_blockchain s) interval).
      { rewrite <- (Hov (newBlockHeight r)); [|lia|done]. f_equal. rewrite take_ge; [done|unfold n, zlen in *; lia]. }
      eexists. split_and!; [done|done|exact Eo|]. by apply Hfin.
    + exists s. split_and!; try done. specialize (H3 eq_refl). rewrite <- (Hov e); [|unfold e in *; lia|done].
      rewrite (drop_ge (blocks interval)); [by rewrite app_nil_r|]. unfold e, zlen. lia.
Qed.
End Check.
