(* ===== verification/ChainQueries.v ===== *)
(** Questions to the chain: the queries of [CryptoNoteCore/Blockchain.cpp] and of
    [Core.cpp] that wallets and peers use.

    Where the source puts the serialized block or transaction into an answer, the
    model keeps the block or transaction itself ([toBinaryArray] is modelled in
    [Serialization]). *)
From S2P Require Import Prelude CryptoNote Serializer Serialization TransactionExtra Interest Currency Difficulty.
From S2P Require Import DepositIndex BlockIndex Checkpoints UpgradeDetector TreeHash BlockchainIndices ChainState Validation.
From S2P Require Import ShuffleGenerator Blockchain TransactionPool Reorganization MainChain.

Definition BLOCKS_IDS_SYNCHRONIZING_DEFAULT_COUNT : Z := 10000.
Definition BLOCKS_SYNCHRONIZING_DEFAULT_COUNT : Z := 128.

Section Queries.
Context {B : BuildConfig} {K : Crypto}.
Variable m_currency : Currency.

(** * Blocks *)

(** [getBlocks(start_offset, count, blocks)]; the bound of the loop wraps. *)
Definition getBlocks (bc : Blockchain) (start_offset count : Z) : option (list Block) :=
  if zlen (m_blocks bc) <=? start_offset then None
  else Some (map bl (take (Z.to_nat (u32 (start_offset + count) - start_offset)) (drop (Z.to_nat start_offset) (m_blocks bc)))).

(** [getBlocks(block_ids, blocks, missed_bs)]; [None] is the internal error. *)
Fixpoint getBlocks_by_id (bc : Blockchain) (block_ids : list (list Z)) : option (list Block * list (list Z)) :=
  match block_ids with
  | [] => Some ([], [])
  | id :: block_ids =>
      match getBlockHeight (m_blockIndex bc) id with
      | None => '(bs, missed) ← getBlocks_by_id bc block_ids; Some (bs, id :: missed)
      | Some height =>
          e ← m_blocks bc !! Z.to_nat height;
          '(bs, missed) ← getBlocks_by_id bc block_ids; Some (bl e :: bs, missed)
      end
  end.

Definition findBlockchainSupplement (bc : Blockchain) (qblock_ids : list (list Z)) : outcome Z :=
  _ ← massert (negb (length qblock_ids =? 0)%nat);
  _ ← (if NDEBUG then Ok tt else g ← getBlockId (m_blockIndex bc) 0; massert (bool_decide (last qblock_ids = Some g)));
  match findSupplement (m_blockIndex bc) qblock_ids with Some blockIndex => Ok blockIndex | None => Undefined end.

(** The overload with block ids: the ids, the number of blocks and the first
    index. *)
Definition findBlockchainSupplement_ids (bc : Blockchain) (remoteBlockIds : list (list Z)) (maxCount : Z)
  : outcome (list (list Z) * Z * Z) :=
  startBlockIndex ← findBlockchainSupplement bc remoteBlockIds;
  Ok (getBlockIds (m_blockIndex bc) startBlockIndex (u32 maxCount), getCurrentBlockchainHeight bc, startBlockIndex).

(** [std::lower_bound] from position [first], [len] elements left. *)
Fixpoint lower_bound (fuel : nat) (blocks : list BlockEntry) (first len timestamp : Z) : outcome Z :=
  match fuel with
  | O => Ok first
  | S fuel =>
      if len <=? 0 then Ok first
      else
        let half := len / 2 in
        b ← sget blocks (first + half);
        if CryptoNote.timestamp (header (bl b)) <? timestamp
        then lower_bound fuel blocks (first + half + 1) (len - half - 1) timestamp
        else lower_bound fuel blocks first half timestamp
  end.

(** [None] when it returns false. *)
Definition getLowerBound (bc : Blockchain) (timestamp startOffset : Z) : outcome (option Z) :=
  _ ← massert (startOffset <? zlen (m_blocks bc));
  bound ← lower_bound (length (m_blocks bc)) (m_blocks bc) startOffset (zlen (m_blocks bc) - startOffset)
            (u64 (timestamp - blockFutureTimeLimit m_currency));
  Ok (if bound =? zlen (m_blocks bc) then None else Some (u32 bound)).

(** * What wallets ask for *)

(** [findStartAndFullOffsets]: [None] when it returns false. *)
Definition findStartAndFullOffsets (bc : Blockchain) (knownBlockIds : list (list Z)) (timestamp : Z) : outcome (option (Z * Z)) :=
  match last knownBlockIds with
  | None => Ok None
  | Some back =>
      g ← getBlockIdByHeight bc 0;
      if decide (back = g) then
        startOffset ← findBlockchainSupplement bc knownBlockIds;
        bound ← getLowerBound bc timestamp startOffset;
        Ok (Some (startOffset, default startOffset bound))
      else Ok None
  end.

Definition findIdsForShortBlocks (bc : Blockchain) (startOffset startFullOffset : Z) : outcome (list (list Z)) :=
  _ ← massert (startOffset <=? startFullOffset);
  Ok (if startOffset <? startFullOffset
      then getBlockIds (m_blockIndex bc) startOffset (Z.min BLOCKS_IDS_SYNCHRONIZING_DEFAULT_COUNT (startFullOffset - startOffset))
      else []).

(** An entry of an answer: the id and, for the blocks sent in full, the block with
    its transactions. *)
Record BlockShortInfo := { bs_blockId : list Z; bs_block : option Block; bs_txPrefixes : list (TransactionPrefix * list Z) }.
Definition id_entry (id : list Z) : BlockShortInfo := {| bs_blockId := id; bs_block := None; bs_txPrefixes := [] |}.

Fixpoint prefix_infos (txs : list Transaction) : outcome (list (TransactionPrefix * list Z)) :=
  match txs with
  | [] => Ok []
  | tx :: txs => h ← tx_hash tx; rest ← prefix_infos txs; Ok ((prefix tx, h) :: rest)
  end.
Definition lite_entry (bc : Blockchain) (timestamp : Z) (b : Block) : outcome BlockShortInfo :=
  id ← get_block_hash cn_fast_hash b;
  if timestamp <=? CryptoNote.timestamp (header b) then
    '(txs, _) ← chain_transactions bc (transactionHashes b);
    infos ← prefix_infos txs;
    Ok {| bs_blockId := id; bs_block := Some b; bs_txPrefixes := infos |}
  else Ok (id_entry id).

Record BlockFullInfo := { bf_block_id : list Z; bf_block : option Block; bf_txs : list Transaction }.
Definition full_entry (bc : Blockchain) (timestamp : Z) (b : Block) : outcome BlockFullInfo :=
  id ← get_block_hash cn_fast_hash b;
  if timestamp <=? CryptoNote.timestamp (header b) then
    '(txs, _) ← chain_transactions bc (transactionHashes b);
    Ok {| bf_block_id := id; bf_block := Some b; bf_txs := txs |}
  else Ok {| bf_block_id := id; bf_block := None; bf_txs := [] |}.

Fixpoint entries_of {A} (f : Block -> outcome A) (bs : list Block) : outcome (list A) :=
  match bs with
  | [] => Ok []
  | b :: bs => e ← f b; rest ← entries_of f bs; Ok (e :: rest)
  end.

(** The two queries: start height, current height, full offset and entries. *)
Definition query {A} (id_entry : list Z -> A) (f : Block -> outcome A) (bc : Blockchain) (knownBlockIds : list (list Z)) (timestamp : Z)
  : outcome (option (Z * Z * Z * list A)) :=
  r ← findStartAndFullOffsets bc knownBlockIds timestamp;
  match r with
  | None => Ok None
  | Some (startOffset, startFullOffset) =>
      blockIds ← findIdsForShortBlocks bc startOffset startFullOffset;
      let blocksLeft := u32 (Z.min (BLOCKS_IDS_SYNCHRONIZING_DEFAULT_COUNT - zlen blockIds) BLOCKS_SYNCHRONIZING_DEFAULT_COUNT) in
      let entries := map id_entry blockIds in
      let answer more := Ok (Some (startOffset, getCurrentBlockchainHeight bc, startFullOffset, entries ++ more)) in
      if blocksLeft =? 0 then answer []
      else more ← entries_of f (default [] (getBlocks bc startFullOffset blocksLeft)); answer more
  end.
Definition queryBlocksLite (bc : Blockchain) (knownBlockIds : list (list Z)) (timestamp : Z)
  : outcome (option (Z * Z * Z * list BlockShortInfo)) :=
  query id_entry (lite_entry bc timestamp) bc knownBlockIds timestamp.
Definition queryBlocks (bc : Blockchain) (knownBlockIds : list (list Z)) (timestamp : Z)
  : outcome (option (Z * Z * Z * list BlockFullInfo)) :=
  query (fun id => {| bf_block_id := id; bf_block := None; bf_txs := [] |}) (full_entry bc timestamp) bc knownBlockIds timestamp.
(** * Outputs to mix with *)

Record out_entry := { global_amount_index : Z; out_key : list Z }.

Variable now : Z.

(** Adds the output number [i] of its amount when it is an unlocked key output;
    the result, which the caller ignores, is whether it was. *)
Definition add_out_to_get_random_outs (bc : Blockchain) (amount_outs : list (TransactionIndex * Z)) (outs : list out_entry) (i : Z)
  : outcome (list out_entry) :=
  '(idx, o) ← vget amount_outs i;
  e ← transactionByIndex bc idx;
  if negb (o <? zlen (tx_outputs (te_tx e))) then Ok outs else
  out ← vget (tx_outputs (te_tx e)) o;
  match target out with
  | OutKey k =>
      if is_tx_spendtime_unlocked m_currency bc now (tx_unlockTime (te_tx e))
      then Ok (outs ++ [{| global_amount_index := u32 i; out_key := ko_key k |}])
      else Ok outs
  | _ => Ok outs
  end.

(** [find_end_of_allowed_index], from the last output down. *)
Fixpoint end_of_allowed (bc : Blockchain) (outs : list (TransactionIndex * Z)) : Z :=
  match outs with
  | [] => 0
  | (idx, _) :: rest =>
      if u64 (ti_block idx + minedMoneyUnlockWindow m_currency) <=? getCurrentBlockchainHeight bc
      then zlen outs else end_of_allowed bc rest
  end.
Definition find_end_of_allowed_index (bc : Blockchain) (amount_outs : list (TransactionIndex * Z)) : Z :=
  end_of_allowed bc (rev amount_outs).

(** The draws of the generator are an argument. *)
Fixpoint random_outs_loop (bc : Blockchain) (amount_outs : list (TransactionIndex * Z)) (outs_count : Z) (g : ShuffleGenerator)
    (draws : list Z) (outs : list out_entry) : outcome (list out_entry) :=
  match draws with
  | [] => Ok outs
  | v :: draws =>
      if zlen outs <? outs_count then
        '(i, g) ← next g v;
        outs ← add_out_to_get_random_outs bc amount_outs outs i;
        random_outs_loop bc amount_outs outs_count g draws outs
      else Ok outs
  end.
Definition random_outs (bc : Blockchain) (outs_count amount : Z) (draws : list Z) : outcome (list out_entry) :=
  match m_outputs (m_store bc) !! amount with
  | None => Ok []
  | Some amount_outs =>
      let up_index_limit := find_end_of_allowed_index bc amount_outs in
      if 0 <? up_index_limit then random_outs_loop bc amount_outs outs_count (new_shuffle up_index_limit) draws [] else Ok []
  end.
Fixpoint getRandomOutsByAmount (bc : Blockchain) (outs_count : Z) (amounts : list (Z * list Z)) : outcome (list (Z * list out_entry)) :=
  match amounts with
  | [] => Ok []
  | (amount, draws) :: amounts =>
      outs ← random_outs bc outs_count amount draws;
      rest ← getRandomOutsByAmount bc outs_count amounts;
      Ok ((amount, outs) :: rest)
  end.
End Queries.

(** * Answers are pieces of the main chain *)

(** The answer of [lower_bound], in order or not: the element before it is less,
    the element there is not. *)
Lemma lower_bound_spec fuel blocks first len t :
  0 <= first -> 0 <= len <= Z.of_nat fuel -> first + len <= zlen blocks ->
  exists r, lower_bound fuel blocks first len t = Ok r /\ first <= r <= first + len /\
    (first < r -> exists b, blocks !! Z.to_nat (r - 1) = Some b /\ timestamp (header (bl b)) < t) /\
    (r < first + len -> exists b, blocks !! Z.to_nat r = Some b /\ t <= timestamp (header (bl b))).
Proof.
  revert first len. induction fuel as [|fuel IH]; intros first len H0 Hl Hz; cbn [lower_bound].
  { exists first. split_and!; [done|lia|lia|lia|lia]. }
  destruct (Z.leb_spec len 0) as [|Hp]; [exists first; split_and!; [done|lia|lia|lia|lia]|].
  assert (Hd : 0 <= len / 2 < len) by (split; [apply Z.div_pos|apply Z.div_lt_upper_bound]; lia).
  set (half := len / 2) in *. unfold sget. destruct (Z.ltb_spec (first + half) 0) as [|_]; [lia|].
  destruct (lookup_lt_is_Some_2 blocks (Z.to_nat (first + half))) as [b Hb]; [unfold zlen in Hz; lia|]. rewrite Hb. cbn [mbind outcome_bind].
  destruct (Z.ltb_spec (timestamp (header (bl b))) t) as [Ht|Ht].
  - destruct (IH (first + half + 1) (len - half - 1)) as (r & -> & Hr & HA & HB); [lia..|]. exists r. split_and!; [done|lia|lia| |].
    + intros _. destruct (decide (r = first + half + 1)) as [->|]; [|apply HA; lia]. exists b.
      by replace (first + half + 1 - 1) with (first + half) by lia.
    + intros Hlt. apply HB. lia.
  - destruct (IH first half) as (r & -> & Hr & HA & HB); [lia..|]. exists r. split_and!; [done|lia|lia|done|].
    intros Hlt. destruct (decide (r = first + half)) as [->|]; [by exists b|apply HB; lia].
Qed.

Section Answers.
Context {B : BuildConfig} {K : Crypto}.
Variable m_currency : Currency.
Variables (g : Block) (bc : Blockchain).
Hypothesis HC : chain_ok g bc.
Hypothesis Hsize : zlen (m_blocks bc) < 4294967168.
Let hashes := m_container (m_blockIndex bc).

Lemma hashes_length : zlen hashes = zlen (m_blocks bc).
Proof. unfold zlen. by rewrite (linked_length _ _ (co_linked _ _ HC)). Qed.

Lemma height_lookup h n : getBlockHeight (m_blockIndex bc) h = Some n -> 0 <= n < zlen (m_blocks bc) /\ hashes !! Z.to_nat n = Some h.
Proof.
  unfold getBlockHeight. destruct (position _ h) as [k|] eqn:Ek; [|done]. cbn. intros [= <-]. apply position_Some in Ek.
  fold hashes in Ek. pose proof (lookup_lt_Some _ _ _ Ek). pose proof hashes_length. change (2 ^ 32) with 4294967296 in Hsize.
  rewrite u32_small by (unfold is_u32, zlen in *; lia). rewrite Nat2Z.id. unfold zlen in *. split; [lia|done].
Qed.

Lemma findSupplement_spec ids n : findSupplement (m_blockIndex bc) ids = Some n ->
  exists h, h ∈ ids /\ 0 <= n < zlen (m_blocks bc) /\ hashes !! Z.to_nat n = Some h.
Proof.
  induction ids as [|h ids IH]; [done|]. cbn. destruct (getBlockHeight (m_blockIndex bc) h) as [k|] eqn:E.
  - intros [= ->]. exists h. split; [by left|by apply height_lookup].
  - intros H. destruct (IH H) as (h' & ? & ?). exists h'. split; [by right|done].
Qed.

Lemma offsets_spec known timestamp start full :
  findStartAndFullOffsets m_currency bc known timestamp = Ok (Some (start, full)) ->
  0 <= start <= full /\ full < zlen (m_blocks bc) /\ findSupplement (m_blockIndex bc) known = Some start /\
  exists h, h ∈ known /\ hashes !! Z.to_nat start = Some h.
Proof.
  unfold findStartAndFullOffsets. destruct (last known) as [back|]; [|done]. intros E. apply bind_Ok in E as (g0 & _ & E).
  destruct (decide (back = g0)); [|done]. apply bind_Ok in E as (s & Es & E). apply bind_Ok in E as (bound & Eb & [= <- <-]).
  unfold findBlockchainSupplement in Es. do 2 apply bind_Ok in Es as (_ & _ & Es).
  destruct (findSupplement (m_blockIndex bc) known) as [n|] eqn:Ef; [|done]. injection Es as ->.
  destruct (findSupplement_spec known s Ef) as (h & Hh & Hs & Hl). split; [|split; [|split; [done|by exists h] ] ].
  all: unfold getLowerBound in Eb; apply bind_Ok in Eb as (_ & _ & Eb); apply bind_Ok in Eb as (r & Er & [= <-]);
    edestruct (lower_bound_spec (length (m_blocks bc)) (m_blocks bc) s (zlen (m_blocks bc) - s)) as (r' & Er' & Hr & _);
    [lia|unfold zlen in *; lia|lia|]; rewrite Er in Er'; injection Er' as <-;
    destruct (Z.eqb_spec r (zlen (m_blocks bc))); cbn; try lia;
    rewrite u32_small by (unfold is_u32; lia); lia.
Qed.

(** The blocks of a range have the ids of that range. *)
Lemma entries_ids {A} (id_of : A -> list Z) (f : Block -> outcome A) es start n :
  (forall b e, f b = Ok e -> get_block_hash cn_fast_hash b = Ok (id_of e)) ->
  entries_of f (map bl (take n (drop start (m_blocks bc)))) = Ok es -> map id_of es = take n (drop start hashes).
Proof.
  intros Hf. pose proof (lk_hashes _ _ (co_linked _ _ HC)) as HF. fold hashes in HF. apply (Forall2_drop _ _ _ start), (Forall2_take _ _ _ n) in HF.
  revert es. induction HF as [|e h bs hs Eh HF IH]; intros es E; [by injection E as <-|].
  cbn in E. apply bind_Ok in E as (a & Ea & E). apply bind_Ok in E as (rest & Er & [= <-]). cbn. rewrite (IH _ Er). f_equal.
  apply Hf in Ea. rewrite Eh in Ea. by injection Ea.
Qed.

Lemma query_spec {A} (id_of : A -> list Z) (id_entry : list Z -> A) (f : Block -> outcome A) known timestamp start current full entries :
  (forall id, id_of (id_entry id) = id) -> (forall b e, f b = Ok e -> get_block_hash cn_fast_hash b = Ok (id_of e)) ->
  query m_currency id_entry f bc known timestamp = Ok (Some (start, current, full, entries)) ->
  current = zlen (m_blocks bc) /\ 0 <= start < zlen (m_blocks bc) /\ findSupplement (m_blockIndex bc) known = Some start /\
  (exists h, h ∈ known /\ hashes !! Z.to_nat start = Some h) /\
  Z.min (zlen (m_blocks bc) - start) 128 <= zlen entries /\ map id_of entries = take (length entries) (drop (Z.to_nat start) hashes).
Proof.
  intros Hid Hf E. unfold query in E. apply bind_Ok in E as (r & Er & E). destruct r as [[s fu]|]; [|done].
  destruct (offsets_spec _ _ _ _ Er) as (Hs & Hfu & Hfs & Hh). apply bind_Ok in E as (ids & Ei & E).
  unfold findIdsForShortBlocks in Ei. apply bind_Ok in Ei as (_ & _ & [= Ei]). pose proof hashes_length as Hlen.
  assert (Hcur : getCurrentBlockchainHeight bc = zlen (m_blocks bc)).
  { unfold getCurrentBlockchainHeight. rewrite u32_small; [done|]. unfold is_u32. pose proof (zlen_nonneg (m_blocks bc)). lia. }
  assert (Eids : ids = take (Z.to_nat (Z.min 10000 (fu - s))) (drop (Z.to_nat s) hashes)).
  { subst ids. destruct (Z.ltb_spec s fu) as [Hlt|Hge].
    - unfold getBlockIds. fold hashes. destruct (Z.leb_spec (zlen hashes) s); [lia|]. f_equal. unfold BLOCKS_IDS_SYNCHRONIZING_DEFAULT_COUNT. lia.
    - replace (Z.to_nat (Z.min 10000 (fu - s))) with 0%nat by lia. done. }
  assert (Hzid : zlen ids = Z.min 10000 (fu - s)).
  { rewrite Eids. unfold zlen in *. rewrite length_take, length_drop. lia. }
  assert (Hlenid : length ids = Z.to_nat (Z.min 10000 (fu - s))) by (unfold zlen in Hzid; lia).
  assert (Hmap : map id_of (map id_entry ids) = ids).
  { rewrite map_map. rewrite (map_ext _ id) by done. apply map_id. }
  rewrite u32_small in E by (unfold is_u32, BLOCKS_IDS_SYNCHRONIZING_DEFAULT_COUNT, BLOCKS_SYNCHRONIZING_DEFAULT_COUNT; lia).
  unfold BLOCKS_IDS_SYNCHRONIZING_DEFAULT_COUNT, BLOCKS_SYNCHRONIZING_DEFAULT_COUNT in E. rewrite Hzid in E.
  assert (Hz : zlen (map id_entry ids) = Z.min 10000 (fu - s)) by (unfold zlen; rewrite length_map, Hlenid; lia).
  destruct (Z.eqb_spec (Z.min (10000 - Z.min 10000 (fu - s)) 128) 0) as [H0|H0].
  - injection E as <- <- <- <-. rewrite app_nil_r, Hz, Hmap, length_map, Hlenid, Eids. split_and!; try done; lia.
  - apply bind_Ok in E as (more & Em & E). injection E as <- <- <- <-. unfold getBlocks in Em.
    destruct (Z.leb_spec (zlen (m_blocks bc)) fu); [lia|]. cbn in Em. pose proof (entries_ids id_of f more _ _ Hf Em) as Hmore.
    assert (Hm : zlen more = Z.min (Z.min (10000 - Z.min 10000 (fu - s)) 128) (zlen (m_blocks bc) - fu)).
    { unfold zlen at 1. rewrite <- (length_map id_of), Hmore, length_take, length_drop. rewrite u32_small by (unfold is_u32; lia). unfold zlen in *. lia. }
    split_and!; try done; try lia; [rewrite zlen_app, Hm, Hz; lia|].
    rewrite map_app, Hmap, length_app, length_map, <- take_take_drop, Hlenid. rewrite <- Eids. f_equal. rewrite drop_drop.
    replace (Z.to_nat s + Z.to_nat (Z.min 10000 (fu - s)))%nat with (Z.to_nat fu) by lia.
    rewrite Hmore. symmetry. rewrite <- (length_map id_of), Hmore, length_take. apply list_eq. intros i.
    destruct (decide (i < length (drop (Z.to_nat fu) hashes))%nat) as [Hi|Hi].
    + rewrite !lookup_take. case_decide; case_decide; try done; lia.
    + rewrite !lookup_take. rewrite (lookup_ge_None_2 (drop _ _)) by lia. by repeat case_decide.
Qed.
End Answers.

(** * Outputs handed out for mixing *)

Section Mixing.
Context {B : BuildConfig} {K : Crypto}.
Variable m_currency : Currency.
Variables (now : Z) (bc : Blockchain).

(** Outputs of an amount in the order of their blocks, as [pushTransaction]
    appends them, each one the output of a transaction of the chain. *)
Definition in_block_order (amount_outs : list (TransactionIndex * Z)) : Prop :=
  (forall i a, amount_outs !! i = Some a -> is_u32 (ti_block a.1)) /\
  (forall i j a b, (i <= j)%nat -> amount_outs !! i = Some a -> amount_outs !! j = Some b -> ti_block a.1 <= ti_block b.1).
Definition outputs_resolve (amount_outs : list (TransactionIndex * Z)) : Prop :=
  Forall (fun a => 0 <= a.2 /\ exists e, transactionByIndex bc a.1 = Ok e) amount_outs.

(** The output can take its place in a ring: it is the output with that number of
    the amount, a key output of an unlocked transaction with that key, and older
    than the unlock window of mined coins. *)
Definition mature (idx : TransactionIndex) : bool :=
  ti_block idx + minedMoneyUnlockWindow m_currency <=? getCurrentBlockchainHeight bc.
Definition usable (amount : Z) (o : out_entry) : Prop :=
  exists amount_outs idx n e out, m_outputs (m_store bc) !! amount = Some amount_outs /\
    amount_outs !! Z.to_nat (global_amount_index o) = Some (idx, n) /\ transactionByIndex bc idx = Ok e /\
    tx_outputs (te_tx e) !! Z.to_nat n = Some out /\ handle_output m_currency bc now (te_tx e) out = Some (out_key o) /\
    mature idx = true.

(** The same as a test of the output number [i], and how many pass it. *)
Definition qualifies (amount_outs : list (TransactionIndex * Z)) (i : Z) : bool :=
  match amount_outs !! Z.to_nat i with
  | Some (idx, n) =>
      mature idx &&
      match transactionByIndex bc idx with
      | Ok e => match tx_outputs (te_tx e) !! Z.to_nat n with
                | Some out => bool_decide (is_Some (handle_output m_currency bc now (te_tx e) out))
                | None => false
                end
      | _ => false
      end
  | None => false
  end.
Definition qualifying (amount_outs : list (TransactionIndex * Z)) (numbers : list Z) : Z :=
  zlen (filter (fun i => qualifies amount_outs i = true) numbers).
Definition candidates (amount : Z) : Z :=
  match m_outputs (m_store bc) !! amount with
  | Some amount_outs => qualifying amount_outs (seqZ 0 (zlen amount_outs))
  | None => 0
  end.

Lemma end_of_allowed_spec outs : 0 <= end_of_allowed m_currency bc outs <= zlen outs /\
  (0 < end_of_allowed m_currency bc outs -> exists idx n, rev outs !! Z.to_nat (end_of_allowed m_currency bc outs - 1) = Some (idx, n) /\
     u64 (ti_block idx + minedMoneyUnlockWindow m_currency) <= getCurrentBlockchainHeight bc) /\
  (forall i idx n, end_of_allowed m_currency bc outs <= Z.of_nat i -> rev outs !! i = Some (idx, n) ->
     getCurrentBlockchainHeight bc < u64 (ti_block idx + minedMoneyUnlockWindow m_currency)).
Proof.
  induction outs as [|[idx n] outs (IH1 & IH2 & IH3) ]; cbn [end_of_allowed]; [split_and!; [unfold zlen; cbn; lia|unfold zlen; cbn; lia|lia|done]|].
  rewrite (zlen_cons (idx, n) outs).
  destruct (Z.leb_spec (u64 (ti_block idx + minedMoneyUnlockWindow m_currency)) (getCurrentBlockchainHeight bc)) as [Hle|Hgt].
  - pose proof (zlen_nonneg outs) as Hz. split; [lia|]. split.
    + intros _. exists idx, n. split; [|done]. cbn [rev]. apply list_lookup_middle. rewrite length_rev. unfold zlen. lia.
    + intros i a k Hi Hk. apply lookup_lt_Some in Hk. cbn [rev] in Hk. rewrite length_app, length_rev in Hk. unfold zlen in Hi. cbn [length] in *. lia.
  - split; [lia|]. split.
    + intros Hp. destruct (IH2 Hp) as (i & m & Hl & Hd). exists i, m. split; [|done]. cbn [rev].
      rewrite lookup_app_l; [done|]. by eapply lookup_lt_Some.
    + intros i a k Hi Hk. cbn [rev] in Hk. apply lookup_app_Some in Hk as [Hk|[_ Hk] ]; [by eapply IH3|].
      apply list_lookup_singleton_Some in Hk as [_ [= <- <-] ]. lia.
Qed.

Section Loop.
Variables (amount outs_count : Z) (amount_outs : list (TransactionIndex * Z)).
Hypothesis Ha : m_outputs (m_store bc) !! amount = Some amount_outs.
Hypothesis Hsize : zlen amount_outs < 4294967296.
Hypothesis Horder : in_block_order amount_outs.
Hypothesis Hresolve : outputs_resolve amount_outs.
Hypothesis Hwindow : 0 <= minedMoneyUnlockWindow m_currency < 4294967296.
Let limit := find_end_of_allowed_index m_currency bc amount_outs.

(** The limit splits the outputs into the mature ones and the others. *)
Lemma limit_spec : 0 <= limit <= zlen amount_outs /\
  forall i idx n, amount_outs !! i = Some (idx, n) -> (mature idx = true <-> Z.of_nat i < limit).
Proof.
  unfold limit, find_end_of_allowed_index. destruct (end_of_allowed_spec (rev amount_outs)) as (H1 & H2 & H3).
  rewrite rev_involutive in H2, H3. unfold zlen in H1. rewrite length_rev in H1. split; [done|]. intros i idx n Hi.
  destruct Horder as [Hr Hord]. unfold mature. rewrite Z.leb_le. split.
  - intros Hm. apply Z.nle_gt. intros Hle. specialize (H3 i idx n Hle Hi).
    specialize (Hr _ _ Hi). cbn in Hr. rewrite u64_small in H3 by (unfold is_u32, is_u64 in *; lia). lia.
  - intros Hlt. destruct H2 as (j & m & Hj & Hlast); [lia|].
    assert (Hle : (i <= Z.to_nat (end_of_allowed m_currency bc (rev amount_outs) - 1))%nat) by lia.
    specialize (Hord _ _ _ _ Hle Hi Hj). specialize (Hr _ _ Hj). cbn in *.
    rewrite u64_small in Hlast by (unfold is_u32, is_u64 in *; lia). lia.
Qed.

Lemma qualifying_limit : qualifying amount_outs (seqZ 0 (zlen amount_outs)) = qualifying amount_outs (seqZ 0 limit).
Proof.
  destruct limit_spec as [Hl Hm]. replace (zlen amount_outs) with (limit + (zlen amount_outs - limit)) by lia.
  unfold qualifying. rewrite seqZ_app, filter_app, zlen_app by lia.
  assert (E : filter (fun i => qualifies amount_outs i = true) (seqZ (0 + limit) (zlen amount_outs - limit)) = []);
    [|rewrite E; change (zlen []) with 0; lia].
  destruct (filter _ _) as [|i l] eqn:El; [done|]. exfalso.
  assert (Hi : i ∈ i :: l) by left. rewrite <- El in Hi. apply list_elem_of_filter in Hi as [Hq Hi%elem_of_seqZ]. unfold qualifies in Hq.
  destruct (amount_outs !! Z.to_nat i) as [ [idx n]|] eqn:Ei; [|done]. apply andb_true_iff in Hq as [Hq _].
  apply (Hm _ _ _ Ei) in Hq. lia.
Qed.

Lemma add_out_spec outs i : 0 <= i < limit ->
  add_out_to_get_random_outs m_currency now bc amount_outs outs i = Ok outs /\ qualifies amount_outs i = false \/
  exists key, add_out_to_get_random_outs m_currency now bc amount_outs outs i = Ok (outs ++ [{| global_amount_index := i; out_key := key |}]) /\
    qualifies amount_outs i = true /\ usable amount {| global_amount_index := i; out_key := key |}.
Proof.
  intros Hi. destruct limit_spec as [Hl Hm]. unfold add_out_to_get_random_outs.
  destruct (vget_in_range amount_outs i) as [ [idx n] Ei]; [lia|]. rewrite Ei. cbn [mbind outcome_bind]. apply vget_Ok in Ei as [_ Ei].
  assert (Hmat : mature idx = true) by (apply (Hm _ _ _ Ei); lia).
  destruct (Forall_lookup_1 _ _ _ _ Hresolve Ei) as [Hn [e Ee] ]. cbn [fst snd] in Hn, Ee. rewrite Ee. cbn [mbind outcome_bind].
  unfold qualifies. rewrite Ei, Hmat, Ee. cbn [andb].
  destruct (Z.ltb_spec n (zlen (tx_outputs (te_tx e)))) as [Hlt|Hge]; cbn [negb].
  2:{ left. split; [done|]. rewrite lookup_ge_None_2; [done|]. unfold zlen in Hge. lia. }
  destruct (vget_in_range (tx_outputs (te_tx e)) n) as [out Eo]; [lia|]. rewrite Eo. cbn [mbind outcome_bind].
  apply vget_Ok in Eo as [_ Eo]. rewrite Eo. unfold handle_output.
  destruct (is_tx_spendtime_unlocked m_currency bc now (tx_unlockTime (te_tx e))) eqn:Eu; cbn [negb];
    [|left; by destruct (target out)].
  destruct (target out) as [k|k] eqn:Et; [|by left]. right. exists (ko_key k). rewrite u32_small by (unfold is_u32; lia).
  split_and!; [done|done|]. exists amount_outs, idx, n, e, out. cbn [global_amount_index out_key]. split_and!; try done.
  unfold handle_output. by rewrite Eu, Et.
Qed.

Lemma qualifying_cons i l : qualifying amount_outs (i :: l) = (if qualifies amount_outs i then 1 else 0) + qualifying amount_outs l.
Proof.
  unfold qualifying. rewrite filter_cons. destruct (qualifies amount_outs i) eqn:E; [rewrite decide_True by done; apply zlen_cons|].
  rewrite decide_False by done. lia.
Qed.
Lemma qualifying_perm l k : l ≡ₚ k -> qualifying amount_outs l = qualifying amount_outs k.
Proof. intros H. unfold qualifying, zlen. f_equal. apply Permutation_length. by rewrite H. Qed.

Lemma random_outs_loop_spec g draws outs :
  draws_ok (count g) draws -> zlen draws = count g -> Forall (fun x => 0 <= x < limit) (left_over g) -> NoDup (map global_amount_index outs ++ left_over g) ->
  Forall (usable amount) outs -> zlen outs <= outs_count ->
  exists outs', random_outs_loop m_currency now bc amount_outs outs_count g draws outs = Ok outs' /\
  NoDup (map global_amount_index outs') /\ Forall (usable amount) outs' /\
  zlen outs' = Z.min outs_count (zlen outs + qualifying amount_outs (left_over g)).
Proof.
  revert g outs. induction draws as [|v draws IH]; intros g outs Hd Hc HF HN HU HL; cbn [random_outs_loop].
  { exists outs. apply NoDup_app in HN as (? & _ & _). split_and!; try done. unfold left_over. rewrite <- Hc.
    change (qualifying amount_outs (map (element g) (seqZ 0 (zlen [])))) with 0. lia. }
  destruct (Z.ltb_spec (zlen outs) outs_count) as [Hlt|Hge].
  2:{ exists outs. apply NoDup_app in HN as (? & _ & _). split_and!; try done.
      assert (0 <= qualifying amount_outs (left_over g)) by apply zlen_nonneg. lia. }
  destruct Hd as [Hv Hd]. destruct (next_spec g v Hv) as (i & g' & Eg & Ec & _ & HP). rewrite Eg. cbn [mbind outcome_bind].
  rewrite zlen_cons in Hc. rewrite HP in HF, HN. apply Forall_cons in HF as [Hi HF].
  rewrite (qualifying_perm _ _ HP), qualifying_cons.
  destruct (add_out_spec outs i Hi) as [ [-> ->]|(key & -> & -> & Hus)]; cbn [mbind outcome_bind].
  - eapply (IH g' outs); [by rewrite Ec|lia|done| |done|done].
    apply NoDup_app in HN as (H1 & H2 & H3). apply NoDup_cons in H3 as [_ H3]. apply NoDup_app. split_and!; [done| |done].
    intros x Hx Hin. apply (H2 x Hx). by right.
  - destruct (IH g' (outs ++ [{| global_amount_index := i; out_key := key |}])) as (outs' & E & HN' & HU' & Hz);
      [by rewrite Ec|lia|done| | | |].
    + rewrite map_app. cbn. by rewrite <- app_assoc.
    + apply Forall_app. split; [done|by constructor].
    + rewrite zlen_app, zlen_cons, zlen_nil. lia.
    + exists outs'. split_and!; try done. rewrite Hz, zlen_app, zlen_cons, zlen_nil. lia.
Qed.
End Loop.

(** What the answer to a request for one amount relies on: the amount's table
    lists outputs of the chain in the order of their blocks, and the generator is
    given one draw within its bounds for each output below the limit. *)
Definition request_ok (request : Z * list Z) : Prop :=
  forall amount_outs, m_outputs (m_store bc) !! request.1 = Some amount_outs ->
    zlen amount_outs < 4294967296 /\ in_block_order amount_outs /\ outputs_resolve amount_outs /\
    zlen request.2 = find_end_of_allowed_index m_currency bc amount_outs /\ draws_ok (zlen request.2) request.2.

Definition answer_ok (outs_count amount : Z) (outs : list out_entry) : Prop :=
  zlen outs = Z.min outs_count (candidates amount) /\
  NoDup (map global_amount_index outs) /\ Forall (usable amount) outs.

Lemma random_outs_spec outs_count amount draws :
  0 <= outs_count -> 0 <= minedMoneyUnlockWindow m_currency < 4294967296 -> request_ok (amount, draws) ->
  exists outs, random_outs m_currency now bc outs_count amount draws = Ok outs /\ answer_ok outs_count amount outs.
Proof.
  intros Hc Hw Hd.
  assert (H0 : candidates amount = 0 -> answer_ok outs_count amount []).
  { intros E. split_and!; [rewrite E, zlen_nil; lia|constructor|constructor]. }
  unfold random_outs. destruct (m_outputs (m_store bc) !! amount) as [amount_outs|] eqn:Ea.
  2:{ exists []. split; [done|]. apply H0. unfold candidates. by rewrite Ea. }
  destruct (Hd _ Ea) as (Hs & Ho & Hr & Hl & Hok). cbn [snd] in Hl, Hok.
  destruct (limit_spec amount_outs Ho Hw) as [Hlim _].
  assert (Ec : candidates amount = qualifying amount_outs (seqZ 0 (find_end_of_allowed_index m_currency bc amount_outs))).
  { unfold candidates. rewrite Ea. by apply qualifying_limit. }
  destruct (Z.ltb_spec 0 (find_end_of_allowed_index m_currency bc amount_outs)).
  2:{ exists []. split; [done|]. apply H0. rewrite Ec. by replace (find_end_of_allowed_index m_currency bc amount_outs) with 0 by lia. }
  destruct (random_outs_loop_spec amount outs_count amount_outs Ea Hs Ho Hr Hw
    (new_shuffle (find_end_of_allowed_index m_currency bc amount_outs)) draws []) as (outs & E & HN & HU & Hz).
  - cbn [count new_shuffle]. by rewrite <- Hl.
  - done.
  - rewrite left_over_new. apply Forall_forall. intros x Hx. apply elem_of_seqZ in Hx. lia.
  - cbn [map app]. rewrite left_over_new. apply NoDup_seqZ.
  - constructor.
  - rewrite zlen_nil. lia.
  - exists outs. split; [done|]. split_and!; try done. rewrite Hz, left_over_new, Ec, zlen_nil. lia.
Qed.

(** C39.  The outputs the node hands out for mixing.  Where the table of each
    amount lists outputs of the chain in the order of their blocks and the
    unlock window fits 32 bits, the request is answered, whatever numbers within
    bounds the random source draws: for each amount with exactly as many outputs
    as asked for, or all that qualify when there are fewer; no output twice; and
    each one qualifies, so that it can take its place in a ring that
    [check_tx_input] accepts now: it has the number it is announced with, is an
    unlocked key output with the announced key, and is older than the unlock
    window of mined coins. *)
Theorem random_outputs_usable (outs_count : Z) (requests : list (Z * list Z)) :
  0 <= outs_count -> 0 <= minedMoneyUnlockWindow m_currency < 4294967296 -> Forall request_ok requests ->
  exists res, getRandomOutsByAmount m_currency now bc outs_count requests = Ok res /\
    Forall2 (fun request answer => answer.1 = request.1 /\ answer_ok outs_count request.1 answer.2) requests res.
Proof.
  intros Hc Hw HF. induction HF as [|[amount draws] requests Hr HF (res & E & IH)]; cbn [getRandomOutsByAmount].
  { exists []. split; [done|constructor]. }
  destruct (random_outs_spec outs_count amount draws Hc Hw Hr) as (outs & Eo & Ho). rewrite Eo, E. cbn [mbind outcome_bind].
  eexists. split; [done|]. by constructor.
Qed.
End Mixing.

(** * A chain of twelve blocks whose first holds an output of 50 *)

Definition long_chain : Blockchain :=
  with_chain sample_chain (spending_block funding_tx :: replicate 11 (spending_block empty_tx)) (m_blockIndex sample_chain)
    (m_timestampIndex sample_chain) (m_generatedTransactionsIndex sample_chain).

Lemma random_outputs_usable_witness :
  candidates default_currency 1000 long_chain 50 = 1 /\
  exists out, getRandomOutsByAmount default_currency 1000 long_chain 3 [(50, [0]); (70, [])] =
    Ok [(50, [out]); (70, [])] /\
  usable default_currency 1000 long_chain 50 out.
Proof.
  split; [by vm_compute|].
  destruct (random_outputs_usable default_currency 1000 long_chain 3 [(50, [0]); (70, [])]) as (res & E & H);
    [lia|vm_compute; intuition discriminate| |].
  { apply Forall_cons_2; [|apply Forall_cons_2; [|apply Forall_nil_2] ]; intros l Hl; vm_compute in Hl; [|done]. injection Hl as <-.
    split_and!; [done| |apply Forall_singleton; split; [done|eexists; vm_compute; reflexivity]|vm_compute; reflexivity|by vm_compute].
    split; [intros [|i] x Hx; [injection Hx as <-; done|done]|].
    intros [|i] [|j] x y _ Hx Hy; try done. injection Hx as <-. by injection Hy as <-. }
  rewrite E. vm_compute in E. injection E as <-. eexists. split; [reflexivity|].
  apply Forall2_cons_1 in H as [(_ & _ & _ & H) _]. by apply Forall_inv in H.
Defined.
