(* ===== verification/BlockchainSynchronizer.v ===== *)
(** Keeping the wallets in step with the node:
    [Transfers/BlockchainSynchronizer.cpp].

    The consumers (wallets) implement the class [IBlockchainConsumer]; each has
    the synchronization state of what it has seen.  [updateConsumers] brings them
    to the node's chain; the states of the worker thread are a transition system.
    Error codes are integers, 0 for success; an exception is an outcome that says
    nothing about the state.  The node is its chain, asked through
    [queryBlocksLite]. *)
From S2P Require Import Prelude CryptoNote TransactionExtra TransactionApi SynchronizationState.

Record SynchronizationStart := { ss_timestamp : Z; ss_height : Z }.
Record CompleteBlock := { cb_blockHash : list Z; cb_block : option Block; cb_transactions : list TransactionPrefixImpl }.

Class IBlockchainConsumer (T : Type) := {
  getSyncStart : T -> SynchronizationStart;
  getKnownPoolTxIds : T -> gset (list Z);
  onBlockchainDetach : T -> Z -> outcome T;
  onNewBlocks : T -> list CompleteBlock -> Z -> outcome (bool * T);
  onPoolUpdated : T -> list TransactionPrefixImpl -> list (list Z) -> outcome (Z * T);
  addUnconfirmedTransaction : forall {R} `{ITransactionReader R}, T -> R -> outcome (Z * T);
  removeUnconfirmedTransaction : T -> list Z -> outcome T;
}.

Inductive UpdateConsumersResult := nothingChanged | addedNewBlocks | errorOccurred.

Section Synchronizer.
Context {B : BuildConfig} {T : Type} {C : IBlockchainConsumer T}.

Notation ConsumersMap := (list (T * SynchronizationState)).

(** One consumer: whether something changed, and whether it failed. *)
Definition update_consumer (interval : BlockchainInterval) (blocks : list CompleteBlock) (c : T) (s : SynchronizationState)
  : outcome (bool * bool * T * SynchronizationState) :=
  result ← checkInterval s interval;
  c ← (if detachRequired result then onBlockchainDetach c (detachHeight result) else Ok c);
  s ← (if detachRequired result then state_detach s (detachHeight result) else Ok s);
  if hasNewBlocks result then
    let startOffset := newBlockHeight result - startHeight interval in
    '(ok, c) ← onNewBlocks c (drop (Z.to_nat startOffset) blocks) (newBlockHeight result);
    if ok : bool then
      s ← addBlocks s (drop (Z.to_nat startOffset) (SynchronizationState.blocks interval)) (newBlockHeight result);
      Ok (true, false, c, s)
    else Ok (false, true, c, s)
  else Ok (false, false, c, s).

Fixpoint updateConsumers (interval : BlockchainInterval) (blocks : list CompleteBlock) (smthChanged : bool) (consumers : ConsumersMap)
  : outcome (UpdateConsumersResult * ConsumersMap) :=
  match consumers with
  | [] => Ok (if smthChanged then addedNewBlocks else nothingChanged, [])
  | (c, s) :: rest =>
      '(changed, failed, c, s) ← update_consumer interval blocks c s;
      if failed : bool then Ok (errorOccurred, (c, s) :: rest)
      else '(r, rest) ← updateConsumers interval blocks (smthChanged || changed) rest; Ok (r, (c, s) :: rest)
  end.

(** * Requests to the node *)

(** The first consumer with the fewest blocks and the earliest start. *)
Fixpoint shortest_consumer (shortest : SynchronizationState) (start : SynchronizationStart) (consumers : ConsumersMap)
  : SynchronizationState * SynchronizationStart :=
  match consumers with
  | [] => (shortest, start)
  | (c, s) :: rest =>
      let shortest := if getHeight s <? getHeight shortest then s else shortest in
      let start := {| ss_timestamp := Z.min (ss_timestamp start) (ss_timestamp (getSyncStart c));
                      ss_height := Z.min (ss_height start) (ss_height (getSyncStart c)) |} in
      shortest_consumer shortest start rest
  end.
Definition getCommonHistory (consumers : ConsumersMap) (lastLocalBlockHeight : Z)
  : option (outcome (list (list Z))) * SynchronizationStart :=
  match consumers with
  | [] => (Some (Ok []), {| ss_timestamp := 0; ss_height := 0 |})
  | (c, s) :: rest =>
      let '(shortest, start) := shortest_consumer s (getSyncStart c) rest in
      (getShortHistory shortest lastLocalBlockHeight, start)
  end.

Definition getPoolUnionAndIntersection (consumers : ConsumersMap) : outcome (gset (list Z) * gset (list Z)) :=
  match consumers with
  | [] => Undefined
  | (c, _) :: rest =>
      Ok (fold_left (fun acc p => (acc.1 ∪ getKnownPoolTxIds p.1, acc.2 ∩ getKnownPoolTxIds p.1)) rest
            (getKnownPoolTxIds c, getKnownPoolTxIds c))
  end.

(** [processPoolTxs], when no stop is requested meanwhile. *)
Fixpoint processPoolTxs (newTxs : list TransactionPrefixImpl) (deletedTxIds : list (list Z)) (consumers : ConsumersMap)
  : outcome (Z * ConsumersMap) :=
  match consumers with
  | [] => Ok (0, [])
  | (c, s) :: rest =>
      '(error, c) ← onPoolUpdated c newTxs deletedTxIds;
      if error =? 0 then '(error, rest) ← processPoolTxs newTxs deletedTxIds rest; Ok (error, (c, s) :: rest)
      else Ok (error, (c, s) :: rest)
  end.

(** * Transactions of the wallet itself *)

Fixpoint add_to_consumers {R} `{ITransactionReader R} (tx : R) (consumers : ConsumersMap) : outcome (Z * ConsumersMap * ConsumersMap) :=
  match consumers with
  | [] => Ok (0, [], [])
  | (c, s) :: rest =>
      '(ec, c) ← addUnconfirmedTransaction c tx;
      if ec =? 0 then '(ec, done, rest) ← add_to_consumers tx rest; Ok (ec, (c, s) :: done, rest)
      else Ok (ec, [], (c, s) :: rest)
  end.
Fixpoint doRemoveUnconfirmedTransaction (h : list Z) (consumers : ConsumersMap) : outcome ConsumersMap :=
  match consumers with
  | [] => Ok []
  | (c, s) :: rest => c ← removeUnconfirmedTransaction c h; rest ← doRemoveUnconfirmedTransaction h rest; Ok ((c, s) :: rest)
  end.
(** When one consumer refuses, those before it take the transaction back. *)
Definition doAddUnconfirmedTransaction {R} `{ITransactionReader R} (tx : R) (consumers : ConsumersMap) : outcome (Z * ConsumersMap) :=
  '(ec, added, rest) ← add_to_consumers tx consumers;
  if ec =? 0 then Ok (0, added ++ rest)
  else h ← getTransactionHash tx; added ← doRemoveUnconfirmedTransaction h added; Ok (ec, added ++ rest).
End Synchronizer.

(** * Blocks from the node *)

Record BlockShortEntry := { bse_blockHash : list Z; bse_block : option Block; bse_txsShortInfo : list (list Z * TransactionPrefix) }.

Section Blocks.
Context {B : BuildConfig} {K : KeyCrypto} {T : Type} {C : IBlockchainConsumer T}.

Fixpoint prefix_readers (infos : list (list Z * TransactionPrefix)) : outcome (list TransactionPrefixImpl) :=
  match infos with
  | [] => Ok []
  | (txId, txPrefix) :: infos => t ← createTransactionPrefix txPrefix txId; rest ← prefix_readers infos; Ok (t :: rest)
  end.
Definition complete_block (e : BlockShortEntry) : outcome CompleteBlock :=
  match bse_block e with
  | None => Ok {| cb_blockHash := bse_blockHash e; cb_block := None; cb_transactions := [] |}
  | Some b =>
      base ← createTransactionPrefix_full (baseTransaction b);
      txs ← prefix_readers (bse_txsShortInfo e);
      Ok {| cb_blockHash := bse_blockHash e; cb_block := Some b; cb_transactions := base :: txs |}
  end.
Fixpoint complete_blocks (es : list BlockShortEntry) : outcome (list CompleteBlock) :=
  match es with
  | [] => Ok []
  | e :: es => b ← complete_block e; bs ← complete_blocks es; Ok (b :: bs)
  end.

(** [processBlocks], when no stop is requested meanwhile: the result ([None] when
    a block cannot be read, and nothing is changed then), the consumers and the
    last block id. *)
Definition processBlocks (responseStart : Z) (newBlocks : list BlockShortEntry) (consumers : list (T * SynchronizationState))
    (lastBlockId : list Z) : outcome (option UpdateConsumersResult * list (T * SynchronizationState) * list Z) :=
  match complete_blocks newBlocks with
  | Throw _ => Ok (None, consumers, lastBlockId)
  | r =>
      blocks ← r;
      let interval := {| startHeight := responseStart; SynchronizationState.blocks := map cb_blockHash blocks |} in
      '(result, consumers) ← updateConsumers interval blocks false consumers;
      Ok (Some result, consumers, default lastBlockId (cb_blockHash <$> last blocks))
  end.
End Blocks.

(** * The states of the worker thread *)

Module Machine.

(** In the order of their priorities. *)
Inductive State := idle | poolSync | blockchainSync | stopped.
Definition priority (s : State) : Z := match s with idle => 0 | poolSync => 1 | blockchainSync => 2 | stopped => 3 end.
#[global] Instance State_eq_dec : EqDecision State.
Proof. solve_decision. Defined.

(** Where the worker thread is: there is none; at the head of the loop of
    [workingProcedure], before [checkIfShouldStop]; about to enter
    [actualizeFutureState]; in [startBlockchainSync] before the query, waiting
    for the node's answer, with the answer, or in [updateConsumers]; in
    [startPoolSync] (the flag tells the second query from the first) before a
    query, waiting for the answer, or with it; asleep on the condition variable
    or woken from it; at its end. *)
Inductive Worker :=
| NoThread | LoopHead | Actualize
| SyncBlocks | AwaitBlocks | BlocksAnswered (ec : bool) | UpdateConsumers
| SyncPool (second : bool) | AwaitPool (second : bool) | PoolAnswered (second ec isLastKnownBlockActual : bool)
| Sleeping | Woken | Finished.

(** The thread that calls [start] and [stop]: free, or waiting in [stop] for the
    worker ([join]). *)
Inductive Caller := Ready | Joining.

(** [leaving] once [workingProcedure] has left its loop; [observing] while the
    synchronizer is an observer of the node; the tasks are named by numbers,
    [accepted] and [answered] record those taken and those whose promise was set;
    [terminated] when the process was ended by [std::terminate]. *)
Record t := {
  m_currentState : State; m_futureState : State;
  m_removeTransactionTasks : list Z; m_addTransactionTasks : list Z;
  worker : Worker; leaving : bool; observing : bool; caller : Caller;
  accepted : list Z; answered : list Z; terminated : bool;
}.

Definition new_machine : t :=
  {| m_currentState := stopped; m_futureState := stopped; m_removeTransactionTasks := []; m_addTransactionTasks := [];
     worker := NoThread; leaving := false; observing := false; caller := Ready; accepted := []; answered := []; terminated := false |}.

Definition with_states (c f : State) (m : t) : t :=
  {| m_currentState := c; m_futureState := f; m_removeTransactionTasks := m_removeTransactionTasks m; m_addTransactionTasks := m_addTransactionTasks m;
     worker := worker m; leaving := leaving m; observing := observing m; caller := caller m; accepted := accepted m; answered := answered m; terminated := terminated m |}.
Definition with_thread (w : Worker) (l : bool) (c : Caller) (m : t) : t :=
  {| m_currentState := m_currentState m; m_futureState := m_futureState m; m_removeTransactionTasks := m_removeTransactionTasks m; m_addTransactionTasks := m_addTransactionTasks m;
     worker := w; leaving := l; observing := observing m; caller := c; accepted := accepted m; answered := answered m; terminated := terminated m |}.
Definition with_tasks (removes adds acc ans : list Z) (m : t) : t :=
  {| m_currentState := m_currentState m; m_futureState := m_futureState m; m_removeTransactionTasks := removes; m_addTransactionTasks := adds;
     worker := worker m; leaving := leaving m; observing := observing m; caller := caller m; accepted := acc; answered := ans; terminated := terminated m |}.
Definition with_observing (o : bool) (m : t) : t :=
  {| m_currentState := m_currentState m; m_futureState := m_futureState m; m_removeTransactionTasks := m_removeTransactionTasks m; m_addTransactionTasks := m_addTransactionTasks m;
     worker := worker m; leaving := leaving m; observing := o; caller := caller m; accepted := accepted m; answered := answered m; terminated := terminated m |}.
Definition terminate (m : t) : t :=
  {| m_currentState := m_currentState m; m_futureState := m_futureState m; m_removeTransactionTasks := m_removeTransactionTasks m; m_addTransactionTasks := m_addTransactionTasks m;
     worker := worker m; leaving := leaving m; observing := observing m; caller := caller m; accepted := accepted m; answered := answered m; terminated := true |}.
Definition goto (w : Worker) (m : t) : t := with_thread w (leaving m) (caller m) m.
Definition with_future (s : State) (m : t) : t := with_states (m_currentState m) s m.

(** [m_hasWork.notify_one()]: the worker is the only thread that waits. *)
Definition notify_one (m : t) : t := match worker m with Sleeping => goto Woken m | _ => m end.

Definition setFutureStateIf (s : State) (pred : bool) (m : t) : t := if pred then notify_one (with_future s m) else m.
Definition setFutureState (s : State) (m : t) : t := setFutureStateIf s (priority (m_futureState m) <? priority s) m.
(** [setFutureStateIf(idle, m_futureState != stopped)], after an error. *)
Definition idleUnlessStopped (m : t) : t := setFutureStateIf idle (bool_decide (m_futureState m <> stopped)) m.

Definition hasWork (m : t) : bool :=
  bool_decide (m_futureState m <> idle) || bool_decide (m_removeTransactionTasks m <> []) || bool_decide (m_addTransactionTasks m <> []).

(** Back from [actualizeFutureState]. *)
Definition return_ (m : t) : t := goto (if leaving m then Finished else LoopHead) m.
(** [m_hasWork.wait(lk, pred)] with the mutex held. *)
Definition wait (m : t) : t := if hasWork m then return_ m else goto Sleeping m.

Definition observers (m : t) : t :=
  let m := if decide (m_currentState m = stopped /\ m_futureState m = blockchainSync) then with_observing true m else m in
  if decide (m_futureState m = stopped /\ m_currentState m <> stopped) then with_observing false m else m.
(** Both loops over the tasks, each of which sets a promise to a value or to an
    exception. *)
Definition drain (m : t) : t :=
  with_tasks [] [] (accepted m) (answered m ++ m_removeTransactionTasks m ++ m_addTransactionTasks m) m.

(** [actualizeFutureState] as far as it holds the mutex. *)
Definition actualizeFutureState (m : t) : t :=
  let m := drain (observers m) in
  match m_futureState m with
  | stopped => return_ (with_states stopped stopped m)
  | blockchainSync => goto SyncBlocks (with_states blockchainSync poolSync m)
  | poolSync => goto (SyncPool false) (with_states poolSync idle m)
  | idle => wait (with_states idle idle m)
  end.

(** What the worker thread does next, one step for each time it looks at the
    shared state.  A query can find no history to ask for or throw before it is
    sent; the blocks of an answer can be unreadable; the result of
    [updateConsumers] and whether the node's heights agree are the consumers' and
    the node's. *)
Inductive worker_step : t -> t -> Prop :=
| loop_go m : worker m = LoopHead -> m_futureState m <> stopped -> worker_step m (goto Actualize m)
| loop_stop m : worker m = LoopHead -> m_futureState m = stopped -> worker_step m (with_thread Actualize true (caller m) m)
| actualize m : worker m = Actualize -> worker_step m (actualizeFutureState m)
| wake m : worker m = Woken -> worker_step m (wait m)
| blocks_query m : worker m = SyncBlocks -> worker_step m (goto AwaitBlocks m)
| blocks_no_history m : worker m = SyncBlocks -> worker_step m (return_ m)
| blocks_throw m : worker m = SyncBlocks -> worker_step m (return_ (idleUnlessStopped m))
| blocks_error m : worker m = BlocksAnswered true -> worker_step m (return_ (idleUnlessStopped m))
| blocks_unreadable m : worker m = BlocksAnswered false -> worker_step m (return_ (idleUnlessStopped m))
| blocks_interrupted m : worker m = BlocksAnswered false -> m_futureState m = stopped -> worker_step m (return_ m)
| blocks_read m : worker m = BlocksAnswered false -> m_futureState m <> stopped -> worker_step m (goto UpdateConsumers m)
| blocks_updated m result upToDate : worker m = UpdateConsumers ->
    worker_step m (return_ match result with
                           | errorOccurred => idleUnlessStopped m
                           | nothingChanged => if upToDate : bool then m else setFutureState blockchainSync m
                           | addedNewBlocks => setFutureState blockchainSync m
                           end)
| blocks_update_throws m : worker m = UpdateConsumers -> worker_step m (return_ (idleUnlessStopped m))
| pool_query m second : worker m = SyncPool second -> worker_step m (goto (AwaitPool second) m)
| pool_error m second actual : worker m = PoolAnswered second true actual -> worker_step m (return_ (idleUnlessStopped m))
| pool_outdated m second : worker m = PoolAnswered second false false -> worker_step m (return_ (setFutureState blockchainSync m))
| pool_done m second : worker m = PoolAnswered second false true -> worker_step m (return_ m)
| pool_again m : worker m = PoolAnswered false false true -> worker_step m (goto (SyncPool true) m).

(** The node sets the promise of a query. *)
Inductive node_answer : t -> t -> Prop :=
| answer_blocks m ec : worker m = AwaitBlocks -> node_answer m (goto (BlocksAnswered ec) m)
| answer_pool m second ec actual : worker m = AwaitPool second -> node_answer m (goto (PoolAnswered second ec actual) m).

(** What other threads do: the calls of [start] and [stop], which one thread makes
    one after another; the node's notifications; transactions of the wallet; and
    the condition variable may wake the worker for no reason. *)
Inductive call : t -> t -> Prop :=
| start_thread m : caller m = Ready -> m_currentState m = stopped -> m_futureState m = stopped -> worker m = NoThread ->
    call m (with_thread LoopHead false Ready (setFutureStateIf blockchainSync true m))
| start_over m : caller m = Ready -> m_currentState m = stopped -> m_futureState m = stopped -> worker m <> NoThread ->
    call m (terminate m)
| start_throws m : caller m = Ready -> m_currentState m <> stopped \/ m_futureState m <> stopped -> call m m
| stop_thread m : caller m = Ready -> worker m <> NoThread ->
    call m (with_thread (worker (setFutureState stopped m)) (leaving m) Joining (setFutureState stopped m))
| stop_nothing m : caller m = Ready -> worker m = NoThread -> call m (setFutureState stopped m)
| localBlockchainUpdated m : call m (setFutureState blockchainSync m)
| poolChanged m : call m (setFutureState poolSync m)
| addUnconfirmedTransaction m task : m_currentState m <> stopped -> m_futureState m <> stopped ->
    call m (notify_one (with_tasks (m_removeTransactionTasks m) (m_addTransactionTasks m ++ [task]) (accepted m ++ [task]) (answered m) m))
| removeUnconfirmedTransaction m task : m_currentState m <> stopped -> m_futureState m <> stopped ->
    call m (notify_one (with_tasks (m_removeTransactionTasks m ++ [task]) (m_addTransactionTasks m) (accepted m ++ [task]) (answered m) m))
| spurious m : worker m = Sleeping -> call m (goto Woken m).

(** [join] returns and [stop] resets the thread. *)
Inductive stop_returns : t -> t -> Prop :=
| joined m : caller m = Joining -> worker m = Finished -> stop_returns m (with_thread NoThread (leaving m) Ready m).

Definition step (m m' : t) : Prop := worker_step m m' \/ node_answer m m' \/ call m m' \/ stop_returns m m'.

(** A run in which [stop] has not returned: [n] steps of the worker and answers
    of the node, and any calls between them. *)
Inductive stop_run : nat -> t -> t -> Prop :=
| run_none m : stop_run 0 m m
| run_work n m m1 m2 : worker_step m m1 \/ node_answer m m1 -> stop_run n m1 m2 -> stop_run (S n) m m2
| run_call n m m1 m2 : call m m1 -> stop_run n m1 m2 -> stop_run n m m2.

(** * What holds in every state *)

(** Inside [actualizeFutureState]. *)
Definition busy (w : Worker) : bool :=
  match w with NoThread | LoopHead | Actualize | Finished => false | _ => true end.

Record consistent (m : t) : Prop := {
  c_states : m_currentState m = stopped -> m_futureState m = stopped \/ m_futureState m = blockchainSync;
  c_observing : observing m = bool_decide (m_currentState m <> stopped);
  c_queues : m_currentState m = stopped -> m_removeTransactionTasks m = [] /\ m_addTransactionTasks m = [];
  c_tasks : accepted m ≡ₚ answered m ++ m_removeTransactionTasks m ++ m_addTransactionTasks m;
  c_nothread : worker m = NoThread -> caller m = Ready /\ m_currentState m = stopped /\ m_futureState m = stopped;
  c_caller : worker m <> NoThread -> (caller m = Joining <-> m_futureState m = stopped);
  c_finished : worker m = Finished -> m_currentState m = stopped /\ m_futureState m = stopped;
  c_busy : busy (worker m) = true -> m_currentState m <> stopped /\ leaving m = false;
  c_loop : worker m = LoopHead -> leaving m = false;
  c_leaving : leaving m = true -> worker m = NoThread \/ m_futureState m = stopped;
  c_sleeping : worker m = Sleeping -> hasWork m = false;
  c_alive : terminated m = false;
}.

Lemma new_machine_consistent : consistent new_machine.
Proof. split; try done; naive_solver. Qed.

(** Steps between two places inside [actualizeFutureState] keep it. *)
Lemma goto_consistent w m : consistent m -> busy (worker m) = true -> busy w = true -> w <> Sleeping -> consistent (goto w m).
Proof.
  intros [] Hb Hw Hs. split; cbn; try done.
  - by intros ->.
  - intros _. apply c_caller0. by intros E; rewrite E in Hb.
  - by intros ->.
  - intros _. by apply c_busy0.
  - by intros ->.
  - intros Hl. destruct (c_leaving0 Hl) as [E|]; [by rewrite E in Hb|by right].
Qed.

Lemma return_consistent m : consistent m -> busy (worker m) = true -> consistent (return_ m).
Proof.
  intros [] Hb. destruct (c_busy0 Hb) as [Hc Hl]. unfold return_. rewrite Hl. split; cbn; try done.
  - intros _. apply c_caller0. by intros E; rewrite E in Hb.
  - intros E. by rewrite Hl in E.
Qed.

(** A new future state, other than a stop or the end of one. *)
Lemma setFutureStateIf_consistent s pred m :
  consistent m -> (pred = true -> s <> stopped /\ m_futureState m <> stopped /\ (m_currentState m = stopped -> s = blockchainSync)) ->
  consistent (setFutureStateIf s pred m) /\ worker (setFutureStateIf s pred m) = (if pred then worker (notify_one m) else worker m).
Proof.
  intros HC HP. unfold setFutureStateIf. destruct pred; [|done]. destruct (HP eq_refl) as (Hs & Hf & Hcur). destruct HC.
  assert (Hn : worker m <> NoThread) by (intros E; by destruct (c_nothread0 E) as (_ & _ & ?)).
  assert (Hl : leaving m = false) by (destruct (leaving m); [destruct (c_leaving0 eq_refl)|]; done).
  assert (Hc : caller m = Joining <-> s = stopped) by (split; [intros E; by apply c_caller0 in E|done]).
  unfold notify_one. cbn [worker with_future with_states]. destruct (worker m) eqn:Ew; split; try done; split; cbn; rewrite ?Ew; try done; try tauto;
    try (intros E; specialize (Hcur E); subst s; by right); try (intros E; rewrite Hl in E; done); try (intros _; by apply c_finished0); intros _; by apply c_busy0.
Qed.

Lemma setFutureState_stopped s m : m_futureState m = stopped -> setFutureState s m = m.
Proof. intros E. unfold setFutureState. rewrite E. by destruct s. Qed.

Lemma setFutureState_consistent s m : s <> stopped -> consistent m -> consistent (setFutureState s m).
Proof.
  intros Hs HC. apply setFutureStateIf_consistent; [done|]. intros Hp%Z.ltb_lt. split_and!; [done| |].
  - intros E. rewrite E in Hp. by destruct s.
  - intros E. destruct HC. destruct (c_states0 E) as [E'|E']; rewrite E' in Hp; by destruct s.
Qed.

Lemma idleUnlessStopped_consistent m : consistent m -> m_currentState m <> stopped -> consistent (idleUnlessStopped m).
Proof.
  intros HC Hc. apply setFutureStateIf_consistent; [done|]. intros Hp%bool_decide_eq_true. by split_and!.
Qed.

Lemma setFutureState_busy s m : busy (worker (setFutureState s m)) = busy (worker m).
Proof. unfold setFutureState, setFutureStateIf, notify_one. destruct (_ <? _); [cbn|done]. by destruct (worker m) eqn:E; cbn; rewrite ?E. Qed.
Lemma idleUnlessStopped_busy m : busy (worker (idleUnlessStopped m)) = busy (worker m).
Proof. unfold idleUnlessStopped, setFutureStateIf, notify_one. destruct (bool_decide _); [cbn|done]. by destruct (worker m) eqn:E; cbn; rewrite ?E. Qed.

Lemma wait_consistent m : consistent m -> busy (worker m) = true -> consistent (wait m).
Proof.
  intros HC Hb. unfold wait. destruct (hasWork m) eqn:Ew; [by apply return_consistent|]. destruct HC. split; cbn; try done.
  - intros _. apply c_caller0. by intros E; rewrite E in Hb.
  - intros _. by apply c_busy0.
  - intros Hl. destruct (c_leaving0 Hl) as [E|]; [by rewrite E in Hb|by right].
Qed.

(** [actualizeFutureState] attaches and detaches the observer, answers all tasks,
    and stops when it has to. *)
Lemma observers_eq m : consistent m -> observers m = with_observing (bool_decide (m_futureState m <> stopped)) m.
Proof.
  intros []. unfold observers. destruct m as [c f rs ads w l o ca acc ans tm]; cbn in *. subst o.
  destruct c, f; try done; by destruct (c_states0 eq_refl).
Qed.

Lemma actualize_consistent m : consistent m -> worker m = Actualize -> consistent (actualizeFutureState m).
Proof.
  intros HC Hw. unfold actualizeFutureState. rewrite observers_eq by done. destruct HC. specialize (c_caller0 ltac:(by rewrite Hw)).
  assert (Hl : m_futureState m <> stopped -> leaving m = false).
  { intros Hf. destruct (leaving m); [|done]. destruct (c_leaving0 eq_refl) as [E|]; [by rewrite Hw in E|done]. }
  assert (Ht : accepted m ≡ₚ (answered m ++ m_removeTransactionTasks m ++ m_addTransactionTasks m) ++ [] ++ []) by by rewrite !app_nil_r.
  cbn [m_futureState drain with_tasks with_observing]. destruct (m_futureState m) eqn:Ef; try specialize (Hl ltac:(done)).
  4: clear Hl; unfold return_; split; cbn -[app]; try done; try (by destruct (leaving m)); intros; first [by left|by right].
  all: unfold wait; change (hasWork _) with false; cbn -[app]; split; cbn -[app]; rewrite ?Ef; try done; try (intros E; by rewrite Hl in E).
  all: intros _; by rewrite c_caller0.
Qed.

(** A new task. *)
Lemma task_consistent removes adds task m :
  consistent m -> m_currentState m <> stopped -> m_futureState m <> stopped ->
  removes ++ adds ≡ₚ (m_removeTransactionTasks m ++ m_addTransactionTasks m) ++ [task] ->
  consistent (notify_one (with_tasks removes adds (accepted m ++ [task]) (answered m) m)).
Proof.
  intros [] Hc Hf HP.
  assert (Ht : accepted m ++ [task] ≡ₚ answered m ++ removes ++ adds) by (rewrite HP, c_tasks0; by rewrite <- !app_assoc).
  unfold notify_one. cbn [worker with_tasks]. destruct (worker m) eqn:Ew; split; cbn; rewrite ?Ew; try done; try tauto.
Qed.

Lemma call_consistent m m' : consistent m -> call m m' -> consistent m'.
Proof.
  intros HC HS. inversion HS as [? Hr Hc Hf Hw|? Hr Hc Hf Hw| |? Hr Hw|? Hr Hw| | |? ? Hc Hf|? ? Hc Hf|? Hw]; subst; try done.
  - destruct HC. unfold setFutureStateIf, notify_one. cbn. rewrite Hw. split; cbn; try done; by right.
  - exfalso. destruct HC. apply c_caller0 in Hw. apply Hw in Hf. congruence.
  - destruct HC. assert (Hf : m_futureState m <> stopped) by (intros E; apply c_caller0 in E; congruence).
    assert (E : setFutureState stopped m = notify_one (with_future stopped m)) by (unfold setFutureState; by destruct (m_futureState m)).
    rewrite E. unfold notify_one. cbn [worker with_future with_states].
    destruct (worker m) eqn:Ew; split; cbn; rewrite ?Ew; try done; try tauto; intros; first [by left|by right].
  - destruct HC. rewrite setFutureState_stopped; [by split|]. by apply c_nothread0.
  - by apply setFutureState_consistent.
  - by apply setFutureState_consistent.
  - apply task_consistent; [done..|]. by rewrite app_assoc.
  - apply task_consistent; [done..|]. rewrite <- !app_assoc. f_equiv. apply Permutation_app_comm.
  - apply goto_consistent; [done|by rewrite Hw|done|done].
Qed.

Lemma step_consistent m m' : consistent m -> step m m' -> consistent m'.
Proof.
  intros HC [HS|[HS|[HS|HS] ] ].
  - inversion HS as [? Hw Hf|? Hw Hf|? Hw|? Hw|? Hw|? Hw|? Hw|? Hw|? Hw|? Hw Hf|? Hw Hf|? r u Hw|? Hw|? b Hw|? b a Hw|? b Hw|? b Hw|? Hw]; subst.
    3: by apply actualize_consistent.
    1,2: destruct HC; split; cbn; rewrite ?Hw in *; try done; try (by right); try (intros _; by apply c_caller0); intros E; by rewrite c_loop0 in E.
    all: assert (Hb : busy (worker m) = true) by (by rewrite Hw).
    all: assert (Hc : m_currentState m <> stopped) by (by apply (c_busy m HC)).
    all: try (apply return_consistent; [|rewrite ?idleUnlessStopped_busy, ?setFutureState_busy; exact Hb]);
         try (by apply idleUnlessStopped_consistent); try (by apply setFutureState_consistent); try done;
         try (by apply goto_consistent).
    + by apply wait_consistent.
    + apply return_consistent; [|by destruct r, u; rewrite ?idleUnlessStopped_busy, ?setFutureState_busy].
      destruct r; [destruct u; [done|]|..]; try (by apply setFutureState_consistent); by apply idleUnlessStopped_consistent.
  - inversion HS as [? ? Hw|? ? ? ? Hw]; subst; apply goto_consistent; try done; by rewrite Hw.
  - by eapply call_consistent.
  - inversion HS as [? Hj Hw]; subst. destruct HC. destruct (c_finished0 Hw). split; cbn; try done; by left.
Qed.

Lemma reachable_consistent m : rtc step new_machine m -> consistent m.
Proof.
  intros H. pose proof new_machine_consistent as H0. induction H as [|a b d Hs _ IH]; [done|]. by apply IH, (step_consistent a).
Qed.

(** * Stopping *)

(** How far the worker is from its end once it has to stop. *)
Definition remaining (m : t) : nat :=
  match worker m with
  | NoThread | Finished => 0
  | Actualize => if leaving m then 1 else 3
  | LoopHead => 2
  | UpdateConsumers | Woken | Sleeping => 3
  | BlocksAnswered _ | PoolAnswered true _ _ => 4
  | AwaitBlocks | AwaitPool true => 5
  | SyncBlocks | SyncPool true => 6
  | PoolAnswered false _ _ => 7
  | AwaitPool false => 8
  | SyncPool false => 9
  end.

(** The worker waits for the node's answer to a query. *)
Definition awaits_node (m : t) : bool := match worker m with AwaitBlocks | AwaitPool _ => true | _ => false end.

Lemma return_stopping m : m_futureState m = stopped -> m_futureState (return_ m) = stopped /\ (remaining (return_ m) <= 2)%nat.
Proof. intros E. split; [done|]. unfold return_, remaining. cbn. destruct (leaving m); lia. Qed.

Lemma idleUnlessStopped_stopped m : m_futureState m = stopped -> idleUnlessStopped m = m.
Proof. intros E. unfold idleUnlessStopped. by rewrite E. Qed.

Lemma work_stopping m m' : consistent m -> m_futureState m = stopped -> worker_step m m' \/ node_answer m m' ->
  m_futureState m' = stopped /\ (remaining m' < remaining m)%nat.
Proof.
  intros HC E [HS|HS].
  2:{ inversion HS as [? ? Hw|? b ? ? Hw]; subst; unfold remaining; rewrite Hw; cbn; [split; [done|lia]|]. split; [done|]. destruct b; lia. }
  pose proof (return_stopping m E) as [Hr Hk].
  inversion HS as [? Hw Hf|? Hw Hf|? Hw|? Hw|? Hw|? Hw|? Hw|? Hw|? Hw|? Hw Hf|? Hw Hf|? r u Hw|? Hw|? b Hw|? b a Hw|? b Hw|? b Hw|? Hw]; subst; try done.
  all: rewrite ?idleUnlessStopped_stopped, ?setFutureState_stopped by done.
  all: try (split; [done|]; unfold remaining; rewrite Hw; try destruct b; cbn; lia).
  all: try (split; [exact Hr|]; apply (Nat.le_lt_trans _ _ _ Hk); unfold remaining; rewrite Hw; try destruct b; lia).
  - unfold actualizeFutureState. rewrite observers_eq by done. cbn. rewrite E. split; [done|].
    unfold remaining. cbn. rewrite Hw. destruct (leaving m); lia.
  - unfold wait. assert (Hh : hasWork m = true) by (unfold hasWork; by rewrite E). rewrite Hh. split; [done|].
    apply (Nat.le_lt_trans _ _ _ Hk). unfold remaining. rewrite Hw. lia.
  - replace (match r with nothingChanged => if u then m else m | _ => m end) with m by (by destruct r, u).
    split; [done|]. apply (Nat.le_lt_trans _ _ _ Hk). unfold remaining. rewrite Hw. lia.
Qed.

(** Calls of others change nothing while the worker is stopping. *)
Lemma call_stopping m m' : consistent m -> m_futureState m = stopped -> worker m <> NoThread -> call m m' -> m' = m.
Proof.
  intros HC E Hn HS. assert (Hj : caller m = Joining) by (by apply (c_caller m HC)).
  inversion HS as [? Hr|? Hr| |? Hr|? Hr| | | | |? Hw]; subst; try congruence; try (by apply setFutureState_stopped).
  exfalso. apply (c_sleeping m HC) in Hw. unfold hasWork in Hw. by rewrite E in Hw.
Qed.

Lemma work_alive m m' : consistent m -> worker m <> NoThread -> worker_step m m' \/ node_answer m m' -> worker m' <> NoThread.
Proof.
  intros HC Hn [HS|HS]; [|inversion HS; subst; done].
  inversion HS as [| |? Hw|? Hw| | | | | | | | | | | | | |]; subst; cbn; try done; try (by destruct (leaving _)).
  - unfold actualizeFutureState, wait, return_, goto. destruct (m_futureState _); cbn; try done; try destruct (hasWork _); cbn; try done; by destruct (leaving _).
  - unfold wait, return_. destruct (hasWork m); cbn; by destruct (leaving m).
Qed.

Lemma stopping_run n m m' : consistent m -> m_futureState m = stopped -> worker m <> NoThread -> stop_run n m m' ->
  consistent m' /\ m_futureState m' = stopped /\ worker m' <> NoThread /\ (n + remaining m' <= remaining m)%nat.
Proof.
  intros HC E Hn HR. induction HR as [m|n m m1 m2 HS _ IH|n m m1 m2 HS _ IH]; [split_and!; done || lia| |].
  - destruct (work_stopping m m1 HC E HS) as [E1 Hlt].
    destruct IH as (? & ? & ? & ?); [|done|by eapply work_alive|split_and!; done || lia].
    eapply step_consistent; [exact HC|]. destruct HS; [by left|right; by left].
  - apply call_stopping in HS; [|done..]. subst m1. by apply IH.
Qed.

Lemma worker_enabled m : consistent m -> m_futureState m = stopped -> worker m <> NoThread -> worker m <> Finished ->
  if awaits_node m then exists m', node_answer m m' else exists m', worker_step m m'.
Proof.
  intros HC E H1 H2. unfold awaits_node. destruct (worker m) as [| | | | |ec| |b|b|b ec a| | |] eqn:Ew; try done.
  - eexists. by apply loop_stop.
  - eexists. by apply actualize.
  - eexists. by apply blocks_query.
  - exists (goto (BlocksAnswered true) m). by constructor.
  - destruct ec; eexists; [by apply blocks_error|by apply blocks_interrupted].
  - eexists. by apply (blocks_updated m nothingChanged true).
  - eexists. by apply (pool_query m b).
  - exists (goto (PoolAnswered b true true) m). by constructor.
  - destruct ec, a; eexists; first [by eapply pool_error|by eapply pool_done|by eapply pool_outdated].
  - exfalso. apply (c_sleeping m HC) in Ew. unfold hasWork in Ew. by rewrite E in Ew.
  - eexists. by apply wake.
Qed.


(** A synchronizer told to stop while it waits for the node's blocks, with a
    transaction to add. *)
Definition awaiting : t :=
  {| m_currentState := blockchainSync; m_futureState := poolSync; m_removeTransactionTasks := []; m_addTransactionTasks := [7];
     worker := AwaitBlocks; leaving := false; observing := true; caller := Ready; accepted := [7]; answered := []; terminated := false |}.
Definition stopping : t :=
  {| m_currentState := blockchainSync; m_futureState := stopped; m_removeTransactionTasks := []; m_addTransactionTasks := [7];
     worker := AwaitBlocks; leaving := false; observing := true; caller := Joining; accepted := [7]; answered := []; terminated := false |}.
Definition stopped_at_last : t :=
  {| m_currentState := stopped; m_futureState := stopped; m_removeTransactionTasks := []; m_addTransactionTasks := [];
     worker := Finished; leaving := true; observing := false; caller := Joining; accepted := [7]; answered := [7]; terminated := false |}.

Lemma stopping_reachable : rtc step new_machine stopping.
Proof.
  eapply rtc_l; [right; right; left; by apply start_thread|]. eapply rtc_l; [left; by apply loop_go|].
  eapply rtc_l; [left; by apply actualize|]. eapply rtc_l; [left; by apply blocks_query|].
  eapply rtc_l; [right; right; left; by apply (addUnconfirmedTransaction _ 7)|].
  apply rtc_once. right. right. left. by apply (stop_thread awaiting).
Qed.

Lemma stopping_run_ends : stop_run 4 stopping stopped_at_last.
Proof.
  eapply run_work; [right; by apply (answer_blocks stopping false)|]. eapply run_work; [left; by apply blocks_interrupted|].
  eapply run_work; [left; by apply loop_stop|]. eapply run_work; [left; by apply actualize|]. apply run_none.
Qed.

End Machine.

(** * Updating the consumers *)

(** What a consumer promises: [in_step c n] when it has seen the blocks below
    height [n], which it keeps when it is told of blocks and detached ones. *)
Class ConsumerLaws (T : Type) {C : IBlockchainConsumer T} := {
  in_step : T -> Z -> Prop;
  good_block : CompleteBlock -> Z -> Prop;
  law_detach c n h c' : in_step c n -> 0 <= h < n -> onBlockchainDetach c h = Ok c' -> in_step c' h;
  law_new_blocks c n bs ok c' : in_step c n -> 0 <= n -> n + zlen bs < UINT32_MAX -> bs <> [] ->
    (forall i b, bs !! i = Some b -> good_block b (n + Z.of_nat i)) ->
    onNewBlocks c bs n = Ok (ok, c') -> in_step c' (if ok then n + zlen bs else n);
}.

Section Update.
Context {B : BuildConfig} {T : Type} {C : IBlockchainConsumer T} {L : ConsumerLaws T}.
Variables (interval : BlockchainInterval) (bs : list CompleteBlock).
Let e := startHeight interval + zlen (blocks interval).
Hypothesis Hids : map cb_blockHash bs = blocks interval.
Hypothesis Hgood : forall i b, bs !! i = Some b -> good_block b (startHeight interval + Z.of_nat i).
Hypothesis H0 : 0 <= startHeight interval.
Hypothesis He : e < UINT32_MAX.

(** A consumer with its state. *)
Definition coherent (p : T * SynchronizationState) : Prop := in_step p.1 (zlen (m_blockchain p.2)).

Lemma update_consumer_spec c s changed failed c' s' :
  coherent (c, s) -> startHeight interval <= zlen (m_blockchain s) -> zlen (m_blockchain s) < 2 ^ 32 ->
  update_consumer interval bs c s = Ok (changed, failed, c', s') ->
  coherent (c', s') /\
  (failed = false -> take (Z.to_nat e) (m_blockchain s') = overlay (m_blockchain s) interval /\
     (if changed : bool then m_blockchain s' = overlay (m_blockchain s) interval else s' = s)).
Proof.
  unfold UINT32_MAX in *. intros HC Hs Hz E. destruct (checkInterval_spec s interval ltac:(lia) Hz) as (r & Er & H1 & H2 & H3 & _); [change (2 ^ 32) with 4294967296; fold e; lia|].
  destruct (follow_spec s interval ltac:(lia) Hz) as (r' & s2 & Er' & Ef & Hov & Htake); [change (2 ^ 32) with 4294967296; fold e; lia|].
  rewrite Er in Er'. injection Er' as <-. unfold update_consumer in E. rewrite Er in E. cbn [mbind outcome_bind] in E. fold e in Htake, H1, H2, H3.
  apply bind_Ok in E as (c1 & Ec & E). apply bind_Ok in E as (s1 & Es & E). unfold follow in Ef. rewrite Es in Ef. cbn [mbind outcome_bind] in Ef.
  assert (HC1 : in_step c1 (zlen (m_blockchain s1)) /\ (hasNewBlocks r = true -> zlen (m_blockchain s1) = newBlockHeight r /\ startHeight interval <= newBlockHeight r < e)).
  { destruct (detachRequired r) eqn:Ed.
    - destruct (H1 eq_refl) as (_ & En & Hr & _). unfold state_detach in Es. apply bind_Ok in Es as (_ & _ & [= <-]).
      assert (Hl : zlen (resize (Z.to_nat (detachHeight r)) NULL_HASH (m_blockchain s)) = detachHeight r) by (unfold zlen; rewrite length_resize; lia).
      cbn [m_blockchain]. rewrite Hl. split; [eapply law_detach; [exact HC| |exact Ec]; cbn; lia|lia].
    - injection Ec as <-. injection Es as <-. split; [exact HC|]. intros Hb. destruct (H2 eq_refl Hb). lia. }
  destruct HC1 as [HC1 Hn]. destruct (hasNewBlocks r) eqn:Eb.
  - destruct (Hn eq_refl) as [Hlen Hlt]. apply bind_Ok in E as ([ok c2] & En & E).
    set (rest := drop (Z.to_nat (newBlockHeight r - startHeight interval)) bs) in *.
    assert (Hzr : zlen rest = e - newBlockHeight r).
    { unfold rest. assert (zlen bs = zlen (blocks interval)) by (rewrite <- Hids; unfold zlen; by rewrite length_map).
      unfold zlen in *. rewrite length_drop. unfold e, zlen in *. lia. }
    assert (Hin : in_step c2 (if ok then newBlockHeight r + zlen rest else newBlockHeight r)).
    { eapply law_new_blocks; [rewrite <- Hlen; exact HC1|lia|unfold UINT32_MAX; lia| | |exact En].
      - intros E0. rewrite E0, zlen_nil in Hzr. lia.
      - intros i b Hi. unfold rest in Hi. rewrite lookup_drop in Hi. apply Hgood in Hi.
        by replace (startHeight interval + Z.of_nat (Z.to_nat (newBlockHeight r - startHeight interval) + i)) with (newBlockHeight r + Z.of_nat i) in Hi by lia. }
    destruct ok.
    + rewrite Ef in E. cbn [mbind outcome_bind] in E. injection E as <- <- <- <-. split; [|done]. unfold coherent. cbn.
      assert (Hz2 : zlen (m_blockchain s2) = e) by (unfold addBlocks in Ef; apply bind_Ok in Ef as (_ & _ & [= <-]); cbn [m_blockchain]; rewrite zlen_app, Hlen;
        unfold zlen at 1; rewrite length_drop; unfold e, zlen in *; lia).
      rewrite Hz2. by replace (newBlockHeight r + zlen rest) with e in Hin by lia.
    + injection E as <- <- <- <-. split; [|done]. unfold coherent. cbn. by rewrite Hlen.
  - injection E as <- <- <- <-. injection Ef as <-. split; [exact HC1|]. by intros _.
Qed.

Lemma updateConsumers_spec smth consumers r consumers' :
  Forall coherent consumers -> Forall (fun p => startHeight interval <= zlen (m_blockchain p.2) < 2 ^ 32) consumers ->
  updateConsumers interval bs smth consumers = Ok (r, consumers') ->
  Forall coherent consumers' /\
  (r <> errorOccurred -> Forall2 (fun p p' => take (Z.to_nat e) (m_blockchain p'.2) = overlay (m_blockchain p.2) interval /\
     (p'.2 = p.2 \/ m_blockchain p'.2 = overlay (m_blockchain p.2) interval)) consumers consumers').
Proof.
  revert smth r consumers'. induction consumers as [|[c s] consumers IH]; intros smth r consumers' HC HS E; cbn [updateConsumers] in E.
  { injection E as _ <-. split; constructor. }
  apply Forall_cons in HC as [Hc HC], HS as [Hs HS]. apply bind_Ok in E as ([[[changed failed] c'] s'] & E1 & E). cbn in Hs.
  destruct (update_consumer_spec c s changed failed c' s' Hc ltac:(lia) ltac:(lia) E1) as [Hc' Hf]. destruct failed.
  - injection E as <- <-. split; [by constructor|done].
  - apply bind_Ok in E as ([r' rest] & E2 & E). injection E as <- <-. destruct (IH _ _ _ HC HS E2) as [HC' HF'].
    split; [by constructor|]. intros Hr. constructor; [|by apply HF']. destruct (Hf eq_refl) as [Ht Hch]. cbn. split; [done|].
    destruct changed; [by right|left; done].
Qed.
End Update.
