(* ===== verification/WalletSync.v ===== *)
(** One round of synchronization, from the short history of the wallets through
    the node's answer to the new state of the wallets: [BlockchainSynchronizer],
    [SynchronizationState] and the queries of the node together. *)
From S2P Require Import Prelude CryptoNote BlockIndex Currency Validation Blockchain Reorganization MainChain ChainQueries.
From S2P Require Import TransactionApi SynchronizationState BlockchainSynchronizer.

(** A list of block hashes in which every hash names the one before it. *)
Definition chained (parent : list Z -> option (list Z)) (l : list (list Z)) : Prop :=
  forall i h, l !! i = Some h -> parent h = match i with O => None | S j => l !! j end.

(** Two such lists with a common hash agree up to it. *)
Lemma chained_agree parent a b i j h :
  chained parent a -> chained parent b -> a !! i = Some h -> b !! j = Some h -> i = j /\ take (S i) a = take (S j) b.
Proof.
  intros Ha Hb. revert j h. induction i as [|i IH]; intros j h Hi Hj; pose proof (Ha _ _ Hi) as Pa; pose proof (Hb _ _ Hj) as Pb; rewrite Pa in Pb.
  - destruct j as [|j]; [|by apply lookup_lt_Some in Hj as Hl; destruct (lookup_lt_is_Some_2 b j) as [x Hx]; [lia|congruence] ].
    split; [done|]. destruct a as [|x a], b as [|y b]; try done. injection Hi as ->. injection Hj as ->. by rewrite !firstn_cons, !take_0.
  - destruct (lookup_lt_is_Some_2 a i) as [x Hx]; [apply lookup_lt_Some in Hi; lia|]. rewrite Hx in Pb.
    destruct j as [|j]; [done|]. destruct (IH j x Hx (eq_sym Pb)) as [-> E]. split; [done|].
    rewrite (take_S_r _ _ _ Hi), (take_S_r _ _ _ Hj). congruence.
Qed.

Lemma take_overlay (hs bc ids : list (list Z)) (start : Z) :
  0 <= start -> take (Z.to_nat start) bc = take (Z.to_nat start) hs -> ids = take (length ids) (drop (Z.to_nat start) hs) ->
  overlay bc {| startHeight := start; blocks := ids |} = take (Z.to_nat (start + zlen ids)) hs.
Proof.
  intros H0 E Ei. unfold overlay. cbn [startHeight blocks]. rewrite E, Ei at 1. rewrite take_take_drop. f_equal. unfold zlen. lia.
Qed.

Section Round.
Context {B : BuildConfig} {K : Crypto} {T : Type} {C : IBlockchainConsumer T} {L : ConsumerLaws T}.
Variable m_currency : Currency.
Variables (parent : list Z -> option (list Z)) (g : Block) (bc : Blockchain).
Hypothesis HC : chain_ok g bc.
Hypothesis Hsize : zlen (m_blocks bc) < 4294967168.
Let hashes := m_container (m_blockIndex bc).
Hypothesis Hnode : chained parent hashes.

(** The shortest state and its start. *)
Lemma shortest_spec s0 st0 (consumers : list (T * SynchronizationState)) s st :
  shortest_consumer s0 st0 consumers = (s, st) ->
  (s = s0 \/ s ∈ map snd consumers) /\ getHeight s <= getHeight s0 /\ Forall (fun p => getHeight s <= getHeight p.2) consumers.
Proof.
  revert s0 st0. induction consumers as [|[c s1] consumers IH]; intros s0 st0 E; cbn [shortest_consumer] in E.
  { injection E as <- <-. split_and!; [by left|lia|constructor]. }
  apply IH in E as (H1 & H2 & H3). destruct (Z.ltb_spec (getHeight s1) (getHeight s0)) as [Hlt|Hge].
  - split_and!; [|lia|constructor; [done|done] ]. right. cbn. destruct H1 as [->|H1]; [by left|by right].
  - split_and!; [|lia|constructor; [cbn; lia|done] ]. destruct H1 as [->|H1]; [by left|right; by right].
Qed.

(** The first block of the answer is known to the wallet, at the same height. *)
Lemma common_start s known start h local :
  1 <= zlen (m_blockchain s) <= 2 ^ 31 -> 0 <= local < UINT32_MAX -> chained parent (m_blockchain s) ->
  getShortHistory s local = Some (Ok known) -> h ∈ known -> hashes !! Z.to_nat start = Some h -> 0 <= start ->
  start < zlen (m_blockchain s) /\ take (Z.to_nat start) (m_blockchain s) = take (Z.to_nat start) hashes.
Proof.
  intros Hs Hl Hch Ek Hin Hh H0. destruct (getShortHistory_spec s local Hs Hl) as (l & genesis & E & Hg & (hs & _ & HF & H2) & _ & _).
  rewrite E in Ek. injection Ek as <-.
  assert (Hk : exists i, m_blockchain s !! i = Some h).
  { apply elem_of_app in Hin as [Hin|Hin]; [|exists 0%nat; apply list_elem_of_singleton in Hin as ->; done].
    apply list_elem_of_lookup in Hin as [i Hi]. destruct (Forall2_lookup_r _ _ _ _ _ H2 Hi) as (z & _ & Hz). eauto. }
  destruct Hk as [i Hi]. destruct (chained_agree parent _ _ _ _ _ Hch Hnode Hi Hh) as [-> Et].
  apply lookup_lt_Some in Hi as Hlt. split; [unfold zlen; lia|]. apply (f_equal (take (Z.to_nat start))) in Et.
  rewrite !take_take in Et. by rewrite !Nat.min_l in Et by lia.
Qed.

Definition comparable (a b : list (list Z)) : Prop := a `prefix_of` b \/ b `prefix_of` a.

Lemma comparable_take (a b : list (list Z)) n : comparable a b -> (n <= length a)%nat -> (n <= length b)%nat -> take n a = take n b.
Proof. intros [[k ->]|[k ->] ] Ha Hb; by rewrite take_app_le by done. Qed.

Definition known_size (s : SynchronizationState) : Prop := 1 <= zlen (m_blockchain s) <= 2 ^ 31.
Lemma known_height s : known_size s -> getHeight s = zlen (m_blockchain s).
Proof. unfold known_size, getHeight. change (2 ^ 31) with 2147483648. intros H. apply u32_small. unfold is_u32. lia. Qed.

(** The history comes from a shortest consumer. *)
Lemma history_spec (consumers : list (T * SynchronizationState)) local known st :
  Forall (fun p => known_size p.2) consumers -> consumers <> [] -> getCommonHistory consumers local = (Some (Ok known), st) ->
  exists s, s ∈ map snd consumers /\ Forall (fun p => zlen (m_blockchain s) <= zlen (m_blockchain p.2)) consumers /\ getShortHistory s local = Some (Ok known).
Proof.
  intros HK Hne E. destruct consumers as [|[c s0] consumers]; [done|]. cbn [getCommonHistory] in E.
  destruct (shortest_consumer s0 (getSyncStart c) consumers) as [s st'] eqn:Es. injection E as Ek _.
  destruct (shortest_spec _ _ _ _ _ Es) as (H1 & H2 & H3). exists s.
  assert (Hin : s ∈ map snd ((c, s0) :: consumers)) by (cbn; destruct H1 as [->|H1]; [by left|by right]).
  assert (Hk : known_size s). { apply list_elem_of_fmap in Hin as (p & -> & Hp). rewrite Forall_forall in HK. by apply HK. }
  split_and!; [done| |done]. apply Forall_cons in HK as [HK0 HK]. rewrite (known_height s) in * by done. constructor.
  - cbn. cbn in HK0. by rewrite known_height in H2.
  - rewrite Forall_forall in *. intros p Hp. specialize (H3 p Hp). rewrite known_height in H3; [done|by apply HK].
Qed.

(** The tip of a wallet that follows the node is where the answer starts. *)
Lemma tip_start s local known start :
  known_size s -> zlen (m_blockchain s) <= local + 1 -> 0 <= local < UINT32_MAX -> m_blockchain s `prefix_of` hashes -> getShortHistory s local = Some (Ok known) ->
  findSupplement (m_blockIndex bc) known = Some start -> start = zlen (m_blockchain s) - 1.
Proof.
  intros Hs Hl Hu Hp Ek Ef. destruct (getShortHistory_spec s local Hs Hu) as (l & genesis & E & _ & _ & _ & Hh). rewrite E in Ek. injection Ek as <-.
  unfold known_size in Hs. rewrite Z.min_l in Hh by done.
  destruct (l ++ [genesis]) as [|h known] eqn:El; [by destruct l|]. cbn in Hh. symmetry in Hh.
  assert (Hn : hashes !! Z.to_nat (zlen (m_blockchain s) - 1) = Some h) by by eapply prefix_lookup_Some.
  cbn [findSupplement] in Ef. unfold getBlockHeight in Ef. fold hashes in Ef.
  rewrite (position_NoDup hashes h _ (lk_distinct _ _ (co_linked _ _ HC)) Hn) in Ef. cbn in Ef. injection Ef as <-.
  change (2 ^ 31) with 2147483648 in Hs. rewrite u32_small by (unfold is_u32; lia). lia.
Qed.

(** C20.  One round of synchronization brings every wallet to the node's chain:
    when the wallets are on comparable chains of linked blocks, whatever fork of
    the node's chain that is, then after a round without error every wallet agrees
    with the node's main chain up to the end of the node's answer, the wallets
    that were changed know exactly that part of it, and every wallet has processed
    exactly the blocks it knows.  When the wallets follow the node already the
    answer goes at least 127 blocks beyond the shortest wallet, or to the end of
    the chain: the rounds reach it. *)
Theorem sync_round (consumers consumers' : list (T * SynchronizationState)) (local timestamp start current full : Z) (known : list (list Z))
    (st : SynchronizationStart) (entries : list BlockShortInfo) (bs : list CompleteBlock) (r : UpdateConsumersResult) :
  consumers <> [] -> Forall coherent consumers -> Forall (fun p => known_size p.2 /\ chained parent (m_blockchain p.2)) consumers ->
  (forall p q, p ∈ consumers -> q ∈ consumers -> comparable (m_blockchain p.2) (m_blockchain q.2)) -> 0 <= local < UINT32_MAX ->
  getCommonHistory consumers local = (Some (Ok known), st) ->
  queryBlocksLite m_currency bc known timestamp = Ok (Some (start, current, full, entries)) ->
  map cb_blockHash bs = map bs_blockId entries -> (forall i b, bs !! i = Some b -> good_block b (start + Z.of_nat i)) ->
  updateConsumers {| startHeight := start; blocks := map bs_blockId entries |} bs false consumers = Ok (r, consumers') ->
  let e := Z.to_nat (start + zlen entries) in
  Forall coherent consumers' /\
  (r <> errorOccurred ->
     Forall2 (fun p p' => take e (m_blockchain p'.2) = take e hashes /\ (p'.2 = p.2 \/ m_blockchain p'.2 = take e hashes)) consumers consumers') /\
  (Forall (fun p => m_blockchain p.2 `prefix_of` hashes /\ zlen (m_blockchain p.2) <= local + 1) consumers ->
     exists p, p ∈ consumers /\ Forall (fun q => zlen (m_blockchain p.2) <= zlen (m_blockchain q.2)) consumers /\
       Z.min (zlen hashes) (zlen (m_blockchain p.2) + 127) <= start + zlen entries).
Proof.
  intros Hne HCo HK Hcmp Hl Eh Eq Hids Hgood Eu e.
  assert (HKs : Forall (fun p => known_size p.2) consumers) by (eapply Forall_impl; [exact HK|]; by intros p [? _]).
  destruct (history_spec consumers local known st HKs Hne Eh) as (s & Hin & Hmin & Es).
  apply list_elem_of_fmap in Hin as (p & -> & Hp). rewrite Forall_forall in HK. destruct (HK p Hp) as [Hps Hpc].
  destruct (query_spec m_currency g bc HC Hsize bs_blockId id_entry (lite_entry bc timestamp) known timestamp start current full entries) as (_ & Hst & Hfs & (h & Hh & Hhs) & Hlen & Hent);
    [done| |exact Eq|].
  { intros b en E. unfold lite_entry in E. apply bind_Ok in E as (id & -> & E). destruct (timestamp <=? _); [|by injection E as <-].
    apply bind_Ok in E as ([txs missed] & _ & E). by apply bind_Ok in E as (infos & _ & [= <-]). }
  fold hashes in Hhs, Hent. destruct (common_start p.2 known start h local Hps Hl Hpc Es Hh Hhs ltac:(lia)) as [Hlt Htake].
  pose proof (hashes_length g bc HC) as Hhl. fold hashes in Hhl.
  assert (Hzent : zlen (map bs_blockId entries) = zlen entries) by (unfold zlen; by rewrite length_map).
  assert (Hend : start + zlen entries <= zlen hashes).
  { apply (f_equal length) in Hent. rewrite length_map, length_take, length_drop in Hent. unfold zlen in *. lia. }
  destruct (updateConsumers_spec {| startHeight := start; blocks := map bs_blockId entries |} bs) with (smth := false) (consumers := consumers) (r := r) (consumers' := consumers') as [HCo' HF];
    [done|exact Hgood|cbn; lia|cbn; unfold UINT32_MAX; lia|done| |exact Eu|].
  { rewrite Forall_forall in Hmin |- *. intros q Hq. cbn. specialize (Hmin q Hq). destruct (HK q Hq) as [Hqs _]. unfold known_size in Hqs.
    change (2 ^ 31) with 2147483648 in Hqs. change (2 ^ 32) with 4294967296. lia. }
  split_and!; [done| |].
  - intros Hr. specialize (HF Hr). cbn [startHeight blocks] in HF. rewrite Hzent in HF. fold e in HF.
    assert (HT : Forall (fun q => overlay (m_blockchain q.2) {| startHeight := start; blocks := map bs_blockId entries |} = take e hashes) consumers).
    { rewrite Forall_forall in Hmin |- *. intros q Hq. unfold e. rewrite <- Hzent. apply take_overlay; [lia| |by rewrite length_map].
      rewrite <- Htake. apply comparable_take; [by apply Hcmp|specialize (Hmin q Hq); unfold zlen in *; lia|unfold zlen in *; lia]. }
    clear -HF HT. induction HF as [|q q' l l' [H1 H2] HF IH]; [constructor|]. apply Forall_cons in HT as [Hq HT]. constructor; [|by apply IH].
    rewrite Hq in H1, H2. done.
  - intros HPre. exists p. split_and!; [done|done|]. rewrite Forall_forall in HPre. destruct (HPre p Hp) as [Hpp Hpl].
    pose proof (tip_start p.2 local known start Hps Hpl Hl Hpp Es Hfs). lia.
Qed.
End Round.

(** * A wallet on a fork of the node's chain *)

(** A consumer that counts its blocks. *)
#[local] Instance counting_consumer : IBlockchainConsumer Z := {|
  getSyncStart _ := {| ss_timestamp := 0; ss_height := 0 |};
  getKnownPoolTxIds _ := ∅;
  onBlockchainDetach _ h := Ok h;
  onNewBlocks _ bs n := Ok (true, n + zlen bs);
  onPoolUpdated c _ _ := Ok (0, c);
  addUnconfirmedTransaction _ _ c _ := Ok (0, c);
  removeUnconfirmedTransaction c _ := Ok c;
|}.
#[local] Program Instance counting_laws : ConsumerLaws Z := {|
  in_step c n := c = n; good_block _ _ := True
|}.
Next Obligation. intros c n h c' _ _ [= <-]. done. Qed.
Next Obligation. intros c n bs ok c' _ _ _ _ _ [= <- <-]. done. Qed.

Definition node_chain : Blockchain := n_chain second_node.
Definition forked_wallet : SynchronizationState := {| m_blockchain := [hash_of genesis; hash_of rival] |}.
Definition parent_of (h : list Z) : option (list Z) := if decide (h = hash_of genesis) then None else Some (hash_of genesis).
Definition answer : list BlockShortInfo :=
  match queryBlocksLite (B := debug_build) (K := toy_crypto) default_currency node_chain [hash_of rival; hash_of genesis] 0 with
  | Ok (Some (_, _, _, l)) => l | _ => [] end.

Lemma chained_two h : h <> hash_of genesis -> chained parent_of [hash_of genesis; h].
Proof.
  intros Hn i x Hx. unfold parent_of. destruct i as [|[|i] ]; cbn in Hx; [| |done]; injection Hx as <-.
  - by rewrite decide_True.
  - by rewrite decide_False.
Qed.

Lemma node_chain_ok : chain_ok (B := debug_build) (K := toy_crypto) genesis node_chain.
Proof.
  exact (reachable_chain_ok (B := debug_build) (K := toy_crypto) default_currency genesis genesis_node second_node genesis_node_ok
    (rtc_once _ _ second_step)).
Qed.
Lemma node_hashes : m_container (m_blockIndex node_chain) = [hash_of genesis; hash_of second].
Proof. vm_compute. reflexivity. Qed.

Lemma sync_round_witness :
  exists consumers', updateConsumers (B := debug_build) {| startHeight := 0; blocks := map bs_blockId answer |}
    (map (fun id => {| cb_blockHash := id; cb_block := None; cb_transactions := [] |}) (map bs_blockId answer)) false [(2, forked_wallet)] = Ok (addedNewBlocks, consumers') /\
  Forall2 (fun p p' => take 2 (m_blockchain p'.2) = [hash_of genesis; hash_of second] /\
    (p'.2 = p.2 \/ m_blockchain p'.2 = [hash_of genesis; hash_of second])) [(2, forked_wallet)] consumers'.
Proof.
  destruct (updateConsumers (B := debug_build) {| startHeight := 0; blocks := map bs_blockId answer |}
    (map (fun id => {| cb_blockHash := id; cb_block := None; cb_transactions := [] |}) (map bs_blockId answer)) false [(2, forked_wallet)])
    as [[[] consumers']| | |] eqn:E; try (vm_compute in E; discriminate E).
  exists consumers'. split; [done|].
  pose proof (sync_round (B := debug_build) (K := toy_crypto) (T := Z) default_currency parent_of genesis node_chain node_chain_ok) as H.
  assert (Hsize : zlen (m_blocks node_chain) < 4294967168) by (vm_compute; reflexivity).
  assert (Hsecond : hash_of second <> hash_of genesis) by (vm_compute; discriminate).
  rewrite node_hashes in H. specialize (H Hsize (chained_two _ Hsecond)).
  destruct (H [(2, forked_wallet)] consumers' 1 0 0 2 0 [hash_of rival; hash_of genesis] {| ss_timestamp := 0; ss_height := 0 |} answer
    (map (fun id => {| cb_blockHash := id; cb_block := None; cb_transactions := [] |}) (map bs_blockId answer)) addedNewBlocks) as (_ & HF & _).
  - done.
  - repeat constructor.
  - constructor; [|constructor]. split; [vm_compute; split; discriminate|]. apply chained_two. vm_compute. discriminate.
  - intros p q ->%list_elem_of_singleton ->%list_elem_of_singleton. by left.
  - vm_compute. split; [discriminate|reflexivity].
  - vm_compute. reflexivity.
  - vm_compute. reflexivity.
  - vm_compute. reflexivity.
  - done.
  - exact E.
  - replace (zlen answer) with 2 in HF by (vm_compute; reflexivity). by apply HF.
Defined.

(** Wallets that are not on comparable chains: the second one, longer and on
    another fork, is only compared from the tip of the first one on and keeps a
    block that the node does not have. *)
Example incomparable_wallets :
  let short := {| m_blockchain := [[0]; [1]; [2] ] |} in
  let long := {| m_blockchain := [[0]; [11]; [12]; [13] ] |} in
  let node := [[2]; [3]; [4] ] in
  getCommonHistory [(3, short); (4, long)] 10 = (Some (Ok [[2]; [1]; [0] ]), {| ss_timestamp := 0; ss_height := 0 |}) /\
  updateConsumers (B := debug_build) {| startHeight := 2; blocks := node |}
    (map (fun id => {| cb_blockHash := id; cb_block := None; cb_transactions := [] |}) node) false [(3, short); (4, long)] =
  Ok (addedNewBlocks, [(5, {| m_blockchain := [[0]; [1]; [2]; [3]; [4] ] |}); (5, {| m_blockchain := [[0]; [11]; [2]; [3]; [4] ] |})]).
Proof. split; vm_compute; reflexivity. Qed.
