(* ===== verification/TransfersConsumer.v ===== *)
(** Finding the outputs of the wallet's accounts in blocks and in the pool:
    [Transfers/TransfersConsumer.cpp] and [TransfersSubscription.cpp].

    A consumer has the accounts (subscriptions) of one view key.  The global sets
    of transactions and output keys already seen are part of its state.  The
    worker threads that look for outputs in new blocks are an order of the
    transactions, an argument.  The global indices a node returns and the curve
    operation [underive_public_key] are parameters.  Observers are not modelled;
    members of a transfer that the source leaves unset are empty. *)
From S2P Require Import Prelude CryptoNote TransactionExtra Currency TransactionApi TransfersContainer.
From S2P Require Import SynchronizationState BlockchainSynchronizer.

Notation NULL_PUBLIC_KEY := NULL_HASH.

Record TransfersSubscription := {
  sub_keys : AccountKeys;
  sub_syncStart : SynchronizationStart;
  sub_age : Z;
  transfers_of : TransfersContainer;
}.
Definition with_container (s : TransfersSubscription) (c : TransfersContainer) : TransfersSubscription :=
  {| sub_keys := sub_keys s; sub_syncStart := sub_syncStart s; sub_age := sub_age s; transfers_of := c |}.

(** The global sets. *)
Record Seen := { transactions_hash_seen : gset (list Z); public_keys_seen : gset (list Z) }.

Record TransfersConsumer := {
  m_syncStart : SynchronizationStart;
  m_viewSecret : list Z;
  m_subscriptions : gmap (list Z) TransfersSubscription;
  m_spendKeys : gset (list Z);
  m_poolTxs : gset (list Z);
  m_seen : Seen;
}.
Definition with_subscriptions (c : TransfersConsumer) (m : gmap (list Z) TransfersSubscription) : TransfersConsumer :=
  {| m_syncStart := m_syncStart c; m_viewSecret := m_viewSecret c; m_subscriptions := m; m_spendKeys := m_spendKeys c;
     m_poolTxs := m_poolTxs c; m_seen := m_seen c |}.
Definition with_seen (c : TransfersConsumer) (s : Seen) : TransfersConsumer :=
  {| m_syncStart := m_syncStart c; m_viewSecret := m_viewSecret c; m_subscriptions := m_subscriptions c; m_spendKeys := m_spendKeys c;
     m_poolTxs := m_poolTxs c; m_seen := s |}.
Definition with_poolTxs (c : TransfersConsumer) (p : gset (list Z)) : TransfersConsumer :=
  {| m_syncStart := m_syncStart c; m_viewSecret := m_viewSecret c; m_subscriptions := m_subscriptions c; m_spendKeys := m_spendKeys c;
     m_poolTxs := p; m_seen := m_seen c |}.

(** * Subscriptions *)

Definition updateSyncStart (c : TransfersConsumer) : TransfersConsumer :=
  let start := map_fold (fun _ s acc => {| ss_timestamp := Z.min (ss_timestamp acc) (ss_timestamp (sub_syncStart s));
                                            ss_height := Z.min (ss_height acc) (ss_height (sub_syncStart s)) |})
                 {| ss_timestamp := UINT64_MAX; ss_height := UINT64_MAX |} (m_subscriptions c) in
  {| m_syncStart := start; m_viewSecret := m_viewSecret c; m_subscriptions := m_subscriptions c; m_spendKeys := m_spendKeys c;
     m_poolTxs := m_poolTxs c; m_seen := m_seen c |}.

Definition addSubscription (c : TransfersConsumer) (keys : AccountKeys) (start : SynchronizationStart) (age : Z) : outcome TransfersConsumer :=
  if decide (viewSecretKey keys = m_viewSecret c) then
    let k := spendPublicKey (address keys) in
    match m_subscriptions c !! k with
    | Some _ => Ok c
    | None =>
        let s := {| sub_keys := keys; sub_syncStart := start; sub_age := age; transfers_of := empty_container |} in
        Ok (updateSyncStart {| m_syncStart := m_syncStart c; m_viewSecret := m_viewSecret c;
              m_subscriptions := <[k := s]> (m_subscriptions c); m_spendKeys := {[k]} ∪ m_spendKeys c;
              m_poolTxs := m_poolTxs c; m_seen := m_seen c |})
    end
  else Throw runtime_error.

(** The result is whether no subscription is left. *)
Definition removeSubscription (c : TransfersConsumer) (addr : AccountPublicAddress) : bool * TransfersConsumer :=
  let k := spendPublicKey addr in
  let c := updateSyncStart {| m_syncStart := m_syncStart c; m_viewSecret := m_viewSecret c;
             m_subscriptions := delete k (m_subscriptions c); m_spendKeys := m_spendKeys c ∖ {[k]};
             m_poolTxs := m_poolTxs c; m_seen := m_seen c |} in
  (bool_decide (m_subscriptions c = ∅), c).

Definition initTransactionPool (c : TransfersConsumer) (uncommitedTransactions : gset (list Z)) : TransfersConsumer :=
  with_poolTxs c (map_fold (fun _ s acc => acc ∪ list_to_set (List.filter (fun h => bool_decide (h ∉ uncommitedTransactions))
                                                  (getUnconfirmedTransactions (transfers_of s)))) (m_poolTxs c) (m_subscriptions c)).

Definition addPublicKeysSeen (c : TransfersConsumer) (transactionHash outputKey : list Z) : TransfersConsumer :=
  with_seen c {| transactions_hash_seen := {[transactionHash]} ∪ transactions_hash_seen (m_seen c);
                 public_keys_seen := {[outputKey]} ∪ public_keys_seen (m_seen c) |}.

(** Changing every subscription, in the order of the map. *)
Fixpoint for_subscriptions (f : list Z -> TransfersSubscription -> outcome TransfersSubscription) (l : list (list Z * TransfersSubscription))
    (m : gmap (list Z) TransfersSubscription) : outcome (gmap (list Z) TransfersSubscription) :=
  match l with
  | [] => Ok m
  | (k, s) :: l => s ← f k s; for_subscriptions f l (<[k := s]> m)
  end.
Definition forEachSubscription (c : TransfersConsumer) (f : list Z -> TransfersSubscription -> outcome TransfersSubscription) : outcome TransfersConsumer :=
  m ← for_subscriptions f (map_to_list (m_subscriptions c)) (m_subscriptions c); Ok (with_subscriptions c m).

Section Consumer.
Context {B : BuildConfig} {K : KeyCrypto}.
Variable underive_public_key : list Z -> Z -> list Z -> option (list Z).

(** * Outputs of the accounts *)

Section Outputs.
Context {T : Type} {R : ITransactionReader T}.

Definition checkOutputKey (derivation key : list Z) (keyIndex outputIndex : Z) (spendKeys : gset (list Z))
    (outputs : gmap (list Z) (list Z)) : outcome (gmap (list Z) (list Z)) :=
  spendKey ← out_param (underive_public_key derivation keyIndex key);
  Ok (if decide (spendKey ∈ spendKeys) then <[spendKey := default [] (outputs !! spendKey) ++ [u32 outputIndex]]> outputs else outputs).

Fixpoint check_keys (derivation : list Z) (keys : list (list Z)) (idx : Z) (spendKeys : gset (list Z))
    (outputs : gmap (list Z) (list Z)) : outcome (gmap (list Z) (list Z)) :=
  match keys with
  | [] => Ok outputs
  | key :: keys => outputs ← checkOutputKey derivation key idx idx spendKeys outputs; check_keys derivation keys idx spendKeys outputs
  end.

(** [n] outputs are left, the next one is number [idx]. *)
Fixpoint find_outputs (n : nat) (tx : T) (derivation : list Z) (spendKeys : gset (list Z)) (idx keyIndex : Z)
    (outputs : gmap (list Z) (list Z)) : outcome (gmap (list Z) (list Z)) :=
  match n with
  | O => Ok outputs
  | S n =>
      outType ← getOutputType tx idx;
      match outType with
      | OutputTypeKey =>
          '(out, _) ← getOutput_Key tx idx;
          outputs ← checkOutputKey derivation (ko_key out) keyIndex idx spendKeys outputs;
          find_outputs n tx derivation spendKeys (idx + 1) (keyIndex + 1) outputs
      | OutputTypeMultisignature =>
          '(out, _) ← getOutput_Multisignature tx idx;
          outputs ← check_keys derivation (mo_keys out) idx spendKeys outputs;
          find_outputs n tx derivation spendKeys (idx + 1) (keyIndex + zlen (mo_keys out)) outputs
      | OutputInvalid => find_outputs n tx derivation spendKeys (idx + 1) keyIndex outputs
      end
  end.
Definition findMyOutputs (tx : T) (viewSecretKey : list Z) (spendKeys : gset (list Z)) : outcome (gmap (list Z) (list Z)) :=
  match generate_key_derivation (getTransactionPublicKey tx) viewSecretKey with
  | None => Ok ∅
  | Some derivation => find_outputs (Z.to_nat (getOutputCount tx)) tx derivation spendKeys 0 0 ∅
  end.

(** How [createTransfers] ends: with an error code, early, or at its end with the
    new keys. *)
Inductive create_end := CreateError | CreateEarly | CreateDone (temp_keys : list (list Z)).

(** The keys of a multisignature output; [None] for the early return. *)
Fixpoint check_multisignature_keys (seen : Seen) (txHash : list Z) (keys temp_keys : list (list Z)) : option (list (list Z)) :=
  match keys with
  | [] => Some temp_keys
  | key :: keys =>
      if decide (txHash ∈ transactions_hash_seen seen) then check_multisignature_keys seen txHash keys temp_keys
      else if decide (key ∈ public_keys_seen seen) then None
      else if decide (key ∈ temp_keys) then None
      else check_multisignature_keys seen txHash keys (temp_keys ++ [key])
  end.

(** One output: the transfer, if it has one, and the keys. *)
Definition create_transfer (account : AccountKeys) (blockInfo : TransactionBlockInfo) (tx : T) (txHash : list Z) (globalIdxs : list Z)
    (seen : Seen) (idx : Z) (temp_keys : list (list Z)) : outcome (create_end + option TransactionOutputInformationIn * list (list Z)) :=
  if getOutputCount tx <=? idx then Ok (inl CreateError) else
  outType ← getOutputType tx idx;
  match outType with
  | OutputInvalid => Ok (inr (None, temp_keys))
  | _ =>
      globalIndex ← (if bk_height blockInfo =? UNCONFIRMED then Ok UNCONFIRMED_TRANSACTION_GLOBAL_OUTPUT_INDEX else vget globalIdxs idx);
      let info amount key signatures term image :=
        {| type := outType; amount := amount; globalOutputIndex := globalIndex; outputInTransaction := idx; oi_transactionHash := [];
           transactionPublicKey := getTransactionPublicKey tx; outputKey := key; requiredSignatures := signatures; term := term;
           oi_keyImage := image |} in
      match outType with
      | OutputTypeKey =>
          '(out, amount) ← getOutput_Key tx idx;
          r ← generate_key_image_helper account (getTransactionPublicKey tx) idx;
          '(in_ephemeral, keyImage) ← out_param r;
          _ ← massert (bool_decide (ko_key out = kp_publicKey in_ephemeral));
          h ← getTransactionHash tx;
          if decide (h ∈ transactions_hash_seen seen) then Ok (inr (Some (info amount (ko_key out) 0 0 keyImage), temp_keys))
          else if decide (ko_key out ∈ public_keys_seen seen) then Throw runtime_error
          else Ok (inr (Some (info amount (ko_key out) 0 0 keyImage), temp_keys ++ [ko_key out]))
      | _ =>
          '(out, amount) ← getOutput_Multisignature tx idx;
          match check_multisignature_keys seen txHash (mo_keys out) temp_keys with
          | None => Ok (inl CreateEarly)
          | Some temp_keys => Ok (inr (Some (info amount [] (requiredSignatureCount out) (mo_term out) []), temp_keys))
          end
      end
  end.

(** The transfers made until the end, however it ends. *)
Fixpoint create_loop (account : AccountKeys) (blockInfo : TransactionBlockInfo) (tx : T) (txHash : list Z) (globalIdxs : list Z) (seen : Seen)
    (outputs : list Z) (temp_keys : list (list Z)) : list TransactionOutputInformationIn * outcome create_end :=
  match outputs with
  | [] => ([], Ok (CreateDone temp_keys))
  | idx :: outputs =>
      match create_transfer account blockInfo tx txHash globalIdxs seen idx temp_keys with
      | Ok (inl e) => ([], Ok e)
      | Ok (inr (t, temp_keys)) =>
          let '(ts, e) := create_loop account blockInfo tx txHash globalIdxs seen outputs temp_keys in
          (match t with Some t => t :: ts | None => ts end, e)
      | Throw e => ([], Throw e)
      | AssertFailed => ([], AssertFailed)
      | Undefined => ([], Undefined)
      end
  end.

(** The error code, the transfers and the sets; an exception keeps the
    transfers. *)
Definition argument_out_of_domain : Z := 33.
Definition createTransfers (account : AccountKeys) (blockInfo : TransactionBlockInfo) (tx : T) (outputs globalIdxs : list Z) (seen : Seen)
  : outcome (list TransactionOutputInformationIn * outcome Z * Seen) :=
  txHash ← getTransactionHash tx;
  let '(ts, e) := create_loop account blockInfo tx txHash globalIdxs seen outputs [] in
  Ok (match e with
      | Ok CreateError => (ts, Ok argument_out_of_domain, seen)
      | Ok CreateEarly => (ts, Ok 0, seen)
      | Ok (CreateDone temp_keys) =>
          (ts, Ok 0, {| transactions_hash_seen := {[txHash]} ∪ transactions_hash_seen seen;
                        public_keys_seen := list_to_set temp_keys ∪ public_keys_seen seen |})
      | Throw e => (ts, Throw e, seen)
      | AssertFailed => (ts, AssertFailed, seen)
      | Undefined => (ts, Undefined, seen)
      end).
End Outputs.

(** * Processing a transaction *)

(** [getTransactionOutsGlobalIndices] of the node: an error code and the
    indices. *)
Variable node_indices : list Z -> Z * list Z.

Record PreprocessInfo := { pi_outputs : gmap (list Z) (list TransactionOutputInformationIn); pi_globalIdxs : list Z }.
Definition no_info : PreprocessInfo := {| pi_outputs := ∅; pi_globalIdxs := [] |}.

Section Processing.
Context {T : Type} {R : ITransactionReader T}.

(** The accounts that own outputs; an exception ends the loop without an
    error. *)
Fixpoint create_all (c : TransfersConsumer) (blockInfo : TransactionBlockInfo) (tx : T) (l : list (list Z * list Z)) (info : PreprocessInfo)
    (seen : Seen) : outcome (Z * PreprocessInfo * Seen) :=
  match l with
  | [] => Ok (0, info, seen)
  | (k, outputs) :: l =>
      match m_subscriptions c !! k with
      | None => create_all c blockInfo tx l info seen
      | Some s =>
          '(ts, r, seen) ← createTransfers (sub_keys s) blockInfo tx outputs (pi_globalIdxs info) seen;
          let info := {| pi_outputs := <[k := ts]> (pi_outputs info); pi_globalIdxs := pi_globalIdxs info |} in
          match r with
          | Ok ec => if ec =? 0 then create_all c blockInfo tx l info seen else Ok (ec, info, seen)
          | Throw _ => Ok (0, info, seen)
          | AssertFailed => AssertFailed
          | Undefined => Undefined
          end
      end
  end.

Definition preprocessOutputs (c : TransfersConsumer) (blockInfo : TransactionBlockInfo) (tx : T) (seen : Seen) : outcome (Z * PreprocessInfo * Seen) :=
  match findMyOutputs tx (m_viewSecret c) (m_spendKeys c) with
  | Throw _ => Ok (0, no_info, seen)
  | r =>
      outputs ← r;
      if decide (outputs = ∅) then Ok (0, no_info, seen) else
      txHash ← getTransactionHash tx;
      let '(ec, globalIdxs) := if bk_height blockInfo =? UNCONFIRMED then (0, []) else node_indices txHash in
      let info := {| pi_outputs := ∅; pi_globalIdxs := globalIdxs |} in
      if ec =? 0 then create_all c blockInfo tx (map_to_list outputs) info seen else Ok (ec, info, seen)
  end.

Definition sub_addTransaction (s : TransfersSubscription) (blockInfo : TransactionBlockInfo) (tx : T)
    (ts : list TransactionOutputInformationIn) (messages : list (list Z)) : outcome (bool * TransfersSubscription) :=
  '(added, _, c) ← addTransaction (sub_age s) (transfers_of s) blockInfo tx ts messages; Ok (added, with_container s c).

(** [processOutputs]; whether the container has the transaction and whether it was
    updated are for observers only. *)
Definition processOutputs (blockInfo : TransactionBlockInfo) (s : TransfersSubscription) (tx : T) (ts : list TransactionOutputInformationIn)
    (globalIdxs : list Z) : outcome TransfersSubscription :=
  h ← getTransactionHash tx;
  match getTransactionInformation (transfers_of s) h with
  | Some (t, _, _) =>
      if (tx_blockHeight t =? UNCONFIRMED) && negb (bk_height blockInfo =? UNCONFIRMED) then
        '(_, c) ← markTransactionConfirmed (sub_age s) (transfers_of s) blockInfo h globalIdxs; Ok (with_container s c)
      else _ ← massert (tx_blockHeight t =? bk_height blockInfo); Ok s
  | None =>
      messages ← get_messages_from_extra generate_key_derivation fast_hash chacha8 (getExtra tx) (getTransactionPublicKey tx) (Some (spendSecretKey (sub_keys s)));
      '(_, s) ← sub_addTransaction s blockInfo tx ts messages; Ok s
  end.

(** [processTransaction(blockInfo, tx, info)]. *)
Definition process_preprocessed (c : TransfersConsumer) (blockInfo : TransactionBlockInfo) (tx : T) (info : PreprocessInfo) : outcome TransfersConsumer :=
  forEachSubscription c (fun k s => processOutputs blockInfo s tx (default [] (pi_outputs info !! k)) (pi_globalIdxs info)).
(** [processTransaction(blockInfo, tx)]. *)
Definition processTransaction (c : TransfersConsumer) (blockInfo : TransactionBlockInfo) (tx : T) : outcome (Z * TransfersConsumer) :=
  '(ec, info, seen) ← preprocessOutputs c blockInfo tx (m_seen c);
  let c := with_seen c seen in
  if ec =? 0 then c ← process_preprocessed c blockInfo tx info; Ok (0, c) else Ok (ec, c).
End Processing.

(** * Blocks *)

Definition sub_detach (s : TransfersSubscription) (height : Z) : outcome TransfersSubscription :=
  '(_, _, c) ← detach (sub_age s) (transfers_of s) height; Ok (with_container s c).
Definition onError (s : TransfersSubscription) (height : Z) : outcome TransfersSubscription :=
  if height =? UNCONFIRMED then Ok s else sub_detach s height.
Definition advanceHeight (s : TransfersSubscription) (height : Z) : outcome TransfersSubscription :=
  '(_, c) ← doAdvanceHeight (transfers_of s) height; Ok (with_container s c).
Definition sub_deleteUnconfirmedTransaction (s : TransfersSubscription) (h : list Z) : outcome TransfersSubscription :=
  '(_, c) ← deleteUnconfirmedTransaction (sub_age s) (transfers_of s) h; Ok (with_container s c).

Definition consumer_detach (c : TransfersConsumer) (height : Z) : outcome TransfersConsumer :=
  forEachSubscription c (fun _ s => sub_detach s height).

(** What the pushing thread queues. *)
Notation Tx := (TransactionBlockInfo * TransactionPrefixImpl)%type.
Fixpoint queue_transactions (blockInfo : TransactionBlockInfo) (txs : list TransactionPrefixImpl) : list Tx :=
  match txs with
  | [] => []
  | tx :: txs =>
      let next := {| bk_height := bk_height blockInfo; bk_timestamp := bk_timestamp blockInfo;
                     bk_transactionIndex := u32 (bk_transactionIndex blockInfo + 1) |} in
      if decide (getTransactionPublicKey tx = NULL_PUBLIC_KEY) then queue_transactions next txs
      else (blockInfo, tx) :: queue_transactions next txs
  end.
Fixpoint queue_blocks (c : TransfersConsumer) (height : Z) (blocks : list CompleteBlock) : list Tx :=
  match blocks with
  | [] => []
  | b :: blocks =>
      match cb_block b with
      | None => []
      | Some block =>
          if negb (ss_timestamp (m_syncStart c) =? 0) && (timestamp (header block) <? ss_timestamp (m_syncStart c)) then []
          else queue_transactions {| bk_height := height; bk_timestamp := timestamp (header block); bk_transactionIndex := 0 |} (cb_transactions b)
      end ++ queue_blocks c (u32 (height + 1)) blocks
  end.

(** The worker threads, in the order in which they finish: [None] when one of
    them fails. *)
Fixpoint preprocess_all (c : TransfersConsumer) (items : list Tx) (seen : Seen) : outcome (option (list (Tx * PreprocessInfo)) * Seen) :=
  match items with
  | [] => Ok (Some [], seen)
  | (b, tx) :: items =>
      match preprocessOutputs c b tx seen with
      | Ok (ec, info, seen) =>
          if ec =? 0 then
            '(r, seen) ← preprocess_all c items seen;
            Ok (match r with Some l => Some (((b, tx), info) :: l) | None => None end, seen)
          else Ok (None, seen)
      | Throw _ => Ok (None, seen)
      | AssertFailed => AssertFailed
      | Undefined => Undefined
      end
  end.

Definition in_chain_order (a b : Tx * PreprocessInfo) : Prop :=
  let x := a.1.1 in let y := b.1.1 in
  bk_height x < bk_height y \/ bk_height x = bk_height y /\ bk_transactionIndex x <= bk_transactionIndex y.
#[global] Instance in_chain_order_dec : RelDecision in_chain_order.
Proof. intros a b. unfold in_chain_order. apply _. Defined.

Fixpoint process_all (c : TransfersConsumer) (items : list (Tx * PreprocessInfo)) : outcome TransfersConsumer :=
  match items with
  | [] => Ok c
  | (b, tx, info) :: items => c ← process_preprocessed c b tx info; process_all c items
  end.

(** The order in which the worker threads take the transactions. *)
Variable schedule : list Tx -> list Tx.

Definition consumer_new_blocks (c : TransfersConsumer) (blocks : list CompleteBlock) (startHeight : Z) : outcome (bool * TransfersConsumer) :=
  _ ← massert (0 <? zlen blocks);
  '(r, seen) ← preprocess_all c (schedule (queue_blocks c startHeight blocks)) (m_seen c);
  let c := with_seen c seen in
  match r with
  | None => c ← forEachSubscription c (fun _ s => onError s startHeight); Ok (false, c)
  | Some l =>
      c ← process_all c (merge_sort in_chain_order l);
      c ← forEachSubscription c (fun _ s => advanceHeight s (u32 (startHeight + zlen blocks - 1)));
      Ok (true, c)
  end.

(** * The pool *)

(** The source does not set the transaction index of [onPoolUpdated]. *)
Variable unset_index : Z.
Definition unconfirmedBlockInfo (index : Z) : TransactionBlockInfo := {| bk_height := UNCONFIRMED; bk_timestamp := 0; bk_transactionIndex := index |}.

Fixpoint add_pool_transactions (c : TransfersConsumer) (txs : list TransactionPrefixImpl) : outcome (Z * TransfersConsumer) :=
  match txs with
  | [] => Ok (0, c)
  | tx :: txs =>
      h ← getTransactionHash tx;
      '(ec, c) ← processTransaction (with_poolTxs c ({[h]} ∪ m_poolTxs c)) (unconfirmedBlockInfo unset_index) tx;
      if ec =? 0 then add_pool_transactions c txs
      else c ← forEachSubscription c (fun _ s => onError s UNCONFIRMED); Ok (ec, c)
  end.
Fixpoint delete_pool_transactions (c : TransfersConsumer) (hs : list (list Z)) : outcome TransfersConsumer :=
  match hs with
  | [] => Ok c
  | h :: hs =>
      c ← forEachSubscription (with_poolTxs c (m_poolTxs c ∖ {[h]})) (fun _ s => sub_deleteUnconfirmedTransaction s h);
      delete_pool_transactions c hs
  end.
Definition consumer_pool_updated (c : TransfersConsumer) (addedTransactions : list TransactionPrefixImpl) (deletedTransactions : list (list Z))
  : outcome (Z * TransfersConsumer) :=
  '(ec, c) ← add_pool_transactions c addedTransactions;
  if ec =? 0 then c ← delete_pool_transactions c deletedTransactions; Ok (0, c) else Ok (ec, c).

#[global] Instance transfers_consumer : IBlockchainConsumer TransfersConsumer := {|
  getSyncStart := m_syncStart;
  getKnownPoolTxIds := m_poolTxs;
  onBlockchainDetach := consumer_detach;
  onNewBlocks := consumer_new_blocks;
  onPoolUpdated := consumer_pool_updated;
  addUnconfirmedTransaction T R c tx := processTransaction c (unconfirmedBlockInfo 0) tx;
  removeUnconfirmedTransaction c h := forEachSubscription c (fun _ s => sub_deleteUnconfirmedTransaction s h);
|}.
End Consumer.
