(* ===== verification/ConsumerTheory.v ===== *)
(** What the transfers consumer promises the synchronizer: it stays in step with
    the blocks it is told of.  [consumer_at n c] says that the accounts know the
    blocks below height [n] and are consistent. *)
From S2P Require Import Prelude CryptoNote TransactionExtra Currency TransactionApi TransfersContainer TransfersInvariant TransfersTheory.
From S2P Require Import SynchronizationState BlockchainSynchronizer TransfersConsumer.

(** * Every subscription *)

(** The loop changes each subscription once. *)
Lemma for_subscriptions_spec f l m m' :
  NoDup (map fst l) -> (forall k s, (k, s) ∈ l -> m !! k = Some s) -> for_subscriptions f l m = Ok m' ->
  forall k, (k ∉ map fst l /\ m' !! k = m !! k) \/ (k ∈ map fst l /\ exists s s', m !! k = Some s /\ f k s = Ok s' /\ m' !! k = Some s').
Proof.
  revert m. induction l as [|[j s] l IH]; intros m HN Hm E k; cbn in E; [injection E as <-; left; split; [apply not_elem_of_nil|done]|].
  cbn in HN |- *. apply NoDup_cons in HN as [Hj HN]. apply bind_Ok in E as (s' & Es & E). rewrite not_elem_of_cons, elem_of_cons.
  destruct (IH (<[j := s']> m) HN) with (k := k) as [ [Hk E']|(Hk & x & x' & Hx & Ef & E')]; [|done| |].
  - intros k0 s0 Hin. rewrite lookup_insert_ne; [apply Hm; by right|]. intros <-. apply Hj. by apply (list_elem_of_fmap_2 fst _ (j, s0)).
  - destruct (decide (k = j)) as [->|Hn].
    + right. split; [by left|]. exists s, s'. rewrite lookup_insert_eq in E'. split_and!; [apply Hm; by left|done..].
    + left. by rewrite lookup_insert_ne in E' by done.
  - right. split; [by right|]. rewrite lookup_insert_ne in Hx by (intros ->; done). by exists x, x'.
Qed.

(** Every subscription of [c] as [f] changes it; nothing else changes. *)
Definition each_changed (f : list Z -> TransfersSubscription -> outcome TransfersSubscription) (c c' : TransfersConsumer) : Prop :=
  (forall k s', m_subscriptions c' !! k = Some s' -> exists s, m_subscriptions c !! k = Some s /\ f k s = Ok s') /\
  (forall k s, m_subscriptions c !! k = Some s -> is_Some (m_subscriptions c' !! k)) /\ c' = with_subscriptions c (m_subscriptions c').

Lemma forEachSubscription_spec f c c' : forEachSubscription c f = Ok c' -> each_changed f c c'.
Proof.
  intros E. apply bind_Ok in E as (m & E & [= <-]).
  assert (HS := for_subscriptions_spec f (map_to_list (m_subscriptions c)) (m_subscriptions c) m (NoDup_fst_map_to_list _)
    (fun k s => proj1 (elem_of_map_to_list _ k s)) E).
  assert (Hin : forall k s, m_subscriptions c !! k = Some s -> k ∈ map fst (map_to_list (m_subscriptions c))).
  { intros k s H%elem_of_map_to_list. by apply (list_elem_of_fmap_2 fst _ (k, s)). }
  split_and!; cbn; [| |done].
  - intros k s' Hs'. destruct (HS k) as [ [Hk E']|(_ & s & x & Hs & Ef & E')]; [|exists s; by rewrite E' in Hs'; injection Hs' as <-].
    rewrite E' in Hs'. by destruct (Hk (Hin k s' Hs')).
  - intros k s Hs. destruct (HS k) as [ [_ ->]|(_ & x & x' & _ & _ & ->)]; eauto.
Qed.

(** * Accounts and heights *)

(** A container that knows the blocks below height [n]. *)
Record sub_at (n : Z) (s : TransfersSubscription) : Prop := {
  at_inv : container_inv (sub_age s) (transfers_of s);
  at_below t : t ∈ m_transactions (transfers_of s) -> tx_blockHeight t = UNCONFIRMED \/ tx_blockHeight t < n;
  at_height : 0 <= m_currentHeight (transfers_of s) <= Z.max 0 (n - 1);
}.
Definition consumer_at (n : Z) (c : TransfersConsumer) : Prop := forall k s, m_subscriptions c !! k = Some s -> sub_at n s.

Lemma sub_at_mono n n' s : sub_at n s -> n <= n' -> sub_at n' s.
Proof. intros [H1 H2 H3] Hn. split; [done| |lia]. intros t Ht. destruct (H2 t Ht); [by left|right; lia]. Qed.

Lemma consumer_at_each (n n' : Z) f c c' : each_changed f c c' -> consumer_at n c ->
  (forall k s s', m_subscriptions c !! k = Some s -> sub_at n s -> f k s = Ok s' -> sub_at n' s') -> consumer_at n' c'.
Proof. intros (H1 & _) HC Hf k s' Hs'. destruct (H1 k s' Hs') as (s & Hs & E). eapply Hf; [done|by eapply HC|done]. Qed.

Section Heights.
Context {B : BuildConfig}.

Lemma sub_detach_at n h s s' : sub_at n s -> n < UNCONFIRMED -> 0 <= h < UNCONFIRMED -> sub_detach s h = Ok s' ->
  sub_at h s' /\ m_currentHeight (transfers_of s') = Z.max 0 (h - 1).
Proof.
  intros [HI _ HH] Hn Hh E. apply bind_Ok in E as ([ [d l] c] & E & [= <-]).
  destruct (detach_spec (sub_age s) (transfers_of s) h HI Hh ltac:(unfold UNCONFIRMED, UINT32_MAX in *; lia)) as (d' & l' & c' & E' & HI' & Ec & _ & _ & _ & HT & _).
  rewrite E in E'. injection E' as <- <- <-. split; [|done]. split; cbn; [done|exact HT|lia].
Qed.

(** The same transactions and, up to the flags that the invariant determines, the
    same transfers. *)
Definition same_records (s s' : TransfersSubscription) : Prop :=
  (forall t, t ∈ m_transactions (transfers_of s') <-> t ∈ m_transactions (transfers_of s)) /\ without [] (transfers_of s) (transfers_of s').

(** Detaching blocks that the account does not know changes nothing. *)
Lemma sub_detach_same n s s' : sub_at n s -> 0 <= n < UNCONFIRMED -> sub_detach s n = Ok s' -> same_records s s'.
Proof.
  intros [HI HB HH] Hn E. apply bind_Ok in E as ([ [d l] c] & E & [= <-]).
  destruct (detach_spec (sub_age s) (transfers_of s) n HI Hn ltac:(unfold UNCONFIRMED, UINT32_MAX in *; lia)) as (d' & l' & c' & E' & _ & _ & HD & HT & HW & _).
  rewrite E in E'. injection E' as <- <- <-.
  assert (HG : forall t, t ∈ m_transactions (transfers_of s) -> ~ goes n (transfers_of s) t).
  { intros t Ht. unfold goes. destruct (decide (tx_blockHeight t = UNCONFIRMED)) as [|Hu]; [|destruct (HB t Ht); [done|lia] ].
    intros (k & x & Hk & _ & Hle). destruct HI as [_ [HI _] ]. destruct (ci_confirmed _ _ _ _ HI k (spent_output x)) as (_ & H1 & _ & u & Hin & _ & Eu); [right; eauto|].
    destruct (HB u Hin); lia. }
  split; cbn.
  - intros t. rewrite HT. split; [by intros []|]. intros Ht. split; [done|by apply HG].
  - replace d with (@nil (list Z)) in HW; [done|]. destruct d as [|h d]; [done|]. destruct (HD h) as [H1 _].
    destruct H1 as (t & Ht & _ & Hg); [by left|]. by destruct (HG t Ht).
Qed.

Lemma advanceHeight_at n s s' : sub_at n s -> 1 <= n -> advanceHeight s (n - 1) = Ok s' ->
  sub_at n s' /\ m_currentHeight (transfers_of s') = n - 1.
Proof.
  intros [HI HB HH] Hn E. apply bind_Ok in E as ([l c] & E & [= <-]). unfold doAdvanceHeight in E. destruct (_ <? _); [done|].
  apply bind_Ok in E as (? & _ & [= _ <-]). split; [|done]. split; cbn; [|exact HB|lia]. split; [apply HI|by apply inv_with_height, HI].
Qed.

Lemma sub_delete_at n h s s' : sub_at n s -> sub_deleteUnconfirmedTransaction s h = Ok s' -> sub_at n s'.
Proof.
  intros [HI HB HH] E. apply bind_Ok in E as ([b c] & E & [= <-]).
  assert (HI' : container_inv (sub_age s) c) by (eapply step_inv; [exact HI|by eapply step_delete]).
  split; [done| |]; cbn; unfold deleteUnconfirmedTransaction in E;
    (destruct (find_transaction h _) as [t|] eqn:Ef; [|by injection E as _ <-]);
    (destruct (Z.eqb_spec (tx_blockHeight t) UNCONFIRMED) as [Hu|]; cbn [negb] in E; [|by injection E as _ <-]);
    destruct (deleteUnconfirmedTransaction_spec _ _ _ _ HI Ef Hu) as (c1 & E1 & HF & _); unfold deleteUnconfirmedTransaction in E1;
    rewrite Ef, Hu in E1; cbn [negb Z.eqb] in E1; rewrite Z.eqb_refl in E1; cbn [negb] in E1; rewrite E1 in E; injection E as _ <-; cbn.
  - intros u Hu'. apply HB. eapply sublist_elem; [apply erase_sublist|exact Hu'].
  - by rewrite (fr_height _ _ _ HF).
Qed.
End Heights.

Section Consumer.
Context {B : BuildConfig} {K : KeyCrypto}.
Variable underive_public_key : list Z -> Z -> list Z -> option (list Z).
Variable node_indices : list Z -> Z * list Z.
(** The node never answers with the index that stands for unconfirmed outputs. *)
Hypothesis Hnode : forall h, Forall (fun i => i <> UNCONFIRMED_TRANSACTION_GLOBAL_OUTPUT_INDEX) (snd (node_indices h)).

Section Transaction.
Context {T : Type} {R : ITransactionReader T}.

(** No transaction spends an output that it makes for an account. *)
Definition spends_others (b : TransactionBlockInfo) (tx : T) : Prop :=
  forall account outputs idxs seen ts r seen', createTransfers account b tx outputs idxs seen = Ok (ts, r, seen') -> no_self_spend tx (new_descriptors b ts).
Lemma pool_spends_others b tx : bk_height b = UNCONFIRMED -> spends_others b tx.
Proof. intros Hb ? ? ? ? ts ? ? _. unfold new_descriptors. rewrite Hb, Z.eqb_refl. split; intros; apply not_elem_of_nil. Qed.

(** The outputs found are those that [createTransfers] makes. *)
Definition info_of (b : TransactionBlockInfo) (tx : T) (i : PreprocessInfo) : Prop :=
  Forall (fun x => x <> UNCONFIRMED_TRANSACTION_GLOBAL_OUTPUT_INDEX) (pi_globalIdxs i) /\
  forall k ts, pi_outputs i !! k = Some ts -> exists account outputs seen r seen', createTransfers account b tx outputs (pi_globalIdxs i) seen = Ok (ts, r, seen').

Lemma create_all_info c b tx l i seen ec i' seen' :
  info_of b tx i -> create_all c b tx l i seen = Ok (ec, i', seen') -> info_of b tx i'.
Proof.
  revert i seen. induction l as [|[k outputs] l IH]; intros i seen HI E; cbn [create_all] in E; [by injection E as _ <- _|].
  destruct (m_subscriptions c !! k) as [s|]; [|by eapply IH]. apply bind_Ok in E as ([ [ts r] seen1] & E1 & E).
  assert (HI1 : info_of b tx {| pi_outputs := <[k := ts]> (pi_outputs i); pi_globalIdxs := pi_globalIdxs i |}).
  { split; [apply HI|]. cbn. intros k' ts' [ [<- <-]|[_ H] ]%lookup_insert_Some; [by eauto 10|by eapply (proj2 HI)]. }
  destruct r as [e| | |]; [|by injection E as _ <- _|done..]. destruct (e =? 0); [by eapply IH|by injection E as _ <- _].
Qed.

Lemma no_info_of b tx : info_of b tx no_info.
Proof. split; [constructor|]. cbn. intros k ts H. by rewrite lookup_empty in H. Qed.

Lemma preprocessOutputs_info c b tx seen ec i seen' :
  preprocessOutputs underive_public_key node_indices c b tx seen = Ok (ec, i, seen') -> info_of b tx i.
Proof.
  pose proof (no_info_of b tx) as H0. unfold preprocessOutputs. destruct (findMyOutputs _ _ _ _) as [m| | |]; cbn; try done; [|by intros [= _ <- _] ].
  destruct (decide (m = ∅)); [by intros [= _ <- _]|]. intros E. apply bind_Ok in E as (h & Eh & E).
  destruct (if bk_height b =? UNCONFIRMED then (0, []) else node_indices h) as [e idxs] eqn:Ei.
  assert (HI : info_of b tx {| pi_outputs := ∅; pi_globalIdxs := idxs |}).
  { split; [|cbn; intros k ts H; by rewrite lookup_empty in H]. cbn. destruct (bk_height b =? UNCONFIRMED); [by injection Ei as _ <-|]. specialize (Hnode h). by rewrite Ei in Hnode. }
  destruct (e =? 0); [by eapply create_all_info|by injection E as _ <- _].
Qed.

Lemma confirmed_in_order n s b : sub_at n s -> (bk_height b = UNCONFIRMED /\ n <= UNCONFIRMED) \/ n - 1 <= bk_height b -> in_order (transfers_of s) b.
Proof. intros [_ H _] Hn t Ht Hu. destruct (H t Ht); [done|lia]. Qed.

(** The height a container is at after a transaction of block [b]. *)
Definition height_after (n : Z) (b : TransactionBlockInfo) : Z := if bk_height b =? UNCONFIRMED then n else bk_height b + 1.

Lemma processOutputs_at n s b tx ts idxs s' :
  sub_at n s -> 0 <= n <= UNCONFIRMED -> bk_height b = UNCONFIRMED \/ n - 1 <= bk_height b /\ 0 <= bk_height b < UNCONFIRMED ->
  no_self_spend tx (new_descriptors b ts) -> Forall (fun x => x <> UNCONFIRMED_TRANSACTION_GLOBAL_OUTPUT_INDEX) idxs ->
  processOutputs b s tx ts idxs = Ok s' -> sub_at (height_after n b) s'.
Proof.
  intros HA Hn Hb Hns Hidx E. assert (Ho : in_order (transfers_of s) b) by (apply (confirmed_in_order n); [done|lia]).
  assert (Hge : n <= height_after n b) by (unfold height_after; destruct (Z.eqb_spec (bk_height b) UNCONFIRMED); lia).
  unfold processOutputs in E. apply bind_Ok in E as (h & Eh & E).
  destruct (getTransactionInformation (transfers_of s) h) as [ [ [t ?] ?]|].
  - case_in E; [|apply bind_Ok in E as (_ & _ & [= <-]); by eapply sub_at_mono]. apply bind_Ok in E as ([b' c] & E & [= <-]).
    destruct HA as [HI HB HH]. destruct (markTransactionConfirmed_inv _ _ _ _ _ _ _ HI Ho Hidx E) as (HI' & Ec & HT & _).
    assert (Hu : bk_height b <> UNCONFIRMED) by lia. unfold height_after in *. rewrite (proj2 (Z.eqb_neq _ _) Hu) in *.
    split; cbn; [done| |rewrite Ec; lia]. intros u Hin. destruct (HT u Hin) as [Hin'|Eu]; [|right; lia]. destruct (HB u Hin'); [by left|right; lia].
  - apply bind_Ok in E as (messages & _ & E). apply bind_Ok in E as ([added s1] & E & [= <-]).
    apply bind_Ok in E as ([ [a l] c] & E & [= <- <-]). destruct HA as [HI HB HH].
    pose proof (addTransaction_inv _ _ _ _ _ _ _ _ _ _ HI Ho Hns Eh E) as HI'.
    destruct (addTransaction_spec _ _ _ _ _ _ _ _ _ _ HI Ho Hns Eh E) as (_ & c2 & -> & HR).
    assert (HT : m_currentHeight c2 = m_currentHeight (transfers_of s) /\
      forall u, u ∈ m_transactions c2 -> tx_blockHeight u = UNCONFIRMED \/ tx_blockHeight u < height_after n b).
    { assert (HB' : forall u, u ∈ m_transactions (transfers_of s) -> tx_blockHeight u = UNCONFIRMED \/ tx_blockHeight u < height_after n b)
        by (intros u Hin; destruct (HB u Hin); [by left|right; lia]).
      destruct a; [|by subst]. destruct HR as (c1 & -> & HF & _). cbn. split; [by apply (fr_height _ _ _ HF)|].
      intros u [->|Hin]%insert_elem; [|by apply HB']. cbn. unfold height_after. destruct (Z.eqb_spec (bk_height b) UNCONFIRMED); [by left|right; lia]. }
    destruct HT as [Ec HT]. unfold height_after in *. destruct (Z.eqb_spec (bk_height b) UNCONFIRMED); split; cbn; try done; lia.
Qed.

(** ** What is recorded *)

(** Transactions an account lists stay listed, and a confirmed one at its height. *)
Definition keeps (s s' : TransfersSubscription) : Prop := forall h z, listed (m_transactions (transfers_of s)) h z ->
  exists z', listed (m_transactions (transfers_of s')) h z' /\ (z <> UNCONFIRMED -> z' = z).
Lemma keeps_refl s : keeps s s.
Proof. intros h z Hl. by exists z. Qed.
Lemma keeps_trans s1 s2 s3 : keeps s1 s2 -> keeps s2 s3 -> keeps s1 s3.
Proof. intros H1 H2 h z Hl. destruct (H1 h z Hl) as (z1 & Hl1 & E1). destruct (H2 h z1 Hl1) as (z2 & Hl2 & E2). exists z2. split; [done|]. intros Hz. rewrite E2; [by apply E1|by rewrite E1]. Qed.

(** The account lists the transaction as confirmed; where assertions are checked,
    in the block it was met in. *)
Definition records (h : list Z) (b : TransactionBlockInfo) (s : TransfersSubscription) : Prop :=
  exists z, listed (m_transactions (transfers_of s)) h z /\ z <> UNCONFIRMED /\ (NDEBUG = false -> z = bk_height b).
Lemma keeps_records h b s s' : keeps s s' -> records h b s -> records h b s'.
Proof. intros HK (z & Hl & Hz & Hb). destruct (HK h z Hl) as (z' & Hl' & E). specialize (E Hz). subst z'. by exists z. Qed.

Lemma addTransactionInputs_added (c : TransfersContainer) n block (tx : T) h i r c' :
  addTransactionInputs n c block tx h i true = Ok (r, c') -> r = true.
Proof.
  revert c i. induction n as [|n IH]; intros c i E; cbn [addTransactionInputs] in E; [by injection E as <-|].
  apply bind_Ok in E as ([a c1] & _ & E). by eapply IH.
Qed.

Lemma processOutputs_lists n s b tx ts idxs s' h :
  sub_at n s -> n - 1 <= bk_height b < UNCONFIRMED -> no_self_spend tx (new_descriptors b ts) ->
  Forall (fun x => x <> UNCONFIRMED_TRANSACTION_GLOBAL_OUTPUT_INDEX) idxs -> getTransactionHash tx = Ok h ->
  processOutputs b s tx ts idxs = Ok s' -> keeps s s' /\ (ts <> [] -> records h b s').
Proof.
  intros HA Hb Hns Hidx Hh E. assert (Ho : in_order (transfers_of s) b) by (apply (confirmed_in_order n); [done|lia]).
  unfold processOutputs in E. rewrite Hh in E. cbn [mbind outcome_bind] in E. destruct HA as [HI _ _].
  unfold getTransactionInformation in E. destruct (find_transaction h (m_transactions (transfers_of s))) as [t|] eqn:Ef; cbn [mbind option_bind] in E.
  - destruct (find_transaction_Some _ _ _ Ef) as [Ht <-].
    assert (Hself : listed (m_transactions (transfers_of s)) (tx_hash t) (tx_blockHeight t)) by by exists t.
    destruct (Z.eqb_spec (tx_blockHeight t) UNCONFIRMED) as [Hu|Hu]; [rewrite (proj2 (Z.eqb_neq (bk_height b) UNCONFIRMED)) in E by lia|]; cbn [andb negb] in E.
    + apply bind_Ok in E as ([r c] & E & [= <-]). destruct (markTransactionConfirmed_inv _ _ _ _ _ _ _ HI Ho Hidx E) as (_ & _ & _ & K1 & K2).
      rewrite Hu in Hself. specialize (K2 Hself). split; [|intros _; exists (bk_height b); split_and!; [done|lia|done] ].
      intros h' z Hl. destruct (decide (h' = tx_hash t)) as [->|Hn]; [|exists z; split; [apply K1; [done|by left]|done] ].
      exists (bk_height b). split; [done|]. intros Hz. destruct Hz. eapply listed_unique; [apply HI|exact Hl|exact Hself].
    + apply bind_Ok in E as (u & Ea & [= <-]). split; [apply keeps_refl|]. intros _. exists (tx_blockHeight t). split_and!; [done|done|].
      intros ND. unfold massert in Ea. rewrite ND in Ea. destruct (Z.eqb_spec (tx_blockHeight t) (bk_height b)); done.
  - apply bind_Ok in E as (messages & _ & E). apply bind_Ok in E as ([added s1] & E & [= <-]).
    apply bind_Ok in E as ([ [a l] c] & E & [= <- <-]).
    assert (Hadd : ts <> [] -> a = true).
    { intros Hts. unfold addTransaction in E. case_in E; [done|]. rewrite Hh in E. cbn [mbind outcome_bind] in E. rewrite Ef in E.
      apply bind_Ok in E as (ca & _ & E). destruct ts as [|o ts]; [done|]. apply bind_Ok in E as ([r cb] & Er%addTransactionInputs_added & E). subst r.
      apply bind_Ok in E as (cc & _ & E). destruct (bk_height b =? UNCONFIRMED); cbn [negb] in E; [by injection E|].
      apply bind_Ok in E as ([? ?] & _ & E). by injection E. }
    destruct (addTransaction_spec _ _ _ _ _ _ _ _ _ _ HI Ho Hns Hh E) as (_ & c2 & -> & HR).
    assert (Etx : forall x : TransfersContainer, m_transactions (if bk_height b =? UNCONFIRMED then x else with_height (bk_height b) x) = m_transactions x)
      by (intros x; by destruct (_ =? _)).
    unfold keeps, records. cbn [transfers_of with_container]. rewrite Etx. destruct a.
    + destruct HR as (c1 & -> & _ & _). cbn [m_transactions with_transactions]. split.
      * intros h' z (u & Hin & <- & <-). exists (tx_blockHeight u). split; [|done]. exists u. split; [apply insert_elem_2; by right|done].
      * intros _. exists (bk_height b). split_and!; [|lia|done]. exists (entry b tx h messages). split; [apply insert_elem_2; by left|done].
    + subst c2. split; [apply (keeps_refl s)|]. intros Hts. by specialize (Hadd Hts).
Qed.

(** One transaction, in every account. *)
Definition all_kept (c c' : TransfersConsumer) : Prop :=
  forall k s', m_subscriptions c' !! k = Some s' -> exists s, m_subscriptions c !! k = Some s /\ keeps s s'.
Lemma process_preprocessed_lists n c b tx i c' h :
  consumer_at n c -> n - 1 <= bk_height b < UNCONFIRMED -> spends_others b tx -> info_of b tx i -> getTransactionHash tx = Ok h ->
  process_preprocessed c b tx i = Ok c' ->
  all_kept c c' /\ forall k s' ts, m_subscriptions c' !! k = Some s' -> pi_outputs i !! k = Some ts -> ts <> [] -> records h b s'.
Proof.
  intros HC Hb Hs [Hi1 Hi2] Hh E. apply forEachSubscription_spec in E as (E & _).
  assert (HP : forall k s', m_subscriptions c' !! k = Some s' -> exists s, m_subscriptions c !! k = Some s /\ keeps s s' /\
    (default [] (pi_outputs i !! k) <> [] -> records h b s')).
  { intros k s' Hs'. destruct (E k s' Hs') as (s & Hks & Ep). exists s. split; [done|].
    eapply (processOutputs_lists n); [by eapply HC|done| |exact Hi1|done|exact Ep].
    destruct (pi_outputs i !! k) as [ts|] eqn:Ek; cbn.
    - destruct (Hi2 k ts Ek) as (? & ? & ? & ? & ? & Ec). by eapply Hs.
    - unfold new_descriptors. destruct (_ =? _); split; intros; apply not_elem_of_nil. }
  split.
  - intros k s' Hs'. destruct (HP k s' Hs') as (s & ? & ? & _). by exists s.
  - intros k s' ts Hs' Hk Hts. destruct (HP k s' Hs') as (s & _ & _ & HR). apply HR. by rewrite Hk.
Qed.

Lemma process_preprocessed_at n c b tx i c' :
  consumer_at n c -> 0 <= n <= UNCONFIRMED -> bk_height b = UNCONFIRMED \/ n - 1 <= bk_height b /\ 0 <= bk_height b < UNCONFIRMED ->
  spends_others b tx -> info_of b tx i -> process_preprocessed c b tx i = Ok c' -> consumer_at (height_after n b) c'.
Proof.
  intros HC Hn Hb Hs [Hi1 Hi2] E. apply forEachSubscription_spec in E. eapply consumer_at_each; [exact E|exact HC|].
  intros k s s' _ HA E'. eapply processOutputs_at; [exact HA|done|done| |exact Hi1|exact E'].
  destruct (pi_outputs i !! k) as [ts|] eqn:Ek; cbn.
  - destruct (Hi2 k ts Ek) as (? & ? & ? & ? & ? & Ec). by eapply Hs.
  - unfold new_descriptors. destruct (_ =? _); split; intros; apply not_elem_of_nil.
Qed.
End Transaction.

(** * The pool *)

Lemma processTransaction_at {T} `{ITransactionReader T} n c index (tx : T) ec c' :
  consumer_at n c -> 0 <= n <= UNCONFIRMED ->
  processTransaction underive_public_key node_indices c (unconfirmedBlockInfo index) tx = Ok (ec, c') -> consumer_at n c'.
Proof.
  intros HC Hn E. apply bind_Ok in E as ([ [e i] seen] & Ep & E). destruct (e =? 0); [|by injection E as _ <-].
  apply bind_Ok in E as (c1 & E & [= _ <-]). apply preprocessOutputs_info in Ep.
  apply (process_preprocessed_at n) in E; [exact E|exact HC|done|by left|by apply pool_spends_others|done].
Qed.

Lemma consumer_delete_at n c h c' : consumer_at n c ->
  forEachSubscription c (fun _ s => sub_deleteUnconfirmedTransaction s h) = Ok c' -> consumer_at n c'.
Proof. intros HC E%forEachSubscription_spec. eapply consumer_at_each; [exact E|exact HC|]. intros k s s' _. apply sub_delete_at. Qed.

Lemma pool_updated_at unset n c added deleted ec c' : consumer_at n c -> 0 <= n <= UNCONFIRMED ->
  consumer_pool_updated underive_public_key node_indices unset c added deleted = Ok (ec, c') -> consumer_at n c'.
Proof.
  intros HC Hn E. apply bind_Ok in E as ([e c1] & Ea & E).
  assert (HC1 : consumer_at n c1).
  { clear E. revert c HC Ea. induction added as [|tx added IH]; intros c HC E; cbn [add_pool_transactions] in E; [by injection E as _ <-|].
    apply bind_Ok in E as (h & _ & E). apply bind_Ok in E as ([e2 c2] & E2 & E).
    assert (H2 : consumer_at n c2) by by eapply processTransaction_at, E2. destruct (e2 =? 0); [by eapply IH|].
    apply bind_Ok in E as (c3 & E3%forEachSubscription_spec & [= _ <-]). eapply consumer_at_each; [exact E3|exact H2|].
    intros k s s' _ Hs E. unfold onError in E. rewrite Z.eqb_refl in E. by injection E as <-. }
  destruct (e =? 0); [|by injection E as _ <-]. apply bind_Ok in E as (c2 & Ed & [= _ <-]). clear Ea.
  revert c1 HC1 Ed. induction deleted as [|h deleted IH]; intros c1 HC1 E; cbn [delete_pool_transactions] in E; [by injection E as <-|].
  apply bind_Ok in E as (c3 & E3 & E). eapply (IH c3); [|exact E]. by eapply consumer_delete_at, E3.
Qed.

(** * Blocks *)

(** The transactions queued, with the heights of their blocks. *)
Lemma queue_transactions_elem b txs b' tx : (b', tx) ∈ queue_transactions b txs -> tx ∈ txs /\ bk_height b' = bk_height b.
Proof.
  revert b. induction txs as [|t txs IH]; intros b H; cbn in H; [by apply elem_of_nil in H|].
  destruct (decide _) as [|_]; [apply IH in H as [H1 H2]; split; [by right|done]|].
  apply elem_of_cons in H as [ [= -> ->]|H]; [split; [by left|done]|]. apply IH in H as [H1 H2]. split; [by right|done].
Qed.
Lemma queue_blocks_elem c height blocks b tx : 0 <= height -> height + zlen blocks <= UINT32_MAX -> (b, tx) ∈ queue_blocks c height blocks ->
  exists i blk, blocks !! i = Some blk /\ tx ∈ cb_transactions blk /\ bk_height b = height + Z.of_nat i.
Proof.
  revert height. induction blocks as [|blk blocks IH]; intros height H0 Hb H; cbn [queue_blocks] in H; [by apply elem_of_nil in H|].
  rewrite zlen_cons in Hb. pose proof (zlen_nonneg blocks). rewrite (u32_small (height + 1)) in H by (unfold is_u32, UINT32_MAX in *; lia).
  apply elem_of_app in H as [H|H].
  - destruct (cb_block blk) as [block|]; [|by apply elem_of_nil in H]. destruct (_ && _); [by apply elem_of_nil in H|].
    apply queue_transactions_elem in H as [Ha Hb2]. exists 0%nat, blk. cbn in *. split_and!; [done..|lia].
  - apply IH in H as (i & blk' & Ha & Hb2 & Hc); [|lia..]. exists (S i), blk'. split_and!; [done..|lia].
Qed.

Lemma preprocess_all_spec c items seen l seen' :
  preprocess_all underive_public_key node_indices c items seen = Ok (Some l, seen') ->
  map fst l = items /\ Forall (fun x => info_of x.1.1 x.1.2 x.2) l.
Proof.
  revert seen l. induction items as [|[b tx] items IH]; intros seen l E; cbn [preprocess_all] in E; [injection E as <- _; by split|].
  destruct (preprocessOutputs _ _ _ _ _ _) as [ [ [ec i] seen1]| | |] eqn:Ep; try done.
  destruct (ec =? 0); [|done]. apply bind_Ok in E as ([r seen2] & E1 & E). destruct r as [l'|]; [|done]. injection E as <- <-.
  destruct (IH _ _ E1) as [<- HF]. split; [done|]. constructor; [|done]. by eapply preprocessOutputs_info.
Qed.

#[global] Instance in_chain_order_total : Total in_chain_order.
Proof. intros a b. unfold in_chain_order. lia. Qed.
#[global] Instance in_chain_order_trans : Transitive in_chain_order.
Proof. intros a b d. unfold in_chain_order. lia. Qed.

Lemma process_all_at N items : forall n c c', consumer_at n c -> 0 <= n <= N -> N <= UNCONFIRMED -> StronglySorted in_chain_order items ->
  Forall (fun x => n - 1 <= bk_height x.1.1 < N /\ 0 <= bk_height x.1.1 /\ spends_others x.1.1 x.1.2 /\ info_of x.1.1 x.1.2 x.2) items ->
  process_all c items = Ok c' -> consumer_at N c'.
Proof.
  induction items as [|[ [b tx] i] items IH]; intros n c c' HC Hn HN HS HF E; cbn [process_all] in E.
  { injection E as <-. intros k s Hs. eapply sub_at_mono; [by eapply HC|lia]. }
  apply bind_Ok in E as (c1 & E1 & E). apply StronglySorted_inv in HS as [HS Hle]. apply Forall_cons in HF as [ (Hb & Hb0 & Hs & Hi) HF]. cbn in *.
  apply (process_preprocessed_at n) in E1; [|done|lia|right; lia|done|done].
  unfold height_after in E1. rewrite (proj2 (Z.eqb_neq _ _)) in E1 by lia.
  eapply (IH (bk_height b + 1) c1); [done|lia|done|done| |exact E]. rewrite Forall_forall in *. intros x Hx. specialize (HF x Hx). specialize (Hle x Hx).
  unfold in_chain_order in Hle. cbn in Hle. destruct HF as (? & ? & ? & ?). split_and!; [lia|lia|lia|done..].
Qed.

Lemma all_kept_refl c : all_kept c c.
Proof. intros k s Hs. exists s. split; [done|apply keeps_refl]. Qed.
Lemma all_kept_trans c1 c2 c3 : all_kept c1 c2 -> all_kept c2 c3 -> all_kept c1 c3.
Proof. intros H1 H2 k s3 H3. destruct (H2 k s3 H3) as (s2 & Hs2 & K2). destruct (H1 k s2 Hs2) as (s1 & Hs1 & K1). exists s1. split; [done|by eapply keeps_trans]. Qed.

(** Everything found in the blocks is recorded, in the accounts it was found for. *)
Definition all_recorded (items : list (TransactionBlockInfo * TransactionPrefixImpl * PreprocessInfo)) (c : TransfersConsumer) : Prop :=
  forall b tx i k s ts h, (b, tx, i) ∈ items -> m_subscriptions c !! k = Some s -> pi_outputs i !! k = Some ts -> ts <> [] ->
    getTransactionHash tx = Ok h -> records h b s.

Lemma process_all_lists N items : forall n c c', consumer_at n c -> 0 <= n <= N -> N <= UNCONFIRMED -> StronglySorted in_chain_order items ->
  Forall (fun x => n - 1 <= bk_height x.1.1 < N /\ 0 <= bk_height x.1.1 /\ spends_others x.1.1 x.1.2 /\ info_of x.1.1 x.1.2 x.2) items ->
  process_all c items = Ok c' -> all_kept c c' /\ all_recorded items c'.
Proof.
  induction items as [|[ [b tx] i] items IH]; intros n c c' HC Hn HN HS HF E; cbn [process_all] in E.
  { injection E as <-. split; [apply all_kept_refl|]. intros ? ? ? ? ? ? ? H. by apply elem_of_nil in H. }
  apply bind_Ok in E as (c1 & E1 & E). apply StronglySorted_inv in HS as [HS Hle]. apply Forall_cons in HF as [ (Hb & Hb0 & Hs & Hi) HF]. cbn in *.
  pose proof E1 as E1'. apply (process_preprocessed_at n) in E1'; [|done|lia|right; lia|done|done].
  unfold height_after in E1'. rewrite (proj2 (Z.eqb_neq _ _)) in E1' by lia.
  destruct (process_preprocessed_lists n c b tx i c1 (m_txHash tx) HC ltac:(lia) Hs Hi eq_refl E1) as [K1 R1].
  destruct (IH (bk_height b + 1) c1 c' E1' ltac:(lia) HN HS) as [K2 R2]; [|exact E|].
  { rewrite Forall_forall in *. intros x Hx. specialize (HF x Hx). specialize (Hle x Hx).
    unfold in_chain_order in Hle. cbn in Hle. destruct HF as (? & ? & ? & ?). split_and!; [lia|lia|lia|done..]. }
  split; [by eapply all_kept_trans|]. intros b' tx' i' k s ts h [ [= -> -> ->]|Hin]%elem_of_cons Hk Hts Hne Hh; [|by eapply R2].
  injection Hh as <-. destruct (K2 k s Hk) as (s1 & Hk1 & HK). eapply keeps_records; [exact HK|]. by eapply R1.
Qed.

Variable schedule : list (TransactionBlockInfo * TransactionPrefixImpl) -> list (TransactionBlockInfo * TransactionPrefixImpl).
Hypothesis Hschedule : forall l, schedule l ≡ₚ l.

(** New blocks are processed: each transaction that was queued was looked through,
    in the order of the schedule, and what was found in it is recorded in the
    accounts; nothing they had listed is lost. *)
Definition processed (c : TransfersConsumer) (n : Z) (bs : list CompleteBlock) (c' : TransfersConsumer) : Prop :=
  exists found, preprocess_all underive_public_key node_indices c (schedule (queue_blocks c n bs)) (m_seen c) = Ok (Some found, m_seen c') /\
    map fst found ≡ₚ queue_blocks c n bs /\ all_kept c c' /\ all_recorded found c'.
(** They are rejected: every account has what it had. *)
Definition rejected (c c' : TransfersConsumer) : Prop :=
  forall k s', m_subscriptions c' !! k = Some s' -> exists s, m_subscriptions c !! k = Some s /\ same_records s s'.

Lemma process_all_seen c items c' : process_all c items = Ok c' -> m_seen c' = m_seen c.
Proof.
  revert c. induction items as [|[ [b tx] i] items IH]; intros c E; cbn [process_all] in E; [by injection E as <-|].
  apply bind_Ok in E as (c1 & (_ & _ & E1)%forEachSubscription_spec & E). rewrite (IH _ E), E1. done.
Qed.

Lemma new_blocks_at c n bs ok c' :
  consumer_at n c -> 0 <= n -> n + zlen bs < UINT32_MAX -> bs <> [] ->
  (forall i blk b tx, bs !! i = Some blk -> tx ∈ cb_transactions blk -> bk_height b = n + Z.of_nat i -> spends_others b tx) ->
  consumer_new_blocks underive_public_key node_indices schedule c bs n = Ok (ok, c') ->
  consumer_at (if ok then n + zlen bs else n) c' /\
  (forall k s, m_subscriptions c' !! k = Some s -> m_currentHeight (transfers_of s) = Z.max 0 ((if ok then n + zlen bs else n) - 1)) /\
  if ok then processed c n bs c' else rejected c c'.
Proof.
  intros HC Hn Hu Hne Hgood E. assert (Hz : 0 < zlen bs) by (destruct bs; [done|rewrite zlen_cons; pose proof (zlen_nonneg bs); lia]).
  apply bind_Ok in E as (_ & _ & E). apply bind_Ok in E as ([r seen] & Ep & E).
  unfold UINT32_MAX, UNCONFIRMED in *. destruct r as [l|].
  - apply bind_Ok in E as (c1 & E1 & E). apply bind_Ok in E as (c2 & E2%forEachSubscription_spec & [= <- <-]).
    destruct (preprocess_all_spec _ _ _ _ _ Ep) as [Efst HI].
    assert (Hitems : Forall (fun x => n - 1 <= bk_height x.1.1 < n + zlen bs /\ 0 <= bk_height x.1.1 /\ spends_others x.1.1 x.1.2 /\ info_of x.1.1 x.1.2 x.2)
      (merge_sort in_chain_order l)).
    { rewrite merge_sort_Permutation. rewrite Forall_forall in HI |- *. intros [ [b tx] i] Hx.
      assert (Hq : (b, tx) ∈ queue_blocks c n bs). { rewrite <- Hschedule, <- Efst. apply list_elem_of_fmap. by exists (b, tx, i). }
      apply queue_blocks_elem in Hq as (j & blk & Hj & Ht & Hh); [|lia|unfold UINT32_MAX; lia]. apply lookup_lt_Some in Hj as Hlt. cbn.
      split_and!; [unfold zlen in *; lia|unfold zlen in *; lia|lia|by eapply Hgood|by apply (HI (b, tx, i))]. }
    assert (HS : StronglySorted in_chain_order (merge_sort in_chain_order l)) by (apply StronglySorted_merge_sort; apply _).
    assert (HU : n + zlen bs <= UNCONFIRMED) by (unfold UNCONFIRMED, UINT32_MAX; lia).
    pose proof (process_all_at (n + zlen bs) _ n (with_seen c seen) c1 HC ltac:(lia) HU HS Hitems E1) as HC1.
    destruct (process_all_lists (n + zlen bs) _ n (with_seen c seen) c1 HC ltac:(lia) HU HS Hitems E1) as [K1 R1].
    rewrite u32_small in E2 by (unfold is_u32; lia).
    assert (HA : forall k s, m_subscriptions c2 !! k = Some s -> sub_at (n + zlen bs) s /\ m_currentHeight (transfers_of s) = n + zlen bs - 1).
    { intros k s' Hs'. destruct E2 as (E2 & _). destruct (E2 k s' Hs') as (s & Hs & E). apply advanceHeight_at in E; [done|by eapply HC1|lia]. }
    split_and!; [intros k s Hs; by eapply HA|intros k s Hs; destruct (HA k s Hs); lia|].
    assert (K2 : forall k s', m_subscriptions c2 !! k = Some s' -> exists s, m_subscriptions c1 !! k = Some s /\ m_transactions (transfers_of s') = m_transactions (transfers_of s)).
    { intros k s' Hs'. destruct E2 as (E2 & _). destruct (E2 k s' Hs') as (s & Hs & E). exists s. split; [done|].
      apply bind_Ok in E as ([x y] & E & [= <-]). unfold doAdvanceHeight in E. destruct (_ <? _); [done|]. by apply bind_Ok in E as (? & _ & [= _ <-]). }
    exists l. split_and!.
    + destruct E2 as (_ & _ & ->). cbn. by rewrite (process_all_seen _ _ _ E1).
    + by rewrite Efst.
    + eapply (all_kept_trans (with_seen c seen)); [exact K1|]. intros k s' Hs'. destruct (K2 k s' Hs') as (s & Hs & Et). exists s. split; [done|].
      intros h z. rewrite Et. by exists z.
    + intros b tx i k s' ts h Hin Hs' Hts Hne0 Hh. destruct (K2 k s' Hs') as (s & Hs & Et). unfold records. rewrite Et.
      eapply (R1 b tx i k s ts h); [by rewrite merge_sort_Permutation|done..].
  - apply bind_Ok in E as (c2 & E2%forEachSubscription_spec & [= <- <-]).
    assert (HA : forall k s, m_subscriptions c2 !! k = Some s -> sub_at n s /\ m_currentHeight (transfers_of s) = Z.max 0 (n - 1)).
    { intros k s' Hs'. destruct E2 as (E2 & _). destruct (E2 k s' Hs') as (s & Hs & E). unfold onError in E.
      rewrite (proj2 (Z.eqb_neq _ _)) in E by (unfold UNCONFIRMED, UINT32_MAX; lia).
      apply (sub_detach_at n) in E; [done|by eapply HC|unfold UNCONFIRMED, UINT32_MAX; lia..]. }
    split_and!; [intros k s Hs; by eapply HA..|]. intros k s' Hs'. destruct E2 as (E2 & _). destruct (E2 k s' Hs') as (s & Hs & E). exists s. split; [done|].
    unfold onError in E. rewrite (proj2 (Z.eqb_neq _ _)) in E by (unfold UNCONFIRMED, UINT32_MAX; lia).
    eapply (sub_detach_same n); [by eapply HC|unfold UNCONFIRMED, UINT32_MAX; lia|exact E].
Qed.

(** * Worker threads *)

(** The keys of the outputs of a transaction. *)
Definition has_key {T} `{ITransactionReader T} (tx : T) (k : list Z) : Prop :=
  (exists i out amount, getOutput_Key tx i = Ok (out, amount) /\ ko_key out = k) \/
  (exists i out amount, getOutput_Multisignature tx i = Ok (out, amount) /\ k ∈ mo_keys out).

(** What two sets say of a transaction is the same. *)
Definition agree {T} `{ITransactionReader T} (tx : T) (s s' : Seen) : Prop :=
  (forall h, getTransactionHash tx = Ok h -> h ∈ transactions_hash_seen s <-> h ∈ transactions_hash_seen s') /\
  (forall k, has_key tx k -> k ∈ public_keys_seen s <-> k ∈ public_keys_seen s').
Definition of_tx {T} `{ITransactionReader T} (tx : T) (d : Seen) : Prop :=
  (forall h, h ∈ transactions_hash_seen d -> getTransactionHash tx = Ok h) /\ (forall k, k ∈ public_keys_seen d -> has_key tx k).
Definition more_seen (d s : Seen) : Seen :=
  {| transactions_hash_seen := transactions_hash_seen d ∪ transactions_hash_seen s; public_keys_seen := public_keys_seen d ∪ public_keys_seen s |}.
Definition no_seen : Seen := {| transactions_hash_seen := ∅; public_keys_seen := ∅ |}.

Lemma more_none s : more_seen no_seen s = s.
Proof. destruct s. unfold more_seen. cbn. by rewrite !union_empty_l_L. Qed.
Lemma more_more d d' s : more_seen d (more_seen d' s) = more_seen (more_seen d d') s.
Proof. unfold more_seen. cbn. by rewrite !union_assoc_L. Qed.
Lemma more_comm d d' s : more_seen d (more_seen d' s) = more_seen d' (more_seen d s).
Proof. clear Hnode Hschedule. unfold more_seen. cbn. f_equal; set_solver. Qed.

Section Agree.
Context {T : Type} {R : ITransactionReader T}.
Implicit Types (tx : T).

Lemma agree_more tx d s s' : agree tx s s' -> agree tx (more_seen d s) (more_seen d s').
Proof. clear Hnode Hschedule. intros [H1 H2]. split; cbn; intros x Hx; [specialize (H1 x Hx)|specialize (H2 x Hx)]; set_solver. Qed.
Lemma of_tx_none tx : of_tx tx no_seen.
Proof. clear Hnode Hschedule. split; cbn; set_solver. Qed.
Lemma of_tx_more tx d d' : of_tx tx d -> of_tx tx d' -> of_tx tx (more_seen d d').
Proof. clear Hnode Hschedule. intros [H1 H2] [H3 H4]. split; cbn; set_solver. Qed.

Lemma check_keys_agree tx h s s' keys tk : getTransactionHash tx = Ok h -> agree tx s s' -> (forall k, k ∈ keys -> has_key tx k) ->
  check_multisignature_keys s h keys tk = check_multisignature_keys s' h keys tk.
Proof.
  intros Hh [H1 H2]. revert tk. induction keys as [|k keys IH]; intros tk Hk; cbn; [done|].
  assert (Hk0 : has_key tx k) by (apply Hk; by left). rewrite !IH by (intros; apply Hk; by right). rewrite (decide_ext _ _ _ _ (H1 h Hh)). destruct (decide (h ∈ _)); [done|].
  rewrite (decide_ext _ _ _ _ (H2 k Hk0)). done.
Qed.
Lemma check_keys_new s h keys tk tk' : check_multisignature_keys s h keys tk = Some tk' -> forall k, k ∈ tk' -> k ∈ tk \/ k ∈ keys.
Proof.
  revert tk. induction keys as [|k keys IH]; intros tk E x Hx; cbn in E; [injection E as <-; by left|].
  repeat (destruct (decide _); try done); destruct (IH _ E x Hx) as [H|H]; try (by left); try (right; by right).
  apply elem_of_app in H as [H|H%list_elem_of_singleton]; [by left|right; rewrite H; by left].
Qed.

Lemma create_transfer_agree account b tx h idxs s s' idx tk : getTransactionHash tx = Ok h -> agree tx s s' ->
  create_transfer account b tx h idxs s idx tk = create_transfer account b tx h idxs s' idx tk.
Proof.
  intros Hh HA. unfold create_transfer. destruct (_ <=? _); [done|]. destruct (getOutputType tx idx) as [ty| | |]; cbn [mbind outcome_bind]; try done.
  destruct ty; try done; destruct (if _ =? _ then _ else _) as [gi| | |]; cbn [mbind outcome_bind]; try done.
  - destruct (getOutput_Key tx idx) as [ [out a]| | |] eqn:Eo; cbn [mbind outcome_bind]; try done.
    destruct (generate_key_image_helper _ _ _) as [r| | |]; cbn [mbind outcome_bind]; try done.
    destruct (out_param r) as [ [e ki]| | |]; cbn [mbind outcome_bind]; try done.
    destruct (massert _) as [ []| | |]; cbn [mbind outcome_bind]; try done. rewrite Hh. cbn [mbind outcome_bind]. destruct HA as [H1 H2].
    rewrite (decide_ext _ _ _ _ (H1 h Hh)). destruct (decide (h ∈ _)); [done|].
    assert (Hk : has_key tx (ko_key out)) by (left; eauto). by rewrite (decide_ext _ _ _ _ (H2 _ Hk)).
  - destruct (getOutput_Multisignature tx idx) as [ [out a]| | |] eqn:Eo; cbn [mbind outcome_bind]; try done.
    rewrite (check_keys_agree tx h s s'); [done..|]. intros k Hk. right. eauto.
Qed.
Lemma create_transfer_new account b tx h idxs s idx tk t tk' : create_transfer account b tx h idxs s idx tk = Ok (inr (t, tk')) ->
  forall k, k ∈ tk' -> k ∈ tk \/ has_key tx k.
Proof.
  unfold create_transfer. intros E k Hk. destruct (_ <=? _); [done|]. apply bind_Ok in E as (ty & _ & E).
  destruct ty; [injection E as _ <-; by left|apply bind_Ok in E as (gi & _ & E)..].
  - apply bind_Ok in E as ([out a] & Eo & E). apply bind_Ok in E as (r & _ & E). apply bind_Ok in E as ([e ki] & _ & E).
    apply bind_Ok in E as (_ & _ & E). apply bind_Ok in E as (h' & _ & E). destruct (decide _); [injection E as _ <-; by left|].
    destruct (decide _); [done|]. injection E as _ <-. apply elem_of_app in Hk as [Hk| ->%list_elem_of_singleton]; [by left|]. right. left. eauto.
  - apply bind_Ok in E as ([out a] & Eo & E). destruct (check_multisignature_keys _ _ _ _) as [tk2|] eqn:Ec; [|done]. injection E as _ <-.
    destruct (check_keys_new _ _ _ _ _ Ec k Hk); [by left|]. right. right. eauto.
Qed.

Lemma create_transfer_ends account b tx h idxs s idx tk tk' : create_transfer account b tx h idxs s idx tk <> Ok (inl (CreateDone tk')).
Proof.
  unfold create_transfer. intros E. destruct (_ <=? _); [done|]. apply bind_Ok in E as (ty & _ & E).
  destruct ty; [done|apply bind_Ok in E as (gi & _ & E)..].
  - apply bind_Ok in E as ([out a] & Eo & E). apply bind_Ok in E as (r & _ & E). apply bind_Ok in E as ([e ki] & _ & E).
    apply bind_Ok in E as (_ & _ & E). apply bind_Ok in E as (h' & _ & E). destruct (decide _); [done|]. by destruct (decide _).
  - apply bind_Ok in E as ([out a] & Eo & E). by destruct (check_multisignature_keys _ _ _ _).
Qed.

Lemma create_loop_agree account b tx h idxs s s' outputs tk : getTransactionHash tx = Ok h -> agree tx s s' ->
  create_loop account b tx h idxs s outputs tk = create_loop account b tx h idxs s' outputs tk.
Proof.
  intros Hh HA. revert tk. induction outputs as [|idx outputs IH]; intros tk; cbn; [done|]. rewrite (create_transfer_agree _ _ _ _ _ s s') by done.
  destruct (create_transfer _ _ _ _ _ _ _ _) as [ [|[t tk'] ]| | |]; try done. by rewrite IH.
Qed.
Lemma create_loop_new account b tx h idxs s outputs tk ts tk' : create_loop account b tx h idxs s outputs tk = (ts, Ok (CreateDone tk')) ->
  forall k, k ∈ tk' -> k ∈ tk \/ has_key tx k.
Proof.
  revert tk ts. induction outputs as [|idx outputs IH]; intros tk ts E k Hk; cbn in E; [injection E as _ <-; by left|].
  destruct (create_transfer _ _ _ _ _ _ _ _) as [ [e|[t tk1] ]| | |] eqn:E1; try done.
  { injection E as _ ->. by apply create_transfer_ends in E1. }
  destruct (create_loop _ _ _ _ _ _ outputs tk1) as [ts' e] eqn:E2. injection E as _ ->.
  destruct (IH _ _ E2 k Hk) as [H|H]; [by eapply create_transfer_new|by right].
Qed.

Lemma createTransfers_agree account b tx outputs idxs s s' ts r s1 : agree tx s s' -> createTransfers account b tx outputs idxs s = Ok (ts, r, s1) ->
  exists d, of_tx tx d /\ s1 = more_seen d s /\ createTransfers account b tx outputs idxs s' = Ok (ts, r, more_seen d s').
Proof.
  intros HA E. unfold createTransfers in *. destruct (getTransactionHash tx) as [h| | |] eqn:Eh; cbn [mbind outcome_bind] in *; try done.
  rewrite (create_loop_agree account b tx h idxs s s' outputs [] Eh HA) in E.
  destruct (create_loop _ _ _ _ _ _ _ _) as [ts' e] eqn:El.
  assert (H0 : forall (x : list TransactionOutputInformationIn) (y : outcome Z), Ok (x, y, s) = Ok (ts, r, s1) ->
    exists d, of_tx tx d /\ s1 = more_seen d s /\ Ok (x, y, s') = Ok (ts, r, more_seen d s')).
  { intros x y [= -> -> <-]. exists no_seen. rewrite !more_none. split; [apply of_tx_none|done]. }
  destruct e as [ [| |tk]| | |]; try (by apply H0). injection E as <- <- <-.
  exists {| transactions_hash_seen := {[h]}; public_keys_seen := list_to_set tk |}. split_and!; [|done..].
  split; cbn.
  - intros x ->%elem_of_singleton. done.
  - intros k Hk%elem_of_list_to_set. destruct (create_loop_new _ _ _ _ _ _ _ _ _ _ El k Hk) as [H%elem_of_nil|H]; done.
Qed.

Lemma create_all_agree c b tx l i s s' ec i' s1 : agree tx s s' -> create_all c b tx l i s = Ok (ec, i', s1) ->
  exists d, of_tx tx d /\ s1 = more_seen d s /\ create_all c b tx l i s' = Ok (ec, i', more_seen d s').
Proof.
  revert i s s'. induction l as [|[k outputs] l IH]; intros i s s' HA E; cbn [create_all] in E |- *.
  { injection E as <- <- <-. exists no_seen. rewrite !more_none. split; [apply of_tx_none|done]. }
  destruct (m_subscriptions c !! k) as [u|]; [|by apply IH]. apply bind_Ok in E as ([ [ts r] s2] & E1 & E).
  destruct (createTransfers_agree _ _ _ _ _ _ _ _ _ _ HA E1) as (d & Hd & -> & ->). cbn [mbind outcome_bind].
  destruct r as [e| | |]; try done; [destruct (e =? 0)|].
  - destruct (IH _ _ _ (agree_more tx d s s' HA) E) as (d' & Hd' & -> & ->). exists (more_seen d' d). rewrite !more_more.
    split; [by apply of_tx_more|done].
  - injection E as <- <- <-. by exists d.
  - injection E as <- <- <-. by exists d.
Qed.

Lemma preprocessOutputs_agree c b tx s s' ec i s1 : agree tx s s' ->
  preprocessOutputs underive_public_key node_indices c b tx s = Ok (ec, i, s1) ->
  exists d, of_tx tx d /\ s1 = more_seen d s /\ preprocessOutputs underive_public_key node_indices c b tx s' = Ok (ec, i, more_seen d s').
Proof.
  intros HA. assert (H0 : forall e j, Ok (e, j, s) = Ok (ec, i, s1) ->
    exists d, of_tx tx d /\ s1 = more_seen d s /\ Ok (e, j, s') = Ok (ec, i, more_seen d s')).
  { intros e j [= -> -> <-]. exists no_seen. rewrite !more_none. split; [apply of_tx_none|done]. }
  unfold preprocessOutputs. destruct (findMyOutputs _ _ _ _) as [m| | |]; cbn [mbind outcome_bind]; try done; [|apply H0].
  destruct (decide (m = ∅)); [apply H0|]. destruct (getTransactionHash tx) as [h| | |]; cbn [mbind outcome_bind]; try done.
  destruct (if bk_height b =? UNCONFIRMED then (0, []) else node_indices h) as [e idxs]. destruct (e =? 0); [|apply H0]. by apply create_all_agree.
Qed.
End Agree.

Notation Tx := (TransactionBlockInfo * TransactionPrefixImpl)%type.

(** Two transactions that share neither the hash nor an output key. *)
Definition apart (x y : Tx) : Prop :=
  (forall h, getTransactionHash x.2 = Ok h -> getTransactionHash y.2 <> Ok h) /\ (forall k, has_key x.2 k -> ~ has_key y.2 k).
Definition all_apart (items : list Tx) : Prop := NoDup items /\ forall x y, x ∈ items -> y ∈ items -> x <> y -> apart x y.

Lemma apart_agree (x y : Tx) d s : apart x y -> of_tx x.2 d -> agree y.2 s (more_seen d s).
Proof.
  intros [H1 H2] [H3 H4]. split; cbn; intros z Hz; rewrite elem_of_union; split; [by right| |by right|]; intros [H|H]; try done.
  - by destruct (H1 z (H3 z H)).
  - by destruct (H2 z (H4 z H)).
Qed.

Lemma all_apart_perm l l' : l ≡ₚ l' -> all_apart l -> all_apart l'.
Proof. intros HP [H1 H2]. split; [by rewrite <- HP|]. intros x y. rewrite <- HP. apply H2. Qed.

Lemma preprocess_step c b tx items s l s' :
  preprocess_all underive_public_key node_indices c ((b, tx) :: items) s = Ok (Some l, s') <->
  exists i s1 l', preprocessOutputs underive_public_key node_indices c b tx s = Ok (0, i, s1) /\
    preprocess_all underive_public_key node_indices c items s1 = Ok (Some l', s') /\ l = (b, tx, i) :: l'.
Proof.
  cbn [preprocess_all]. split.
  - intros E. destruct (preprocessOutputs _ _ _ _ _ _) as [ [ [ec i] s1]| | |]; try done. destruct (Z.eqb_spec ec 0) as [->|]; [|done].
    apply bind_Ok in E as ([r s2] & E1 & E). destruct r as [l'|]; [|done]. injection E as <- <-. by exists i, s1, l'.
  - intros (i & s1 & l' & -> & E & ->). cbn. by rewrite E.
Qed.

Lemma preprocess_perm c items items' : items ≡ₚ items' -> forall s l s', all_apart items ->
  preprocess_all underive_public_key node_indices c items s = Ok (Some l, s') ->
  exists l', preprocess_all underive_public_key node_indices c items' s = Ok (Some l', s') /\ l ≡ₚ l'.
Proof.
  induction 1 as [|[b tx] items items' HP IH|[b2 tx2] [b1 tx1] items|items items2 items' HP1 IH1 HP2 IH2]; intros s l s' HA E.
  - by exists l.
  - apply preprocess_step in E as (i & s1 & l1 & E1 & E2 & ->). destruct HA as [HN HA]. apply NoDup_cons in HN as [_ HN].
    destruct (IH s1 l1 s') as (l' & E' & HP'); [split; [done|]; intros x y Hx Hy; apply HA; by right|done|].
    exists ((b, tx, i) :: l'). split; [|by constructor]. apply preprocess_step. by exists i, s1, l'.
  - apply preprocess_step in E as (i1 & s1 & l1 & E1 & E2 & ->). apply preprocess_step in E2 as (i2 & s2 & l2 & E2 & E3 & ->).
    assert (Hap : apart (b1, tx1) (b2, tx2) /\ apart (b2, tx2) (b1, tx1)).
    { destruct HA as [HN HA]. apply NoDup_cons in HN as [Hn _]. rewrite not_elem_of_cons in Hn. destruct Hn as [Hn _].
      split; apply HA; try done; try (by left); try (right; by left). }
    assert (Hrefl : forall tx : TransactionPrefixImpl, agree tx s s) by by split.
    destruct (preprocessOutputs_agree c b1 tx1 s s 0 i1 s1 (Hrefl tx1) E1) as (d1 & Hd1 & -> & _).
    assert (Hb : agree tx2 (more_seen d1 s) s).
    { destruct (apart_agree (b1, tx1) (b2, tx2) d1 s) as [H1 H2]; [by apply Hap|done|]. split; intros z Hz; symmetry; [by apply H1|by apply H2]. }
    destruct (preprocessOutputs_agree c b2 tx2 _ _ 0 i2 s2 Hb E2) as (d2 & Hd2 & -> & E2').
    destruct (preprocessOutputs_agree c b1 tx1 s (more_seen d2 s) 0 i1 (more_seen d1 s)) as (d1' & Hd1' & E1s & E1'); [by apply (apart_agree (b2, tx2) (b1, tx1)); [apply Hap|]|done|].
    exists ((b2, tx2, i2) :: (b1, tx1, i1) :: l2). split; [|constructor]. apply preprocess_step. exists i2, (more_seen d2 s), ((b1, tx1, i1) :: l2).
    split_and!; [done| |done]. apply preprocess_step. eexists i1, _, l2. split_and!; [exact E1'| |done].
    rewrite <- E3. f_equal. by rewrite (more_comm d1' d2), <- E1s.
  - destruct (IH1 s l s' HA E) as (l1 & E1 & P1). destruct (IH2 s l1 s') as (l2 & E2 & P2); [by eapply all_apart_perm|done|].
    exists l2. split; [done|]. by rewrite P1.
Qed.

(** Transactions of a queue are at different places. *)
Definition place (x : Tx) : Z * Z := (bk_height x.1, bk_transactionIndex x.1).
Lemma queue_transactions_places b txs : 0 <= bk_transactionIndex b -> bk_transactionIndex b + zlen txs <= 2 ^ 32 ->
  NoDup (map place (queue_transactions b txs)) /\ Forall (fun x => bk_height x.1 = bk_height b /\ bk_transactionIndex b <= bk_transactionIndex x.1) (queue_transactions b txs).
Proof.
  revert b. induction txs as [|tx txs IH]; intros b H0 Hz; cbn [queue_transactions]; [split; constructor|]. rewrite zlen_cons in Hz. pose proof (zlen_nonneg txs).
  set (b' := {| bk_height := _ |}).
  assert (HB : NoDup (map place (queue_transactions b' txs)) /\ Forall (fun x => bk_height x.1 = bk_height b /\ bk_transactionIndex b < bk_transactionIndex x.1) (queue_transactions b' txs)).
  { destruct (Z.eq_dec (bk_transactionIndex b + 1) (2 ^ 32)) as [E|Hne].
    - destruct txs as [|t txs]; [split; constructor|]. rewrite zlen_cons in Hz. pose proof (zlen_nonneg txs). lia.
    - destruct (IH b') as [H1 H2]; cbn [b' bk_transactionIndex]; rewrite ?u32_small by (unfold is_u32; lia); [lia..|]. split; [done|].
      eapply Forall_impl; [exact H2|]. cbn. rewrite u32_small by (unfold is_u32; lia). intros x [-> ?]. split; [done|lia]. }
  destruct HB as [H1 H2]. destruct (decide _).
  - split; [done|]. eapply Forall_impl; [exact H2|]. cbn. intros x [? ?]. split; [done|lia].
  - split; [cbn; constructor; [|done]|constructor; [cbn; split; [done|lia]|eapply Forall_impl; [exact H2|]; cbn; intros x [? ?]; split; [done|lia] ] ].
    intros (x & E & Hx)%list_elem_of_fmap. rewrite Forall_forall in H2. destruct (H2 x Hx) as [_ Hl]. injection E as _ E. lia.
Qed.
Lemma queue_blocks_places c height bs : 0 <= height -> height + zlen bs <= UINT32_MAX -> Forall (fun b => zlen (cb_transactions b) <= 2 ^ 32) bs ->
  NoDup (map place (queue_blocks c height bs)) /\ Forall (fun x => height <= bk_height x.1) (queue_blocks c height bs).
Proof.
  revert height. induction bs as [|b bs IH]; intros height H0 Hz HF; cbn [queue_blocks]; [split; constructor|].
  apply Forall_cons in HF as [Hb HF]. rewrite zlen_cons in Hz. pose proof (zlen_nonneg bs). rewrite (u32_small (height + 1)) by (unfold is_u32, UINT32_MAX in *; lia).
  destruct (IH (height + 1) ltac:(lia) ltac:(lia) HF) as [H1 H2].
  set (here := match cb_block b with None => _ | Some _ => _ end).
  assert (HH : NoDup (map place here) /\ Forall (fun x => bk_height x.1 = height) here).
  { unfold here. destruct (cb_block b) as [blk|]; [|split; constructor]. destruct (_ && _); [split; constructor|].
    destruct (queue_transactions_places {| bk_height := height; bk_timestamp := timestamp (header blk); bk_transactionIndex := 0 |} (cb_transactions b)) as [H3 H4]; [cbn; lia..|].
    split; [done|]. eapply Forall_impl; [exact H4|]. by intros x [? _]. }
  destruct HH as [H3 H4]. split.
  - rewrite map_app, NoDup_app. split_and!; [done| |done]. intros p (x & -> & Hx)%list_elem_of_fmap (y & E & Hy)%list_elem_of_fmap.
    rewrite Forall_forall in H2, H4. specialize (H2 y Hy). specialize (H4 x Hx). unfold place in E. injection E as E _. lia.
  - apply Forall_app. split; (eapply Forall_impl; [eassumption|]); cbn; intros; lia.
Qed.

Lemma preprocess_all_fst c items seen l seen' : preprocess_all underive_public_key node_indices c items seen = Ok (Some l, seen') -> map fst l = items.
Proof.
  revert seen l. induction items as [|[b tx] items IH]; intros seen l E; [by injection E as <- _|].
  apply preprocess_step in E as (i & s1 & l1 & _ & E & ->). cbn. by erewrite IH.
Qed.

Lemma sorted_perm (l l' : list (Tx * PreprocessInfo)) : NoDup (map place (map fst l)) -> l ≡ₚ l' -> merge_sort in_chain_order l = merge_sort in_chain_order l'.
Proof.
  intros HN HP. apply (Sorted_unique_strong in_chain_order); [|apply Sorted_merge_sort, _..|by rewrite !merge_sort_Permutation].
  intros x y. rewrite !merge_sort_Permutation, <- HP. intros Hx Hy H1 H2.
  assert (E : place x.1 = place y.1) by (unfold in_chain_order in *; unfold place; f_equal; lia).
  rewrite map_map in HN. clear -HN Hx Hy E. induction l as [|z l IH]; [by apply elem_of_nil in Hx|]. cbn in HN. apply NoDup_cons in HN as [Hz HN].
  apply elem_of_cons in Hx as [->|Hx], Hy as [->|Hy]; [done| | |by apply IH]; destruct Hz; [rewrite E|rewrite <- E]; by apply (list_elem_of_fmap_2 (fun p => place p.1)).
Qed.

(** C22.  The threads that look for the outputs of the accounts do not race where
    it matters: when the transactions of new blocks share no hash and no output
    key, and the blocks are processed successfully with one order in which the
    threads take the transactions, then every other order also succeeds and leads
    to the same accounts and the same sets.  (When a transaction fails, what was
    seen before it depends on the order.) *)
Theorem schedule_independent (schedule1 schedule2 : list Tx -> list Tx) (c c' : TransfersConsumer) (bs : list CompleteBlock) (n : Z) :
  (forall l, schedule1 l ≡ₚ l) -> (forall l, schedule2 l ≡ₚ l) -> 0 <= n -> n + zlen bs <= UINT32_MAX ->
  Forall (fun b => zlen (cb_transactions b) <= 2 ^ 32) bs ->
  (forall x y, x ∈ queue_blocks c n bs -> y ∈ queue_blocks c n bs -> x <> y -> apart x y) ->
  consumer_new_blocks underive_public_key node_indices schedule1 c bs n = Ok (true, c') ->
  consumer_new_blocks underive_public_key node_indices schedule2 c bs n = Ok (true, c').
Proof.
  intros H1 H2 Hn Hz HF HA E. destruct (queue_blocks_places c n bs Hn Hz HF) as [HN _]. unfold consumer_new_blocks in *.
  apply bind_Ok in E as ([] & -> & E). apply bind_Ok in E as ([r seen] & Ep & E). cbn [mbind outcome_bind].
  destruct r as [l|]; [|by apply bind_Ok in E as (? & _ & [=])].
  assert (HP12 : schedule1 (queue_blocks c n bs) ≡ₚ schedule2 (queue_blocks c n bs)) by by rewrite H1, H2.
  assert (HA1 : all_apart (schedule1 (queue_blocks c n bs))).
  { apply (all_apart_perm (queue_blocks c n bs)); [by rewrite H1|]. split; [by eapply NoDup_fmap_1|done]. }
  destruct (preprocess_perm c _ _ HP12 _ _ _ HA1 Ep) as (l' & -> & HP). cbn [mbind outcome_bind].
  rewrite <- (sorted_perm l l'); [done| |done]. rewrite (preprocess_all_fst _ _ _ _ _ Ep). by rewrite H1.
Qed.

Lemma each_total f c : (forall k s, m_subscriptions c !! k = Some s -> exists s', f k s = Ok s') -> exists c', forEachSubscription c f = Ok c'.
Proof.
  intros H. unfold forEachSubscription.
  assert (HT : forall l m, (forall k s, (k, s) ∈ l -> exists s', f k s = Ok s') -> exists m', for_subscriptions f l m = Ok m').
  { induction l as [|[k s] l IH]; intros m Hl; cbn; [eauto|]. destruct (Hl k s ltac:(by left)) as [s' ->]. cbn. apply IH. intros; apply Hl; by right. }
  destruct (HT (map_to_list (m_subscriptions c)) (m_subscriptions c)) as [m' ->]; [|cbn; eauto]. intros k s Hks%elem_of_map_to_list. by apply (H k).
Qed.

Lemma detach_at c n h : consumer_at n c -> n < UNCONFIRMED -> 0 <= h < UNCONFIRMED ->
  exists c', consumer_detach c h = Ok c' /\ consumer_at h c'.
Proof.
  intros HC Hn Hh. destruct (each_total (fun _ s => sub_detach s h) c) as [c' E].
  - intros k s Hs. destruct (HC k s Hs) as [HI _ HH].
    destruct (detach_spec (sub_age s) (transfers_of s) h HI Hh ltac:(unfold UNCONFIRMED, UINT32_MAX in *; lia)) as (d & l & c1 & E & _).
    unfold sub_detach. rewrite E. cbn. eauto.
  - exists c'. split; [done|]. apply forEachSubscription_spec in E. eapply consumer_at_each; [exact E|exact HC|].
    intros k s s' _ Hs Es. by eapply (sub_detach_at n).
Qed.

Lemma remove_at c n h : consumer_at n c -> exists c', forEachSubscription c (fun _ s => sub_deleteUnconfirmedTransaction s h) = Ok c' /\ consumer_at n c'.
Proof.
  intros HC. destruct (each_total (fun _ s => sub_deleteUnconfirmedTransaction s h) c) as [c' E]; [|exists c'; split; [done|by eapply consumer_delete_at] ].
  intros k s Hs. destruct (HC k s Hs) as [HI _ _]. unfold sub_deleteUnconfirmedTransaction.
  destruct (deleteUnconfirmedTransaction (sub_age s) (transfers_of s) h) as [ [b c1]| | |] eqn:E; cbn; [eauto|exfalso..]; unfold deleteUnconfirmedTransaction in E;
    (destruct (find_transaction h _) as [t|] eqn:Ef; [|done]); (destruct (Z.eqb_spec (tx_blockHeight t) UNCONFIRMED) as [Hu|]; [|done]);
    destruct (deleteUnconfirmedTransaction_spec _ _ _ _ HI Ef Hu) as (c1 & E1 & _); unfold deleteUnconfirmedTransaction in E1;
    rewrite Ef, Hu, Z.eqb_refl in E1; cbn [negb] in *; by rewrite E in E1.
Qed.


(** The promise to the synchronizer. *)
#[global] Program Instance transfers_laws (unset : Z) :
    ConsumerLaws TransfersConsumer (C := transfers_consumer underive_public_key node_indices schedule unset) := {|
  in_step c n := consumer_at n c /\ n < UINT32_MAX;
  good_block blk n := forall b tx, tx ∈ cb_transactions blk -> bk_height b = n -> spends_others b tx;
|}.
Next Obligation.
  intros unset c n h c' [HC Hn] Hh E. destruct (detach_at c n h HC Hn ltac:(unfold UNCONFIRMED, UINT32_MAX in *; lia)) as (c1 & E1 & HC1).
  cbn in E. rewrite E in E1. injection E1 as <-. split; [done|lia].
Qed.
Next Obligation.
  intros unset c n bs ok c' [HC Hn] H0 Hz Hne Hgood E. destruct (new_blocks_at c n bs ok c' HC H0 Hz Hne) as [H _]; [|exact E|].
  - intros i blk b tx Hi Ht Hb. by eapply (Hgood i blk).
  - split; [done|]. by destruct ok.
Qed.
End Consumer.

(** * An account that receives two payments *)

#[local] Existing Instance debug_build.
#[local] Existing Instance toy_keys.

Definition subtract (derivation : list Z) (i : Z) (key : list Z) : option (list Z) := Some (zip_with (fun d k => u8 (k - d - i)) derivation key).
Definition three_indices (_ : list Z) : Z * list Z := (0, [3; 4; 5]).
Definition payee : AccountKeys := {| address := {| spendPublicKey := [6]; viewPublicKey := [3] |}; spendSecretKey := [6]; viewSecretKey := [3] |}.
Definition new_consumer : TransfersConsumer :=
  {| m_syncStart := {| ss_timestamp := 0; ss_height := 0 |}; m_viewSecret := [3]; m_subscriptions := ∅; m_spendKeys := ∅; m_poolTxs := ∅; m_seen := no_seen |}.
Definition payee_consumer : TransfersConsumer :=
  match addSubscription new_consumer payee {| ss_timestamp := 0; ss_height := 0 |} 10 with Ok c => c | _ => new_consumer end.
(** A payment of [amount] to the account, with the transaction key [key]. *)
Definition payment (id key amount : Z) : TransactionPrefixImpl :=
  {| m_txPrefix := {| version := 1; unlockTime := 0; inputs := [];
       outputs := [{| out_amount := amount; target := OutKey {| ko_key := [u8 (key + 9)] |} |}]; extra := [] |};
     m_extra := [ExtraPublicKey [key] ]; m_txHash := [id] |}.
Definition any_block : Block :=
  {| header := {| majorVersion := 1; minorVersion := 0; nonce := 0; timestamp := 1000; previousBlockHash := [] |};
     baseTransaction := {| prefix := {| version := 1; unlockTime := 0; inputs := []; outputs := []; extra := [] |}; signatures := [] |}; transactionHashes := [] |}.
Definition two_blocks : list CompleteBlock :=
  [{| cb_blockHash := [51]; cb_block := Some any_block; cb_transactions := [payment 1 4 100; payment 2 5 50] |};
   {| cb_blockHash := [52]; cb_block := Some any_block; cb_transactions := [payment 3 20 7] |}].

Lemma payment_spends_others b id key amount : spends_others (B := debug_build) (K := toy_keys) b (payment id key amount).
Proof.
  intros ? ? ? ? ts ? ? _. split; intros i input Hi; apply bind_Ok in Hi as (x & Hi & _); apply bind_Ok in Hi as (y & Hi & _); unfold getInputChecked in Hi;
    (destruct (_ <=? i); [done|]); by apply vget_Ok in Hi as [_ Hi].
Qed.

Lemma payee_at n : consumer_at n payee_consumer.
Proof.
  intros k s Hs. assert (E : m_subscriptions payee_consumer = <[ [6] := {| sub_keys := payee; sub_syncStart := {| ss_timestamp := 0; ss_height := 0 |};
    sub_age := 10; transfers_of := empty_container |}]> ∅) by (vm_compute; reflexivity). rewrite E in Hs.
  apply lookup_insert_Some in Hs as [ [_ <-]|[_ Hs] ]; [|by rewrite lookup_empty in Hs].
  split; cbn; [apply empty_container_inv|intros t Ht; by apply elem_of_nil in Ht|lia].
Qed.

Lemma two_blocks_payments i blk tx : two_blocks !! i = Some blk -> tx ∈ cb_transactions blk -> exists id key amount, tx = payment id key amount.
Proof.
  intros Hi Ht. destruct i as [|[|i] ]; [injection Hi as <-..|done]; cbn in Ht; repeat (apply elem_of_cons in Ht as [->|Ht]; [by eauto|]); by apply elem_of_nil in Ht.
Qed.

Definition paid_consumer : TransfersConsumer :=
  match consumer_new_blocks subtract three_indices id payee_consumer two_blocks 5 with Ok (true, c) => c | _ => new_consumer end.


Lemma payment_has_key id key amount k : has_key (payment id key amount) k -> k = [u8 (key + 9)].
Proof.
  assert (HO : forall i ty o, getOutputChecked_typed (m_txPrefix (payment id key amount)) i ty = Ok o ->
    o = {| out_amount := amount; target := OutKey {| ko_key := [u8 (key + 9)] |} |}).
  { intros i ty o E. apply bind_Ok in E as (x & E & Et). unfold getOutputChecked in E. destruct (_ <=? i); [done|]. apply vget_Ok in E as [_ E].
    destruct (Z.to_nat i) as [|[|] ]; [|done..]. injection E as <-. destruct (decide _); [|done]. by injection Et as <-. }
  intros [ (i & out & a & E & <-)|(i & out & a & E & Hk)]; apply bind_Ok in E as (o & ->%HO & E); apply bind_Ok in E as (x & E1 & E2); [|done].
  cbn in E1. injection E1 as <-. by injection E2 as <- _.
Qed.

Lemma payments_apart (b b' : TransactionBlockInfo) id key amount id' key' amount' : id <> id' -> u8 (key + 9) <> u8 (key' + 9) ->
  apart (b, payment id key amount) (b', payment id' key' amount').
Proof.
  intros Hi Hk. split; cbn.
  - intros h [= <-] [= E]. congruence.
  - intros k ->%payment_has_key [= E]%payment_has_key. congruence.
Qed.

Lemma schedule_independent_witness :
  consumer_new_blocks subtract three_indices (@rev (TransactionBlockInfo * TransactionPrefixImpl)) payee_consumer two_blocks 5 = Ok (true, paid_consumer).
Proof.
  apply (schedule_independent subtract three_indices id); [done|intros l; symmetry; apply Permutation_rev|vm_compute; discriminate..| | |vm_compute; reflexivity].
  - repeat constructor; vm_compute; discriminate.
  - assert (E : map snd (queue_blocks payee_consumer 5 two_blocks) = [payment 1 4 100; payment 2 5 50; payment 3 20 7]) by (vm_compute; reflexivity).
    assert (HP : forall x, x ∈ queue_blocks payee_consumer 5 two_blocks -> exists i, map snd (queue_blocks payee_consumer 5 two_blocks) !! i = Some x.2 /\ queue_blocks payee_consumer 5 two_blocks !! i = Some x).
    { intros x [i Hi]%list_elem_of_lookup. exists i. split; [|done]. by rewrite list_lookup_fmap, Hi. }
    intros [b x] [b' y] Hx Hy Hn. destruct (HP _ Hx) as (i & Hi & Hi'), (HP _ Hy) as (j & Hj & Hj'). rewrite E in Hi, Hj. cbn in Hi, Hj.
    destruct (decide (i = j)) as [->|Hij]; [congruence|].
    destruct i as [|[|[|i] ] ], j as [|[|[|j] ] ]; try done; injection Hi as <-; injection Hj as <-; apply payments_apart; vm_compute; discriminate.
Defined.

(** Two transactions with one output key: the account gets the payment that a
    worker thread takes first. *)
Example schedule_race :
  let blocks := [{| cb_blockHash := [51]; cb_block := Some any_block; cb_transactions := [payment 1 4 100; payment 2 4 50] |}] in
  let amounts r := match r with
    | Ok (true, c) => match m_subscriptions c !! [6] with Some s => map totalAmountOut (m_transactions (transfers_of s)) | None => [] end
    | _ => [] end in
  amounts (consumer_new_blocks subtract three_indices id payee_consumer blocks 5) = [100] /\
  amounts (consumer_new_blocks subtract three_indices (@rev _) payee_consumer blocks 5) = [50].
Proof. split; vm_compute; reflexivity. Qed.

(** An output after a multisignature output with two keys: the outputs are
    numbered by keys, and the payment at place 1 is not found. *)
Example missed_output :
  let tx := {| m_txPrefix := {| version := 1; unlockTime := 0; inputs := [];
        outputs := [{| out_amount := 1; target := OutMultisignature {| mo_keys := [[1]; [2] ]; requiredSignatureCount := 1; mo_term := 0 |} |};
                    {| out_amount := 100; target := OutKey {| ko_key := [14] |} |}]; extra := [] |};
      m_extra := [ExtraPublicKey [4] ]; m_txHash := [1] |} in
  derive_public_key [7] 1 [6] = Some [14] /\ findMyOutputs subtract tx [3] {[ [6] ]} = Ok ∅.
Proof. split; vm_compute; reflexivity. Qed.
