(* ===== verification/Limbs.v ===== *)
(** Straight-line code on numbers kept in limbs, the form of most functions of
    [crypto/crypto-ops.c].

    A number is a list of signed machine integers, its value their sum with the
    weights of the limbs.  The code moves carries between limbs and folds high
    limbs into low ones; each line of it is a [step].  A step whose arithmetic
    leaves the range of the integers is undefined.  Two analyses of a program are
    computed and proved sound: the change of the value, modulo a number, and the
    intervals of the limbs, which show that nothing overflows. *)
From S2P Require Import Prelude IntUtil.

(** Signed integers between [-lim] and [lim]: [lim] is 2^31 or 2^63. *)
Definition fits (lim x : Z) : bool := (- lim <=? x) && (x <? lim).
Definition chk (lim x : Z) : outcome Z := if fits lim x then Ok x else Undefined.
Definition int32 : Z := 2147483648.
Definition int64 : Z := 9223372036854775808.

(** The lines of the programs:
    - [Carry i j mult round bits] is [carry = (h_i + round) >> bits;
      h_j += carry * mult; h_i -= carry << bits];
    - [Cut i bits] is [carry = h_i >> bits; h_i -= carry << bits];
    - [Fold i terms] is [h_j += h_i * c] for each [(j, c)], [h_j -= h_i * |c|]
      where [c] is negative, and [h_i = 0]. *)
Inductive step :=
| Carry (i j : nat) (mult round bits : Z)
| Cut (i : nat) (bits : Z)
| Fold (i : nat) (terms : list (nat * Z)).

Section Run.
Variable lim : Z.

Fixpoint add_terms (x : Z) (terms : list (nat * Z)) (h : list Z) : outcome (list Z) :=
  match terms with
  | [] => Ok h
  | (j, c) :: terms =>
      p ← chk lim (x * Z.abs c);
      y ← chk lim (if c <? 0 then h !!! j - p else h !!! j + p);
      add_terms x terms (<[j := y]> h)
  end.

Definition run_step (s : step) (h : list Z) : outcome (list Z) :=
  match s with
  | Carry i j mult round bits =>
      t ← chk lim (h !!! i + round);
      let carry := Z.shiftr t bits in
      u ← chk lim (carry * mult);
      v ← chk lim (h !!! j + u);
      w ← chk lim (Z.shiftl carry bits);
      x ← chk lim (h !!! i - w);
      Ok (<[i := x]> (<[j := v]> h))
  | Cut i bits =>
      let carry := Z.shiftr (h !!! i) bits in
      w ← chk lim (Z.shiftl carry bits);
      x ← chk lim (h !!! i - w);
      Ok (<[i := x]> h)
  | Fold i terms => h' ← add_terms (h !!! i) terms h; Ok (<[i := 0]> h')
  end.

Fixpoint run (steps : list step) (h : list Z) : outcome (list Z) :=
  match steps with
  | [] => Ok h
  | s :: steps => h ← run_step s h; run steps h
  end.
End Run.

(** Sums of products, every product and every partial sum an [int64_t]. *)
Fixpoint dot64 (acc : Z) (products : list (Z * Z)) : outcome Z :=
  match products with
  | [] => Ok acc
  | (a, b) :: products => p ← chk int64 (a * b); acc ← chk int64 (acc + p); dot64 acc products
  end.

Lemma chk_Ok lim x y : chk lim x = Ok y -> y = x /\ - lim <= x < lim.
Proof. unfold chk, fits. destruct (- lim <=? x) eqn:E1, (x <? lim) eqn:E2; cbn; intros [= <-]. lia. Qed.
Lemma chk_fits lim x : - lim <= x < lim -> chk lim x = Ok x.
Proof. intros H. unfold chk, fits. rewrite (proj2 (Z.leb_le _ _)), (proj2 (Z.ltb_lt _ _)) by lia. done. Qed.

Lemma run_app lim s1 s2 h : run lim (s1 ++ s2) h = (h1 ← run lim s1 h; run lim s2 h1).
Proof. revert h. induction s1 as [|s s1 IH]; intros h; cbn; [done|]. destruct (run_step lim s h); cbn; [apply IH|done..]. Qed.

(** * Values *)

Fixpoint wsum (w h : list Z) : Z :=
  match w, h with
  | x :: w, y :: h => x * y + wsum w h
  | _, _ => 0
  end.

Lemma wsum_insert w h i x : (i < length h)%nat -> (i < length w)%nat ->
  wsum w (<[i := x]> h) = wsum w h + w !!! i * (x - h !!! i).
Proof.
  revert w i. induction h as [|y h IH]; intros w i Hi Hw; [cbn in Hi; lia|]. destruct w as [|a w]; [cbn in Hw; lia|].
  destruct i as [|i]; [cbn; lia|]. change (<[S i := x]> (y :: h)) with (y :: <[i := x]> h).
  change ((a :: w) !!! S i) with (w !!! i). change ((y :: h) !!! S i) with (h !!! i). cbn [wsum]. cbn in Hi, Hw. rewrite IH by lia. lia.
Qed.

(** What a step must satisfy to keep the value modulo [m]; modulo 0 is equality. *)
Definition divides_b (m x : Z) : bool := if m =? 0 then x =? 0 else x mod m =? 0.
Lemma divides_b_spec m x : divides_b m x = true -> (m | x).
Proof.
  unfold divides_b. destruct (Z.eqb_spec m 0) as [->|Hm]; intros H%Z.eqb_eq; [subst; by exists 0|]. by apply Z.mod_divide.
Qed.

Definition in_terms (n i : nat) (terms : list (nat * Z)) : bool := forallb (fun t => (t.1 <? n)%nat && negb (t.1 =? i)%nat) terms.
Definition terms_wsum (w : list Z) (terms : list (nat * Z)) : Z := sum_Z (map (fun t => w !!! t.1 * t.2) terms).
Definition step_ok (m : Z) (w : list Z) (s : step) : bool :=
  match s with
  | Carry i j mult _ bits =>
      (0 <=? bits) && (i <? length w)%nat && (j <? length w)%nat && negb (i =? j)%nat && divides_b m (w !!! j * mult - w !!! i * 2 ^ bits)
  | Cut i bits => (0 <=? bits) && (i <? length w)%nat && divides_b m (w !!! i * 2 ^ bits)
  | Fold i terms => (i <? length w)%nat && in_terms (length w) i terms && divides_b m (terms_wsum w terms - w !!! i)
  end.

Section Value.
Variables (lim : Z) (w : list Z).

Lemma add_terms_wsum x terms h h' i : length h = length w -> in_terms (length w) i terms = true -> add_terms lim x terms h = Ok h' ->
  wsum w h' = wsum w h + x * terms_wsum w terms /\ length h' = length h /\ h' !!! i = h !!! i.
Proof.
  revert h. induction terms as [|[j c] terms IH]; intros h Hl Ht E; cbn in E.
  { injection E as <-. cbn. split; [lia|done]. }
  cbn in Ht. apply andb_prop in Ht as [ [Hj Hn]%andb_prop Ht]. apply Nat.ltb_lt in Hj. apply negb_true_iff, Nat.eqb_neq in Hn.
  apply bind_Ok in E as (p & [-> _]%chk_Ok & E). apply bind_Ok in E as (y & [-> _]%chk_Ok & E).
  destruct (IH _ ltac:(by rewrite length_insert) Ht E) as (E1 & E2 & E3). rewrite length_insert in E2. split_and!; [|done|].
  - rewrite E1, wsum_insert by lia. unfold terms_wsum. cbn [map sum_Z foldr]. fold (sum_Z (map (fun t : nat * Z => w !!! t.1 * t.2) terms)). destruct (Z.ltb_spec c 0); [rewrite Z.abs_neq by lia|rewrite Z.abs_eq by lia]; cbn [fst snd foldr]; lia.
  - rewrite E3. apply list_lookup_total_insert_ne. done.
Qed.

Lemma run_step_wsum m s h h' : length h = length w -> step_ok m w s = true -> run_step lim s h = Ok h' ->
  (m | wsum w h' - wsum w h) /\ length h' = length h.
Proof.
  intros Hl Hs E. destruct s as [i j mult round bits|i bits|i terms]; cbn in Hs, E.
  - apply andb_prop in Hs as [ [ [ [Hb%Z.leb_le Hi%Nat.ltb_lt]%andb_prop Hj%Nat.ltb_lt]%andb_prop Hn%negb_true_iff%Nat.eqb_neq]%andb_prop Hd%divides_b_spec].
    apply bind_Ok in E as (t & [-> _]%chk_Ok & E). apply bind_Ok in E as (u & [-> _]%chk_Ok & E). apply bind_Ok in E as (v & [-> _]%chk_Ok & E).
    apply bind_Ok in E as (x & [-> _]%chk_Ok & E). apply bind_Ok in E as (y & [-> _]%chk_Ok & [= <-]).
    rewrite !length_insert. split; [|done]. rewrite !wsum_insert by (rewrite ?length_insert; lia). rewrite list_lookup_total_insert_ne by done.
    rewrite Z.shiftl_mul_pow2 by done. destruct Hd as [q Hq]. set (c := Z.shiftr _ _). exists (c * q). rewrite <- Z.mul_assoc, <- Hq. ring.
  - apply andb_prop in Hs as [ [Hb%Z.leb_le Hi%Nat.ltb_lt]%andb_prop Hd%divides_b_spec].
    apply bind_Ok in E as (x & [-> _]%chk_Ok & E). apply bind_Ok in E as (y & [-> _]%chk_Ok & [= <-]).
    rewrite length_insert. split; [|done]. rewrite wsum_insert by lia. rewrite Z.shiftl_mul_pow2 by done. destruct Hd as [q Hq].
    set (c := Z.shiftr _ _). exists (- c * q). rewrite <- Z.mul_assoc, <- Hq. ring.
  - apply andb_prop in Hs as [ [Hi%Nat.ltb_lt Ht]%andb_prop Hd%divides_b_spec]. apply bind_Ok in E as (h1 & E & [= <-]).
    destruct (add_terms_wsum _ _ _ _ i Hl Ht E) as (E1 & E2 & E3). rewrite length_insert. split; [|done]. rewrite wsum_insert by lia. rewrite E3, E1.
    destruct Hd as [q Hq]. exists (h !!! i * q). rewrite <- Z.mul_assoc, <- Hq. ring.
Qed.

(** The value after a program is congruent to the value before. *)
Lemma run_wsum m steps h h' : length h = length w -> forallb (step_ok m w) steps = true -> run lim steps h = Ok h' ->
  (m | wsum w h' - wsum w h) /\ length h' = length h.
Proof.
  revert h. induction steps as [|s steps IH]; intros h Hl Hs E; cbn in Hs, E.
  { injection E as <-. split; [|done]. exists 0. lia. }
  apply andb_prop in Hs as [Hs1 Hs]. apply bind_Ok in E as (h1 & E1 & E).
  destruct (run_step_wsum m s h h1 Hl Hs1 E1) as [D1 L1]. destruct (IH h1 ltac:(congruence) Hs E) as [D2 L2]. split; [|congruence].
  replace (wsum w h' - wsum w h) with ((wsum w h' - wsum w h1) + (wsum w h1 - wsum w h)) by lia. by apply Z.divide_add_r.
Qed.

(** One fold, exactly. *)
Lemma fold_wsum i terms h h' : length h = length w -> (i < length w)%nat -> in_terms (length w) i terms = true -> run lim [Fold i terms] h = Ok h' ->
  wsum w h' = wsum w h + h !!! i * (terms_wsum w terms - w !!! i).
Proof.
  intros Hl Hi Ht E. cbn in E. apply bind_Ok in E as (h1 & E & E1). apply bind_Ok in E as (h2 & E & [= <-]). injection E1 as <-.
  destruct (add_terms_wsum _ _ _ _ i Hl Ht E) as (E1 & E2 & E3). rewrite wsum_insert by lia. rewrite E3, E1. lia.
Qed.
End Value.

(** * Intervals *)

(** Limbs within bounds. *)
Definition inb (b : list (Z * Z)) (h : list Z) : Prop := Forall2 (fun p x => p.1 <= x <= p.2) b h.

Section Intervals.
Variable lim : Z.

Definition ichk (p : Z * Z) : option (Z * Z) := if (- lim <=? p.1) && (p.2 <? lim) then Some p else None.

Fixpoint iadd_terms (p : Z * Z) (terms : list (nat * Z)) (b : list (Z * Z)) : option (list (Z * Z)) :=
  match terms with
  | [] => Some b
  | (j, c) :: terms =>
      r ← b !! j;
      q ← ichk (p.1 * Z.abs c, p.2 * Z.abs c);
      y ← ichk (if c <? 0 then (r.1 - q.2, r.2 - q.1) else (r.1 + q.1, r.2 + q.2));
      iadd_terms p terms (<[j := y]> b)
  end.

Definition irun_step (s : step) (b : list (Z * Z)) : option (list (Z * Z)) :=
  match s with
  | Carry i j mult round bits =>
      if (0 <=? bits) && (0 <=? mult) && negb (i =? j)%nat then
        p ← b !! i; r ← b !! j;
        t ← ichk (p.1 + round, p.2 + round);
        let c := (Z.shiftr t.1 bits, Z.shiftr t.2 bits) in
        u ← ichk (c.1 * mult, c.2 * mult);
        v ← ichk (r.1 + u.1, r.2 + u.2);
        w ← ichk (Z.shiftl c.1 bits, Z.shiftl c.2 bits);
        x ← ichk (Z.max (- round) (p.1 - w.2), Z.min (2 ^ bits - 1 - round) (p.2 - w.1));
        Some (<[i := x]> (<[j := v]> b))
      else None
  | Cut i bits =>
      if 0 <=? bits then
        p ← b !! i;
        w ← ichk (Z.shiftl (Z.shiftr p.1 bits) bits, Z.shiftl (Z.shiftr p.2 bits) bits);
        x ← ichk (0, 2 ^ bits - 1);
        Some (<[i := x]> b)
      else None
  | Fold i terms => p ← b !! i; b' ← iadd_terms p terms b; Some (<[i := (0, 0)]> b')
  end.

Fixpoint irun (steps : list step) (b : list (Z * Z)) : option (list (Z * Z)) :=
  match steps with
  | [] => Some b
  | s :: steps => b ← irun_step s b; irun steps b
  end.

Lemma ichk_Some p q : ichk p = Some q -> q = p /\ - lim <= p.1 /\ p.2 < lim.
Proof. unfold ichk. destruct (- lim <=? p.1) eqn:E1, (p.2 <? lim) eqn:E2; cbn; intros [= <-]. split_and!; [done|lia|lia]. Qed.
Lemma ichk_sound p q x : ichk p = Some q -> p.1 <= x <= p.2 -> chk lim x = Ok x.
Proof. intros (-> & H1 & H2)%ichk_Some Hx. apply chk_fits. lia. Qed.

Lemma inb_lookup b h i p : inb b h -> b !! i = Some p -> h !! i = Some (h !!! i) /\ p.1 <= h !!! i <= p.2.
Proof. intros H Hb. destruct (Forall2_lookup_l _ _ _ _ _ H Hb) as (x & Hx & Hp). apply list_lookup_total_correct in Hx as E. rewrite E. done. Qed.
Lemma inb_insert b h i p x : inb b h -> p.1 <= x <= p.2 -> inb (<[i := p]> b) (<[i := x]> h).
Proof. intros H Hp. by apply Forall2_insert. Qed.

Lemma iadd_terms_sound p terms b b' x h : iadd_terms p terms b = Some b' -> inb b h -> p.1 <= x <= p.2 ->
  exists h', add_terms lim x terms h = Ok h' /\ inb b' h'.
Proof.
  revert b h. induction terms as [|[j c] terms IH]; intros b h E Hb Hx; cbn in E; [injection E as <-; by exists h|].
  apply bind_Some in E as (r & Er & E). apply bind_Some in E as (q & Eq & E). apply bind_Some in E as (y & Ey & E).
  destruct (inb_lookup _ _ _ _ Hb Er) as [_ Hr]. pose proof (ichk_Some _ _ Eq) as (-> & _ & _). cbn in Ey.
  assert (Hq : p.1 * Z.abs c <= x * Z.abs c <= p.2 * Z.abs c) by nia. cbn.
  rewrite (ichk_sound _ _ _ Eq Hq). cbn. pose proof (ichk_Some _ _ Ey) as (Hy & _ & _).
  assert (Hin : y.1 <= (if c <? 0 then h !!! j - x * Z.abs c else h !!! j + x * Z.abs c) <= y.2) by (rewrite Hy; case_match; cbn; lia).
  rewrite (ichk_sound _ _ _ Ey) by (by rewrite <- Hy). cbn. apply (IH _ _ E); [by apply inb_insert|done].
Qed.

Lemma shiftr_mono a b n : 0 <= n -> a <= b -> Z.shiftr a n <= Z.shiftr b n.
Proof. intros Hn H. rewrite !Z.shiftr_div_pow2 by done. apply Z.div_le_mono; lia. Qed.
Lemma shiftr_bounds a b x n : 0 <= n -> a <= x <= b -> Z.shiftr a n <= Z.shiftr x n <= Z.shiftr b n.
Proof. intros Hn H. split; apply shiftr_mono; lia. Qed.
Lemma shiftl_bounds a b x n : 0 <= n -> a <= x <= b -> Z.shiftl a n <= Z.shiftl x n <= Z.shiftl b n.
Proof. intros Hn H. rewrite !Z.shiftl_mul_pow2 by done. nia. Qed.
Lemma shift_rest x n : 0 <= n -> 0 <= x - Z.shiftl (Z.shiftr x n) n < 2 ^ n.
Proof. intros Hn. rewrite Z.shiftl_mul_pow2, Z.shiftr_div_pow2 by done. pose proof (Z.div_mod x (2 ^ n)). pose proof (Z.mod_pos_bound x (2 ^ n)). lia. Qed.

Lemma irun_step_sound s b b' h : irun_step s b = Some b' -> inb b h -> exists h', run_step lim s h = Ok h' /\ inb b' h'.
Proof.
  intros E Hb. destruct s as [i j mult round bits|i bits|i terms]; cbn in E |- *.
  - destruct (_ && _) eqn:G in E; [|done]. apply andb_prop in G as [ [Hbits%Z.leb_le Hm%Z.leb_le]%andb_prop _].
    apply bind_Some in E as (p & Ep & E). apply bind_Some in E as (r & Er & E). apply bind_Some in E as (t & Et & E). apply bind_Some in E as (u & Eu & E).
    apply bind_Some in E as (v & Ev & E). apply bind_Some in E as (w & Ew & E). apply bind_Some in E as (x & Ex & [= <-]).
    destruct (inb_lookup _ _ _ _ Hb Ep) as [_ Hp]. destruct (inb_lookup _ _ _ _ Hb Er) as [_ Hr].
    pose proof (ichk_Some _ _ Et) as [-> _]. pose proof (ichk_Some _ _ Eu) as [-> _]. pose proof (ichk_Some _ _ Ev) as [-> _].
    pose proof (ichk_Some _ _ Ew) as [-> _]. pose proof (ichk_Some _ _ Ex) as [-> _]. cbn in Et, Eu, Ev, Ew, Ex |- *.
    assert (Ht : p.1 + round <= h !!! i + round <= p.2 + round) by lia. rewrite (ichk_sound _ _ _ Et Ht). cbn.
    pose proof (shiftr_bounds _ _ _ bits Hbits Ht) as Hc. set (c := Z.shiftr (h !!! i + round) bits) in *.
    pose proof (shiftl_bounds _ _ _ bits Hbits Hc) as Hw.
    assert (Hu : Z.shiftr (p.1 + round) bits * mult <= c * mult <= Z.shiftr (p.2 + round) bits * mult) by nia.
    rewrite (ichk_sound _ _ _ Eu Hu). cbn. rewrite (ichk_sound _ _ (h !!! j + c * mult) Ev) by (cbn; lia). cbn.
    rewrite (ichk_sound _ _ _ Ew Hw). cbn. pose proof (shift_rest (h !!! i + round) bits Hbits) as Hrest. fold c in Hrest.
    rewrite (ichk_sound _ _ (h !!! i - Z.shiftl c bits) Ex) by (cbn; lia). cbn.
    eexists; split; [done|]. apply inb_insert; [apply inb_insert; [done|cbn; lia]|cbn; lia].
  - destruct (0 <=? bits) eqn:Hbits; [apply Z.leb_le in Hbits|done]. apply bind_Some in E as (p & Ep & E). apply bind_Some in E as (w & Ew & E). apply bind_Some in E as (x & Ex & [= <-]).
    destruct (inb_lookup _ _ _ _ Hb Ep) as [_ Hp]. pose proof (ichk_Some _ _ Ex) as [-> _].
    pose proof (shiftl_bounds _ _ _ bits Hbits (shiftr_bounds _ _ _ bits Hbits Hp)) as Hw. rewrite (ichk_sound _ _ _ Ew Hw). cbn.
    pose proof (shift_rest (h !!! i) bits Hbits) as Hrest. rewrite (ichk_sound _ _ _ Ex) by (cbn; lia). cbn.
    eexists; split; [done|]. apply inb_insert; [done|cbn; lia].
  - apply bind_Some in E as (p & Ep & E). apply bind_Some in E as (b1 & E1 & [= <-]). destruct (inb_lookup _ _ _ _ Hb Ep) as [_ Hp].
    destruct (iadd_terms_sound _ _ _ _ _ _ E1 Hb Hp) as (h1 & -> & Hh1). cbn. eexists; split; [done|]. by apply inb_insert.
Qed.

(** A program whose intervals can be computed runs without overflow, and its result lies in them. *)
Lemma irun_sound steps b b' h : irun steps b = Some b' -> inb b h -> exists h', run lim steps h = Ok h' /\ inb b' h'.
Proof.
  revert b h. induction steps as [|s steps IH]; intros b h E Hb; cbn in E |- *; [injection E as <-; by exists h|].
  apply bind_Some in E as (b1 & E1 & E). destruct (irun_step_sound _ _ _ _ E1 Hb) as (h1 & -> & Hh1). cbn. by apply (IH b1).
Qed.

Lemma inb_wsum w b h : inb b h -> Forall (fun x => 0 <= x) w -> wsum w (map fst b) <= wsum w h <= wsum w (map snd b).
Proof.
  intros Hb. revert w. induction Hb as [|p x b h Hp Hb IH]; intros [|a w] Hw; cbn; [lia..|].
  inversion Hw; subst. specialize (IH w ltac:(done)). nia.
Qed.

Lemma inb_nth b h : inb b h -> forall i p, b !! i = Some p -> p.1 <= h !!! i <= p.2.
Proof. intros H i p Hp. by destruct (inb_lookup _ _ _ _ H Hp). Qed.
End Intervals.

(** * Bytes and limbs *)

(** [load_3] and [load_4] at an offset of a byte array. *)
Definition load_3 (s : list Z) (o : nat) : Z :=
  Z.lor (Z.lor (s !!! o) (Z.shiftl (s !!! (o + 1)%nat) 8)) (Z.shiftl (s !!! (o + 2)%nat) 16).
Definition load_4 (s : list Z) (o : nat) : Z :=
  Z.lor (Z.lor (Z.lor (s !!! o) (Z.shiftl (s !!! (o + 1)%nat) 8)) (Z.shiftl (s !!! (o + 2)%nat) 16)) (Z.shiftl (s !!! (o + 3)%nat) 24).

(** The powers of [b] as weights. *)
Definition powers (b : Z) (n : nat) : list Z := map (fun i => b ^ Z.of_nat i) (seq 0 n).

Lemma wsum_scale c w h : wsum (map (Z.mul c) w) h = c * wsum w h.
Proof. revert h. induction w as [|a w IH]; intros [|x h]; cbn; [lia..|]. rewrite IH. ring. Qed.

Lemma powers_S b n : 0 < b -> powers b (S n) = 1 :: map (Z.mul b) (powers b n).
Proof.
  intros Hb. unfold powers. cbn [seq map]. f_equal. rewrite <- seq_shift, !map_map. apply map_ext. intros i. rewrite Nat2Z.inj_succ, Z.pow_succ_r by lia. done.
Qed.

Lemma wsum_powers b n h : 0 < b -> (length h <= n)%nat -> wsum (powers b n) h = value b h.
Proof.
  intros Hb. revert n. induction h as [|x h IH]; intros [|n] Hl; [done|by destruct (powers b (S n))|cbn in Hl; lia|].
  rewrite powers_S by done. cbn [wsum]. rewrite wsum_scale, IH by (cbn in Hl; lia). unfold value. cbn. ring.
Qed.

Lemma digits_seq b n x : 0 < b -> digits b n x = map (fun i => x / b ^ Z.of_nat i mod b) (seq 0 n).
Proof.
  intros Hb. revert x. induction n as [|n IH]; intros x; [done|]. cbn [digits seq map]. f_equal; [cbn; by rewrite Z.div_1_r|].
  rewrite IH, <- seq_shift, map_map. apply map_ext. intros i. rewrite Nat2Z.inj_succ, Z.pow_succ_r, Z.div_div by lia. done.
Qed.

Lemma value_digits_rest b n x : 0 < b -> value b (digits b n x ++ [x / b ^ Z.of_nat n]) = x.
Proof.
  intros Hb. revert x. induction n as [|n IH]; intros x; unfold value in *; cbn [digits app foldr].
  - rewrite Z.pow_0_r, Z.div_1_r. lia.
  - rewrite Nat2Z.inj_succ, Z.pow_succ_r, <- Z.div_div, IH by lia. pose proof (Z.div_mod x b). lia.
Qed.

Lemma value_drop s k : Forall is_u8 s -> (k <= length s)%nat -> value 256 s / 2 ^ (8 * Z.of_nat k) = value 256 (drop k s).
Proof.
  intros Hs Hk. rewrite <- (take_drop k s) at 1. rewrite value_app by lia. unfold zlen. rewrite length_take, Nat.min_l by done.
  rewrite Z.pow_mul_r by lia. change (2 ^ 8) with 256.
  pose proof (value_bound 256 (take k s) ltac:(lia) (Forall_take _ _ _ Hs)) as Hv. unfold zlen in Hv. rewrite length_take, Nat.min_l in Hv by done.
  rewrite Z.mul_comm, Z.div_add, Z.div_small by lia. lia.
Qed.

Lemma value_take_mod s m : Forall is_u8 s -> (m <= length s)%nat -> value 256 s mod 2 ^ (8 * Z.of_nat m) = value 256 (take m s).
Proof.
  intros Hs Hm. rewrite <- (take_drop m s) at 1. rewrite value_app by lia. unfold zlen. rewrite length_take, Nat.min_l by done.
  rewrite Z.pow_mul_r by lia. change (2 ^ 8) with 256.
  pose proof (value_bound 256 (take m s) ltac:(lia) (Forall_take _ _ _ Hs)) as Hv. unfold zlen in Hv. rewrite length_take, Nat.min_l in Hv by done.
  rewrite Z.mul_comm, Z.mod_add, Z.mod_small by lia. done.
Qed.

Lemma load_value s o m : Forall is_u8 s -> (o + m <= length s)%nat -> value 256 s / 2 ^ (8 * Z.of_nat o) mod 2 ^ (8 * Z.of_nat m) = value 256 (take m (drop o s)).
Proof. intros Hs Ho. rewrite value_drop by (done || lia). apply value_take_mod; [by apply Forall_drop|rewrite length_drop; lia]. Qed.

Lemma take_drop_lookup (s : list Z) o m : (o + m <= length s)%nat -> take m (drop o s) = map (fun i => s !!! (o + i)%nat) (seq 0 m).
Proof.
  revert o. induction m as [|m IH]; intros o H; [done|]. rewrite (drop_S s (s !!! o) o) by (apply list_lookup_lookup_total_lt; lia).
  cbn [take seq map]. rewrite IH, <- seq_shift, map_map by lia. f_equal; [f_equal; lia|]. apply map_ext. intros i. f_equal. lia.
Qed.

Lemma u8_lookup s o : Forall is_u8 s -> is_u8 (s !!! o).
Proof.
  intros Hs. destruct (decide (o < length s)%nat) as [H|H].
  - apply list_lookup_lookup_total_lt in H. by apply (Forall_lookup_1 _ _ _ _ Hs H).
  - rewrite list_lookup_total_alt, lookup_ge_None_2 by lia. cbn. unfold is_u8. lia.
Qed.

Lemma load_3_spec s o : Forall is_u8 s -> (o + 3 <= length s)%nat -> load_3 s o = value 256 s / 2 ^ (8 * Z.of_nat o) mod 2 ^ 24.
Proof.
  intros Hs Ho. change 24 with (8 * Z.of_nat 3). rewrite load_value, take_drop_lookup by done. unfold load_3, value. cbn [seq map foldr]. rewrite Nat.add_0_r.
  pose proof (u8_lookup s o Hs). pose proof (u8_lookup s (o + 1) Hs). pose proof (u8_lookup s (o + 2) Hs). unfold is_u8 in *.
  rewrite (lor_add_disjoint 8) by lia. rewrite lor_add_disjoint by lia. lia.
Qed.
Lemma load_4_spec s o : Forall is_u8 s -> (o + 4 <= length s)%nat -> load_4 s o = value 256 s / 2 ^ (8 * Z.of_nat o) mod 2 ^ 32.
Proof.
  intros Hs Ho. change 32 with (8 * Z.of_nat 4). rewrite load_value, take_drop_lookup by done. unfold load_4, value. cbn [seq map foldr]. rewrite Nat.add_0_r.
  pose proof (u8_lookup s o Hs). pose proof (u8_lookup s (o + 1) Hs). pose proof (u8_lookup s (o + 2) Hs). pose proof (u8_lookup s (o + 3) Hs). unfold is_u8 in *.
  rewrite (lor_add_disjoint 8) by lia. rewrite (lor_add_disjoint 16) by lia. rewrite lor_add_disjoint by lia. lia.
Qed.

(** Fields of bits within fields. *)
Lemma field_field x a p s q : 0 <= a -> 0 <= s -> 0 <= q -> s + q <= p -> Z.shiftr (x / 2 ^ a mod 2 ^ p) s mod 2 ^ q = x / 2 ^ (a + s) mod 2 ^ q.
Proof.
  intros Ha Hs Hq Hp. rewrite Z.shiftr_div_pow2, Z.pow_add_r, <- Z.div_div by lia. set (y := x / 2 ^ a).
  rewrite (Z.mod_eq y (2 ^ p)) by lia. replace (2 ^ p * (y / 2 ^ p)) with (2 ^ (p - s - q) * (y / 2 ^ p) * 2 ^ q * 2 ^ s)
    by (replace p with ((p - s - q) + q + s) at 3 by lia; rewrite !Z.pow_add_r by lia; ring).
  rewrite <- (Z.add_opp_r y), <- Z.mul_opp_l, Z.div_add, <- Z.mul_opp_l, Z.mod_add by lia. done.
Qed.

(** A field that begins in one word and ends in the next. *)
Lemma field_across x a p s q m : 0 <= a -> 0 <= s <= p -> p - s <= q -> q - (p - s) <= m ->
  Z.lor (Z.shiftr (x / 2 ^ a mod 2 ^ p) s) (Z.shiftl (x / 2 ^ (a + p) mod 2 ^ m) (p - s)) mod 2 ^ q = x / 2 ^ (a + s) mod 2 ^ q.
Proof.
  intros Ha Hs Hq Hm. rewrite (Z.pow_add_r 2 a p), <- Z.div_div by lia. replace (2 ^ (a + s)) with (2 ^ a * 2 ^ s) by (rewrite Z.pow_add_r by lia; done).
  rewrite <- (Z.div_div x) by lia. set (y := x / 2 ^ a).
  rewrite lor_add_disjoint; [|lia|].
  2:{ rewrite Z.shiftr_div_pow2 by lia. pose proof (Z.mod_pos_bound y (2 ^ p) ltac:(lia)) as Hy. split; [apply Z.div_pos; lia|].
      apply Z.div_lt_upper_bound; [lia|]. rewrite <- Z.pow_add_r by lia. replace (s + (p - s)) with p by lia. lia. }
  rewrite Z.shiftr_div_pow2 by lia. assert (E : y mod 2 ^ p / 2 ^ s = (y / 2 ^ s) mod 2 ^ (p - s)).
  { replace p with (s + (p - s)) at 1 by lia. rewrite Z.pow_add_r, Z.rem_mul_r by lia. rewrite Z.mul_comm, Z.div_add by lia.
    rewrite Z.div_small by (apply Z.mod_pos_bound; lia). lia. }
  rewrite E. replace (y / 2 ^ p) with (y / 2 ^ s / 2 ^ (p - s)) by (rewrite Z.div_div, <- Z.pow_add_r by lia; do 2 f_equal; lia).
  set (z := y / 2 ^ s). rewrite (Z.mul_comm _ (2 ^ (p - s))), Z.add_comm, <- Z.rem_mul_r, <- Z.pow_add_r by lia.
  symmetry. apply Znumtheory.Zmod_div_mod; [lia..|]. exists (2 ^ (p - s + m - q)). rewrite <- Z.pow_add_r by lia. f_equal. lia.
Qed.
