(* ===== verification/ScalarOps.v ===== *)
(** Arithmetic modulo the order of the group: the functions [sc_*] of
    [crypto/crypto-ops.c].

    A scalar is a string of 32 bytes, least significant first.  The functions cut
    it into limbs of 21 bits, compute on the limbs with [int64_t], fold what
    exceeds 252 bits back modulo the order, and write bytes again.  The model
    keeps the lines of the code as the steps of [Limbs]; a limb that the code has
    folded and does not read again is set to 0.  [carry << 21] of a negative carry
    is taken as a multiplication, as every compiler the project supports does. *)
From S2P Require Import Prelude IntUtil Limbs.

(** The order of the group of the base point. *)
Definition order : Z := 2 ^ 252 + 27742317777372353535851937790883648493.

(** Cutting bytes into limbs: the last limb takes all remaining bits. *)
Definition low21 (x : Z) : Z := Z.land 2097151 x.
Definition limbs12 (a : list Z) : list Z :=
  [low21 (load_3 a 0); low21 (Z.shiftr (load_4 a 2) 5); low21 (Z.shiftr (load_3 a 5) 2); low21 (Z.shiftr (load_4 a 7) 7);
   low21 (Z.shiftr (load_4 a 10) 4); low21 (Z.shiftr (load_3 a 13) 1); low21 (Z.shiftr (load_4 a 15) 6); low21 (Z.shiftr (load_3 a 18) 3);
   low21 (load_3 a 21); low21 (Z.shiftr (load_4 a 23) 5); low21 (Z.shiftr (load_3 a 26) 2); Z.shiftr (load_4 a 28) 7].
Definition limbs24 (s : list Z) : list Z :=
  [low21 (load_3 s 0); low21 (Z.shiftr (load_4 s 2) 5); low21 (Z.shiftr (load_3 s 5) 2); low21 (Z.shiftr (load_4 s 7) 7);
   low21 (Z.shiftr (load_4 s 10) 4); low21 (Z.shiftr (load_3 s 13) 1); low21 (Z.shiftr (load_4 s 15) 6); low21 (Z.shiftr (load_3 s 18) 3);
   low21 (load_3 s 21); low21 (Z.shiftr (load_4 s 23) 5); low21 (Z.shiftr (load_3 s 26) 2); low21 (Z.shiftr (load_4 s 28) 7);
   low21 (Z.shiftr (load_4 s 31) 4); low21 (Z.shiftr (load_3 s 34) 1); low21 (Z.shiftr (load_4 s 36) 6); low21 (Z.shiftr (load_3 s 39) 3);
   low21 (load_3 s 42); low21 (Z.shiftr (load_4 s 44) 5); low21 (Z.shiftr (load_3 s 47) 2); low21 (Z.shiftr (load_4 s 49) 7);
   low21 (Z.shiftr (load_4 s 52) 4); low21 (Z.shiftr (load_3 s 55) 1); low21 (Z.shiftr (load_4 s 57) 6); Z.shiftr (load_4 s 60) 3].

(** Writing twelve limbs as 32 bytes. *)
Definition store (h : list Z) : list Z :=
  let s i := h !!! Z.to_nat i in
  let one i a := u8 (Z.shiftr (s i) a) in
  let two i a b := u8 (Z.lor (Z.shiftr (s i) a) (Z.shiftl (s (i + 1)) b)) in
  [one 0 0; one 0 8; two 0 16 5; one 1 3; one 1 11; two 1 19 2; one 2 6; two 2 14 7;
   one 3 1; one 3 9; two 3 17 4; one 4 4; one 4 12; two 4 20 1; one 5 7; two 5 15 6;
   one 6 2; one 6 10; two 6 18 3; one 7 5; one 7 13; one 8 0; one 8 8; two 8 16 5;
   one 9 3; one 9 11; two 9 19 2; one 10 6; two 10 14 7; one 11 1; one 11 9; one 11 17].

(** The lines of the reduction: a carry rounded to the nearest, a carry rounded
    down, and the limb [i], of weight [2^252 * 2^(21 (i - 12))], folded with
    [2^252 = - 27742317777372353535851937790883648493] modulo the order. *)
Definition rounded (i : nat) : step := Carry i (S i) 1 (Z.shiftl 1 20) 21.
Definition floored (i : nat) : step := Carry i (S i) 1 0 21.
Definition folded (i : nat) : step :=
  Fold i [((i - 12)%nat, 666643); ((i - 11)%nat, 470296); ((i - 10)%nat, 654183); ((i - 9)%nat, -997805); ((i - 8)%nat, 136657); ((i - 7)%nat, -683901)].

(** What every function ends with. *)
Definition reduce_12 : list step := map rounded [0; 2; 4; 6; 8; 10; 1; 3; 5; 7; 9; 11]%nat ++ [folded 12].
Definition reduce_last : list step := map floored (seq 0 12) ++ [folded 12] ++ map floored (seq 0 11).
(** The reduction of 24 limbs. *)
Definition reduce_24 : list step :=
  map folded [23; 22; 21; 20; 19; 18]%nat ++ map rounded [6; 8; 10; 12; 14; 16; 7; 9; 11; 13; 15]%nat ++
  map folded [17; 16; 15; 14; 13; 12]%nat ++ reduce_12.

Definition sc_reduce (s : list Z) : outcome (list Z) :=
  h ← run int64 (reduce_24 ++ reduce_last) (limbs24 s); Ok (store h).

Definition sc_0 : list Z := replicate 32 0.

Definition sc_reduce32 (s : list Z) : outcome (list Z) :=
  h ← run int64 (reduce_12 ++ reduce_last) (limbs12 s ++ [0]); Ok (store h).

Fixpoint zip_chk (f : Z -> Z -> Z) (a b : list Z) : outcome (list Z) :=
  match a, b with
  | x :: a, y :: b => z ← chk int64 (f x y); l ← zip_chk f a b; Ok (z :: l)
  | _, _ => Ok []
  end.

Definition sc_add (a b : list Z) : outcome (list Z) :=
  s ← zip_chk Z.add (limbs12 a) (limbs12 b);
  h ← run int64 (reduce_12 ++ reduce_last) (s ++ [0]); Ok (store h).
Definition sc_sub (a b : list Z) : outcome (list Z) :=
  s ← zip_chk Z.sub (limbs12 a) (limbs12 b);
  h ← run int64 (reduce_12 ++ reduce_last) (s ++ [0]); Ok (store h).

(** The products [a_i * b_(k - i)] of the limb [k], in the order of the code. *)
Definition products (a b : list Z) (k : nat) : list (Z * Z) :=
  map (fun i => (a !!! i, b !!! (k - i)%nat)) (seq (k - 11) (Nat.min k 11 - (k - 11) + 1)).
Definition mulsub_limb (a b c : list Z) (k : nat) : outcome Z :=
  if (k =? 23)%nat then Ok 0
  else p ← dot64 0 (products a b k); chk int64 ((if (k <? 12)%nat then c !!! k else 0) - p).
Definition mulsub_limbs (a b c : list Z) : outcome (list Z) :=
  foldr (fun k acc => x ← mulsub_limb a b c k; l ← acc; Ok (x :: l)) (Ok []) (seq 0 24).
Definition reduce_products : list step :=
  map rounded [0; 2; 4; 6; 8; 10; 12; 14; 16; 18; 20; 22; 1; 3; 5; 7; 9; 11; 13; 15; 17; 19; 21]%nat.

Definition sc_mulsub (a b c : list Z) : outcome (list Z) :=
  s ← mulsub_limbs (limbs12 a) (limbs12 b) (limbs12 c);
  h ← run int64 (reduce_products ++ reduce_24 ++ reduce_last) s; Ok (store h).

(** [-1], 0 or 1. *)
Definition signum (a : Z) : Z := Z.shiftr a 63 - Z.shiftr (- a) 63.

Definition sc_check (s : list Z) : Z :=
  let s i := load_4 s (4 * i)%nat in
  Z.shiftr (signum (1559614444 - s 0%nat) + Z.shiftl (signum (1477600026 - s 1%nat)) 1 + Z.shiftl (signum (2734136534 - s 2%nat)) 2 +
            Z.shiftl (signum (350157278 - s 3%nat)) 3 + Z.shiftl (signum (- s 4%nat)) 4 + Z.shiftl (signum (- s 5%nat)) 5 +
            Z.shiftl (signum (- s 6%nat)) 6 + Z.shiftl (signum (268435456 - s 7%nat)) 7) 8.

Definition sc_isnonzero (s : list Z) : Z := Z.shiftr (foldl Z.lor 0 s - 1) 8 + 1.

(** * Bytes, limbs and values *)

Notation base := 2097152.
Notation field i := (Z.of_nat (21 * i)).

Lemma low21_mod x : low21 x = x mod 2 ^ 21.
Proof. unfold low21. rewrite Z.land_comm. apply (Z.land_ones x 21). lia. Qed.

Lemma low21_load_3 s o sh i : Forall is_u8 s -> (o + 3 <= length s)%nat -> 0 <= sh <= 3 -> 8 * Z.of_nat o + sh = field i ->
  low21 (Z.shiftr (load_3 s o) sh) = value 256 s / 2 ^ field i mod base.
Proof. intros Hs Ho Hsh E. rewrite low21_mod, load_3_spec, field_field, E by (done || lia). done. Qed.
Lemma low21_load_4 s o sh i : Forall is_u8 s -> (o + 4 <= length s)%nat -> 0 <= sh <= 11 -> 8 * Z.of_nat o + sh = field i ->
  low21 (Z.shiftr (load_4 s o) sh) = value 256 s / 2 ^ field i mod base.
Proof. intros Hs Ho Hsh E. rewrite low21_mod, load_4_spec, field_field, E by (done || lia). done. Qed.
Lemma low21_load s o i : Forall is_u8 s -> (o + 3 <= length s)%nat -> 8 * Z.of_nat o = field i -> low21 (load_3 s o) = value 256 s / 2 ^ field i mod base.
Proof. intros Hs Ho E. rewrite <- (Z.shiftr_0_r (load_3 s o)). apply low21_load_3; (done || lia). Qed.
Lemma load_last s o sh i : Forall is_u8 s -> (o + 4 = length s)%nat -> 0 <= sh -> 8 * Z.of_nat o + sh = field i -> Z.shiftr (load_4 s o) sh = value 256 s / 2 ^ field i.
Proof.
  intros Hs Ho Hsh E. rewrite load_4_spec, <- E, Z.shiftr_div_pow2, Z.pow_add_r, <- Z.div_div by (done || lia). f_equal. rewrite value_drop by (done || lia).
  pose proof (value_bound 256 (drop o s) ltac:(lia) (Forall_drop _ _ _ Hs)) as H. unfold zlen in H. rewrite length_drop in H.
  replace (length s - o)%nat with 4%nat in H by lia. apply Z.mod_small. lia.
Qed.

Definition cut (n : nat) (x : Z) : list Z := map (fun i => x / 2 ^ field i mod base) (seq 0 n) ++ [x / 2 ^ field n].
Lemma cut_digits n x : cut n x = digits base n x ++ [x / base ^ Z.of_nat n].
Proof.
  assert (E : forall i, 2 ^ field i = base ^ Z.of_nat i) by (intros i; rewrite Nat2Z.inj_mul, Z.pow_mul_r by lia; done).
  unfold cut. rewrite digits_seq, E by lia. f_equal. apply map_ext. intros i. by rewrite E.
Qed.

Ltac limb_cases := repeat lazymatch goal with
  | |- Z.shiftr (load_4 _ _) _ = _ => apply load_last; (assumption || lia)
  | |- low21 (load_3 _ _) = _ => apply low21_load; (assumption || lia)
  | |- low21 (Z.shiftr (load_3 _ _) _) = _ => apply low21_load_3; (assumption || lia)
  | |- low21 (Z.shiftr (load_4 _ _) _) = _ => apply low21_load_4; (assumption || lia)
  | |- _ :: _ = _ :: _ => f_equal
  end; try done.

Lemma limbs12_cut a : Forall is_u8 a -> length a = 32%nat -> limbs12 a = cut 11 (value 256 a).
Proof. intros Ha Hl. unfold limbs12, cut. cbn [seq map app]. limb_cases. Qed.
Lemma limbs24_cut s : Forall is_u8 s -> length s = 64%nat -> limbs24 s = cut 23 (value 256 s).
Proof. intros Ha Hl. unfold limbs24, cut. cbn [seq map app]. limb_cases. Qed.

(** Bounds of the limbs of a number. *)
Definition limb_bounds (n : nat) (top : Z) : list (Z * Z) := replicate n (0, base - 1) ++ [(0, top)].
Lemma value_cut n x : value base (cut n x) = x.
Proof. rewrite cut_digits. apply value_digits_rest. lia. Qed.
Lemma length_cut n x : length (cut n x) = S n.
Proof. unfold cut. rewrite length_app, length_map, length_seq. cbn. lia. Qed.
Lemma cut_bounds n x top : 0 <= x < (top + 1) * 2 ^ field n -> inb (limb_bounds n top) (cut n x).
Proof.
  intros Hx. unfold cut, limb_bounds. apply Forall2_app.
  - apply Forall2_same_length_lookup. rewrite length_replicate, length_map, length_seq. split; [done|]. intros i p y [-> _]%lookup_replicate Hy.
    apply list_elem_of_lookup_2, list_elem_of_fmap in Hy as (j & -> & _). pose proof (Z.mod_pos_bound (x / 2 ^ field j) base). cbn [fst snd]. lia.
  - constructor; [|constructor]. cbn [fst snd]. split; [apply Z.div_pos; lia|]. apply Z.lt_succ_r, Z.div_lt_upper_bound; lia.
Qed.

(** Writing limbs and reading the bytes. *)
Section Store.
Variables (h : list Z) (V : Z).
Hypothesis limb : forall i, (i < 11)%nat -> h !!! i = V / 2 ^ field i mod 2 ^ 21.
Hypothesis last_limb : h !!! 11%nat = V / 2 ^ field 11 mod 2 ^ 25.

Lemma byte_within i a (k : nat) : 0 <= i < 11 -> 0 <= a <= 13 -> 21 * i + a = 8 * Z.of_nat k -> u8 (Z.shiftr (h !!! Z.to_nat i) a) = V / 256 ^ Z.of_nat k mod 256.
Proof.
  intros Hi Ha E. rewrite limb by lia. unfold u8. change 256 with (2 ^ 8). rewrite field_field, <- Z.pow_mul_r by lia. do 3 f_equal. lia.
Qed.
Lemma byte_last a (k : nat) : 0 <= a <= 17 -> 231 + a = 8 * Z.of_nat k -> u8 (Z.shiftr (h !!! Z.to_nat 11) a) = V / 256 ^ Z.of_nat k mod 256.
Proof.
  intros Ha E. change (Z.to_nat 11) with 11%nat. rewrite last_limb by lia. unfold u8. change 256 with (2 ^ 8).
  rewrite field_field, <- Z.pow_mul_r by lia. do 3 f_equal. lia.
Qed.
Lemma byte_across i a b (k : nat) : 0 <= i < 11 -> 14 <= a <= 21 -> b = 21 - a -> 21 * i + a = 8 * Z.of_nat k ->
  u8 (Z.lor (Z.shiftr (h !!! Z.to_nat i) a) (Z.shiftl (h !!! Z.to_nat (i + 1)) b)) = V / 256 ^ Z.of_nat k mod 256.
Proof.
  intros Hi Ha -> E. rewrite (limb (Z.to_nat i)) by lia. assert (exists m, 21 <= m /\ h !!! Z.to_nat (i + 1) = V / 2 ^ (field (Z.to_nat i) + 21) mod 2 ^ m) as (m & Hm & ->).
  { destruct (decide (i = 10)) as [->|]; [exists 25; split; [lia|exact last_limb]|]. exists 21. split; [lia|]. rewrite limb by lia. do 3 f_equal. lia. }
  unfold u8. change 256 with (2 ^ 8). rewrite field_across, <- Z.pow_mul_r by lia. do 3 f_equal. lia.
Qed.

Lemma store_spec : store h = digits 256 32 V.
Proof.
  rewrite digits_seq by lia. unfold store. cbn [seq map].
  repeat lazymatch goal with
  | |- u8 (Z.lor _ _) = _ => apply byte_across; lia
  | |- u8 (Z.shiftr (h !!! Z.to_nat 11) _) = _ => apply byte_last; lia
  | |- u8 _ = _ => apply byte_within; lia
  | |- _ :: _ = _ :: _ => f_equal
  end; done.
Qed.
End Store.

Lemma store_digits l x z : Forall (is_digit base) l -> length l = 11%nat -> 0 <= x < 2 ^ 25 -> store (l ++ x :: z) = digits 256 32 (value base (l ++ [x])).
Proof.
  intros Hl Hn Hx. set (V := value base (l ++ [x])).
  assert (HV : V = value base l + 2 ^ field 11 * x) by (unfold V; rewrite value_app by lia; unfold zlen; rewrite Hn; cbn; lia).
  pose proof (value_bound base l ltac:(lia) Hl) as Hb. unfold zlen in Hb. rewrite Hn in Hb. change (base ^ Z.of_nat 11) with (2 ^ field 11) in Hb.
  apply store_spec.
  - intros i Hi. rewrite lookup_total_app_l by lia. rewrite <- (digits_value base l) at 1 by (done || lia). rewrite Hn, digits_seq by lia.
    rewrite list_lookup_total_alt, list_lookup_fmap, (lookup_seq_lt 0 11 i Hi). cbn [fmap option_fmap option_map default from_option id Nat.add].
    replace (base ^ Z.of_nat i) with (2 ^ field i) by (rewrite Nat2Z.inj_mul, Z.pow_mul_r by lia; done). rewrite HV.
    replace (2 ^ field 11 * x) with (2 ^ (21 * (10 - Z.of_nat i)) * x * base * 2 ^ field i) by
      (replace (2 ^ field 11) with (2 ^ (21 * (10 - Z.of_nat i)) * base * 2 ^ field i) by
         (change base with (2 ^ 21); rewrite <- !Z.pow_add_r by lia; f_equal; lia); ring).
    rewrite Z.div_add by lia. change (2 ^ 21) with base. rewrite Z.mod_add by lia. done.
  - rewrite lookup_total_app_r, Hn by lia. cbn [lookup_total Nat.sub list_lookup_total]. rewrite HV, Z.mul_comm, Z.div_add, Z.div_small, Z.mod_small by lia. lia.
Qed.

(** * The reduction *)

Notation digit_bounds := (0, base - 1).

(** What is computed of a program before [reduce_last]: it keeps the value modulo
    the order, does not overflow, ends with a value of less than 252 bits, and the
    next carries leave a quotient of [-1] or 0. *)
Definition reduces (n : nat) (steps : list step) (b : list (Z * Z)) : bool :=
  let w := powers base n in
  forallb (step_ok order w) steps &&
  match irun int64 steps b with
  | Some b1 =>
      (- 2 ^ 252 <=? wsum w (map fst b1)) && (wsum w (map snd b1) <? 2 ^ 252) &&
      bool_decide (irun int64 (map floored (seq 0 12)) b1 = Some (replicate 12 digit_bounds ++ (-1, 0) :: replicate (n - 13) (0, 0)))
  | None => false
  end.

Lemma powers_nonneg b n : 0 < b -> Forall (fun x => 0 <= x) (powers b n).
Proof. intros Hb. apply Forall_forall. intros x (i & -> & _)%list_elem_of_fmap. lia. Qed.
Lemma length_powers b n : length (powers b n) = n.
Proof. unfold powers. by rewrite length_map, length_seq. Qed.
Lemma inb_length b h : inb b h -> length h = length b.
Proof. intros H. symmetry. by eapply Forall2_length. Qed.
Lemma inb_zeros k z : inb (replicate k (0, 0)) z -> z = replicate k 0.
Proof.
  revert z. induction k as [|k IH]; intros z H; cbn in H; inversion H as [|? x ? l Hx Hl]; subst; [done|]. cbn. cbn in Hx. f_equal; [lia|by apply IH].
Qed.
Lemma inb_digits k l : inb (replicate k digit_bounds) l -> Forall (is_digit base) l /\ length l = k.
Proof.
  revert l. induction k as [|k IH]; intros l H; cbn in H; inversion H as [|? x ? l' Hx Hl]; subst; [done|]. destruct (IH _ Hl) as [H1 H2].
  cbn in Hx. split; [constructor; [unfold is_digit; lia|done]|cbn; by rewrite H2].
Qed.
Lemma value_zeros b k : value b (replicate k 0) = 0.
Proof. induction k as [|k IH]; [done|]. unfold value in *. cbn. rewrite IH. lia. Qed.

(** Limbs of which the first are digits and all after the next are 0. *)
Lemma inb_shape k p n h : inb (replicate k digit_bounds ++ p :: replicate n (0, 0)) h ->
  exists l x, h = l ++ x :: replicate n 0 /\ Forall (is_digit base) l /\ length l = k /\ p.1 <= x <= p.2 /\ value base h = value base l + base ^ Z.of_nat k * x.
Proof.
  intros (l & r & Hl & Hr & ->)%Forall2_app_inv_l. inversion Hr as [|? x ? z Hx Hz]; subst. apply inb_digits in Hl as [Hl Hk]. apply inb_zeros in Hz as ->.
  exists l, x. split_and!; [done|done|done|apply Hx..|]. rewrite value_app by lia. unfold zlen. rewrite Hk. f_equal. f_equal. unfold value at 1. cbn [foldr].
  change (foldr _ 0 (replicate n 0)) with (value base (replicate n 0)). rewrite value_zeros. lia.
Qed.

Lemma floored_ok n m : (S m < n)%nat -> forallb (step_ok 0 (powers base n)) (map floored (seq 0 (S m))) = true.
Proof.
  intros H. apply forallb_forall. intros s (i & <- & Hi)%in_map_iff. apply in_seq in Hi. unfold floored, step_ok. rewrite length_powers.
  assert (Hp : forall j, (j < n)%nat -> powers base n !!! j = base ^ Z.of_nat j).
  { intros j Hj. unfold powers. rewrite list_lookup_total_alt, list_lookup_fmap, (lookup_seq_lt 0 n j Hj). done. }
  rewrite !Hp by lia. rewrite Nat2Z.inj_succ, Z.pow_succ_r by lia. rewrite !andb_true_iff. split_and!; [done|by apply Nat.ltb_lt; lia..| |].
  - apply negb_true_iff, Nat.eqb_neq. lia.
  - unfold divides_b. cbn [Z.eqb]. apply Z.eqb_eq. change (2 ^ 21) with base. ring.
Qed.

Lemma reduce_last_bounds n : n = 13%nat \/ n = 24%nat ->
  irun int64 ([folded 12] ++ map floored (seq 0 11)) (replicate 12 digit_bounds ++ (-1, 0) :: replicate (n - 13) (0, 0)) =
  Some (replicate 11 digit_bounds ++ (-1, base) :: replicate (n - 12) (0, 0)).
Proof. intros [-> | ->]; vm_compute; reflexivity. Qed.

Lemma folded_12_exact n h h' : n = 13%nat \/ n = 24%nat -> length h = n -> run int64 [folded 12] h = Ok h' ->
  wsum (powers base n) h' = wsum (powers base n) h - h !!! 12%nat * order /\ length h' = n.
Proof.
  intros Hn Hl E. split.
  - unfold folded in E. set (terms := [_; _; _; _; _; _]) in E.
    rewrite (fold_wsum int64 (powers base n) 12 terms h h'); [|by rewrite length_powers|rewrite length_powers; lia|rewrite length_powers; destruct Hn as [-> | ->]; vm_compute; reflexivity|exact E].
    assert (X : terms_wsum (powers base n) terms - powers base n !!! 12%nat = - order) by (destruct Hn as [-> | ->]; vm_compute; reflexivity). rewrite X. lia.
  - destruct (run_wsum int64 (powers base n) order [folded 12] h h') as [_ L]; [by rewrite length_powers|destruct Hn as [-> | ->]; vm_compute; reflexivity|done|lia].
Qed.

(** The reduction: whatever program comes first, the bytes written are those of
    the value modulo the order. *)
Lemma reduce_spec n steps b h : n = 13%nat \/ n = 24%nat -> length b = n -> reduces n steps b = true -> inb b h ->
  exists h', run int64 (steps ++ reduce_last) h = Ok h' /\ store h' = digits 256 32 (value base h mod order).
Proof.
  intros Hn Hb Hr Hh. set (w := powers base n). pose proof (inb_length _ _ Hh) as Hlen. rewrite Hb in Hlen. unfold reduces in Hr. fold w in Hr.
  apply andb_prop in Hr as [Hok Hr]. destruct (irun int64 steps b) as [b1|] eqn:E1; [|done].
  apply andb_prop in Hr as [ [Hlo%Z.leb_le Hhi%Z.ltb_lt]%andb_prop E2%bool_decide_eq_true_1].
  destruct (irun_sound _ _ _ _ _ E1 Hh) as (h1 & R1 & Hh1). destruct (irun_sound _ _ _ _ _ E2 Hh1) as (h2 & R2 & Hh2).
  destruct (irun_sound _ _ _ _ _ (reduce_last_bounds n Hn) Hh2) as (h4 & R34 & Hh4).
  rewrite run_app in R34. apply bind_Ok in R34 as (h3 & R3 & R4).
  assert (Hw : forall h, length h = n -> wsum w h = value base h) by (intros; apply wsum_powers; lia).
  destruct (run_wsum int64 w order steps h h1) as [D1 L1]; [unfold w; by rewrite length_powers|done|done|].
  destruct (run_wsum int64 w 0 (map floored (seq 0 12)) h1 h2) as [D2 L2]; [unfold w; rewrite length_powers; lia|apply floored_ok; lia|done|].
  destruct (folded_12_exact n h2 h3 Hn ltac:(lia) R3) as [D3 L3].
  destruct (run_wsum int64 w 0 (map floored (seq 0 11)) h3 h4) as [D4 L4]; [unfold w; rewrite length_powers; lia|apply floored_ok; lia|done|].
  apply Z.divide_0_l in D2, D4. fold w in D3. rewrite !Hw in D1, D2, D3, D4 by lia.
  pose proof (inb_wsum w _ _ Hh1 (powers_nonneg base n ltac:(lia))) as B1. rewrite (Hw h1) in B1 by lia.
  apply inb_shape in Hh2 as (l2 & c & -> & Hl2 & Hk2 & Hc & V2). apply inb_shape in Hh4 as (l4 & x & -> & Hl4 & Hk4 & Hx & V4).
  rewrite lookup_total_app_r, Hk2 in D3 by lia. cbn [lookup_total Nat.sub list_lookup_total] in D3.
  pose proof (value_bound base l2 ltac:(lia) Hl2) as B2. pose proof (value_bound base l4 ltac:(lia) Hl4) as B4. unfold zlen in B2, B4. rewrite Hk2 in B2. rewrite Hk4 in B4.
  eexists. split; [unfold reduce_last; rewrite !run_app, R1; cbn [mbind outcome_bind]; rewrite run_app, R2; cbn [mbind outcome_bind]; rewrite run_app, R3; exact R4|].
  change (base ^ Z.of_nat 12) with (2 ^ 252) in *. change (base ^ Z.of_nat 11) with (2 ^ 231) in *. cbn [fst snd] in Hc, Hx.
  assert (Hc' : c = -1 \/ c = 0) by lia. assert (Hv : 0 <= value base l4 + 2 ^ 231 * x < order) by (unfold order in *; destruct Hc' as [-> | ->]; lia).
  rewrite store_digits; [|done|done|unfold order in Hv; lia]. f_equal. rewrite value_app by lia. unfold zlen. rewrite Hk4. unfold value at 2. cbn [foldr].
  change (base ^ Z.of_nat 11) with (2 ^ 231). rewrite Z.mul_0_r, Z.add_0_r. destruct D1 as [q Dq].
  apply (Z.mod_unique _ _ (- q + c)); [by left|]. lia.
Qed.

(** * The functions *)

Definition scalar (s : list Z) : Prop := Forall is_u8 s /\ length s = 32%nat.
Definition encode (x : Z) : list Z := digits 256 32 (x mod order).
(** Limbs of 32 bytes, with and without the thirteenth limb. *)
Definition bounds32 : list (Z * Z) := limb_bounds 11 (2 ^ 25 - 1).

Lemma value_le b l k : 0 < b -> value b (l ++ replicate k 0) = value b l.
Proof. intros Hb. rewrite value_app, value_zeros by done. lia. Qed.

Lemma scalar_bound s : scalar s -> 0 <= value 256 s < 2 ^ 256.
Proof. intros [Hs Hl]. pose proof (value_bound 256 s ltac:(lia) Hs) as H. unfold zlen in H. by rewrite Hl in H. Qed.
Lemma limbs12_spec a : scalar a -> value base (limbs12 a) = value 256 a /\ inb bounds32 (limbs12 a).
Proof.
  intros Ha. pose proof (scalar_bound a Ha) as Hv. destruct Ha as [Ha Hl]. rewrite limbs12_cut by done. split; [apply value_cut|]. apply cut_bounds.
  change ((2 ^ 25 - 1 + 1) * 2 ^ field 11) with (2 ^ 256). done.
Qed.
Lemma limbs24_spec s : Forall is_u8 s -> length s = 64%nat -> value base (limbs24 s) = value 256 s /\ inb (limb_bounds 23 (2 ^ 29 - 1)) (limbs24 s).
Proof.
  intros Hs Hl. rewrite limbs24_cut by done. split; [apply value_cut|]. apply cut_bounds. change ((2 ^ 29 - 1 + 1) * 2 ^ field 23) with (2 ^ 512).
  pose proof (value_bound 256 s ltac:(lia) Hs) as H. unfold zlen in H. rewrite Hl in H. change (256 ^ Z.of_nat 64) with (2 ^ 512) in H. done.
Qed.

Lemma sc_reduce_digits s : Forall is_u8 s -> length s = 64%nat -> sc_reduce s = Ok (encode (value 256 s)).
Proof.
  intros Hs Hl. destruct (limbs24_spec s Hs Hl) as [V B]. unfold sc_reduce.
  destruct (reduce_spec 24 reduce_24 (limb_bounds 23 (2 ^ 29 - 1)) _ ltac:(by right) ltac:(done) ltac:(vm_compute; reflexivity) B) as (h & -> & E). cbn. by rewrite E, V.
Qed.

(** [reduce_12] with a list of bounds for twelve limbs. *)
Lemma reduce_12_spec b h : length b = 12%nat -> reduces 13 reduce_12 (b ++ [(0, 0)]) = true -> inb b h ->
  (h' ← run int64 (reduce_12 ++ reduce_last) (h ++ [0]); Ok (store h')) = Ok (encode (value base h)).
Proof.
  intros Hl Hr Hb. destruct (reduce_spec 13 reduce_12 (b ++ [(0, 0)]) (h ++ [0]) ltac:(by left) ltac:(rewrite length_app; cbn; lia) Hr) as (h' & -> & E).
  { apply Forall2_app; [done|]. by repeat constructor. }
  cbn [mbind outcome_bind]. rewrite E. change [0] with (replicate 1 0). unfold encode. by rewrite value_le by lia.
Qed.

Lemma sc_reduce32_digits s : scalar s -> sc_reduce32 s = Ok (encode (value 256 s)).
Proof. intros Hs. destruct (limbs12_spec s Hs) as [V B]. unfold sc_reduce32. rewrite (reduce_12_spec bounds32 _ ltac:(done) ltac:(vm_compute; reflexivity) B). by rewrite V. Qed.

(** Sums and differences of limbs. *)
Lemma zip_chk_spec f c a b : (forall x y, f x y = x + c * y) -> c = 1 \/ c = -1 -> inb bounds32 a -> inb bounds32 b ->
  exists s, zip_chk f a b = Ok s /\ value base s = value base a + c * value base b /\
    inb (map (fun p => (p.1 + Z.min (c * p.1) (c * p.2), p.2 + Z.max (c * p.1) (c * p.2))) bounds32) s.
Proof.
  intros Hf Hc Ha Hb. set (B := bounds32) in *. assert (HB : Forall (fun p => 0 <= p.1 /\ p.2 < 2 ^ 32) B) by (unfold B, bounds32, limb_bounds; cbn; repeat constructor; cbn; lia).
  clearbody B. revert b Hb HB. induction Ha as [|p x B a Hx Ha IH]; intros b Hb HB; inversion Hb as [|? y ? b' Hy Hb']; subst; [exists []; cbn; split_and!; [done|lia|constructor]|].
  inversion HB as [|? ? [H1 H2] HB']; subst. destruct (IH b' Hb' HB') as (s & E & V & I). exists (f x y :: s). cbn. rewrite Hf.
  rewrite chk_fits by (unfold int64; destruct Hc as [-> | ->]; lia). cbn. rewrite E.
  split; [done|]. unfold value in *. cbn. split; [rewrite V; lia|]. constructor; [cbn; destruct Hc as [-> | ->]; lia|done].
Qed.

Lemma sc_add_digits a b : scalar a -> scalar b -> sc_add a b = Ok (encode (value 256 a + value 256 b)).
Proof.
  intros Ha Hb. destruct (limbs12_spec a Ha) as [Va Ba]. destruct (limbs12_spec b Hb) as [Vb Bb]. destruct (zip_chk_spec Z.add 1 _ _ ltac:(lia) ltac:(lia) Ba Bb) as (s & E & V & I).
  unfold sc_add. rewrite E. cbn [mbind outcome_bind]. erewrite reduce_12_spec; [|..|exact I]; [|done|vm_compute; reflexivity]. rewrite V, Va, Vb. repeat f_equal; lia.
Qed.
Lemma sc_sub_digits a b : scalar a -> scalar b -> sc_sub a b = Ok (encode (value 256 a - value 256 b)).
Proof.
  intros Ha Hb. destruct (limbs12_spec a Ha) as [Va Ba]. destruct (limbs12_spec b Hb) as [Vb Bb]. destruct (zip_chk_spec Z.sub (-1) _ _ ltac:(lia) ltac:(lia) Ba Bb) as (s & E & V & I).
  unfold sc_sub. rewrite E. cbn [mbind outcome_bind]. erewrite reduce_12_spec; [|..|exact I]; [|done|vm_compute; reflexivity]. rewrite V, Va, Vb. repeat f_equal; lia.
Qed.

(** Sums of products of limbs. *)
Definition dot (l : list (Z * Z)) : Z := sum_Z (map (fun p => p.1 * p.2) l).
Definition small (x : Z) : Prop := 0 <= x < 2 ^ 25.
Lemma dot64_spec l acc : Forall (fun p => small p.1 /\ small p.2) l -> 0 <= acc -> acc + zlen l * 2 ^ 50 < int64 ->
  dot64 acc l = Ok (acc + dot l) /\ 0 <= dot l <= zlen l * 2 ^ 50.
Proof.
  intros Hl. revert acc. induction Hl as [|[x y] l [Hx Hy] Hl IH]; intros acc Ha Hb; cbn [dot64]; [change (zlen []) with 0; unfold dot; cbn [map sum_Z foldr]; split; [f_equal; lia|lia]|].
  rewrite zlen_cons in *. unfold small in Hx, Hy. cbn in Hx, Hy. assert (0 <= x * y <= 2 ^ 50) by nia. pose proof (zlen_nonneg l). unfold int64 in Hb.
  rewrite chk_fits by (unfold int64; lia). cbn [mbind outcome_bind]. rewrite chk_fits by (unfold int64; lia). cbn [mbind outcome_bind].
  destruct (IH (acc + x * y) ltac:(lia) ltac:(unfold int64; lia)) as [-> Hd]. unfold dot in *. cbn [map sum_Z foldr fst snd]. fold (sum_Z (map (fun p : Z * Z => p.1 * p.2) l)).
  split; [f_equal; lia|lia].
Qed.

Definition product_limb (a b c : list Z) (k : nat) : Z := if (k =? 23)%nat then 0 else (if (k <? 12)%nat then c !!! k else 0) - dot (products a b k).

Lemma inb32_small a i : inb bounds32 a -> small (a !!! i).
Proof.
  intros H. destruct (bounds32 !! i) as [p|] eqn:Ep.
  - pose proof (inb_nth _ _ H i p Ep) as Hp. unfold bounds32, limb_bounds in Ep. apply list_elem_of_lookup_2, elem_of_app in Ep as [[-> _]%elem_of_replicate| ->%list_elem_of_singleton];
      unfold small; cbn in Hp; lia.
  - apply lookup_ge_None in Ep. rewrite <- (inb_length _ _ H) in Ep. rewrite list_lookup_total_alt, lookup_ge_None_2 by done. unfold small. cbn. lia.
Qed.

Lemma length_products a b k : (k < 23)%nat -> zlen (products a b k) <= 12.
Proof. intros Hk. unfold zlen, products. rewrite length_map, length_seq. lia. Qed.

Lemma mulsub_limb_spec a b c k : inb bounds32 a -> inb bounds32 b -> inb bounds32 c -> (k < 24)%nat ->
  mulsub_limb a b c k = Ok (product_limb a b c k) /\ - 2 ^ 54 <= product_limb a b c k <= 2 ^ 25.
Proof.
  intros Ha Hb Hc Hk. unfold mulsub_limb, product_limb. destruct (k =? 23)%nat eqn:E; [split; [done|lia]|]. apply Nat.eqb_neq in E.
  assert (Hs : Forall (fun p => small p.1 /\ small p.2) (products a b k)).
  { apply Forall_forall. intros p (i & -> & _)%list_elem_of_fmap. split; by apply inb32_small. }
  pose proof (length_products a b k ltac:(lia)) as Hl. destruct (dot64_spec _ 0 Hs ltac:(lia) ltac:(unfold int64; lia)) as [-> Hd]. cbn [mbind outcome_bind].
  assert (0 <= (if (k <? 12)%nat then c !!! k else 0) < 2 ^ 25) by (destruct (k <? 12)%nat; [apply (inb32_small c k Hc)|lia]).
  rewrite chk_fits by (unfold int64; lia). split; [do 2 f_equal|]; lia.
Qed.

Definition product_bounds : list (Z * Z) := replicate 23 (- 2 ^ 54, 2 ^ 25) ++ [(0, 0)].
Lemma mulsub_limbs_spec a b c : inb bounds32 a -> inb bounds32 b -> inb bounds32 c ->
  mulsub_limbs a b c = Ok (map (product_limb a b c) (seq 0 24)) /\ inb product_bounds (map (product_limb a b c) (seq 0 24)).
Proof.
  intros Ha Hb Hc. split.
  - unfold mulsub_limbs. assert (H : Forall (fun k => (k < 24)%nat) (seq 0 24)) by (apply Forall_forall; intros k Hk%elem_of_seq; lia).
    induction H as [|k l Hk Hl IH]; [done|]. cbn [foldr map]. destruct (mulsub_limb_spec a b c k Ha Hb Hc Hk) as [-> _]. by rewrite IH.
  - change (seq 0 24) with (seq 0 23 ++ [23%nat]). rewrite map_app. apply Forall2_app; [|repeat constructor; cbn; lia].
    apply Forall2_same_length_lookup. rewrite length_replicate, length_map, length_seq. split; [done|]. intros i p y [-> _]%lookup_replicate Hy.
    apply list_elem_of_lookup_2, list_elem_of_fmap in Hy as (k & -> & Hk%elem_of_seq). cbn [fst snd]. apply (mulsub_limb_spec a b c k); (done || lia).
Qed.

Lemma product_value a b c : length a = 12%nat -> length b = 12%nat -> length c = 12%nat ->
  value base (map (product_limb a b c) (seq 0 24)) = value base c - value base a * value base b.
Proof.
  intros Ha Hb Hc. do 12 (destruct a as [|? a]; [done|]). do 12 (destruct b as [|? b]; [done|]). do 12 (destruct c as [|? c]; [done|]).
  destruct a, b, c; [|done..]. cbv [value map seq product_limb products dot sum_Z foldr Nat.eqb Nat.ltb Nat.leb Nat.sub Nat.min Nat.add lookup_total list_lookup_total fst snd]. ring.
Qed.

Lemma sc_mulsub_digits a b c : scalar a -> scalar b -> scalar c -> sc_mulsub a b c = Ok (encode (value 256 c - value 256 a * value 256 b)).
Proof.
  intros Ha Hb Hc. destruct (limbs12_spec a Ha) as [Va Ba]. destruct (limbs12_spec b Hb) as [Vb Bb]. destruct (limbs12_spec c Hc) as [Vc Bc].
  destruct (mulsub_limbs_spec _ _ _ Ba Bb Bc) as [E I]. unfold sc_mulsub. rewrite E. cbn [mbind outcome_bind]. rewrite app_assoc.
  destruct (reduce_spec 24 (reduce_products ++ reduce_24) product_bounds _ ltac:(by right) ltac:(done) ltac:(vm_compute; reflexivity) I) as (h & -> & Eh).
  cbn [mbind outcome_bind]. rewrite Eh, product_value by done. by rewrite Va, Vb, Vc.
Qed.

(** * Comparing with the order *)

Lemma signum_sgn a : - int64 < a < int64 -> signum a = Z.sgn a.
Proof.
  unfold int64, signum. intros H. rewrite !Z.shiftr_div_pow2 by lia. destruct (Z.lt_trichotomy a 0) as [Ha|[-> |Ha] ]; [|done|].
  - rewrite Z.sgn_neg by done. rewrite (Z.div_small (- a)) by lia. assert (a / 2 ^ 63 = -1) as -> by (symmetry; apply (Z.div_unique _ _ _ (a + 2 ^ 63)); lia). lia.
  - rewrite Z.sgn_pos by done. rewrite (Z.div_small a) by lia. assert (- a / 2 ^ 63 = -1) as -> by (symmetry; apply (Z.div_unique _ _ _ (- a + 2 ^ 63)); lia). lia.
Qed.

(** The signs of the differences of the digits, read as a number in base 2, have
    the sign of the difference of the numbers. *)
Definition signs (d s : list Z) : Z := foldr (fun p acc => Z.sgn (p.1 - p.2) + 2 * acc) 0 (zip d s).
Lemma signs_sgn b d s : 1 < b -> Forall (is_digit b) d -> Forall (is_digit b) s -> length d = length s -> Z.sgn (signs d s) = Z.sgn (value b d - value b s).
Proof.
  intros Hb Hd. revert s. induction Hd as [|x d Hx Hd IH]; intros [|y s] Hs Hl; [done..|]. inversion Hs as [|? ? Hy Hs']; subst.
  specialize (IH s Hs' ltac:(cbn in Hl; lia)). unfold signs, value in *. cbn [zip zip_with foldr fst snd]. fold (signs d s). fold (value b d). fold (value b s).
  fold (signs d s) in IH. fold (value b d) in IH. fold (value b s) in IH. unfold is_digit in Hx, Hy.
  replace (x + b * value b d - (y + b * value b s)) with ((x - y) + b * (value b d - value b s)) by ring. revert IH. generalize (signs d s) (value b d - value b s). intros S V IH.
  destruct (Z.lt_trichotomy V 0) as [HV|[-> |HV] ].
  - rewrite (Z.sgn_neg V HV) in IH. apply Z.sgn_neg_iff in IH. rewrite (Z.sgn_neg (_ + b * V)) by nia. apply Z.sgn_neg. lia.
  - apply Z.sgn_null_iff in IH as ->. rewrite !Z.mul_0_r, !Z.add_0_r. apply Z.sgn_sgn.
  - rewrite (Z.sgn_pos V HV) in IH. apply Z.sgn_pos_iff in IH. rewrite (Z.sgn_pos (_ + b * V)) by nia. apply Z.sgn_pos. lia.
Qed.
Lemma signs_bound d s : length d = length s -> - 2 ^ zlen d < signs d s < 2 ^ zlen d.
Proof.
  revert s. induction d as [|x d IH]; intros [|y s] Hl; [change (zlen []) with 0; cbn; lia|done..|]. specialize (IH s ltac:(cbn in Hl; lia)). unfold signs. cbn [zip zip_with foldr fst snd]. fold (signs d s).
  rewrite zlen_cons, Z.pow_add_r by (pose proof (zlen_nonneg d); lia). lia.
Qed.

(** The digits of [order - 1] in base 2^32, and of a scalar. *)
Definition last_scalar : list Z := [1559614444; 1477600026; 2734136534; 350157278; 0; 0; 0; 268435456].
Definition words (s : list Z) : list Z := map (fun i => load_4 s (4 * i)) (seq 0 8).
Lemma words_digits s : scalar s -> words s = digits (2 ^ 32) 8 (value 256 s).
Proof.
  intros [Hs Hl]. rewrite digits_seq by lia. apply map_ext_in. intros i Hi%in_seq. rewrite load_4_spec by (done || lia). f_equal. f_equal.
  rewrite <- Z.pow_mul_r by lia. f_equal. lia.
Qed.

Lemma sc_check_signs s : scalar s -> sc_check s = Z.shiftr (signs last_scalar (words s)) 8.
Proof.
  intros Hs. assert (Hw : forall i, (i < 8)%nat -> 0 <= load_4 s (4 * i) < 2 ^ 32).
  { intros i Hi. destruct Hs as [Hs Hl]. rewrite load_4_spec by (done || lia). apply Z.mod_pos_bound. lia. }
  unfold sc_check, signs, words, last_scalar. cbn [seq map zip zip_with foldr fst snd].
  rewrite !signum_sgn by (unfold int64; (pose proof (Hw 0%nat ltac:(lia)); pose proof (Hw 1%nat ltac:(lia)); pose proof (Hw 2%nat ltac:(lia)); pose proof (Hw 3%nat ltac:(lia));
    pose proof (Hw 4%nat ltac:(lia)); pose proof (Hw 5%nat ltac:(lia)); pose proof (Hw 6%nat ltac:(lia)); pose proof (Hw 7%nat ltac:(lia)); lia)).
  f_equal. rewrite !Z.shiftl_mul_pow2 by lia. rewrite (Z.sub_0_l (load_4 s (4 * 4))), (Z.sub_0_l (load_4 s (4 * 5))), (Z.sub_0_l (load_4 s (4 * 6))). ring.
Qed.

Lemma sc_check_order s : scalar s -> sc_check s = if value 256 s <? order then 0 else -1.
Proof.
  intros Hs. rewrite sc_check_signs by done. assert (Hl : length last_scalar = length (words s)) by done.
  pose proof (signs_bound _ _ Hl) as Hb. change (2 ^ zlen last_scalar) with 256 in Hb. pose proof (scalar_bound s Hs) as Hv.
  assert (E : Z.sgn (signs last_scalar (words s)) = Z.sgn (order - 1 - value 256 s)).
  { rewrite (signs_sgn (2 ^ 32)); [|lia| | |done].
    - rewrite words_digits, value_digits by (done || lia). done.
    - unfold last_scalar, is_digit. repeat constructor; lia.
    - rewrite words_digits by done. apply digits_ok. lia. }
  rewrite Z.shiftr_div_pow2 by lia. change (2 ^ 8) with 256. destruct (Z.ltb_spec (value 256 s) order).
  - apply Z.div_small. lia.
  - symmetry. apply (Z.div_unique _ _ _ (signs last_scalar (words s) + 256)); lia.
Qed.

Lemma lor_all s acc : 0 <= acc < 256 -> Forall is_u8 s -> 0 <= foldl Z.lor acc s < 256 /\ (foldl Z.lor acc s = 0 <-> acc = 0 /\ Forall (eq 0) s).
Proof.
  revert acc. induction s as [|x s IH]; intros acc Ha Hs; cbn; [by rewrite Forall_nil; intuition|]. inversion Hs as [|? ? Hx Hs']; subst. unfold is_u8 in Hx.
  assert (Hl : 0 <= Z.lor acc x < 2 ^ 8).
  { split; [apply Z.lor_nonneg; lia|]. destruct (decide (Z.lor acc x = 0)) as [-> |Hn]; [lia|]. pose proof (proj2 (Z.lor_nonneg acc x) ltac:(lia)).
    apply Z.log2_lt_pow2; [lia|]. rewrite Z.log2_lor by lia. apply Z.max_lub_lt; [destruct (decide (acc = 0)) as [-> |]|destruct (decide (x = 0)) as [-> |] ]; (done || apply Z.log2_lt_pow2; lia). }
  destruct (IH (Z.lor acc x) Hl Hs') as [H1 H2]. split; [done|]. rewrite H2, Z.lor_eq_0_iff, Forall_cons. split; [intros [ [-> ->] ?]; done|intros (-> & <- & ?); done].
Qed.
Lemma value_zero s : Forall is_u8 s -> value 256 s = 0 <-> Forall (eq 0) s.
Proof.
  induction 1 as [|x s Hx Hs IH]; [done|]. pose proof (value_bound 256 s ltac:(lia) Hs) as Hb. unfold value in *. cbn [foldr]. rewrite Forall_cons. unfold is_u8 in Hx. rewrite <- IH. lia.
Qed.
Lemma sc_isnonzero_spec s : Forall is_u8 s -> sc_isnonzero s = if value 256 s =? 0 then 0 else 1.
Proof.
  intros Hs. destruct (lor_all s 0 ltac:(lia) Hs) as [H1 H2]. unfold sc_isnonzero. rewrite Z.shiftr_div_pow2 by lia. change (2 ^ 8) with 256. set (x := foldl Z.lor 0 s) in *.
  pose proof (value_zero s Hs) as H3. destruct (Z.eqb_spec (value 256 s) 0) as [E|E].
  - assert (x = 0) as -> by tauto. done.
  - assert (x <> 0) by tauto. rewrite Z.div_small by lia. done.
Qed.

(** The functions on scalars compute modulo the order of the group: for any
    bytes, [sc_reduce] of 64 and [sc_reduce32] of 32 bytes, [sc_add], [sc_sub] and
    [sc_mulsub] neither overflow an [int64_t] on the way nor return anything but
    the 32 bytes of the one number below the order which is congruent to the input,
    the sum, the difference, or [c - a * b]. *)
Theorem scalar_functions_exact s a b c : Forall is_u8 s -> length s = 64%nat -> scalar a -> scalar b -> scalar c ->
  sc_reduce s = Ok (digits 256 32 (value 256 s mod order)) /\
  sc_reduce32 a = Ok (digits 256 32 (value 256 a mod order)) /\
  sc_add a b = Ok (digits 256 32 ((value 256 a + value 256 b) mod order)) /\
  sc_sub a b = Ok (digits 256 32 ((value 256 a - value 256 b) mod order)) /\
  sc_mulsub a b c = Ok (digits 256 32 ((value 256 c - value 256 a * value 256 b) mod order)).
Proof.
  intros Hs Hl Ha Hb Hc. split_and!; [by apply sc_reduce_digits|by apply sc_reduce32_digits|by apply sc_add_digits|by apply sc_sub_digits|by apply sc_mulsub_digits].
Qed.
Lemma scalar_functions_exact_witness :
  sc_reduce (replicate 64 255) = Ok (digits 256 32 ((2 ^ 512 - 1) mod order)) /\
  sc_mulsub (replicate 32 255) (replicate 32 254) (replicate 32 1) = Ok (digits 256 32 ((value 256 (replicate 32 1) - (2 ^ 256 - 1) * value 256 (replicate 32 254)) mod order)).
Proof.
  assert (H : forall n x, 0 <= x < 256 -> Forall is_u8 (replicate n x)) by (intros n x Hx; by apply Forall_replicate).
  assert (HS : forall x, 0 <= x < 256 -> scalar (replicate 32 x)) by (intros x Hx; split; [by apply H|done]).
  destruct (scalar_functions_exact (replicate 64 255) (replicate 32 255) (replicate 32 254) (replicate 32 1) (H 64%nat 255 ltac:(lia)) eq_refl (HS 255 ltac:(lia)) (HS 254 ltac:(lia)) (HS 1 ltac:(lia)))
    as (E1 & _ & _ & _ & E2).
  split; [exact E1|exact E2].
Defined.

(** [sc_check] accepts a scalar exactly when it is below the order of the
    group: it returns 0 then and -1 otherwise, comparing all words at once without
    branches.  So exactly the results of the functions above pass it. *)
Theorem sc_check_canonical s : scalar s -> (sc_check s = 0 <-> value 256 s < order) /\ (sc_check s = 0 \/ sc_check s = -1) /\ (sc_check s = 0 <-> sc_reduce32 s = Ok s).
Proof.
  intros Hs. rewrite sc_check_order by done. rewrite sc_reduce32_digits by done. pose proof (scalar_bound s Hs). destruct Hs as [Hs Hl].
  destruct (Z.ltb_spec (value 256 s) order) as [H1|H1].
  - split_and!; [done|by left|]. split; [|done]. intros _. unfold encode. rewrite Z.mod_small by lia. rewrite <- Hl. by rewrite digits_value.
  - split_and!; [lia|by right|]. split; [done|]. intros [= E]. apply (f_equal (value 256)) in E. unfold encode in E.
    pose proof (Z.mod_pos_bound (value 256 s) order ltac:(unfold order; lia)) as Hm. rewrite value_digits in E by (unfold order in *; lia). lia.
Qed.
Lemma sc_check_canonical_witness : sc_check (digits 256 32 (order - 1)) = 0 /\ sc_check (digits 256 32 order) = -1.
Proof.
  assert (HS : forall x, scalar (digits 256 32 x)) by (intros x; split; [apply (digits_ok 256); lia|apply length_digits]).
  split.
  - apply (sc_check_canonical (digits 256 32 (order - 1)) (HS _)). vm_compute. done.
  - destruct (sc_check_canonical (digits 256 32 order) (HS _)) as (H1 & [H2|H2] & _); [|done]. apply H1 in H2. by vm_compute in H2.
Defined.
