(* ===== verification/Recoding.v ===== *)
(** Signed recodings of scalars in [crypto/crypto-ops.c]: the sliding windows of
    [slide] and the radix-16 digits of [ge_scalarmult] and [ge_scalarmult_base],
    and that the digits keep the value of the scalar. *)
From S2P Require Import Prelude IntUtil Limbs ScalarOps.

(** The conversion to [signed char]. *)
Definition i8 (x : Z) : Z := (x + 128) mod 256 - 128.
Lemma i8_small x : -128 <= x <= 127 -> i8 x = x.
Proof. intros H. unfold i8. rewrite Z.mod_small; lia. Qed.

(** * Sliding windows *)

Definition slide_bits (a : list Z) : list Z :=
  map (fun i => Z.land 1 (Z.shiftr (a !!! (i / 8)%nat) (Z.of_nat (i mod 8)))) (seq 0 256).

(** [for (k = i + b; k < 256; ++k)]; [n] bounds the rounds. *)
Fixpoint slide_carry (n k : nat) (r : list Z) : list Z :=
  match n with
  | O => r
  | S n => if (k <? 256)%nat then (if r !!! k =? 0 then <[k := 1]> r else slide_carry n (S k) (<[k := 0]> r)) else r
  end.

(** [for (b = 1; b <= 6 && i + b < 256; ++b)], from [b] on. *)
Fixpoint slide_window (n i b : nat) (r : list Z) : list Z :=
  match n with
  | O => r
  | S n =>
      if (b <=? 6)%nat && (i + b <? 256)%nat then
        let x := r !!! i in
        let y := Z.shiftl (r !!! (i + b)%nat) (Z.of_nat b) in
        if r !!! (i + b)%nat =? 0 then slide_window n i (S b) r
        else if x + y <=? 15 then slide_window n i (S b) (<[(i + b)%nat := 0]> (<[i := i8 (x + y)]> r))
        else if -15 <=? x - y then slide_window n i (S b) (slide_carry 256 (i + b) (<[i := i8 (x - y)]> r))
        else r
      else r
  end.
Definition slide_step (r : list Z) (i : nat) : list Z := if r !!! i =? 0 then r else slide_window 7 i 1 r.
Definition slide (a : list Z) : list Z := foldl slide_step (slide_bits a) (seq 0 256).

(** The bits of the scalar. *)
Lemma slide_bits_digits a : scalar a -> slide_bits a = digits 2 256 (value 256 a).
Proof.
  intros [Ha Hl]. rewrite digits_seq by lia. unfold slide_bits. apply map_ext_in. intros i Hi%in_seq. set (v := value 256 a).
  assert (E : a !!! (i / 8)%nat = v / 2 ^ (8 * Z.of_nat (i / 8)) mod 2 ^ 8).
  { rewrite <- (digits_value 256 a) at 1 by (lia || done). rewrite digits_seq, Hl by lia. fold v. assert (i / 8 < 32)%nat by (apply Nat.Div0.div_lt_upper_bound; lia).
    apply list_lookup_total_correct. rewrite list_lookup_fmap, lookup_seq_lt by lia. cbn [fmap option_fmap option_map]. rewrite Nat.add_0_l. by rewrite (Z.pow_mul_r 2 8) by lia. }
  pose proof (Nat.mod_upper_bound i 8 ltac:(lia)). rewrite E, Z.land_comm. change 1 with (Z.ones 1) at 1. rewrite Z.land_ones, Z.shiftr_div_pow2 by lia. change (2 ^ 1) with 2.
  rewrite <- !Z.testbit_spec' by lia. f_equal. rewrite Z.mod_pow2_bits_low, Z.div_pow2_bits by lia. f_equal. pose proof (Nat.div_mod_eq i 8). lia.
Qed.

Definition is_bit : Z -> Prop := is_digit 2.
Lemma value_cons b x l : value b (x :: l) = x + b * value b l.
Proof. done. Qed.

(** A carry into the bits [w] adds 1 to their value, unless they are all ones. *)
Lemma slide_carry_spec n p w : length (p ++ w) = 256%nat -> (length w <= n)%nat -> Forall is_bit w -> value 2 w + 1 < 2 ^ zlen w ->
  exists w', slide_carry n (length p) (p ++ w) = p ++ w' /\ Forall is_bit w' /\ length w' = length w /\ value 2 w' = value 2 w + 1.
Proof.
  revert p w. induction n as [|n IH]; intros p w Hl Hn Hw Hv.
  { destruct w; [by vm_compute in Hv|cbn in Hn; lia]. }
  destruct w as [|x w]; [by vm_compute in Hv|]. cbn [slide_carry]. rewrite length_app in Hl. cbn [length] in *. rewrite (proj2 (Nat.ltb_lt _ _)) by lia.
  rewrite lookup_total_app_r, Nat.sub_diag by lia. cbn [lookup_total list_lookup_total]. inversion_clear Hw as [|? ? Hx Hw']. rewrite value_cons in *. unfold is_bit, is_digit in Hx.
  destruct (Z.eqb_spec x 0) as [-> |Hx0]; rewrite insert_app_r_alt, Nat.sub_diag by lia; cbn [list_insert].
  - exists (1 :: w). split_and!; [done|by constructor|done|rewrite value_cons; lia].
  - assert (x = 1) as -> by lia. rewrite zlen_cons, Z.pow_add_r in Hv by (pose proof (zlen_nonneg w); lia). destruct (IH (p ++ [0]) w) as (w' & E & Hb & Hlen & Hval); [rewrite !length_app; cbn [length]; lia|lia|done|lia|].
    exists (0 :: w'). rewrite length_app in E. cbn [length] in E. rewrite Nat.add_1_r, <- !app_assoc in E. cbn [app] in E. split_and!; [exact E|by constructor|cbn [length]; lia|rewrite value_cons; lia].
Qed.

(** A window: the entry [x] at [i] is odd and at most 15, what was taken from the
    bits above it is zero, and the bits left are the rest of the value. *)
Record window (V : Z) (i : nat) (p : list Z) (x : Z) (b : nat) (w : list Z) : Prop := {
  w_at : length p = i;
  w_len : (i + b + length w = 256)%nat;
  w_b : (0 < b)%nat;
  w_odd : x mod 2 = 1;
  w_small : -15 <= x <= 15;
  w_bits : Forall is_bit w;
  w_value : x + 2 ^ Z.of_nat b * value 2 w = V;
  w_bound : value 2 w <= 2 ^ (255 - Z.of_nat (i + b)) }.
Definition laid (p : list Z) (x : Z) (b : nat) (w : list Z) : list Z := p ++ x :: replicate (b - 1) 0 ++ w.

Lemma laid_at p x b w : laid p x b w !!! length p = x.
Proof. unfold laid. rewrite lookup_total_app_r, Nat.sub_diag by lia. done. Qed.
Lemma laid_put p x y b w : <[length p := y]> (laid p x b w) = laid p y b w.
Proof. unfold laid. rewrite insert_app_r_alt, Nat.sub_diag by lia. done. Qed.
Lemma laid_split p x b w : laid p x b w = (p ++ x :: replicate (b - 1) 0) ++ w.
Proof. unfold laid. by rewrite <- app_assoc. Qed.
Lemma laid_length p x b : (0 < b)%nat -> length (p ++ x :: replicate (b - 1) 0) = (length p + b)%nat.
Proof. intros. rewrite length_app. cbn [length]. rewrite length_replicate. lia. Qed.
Lemma laid_next p x b y w : (0 < b)%nat -> laid p x b (y :: w) !!! (length p + b)%nat = y.
Proof. intros H. rewrite laid_split, lookup_total_app_r; rewrite laid_length by done; [|lia]. by rewrite Nat.sub_diag. Qed.
Lemma laid_put_next p x b y z w : (0 < b)%nat -> <[(length p + b)%nat := z]> (laid p x b (y :: w)) = laid p x b (z :: w).
Proof. intros H. rewrite laid_split, insert_app_r_alt; rewrite laid_length by done; [|lia]. rewrite Nat.sub_diag. by rewrite laid_split. Qed.
Lemma laid_skip p x b w : (0 < b)%nat -> laid p x b (0 :: w) = laid p x (S b) w.
Proof.
  intros H. unfold laid. do 2 f_equal. replace (S b - 1)%nat with (b - 1 + 1)%nat by lia. rewrite replicate_add. by rewrite <- app_assoc.
Qed.

Lemma window_skip V i p x b w : window V i p x b (0 :: w) -> window V i p x (S b) w.
Proof.
  intros [? Hl ? ? ? Hw Hv Hb]. inversion_clear Hw. cbn [length] in Hl. rewrite value_cons in *. split; try done; try lia.
  - rewrite Nat2Z.inj_succ, Z.pow_succ_r by lia. lia.
  - replace (255 - Z.of_nat (i + b)) with (Z.succ (255 - Z.of_nat (i + S b))) in Hb by lia. destruct (decide (0 <= 255 - Z.of_nat (i + S b))); [rewrite Z.pow_succ_r in Hb by lia; lia|].
    assert (w = []) as -> by (destruct w; [done|cbn [length] in *; lia]). unfold value. cbn [foldr]. apply Z.pow_nonneg. lia.
Qed.

Lemma pow_even b : (0 < b)%nat -> exists c, 2 ^ Z.of_nat b = 2 * c.
Proof. intros H. exists (2 ^ Z.of_nat (b - 1)). rewrite <- Z.pow_succ_r by lia. f_equal. lia. Qed.
Lemma odd_add x b : (0 < b)%nat -> x mod 2 = 1 -> (x + 2 ^ Z.of_nat b) mod 2 = 1 /\ (x - 2 ^ Z.of_nat b) mod 2 = 1.
Proof. intros [c ->]%pow_even H. split; [rewrite Z.mul_comm, Z.mod_add by lia; done|]. replace (x - 2 * c) with (x + (- c) * 2) by lia. by rewrite Z.mod_add. Qed.

Lemma window_absorb V i p x b w : window V i p x b (1 :: w) -> x + 2 ^ Z.of_nat b <= 15 -> window V i p (x + 2 ^ Z.of_nat b) b (0 :: w).
Proof.
  intros [? ? ? ? ? Hw Hv Hb] H. inversion_clear Hw. rewrite value_cons in *. pose proof (Z.pow_nonneg 2 (Z.of_nat b) ltac:(lia)). split; try done; try lia; [by apply odd_add|by constructor|rewrite value_cons; lia|rewrite value_cons; lia].
Qed.

Lemma window_borrow V i p x b w : window V i p x b (1 :: w) -> V <= 2 ^ (255 - Z.of_nat i) -> 15 < x + 2 ^ Z.of_nat b -> -15 <= x - 2 ^ Z.of_nat b ->
  exists w', slide_carry 256 (i + b) (laid p (x - 2 ^ Z.of_nat b) b (1 :: w)) = laid p (x - 2 ^ Z.of_nat b) b (0 :: w') /\ window V i p (x - 2 ^ Z.of_nat b) b (0 :: w').
Proof.
  intros [Hp Hl Hb0 Ho Hs Hw Hv Hb] HV H1 H2. cbn [length] in Hl. set (P := 2 ^ Z.of_nat b) in *. set (m := 255 - Z.of_nat (i + b)) in *.
  assert (Hm : 0 < m).
  { destruct (decide (0 < m)) as [?|Hm]; [done|exfalso]. assert (w = []) as -> by (destruct w; [done|cbn [length] in Hl; lia]). cbn [length] in Hl.
    change (value 2 [1]) with 1 in Hv. replace (255 - Z.of_nat i) with (Z.of_nat b) in HV by lia. fold P in HV. assert (x <> 0) by (intros ->; by vm_compute in Ho). lia. }
  assert (E : 2 ^ m = 2 * 2 ^ (m - 1)) by (rewrite <- Z.pow_succ_r by lia; f_equal; lia).
  assert (Hz : 2 ^ zlen (1 :: w) = 2 * 2 ^ m) by (rewrite <- Z.pow_succ_r by lia; f_equal; unfold zlen; cbn [length]; lia).
  assert (Hval : value 2 (1 :: w) + 1 <= 2 ^ m) by (rewrite value_cons in *; lia).
  destruct (slide_carry_spec 256 (p ++ (x - P) :: replicate (b - 1) 0) (1 :: w)) as (w1 & Ew & Hb1 & Hl1 & Hv1).
  { rewrite length_app, laid_length by done. cbn [length]. lia. } { cbn [length]. lia. } { done. } { pose proof (Z.pow_pos_nonneg 2 m ltac:(lia) ltac:(lia)). lia. }
  rewrite laid_length, <- laid_split, Hp in Ew by done. destruct w1 as [|y w1]; [done|]. inversion_clear Hb1 as [|? ? Hy Hb1'].
  assert (y = 0) as -> by (rewrite !value_cons in Hv1; unfold is_bit, is_digit in Hy; lia). exists w1. rewrite Ew. split; [by rewrite laid_split|].
  cbn [length] in Hl1. split; try done; [cbn [length]; lia|by apply odd_add|lia|by constructor| |]; rewrite Hv1; [lia|done].
Qed.

Lemma window_close V i p x b w : window V i p x b w -> let w' := replicate (b - 1) 0 ++ w in
  Forall is_bit w' /\ (i + 1 + length w' = 256)%nat /\ x + 2 * value 2 w' = V /\ value 2 w' <= 2 ^ (254 - Z.of_nat i).
Proof.
  intros [Hp Hl Hb0 Ho Hs Hw Hv Hb] w'. assert (E : value 2 w' = 2 ^ Z.of_nat (b - 1) * value 2 w).
  { unfold w'. rewrite value_app, value_zeros by lia. unfold zlen. rewrite length_replicate. lia. }
  split_and!.
  - apply Forall_app. split; [|done]. apply Forall_replicate. done.
  - unfold w'. rewrite length_app, length_replicate. lia.
  - rewrite E, Z.mul_assoc, <- Z.pow_succ_r, <- Nat2Z.inj_succ by lia. by replace (S (b - 1)) with b by lia.
  - rewrite E. destruct (decide (0 <= 255 - Z.of_nat (i + b))).
    + replace (254 - Z.of_nat i) with (Z.of_nat (b - 1) + (255 - Z.of_nat (i + b))) by lia. rewrite Z.pow_add_r by lia. apply Z.mul_le_mono_nonneg_l; [apply Z.pow_nonneg; lia|done].
    + assert (w = []) as -> by (destruct w; [done|cbn [length] in *; lia]). change (value 2 []) with 0. rewrite Z.mul_0_r. apply Z.pow_nonneg. lia.
Qed.

(** The windows end with an odd entry of at most 15 and bits above it. *)
Definition closed (V : Z) (i : nat) (p r : list Z) : Prop :=
  exists x w, r = p ++ x :: w /\ x mod 2 = 1 /\ -15 <= x <= 15 /\ Forall is_bit w /\ (i + 1 + length w = 256)%nat /\ x + 2 * value 2 w = V /\ value 2 w <= 2 ^ (254 - Z.of_nat i).
Lemma window_closed V i p x b w : window V i p x b w -> closed V i p (laid p x b w).
Proof. intros H. pose proof (window_close _ _ _ _ _ _ H) as (? & ? & ? & ?). destruct H. by exists x, (replicate (b - 1) 0 ++ w). Qed.

Lemma slide_window_spec n V i p x b w : window V i p x b w -> V <= 2 ^ (255 - Z.of_nat i) -> closed V i p (slide_window n i b (laid p x b w)).
Proof.
  revert x b w. induction n as [|n IH]; intros x b w H HV; [by apply window_closed|]. cbn [slide_window]. assert (length p = i) as <- by apply H.
  pose proof (w_b _ _ _ _ _ _ H) as Hb. pose proof (w_len _ _ _ _ _ _ H) as Hl. pose proof (w_small _ _ _ _ _ _ H) as Hs. pose proof (w_bits _ _ _ _ _ _ H) as Hw.
  destruct (Nat.leb_spec b 6) as [H6|]; [|by apply window_closed]. destruct (Nat.ltb_spec (length p + b) 256) as [Hlt|]; [|by apply window_closed]. cbn [andb].
  destruct w as [|y w]; [cbn [length] in Hl; lia|]. rewrite laid_next, laid_at by done. inversion_clear Hw as [|? ? Hy _]. unfold is_bit, is_digit in Hy.
  destruct (Z.eqb_spec y 0) as [-> |Hy0]; [rewrite laid_skip by done; apply IH; [by apply window_skip|done]|]. assert (y = 1) as -> by lia. rewrite Z.shiftl_1_l.
  assert (2 ^ Z.of_nat b <= 2 ^ 6) by (apply Z.pow_le_mono_r; lia). pose proof (Z.pow_nonneg 2 (Z.of_nat b) ltac:(lia)).
  destruct (Z.leb_spec (x + 2 ^ Z.of_nat b) 15) as [H15|H15]; [|destruct (Z.leb_spec (-15) (x - 2 ^ Z.of_nat b)) as [Hm|Hm]; [|by apply window_closed]].
  - rewrite i8_small, laid_put, laid_put_next, laid_skip by (done || lia). apply IH; [|done]. by apply window_skip, window_absorb.
  - rewrite i8_small, laid_put by lia. destruct (window_borrow _ _ _ _ _ _ H HV H15 Hm) as (w' & -> & H'). rewrite laid_skip by done. apply IH; [|done]. by apply window_skip.
Qed.

(** After [i] rounds: entries that are zero or odd and at most 15, then bits. *)
Definition entry (x : Z) : Prop := x = 0 \/ x mod 2 = 1 /\ -15 <= x <= 15.
Record slid (v : Z) (i : nat) (r : list Z) : Prop := {
  slid_len : length r = 256%nat;
  slid_entries : Forall entry (take i r);
  slid_bits : Forall is_bit (drop i r);
  slid_value : value 2 r = v;
  slid_bound : value 2 (drop i r) <= 2 ^ (255 - Z.of_nat i) }.

Lemma slide_step_spec v i r : (i < 256)%nat -> slid v i r -> slid v (S i) (slide_step r i).
Proof.
  intros Hi [Hl He Hb Hv HB]. assert (Hx : exists x w, drop i r = x :: w) by (destruct (drop i r) as [|x w] eqn:E; [apply (f_equal length) in E; rewrite length_drop in E; cbn [length] in E; lia|eauto]).
  destruct Hx as (x & w & E). set (p := take i r) in *. assert (Er : r = p ++ x :: w) by (rewrite <- E; symmetry; apply take_drop). assert (Hp : length p = i) by (unfold p; rewrite length_take; lia).
  assert (Hlw : (i + 1 + length w = 256)%nat) by (apply (f_equal length) in E; rewrite length_drop in E; cbn [length] in E; lia). rewrite E in Hb, HB. inversion_clear Hb as [|? ? Hx Hw].
  assert (Hc : forall r', (exists x' w', r' = p ++ x' :: w' /\ entry x' /\ Forall is_bit w' /\ length w' = length w /\ x' + 2 * value 2 w' = value 2 (x :: w) /\ value 2 w' <= 2 ^ (254 - Z.of_nat i)) -> slid v (S i) r').
  { intros r' (x' & w' & -> & Hx' & Hw' & Hlen & Hval & Hbd). assert (Ed : drop (S i) (p ++ x' :: w') = w') by (rewrite drop_app_ge, Hp by lia; by replace (S i - i)%nat with 1%nat by lia).
    assert (Et : take (S i) (p ++ x' :: w') = p ++ [x']) by (rewrite take_app_ge, Hp by lia; by replace (S i - i)%nat with 1%nat by lia).
    split; rewrite ?Ed, ?Et; [rewrite length_app; cbn [length]; lia|apply Forall_app; split; [done|by constructor]|done| |replace (255 - Z.of_nat (S i)) with (254 - Z.of_nat i) by lia; done].
    rewrite <- Hv, Er, !value_app, value_cons, Hval by lia. done. }
  assert (Hri : r !!! i = x) by (rewrite Er, lookup_total_app_r, Hp, Nat.sub_diag by lia; done). apply Hc. unfold slide_step. rewrite Hri. rewrite value_cons in *. unfold is_bit, is_digit in Hx.
  destruct (Z.eqb_spec x 0) as [-> |Hx0].
  - exists 0, w. split_and!; [done|by left|done|done|done|]. destruct (decide (i = 255%nat)) as [-> |]; [destruct w; [|cbn [length] in Hlw; lia]; done|].
    replace (255 - Z.of_nat i) with (Z.succ (254 - Z.of_nat i)) in HB by lia. rewrite Z.pow_succ_r in HB by lia. lia.
  - assert (x = 1) as -> by lia. destruct (slide_window_spec 7 (1 + 2 * value 2 w) i p 1 1 w) as (x' & w' & E' & Ho & Hs & Hw' & Hlw' & Hv' & Hb').
    + split; try done; try lia. pose proof (value_bound 2 w ltac:(lia) Hw) as Hvb. destruct (decide (i = 255%nat)) as [-> |]; [destruct w; [|cbn [length] in Hlw; lia]; done|].
      replace (255 - Z.of_nat i) with (Z.succ (255 - Z.of_nat (i + 1))) in HB by lia. rewrite Z.pow_succ_r in HB by lia. lia.
    + done.
    + rewrite Er. change (p ++ 1 :: w) with (laid p 1 1 w). rewrite E'. exists x', w'. split_and!; try done; [by right|lia].
Qed.
Lemma slide_spec a : scalar a -> value 256 a < 2 ^ 255 -> slid (value 256 a) 256 (slide a).
Proof.
  intros Ha Hv. pose proof (scalar_bound a Ha) as Hb. assert (H0 : slid (value 256 a) 0 (slide_bits a)).
  { rewrite slide_bits_digits by done. split; rewrite ?drop_0; [apply length_digits|constructor|by apply digits_ok|apply value_digits; [lia|split; [lia|]]|rewrite value_digits; [lia|lia|split; [lia|]]]; change (2 ^ Z.of_nat 256) with (2 * 2 ^ 255); lia. }
  unfold slide. assert (H : forall n k r, (k + n <= 256)%nat -> slid (value 256 a) k r -> slid (value 256 a) (k + n) (foldl slide_step r (seq k n))).
  { clear. induction n as [|n IH]; intros k r Hk Hr; [by rewrite Nat.add_0_r|]. cbn [seq foldl]. rewrite <- Nat.add_succ_comm. apply IH; [lia|]. apply slide_step_spec; [lia|done]. }
  by apply (H 256%nat 0%nat).
Qed.

(** * Radix 16 *)

(** The digits of [ge_scalarmult]: two per byte, in the order they are stored, and
    the carry out of the last byte. *)
Fixpoint signed_nibbles (carry : Z) (a : list Z) : list Z * Z :=
  match a with
  | [] => ([], carry)
  | x :: a =>
      let carry := carry + x in
      let carry2 := Z.shiftr (carry + 8) 4 in
      let e0 := i8 (carry - Z.shiftl carry2 4) in
      let carry := Z.shiftr (carry2 + 8) 4 in
      let e1 := i8 (carry2 - Z.shiftl carry 4) in
      let '(e, out) := signed_nibbles carry a in (e0 :: e1 :: e, out)
  end.
Definition scalarmult_digits (a : list Z) : list Z :=
  let '(e, carry) := signed_nibbles 0 (take 31 a) in
  let carry := carry + a !!! 31%nat in
  let carry2 := Z.shiftr (carry + 8) 4 in
  e ++ [i8 (carry - Z.shiftl carry2 4); i8 carry2].

(** The digits of [ge_scalarmult_base]: the nibbles, then the carries. *)
Definition nibbles (a : list Z) : list Z := flat_map (fun x => [Z.land (Z.shiftr x 0) 15; Z.land (Z.shiftr x 4) 15]) a.
Fixpoint carry_nibbles (n : nat) (carry : Z) (e : list Z) : list Z :=
  match n, e with
  | O, [x] => [i8 (x + carry)]
  | S n, x :: e =>
      let x := i8 (x + carry) in
      let carry := Z.shiftr (i8 (x + 8)) 4 in
      i8 (x - Z.shiftl carry 4) :: carry_nibbles n carry e
  | _, _ => e
  end.
Definition scalarmult_base_digits (a : list Z) : list Z := carry_nibbles 63 0 (nibbles a).

(** Division by 16 to the nearest. *)
Lemma nearest_16 c : exists q, Z.shiftr (c + 8) 4 = q /\ Z.shiftl q 4 = 16 * q /\ -8 <= c - 16 * q <= 7.
Proof. eexists. split; [reflexivity|]. rewrite Z.shiftl_mul_pow2, Z.shiftr_div_pow2 by lia. change (2 ^ 4) with 16. pose proof (Z.div_mod (c + 8) 16 ltac:(lia)). pose proof (Z.mod_pos_bound (c + 8) 16 ltac:(lia)). lia. Qed.
Ltac nearest c := let q := fresh "q" in let Hq := fresh "Hq" in destruct (nearest_16 c) as (q & -> & Hq & ?); rewrite !Hq.

Definition nibble (x : Z) : Prop := -8 <= x <= 7.
Lemma signed_nibbles_spec a carry : Forall is_u8 a -> 0 <= carry <= 1 -> let '(e, out) := signed_nibbles carry a in
  0 <= out <= 1 /\ Forall nibble e /\ length e = (2 * length a)%nat /\ value 16 e + 256 ^ zlen a * out = carry + value 256 a.
Proof.
  revert carry. induction a as [|x a IH]; intros carry Ha Hc; [cbn [signed_nibbles]; split_and!; [lia|lia|constructor|done|change (256 ^ zlen []) with 1; unfold value; cbn [foldr]; lia]|].
  inversion_clear Ha as [|? ? Hx Ha']. unfold is_u8 in Hx. cbn [signed_nibbles]. nearest (carry + x). nearest q. specialize (IH q0 Ha' ltac:(lia)). destruct (signed_nibbles q0 a) as [e out]. destruct IH as (Ho & He & Hl & Hv).
  rewrite !i8_small by lia. split_and!; [lia|lia|do 2 (constructor; [unfold nibble; lia|]); done|cbn [length]; lia|]. rewrite !value_cons, zlen_cons, Z.pow_add_r, Z.pow_1_r by (pose proof (zlen_nonneg a); lia). lia.
Qed.

Definition digit16 (x : Z) : Prop := -8 <= x <= 8.
Lemma split_top a : scalar a -> value 256 a < 2 ^ 255 -> a = take 31 a ++ [a !!! 31%nat] /\ length (take 31 a) = 31%nat /\ Forall is_u8 (take 31 a) /\ 0 <= a !!! 31%nat <= 127 /\ value 256 a = value 256 (take 31 a) + 256 ^ 31 * (a !!! 31%nat).
Proof.
  intros [Ha Hl] Hv. assert (E : a = take 31 a ++ [a !!! 31%nat]).
  { rewrite <- (take_drop 31 a) at 1. f_equal. rewrite (drop_S a (a !!! 31%nat) 31), drop_ge by (lia || (apply list_lookup_lookup_total_lt; lia)). done. }
  assert (Hl' : length (take 31 a) = 31%nat) by (rewrite length_take; lia). assert (Hf : Forall is_u8 (take 31 a)) by (by apply Forall_take).
  assert (Ev : value 256 a = value 256 (take 31 a) + 256 ^ 31 * (a !!! 31%nat)).
  { rewrite E at 1. rewrite value_app by lia. unfold zlen. rewrite Hl'. unfold value at 2. cbn [foldr]. change (256 ^ Z.of_nat 31) with (256 ^ 31). lia. }
  split_and!; try done; [|pose proof (value_bound 256 (take 31 a) ltac:(lia) Hf) as Hb; change (2 ^ 255) with (256 ^ 31 * 128) in Hv; nia].
  assert (Hx : is_u8 (a !!! 31%nat)) by (rewrite E in Ha; apply Forall_app in Ha as [_ Ha]; by inversion_clear Ha). apply Hx.
Qed.
Lemma scalarmult_digits_spec a : scalar a -> value 256 a < 2 ^ 255 ->
  length (scalarmult_digits a) = 64%nat /\ Forall digit16 (scalarmult_digits a) /\ value 16 (scalarmult_digits a) = value 256 a.
Proof.
  intros Hs Hv. destruct (split_top a Hs Hv) as (_ & Hl & Hf & Hx & Ev). unfold scalarmult_digits. pose proof (signed_nibbles_spec (take 31 a) 0 Hf ltac:(lia)) as H. destruct (signed_nibbles 0 (take 31 a)) as [e out].
  destruct H as (Ho & He & Hle & Hve). nearest (out + a !!! 31%nat). rewrite !i8_small by lia. split_and!.
  - rewrite length_app. cbn [length]. lia.
  - apply Forall_app. split; [eapply Forall_impl; [exact He|]; unfold nibble, digit16; lia|]. do 2 (constructor; [unfold digit16; lia|]). constructor.
  - rewrite value_app, !value_cons by lia. change (value 16 []) with 0. unfold zlen in *. rewrite Hle, Hl in *. change (16 ^ Z.of_nat (2 * 31)) with (256 ^ 31). change (256 ^ Z.of_nat 31) with (256 ^ 31) in Hve. lia.
Qed.

Definition is_nibble : Z -> Prop := is_digit 16.
Lemma nibbles_spec a : Forall is_u8 a -> Forall is_nibble (nibbles a) /\ length (nibbles a) = (2 * length a)%nat /\ value 16 (nibbles a) = value 256 a.
Proof.
  induction 1 as [|x a Hx Ha (IH1 & IH2 & IH3)]; [done|]. unfold nibbles in *. cbn [flat_map app]. unfold is_u8 in Hx.
  assert (E0 : Z.land (Z.shiftr x 0) 15 = x mod 16) by (rewrite Z.shiftr_0_r; apply (Z.land_ones x 4); lia).
  assert (E1 : Z.land (Z.shiftr x 4) 15 = x / 16) by (rewrite Z.shiftr_div_pow2 by lia; rewrite (Z.land_ones _ 4) by lia; apply Z.mod_small; split; [apply Z.div_pos; lia|apply Z.div_lt_upper_bound; lia]).
  rewrite E0, E1. pose proof (Z.div_mod x 16 ltac:(lia)). pose proof (Z.mod_pos_bound x 16 ltac:(lia)). split_and!.
  - constructor; [unfold is_nibble, is_digit; lia|]. constructor; [unfold is_nibble, is_digit; lia|done].
  - cbn [length]. lia.
  - rewrite !value_cons. lia.
Qed.
Lemma carry_nibbles_spec n carry e : Forall is_nibble e -> length e = S n -> 0 <= carry <= 1 ->
  exists r x, carry_nibbles n carry e = r ++ [x] /\ length r = n /\ Forall nibble r /\ value 16 (r ++ [x]) = carry + value 16 e /\ (exists y, last e = Some y /\ y <= x <= y + 1).
Proof.
  revert carry e. induction n as [|n IH]; intros carry e He Hl Hc; destruct e as [|x e]; try done; inversion_clear He as [|? ? Hx He']; unfold is_nibble, is_digit in Hx; cbn [carry_nibbles].
  - destruct e as [|]; [|done]. exists [], (x + carry). rewrite i8_small by lia. split_and!; [done|done|constructor|cbn [app]; rewrite !value_cons; lia|]. exists x. split; [done|lia].
  - rewrite !(i8_small (x + carry)), (i8_small (x + carry + 8)) by lia. nearest (x + carry). rewrite i8_small by lia. destruct e as [|x1 e]; [done|].
    destruct (IH q (x1 :: e)) as (r & z & E & Hlr & Hr & Hv & y & Hy & Hz); [done|cbn [length] in *; lia|lia|].
    rewrite E. exists ((x + carry - 16 * q) :: r), z. split_and!; [done|cbn [length]; lia|constructor; [unfold nibble; lia|done]| |exists y; split; [done|lia]].
    cbn [app]. rewrite value_cons, Hv, !value_cons. lia.
Qed.
Lemma scalarmult_base_digits_spec a : scalar a -> value 256 a < 2 ^ 255 ->
  length (scalarmult_base_digits a) = 64%nat /\ Forall digit16 (scalarmult_base_digits a) /\ value 16 (scalarmult_base_digits a) = value 256 a.
Proof.
  intros Hs Hv. destruct (split_top a Hs Hv) as (Ea & Hl & Hf & Hx & Ev). destruct Hs as [Ha Hla]. destruct (nibbles_spec a Ha) as (Hn & Hln & Hvn). rewrite Hla in Hln.
  destruct (carry_nibbles_spec 63 0 (nibbles a) Hn Hln ltac:(lia)) as (r & x & E & Hlr & Hr & Hvr & y & Hy & Hxy). unfold scalarmult_base_digits. rewrite E.
  assert (Hy' : 0 <= y <= 7).
  { rewrite Ea in Hy. unfold nibbles in Hy. rewrite flat_map_app, last_app in Hy. cbn [flat_map app last] in Hy. injection Hy as <-. rewrite Z.shiftr_div_pow2, (Z.land_ones _ 4) by lia. change (2 ^ 4) with 16.
    rewrite Z.mod_small; split; try apply Z.div_pos; try lia; [|apply Z.div_lt_upper_bound; lia]. apply Z.lt_succ_r, Z.div_lt_upper_bound; lia. }
  split_and!; [rewrite length_app; cbn [length]; lia| |lia]. apply Forall_app. split; [eapply Forall_impl; [exact Hr|]; unfold nibble, digit16; lia|]. constructor; [unfold digit16; lia|constructor].
Qed.

(** [slide] of a number of 256 bits can lose the carry out of the last entry: the
    callers pass scalars below 2^253. *)
Example slide_loses_carry : value 256 (replicate 32 255) = 2 ^ 256 - 1 /\ value 2 (slide (replicate 32 255)) = -1.
Proof. split; vm_compute; reflexivity. Qed.

(** The three signed recodings of scalars below 2^255 keep the value:
    [slide] gives 256 entries in base 2 that are zero or odd and between -15 and
    15, so that the tables of odd multiples up to 15 serve them; the radix-16 digits of
    [ge_scalarmult] and of [ge_scalarmult_base] are 64 digits between -8 and 8. *)
Theorem recodings_exact a : scalar a -> value 256 a < 2 ^ 255 ->
  (length (slide a) = 256%nat /\ Forall entry (slide a) /\ value 2 (slide a) = value 256 a) /\
  (length (scalarmult_digits a) = 64%nat /\ Forall digit16 (scalarmult_digits a) /\ value 16 (scalarmult_digits a) = value 256 a) /\
  (length (scalarmult_base_digits a) = 64%nat /\ Forall digit16 (scalarmult_base_digits a) /\ value 16 (scalarmult_base_digits a) = value 256 a).
Proof.
  intros Ha Hv. split; [|split; [by apply scalarmult_digits_spec|by apply scalarmult_base_digits_spec]].
  destruct (slide_spec a Ha Hv) as [Hl He _ Hval _]. rewrite take_ge in He by lia. done.
Qed.
Lemma recodings_exact_witness : value 2 (slide (digits 256 32 (order - 1))) = order - 1.
Proof.
  assert (HS : scalar (digits 256 32 (order - 1))) by (split; [apply (digits_ok 256); lia|apply length_digits]).
  assert (HV : value 256 (digits 256 32 (order - 1)) = order - 1) by (vm_compute; reflexivity).
  destruct (recodings_exact (digits 256 32 (order - 1)) HS) as ((_ & _ & H) & _); [rewrite HV; vm_compute; reflexivity|].
  etransitivity; [exact H|exact HV].
Defined.
