(* ===== verification/FieldOps.v ===== *)
(** Arithmetic modulo 2^255 - 19: the functions [fe_*] of [crypto/crypto-ops.c].

    A field element is an array of ten [int32_t], of 26 and 25 bits in turn, with
    signs.  The limbs may exceed these sizes: each function states what it needs and
    what it leaves, and the theorems about it follow the comments of the code.  The
    programs are the steps of [Limbs]. *)
From S2P Require Import Prelude IntUtil Limbs ScalarOps.

(** The number a field element stands for is taken modulo [p]. *)
Definition p : Z := 2 ^ 255 - 19.
Definition weights : list Z := [1; 2 ^ 26; 2 ^ 51; 2 ^ 77; 2 ^ 102; 2 ^ 128; 2 ^ 153; 2 ^ 179; 2 ^ 204; 2 ^ 230].
Notation fe := (list Z) (only parsing).
Definition num (h : fe) : Z := wsum weights h.

Definition fe_0 : fe := replicate 10 0.
Definition fe_1 : fe := 1 :: replicate 9 0.
Definition fe_copy (f : fe) : fe := f.

Definition fe_add (f g : fe) : outcome fe := mapM (fun i => chk int32 (f !!! i + g !!! i)) (seq 0 10).
Definition fe_sub (f g : fe) : outcome fe := mapM (fun i => chk int32 (f !!! i - g !!! i)) (seq 0 10).
Definition fe_neg (f : fe) : outcome fe := mapM (fun i => chk int32 (- (f !!! i))) (seq 0 10).

(** [fe_cmov]: the [assert] is [b] = 0 or 1; [-(int) b] is then 0 or all ones. *)
Definition fe_cmov `{BuildConfig} (f g : fe) (b : Z) : outcome fe :=
  _ ← massert (Z.lor (Z.land (u32 (b - 1)) (UINT32_MAX - b)) (Z.land (u32 (b - 2)) (UINT32_MAX - u32 (b - 1))) =? UINT32_MAX);
  Ok (map (fun i => let x := Z.lxor (f !!! i) (g !!! i) in Z.lxor (f !!! i) (Z.land x (- b))) (seq 0 10)).

(** The conversion of an [int64_t] to [int32_t]. *)
Definition to_int32 (x : Z) : Z := (x + int32) mod 4294967296 - int32.

(** Carries: limb [i] to [j], rounded to the nearest, and the last limb times 19. *)
Definition even26 (i : nat) : step := Carry i (S i) 1 (Z.shiftl 1 25) 26.
Definition odd25 (i : nat) : step := Carry i (S i) 1 (Z.shiftl 1 24) 25.
Definition top25 : step := Carry 9 0 19 (Z.shiftl 1 24) 25.
Definition carry_chain : list step :=
  [even26 0; even26 4; odd25 1; odd25 5; even26 2; even26 6; odd25 3; odd25 7; even26 4; even26 8; top25; even26 0].

(** The terms of limb [k] of a product, in the order of the code: [f_i], twice if
    [i] and [j] are odd, times [g_j], 19 times if [i + j] exceeds 9. *)
Definition mul_products (f g f_2 g_19 : list Z) (k : nat) : list (Z * Z) :=
  map (fun i => let j := ((k + 10 - i) mod 10)%nat in
    ((if Nat.odd i && Nat.odd j then f_2 !!! i else f !!! i), (if (k <? i)%nat then g_19 !!! j else g !!! j))) (seq 0 10).

(** The multiples of limbs that are computed first, as [int32_t]: [m i] is the
    factor of limb [i], or [None] where the code has no such variable. *)
Definition multiples (m : nat -> option Z) (f : fe) : outcome (list Z) :=
  mapM (fun i => match m i with Some c => chk int32 (c * f !!! i) | None => Ok 0 end) (seq 0 10).
Definition by_19 (j : nat) : option Z := if (j =? 0)%nat then None else Some 19.
Definition odd_by_2 (i : nat) : option Z := if Nat.odd i then Some 2 else None.

Definition fe_mul (f g : fe) : outcome fe :=
  g_19 ← multiples by_19 g;
  f_2 ← multiples odd_by_2 f;
  h ← mapM (fun k => dot64 0 (mul_products f g f_2 g_19 k)) (seq 0 10);
  h ← run int64 carry_chain h;
  Ok (map to_int32 h).

(** The terms of a square. *)
Definition sq_products (f f_2 f_m : list Z) : list (list (Z * Z)) :=
  let f i := f !!! Z.to_nat i in let f_2 i := f_2 !!! Z.to_nat i in let f_m i := f_m !!! Z.to_nat i in
  [ [(f 0, f 0); (f_2 1, f_m 9); (f_2 2, f_m 8); (f_2 3, f_m 7); (f_2 4, f_m 6); (f 5, f_m 5)];
    [(f_2 0, f 1); (f 2, f_m 9); (f_2 3, f_m 8); (f 4, f_m 7); (f_2 5, f_m 6)];
    [(f_2 0, f 2); (f_2 1, f 1); (f_2 3, f_m 9); (f_2 4, f_m 8); (f_2 5, f_m 7); (f 6, f_m 6)];
    [(f_2 0, f 3); (f_2 1, f 2); (f 4, f_m 9); (f_2 5, f_m 8); (f 6, f_m 7)];
    [(f_2 0, f 4); (f_2 1, f_2 3); (f 2, f 2); (f_2 5, f_m 9); (f_2 6, f_m 8); (f 7, f_m 7)];
    [(f_2 0, f 5); (f_2 1, f 4); (f_2 2, f 3); (f 6, f_m 9); (f_2 7, f_m 8)];
    [(f_2 0, f 6); (f_2 1, f_2 5); (f_2 2, f 4); (f_2 3, f 3); (f_2 7, f_m 9); (f 8, f_m 8)];
    [(f_2 0, f 7); (f_2 1, f 6); (f_2 2, f 5); (f_2 3, f 4); (f 8, f_m 9)];
    [(f_2 0, f 8); (f_2 1, f_2 7); (f_2 2, f 6); (f_2 3, f_2 5); (f 4, f 4); (f 9, f_m 9)];
    [(f_2 0, f 9); (f_2 1, f 8); (f_2 2, f 7); (f_2 3, f 6); (f_2 4, f 5)] ].
Definition by_2 (i : nat) : option Z := if (i <? 8)%nat then Some 2 else None.
Definition by_38_19 (i : nat) : option Z := if (i <? 5)%nat then None else Some (if Nat.odd i then 38 else 19).
Definition sq_limbs (f : fe) : outcome (list Z) :=
  f_2 ← multiples by_2 f;
  f_m ← multiples by_38_19 f;
  mapM (dot64 0) (sq_products f f_2 f_m).

Definition fe_sq (f : fe) : outcome fe :=
  h ← sq_limbs f;
  h ← run int64 carry_chain h;
  Ok (map to_int32 h).
Definition fe_sq2 (f : fe) : outcome fe :=
  h ← sq_limbs f;
  h ← mapM (fun x => chk int64 (x + x)) h;
  h ← run int64 carry_chain h;
  Ok (map to_int32 h).

(** The loops [for (i = 0; i < n; ++i) fe_sq(t, t)]. *)
Fixpoint fe_sq_times (n : nat) (t : fe) : outcome fe :=
  match n with O => Ok t | S n => t ← fe_sq t; fe_sq_times n t end.

Definition fe_invert (z : fe) : outcome fe :=
  t0 ← fe_sq z;
  t1 ← fe_sq t0;
  t1 ← fe_sq t1;
  t1 ← fe_mul z t1;
  t0 ← fe_mul t0 t1;
  t2 ← fe_sq t0;
  t1 ← fe_mul t1 t2;
  t2 ← fe_sq t1;
  t2 ← fe_sq_times 4 t2;
  t1 ← fe_mul t2 t1;
  t2 ← fe_sq t1;
  t2 ← fe_sq_times 9 t2;
  t2 ← fe_mul t2 t1;
  t3 ← fe_sq t2;
  t3 ← fe_sq_times 19 t3;
  t2 ← fe_mul t3 t2;
  t2 ← fe_sq t2;
  t2 ← fe_sq_times 9 t2;
  t1 ← fe_mul t2 t1;
  t2 ← fe_sq t1;
  t2 ← fe_sq_times 49 t2;
  t2 ← fe_mul t2 t1;
  t3 ← fe_sq t2;
  t3 ← fe_sq_times 99 t3;
  t2 ← fe_mul t3 t2;
  t2 ← fe_sq t2;
  t2 ← fe_sq_times 49 t2;
  t1 ← fe_mul t2 t1;
  t1 ← fe_sq t1;
  t1 ← fe_sq_times 4 t1;
  fe_mul t1 t0.

Definition fe_divpowm1 (u v : fe) : outcome fe :=
  v3 ← fe_sq v;
  v3 ← fe_mul v3 v;
  uv7 ← fe_sq v3;
  uv7 ← fe_mul uv7 v;
  uv7 ← fe_mul uv7 u;
  t0 ← fe_sq uv7;
  t1 ← fe_sq t0;
  t1 ← fe_sq t1;
  t1 ← fe_mul uv7 t1;
  t0 ← fe_mul t0 t1;
  t0 ← fe_sq t0;
  t0 ← fe_mul t1 t0;
  t1 ← fe_sq t0;
  t1 ← fe_sq_times 4 t1;
  t0 ← fe_mul t1 t0;
  t1 ← fe_sq t0;
  t1 ← fe_sq_times 9 t1;
  t1 ← fe_mul t1 t0;
  t2 ← fe_sq t1;
  t2 ← fe_sq_times 19 t2;
  t1 ← fe_mul t2 t1;
  t1 ← fe_sq_times 10 t1;
  t0 ← fe_mul t1 t0;
  t1 ← fe_sq t0;
  t1 ← fe_sq_times 49 t1;
  t1 ← fe_mul t1 t0;
  t2 ← fe_sq t1;
  t2 ← fe_sq_times 99 t2;
  t1 ← fe_mul t2 t1;
  t1 ← fe_sq_times 50 t1;
  t0 ← fe_mul t1 t0;
  t0 ← fe_sq t0;
  t0 ← fe_sq t0;
  t0 ← fe_mul t0 uv7;
  t0 ← fe_mul t0 v3;
  fe_mul t0 u.

(** Carries rounded down. *)
Definition floored26 (i : nat) : step := Carry i (S i) 1 0 26.
Definition floored25 (i : nat) : step := Carry i (S i) 1 0 25.

(** The quotient by [p] that [fe_tobytes] computes, limb by limb. *)
Fixpoint quotient (q : Z) (h : list Z) (even : bool) : outcome Z :=
  match h with
  | [] => Ok q
  | x :: h => t ← chk int32 (x + q); quotient (Z.shiftr t (if even then 26 else 25)) h (negb even)
  end.

Definition to_digits : list step :=
  [floored26 0; floored25 1; floored26 2; floored25 3; floored26 4; floored25 5; floored26 6; floored25 7; floored26 8; Cut 9 25].

Definition fe_bytes (h : list Z) : list Z :=
  let s i := h !!! Z.to_nat i in
  let one i a := u8 (Z.shiftr (s i) a) in
  let two i a b := u8 (Z.lor (Z.shiftr (s i) a) (Z.shiftl (s (i + 1)) b)) in
  [one 0 0; one 0 8; one 0 16; two 0 24 2; one 1 6; one 1 14; two 1 22 3; one 2 5;
   one 2 13; two 2 21 5; one 3 3; one 3 11; two 3 19 6; one 4 2; one 4 10; one 4 18;
   one 5 0; one 5 8; one 5 16; two 5 24 1; one 6 7; one 6 15; two 6 23 3; one 7 5;
   one 7 13; two 7 21 4; one 8 4; one 8 12; two 8 20 6; one 9 2; one 9 10; one 9 18].

Definition fe_tobytes (h : fe) : outcome (list Z) :=
  t ← chk int32 (19 * h !!! 9%nat);
  t ← chk int32 (t + Z.shiftl 1 24);
  q ← quotient (Z.shiftr t 25) h true;
  t ← chk int32 (19 * q);
  h0 ← chk int32 (h !!! 0%nat + t);
  h ← run int32 to_digits (<[0%nat := h0]> h);
  Ok (fe_bytes h).

Definition fe_isnegative (f : fe) : outcome Z := s ← fe_tobytes f; Ok (Z.land (s !!! 0%nat) 1).
Definition fe_isnonzero (f : fe) : outcome Z := s ← fe_tobytes f; Ok (Z.shiftr (foldl Z.lor 0 s - 1) 8 + 1).

(** The part of [ge_frombytes_vartime] between the comments [From fe_frombytes.c]
    and [End fe_frombytes.c]: [None] for a number that is not below [p]. *)
Definition load_limbs (s : list Z) : list Z :=
  [load_4 s 0; Z.shiftl (load_3 s 4) 6; Z.shiftl (load_3 s 7) 5; Z.shiftl (load_3 s 10) 3; Z.shiftl (load_3 s 13) 2;
   load_4 s 16; Z.shiftl (load_3 s 20) 7; Z.shiftl (load_3 s 23) 5; Z.shiftl (load_3 s 26) 4; Z.shiftl (Z.land (load_3 s 29) 8388607) 2].
Definition not_canonical (h : list Z) : bool :=
  let h i := h !!! Z.to_nat i in
  (h 9 =? 33554428) && (h 8 =? 268435440) && (h 7 =? 536870880) && (h 6 =? 2147483520) && (h 5 =? 4294967295) &&
  (h 4 =? 67108860) && (h 3 =? 134217720) && (h 2 =? 536870880) && (h 1 =? 1073741760) && (4294967277 <=? h 0).
Definition load_carries : list step := [top25; odd25 1; odd25 3; odd25 5; odd25 7; even26 0; even26 2; even26 4; even26 6; even26 8].
Definition fe_frombytes (s : list Z) : outcome (option fe) :=
  let h := load_limbs s in
  if not_canonical h then Ok None else h ← run int64 load_carries h; Ok (Some (map to_int32 h)).

(** * Congruence modulo [p] *)

Definition eqp (x y : Z) : Prop := x mod p = y mod p.
#[export] Instance eqp_equiv : Equivalence eqp.
Proof. split; [done|by intros x y|intros x y z; unfold eqp; congruence]. Qed.
Lemma eqp_divide x y : eqp x y <-> (p | x - y).
Proof. apply Z.cong_iff_ex. Qed.
#[export] Instance eqp_add : Proper (eqp ==> eqp ==> eqp) Z.add.
Proof. intros x x' Hx y y' Hy. unfold eqp in *. rewrite Zplus_mod, Hx, Hy. by rewrite <- Zplus_mod. Qed.
#[export] Instance eqp_sub : Proper (eqp ==> eqp ==> eqp) Z.sub.
Proof. intros x x' Hx y y' Hy. unfold eqp in *. rewrite Zminus_mod, Hx, Hy. by rewrite <- Zminus_mod. Qed.
#[export] Instance eqp_mul : Proper (eqp ==> eqp ==> eqp) Z.mul.
Proof. intros x x' Hx y y' Hy. unfold eqp in *. rewrite Zmult_mod, Hx, Hy. by rewrite <- Zmult_mod. Qed.
#[export] Instance eqp_opp : Proper (eqp ==> eqp) Z.opp.
Proof. intros x x' Hx. rewrite <- !Z.sub_0_l. by rewrite Hx. Qed.
#[export] Instance eqp_pow : Proper (eqp ==> eq ==> eqp) Z.pow.
Proof.
  intros x x' Hx n n' <-. destruct (decide (0 <= n)) as [Hn|Hn]; [|by rewrite !Z.pow_neg_r by lia].
  revert n Hn. apply natlike_ind; [done|]. intros n Hn IH. by rewrite !Z.pow_succ_r, IH, Hx by lia.
Qed.
Lemma eqp_mul_p x y : eqp (x + y * p) x.
Proof. apply eqp_divide. exists y. lia. Qed.

(** * Sizes of the limbs *)

(** [within c h]: the limbs are at most [c] percent of 2^25 and 2^24. *)
Definition sizes : list Z := [2 ^ 25; 2 ^ 24; 2 ^ 25; 2 ^ 24; 2 ^ 25; 2 ^ 24; 2 ^ 25; 2 ^ 24; 2 ^ 25; 2 ^ 24].
Definition size_bounds (c : Z) : list (Z * Z) := map (fun b => (- (c * b / 100), c * b / 100)) sizes.
Definition within (c : Z) (h : fe) : Prop := inb (size_bounds c) h.
(** A field element within [c] that stands for [x]. *)
Definition fe_is (c : Z) (h : fe) (x : Z) : Prop := within c h /\ eqp (num h) x.

Lemma within_length c h : within c h -> length h = 10%nat.
Proof. intros H. by rewrite (inb_length _ _ H). Qed.

Lemma within_abs c h : within c h <-> Forall2 (fun b x => 100 * Z.abs x <= c * b) sizes h.
Proof.
  unfold within, inb, size_bounds. rewrite Forall2_fmap_l. assert (E : forall b x, - (c * b / 100) <= x <= c * b / 100 <-> 100 * Z.abs x <= c * b).
  { intros b x. pose proof (Z.div_mod (c * b) 100). pose proof (Z.mod_pos_bound (c * b) 100). lia. }
  split; intros H; (eapply Forall2_impl; [exact H|]); cbn; intros b x Hx; by apply E.
Qed.

Lemma sizes_pos : Forall (fun b => 0 < b) sizes.
Proof. unfold sizes. repeat constructor. Qed.

Lemma within_mono c d h : c <= d -> within c h -> within d h.
Proof.
  rewrite !within_abs. intros Hcd H. apply Forall2_same_length_lookup. split; [by eapply Forall2_length|]. intros i b x Hb Hx.
  pose proof (Forall2_lookup_lr _ _ _ _ _ _ H Hb Hx) as Hi. pose proof (Forall_lookup_1 _ _ _ _ sizes_pos Hb) as Hp. cbn in Hi, Hp. nia.
Qed.
Lemma fe_is_mono c d h x : c <= d -> fe_is c h x -> fe_is d h x.
Proof. intros Hcd [H1 H2]. split; [by eapply within_mono|done]. Qed.
Lemma fe_is_eq c h x y : eqp x y -> fe_is c h x -> fe_is c h y.
Proof. intros E [H1 H2]. split; [done|by rewrite H2]. Qed.

(** Limbs computed one by one. *)
Lemma mapM_Ok {A} (f : A -> outcome Z) (g : A -> Z) l : Forall (fun i => f i = Ok (g i)) l -> mapM f l = Ok (map g l).
Proof. induction 1 as [|i l Hi Hl IH]; [done|]. cbn. rewrite Hi. cbn. by rewrite IH. Qed.

Lemma list_10 (h : list Z) : length h = 10%nat -> h = map (fun i => h !!! i) (seq 0 10).
Proof. intros H. do 10 (destruct h as [|? h]; [done|]). by destruct h. Qed.

Lemma within_lookup c h i : (i < 10)%nat -> within c h -> 100 * Z.abs (h !!! i) <= c * (sizes !!! i) /\ 0 < sizes !!! i <= 2 ^ 25.
Proof.
  intros Hi H%within_abs. assert (Hs : sizes !! i = Some (sizes !!! i)) by (apply list_lookup_lookup_total_lt; done).
  destruct (Forall2_lookup_l _ _ _ _ _ H Hs) as (x & Hx & Hb). apply list_lookup_total_correct in Hx as ->. split; [done|].
  do 10 (destruct i as [|i]; [cbn; lia|]). lia.
Qed.

Lemma num_map (f : nat -> Z) : num (map f (seq 0 10)) = sum_Z (map (fun i => weights !!! i * f i) (seq 0 10)).
Proof. unfold num, weights. cbn. ring. Qed.
Lemma num_sum h : length h = 10%nat -> num h = sum_Z (map (fun i => weights !!! i * h !!! i) (seq 0 10)).
Proof. intros H. rewrite (list_10 h H) at 1. apply num_map. Qed.
Lemma within_map c (f : nat -> Z) : (forall i, (i < 10)%nat -> 100 * Z.abs (f i) <= c * (sizes !!! i)) -> within c (map f (seq 0 10)).
Proof.
  intros H. apply within_abs. change sizes with (map (fun i => sizes !!! i) (seq 0 10)) at 1. apply Forall2_fmap_2, Forall_Forall2_diag, Forall_forall.
  intros i Hi%elem_of_seq. apply H. lia.
Qed.

Section Linear.
Variables (c d : Z) (f g : fe) (x y : Z).
Hypothesis (Hf : fe_is c f x) (Hg : fe_is d g y).
Hypothesis (Hcd : c + d <= 6000).

(** Sums and differences of limbs. *)
Lemma limbs_linear e : e = 1 \/ e = -1 ->
  mapM (fun i => chk int32 (f !!! i + e * g !!! i)) (seq 0 10) = Ok (map (fun i => f !!! i + e * g !!! i) (seq 0 10)) /\
  fe_is (c + d) (map (fun i => f !!! i + e * g !!! i) (seq 0 10)) (x + e * y).
Proof.
  intros He. destruct Hf as [Hwf Hxf]. destruct Hg as [Hwg Hyg].
  assert (Hb : forall i, (i < 10)%nat -> 100 * Z.abs (f !!! i + e * g !!! i) <= (c + d) * (sizes !!! i)).
  { intros i Hi. pose proof (within_lookup _ _ _ Hi Hwf). pose proof (within_lookup _ _ _ Hi Hwg). destruct He as [-> | ->]; lia. }
  split; [|split; [by apply within_map|] ].
  - apply mapM_Ok, Forall_forall. intros i Hi%elem_of_seq. apply chk_fits. specialize (Hb i ltac:(lia)).
    pose proof (within_lookup _ _ i ltac:(lia) Hwf) as [_ Hs]. unfold int32. nia.
  - rewrite num_map, <- Hxf, <- Hyg, (num_sum f (within_length _ _ Hwf)), (num_sum g (within_length _ _ Hwg)). cbn [seq map sum_Z foldr]. apply eq_subrelation; [apply _|]. ring.
Qed.
End Linear.

Lemma mapM_ext {A} (f g : A -> outcome Z) l : Forall (fun i => f i = g i) l -> mapM f l = mapM g l.
Proof. induction 1 as [|i l Hi Hl IH]; [done|]. cbn. by rewrite Hi, IH. Qed.

Lemma fe_add_spec c d f g x y : fe_is c f x -> fe_is d g y -> c + d <= 6000 -> exists h, fe_add f g = Ok h /\ fe_is (c + d) h (x + y).
Proof.
  intros Hf Hg Hcd. destruct (limbs_linear c d f g x y Hf Hg Hcd 1 ltac:(lia)) as [E H]. eexists. split; [|eapply fe_is_eq; [|exact H]; unfold eqp; f_equal; lia].
  rewrite <- E. apply mapM_ext, Forall_true. intros i. f_equal; lia.
Qed.
Lemma fe_sub_spec c d f g x y : fe_is c f x -> fe_is d g y -> c + d <= 6000 -> exists h, fe_sub f g = Ok h /\ fe_is (c + d) h (x - y).
Proof.
  intros Hf Hg Hcd. destruct (limbs_linear c d f g x y Hf Hg Hcd (-1) ltac:(lia)) as [E H]. eexists. split; [|eapply fe_is_eq; [|exact H]; unfold eqp; f_equal; lia].
  rewrite <- E. apply mapM_ext, Forall_true. intros i. f_equal; lia.
Qed.
Lemma fe_is_0 : fe_is 0 fe_0 0.
Proof. split; [apply within_abs; unfold sizes, fe_0; cbn; repeat constructor; cbn; lia|done]. Qed.
Lemma fe_is_1 : fe_is 1 fe_1 1.
Proof. split; [apply within_abs; unfold sizes, fe_1; cbn; repeat constructor; cbn; lia|done]. Qed.
Lemma fe_neg_spec c f x : fe_is c f x -> c <= 6000 -> exists h, fe_neg f = Ok h /\ fe_is c h (- x).
Proof.
  intros Hf Hc. destruct (limbs_linear 0 c fe_0 f 0 x fe_is_0 Hf ltac:(lia) (-1) ltac:(lia)) as [E H]. eexists. split; [|eapply fe_is_eq; [|exact H]; unfold eqp; f_equal; lia].
  rewrite <- E. apply mapM_ext. repeat constructor.
Qed.

(** * Products *)

Lemma dot_cons x y l : dot ((x, y) :: l) = x * y + dot l.
Proof. done. Qed.

(** Sums of products, bounded by those of the bounds of the factors. *)
Definition pair_below (q b : Z * Z) : Prop := Z.abs q.1 <= b.1 /\ Z.abs q.2 <= b.2.
Lemma dot64_abs l bs acc : Forall2 pair_below l bs -> Z.abs acc + dot bs < int64 -> dot64 acc l = Ok (acc + dot l) /\ Z.abs (dot l) <= dot bs.
Proof.
  intros H. revert acc. induction H as [|[x y] [a b] l bs [Hx Hy] Hl IH]; intros acc Ha; cbn [dot64]; [unfold dot; cbn; split; [f_equal; lia|lia]|].
  rewrite !dot_cons in *. cbn [fst snd] in Hx, Hy. assert (Hp : Z.abs (x * y) <= a * b) by (rewrite Z.abs_mul; nia). assert (Hd : 0 <= dot bs).
  { clear - Hl. induction Hl as [|q [a b] l bs [Hx Hy] Hl IH]; [done|]. rewrite dot_cons. cbn [fst snd] in Hx, Hy. nia. }
  rewrite chk_fits by (unfold int64 in *; lia). cbn [mbind outcome_bind]. rewrite chk_fits by (unfold int64 in *; lia). cbn [mbind outcome_bind].
  destruct (IH (acc + x * y) ltac:(lia)) as [-> Hd']. split; [f_equal; lia|lia].
Qed.

Lemma mapM_dot64 l bs : Forall2 (fun q b => Forall2 pair_below q b /\ dot b < int64) l bs ->
  mapM (dot64 0) l = Ok (map dot l) /\ inb (map (fun b => (- dot b, dot b)) bs) (map dot l).
Proof.
  induction 1 as [|q b l bs [Hq Hb] Hl [IH1 IH2] ]; [by split; [|constructor]|]. destruct (dot64_abs q b 0 Hq ltac:(lia)) as [E H]. cbn. rewrite E. cbn. rewrite IH1.
  split; [done|]. constructor; [cbn; lia|done].
Qed.

(** Bounds within bounds. *)
Definition inside (b b' : list (Z * Z)) : bool := (length b =? length b')%nat && forallb (fun q => (q.2.1 <=? q.1.1) && (q.1.2 <=? q.2.2)) (zip b b').
Lemma inb_inside b b' h : inside b b' = true -> inb b h -> inb b' h.
Proof.
  intros [Hl%Nat.eqb_eq Hi]%andb_prop Hb. revert b' Hl Hi. induction Hb as [|q x b h Hq Hb IH]; intros [|q' b'] Hl Hi; [constructor|done..|].
  cbn in Hi. apply andb_prop in Hi as [ [H1%Z.leb_le H2%Z.leb_le]%andb_prop Hi]. constructor; [lia|]. apply IH; [cbn in Hl; lia|done].
Qed.

Lemma to_int32_small x : - int32 <= x < int32 -> to_int32 x = x.
Proof. unfold to_int32, int32. intros H. rewrite Z.mod_small; lia. Qed.
Lemma map_to_int32 c h : c <= 6000 -> within c h -> map to_int32 h = h.
Proof.
  intros Hc H. rewrite (list_10 h (within_length _ _ H)) at 2. rewrite (list_10 h (within_length _ _ H)) at 1. rewrite map_map. apply map_ext_in. intros i Hi%in_seq.
  apply to_int32_small. pose proof (within_lookup c h i ltac:(lia) H). unfold int32. nia.
Qed.

Lemma carry_chain_ok : forallb (step_ok p weights) carry_chain = true.
Proof. vm_compute. reflexivity. Qed.

(** The carries: limbs within bounds that have been checked become small again. *)
Definition carries_small (b : list (Z * Z)) : bool := match irun int64 carry_chain b with Some b' => inside b' (size_bounds 101) | None => false end.
Lemma carry_chain_spec b h : carries_small b = true -> length b = 10%nat -> inb b h ->
  exists h', run int64 carry_chain h = Ok h' /\ map to_int32 h' = h' /\ fe_is 101 h' (num h).
Proof.
  unfold carries_small. intros Hc Hl Hb. destruct (irun int64 carry_chain b) as [b'|] eqn:E; [|done]. destruct (irun_sound _ _ _ _ _ E Hb) as (h' & R & Hb').
  pose proof (inb_inside _ _ _ Hc Hb') as Hw. exists h'. split; [done|]. split; [by apply (map_to_int32 101)|]. split; [exact Hw|].
  apply eqp_divide. apply (run_wsum int64 weights p carry_chain h h'); [by rewrite (inb_length _ _ Hb), Hl|apply carry_chain_ok|done].
Qed.

(** * Multiplication and squares *)

Lemma mapM_map {A B} (f : B -> outcome Z) (g : A -> B) l : mapM f (map g l) = mapM (fun i => f (g i)) l.
Proof. induction l as [|i l IH]; [done|]. cbn. by rewrite IH. Qed.

Definition multiples_of (m : nat -> option Z) (f : list Z) : list Z := map (fun i => match m i with Some c => c * f !!! i | None => 0 end) (seq 0 10).
(** Bounds of the factors of a product: 1.65 * 2^26 and 1.65 * 2^25. *)
Definition factor_bounds : list Z := map (fun b => 330 * b / 100) sizes.
Definition below (f b : list Z) : Prop := forall i, (i < 10)%nat -> Z.abs (f !!! i) <= b !!! i.

Lemma factor_below f : within 330 f -> below f factor_bounds.
Proof.
  intros Hf i Hi. pose proof (within_lookup 330 f i Hi Hf) as [H _].
  do 10 (destruct i as [|i]; [match goal with |- context [factor_bounds !!! ?k] =>
    let v := eval vm_compute in (factor_bounds !!! k) in let w := eval vm_compute in (sizes !!! k) in
    change (factor_bounds !!! k) with v; change (sizes !!! k) with w in H end; lia|]). lia.
Qed.

Lemma lookup_map_seq (f : nat -> Z) i : (i < 10)%nat -> map f (seq 0 10) !!! i = f i.
Proof. intros H. do 10 (destruct i as [|i]; [done|]). lia. Qed.

Definition small_multiples (m : nat -> option Z) : bool :=
  forallb (fun i => match m i with Some c => (0 <=? c) && (c * (factor_bounds !!! i) <? int32) | None => true end) (seq 0 10).
Lemma multiples_spec m f : within 330 f -> small_multiples m = true ->
  multiples m f = Ok (multiples_of m f) /\ below (multiples_of m f) (multiples_of m factor_bounds).
Proof.
  intros Hf%factor_below Hm. unfold small_multiples in Hm. rewrite forallb_forall in Hm. split.
  - apply mapM_Ok, Forall_forall. intros i Hi%elem_of_seq. cbn beta. specialize (Hm i ltac:(apply in_seq; lia)). cbn beta in Hm.
    destruct (m i) as [c|]; [|done]. apply andb_prop in Hm as [H1%Z.leb_le H2%Z.ltb_lt]. specialize (Hf i ltac:(lia)). apply chk_fits. nia.
  - intros i Hi. unfold multiples_of. rewrite !lookup_map_seq by done. specialize (Hm i ltac:(apply in_seq; lia)). cbn beta in Hm.
    destruct (m i) as [c|]; [|done]. apply andb_prop in Hm as [H1%Z.leb_le H2%Z.ltb_lt]. specialize (Hf i Hi). nia.
Qed.

(** What is left to check of the terms of a product: the sums of the bounds fit,
    and the carries make the limbs small. *)
Definition terms_ok (bs : list (list (Z * Z))) : bool := forallb (fun b => dot b <? int64) bs && carries_small (map (fun b => (- dot b, dot b)) bs).
Lemma terms_spec l bs : Forall2 (Forall2 pair_below) l bs -> length bs = 10%nat -> terms_ok bs = true ->
  exists h, mapM (dot64 0) l = Ok (map dot l) /\ run int64 carry_chain (map dot l) = Ok h /\ map to_int32 h = h /\ fe_is 101 h (num (map dot l)).
Proof.
  intros Hl Hn [H1 H2]%andb_prop. rewrite forallb_forall in H1. destruct (mapM_dot64 l bs) as [E I].
  { apply Forall2_same_length_lookup. split; [by eapply Forall2_length|]. intros i q b Hq Hb. split; [by apply (Forall2_lookup_lr _ _ _ _ _ _ Hl Hq Hb)|].
    apply Z.ltb_lt, H1. apply list_elem_of_In. by eapply list_elem_of_lookup_2. }
  destruct (carry_chain_spec _ _ H2 ltac:(by rewrite length_map) I) as (h & R & T & F). by exists h.
Qed.

Definition product (f g : list Z) : list (list (Z * Z)) := map (mul_products f g (multiples_of odd_by_2 f) (multiples_of by_19 g)) (seq 0 10).
Definition square (f : list Z) : list (list (Z * Z)) := sq_products f (multiples_of by_2 f) (multiples_of by_38_19 f).

Lemma product_below f g : within 330 f -> within 330 g -> Forall2 (Forall2 pair_below) (product f g) (product factor_bounds factor_bounds).
Proof.
  intros Hf Hg. destruct (multiples_spec odd_by_2 f Hf eq_refl) as [_ Hf2]. destruct (multiples_spec by_19 g Hg eq_refl) as [_ Hg19]. apply factor_below in Hf, Hg.
  apply Forall2_fmap_2, Forall_Forall2_diag, Forall_forall. intros k _. unfold mul_products. apply Forall2_fmap_2, Forall_Forall2_diag, Forall_forall. intros i Hi%elem_of_seq.
  assert (Hj : ((k + 10 - i) mod 10 < 10)%nat) by (apply Nat.mod_upper_bound; lia). cbn zeta. split; cbn [fst snd]; case_match; auto with lia.
Qed.
Lemma square_below f : within 330 f -> Forall2 (Forall2 pair_below) (square f) (square factor_bounds).
Proof.
  intros Hf. destruct (multiples_spec by_2 f Hf eq_refl) as [_ Hf2]. destruct (multiples_spec by_38_19 f Hf eq_refl) as [_ Hfm]. apply factor_below in Hf.
  unfold square, sq_products. repeat constructor; cbn [fst snd]; first [apply Hf|apply Hf2|apply Hfm]; lia.
Qed.
Lemma product_ok : terms_ok (product factor_bounds factor_bounds) = true /\ terms_ok (square factor_bounds) = true.
Proof. split; vm_compute; reflexivity. Qed.

(** The high part of the product, which is folded. *)
Definition high_product (f g : list Z) : Z :=
  num (map (fun k => sum_Z (map (fun i => (if Nat.odd i && Nat.odd (k + 10 - i) then 2 else 1) * (f !!! i * g !!! (k + 10 - i)%nat)) (seq (k + 1) (9 - k)))) (seq 0 10)).
Lemma product_num f g : length f = 10%nat -> length g = 10%nat -> num f * num g = num (map dot (product f g)) + high_product f g * p.
Proof.
  intros Hf Hg. do 10 (destruct f as [|? f]; [done|]). do 10 (destruct g as [|? g]; [done|]). destruct f, g; [|done..].
  unfold product, mul_products, multiples_of, odd_by_2, by_19, high_product, dot, num, p, weights. cbn [map seq]. cbn. ring.
Qed.
Lemma square_num f : length f = 10%nat -> num f * num f = num (map dot (square f)) + high_product f f * p.
Proof.
  intros Hf. do 10 (destruct f as [|? f]; [done|]). destruct f; [|done].
  unfold square, sq_products, multiples_of, by_2, by_38_19, high_product, dot, num, p, weights. cbv [Z.to_nat Pos.to_nat Pos.iter_op Nat.add]. cbn [map seq]. cbn. ring.
Qed.

Lemma fe_mul_spec f g x y : fe_is 330 f x -> fe_is 330 g y -> exists h, fe_mul f g = Ok h /\ fe_is 101 h (x * y).
Proof.
  intros [Hf Hx] [Hg Hy]. unfold fe_mul. rewrite (proj1 (multiples_spec by_19 g Hg eq_refl)). cbn [mbind outcome_bind].
  rewrite (proj1 (multiples_spec odd_by_2 f Hf eq_refl)). cbn [mbind outcome_bind].
  destruct (terms_spec _ _ (product_below f g Hf Hg) eq_refl (proj1 product_ok)) as (h & E & R & T & F).
  unfold product in E at 1. rewrite mapM_map in E. rewrite E. cbn [mbind outcome_bind]. rewrite R. cbn [mbind outcome_bind]. rewrite T. exists h. split; [done|].
  eapply fe_is_eq; [|exact F]. rewrite <- Hx, <- Hy, product_num by (by eapply within_length). by rewrite eqp_mul_p.
Qed.
Lemma sq_limbs_spec f : within 330 f -> sq_limbs f = mapM (dot64 0) (square f).
Proof.
  intros Hf. unfold sq_limbs. rewrite (proj1 (multiples_spec by_2 f Hf eq_refl)). cbn [mbind outcome_bind].
  rewrite (proj1 (multiples_spec by_38_19 f Hf eq_refl)). done.
Qed.
Lemma fe_sq_spec f x : fe_is 330 f x -> exists h, fe_sq f = Ok h /\ fe_is 101 h (x * x).
Proof.
  intros [Hf Hx]. unfold fe_sq. rewrite sq_limbs_spec by done. destruct (terms_spec _ _ (square_below f Hf) eq_refl (proj2 product_ok)) as (h & E & R & T & F).
  rewrite E. cbn [mbind outcome_bind]. rewrite R. cbn [mbind outcome_bind]. rewrite T. exists h. split; [done|].
  eapply fe_is_eq; [|exact F]. rewrite <- Hx, square_num by (by eapply within_length). by rewrite eqp_mul_p.
Qed.

Lemma double_ok : forallb (fun b => 2 * dot b <? int64) (square factor_bounds) = true /\
  carries_small (map (fun b => (- (2 * dot b), 2 * dot b)) (square factor_bounds)) = true.
Proof. split; vm_compute; reflexivity. Qed.
Lemma num_double l : num (map (fun x => x + x) l) = 2 * num l.
Proof.
  unfold num. generalize weights. intros w. revert l. induction w as [|a w IH]; intros [|x l]; cbn [map wsum]; [lia..|]. rewrite IH. ring.
Qed.
Lemma fe_sq2_spec f x : fe_is 330 f x -> exists h, fe_sq2 f = Ok h /\ fe_is 101 h (2 * (x * x)).
Proof.
  intros [Hf Hx]. unfold fe_sq2. rewrite sq_limbs_spec by done. destruct double_ok as [B1 B2]. rewrite forallb_forall in B1. pose proof (square_below f Hf) as Hb.
  assert (Hd : forall i b, square factor_bounds !! i = Some b -> 2 * dot b < int64).
  { intros i b Hi. apply Z.ltb_lt, B1, list_elem_of_In. by eapply list_elem_of_lookup_2. }
  destruct (mapM_dot64 (square f) (square factor_bounds)) as [E I].
  { apply Forall2_same_length_lookup. split; [by eapply Forall2_length|]. intros i q b Hq Hi. split; [by apply (Forall2_lookup_lr _ _ _ _ _ _ Hb Hq Hi)|].
    specialize (Hd _ _ Hi). unfold int64 in *. lia. }
  rewrite E. cbn [mbind outcome_bind]. assert (I2 : inb (map (fun b => (- (2 * dot b), 2 * dot b)) (square factor_bounds)) (map (fun x => x + x) (map dot (square f)))).
  { unfold inb in *. rewrite Forall2_fmap. rewrite Forall2_fmap_l in I. eapply Forall2_impl; [exact I|]. cbn. intros b y Hy. lia. }
  rewrite (mapM_Ok _ (fun x => x + x)).
  2:{ apply Forall_lookup_2. intros i y Hy. unfold inb in I. rewrite Forall2_fmap_l in I. destruct (Forall2_lookup_r _ _ _ _ _ I Hy) as (b & Hi & Hy').
      specialize (Hd _ _ Hi). cbn in Hy'. apply chk_fits. lia. }
  cbn [mbind outcome_bind]. destruct (carry_chain_spec _ _ B2 eq_refl I2) as (h & R & T & F). rewrite R. cbn [mbind outcome_bind]. rewrite T. exists h. split; [done|].
  eapply fe_is_eq; [|exact F]. rewrite num_double, <- Hx, square_num by (by eapply within_length). by rewrite eqp_mul_p.
Qed.

(** Towers of squares. *)
Lemma fe_sq_times_spec n t y : fe_is 101 t y -> exists h, fe_sq_times n t = Ok h /\ fe_is 101 h (y ^ (2 ^ Z.of_nat n)).
Proof.
  revert t y. induction n as [|n IH]; intros t y Ht; cbn [fe_sq_times]; [exists t; split; [done|by rewrite Z.pow_1_r]|].
  destruct (fe_sq_spec t y (fe_is_mono 101 330 t y ltac:(lia) Ht)) as (t1 & -> & H1). cbn [mbind outcome_bind]. destruct (IH _ _ H1) as (h & -> & H). exists h. split; [done|].
  rewrite <- Z.pow_2_r, <- Z.pow_mul_r in H by lia. by rewrite Nat2Z.inj_succ, Z.pow_succ_r by lia.
Qed.

(** The same for powers of one number. *)
Section Powers.
Variable x : Z.
Definition is_power (c : Z) (h : fe) (e : Z) : Prop := fe_is c h (x ^ e) /\ 0 <= e.
Lemma fe_mul_power f g a b : is_power 330 f a -> is_power 330 g b -> exists h, fe_mul f g = Ok h /\ is_power 101 h (a + b).
Proof. intros [Hf Ha] [Hg Hb]. destruct (fe_mul_spec f g _ _ Hf Hg) as (h & E & H). exists h. unfold is_power. rewrite Z.pow_add_r by done. split_and!; [done|done|lia]. Qed.
Lemma fe_sq_power f a : is_power 330 f a -> exists h, fe_sq f = Ok h /\ is_power 101 h (a + a).
Proof. intros [Hf Ha]. destruct (fe_sq_spec f _ Hf) as (h & E & H). exists h. unfold is_power. rewrite Z.pow_add_r by done. split_and!; [done|done|lia]. Qed.
Lemma fe_sq_times_power n f a : is_power 101 f a -> exists h, fe_sq_times n f = Ok h /\ is_power 101 h (a * 2 ^ Z.of_nat n).
Proof. intros [Hf Ha]. destruct (fe_sq_times_spec n f _ Hf) as (h & E & H). exists h. unfold is_power. rewrite Z.pow_mul_r by lia. split_and!; [done|done|lia]. Qed.
Lemma is_power_mono h e : is_power 101 h e -> is_power 330 h e.
Proof. intros [H He]. split; [by eapply fe_is_mono; [|exact H]|done]. Qed.
End Powers.

(** What a computation yields, step by step. *)
Definition yields {A} (m : outcome A) (P : A -> Prop) : Prop := exists a, m = Ok a /\ P a.
Lemma yields_bind {A B} (m : outcome A) (k : A -> outcome B) (Q : A -> Prop) (P : B -> Prop) :
  yields m Q -> (forall a, Q a -> yields (k a) P) -> yields (m ≫= k) P.
Proof. intros (a & -> & Ha) Hk. apply (Hk a Ha). Qed.

Ltac power_in := first [eassumption|apply is_power_mono; eassumption].
Ltac power_step :=
  match goal with
  | |- yields (mbind _ (fe_mul ?f ?g)) _ => eapply yields_bind; [eapply fe_mul_power; power_in|]
  | |- yields (mbind _ (fe_sq ?f)) _ => eapply yields_bind; [eapply fe_sq_power; power_in|]
  | |- yields (mbind _ (fe_sq_times ?n ?f)) _ => eapply yields_bind; [eapply fe_sq_times_power; power_in|]
  end; let h := fresh "t" in let H := fresh "H" in intros h H; cbn beta in H;
  match type of H with is_power _ _ _ ?e => let v := eval vm_compute in e in change e with v in H end.

Lemma fe_invert_spec z x : fe_is 330 z x -> exists h, fe_invert z = Ok h /\ fe_is 101 h (x ^ (p - 2)).
Proof.
  intros Hz. assert (H1 : is_power x 330 z 1) by (split; [by rewrite Z.pow_1_r|lia]). clear Hz. unfold fe_invert.
  match goal with |- exists h, ?m = _ /\ _ => change (yields m (fun h => fe_is 101 h (x ^ (p - 2)))) end. repeat power_step.
  edestruct (fe_mul_power x) as (h & -> & [Hp _]); [power_in|power_in|]. exists h. split; [done|]. exact Hp.
Qed.

(** Steps on field elements in general. *)
Ltac fe_in := first [eassumption|eapply fe_is_mono; [|eassumption]; lia].
Ltac fe_op f :=
  lazymatch f with
  | fe_mul _ _ => eapply fe_mul_spec; fe_in
  | fe_sq _ => eapply fe_sq_spec; fe_in
  | fe_sq2 _ => eapply fe_sq2_spec; fe_in
  | fe_add _ _ => eapply fe_add_spec; [fe_in|fe_in|lia]
  | fe_sub _ _ => eapply fe_sub_spec; [fe_in|fe_in|lia]
  | fe_neg _ => eapply fe_neg_spec; [fe_in|lia]
  end.
Ltac fe_step :=
  lazymatch goal with |- yields (mbind _ ?m) _ => eapply yields_bind; [fe_op m|] end; let h := fresh "t" in let H := fresh "H" in intros h H; cbn beta in H.

(** The candidate for the square root of [u / v]. *)
Definition divpowm1 (u v : Z) : Z := (u * v ^ 7) ^ ((p - 5) / 8) * v ^ 3 * u.
Lemma fe_divpowm1_spec f g u v : fe_is 330 f u -> fe_is 330 g v -> exists h, fe_divpowm1 f g = Ok h /\ fe_is 101 h (divpowm1 u v).
Proof.
  intros Hu Hv. unfold fe_divpowm1.
  match goal with |- exists h, ?m = _ /\ _ => change (yields m (fun h => fe_is 101 h (divpowm1 u v))) end.
  do 5 fe_step. set (x := u * v ^ 7).
  lazymatch goal with H : fe_is 101 ?t (_ * u) |- _ => assert (Hx1 : is_power x 330 t 1) end.
  { split; [|lia]. rewrite Z.pow_1_r. eapply fe_is_eq; [|fe_in]. unfold x, eqp. f_equal. ring. }
  repeat power_step. let e := eval vm_compute in ((p - 5) / 8) in match goal with H : is_power x 101 ?t e |- _ => pose proof (proj1 H : fe_is 101 t (x ^ ((p - 5) / 8))) as Hx end.
  fe_step. match goal with |- yields (fe_mul ?a ?b) _ => edestruct (fe_mul_spec a b) as (h & E & H'); [fe_in|fe_in|] end.
  exists h. split; [done|]. eapply fe_is_eq; [|exact H']. unfold divpowm1, eqp. f_equal. fold x. ring.
Qed.

(** * Bytes *)

(** The value of limbs of 26 and 25 bits in turn, and the number of bits. *)
Fixpoint mixed (h : list Z) (even : bool) : Z :=
  match h with [] => 0 | x :: h => x + 2 ^ (if even then 26 else 25) * mixed h (negb even) end.
Fixpoint bits (n : nat) (even : bool) : Z :=
  match n with O => 0 | S n => (if even then 26 else 25) + bits n (negb even) end.
Lemma bits_nonneg n even : 0 <= bits n even.
Proof. revert even. induction n as [|n IH]; intros even; cbn; [lia|]. specialize (IH (negb even)). case_match; lia. Qed.

Lemma mixed_num h : length h = 10%nat -> mixed h true = num h.
Proof. intros H. do 10 (destruct h as [|? h]; [done|]). destruct h; [|done]. unfold num, weights. cbn. ring. Qed.

Lemma div_carry a b m n : 0 < m -> 0 < n -> (b + a / m) / n = (a + m * b) / (m * n).
Proof. intros Hm Hn. rewrite <- Z.div_div by lia. f_equal. rewrite (Z.mul_comm m b), Z.div_add by lia. lia. Qed.

Lemma quotient_spec h q even : Forall (fun x => Z.abs x <= 2 ^ 28) h -> Z.abs q <= 2 ^ 28 -> quotient q h even = Ok ((q + mixed h even) / 2 ^ bits (length h) even).
Proof.
  intros Hh. revert q even. induction Hh as [|x h Hx Hh IH]; intros q even Hq; cbn [quotient mixed bits length]; [by rewrite Z.div_1_r, Z.add_0_r|].
  rewrite chk_fits by (unfold int32; lia). cbn [mbind outcome_bind]. set (w := if even then 26 else 25) in *. assert (Hw : 25 <= w <= 26) by (unfold w; case_match; lia).
  rewrite Z.shiftr_div_pow2 by lia. assert (25 <= w) by lia. pose proof (Z.pow_le_mono_r 2 25 w ltac:(lia) ltac:(lia)) as Hp.
  assert (Hb : Z.abs ((x + q) / 2 ^ w) <= 2 ^ 28).
  { assert (- 2 ^ 28 <= (x + q) / 2 ^ w < 2 ^ 28); [|lia]. split; [apply Z.div_le_lower_bound; nia|apply Z.div_lt_upper_bound; nia]. }
  rewrite IH by done. f_equal. rewrite Z.pow_add_r by (lia || apply bits_nonneg). rewrite (Z.add_comm ((x + q) / _)), div_carry by (lia || (apply Z.pow_pos_nonneg; [lia|apply bits_nonneg])).
  f_equal. lia.
Qed.

Lemma field_of V e n lo x hi : 0 <= e -> 0 <= n -> V = lo + 2 ^ e * (x + 2 ^ n * hi) -> 0 <= lo < 2 ^ e -> 0 <= x < 2 ^ n -> V / 2 ^ e mod 2 ^ n = x.
Proof.
  intros He Hn -> Hlo Hx. rewrite (Z.mul_comm (2 ^ e)), Z.div_add, (Z.div_small lo), Z.add_0_l by lia. rewrite (Z.mul_comm (2 ^ n)), Z.mod_add by lia. by apply Z.mod_small.
Qed.

(** The bits where a limb begins, and how many it has. *)
Definition begins : list Z := [0; 26; 51; 77; 102; 128; 153; 179; 204; 230].
Definition widths : list Z := [26; 25; 26; 25; 26; 25; 26; 25; 26; 26].

Section Bytes.
Variables (h : list Z) (V : Z).
Hypothesis limb : forall i, (i < 10)%nat -> h !!! i = V / 2 ^ (begins !!! i) mod 2 ^ (widths !!! i).

Lemma fe_byte_within i a (k : nat) : (i < 10)%nat -> 0 <= a -> a + 8 <= widths !!! i -> 0 <= begins !!! i -> begins !!! i + a = 8 * Z.of_nat k ->
  u8 (Z.shiftr (h !!! i) a) = V / 256 ^ Z.of_nat k mod 256.
Proof. intros Hi Ha Hw Hb E. rewrite limb by done. unfold u8. change 256 with (2 ^ 8). rewrite field_field, E, <- Z.pow_mul_r by lia. done. Qed.
Lemma fe_byte_across i a b (k : nat) : (S i < 10)%nat -> 0 <= a <= widths !!! i -> b = widths !!! i - a -> b <= 8 -> 25 <= widths !!! S i -> 0 <= begins !!! i ->
  begins !!! S i = begins !!! i + widths !!! i -> begins !!! i + a = 8 * Z.of_nat k ->
  u8 (Z.lor (Z.shiftr (h !!! i) a) (Z.shiftl (h !!! S i) b)) = V / 256 ^ Z.of_nat k mod 256.
Proof.
  intros Hi Ha -> Hb Hw Hp Hn E. rewrite !limb by lia. unfold u8. change 256 with (2 ^ 8). rewrite Hn, field_across, E, <- Z.pow_mul_r by lia. done.
Qed.

Lemma fe_bytes_spec : fe_bytes h = digits 256 32 V.
Proof.
  rewrite digits_seq by lia. unfold fe_bytes. cbn [seq map]. cbv [Z.to_nat Pos.to_nat Pos.iter_op Nat.add Z.add Pos.add Pos.succ].
  repeat lazymatch goal with
  | |- u8 (Z.lor _ _) = _ => apply fe_byte_across; vm_compute; first [reflexivity|lia|split; discriminate|discriminate]
  | |- u8 _ = _ => apply fe_byte_within; vm_compute; first [reflexivity|lia|discriminate]
  | |- _ :: _ = _ :: _ => f_equal
  end; done.
Qed.
End Bytes.

(** Digits of a field element. *)
Definition digit_limbs : list (Z * Z) := map (fun w => (0, 2 ^ w - 1)) [26; 25; 26; 25; 26; 25; 26; 25; 26; 25].
Lemma digit_field e n lo x hi V : 0 <= e -> 0 <= n -> V = lo + 2 ^ e * (x + 2 ^ n * hi) -> 0 <= lo < 2 ^ e -> 0 <= x < 2 ^ n -> x = V / 2 ^ e mod 2 ^ n.
Proof. intros. symmetry. by eapply field_of. Qed.
Lemma digit_limbs_spec h : inb digit_limbs h -> 0 <= num h < 2 ^ 255 /\ fe_bytes h = digits 256 32 (num h).
Proof.
  intros H. unfold inb, digit_limbs in H. cbn [map] in H.
  apply Forall2_cons_inv_l in H as (x0 & r0 & H0 & H & ->). apply Forall2_cons_inv_l in H as (x1 & r1 & H1 & H & ->). apply Forall2_cons_inv_l in H as (x2 & r2 & H2 & H & ->).
  apply Forall2_cons_inv_l in H as (x3 & r3 & H3 & H & ->). apply Forall2_cons_inv_l in H as (x4 & r4 & H4 & H & ->). apply Forall2_cons_inv_l in H as (x5 & r5 & H5 & H & ->).
  apply Forall2_cons_inv_l in H as (x6 & r6 & H6 & H & ->). apply Forall2_cons_inv_l in H as (x7 & r7 & H7 & H & ->). apply Forall2_cons_inv_l in H as (x8 & r8 & H8 & H & ->).
  apply Forall2_cons_inv_l in H as (x9 & r9 & H9 & H & ->). apply Forall2_nil_inv_l in H as ->. cbn [fst snd] in *. unfold num, weights. cbn [wsum]. split; [lia|].
  apply fe_bytes_spec. intros i Hi.
  destruct i as [|i]; [apply (digit_field 0 26 (0) x0 (x1 + 2 ^ 25 * x2 + 2 ^ 51 * x3 + 2 ^ 76 * x4 + 2 ^ 102 * x5 + 2 ^ 127 * x6 + 2 ^ 153 * x7 + 2 ^ 178 * x8 + 2 ^ 204 * x9)); lia|].
  destruct i as [|i]; [apply (digit_field 26 25 (x0) x1 (x2 + 2 ^ 26 * x3 + 2 ^ 51 * x4 + 2 ^ 77 * x5 + 2 ^ 102 * x6 + 2 ^ 128 * x7 + 2 ^ 153 * x8 + 2 ^ 179 * x9)); lia|].
  destruct i as [|i]; [apply (digit_field 51 26 (x0 + 2 ^ 26 * x1) x2 (x3 + 2 ^ 25 * x4 + 2 ^ 51 * x5 + 2 ^ 76 * x6 + 2 ^ 102 * x7 + 2 ^ 127 * x8 + 2 ^ 153 * x9)); lia|].
  destruct i as [|i]; [apply (digit_field 77 25 (x0 + 2 ^ 26 * x1 + 2 ^ 51 * x2) x3 (x4 + 2 ^ 26 * x5 + 2 ^ 51 * x6 + 2 ^ 77 * x7 + 2 ^ 102 * x8 + 2 ^ 128 * x9)); lia|].
  destruct i as [|i]; [apply (digit_field 102 26 (x0 + 2 ^ 26 * x1 + 2 ^ 51 * x2 + 2 ^ 77 * x3) x4 (x5 + 2 ^ 25 * x6 + 2 ^ 51 * x7 + 2 ^ 76 * x8 + 2 ^ 102 * x9)); lia|].
  destruct i as [|i]; [apply (digit_field 128 25 (x0 + 2 ^ 26 * x1 + 2 ^ 51 * x2 + 2 ^ 77 * x3 + 2 ^ 102 * x4) x5 (x6 + 2 ^ 26 * x7 + 2 ^ 51 * x8 + 2 ^ 77 * x9)); lia|].
  destruct i as [|i]; [apply (digit_field 153 26 (x0 + 2 ^ 26 * x1 + 2 ^ 51 * x2 + 2 ^ 77 * x3 + 2 ^ 102 * x4 + 2 ^ 128 * x5) x6 (x7 + 2 ^ 25 * x8 + 2 ^ 51 * x9)); lia|].
  destruct i as [|i]; [apply (digit_field 179 25 (x0 + 2 ^ 26 * x1 + 2 ^ 51 * x2 + 2 ^ 77 * x3 + 2 ^ 102 * x4 + 2 ^ 128 * x5 + 2 ^ 153 * x6) x7 (x8 + 2 ^ 26 * x9)); lia|].
  destruct i as [|i]; [apply (digit_field 204 26 (x0 + 2 ^ 26 * x1 + 2 ^ 51 * x2 + 2 ^ 77 * x3 + 2 ^ 102 * x4 + 2 ^ 128 * x5 + 2 ^ 153 * x6 + 2 ^ 179 * x7) x8 (x9)); lia|].
  destruct i as [|i]; [apply (digit_field 230 26 (x0 + 2 ^ 26 * x1 + 2 ^ 51 * x2 + 2 ^ 77 * x3 + 2 ^ 102 * x4 + 2 ^ 128 * x5 + 2 ^ 153 * x6 + 2 ^ 179 * x7 + 2 ^ 204 * x8) x9 (0)); lia|].
  lia.
Qed.

(** The quotient [fe_tobytes] computes is the one by [p]. *)
Lemma quotient_by_p H L h9 q0 q : H = L + 2 ^ 230 * h9 -> Z.abs L < 2 ^ 232 -> 100 * Z.abs h9 <= 660 * 2 ^ 24 -> q0 = (19 * h9 + 2 ^ 24) / 2 ^ 25 -> q = (q0 + H) / 2 ^ 255 ->
  -4 <= q <= 3 /\ -64 <= q0 <= 64 /\ 0 <= H - p * q < p.
Proof.
  intros EH HL H9 E0 Eq. pose proof (Z.div_mod (19 * h9 + 2 ^ 24) (2 ^ 25) ltac:(lia)) as D0. pose proof (Z.mod_pos_bound (19 * h9 + 2 ^ 24) (2 ^ 25) ltac:(lia)) as M0.
  pose proof (Z.div_mod (q0 + H) (2 ^ 255) ltac:(lia)) as D. pose proof (Z.mod_pos_bound (q0 + H) (2 ^ 255) ltac:(lia)) as M. rewrite <- E0 in D0. rewrite <- Eq in D.
  assert (Hq : -4 <= q <= 3) by lia. split; [done|]. split; [lia|]. unfold p. assert (q = -4 \/ q = -3 \/ q = -2 \/ q = -1 \/ q = 0 \/ q = 1 \/ q = 2 \/ q = 3) as [ -> | [ -> | [ -> | [ -> | [ -> | [ -> | [ -> | -> ] ] ] ] ] ] ] by lia; lia.
Qed.

(** The bounds of the limbs before the last carries. *)
Definition tobytes_bounds : list (Z * Z) := match size_bounds 660 with (a, b) :: l => (a - 76, b + 57) :: l | [] => [] end.
Lemma to_digits_bounds : irun int32 to_digits tobytes_bounds = Some digit_limbs.
Proof. vm_compute. reflexivity. Qed.
Lemma to_digits_ok : forallb (step_ok (2 ^ 255) weights) to_digits = true.
Proof. vm_compute. reflexivity. Qed.

Lemma lower_limbs h : within 660 h -> Z.abs (num h - 2 ^ 230 * h !!! 9%nat) < 2 ^ 232.
Proof.
  intros H. assert (H9 : inb (<[9%nat := (0, 0)]> (size_bounds 660)) (<[9%nat := 0]> h)) by (by apply inb_insert).
  assert (Hw : Forall (fun x => 0 <= x) weights) by (unfold weights; repeat constructor; lia). pose proof (inb_wsum weights _ _ H9 Hw) as HB.
  rewrite wsum_insert in HB by (rewrite ?(within_length _ _ H); cbn; lia). change (weights !!! 9%nat) with (2 ^ 230) in HB. fold (num h) in HB.
  let a := eval vm_compute in (wsum weights (map fst (<[9%nat := (0, 0)]> (size_bounds 660)))) in change (wsum weights (map fst _)) with a in HB.
  let a := eval vm_compute in (wsum weights (map snd (<[9%nat := (0, 0)]> (size_bounds 660)))) in change (wsum weights (map snd _)) with a in HB. lia.
Qed.

Lemma fe_tobytes_spec h : within 660 h -> fe_tobytes h = Ok (digits 256 32 (num h mod p)).
Proof.
  intros Hh. pose proof (within_lookup 660 h 9 ltac:(lia) Hh) as [H9 _]. change (sizes !!! 9%nat) with (2 ^ 24) in H9.
  pose proof (within_lookup 660 h 0 ltac:(lia) Hh) as [H0 _]. change (sizes !!! 0%nat) with (2 ^ 25) in H0. unfold fe_tobytes. change (Z.shiftl 1 24) with (2 ^ 24).
  rewrite chk_fits by (unfold int32; lia). cbn [mbind outcome_bind]. rewrite chk_fits by (unfold int32; lia). cbn [mbind outcome_bind].
  rewrite Z.shiftr_div_pow2 by lia. set (q0 := (19 * h !!! 9%nat + 2 ^ 24) / 2 ^ 25). set (q := (q0 + num h) / 2 ^ 255).
  destruct (quotient_by_p (num h) (num h - 2 ^ 230 * h !!! 9%nat) (h !!! 9%nat) q0 q ltac:(ring) (lower_limbs h Hh) H9 eq_refl eq_refl) as (Hq & Hq0 & Hr).
  rewrite quotient_spec; [|apply Forall_lookup_2; intros i x Hi|lia].
  2:{ pose proof (lookup_lt_Some _ _ _ Hi) as Hl. rewrite (within_length _ _ Hh) in Hl. apply list_lookup_total_correct in Hi as <-. pose proof (within_lookup 660 h i Hl Hh). lia. }
  rewrite mixed_num, (within_length _ _ Hh) by (by eapply within_length). change (bits 10 true) with 255. cbn [mbind outcome_bind]. fold q.
  rewrite chk_fits by (unfold int32; lia). cbn [mbind outcome_bind]. rewrite chk_fits by (unfold int32; lia). cbn [mbind outcome_bind].
  assert (HB : inb tobytes_bounds (<[0%nat := h !!! 0%nat + 19 * q]> h)).
  { unfold within in Hh. change tobytes_bounds with (<[0%nat := (- 221459251 - 76, 221459251 + 57)]> (size_bounds 660)). apply inb_insert; [done|]. cbn [fst snd]. lia. }
  destruct (irun_sound _ _ _ _ _ to_digits_bounds HB) as (h' & R & Hd). rewrite R. cbn [mbind outcome_bind]. f_equal.
  destruct (digit_limbs_spec h' Hd) as [Hn ->]. f_equal.
  destruct (run_wsum int32 weights (2 ^ 255) to_digits _ h' ltac:(rewrite length_insert, (within_length _ _ Hh); done) to_digits_ok R) as [ [k D] _].
  fold (num h') in D. rewrite wsum_insert in D by (rewrite ?(within_length _ _ Hh); cbn; lia). change (weights !!! 0%nat) with 1 in D. fold (num h) in D.
  apply (Z.mod_unique _ _ q); [by left; unfold p in *; lia|]. assert (k = - q) by (unfold p in Hr; lia). unfold p. lia.
Qed.

Lemma value_tobytes h s : within 660 h -> fe_tobytes h = Ok s -> s = digits 256 32 (num h mod p) /\ value 256 s = num h mod p /\ scalar s.
Proof.
  intros Hh E. rewrite fe_tobytes_spec in E by done. assert (s = digits 256 32 (num h mod p)) as -> by congruence. pose proof (Z.mod_pos_bound (num h) p ltac:(unfold p; lia)) as Hm.
  split; [done|]. split; [apply value_digits; [lia|unfold p in *; lia]|]. split; [apply (digits_ok 256); lia|apply length_digits].
Qed.

Lemma fe_isnegative_spec h x : fe_is 660 h x -> fe_isnegative h = Ok ((x mod p) mod 2).
Proof.
  intros [Hh Hx]. unfold fe_isnegative. rewrite fe_tobytes_spec by done. cbn [mbind outcome_bind]. rewrite Hx. f_equal. change 1 with (Z.ones 1). rewrite Z.land_ones by lia.
  cbn [digits lookup_total list_lookup_total]. change (2 ^ 1) with 2. symmetry. apply Znumtheory.Zmod_div_mod; [lia..|]. by exists 128.
Qed.
Lemma fe_isnonzero_spec h x : fe_is 660 h x -> fe_isnonzero h = Ok (if x mod p =? 0 then 0 else 1).
Proof.
  intros [Hh Hx]. unfold fe_isnonzero. destruct (fe_tobytes h) as [s| | |] eqn:E; try (rewrite fe_tobytes_spec in E by done; done). cbn [mbind outcome_bind].
  destruct (value_tobytes h s Hh E) as (_ & Ev & [Hs _]). pose proof (sc_isnonzero_spec s Hs) as Hz. unfold sc_isnonzero in Hz. rewrite Hz, Ev, Hx. done.
Qed.

(** Reading bytes. *)
Lemma mod_split x a b c : 0 <= a -> 0 <= b -> c = a + b -> x mod 2 ^ c = x mod 2 ^ a + 2 ^ a * (x / 2 ^ a mod 2 ^ b).
Proof. intros Ha Hb ->. rewrite Z.pow_add_r by done. apply Z.rem_mul_r; lia. Qed.
Lemma fields_255 x : x mod 2 ^ 255 = x mod 2 ^ 32 + 2 ^ 32 * (x / 2 ^ 32 mod 2 ^ 24) + 2 ^ 56 * (x / 2 ^ 56 mod 2 ^ 24) + 2 ^ 80 * (x / 2 ^ 80 mod 2 ^ 24) + 2 ^ 104 * (x / 2 ^ 104 mod 2 ^ 24) +
  2 ^ 128 * (x / 2 ^ 128 mod 2 ^ 32) + 2 ^ 160 * (x / 2 ^ 160 mod 2 ^ 24) + 2 ^ 184 * (x / 2 ^ 184 mod 2 ^ 24) + 2 ^ 208 * (x / 2 ^ 208 mod 2 ^ 24) + 2 ^ 232 * (x / 2 ^ 232 mod 2 ^ 23).
Proof.
  rewrite (mod_split x 232 23 255), (mod_split x 208 24 232), (mod_split x 184 24 208), (mod_split x 160 24 184), (mod_split x 128 32 160), (mod_split x 104 24 128), (mod_split x 80 24 104),
    (mod_split x 56 24 80), (mod_split x 32 24 56) by lia. ring.
Qed.

(** The limbs read, by the fields of bits. *)
Definition load_bounds : list (Z * Z) := map (fun b => (0, b)) [2 ^ 32 - 1; 2 ^ 30 - 1; 2 ^ 29 - 1; 2 ^ 27 - 1; 2 ^ 26 - 1; 2 ^ 32 - 1; 2 ^ 31 - 1; 2 ^ 29 - 1; 2 ^ 28 - 1; 2 ^ 25 - 1].
Lemma load_carries_ok : forallb (step_ok p weights) load_carries = true /\
  match irun int64 load_carries load_bounds with Some b => inside b (size_bounds 101) | None => false end = true.
Proof. split; vm_compute; reflexivity. Qed.

Lemma load_limbs_spec s : scalar s -> num (load_limbs s) = value 256 s mod 2 ^ 255 /\ inb load_bounds (load_limbs s) /\ not_canonical (load_limbs s) = (p <=? value 256 s mod 2 ^ 255).
Proof.
  intros [Hs Hl]. unfold load_limbs. rewrite !load_3_spec, !load_4_spec by (done || lia). rewrite !Z.shiftl_mul_pow2 by lia. rewrite fields_255.
  replace (value 256 s / 2 ^ (8 * Z.of_nat 0)) with (value 256 s) by (cbn; by rewrite Z.div_1_r). change (8 * Z.of_nat 4) with 32. change (8 * Z.of_nat 7) with 56. change (8 * Z.of_nat 10) with 80.
  change (8 * Z.of_nat 13) with 104. change (8 * Z.of_nat 16) with 128. change (8 * Z.of_nat 20) with 160. change (8 * Z.of_nat 23) with 184. change (8 * Z.of_nat 26) with 208. change (8 * Z.of_nat 29) with 232.
  change 8388607 with (Z.ones 23). rewrite Z.land_ones by lia. set (x := value 256 s).
  rewrite <- (Znumtheory.Zmod_div_mod (2 ^ 23) (2 ^ 24) (x / 2 ^ 232)) by (lia || by exists 2).
  pose proof (Z.mod_pos_bound x (2 ^ 32) ltac:(lia)) as B0. pose proof (Z.mod_pos_bound (x / 2 ^ 32) (2 ^ 24) ltac:(lia)) as B1. pose proof (Z.mod_pos_bound (x / 2 ^ 56) (2 ^ 24) ltac:(lia)) as B2.
  pose proof (Z.mod_pos_bound (x / 2 ^ 80) (2 ^ 24) ltac:(lia)) as B3. pose proof (Z.mod_pos_bound (x / 2 ^ 104) (2 ^ 24) ltac:(lia)) as B4. pose proof (Z.mod_pos_bound (x / 2 ^ 128) (2 ^ 32) ltac:(lia)) as B5.
  pose proof (Z.mod_pos_bound (x / 2 ^ 160) (2 ^ 24) ltac:(lia)) as B6. pose proof (Z.mod_pos_bound (x / 2 ^ 184) (2 ^ 24) ltac:(lia)) as B7. pose proof (Z.mod_pos_bound (x / 2 ^ 208) (2 ^ 24) ltac:(lia)) as B8.
  pose proof (Z.mod_pos_bound (x / 2 ^ 232) (2 ^ 23) ltac:(lia)) as B9.
  revert B0 B1 B2 B3 B4 B5 B6 B7 B8 B9. generalize (x mod 2 ^ 32) (x / 2 ^ 32 mod 2 ^ 24) (x / 2 ^ 56 mod 2 ^ 24) (x / 2 ^ 80 mod 2 ^ 24) (x / 2 ^ 104 mod 2 ^ 24) (x / 2 ^ 128 mod 2 ^ 32)
    (x / 2 ^ 160 mod 2 ^ 24) (x / 2 ^ 184 mod 2 ^ 24) (x / 2 ^ 208 mod 2 ^ 24) (x / 2 ^ 232 mod 2 ^ 23). clear. intros f0 f1 f2 f3 f4 f5 f6 f7 f8 f9 B0 B1 B2 B3 B4 B5 B6 B7 B8 B9.
  split; [unfold num, weights; cbn [wsum]; ring|]. split.
  - unfold inb, load_bounds. cbn [map]. repeat constructor; cbn [fst snd]; lia.
  - unfold not_canonical. cbv [Z.to_nat Pos.to_nat Pos.iter_op Nat.add]. cbn [lookup_total list_lookup_total]. apply eq_true_iff_eq. rewrite !andb_true_iff, !Z.eqb_eq, !Z.leb_le. unfold p. lia.
Qed.

Lemma fe_frombytes_spec s : scalar s -> let n := value 256 s mod 2 ^ 255 in
  if p <=? n then fe_frombytes s = Ok None else exists h, fe_frombytes s = Ok (Some h) /\ fe_is 101 h n.
Proof.
  intros Hs. destruct (load_limbs_spec s Hs) as (En & HB & Ec). unfold fe_frombytes. cbn zeta. rewrite Ec. case_match; [done|].
  destruct load_carries_ok as [Hok Hi]. destruct (irun int64 load_carries load_bounds) as [b|] eqn:Eb; [|done].
  destruct (irun_sound _ _ _ _ _ Eb HB) as (h & R & Hb). rewrite R. cbn [mbind outcome_bind]. pose proof (inb_inside _ _ _ Hi Hb) as Hw.
  rewrite (map_to_int32 101 h) by (done || lia). exists h. split; [done|]. split; [done|]. rewrite <- En. apply eqp_divide.
  apply (run_wsum int64 weights p load_carries (load_limbs s) h eq_refl Hok R).
Qed.

Lemma fe_cmov_spec `{BuildConfig} f g b : length f = 10%nat -> length g = 10%nat -> b = 0 \/ b = 1 -> fe_cmov f g b = Ok (if b =? 1 then g else f).
Proof.
  intros Hf Hg Hb. unfold fe_cmov. rewrite massert_true by (by destruct Hb as [-> | ->]). cbn [mbind outcome_bind]. f_equal. destruct Hb as [-> | ->]; cbn [Z.eqb Z.opp Pos.eqb].
  - etrans; [|symmetry; apply (list_10 f Hf)]. apply map_ext. intros i. by rewrite Z.land_0_r, Z.lxor_0_r.
  - etrans; [|symmetry; apply (list_10 g Hg)]. apply map_ext. intros i. by rewrite Z.land_m1_r, <- Z.lxor_assoc, Z.lxor_nilpotent, Z.lxor_0_l.
Qed.

Lemma within_inside c h : inside (map (fun x => (x, x)) h) (size_bounds c) = true -> within c h.
Proof. intros H. apply (inb_inside _ _ _ H). clear. induction h as [|x h IH]; constructor; [cbn; lia|exact IH]. Qed.

(** Multiplication in the field keeps what its comments promise.  For factors
    whose limbs are at most 1.65 times 2^26 and 2^25, none of the 32-bit multiples,
    64-bit products and sums, or carries of [fe_mul], [fe_sq] and [fe_sq2]
    overflows, the limbs of the result are at most 1.01 times 2^25 and 2^24, and
    the result is the product, the square and twice the square modulo
    [2^255 - 19].  The chain of squares and products in [fe_invert] is the power
    [p - 2], and that of [fe_divpowm1] the one used for square roots. *)
Theorem field_products_exact f g : within 330 f -> within 330 g ->
  (exists h, fe_mul f g = Ok h /\ within 101 h /\ num h mod p = (num f * num g) mod p) /\
  (exists h, fe_sq f = Ok h /\ within 101 h /\ num h mod p = (num f * num f) mod p) /\
  (exists h, fe_sq2 f = Ok h /\ within 101 h /\ num h mod p = (2 * (num f * num f)) mod p) /\
  (exists h, fe_invert f = Ok h /\ within 101 h /\ num h mod p = (num f ^ (p - 2)) mod p) /\
  (exists h, fe_divpowm1 f g = Ok h /\ within 101 h /\ num h mod p = ((num f * num g ^ 7) ^ ((p - 5) / 8) * num g ^ 3 * num f) mod p).
Proof.
  intros Hf Hg. assert (Ff : fe_is 330 f (num f)) by done. assert (Fg : fe_is 330 g (num g)) by done.
  split_and!; [apply (fe_mul_spec f g _ _ Ff Fg)|apply (fe_sq_spec f _ Ff)|apply (fe_sq2_spec f _ Ff)|apply (fe_invert_spec f _ Ff)|apply (fe_divpowm1_spec f g _ _ Ff Fg)].
Qed.
(** The largest limbs, all negative and all positive. *)
Definition largest : fe := map (fun b => 330 * b / 100) sizes.
Lemma field_products_exact_witness : exists h, fe_mul (map Z.opp largest) largest = Ok h /\ within 101 h /\ num h mod p = (num (map Z.opp largest) * num largest) mod p.
Proof.
  assert (H1 : within 330 (map Z.opp largest)) by (apply within_inside; vm_compute; reflexivity). assert (H2 : within 330 largest) by (apply within_inside; vm_compute; reflexivity).
  destruct (field_products_exact (map Z.opp largest) largest H1 H2) as [H _]. exact H.
Defined.

(** Field elements and their 32 bytes.  [fe_tobytes] of limbs at most 3.3
    times 2^26 and 2^25 writes the one number below [p] it stands for, so equal
    elements have equal bytes; reading accepts exactly the numbers below [p], the
    top bit apart, and what is read is written back unchanged; and
    reading what was written gives the same element with small limbs. *)
Theorem field_bytes_roundtrip s h : scalar s -> within 660 h ->
  (p <= value 256 s mod 2 ^ 255 -> fe_frombytes s = Ok None) /\
  (value 256 s mod 2 ^ 255 < p -> exists f, fe_frombytes s = Ok (Some f) /\ within 101 f /\ fe_tobytes f = Ok (digits 256 32 (value 256 s mod 2 ^ 255))) /\
  (exists t, fe_tobytes h = Ok t /\ t = digits 256 32 (num h mod p) /\ exists f, fe_frombytes t = Ok (Some f) /\ within 101 f /\ num f mod p = num h mod p).
Proof.
  intros Hs Hh. pose proof (fe_frombytes_spec s Hs) as Hr. cbn zeta in Hr. destruct (Z.leb_spec p (value 256 s mod 2 ^ 255)) as [Hp|Hp].
  all: split_and!; [done || lia|intros Hv|].
  1: lia.
  2: { destruct Hr as (f & E & Hf & Ef). exists f. split; [done|]. split; [done|]. rewrite fe_tobytes_spec by (by eapply within_mono; [|exact Hf]). rewrite Ef.
       rewrite (Z.mod_small _ p); [done|]. pose proof (Z.mod_pos_bound (value 256 s) (2 ^ 255)). lia. }
  all: destruct (fe_tobytes h) as [t| | |] eqn:E; try (rewrite fe_tobytes_spec in E by done; done).
  all: destruct (value_tobytes h t Hh E) as (Et & Ev & Ht); exists t; split_and!; [done|done|].
  all: pose proof (fe_frombytes_spec t Ht) as Hr'; cbn zeta in Hr'; rewrite Ev in Hr'; pose proof (Z.mod_pos_bound (num h) p ltac:(unfold p; lia)) as Hm.
  all: rewrite (Z.mod_small _ (2 ^ 255)) in Hr' by (unfold p in *; lia); rewrite (proj2 (Z.leb_gt _ _)) in Hr' by lia.
  all: destruct Hr' as (f & Ef & Hf & En); exists f; split_and!; [done|done|]; rewrite En; apply Z.mod_mod; unfold p; lia.
Qed.
Lemma field_bytes_roundtrip_witness :
  fe_frombytes (digits 256 32 p) = Ok None /\ exists t, fe_tobytes (map Z.opp fe_1) = Ok t /\ t = digits 256 32 (p - 1).
Proof.
  assert (HS : scalar (digits 256 32 p)) by (split; [apply (digits_ok 256); lia|apply length_digits]).
  assert (HW : within 660 (map Z.opp fe_1)) by (apply within_inside; vm_compute; reflexivity).
  destruct (field_bytes_roundtrip (digits 256 32 p) (map Z.opp fe_1) HS HW) as (H1 & _ & t & Et & Ht & _). split.
  - apply H1. vm_compute. discriminate.
  - exists t. split; [exact Et|exact Ht].
Defined.
