(* ===== verification/Group.v ===== *)
(** Abelian groups and the multiples of their elements: what the algorithms on
    points of the curve need of the curve.  [crypto-ops.c] has several algorithms
    for multiples; their proofs use this interface only. *)
From S2P Require Import Prelude.

Class AbelianGroup (G : Type) `{Equiv G} := {
  gadd : G -> G -> G;
  gzero : G;
  gneg : G -> G;
  g_equiv :: Equivalence (≡@{G});
  gadd_proper :: Proper ((≡) ==> (≡) ==> (≡)) gadd;
  gneg_proper :: Proper ((≡) ==> (≡)) gneg;
  gadd_assoc x y z : gadd x (gadd y z) ≡ gadd (gadd x y) z;
  gadd_comm x y : gadd x y ≡ gadd y x;
  gadd_0_l x : gadd gzero x ≡ x;
  gadd_neg_l x : gadd (gneg x) x ≡ gzero;
}.

Declare Scope group_scope.
Delimit Scope group_scope with G.
Infix "+" := gadd : group_scope.
Notation "- x" := (gneg x) : group_scope.
Notation "x - y" := (gadd x (gneg y)) : group_scope.

Section Multiples.
Context {G : Type} `{AbelianGroup G}.
Implicit Types x y z : G.
Local Open Scope group_scope.

Lemma gadd_0_r x : x + gzero ≡ x.
Proof. by rewrite gadd_comm, gadd_0_l. Qed.
Lemma gadd_neg_r x : x - x ≡ gzero.
Proof. by rewrite gadd_comm, gadd_neg_l. Qed.
Lemma gadd_cancel_l x y z : x + y ≡ x + z -> y ≡ z.
Proof. intros E. rewrite <- (gadd_0_l y), <- (gadd_neg_l x), <- gadd_assoc, E, gadd_assoc, gadd_neg_l. apply gadd_0_l. Qed.
Lemma gneg_unique x y : x + y ≡ gzero -> y ≡ - x.
Proof. intros E. apply (gadd_cancel_l x). by rewrite E, gadd_neg_r. Qed.
Lemma gneg_0 : - gzero ≡ gzero.
Proof. symmetry. apply gneg_unique, gadd_0_l. Qed.
Lemma gneg_neg x : - - x ≡ x.
Proof. symmetry. apply gneg_unique, gadd_neg_l. Qed.
Lemma gadd_swap x y z t : (x + y) + (z + t) ≡ (x + z) + (y + t).
Proof. rewrite <- !gadd_assoc. by rewrite (gadd_assoc y z), (gadd_comm y z), <- gadd_assoc. Qed.
Lemma gneg_add x y : - (x + y) ≡ - x - y.
Proof. symmetry. apply gneg_unique. by rewrite gadd_swap, !gadd_neg_r, gadd_0_l. Qed.

(** Multiples by natural numbers and by integers. *)
Fixpoint nmul (n : nat) (x : G) : G := match n with O => gzero | S n => x + nmul n x end.
Definition zmul (n : Z) (x : G) : G := if (n <? 0)%Z then - nmul (Z.to_nat (- n)) x else nmul (Z.to_nat n) x.

#[export] Instance nmul_proper n : Proper ((≡) ==> (≡)) (nmul n).
Proof. intros x y E. induction n as [|n IH]; cbn; [done|]. by apply gadd_proper. Qed.
#[export] Instance zmul_proper n : Proper ((≡) ==> (≡)) (zmul n).
Proof. intros x y E. unfold zmul. destruct (n <? 0)%Z; [apply gneg_proper|]; by apply nmul_proper. Qed.

Lemma zmul_succ n x : zmul (Z.succ n) x ≡ x + zmul n x.
Proof.
  unfold zmul. destruct (Z.ltb_spec n 0), (Z.ltb_spec (Z.succ n) 0); [| |lia|].
  - replace (Z.to_nat (- n)) with (S (Z.to_nat (- Z.succ n))) by lia. cbn [nmul]. by rewrite gneg_add, gadd_assoc, gadd_neg_r, gadd_0_l.
  - replace n with (-1)%Z by lia. change (gzero ≡ x - (x + gzero)). by rewrite gneg_add, gneg_0, gadd_0_r, gadd_neg_r.
  - replace (Z.to_nat (Z.succ n)) with (S (Z.to_nat n)) by lia. done.
Qed.
Lemma zmul_0 x : zmul 0 x ≡ gzero.
Proof. done. Qed.
Lemma zmul_1 x : zmul 1 x ≡ x.
Proof. change 1%Z with (Z.succ 0). by rewrite zmul_succ, zmul_0, gadd_0_r. Qed.
Lemma zmul_pred n x : zmul (Z.pred n) x ≡ zmul n x - x.
Proof. rewrite <- (Z.succ_pred n) at 2. by rewrite zmul_succ, (gadd_comm x), <- gadd_assoc, gadd_neg_r, gadd_0_r. Qed.
Lemma zmul_add n m x : zmul (n + m) x ≡ zmul n x + zmul m x.
Proof.
  revert n. apply Z.peano_ind; [by rewrite Z.add_0_l, zmul_0, gadd_0_l| |]; intros n IH.
  - by rewrite Z.add_succ_l, !zmul_succ, IH, gadd_assoc.
  - by rewrite Z.add_pred_l, !zmul_pred, IH, <- !gadd_assoc, (gadd_comm (zmul m x)).
Qed.
Lemma zmul_opp n x : zmul (- n) x ≡ - zmul n x.
Proof. apply gneg_unique. by rewrite <- zmul_add, Z.add_opp_diag_r. Qed.
Lemma zmul_sub n m x : zmul (n - m) x ≡ zmul n x - zmul m x.
Proof. by rewrite <- Z.add_opp_r, zmul_add, zmul_opp. Qed.
Lemma zmul_zero n : zmul n gzero ≡ gzero.
Proof. revert n. apply Z.peano_ind; [done| |]; intros n IH; [by rewrite zmul_succ, IH, gadd_0_l|by rewrite zmul_pred, IH, gneg_0, gadd_0_l]. Qed.
Lemma zmul_gadd n x y : zmul n (x + y) ≡ zmul n x + zmul n y.
Proof.
  revert n. apply Z.peano_ind; [by rewrite !zmul_0, gadd_0_l| |]; intros n IH; [rewrite !zmul_succ, IH|rewrite !zmul_pred, IH, gneg_add]; apply gadd_swap.
Qed.
Lemma zmul_neg n x : zmul n (- x) ≡ - zmul n x.
Proof. apply gneg_unique. by rewrite <- zmul_gadd, gadd_neg_r, zmul_zero. Qed.
Lemma zmul_mul n m x : zmul (n * m) x ≡ zmul n (zmul m x).
Proof.
  revert n. apply Z.peano_ind; [done| |]; intros n IH; [by rewrite Z.mul_succ_l, zmul_succ, <- IH, zmul_add, gadd_comm|by rewrite Z.mul_pred_l, zmul_pred, <- IH, zmul_sub].
Qed.
Lemma zmul_2 x : zmul 2 x ≡ x + x.
Proof. change 2%Z with (1 + 1)%Z. by rewrite zmul_add, zmul_1. Qed.
End Multiples.
