(* ===== verification/PrimeField.v ===== *)
(** The field of [2^255 - 19] elements.

    The arithmetic of [FieldOps] is exact modulo [p].  That [p] is prime is what
    makes [fe_invert], a power, an inversion, and what the laws of the curve need.
    It is proved here by Pocklington's criterion: a number [n] is prime if primes
    [q] are known whose product divides [n - 1] and exceeds the square root of [n],
    with a number of order divisible by [q] for each. *)
From stdpp Require Import list_numbers.
From Stdlib Require Import Znumtheory Zpow_facts.
From S2P Require Import Prelude IntUtil Limbs ScalarOps FieldOps.

(** * Fermat's theorem *)

Lemma prime_pos q : prime q -> 1 < q.
Proof. by intros [H _]. Qed.
#[export] Hint Resolve prime_pos : core.

Lemma mod_divide x y n : 0 < n -> x mod n = y mod n <-> (n | x - y).
Proof. intros Hn. rewrite Z.cong_iff_ex. done. Qed.

Definition product (l : list Z) : Z := foldr Z.mul 1 l.
#[export] Instance product_perm : Proper ((≡ₚ) ==> (=)) product.
Proof. induction 1; unfold product in *; cbn; [done|congruence|ring|congruence]. Qed.

Section Fermat.
Variables (q a : Z).
Hypotheses (Hq : prime q) (Ha : ~ (q | a)).

Lemma product_mod l : product (map (fun i => a * i mod q) l) mod q = (a ^ zlen l * product l) mod q.
Proof.
  pose proof (prime_pos q Hq). induction l as [|x l IH]; [done|]. rewrite zlen_cons, Z.pow_add_r, Z.pow_1_r by (pose proof (zlen_nonneg l); lia).
  unfold product in *. cbn [map foldr]. rewrite Zmult_mod, IH, <- Zmult_mod. rewrite Z.mul_mod_idemp_l by lia. f_equal. ring.
Qed.

Lemma coprime_below i : 1 <= i < q -> ~ (q | i).
Proof. intros Hi Hd%Z.divide_pos_le; lia. Qed.

Lemma multiples_perm : map (fun i => a * i mod q) (seqZ 1 (q - 1)) ≡ₚ seqZ 1 (q - 1).
Proof.
  pose proof (prime_pos q Hq). apply submseteq_length_Permutation; [|by rewrite length_map]. apply NoDup_submseteq.
  - apply NoDup_fmap_2_strong; [|apply NoDup_seqZ]. intros i j Hi%elem_of_seqZ Hj%elem_of_seqZ E%mod_divide; [|lia].
    rewrite <- Z.mul_sub_distr_l in E. apply (prime_mult q Hq) in E as [E|E]; [done|]. destruct (Z.lt_trichotomy i j) as [Hl|[Hl|Hl] ]; [|done|].
    + apply Z.divide_opp_r in E. destruct (coprime_below (j - i)); [lia|]. by replace (j - i) with (- (i - j)) by lia.
    + destruct (coprime_below (i - j)); [lia|done].
  - intros x (i & -> & Hi%elem_of_seqZ)%list_elem_of_fmap. apply elem_of_seqZ. pose proof (Z.mod_pos_bound (a * i) q ltac:(lia)).
    assert (a * i mod q <> 0); [|lia]. intros E%Z.mod_divide; [|lia]. apply (prime_mult q Hq) in E as [E|E]; [done|]. destruct (coprime_below i); [lia|done].
Qed.

Lemma product_coprime l : Forall (fun i => 1 <= i < q) l -> ~ (q | product l).
Proof.
  pose proof (prime_pos q Hq). induction 1 as [|i l Hi Hl IH]; unfold product in *; cbn; [intros Hd%Z.divide_pos_le; lia|].
  intros [E|E]%(prime_mult q Hq); [destruct (coprime_below i); [lia|done]|done].
Qed.

(** Fermat's little theorem. *)
Lemma fermat : a ^ (q - 1) mod q = 1.
Proof.
  pose proof (prime_pos q Hq). pose proof (product_mod (seqZ 1 (q - 1))) as E. rewrite multiples_perm in E. unfold zlen in E. rewrite length_seqZ, Z2Nat.id in E by lia.
  rewrite <- (Z.mul_1_l (product _)) in E at 1. apply mod_divide in E; [|lia]. rewrite <- Z.mul_sub_distr_r in E.
  apply (prime_mult q Hq) in E as [E|E].
  - etrans; [symmetry; apply mod_divide; [lia|exact E]|apply Z.mod_1_l; lia].
  - destruct (product_coprime (seqZ 1 (q - 1))); [|done]. apply Forall_forall. intros i Hi%elem_of_seqZ. lia.
Qed.
End Fermat.

(** * Pocklington's criterion *)

Lemma mod_divides x y n d : 0 < n -> 0 < d -> (d | n) -> x mod n = y mod n -> x mod d = y mod d.
Proof. intros Hn Hd Hdn E%mod_divide; [|done]. apply mod_divide; [done|]. by etrans. Qed.

Lemma pow_mod_1 b n e : 1 < n -> 0 <= e -> b mod n = 1 -> b ^ e mod n = 1.
Proof. intros Hn He E. rewrite Zpower_mod, E by lia. rewrite Z.pow_1_l by done. by apply Z.mod_1_l. Qed.

(** A prime divisor [r] of [n] is 1 modulo [q]. *)
Lemma pocklington_divisor n q a r : prime q -> prime r -> (r | n) -> 1 < n -> (q | n - 1) -> 1 < a ->
  a ^ (n - 1) mod n = 1 -> Z.gcd (a ^ ((n - 1) / q) - 1) n = 1 -> (q | r - 1).
Proof.
  intros Hq Hr Hrn Hn Hqn Ha E1 E2. pose proof (prime_pos q Hq). pose proof (prime_pos r Hr). set (b := a ^ ((n - 1) / q)) in *.
  assert (Hb : b ^ q mod r = 1).
  { unfold b. rewrite <- Z.pow_mul_r, Z.mul_comm, <- Z_div_exact_full_2 by (lia || (apply Z.div_pos; lia) || by apply Z.mod_divide; [lia|]).
    etrans; [|apply (Z.mod_1_l r); lia]. apply (mod_divides _ _ n); [lia..|done|]. by rewrite (Z.mod_1_l n) by lia. }
  assert (Hb0 : ~ (r | b)).
  { intros Hd. assert (b ^ q mod r = 0) as E0; [|lia]. apply Z.mod_divide; [lia|]. replace q with (1 + (q - 1)) by lia. rewrite Z.pow_add_r, Z.pow_1_r by lia. by apply Z.divide_mul_l. }
  assert (Hb1 : b mod r <> 1).
  { intros E. assert (Hd : (r | Z.gcd (b - 1) n)); [|rewrite E2 in Hd; apply Z.divide_pos_le in Hd; lia].
    apply Z.gcd_greatest; [|done]. apply mod_divide; [lia|]. by rewrite (Z.mod_1_l r) by lia. }
  destruct (Zdivide_dec q (r - 1)) as [|Hd]; [done|]. destruct Hb1.
  assert (Hg : rel_prime q (r - 1)) by (by apply prime_rel_prime). apply rel_prime_bezout in Hg as [u v Huv].
  assert (0 < r - 1) as Hr1 by lia. set (k := u mod (r - 1) + (r - 1)). assert (Hk : 0 < k) by (pose proof (Z.mod_pos_bound u (r - 1) Hr1); lia).
  assert (exists w, k * q = 1 + w * (r - 1) /\ 0 <= w) as (w & Hw & Hw0).
  { pose proof (Z.div_mod u (r - 1) ltac:(lia)) as Hu. assert (Hu' : u = (r - 1) * (u / (r - 1) - 1) + k) by lia. clear Hu. revert Hu'. generalize (u / (r - 1) - 1). clearbody k. intros m Hu. rewrite Hu in Huv. exists (- v - q * m). assert (k * q = 1 + (- v - q * m) * (r - 1)) by lia. split; [done|]. nia. }
  assert (E : b ^ (k * q) mod r = 1) by (rewrite Z.mul_comm, Z.pow_mul_r by lia; apply pow_mod_1; [lia..|done]).
  rewrite Hw, Z.pow_add_r, Z.pow_1_r, (Z.mul_comm w), Z.pow_mul_r in E by lia. rewrite Zmult_mod, pow_mod_1, Z.mul_1_r, Z.mod_mod in E by (lia || by apply fermat). done.
Qed.

(** Divisors. *)
Lemma prime_divisor n : 1 < n -> exists r, prime r /\ (r | n).
Proof.
  intros Hn. assert (H0 : 0 <= n) by lia. revert n H0 Hn. apply (Zlt_0_ind (fun n => 1 < n -> exists r, prime r /\ (r | n))). intros n IH _ Hn.
  destruct (prime_dec n) as [Hp|Hp]; [by exists n|]. destruct (not_prime_divide n Hn Hp) as (m & Hm & Hd). destruct (IH m ltac:(lia) ltac:(lia)) as (r & Hr & Hrm). exists r. split; [done|]. by etrans.
Qed.
Lemma small_prime_divisor n : 1 < n -> ~ prime n -> exists r, prime r /\ (r | n) /\ r * r <= n.
Proof.
  intros Hn Hp. destruct (not_prime_divide n Hn Hp) as (m & Hm & [k Hk]). assert (1 < k < n) by nia.
  destruct (Z.le_ge_cases (m * m) n) as [Hl|Hl].
  - destruct (prime_divisor m ltac:(lia)) as (r & Hr & Hd). pose proof (prime_pos r Hr). pose proof (Z.divide_pos_le r m ltac:(lia) Hd). assert (r * r <= m * m) by nia. exists r. split; [done|]. split; [|nia]. etrans; [exact Hd|]. by exists k.
  - destruct (prime_divisor k ltac:(lia)) as (r & Hr & Hd). pose proof (prime_pos r Hr). pose proof (Z.divide_pos_le r k ltac:(lia) Hd). assert (k <= m) by nia. assert (r * r <= k * k) by nia. exists r. split; [done|]. split; [|nia]. etrans; [exact Hd|]. exists m. lia.
Qed.

(** Small primes, by trial division. *)
Fixpoint no_divisor (fuel : nat) (d n : Z) : bool :=
  match fuel with
  | O => false
  | S fuel => if n <? d * d then true else if n mod d =? 0 then false else no_divisor fuel (d + 1) n
  end.
Lemma no_divisor_spec fuel d n : 1 < d -> no_divisor fuel d n = true -> forall e, d <= e -> e * e <= n -> ~ (e | n).
Proof.
  revert d. induction fuel as [|fuel IH]; intros d Hd E e He Hen; cbn in E; [done|]. destruct (Z.ltb_spec n (d * d)); [nia|].
  destruct (Z.eqb_spec (n mod d) 0) as [|Hm]; [done|]. destruct (decide (e = d)) as [-> |Hne]; [intros Hd'%Z.mod_divide; lia|]. apply (IH (d + 1)); [lia|done|lia|done].
Qed.
Lemma small_prime fuel n : 1 < n -> no_divisor fuel 2 n = true -> prime n.
Proof.
  intros Hn E. destruct (prime_dec n) as [|Hp]; [done|]. destruct (small_prime_divisor n Hn Hp) as (r & Hr & Hd & Hs). pose proof (prime_pos r Hr).
  by destruct (no_divisor_spec fuel 2 n ltac:(lia) E r ltac:(lia) Hs).
Qed.

(** Powers modulo a number, by squaring. *)
Fixpoint powmod_pos (a : Z) (e : positive) (n : Z) : Z :=
  match e with
  | xH => a mod n
  | xO e => let b := powmod_pos a e n in b * b mod n
  | xI e => let b := powmod_pos a e n in a * (b * b) mod n
  end.
Definition powmod (a e n : Z) : Z := match e with Zpos e => powmod_pos a e n | _ => 1 mod n end.
Lemma powmod_pos_spec a e n : 0 < n -> powmod_pos a e n = a ^ Zpos e mod n.
Proof.
  intros Hn. induction e as [e IH|e IH|]; cbn [powmod_pos]; cbn zeta.
  - rewrite IH, Pos2Z.inj_xI, Z.pow_add_r, Z.pow_1_r, (Z.mul_comm 2), Z.pow_mul_r, Z.pow_2_r by lia. rewrite <- Z.mul_mod_idemp_r, <- Zmult_mod, Z.mul_mod_idemp_r by lia. f_equal. ring.
  - rewrite IH, Pos2Z.inj_xO, (Z.mul_comm 2), Z.pow_mul_r, Z.pow_2_r by lia. by rewrite <- Zmult_mod.
  - by rewrite Z.pow_1_r.
Qed.
Lemma powmod_spec a e n : 0 < n -> 0 <= e -> powmod a e n = a ^ e mod n.
Proof. intros Hn He. destruct e as [|e|e]; [done|by apply powmod_pos_spec|lia]. Qed.

(** The certificate: a base [a] and primes. *)
Definition certificate (n a : Z) (l : list Z) : bool :=
  let f := product l in
  (1 <? n) && ((n - 1) mod f =? 0) && (n <? f * f) && (1 <? a) && (powmod a (n - 1) n =? 1) &&
  forallb (fun q => Z.gcd (powmod a ((n - 1) / q) n - 1) n =? 1) l.

Lemma prime_divides_product q l : prime q -> Forall prime l -> (q | product l) -> q ∈ l.
Proof.
  intros Hq Hl. induction Hl as [|r l Hr Hl IH]; unfold product in *; cbn; [intros Hd%Z.divide_pos_le; [pose proof (prime_pos q Hq); lia|lia]|].
  intros [E|E]%(prime_mult q Hq); [|right; by apply IH]. apply prime_div_prime in E as ->; [left|done|done].
Qed.
Lemma product_divides l x : Forall prime l -> NoDup l -> Forall (fun q => (q | x)) l -> (product l | x).
Proof.
  intros Hp Hn Hd. induction Hd as [|q l Hq Hd IH]; [apply Z.divide_1_l|]. inversion Hp as [|? ? Hq' Hp']; subst. apply NoDup_cons in Hn as [Hnl Hn].
  destruct (IH Hp' Hn) as [k ->]. destruct (Gauss q (product l) k) as [j ->].
  - by rewrite Z.mul_comm.
  - apply prime_rel_prime; [done|]. intros Hc. by apply Hnl, prime_divides_product.
  - exists j. unfold product. cbn. ring.
Qed.

(** Pocklington's criterion. *)
Lemma certificate_prime n a l : Forall prime l -> NoDup l -> certificate n a l = true -> prime n.
Proof.
  intros Hp Hn [ [ [ [ [H1%Z.ltb_lt Hf%Z.eqb_eq]%andb_prop H2%Z.ltb_lt]%andb_prop Ha%Z.ltb_lt]%andb_prop E1%Z.eqb_eq]%andb_prop Hc]%andb_prop. destruct (prime_dec n) as [|Hnp]; [done|].
  destruct (small_prime_divisor n H1 Hnp) as (r & Hr & Hd & Hs). pose proof (prime_pos r Hr). assert (Hpos : 0 < product l).
  { clear - Hp. induction Hp as [|q m Hq Hm IH]; [done|]. unfold product in *. cbn. pose proof (prime_pos q Hq). lia. }
  assert (Hdf : (product l | r - 1)).
  { apply product_divides; [done|done|]. apply Forall_forall. intros q Hq1. rewrite forallb_forall in Hc.
    apply list_elem_of_In in Hq1 as Hq2. specialize (Hc q Hq2). apply Z.eqb_eq in Hc. assert (Hq : prime q) by (rewrite Forall_forall in Hp; by apply Hp). pose proof (prime_pos _ Hq).
    rewrite powmod_spec in E1, Hc by (lia || (apply Z.div_pos; lia)). apply (pocklington_divisor n q a r); [done|done|done|done| |done|done|].
    - apply Z.mod_divide in Hf; [|lia]. etrans; [|exact Hf]. clear - Hq1. induction Hq1 as [|x y m Hm IH]; unfold product in *; cbn; [by apply Z.divide_mul_l|by apply Z.divide_mul_r].
    - etrans; [|exact Hc]. rewrite !(Z.gcd_comm _ n). set (x := a ^ _). rewrite <- (Z.gcd_add_mult_diag_r n (x mod n - 1) (x / n)). f_equal. pose proof (Z.div_mod x n ltac:(lia)). lia. }
  apply Z.divide_pos_le in Hdf; [|lia]. nia.
Qed.

(** * The field *)

Ltac solve_NoDup := lazymatch goal with |- NoDup ?l => apply (bool_decide_unpack (NoDup l)); vm_compute; exact I end.

Lemma prime_31757755568855353 : prime 31757755568855353.
Proof.
  apply (certificate_prime _ 2 [430751; 4153]); [|solve_NoDup|vm_compute; reflexivity].
  rewrite !Forall_cons. split_and!; [..|done]; (apply (small_prime 1000); [done|vm_compute; reflexivity]).
Qed.
Lemma prime_1919519569386763 : prime 1919519569386763.
Proof.
  apply (certificate_prime _ 2 [8574133; 127]); [|solve_NoDup|vm_compute; reflexivity].
  rewrite !Forall_cons. split_and!; [..|done]; (apply (small_prime 3000); [done|vm_compute; reflexivity]).
Qed.
Lemma prime_75445702479781427272750846543864801 : prime 75445702479781427272750846543864801.
Proof.
  apply (certificate_prime _ 2 [1919519569386763; 75707]); [|solve_NoDup|vm_compute; reflexivity].
  rewrite !Forall_cons. split_and!; [exact prime_1919519569386763|apply (small_prime 1000); [done|vm_compute; reflexivity]|done].
Qed.
Lemma prime_cofactor : prime 74058212732561358302231226437062788676166966415465897661863160754340907.
Proof.
  apply (certificate_prime _ 2 [75445702479781427272750846543864801; 31757755568855353]); [|solve_NoDup|vm_compute; reflexivity].
  rewrite !Forall_cons. split_and!; [exact prime_75445702479781427272750846543864801|exact prime_31757755568855353|done].
Qed.

(** [2^255 - 19] is prime. *)
Lemma prime_p : prime p.
Proof.
  apply (certificate_prime _ 2 [74058212732561358302231226437062788676166966415465897661863160754340907]); [|solve_NoDup|vm_compute; reflexivity].
  rewrite Forall_cons. split; [exact prime_cofactor|done].
Qed.
