(* ===== verification/Edwards.v ===== *)
(** The curve [-x^2 + y^2 = 1 + d x^2 y^2] over the field of [2^255 - 19] elements,
    the group the [ge_*] functions of [crypto/crypto-ops.c] compute in.

    The field is the integers with congruence modulo [p].  The addition law of the
    curve is defined for all pairs of points, because [d] is no square and [-1] is
    one; it makes the curve an abelian group. *)
From Stdlib Require Import Znumtheory.
From Stdlib Require Import Ncring Cring Integral_domain NsatzTactic.
From S2P Require Import Prelude IntUtil Limbs ScalarOps FieldOps PrimeField Group.

(** The constants of [crypto-ops-data.c]. *)
Definition fe_d : fe := [-10913610; 13857413; -15372611; 6949391; 114729; -8787816; -6275908; -3247719; -18696448; -12055116].
Definition fe_sqrtm1 : fe := [-32595792; -7943725; 9377950; 3500415; 12389472; -272473; -25146209; -2005654; 326686; 11406482].
Definition fe_d2 : fe := [-21827239; -5839606; -30745221; 13898782; 229458; 15978800; -12551817; -6495438; 29715968; 9444199].

(** * The field as an integral domain *)

#[export] Instance Fops : @Ring_ops Z 0 1 Z.add Z.mul Z.sub Z.opp eqp := {}.
#[export] Instance Fring : Ring (Ro := Fops).
Proof.
  constructor; try apply _; unfold equality, eq_notation, addition, add_notation, multiplication, mul_notation, subtraction, sub_notation, opposite, opp_notation, zero, zero_notation, one, one_notation; cbn.
  all: intros; unfold eqp; f_equal; try ring.
Qed.
#[export] Instance Fcring : Cring (Rr := Fring).
Proof. intros x y. change (eqp (x * y)%Z (y * x)%Z). by rewrite Z.mul_comm. Qed.
Lemma eqp_integral x y : eqp (x * y) 0 -> eqp x 0 \/ eqp y 0.
Proof. rewrite !eqp_divide, !Z.sub_0_r. apply prime_mult, prime_p. Qed.
Lemma eqp_1_0 : ~ eqp 1 0.
Proof. done. Qed.
#[export] Instance Fid : Integral_domain (Rcr := Fcring).
Proof. constructor; [apply eqp_integral|apply eqp_1_0]. Defined.

#[export] Instance eqp_dec x y : Decision (eqp x y).
Proof. unfold eqp. apply _. Defined.
Lemma eqp_mul_nonzero x y : ~ eqp x 0 -> ~ eqp y 0 -> ~ eqp (x * y) 0.
Proof. intros Hx Hy [H|H]%eqp_integral; done. Qed.
Lemma eqp_cancel x y z : ~ eqp z 0 -> eqp (x * z) (y * z) -> eqp x y.
Proof.
  intros Hz E. assert (H : eqp ((x - y) * z) 0) by (rewrite Z.mul_sub_distr_r, E; by rewrite Z.sub_diag).
  apply eqp_integral in H as [H|H]; [|done]. rewrite <- (Z.sub_add y x). by rewrite H.
Qed.

(** Inverses, as [fe_invert] computes them. *)
Definition inv (x : Z) : Z := x ^ (p - 2).
Lemma eqp_0_divide x : eqp x 0 <-> (p | x).
Proof. by rewrite eqp_divide, Z.sub_0_r. Qed.
Lemma inv_spec x : ~ eqp x 0 -> eqp (x * inv x) 1.
Proof.
  intros Hx. unfold inv, eqp. replace (x * x ^ (p - 2)) with (x ^ (p - 1)) by (rewrite <- Z.pow_succ_r by done; done).
  rewrite fermat; [done|apply prime_p|]. by rewrite <- eqp_0_divide.
Qed.
#[export] Instance inv_proper : Proper (eqp ==> eqp) inv.
Proof. intros x y E. unfold inv. by rewrite E. Qed.
Lemma inv_unique x y : eqp (x * y) 1 -> eqp y (inv x).
Proof.
  intros E. assert (Hx : ~ eqp x 0) by (intros H; rewrite H in E; by apply eqp_1_0). apply (eqp_cancel _ _ x Hx).
  rewrite (Z.mul_comm y), E, Z.mul_comm. by rewrite inv_spec.
Qed.

(** [fe_d] is [-121665 / 121666], [fe_d2] twice that, and [fe_sqrtm1] a root of -1. *)
Definition d : Z := num fe_d.
Definition im : Z := num fe_sqrtm1.
Lemma d_fraction : eqp (d * 121666) (- 121665).
Proof. vm_compute. reflexivity. Qed.
Lemma fe_d2_twice : eqp (num fe_d2) (2 * d).
Proof. vm_compute. reflexivity. Qed.
Lemma im_square : eqp (im * im) (-1).
Proof. vm_compute. reflexivity. Qed.

(** 2 is no square: [(1 + im)^2 = 2 im], so that a root of 2 would make [im] a square,
    and [im^((p - 1) / 2) = -1]. *)
Lemma pow_order x : ~ eqp x 0 -> eqp (x ^ (p - 1)) 1.
Proof. intros Hx. unfold eqp. rewrite fermat; [done|apply prime_p|by rewrite <- eqp_0_divide]. Qed.
Lemma im_no_square x : ~ eqp (x * x) im.
Proof.
  intros E. assert (Hx : ~ eqp x 0) by (intros H; rewrite H in E; vm_compute in E; discriminate).
  apply pow_order in Hx. assert (exists k, p - 1 = 2 * (2 * (2 * k) + 2) /\ 0 <= k) as (k & Ek & Hk) by (exists ((p - 5) / 8); vm_compute; split; [reflexivity|discriminate]).
  rewrite Ek in Hx. clear Ek. rewrite Z.pow_mul_r, Z.pow_2_r, E in Hx by lia. rewrite Z.pow_add_r, Z.pow_mul_r, Z.pow_2_r, im_square in Hx by lia.
  rewrite Z.pow_mul_r in Hx by lia. change ((-1) ^ 2) with 1 in Hx. rewrite Z.pow_1_l in Hx by lia. vm_compute in Hx. discriminate.
Qed.
Lemma two_no_square x : ~ eqp (x * x) 2.
Proof.
  intros E. apply (im_no_square ((1 + im) * inv x)). assert (Hx : ~ eqp x 0) by (intros H; rewrite H in E; by vm_compute in E).
  apply inv_spec in Hx. pose proof im_square as Hi. change 2 with (1 + 1) in E. change (-1) with (Z.opp 1) in Hi. revert E Hx Hi. generalize im (inv x). intros j y E Hx Hi.
nsatz.
Qed.

(** [d] is no square: [121665 * 121666] is twice a square, and -1 is a square. *)
Definition root : Z := 17540718078606688719096417959420649803327141774663719482163985228206922886506.
Lemma root_square : eqp (root * root) ((1 + 1) * (121665 * 121666)).
Proof. vm_compute. reflexivity. Qed.
Lemma d_no_square u v : eqp (u * u) (d * (v * v)) -> eqp v 0.
Proof.
  intros E. destruct (decide (eqp v 0)) as [|Hv]; [done|]. destruct (decide (eqp u 0)) as [Hu|Hu].
  { rewrite Hu in E. change (0 * 0) with 0 in E. symmetry in E. apply eqp_integral in E as [E|E]; [vm_compute in E; discriminate|]. by apply eqp_integral in E as [E|E]. }
  exfalso. assert (H6 : ~ eqp 121666 0) by done. apply (two_no_square (im * root * v * inv (121666 * u))).
  pose proof (inv_spec (121666 * u) (eqp_mul_nonzero _ _ H6 Hu)) as Hi. pose proof d_fraction as Hd. pose proof im_square as Hj. pose proof root_square as Hr.
  change 2 with (1 + 1). change (-1) with (Z.opp 1) in Hj. change (- 121665) with (Z.opp 121665) in Hd. revert Hi Hd Hj Hr E. generalize im (inv (121666 * u)) root d 121666 121665. clear.
  intros j y r d a b Hi Hd Hj Hr E. nsatz.
Qed.

(** * Points *)

Definition on_curve (x y : Z) : Prop := eqp (y * y - x * x) (1 + d * (x * x) * (y * y)).

(** The denominators of the addition law do not vanish. *)
Lemma complete_aux e x1 y1 x2 y2 : on_curve x1 y1 -> on_curve x2 y2 -> eqp (e * e) 1 -> ~ eqp (d * x1 * x2 * y1 * y2) e.
Proof.
  intros H1 H2 He E. unfold on_curve in *.
  assert (Hne : ~ eqp e 0) by (intros H; rewrite H in He; by apply eqp_1_0).
  assert (Hplus : eqp (x1 * y1 * (im * x2 + y2)) 0).
  { apply (d_no_square (im * x1 + e * y1)). pose proof im_square as Hj. change (-1) with (Z.opp 1) in Hj. revert Hj H1 H2 He E. generalize im d. clear. intros j d Hj H1 H2 He E. nsatz. }
  assert (Hminus : eqp (x1 * y1 * (im * x2 - y2)) 0).
  { apply (d_no_square (im * x1 - e * y1)). pose proof im_square as Hj. change (-1) with (Z.opp 1) in Hj. revert Hj H1 H2 He E. generalize im d. clear. intros j d Hj H1 H2 He E. nsatz. }
  apply Hne. rewrite <- E. clear H1 H2 He Hne E. apply (eqp_cancel _ _ (im * (1 + 1))); [by vm_compute|]. revert Hplus Hminus. generalize im d. intros j d Hplus Hminus. nsatz.
Qed.
Lemma complete_plus x1 y1 x2 y2 : on_curve x1 y1 -> on_curve x2 y2 -> ~ eqp (1 + d * x1 * x2 * y1 * y2) 0.
Proof.
  intros H1 H2 E. apply (complete_aux (-1) x1 y1 x2 y2 H1 H2); [done|]. rewrite <- (Z.add_simpl_l 1 (d * x1 * x2 * y1 * y2)). rewrite E. done.
Qed.
Lemma complete_minus x1 y1 x2 y2 : on_curve x1 y1 -> on_curve x2 y2 -> ~ eqp (1 - d * x1 * x2 * y1 * y2) 0.
Proof.
  intros H1 H2 E. apply (complete_aux 1 x1 y1 x2 y2 H1 H2); [done|]. replace (d * x1 * x2 * y1 * y2) with (1 - (1 - d * x1 * x2 * y1 * y2)) by lia. by rewrite E.
Qed.

Record point := Point { px : Z; py : Z; p_on : on_curve px py }.
#[export] Instance point_equiv : Equiv point := fun P Q => eqp (px P) (px Q) /\ eqp (py P) (py Q).
#[export] Instance point_equivalence : Equivalence (≡@{point}).
Proof. split; [by intros P|by intros P Q [? ?]|intros P Q R [? ?] [? ?]; split; by etrans]. Qed.
#[export] Instance px_proper : Proper ((≡) ==> eqp) px.
Proof. by intros P Q [? ?]. Qed.
#[export] Instance py_proper : Proper ((≡) ==> eqp) py.
Proof. by intros P Q [? ?]. Qed.

(** The addition law. *)
Definition sum_x (x1 y1 x2 y2 : Z) : Z := (x1 * y2 + x2 * y1) * inv (1 + d * x1 * x2 * y1 * y2).
Definition sum_y (x1 y1 x2 y2 : Z) : Z := (y1 * y2 + x1 * x2) * inv (1 - d * x1 * x2 * y1 * y2).

Lemma sum_x_spec x1 y1 x2 y2 : on_curve x1 y1 -> on_curve x2 y2 -> eqp (sum_x x1 y1 x2 y2 * (1 + d * x1 * x2 * y1 * y2)) (x1 * y2 + x2 * y1).
Proof.
  intros H1 H2. unfold sum_x. pose proof (inv_spec _ (complete_plus _ _ _ _ H1 H2)) as E. rewrite <- Z.mul_assoc, (Z.mul_comm (inv _)), E. by rewrite Z.mul_1_r.
Qed.
Lemma sum_y_spec x1 y1 x2 y2 : on_curve x1 y1 -> on_curve x2 y2 -> eqp (sum_y x1 y1 x2 y2 * (1 - d * x1 * x2 * y1 * y2)) (y1 * y2 + x1 * x2).
Proof.
  intros H1 H2. unfold sum_y. pose proof (inv_spec _ (complete_minus _ _ _ _ H1 H2)) as E. rewrite <- Z.mul_assoc, (Z.mul_comm (inv _)), E. by rewrite Z.mul_1_r.
Qed.

(** The sum is on the curve. *)
Lemma curve_identity x1 y1 x2 y2 : on_curve x1 y1 -> on_curve x2 y2 ->
  let a := x1 * y2 + x2 * y1 in let b := y1 * y2 + x1 * x2 in let e := d * x1 * x2 * y1 * y2 in
  eqp (b * b * ((1 + e) * (1 + e)) - a * a * ((1 - e) * (1 - e))) ((1 + e) * (1 - e) * ((1 + e) * (1 - e)) + d * (a * a) * (b * b)).
Proof. unfold on_curve. cbn zeta. generalize d. intros d H1 H2. nsatz. Qed.
Lemma sum_on_curve x1 y1 x2 y2 : on_curve x1 y1 -> on_curve x2 y2 -> on_curve (sum_x x1 y1 x2 y2) (sum_y x1 y1 x2 y2).
Proof.
  intros H1 H2. pose proof (sum_x_spec _ _ _ _ H1 H2) as Ex. pose proof (sum_y_spec _ _ _ _ H1 H2) as Ey. pose proof (complete_plus _ _ _ _ H1 H2) as N1. pose proof (complete_minus _ _ _ _ H1 H2) as N2.
  pose proof (eqp_mul_nonzero _ _ N1 N2) as N. apply (eqp_cancel _ _ _ (eqp_mul_nonzero _ _ N N)). pose proof (curve_identity _ _ _ _ H1 H2) as K. cbn zeta in K.
  revert Ex Ey. generalize (sum_x x1 y1 x2 y2) (sum_y x1 y1 x2 y2). intros a b Ex Ey. rewrite <- Ex, <- Ey in K. set (e := d * x1 * x2 * y1 * y2) in *.
  transitivity (b * (1 - e) * (b * (1 - e)) * ((1 + e) * (1 + e)) - a * (1 + e) * (a * (1 + e)) * ((1 - e) * (1 - e))); [unfold eqp; f_equal; ring|]. rewrite K. unfold eqp. f_equal. ring.
Qed.

Definition point_add (P Q : point) : point :=
  Point (sum_x (px P) (py P) (px Q) (py Q)) (sum_y (px P) (py P) (px Q) (py Q)) (sum_on_curve _ _ _ _ (p_on P) (p_on Q)).
Lemma zero_on_curve : on_curve 0 1.
Proof. unfold on_curve. done. Qed.
Definition point_zero : point := Point 0 1 zero_on_curve.
Lemma neg_on_curve x y : on_curve x y -> on_curve (- x) y.
Proof. unfold on_curve. intros H. by rewrite Z.mul_opp_opp. Qed.
Definition point_neg (P : point) : point := Point (- px P) (py P) (neg_on_curve _ _ (p_on P)).

(** Coordinates of a sum, from any fractions. *)
Lemma sum_unique (P Q : point) x y : eqp (x * (1 + d * px P * px Q * py P * py Q)) (px P * py Q + px Q * py P) ->
  eqp (y * (1 - d * px P * px Q * py P * py Q)) (py P * py Q + px P * px Q) -> eqp x (px (point_add P Q)) /\ eqp y (py (point_add P Q)).
Proof.
  intros Ex Ey. split.
  - apply (eqp_cancel _ _ _ (complete_plus _ _ _ _ (p_on P) (p_on Q))). rewrite Ex. symmetry. apply sum_x_spec; apply p_on.
  - apply (eqp_cancel _ _ _ (complete_minus _ _ _ _ (p_on P) (p_on Q))). rewrite Ey. symmetry. apply sum_y_spec; apply p_on.
Qed.

Lemma point_add_proper : Proper ((≡) ==> (≡) ==> (≡)) point_add.
Proof.
  intros P P' [Ex Ey] Q Q' [Fx Fy]. apply sum_unique.
  - rewrite <- Ex, <- Ey, <- Fx, <- Fy. apply sum_x_spec; apply p_on.
  - rewrite <- Ex, <- Ey, <- Fx, <- Fy. apply sum_y_spec; apply p_on.
Qed.

(** Associativity: both sides are fractions with denominators that do not vanish,
    and the cross products are equal on the curve. *)
Lemma sum_x_fraction x1 y1 x2 y2 x3 y3 : on_curve x1 y1 -> on_curve x2 y2 -> on_curve x3 y3 ->
  let a := sum_x x1 y1 x2 y2 in let b := sum_y x1 y1 x2 y2 in let e := d * x1 * x2 * y1 * y2 in
  let m := (1 + e) * (1 - e) + d * (x1 * y2 + x2 * y1) * (y1 * y2 + x1 * x2) * x3 * y3 in
  ~ eqp m 0 /\ eqp (sum_x a b x3 y3 * m) ((x1 * y2 + x2 * y1) * (1 - e) * y3 + (y1 * y2 + x1 * x2) * (1 + e) * x3).
Proof.
  intros H1 H2 H3 a b e m. pose proof (sum_x_spec _ _ _ _ H1 H2) as Ea. pose proof (sum_y_spec _ _ _ _ H1 H2) as Eb. pose proof (sum_on_curve _ _ _ _ H1 H2) as Hab.
  pose proof (complete_plus _ _ _ _ H1 H2) as N1. pose proof (complete_minus _ _ _ _ H1 H2) as N2. pose proof (complete_plus _ _ _ _ Hab H3) as N3. pose proof (sum_x_spec _ _ _ _ Hab H3) as Ec.
  fold a b in Ea, Eb, Hab, N3, Ec. fold e in Ea, Eb, N1, N2. pose proof (eqp_mul_nonzero _ _ N3 (eqp_mul_nonzero _ _ N1 N2)) as N.
  assert (Em : eqp m ((1 + d * a * x3 * b * y3) * ((1 + e) * (1 - e)))) by (unfold m; rewrite <- Ea, <- Eb; unfold eqp; f_equal; ring).
  split; [by rewrite Em|]. rewrite Em. rewrite <- Ea, <- Eb, Z.mul_assoc, Ec. unfold eqp. f_equal. ring.
Qed.
Lemma sum_y_fraction x1 y1 x2 y2 x3 y3 : on_curve x1 y1 -> on_curve x2 y2 -> on_curve x3 y3 ->
  let a := sum_x x1 y1 x2 y2 in let b := sum_y x1 y1 x2 y2 in let e := d * x1 * x2 * y1 * y2 in
  let m := (1 + e) * (1 - e) - d * (x1 * y2 + x2 * y1) * (y1 * y2 + x1 * x2) * x3 * y3 in
  ~ eqp m 0 /\ eqp (sum_y a b x3 y3 * m) ((y1 * y2 + x1 * x2) * (1 + e) * y3 + (x1 * y2 + x2 * y1) * (1 - e) * x3).
Proof.
  intros H1 H2 H3 a b e m. pose proof (sum_x_spec _ _ _ _ H1 H2) as Ea. pose proof (sum_y_spec _ _ _ _ H1 H2) as Eb. pose proof (sum_on_curve _ _ _ _ H1 H2) as Hab.
  pose proof (complete_plus _ _ _ _ H1 H2) as N1. pose proof (complete_minus _ _ _ _ H1 H2) as N2. pose proof (complete_minus _ _ _ _ Hab H3) as N3. pose proof (sum_y_spec _ _ _ _ Hab H3) as Ec.
  fold a b in Ea, Eb, Hab, N3, Ec. fold e in Ea, Eb, N1, N2. pose proof (eqp_mul_nonzero _ _ N3 (eqp_mul_nonzero _ _ N1 N2)) as N.
  assert (Em : eqp m ((1 - d * a * x3 * b * y3) * ((1 + e) * (1 - e)))) by (unfold m; rewrite <- Ea, <- Eb; unfold eqp; f_equal; ring).
  split; [by rewrite Em|]. rewrite Em. rewrite <- Ea, <- Eb, Z.mul_assoc, Ec. unfold eqp. f_equal. ring.
Qed.

Section Associativity.
Variables x1 y1 x2 y2 x3 y3 : Z.
Hypotheses (H1 : on_curve x1 y1) (H2 : on_curve x2 y2) (H3 : on_curve x3 y3).

Lemma assoc_x_identity :
  eqp (((x1 * y2 + x2 * y1) * (1 - d * x1 * x2 * y1 * y2) * y3 + (y1 * y2 + x1 * x2) * (1 + d * x1 * x2 * y1 * y2) * x3) *
       ((1 + d * x2 * x3 * y2 * y3) * (1 - d * x2 * x3 * y2 * y3) + d * (x2 * y3 + x3 * y2) * (y2 * y3 + x2 * x3) * x1 * y1))
      (((x2 * y3 + x3 * y2) * (1 - d * x2 * x3 * y2 * y3) * y1 + (y2 * y3 + x2 * x3) * (1 + d * x2 * x3 * y2 * y3) * x1) *
       ((1 + d * x1 * x2 * y1 * y2) * (1 - d * x1 * x2 * y1 * y2) + d * (x1 * y2 + x2 * y1) * (y1 * y2 + x1 * x2) * x3 * y3)).
Proof. unfold on_curve in *. revert H1 H2 H3. generalize d. intros d H1 H2 H3. nsatz. Qed.
Lemma assoc_y_identity :
  eqp (((y1 * y2 + x1 * x2) * (1 + d * x1 * x2 * y1 * y2) * y3 + (x1 * y2 + x2 * y1) * (1 - d * x1 * x2 * y1 * y2) * x3) *
       ((1 + d * x2 * x3 * y2 * y3) * (1 - d * x2 * x3 * y2 * y3) - d * (x2 * y3 + x3 * y2) * (y2 * y3 + x2 * x3) * x1 * y1))
      (((y2 * y3 + x2 * x3) * (1 + d * x2 * x3 * y2 * y3) * y1 + (x2 * y3 + x3 * y2) * (1 - d * x2 * x3 * y2 * y3) * x1) *
       ((1 + d * x1 * x2 * y1 * y2) * (1 - d * x1 * x2 * y1 * y2) - d * (x1 * y2 + x2 * y1) * (y1 * y2 + x1 * x2) * x3 * y3)).
Proof. unfold on_curve in *. revert H1 H2 H3. generalize d. intros d H1 H2 H3. nsatz. Qed.

Lemma fraction_eq u v n1 n2 m1 m2 : ~ eqp m1 0 -> ~ eqp m2 0 -> eqp (u * m1) n1 -> eqp (v * m2) n2 -> eqp (n1 * m2) (n2 * m1) -> eqp u v.
Proof.
  intros M1 M2 E1 E2 E. apply (eqp_cancel _ _ _ (eqp_mul_nonzero _ _ M1 M2)). rewrite Z.mul_assoc, E1, E, <- E2. unfold eqp. f_equal. ring.
Qed.

Lemma assoc_x : eqp (sum_x (sum_x x1 y1 x2 y2) (sum_y x1 y1 x2 y2) x3 y3) (sum_x (sum_x x2 y2 x3 y3) (sum_y x2 y2 x3 y3) x1 y1).
Proof.
  destruct (sum_x_fraction _ _ _ _ _ _ H1 H2 H3) as [M1 E1]. destruct (sum_x_fraction _ _ _ _ _ _ H2 H3 H1) as [M2 E2]. cbn zeta in M1, E1, M2, E2.
  apply (fraction_eq _ _ _ _ _ _ M1 M2 E1 E2). apply assoc_x_identity.
Qed.
Lemma assoc_y : eqp (sum_y (sum_x x1 y1 x2 y2) (sum_y x1 y1 x2 y2) x3 y3) (sum_y (sum_x x2 y2 x3 y3) (sum_y x2 y2 x3 y3) x1 y1).
Proof.
  destruct (sum_y_fraction _ _ _ _ _ _ H1 H2 H3) as [M1 E1]. destruct (sum_y_fraction _ _ _ _ _ _ H2 H3 H1) as [M2 E2]. cbn zeta in M1, E1, M2, E2.
  apply (fraction_eq _ _ _ _ _ _ M1 M2 E1 E2). apply assoc_y_identity.
Qed.
End Associativity.

Lemma point_add_comm P Q : point_add P Q ≡ point_add Q P.
Proof.
  apply sum_unique.
  - etrans; [|etrans; [apply (sum_x_spec _ _ _ _ (p_on P) (p_on Q))|] ]; unfold eqp; cbn [point_add px py]; f_equal; ring.
  - etrans; [|etrans; [apply (sum_y_spec _ _ _ _ (p_on P) (p_on Q))|] ]; unfold eqp; cbn [point_add px py]; f_equal; ring.
Qed.
Lemma point_add_assoc P Q R : point_add P (point_add Q R) ≡ point_add (point_add P Q) R.
Proof. rewrite point_add_comm. symmetry. split; cbn [point_add px py]; [apply assoc_x|apply assoc_y]; apply p_on. Qed.
Lemma point_add_0_l P : point_add point_zero P ≡ P.
Proof. symmetry. apply sum_unique; cbn [point_zero px py]; unfold eqp; f_equal; ring. Qed.
Lemma point_add_neg_l P : point_add (point_neg P) P ≡ point_zero.
Proof.
  symmetry. apply sum_unique; cbn [point_zero point_neg px py]; [unfold eqp; f_equal; ring|].
  pose proof (p_on P) as H. unfold on_curve in H. revert H. generalize d. intros d H. nsatz.
Qed.
Lemma point_neg_proper : Proper ((≡) ==> (≡)) point_neg.
Proof. intros P Q [Ex Ey]. split; cbn; [by rewrite Ex|done]. Qed.

(** The points form an abelian group. *)
#[export] Instance curve : AbelianGroup point := {|
  gadd := point_add; gzero := point_zero; gneg := point_neg; g_equiv := point_equivalence; gadd_proper := point_add_proper; gneg_proper := point_neg_proper;
  gadd_assoc := point_add_assoc; gadd_comm := point_add_comm; gadd_0_l := point_add_0_l; gadd_neg_l := point_add_neg_l |}.
