(* ===== verification/GroupOps.v ===== *)
(** Points of the curve in the coordinates of [crypto/crypto-ops.c]: the functions
    [ge_*] on single points, and that they compute in the group of [Edwards].

    A point [(x, y)] is kept as [(x z : y z : z)] in [ge_p2], with [x y z] in
    [ge_p3], as two fractions in [ge_p1p1], and in [ge_moonbankd] and [ge_precomp]
    prepared for additions.  A relation for each form says which point it is and
    bounds the limbs, so that the functions compose without overflow. *)
From S2P Require Import Prelude IntUtil Limbs ScalarOps FieldOps PrimeField Group Edwards.

Record ge_p2 := { p2_X : fe; p2_Y : fe; p2_Z : fe }.
Record ge_p3 := { p3_X : fe; p3_Y : fe; p3_Z : fe; p3_T : fe }.
Record ge_p1p1 := { p1_X : fe; p1_Y : fe; p1_Z : fe; p1_T : fe }.
Record ge_precomp := { yplusx : fe; yminusx : fe; xy2d : fe }.
Record ge_moonbankd := { YplusX : fe; YminusX : fe; mb_Z : fe; T2d : fe }.

Definition ge_add (p : ge_p3) (q : ge_moonbankd) : outcome ge_p1p1 :=
  X ← fe_add (p3_Y p) (p3_X p);
  Y ← fe_sub (p3_Y p) (p3_X p);
  Z ← fe_mul X (YplusX q);
  Y ← fe_mul Y (YminusX q);
  T ← fe_mul (T2d q) (p3_T p);
  X ← fe_mul (p3_Z p) (mb_Z q);
  t0 ← fe_add X X;
  X ← fe_sub Z Y;
  Y ← fe_add Z Y;
  Z ← fe_add t0 T;
  T ← fe_sub t0 T;
  Ok {| p1_X := X; p1_Y := Y; p1_Z := Z; p1_T := T |}.

Definition ge_sub (p : ge_p3) (q : ge_moonbankd) : outcome ge_p1p1 :=
  X ← fe_add (p3_Y p) (p3_X p);
  Y ← fe_sub (p3_Y p) (p3_X p);
  Z ← fe_mul X (YminusX q);
  Y ← fe_mul Y (YplusX q);
  T ← fe_mul (T2d q) (p3_T p);
  X ← fe_mul (p3_Z p) (mb_Z q);
  t0 ← fe_add X X;
  X ← fe_sub Z Y;
  Y ← fe_add Z Y;
  Z ← fe_sub t0 T;
  T ← fe_add t0 T;
  Ok {| p1_X := X; p1_Y := Y; p1_Z := Z; p1_T := T |}.

Definition ge_madd (p : ge_p3) (q : ge_precomp) : outcome ge_p1p1 :=
  X ← fe_add (p3_Y p) (p3_X p);
  Y ← fe_sub (p3_Y p) (p3_X p);
  Z ← fe_mul X (yplusx q);
  Y ← fe_mul Y (yminusx q);
  T ← fe_mul (xy2d q) (p3_T p);
  t0 ← fe_add (p3_Z p) (p3_Z p);
  X ← fe_sub Z Y;
  Y ← fe_add Z Y;
  Z ← fe_add t0 T;
  T ← fe_sub t0 T;
  Ok {| p1_X := X; p1_Y := Y; p1_Z := Z; p1_T := T |}.

Definition ge_msub (p : ge_p3) (q : ge_precomp) : outcome ge_p1p1 :=
  X ← fe_add (p3_Y p) (p3_X p);
  Y ← fe_sub (p3_Y p) (p3_X p);
  Z ← fe_mul X (yminusx q);
  Y ← fe_mul Y (yplusx q);
  T ← fe_mul (xy2d q) (p3_T p);
  t0 ← fe_add (p3_Z p) (p3_Z p);
  X ← fe_sub Z Y;
  Y ← fe_add Z Y;
  Z ← fe_sub t0 T;
  T ← fe_add t0 T;
  Ok {| p1_X := X; p1_Y := Y; p1_Z := Z; p1_T := T |}.

Definition ge_p1p1_to_p2 (p : ge_p1p1) : outcome ge_p2 :=
  X ← fe_mul (p1_X p) (p1_T p);
  Y ← fe_mul (p1_Y p) (p1_Z p);
  Z ← fe_mul (p1_Z p) (p1_T p);
  Ok {| p2_X := X; p2_Y := Y; p2_Z := Z |}.

Definition ge_p1p1_to_p3 (p : ge_p1p1) : outcome ge_p3 :=
  X ← fe_mul (p1_X p) (p1_T p);
  Y ← fe_mul (p1_Y p) (p1_Z p);
  Z ← fe_mul (p1_Z p) (p1_T p);
  T ← fe_mul (p1_X p) (p1_Y p);
  Ok {| p3_X := X; p3_Y := Y; p3_Z := Z; p3_T := T |}.

Definition ge_p2_0 : ge_p2 := {| p2_X := fe_0; p2_Y := fe_1; p2_Z := fe_1 |}.
Definition ge_p3_0 : ge_p3 := {| p3_X := fe_0; p3_Y := fe_1; p3_Z := fe_1; p3_T := fe_0 |}.
Definition ge_precomp_0 : ge_precomp := {| yplusx := fe_1; yminusx := fe_1; xy2d := fe_0 |}.
Definition ge_moonbankd_0 : ge_moonbankd := {| YplusX := fe_1; YminusX := fe_1; mb_Z := fe_1; T2d := fe_0 |}.

Definition ge_p2_dbl (p : ge_p2) : outcome ge_p1p1 :=
  X ← fe_sq (p2_X p);
  Z ← fe_sq (p2_Y p);
  T ← fe_sq2 (p2_Z p);
  Y ← fe_add (p2_X p) (p2_Y p);
  t0 ← fe_sq Y;
  Y ← fe_add Z X;
  Z ← fe_sub Z X;
  X ← fe_sub t0 Y;
  T ← fe_sub T Z;
  Ok {| p1_X := X; p1_Y := Y; p1_Z := Z; p1_T := T |}.

Definition ge_p3_to_p2 (p : ge_p3) : ge_p2 := {| p2_X := fe_copy (p3_X p); p2_Y := fe_copy (p3_Y p); p2_Z := fe_copy (p3_Z p) |}.
Definition ge_p3_dbl (p : ge_p3) : outcome ge_p1p1 := ge_p2_dbl (ge_p3_to_p2 p).

Definition ge_p3_to_moonbankd (p : ge_p3) : outcome ge_moonbankd :=
  YplusX ← fe_add (p3_Y p) (p3_X p);
  YminusX ← fe_sub (p3_Y p) (p3_X p);
  T2d ← fe_mul (p3_T p) fe_d2;
  Ok {| YplusX := YplusX; YminusX := YminusX; mb_Z := fe_copy (p3_Z p); T2d := T2d |}.

Definition ge_mul8 (t : ge_p2) : outcome ge_p1p1 :=
  r ← ge_p2_dbl t;
  u ← ge_p1p1_to_p2 r;
  r ← ge_p2_dbl u;
  u ← ge_p1p1_to_p2 r;
  ge_p2_dbl u.

(** Writing a point: [y], and the sign of [x] in the top bit. *)
Definition point_tobytes (X Y W : fe) : outcome (list Z) :=
  recip ← fe_invert W;
  x ← fe_mul X recip;
  y ← fe_mul Y recip;
  s ← fe_tobytes y;
  sign ← fe_isnegative x;
  Ok (<[31%nat := u8 (Z.lxor (s !!! 31%nat) (Z.shiftl sign 7))]> s).
Definition ge_p3_tobytes (h : ge_p3) : outcome (list Z) := point_tobytes (p3_X h) (p3_Y h) (p3_Z h).
Definition ge_tobytes (h : ge_p2) : outcome (list Z) := point_tobytes (p2_X h) (p2_Y h) (p2_Z h).

(** The square root of [u / v], if there is one, from the candidate [X] and
    [v X^2]. *)
Definition choose_root (X vxx u : fe) : outcome (option fe) :=
  check ← fe_sub vxx u;
  nz ← fe_isnonzero check;
  if nz =? 0 then Ok (Some X)
  else check ← fe_add vxx u;
       nz ← fe_isnonzero check;
       if nz =? 0 then X ← fe_mul X fe_sqrtm1; Ok (Some X) else Ok None.
(** The root with the sign asked for. *)
Definition choose_sign (X : fe) (sign : Z) : outcome (option fe) :=
  neg ← fe_isnegative X;
  if neg =? sign then Ok (Some X)
  else nz ← fe_isnonzero X;
       if nz =? 0 then Ok None else X ← fe_neg X; Ok (Some X).

(** Reading a point; the sources return -1 where this is [None]. *)
Definition ge_frombytes_vartime (s : list Z) : outcome (option ge_p3) :=
  Y ← fe_frombytes s;
  match Y with
  | None => Ok None
  | Some Y =>
      let W := fe_1 in
      u ← fe_sq Y;
      v ← fe_mul u fe_d;
      u ← fe_sub u W;
      v ← fe_add v W;
      X ← fe_divpowm1 u v;
      vxx ← fe_sq X;
      vxx ← fe_mul vxx v;
      X ← choose_root X vxx u;
      match X with
      | None => Ok None
      | Some X =>
          X ← choose_sign X (Z.shiftr (s !!! 31%nat) 7);
          match X with
          | None => Ok None
          | Some X => T ← fe_mul X Y; Ok (Some {| p3_X := X; p3_Y := Y; p3_Z := W; p3_T := T |})
          end
      end
  end.

(** * Which point a form is *)

Section Forms.
Implicit Types P Q : point.
Definition p2_is (h : ge_p2) P : Prop :=
  exists z, ~ eqp z 0 /\ fe_is 101 (p2_X h) (px P * z) /\ fe_is 101 (p2_Y h) (py P * z) /\ fe_is 101 (p2_Z h) z.
(** The same with the larger limbs of [ge_fromfe_frombytes_vartime]. *)
Definition p2_wide (h : ge_p2) P : Prop :=
  exists z, ~ eqp z 0 /\ fe_is 101 (p2_X h) (px P * z) /\ fe_is 203 (p2_Y h) (py P * z) /\ fe_is 203 (p2_Z h) z.
Definition p3_is (h : ge_p3) P : Prop :=
  exists z, ~ eqp z 0 /\ fe_is 101 (p3_X h) (px P * z) /\ fe_is 101 (p3_Y h) (py P * z) /\ fe_is 101 (p3_Z h) z /\ fe_is 101 (p3_T h) (px P * py P * z).
Definition p1p1_is (h : ge_p1p1) P : Prop :=
  exists z t, ~ eqp z 0 /\ ~ eqp t 0 /\ fe_is 330 (p1_X h) (px P * z) /\ fe_is 330 (p1_Y h) (py P * t) /\ fe_is 330 (p1_Z h) z /\ fe_is 330 (p1_T h) t.
Definition precomp_is (h : ge_precomp) P : Prop :=
  fe_is 330 (yplusx h) (py P + px P) /\ fe_is 330 (yminusx h) (py P - px P) /\ fe_is 330 (xy2d h) (2 * d * px P * py P).
Definition moonbankd_is (h : ge_moonbankd) P : Prop :=
  exists z, ~ eqp z 0 /\ fe_is 330 (YplusX h) ((py P + px P) * z) /\ fe_is 330 (YminusX h) ((py P - px P) * z) /\ fe_is 330 (mb_Z h) z /\ fe_is 330 (T2d h) (2 * d * px P * py P * z).

Lemma yields_Ok {A} (a : A) (Q : A -> Prop) : Q a -> yields (Ok a) Q.
Proof. intros H. by exists a. Qed.

Lemma two_nonzero : ~ eqp 2 0.
Proof. done. Qed.

(** The two fractions of a sum. *)
Lemma sum_fractions P Q (r : ge_p1p1) k c : ~ eqp k 0 -> c <= 330 ->
  fe_is c (p1_X r) (k * (px P * py Q + px Q * py P)) -> fe_is c (p1_Y r) (k * (py P * py Q + px P * px Q)) ->
  fe_is c (p1_Z r) (k * (1 + d * px P * px Q * py P * py Q)) -> fe_is c (p1_T r) (k * (1 - d * px P * px Q * py P * py Q)) -> p1p1_is r (gadd P Q).
Proof.
  intros Hk Hc HX HY HZ HT. pose proof (complete_plus _ _ _ _ (p_on P) (p_on Q)) as N1. pose proof (complete_minus _ _ _ _ (p_on P) (p_on Q)) as N2.
  exists (k * (1 + d * px P * px Q * py P * py Q)), (k * (1 - d * px P * px Q * py P * py Q)).
  split_and!; [auto using eqp_mul_nonzero..| | |by eapply fe_is_mono|by eapply fe_is_mono].
  - eapply fe_is_eq; [|by eapply fe_is_mono]. rewrite <- (sum_x_spec _ _ _ _ (p_on P) (p_on Q)). unfold eqp. f_equal. cbn [gadd curve point_add px]. ring.
  - eapply fe_is_eq; [|by eapply fe_is_mono]. rewrite <- (sum_y_spec _ _ _ _ (p_on P) (p_on Q)). unfold eqp. f_equal. cbn [gadd curve point_add py]. ring.
Qed.

Lemma fe_is_ring c h x y : x = y -> fe_is c h x -> fe_is c h y.
Proof. by intros ->. Qed.

Ltac coordinates := cbn [p1_X p1_Y p1_Z p1_T p2_X p2_Y p2_Z p3_X p3_Y p3_Z p3_T YplusX YminusX mb_Z T2d yplusx yminusx xy2d fe_copy].
Ltac fe_ring := eapply fe_is_mono; [|eapply fe_is_ring; [|eassumption]; cbn [gadd gneg gzero curve point_neg point_zero px py]; ring]; lia.
Hint Resolve eqp_mul_nonzero two_nonzero eqp_1_0 : core.

Lemma ge_add_spec h q P Q : p3_is h P -> moonbankd_is q Q -> yields (ge_add h q) (fun r => p1p1_is r (gadd P Q)).
Proof.
  intros (z & Hz & HX & HY & HZ & HT) (w & Hw & QP & QM & QZ & QT). unfold ge_add. do 11 fe_step. apply yields_Ok.
  apply (sum_fractions P Q _ (2 * z * w) 303); [auto|lia|..]; coordinates; fe_ring.
Qed.
Lemma ge_sub_spec h q P Q : p3_is h P -> moonbankd_is q Q -> yields (ge_sub h q) (fun r => p1p1_is r (gadd P (gneg Q))).
Proof.
  intros (z & Hz & HX & HY & HZ & HT) (w & Hw & QP & QM & QZ & QT). unfold ge_sub. do 11 fe_step. apply yields_Ok.
  apply (sum_fractions P (gneg Q) _ (2 * z * w) 303); [auto|lia|..]; coordinates; fe_ring.
Qed.
Lemma ge_madd_spec h q P Q : p3_is h P -> precomp_is q Q -> yields (ge_madd h q) (fun r => p1p1_is r (gadd P Q)).
Proof.
  intros (z & Hz & HX & HY & HZ & HT) (QP & QM & QT). unfold ge_madd. do 10 fe_step. apply yields_Ok.
  apply (sum_fractions P Q _ (2 * z) 303); [auto|lia|..]; coordinates; fe_ring.
Qed.
Lemma ge_msub_spec h q P Q : p3_is h P -> precomp_is q Q -> yields (ge_msub h q) (fun r => p1p1_is r (gadd P (gneg Q))).
Proof.
  intros (z & Hz & HX & HY & HZ & HT) (QP & QM & QT). unfold ge_msub. do 10 fe_step. apply yields_Ok.
  apply (sum_fractions P (gneg Q) _ (2 * z) 303); [auto|lia|..]; coordinates; fe_ring.
Qed.
Lemma ge_p1p1_to_p2_spec r P : p1p1_is r P -> yields (ge_p1p1_to_p2 r) (fun h => p2_is h P).
Proof.
  intros (z & t & Hz & Ht & HX & HY & HZ & HT). unfold ge_p1p1_to_p2. do 3 fe_step. apply yields_Ok. exists (z * t). coordinates. split_and!; [auto|fe_ring..].
Qed.
Lemma ge_p1p1_to_p3_spec r P : p1p1_is r P -> yields (ge_p1p1_to_p3 r) (fun h => p3_is h P).
Proof.
  intros (z & t & Hz & Ht & HX & HY & HZ & HT). unfold ge_p1p1_to_p3. do 4 fe_step. apply yields_Ok. exists (z * t). coordinates. split_and!; [auto|fe_ring..].
Qed.
Lemma ge_p2_dbl_wide h P : p2_wide h P -> yields (ge_p2_dbl h) (fun r => p1p1_is r (gadd P P)).
Proof.
  intros (z & Hz & HX & HY & HZ). unfold ge_p2_dbl. do 9 fe_step. apply yields_Ok. pose proof (p_on P) as Hc. unfold on_curve in Hc.
  apply (sum_fractions P P _ (z * z) 303); [auto|lia|..]; coordinates; [fe_ring|fe_ring|..].
  - eapply fe_is_mono; [|eapply fe_is_eq; [|eassumption] ]; [lia|]. transitivity (z * z * (py P * py P - px P * px P)); [unfold eqp; f_equal; ring|]. rewrite Hc. unfold eqp. f_equal. ring.
  - eapply fe_is_mono; [|eapply fe_is_eq; [|eassumption] ]; [lia|]. transitivity (z * z * (2 - (py P * py P - px P * px P))); [unfold eqp; f_equal; ring|]. rewrite Hc. unfold eqp. f_equal. ring.
Qed.
Lemma p2_is_wide h P : p2_is h P -> p2_wide h P.
Proof. intros (z & Hz & HX & HY & HZ). exists z. split_and!; [done|done|by eapply fe_is_mono; [|eassumption]..]. Qed.
Lemma ge_p2_dbl_spec h P : p2_is h P -> yields (ge_p2_dbl h) (fun r => p1p1_is r (gadd P P)).
Proof. intros H. by apply ge_p2_dbl_wide, p2_is_wide. Qed.
Lemma ge_p3_to_p2_spec h P : p3_is h P -> p2_is (ge_p3_to_p2 h) P.
Proof. intros (z & Hz & HX & HY & HZ & _). by exists z. Qed.
Lemma ge_p3_dbl_spec h P : p3_is h P -> yields (ge_p3_dbl h) (fun r => p1p1_is r (gadd P P)).
Proof. intros H. by apply ge_p2_dbl_spec, ge_p3_to_p2_spec. Qed.
Lemma fe_d2_is : fe_is 101 fe_d2 (2 * d).
Proof. split; [apply within_inside; vm_compute; reflexivity|apply fe_d2_twice]. Qed.
Lemma ge_p3_to_moonbankd_spec h P : p3_is h P -> yields (ge_p3_to_moonbankd h) (fun q => moonbankd_is q P).
Proof.
  intros (z & Hz & HX & HY & HZ & HT). pose proof fe_d2_is. unfold ge_p3_to_moonbankd. do 3 fe_step. apply yields_Ok. exists z. coordinates. split_and!; [auto|fe_ring..].
Qed.
Lemma ge_p2_0_spec : p2_is ge_p2_0 gzero.
Proof. pose proof fe_is_0. pose proof fe_is_1. exists 1. unfold ge_p2_0. coordinates. split_and!; [auto|fe_ring..]. Qed.
Lemma ge_p3_0_spec : p3_is ge_p3_0 gzero.
Proof. pose proof fe_is_0. pose proof fe_is_1. exists 1. unfold ge_p3_0. coordinates. split_and!; [auto|fe_ring..]. Qed.
Lemma ge_precomp_0_spec : precomp_is ge_precomp_0 gzero.
Proof. pose proof fe_is_0. pose proof fe_is_1. unfold precomp_is, ge_precomp_0. coordinates. split_and!; fe_ring. Qed.
Lemma ge_moonbankd_0_spec : moonbankd_is ge_moonbankd_0 gzero.
Proof. pose proof fe_is_0. pose proof fe_is_1. exists 1. unfold ge_moonbankd_0. coordinates. split_and!; [auto|fe_ring..]. Qed.
End Forms.

Lemma yields_weaken {A} (m : outcome A) (Q R : A -> Prop) : yields m Q -> (forall a, Q a -> R a) -> yields m R.
Proof. intros (a & E & H) HR. exists a. auto. Qed.

(** The forms do not distinguish equal points. *)
Lemma fe_is_proper c h x y : eqp x y -> fe_is c h x <-> fe_is c h y.
Proof. intros E. split; apply fe_is_eq; [done|by symmetry]. Qed.
#[export] Instance p2_is_proper h : Proper ((≡) ==> iff) (p2_is h).
Proof. intros P Q [Ex Ey]. unfold p2_is. split; intros (z & Hz & H1 & H2 & H3); exists z; (split_and!; [done|eapply fe_is_eq; [|exact H1]; by rewrite Ex|eapply fe_is_eq; [|exact H2]; by rewrite Ey|done]). Qed.
#[export] Instance p3_is_proper h : Proper ((≡) ==> iff) (p3_is h).
Proof.
  intros P Q [Ex Ey]. unfold p3_is.
  split; intros (z & Hz & H1 & H2 & H3 & H4); exists z; (split_and!; [done|eapply fe_is_eq; [|exact H1]; by rewrite Ex|eapply fe_is_eq; [|exact H2]; by rewrite Ey|done|eapply fe_is_eq; [|exact H4]; by rewrite Ex, Ey]).
Qed.
#[export] Instance p1p1_is_proper h : Proper ((≡) ==> iff) (p1p1_is h).
Proof.
  intros P Q [Ex Ey]. unfold p1p1_is.
  split; intros (z & t & Hz & Ht & H1 & H2 & H3 & H4); exists z, t; (split_and!; [done|done|eapply fe_is_eq; [|exact H1]; by rewrite Ex|eapply fe_is_eq; [|exact H2]; by rewrite Ey|done|done]).
Qed.
#[export] Instance moonbankd_is_proper h : Proper ((≡) ==> iff) (moonbankd_is h).
Proof.
  intros P Q [Ex Ey]. unfold moonbankd_is.
  split; intros (z & Hz & H1 & H2 & H3 & H4); exists z; (split_and!; [done|eapply fe_is_eq; [|exact H1]; by rewrite Ex, Ey|eapply fe_is_eq; [|exact H2]; by rewrite Ex, Ey|done|eapply fe_is_eq; [|exact H4]; by rewrite Ex, Ey]).
Qed.
#[export] Instance precomp_is_proper h : Proper ((≡) ==> iff) (precomp_is h).
Proof.
  intros P Q [Ex Ey]. unfold precomp_is.
  split; intros (H1 & H2 & H3); (split_and!; [eapply fe_is_eq; [|exact H1]; by rewrite Ex, Ey|eapply fe_is_eq; [|exact H2]; by rewrite Ex, Ey|eapply fe_is_eq; [|exact H3]; by rewrite Ex, Ey]).
Qed.

(** Steps on points. *)
Ltac ge_op m :=
  lazymatch m with
  | ge_add _ _ => eapply ge_add_spec
  | ge_sub _ _ => eapply ge_sub_spec
  | ge_madd _ _ => eapply ge_madd_spec
  | ge_msub _ _ => eapply ge_msub_spec
  | ge_p1p1_to_p2 _ => eapply ge_p1p1_to_p2_spec
  | ge_p1p1_to_p3 _ => eapply ge_p1p1_to_p3_spec
  | ge_p2_dbl _ => eapply ge_p2_dbl_spec
  | ge_p3_dbl _ => eapply ge_p3_dbl_spec
  | ge_p3_to_moonbankd _ => eapply ge_p3_to_moonbankd_spec
  end; eassumption.
Ltac ge_step :=
  lazymatch goal with |- yields (mbind _ ?m) _ => eapply yields_bind; [ge_op m|] end; let h := fresh "h" in let H := fresh "H" in intros h H; cbn beta in H.

Lemma ge_mul8_wide h P : p2_wide h P -> yields (ge_mul8 h) (fun r => p1p1_is r (zmul 8 P)).
Proof.
  intros H. unfold ge_mul8. eapply yields_bind; [by apply ge_p2_dbl_wide|]. intros h0 H0. cbn beta in H0. do 3 ge_step. eapply yields_weaken; [eapply ge_p2_dbl_spec; eassumption|]. intros r H5. cbn beta in H5. rewrite <- !zmul_2, <- !zmul_mul in H5. exact H5.
Qed.
Lemma ge_mul8_spec h P : p2_is h P -> yields (ge_mul8 h) (fun r => p1p1_is r (zmul 8 P)).
Proof. intros H. by apply ge_mul8_wide, p2_is_wide. Qed.

(** * Points as bytes *)

(** The 32 bytes of a point. *)
Definition point_bytes (P : point) : list Z := digits 256 32 (py P mod p + 2 ^ 255 * ((px P mod p) mod 2)).

Lemma digits_app b n m x : 0 < b -> digits b (n + m) x = digits b n x ++ digits b m (x / b ^ Z.of_nat n).
Proof.
  intros Hb. revert x. induction n as [|n IH]; intros x; cbn [digits Nat.add app]; [change (b ^ Z.of_nat 0) with 1; by rewrite Z.div_1_r|]. rewrite IH. do 2 f_equal. rewrite Z.div_div, Nat2Z.inj_succ, Z.pow_succ_r by lia. done.
Qed.
Lemma digits_mod b n x y : 0 < b -> digits b n (x + b ^ Z.of_nat n * y) = digits b n x.
Proof.
  intros Hb. revert x. induction n as [|n IH]; intros x; cbn [digits]; [done|]. rewrite Nat2Z.inj_succ, Z.pow_succ_r by lia.
  replace (x + b * b ^ Z.of_nat n * y) with (x + b ^ Z.of_nat n * y * b) by ring. rewrite Z.mod_add, Z.div_add by lia. by rewrite IH.
Qed.

Lemma lxor_128 q b : 0 <= q < 128 -> b = 0 \/ b = 1 -> Z.lxor q (Z.shiftl b 7) = q + 128 * b.
Proof.
  intros Hq Hb. assert (H : forallb (fun i => (Z.lxor (Z.of_nat i) 128 =? Z.of_nat i + 128)) (seq 0 128) = true) by (vm_compute; reflexivity). rewrite forallb_forall in H.
  destruct Hb as [-> | ->]; [rewrite Z.shiftl_0_l, Z.lxor_0_r; lia|]. specialize (H (Z.to_nat q) ltac:(apply in_seq; lia)). apply Z.eqb_eq in H. by rewrite Z2Nat.id in H by lia.
Qed.
Lemma top_bit y b : 0 <= y < 2 ^ 255 -> b = 0 \/ b = 1 ->
  <[31%nat := u8 (Z.lxor (digits 256 32 y !!! 31%nat) (Z.shiftl b 7))]> (digits 256 32 y) = digits 256 32 (y + 2 ^ 255 * b).
Proof.
  intros Hy Hb. change 32%nat with (31 + 1)%nat. rewrite !digits_app by lia. rewrite lookup_total_app_r, insert_app_r_alt, !length_digits by (rewrite length_digits; lia). change (31 - 31)%nat with 0%nat.
  assert (E1 : digits 256 31 (y + 2 ^ 255 * b) = digits 256 31 y).
  { replace (2 ^ 255 * b) with (256 ^ Z.of_nat 31 * (128 * b)) by (change (256 ^ Z.of_nat 31) with (2 ^ 248); lia). apply digits_mod. lia. }
  rewrite E1. f_equal. cbn [digits]. change (256 ^ Z.of_nat 31) with (2 ^ 248).
  cbn [lookup_total list_lookup_total]. replace (y + 2 ^ 255 * b) with (y + 128 * b * 2 ^ 248) by lia. rewrite Z.div_add by lia.
  assert (H : 0 <= y / 2 ^ 248 < 128) by (split; [apply Z.div_pos; lia|apply Z.div_lt_upper_bound; lia]). set (q := y / 2 ^ 248) in *. rewrite (Z.mod_small q), (Z.mod_small (q + 128 * b)) by lia.
  rewrite lxor_128, u8_small by (unfold is_u8; lia || done). done.
Qed.

Lemma p_pos : 0 < p.
Proof. done. Qed.
Lemma mod_p_bound x : 0 <= x mod p < p.
Proof. apply Z.mod_pos_bound, p_pos. Qed.
Lemma mod_2_cases x : x mod 2 = 0 \/ x mod 2 = 1.
Proof. pose proof (Z.mod_pos_bound x 2 ltac:(lia)). lia. Qed.

Lemma point_tobytes_spec X Y W z P : ~ eqp z 0 -> fe_is 330 X (px P * z) -> fe_is 330 Y (py P * z) -> fe_is 330 W z -> point_tobytes X Y W = Ok (point_bytes P).
Proof.
  intros Hz HX HY HW. unfold point_tobytes. destruct (fe_invert_spec W z HW) as (r & -> & Hr). cbn [mbind outcome_bind]. fold (inv z) in Hr. pose proof (inv_spec z Hz) as Hi.
  destruct (fe_mul_spec X r (px P * z) (inv z) HX ltac:(eapply fe_is_mono; [|exact Hr]; lia)) as (x & -> & Hx). cbn [mbind outcome_bind].
  destruct (fe_mul_spec Y r (py P * z) (inv z) HY ltac:(eapply fe_is_mono; [|exact Hr]; lia)) as (y & -> & Hy). cbn [mbind outcome_bind].
  apply (fe_is_eq _ _ _ (px P)) in Hx; [|rewrite <- Z.mul_assoc, Hi; by rewrite Z.mul_1_r]. apply (fe_is_eq _ _ _ (py P)) in Hy; [|rewrite <- Z.mul_assoc, Hi; by rewrite Z.mul_1_r].
  rewrite fe_tobytes_spec by (eapply within_mono; [|apply Hy]; lia). cbn [mbind outcome_bind]. rewrite (fe_isnegative_spec x (px P)) by (eapply fe_is_mono; [|exact Hx]; lia). cbn [mbind outcome_bind].
  destruct Hy as [_ Hy]. unfold eqp in Hy. rewrite Hy. f_equal. pose proof (mod_p_bound (py P)). rewrite top_bit; [done|unfold p in *; lia|apply mod_2_cases].
Qed.
Lemma ge_tobytes_spec h P : p2_is h P -> ge_tobytes h = Ok (point_bytes P).
Proof. intros (z & Hz & HX & HY & HZ). apply (point_tobytes_spec _ _ _ z); [done|..]; (eapply fe_is_mono; [|eassumption]; lia). Qed.
Lemma ge_p3_tobytes_spec h P : p3_is h P -> ge_p3_tobytes h = Ok (point_bytes P).
Proof. intros (z & Hz & HX & HY & HZ & _). apply (point_tobytes_spec _ _ _ z); [done|..]; (eapply fe_is_mono; [|eassumption]; lia). Qed.

Lemma point_bytes_value P : value 256 (point_bytes P) = py P mod p + 2 ^ 255 * ((px P mod p) mod 2).
Proof. apply value_digits; [lia|]. pose proof (mod_p_bound (py P)). destruct (mod_2_cases (px P mod p)) as [-> | ->]; unfold p in *; lia. Qed.
Lemma point_bytes_scalar P : scalar (point_bytes P).
Proof. split; [apply (digits_ok 256); lia|apply length_digits]. Qed.

(** Equal bytes, equal points: the curve has at most two points for a [y], and
    their [x] differ in the last bit. *)
Lemma x_square P : eqp (px P * px P * (1 + d * (py P * py P))) (py P * py P - 1).
Proof. pose proof (p_on P) as H. unfold on_curve in H. transitivity (px P * px P + (1 + d * (px P * px P) * (py P * py P)) - 1); [unfold eqp; f_equal; ring|]. rewrite <- H. unfold eqp. f_equal. ring. Qed.
Lemma v_nonzero y : ~ eqp (1 + d * (y * y)) 0.
Proof.
  intros E. assert (H : eqp (im * im) (d * (y * y))) by (rewrite im_square; replace (d * (y * y)) with (1 + d * (y * y) - 1) by lia; by rewrite E).
  apply d_no_square in H. rewrite H in E. by apply eqp_1_0.
Qed.

(** * Square roots *)

Section Root.
Variables u v : Z.
Let w := u * v ^ 7.
Let k := (p - 5) / 8.
Lemma exponent : p - 1 = 4 * (2 * k + 1) /\ 0 <= k.
Proof. split; vm_compute; [reflexivity|discriminate]. Qed.

Lemma candidate : eqp (v * (divpowm1 u v * divpowm1 u v)) (u * w ^ (2 * k + 1)).
Proof.
  destruct exponent as [_ Hk]. unfold divpowm1. fold k. fold w. rewrite Z.pow_add_r, Z.pow_1_r, (Z.mul_comm 2 k), Z.pow_mul_r, Z.pow_2_r by lia. unfold eqp. f_equal. generalize (w ^ k). intros c. unfold w. ring.
Qed.

(** If there is a root, the candidate is one, up to the root of -1. *)
Lemma candidate_complete x : eqp (v * (x * x)) u -> ~ eqp u 0 -> eqp (w ^ (2 * k + 1)) 1 \/ eqp (w ^ (2 * k + 1)) (-1).
Proof.
  intros Hx Hu. destruct exponent as [Ep Hk]. set (r := v ^ 4 * x). assert (Hw : eqp w (r * r)) by (unfold w, r; rewrite <- Hx; unfold eqp; f_equal; ring).
  assert (Hr : ~ eqp r 0).
  { intros H. apply Hu. unfold r in H. apply eqp_integral in H as [H|H]; [|rewrite <- Hx, H; unfold eqp; f_equal; ring].
    replace (v ^ 4) with (v * v * (v * v)) in H by ring. assert (eqp v 0) as Hv by (repeat (apply eqp_integral in H as [H|H]); done). rewrite <- Hx, Hv. done. }
  set (c := w ^ (2 * k + 1)). assert (Hc : eqp (c * c) 1).
  { transitivity (r ^ (p - 1)); [|by apply pow_order]. unfold c. rewrite Ep, Hw. clearbody k. rewrite <- (Z.pow_2_r r), <- Z.pow_mul_r, <- Z.pow_add_r by lia. unfold eqp. do 2 f_equal. lia. }
  assert (H : eqp ((c - 1) * (c + 1)) 0) by (transitivity (c * c - 1); [unfold eqp; f_equal; ring|by rewrite Hc]).
  apply eqp_integral in H as [H|H]; [left; replace c with (c - 1 + 1) by lia; by rewrite H|right; replace c with (c + 1 - 1) by lia; by rewrite H].
Qed.
End Root.

(** The negative has the other last bit. *)
Lemma mod_opp_parity x : ~ eqp x 0 -> (- x mod p) mod 2 = 1 - (x mod p) mod 2.
Proof.
  intros Hx. assert (x mod p <> 0) by (intros E; apply Hx; by unfold eqp). rewrite Z.mod_opp_l_nz by (done || (pose proof p_pos; lia)).
  pose proof (mod_p_bound x). assert (Hp : p mod 2 = 1) by done. rewrite Zminus_mod, Hp. destruct (mod_2_cases (x mod p)) as [-> | ->]; done.
Qed.
Lemma root_unique v x y : ~ eqp v 0 -> eqp (v * (x * x)) (v * (y * y)) -> eqp x y \/ eqp x (- y).
Proof.
  intros Hv E. assert (H : eqp (v * ((x - y) * (x + y))) 0) by (transitivity (v * (x * x) - v * (y * y)); [unfold eqp; f_equal; ring|rewrite E; by rewrite Z.sub_diag]).
  apply eqp_integral in H as [H|H]; [done|]. apply eqp_integral in H as [H|H]; [left; replace x with (x - y + y) by lia; by rewrite H|right; replace x with (x + y - y) by lia; by rewrite H].
Qed.
Lemma root_parity v x y : ~ eqp v 0 -> eqp (v * (x * x)) (v * (y * y)) -> (x mod p) mod 2 = (y mod p) mod 2 -> eqp x y.
Proof.
  intros Hv E Hp. destruct (root_unique v x y Hv E) as [H|H]; [done|]. destruct (decide (eqp y 0)) as [Hy|Hy]; [rewrite H, Hy; done|].
  unfold eqp in H. rewrite H, mod_opp_parity in Hp by done. destruct (mod_2_cases (y mod p)); lia.
Qed.
Lemma point_bytes_inj P Q : point_bytes P = point_bytes Q -> P ≡ Q.
Proof.
  intros E. apply (f_equal (value 256)) in E. rewrite !point_bytes_value in E. pose proof (mod_p_bound (py P)). pose proof (mod_p_bound (py Q)).
  assert (p < 2 ^ 255) by done. assert (Ey : eqp (py P) (py Q)) by (unfold eqp; destruct (mod_2_cases (px P mod p)) as [E1|E1], (mod_2_cases (px Q mod p)) as [E2|E2]; rewrite E1, E2 in E; lia).
  assert (Ep : (px P mod p) mod 2 = (px Q mod p) mod 2) by (unfold eqp in Ey; lia). split; [|done]. apply (root_parity (1 + d * (py P * py P))); [apply v_nonzero| |done].
  rewrite !(Z.mul_comm (1 + _)), x_square, Ey, x_square. done.
Qed.

(** * Reading points *)

Lemma fe_d_is : fe_is 101 fe_d d.
Proof. split; [apply within_inside; vm_compute; reflexivity|done]. Qed.
Lemma fe_sqrtm1_is : fe_is 101 fe_sqrtm1 im.
Proof. split; [apply within_inside; vm_compute; reflexivity|done]. Qed.

(** The candidate of the code, corrected by the root of -1: a root if there is one. *)
Lemma choose_root_spec u v X fu vxx : fe_is 101 X (divpowm1 u v) -> fe_is 102 fu u -> fe_is 101 vxx (divpowm1 u v * divpowm1 u v * v) ->
  yields (choose_root X vxx fu) (fun r => match r with Some h => exists x, fe_is 101 h x /\ eqp (v * (x * x)) u | None => forall x, ~ eqp (v * (x * x)) u end).
Proof.
  intros HX Hu Hvxx. unfold choose_root. set (r := divpowm1 u v) in *. fe_step. rewrite (fe_isnonzero_spec t (r * r * v - u)) by (eapply fe_is_mono; [|exact H]; lia). cbn [mbind outcome_bind].
  destruct (Z.eqb_spec ((r * r * v - u) mod p) 0) as [E|E]; cbn [Z.eqb].
  { apply yields_Ok. exists r. split; [done|]. assert (E' : eqp (r * r * v - u) 0) by done. transitivity (r * r * v - u + u); [unfold eqp; f_equal; ring|]. by rewrite E'. }
  fe_step. rewrite (fe_isnonzero_spec t0 (r * r * v + u)) by (eapply fe_is_mono; [|exact H0]; lia). cbn [mbind outcome_bind].
  destruct (Z.eqb_spec ((r * r * v + u) mod p) 0) as [E0|E0]; cbn [Z.eqb].
  - pose proof fe_sqrtm1_is as Him. fe_step. apply yields_Ok. exists (r * im). split; [done|]. assert (E' : eqp (r * r * v + u) 0) by done.
    transitivity ((r * r * v + u - u) * (im * im)); [unfold eqp; f_equal; ring|]. rewrite E', im_square. unfold eqp. f_equal. ring.
  - apply yields_Ok. intros x Hx. destruct (decide (eqp u 0)) as [Hu0|Hu0].
    + assert (Hr : eqp r 0) by (unfold r, divpowm1; rewrite Hu0; by rewrite Z.mul_0_r). apply E. change (eqp (r * r * v - u) 0). rewrite Hr, Hu0. done.
    + pose proof (candidate u v) as Hc. fold r in Hc. destruct (candidate_complete u v x Hx Hu0) as [Hw|Hw]; rewrite Hw in Hc.
      * apply E. change (eqp (r * r * v - u) 0). replace (r * r * v) with (v * (r * r)) by ring. rewrite Hc. unfold eqp. f_equal. ring.
      * apply E0. change (eqp (r * r * v + u) 0). replace (r * r * v) with (v * (r * r)) by ring. rewrite Hc. unfold eqp. f_equal. ring.
Qed.

(** The root with the given last bit: the only one, or none if the root is 0. *)
Lemma choose_sign_spec X x sign : fe_is 101 X x -> sign = 0 \/ sign = 1 ->
  yields (choose_sign X sign) (fun r => match r with
    | Some h => exists y, fe_is 101 h y /\ (eqp y x \/ eqp y (- x)) /\ (y mod p) mod 2 = sign
    | None => eqp x 0 /\ sign = 1 end).
Proof.
  intros HX Hs. unfold choose_sign. rewrite (fe_isnegative_spec X x) by (eapply fe_is_mono; [|exact HX]; lia). cbn [mbind outcome_bind].
  destruct (Z.eqb_spec ((x mod p) mod 2) sign) as [E|E]; [apply yields_Ok; exists x; split_and!; [done|by left|done]|].
  rewrite (fe_isnonzero_spec X x) by (eapply fe_is_mono; [|exact HX]; lia). cbn [mbind outcome_bind]. destruct (Z.eqb_spec (x mod p) 0) as [E0|E0]; cbn [Z.eqb].
  - apply yields_Ok. split; [done|]. rewrite E0 in E. change (0 mod 2) with 0 in E. lia.
  - fe_step. apply yields_Ok. exists (- x). split_and!; [done|by right|]. rewrite mod_opp_parity by done. destruct (mod_2_cases (x mod p)), Hs; lia.
Qed.

Lemma top_byte s : scalar s -> Z.shiftr (s !!! 31%nat) 7 = value 256 s / 2 ^ 255 /\ (value 256 s / 2 ^ 255 = 0 \/ value 256 s / 2 ^ 255 = 1).
Proof.
  intros Hs. pose proof (scalar_bound s Hs) as Hv. destruct Hs as [Hs Hl]. split.
  - pose proof (value_drop s 31 Hs ltac:(lia)) as E. rewrite (drop_S s (s !!! 31%nat) 31), drop_ge in E by (lia || (apply list_lookup_lookup_total_lt; lia)). unfold value at 2 in E. cbn [foldr] in E.
    rewrite Z.shiftr_div_pow2 by lia. replace (s !!! 31%nat) with (value 256 s / 2 ^ (8 * Z.of_nat 31)) by lia. rewrite Z.div_div by lia. done.
  - assert (0 <= value 256 s / 2 ^ 255 < 2); [|lia]. split; [apply Z.div_pos; lia|apply Z.div_lt_upper_bound; lia].
Qed.

(** The bytes of a point are its [y] and the last bit of its [x]. *)
Lemma point_bytes_iff P s : scalar s -> point_bytes P = s <-> py P mod p = value 256 s mod 2 ^ 255 /\ (px P mod p) mod 2 = value 256 s / 2 ^ 255.
Proof.
  intros Hs. pose proof (point_bytes_value P) as V. pose proof (mod_p_bound (py P)). assert (p < 2 ^ 255) by done. split.
  - intros E. rewrite E in V. rewrite V, (Z.mul_comm (2 ^ 255)), Z.mod_add, Z.div_add, (Z.mod_small (py P mod p)), (Z.div_small (py P mod p)) by lia. done.
  - intros [Ey Ex]. unfold point_bytes. rewrite Ey, Ex. rewrite Z.add_comm, <- Z.div_mod by lia. destruct Hs as [Hs Hl]. rewrite <- Hl. by apply digits_value.
Qed.
(** A root of (y^2 - 1) / (d y^2 + 1) is the [x] of a point with that [y]. *)
Lemma root_on_curve x y : eqp ((y * y * d + 1) * (x * x)) (y * y - 1) -> on_curve x y.
Proof.
  intros H. unfold on_curve. transitivity (1 + (y * y - 1) - x * x); [unfold eqp; f_equal; ring|]. rewrite <- H. unfold eqp. f_equal. ring.
Qed.
Lemma point_root P y : eqp (py P) y -> eqp ((y * y * d + 1) * (px P * px P)) (y * y - 1).
Proof.
  intros H. pose proof (x_square P) as E. rewrite H in E. rewrite <- E. unfold eqp. f_equal. ring.
Qed.

Lemma ge_frombytes_spec s : scalar s ->
  yields (ge_frombytes_vartime s) (fun r => match r with Some h => exists P, p3_is h P /\ point_bytes P = s | None => forall P, point_bytes P <> s end).
Proof.
  intros Hs. unfold ge_frombytes_vartime. pose proof (fe_frombytes_spec s Hs) as Hy. cbn zeta in Hy. set (y := value 256 s mod 2 ^ 255) in *.
  assert (Hpy : forall P, point_bytes P = s -> py P mod p = y) by (intros P E; by apply point_bytes_iff in E as [E _]).
  destruct (Z.leb_spec p y) as [Hp|Hp].
  { rewrite Hy. apply yields_Ok. intros P E%Hpy. pose proof (mod_p_bound (py P)). lia. }
  assert (Hy0 : 0 <= y) by (apply Z.mod_pos_bound; lia). assert (Ey : y mod p = y) by (apply Z.mod_small; lia).
  assert (Hroot : forall P, point_bytes P = s -> eqp ((y * y * d + 1) * (px P * px P)) (y * y - 1)) by (intros P E%Hpy; apply point_root; unfold eqp; congruence).
  destruct Hy as (Y & -> & HY). cbn [mbind outcome_bind]. cbn zeta. pose proof fe_d_is as Hd. pose proof fe_is_1 as H1. do 4 fe_step.
  eapply yields_bind; [eapply fe_divpowm1_spec; fe_in|]. intros X HX. cbn beta in HX. do 2 fe_step. eapply yields_bind; [eapply choose_root_spec; fe_in|].
  intros [X'|] HX'; [|apply yields_Ok; intros P E; apply (HX' (px P)), Hroot, E]. destruct HX' as (x & Hx & Ex).
  destruct (top_byte s Hs) as [Et Ht]. rewrite Et. eapply yields_bind; [eapply (choose_sign_spec X' x); [done|exact Ht]|].
  intros [X''|] HX''; [|apply yields_Ok; intros P E].
  - destruct HX'' as (x' & Hx' & Hxx & Hpar). fe_step. apply yields_Ok. assert (Hon : on_curve x' y).
    { apply root_on_curve. rewrite <- Ex. destruct Hxx as [H'|H']; rewrite H'; unfold eqp; f_equal; ring. }
    exists (Point x' y Hon). split; [|by apply point_bytes_iff]. exists 1. cbn [px py p3_X p3_Y p3_Z p3_T]. rewrite !Z.mul_1_r. split_and!; [apply eqp_1_0|fe_in..].
  - destruct HX'' as [Hx0 Hone]. pose proof (Hroot P E) as HP. apply point_bytes_iff in E as [_ E]; [|done]. rewrite Hone in E.
    assert (HP0 : eqp (px P) 0); [|unfold eqp in HP0; by rewrite HP0 in E].
    rewrite <- Ex, Hx0 in HP. destruct (root_unique (y * y * d + 1) (px P) 0) as [?|?]; [|exact HP|done|done].
    intros F. apply (v_nonzero y). rewrite <- F. unfold eqp. f_equal. ring.
Qed.

(** Reading back what was written gives the same point, and what was read is
    written back byte for byte. *)
Lemma frombytes_tobytes s h : scalar s -> ge_frombytes_vartime s = Ok (Some h) -> exists P, p3_is h P /\ ge_p3_tobytes h = Ok s.
Proof.
  intros Hs E. destruct (ge_frombytes_spec s Hs) as (r & Er & H). rewrite E in Er. injection Er as <-. destruct H as (P & HP & <-). exists P. split; [done|]. by apply ge_p3_tobytes_spec.
Qed.
Lemma tobytes_frombytes h P : p3_is h P -> exists h', (ge_p3_tobytes h ≫= ge_frombytes_vartime) = Ok (Some h') /\ p3_is h' P.
Proof.
  intros HP. rewrite (ge_p3_tobytes_spec h P HP). cbn [mbind outcome_bind]. destruct (ge_frombytes_spec _ (point_bytes_scalar P)) as (r & -> & H).
  destruct r as [h'|]; [|by destruct (H P)]. destruct H as (Q & HQ & E). exists h'. split; [done|]. apply point_bytes_inj in E. by rewrite <- E.
Qed.

(** The base point, with [y] = 4/5 and even [x]. *)
Definition base : point :=
  Point 15112221349535400772501151409588531511454012693041857206046113283949847762202
        46316835694926478169428394003475163141307993866256225615783033603165251855960 eq_refl.

(** * Claims *)

Section Claims.
Variables (h : ge_p3) (q : ge_moonbankd) (m : ge_precomp) (r : ge_p1p1) (t : ge_p2) (P Q : point).

(** The group operations of crypto-ops.c compute in the group of the
    curve -x^2 + y^2 = 1 + d x^2 y^2, with no exceptional inputs and no
    overflow of the 32- and 64-bit arithmetic: additions, subtractions,
    doublings, the multiplication by 8 and the changes of representation
    represent the sum, the difference, the double, eight times and the same
    point. *)
Theorem group_operations_exact : p3_is h P -> p2_is t P -> p1p1_is r P -> moonbankd_is q Q -> precomp_is m Q ->
  yields (ge_add h q) (fun r => p1p1_is r (gadd P Q)) /\
  yields (ge_sub h q) (fun r => p1p1_is r (gadd P (gneg Q))) /\
  yields (ge_madd h m) (fun r => p1p1_is r (gadd P Q)) /\
  yields (ge_msub h m) (fun r => p1p1_is r (gadd P (gneg Q))) /\
  yields (ge_p2_dbl t) (fun r => p1p1_is r (gadd P P)) /\
  yields (ge_p3_dbl h) (fun r => p1p1_is r (gadd P P)) /\
  yields (ge_mul8 t) (fun r => p1p1_is r (zmul 8 P)) /\
  yields (ge_p1p1_to_p2 r) (fun t => p2_is t P) /\
  yields (ge_p1p1_to_p3 r) (fun h => p3_is h P) /\
  yields (ge_p3_to_moonbankd h) (fun q => moonbankd_is q P) /\
  p2_is (ge_p3_to_p2 h) P.
Proof.
  intros Hh Ht Hr Hq Hm. split_and!; [by apply ge_add_spec|by apply ge_sub_spec|by apply ge_madd_spec|by apply ge_msub_spec|by apply ge_p2_dbl_spec|by apply ge_p3_dbl_spec|by apply ge_mul8_spec|by apply ge_p1p1_to_p2_spec|by apply ge_p1p1_to_p3_spec|by apply ge_p3_to_moonbankd_spec|by apply ge_p3_to_p2_spec].
Qed.

(** C25.  Points and their 32 bytes: a point written by [ge_p3_tobytes] is read
    back by [ge_frombytes_vartime] as the same point, [ge_frombytes_vartime]
    returns a point or -1 on every string of 32 bytes (never overflowing), it
    returns -1 only if no point of the curve has these bytes, and what it reads
    is on the curve and is written back byte for byte. *)
Theorem point_bytes_roundtrip s : p3_is h P -> scalar s ->
  (exists h', (ge_p3_tobytes h ≫= ge_frombytes_vartime) = Ok (Some h') /\ p3_is h' P) /\
  match ge_frombytes_vartime s with
  | Ok (Some h') => exists Q, p3_is h' Q /\ ge_p3_tobytes h' = Ok s
  | Ok None => forall h' Q, p3_is h' Q -> ge_p3_tobytes h' <> Ok s
  | _ => False
  end.
Proof.
  intros HP Hs. split; [by apply tobytes_frombytes|]. destruct (ge_frombytes_spec s Hs) as (o & E & Ho). rewrite E. destruct o as [h'|].
  - by apply frombytes_tobytes.
  - intros h' Q' HQ. rewrite (ge_p3_tobytes_spec h' Q' HQ). intros F. injection F as F. by apply (Ho Q').
Qed.
End Claims.

Lemma group_operations_exact_witness :
  yields (ge_add ge_p3_0 ge_moonbankd_0) (fun r => p1p1_is r (gadd gzero gzero)) /\ yields (ge_madd ge_p3_0 ge_precomp_0) (fun r => p1p1_is r (gadd gzero gzero)).
Proof.
  assert (H : p1p1_is {| p1_X := fe_0; p1_Y := fe_1; p1_Z := fe_1; p1_T := fe_1 |} gzero).
  { exists 1, 1. split_and!; [done|done|..]; (split; [apply within_inside; vm_compute; reflexivity|done]). }
  destruct (group_operations_exact ge_p3_0 ge_moonbankd_0 ge_precomp_0 _ ge_p2_0 gzero gzero ge_p3_0_spec ge_p2_0_spec H ge_moonbankd_0_spec ge_precomp_0_spec) as (H1 & _ & H2 & _).
  split; [exact H1|exact H2].
Defined.
Lemma point_bytes_roundtrip_witness :
  exists h', (ge_p3_tobytes ge_p3_0 ≫= ge_frombytes_vartime) = Ok (Some h') /\ p3_is h' gzero.
Proof.
  assert (HS : scalar (digits 256 32 p)) by (split; [apply (digits_ok 256); lia|apply length_digits]).
  destruct (point_bytes_roundtrip ge_p3_0 gzero (digits 256 32 p) ge_p3_0_spec HS) as (H & _). exact H.
Defined.
