(* ===== verification/BaseMultiples.v ===== *)
(** The tables of [BaseTable] hold the multiples of the base point: [ge_Bi] the odd
    multiples up to 15 and row [i] of [ge_base] the multiples from 1 to 8 of 256^i
    times it.  Each entry is checked against the one before it by the equations of
    the sum, and each row against the row before by doublings in projective
    coordinates; no division is needed. *)
From S2P Require Import Prelude IntUtil Limbs ScalarOps FieldOps PrimeField Group Edwards GroupOps BaseTable.

(** * Computing modulo [p] with shifts *)

Definition red (x : Z) : Z := Z.land x (Z.ones 255) + 19 * Z.shiftr x 255.
Definition mul (x y : Z) : Z := red (red (x * y)).
Definition zero (x : Z) : bool := let r := red (red (red x)) in (r =? 0) || (r =? p).
Definition half (x : Z) : Z := if Z.even x then Z.shiftr x 1 else Z.shiftr (x + p) 1.

Lemma red_eqp x : eqp (red x) x.
Proof.
  unfold red. rewrite Z.land_ones, Z.shiftr_div_pow2 by lia. rewrite (Z.div_mod x (2 ^ 255)) at 3 by lia. unfold eqp.
  replace (2 ^ 255 * (x / 2 ^ 255) + x mod 2 ^ 255) with (x mod 2 ^ 255 + 19 * (x / 2 ^ 255) + (x / 2 ^ 255) * p) by (unfold p; lia). by rewrite Z.mod_add.
Qed.
Lemma mul_eqp x y : eqp (mul x y) (x * y).
Proof. unfold mul. by rewrite !red_eqp. Qed.
Lemma zero_eqp x y : zero (x - y) = true -> eqp x y.
Proof.
  unfold zero. intros H. assert (E : eqp (x - y) 0) by (rewrite <- (red_eqp (x - y)), <- (red_eqp (red _)), <- (red_eqp (red (red _))); apply orb_true_iff in H as [->%Z.eqb_eq| ->%Z.eqb_eq]; done).
  replace x with (x - y + y) by lia. by rewrite E.
Qed.
Lemma half_eqp x : eqp (2 * half x) x.
Proof.
  unfold half. destruct (Z.even x) eqn:E; rewrite Z.shiftr_div_pow2 by lia; change (2 ^ 1) with 2.
  - apply Z.even_spec in E as [k ->]. by rewrite (Z.mul_comm 2 k), Z.div_mul, Z.mul_comm by lia.
  - assert (Ho : Z.odd x = true) by (by rewrite <- Z.negb_even, E). apply Z.odd_spec in Ho as [k ->]. replace (2 * k + 1 + p) with ((k + (1 + p) / 2) * 2) by (change ((1 + p) / 2) with (2 ^ 254 - 9); unfold p; lia).
    rewrite Z.div_mul by lia. unfold eqp. replace (2 * (k + (1 + p) / 2)) with (2 * k + 1 + 1 * p) by (change ((1 + p) / 2) with (2 ^ 254 - 9); unfold p; lia). by rewrite Z.mod_add.
Qed.

(** * The checks *)

(** The coordinates of an entry. *)
Definition affine (e : ge_precomp) : Z * Z := (half (num (yplusx e) - num (yminusx e)), half (num (yplusx e) + num (yminusx e))).
Definition small (h : fe) : bool := inside (map (fun x => (x, x)) h) (size_bounds 101).
(** The third field of the entry, and the limbs. *)
Definition entry_ok (e : ge_precomp) : bool :=
  let '(x, y) := affine e in
  small (yplusx e) && small (yminusx e) && small (xy2d e) && zero (num (xy2d e) - mul (2 * d) (mul x y)).
(** [c] = [a] + [b]. *)
Definition sum_ok (a b c : Z * Z) : bool :=
  let xx := mul a.1 b.1 in
  let yy := mul a.2 b.2 in
  let t := mul d (mul xx yy) in
  zero (c.1 * (1 + t) - (a.1 * b.2 + b.1 * a.2)) && zero (c.2 * (1 - t) - (yy + xx)).
Fixpoint multiples_ok (step : Z * Z) (e : ge_precomp) (l : list ge_precomp) : bool :=
  entry_ok e && match l with [] => true | e' :: l => sum_ok (affine e) step (affine e') && multiples_ok step e' l end.

(** Doubling in projective coordinates. *)
Definition pdbl (q : Z * Z * Z) : Z * Z * Z :=
  let '(X, Y, W) := q in
  let xx := mul X X in
  let yy := mul Y Y in
  let x3 := mul (X + Y) (X + Y) - (yy + xx) in
  let z3 := yy - xx in
  let t3 := 2 * mul W W - z3 in
  (mul x3 t3, mul (yy + xx) z3, mul z3 t3).
(** [b] is the point with the projective coordinates [q]. *)
Definition meets (b : Z * Z) (q : Z * Z * Z) : bool := let '(X, Y, W) := q in zero (b.1 * W - X) && zero (b.2 * W - Y).
Definition next_ok (n : nat) (a b : Z * Z) : bool := meets b (Nat.iter n pdbl (a.1, a.2, 1)).
Fixpoint rows_ok (row : list ge_precomp) (rows : list (list ge_precomp)) : bool :=
  match row with
  | [e0; _; _; _; _; _; _; e7] =>
      multiples_ok (affine e0) e0 (tail row) &&
      match rows with [] => true | ((e :: _) as row') :: rows => next_ok 5 (affine e7) (affine e) && rows_ok row' rows | _ => false end
  | _ => false
  end.
Definition tables_ok (rows : list (list ge_precomp)) (odd : list ge_precomp) : bool :=
  match rows, odd with
  | ((e0 :: e1 :: _) as row) :: rows, e :: l =>
      zero ((affine e0).1 - px base) && zero ((affine e0).2 - py base) && rows_ok row rows &&
      zero ((affine e).1 - px base) && zero ((affine e).2 - py base) && multiples_ok (affine e1) e l
  | _, _ => false
  end.
Lemma tables_checked : tables_ok ge_base ge_Bi = true.
Proof. vm_compute. reflexivity. Qed.

(** * What the checks show *)

(** The pair [q] of numbers is the point [P]. *)
Definition at_point (P : point) (q : Z * Z) : Prop := eqp (px P) q.1 /\ eqp (py P) q.2.

Lemma sum_ok_spec P Q a b c : at_point P a -> at_point Q b -> sum_ok a b c = true -> at_point (gadd P Q) c.
Proof.
  intros [Ha1 Ha2] [Hb1 Hb2] H. unfold sum_ok in H. apply andb_true_iff in H as [H1%zero_eqp H2%zero_eqp]. rewrite !mul_eqp in H1, H2. rewrite <- Ha1, <- Ha2, <- Hb1, <- Hb2 in H1, H2.
  pose proof (complete_plus _ _ _ _ (p_on P) (p_on Q)) as N1. pose proof (complete_minus _ _ _ _ (p_on P) (p_on Q)) as N2. split; cbn [gadd curve point_add px py].
  - apply (eqp_cancel _ _ _ N1). rewrite (sum_x_spec _ _ _ _ (p_on P) (p_on Q)), <- H1. unfold eqp. f_equal. ring.
  - apply (eqp_cancel _ _ _ N2). rewrite (sum_y_spec _ _ _ _ (p_on P) (p_on Q)), <- H2. unfold eqp. f_equal. ring.
Qed.

Lemma entry_ok_spec P e : at_point P (affine e) -> entry_ok e = true -> precomp_is e P.
Proof.
  intros [Hx Hy] H. unfold entry_ok, affine in *. cbn [fst snd] in *. set (u := num (yplusx e)) in *. set (v := num (yminusx e)) in *.
  do 3 (apply andb_true_iff in H as [H ?]). pose proof (half_eqp (u - v)) as E1. pose proof (half_eqp (u + v)) as E2. rewrite <- Hx in E1. rewrite <- Hy in E2.
  match goal with K : zero _ = true |- _ => apply zero_eqp in K; rewrite !mul_eqp, <- Hx, <- Hy in K; rename K into E3 end.
  assert (W : forall h, small h = true -> within 330 h) by (intros h Hh; eapply within_mono; [|apply within_inside, Hh]; lia).
  unfold precomp_is. split_and!; (split; [by apply W|]).
  - apply (eqp_cancel _ _ 2 two_nonzero). fold u. transitivity ((u + v) + (u - v)); [unfold eqp; f_equal; ring|]. rewrite <- E1, <- E2. unfold eqp. f_equal. ring.
  - apply (eqp_cancel _ _ 2 two_nonzero). fold v. transitivity ((u + v) - (u - v)); [unfold eqp; f_equal; ring|]. rewrite <- E1, <- E2. unfold eqp. f_equal. ring.
  - rewrite E3. unfold eqp. f_equal. ring.
Qed.

#[export] Instance at_point_proper : Proper ((≡) ==> (=) ==> iff) at_point.
Proof. intros P Q [Ex Ey] q _ <-. unfold at_point. by rewrite Ex, Ey. Qed.

(** The entry [m] is the point [P]. *)
Definition entry_is (m : ge_precomp) (P : point) : Prop := at_point P (affine m) /\ precomp_is m P.
#[export] Instance entry_is_proper m : Proper ((≡) ==> iff) (entry_is m).
Proof. intros P Q E. unfold entry_is. by rewrite E. Qed.

Lemma multiples_ok_spec P Q step e l : at_point P (affine e) -> at_point Q step -> multiples_ok step e l = true ->
  forall j m, (e :: l) !! j = Some m -> entry_is m (gadd P (zmul (Z.of_nat j) Q)).
Proof.
  revert P e. induction l as [|e' l IH]; intros P e HP HQ H; cbn [multiples_ok] in H; apply andb_true_iff in H as [He H].
  all: pose proof (entry_ok_spec P e HP He) as Hp; intros [|j] m Hm; cbn [lookup list_lookup] in Hm; try (simplify_eq; change (Z.of_nat 0) with 0; rewrite zmul_0, gadd_0_r; by split); try done.
  apply andb_true_iff in H as [Hs H]. pose proof (sum_ok_spec _ _ _ _ _ HP HQ Hs) as HP'. pose proof (IH _ _ HP' HQ H j m Hm) as Hj.
  rewrite Nat2Z.inj_succ, zmul_succ, gadd_assoc. exact Hj.
Qed.

(** Projective doubling. *)
Definition at_projective (P : point) (q : Z * Z * Z) : Prop := let '(X, Y, W) := q in ~ eqp W 0 /\ eqp X (px P * W) /\ eqp Y (py P * W).
#[export] Instance at_projective_proper : Proper ((≡) ==> (=) ==> iff) at_projective.
Proof. intros P Q [Ex Ey] [ [X Y] W] _ <-. unfold at_projective. by rewrite Ex, Ey. Qed.
Lemma pdbl_spec P q : at_projective P q -> at_projective (gadd P P) (pdbl q).
Proof.
  destruct q as [ [X Y] W]. intros (HW & HX & HY). pose proof (complete_plus _ _ _ _ (p_on P) (p_on P)) as N1. pose proof (complete_minus _ _ _ _ (p_on P) (p_on P)) as N2. pose proof (p_on P) as Hc. unfold on_curve in Hc.
  pose proof (sum_x_spec _ _ _ _ (p_on P) (p_on P)) as Sx. pose proof (sum_y_spec _ _ _ _ (p_on P) (p_on P)) as Sy.
  assert (Z3 : eqp (Y * Y - X * X) ((1 + d * px P * px P * py P * py P) * (W * W))).
  { rewrite HX, HY. transitivity ((py P * py P - px P * px P) * (W * W)); [unfold eqp; f_equal; ring|]. rewrite Hc. unfold eqp. f_equal. ring. }
  assert (T3 : eqp (2 * (W * W) - (Y * Y - X * X)) ((1 - d * px P * px P * py P * py P) * (W * W))) by (rewrite Z3; unfold eqp; f_equal; ring).
  set (e := d * px P * px P * py P * py P) in *. revert Sx Sy. cbn [gadd curve point_add px py pdbl at_projective]. generalize (sum_x (px P) (py P) (px P) (py P)) (sum_y (px P) (py P) (px P) (py P)). intros a b Sx Sy.
  pose proof (mul_eqp X X) as E1. pose proof (mul_eqp Y Y) as E2. pose proof (mul_eqp W W) as E3. pose proof (mul_eqp (X + Y) (X + Y)) as E4. unfold pdbl. revert E1 E2 E3 E4. generalize (mul X X) (mul Y Y) (mul W W) (mul (X + Y) (X + Y)). intros xx yy ww ss E1 E2 E3 E4.
  assert (Z3' : eqp (yy - xx) ((1 + e) * (W * W))) by (by rewrite E1, E2). assert (T3' : eqp (2 * ww - (yy - xx)) ((1 - e) * (W * W))) by (by rewrite E1, E2, E3).
  assert (X3 : eqp (ss - (yy + xx)) ((px P * py P + px P * py P) * (W * W))) by (rewrite E1, E2, E4, HX, HY; unfold eqp; f_equal; ring). assert (Y3 : eqp (yy + xx) ((py P * py P + px P * px P) * (W * W))) by (rewrite E1, E2, HX, HY; unfold eqp; f_equal; ring).
  rewrite <- Sx in X3. rewrite <- Sy in Y3. split_and!; rewrite !mul_eqp.
  - rewrite T3', Z3'. repeat apply eqp_mul_nonzero; assumption.
  - rewrite X3, T3', Z3'. unfold eqp. f_equal. ring.
  - rewrite Y3, T3', Z3'. unfold eqp. f_equal. ring.
Qed.
Lemma pdbl_iter n P q : at_projective P q -> at_projective (zmul (2 ^ Z.of_nat n) P) (Nat.iter n pdbl q).
Proof.
  intros H. induction n as [|n IH]; [change (2 ^ Z.of_nat 0) with 1; by rewrite zmul_1|]. rewrite Nat2Z.inj_succ, Z.pow_succ_r, zmul_mul, zmul_2 by lia. by apply pdbl_spec.
Qed.
Lemma at_projective_1 P a : at_point P a -> at_projective P (a.1, a.2, 1).
Proof. intros [Hx Hy]. split_and!; [apply eqp_1_0|rewrite Z.mul_1_r; by symmetry..]. Qed.
Lemma meets_spec P b q : at_projective P q -> meets b q = true -> at_point P b.
Proof.
  destruct q as [ [X Y] W]. intros (HW & HX & HY) H. apply andb_true_iff in H as [H1%zero_eqp H2%zero_eqp]. split; apply (eqp_cancel _ _ W HW); (etrans; [symmetry; eassumption|symmetry; eassumption]).
Qed.
Lemma next_ok_spec n P a b : at_point P a -> next_ok n a b = true -> at_point (zmul (2 ^ Z.of_nat n) P) b.
Proof. intros Ha%at_projective_1 H. exact (meets_spec _ _ _ (pdbl_iter n _ _ Ha) H). Qed.

Definition row_is (row : list ge_precomp) (P : point) : Prop := length row = 8%nat /\ forall j m, row !! j = Some m -> entry_is m (zmul (Z.of_nat j + 1) P).
Lemma rows_ok_spec row rows P e : row !! 0%nat = Some e -> at_point P (affine e) -> rows_ok row rows = true ->
  forall i r, (row :: rows) !! i = Some r -> row_is r (zmul (256 ^ Z.of_nat i) P).
Proof.
  revert row e P. induction rows as [|row' rows IH]; intros row e P He HP H; cbn [rows_ok] in H.
  all: do 8 (destruct row as [|? row]; [done|]); destruct row; [|done]; cbn in He; injection He as ->; apply andb_true_iff in H as [Hm H].
  all: pose proof (multiples_ok_spec P P _ e _ HP HP Hm) as Hrow.
  all: match type of Hm with multiples_ok _ _ (tail ?r) = _ => assert (Hr : row_is r P) by (split; [done|]; intros j m Hj; rewrite Z.add_comm, zmul_add, zmul_1; by apply Hrow) end.
  all: intros [|i] r Hi; cbn [lookup list_lookup] in Hi; try done.
  1-2: simplify_eq; change (256 ^ Z.of_nat 0) with 1; destruct Hr as [Hl Hr]; split; [done|]; intros j m' Hj; rewrite zmul_1; by apply Hr.
  destruct row' as [|e' row']; [done|]. apply andb_true_iff in H as [Hn H]. destruct (proj2 Hr 7%nat _ eq_refl) as [H7 _]. pose proof (next_ok_spec _ _ _ _ H7 Hn) as HP'. rewrite <- zmul_mul in HP'. replace (2 ^ Z.of_nat 5 * (Z.of_nat 7 + 1)) with 256 in HP' by reflexivity.
  destruct (IH (e' :: row') e' _ eq_refl HP' H i r Hi) as [Hl Hj]. split; [done|]. intros j m' Hm'. rewrite Nat2Z.inj_succ, Z.pow_succ_r, (Z.mul_comm 256), zmul_mul by lia. by apply Hj.
Qed.

(** Every entry of the tables. *)
Lemma base_at e : zero ((affine e).1 - px base) = true -> zero ((affine e).2 - py base) = true -> at_point base (affine e).
Proof. intros H1%zero_eqp H2%zero_eqp. split; by symmetry. Qed.
Lemma tables_ok_spec T B : tables_ok T B = true ->
  (forall i r, T !! i = Some r -> row_is r (zmul (256 ^ Z.of_nat i) base)) /\ (forall j m, B !! j = Some m -> entry_is m (zmul (2 * Z.of_nat j + 1) base)).
Proof.
  intros H. unfold tables_ok in H. destruct T as [|row0 rows]; [done|]. destruct row0 as [|e0 row0]; [done|]. destruct row0 as [|e1 row0]; [done|]. destruct B as [|e l]; [done|].
  do 5 (apply andb_true_iff in H as [H ?]). assert (A0 : at_point base (affine e0)) by (by apply base_at). assert (B0 : at_point base (affine e)) by (by apply base_at).
  pose proof (rows_ok_spec (e0 :: e1 :: row0) rows base e0 eq_refl A0 ltac:(done)) as Hr. split; [exact Hr|]. intros j m Hj. destruct (Hr 0%nat _ eq_refl) as [_ Hr0]. destruct (Hr0 1%nat e1 eq_refl) as [H2' _].
  replace (256 ^ Z.of_nat 0) with 1 in H2' by reflexivity. rewrite zmul_1 in H2'. pose proof (multiples_ok_spec base _ _ e l B0 H2' ltac:(done) j m Hj) as Hm.
  replace (2 * Z.of_nat j + 1) with (1 + Z.of_nat j * (Z.of_nat 1 + 1)) by lia. by rewrite zmul_add, zmul_1, zmul_mul.
Qed.
Lemma ge_base_spec i j row m : ge_base !! i = Some row -> row !! j = Some m -> precomp_is m (zmul ((Z.of_nat j + 1) * 256 ^ Z.of_nat i) base).
Proof.
  intros Hi Hj. destruct (tables_ok_spec _ _ tables_checked) as [H _]. destruct (H i row Hi) as [_ Hr]. destruct (Hr j m Hj) as [_ Hm]. by rewrite zmul_mul.
Qed.
Lemma ge_Bi_spec j m : ge_Bi !! j = Some m -> precomp_is m (zmul (2 * Z.of_nat j + 1) base).
Proof. intros Hj. destruct (tables_ok_spec _ _ tables_checked) as [_ H]. apply (H j m Hj). Qed.
Lemma ge_base_row i : (i < 32)%nat -> exists row, ge_base !! i = Some row /\ length row = 8%nat.
Proof.
  intros Hi. assert (Hl : length ge_base = 32%nat) by (vm_compute; reflexivity). destruct (lookup_lt_is_Some_2 ge_base i ltac:(lia)) as [row E]. exists row. split; [done|].
  destruct (tables_ok_spec _ _ tables_checked) as [H _]. by destruct (H i row E) as [Hr _].
Qed.
Lemma ge_Bi_length : length ge_Bi = 8%nat.
Proof. vm_compute. reflexivity. Qed.

(** The precomputed tables of crypto-ops-data.c are right: entry [j] of row [i]
    of [ge_base] is [(j + 1) 256^i] times the base point, for all 32 rows of 8
    entries, entry [j] of [ge_Bi] is [2 j + 1] times it, and the limbs of each are small enough
    for the additions that use them. *)
Theorem base_tables_exact :
  (forall i j, (i < 32)%nat -> (j < 8)%nat -> exists row m, ge_base !! i = Some row /\ row !! j = Some m /\ precomp_is m (zmul ((Z.of_nat j + 1) * 256 ^ Z.of_nat i) base)) /\
  (forall j, (j < 8)%nat -> exists m, ge_Bi !! j = Some m /\ precomp_is m (zmul (2 * Z.of_nat j + 1) base)).
Proof.
  split.
  - intros i j Hi Hj. destruct (ge_base_row i Hi) as (row & E & Hl). destruct (lookup_lt_is_Some_2 row j ltac:(lia)) as [m Em]. exists row, m. split_and!; [done|done|by eapply ge_base_spec].
  - intros j Hj. destruct (lookup_lt_is_Some_2 ge_Bi j ltac:(rewrite ge_Bi_length; lia)) as [m Em]. exists m. split; [done|by apply ge_Bi_spec].
Qed.
Lemma base_tables_exact_witness : exists row m, ge_base !! 31%nat = Some row /\ row !! 7%nat = Some m /\ precomp_is m (zmul ((Z.of_nat 7 + 1) * 256 ^ Z.of_nat 31) base).
Proof. destruct base_tables_exact as [H _]. apply (H 31%nat 7%nat); lia. Defined.
