(* ===== verification/ScalarMult.v ===== *)
(** Multiplication of points by scalars in [crypto/crypto-ops.c]: [ge_scalarmult],
    [ge_scalarmult_base], the sums of two multiples and the subgroup check, and that
    they compute multiples in the group of the curve. *)
From S2P Require Import Prelude IntUtil Limbs ScalarOps Recoding FieldOps PrimeField Group Edwards GroupOps BaseTable BaseMultiples.

(** An element of an array. *)
Definition at_index {A} (l : list A) (i : Z) : outcome A :=
  if i <? 0 then Undefined else match l !! Z.to_nat i with Some x => Ok x | None => Undefined end.

(** * Operations *)

Definition equal (b c : Z) : Z :=
  let ub := u8 b in
  let uc := u8 c in
  let x := Z.lxor ub uc in
  let y := u32 (x - 1) in
  u8 (Z.shiftr y 31).
Definition negative (b : Z) : Z := u8 (Z.shiftr (u64 b) 63).
(** [b - (((-bnegative) & b) << 1)], as an [unsigned char]. *)
Definition babs (b : Z) : Z := u8 (b - Z.shiftl (Z.land (- negative b) b) 1).

Section Config.
Context `{BuildConfig}.

Definition ge_precomp_cmov (t u : ge_precomp) (b : Z) : outcome ge_precomp :=
  a ← fe_cmov (yplusx t) (yplusx u) b;
  m ← fe_cmov (yminusx t) (yminusx u) b;
  x ← fe_cmov (xy2d t) (xy2d u) b;
  Ok {| yplusx := a; yminusx := m; xy2d := x |}.
Definition ge_moonbankd_cmov (t u : ge_moonbankd) (b : Z) : outcome ge_moonbankd :=
  a ← fe_cmov (YplusX t) (YplusX u) b;
  m ← fe_cmov (YminusX t) (YminusX u) b;
  z ← fe_cmov (mb_Z t) (mb_Z u) b;
  x ← fe_cmov (T2d t) (T2d u) b;
  Ok {| YplusX := a; YminusX := m; mb_Z := z; T2d := x |}.

(** One [cmov] for each entry of the table, the first for 1. *)
Fixpoint cmov_table {A} (cmov : A -> A -> Z -> outcome A) (table : list A) (k : Z) (a : Z) (t : A) : outcome A :=
  match table with
  | [] => Ok t
  | u :: table => t ← cmov t u (equal (i8 a) k); cmov_table cmov table (k + 1) a t
  end.

Definition select (pos : Z) (b : Z) : outcome ge_precomp :=
  row ← at_index ge_base pos;
  t ← cmov_table ge_precomp_cmov (take 8 row) 1 (babs b) ge_precomp_0;
  x ← fe_neg (xy2d t);
  ge_precomp_cmov t {| yplusx := fe_copy (yminusx t); yminusx := fe_copy (yplusx t); xy2d := x |} (negative b).

(** [for (i = k; i < 64; i += 2)] of [ge_scalarmult_base]; [n] rounds. *)
Fixpoint base_rounds (n : nat) (e : list Z) (i : Z) (h : ge_p3) : outcome ge_p3 :=
  match n with
  | O => Ok h
  | S n =>
      x ← at_index e i;
      t ← select (i / 2) x;
      r ← ge_madd h t;
      h ← ge_p1p1_to_p3 r;
      base_rounds n e (i + 2) h
  end.
Definition ge_scalarmult_base (a : list Z) : outcome ge_p3 :=
  let e := scalarmult_base_digits a in
  h ← base_rounds 32 e 1 ge_p3_0;
  r ← ge_p3_dbl h; s ← ge_p1p1_to_p2 r;
  r ← ge_p2_dbl s; s ← ge_p1p1_to_p2 r;
  r ← ge_p2_dbl s; s ← ge_p1p1_to_p2 r;
  r ← ge_p2_dbl s; h ← ge_p1p1_to_p3 r;
  base_rounds 32 e 0 h.

(** The table that starts with [q], each entry [step] more than the one before. *)
Fixpoint add_table (n : nat) (step : ge_p3) (q : ge_moonbankd) : outcome (list ge_moonbankd) :=
  match n with
  | O => Ok [q]
  | S n =>
      t ← ge_add step q;
      u ← ge_p1p1_to_p3 t;
      q' ← ge_p3_to_moonbankd u;
      rest ← add_table n step q';
      Ok (q :: rest)
  end.

(** The entry for the digit [b]. *)
Definition pick (Ai : list ge_moonbankd) (b : Z) : outcome ge_moonbankd :=
  cur ← cmov_table ge_moonbankd_cmov (take 8 Ai) 1 (babs b) ge_moonbankd_0;
  x ← fe_neg (T2d cur);
  ge_moonbankd_cmov cur {| YplusX := fe_copy (YminusX cur); YminusX := fe_copy (YplusX cur); mb_Z := fe_copy (mb_Z cur); T2d := x |} (negative b).
(** [for (i = 63; i >= 0; i--)], on the digits from the last. *)
Fixpoint mult_rounds (Ai : list ge_moonbankd) (e : list Z) (r : ge_p2) : outcome ge_p2 :=
  match e with
  | [] => Ok r
  | b :: e =>
      t ← ge_p2_dbl r; r ← ge_p1p1_to_p2 t;
      t ← ge_p2_dbl r; r ← ge_p1p1_to_p2 t;
      t ← ge_p2_dbl r; r ← ge_p1p1_to_p2 t;
      t ← ge_p2_dbl r; u ← ge_p1p1_to_p3 t;
      cur ← pick Ai b;
      t ← ge_add u cur;
      r ← ge_p1p1_to_p2 t;
      mult_rounds Ai e r
  end.
Definition ge_scalarmult (a : list Z) (A : ge_p3) : outcome ge_p2 :=
  let e := scalarmult_digits a in
  q ← ge_p3_to_moonbankd A;
  Ai ← add_table 7 A q;
  mult_rounds Ai (rev e) ge_p2_0.
End Config.

Definition ge_dsm_precomp (s : ge_p3) : outcome (list ge_moonbankd) :=
  r0 ← ge_p3_to_moonbankd s;
  t ← ge_p3_dbl s;
  s2 ← ge_p1p1_to_p3 t;
  add_table 7 s2 r0.

(** Adding the entry for the digit [x], from a table of each kind. *)
Definition add_entry (Ai : list ge_moonbankd) (x : Z) (t : ge_p1p1) : outcome ge_p1p1 :=
  if 0 <? x then u ← ge_p1p1_to_p3 t; q ← at_index Ai (x ÷ 2); ge_add u q
  else if x <? 0 then u ← ge_p1p1_to_p3 t; q ← at_index Ai ((- x) ÷ 2); ge_sub u q
  else Ok t.
Definition madd_entry (Bi : list ge_precomp) (x : Z) (t : ge_p1p1) : outcome ge_p1p1 :=
  if 0 <? x then u ← ge_p1p1_to_p3 t; q ← at_index Bi (x ÷ 2); ge_madd u q
  else if x <? 0 then u ← ge_p1p1_to_p3 t; q ← at_index Bi ((- x) ÷ 2); ge_msub u q
  else Ok t.

(** The loops of the two sums of multiples, which differ in the table of [B]: the
    digits from the last, from the first pair that is not zero. *)
Fixpoint skip_zeros (l : list (Z * Z)) : list (Z * Z) :=
  match l with (x, y) :: l' => if (x =? 0) && (y =? 0) then skip_zeros l' else l | [] => [] end.
Fixpoint sum_rounds (add_b : Z -> ge_p1p1 -> outcome ge_p1p1) (Ai : list ge_moonbankd) (l : list (Z * Z)) (r : ge_p2) : outcome ge_p2 :=
  match l with
  | [] => Ok r
  | (x, y) :: l =>
      t ← ge_p2_dbl r;
      t ← add_entry Ai x t;
      t ← add_b y t;
      r ← ge_p1p1_to_p2 t;
      sum_rounds add_b Ai l r
  end.
Definition ge_double_scalarmult_base_vartime (a : list Z) (A : ge_p3) (b : list Z) : outcome ge_p2 :=
  let aslide := slide a in
  let bslide := slide b in
  Ai ← ge_dsm_precomp A;
  sum_rounds (madd_entry ge_Bi) Ai (skip_zeros (rev (zip aslide bslide))) ge_p2_0.
Definition ge_double_scalarmult_precomp_vartime (a : list Z) (A : ge_p3) (b : list Z) (Bi : list ge_moonbankd) : outcome ge_p2 :=
  let aslide := slide a in
  let bslide := slide b in
  Ai ← ge_dsm_precomp A;
  sum_rounds (add_entry Bi) Ai (skip_zeros (rev (zip aslide bslide))) ge_p2_0.

(** [ge_check_subgroup_precomp_vartime], which the sources spell out: [n]
    doublings, then the odd multiple [x] added from the table. *)
Fixpoint doublings (n : nat) (t : ge_p1p1) : outcome ge_p1p1 :=
  match n with O => Ok t | S n => u ← ge_p1p1_to_p2 t; t ← ge_p2_dbl u; doublings n t end.
Definition subgroup_steps : list (nat * Z) :=
  [(0%nat, 1); (126%nat, 5); (5%nat, 7); (5%nat, -1); (7%nat, -3); (4%nat, -1); (8%nat, -11); (5%nat, 3); (5%nat, -1); (6%nat, -3); (7%nat, -13); (5%nat, 11);
   (6%nat, 11); (10%nat, 9); (4%nat, 3); (5%nat, 3); (7%nat, 13); (4%nat, 3); (5%nat, -3); (7%nat, -5); (7%nat, -11); (8%nat, -5); (2%nat, 1)].
Fixpoint subgroup_rounds (p : list ge_moonbankd) (l : list (nat * Z)) (t : ge_p1p1) : outcome ge_p1p1 :=
  match l with
  | [] => Ok t
  | (n, x) :: l => t ← doublings n t; t ← add_entry p x t; subgroup_rounds p l t
  end.
Definition ge_check_subgroup_precomp_vartime (p : list ge_moonbankd) : outcome Z :=
  q ← at_index p 7;
  t ← ge_add ge_p3_0 q;
  t ← subgroup_rounds p subgroup_steps t;
  y ← fe_sub (p1_Y t) (p1_T t);
  fe_isnonzero y.

(** * Choosing entries *)

Lemma equal_spec a k : 0 <= a < 128 -> 0 <= k < 128 -> equal (i8 a) k = if a =? k then 1 else 0.
Proof.
  intros Ha Hk. unfold equal. rewrite i8_small by lia. rewrite (u8_small a), (u8_small k) by (unfold is_u8; lia). destruct (Z.eqb_spec a k) as [-> |Hn]; [by rewrite Z.lxor_nilpotent|].
  assert (H0 : Z.lxor a k <> 0) by (by rewrite Z.lxor_eq_0_iff). assert (Hx : 0 <= Z.lxor a k) by (apply Z.lxor_nonneg; lia).
  assert (Hb : Z.lxor a k < 2 ^ 7).
  { destruct (Z.lt_ge_cases (Z.lxor a k) (2 ^ 7)) as [?|Hge]; [done|exfalso]. assert (Hl : 7 <= Z.log2 (Z.lxor a k)) by (apply Z.log2_le_pow2; lia).
    pose proof (Z.log2_lxor a k ltac:(lia) ltac:(lia)). assert (Z.log2 a < 7) by (destruct (decide (a = 0)) as [-> |]; [done|apply Z.log2_lt_pow2; lia]). assert (Z.log2 k < 7) by (destruct (decide (k = 0)) as [-> |]; [done|apply Z.log2_lt_pow2; lia]). lia. }
  rewrite u32_small by (unfold is_u32; lia). rewrite Z.shiftr_div_pow2 by lia. rewrite Z.div_small by lia. done.
Qed.
Lemma negative_spec b : -128 <= b < 128 -> negative b = if b <? 0 then 1 else 0.
Proof.
  intros Hb. unfold negative. destruct (Z.ltb_spec b 0) as [H|H].
  - assert (E : u64 b = b + 2 ^ 64) by (unfold u64; rewrite <- (Z.mod_add b 1) by lia; apply Z.mod_small; lia). rewrite E, Z.shiftr_div_pow2 by lia.
    assert (E1 : (b + 2 ^ 64) / 2 ^ 63 = 1) by (symmetry; apply (Z.div_unique _ _ _ (b + 2 ^ 63)); lia). by rewrite E1.
  - rewrite u64_small by (unfold is_u64; lia). rewrite Z.shiftr_div_pow2, Z.div_small by lia. done.
Qed.
Lemma babs_spec b : -128 < b < 128 -> babs b = Z.abs b.
Proof.
  intros Hb. unfold babs. rewrite negative_spec by lia. destruct (Z.ltb_spec b 0) as [H|H].
  - rewrite Z.land_m1_l, Z.shiftl_mul_pow2 by lia. rewrite u8_small by (unfold is_u8; lia). lia.
  - rewrite Z.opp_0, Z.land_0_l, Z.shiftl_0_l, Z.sub_0_r, u8_small by (unfold is_u8; lia). lia.
Qed.

Section Cmov.
Context {A : Type} (cmov : A -> A -> Z -> outcome A) (ok : A -> Prop).
Hypothesis cmov_ok : forall t u b, ok t -> ok u -> b = 0 \/ b = 1 -> cmov t u b = Ok (if b =? 1 then u else t).
Lemma cmov_table_spec table k a t : Forall ok table -> ok t -> 0 <= a < 128 -> 0 <= k -> k + zlen table <= 128 ->
  cmov_table cmov table k a t = Ok (match (if k <=? a then table !! Z.to_nat (a - k) else None) with Some u => u | None => t end).
Proof.
  intros Ht. revert k t. induction Ht as [|u table Hu Ht IH]; intros k t Hok Ha Hk Hl; [cbn [cmov_table lookup list_lookup]; by destruct (k <=? a)|].
  rewrite zlen_cons in Hl. pose proof (zlen_nonneg table). cbn [cmov_table]. rewrite equal_spec by lia. rewrite cmov_ok by (done || (destruct (a =? k); auto)). cbn [mbind outcome_bind].
  destruct (Z.eqb_spec a k) as [-> |Hne]; cbn [Z.eqb Pos.eqb].
  - rewrite IH by (done || lia). rewrite (proj2 (Z.leb_gt (k + 1) k)), Z.leb_refl, Z.sub_diag by lia. done.
  - rewrite IH by (done || lia). f_equal. destruct (Z.leb_spec k a) as [Hle|Hle]; [|by rewrite (proj2 (Z.leb_gt _ _)) by lia].
    rewrite (proj2 (Z.leb_le _ _)) by lia. replace (Z.to_nat (a - k)) with (S (Z.to_nat (a - (k + 1)))) by lia. done.
Qed.
End Cmov.

Lemma fe_is_length c h x : fe_is c h x -> length h = 10%nat.
Proof. intros [H _]. by eapply within_length. Qed.

Section Proofs.
Context `{BuildConfig}.
Implicit Types P A B : point.

Definition precomp_limbs (t : ge_precomp) : Prop := length (yplusx t) = 10%nat /\ length (yminusx t) = 10%nat /\ length (xy2d t) = 10%nat.
Definition moonbankd_limbs (t : ge_moonbankd) : Prop := length (YplusX t) = 10%nat /\ length (YminusX t) = 10%nat /\ length (mb_Z t) = 10%nat /\ length (T2d t) = 10%nat.
Lemma precomp_is_limbs t P : precomp_is t P -> precomp_limbs t.
Proof. intros (H1 & H2 & H3). split_and!; by eapply fe_is_length. Qed.
Lemma moonbankd_is_limbs t P : moonbankd_is t P -> moonbankd_limbs t.
Proof. intros (z & _ & H1 & H2 & H3 & H4). split_and!; by eapply fe_is_length. Qed.
Lemma ge_precomp_cmov_spec t u b : precomp_limbs t -> precomp_limbs u -> b = 0 \/ b = 1 -> ge_precomp_cmov t u b = Ok (if b =? 1 then u else t).
Proof. intros (? & ? & ?) (? & ? & ?) Hb. unfold ge_precomp_cmov. rewrite !fe_cmov_spec by done. cbn [mbind outcome_bind]. destruct t, u, (b =? 1); done. Qed.
Lemma ge_moonbankd_cmov_spec t u b : moonbankd_limbs t -> moonbankd_limbs u -> b = 0 \/ b = 1 -> ge_moonbankd_cmov t u b = Ok (if b =? 1 then u else t).
Proof. intros (? & ? & ? & ?) (? & ? & ? & ?) Hb. unfold ge_moonbankd_cmov. rewrite !fe_cmov_spec by done. cbn [mbind outcome_bind]. destruct t, u, (b =? 1); done. Qed.

(** Tables of multiples: entry [j] is [j + 1] times the point. *)
Definition multiples {T} (rep : T -> point -> Prop) (l : list T) P : Prop := length l = 8%nat /\ forall j t, l !! j = Some t -> rep t (zmul (Z.of_nat j + 1) P).
Lemma multiples_pick {T} (rep : T -> point -> Prop) `{!forall t, Proper ((≡) ==> iff) (rep t)} (t0 : T) l P a : rep t0 gzero -> multiples rep l P -> 0 <= a <= 8 ->
  rep (match (if 1 <=? a then l !! Z.to_nat (a - 1) else None) with Some u => u | None => t0 end) (zmul a P).
Proof.
  intros Hr0 [Hl Hr1] Ha. destruct (Z.leb_spec 1 a) as [Hle|Hle]; [|replace a with 0 by lia; by rewrite zmul_0].
  destruct (lookup_lt_is_Some_2 l (Z.to_nat (a - 1)) ltac:(lia)) as [u E]. rewrite E. apply Hr1 in E. by replace (Z.of_nat (Z.to_nat (a - 1)) + 1) with a in E by lia.
Qed.
(** The chosen entry or its negative. *)
Lemma zmul_signed b P : zmul b P ≡ if b <? 0 then gneg (zmul (Z.abs b) P) else zmul (Z.abs b) P.
Proof. destruct (Z.ltb_spec b 0); [rewrite <- zmul_opp; by replace (- Z.abs b) with b by lia|by replace (Z.abs b) with b by lia]. Qed.

Lemma precomp_neg t P x : precomp_is t P -> fe_is 330 x (- (2 * d * px P * py P)) -> precomp_is {| yplusx := fe_copy (yminusx t); yminusx := fe_copy (yplusx t); xy2d := x |} (gneg P).
Proof.
  intros (H1 & H2 & H3) Hx. unfold precomp_is. cbn [yplusx yminusx xy2d fe_copy gneg curve point_neg px py]. split_and!; (eapply fe_is_ring; [|eassumption]; ring).
Qed.
Lemma moonbankd_neg t P z x : ~ eqp z 0 -> fe_is 330 (YplusX t) ((py P + px P) * z) -> fe_is 330 (YminusX t) ((py P - px P) * z) -> fe_is 330 (mb_Z t) z -> fe_is 330 x (- (2 * d * px P * py P * z)) ->
  moonbankd_is {| YplusX := fe_copy (YminusX t); YminusX := fe_copy (YplusX t); mb_Z := fe_copy (mb_Z t); T2d := x |} (gneg P).
Proof.
  intros Hz H1 H2 H3 Hx. exists z. cbn [YplusX YminusX mb_Z T2d fe_copy gneg curve point_neg px py]. split_and!; [done|..]; (eapply fe_is_ring; [|eassumption]; ring).
Qed.

Lemma select_spec i b : (i < 32)%nat -> digit16 b -> yields (select (Z.of_nat i) b) (fun t => precomp_is t (zmul (b * 256 ^ Z.of_nat i) base)).
Proof.
  intros Hi Hb. unfold digit16 in Hb. destruct (ge_base_row i Hi) as (row & Er & Hl). unfold select, at_index. rewrite (proj2 (Z.ltb_ge _ _)), Nat2Z.id, Er by lia. cbn [mbind outcome_bind]. rewrite take_ge, babs_spec by lia.
  set (P := zmul (256 ^ Z.of_nat i) base). assert (Hm : multiples precomp_is row P) by (split; [done|]; intros j t Hj; unfold P; rewrite <- zmul_mul; by eapply ge_base_spec).
  rewrite (cmov_table_spec _ precomp_limbs ge_precomp_cmov_spec); [|by apply Forall_lookup; intros j t Hj; eapply precomp_is_limbs, Hm|done|lia|lia|unfold zlen; lia]. cbn [mbind outcome_bind].
  pose proof (multiples_pick precomp_is ge_precomp_0 row P (Z.abs b) ge_precomp_0_spec Hm ltac:(lia)) as Ht. revert Ht. generalize (match (if 1 <=? Z.abs b then row !! Z.to_nat (Z.abs b - 1) else None) with Some u => u | None => ge_precomp_0 end). intros t Ht.
  pose proof Ht as (_ & _ & H3). eapply yields_bind; [eapply fe_neg_spec; [exact H3|lia]|]. intros x Hx. cbn beta in Hx. pose proof (precomp_neg t _ x Ht Hx) as Hn. rewrite negative_spec by lia.
  rewrite ge_precomp_cmov_spec; [|by eapply precomp_is_limbs|by eapply precomp_is_limbs|destruct (b <? 0); auto]. apply yields_Ok. rewrite zmul_mul. fold P. rewrite (zmul_signed b P). by destruct (b <? 0).
Qed.
Lemma pick_spec Ai b P : multiples moonbankd_is Ai P -> digit16 b -> yields (pick Ai b) (fun t => moonbankd_is t (zmul b P)).
Proof.
  intros Hm Hb. unfold digit16 in Hb. unfold pick. pose proof Hm as [Hl _]. rewrite take_ge, babs_spec by lia.
  rewrite (cmov_table_spec _ moonbankd_limbs ge_moonbankd_cmov_spec); [|by apply Forall_lookup; intros j t Hj; eapply moonbankd_is_limbs, Hm|done|lia|lia|unfold zlen; lia]. cbn [mbind outcome_bind].
  pose proof (multiples_pick moonbankd_is ge_moonbankd_0 Ai P (Z.abs b) ge_moonbankd_0_spec Hm ltac:(lia)) as Ht. revert Ht. generalize (match (if 1 <=? Z.abs b then Ai !! Z.to_nat (Z.abs b - 1) else None) with Some u => u | None => ge_moonbankd_0 end). intros t Ht.
  pose proof Ht as (z & Hz & H1 & H2 & H3 & H4). eapply yields_bind; [eapply fe_neg_spec; [exact H4|lia]|]. intros x Hx. cbn beta in Hx. pose proof (moonbankd_neg t _ z x Hz H1 H2 H3 Hx) as Hn. rewrite negative_spec by lia.
  rewrite ge_moonbankd_cmov_spec; [|by eapply moonbankd_is_limbs|by eapply moonbankd_is_limbs|destruct (b <? 0); auto]. apply yields_Ok. rewrite (zmul_signed b P). by destruct (b <? 0).
Qed.

(** * The fixed base *)

(** Every other element. *)
Fixpoint evens (l : list Z) : list Z := match l with x :: _ :: l => x :: evens l | [x] => [x] | [] => [] end.
Lemma evens_ind (Q : list Z -> Prop) : Q [] -> (forall x, Q [x]) -> (forall x y l, Q l -> Q (x :: y :: l)) -> forall l, Q l.
Proof. intros H0 H1 H2. fix IH 1. intros [|x [|y l] ]; [done|done|]. apply H2, IH. Qed.
Lemma evens_value l : value 16 l = value 256 (evens l) + 16 * value 256 (evens (tail l)).
Proof.
  induction l as [|x|x y l IH] using evens_ind; [done|unfold value; cbn; lia|]. cbn [evens tail]. rewrite !value_cons, IH. destruct l as [|z l]; [unfold value; cbn; lia|]. cbn [evens tail]. rewrite value_cons. lia.
Qed.
Lemma evens_lookup l j x : evens l !! j = Some x -> l !! (2 * j)%nat = Some x.
Proof.
  revert j. induction l as [|y|y z l IH] using evens_ind; intros j; [done|by destruct j|]. cbn [evens]. destruct j as [|j]; [done|]. intros E%IH. by replace (2 * S j)%nat with (S (S (2 * j))) by lia.
Qed.
Lemma evens_length l : (length l <= 2 * length (evens l) <= S (length l))%nat.
Proof. induction l as [|x|x y l IH] using evens_ind; cbn [evens length]; lia. Qed.

Lemma base_rounds_spec e s f k h P : (s < 2)%nat -> (k + length f <= 32)%nat -> (forall j x, f !! j = Some x -> e !! (2 * (k + j) + s)%nat = Some x /\ digit16 x) -> p3_is h P ->
  yields (base_rounds (length f) e (Z.of_nat (2 * k + s)) h) (fun h => p3_is h (gadd P (zmul (256 ^ Z.of_nat k * value 256 f) base))).
Proof.
  intros Hs. revert k h P. induction f as [|x f IH]; intros k h P Hk He Hh.
  { cbn [base_rounds length]. apply yields_Ok. replace (256 ^ Z.of_nat k * value 256 []) with 0 by (unfold value; cbn [foldr]; lia). by rewrite zmul_0, gadd_0_r. }
  cbn [length] in *. destruct (He 0%nat x eq_refl) as [Ex Hx]. rewrite Nat.add_0_r in Ex. cbn [base_rounds]. unfold at_index. rewrite (proj2 (Z.ltb_ge _ _)), Nat2Z.id, Ex by lia. cbn [mbind outcome_bind].
  replace (Z.of_nat (2 * k + s) / 2) with (Z.of_nat k) by (apply (Z.div_unique _ _ _ (Z.of_nat s)); lia).
  eapply yields_bind; [apply select_spec; [lia|done]|]. intros t Ht. cbn beta in Ht. do 2 ge_step. replace (Z.of_nat (2 * k + s) + 2) with (Z.of_nat (2 * S k + s)) by lia.
  eapply yields_weaken; [eapply IH; [lia|intros j y Hj; replace (S k + j)%nat with (k + S j)%nat by lia; by apply He|eassumption]|]. intros h' Hh'. cbn beta in Hh'.
  rewrite value_cons, Z.mul_add_distr_l, zmul_add, (Z.mul_comm (256 ^ Z.of_nat k) x), Z.mul_assoc, (Z.mul_comm _ 256), <- Z.pow_succ_r, <- Nat2Z.inj_succ, gadd_assoc by lia. exact Hh'.
Qed.

Lemma ge_scalarmult_base_spec a : scalar a -> value 256 a < 2 ^ 255 -> yields (ge_scalarmult_base a) (fun h => p3_is h (zmul (value 256 a) base)).
Proof.
  intros Ha Hv. destruct (scalarmult_base_digits_spec a Ha Hv) as (Hl & Hd & Ev). unfold ge_scalarmult_base. set (e := scalarmult_base_digits a) in *.
  assert (Hf : forall s f h P, (s < 2)%nat -> length f = 32%nat -> (forall j x, f !! j = Some x -> e !! (2 * j + s)%nat = Some x) -> p3_is h P -> yields (base_rounds 32 e (Z.of_nat s) h) (fun h => p3_is h (gadd P (zmul (value 256 f) base)))).
  { intros s f h P Hs Hlf He Hh. pose proof (base_rounds_spec e s f 0 h P Hs ltac:(lia)) as R. rewrite Hlf in R. eapply yields_weaken; [apply R; [|done]|].
    - intros j x Hj%He. split; [done|]. by eapply Forall_lookup_1.
    - intros h' Hh'. cbn beta in Hh'. by rewrite Z.mul_1_l in Hh'. }
  assert (Ht : length (tail e) = 63%nat) by (destruct e; cbn [tail length] in *; lia). pose proof (evens_length e). pose proof (evens_length (tail e)).
  eapply yields_bind; [apply (Hf 1%nat (evens (tail e)) _ gzero); [lia|lia| |apply ge_p3_0_spec]|].
  { intros j x E%evens_lookup. rewrite Nat.add_1_r. by destruct e. }
  intros h Hh. cbn beta in Hh. do 8 ge_step. eapply yields_weaken; [apply (Hf 0%nat (evens e)); [lia|lia| |eassumption]|].
  { intros j x E%evens_lookup. by rewrite Nat.add_0_r. }
  intros h' Hh'. cbn beta in Hh'. rewrite gadd_0_l, <- !zmul_2, <- !zmul_mul, <- zmul_add in Hh'. rewrite <- Ev, evens_value. by replace (value 256 (evens e) + 16 * value 256 (evens (tail e))) with (2 * (2 * (2 * 2)) * value 256 (evens (tail e)) + value 256 (evens e)) by lia.
Qed.

(** * Any point *)

Lemma add_table_spec n step q S Q : p3_is step S -> moonbankd_is q Q ->
  yields (add_table n step q) (fun l => length l = Datatypes.S n /\ forall j t, l !! j = Some t -> moonbankd_is t (gadd Q (zmul (Z.of_nat j) S))).
Proof.
  intros HS. revert q Q. induction n as [|n IH]; intros q Q Hq; cbn [add_table].
  { apply yields_Ok. split; [done|]. intros [|j] t E; [|done]. cbn in E. injection E as <-. by rewrite zmul_0, gadd_0_r. }
  do 3 ge_step. eapply yields_bind; [eapply IH; eassumption|]. intros l [Hl Ht]. apply yields_Ok. split; [cbn [length]; lia|].
  intros [|j] t E; cbn in E; [injection E as <-; by rewrite zmul_0, gadd_0_r|]. apply Ht in E. by rewrite Nat2Z.inj_succ, zmul_succ, gadd_assoc, (gadd_comm Q S).
Qed.

Lemma mult_rounds_spec Ai e r A v : multiples moonbankd_is Ai A -> Forall digit16 e -> p2_is r (zmul v A) ->
  yields (mult_rounds Ai (rev e) r) (fun r => p2_is r (zmul (16 ^ zlen e * v + value 16 e) A)).
Proof.
  intros HA He. revert r v. induction e as [|b e IH] using rev_ind; intros r v Hr.
  { apply yields_Ok. replace (16 ^ zlen [] * v + value 16 []) with v by (change (16 ^ zlen []) with 1; unfold value; cbn [foldr]; lia). done. }
  apply Forall_app in He as [He Hb]. inversion_clear Hb as [|? ? Hb' _]. rewrite rev_app_distr. cbn [rev app mult_rounds]. do 8 ge_step.
  eapply yields_bind; [by apply pick_spec|]. intros cur Hcur. cbn beta in Hcur. do 2 ge_step. rewrite <- !zmul_2, <- !zmul_mul, <- zmul_add in *.
  eapply yields_weaken; [eapply IH; eassumption|]. intros r' Hr'. cbn beta in Hr'. rewrite value_app by lia. rewrite zlen_app, Z.pow_add_r by (unfold zlen; lia). change (16 ^ zlen [b]) with 16. unfold value at 2. cbn [foldr].
  replace (16 ^ zlen e * 16 * v + (value 16 e + 16 ^ zlen e * (b + 16 * 0))) with (16 ^ zlen e * (2 * (2 * (2 * 2)) * v + b) + value 16 e) by lia. replace (2 * (2 * (2 * (2 * v)))) with (2 * (2 * (2 * 2)) * v) in Hr' by lia. exact Hr'.
Qed.

Lemma ge_scalarmult_spec a h A : scalar a -> value 256 a < 2 ^ 255 -> p3_is h A -> yields (ge_scalarmult a h) (fun r => p2_is r (zmul (value 256 a) A)).
Proof.
  intros Ha Hv HA. destruct (scalarmult_digits_spec a Ha Hv) as (_ & Hd & Ev). unfold ge_scalarmult. ge_step. eapply yields_bind; [by apply add_table_spec|]. intros Ai [Hl Hj].
  eapply yields_weaken; [apply (mult_rounds_spec Ai _ _ A 0)|].
  - split; [exact Hl|]. intros j t E. rewrite Z.add_comm, zmul_add, zmul_1. by apply Hj.
  - done.
  - rewrite zmul_0. apply ge_p2_0_spec.
  - intros r Hr. cbn beta in Hr. by rewrite Z.mul_0_r, Z.add_0_l, Ev in Hr.
Qed.
End Proofs.

(** * Sums of two multiples *)

Implicit Types P A B : point.
(** Tables of odd multiples: entry [j] is [2 j + 1] times the point. *)
Definition odd_multiples {T} (rep : T -> point -> Prop) (l : list T) P : Prop := length l = 8%nat /\ forall j t, l !! j = Some t -> rep t (zmul (2 * Z.of_nat j + 1) P).
Lemma ge_dsm_precomp_spec h P : p3_is h P -> yields (ge_dsm_precomp h) (fun l => odd_multiples moonbankd_is l P).
Proof.
  intros Hh. unfold ge_dsm_precomp. do 3 ge_step. eapply yields_weaken; [by apply add_table_spec|]. intros l [Hl Hj]. split; [exact Hl|]. intros j t E. apply Hj in E.
  rewrite Z.add_comm, zmul_add, zmul_1, (Z.mul_comm 2), zmul_mul, zmul_2. exact E.
Qed.
Lemma ge_Bi_multiples : odd_multiples precomp_is ge_Bi base.
Proof. split; [apply ge_Bi_length|apply ge_Bi_spec]. Qed.

(** The entry of an odd digit. *)
Lemma odd_index {T} (rep : T -> point -> Prop) l P x : odd_multiples rep l P -> x mod 2 = 1 -> 0 < x <= 15 -> exists t, at_index l (x ÷ 2) = Ok t /\ rep t (zmul x P).
Proof.
  intros [Hl Ht] Ho Hx. pose proof (Z.div_mod x 2 ltac:(lia)) as E. rewrite Z.quot_div_nonneg by lia. assert (0 <= x / 2 <= 7) by lia. unfold at_index. rewrite (proj2 (Z.ltb_ge _ _)) by lia.
  destruct (lookup_lt_is_Some_2 l (Z.to_nat (x / 2)) ltac:(lia)) as [t Et]. rewrite Et. exists t. split; [done|]. apply Ht in Et. by replace (2 * Z.of_nat (Z.to_nat (x / 2)) + 1) with x in Et by lia.
Qed.
Lemma odd_opp x : x mod 2 = 1 -> (- x) mod 2 = 1.
Proof. intros H. pose proof (Z.div_mod x 2 ltac:(lia)). symmetry. apply (Z.mod_unique _ _ (- (x / 2) - 1)); lia. Qed.
Lemma entry_cases x : entry x -> x = 0 \/ x mod 2 = 1 /\ 0 < x <= 15 \/ (- x) mod 2 = 1 /\ 0 < - x <= 15.
Proof. intros [-> |[Ho Hx] ]; [auto|]. right. destruct (Z.lt_trichotomy x 0) as [?|[-> |?] ]; [right; split; [by apply odd_opp|lia]|done|left; lia]. Qed.
Lemma add_entry_spec Ai x t P A : odd_multiples moonbankd_is Ai A -> entry x -> p1p1_is t P -> yields (add_entry Ai x t) (fun t => p1p1_is t (gadd P (zmul x A))).
Proof.
  intros HA Hx Ht. unfold add_entry. apply entry_cases in Hx as [-> |[ [Ho Hx]|[Ho Hx] ] ].
  - apply yields_Ok. by rewrite zmul_0, gadd_0_r.
  - rewrite (proj2 (Z.ltb_lt _ _)) by lia. ge_step. destruct (odd_index _ _ _ _ HA Ho Hx) as (q & -> & Hq). by apply ge_add_spec.
  - rewrite (proj2 (Z.ltb_ge _ _)), (proj2 (Z.ltb_lt _ _)) by lia. ge_step. destruct (odd_index _ _ _ _ HA Ho Hx) as (q & -> & Hq). eapply yields_weaken; [by apply ge_sub_spec|]. intros r Hr. cbn beta in Hr. rewrite <- zmul_opp, Z.opp_involutive in Hr. exact Hr.
Qed.
Lemma madd_entry_spec Bi x t P B : odd_multiples precomp_is Bi B -> entry x -> p1p1_is t P -> yields (madd_entry Bi x t) (fun t => p1p1_is t (gadd P (zmul x B))).
Proof.
  intros HA Hx Ht. unfold madd_entry. apply entry_cases in Hx as [-> |[ [Ho Hx]|[Ho Hx] ] ].
  - apply yields_Ok. by rewrite zmul_0, gadd_0_r.
  - rewrite (proj2 (Z.ltb_lt _ _)) by lia. ge_step. destruct (odd_index _ _ _ _ HA Ho Hx) as (q & -> & Hq). by apply ge_madd_spec.
  - rewrite (proj2 (Z.ltb_ge _ _)), (proj2 (Z.ltb_lt _ _)) by lia. ge_step. destruct (odd_index _ _ _ _ HA Ho Hx) as (q & -> & Hq). eapply yields_weaken; [by apply ge_msub_spec|]. intros r Hr. cbn beta in Hr. rewrite <- zmul_opp, Z.opp_involutive in Hr. exact Hr.
Qed.

Lemma skip_zeros_spec l : exists l' n, skip_zeros (rev l) = rev l' /\ l = l' ++ replicate n (0, 0).
Proof.
  induction l as [|[x y] l IH] using rev_ind; [by exists [], 0%nat|]. rewrite rev_app_distr. cbn [rev app skip_zeros].
  destruct (Z.eqb_spec x 0) as [-> |Hx]; [destruct (Z.eqb_spec y 0) as [-> |Hy]|]; cbn [andb]; [|exists (l ++ [(0, y)]), 0%nat; rewrite rev_app_distr, app_nil_r; done|exists (l ++ [(x, y)]), 0%nat; rewrite rev_app_distr, app_nil_r; done].
  destruct IH as (l' & n & -> & ->). exists l', (S n). split; [done|]. by rewrite <- app_assoc, replicate_S_end.
Qed.

Section SumRounds.
Context (A B : point) (Ai : list ge_moonbankd) (add_b : Z -> ge_p1p1 -> outcome ge_p1p1).
Hypothesis HA : odd_multiples moonbankd_is Ai A.
Hypothesis add_b_spec : forall x t P, entry x -> p1p1_is t P -> yields (add_b x t) (fun t => p1p1_is t (gadd P (zmul x B))).
Definition combination (v w : Z) : point := gadd (zmul v A) (zmul w B).
Lemma combination_2 v w : gadd (combination v w) (combination v w) ≡ combination (2 * v) (2 * w).
Proof. unfold combination. by rewrite <- zmul_2, zmul_gadd, <- !zmul_mul. Qed.
Lemma combination_add v w x y : gadd (gadd (combination v w) (zmul x A)) (zmul y B) ≡ combination (v + x) (w + y).
Proof.
  unfold combination. rewrite !zmul_add. rewrite <- (gadd_assoc (gadd _ _) (zmul x A)). apply gadd_swap.
Qed.
Lemma sum_rounds_spec l r v w : Forall (fun q => entry q.1 /\ entry q.2) l -> p2_is r (combination v w) ->
  yields (sum_rounds add_b Ai (rev l) r) (fun r => p2_is r (combination (2 ^ zlen l * v + value 2 l.*1) (2 ^ zlen l * w + value 2 l.*2))).
Proof.
  intros Hl. revert r v w. induction l as [|[x y] l IH] using rev_ind; intros r v w Hr.
  { apply yields_Ok. change (2 ^ zlen []) with 1. change (value 2 _) with 0. by rewrite !Z.mul_1_l, !Z.add_0_r. }
  apply Forall_app in Hl as [Hl Hxy]. inversion_clear Hxy as [|? ? Hxy' _]. destruct Hxy' as [Hx Hy]. rewrite rev_app_distr. cbn [rev app sum_rounds fst snd] in *.
  ge_step. eapply yields_bind; [by eapply add_entry_spec|]. intros t Ht. cbn beta in Ht. eapply yields_bind; [by apply add_b_spec|]. intros t' Ht'. cbn beta in Ht'. ge_step.
  rewrite combination_2, combination_add in *. eapply yields_weaken; [eapply IH; eassumption|]. intros r' Hr'. cbn beta in Hr'.
  rewrite !fmap_app, !value_app, zlen_app, Z.pow_add_r by (lia || apply zlen_nonneg). cbn [fmap list_fmap fst snd]. change (2 ^ zlen [(x, y)]) with 2. assert (E1 : zlen l.*1 = zlen l) by (unfold zlen; by rewrite length_fmap). assert (E2 : zlen l.*2 = zlen l) by (unfold zlen; by rewrite length_fmap). rewrite E1, E2. unfold value at 2 4. cbn [foldr].
  replace (2 ^ zlen l * 2 * v + (value 2 l.*1 + 2 ^ zlen l * (x + 2 * 0))) with (2 ^ zlen l * (2 * v + x) + value 2 l.*1) by ring. replace (2 ^ zlen l * 2 * w + (value 2 l.*2 + 2 ^ zlen l * (y + 2 * 0))) with (2 ^ zlen l * (2 * w + y) + value 2 l.*2) by ring. exact Hr'.
Qed.
Lemma sum_of_slides a b : scalar a -> scalar b -> value 256 a < 2 ^ 255 -> value 256 b < 2 ^ 255 ->
  yields (sum_rounds add_b Ai (skip_zeros (rev (zip (slide a) (slide b)))) ge_p2_0) (fun r => p2_is r (combination (value 256 a) (value 256 b))).
Proof.
  intros Ha Hb Hva Hvb. destruct (slide_spec a Ha Hva) as [Hla Hea _ Ea _]. destruct (slide_spec b Hb Hvb) as [Hlb Heb _ Eb _]. rewrite take_ge in Hea, Heb by lia.
  destruct (skip_zeros_spec (zip (slide a) (slide b))) as (l & n & -> & E).
  assert (Hl : Forall (fun q => entry q.1 /\ entry q.2) l).
  { assert (Hz : Forall (fun q => entry q.1 /\ entry q.2) (zip (slide a) (slide b))); [|rewrite E in Hz; by apply Forall_app in Hz as [Hz _] ].
    apply Forall_lookup. intros i [x y] Hi. apply lookup_zip_Some in Hi as [Hx Hy]. split; [exact (Forall_lookup_1 _ _ _ _ Hea Hx)|exact (Forall_lookup_1 _ _ _ _ Heb Hy)]. }
  assert (Hva' : value 2 l.*1 = value 256 a).
  { rewrite <- Ea. rewrite <- (fst_zip (slide a) (slide b)) by lia. rewrite E, fmap_app, value_app, fmap_replicate, value_zeros by lia. lia. }
  assert (Hvb' : value 2 l.*2 = value 256 b).
  { rewrite <- Eb. rewrite <- (snd_zip (slide a) (slide b)) by lia. rewrite E, fmap_app, value_app, fmap_replicate, value_zeros by lia. lia. }
  eapply yields_weaken; [apply (sum_rounds_spec l ge_p2_0 0 0); [done|]|].
  - unfold combination. rewrite !zmul_0, gadd_0_l. apply ge_p2_0_spec.
  - intros r Hr. cbn beta in Hr. by rewrite !Z.mul_0_r, !Z.add_0_l, Hva', Hvb' in Hr.
Qed.
End SumRounds.

Lemma ge_double_scalarmult_base_spec a h A b : scalar a -> scalar b -> value 256 a < 2 ^ 255 -> value 256 b < 2 ^ 255 -> p3_is h A ->
  yields (ge_double_scalarmult_base_vartime a h b) (fun r => p2_is r (gadd (zmul (value 256 a) A) (zmul (value 256 b) base))).
Proof.
  intros Ha Hb Hva Hvb HA. unfold ge_double_scalarmult_base_vartime. eapply yields_bind; [by apply ge_dsm_precomp_spec|]. intros Ai HAi. cbn beta in HAi.
  apply sum_of_slides; try done. intros x t P Hx Ht. by apply madd_entry_spec; [apply ge_Bi_multiples|..].
Qed.
Lemma ge_double_scalarmult_precomp_spec a h A b Bi B : scalar a -> scalar b -> value 256 a < 2 ^ 255 -> value 256 b < 2 ^ 255 -> p3_is h A -> odd_multiples moonbankd_is Bi B ->
  yields (ge_double_scalarmult_precomp_vartime a h b Bi) (fun r => p2_is r (gadd (zmul (value 256 a) A) (zmul (value 256 b) B))).
Proof.
  intros Ha Hb Hva Hvb HA HB. unfold ge_double_scalarmult_precomp_vartime. eapply yields_bind; [by apply ge_dsm_precomp_spec|]. intros Ai HAi. cbn beta in HAi.
  apply sum_of_slides; try done. intros x t P Hx Ht. by apply add_entry_spec.
Qed.

(** * The subgroup *)

Lemma doublings_spec n t P : p1p1_is t P -> yields (doublings n t) (fun t => p1p1_is t (zmul (2 ^ Z.of_nat n) P)).
Proof.
  revert t P. induction n as [|n IH]; intros t P Ht; cbn [doublings]; [apply yields_Ok; by rewrite zmul_1|]. do 2 ge_step. eapply yields_weaken; [eapply IH; eassumption|]. intros t' Ht'. cbn beta in Ht'.
  rewrite <- zmul_2, <- zmul_mul in Ht'. by rewrite Nat2Z.inj_succ, Z.pow_succ_r, Z.mul_comm by lia.
Qed.
(** What the steps multiply by. *)
Definition steps_value (l : list (nat * Z)) (v : Z) : Z := foldl (fun v q => 2 ^ Z.of_nat q.1 * v + q.2) v l.
Lemma subgroup_rounds_spec p l t P v : odd_multiples moonbankd_is p P -> Forall (fun q => entry q.2) l -> p1p1_is t (zmul v P) ->
  yields (subgroup_rounds p l t) (fun t => p1p1_is t (zmul (steps_value l v) P)).
Proof.
  intros Hp Hl. revert t v. induction Hl as [|[n x] l Hx Hl IH]; intros t v Ht; cbn [subgroup_rounds]; [by apply yields_Ok|].
  eapply yields_bind; [by apply doublings_spec|]. intros t1 H1. cbn beta in H1. eapply yields_bind; [by eapply add_entry_spec|]. intros t2 H2. cbn beta in H2. rewrite <- zmul_mul, <- zmul_add in H2. by apply IH.
Qed.
Definition entryb (x : Z) : bool := (x =? 0) || ((x mod 2 =? 1) && (-15 <=? x) && (x <=? 15)).
Lemma entryb_spec x : entryb x = true -> entry x.
Proof. unfold entryb, entry. rewrite orb_true_iff, !andb_true_iff, !Z.eqb_eq, !Z.leb_le. lia. Qed.
Lemma subgroup_steps_ok : Forall (fun q => entry q.2) subgroup_steps /\ steps_value subgroup_steps 15 = order.
Proof.
  split; [|vm_compute; reflexivity]. assert (H : forallb (fun q => entryb q.2) subgroup_steps = true) by (vm_compute; reflexivity). apply Forall_forall. intros q Hq%list_elem_of_In. rewrite forallb_forall in H. by apply entryb_spec, H.
Qed.

(** A point with [y] = 1 is the neutral element. *)
Lemma y_one P : eqp (py P) 1 <-> P ≡ gzero.
Proof.
  split; [|by intros [_ H]]. intros Hy. split; [|done]. cbn [gzero curve point_zero px]. pose proof (x_square P) as E. rewrite Hy in E. pose proof (v_nonzero 1) as Hv. change (1 * 1 - 1) with 0 in E.
  apply eqp_integral in E as [E|E]; [|done]. by apply eqp_integral in E as [E|E].
Qed.

Lemma ge_check_subgroup_spec p P : odd_multiples moonbankd_is p P ->
  exists r, ge_check_subgroup_precomp_vartime p = Ok r /\ (r = 0 <-> zmul order P ≡ gzero).
Proof.
  intros Hp. unfold ge_check_subgroup_precomp_vartime. destruct (odd_index _ _ _ 15 Hp eq_refl ltac:(lia)) as (q & Eq & Hq). change (15 ÷ 2) with 7 in Eq. rewrite Eq. cbn [mbind outcome_bind].
  destruct (ge_add_spec _ _ _ _ ge_p3_0_spec Hq) as (t & -> & Ht). cbn [mbind outcome_bind]. rewrite gadd_0_l in Ht. destruct subgroup_steps_ok as [Hs Ho].
  destruct (subgroup_rounds_spec p subgroup_steps t P 15 Hp Hs Ht) as (t' & -> & Ht'). cbn [mbind outcome_bind]. rewrite Ho in Ht'. set (Q := zmul order P) in *. destruct Ht' as (z & w & Hz & Hw & _ & HY & _ & HT).
  destruct (fe_sub_spec _ _ _ _ _ _ HY HT ltac:(lia)) as (y & -> & Hy). cbn [mbind outcome_bind]. rewrite (fe_isnonzero_spec y (py Q * w - w)) by (eapply fe_is_mono; [|exact Hy]; lia). eexists. split; [reflexivity|].
  rewrite <- y_one. destruct (Z.eqb_spec ((py Q * w - w) mod FieldOps.p) 0) as [E|E].
  - split; [intros _|done]. apply (eqp_cancel _ _ w Hw). rewrite Z.mul_1_l. replace (py Q * w) with (py Q * w - w + w) by lia. assert (E' : eqp (py Q * w - w) 0) by done. by rewrite E'.
  - split; [done|]. intros E1. exfalso. apply E. change (eqp (py Q * w - w) 0). rewrite E1. by replace (1 * w - w) with 0 by lia.
Qed.

(** The base point has the order of the scalars: the check itself shows it. *)
Definition limbs_of (x : Z) : fe := match fe_frombytes (digits 256 32 x) with Ok (Some f) => f | _ => fe_0 end.
Definition base_p3 : ge_p3 := {| p3_X := limbs_of (px base); p3_Y := limbs_of (py base); p3_Z := fe_1; p3_T := limbs_of (px base * py base mod FieldOps.p) |}.
Lemma base_p3_spec : p3_is base_p3 base.
Proof.
  assert (E : forall x y, inside (map (fun x => (x, x)) (limbs_of x)) (size_bounds 101) = true -> num (limbs_of x) mod FieldOps.p = y mod FieldOps.p -> fe_is 101 (limbs_of x) y).
  { intros x y Hx Hy. split; [by apply within_inside|exact Hy]. }
  exists 1. split_and!; [apply eqp_1_0|..|split; [apply within_inside; vm_compute; reflexivity|done]|]; apply E; vm_compute; reflexivity.
Qed.
Lemma base_checked : (ge_dsm_precomp base_p3 ≫= ge_check_subgroup_precomp_vartime) = Ok 0.
Proof. vm_compute. reflexivity. Qed.
Lemma base_order : zmul order base ≡ gzero.
Proof.
  pose proof base_checked as E. destruct (ge_dsm_precomp_spec base_p3 base base_p3_spec) as (t & Et & Ht). rewrite Et in E. cbn [mbind outcome_bind] in E.
  destruct (ge_check_subgroup_spec t base Ht) as (r & Er & Hr). apply Hr. congruence.
Qed.

(** * Claims *)

Section Claims.
Context `{BuildConfig}.
Variables (a b : list Z) (h : ge_p3) (A B : point) (Bi : list ge_moonbankd).

(** C23.  Scalar multiplication is exact and never fails: for 32-byte scalars below
    2^255 and a point of the curve, [ge_scalarmult] computes [a A],
    [ge_scalarmult_base] computes [a] times the base point, and the two double
    multiplications compute [a A + b B] with [B] the base point or the point of the
    given table, whatever the points; no arithmetic overflows, no table is
    read outside its bounds and no [assert] fails. *)
Theorem scalar_multiplication_exact : scalar a -> scalar b -> value 256 a < 2 ^ 255 -> value 256 b < 2 ^ 255 -> p3_is h A -> odd_multiples moonbankd_is Bi B ->
  yields (ge_scalarmult a h) (fun r => p2_is r (zmul (value 256 a) A)) /\
  yields (ge_scalarmult_base a) (fun r => p3_is r (zmul (value 256 a) base)) /\
  yields (ge_double_scalarmult_base_vartime a h b) (fun r => p2_is r (gadd (zmul (value 256 a) A) (zmul (value 256 b) base))) /\
  yields (ge_double_scalarmult_precomp_vartime a h b Bi) (fun r => p2_is r (gadd (zmul (value 256 a) A) (zmul (value 256 b) B))).
Proof.
  intros Ha Hb Hva Hvb HA HB. split_and!; [by apply ge_scalarmult_spec|by apply ge_scalarmult_base_spec|by apply ge_double_scalarmult_base_spec|by apply ge_double_scalarmult_precomp_spec].
Qed.

(** C24.  The subgroup check: on the table [ge_dsm_precomp] makes of any point of the
    curve, [ge_check_subgroup_precomp_vartime] returns, and it returns 0 exactly if
    the order of the base point's group times the point is the neutral element; the
    base point passes it. *)
Theorem subgroup_check_exact : p3_is h A ->
  (exists t r, ge_dsm_precomp h = Ok t /\ ge_check_subgroup_precomp_vartime t = Ok r /\ (r = 0 <-> zmul order A ≡ gzero)) /\ zmul order base ≡ gzero.
Proof.
  intros HA. split; [|apply base_order]. destruct (ge_dsm_precomp_spec h A HA) as (t & E & Ht). destruct (ge_check_subgroup_spec t A Ht) as (r & Er & Hr). by exists t, r.
Qed.
End Claims.

Lemma scalar_multiplication_exact_witness : let _ := debug_build in let s := digits 256 32 (order - 1) in
  yields (ge_scalarmult s base_p3) (fun r => p2_is r (zmul (value 256 s) base)).
Proof.
  intros ? s. assert (HS : scalar s) by (split; [apply (digits_ok 256); lia|apply length_digits]). assert (HV : value 256 s < 2 ^ 255) by (vm_compute; reflexivity).
  destruct (ge_dsm_precomp_spec base_p3 base base_p3_spec) as (t & _ & Ht).
  destruct (scalar_multiplication_exact s s base_p3 base base t HS HS HV HV base_p3_spec Ht) as (H & _). exact H.
Defined.
Lemma subgroup_check_exact_witness :
  exists t r, ge_dsm_precomp base_p3 = Ok t /\ ge_check_subgroup_precomp_vartime t = Ok r /\ (r = 0 <-> zmul order base ≡ gzero).
Proof. destruct (subgroup_check_exact base_p3 base base_p3_spec) as (H & _). exact H. Defined.
