(* ===== verification/HashToPoint.v ===== *)
(** Points from 32 bytes: [ge_fromfe_frombytes_vartime] of [crypto/crypto-ops.c], the
    map behind [hash_to_ec], and that its result is a point of the curve.

    The map takes [u] to a point of the Montgomery curve of coefficient [A] =
    486662 and that to the twisted Edwards curve: with [v] = 2 u^2, [w] = v + 1 and
    [q] = w^2 - A^2 v, the point has [x]^2 q = -(A + 2) z w and [y] = (z - w) / (z + w),
    where [z] is -A v if w / q is a square and -A otherwise. *)
From S2P Require Import Prelude IntUtil Limbs ScalarOps FieldOps PrimeField Group Edwards GroupOps.

Definition fe_ma2 : fe := [-12721188; -3529; 0; 0; 0; 0; 0; 0; 0; 0].
Definition fe_ma : fe := [-486662; 0; 0; 0; 0; 0; 0; 0; 0; 0].
Definition fe_fffb1 : fe := [-31702527; -2466483; -26106795; -12203692; -12169197; -321052; 14850977; -10296299; -16929438; -407568].
Definition fe_fffb2 : fe := [8166131; -6741800; -17040804; 3154616; 21461005; 1466302; -30876704; -6368709; 10503587; -13363080].
Definition fe_fffb3 : fe := [-13620103; 14639558; 4532995; 7679154; 16815101; -15883539; -22863840; -14813421; 13716513; -6477756].
Definition fe_fffb4 : fe := [-21786234; -12173074; 21573800; 4524538; -4645904; 16204591; 8012863; -8444712; 3212926; 6885324].

(** All 256 bits of the input: the loads of [ge_frombytes_vartime], without the mask
    of the last one. *)
Definition load_all (s : list Z) : list Z := <[9%nat := Z.shiftl (load_3 s 29) 2]> (load_limbs s).
Definition fe_fromfe (s : list Z) : outcome fe := h ← run int64 load_carries (load_all s); Ok (map to_int32 h).

Section Config.
Context `{BuildConfig}.

(** [assert] of an expression that computes. *)
Definition assert_zero (m : outcome fe) : outcome unit :=
  if NDEBUG then Ok tt else y ← m; nz ← fe_isnonzero y; massert (nz =? 0).

(** Up to the label [setsign]: [X], [z] and [sign]. *)
Definition positive_case (X u z v : fe) : outcome (fe * fe * Z) :=
  X ← fe_mul X u;
  z ← fe_mul z v;
  Ok (X, z, 0).
Definition negative_case (X x w z : fe) : outcome (fe * fe * Z) :=
  x ← fe_mul x fe_sqrtm1;
  y ← fe_sub w x;
  nz ← fe_isnonzero y;
  X ← (if nz =? 0 then fe_mul X fe_fffb4
       else _ ← assert_zero (fe_add w x); fe_mul X fe_fffb3);
  Ok (X, z, 1).
Definition fromfe_root (X x w u v : fe) : outcome (fe * fe * Z) :=
  y ← fe_sub w x;
  let z := fe_copy fe_ma in
  nz ← fe_isnonzero y;
  if nz =? 0 then X ← fe_mul X fe_fffb2; positive_case X u z v
  else
    y ← fe_add w x;
    nz ← fe_isnonzero y;
    if nz =? 0 then X ← fe_mul X fe_fffb1; positive_case X u z v
    else negative_case X x w z.
Definition set_sign (X : fe) (sign : Z) : outcome fe :=
  neg ← fe_isnegative X;
  if neg =? sign then Ok X
  else _ ← (if NDEBUG then Ok tt else nz ← fe_isnonzero X; massert (negb (nz =? 0))); fe_neg X.
(** The check of the result in builds with [assert]. *)
Definition check_point (X Y W : fe) : outcome fe :=
  iz ← fe_invert W;
  x ← fe_mul X iz;
  y ← fe_mul Y iz;
  x ← fe_sq x;
  y ← fe_sq y;
  v ← fe_mul x y;
  v ← fe_mul fe_d v;
  v ← fe_add v x;
  v ← fe_sub v y;
  fe_add v fe_1.
Definition ge_fromfe_frombytes_vartime (s : list Z) : outcome ge_p2 :=
  u ← fe_fromfe s;
  v ← fe_sq2 u;
  w ← fe_add v fe_1;
  x ← fe_sq w;
  y ← fe_mul fe_ma2 v;
  x ← fe_add x y;
  X ← fe_divpowm1 w x;
  y ← fe_sq X;
  x ← fe_mul y x;
  r ← fromfe_root X x w u v;
  let '(X, z, sign) := r in
  X ← set_sign X sign;
  W ← fe_add z w;
  Y ← fe_sub z w;
  X ← fe_mul X W;
  _ ← assert_zero (check_point X Y W);
  Ok {| p2_X := X; p2_Y := Y; p2_Z := W |}.
End Config.

(** * The number read *)

Definition all_bounds : list (Z * Z) := <[9%nat := (0, 2 ^ 26 - 1)]> load_bounds.
Lemma all_carries_ok : match irun int64 load_carries all_bounds with Some b => inside b (size_bounds 101) | None => false end = true.
Proof. vm_compute. reflexivity. Qed.
Lemma load_all_spec s : scalar s -> num (load_all s) = value 256 s /\ inb all_bounds (load_all s).
Proof.
  intros Hs. destruct (load_limbs_spec s Hs) as (En & HB & _). pose proof (scalar_bound s Hs) as Hv. destruct Hs as [Hs Hl]. unfold load_all. set (v := value 256 s) in *.
  assert (E : load_3 s 29 = v / 2 ^ 232) by (rewrite load_3_spec by (done || lia); fold v; change (8 * Z.of_nat 29) with 232; apply Z.mod_small; split; [apply Z.div_pos; lia|apply Z.div_lt_upper_bound; lia]).
  assert (E9 : load_limbs s !!! 9%nat = Z.shiftl (Z.land (load_3 s 29) 8388607) 2) by done. assert (Hf : 0 <= v / 2 ^ 232 < 2 ^ 24) by (split; [apply Z.div_pos; lia|apply Z.div_lt_upper_bound; lia]).
  split; [|apply inb_insert; [done|]; cbn [fst snd]; rewrite E, Z.shiftl_mul_pow2 by lia; lia].
  unfold num in *. rewrite wsum_insert by (cbn; lia). change (weights !!! 9%nat) with (2 ^ 230). rewrite En, E9, E. change 8388607 with (Z.ones 23). rewrite Z.land_ones, !Z.shiftl_mul_pow2 by lia.
  pose proof (Z.div_mod (v / 2 ^ 232) (2 ^ 23) ltac:(lia)) as D. rewrite Z.div_div in D by lia. change (2 ^ 232 * 2 ^ 23) with (2 ^ 255) in D. pose proof (Z.div_mod v (2 ^ 255) ltac:(lia)). lia.
Qed.
Lemma fe_fromfe_spec s : scalar s -> yields (fe_fromfe s) (fun h => fe_is 101 h (value 256 s)).
Proof.
  intros Hs. destruct (load_all_spec s Hs) as (En & HB). unfold fe_fromfe. pose proof all_carries_ok as Hi. destruct load_carries_ok as [Hok _]. destruct (irun int64 load_carries all_bounds) as [b|] eqn:Eb; [|done].
  destruct (irun_sound _ _ _ _ _ Eb HB) as (h & R & Hb). rewrite R. cbn [mbind outcome_bind]. pose proof (inb_inside _ _ _ Hi Hb) as Hw. rewrite (map_to_int32 101 h) by (done || lia).
  apply yields_Ok. split; [done|]. rewrite <- En. apply eqp_divide. exact (proj1 (run_wsum int64 weights p load_carries (load_all s) h eq_refl Hok R)).
Qed.

(** * The algebra of the map *)

Lemma eqp_of_eq x y : x = y -> eqp x y.
Proof. by intros ->. Qed.
Ltac by_ring := apply eqp_of_eq; ring.

Definition mA : Z := 486662.
Lemma d_mA : eqp (d * (mA + 2)) (- (mA - 2)).
Proof. vm_compute. reflexivity. Qed.

Section Algebra.
Variables X z w q : Z.
Hypothesis Hq : eqp q (z * z + w * w + mA * z * w).
Hypothesis HX : eqp (X * X * q) (- (mA + 2) * z * w).
Hypothesis Hzw : ~ (eqp z 0 /\ eqp w 0).

Lemma mapped_equation : eqp (X * X * ((z + w) * (z + w) + d * ((z - w) * (z - w)))) ((z - w) * (z - w) - (z + w) * (z + w)).
Proof.
  apply (eqp_cancel _ _ (mA + 2)); [by vm_compute|].
  transitivity (X * X * ((mA + 2) * ((z + w) * (z + w)) + d * (mA + 2) * ((z - w) * (z - w)))); [by_ring|]. rewrite d_mA.
  transitivity (4 * (X * X * (z * z + w * w + mA * z * w))); [by_ring|]. rewrite <- Hq, HX. by_ring.
Qed.
Lemma mapped_nonzero : ~ eqp (z + w) 0.
Proof.
  intros E. pose proof mapped_equation as M. rewrite E in M. assert (Hw : eqp w (- z)) by (replace w with (z + w - z) by lia; by rewrite E).
  assert (Hz : ~ eqp z 0) by (intros Hz; apply Hzw; split; [done|]; by rewrite Hw, Hz).
  assert (F : eqp ((d * (X * X) - 1) * (4 * (z * z))) 0).
  { transitivity (X * X * (0 * 0 + d * ((z - w) * (z - w))) - ((z - w) * (z - w) - 0 * 0)); [rewrite Hw; by_ring|]. rewrite M. by rewrite Z.sub_diag. }
  apply eqp_integral in F as [F|F]; [|repeat apply eqp_integral in F as [F|F]; [by vm_compute in F|done|done]].
  assert (D : eqp (1 * 1) (d * (X * X))) by (replace (d * (X * X)) with (d * (X * X) - 1 + 1) by lia; by rewrite F).
  apply d_no_square in D. rewrite D in F. by vm_compute in F.
Qed.
Lemma mapped_on_curve : on_curve X ((z - w) * inv (z + w)).
Proof.
  pose proof mapped_nonzero as Hn. pose proof (inv_spec _ Hn) as Hi. pose proof mapped_equation as M. set (W := z + w) in *. set (Y := z - w) in *. set (i := inv W) in *. apply root_on_curve.
  apply (eqp_cancel _ _ (W * W)); [by apply eqp_mul_nonzero|].
  transitivity (X * X * (W * W + d * (Y * Y) * ((W * i) * (W * i)))); [by_ring|]. rewrite Hi. transitivity (X * X * (W * W + d * (Y * Y))); [by_ring|]. rewrite M.
  symmetry. transitivity (Y * Y * ((W * i) * (W * i)) - W * W); [by_ring|]. rewrite Hi. by_ring.
Qed.
End Algebra.

(** [q] is not zero: 2 is no square. *)
Lemma q_nonzero u : let v := 2 * (u * u) in ~ eqp ((v + 1) * (v + 1) - mA * mA * v) 0.
Proof.
  intros v E. destruct (decide (eqp u 0)) as [Hu|Hu]; [unfold v in E; rewrite Hu in E; by vm_compute in E|].
  assert (Hn : ~ eqp (mA * u) 0) by (apply eqp_mul_nonzero; [by vm_compute|done]). apply (two_no_square ((v + 1) * inv (mA * u))).
  pose proof (inv_spec _ Hn) as Hi. set (i := inv (mA * u)) in *. transitivity (2 * ((mA * u * i) * (mA * u * i))); [|rewrite Hi; done].
  transitivity (((v + 1) * (v + 1) - mA * mA * v) * (i * i) + mA * mA * v * (i * i)); [by_ring|]. rewrite E. unfold v. by_ring.
Qed.

(** The candidate of [fe_divpowm1] is a root up to a fourth root of unity. *)
Lemma fourth_roots c : eqp (c * c * (c * c)) 1 -> eqp c 1 \/ eqp c (-1) \/ eqp c im \/ eqp c (- im).
Proof.
  intros H. pose proof im_square as Hi. assert (E : eqp ((c - 1) * (c + 1) * ((c - im) * (c + im))) 0).
  { transitivity ((c * c - 1) * (c * c - im * im)); [by_ring|]. rewrite Hi. transitivity (c * c * (c * c) - 1); [by_ring|]. by rewrite H. }
  assert (S : forall a b, eqp (a - b) 0 -> eqp a b) by (intros a b Hab; replace a with (a - b + b) by lia; by rewrite Hab).
  apply eqp_integral in E as [E|E]; apply eqp_integral in E as [E|E]; [left|right; left|right; right; left|right; right; right]; apply S; [done|by replace (c - -1) with (c + 1) by lia|done|by replace (c - - im) with (c + im) by lia].
Qed.
Lemma candidate_unity w q : ~ eqp w 0 -> ~ eqp q 0 -> let r := divpowm1 w q in
  eqp (r * r * q) w \/ eqp (r * r * q) (- w) \/ eqp (r * r * q) (w * im) \/ eqp (r * r * q) (- (w * im)).
Proof.
  intros Hw Hq r. pose proof (candidate w q) as E. fold r in E. destruct exponent as [Ep Hk]. set (k := (p - 5) / 8) in *. set (t := w * q ^ 7) in *. set (c := t ^ (2 * k + 1)) in *.
  assert (Ht : ~ eqp t 0) by (unfold t; apply eqp_mul_nonzero; [done|]; replace (q ^ 7) with (q * q * (q * q) * (q * q * q)) by ring; repeat apply eqp_mul_nonzero; done).
  assert (Hc : eqp (c * c * (c * c)) 1).
  { transitivity (t ^ (p - 1)); [|by apply pow_order]. unfold c. rewrite <- !Z.pow_add_r by lia. apply eqp_of_eq; f_equal; lia. }
  replace (r * r * q) with (q * (r * r)) by ring. rewrite !E. destruct (fourth_roots c Hc) as [H|[H|[H|H] ] ]; rewrite H; [left|right; left|right; right; left|right; right; right]; by_ring.
Qed.

(** * The point *)

Lemma constants_square : eqp (num fe_fffb1 * num fe_fffb1) (- (2 * (mA * (mA + 2)))) /\ eqp (num fe_fffb2 * num fe_fffb2) (2 * (mA * (mA + 2))) /\
  eqp (num fe_fffb3 * num fe_fffb3) (- (im * (mA * (mA + 2)))) /\ eqp (num fe_fffb4 * num fe_fffb4) (im * (mA * (mA + 2))).
Proof. split_and!; vm_compute; reflexivity. Qed.
Lemma constants_small : fe_is 101 fe_fffb1 (num fe_fffb1) /\ fe_is 101 fe_fffb2 (num fe_fffb2) /\ fe_is 101 fe_fffb3 (num fe_fffb3) /\ fe_is 101 fe_fffb4 (num fe_fffb4) /\ fe_is 101 fe_ma (- mA) /\ fe_is 101 fe_ma2 (- (mA * mA)).
Proof. split_and!; (split; [apply within_inside; vm_compute; reflexivity|vm_compute; reflexivity]). Qed.

Section Proofs.
Context `{BuildConfig}.
Lemma assert_zero_spec (m : outcome fe) x : yields m (fun y => fe_is 660 y x) -> eqp x 0 -> assert_zero m = Ok tt.
Proof.
  intros (y & -> & Hy) Hx. unfold assert_zero. destruct NDEBUG eqn:E; [done|]. cbn [mbind outcome_bind]. rewrite (fe_isnonzero_spec y x Hy). cbn [mbind outcome_bind].
  assert (Ex : x mod p = 0) by exact Hx. rewrite Ex. by apply massert_true.
Qed.
Lemma set_sign_spec X x sign : fe_is 101 X x -> sign = 0 \/ sign = 1 /\ ~ eqp x 0 -> yields (set_sign X sign) (fun h => exists y, fe_is 101 h y /\ (eqp y x \/ eqp y (- x))).
Proof.
  intros HX Hs. unfold set_sign. rewrite (fe_isnegative_spec X x) by (eapply fe_is_mono; [|exact HX]; lia). cbn [mbind outcome_bind]. destruct (Z.eqb_spec ((x mod p) mod 2) sign) as [E|E]; [apply yields_Ok; exists x; split; [done|by left]|].
  assert (Hx : ~ eqp x 0) by (destruct Hs as [-> |[-> Hx] ]; [|done]; intros F; apply E; unfold eqp in F; by rewrite F).
  assert (A : (if NDEBUG then Ok tt else nz ← fe_isnonzero X; massert (negb (nz =? 0))) = Ok tt).
  { destruct NDEBUG; [done|]. rewrite (fe_isnonzero_spec X x) by (eapply fe_is_mono; [|exact HX]; lia). cbn [mbind outcome_bind]. apply massert_true. destruct (Z.eqb_spec (x mod p) 0) as [F|F]; [by destruct Hx|done]. }
  rewrite A. cbn [mbind outcome_bind]. destruct (fe_neg_spec _ _ _ HX ltac:(lia)) as (h & -> & Hh). apply yields_Ok. exists (- x). split; [done|by right].
Qed.

(** What the root is, up to the sign. *)
Definition rooted (u v w q : Z) (r : fe * fe * Z) : Prop :=
  let '(X, z, sign) := r in
  exists x y, fe_is 101 X x /\ fe_is 101 z y /\ eqp q (y * y + w * w + mA * y * w) /\ eqp (x * x * q) (- (mA + 2) * y * w) /\ ~ (eqp y 0 /\ eqp w 0) /\ (sign = 0 \/ sign = 1 /\ ~ eqp x 0).

Section Root.
Variables (u v w q r : Z) (fu fv fw X x : fe).
Hypothesis Ev : v = 2 * (u * u).
Hypothesis Ew : w = v + 1.
Hypothesis Eq : q = w * w - mA * mA * v.
Hypothesis Hu : fe_is 101 fu u.
Hypothesis Hv : fe_is 101 fv v.
Hypothesis Hw : fe_is 102 fw w.
Hypothesis HX : fe_is 101 X r.
Hypothesis Hx : fe_is 101 x (r * r * q).

Lemma positive_case_spec Y s : fe_is 101 Y (r * s) -> eqp (r * s * (r * s) * q) (2 * (mA * (mA + 2)) * w) -> yields (positive_case Y fu fe_ma fv) (rooted u v w q).
Proof.
  intros HY E. destruct constants_small as (_ & _ & _ & _ & Hma & _). unfold positive_case. do 2 fe_step. apply yields_Ok. exists (r * s * u), (- mA * v). split_and!; [done|done| | | |by left].
  - rewrite Eq, Ew, Ev. by_ring.
  - transitivity (r * s * (r * s) * q * (u * u)); [by_ring|]. rewrite E, Ev. by_ring.
  - intros [F G]. apply eqp_integral in F as [F|F]; [by vm_compute in F|]. rewrite Ew, F in G. by vm_compute in G.
Qed.
Lemma negative_case_spec : eqp (r * r * q) (w * im) \/ eqp (r * r * q) (- (w * im)) -> ~ eqp w 0 -> yields (negative_case X x fw fe_ma) (rooted u v w q).
Proof.
  intros Hc Hw0. destruct constants_small as (_ & _ & B3 & B4 & Hma & _). destruct constants_square as (_ & _ & S3 & S4). pose proof fe_sqrtm1_is as Him. pose proof im_square as Hi. unfold negative_case. do 2 fe_step.
  rewrite (fe_isnonzero_spec t0 (w - r * r * q * im)) by (eapply fe_is_mono; [|exact H1]; lia). cbn [mbind outcome_bind].
  assert (Fin : forall Y s, fe_is 101 Y (r * s) -> eqp (r * s * (r * s) * q) (mA * (mA + 2) * w) -> rooted u v w q (Y, fe_ma, 1)).
  { intros Y s HY E. exists (r * s), (- mA). split_and!; [done|done|rewrite Eq, Ew; by_ring|rewrite E; by_ring|intros [Hm _]; by vm_compute in Hm|]. right. split; [done|]. intros F. rewrite F in E.
    assert (E' : eqp (mA * (mA + 2) * w) 0) by (rewrite <- E; by_ring). destruct (eqp_integral (mA * (mA + 2)) w E') as [F'|F']; [by vm_compute in F'|exact (Hw0 F')]. }
  destruct (Z.eqb_spec ((w - r * r * q * im) mod p) 0) as [E|E]; cbn [Z.eqb].
  - assert (E' : eqp (r * r * q * im) w) by (assert (E1 : eqp (w - r * r * q * im) 0) by done; replace (r * r * q * im) with (w - (w - r * r * q * im)) by lia; rewrite E1; by_ring).
    fe_step. apply yields_Ok. eapply Fin; [done|]. transitivity (r * r * q * (num fe_fffb4 * num fe_fffb4)); [by_ring|]. rewrite S4. transitivity (r * r * q * im * (mA * (mA + 2))); [by_ring|]. rewrite E'. by_ring.
  - assert (E' : eqp (r * r * q * im) (- w)).
    { destruct Hc as [Hc|Hc]; rewrite Hc; [transitivity (w * (im * im)); [by_ring|rewrite Hi; by_ring]|]. exfalso. apply E. change (eqp (w - r * r * q * im) 0). rewrite Hc. transitivity (w + w * (im * im)); [by_ring|]. rewrite Hi. by_ring. }
    rewrite (assert_zero_spec _ (w + r * r * q * im)); [|eapply yields_weaken; [eapply fe_add_spec; [fe_in|fe_in|lia]|intros y Hy; eapply fe_is_mono; [|exact Hy]; lia]|rewrite E'; by_ring]. cbn [mbind outcome_bind].
    fe_step. apply yields_Ok. eapply Fin; [done|]. transitivity (r * r * q * (num fe_fffb3 * num fe_fffb3)); [by_ring|]. rewrite S3. transitivity (- (r * r * q * im) * (mA * (mA + 2))); [by_ring|]. rewrite E'. by_ring.
Qed.
Lemma fromfe_root_spec : r = divpowm1 w q -> yields (fromfe_root X x fw fu fv) (rooted u v w q).
Proof.
  intros Er. destruct constants_small as (B1 & B2 & _ & _ & Hma & _). destruct constants_square as (S1 & S2 & _). unfold fromfe_root. fe_step. cbn zeta. unfold fe_copy.
  rewrite (fe_isnonzero_spec t (w - r * r * q)) by (eapply fe_is_mono; [|exact H0]; lia). cbn [mbind outcome_bind]. destruct (Z.eqb_spec ((w - r * r * q) mod p) 0) as [E|E]; cbn [Z.eqb].
  { assert (E' : eqp (r * r * q) w) by (assert (E1 : eqp (w - r * r * q) 0) by exact E; replace (r * r * q) with (w - (w - r * r * q)) by lia; rewrite E1; by_ring).
    fe_step. eapply positive_case_spec; [eassumption|]. transitivity (r * r * q * (num fe_fffb2 * num fe_fffb2)); [by_ring|]. rewrite S2, E'. by_ring. }
  fe_step. rewrite (fe_isnonzero_spec t0 (w + r * r * q)) by (eapply fe_is_mono; [|exact H1]; lia). cbn [mbind outcome_bind]. destruct (Z.eqb_spec ((w + r * r * q) mod p) 0) as [E0|E0]; cbn [Z.eqb].
  { assert (E' : eqp (r * r * q) (- w)) by (assert (E1 : eqp (w + r * r * q) 0) by exact E0; replace (r * r * q) with (w + r * r * q - w) by lia; rewrite E1; by_ring).
    fe_step. eapply positive_case_spec; [eassumption|]. transitivity (r * r * q * (num fe_fffb1 * num fe_fffb1)); [by_ring|]. rewrite S1, E'. by_ring. }
  assert (N1 : ~ eqp (r * r * q) w) by (intros F; apply E; change (eqp (w - r * r * q) 0); rewrite F; by_ring).
  assert (N2 : ~ eqp (r * r * q) (- w)) by (intros F; apply E0; change (eqp (w + r * r * q) 0); rewrite F; by_ring).
  assert (Hw0 : ~ eqp w 0).
  { intros F. apply N1. assert (Hr0 : eqp r 0) by (rewrite Er; unfold divpowm1; rewrite F; by_ring). rewrite Hr0, F. by_ring. }
  assert (Hq0 : ~ eqp q 0) by (rewrite Eq, Ew, Ev; apply q_nonzero).
  apply negative_case_spec; [|done]. rewrite Er in *. destruct (candidate_unity w q Hw0 Hq0) as [F|[F|F] ]; [contradiction|contradiction|exact F].
Qed.
End Root.

Lemma check_point_spec X Y W P z : ~ eqp z 0 -> fe_is 101 X (px P * z) -> fe_is 203 Y (py P * z) -> fe_is 203 W z -> assert_zero (check_point X Y W) = Ok tt.
Proof.
  intros Hz HX HY HW. set (a := px P * z * z ^ (p - 2)). set (b := py P * z * z ^ (p - 2)). apply (assert_zero_spec _ (d * (a * a * (b * b)) + a * a - b * b + 1)).
  - pose proof fe_d_is as Hd. pose proof fe_is_1 as H1. unfold check_point. eapply yields_bind; [eapply fe_invert_spec; fe_in|]. intros i Hi. cbn beta in Hi. do 8 fe_step.
    eapply yields_weaken; [eapply fe_add_spec; [fe_in|fe_in|lia]|]. intros y Hy. eapply fe_is_mono; [|exact Hy]. lia.
  - pose proof (inv_spec z Hz) as Hi. fold (inv z) in a, b. assert (Ea : eqp a (px P)) by (unfold a; rewrite <- Z.mul_assoc, Hi; by_ring). assert (Eb : eqp b (py P)) by (unfold b; rewrite <- Z.mul_assoc, Hi; by_ring).
    clearbody a b. rewrite Ea, Eb. pose proof (p_on P) as Hc. unfold on_curve in Hc. transitivity (1 + d * (px P * px P) * (py P * py P) - (py P * py P - px P * px P)); [by_ring|]. rewrite Hc. by_ring.
Qed.

Lemma ge_fromfe_spec s : scalar s -> yields (ge_fromfe_frombytes_vartime s) (fun h => exists P, p2_wide h P).
Proof.
  intros Hs. destruct constants_small as (_ & _ & _ & _ & Hma & Hma2). pose proof fe_is_1 as H1. unfold ge_fromfe_frombytes_vartime. eapply yields_bind; [by apply fe_fromfe_spec|]. intros fu Hu. cbn beta in Hu.
  revert Hu. generalize (value 256 s). intros u Hu. do 5 fe_step. eapply yields_bind; [eapply fe_divpowm1_spec; fe_in|]. intros X HX. cbn beta in HX. do 2 fe_step.
  set (v := 2 * (u * u)) in *. set (w := v + 1) in *. set (q := w * w + - (mA * mA) * v) in *. assert (Eq : q = w * w - mA * mA * v) by (unfold q; ring).
  eapply yields_bind; [eapply (fromfe_root_spec u v w q (divpowm1 w q)); [reflexivity|reflexivity|exact Eq|fe_in|fe_in|fe_in|fe_in|fe_in|reflexivity]|].
  intros [ [X0 fz] sign] (x & y & HX0 & Hz & Hq & Hxq & Hnz & Hsign). eapply yields_bind; [by apply set_sign_spec|]. intros X1 (x1 & HX1 & Hx1). cbn beta.
  assert (Hx1q : eqp (x1 * x1 * q) (- (mA + 2) * y * w)) by (rewrite <- Hxq; destruct Hx1 as [F|F]; rewrite F; by_ring).
  pose proof (mapped_on_curve x1 y w q Hq Hx1q Hnz) as Hon. pose proof (mapped_nonzero x1 y w q Hq Hx1q Hnz) as Hn. pose proof (inv_spec _ Hn) as Hi. do 3 fe_step. set (P := Point x1 _ Hon).
  assert (Hy : eqp ((y - w) * inv (y + w) * (y + w)) (y - w)) by (rewrite <- Z.mul_assoc, (Z.mul_comm (inv _)), Hi; by_ring).
  match goal with K : fe_is _ ?t (y - w) |- _ => assert (HY : fe_is 203 t (py P * (y + w))) by (eapply fe_is_eq; [symmetry; exact Hy|]; eapply fe_is_mono; [|exact K]; lia) end.
  rewrite (check_point_spec _ _ _ P (y + w) Hn); [|fe_in|done|fe_in]. cbn [mbind outcome_bind]. apply yields_Ok. exists P, (y + w). cbn [p2_X p2_Y p2_Z]. split_and!; [done|fe_in|done|fe_in].
Qed.
End Proofs.

(** * Claims *)

Section Claims.
Context `{BuildConfig}.
(** C27.  Every string of 32 bytes is mapped to a point of the curve:
    [ge_fromfe_frombytes_vartime] always returns, none of its [assert]s can fail (the
    other root is a root, the coordinate whose sign is changed is not zero, the
    result is on the curve), nothing overflows, and [ge_mul8] computes
    eight times the point from the result. *)
Theorem hashed_point_on_curve s : scalar s ->
  exists h P, ge_fromfe_frombytes_vartime s = Ok h /\ p2_wide h P /\ yields (ge_mul8 h) (fun r => p1p1_is r (zmul 8 P)).
Proof.
  intros Hs. destruct (ge_fromfe_spec s Hs) as (h & E & P & HP). exists h, P. split_and!; [done|done|by apply ge_mul8_wide].
Qed.
End Claims.
Lemma hashed_point_on_curve_witness : let _ := debug_build in
  exists h P, ge_fromfe_frombytes_vartime (replicate 32 255) = Ok h /\ p2_wide h P /\ yields (ge_mul8 h) (fun r => p1p1_is r (zmul 8 P)).
Proof.
  intros B. assert (HS : scalar (replicate 32 255)) by (split; [apply Forall_replicate; unfold is_u8; lia|done]). exact (hashed_point_on_curve (replicate 32 255) HS).
Defined.
