(* ===== verification/Cofactor.v ===== *)
(** The group of the curve has 8 times the order of the base point: every point times
    [8 * order] is the neutral element.

    The order of the base point is prime.  With a point of order 8 it makes
    [8 * order] different points; if a point were outside of their group there
    would be twice as many, but a point is determined by [y] and the last bit of [x], which
    leaves less than [2 * p]. *)
From S2P Require Import Prelude IntUtil Limbs ScalarOps FieldOps PrimeField Group Edwards GroupOps BaseTable BaseMultiples ScalarMult.
From Stdlib Require Import Znumtheory.

(** * The order is prime *)

Lemma prime_1257559732178653 : prime 1257559732178653.
Proof.
  apply (certificate_prime _ 2 [1224481; 531581]); [|solve_NoDup|vm_compute; reflexivity].
  rewrite !Forall_cons. split_and!; [..|done]; (apply (small_prime 2000); [done|vm_compute; reflexivity]).
Qed.
Lemma prime_4434155615661930479 : prime 4434155615661930479.
Proof. apply (certificate_prime _ 2 [1257559732178653]); [|solve_NoDup|vm_compute; reflexivity]. rewrite Forall_cons. split; [exact prime_1257559732178653|done]. Qed.
Lemma prime_172054593956031949258510691 : prime 172054593956031949258510691.
Proof. apply (certificate_prime _ 2 [4434155615661930479]); [|solve_NoDup|vm_compute; reflexivity]. rewrite Forall_cons. split; [exact prime_4434155615661930479|done]. Qed.
Lemma prime_19757330305831588566944191468367130476339 : prime 19757330305831588566944191468367130476339.
Proof. apply (certificate_prime _ 2 [172054593956031949258510691]); [|solve_NoDup|vm_compute; reflexivity]. rewrite Forall_cons. split; [exact prime_172054593956031949258510691|done]. Qed.
Lemma prime_276602624281642239937218680557139826668747 : prime 276602624281642239937218680557139826668747.
Proof. apply (certificate_prime _ 2 [19757330305831588566944191468367130476339]); [|solve_NoDup|vm_compute; reflexivity]. rewrite Forall_cons. split; [exact prime_19757330305831588566944191468367130476339|done]. Qed.
Lemma prime_order : prime order.
Proof. apply (certificate_prime _ 2 [276602624281642239937218680557139826668747]); [|solve_NoDup|vm_compute; reflexivity]. rewrite Forall_cons. split; [exact prime_276602624281642239937218680557139826668747|done]. Qed.

(** * Orders *)

Section Orders.
Context {G : Type} `{AbelianGroup G}.
Lemma zmul_bezout (P : G) a b g : zmul a P ≡ gzero -> zmul b P ≡ gzero -> Bezout a b g -> zmul g P ≡ gzero.
Proof. intros Ha Hb [u v E]. by rewrite <- E, zmul_add, !zmul_mul, Ha, Hb, !zmul_zero, gadd_0_l. Qed.
(** The multiples that vanish are those of the order, if it is prime ... *)
Lemma prime_multiple (P : G) n k : prime n -> zmul n P ≡ gzero -> ~ (P ≡ gzero) -> zmul k P ≡ gzero -> (n | k).
Proof.
  intros Hn HP Hne Hk. destruct (Zdivide_dec n k) as [|Hd]; [done|]. destruct Hne. rewrite <- zmul_1.
  apply (zmul_bezout P n k 1 HP Hk). apply rel_prime_bezout, prime_rel_prime; done.
Qed.
(** ... or 8. *)
Lemma eight_multiple (P : G) k : zmul 8 P ≡ gzero -> ~ (zmul 4 P ≡ gzero) -> zmul k P ≡ gzero -> (8 | k).
Proof.
  intros HP Hne Hk. destruct (Zdivide_dec 8 k) as [|Hd]; [done|]. destruct Hne. assert (Hg : (Z.gcd 8 k | 4)).
  { pose proof (Z.gcd_divide_l 8 k) as [c Hc]. pose proof (Z.gcd_nonneg 8 k) as Hn. pose proof (Z.gcd_divide_r 8 k) as Hr. assert (Z.gcd 8 k <> 8) by (intros E; apply Hd; by rewrite E in Hr).
    assert (Hle : Z.gcd 8 k <= 8) by (apply Z.divide_pos_le; [lia|by exists c]). generalize dependent (Z.gcd 8 k). intros g Hc Hn _ H8 Hle.
    assert (g = 0 \/ g = 1 \/ g = 2 \/ g = 3 \/ g = 4 \/ g = 5 \/ g = 6 \/ g = 7) as [-> |[-> |[-> |[-> |[-> |[-> |[-> | ->] ] ] ] ] ] ] by lia; try lia; [by exists 4|by exists 2|by exists 1]. }
  destruct Hg as [c ->]. rewrite zmul_mul. rewrite (zmul_bezout P 8 k (Z.gcd 8 k) HP Hk); [by rewrite zmul_zero|].
  destruct (Z.gcd_bezout 8 k (Z.gcd 8 k) eq_refl) as (u & v & E). by exists u v.
Qed.
End Orders.

(** * A point of order 8 *)

Definition torsion : point :=
  Point 14399317868200118260347934320527232580618823971194345261214217575416788799818
        55188659117513257062467267217118295137698188065244968500265048394206261417927 eq_refl.
Lemma torsion_at : at_point torsion (px torsion, py torsion).
Proof. done. Qed.
Lemma at_minus_one Q : at_point Q (0, -1) -> ~ (Q ≡ gzero).
Proof. intros [_ H] [_ F]. cbn [snd] in H. rewrite F in H. by vm_compute in H. Qed.
Lemma at_one Q : at_point Q (0, 1) -> Q ≡ gzero.
Proof. by intros [Hx Hy]. Qed.
Lemma torsion_4 : ~ (zmul 4 torsion ≡ gzero).
Proof.
  apply at_minus_one. replace 4 with (2 ^ Z.of_nat 2) by reflexivity. apply (next_ok_spec 2 _ _ _ torsion_at). vm_compute. reflexivity.
Qed.
Lemma torsion_8 : zmul 8 torsion ≡ gzero.
Proof.
  apply at_one. replace 8 with (2 ^ Z.of_nat 3) by reflexivity. apply (next_ok_spec 3 _ _ _ torsion_at). vm_compute. reflexivity.
Qed.
Lemma base_nonzero : ~ (base ≡ gzero).
Proof. intros [F _]. by vm_compute in F. Qed.

(** * Counting *)

Lemma pigeonhole (N M : nat) (g : nat -> nat) : (forall n, n < N -> g n < M)%nat -> (forall n m, n < N -> m < N -> g n = g m -> n = m)%nat -> (N <= M)%nat.
Proof.
  intros Hb Hi. assert (L : (length (map g (seq 0 N)) <= length (seq 0 M))%nat); [|by rewrite length_map, !length_seq in L]. apply NoDup_incl_length.
  - apply NoDup_ListNoDup. rewrite NoDup_alt. intros i j x Hx Hy. rewrite list_lookup_fmap in Hx, Hy. apply fmap_Some in Hx as (n & Hn & ->), Hy as (m & Hm & E). apply lookup_seq in Hn as [-> Hn], Hm as [-> Hm]. by apply Hi.
  - intros x (n & <- & Hn)%in_map_iff. apply in_seq in Hn. apply in_seq. specialize (Hb n ltac:(lia)). lia.
Qed.

(** A point by [y] and the last bit of [x]. *)
Definition code (P : point) : Z := py P mod p + p * ((px P mod p) mod 2).
Lemma code_bound P : 0 <= code P < 2 * p.
Proof. unfold code. pose proof (mod_p_bound (py P)). destruct (mod_2_cases (px P mod p)) as [-> | ->]; lia. Qed.
Lemma code_inj P Q : code P = code Q -> P ≡ Q.
Proof.
  unfold code. intros E. pose proof (mod_p_bound (py P)). pose proof (mod_p_bound (py Q)). apply point_bytes_inj. unfold point_bytes. f_equal.
  destruct (mod_2_cases (px P mod p)) as [E1|E1], (mod_2_cases (px Q mod p)) as [E2|E2]; rewrite E1, E2 in *; lia.
Qed.

Section Outside.
Variable P : point.
Hypothesis HP : ~ (zmul (8 * order) P ≡ gzero).

Definition combine (s i j : Z) : point := gadd (zmul s P) (gadd (zmul i torsion) (zmul j base)).
Lemma combine_sub s i j s' i' j' : combine s i j ≡ combine s' i' j' -> combine (s - s') (i - i') (j - j') ≡ gzero.
Proof.
  intros E. unfold combine in *. rewrite !zmul_sub. rewrite (gadd_swap (zmul i torsion)), (gadd_swap (zmul s P)), E, <- !gneg_add. apply gadd_neg_r.
Qed.
Lemma combine_zero s i j : combine s i j ≡ gzero -> -1 <= s <= 1 -> -8 < i < 8 -> - order < j < order -> s = 0 /\ i = 0 /\ j = 0.
Proof.
  intros E Hs Hi Hj. assert (E8 : zmul (8 * order * s) P ≡ gzero).
  { assert (F : zmul (8 * order) (combine s i j) ≡ gzero) by (by rewrite E, zmul_zero). unfold combine in F. rewrite !zmul_gadd, <- !zmul_mul in F.
    replace (8 * order * i) with (order * i * 8) in F by ring. replace (8 * order * j) with (8 * j * order) in F by ring. rewrite (zmul_mul (order * i)), (zmul_mul (8 * j)), torsion_8, base_order, !zmul_zero, !gadd_0_r in F. exact F. }
  assert (s = 0) as ->.
  { assert (s = -1 \/ s = 0 \/ s = 1) as [-> |[-> | ->] ] by lia; [|done|]; exfalso; apply HP; [|by rewrite Z.mul_1_r in E8]. replace (8 * order * -1) with (- (8 * order)) in E8 by ring. rewrite zmul_opp in E8. by rewrite <- (gneg_neg (zmul (8 * order) P)), E8, gneg_0. }
  unfold combine in E. rewrite zmul_0, gadd_0_l in E. assert (Hb : zmul (8 * j) base ≡ gzero).
  { assert (F : zmul 8 (gadd (zmul i torsion) (zmul j base)) ≡ gzero) by (by rewrite E, zmul_zero). rewrite zmul_gadd, <- !zmul_mul, (Z.mul_comm 8 i), (zmul_mul i), torsion_8, zmul_zero, gadd_0_l in F. exact F. }
  apply (prime_multiple base order (8 * j) prime_order base_order base_nonzero) in Hb. apply prime_mult in Hb as [Hb|Hb]; [apply Z.divide_pos_le in Hb; [by vm_compute in Hb|lia]| |apply prime_order].
  assert (j = 0) as -> by (destruct Hb as [c Hc]; assert (Ho : 0 < order) by done; assert (c = 0) by nia; lia). rewrite zmul_0, gadd_0_r in E. apply (eight_multiple torsion i torsion_8 torsion_4) in E. destruct E as [c Hc]. split_and!; lia.
Qed.

Definition nth_point (n : Z) : point := combine (n / (8 * order)) (n mod (8 * order) / order) (n mod order).
Lemma nth_point_inj n m : 0 <= n < 16 * order -> 0 <= m < 16 * order -> nth_point n ≡ nth_point m -> n = m.
Proof.
  intros Hn Hm E. unfold nth_point in E. apply combine_sub in E. assert (Ho : 0 < order) by done.
  assert (B : forall k, 0 <= k < 16 * order -> 0 <= k / (8 * order) < 2 /\ 0 <= k mod (8 * order) / order < 8 /\ 0 <= k mod order < order /\ k = 8 * order * (k / (8 * order)) + (order * (k mod (8 * order) / order) + k mod order)).
  { intros k Hk. pose proof (Z.mod_pos_bound k (8 * order) ltac:(lia)). pose proof (Z.mod_pos_bound k order ltac:(lia)). split_and!; try lia; try (apply Z.div_pos; lia); try (apply Z.div_lt_upper_bound; lia).
    pose proof (Z.div_mod k (8 * order) ltac:(lia)) as D1. pose proof (Z.div_mod (k mod (8 * order)) order ltac:(lia)) as D2. rewrite <- (Znumtheory.Zmod_div_mod order (8 * order) k) in D2 by (lia || by exists 8). lia. }
  destruct (B n Hn) as (N1 & N2 & N3 & N4). destruct (B m Hm) as (M1 & M2 & M3 & M4). apply combine_zero in E as (E1 & E2 & E3); [|lia..]. rewrite N4, M4. f_equal; [f_equal; lia|f_equal; [f_equal|]; lia].
Qed.
Lemma no_outside : False.
Proof.
  assert (H : (Z.to_nat (16 * order) <= Z.to_nat (2 * p))%nat); [|apply Z2Nat.inj_le in H; [by vm_compute in H|done|done] ].
  apply (pigeonhole _ _ (fun n => Z.to_nat (code (nth_point (Z.of_nat n))))).
  - intros n Hn. apply Z2Nat.inj_lt; [apply code_bound|done|apply code_bound].
  - intros n m Hn Hm E. apply Z2Nat.inj in E; [|apply code_bound..]. apply code_inj in E. apply Nat2Z.inj, nth_point_inj; [lia|lia|exact E].
Qed.
End Outside.

(** Every point is killed by 8 times the order. *)
Lemma cofactor P : zmul (8 * order) P ≡ gzero.
Proof.
  assert (D : Decision (zmul (8 * order) P ≡ gzero)) by (unfold equiv, point_equiv, eqp; apply _). destruct D as [|H]; [done|]. exfalso. exact (no_outside P H).
Qed.
