(* ===== verification/Crypto.v ===== *)
(** Keys, derivations and signatures: [crypto/crypto.cpp], with the random numbers of
    [crypto/random.c].

    Byte arrays are lists of 32 bytes, a [Signature] its two halves.  The state of the
    random generator is passed along; what the operating system gave
    [init_random] is the state at the first call.  [abort()] is [AssertFailed], as a
    failed [assert] is. *)
From S2P Require Import Prelude IntUtil Keccak Varint Limbs ScalarOps FieldOps Edwards GroupOps ScalarMult HashToPoint.

Record Signature := { sig_c : list Z; sig_r : list Z }.

(** * Random numbers *)

Definition hash_permutation (state : list Z) : list Z := keccakf state 24.
Definition HASH_DATA_AREA : nat := 136.
(** The loop of [generate_random_bytes]; [fuel] bounds the rounds. *)
Fixpoint random_rounds (fuel n : nat) (state : list Z) : list Z * list Z :=
  match fuel with
  | O => ([], state)
  | S fuel =>
      let state := hash_permutation state in
      if (n <=? HASH_DATA_AREA)%nat then (take n (state_bytes state), state)
      else let '(rest, state') := random_rounds fuel (n - HASH_DATA_AREA) state in (take HASH_DATA_AREA (state_bytes state) ++ rest, state')
  end.
Definition generate_random_bytes (n : nat) (state : list Z) : list Z * list Z := if (n =? 0)%nat then ([], state) else random_rounds n n state.
Definition random_scalar (state : list Z) : outcome (list Z * list Z) :=
  let '(tmp, state) := generate_random_bytes 64 state in
  res ← sc_reduce tmp;
  Ok (res, state).

Definition hash_to_scalar (data : list Z) : outcome (list Z) := h ← cn_fast_hash data; sc_reduce32 h.

Section Config.
Context `{BuildConfig}.
(** Code compiled only without [NDEBUG]. *)
Definition debug (m : outcome unit) : outcome unit := if NDEBUG then Ok tt else m.

(** * Keys *)

Definition public_point (sec : list Z) : outcome (list Z) := point ← ge_scalarmult_base sec; ge_p3_tobytes point.
Definition generate_keys (state : list Z) : outcome (list Z * list Z * list Z) :=
  r ← random_scalar state;
  let '(sec, state) := r in
  pub ← public_point sec;
  Ok (pub, sec, state).
Definition generate_keys_from_seed (seed : list Z) : outcome (list Z * list Z) :=
  sec ← sc_reduce32 seed;
  pub ← public_point sec;
  Ok (pub, sec).
Definition check_key (key : list Z) : outcome bool := p ← ge_frombytes_vartime key; Ok (match p with Some _ => true | None => false end).
Definition secret_key_to_public_key (sec : list Z) : outcome (option (list Z)) :=
  if negb (sc_check sec =? 0) then Ok None else pub ← public_point sec; Ok (Some pub).

Definition generate_key_derivation (key1 key2 : list Z) : outcome (option (list Z)) :=
  _ ← massert (sc_check key2 =? 0);
  point ← ge_frombytes_vartime key1;
  match point with
  | None => Ok None
  | Some point =>
      point2 ← ge_scalarmult key2 point;
      point3 ← ge_mul8 point2;
      point2 ← ge_p1p1_to_p2 point3;
      derivation ← ge_tobytes point2;
      Ok (Some derivation)
  end.
(** The two overloads; the first has no suffix. *)
Definition derivation_to_scalar (derivation : list Z) (output_index : Z) (suffix : option (list Z)) : outcome (list Z) :=
  _ ← massert (match suffix with Some s => zlen s <=? 32 | None => true end);
  let index := write_varint output_index in
  _ ← massert (zlen index <=? 10 + match suffix with Some _ => 32 | None => 0 end);
  hash_to_scalar (derivation ++ index ++ default [] suffix).
Definition derive_public_key (derivation : list Z) (output_index : Z) (base : list Z) (suffix : option (list Z)) : outcome (option (list Z)) :=
  point1 ← ge_frombytes_vartime base;
  match point1 with
  | None => Ok None
  | Some point1 =>
      scalar ← derivation_to_scalar derivation output_index suffix;
      point2 ← ge_scalarmult_base scalar;
      point3 ← ge_p3_to_moonbankd point2;
      point4 ← ge_add point1 point3;
      point5 ← ge_p1p1_to_p2 point4;
      derived_key ← ge_tobytes point5;
      Ok (Some derived_key)
  end.
Definition underive_public_key_and_get_scalar (derivation : list Z) (output_index : Z) (derived_key : list Z) (suffix : option (list Z)) : outcome (option (list Z * list Z)) :=
  point1 ← ge_frombytes_vartime derived_key;
  match point1 with
  | None => Ok None
  | Some point1 =>
      hashed_derivation ← derivation_to_scalar derivation output_index suffix;
      point2 ← ge_scalarmult_base hashed_derivation;
      point3 ← ge_p3_to_moonbankd point2;
      point4 ← ge_sub point1 point3;
      point5 ← ge_p1p1_to_p2 point4;
      base ← ge_tobytes point5;
      Ok (Some (base, hashed_derivation))
  end.
(** The same body, without the scalar. *)
Definition underive_public_key (derivation : list Z) (output_index : Z) (derived_key : list Z) (suffix : option (list Z)) : outcome (option (list Z)) :=
  r ← underive_public_key_and_get_scalar derivation output_index derived_key suffix;
  Ok (option_map fst r).
Definition derive_secret_key (derivation : list Z) (output_index : Z) (base : list Z) (suffix : option (list Z)) : outcome (list Z) :=
  _ ← massert (sc_check base =? 0);
  scalar ← derivation_to_scalar derivation output_index suffix;
  sc_add base scalar.

(** * Signatures *)

Definition generate_signature (prefix_hash pub sec : list Z) (state : list Z) : outcome (Signature * list Z) :=
  _ ← debug (_ ← massert (sc_check sec =? 0); t2 ← public_point sec; massert (bool_decide (pub = t2)));
  r ← random_scalar state;
  let '(k, state) := r in
  comm ← public_point k;
  c ← hash_to_scalar (prefix_hash ++ pub ++ comm);
  r ← sc_mulsub c sec k;
  Ok ({| sig_c := c; sig_r := r |}, state).
Definition check_signature (prefix_hash pub : list Z) (sig : Signature) : outcome bool :=
  _ ← debug (b ← check_key pub; massert b);
  tmp3 ← ge_frombytes_vartime pub;
  match tmp3 with
  | None => AssertFailed
  | Some tmp3 =>
      if negb (sc_check (sig_c sig) =? 0) || negb (sc_check (sig_r sig) =? 0) then Ok false
      else
        tmp2 ← ge_double_scalarmult_base_vartime (sig_c sig) tmp3 (sig_r sig);
        comm ← ge_tobytes tmp2;
        c ← hash_to_scalar (prefix_hash ++ pub ++ comm);
        c ← sc_sub c (sig_c sig);
        Ok (sc_isnonzero c =? 0)
  end.

Definition generate_tx_proof (prefix_hash R A D r : list Z) (state : list Z) : outcome (Signature * list Z) :=
  R_p3 ← ge_frombytes_vartime R;
  match R_p3 with None => Throw runtime_error | Some _ =>
  A_p3 ← ge_frombytes_vartime A;
  match A_p3 with None => Throw runtime_error | Some A_p3 =>
  D_p3 ← ge_frombytes_vartime D;
  match D_p3 with None => Throw runtime_error | Some _ =>
    _ ← massert (sc_check r =? 0);
    dbg_R ← public_point r;
    _ ← massert (bool_decide (R = dbg_R));
    dbg_D_p2 ← ge_scalarmult r A_p3;
    dbg_D ← ge_tobytes dbg_D_p2;
    _ ← massert (bool_decide (D = dbg_D));
    d ← random_scalar state;
    let '(k, state) := d in
    X_p3 ← ge_scalarmult_base k;
    Y_p2 ← ge_scalarmult k A_p3;
    X ← ge_p3_tobytes X_p3;
    Y ← ge_tobytes Y_p2;
    c ← hash_to_scalar (prefix_hash ++ D ++ X ++ Y);
    s ← sc_mulsub c r k;
    Ok ({| sig_c := c; sig_r := s |}, state)
  end end end.

(** The early return of [check_tx_proof] when bytes are not a point. *)
Definition with_point (bytes : list Z) (k : ge_p3 -> outcome bool) : outcome bool :=
  p ← ge_frombytes_vartime bytes;
  match p with None => Ok false | Some p => k p end.
Definition check_tx_proof (prefix_hash R A D : list Z) (sig : Signature) : outcome bool :=
  with_point R (fun R_p3 => with_point A (fun A_p3 => with_point D (fun D_p3 =>
    if negb (sc_check (sig_c sig) =? 0) || negb (sc_check (sig_r sig) =? 0) then Ok false
    else
      cR_p2 ← ge_scalarmult (sig_c sig) R_p3;
      rG_p3 ← ge_scalarmult_base (sig_r sig);
      cD_p2 ← ge_scalarmult (sig_c sig) D_p3;
      rA_p2 ← ge_scalarmult (sig_r sig) A_p3;
      cR ← ge_tobytes cR_p2;
      with_point cR (fun cR_p3 =>
        rG_moonbankd ← ge_p3_to_moonbankd rG_p3;
        X_p1p1 ← ge_add cR_p3 rG_moonbankd;
        X_p2 ← ge_p1p1_to_p2 X_p1p1;
        cD ← ge_tobytes cD_p2;
        rA ← ge_tobytes rA_p2;
        with_point cD (fun cD_p3 => with_point rA (fun rA_p3 =>
          rA_moonbankd ← ge_p3_to_moonbankd rA_p3;
          Y_p1p1 ← ge_add cD_p3 rA_moonbankd;
          Y_p2 ← ge_p1p1_to_p2 Y_p1p1;
          X ← ge_tobytes X_p2;
          Y ← ge_tobytes Y_p2;
          c2 ← hash_to_scalar (prefix_hash ++ D ++ X ++ Y);
          c2 ← sc_sub c2 (sig_c sig);
          Ok (sc_isnonzero c2 =? 0))))))).

(** * Key images *)

Definition hash_to_ec (key : list Z) : outcome ge_p3 :=
  h ← cn_fast_hash key;
  point ← ge_fromfe_frombytes_vartime h;
  point2 ← ge_mul8 point;
  ge_p1p1_to_p3 point2.
(** [A] is read without looking at the result of [ge_frombytes_vartime]. *)
Definition scalarmultKey (P a : list Z) : outcome (list Z) :=
  A ← ge_frombytes_vartime P;
  match A with
  | None => Undefined
  | Some A => R ← ge_scalarmult a A; ge_tobytes R
  end.
Definition hash_data_to_ec (data : list Z) : outcome (list Z) :=
  h ← cn_fast_hash data;
  point ← ge_fromfe_frombytes_vartime h;
  point2 ← ge_mul8 point;
  point ← ge_p1p1_to_p2 point2;
  ge_tobytes point.
Definition generate_key_image (pub sec : list Z) : outcome (list Z) :=
  _ ← massert (sc_check sec =? 0);
  point ← hash_to_ec pub;
  point2 ← ge_scalarmult sec point;
  ge_tobytes point2.
Definition generate_incomplete_key_image (pub : list Z) : outcome (list Z) := point ← hash_to_ec pub; ge_p3_tobytes point.

(** * Ring signatures *)

(** The points of one member: [buf->ab[i]]. *)
Definition member_points (image_pre : list ge_moonbankd) (pub : list Z) (tmp3 : ge_p3) (sig : Signature) : outcome (list Z) :=
  tmp2 ← ge_double_scalarmult_base_vartime (sig_c sig) tmp3 (sig_r sig);
  a ← ge_tobytes tmp2;
  tmp3 ← hash_to_ec pub;
  tmp2 ← ge_double_scalarmult_precomp_vartime (sig_r sig) tmp3 (sig_c sig) image_pre;
  b ← ge_tobytes tmp2;
  Ok (a ++ b).

Record ring_state := { rs_sum : list Z; rs_ab : list Z; rs_sig : list Signature; rs_k : option (list Z); rs_random : list Z }.
Definition ring_round (image_pre : list ge_moonbankd) (sec_index : nat) (s : ring_state) (i : nat) (pub : list Z) : outcome ring_state :=
  if (i =? sec_index)%nat then
    r ← random_scalar (rs_random s);
    let '(k, state) := r in
    a ← public_point k;
    tmp3 ← hash_to_ec pub;
    tmp2 ← ge_scalarmult k tmp3;
    b ← ge_tobytes tmp2;
    Ok {| rs_sum := rs_sum s; rs_ab := rs_ab s ++ a ++ b; rs_sig := rs_sig s; rs_k := Some k; rs_random := state |}
  else
    r ← random_scalar (rs_random s);
    let '(c, state) := r in
    r ← random_scalar state;
    let '(d, state) := r in
    let sig := {| sig_c := c; sig_r := d |} in
    tmp3 ← ge_frombytes_vartime pub;
    match tmp3 with
    | None => AssertFailed
    | Some tmp3 =>
        ab ← member_points image_pre pub tmp3 sig;
        sum ← sc_add (rs_sum s) c;
        Ok {| rs_sum := sum; rs_ab := rs_ab s ++ ab; rs_sig := <[i := sig]> (rs_sig s); rs_k := rs_k s; rs_random := state |}
    end.
Fixpoint ring_rounds (image_pre : list ge_moonbankd) (sec_index : nat) (s : ring_state) (i : nat) (pubs : list (list Z)) : outcome ring_state :=
  match pubs with
  | [] => Ok s
  | pub :: pubs => s ← ring_round image_pre sec_index s i pub; ring_rounds image_pre sec_index s (S i) pubs
  end.
Fixpoint check_keys (pubs : list (list Z)) : outcome unit :=
  match pubs with [] => Ok tt | pub :: pubs => b ← check_key pub; _ ← massert b; check_keys pubs end.
(** [sig] is the array the caller passes; the functions access [pubs_count] signatures. *)
Definition has_signatures (sig : list Signature) (pubs_count : nat) : outcome unit := if (pubs_count <=? length sig)%nat then Ok tt else Undefined.
Definition generate_ring_signature (prefix_hash image : list Z) (pubs : list (list Z)) (sec : list Z) (sec_index : nat) (sig : list Signature) (state : list Z) : outcome (list Signature * list Z) :=
  _ ← massert (sec_index <? length pubs)%nat;
  _ ← debug (
    _ ← massert (sc_check sec =? 0);
    t2 ← public_point sec;
    pub ← match pubs !! sec_index with Some pub => Ok pub | None => Undefined end;
    _ ← massert (bool_decide (pub = t2));
    t3 ← generate_key_image pub sec;
    _ ← massert (bool_decide (image = t3));
    check_keys pubs);
  _ ← has_signatures sig (length pubs);
  image_unp ← ge_frombytes_vartime image;
  match image_unp with
  | None => AssertFailed
  | Some image_unp =>
      image_pre ← ge_dsm_precomp image_unp;
      s ← ring_rounds image_pre sec_index {| rs_sum := sc_0; rs_ab := []; rs_sig := sig; rs_k := None; rs_random := state |} 0 pubs;
      h ← hash_to_scalar (prefix_hash ++ rs_ab s);
      match rs_k s with
      | None => Undefined
      | Some k =>
          c ← sc_sub h (rs_sum s);
          r ← sc_mulsub c sec k;
          Ok (<[sec_index := {| sig_c := c; sig_r := r |}]> (rs_sig s), rs_random s)
      end
  end.

(** The loop of the check; [None] is its [return false]. *)
Fixpoint check_rounds (image_pre : list ge_moonbankd) (sum ab : list Z) (l : list (list Z * Signature)) : outcome (option (list Z * list Z)) :=
  match l with
  | [] => Ok (Some (sum, ab))
  | (pub, sig) :: l =>
      if negb (sc_check (sig_c sig) =? 0) || negb (sc_check (sig_r sig) =? 0) then Ok None
      else
        tmp3 ← ge_frombytes_vartime pub;
        match tmp3 with
        | None => AssertFailed
        | Some tmp3 =>
            p ← member_points image_pre pub tmp3 sig;
            sum ← sc_add sum (sig_c sig);
            check_rounds image_pre sum (ab ++ p) l
        end
  end.
Definition check_ring_signature (prefix_hash image : list Z) (pubs : list (list Z)) (sig : list Signature) : outcome bool :=
  _ ← debug (check_keys pubs);
  _ ← has_signatures sig (length pubs);
  image_unp ← ge_frombytes_vartime image;
  match image_unp with
  | None => Ok false
  | Some image_unp =>
      image_pre ← ge_dsm_precomp image_unp;
      b ← ge_check_subgroup_precomp_vartime image_pre;
      if negb (b =? 0) then Ok false
      else
        r ← check_rounds image_pre sc_0 [] (zip pubs sig);
        match r with
        | None => Ok false
        | Some (sum, ab) =>
            h ← hash_to_scalar (prefix_hash ++ ab);
            h ← sc_sub h sum;
            Ok (sc_isnonzero h =? 0)
        end
  end.
End Config.
