(* ===== verification/CryptoTheory.v ===== *)
(** Theory of [Crypto]: what the operations on keys compute in the group of the curve,
    that the two ends of a derivation agree, and that signatures verify. *)
From S2P Require Import Prelude IntUtil Keccak Varint Limbs ScalarOps FieldOps Group Edwards GroupOps ScalarMult HashToPoint Cofactor Crypto.

(** * Scalars and points as bytes *)

(** The canonical scalars: those [sc_check] accepts. *)
Definition secret (s : list Z) : Prop := scalar s /\ value 256 s < order.
Lemma secret_encode x : secret (encode x) /\ value 256 (encode x) = x mod order.
Proof.
  pose proof (Z.mod_pos_bound x order ltac:(done)) as Hm. assert (E : value 256 (encode x) = x mod order) by (apply value_digits; [lia|]; assert (order < 256 ^ Z.of_nat 32) by done; lia).
  split; [|done]. split; [split; [apply (digits_ok 256); lia|apply length_digits]|]. rewrite E. lia.
Qed.
Lemma secret_scalar s : secret s -> scalar s.
Proof. by intros [? _]. Qed.
Lemma secret_bound s : secret s -> 0 <= value 256 s < order.
Proof. intros [Hs Hv]. pose proof (scalar_bound s Hs). lia. Qed.
Lemma secret_255 s : secret s -> value 256 s < 2 ^ 255.
Proof. intros [_ H]. assert (order < 2 ^ 255) by done. lia. Qed.
Lemma secret_eq s t : secret s -> secret t -> value 256 s mod order = value 256 t mod order -> s = t.
Proof.
  intros Hs Ht E. pose proof (secret_bound s Hs). pose proof (secret_bound t Ht). rewrite !Z.mod_small in E by lia. destruct Hs as [ [Hs Hl] _], Ht as [ [Ht Hl'] _].
  rewrite <- (digits_value 256 s), <- (digits_value 256 t) by (lia || done). by rewrite Hl, Hl', E.
Qed.
Lemma sc_check_secret s : scalar s -> sc_check s = 0 <-> secret s.
Proof. intros Hs. rewrite sc_check_order by done. unfold secret. case_match eqn:E; [apply Z.ltb_lt in E|apply Z.ltb_ge in E]; split; intros H; try done; try lia. Qed.
Lemma sc_check_ok s : secret s -> (sc_check s =? 0) = true.
Proof. intros Hs. apply Z.eqb_eq, sc_check_secret; [by apply secret_scalar|done]. Qed.
#[local] Hint Resolve secret_scalar secret_255 : core.

(** Multiples depend on the scalar modulo the order. *)
Lemma zmul_mod P x : zmul order P ≡ gzero -> zmul (x mod order) P ≡ zmul x P.
Proof.
  intros H. rewrite (Z.div_mod x order) at 2 by done. by rewrite zmul_add, Z.mul_comm, zmul_mul, H, zmul_zero, gadd_0_l.
Qed.
Lemma zmul_order n P : zmul order P ≡ gzero -> zmul order (zmul n P) ≡ gzero.
Proof. intros H. by rewrite <- zmul_mul, Z.mul_comm, zmul_mul, H, zmul_zero. Qed.

Lemma point_bytes_proper P Q : P ≡ Q -> point_bytes P = point_bytes Q.
Proof. intros [Hx Hy]. unfold point_bytes. unfold eqp in *. by rewrite Hx, Hy. Qed.
Lemma frombytes_point P : exists h, ge_frombytes_vartime (point_bytes P) = Ok (Some h) /\ p3_is h P.
Proof.
  destruct (ge_frombytes_spec _ (point_bytes_scalar P)) as (r & -> & H). destruct r as [h|]; [|by destruct (H P)]. destruct H as (Q & HQ & E). apply point_bytes_inj in E. exists h. split; [done|]. by rewrite <- E.
Qed.

(** One step of a computation whose head is known. *)
Lemma bind_ok {A B} (a : A) (f : A -> outcome B) : (Ok a ≫= f) = f a.
Proof. done. Qed.
Ltac go := rewrite bind_ok; cbn beta iota.

(** * Hashes and random numbers *)

Definition Hs (data : list Z) : list Z := encode (value 256 (take 32 (sponge data))).
Lemma Hs_secret data : secret (Hs data).
Proof. apply secret_encode. Qed.
Lemma hash_to_scalar_spec data : zlen data < 2 ^ 31 -> hash_to_scalar data = Ok (Hs data) /\ secret (Hs data).
Proof.
  intros Hd. unfold hash_to_scalar. rewrite (cn_fast_hash_spec data Hd). go. destruct (hash_bytes data) as [Hb Hl]. rewrite sc_reduce32_digits by done. split; [done|]. apply Hs_secret.
Qed.
(** Sizes of what is hashed. *)
Lemma length_point_bytes P : length (point_bytes P) = 32%nat.
Proof. apply point_bytes_scalar. Qed.
Ltac size := unfold zlen; rewrite ?length_app, ?length_point_bytes; lia.
Lemma hash_permutation_length st : length st = 25%nat -> length (hash_permutation st) = 25%nat.
Proof. intros H. unfold hash_permutation. pose proof (proj2 (keccakf_ref_spec st H)) as E. unfold KECCAK_ROUNDS in E. exact E. Qed.
Lemma random_rounds_short fuel n state : (n <= 136)%nat -> random_rounds (S fuel) n state = (take n (state_bytes (hash_permutation state)), hash_permutation state).
Proof. intros H. cbn [random_rounds]. by rewrite (proj2 (Nat.leb_le n HASH_DATA_AREA) H). Qed.
Lemma random_scalar_spec state : length state = 25%nat -> exists k state', random_scalar state = Ok (k, state') /\ secret k /\ length state' = 25%nat.
Proof.
  intros Hl. unfold random_scalar, generate_random_bytes. rewrite (random_rounds_short 63) by (apply Nat.leb_le; reflexivity). cbn [Nat.eqb]. pose proof (hash_permutation_length state Hl) as Hl'.
  revert Hl'. generalize (hash_permutation state). intros st Hst. destruct (state_bytes_spec st) as [Hb Hbl]. rewrite Hst in Hbl.
  rewrite sc_reduce_digits; [|by apply Forall_take|rewrite length_take; lia]. cbn [mbind outcome_bind]. eexists _, st. split_and!; [reflexivity|apply secret_encode|done].
Qed.

Section Specs.
Context `{BuildConfig}.
Implicit Types P Q R A B : point.

Lemma public_point_spec s : secret s -> public_point s = Ok (point_bytes (zmul (value 256 s) base)).
Proof.
  intros H1. unfold public_point. destruct (ge_scalarmult_base_spec s) as (h & -> & Hh); [auto..|]. cbn [mbind outcome_bind]. by apply ge_p3_tobytes_spec.
Qed.
Lemma check_key_point P : check_key (point_bytes P) = Ok true.
Proof. unfold check_key. by destruct (frombytes_point P) as (h & -> & _). Qed.
Lemma tobytes_of (m : outcome ge_p2) P : yields m (fun r => p2_is r P) -> (m ≫= ge_tobytes) = Ok (point_bytes P).
Proof. intros (r & -> & Hr). by apply ge_tobytes_spec. Qed.

(** * Keys *)

Ltac run H := let h := fresh "h" in let Hh := fresh "H" h in destruct H as (h & -> & Hh); go; cbn beta in Hh.

Lemma generate_key_derivation_spec P s : secret s -> generate_key_derivation (point_bytes P) s = Ok (Some (point_bytes (zmul (8 * value 256 s) P))).
Proof.
  intros H1. unfold generate_key_derivation. rewrite massert_true by (by apply sc_check_ok). go. destruct (frombytes_point P) as (h & -> & Hh). go.
  run (ge_scalarmult_spec s h P ltac:(auto) ltac:(auto) Hh). run (ge_mul8_spec _ _ Hh0). run (ge_p1p1_to_p2_spec _ _ Hh1). rewrite (ge_tobytes_spec _ _ Hh2). go.
  do 2 f_equal. apply point_bytes_proper. by rewrite zmul_mul.
Qed.

(** A valid output index and suffix. *)
Definition valid_index (i : Z) (suffix : option (list Z)) : Prop := 0 <= i < 2 ^ 64 /\ match suffix with Some s => zlen s <= 32 | None => True end.
Definition derivable (derivation : list Z) (i : Z) (suffix : option (list Z)) : Prop := length derivation = 32%nat /\ valid_index i suffix.
Definition derivation_scalar (derivation : list Z) (i : Z) (suffix : option (list Z)) : list Z := Hs (derivation ++ write_varint i ++ default [] suffix).
Lemma write_varint_short n i : 0 <= i < 128 ^ Z.of_nat n -> (0 < n)%nat -> zlen (write_varint i) <= Z.of_nat n.
Proof.
  revert i. induction n as [|n IH]; intros i Hi Hn; [lia|]. rewrite write_varint_eq by lia. destruct (Z.ltb_spec i 128) as [H1|H1]; [rewrite zlen_cons; change (zlen []) with 0; lia|].
  rewrite zlen_cons. rewrite Nat2Z.inj_succ, Z.pow_succ_r in Hi by lia. destruct n as [|n]; [cbn in Hi; lia|]. specialize (IH (i / 128)). assert (0 <= i / 128 < 128 ^ Z.of_nat (S n)) by (split; [apply Z.div_pos; lia|apply Z.div_lt_upper_bound; lia]). specialize (IH ltac:(done) ltac:(lia)). lia.
Qed.
Lemma derivation_to_scalar_spec derivation i suffix : derivable derivation i suffix ->
  derivation_to_scalar derivation i suffix = Ok (derivation_scalar derivation i suffix) /\ secret (derivation_scalar derivation i suffix).
Proof.
  intros [Hd [Hi Hsuf] ]. unfold derivation_to_scalar. rewrite (massert_true (match suffix with Some s => zlen s <=? 32 | None => true end)) by (destruct suffix; [apply Z.leb_le; exact Hsuf|done]). go.
  pose proof (write_varint_short 10 i ltac:(change (128 ^ Z.of_nat 10) with (2 ^ 70); lia) ltac:(lia)). rewrite massert_true by (apply Z.leb_le; destruct suffix; lia). go. apply hash_to_scalar_spec.
  unfold zlen in *. rewrite !length_app. destruct suffix; cbn [from_option id length] in *; lia.
Qed.
Lemma derive_public_key_spec D i B suffix : derivable D i suffix ->
  derive_public_key D i (point_bytes B) suffix = Ok (Some (point_bytes (gadd B (zmul (value 256 (derivation_scalar D i suffix)) base)))).
Proof.
  intros Hi. unfold derive_public_key. destruct (frombytes_point B) as (h & -> & Hh). go. destruct (derivation_to_scalar_spec D i suffix Hi) as [-> Hs]. go.
  run (ge_scalarmult_base_spec _ (secret_scalar _ Hs) (secret_255 _ Hs)). run (ge_p3_to_moonbankd_spec _ _ Hh0). run (ge_add_spec _ _ _ _ Hh Hh1). run (ge_p1p1_to_p2_spec _ _ Hh2). by rewrite (ge_tobytes_spec _ _ Hh3).
Qed.
Lemma underive_spec D i B suffix : derivable D i suffix ->
  underive_public_key_and_get_scalar D i (point_bytes B) suffix = Ok (Some (point_bytes (gadd B (gneg (zmul (value 256 (derivation_scalar D i suffix)) base))), derivation_scalar D i suffix)).
Proof.
  intros Hi. unfold underive_public_key_and_get_scalar. destruct (frombytes_point B) as (h & -> & Hh). go. destruct (derivation_to_scalar_spec D i suffix Hi) as [-> Hs]. go.
  run (ge_scalarmult_base_spec _ (secret_scalar _ Hs) (secret_255 _ Hs)). run (ge_p3_to_moonbankd_spec _ _ Hh0). run (ge_sub_spec _ _ _ _ Hh Hh1). run (ge_p1p1_to_p2_spec _ _ Hh2). by rewrite (ge_tobytes_spec _ _ Hh3).
Qed.
Lemma derive_secret_key_spec D i s suffix : derivable D i suffix -> secret s ->
  derive_secret_key D i s suffix = Ok (encode (value 256 s + value 256 (derivation_scalar D i suffix))).
Proof.
  intros Hi H1. unfold derive_secret_key. rewrite massert_true by (by apply sc_check_ok). go. destruct (derivation_to_scalar_spec D i suffix Hi) as [-> Hs]. go. by apply sc_add_digits; auto.
Qed.

(** * Signatures *)

Definition response (c s k : list Z) : list Z := encode (value 256 k - value 256 c * value 256 s).
Lemma response_spec c s k : secret c -> secret s -> secret k -> sc_mulsub c s k = Ok (response c s k) /\ secret (response c s k).
Proof. intros Hc Hs Hk. split; [by apply sc_mulsub_digits; auto|apply secret_encode]. Qed.
(** The verification equation, for any point of the subgroup. *)
Lemma response_equation c s k P : zmul order P ≡ gzero ->
  gadd (zmul (value 256 c) (zmul (value 256 s) P)) (zmul (value 256 (response c s k)) P) ≡ zmul (value 256 k) P.
Proof.
  intros HP. unfold response. rewrite (proj2 (secret_encode _)), zmul_mod, zmul_sub, <- zmul_mul by done. rewrite gadd_comm, <- gadd_assoc, (gadd_comm (gneg _)), gadd_neg_r, gadd_0_r. done.
Qed.

Lemma debug_keys s pub : secret s -> pub = point_bytes (zmul (value 256 s) base) ->
  debug (_ ← massert (sc_check s =? 0); t2 ← public_point s; massert (bool_decide (pub = t2))) = Ok tt.
Proof.
  intros H1 E. unfold debug. destruct NDEBUG eqn:En; [done|]. rewrite massert_true by (by apply sc_check_ok). go. rewrite public_point_spec by done. go. apply massert_true. by apply bool_decide_eq_true.
Qed.
Lemma generate_signature_spec h s pub state : length h = 32%nat -> secret s -> length state = 25%nat -> pub = point_bytes (zmul (value 256 s) base) ->
  exists k state' c, secret k /\ length state' = 25%nat /\ c = Hs (h ++ pub ++ point_bytes (zmul (value 256 k) base)) /\
    generate_signature h pub s state = Ok ({| sig_c := c; sig_r := response c s k |}, state').
Proof.
  intros Hm H1 Hst Hp. destruct (random_scalar_spec state Hst) as (k & state' & E & Hk & Hl). destruct (hash_to_scalar_spec (h ++ pub ++ point_bytes (zmul (value 256 k) base))) as [Eh Hc]; [rewrite Hp; size|].
  exists k, state', (Hs (h ++ pub ++ point_bytes (zmul (value 256 k) base))). split; [done|]. split; [done|]. split; [reflexivity|]. unfold generate_signature.
  rewrite debug_keys by done. go. rewrite E. go. rewrite public_point_spec by done. go. rewrite Eh. go.
  revert Hc. generalize (Hs (h ++ pub ++ point_bytes (zmul (value 256 k) base))). intros c Hc. rewrite (proj1 (response_spec c s k Hc H1 Hk)). reflexivity.
Qed.

(** A difference of canonical scalars is zero only if they are equal. *)
Lemma sub_zero s t : secret s -> secret t -> exists r, sc_sub s t = Ok r /\ (sc_isnonzero r =? 0) = bool_decide (s = t).
Proof.
  intros H1 H2. exists (encode (value 256 s - value 256 t)). split; [by apply sc_sub_digits; auto|]. destruct (secret_encode (value 256 s - value 256 t)) as [ [Hr _] Ev]. destruct Hr as [Hr _]. rewrite sc_isnonzero_spec, Ev by done.
  pose proof (secret_bound s H1). pose proof (secret_bound t H2). case_bool_decide as E; [subst; rewrite Z.sub_diag; done|]. destruct (Z.eqb_spec ((value 256 s - value 256 t) mod order) 0) as [F|F]; [|done].
  destruct E. apply secret_eq; [done|done|]. apply Z.mod_divide in F as [c Hc]; [|done]. replace (value 256 s) with (value 256 t + c * order) by lia. by rewrite Z.mod_add.
Qed.

(** What [check_signature] decides. *)
Definition signature_ok (h : list Z) (P : point) (sig : Signature) : Prop :=
  secret (sig_c sig) /\ secret (sig_r sig) /\ sig_c sig = Hs (h ++ point_bytes P ++ point_bytes (gadd (zmul (value 256 (sig_c sig)) P) (zmul (value 256 (sig_r sig)) base))).
Lemma not_secret s : scalar s -> ~ secret s -> negb (sc_check s =? 0) = true.
Proof. intros H1 H2. apply negb_true_iff, Z.eqb_neq. intros E. by apply H2, sc_check_secret. Qed.
Lemma secret_dec s : scalar s -> secret s \/ ~ secret s.
Proof. intros H1. destruct (Z.lt_ge_cases (value 256 s) order); [left; by split|right; intros [_ F]; lia]. Qed.
Lemma check_signature_spec h P sig : length h = 32%nat -> scalar (sig_c sig) -> scalar (sig_r sig) -> exists b, check_signature h (point_bytes P) sig = Ok b /\ (b = true <-> signature_ok h P sig).
Proof.
  intros Hm Hc Hr. unfold check_signature. assert (Hd : debug (b ← check_key (point_bytes P); massert b) = Ok tt) by (unfold debug; destruct NDEBUG eqn:En; [done|]; rewrite check_key_point; go; by apply massert_true).
  rewrite Hd. go. destruct (frombytes_point P) as (t & -> & Ht). go. unfold signature_ok.
  destruct (secret_dec _ Hc) as [Hc'|Hc']; [|rewrite (not_secret _ Hc Hc'); exists false; split; [done|]; split; [done|by intros (? & _)] ].
  destruct (secret_dec _ Hr) as [Hr'|Hr']; [|rewrite (not_secret _ Hr Hr'), orb_true_r; exists false; split; [done|]; split; [done|by intros (_ & ? & _)] ].
  rewrite !sc_check_ok by done. cbn [negb orb]. run (ge_double_scalarmult_base_spec (sig_c sig) t P (sig_r sig) Hc Hr (secret_255 _ Hc') (secret_255 _ Hr') Ht). rewrite (ge_tobytes_spec _ _ Hh0). go.
  destruct (hash_to_scalar_spec (h ++ point_bytes P ++ point_bytes (gadd (zmul (value 256 (sig_c sig)) P) (zmul (value 256 (sig_r sig)) base)))) as [-> Hh']; [size|]. go.
  destruct (sub_zero _ _ Hh' Hc') as (r & -> & Er). go. rewrite Er. eexists. split; [reflexivity|]. rewrite bool_decide_eq_true. split; [intros E; split_and!; [exact Hc'|exact Hr'|symmetry; exact E]|intros (_ & _ & E); symmetry; exact E].
Qed.
Lemma generated_signature_ok h s k : secret s -> secret k -> let P := zmul (value 256 s) base in let c := Hs (h ++ point_bytes P ++ point_bytes (zmul (value 256 k) base)) in
  signature_ok h P {| sig_c := c; sig_r := response c s k |}.
Proof.
  intros H1 Hk P c. pose proof (Hs_secret (h ++ point_bytes P ++ point_bytes (zmul (value 256 k) base))) as Hc. split_and!; cbn [sig_c sig_r]; [exact Hc|by apply response_spec|].
  unfold P at 2. rewrite (point_bytes_proper _ _ (response_equation c s k base base_order)). reflexivity.
Qed.

(** * Proofs of a payment *)

Lemma with_point_spec P k : exists h, p3_is h P /\ with_point (point_bytes P) k = k h.
Proof. unfold with_point. destruct (frombytes_point P) as (h & -> & Hh). exists h. split; [done|]. by go. Qed.

Definition tx_proof_hash (m : list Z) (D X Y : point) : list Z := Hs (m ++ point_bytes D ++ point_bytes X ++ point_bytes Y).
Lemma generate_tx_proof_spec m r A R D state : length m = 32%nat -> secret r -> length state = 25%nat -> R ≡ zmul (value 256 r) base -> D ≡ zmul (value 256 r) A ->
  exists k state' c, secret k /\ length state' = 25%nat /\ c = tx_proof_hash m D (zmul (value 256 k) base) (zmul (value 256 k) A) /\
    generate_tx_proof m (point_bytes R) (point_bytes A) (point_bytes D) r state = Ok ({| sig_c := c; sig_r := response c r k |}, state').
Proof.
  intros Hm Hr Hst HR HD. destruct (random_scalar_spec state Hst) as (k & state' & E & Hk & Hl). destruct (hash_to_scalar_spec (m ++ point_bytes D ++ point_bytes (zmul (value 256 k) base) ++ point_bytes (zmul (value 256 k) A))) as [Eh Hc]; [size|].
  exists k, state', (tx_proof_hash m D (zmul (value 256 k) base) (zmul (value 256 k) A)). split; [done|]. split; [done|]. split; [reflexivity|]. unfold generate_tx_proof, tx_proof_hash.
  destruct (frombytes_point R) as (h1 & -> & _). go. destruct (frombytes_point A) as (h2 & -> & H2). go. destruct (frombytes_point D) as (h3 & -> & _). go.
  rewrite (massert_true (sc_check r =? 0)) by (by apply sc_check_ok). go. rewrite public_point_spec by done. go. rewrite (massert_true (bool_decide (point_bytes R = _))) by (apply bool_decide_eq_true, point_bytes_proper, HR). go.
  run (ge_scalarmult_spec r h2 A (secret_scalar _ Hr) (secret_255 _ Hr) H2). rewrite (ge_tobytes_spec _ _ Hh). go. rewrite (massert_true (bool_decide (point_bytes D = _))) by (apply bool_decide_eq_true, point_bytes_proper, HD). go.
  rewrite E. go. run (ge_scalarmult_base_spec k (secret_scalar _ Hk) (secret_255 _ Hk)). run (ge_scalarmult_spec k h2 A (secret_scalar _ Hk) (secret_255 _ Hk) H2). rewrite (ge_p3_tobytes_spec _ _ Hh0). go. rewrite (ge_tobytes_spec _ _ Hh4). go. rewrite Eh. go.
  revert Hc. generalize (Hs (m ++ point_bytes D ++ point_bytes (zmul (value 256 k) base) ++ point_bytes (zmul (value 256 k) A))). intros c Hc. rewrite (proj1 (response_spec c r k Hc Hr Hk)). by go.
Qed.

Definition tx_proof_ok (m : list Z) (R A D : point) (sig : Signature) : Prop :=
  secret (sig_c sig) /\ secret (sig_r sig) /\
  sig_c sig = tx_proof_hash m D (gadd (zmul (value 256 (sig_c sig)) R) (zmul (value 256 (sig_r sig)) base)) (gadd (zmul (value 256 (sig_c sig)) D) (zmul (value 256 (sig_r sig)) A)).
Lemma check_tx_proof_spec m R A D sig : length m = 32%nat -> scalar (sig_c sig) -> scalar (sig_r sig) ->
  exists b, check_tx_proof m (point_bytes R) (point_bytes A) (point_bytes D) sig = Ok b /\ (b = true <-> tx_proof_ok m R A D sig).
Proof.
  intros Hm Hc Hr. unfold check_tx_proof. match goal with |- context [with_point (point_bytes R) ?k] => destruct (with_point_spec R k) as (h1 & H1 & ->) end.
  match goal with |- context [with_point (point_bytes A) ?k] => destruct (with_point_spec A k) as (h2 & H2 & ->) end. match goal with |- context [with_point (point_bytes D) ?k] => destruct (with_point_spec D k) as (h3 & H3 & ->) end. unfold tx_proof_ok.
  destruct (secret_dec _ Hc) as [Hc'|Hc']; [|rewrite (not_secret _ Hc Hc'); exists false; split; [done|]; split; [done|by intros (? & _)] ].
  destruct (secret_dec _ Hr) as [Hr'|Hr']; [|rewrite (not_secret _ Hr Hr'), orb_true_r; exists false; split; [done|]; split; [done|by intros (_ & ? & _)] ].
  rewrite !sc_check_ok by done. cbn [negb orb]. pose proof (secret_255 _ Hc') as Bc. pose proof (secret_255 _ Hr') as Br.
  run (ge_scalarmult_spec _ h1 R Hc Bc H1). run (ge_scalarmult_base_spec _ Hr Br). run (ge_scalarmult_spec _ h3 D Hc Bc H3). run (ge_scalarmult_spec _ h2 A Hr Br H2). rewrite (ge_tobytes_spec _ _ Hh). go.
  match goal with |- context [with_point (point_bytes (zmul _ R)) ?k] => destruct (with_point_spec (zmul (value 256 (sig_c sig)) R) k) as (g1 & G1 & ->) end.
  run (ge_p3_to_moonbankd_spec _ _ Hh0). run (ge_add_spec _ _ _ _ G1 Hh6). run (ge_p1p1_to_p2_spec _ _ Hh7). rewrite (ge_tobytes_spec _ _ Hh4). go. rewrite (ge_tobytes_spec _ _ Hh5). go.
  match goal with |- context [with_point (point_bytes (zmul _ D)) ?k] => destruct (with_point_spec (zmul (value 256 (sig_c sig)) D) k) as (g2 & G2 & ->) end.
  match goal with |- context [with_point (point_bytes (zmul _ A)) ?k] => destruct (with_point_spec (zmul (value 256 (sig_r sig)) A) k) as (g3 & G3 & ->) end.
  run (ge_p3_to_moonbankd_spec _ _ G3). run (ge_add_spec _ _ _ _ G2 Hh9). run (ge_p1p1_to_p2_spec _ _ Hh10). rewrite (ge_tobytes_spec _ _ Hh8). go. rewrite (ge_tobytes_spec _ _ Hh11). go.
  match goal with |- context [hash_to_scalar ?d] => destruct (hash_to_scalar_spec d) as [-> Hh']; [size|] end. go. destruct (sub_zero _ _ Hh' Hc') as (r & -> & Er). go. rewrite Er. eexists. split; [reflexivity|]. rewrite bool_decide_eq_true.
  split; [intros E; split_and!; [exact Hc'|exact Hr'|symmetry; exact E]|intros (_ & _ & E); symmetry; exact E].
Qed.
Lemma generated_tx_proof_ok m r k A R D c : secret r -> secret k -> zmul order A ≡ gzero -> R ≡ zmul (value 256 r) base -> D ≡ zmul (value 256 r) A ->
  c = tx_proof_hash m D (zmul (value 256 k) base) (zmul (value 256 k) A) -> tx_proof_ok m R A D {| sig_c := c; sig_r := response c r k |}.
Proof.
  intros Hr Hk HA HR HD Ec. assert (Hc : secret c) by (rewrite Ec; apply Hs_secret). split_and!; cbn [sig_c sig_r]; [exact Hc|by apply response_spec|]. etransitivity; [exact Ec|]. clear Ec. unfold tx_proof_hash.
  assert (EX : point_bytes (gadd (zmul (value 256 c) R) (zmul (value 256 (response c r k)) base)) = point_bytes (zmul (value 256 k) base)) by (apply point_bytes_proper; rewrite HR; apply response_equation, base_order).
  assert (EY : point_bytes (gadd (zmul (value 256 c) D) (zmul (value 256 (response c r k)) A)) = point_bytes (zmul (value 256 k) A)) by (apply point_bytes_proper; rewrite HD; by apply response_equation).
  rewrite EX, EY. reflexivity.
Qed.

(** * Key images *)

(** The point of a key is eight times a point, so it is in the subgroup. *)
Lemma hash_to_ec_spec key : length key = 32%nat -> exists h Q, hash_to_ec key = Ok h /\ p3_is h Q /\ zmul order Q ≡ gzero.
Proof.
  intros Hk. unfold hash_to_ec. rewrite (cn_fast_hash_spec key) by (unfold zlen; lia). go. destruct (hash_bytes key) as [Hb Hl]. destruct (ge_fromfe_spec (take 32 (sponge key)) (conj Hb Hl)) as (h & -> & P & HP). go.
  run (ge_mul8_wide _ _ HP). destruct (ge_p1p1_to_p3_spec _ _ Hh0) as (h1 & E & H1). exists h1, (zmul 8 P). split_and!; [exact E|exact H1|]. rewrite <- zmul_mul, Z.mul_comm. apply cofactor.
Qed.
Lemma generate_key_image_spec key s : length key = 32%nat -> secret s -> exists h Q, hash_to_ec key = Ok h /\ p3_is h Q /\ zmul order Q ≡ gzero /\ generate_key_image key s = Ok (point_bytes (zmul (value 256 s) Q)).
Proof.
  intros Hkey H1. destruct (hash_to_ec_spec key Hkey) as (h & Q & E & Hh & HQ). exists h, Q. split_and!; [done|done|done|]. unfold generate_key_image. rewrite massert_true by (by apply sc_check_ok). go. rewrite E. go.
  run (ge_scalarmult_spec s h Q (secret_scalar _ H1) (secret_255 _ H1) Hh). by apply ge_tobytes_spec.
Qed.

(** * Rings *)

Section Ring.
Variables (I : point) (ip : list ge_moonbankd).
Hypothesis Hip : odd_multiples moonbankd_is ip I.

Definition canonical (sig : Signature) : Prop := secret (sig_c sig) /\ secret (sig_r sig).
(** The two points of a member with the key [P], whose hash is [Q]. *)
Definition member_bytes (P Q : point) (sig : Signature) : list Z :=
  point_bytes (gadd (zmul (value 256 (sig_c sig)) P) (zmul (value 256 (sig_r sig)) base)) ++ point_bytes (gadd (zmul (value 256 (sig_r sig)) Q) (zmul (value 256 (sig_c sig)) I)).
Lemma length_member_bytes P Q sig : length (member_bytes P Q sig) = 64%nat.
Proof. unfold member_bytes. by rewrite length_app, !length_point_bytes. Qed.
Lemma member_points_spec pub h t P Q sig : canonical sig -> p3_is t P -> hash_to_ec pub = Ok h -> p3_is h Q -> member_points ip pub t sig = Ok (member_bytes P Q sig).
Proof.
  intros [Hc Hr] Ht Eh Hh. unfold member_points. run (ge_double_scalarmult_base_spec _ t P _ (secret_scalar _ Hc) (secret_scalar _ Hr) (secret_255 _ Hc) (secret_255 _ Hr) Ht). rewrite (ge_tobytes_spec _ _ Hh0). go. rewrite Eh. go.
  run (ge_double_scalarmult_precomp_spec _ h Q _ ip I (secret_scalar _ Hr) (secret_scalar _ Hc) (secret_255 _ Hr) (secret_255 _ Hc) Hh Hip). rewrite (ge_tobytes_spec _ _ Hh1). by go.
Qed.
Lemma sum_spec a b : secret a -> secret b -> exists s, sc_add a b = Ok s /\ secret s /\ value 256 s mod order = (value 256 a + value 256 b) mod order.
Proof.
  intros Ha Hb. exists (encode (value 256 a + value 256 b)). split; [by apply sc_add_digits; auto|]. destruct (secret_encode (value 256 a + value 256 b)) as [Hs E]. split; [done|]. rewrite E. by apply Z.mod_mod.
Qed.

(** A round of the check. *)
Lemma check_round pub P Q h sum ab sig l : canonical sig -> pub = point_bytes P -> hash_to_ec pub = Ok h -> p3_is h Q -> secret sum ->
  exists sum', secret sum' /\ value 256 sum' mod order = (value 256 sum + value 256 (sig_c sig)) mod order /\
    check_rounds ip sum ab ((pub, sig) :: l) = check_rounds ip sum' (ab ++ member_bytes P Q sig) l.
Proof.
  intros Hsig Ep Eh Hh Hsum. destruct (sum_spec _ _ Hsum (proj1 Hsig)) as (sum' & Es & Hs' & Ev). exists sum'. split_and!; [done|done|]. cbn [check_rounds]. destruct Hsig as [Hc Hr]. rewrite !sc_check_ok by done. cbn [negb orb].
  subst pub. destruct (frombytes_point P) as (t & -> & Ht). go. rewrite (member_points_spec _ _ _ _ _ _ (conj Hc Hr) Ht Eh Hh). go. rewrite Es. by go.
Qed.

(** What a part of the ring without the signer adds: signatures, bytes and the sum of
    the challenges, which the check finds again. *)
Definition adds (pubs : list (list Z)) (sigs : list Signature) (ab : list Z) (total : Z) : Prop :=
  length sigs = length pubs /\ length ab = (64 * length pubs)%nat /\ Forall canonical sigs /\
  forall sum ab0 l, secret sum -> exists sum', secret sum' /\ value 256 sum' mod order = (value 256 sum + total) mod order /\ check_rounds ip sum ab0 (zip pubs sigs ++ l) = check_rounds ip sum' (ab0 ++ ab) l.

Definition at_point_key (pub : list Z) : Prop := exists P, pub = point_bytes P.
Lemma at_point_length pub : at_point_key pub -> length pub = 32%nat.
Proof. intros [P ->]. apply length_point_bytes. Qed.
Lemma ring_round_other sec s i pub : (i <> sec)%nat -> at_point_key pub -> secret (rs_sum s) -> length (rs_random s) = 25%nat ->
  exists sig ab s', ring_round ip sec s i pub = Ok s' /\ adds [pub] [sig] ab (value 256 (sig_c sig)) /\
    rs_ab s' = rs_ab s ++ ab /\ rs_sig s' = <[i := sig]> (rs_sig s) /\ rs_k s' = rs_k s /\ secret (rs_sum s') /\ length (rs_random s') = 25%nat /\
    value 256 (rs_sum s') mod order = (value 256 (rs_sum s) + value 256 (sig_c sig)) mod order.
Proof.
  intros Hi [P Ep] Hsum Hrnd. unfold ring_round. rewrite (proj2 (Nat.eqb_neq i sec) Hi). destruct (random_scalar_spec _ Hrnd) as (c & st1 & E1 & Hc & L1). destruct (random_scalar_spec _ L1) as (r & st2 & E2 & Hr & L2).
  destruct (hash_to_ec_spec pub (at_point_length pub (ex_intro _ P Ep))) as (h & Q & Eh & Hh & _). destruct (sum_spec _ _ Hsum Hc) as (sum' & Es & Hs' & Ev). set (sig := {| sig_c := c; sig_r := r |}). assert (Hsig : canonical sig) by (split; [exact Hc|exact Hr]).
  exists sig, (member_bytes P Q sig). eexists. split; [rewrite E1; go; rewrite E2; go; rewrite Ep at 1; destruct (frombytes_point P) as (t & -> & Ht); go; fold sig; rewrite (member_points_spec _ _ _ _ _ _ Hsig Ht Eh Hh); go; rewrite Es; go; reflexivity|].
  cbn [rs_ab rs_sig rs_k rs_sum rs_random]. split; [|split; [reflexivity|split; [reflexivity|split; [reflexivity|split; [exact Hs'|split; [exact L2|exact Ev] ] ] ] ] ].
  split; [reflexivity|]. split; [apply length_member_bytes|]. split; [constructor; [exact Hsig|constructor]|]. intros sum ab0 l Hsum0. cbn [zip zip_with app]. exact (check_round pub P Q h sum ab0 sig l Hsig Ep Eh Hh Hsum0).
Qed.

Lemma adds_nil : adds [] [] [] 0.
Proof. split; [reflexivity|]. split; [reflexivity|]. split; [constructor|]. intros sum ab0 l Hs. exists sum. split; [exact Hs|]. split; [by rewrite Z.add_0_r|]. by rewrite app_nil_r. Qed.
Lemma adds_app pubs1 pubs2 sigs1 sigs2 ab1 ab2 t1 t2 : adds pubs1 sigs1 ab1 t1 -> adds pubs2 sigs2 ab2 t2 -> adds (pubs1 ++ pubs2) (sigs1 ++ sigs2) (ab1 ++ ab2) (t1 + t2).
Proof.
  intros (L1 & B1 & C1 & A1) (L2 & B2 & C2 & A2). split; [rewrite !length_app; lia|]. split; [rewrite !length_app; lia|]. split; [apply Forall_app; by split|]. intros sum ab0 l Hs. rewrite zip_with_app by done. rewrite <- app_assoc.
  destruct (A1 sum ab0 (zip pubs2 sigs2 ++ l) Hs) as (sum1 & S1 & V1 & E1). destruct (A2 sum1 (ab0 ++ ab1) l S1) as (sum2 & S2 & V2 & E2). exists sum2. split; [exact S2|]. split.
  - rewrite V2, Zplus_mod, V1, <- Zplus_mod. f_equal. ring.
  - etransitivity; [exact E1|]. etransitivity; [exact E2|]. by rewrite app_assoc.
Qed.

Lemma ring_rounds_app sec s i l1 l2 : ring_rounds ip sec s i (l1 ++ l2) = (ring_rounds ip sec s i l1 ≫= fun s => ring_rounds ip sec s (i + length l1) l2).
Proof.
  revert s i. induction l1 as [|pub l1 IH]; intros s i; cbn [ring_rounds app length]; [rewrite bind_ok; by rewrite Nat.add_0_r|].
  destruct (ring_round ip sec s i pub) as [s1| | |]; [rewrite !bind_ok, IH; by rewrite Nat.add_succ_comm|reflexivity..].
Qed.

(** The state between rounds: the signatures so far, the sum and the random state. *)
Definition ring_ok (s : ring_state) : Prop := secret (rs_sum s) /\ length (rs_random s) = 25%nat.
Lemma ring_rounds_others sec pubs s i p q : (sec < i \/ i + length pubs <= sec)%nat -> Forall at_point_key pubs -> ring_ok s -> rs_sig s = p ++ q -> length p = i -> (length pubs <= length q)%nat ->
  exists sigs ab total s', ring_rounds ip sec s i pubs = Ok s' /\ adds pubs sigs ab total /\ rs_ab s' = rs_ab s ++ ab /\ rs_sig s' = p ++ sigs ++ drop (length pubs) q /\ rs_k s' = rs_k s /\ ring_ok s' /\
    value 256 (rs_sum s') mod order = (value 256 (rs_sum s) + total) mod order.
Proof.
  revert s i p q. induction pubs as [|pub pubs IH]; intros s i p q Hsec Hp [Hsum Hrnd] Es Hl Hq.
  { exists [], [], 0, s. cbn [ring_rounds length drop app]. rewrite app_nil_r, Z.add_0_r. split_and!; [reflexivity|apply adds_nil|reflexivity|exact Es|reflexivity|by split|reflexivity]. }
  inversion_clear Hp as [|? ? Hpub Hp']. cbn [length] in *. destruct q as [|q0 q]; [cbn [length] in Hq; lia|]. cbn [length] in Hq.
  destruct (ring_round_other sec s i pub ltac:(lia) Hpub Hsum Hrnd) as (sig & ab & s1 & E1 & A1 & Eab & Esig & Ek & Hsum1 & Hrnd1 & Ev).
  assert (Es1 : rs_sig s1 = (p ++ [sig]) ++ q) by (rewrite Esig, Es, <- Hl, insert_app_r_alt, Nat.sub_diag by lia; cbn [list_insert]; by rewrite <- app_assoc).
  destruct (IH s1 (S i) (p ++ [sig]) q ltac:(lia) Hp' (conj Hsum1 Hrnd1) Es1 ltac:(rewrite length_app; cbn [length]; lia) ltac:(lia)) as (sigs & ab' & total & s2 & E2 & A2 & Eab2 & Esig2 & Ek2 & Hok2 & Ev2).
  exists (sig :: sigs), (ab ++ ab'), (value 256 (sig_c sig) + total), s2. split_and!.
  - cbn [ring_rounds]. rewrite E1. by go.
  - exact (adds_app _ _ _ _ _ _ _ _ A1 A2).
  - rewrite Eab2, Eab. by rewrite app_assoc.
  - rewrite Esig2. cbn [drop]. by rewrite <- app_assoc.
  - by rewrite Ek2.
  - exact Hok2.
  - rewrite Ev2, Zplus_mod, Ev, <- Zplus_mod. f_equal. ring.
Qed.
Lemma ring_round_signer s i pub h Q : hash_to_ec pub = Ok h -> p3_is h Q -> ring_ok s -> exists k s', ring_round ip i s i pub = Ok s' /\ secret k /\ rs_k s' = Some k /\ ring_ok s' /\
  rs_ab s' = rs_ab s ++ point_bytes (zmul (value 256 k) base) ++ point_bytes (zmul (value 256 k) Q) /\ rs_sig s' = rs_sig s /\ rs_sum s' = rs_sum s.
Proof.
  intros Eh Hh [Hsum Hrnd]. unfold ring_round. rewrite Nat.eqb_refl. destruct (random_scalar_spec _ Hrnd) as (k & st & E & Hk & L). exists k. eexists. split.
  { rewrite E. go. rewrite public_point_spec by done. go. rewrite Eh. go. run (ge_scalarmult_spec k h Q (secret_scalar _ Hk) (secret_255 _ Hk) Hh). rewrite (ge_tobytes_spec _ _ Hh0). go. reflexivity. }
  cbn [rs_ab rs_sig rs_k rs_sum rs_random]. split_and!; [exact Hk|reflexivity|split; [exact Hsum|exact L]|reflexivity|reflexivity|reflexivity].
Qed.
End Ring.

Lemma check_keys_spec pubs : Forall at_point_key pubs -> check_keys pubs = Ok tt.
Proof. induction 1 as [|pub pubs [P ->] _ IH]; [done|]. cbn [check_keys]. rewrite check_key_point. go. rewrite massert_true by done. by go. Qed.
Lemma debug_ok m : m = Ok tt -> debug m = Ok tt.
Proof. intros ->. unfold debug. by destruct NDEBUG. Qed.
Lemma signer_bytes c s k P Q I : P ≡ zmul (value 256 s) base -> I ≡ zmul (value 256 s) Q -> zmul order Q ≡ gzero ->
  member_bytes I P Q {| sig_c := c; sig_r := response c s k |} = point_bytes (zmul (value 256 k) base) ++ point_bytes (zmul (value 256 k) Q).
Proof.
  intros HP HI HQ. unfold member_bytes. cbn [sig_c sig_r].
  assert (E1 : point_bytes (gadd (zmul (value 256 c) P) (zmul (value 256 (response c s k)) base)) = point_bytes (zmul (value 256 k) base)) by (apply point_bytes_proper; rewrite HP; apply response_equation, base_order).
  assert (E2 : point_bytes (gadd (zmul (value 256 (response c s k)) Q) (zmul (value 256 c) I)) = point_bytes (zmul (value 256 k) Q)) by (apply point_bytes_proper; rewrite HI, gadd_comm; by apply response_equation).
  by rewrite E1, E2.
Qed.

Lemma mod_order_elim a b : a mod order = b mod order -> exists q, a = b + q * order.
Proof. intros E. exists (a / order - b / order). pose proof (Z.div_mod a order ltac:(done)). pose proof (Z.div_mod b order ltac:(done)). lia. Qed.
Lemma mod_order_intro a b q : a = b + q * order -> a mod order = b mod order.
Proof. intros ->. by apply Z.mod_add. Qed.

(** The rounds of a whole ring, and the check of the signatures with the signer's. *)
Section Signer.
Variables (m image s pub : list Z) (pre post : list (list Z)) (sig : list Signature) (state : list Z).
Variables (h : ge_p3) (Q : point) (ip : list ge_moonbankd).
Let P := zmul (value 256 s) base.
Let I := zmul (value 256 s) Q.
Let pubs := pre ++ pub :: post.
Hypothesis Hs : secret s.
Hypothesis Epub : pub = point_bytes P.
Hypothesis Eh : hash_to_ec pub = Ok h.
Hypothesis Hh : p3_is h Q.
Hypothesis HQ : zmul order Q ≡ gzero.
Hypothesis Hip : odd_multiples moonbankd_is ip I.
Hypothesis Hpre : Forall at_point_key pre.
Hypothesis Hpost : Forall at_point_key post.
Hypothesis Hsig : length sig = length pubs.

Lemma whole_ring s0 : ring_ok s0 -> rs_sig s0 = sig -> rs_ab s0 = [] -> exists k s3, ring_rounds ip (length pre) s0 0 pubs = Ok s3 /\ secret k /\ rs_k s3 = Some k /\ ring_ok s3 /\ length (rs_sig s3) = length pubs /\ length (rs_ab s3) = (64 * length pubs)%nat /\
  forall c, secret c -> Forall canonical (<[length pre := {| sig_c := c; sig_r := response c s k |}]> (rs_sig s3)) /\
    exists sum, check_rounds ip sc_0 [] (zip pubs (<[length pre := {| sig_c := c; sig_r := response c s k |}]> (rs_sig s3))) = Ok (Some (sum, rs_ab s3)) /\ secret sum /\
    value 256 sum mod order = (value 256 (rs_sum s3) - value 256 (rs_sum s0) + value 256 c) mod order.
Proof.
  intros Hok0 Esig0 Eab0. unfold pubs in *. rewrite length_app in Hsig. cbn [length] in Hsig.
  destruct (ring_rounds_others I ip Hip (length pre) pre s0 0 [] sig ltac:(lia) Hpre Hok0 Esig0 eq_refl ltac:(lia)) as (sigs1 & ab1 & t1 & s1 & E1 & A1 & Eab1 & Es1 & Ek1 & Hok1 & Ev1).
  destruct (ring_round_signer ip s1 (length pre) pub h Q Eh Hh Hok1) as (k & s2 & E2 & Hk & Ek2 & Hok2 & Eab2 & Es2 & Esum2). exists k.
  destruct (drop (length pre) sig) as [|q0 q] eqn:Eq; [apply (f_equal length) in Eq; rewrite length_drop in Eq; cbn [length] in Eq; lia|]. assert (Lq : length q = length post) by (apply (f_equal length) in Eq; rewrite length_drop in Eq; cbn [length] in Eq; lia).
  destruct A1 as (L1 & A1). assert (Es2' : rs_sig s2 = (sigs1 ++ [q0]) ++ q) by (rewrite Es2, Es1; cbn [app]; by rewrite <- app_assoc).
  destruct (ring_rounds_others I ip Hip (length pre) post s2 (S (length pre)) (sigs1 ++ [q0]) q ltac:(lia) Hpost Hok2 Es2' ltac:(rewrite length_app; cbn [length]; lia) ltac:(lia)) as (sigs2 & ab2 & t2 & s3 & E3 & A2 & Eab3 & Es3 & Ek3 & Hok3 & Ev3).
  exists s3. rewrite drop_ge, app_nil_r in Es3 by lia. assert (L2 : length sigs2 = length post) by apply A2. split.
  { rewrite ring_rounds_app, E1. go. cbn [ring_rounds]. rewrite Nat.add_0_l, E2. by go. }
  split; [exact Hk|]. split; [by rewrite Ek3|]. split; [exact Hok3|]. split; [rewrite Es3, !length_app; cbn [length]; lia|].
  split; [rewrite Eab3, Eab2, Eab1, Eab0, !length_app, !length_point_bytes, (proj1 A1), (proj1 (proj2 A2)); cbn [length]; lia|]. intros c Hc. set (final := {| sig_c := c; sig_r := response c s k |}).
  assert (Cf : canonical final) by (split; [exact Hc|apply response_spec; assumption]).
  assert (Ef : <[length pre := final]> (rs_sig s3) = sigs1 ++ final :: sigs2) by (rewrite Es3, <- app_assoc, <- L1, insert_app_r_alt, Nat.sub_diag by lia; done). rewrite Ef.
  split; [apply Forall_app; split; [apply (proj1 (proj2 A1))|constructor; [exact Cf|apply (proj1 (proj2 (proj2 A2)))] ]|]. rewrite zip_with_app by done. cbn [zip zip_with].
  destruct (proj2 (proj2 A1) sc_0 [] ((pub, final) :: zip post sigs2)) as (u1 & U1 & V1 & W1); [split; [split; [apply Forall_replicate; unfold is_u8; lia|reflexivity]|vm_compute; reflexivity]|].
  destruct (check_round I ip Hip pub P Q h u1 ([] ++ ab1) final (zip post sigs2) Cf Epub Eh Hh U1) as (u2 & U2 & V2 & W2).
  destruct (proj2 (proj2 (proj2 A2)) u2 (([] ++ ab1) ++ member_bytes I P Q final) [] U2) as (u3 & U3 & V3 & W3). rewrite app_nil_r in W3. exists u3. split; [|split; [exact U3|] ].
  - etransitivity; [exact W1|]. etransitivity; [exact W2|]. etransitivity; [exact W3|]. cbn [check_rounds]. rewrite Eab3, Eab2, Eab1, Eab0. unfold final. rewrite (signer_bytes c s k P Q I) by (reflexivity || exact HQ). by rewrite !app_assoc.
  - unfold final in V2. cbn [sig_c] in V2. change (value 256 sc_0) with 0 in V1. rewrite Esum2 in Ev3. apply mod_order_elim in V1 as [q1 V1], V2 as [q2 V2], V3 as [q3 V3], Ev1 as [q4 Ev1], Ev3 as [q5 Ev3].
    apply (mod_order_intro _ _ (q1 + q2 + q3 - q4 - q5)). lia.
Qed.
End Signer.

Lemma has_signatures_ok sig n : (n <= length sig)%nat -> has_signatures sig n = Ok tt.
Proof. intros Hn. unfold has_signatures. by rewrite (proj2 (Nat.leb_le _ _) Hn). Qed.
Lemma debug_ring s i pub pubs image : secret s -> pubs !! i = Some pub -> pub = point_bytes (zmul (value 256 s) base) -> generate_key_image pub s = Ok image -> Forall at_point_key pubs ->
  debug (_ ← massert (sc_check s =? 0); t2 ← public_point s; pub ← match pubs !! i with Some pub => Ok pub | None => Undefined end; _ ← massert (bool_decide (pub = t2));
    t3 ← generate_key_image pub s; _ ← massert (bool_decide (image = t3)); check_keys pubs) = Ok tt.
Proof.
  intros Hsec Hi Epub Eimg Hpubs. apply debug_ok. rewrite (massert_true (sc_check s =? 0)) by (by apply sc_check_ok). go. rewrite public_point_spec by done. go. rewrite Hi. go. rewrite (massert_true (bool_decide (pub = _))) by (by apply bool_decide_eq_true). go.
  rewrite Eimg. go. rewrite (massert_true (bool_decide (image = image))) by (by apply bool_decide_eq_true). go. by apply check_keys_spec.
Qed.
Lemma sc_0_secret : secret sc_0.
Proof. split; [split; [apply Forall_replicate; unfold is_u8; lia|reflexivity]|vm_compute; reflexivity]. Qed.

Lemma generate_ring_signature_spec m image s pub pubs i sig state : length m = 32%nat -> zlen pubs < 2 ^ 24 -> secret s -> length state = 25%nat -> length sig = length pubs -> Forall at_point_key pubs ->
  pubs !! i = Some pub -> pub = point_bytes (zmul (value 256 s) base) -> generate_key_image pub s = Ok image ->
  exists sigs state', generate_ring_signature m image pubs s i sig state = Ok (sigs, state') /\ length sigs = length pubs /\ length state' = 25%nat /\ Forall canonical sigs /\ check_ring_signature m image pubs sigs = Ok true.
Proof.
  intros Hm Hring Hsec Hst Hlen Hpubs Hi Epub Eimg. destruct (generate_key_image_spec pub s ltac:(rewrite Epub; apply length_point_bytes) Hsec) as (h & Q & Eh & Hh & HQ & Ek). pose proof Eimg as Eimg'. rewrite Ek in Eimg'. injection Eimg' as Eimage.
  destruct (list_elem_of_split_length pubs i pub Hi) as (pre & post & Epubs & Ei).
  assert (Hpp : Forall at_point_key pre /\ Forall at_point_key post) by (rewrite Epubs in Hpubs; apply Forall_app in Hpubs as [? Hp]; inversion_clear Hp; by split). destruct Hpp as [Hpre Hpost].
  destruct (frombytes_point (zmul (value 256 s) Q)) as (u & Eu & Hu). rewrite Eimage in Eu. destruct (ge_dsm_precomp_spec u _ Hu) as (ip & Eip & Hip).
  set (s0 := {| rs_sum := sc_0; rs_ab := []; rs_sig := sig; rs_k := None; rs_random := state |}). assert (Hok0 : ring_ok s0) by (split; [apply sc_0_secret|exact Hst]).
  destruct (whole_ring s pub pre post sig h Q ip Hsec Epub Eh Hh HQ Hip Hpre Hpost ltac:(by rewrite <- Epubs) s0 Hok0 eq_refl eq_refl) as (k & s3 & E3 & Hk & Ek3 & [Hsum3 Hst3] & Hl3 & Hab3 & Hcheck). rewrite <- Epubs, <- Ei in *.
  destruct (hash_to_scalar_spec (m ++ rs_ab s3)) as [Ehs Hc]; [unfold zlen in *; rewrite length_app; lia|]. set (hc := Hs (m ++ rs_ab s3)) in *. clearbody hc. set (c := encode (value 256 hc - value 256 (rs_sum s3))). destruct (secret_encode (value 256 hc - value 256 (rs_sum s3))) as [Sc Vc]. fold c in Sc, Vc.
  destruct (Hcheck c Sc) as (Hcan & sum & Erounds & Hsum & Vsum). exists (<[i := {| sig_c := c; sig_r := response c s k |}]> (rs_sig s3)), (rs_random s3). split; [|split; [by rewrite length_insert|split; [exact Hst3|split; [exact Hcan|] ] ] ].
  - unfold generate_ring_signature. rewrite (massert_true (i <? length pubs)%nat) by (apply Nat.ltb_lt; by eapply lookup_lt_Some). go. rewrite (debug_ring s i pub pubs image Hsec Hi Epub Eimg Hpubs). go. rewrite has_signatures_ok by lia. go. rewrite Eu. go. rewrite Eip. go. fold s0. rewrite E3. go. rewrite Ehs. go. rewrite Ek3.
    rewrite sc_sub_digits by (by apply secret_scalar). go. fold c. rewrite (proj1 (response_spec c s k Sc Hsec Hk)). by go.
  - unfold check_ring_signature. rewrite (debug_ok _ (check_keys_spec pubs Hpubs)). go. rewrite has_signatures_ok by (rewrite length_insert; lia). go. rewrite Eu. go. rewrite Eip. go. destruct (ge_check_subgroup_spec ip _ Hip) as (b & -> & Hb). go. rewrite (proj2 Hb) by (by apply zmul_order). cbn [Z.eqb negb]. rewrite Erounds. go. rewrite Ehs. go.
    destruct (sub_zero hc sum Hc Hsum) as (z & -> & Ez). go. rewrite Ez. f_equal. apply bool_decide_eq_true. apply secret_eq; [exact Hc|exact Hsum|]. rewrite Vsum. cbn [s0 rs_sum]. change (value 256 sc_0) with 0. rewrite Vc.
    rewrite Z.sub_0_r, Zplus_mod, Z.mod_mod, <- Zplus_mod by done. f_equal. ring.
Qed.

(** * The check of a ring signature *)

Lemma ok_inj {X} (x y : X) : Ok x = Ok y -> x = y.
Proof. by injection 1. Qed.
Lemma some_inj (x y : list Z) : Some x = Some y -> x = y.
Proof. by injection 1. Qed.
Lemma p3_is_unique h P Q : p3_is h P -> p3_is h Q -> P ≡ Q.
Proof. intros HP HQ. apply point_bytes_inj. pose proof (ge_p3_tobytes_spec h P HP) as E. rewrite (ge_p3_tobytes_spec h Q HQ) in E. symmetry. apply ok_inj. exact E. Qed.
Lemma member_bytes_proper I P P' Q Q' sig : P ≡ P' -> Q ≡ Q' -> member_bytes I P Q sig = member_bytes I P' Q' sig.
Proof. intros HP HQ. unfold member_bytes. apply (f_equal2 app); apply point_bytes_proper; [rewrite HP|rewrite HQ]; reflexivity. Qed.

(** The bytes the members of a ring contribute to the hash, for the key image [I]. *)
Inductive ring_points (I : point) : list (list Z * Signature) -> list Z -> Prop :=
| ring_nil : ring_points I [] []
| ring_cons pub P Q h sig l ab : pub = point_bytes P -> hash_to_ec pub = Ok h -> p3_is h Q -> ring_points I l ab -> ring_points I ((pub, sig) :: l) (member_bytes I P Q sig ++ ab).
Lemma ring_points_length I l ab : ring_points I l ab -> length ab = (64 * length l)%nat.
Proof. induction 1 as [|pub P Q h sig l ab Ep Eh Hh R IH]; [done|]. rewrite length_app, length_member_bytes, IH. cbn [length]. lia. Qed.
Lemma ring_points_unique I l ab ab' : ring_points I l ab -> ring_points I l ab' -> ab = ab'.
Proof.
  intros R. revert ab'. induction R as [|pub P Q h sig l ab Ep Eh Hh R IH]; intros ab' R'; [by inversion R'|].
  inversion R' as [|pub' P' Q' h' sig' l' ab'' Ep' Eh' Hh' R'' E1 E2]. rewrite (IH _ R''). apply (f_equal2 app); [|reflexivity].
  rewrite Eh in Eh'. injection Eh' as Eh'. rewrite <- Eh' in Hh'. apply member_bytes_proper; [apply point_bytes_inj; rewrite <- Ep; exact Ep'|exact (p3_is_unique h Q Q' Hh Hh')].
Qed.
Lemma ring_points_image I J l ab : J ≡ I -> ring_points J l ab -> ring_points I l ab.
Proof.
  intros E. induction 1 as [|pub P Q h sig l ab Ep Eh Hh R IH]; [constructor|]. assert (Em : member_bytes J P Q sig = member_bytes I P Q sig) by (unfold member_bytes; apply (f_equal2 app); [reflexivity|apply point_bytes_proper; rewrite E; reflexivity]).
  rewrite Em. exact (ring_cons I pub P Q h sig l ab Ep Eh Hh IH).
Qed.
Definition challenges (l : list (list Z * Signature)) : Z := foldr (fun q v => value 256 (sig_c q.2) + v) 0 l.

Lemma canonical_dec sig : scalar (sig_c sig) -> scalar (sig_r sig) -> canonical sig \/ ~ canonical sig /\ negb (sc_check (sig_c sig) =? 0) || negb (sc_check (sig_r sig) =? 0) = true.
Proof.
  intros Hc Hr. destruct (secret_dec _ Hc) as [Hc'|Hc']; [|right; split; [by intros [? _]|by rewrite (not_secret _ Hc Hc')] ].
  destruct (secret_dec _ Hr) as [Hr'|Hr']; [by left|right]. split; [by intros [_ ?]|by rewrite (not_secret _ Hr Hr'), orb_true_r].
Qed.
Definition byte_sizes (q : list Z * Signature) : Prop := at_point_key q.1 /\ scalar (sig_c q.2) /\ scalar (sig_r q.2).
Lemma check_rounds_spec I ip l sum ab0 : odd_multiples moonbankd_is ip I -> Forall byte_sizes l -> secret sum ->
  exists r, check_rounds ip sum ab0 l = Ok r /\
    match r with
    | Some (sum', ab') => Forall (fun q => canonical q.2) l /\ secret sum' /\ value 256 sum' mod order = (value 256 sum + challenges l) mod order /\ exists ab, ring_points I l ab /\ ab' = ab0 ++ ab
    | None => ~ Forall (fun q => canonical q.2) l
    end.
Proof.
  intros Hip Hl. revert sum ab0. induction Hl as [|[pub sig] l [ [P Ep] [Hc Hr] ] Hl IH]; intros sum ab0 Hsum; cbn [fst snd] in *.
  - exists (Some (sum, ab0)). split; [reflexivity|]. split; [constructor|]. split; [exact Hsum|]. split; [cbn [challenges foldr]; by rewrite Z.add_0_r|]. exists []. split; [constructor|by rewrite app_nil_r].
  - destruct (canonical_dec sig Hc Hr) as [C|[C E] ]; [|exists None; split; [cbn [check_rounds]; by rewrite E|intros F; by inversion F] ].
    destruct (hash_to_ec_spec pub (at_point_length pub (ex_intro _ P Ep))) as (h & Q & Eh & Hh & _). destruct (check_round I ip Hip pub P Q h sum ab0 sig l C Ep Eh Hh Hsum) as (sum1 & S1 & V1 & ->).
    destruct (IH sum1 (ab0 ++ member_bytes I P Q sig) S1) as (r & -> & Hr'). exists r. split; [reflexivity|]. destruct r as [ [sum' ab']|]; [|intros F; by inversion F].
    destruct Hr' as (Hcan & S' & V' & ab & R & ->). split; [by constructor|]. split; [exact S'|]. split; [|exists (member_bytes I P Q sig ++ ab); split; [exact (ring_cons I pub P Q h sig l ab Ep Eh Hh R)|by rewrite app_assoc] ].
    cbn [challenges foldr snd]. fold (challenges l). apply mod_order_elim in V1 as [q1 V1], V' as [q2 V2]. apply (mod_order_intro _ _ (q1 + q2)). lia.
Qed.

(** What a ring signature has to satisfy: the key image is a point of the subgroup,
    all scalars are canonical, and the challenges add up to the hash. *)
Definition ring_signature_ok (m image : list Z) (pubs : list (list Z)) (sigs : list Signature) : Prop :=
  exists I ab, image = point_bytes I /\ zmul order I ≡ gzero /\ Forall (fun q => canonical q.2) (zip pubs sigs) /\ ring_points I (zip pubs sigs) ab /\
    challenges (zip pubs sigs) mod order = value 256 (Hs (m ++ ab)).
Lemma byte_sizes_zip pubs sigs : Forall at_point_key pubs -> Forall (fun sig => scalar (sig_c sig) /\ scalar (sig_r sig)) sigs -> Forall byte_sizes (zip pubs sigs).
Proof.
  intros Hp. revert sigs. induction Hp as [|pub pubs P1 Hp IH]; intros sigs Hs; [constructor|]. destruct Hs as [|sig sigs S1 Hs]; [constructor|]. cbn [zip zip_with]. constructor; [split; [exact P1|exact S1]|by apply IH].
Qed.
Lemma check_ring_signature_spec m image pubs sigs : length m = 32%nat -> length sigs = length pubs -> zlen pubs < 2 ^ 24 -> scalar image -> Forall at_point_key pubs -> Forall (fun sig => scalar (sig_c sig) /\ scalar (sig_r sig)) sigs ->
  exists b, check_ring_signature m image pubs sigs = Ok b /\ (b = true <-> ring_signature_ok m image pubs sigs).
Proof.
  intros Hm Hlen Hring Himg Hp Hsig. unfold check_ring_signature. rewrite (debug_ok _ (check_keys_spec pubs Hp)). go. rewrite has_signatures_ok by lia. go. destruct (ge_frombytes_spec image Himg) as (o & -> & Ho). go.
  destruct o as [u|]; [|exists false; split; [reflexivity|]; split; [done|]; intros (I & ab & E & _); by destruct (Ho I)]. destruct Ho as (I & Hu & EI).
  destruct (ge_dsm_precomp_spec u I Hu) as (ip & -> & Hip). go. destruct (ge_check_subgroup_spec ip I Hip) as (b & -> & Hb). go.
  assert (Huniq : forall J, image = point_bytes J -> J ≡ I) by (intros J E; apply point_bytes_inj; by rewrite <- E, EI).
  destruct (Z.eqb_spec b 0) as [Eb|Eb]; cbn [negb]; [|exists false; split; [reflexivity|]; split; [done|]; intros (J & ab & E & HJ & _); exfalso; apply Eb, Hb; by rewrite <- (Huniq J E)].
  destruct (check_rounds_spec I ip (zip pubs sigs) sc_0 [] Hip (byte_sizes_zip _ _ Hp Hsig) sc_0_secret) as (r & -> & Hr). go.
  destruct r as [ [sum ab]|]; [|exists false; split; [reflexivity|]; split; [done|]; intros (J & ab & _ & _ & F & _); by destruct (Hr F)]. destruct Hr as (Hcan & Hsum & Vsum & ab' & R & Eab). cbn [app] in Eab. subst ab'.
  destruct (hash_to_scalar_spec (m ++ ab)) as [-> Hc]; [pose proof (ring_points_length _ _ _ R) as Hl; rewrite length_zip_with in Hl; unfold zlen in *; rewrite length_app; lia|]. go. destruct (sub_zero _ _ Hc Hsum) as (z & -> & Ez). go. rewrite Ez. eexists. split; [reflexivity|]. rewrite bool_decide_eq_true. change (value 256 sc_0) with 0 in Vsum. rewrite Z.add_0_l in Vsum. split.
  - intros E. exists I, ab. split; [by symmetry|]. split; [by apply Hb|]. split; [exact Hcan|]. split; [exact R|]. rewrite <- Vsum, E. apply Z.mod_small, secret_bound, Hsum.
  - intros (J & ab' & EJ & _ & _ & RJ & Es). assert (E : ab' = ab) by (eapply (ring_points_unique I); [|exact R]; eapply ring_points_image; [by apply Huniq|exact RJ]). subst ab'.
    apply secret_eq; [exact Hc|exact Hsum|]. rewrite Vsum, <- Es. apply Z.mod_mod. done.
Qed.

Lemma secret_key_to_public_key_spec s : secret s -> secret_key_to_public_key s = Ok (Some (point_bytes (zmul (value 256 s) base))).
Proof. intros H1. unfold secret_key_to_public_key. rewrite sc_check_ok by exact H1. cbn [negb]. rewrite public_point_spec by exact H1. by go. Qed.
Lemma scalarmultKey_spec P s : secret s -> scalarmultKey (point_bytes P) s = Ok (point_bytes (zmul (value 256 s) P)).
Proof.
  intros H1. unfold scalarmultKey. destruct (frombytes_point P) as (h & -> & Hh). go. run (ge_scalarmult_spec s h P (secret_scalar _ H1) (secret_255 _ H1) Hh). by apply ge_tobytes_spec.
Qed.
Lemma check_key_at_point pub : scalar pub -> check_key pub = Ok true -> at_point_key pub.
Proof.
  intros H1. unfold check_key. destruct (ge_frombytes_spec pub H1) as (o & -> & Ho). go. destruct o as [h|]; [|by intros F]. intros _. destruct Ho as (P & _ & E). exists P. by symmetry.
Qed.
Lemma underive_public_key_spec D i P suffix : derivable D i suffix ->
  underive_public_key D i (point_bytes P) suffix = Ok (Some (point_bytes (gadd P (gneg (zmul (value 256 (derivation_scalar D i suffix)) base))))).
Proof. intros Hi. unfold underive_public_key. rewrite (underive_spec D i P suffix Hi). by go. Qed.

(** The two ends of a one-time address. *)
Lemma derivations_agree a r : secret a -> secret r ->
  generate_key_derivation (point_bytes (zmul (value 256 r) base)) a = generate_key_derivation (point_bytes (zmul (value 256 a) base)) r.
Proof.
  intros Ha Hr. rewrite !generate_key_derivation_spec by assumption. apply (f_equal (fun x => Ok (Some x))), point_bytes_proper. rewrite <- !zmul_mul.
  replace (8 * value 256 a * value 256 r) with (8 * value 256 r * value 256 a) by ring. reflexivity.
Qed.
Lemma derived_key b x : zmul (value 256 (encode (b + x))) base ≡ gadd (zmul b base) (zmul x base).
Proof. rewrite (proj2 (secret_encode _)), zmul_mod by apply base_order. apply zmul_add. Qed.
Lemma underived B X : gadd (gadd B X) (gneg X) ≡ B.
Proof. by rewrite <- gadd_assoc, gadd_neg_r, gadd_0_r. Qed.

(** * Claims *)

(** C12.  One-time addresses: for secret keys a, b of the receiver and r of the
    sender, the sender's derivation from r and the receiver's public view key and the
    receiver's from a and the transaction's public key are the same bytes; the
    key derived from it and the public spend key is the public key of the secret
    key the receiver derives; and underiving it gives the public spend key back, by
    which the receiver recognises the output.  No step fails, asserts or overflows. *)
Theorem one_time_address_agreement a b r i suffix : secret a -> secret b -> secret r -> valid_index i suffix ->
  exists (A B R D P x : list Z), secret_key_to_public_key a = Ok (Some A) /\ secret_key_to_public_key b = Ok (Some B) /\ secret_key_to_public_key r = Ok (Some R) /\
    generate_key_derivation A r = Ok (Some D) /\ generate_key_derivation R a = Ok (Some D) /\
    derive_public_key D i B suffix = Ok (Some P) /\ derive_secret_key D i b suffix = Ok x /\ secret_key_to_public_key x = Ok (Some P) /\
    underive_public_key D i P suffix = Ok (Some B).
Proof.
  intros Ha Hb Hr Hi. rewrite !secret_key_to_public_key_spec by assumption. do 3 eexists. set (D := point_bytes (zmul (8 * value 256 r) (zmul (value 256 a) base))). exists D.
  assert (HD : derivable D i suffix) by (split; [apply length_point_bytes|exact Hi]).
  eexists _, (encode (value 256 b + value 256 (derivation_scalar D i suffix))). split; [reflexivity|]. split; [reflexivity|]. split; [reflexivity|].
  split; [by apply generate_key_derivation_spec|]. split; [rewrite derivations_agree by assumption; by apply generate_key_derivation_spec|]. split; [by apply derive_public_key_spec|]. split; [by apply derive_secret_key_spec|]. split.
  - rewrite secret_key_to_public_key_spec by apply secret_encode. apply (f_equal (fun x => Ok (Some x))), point_bytes_proper, derived_key.
  - rewrite underive_public_key_spec by assumption. apply (f_equal (fun x => Ok (Some x))), point_bytes_proper, underived.
Qed.

(** Signatures: with the public key of a secret key, [generate_signature]
    returns for every 32-byte message hash and every state of the random generator, and
    [check_signature] accepts the result; and on a key that is a point and any two
    32-byte scalars, [check_signature] decides exactly the verification equation over
    the curve, refusing scalars that are not below the order. *)
Theorem signatures_verify h s state P sig : length h = 32%nat -> secret s -> length state = 25%nat -> scalar (sig_c sig) -> scalar (sig_r sig) ->
  (exists pub sig state', secret_key_to_public_key s = Ok (Some pub) /\ generate_signature h pub s state = Ok (sig, state') /\ length state' = 25%nat /\ check_signature h pub sig = Ok true) /\
  (exists b, check_signature h (point_bytes P) sig = Ok b /\ (b = true <-> signature_ok h P sig)).
Proof.
  intros Hm Hsec Hst Hc Hr. split; [|by apply check_signature_spec]. destruct (generate_signature_spec h s _ state Hm Hsec Hst eq_refl) as (k & state' & c & Hk & Hl & Ec & E).
  eexists _, _, state'. split; [by apply secret_key_to_public_key_spec|]. split; [exact E|]. split; [exact Hl|]. pose proof (generated_signature_ok h s k Hsec Hk) as Hok. cbn zeta in Hok. rewrite <- Ec in Hok.
  destruct (check_signature_spec h (zmul (value 256 s) base) {| sig_c := c; sig_r := response c s k |} Hm) as (b & -> & Hb); [apply Hok..|]. by rewrite (proj2 Hb Hok).
Qed.

(** Transaction proofs: for the public keys A of a and R of r and the shared
    point D that [scalarmultKey] computes from A and r, the proof
    [generate_tx_proof] makes with r is accepted by [check_tx_proof], for every
    message and every state of the random generator; and on points, [check_tx_proof]
    decides exactly the pair of verification equations. *)
Theorem tx_proofs_verify m a r state (R A D : point) sig : length m = 32%nat -> secret a -> secret r -> length state = 25%nat -> scalar (sig_c sig) -> scalar (sig_r sig) ->
  (exists (A R D : list Z) sig state', secret_key_to_public_key a = Ok (Some A) /\ secret_key_to_public_key r = Ok (Some R) /\ scalarmultKey A r = Ok D /\
    generate_tx_proof m R A D r state = Ok (sig, state') /\ length state' = 25%nat /\ check_tx_proof m R A D sig = Ok true) /\
  (exists b, check_tx_proof m (point_bytes R) (point_bytes A) (point_bytes D) sig = Ok b /\ (b = true <-> tx_proof_ok m R A D sig)).
Proof.
  intros Hm Ha Hr Hst Hc Hr'. split; [|by apply check_tx_proof_spec]. set (A0 := zmul (value 256 a) base). assert (HA : zmul order A0 ≡ gzero) by (apply zmul_order, base_order).
  destruct (generate_tx_proof_spec m r A0 (zmul (value 256 r) base) (zmul (value 256 r) A0) state Hm Hr Hst) as (k & state' & c & Hk & Hl & Ec & E); [reflexivity..|].
  pose proof (generated_tx_proof_ok m r k A0 _ _ c Hr Hk HA (reflexivity _) (reflexivity _) Ec) as Hok.
  eexists _, _, _, _, state'. split; [by apply secret_key_to_public_key_spec|]. split; [by apply secret_key_to_public_key_spec|]. split; [by apply scalarmultKey_spec|]. split; [exact E|]. split; [exact Hl|].
  destruct (check_tx_proof_spec m (zmul (value 256 r) base) A0 (zmul (value 256 r) A0) {| sig_c := c; sig_r := response c r k |} Hm) as (b & Eb & Hb); [apply Hok..|]. etransitivity; [exact Eb|]. by rewrite (proj2 Hb Hok).
Qed.

(** C10.  Ring signatures: for a ring of less than 2^24 keys that [check_key] accepts, at any position
    of which stands the public key of the secret key, with the key image
    [generate_key_image] computes, [generate_ring_signature] returns as many
    signatures as keys, for every 32-byte message hash and every state of the random generator,
    without failing an assertion, and [check_ring_signature] accepts them. *)
Theorem ring_signatures_verify m s pubs i pub sig state : length m = 32%nat -> zlen pubs < 2 ^ 24 -> secret s -> length state = 25%nat -> length sig = length pubs ->
  Forall (fun pub => scalar pub /\ check_key pub = Ok true) pubs -> pubs !! i = Some pub -> secret_key_to_public_key s = Ok (Some pub) ->
  exists image sigs state', generate_key_image pub s = Ok image /\ generate_ring_signature m image pubs s i sig state = Ok (sigs, state') /\
    length sigs = length pubs /\ check_ring_signature m image pubs sigs = Ok true.
Proof.
  intros Hm Hring Hsec Hst Hl Hp Hi Ep. rewrite secret_key_to_public_key_spec in Ep by exact Hsec. assert (Epub : pub = point_bytes (zmul (value 256 s) base)) by (symmetry; apply some_inj, ok_inj; exact Ep).
  destruct (generate_key_image_spec pub s ltac:(rewrite Epub; apply length_point_bytes) Hsec) as (h & Q & _ & _ & _ & Ei). assert (Hp' : Forall at_point_key pubs) by (eapply Forall_impl; [exact Hp|]; intros x [? ?]; by apply check_key_at_point).
  destruct (generate_ring_signature_spec m _ s pub pubs i sig state Hm Hring Hsec Hst Hl Hp' Hi Epub Ei) as (sigs & state' & E & Hl' & _ & _ & Hc). eexists _, sigs, state'. split; [exact Ei|]. split; [exact E|]. split; [exact Hl'|exact Hc].
Qed.

(** C11.  [check_ring_signature] is exact: for a ring of less than 2^24 keys that
    [check_key] accepts (on other member bytes the code can call abort) and any
    32-byte key image and scalars it returns, and it returns true exactly if the image is the encoding of a point of the subgroup of
    prime order, every scalar is below the order, and the challenges add up, modulo
    the order, to the hash of the message and of the points that the equations of the
    members give.  In particular a key image with a component of small order, which
    would allow a second spending of the same output, is refused. *)
Theorem ring_check_exact m image pubs sigs : length m = 32%nat -> length sigs = length pubs -> zlen pubs < 2 ^ 24 -> scalar image -> Forall (fun pub => scalar pub /\ check_key pub = Ok true) pubs ->
  Forall (fun sig => scalar (sig_c sig) /\ scalar (sig_r sig)) sigs ->
  exists b, check_ring_signature m image pubs sigs = Ok b /\ (b = true <-> ring_signature_ok m image pubs sigs).
Proof.
  intros Hm Hlen Hring Hi Hp Hs. apply check_ring_signature_spec; [exact Hm|exact Hlen|exact Hring|exact Hi| |exact Hs]. eapply Forall_impl; [exact Hp|]. intros x [? ?]. by apply check_key_at_point.
Qed.
End Specs.

(** * Witnesses *)

Lemma secret_digits n : 0 <= n < order -> secret (digits 256 32 n).
Proof.
  intros Hn. assert (order < 256 ^ Z.of_nat 32) by done. split; [split; [apply (digits_ok 256); lia|apply length_digits]|]. rewrite value_digits; lia.
Qed.
Lemma one_time_address_agreement_witness : let _ := debug_build in let k := digits 256 32 in
  exists A B R D P x : list Z, secret_key_to_public_key (k 5) = Ok (Some A) /\ secret_key_to_public_key (k 7) = Ok (Some B) /\ secret_key_to_public_key (k 11) = Ok (Some R) /\
    generate_key_derivation A (k 11) = Ok (Some D) /\ generate_key_derivation R (k 5) = Ok (Some D) /\
    derive_public_key D 300 B (Some [1; 2]) = Ok (Some P) /\ derive_secret_key D 300 (k 7) (Some [1; 2]) = Ok x /\ secret_key_to_public_key x = Ok (Some P) /\
    underive_public_key D 300 P (Some [1; 2]) = Ok (Some B).
Proof.
  intros ? k. assert (Hk : forall n, 0 <= n < 100 -> secret (k n)) by (intros n Hn; apply secret_digits; assert (100 < order) by done; lia).
  assert (Hv : valid_index 300 (Some [1; 2])) by (split; [lia|vm_compute; discriminate]).
  exact (one_time_address_agreement (k 5) (k 7) (k 11) 300 (Some [1; 2]) (Hk 5 ltac:(lia)) (Hk 7 ltac:(lia)) (Hk 11 ltac:(lia)) Hv).
Defined.
Lemma signatures_verify_witness : let _ := debug_build in let k := digits 256 32 in
  exists pub sig state', secret_key_to_public_key (k 5) = Ok (Some pub) /\ generate_signature (k 3) pub (k 5) (replicate 25 0) = Ok (sig, state') /\ length state' = 25%nat /\ check_signature (k 3) pub sig = Ok true.
Proof.
  intros ? k. assert (Hk : secret (k 5)) by (apply secret_digits; assert (5 < order) by done; lia).
  destruct (signatures_verify (k 3) (k 5) (replicate 25 0) base {| sig_c := k 5; sig_r := k 5 |} eq_refl Hk eq_refl (secret_scalar _ Hk) (secret_scalar _ Hk)) as [H _]. exact H.
Defined.
Lemma tx_proofs_verify_witness : let _ := debug_build in let k := digits 256 32 in
  exists (A R D : list Z) sig state', secret_key_to_public_key (k 5) = Ok (Some A) /\ secret_key_to_public_key (k 7) = Ok (Some R) /\ scalarmultKey A (k 7) = Ok D /\
    generate_tx_proof (k 3) R A D (k 7) (replicate 25 0) = Ok (sig, state') /\ length state' = 25%nat /\ check_tx_proof (k 3) R A D sig = Ok true.
Proof.
  intros ? k. assert (Hk : forall n, 0 <= n < 100 -> secret (k n)) by (intros n Hn; apply secret_digits; assert (100 < order) by done; lia).
  destruct (tx_proofs_verify (k 3) (k 5) (k 7) (replicate 25 0) base base base {| sig_c := k 5; sig_r := k 5 |} eq_refl (Hk 5 ltac:(lia)) (Hk 7 ltac:(lia)) eq_refl (secret_scalar _ (Hk 5 ltac:(lia))) (secret_scalar _ (Hk 5 ltac:(lia)))) as [H _]. exact H.
Defined.

(** A ring of two keys, the public keys of 5 and 7, the second the signer's. *)
Definition example_ring : list (list Z) := [point_bytes (zmul 5 base); point_bytes (zmul 7 base)].
Lemma value_small n : 0 <= n < order -> value 256 (digits 256 32 n) = n.
Proof. intros Hn. assert (order < 256 ^ Z.of_nat 32) by done. apply value_digits; lia. Qed.
Lemma example_ring_ok : Forall (fun pub => scalar pub /\ check_key pub = Ok true) example_ring.
Proof. assert (H : forall P, scalar (point_bytes P) /\ check_key (point_bytes P) = Ok true) by (intros P; split; [apply point_bytes_scalar|apply check_key_point]). constructor; [apply H|]. constructor; [apply H|constructor]. Qed.
Definition blank : Signature := {| sig_c := sc_0; sig_r := sc_0 |}.
Lemma ring_signatures_verify_witness : let _ := debug_build in let k := digits 256 32 in
  exists image sigs state', generate_key_image (point_bytes (zmul 7 base)) (k 7) = Ok image /\ generate_ring_signature (k 3) image example_ring (k 7) 1 [blank; blank] (replicate 25 0) = Ok (sigs, state') /\
    length sigs = 2%nat /\ check_ring_signature (k 3) image example_ring sigs = Ok true.
Proof.
  intros ? k. assert (7 < order) by done. assert (Hk : secret (k 7)) by (apply secret_digits; lia). assert (E : secret_key_to_public_key (k 7) = Ok (Some (point_bytes (zmul 7 base)))) by (rewrite secret_key_to_public_key_spec by exact Hk; unfold k; rewrite value_small by lia; reflexivity).
  exact (ring_signatures_verify (k 3) (k 7) example_ring 1 (point_bytes (zmul 7 base)) [blank; blank] (replicate 25 0) eq_refl eq_refl Hk eq_refl eq_refl example_ring_ok eq_refl E).
Defined.
Lemma ring_check_exact_witness : let _ := debug_build in
  exists b, check_ring_signature sc_0 (point_bytes base) example_ring [blank; blank] = Ok b /\ (b = true <-> ring_signature_ok sc_0 (point_bytes base) example_ring [blank; blank]).
Proof.
  intros ?. assert (H0 : scalar sc_0) by apply secret_scalar, sc_0_secret. assert (Hb : scalar (sig_c blank) /\ scalar (sig_r blank)) by exact (conj H0 H0).
  exact (ring_check_exact sc_0 (point_bytes base) example_ring [blank; blank] eq_refl eq_refl eq_refl (point_bytes_scalar base) example_ring_ok (List.Forall_cons _ _ _ Hb (List.Forall_cons _ _ _ Hb (List.Forall_nil _)))).
Defined.
