(* ===== verification/Payments.v ===== *)
(** Payments from end to end: the wallet, the node and the cryptography together.

    The classes through which the chain ([Validation.Crypto]) and the wallets
    ([TransactionApi.KeyCrypto]) see [crypto/] get the functions of [Crypto],
    [Keccak] and [Chacha8] as instances, which are shown to keep what
    [TransactionConstruction] relies on. *)
From S2P Require Import Prelude IntUtil Keccak Chacha8 Varint Stream CryptoNote Serializer Serialization TransactionExtra Currency.
From S2P Require Import DepositIndex BlockIndex Checkpoints UpgradeDetector TreeHash BlockchainIndices ChainState Validation TransactionApi TransactionConstruction.
From S2P Require Import SynchronizationState TransfersContainer TransfersConsumer.
From S2P Require Import Limbs ScalarOps FieldOps Group Edwards GroupOps ScalarMult HashToPoint Cofactor Crypto CryptoTheory.

(** * Instances *)

(** A value for the cases in which the program would have stopped. *)
Definition total {A} (d : A) (m : outcome A) : A := match m with Ok a => a | _ => d end.
Definition zeros : list Z := replicate 32 0.
Definition sig_of (l : list Z) : Signature := {| sig_c := take 32 l; sig_r := drop 32 l |}.
Definition sig_bytes (s : Signature) : list Z := sig_c s ++ sig_r s.
(** The 25 words of the state of the random generator. *)
Definition state_of (rnd : list Z) : list Z := take 25 (rnd ++ replicate 25 0).
Definition keccak_hash (l : list Z) : list Z := total zeros (Keccak.cn_fast_hash l).

Definition wallet_crypto `{BuildConfig} : KeyCrypto := {|
  TransactionApi.generate_key_derivation p s := total None (Crypto.generate_key_derivation p s);
  TransactionApi.derive_public_key d i p := total None (Crypto.derive_public_key d i p None);
  TransactionApi.derive_secret_key d i s := total zeros (Crypto.derive_secret_key d i s None);
  TransactionApi.generate_key_image p s := total zeros (Crypto.generate_key_image p s);
  TransactionApi.secret_key_to_public_key s := total None (Crypto.secret_key_to_public_key s);
  TransactionApi.generate_signature rnd h p s := sig_bytes (total (blank, []) (Crypto.generate_signature h p s (state_of rnd))).1;
  TransactionApi.generate_ring_signature rnd h image pks s n :=
    map sig_bytes (total ([], []) (Crypto.generate_ring_signature h image pks s (Z.to_nat n) (replicate (length pks) blank) (state_of rnd))).1;
  TransactionApi.chacha8 := Chacha8.chacha8;
  TransactionApi.fast_hash := keccak_hash;
  TransactionApi.is_valid_key k := total false (Crypto.check_key k) |}.
Definition node_crypto `{BuildConfig} (slow slow_v0 : list Z -> list Z) : Validation.Crypto := {|
  Validation.cn_fast_hash := keccak_hash;
  Validation.cn_slow_hash := slow;
  Validation.cn_moonbank_slow_hash_v0 := slow_v0;
  Validation.check_key k := total false (Crypto.check_key k);
  Validation.check_signature h k s := total false (Crypto.check_signature h k (sig_of s));
  Validation.check_ring_signature h image pks sigs := total false (Crypto.check_ring_signature h image pks (map sig_of sigs));
  Validation.scalarmultKey P a := total zeros (Crypto.scalarmultKey P a) |}.

Lemma length_keccak_hash l : length (keccak_hash l) = 32%nat.
Proof.
  unfold keccak_hash, Keccak.cn_fast_hash, hash_process. destruct (to_int (zlen l) <? 0); [reflexivity|]. rewrite keccak1600_sponge. rewrite bind_ok. cbn [total]. apply hash_bytes.
Qed.
Lemma length_state_of rnd : length (state_of rnd) = 25%nat.
Proof. unfold state_of. rewrite length_take, length_app, length_replicate. lia. Qed.
Lemma sig_of_bytes s : length (sig_c s) = 32%nat -> sig_of (sig_bytes s) = s.
Proof. intros Hl. unfold sig_of, sig_bytes. rewrite take_app_le, drop_app_le, take_ge, drop_ge by lia. by destruct s. Qed.
Lemma is_pod_scalar s : is_pod 32 s <-> scalar s.
Proof. unfold is_pod, scalar, bytes_ok. tauto. Qed.

Section Laws.
Context `{BuildConfig} (slow slow_v0 : list Z -> list Z).
#[local] Existing Instance wallet_crypto.
#[local] Instance the_node : Validation.Crypto := node_crypto slow slow_v0.

Lemma owns_spec pk sk : owns pk sk <-> secret sk /\ pk = point_bytes (zmul (value 256 sk) base).
Proof.
  unfold owns. cbn [TransactionApi.secret_key_to_public_key wallet_crypto]. rewrite is_pod_scalar. split.
  - intros [Hs E]. unfold Crypto.secret_key_to_public_key in E. destruct (sc_check sk =? 0) eqn:Ec; cbn [negb total] in E; [|discriminate].
    assert (Hsec : secret sk) by (apply sc_check_secret; [exact Hs|by apply Z.eqb_eq]). split; [exact Hsec|]. rewrite public_point_spec in E by exact Hsec. rewrite bind_ok in E. cbn [total] in E. symmetry. exact (some_inj _ _ E).
  - intros [Hsec ->]. split; [by apply secret_scalar|]. rewrite secret_key_to_public_key_spec by exact Hsec. reflexivity.
Qed.
Lemma point_tobytes_length X Y W s : point_tobytes X Y W = Ok s -> length s = 32%nat.
Proof.
  unfold point_tobytes. intros E. apply bind_Ok in E as (r & _ & E). apply bind_Ok in E as (x & _ & E). apply bind_Ok in E as (y & _ & E). apply bind_Ok in E as (t & Ht & E). apply bind_Ok in E as (g & _ & E).
  injection E as <-. rewrite length_insert. unfold fe_tobytes in Ht. do 6 (apply bind_Ok in Ht as (? & _ & Ht)). injection Ht as <-. reflexivity.
Qed.
Lemma derivation_length p s d : total None (Crypto.generate_key_derivation p s) = Some d -> length d = 32%nat.
Proof.
  destruct (Crypto.generate_key_derivation p s) as [o| | |] eqn:E; cbn [total]; try discriminate. intros ->. unfold Crypto.generate_key_derivation in E. apply bind_Ok in E as (? & _ & E). apply bind_Ok in E as ([point|] & _ & E); [|discriminate].
  apply bind_Ok in E as (? & _ & E). apply bind_Ok in E as (? & _ & E). apply bind_Ok in E as (? & _ & E). apply bind_Ok in E as (r & Hr & E). injection E as <-. by eapply point_tobytes_length.
Qed.
Lemma derive_public_key_total D i P : length D = 32%nat -> is_u64 i ->
  TransactionApi.derive_public_key D i (point_bytes P) = Some (point_bytes (gadd P (zmul (value 256 (derivation_scalar D i None)) base))).
Proof. intros HD Hi. cbn [TransactionApi.derive_public_key wallet_crypto]. rewrite derive_public_key_spec by (split; [exact HD|by split]). reflexivity. Qed.
Lemma derive_secret_key_total D i s : length D = 32%nat -> is_u64 i -> secret s ->
  TransactionApi.derive_secret_key D i s = encode (value 256 s + value 256 (derivation_scalar D i None)).
Proof. intros HD Hi Hs. cbn [TransactionApi.derive_secret_key wallet_crypto]. rewrite derive_secret_key_spec by first [exact Hs|split; [exact HD|by split] ]. reflexivity. Qed.
Lemma derivation_total P s : secret s -> TransactionApi.generate_key_derivation (point_bytes P) s = Some (point_bytes (zmul (8 * value 256 s) P)).
Proof. intros Hs. cbn [TransactionApi.generate_key_derivation wallet_crypto]. rewrite generate_key_derivation_spec by exact Hs. reflexivity. Qed.

Lemma derived_owns d i pk sk pk' : length d = 32%nat -> is_u64 i -> owns pk sk -> TransactionApi.derive_public_key d i pk = Some pk' -> owns pk' (TransactionApi.derive_secret_key d i sk).
Proof.
  intros Hd Hi [Hs ->]%owns_spec E. rewrite derive_public_key_total in E by assumption. apply some_inj in E. rewrite <- E, derive_secret_key_total by assumption. apply owns_spec. split; [apply secret_encode|].
  apply point_bytes_proper. symmetry. apply derived_key.
Qed.
Lemma ring_keys_points pks : ring_keys pks -> Forall at_point_key pks.
Proof.
  intros [_ Hk]. eapply Forall_impl; [exact Hk|]. intros k [Hp Hc]. apply is_pod_scalar in Hp. apply check_key_at_point; [exact Hp|]. cbn [Validation.check_key the_node node_crypto] in Hc. destruct (Crypto.check_key k) as [b| | |]; try discriminate Hc. cbn [total] in Hc. by rewrite Hc.
Qed.
Lemma key_image_total pk sk : owns pk sk -> exists Q, zmul order Q ≡ gzero /\ Crypto.generate_key_image pk sk = Ok (TransactionApi.generate_key_image pk sk) /\
  TransactionApi.generate_key_image pk sk = point_bytes (zmul (value 256 sk) Q).
Proof.
  intros [Hs ->]%owns_spec. destruct (generate_key_image_spec (point_bytes (zmul (value 256 sk) base)) sk (length_point_bytes _) Hs) as (h & Q & _ & _ & HQ & E). exists Q. split; [exact HQ|]. cbn [TransactionApi.generate_key_image wallet_crypto]. rewrite E. split; reflexivity.
Qed.
Lemma map_sig_of sigs : Forall canonical sigs -> map sig_of (map sig_bytes sigs) = sigs.
Proof. induction 1 as [|sig sigs [ [Hc _] _] _ IH]; [done|]. cbn [map]. rewrite IH, sig_of_bytes; [done|]. apply Hc. Qed.
Lemma ring_verifies_total rnd h pks n pk sk : length h = 32%nat -> ring_keys pks -> owns pk sk -> vget pks n = Ok pk ->
  let sigs := TransactionApi.generate_ring_signature rnd h (TransactionApi.generate_key_image pk sk) pks sk n in
  length sigs = length pks /\ Validation.check_ring_signature h (TransactionApi.generate_key_image pk sk) pks sigs = true.
Proof.
  intros Hh Hk Ho [_ Hn]%vget_Ok. destruct (key_image_total pk sk Ho) as (Q & _ & Ei & _). pose proof Ho as [Hs Ep]%owns_spec. revert Ei. generalize (TransactionApi.generate_key_image pk sk). intros image Ei.
  destruct (generate_ring_signature_spec h image sk pk pks (Z.to_nat n) (replicate (length pks) blank) (state_of rnd) Hh (proj1 Hk) Hs (length_state_of rnd) ltac:(by rewrite length_replicate) (ring_keys_points pks Hk) Hn Ep Ei) as (sigs & st & E & Hl & _ & Hcan & Hc).
  cbn [TransactionApi.generate_ring_signature wallet_crypto Validation.check_ring_signature the_node node_crypto]. rewrite E. cbn [total fst]. cbv zeta. split; [by rewrite length_map|]. rewrite map_sig_of by exact Hcan. rewrite Hc. reflexivity.
Qed.
Lemma keyimage_order : scalar KEYIMAGE_L /\ value 256 KEYIMAGE_L = order.
Proof. split; [split; [unfold KEYIMAGE_L; cbn [replicate app]; repeat (apply Forall_cons; split; [unfold is_u8; lia|]); constructor|reflexivity]|vm_compute; reflexivity]. Qed.
Lemma point_bytes_zero : point_bytes gzero = KEYIMAGE_I.
Proof. vm_compute. reflexivity. Qed.
Lemma image_in_subgroup pk sk : owns pk sk -> Validation.scalarmultKey (TransactionApi.generate_key_image pk sk) KEYIMAGE_L = KEYIMAGE_I.
Proof.
  intros Ho. destruct (key_image_total pk sk Ho) as (Q & HQ & _ & ->). cbn [Validation.scalarmultKey the_node node_crypto]. unfold Crypto.scalarmultKey. destruct (frombytes_point (zmul (value 256 sk) Q)) as (h & -> & Hh). rewrite bind_ok. destruct keyimage_order as [HL VL].
  destruct (ge_scalarmult_spec KEYIMAGE_L h _ HL ltac:(rewrite VL; reflexivity) Hh) as (r & -> & Hr). rewrite bind_ok, (ge_tobytes_spec _ _ Hr). cbn [total]. rewrite VL. rewrite <- point_bytes_zero. apply point_bytes_proper, zmul_order, HQ.
Qed.
Lemma crypto_complete : ring_signatures_complete.
Proof.
  split.
  - intros l. apply length_keccak_hash.
  - intros p s d. apply derivation_length.
  - apply derived_owns.
  - apply ring_verifies_total.
  - apply image_in_subgroup.
Qed.
End Laws.

(** * Payments *)

Section Payments.
Context `{BuildConfig} (slow slow_v0 : list Z -> list Z).
#[local] Existing Instance wallet_crypto.
#[local] Instance our_node : Validation.Crypto := node_crypto slow slow_v0.

Definition valid_key (k : list Z) : Prop := is_pod 32 k /\ Validation.check_key k = true.
Lemma valid_key_point k : valid_key k -> exists P, k = point_bytes P.
Proof. intros Hk. pose proof (ring_keys_points slow slow_v0 [k] (conj eq_refl (List.Forall_cons _ _ _ Hk (List.Forall_nil _)))) as HF. by inversion HF. Qed.
Lemma point_valid_key P : valid_key (point_bytes P).
Proof. split; [apply is_pod_scalar, point_bytes_scalar|]. cbn [Validation.check_key our_node node_crypto]. by rewrite check_key_point. Qed.
Lemma point_pod P : is_pod 32 (point_bytes P).
Proof. apply is_pod_scalar, point_bytes_scalar. Qed.

(** The outputs of a ring the account can spend: its real member is the key derived
    for the account. *)
Definition owned_source (keys : AccountKeys) (src : TransactionSourceEntry) : Prop :=
  exists d pk, TransactionApi.generate_key_derivation (realTransactionPublicKey src) (viewSecretKey keys) = Some d /\
    TransactionApi.derive_public_key d (realOutputIndexInTransaction src) (spendPublicKey (address keys)) = Some pk /\
    vget (map snd (se_outputs src)) (se_realOutput src) = Ok pk.
Definition valid_destination (d : TransactionDestinationEntry) : Prop :=
  0 < de_amount d < 2 ^ 64 /\ valid_key (spendPublicKey (de_addr d)) /\ valid_key (viewPublicKey (de_addr d)).

Lemma source_input_succeeds keys src : owned_source keys src -> exists i, source_input keys src = Ok (Some i).
Proof.
  intros (d & pk & Ed & Ep & Ev). apply vget_Ok in Ev as [Hn Hv]. rewrite list_lookup_fmap in Hv. apply fmap_Some in Hv as ([g key] & Hv & ->). cbn [snd] in Ep.
  unfold source_input. destruct (Z.leb_spec (zlen (se_outputs src)) (se_realOutput src)) as [Hz|_]; [apply lookup_lt_Some in Hv; unfold zlen in Hz; lia|].
  unfold generate_key_image_helper. rewrite Ed. rewrite (massert_true (bool_decide (is_Some (Some d)))) by (apply bool_decide_eq_true; by eexists). rewrite bind_ok. rewrite Ep.
  rewrite (massert_true (bool_decide (is_Some (Some key)))) by (apply bool_decide_eq_true; by eexists). rewrite !bind_ok.
  rewrite (proj2 (vget_Ok (se_outputs src) (se_realOutput src) (g, key))) by by split. rewrite bind_ok. cbn [kp_publicKey snd]. rewrite bool_decide_true by done. cbn [negb]. by eexists.
Qed.
Lemma fill_inputs_succeeds keys sources money : Forall (owned_source keys) sources -> exists ins total, fill_inputs keys sources money = Ok (Some (ins, total)).
Proof.
  intros HF. revert money. induction HF as [|src sources Hs HF IH]; intros money; cbn [fill_inputs]; [by eexists _, _|].
  destruct (source_input_succeeds keys src Hs) as [i ->]. rewrite bind_ok. destruct (IH (u64 (money + se_amount src))) as (l & m & ->). rewrite bind_ok. by eexists _, _.
Qed.

(** What a destination is paid: the output at index [j]. *)
Definition paid (txSecret : list Z) (j : Z) (d : TransactionDestinationEntry) (o : TransactionOutput) : Prop :=
  exists D P, TransactionApi.generate_key_derivation (viewPublicKey (de_addr d)) txSecret = Some D /\
    TransactionApi.derive_public_key D j (spendPublicKey (de_addr d)) = Some (point_bytes P) /\
    o = {| out_amount := de_amount d; target := OutKey {| ko_key := point_bytes P |} |}.
Lemma fill_outputs_succeeds txSecret k dsts money : secret txSecret -> Forall valid_destination dsts -> 0 <= k -> k + zlen dsts < 2 ^ 64 ->
  exists outs total, fill_outputs txSecret k dsts money = Some (outs, total) /\ length outs = length dsts /\
    forall j d, dsts !! j = Some d -> exists o, outs !! j = Some o /\ paid txSecret (k + Z.of_nat j) d o.
Proof.
  intros Hs HF. revert k money. induction HF as [|d dsts (Ha & Hsp & Hvw) HF IH]; intros k money Hk Hn; cbn [fill_outputs].
  { eexists [], _. split; [reflexivity|]. split; [reflexivity|]. intros j d. by rewrite lookup_nil. }
  rewrite (proj2 (Z.ltb_lt 0 (de_amount d))) by lia. cbn [negb]. destruct (valid_key_point _ Hsp) as [SP ES], (valid_key_point _ Hvw) as [W EW]. rewrite zlen_cons in Hn. pose proof (zlen_nonneg dsts).
  assert (ED : TransactionApi.generate_key_derivation (viewPublicKey (de_addr d)) txSecret = Some (point_bytes (zmul (8 * value 256 txSecret) W))) by (rewrite EW; by apply derivation_total).
  assert (EP : TransactionApi.derive_public_key (point_bytes (zmul (8 * value 256 txSecret) W)) k (spendPublicKey (de_addr d)) = Some (point_bytes (gadd SP (zmul (value 256 (derivation_scalar (point_bytes (zmul (8 * value 256 txSecret) W)) k None)) base))))
    by (rewrite ES; apply derive_public_key_total; [apply length_point_bytes|unfold is_u64; lia]).
  rewrite ED. cbn [mbind option_bind]. rewrite EP. cbn [mbind option_bind]. rewrite (u64_small (k + 1)) by (unfold is_u64; lia).
  destruct (IH (k + 1) (u64 (money + de_amount d)) ltac:(lia) ltac:(lia)) as (outs & total & -> & Hl & Hj). cbn [mbind option_bind]. eexists _, total. split; [reflexivity|]. split; [cbn [length]; by rewrite Hl|].
  intros [|j] d'; cbn [lookup list_lookup].
  - intros [= <-]. eexists. split; [reflexivity|]. rewrite Z.add_0_r. eexists _, _. split; [exact ED|]. split; [exact EP|]. reflexivity.
  - intros Hd. destruct (Hj j d' Hd) as (o & Ho & Hp). exists o. split; [exact Ho|]. by replace (k + Z.of_nat (S j)) with (k + 1 + Z.of_nat j) by lia.
Qed.

(** The receiver's side: [underive_public_key] of the instances. *)
Definition underive (D : list Z) (i : Z) (key : list Z) : option (list Z) := total None (Crypto.underive_public_key D i key None).
Lemma underive_total D i P : length D = 32%nat -> is_u64 i -> exists Q, underive D i (point_bytes P) = Some (point_bytes Q).
Proof. intros HD Hi. unfold underive. rewrite underive_public_key_spec by (split; [exact HD|by split]). by eexists. Qed.
Lemma underive_derive D i P k : length D = 32%nat -> is_u64 i -> TransactionApi.derive_public_key D i (point_bytes P) = Some k -> underive D i k = Some (point_bytes P).
Proof.
  intros HD Hi E. rewrite derive_public_key_total in E by assumption. apply some_inj in E. rewrite <- E. unfold underive. rewrite underive_public_key_spec by (split; [exact HD|by split]). cbn [total].
  apply (f_equal Some), point_bytes_proper, underived.
Qed.
(** Both ends of a payment compute the same derivation. *)
Lemma derivation_shared view viewSecret tx txSecret : owns view viewSecret -> owns tx txSecret ->
  TransactionApi.generate_key_derivation tx viewSecret = TransactionApi.generate_key_derivation view txSecret.
Proof.
  intros [Hv ->]%owns_spec [Ht ->]%owns_spec. cbn [TransactionApi.generate_key_derivation wallet_crypto]. by rewrite derivations_agree.
Qed.

Definition found (m : gmap (list Z) (list Z)) (spend : list Z) (j : Z) : Prop := exists l, m !! spend = Some l /\ j ∈ l.
Lemma checkOutputKey_found D key i spendKeys m P : length D = 32%nat -> is_u64 i -> key = point_bytes P ->
  exists m', checkOutputKey underive D key i i spendKeys m = Ok m' /\ (forall s j, found m s j -> found m' s j) /\
    (forall spend, underive D i key = Some spend -> spend ∈ spendKeys -> found m' spend (u32 i)).
Proof.
  intros HD Hi ->. destruct (underive_total D i P HD Hi) as [Q EQ]. unfold checkOutputKey, out_param. rewrite EQ, bind_ok. eexists. split; [reflexivity|]. generalize (point_bytes Q). intros spend.
  destruct (decide (spend ∈ spendKeys)) as [Hin|Hout]; [|split; [auto|]; intros s' [= <-] Hs; by destruct (Hout Hs)]. split.
  - intros s j (l & El & Hj). unfold found. destruct (decide (s = spend)) as [->|Hne]; [rewrite lookup_insert_eq|rewrite lookup_insert_ne by done; by exists l]. eexists. split; [reflexivity|]. rewrite El. cbn [default from_option id]. apply elem_of_app. by left.
  - intros s' [= <-] _. unfold found. rewrite lookup_insert_eq. eexists. split; [reflexivity|]. apply elem_of_app. right. by apply list_elem_of_singleton.
Qed.

Lemma find_outputs_found n t D spendKeys idx m : length D = 32%nat -> 0 <= idx -> idx + Z.of_nat n = zlen (outputs (m_txPrefix t)) -> zlen (outputs (m_txPrefix t)) < 2 ^ 64 ->
  (forall j o, outputs (m_txPrefix t) !! j = Some o -> exists P, target o = OutKey {| ko_key := point_bytes P |}) ->
  exists m', find_outputs underive n t D spendKeys idx idx m = Ok m' /\ (forall s j, found m s j -> found m' s j) /\
    forall j o key spend, outputs (m_txPrefix t) !! j = Some o -> idx <= Z.of_nat j -> target o = OutKey {| ko_key := key |} ->
      underive D (Z.of_nat j) key = Some spend -> spend ∈ spendKeys -> found m' spend (u32 (Z.of_nat j)).
Proof.
  intros HD. revert idx m. induction n as [|n IH]; intros idx m Hi Hn Hmax Hkeys; cbn [find_outputs].
  { exists m. split; [reflexivity|]. split; [auto|]. intros j o key spend Ho Hj. apply lookup_lt_Some in Ho. unfold zlen in Hn. lia. }
  destruct (lookup_lt_is_Some_2 (outputs (m_txPrefix t)) (Z.to_nat idx)) as [o Ho]; [unfold zlen in Hn; lia|]. destruct (Hkeys _ _ Ho) as [P EP].
  assert (Hc : getOutputChecked (m_txPrefix t) idx = Ok o) by (unfold getOutputChecked; rewrite (proj2 (Z.leb_gt _ _)) by lia; by apply vget_Ok).
  cbn [getOutputType TransactionPrefixImpl_reader]. rewrite Hc, bind_ok. rewrite EP. cbn [getTransactionOutputType]. rewrite bind_ok. cbn [getOutput_Key TransactionPrefixImpl_reader]. unfold prefix_KeyOutput, getOutputChecked_typed. rewrite Hc, bind_ok.
  rewrite decide_True by (by rewrite EP). rewrite bind_ok, EP. cbn [get_KeyOutput]. rewrite !bind_ok. cbn [ko_key].
  destruct (checkOutputKey_found D (point_bytes P) idx spendKeys m P HD ltac:(unfold is_u64; lia) eq_refl) as (m1 & -> & Hmono & Hfound). rewrite bind_ok.
  destruct (IH (idx + 1) m1 ltac:(lia) ltac:(lia) Hmax Hkeys) as (m2 & -> & Hmono2 & Hfound2). exists m2. split; [reflexivity|]. split; [auto|].
  intros j o' key spend Ho' Hj Et Eu Hs. destruct (Z.eq_dec (Z.of_nat j) idx) as [Ej|Ej]; [|apply (Hfound2 j o' key spend Ho' ltac:(lia) Et Eu Hs)].
  apply Hmono2. assert (o' = o) by (rewrite <- Ej, Nat2Z.id in Ho; congruence). subst o'. rewrite EP in Et. injection Et as <-. rewrite Ej in *. by apply Hfound.
Qed.

(** * The extra fields of a payment *)

Definition valid_message (m : tx_message_entry) : Prop :=
  bytes_ok (me_message m) /\ (me_encrypt m = true -> valid_key (spendPublicKey (me_addr m))).
(** The field of message [i]. *)
Definition sealed (txSecret : list Z) (i : Z) (m : tx_message_entry) (tag : list Z) : Prop :=
  encrypt TransactionApi.generate_key_derivation TransactionApi.fast_hash TransactionApi.chacha8 i (me_message m) (if me_encrypt m then Some (me_addr m) else None) txSecret = Some tag /\
  bytes_ok tag /\ length tag = (length (me_message m) + 4)%nat.
Lemma encrypt_succeeds txSecret i m : secret txSecret -> valid_message m -> exists tag, sealed txSecret i m tag.
Proof.
  intros Hs [Hb Hk]. assert (Hb' : bytes_ok (me_message m ++ replicate TX_EXTRA_MESSAGE_CHECKSUM_SIZE 0)) by (apply Forall_app; split; [exact Hb|apply Forall_replicate; unfold is_u8; lia]).
  unfold sealed, encrypt. destruct (me_encrypt m); [|eexists; split; [reflexivity|]; split; [exact Hb'|by rewrite length_app] ]. destruct (valid_key_point _ (Hk eq_refl)) as [P ->].
  rewrite derivation_total by exact Hs. cbn [mbind option_bind]. eexists. split; [reflexivity|]. cbn [TransactionApi.chacha8 wallet_crypto]. split; [by apply chacha8_bytes|]. rewrite chacha8_length by exact Hb'. by rewrite length_app.
Qed.
Definition messages_size (messages : list tx_message_entry) : Z := sum_Z (map (fun m => zlen (me_message m) + 15) messages).
Lemma messages_size_cons m messages : messages_size (m :: messages) = zlen (me_message m) + 15 + messages_size messages.
Proof. reflexivity. Qed.
Lemma messages_size_nonneg messages : 0 <= messages_size messages.
Proof. induction messages as [|m messages IH]; [done|]. rewrite messages_size_cons. pose proof (zlen_nonneg (me_message m)). lia. Qed.
Lemma fill_messages_succeeds txSecret i messages e : secret txSecret -> Forall valid_message messages -> messages_size messages <= MAX_CONTAINER ->
  exists tags, fill_messages txSecret i messages e = Ok (Some (e ++ enc_items enc_field (map ExtraMessage tags))) /\ Forall wf_field (map ExtraMessage tags) /\
    zlen (enc_items enc_field (map ExtraMessage tags)) <= messages_size messages /\
    length tags = length messages /\ forall j m, messages !! j = Some m -> exists tag, tags !! j = Some tag /\ sealed txSecret (i + Z.of_nat j) m tag.
Proof.
  intros Hs HF. revert i e. induction HF as [|m messages Hm HF IH]; intros i e Hsize; cbn [fill_messages].
  { exists []. split; [by rewrite app_nil_r|]. split; [constructor|]. split; [reflexivity|]. split; [reflexivity|]. intros j m. by rewrite lookup_nil. }
  rewrite messages_size_cons in Hsize. pose proof (messages_size_nonneg messages). pose proof (zlen_nonneg (me_message m)). destruct (encrypt_succeeds txSecret i m Hs Hm) as (tag & E & Hb & Hl). rewrite E.
  assert (Hz : zlen tag = zlen (me_message m) + 4) by (unfold zlen; lia).
  assert (Hw : wf_field (ExtraMessage tag)) by (split; [lia|exact Hb]). pose proof (write_field_spec e _ Hw) as Ew. cbn [write_field] in Ew. rewrite Ew, bind_ok.
  destruct (IH (i + 1) (e ++ enc_field (ExtraMessage tag)) ltac:(lia)) as (tags & -> & HW & Hsz & Hlen & Hj). exists (tag :: tags). cbn [map]. unfold enc_items in *. cbn [map concat]. rewrite <- app_assoc. split; [reflexivity|]. split; [by constructor|].
  split; [|split; [cbn [length]; by rewrite Hlen|] ].
  - rewrite messages_size_cons, zlen_app. cbn [enc_field]. rewrite zlen_cons, zlen_app. pose proof (write_varint_length (zlen tag) ltac:(unfold MAX_CONTAINER in Hsize; lia)). lia.
  - intros [|j] m'; cbn [lookup list_lookup].
    + intros [= <-]. exists tag. split; [reflexivity|]. rewrite Z.add_0_r. by split.
    + intros Hm'. destruct (Hj j m' Hm') as (tag' & Ht & Hseal). exists tag'. split; [exact Ht|]. by replace (i + Z.of_nat (S j)) with (i + 1 + Z.of_nat j) by lia.
Qed.

(** The fields of the transaction. *)
Definition ttl_fields (ttl : Z) : list TransactionExtraField := if ttl =? 0 then [] else [ExtraTTL ttl].
Definition payment_fields (pub : list Z) (tags : list (list Z)) (ttl : Z) : list TransactionExtraField := ExtraPublicKey pub :: map ExtraMessage tags ++ ttl_fields ttl.
Lemma payment_fields_wf pub tags ttl : is_pod 32 pub -> Forall wf_field (map ExtraMessage tags) -> is_u64 ttl -> Forall wf_field (payment_fields pub tags ttl) /\ padding_last (payment_fields pub tags ttl).
Proof.
  intros Hp Ht Hl. split.
  - constructor; [exact Hp|]. apply Forall_app. split; [exact Ht|]. unfold ttl_fields. destruct (ttl =? 0); [constructor|]. constructor; [exact Hl|constructor].
  - unfold payment_fields, ttl_fields. cbn [padding_last]. assert (H1 : padding_last (map ExtraMessage tags ++ (if ttl =? 0 then [] else [ExtraTTL ttl]))); [|by destruct (map ExtraMessage tags ++ _)].
    clear. induction tags as [|t tags IH]; [by destruct (ttl =? 0)|]. cbn [map app padding_last]. by destruct (map ExtraMessage tags ++ _).
Qed.
Lemma payment_extra pub tags ttl :
  (let e := addTransactionPublicKeyToExtra [] pub ++ enc_items enc_field (map ExtraMessage tags) in if negb (ttl =? 0) then appendTTLToExtra e ttl else e) = enc_items enc_field (payment_fields pub tags ttl).
Proof.
  unfold payment_fields, ttl_fields, enc_items, addTransactionPublicKeyToExtra, appendTTLToExtra. cbv zeta. cbn [map concat]. rewrite map_app, concat_app. destruct (ttl =? 0); cbn [negb map concat enc_field app]; rewrite ?app_nil_r; [done|]. by rewrite <- !app_assoc.
Qed.
Lemma payment_extra_size pub tags ttl n : is_pod 32 pub -> is_u64 ttl -> zlen (enc_items enc_field (map ExtraMessage tags)) <= n -> zlen (enc_items enc_field (payment_fields pub tags ttl)) <= n + 60.
Proof.
  intros [Hp _] Hl Hn. unfold payment_fields, enc_items in *. cbn [map concat]. rewrite map_app, concat_app, !zlen_app. cbn [enc_field]. rewrite zlen_cons. unfold zlen at 1. rewrite Hp. unfold ttl_fields. destruct (ttl =? 0); cbn [map concat]; [change (zlen []) with 0; lia|].
  rewrite app_nil_r. cbn [enc_field]. rewrite zlen_cons, zlen_app. pose proof (write_varint_length ttl ltac:(unfold is_u64 in Hl; lia)). pose proof (zlen_nonneg (write_varint ttl)). pose proof (write_varint_length (zlen (write_varint ttl)) ltac:(lia)). lia.
Qed.

(** * The transaction *)

Lemma relative_u32 l : Forall is_u32 l -> Forall is_u32 (absolute_output_offsets_to_relative l).
Proof.
  intros HF. assert (HF' : Forall is_u32 (merge_sort Z.le l)) by (by rewrite merge_sort_Permutation). unfold absolute_output_offsets_to_relative. destruct HF' as [|x k Hx _]; [constructor|]. constructor; [exact Hx|]. clear.
  revert x. induction k as [|y k IH]; intros x; cbn [relative_from]; [constructor|]. constructor; [apply u32_range|apply IH].
Qed.
Variable m_currency : Currency.
Lemma source_wf bc now keys src i eph : owns (spendPublicKey (address keys)) (spendSecretKey keys) -> source_ok m_currency bc now src -> is_u64 (se_amount src) ->
  source_input keys src = Ok (Some (i, eph)) -> wf_input (InKey i).
Proof.
  intros Hown (_ & HU & HK & HJ & _) Ha (pk & E1 & E2 & E3 & _ & d & Hgen & Hd & Hs)%source_input_spec. assert (Hw : owns pk (kp_secretKey eph)) by (rewrite Hs; eapply derived_owns; [exact (derivation_length _ _ _ Hgen)|exact HJ|exact Hown|exact Hd]).
  destruct (key_image_total pk _ Hw) as (Q & _ & _ & Ek). cbn [wf_input]. rewrite E1, E2, E3, Ek. split; [exact Ha|]. split; [|apply point_pod]. split; [|by apply relative_u32].
  unfold zlen. rewrite relative_length, length_map. destruct HK as [HK _]. unfold zlen in HK. rewrite length_map in HK. unfold MAX_CONTAINER. lia.
Qed.
Lemma wf_hash p : wf_prefix p -> exists h, prefix_hash p = Ok h.
Proof.
  intros Hp. unfold prefix_hash, getObjectHash, toBinaryArray. destruct (codec_write (SI := MemoryInputStream) _ _ _ codec_TransactionPrefix p [] Hp) as (s & -> & _). rewrite !bind_ok. by eexists.
Qed.
Lemma fold_small l : Forall (fun x => 0 <= x) l -> sum_Z l < 2 ^ 64 -> fold_left (fun m x => u64 (m + x)) l 0 = sum_Z l.
Proof.
  intros HF Hs. pose proof (sum_u64_spec l) as E. unfold sum_u64 in E. rewrite E. apply u64_small. unfold is_u64. split; [by apply sum_Z_nonneg|lia].
Qed.

Section Payment.
Variables (bc : Blockchain) (now : Z) (rnd : Z -> list Z) (txkey : KeyPair) (keys : AccountKeys) (sources : list TransactionSourceEntry) (dsts : list TransactionDestinationEntry).
Variables (messages : list tx_message_entry) (ttl unlock_time : Z).

(** An order that can be paid: the account owns the outputs it spends, which are
    unlocked outputs of the chain, the destinations have valid keys, and the amounts
    cover the payments. *)
Record payable : Prop := {
  pay_account : owns (spendPublicKey (address keys)) (spendSecretKey keys);
  pay_txkey : owns (kp_publicKey txkey) (kp_secretKey txkey);
  pay_sources : Forall (source_ok m_currency bc now) sources;
  pay_owned : Forall (owned_source keys) sources;
  pay_source_amounts : Forall (fun src => is_u64 (se_amount src)) sources;
  pay_source_count : zlen sources <= MAX_CONTAINER;
  pay_destinations : Forall valid_destination dsts;
  pay_destination_count : zlen dsts <= MAX_CONTAINER;
  pay_messages : Forall valid_message messages;
  pay_messages_size : messages_size messages + 60 <= MAX_CONTAINER;
  pay_ttl : is_u64 ttl;
  pay_unlock : is_u64 unlock_time;
  pay_no_overflow : sum_Z (map se_amount sources) < 2 ^ 64;
  pay_covered : sum_Z (map de_amount dsts) <= sum_Z (map se_amount sources);
}.
(** What the transaction contains. *)
Record pays (tx : Transaction) : Prop := {
  pays_outputs j d : merge_sort amount_le dsts !! j = Some d -> exists o, outputs (prefix tx) !! j = Some o /\ paid (kp_secretKey txkey) (Z.of_nat j) d o;
  pays_length : length (outputs (prefix tx)) = length dsts;
  pays_extra : exists tags, extra (prefix tx) = enc_items enc_field (payment_fields (kp_publicKey txkey) tags ttl) /\ Forall wf_field (map ExtraMessage tags) /\
    forall j m, messages !! j = Some m -> exists tag, tags !! j = Some tag /\ sealed (kp_secretKey txkey) (Z.of_nat j) m tag;
  pays_inputs : exists ins, inputs (prefix tx) = map (fun i => InKey (fst i)) ins /\ Forall2 (fun src i => source_input keys src = Ok (Some i)) sources ins;
  pays_version : version (prefix tx) = TRANSACTION_VERSION_1 /\ unlockTime (prefix tx) = unlock_time;
}.
Lemma payment_prefix_wf ins outs fields : payable -> Forall2 (fun src i => source_input keys src = Ok (Some i)) sources ins ->
  length outs = length dsts -> (forall j o, outs !! j = Some o -> exists d, valid_destination d /\ exists k, paid (kp_secretKey txkey) k d o) ->
  Forall wf_field fields -> zlen (enc_items enc_field fields) <= MAX_CONTAINER ->
  wf_prefix {| version := TRANSACTION_VERSION_1; unlockTime := unlock_time; inputs := map (fun i => InKey (fst i)) ins; outputs := outs; CryptoNote.extra := enc_items enc_field fields |}.
Proof.
  intros HP HF Hlen Hpaid Hfw Hsz. unfold wf_prefix. cbn [version unlockTime inputs outputs CryptoNote.extra]. split; [unfold TRANSACTION_VERSION_1; lia|]. split; [apply (pay_unlock HP)|]. split; [split|split; [split|split; [exact Hsz|] ] ].
  - unfold zlen. rewrite length_map, <- (Forall2_length _ _ _ HF). apply (pay_source_count HP).
  - apply Forall_map. pose proof (pay_sources HP) as H1. pose proof (pay_source_amounts HP) as H2. pose proof (pay_account HP) as H0. clear -H0 H1 H2 HF. revert H1 H2. induction HF as [|src [i eph] srcs ins Hi HF IH]; intros H1 H2; [constructor|]. inversion_clear H1. inversion_clear H2. constructor; [|by apply IH].
    eapply source_wf; [exact H0|eassumption|eassumption|exact Hi].
  - unfold zlen. rewrite Hlen. apply (pay_destination_count HP).
  - apply Forall_lookup. intros j o Ho. destruct (Hpaid j o Ho) as (d & (Ha & _) & k & D & P & _ & _ & ->). split; [cbn [out_amount]; lia|apply point_pod].
  - unfold enc_items, bytes_ok. apply Forall_concat, Forall_map. eapply Forall_impl; [exact Hfw|]. intros f Hf. by apply enc_field_bytes.
Qed.
Lemma construct_pays : payable -> exists tx, constructTransaction rnd txkey keys sources dsts messages ttl [] unlock_time = Ok (Some (tx, kp_secretKey txkey)) /\ pays tx.
Proof.
  intros HP. destruct (proj1 (owns_spec _ _) (pay_txkey HP)) as [Htx Epub]. assert (Hpub : is_pod 32 (kp_publicKey txkey)) by (rewrite Epub; apply point_pod).
  destruct (fill_inputs_succeeds keys sources 0 (pay_owned HP)) as (ins & total & Ei). pose proof (fill_inputs_spec _ _ _ _ _ Ei) as [HF Et].
  set (sorted := merge_sort amount_le dsts). assert (Hperm : sorted ≡ₚ dsts) by apply merge_sort_Permutation. assert (HD : Forall valid_destination sorted) by (rewrite Hperm; apply (pay_destinations HP)).
  assert (Hn : zlen sorted = zlen dsts) by (unfold zlen; by rewrite Hperm). pose proof (pay_destination_count HP) as Hc. unfold MAX_CONTAINER in Hc.
  destruct (fill_outputs_succeeds (kp_secretKey txkey) 0 sorted 0 Htx HD ltac:(lia) ltac:(lia)) as (outs & out_total & Eo & Hol & Hoj). pose proof (fill_outputs_spec _ _ _ _ _ _ Eo) as (_ & Eot & _).
  destruct (fill_messages_succeeds (kp_secretKey txkey) 0 messages (addTransactionPublicKeyToExtra [] (kp_publicKey txkey)) Htx (pay_messages HP)) as (tags & Em & Htags & Hsz & Htl & Htj); [pose proof (pay_messages_size HP); lia|].
  assert (Hcover : (total <? out_total) = false).
  { apply Z.ltb_ge. rewrite Et, Eot, (fold_amounts se_amount). pose proof (pay_no_overflow HP). pose proof (pay_covered HP). assert (Es : sum_Z (map de_amount sorted) = sum_Z (map de_amount dsts)) by (by rewrite Hperm).
    rewrite (fold_small (map de_amount sorted)), (fold_small (map se_amount sources)); [lia| |lia| |lia]; apply Forall_map.
    - eapply Forall_impl; [apply (pay_source_amounts HP)|]. intros x [Hx _]. exact Hx.
    - eapply Forall_impl; [exact HD|]. intros x [ [Hx _] _]. cbn. lia. }
  set (fields := payment_fields (kp_publicKey txkey) tags ttl). destruct (payment_fields_wf (kp_publicKey txkey) tags ttl Hpub Htags (pay_ttl HP)) as [Hfw _].
  set (p := {| version := TRANSACTION_VERSION_1; unlockTime := unlock_time; inputs := map (fun i => InKey (fst i)) ins; outputs := outs; CryptoNote.extra := enc_items enc_field fields |}).
  assert (Hwf : wf_prefix p).
  { apply (payment_prefix_wf ins outs fields HP HF); [rewrite Hol; unfold zlen in Hn; lia| |exact Hfw|pose proof (payment_extra_size (kp_publicKey txkey) tags ttl _ Hpub (pay_ttl HP) Hsz); pose proof (pay_messages_size HP); unfold fields; lia].
    intros j o Ho. destruct (lookup_lt_is_Some_2 sorted j) as [d Hd]; [apply lookup_lt_Some in Ho; lia|]. destruct (Hoj j d Hd) as (o' & Ho' & Hp). rewrite Ho in Ho'. injection Ho' as <-. exists d. split; [exact (proj1 (Forall_lookup _ _) HD j d Hd)|by exists (0 + Z.of_nat j)]. }
  destruct (wf_hash p Hwf) as [h Eh].
  eexists. split.
  - unfold constructTransaction. rewrite Ei, bind_ok. fold sorted. rewrite Eo, Hcover, Em, bind_ok. pose proof (payment_extra (kp_publicKey txkey) tags ttl) as Ee. cbv zeta in Ee. rewrite Ee. fold fields. fold p. rewrite Eh, bind_ok. reflexivity.
  - split; cbn [prefix p outputs extra].
    + exact Hoj.
    + rewrite Hol. unfold zlen in Hn. lia.
    + exists tags. split; [reflexivity|]. split; [exact Htags|exact Htj].
    + exists ins. split; [reflexivity|exact HF].
    + split; reflexivity.
Qed.

(** What a wallet reads from the transaction. *)
Lemma prefix_read tx h : payable -> pays tx -> exists t, createTransactionPrefix (prefix tx) h = Ok t /\ m_txPrefix t = prefix tx /\ getTransactionPublicKey t = kp_publicKey txkey.
Proof.
  intros HP HT. destruct (pays_extra tx HT) as (tags & Ee & Ht & _). destruct (proj1 (owns_spec _ _) (pay_txkey HP)) as [_ Epub]. assert (Hpub : is_pod 32 (kp_publicKey txkey)) by (rewrite Epub; apply point_pod).
  destruct (payment_fields_wf _ tags ttl Hpub Ht (pay_ttl HP)) as [Hw Hl]. unfold createTransactionPrefix, Extra.parse. rewrite Ee, (parse_write _ Hw Hl), bind_ok. eexists. split; [reflexivity|]. split; reflexivity.
Qed.
Lemma outputs_found tx h viewSecret addr spendKeys : payable -> pays tx -> owns (viewPublicKey addr) viewSecret -> spendPublicKey addr ∈ spendKeys ->
  exists t outs, createTransactionPrefix (prefix tx) h = Ok t /\ findMyOutputs underive t viewSecret spendKeys = Ok outs /\
    forall j d, merge_sort amount_le dsts !! j = Some d -> de_addr d = addr -> found outs (spendPublicKey addr) (u32 (Z.of_nat j)).
Proof.
  intros HP HT Hview Hspend. destruct (prefix_read tx h HP HT) as (t & Et & Ep & Ek). exists t. unfold findMyOutputs. rewrite Ek, (derivation_shared _ _ _ _ Hview (pay_txkey HP)).
  pose proof (proj1 (owns_spec _ _) (pay_txkey HP)) as [Htx _]. pose proof (proj1 (owns_spec _ _) Hview) as [_ Ev]. pose proof (derivation_total (zmul (value 256 viewSecret) base) _ Htx) as ED. rewrite <- Ev in ED. rewrite ED. set (D := point_bytes (zmul (8 * value 256 (kp_secretKey txkey)) (zmul (value 256 viewSecret) base))) in *.
  assert (HD : length D = 32%nat) by apply length_point_bytes. cbn [getOutputCount TransactionPrefixImpl_reader]. rewrite Ep. pose proof (zlen_nonneg (outputs (prefix tx))). assert (Hsorted : length (merge_sort amount_le dsts) = length dsts) by (by rewrite merge_sort_Permutation).
  pose proof (pay_destination_count HP) as Hmax. unfold MAX_CONTAINER in Hmax.
  destruct (find_outputs_found (Z.to_nat (zlen (outputs (prefix tx)))) t D spendKeys 0 ∅ HD ltac:(lia) ltac:(rewrite Ep; lia)) as (outs & Eo & _ & Hf).
  - rewrite Ep. unfold zlen in *. rewrite (pays_length tx HT). lia.
  - rewrite Ep. intros j o Ho. destruct (lookup_lt_is_Some_2 (merge_sort amount_le dsts) j) as [d Hd]; [apply lookup_lt_Some in Ho; rewrite (pays_length tx HT) in Ho; lia|].
    destruct (pays_outputs tx HT j d Hd) as (o' & Ho' & D' & P & _ & _ & Eo'). rewrite Ho in Ho'. injection Ho' as <-. exists P. by rewrite Eo'.
  - exists outs. split; [exact Et|]. split; [exact Eo|]. intros j d Hd Ea. destruct (pays_outputs tx HT j d Hd) as (o & Ho & D' & P & ED' & EP & ->). rewrite Ea, ED in ED'. injection ED' as <-.
    rewrite Ea in EP. rewrite <- Ep in Ho. apply (Hf j _ _ (spendPublicKey addr) Ho ltac:(lia) eq_refl); [|exact Hspend].
    assert (Hvd : valid_destination d) by (apply (Forall_forall valid_destination (merge_sort amount_le dsts)); [rewrite merge_sort_Permutation; apply (pay_destinations HP)|by apply list_elem_of_lookup_2 in Hd]).
    destruct Hvd as (_ & Hvs & _). rewrite Ea in Hvs. destruct (valid_key_point _ Hvs) as [SP ES]. rewrite ES in *. apply underive_derive with (k := point_bytes P); [exact HD| |exact EP].
    unfold is_u64. apply lookup_lt_Some in Hd. unfold zlen in Hmax. lia.
Qed.

(** * Messages *)

Lemma decrypt_sealed i m tag spendSecret : payable -> sealed (kp_secretKey txkey) i m tag -> valid_message m -> me_encrypt m = true -> owns (spendPublicKey (me_addr m)) spendSecret ->
  decrypt TransactionApi.generate_key_derivation TransactionApi.fast_hash TransactionApi.chacha8 i (kp_publicKey txkey) (Some spendSecret) tag = Some (me_message m).
Proof.
  intros HP (E & Hb & Hl) [Hbm Hk] Henc Hown. unfold encrypt in E. rewrite Henc in E. unfold decrypt. rewrite (proj2 (Nat.ltb_ge _ _)) by (rewrite Hl; unfold TX_EXTRA_MESSAGE_CHECKSUM_SIZE; lia).
  rewrite (derivation_shared _ _ _ _ Hown (pay_txkey HP)). destruct (TransactionApi.generate_key_derivation (spendPublicKey (me_addr m)) (kp_secretKey txkey)) as [D|]; [|discriminate E]. cbn [mbind option_bind] in *. injection E as E.
  cbn [TransactionApi.chacha8 TransactionApi.fast_hash wallet_crypto] in *. rewrite <- E.
  rewrite chacha8_twice by (apply Forall_app; split; [exact Hbm|change [0; 0; 0; 0] with (replicate 4 0); apply Forall_replicate; unfold is_u8; lia]). rewrite E, Hl. unfold TX_EXTRA_MESSAGE_CHECKSUM_SIZE. replace (length (me_message m) + 4 - 4)%nat with (length (me_message m)) by lia.
  rewrite drop_app_length, take_app_length. reflexivity.
Qed.
Lemma decrypt_fields_elem gen hash cipher i txpub key tags rest j tag msg : tags !! j = Some tag -> decrypt gen hash cipher (i + Z.of_nat j) txpub key tag = Some msg ->
  msg ∈ decrypt_fields gen hash cipher i txpub key (map ExtraMessage tags ++ rest).
Proof.
  revert i j. induction tags as [|t tags IH]; intros i j Hj Hd; [by rewrite lookup_nil in Hj|]. cbn [map app decrypt_fields]. apply elem_of_app. destruct j as [|j].
  - left. injection Hj as ->. rewrite Z.add_0_r in Hd. rewrite Hd. by apply list_elem_of_singleton.
  - right. apply (IH (i + 1) j Hj). by replace (i + 1 + Z.of_nat j) with (i + Z.of_nat (S j)) by lia.
Qed.
Lemma message_delivered tx j m spendSecret : payable -> pays tx -> messages !! j = Some m -> me_encrypt m = true -> owns (spendPublicKey (me_addr m)) spendSecret ->
  exists l, get_messages_from_extra TransactionApi.generate_key_derivation TransactionApi.fast_hash TransactionApi.chacha8 (extra (prefix tx)) (kp_publicKey txkey) (Some spendSecret) = Ok l /\ me_message m ∈ l.
Proof.
  intros HP HT Hm Henc Hown. destruct (pays_extra tx HT) as (tags & Ee & Ht & Hseal). destruct (proj1 (owns_spec _ _) (pay_txkey HP)) as [_ Epub]. assert (Hpub : is_pod 32 (kp_publicKey txkey)) by (rewrite Epub; apply point_pod).
  destruct (payment_fields_wf _ tags ttl Hpub Ht (pay_ttl HP)) as [Hw Hl]. unfold get_messages_from_extra. rewrite Ee, (parse_write _ Hw Hl), bind_ok. eexists. split; [reflexivity|]. unfold payment_fields. cbn [decrypt_fields].
  destruct (Hseal j m Hm) as (tag & Htag & Hs). eapply decrypt_fields_elem; [exact Htag|]. rewrite Z.add_0_l. eapply decrypt_sealed; [exact HP|exact Hs| |exact Henc|exact Hown]. exact (proj1 (Forall_lookup _ _) (pay_messages HP) j m Hm).
Qed.

Lemma messages_read tx spendSecret : payable -> pays tx ->
  exists l, get_messages_from_extra TransactionApi.generate_key_derivation TransactionApi.fast_hash TransactionApi.chacha8 (extra (prefix tx)) (kp_publicKey txkey) (Some spendSecret) = Ok l.
Proof.
  intros HP HT. destruct (pays_extra tx HT) as (tags & Ee & Ht & _). destruct (proj1 (owns_spec _ _) (pay_txkey HP)) as [_ Epub]. assert (Hpub : is_pod 32 (kp_publicKey txkey)) by (rewrite Epub; apply point_pod).
  destruct (payment_fields_wf _ tags ttl Hpub Ht (pay_ttl HP)) as [Hw Hl]. unfold get_messages_from_extra. rewrite Ee, (parse_write _ Hw Hl), bind_ok. by eexists.
Qed.
Lemma pays_amounts tx : pays tx -> map out_amount (tx_outputs tx) ≡ₚ map de_amount dsts.
Proof.
  intros HT. rewrite <- (merge_sort_Permutation amount_le dsts). assert (Hl : length (merge_sort amount_le dsts) = length dsts) by (by rewrite merge_sort_Permutation). cut (map out_amount (tx_outputs tx) = map de_amount (merge_sort amount_le dsts)); [by intros ->|]. apply list_eq. intros j. unfold tx_outputs.
  rewrite (list_lookup_fmap out_amount), (list_lookup_fmap de_amount). destruct (merge_sort amount_le dsts !! j) as [d|] eqn:Hd.
  - destruct (pays_outputs tx HT j d Hd) as (o & -> & D & P & _ & _ & ->). reflexivity.
  - apply lookup_ge_None in Hd. rewrite (lookup_ge_None_2 (outputs (prefix tx))); [reflexivity|]. rewrite (pays_length tx HT). lia.
Qed.

End Payment.
End Payments.

(** * An order *)

#[local] Existing Instance debug_build.
#[local] Instance example_keys : KeyCrypto := wallet_crypto.
#[local] Instance example_node : Validation.Crypto := node_crypto (fun l => l) (fun l => l).

Definition key (n : Z) : list Z := digits 256 32 n.
Definition pub (n : Z) : list Z := point_bytes (zmul (value 256 (key n)) base).
Definition pair (n : Z) : KeyPair := {| kp_publicKey := pub n; kp_secretKey := key n |}.
Definition payer : AccountKeys := {| address := {| spendPublicKey := pub 5; viewPublicKey := pub 7 |}; spendSecretKey := key 5; viewSecretKey := key 7 |}.
Definition payee : AccountPublicAddress := {| spendPublicKey := pub 17; viewPublicKey := pub 19 |}.
(** The key of output 0 of a transaction with the key 13 to the payer. *)
Definition earlier : list Z := point_bytes (zmul (8 * value 256 (key 7)) (zmul (value 256 (key 13)) base)).
Definition coin : list Z := point_bytes (gadd (zmul (value 256 (key 5)) base) (zmul (value 256 (derivation_scalar earlier 0 None)) base)).
Definition coin_tx (k : list Z) : Transaction := tx_of [] [{| out_amount := 50; target := OutKey {| ko_key := k |} |}].
Definition coin_chain (k : list Z) : Blockchain := {|
  m_blocks := [spending_block (coin_tx k); spending_block empty_tx]; m_blockIndex := m_blockIndex sample_chain; m_depositIndex := empty_index; m_store := m_store sample_chain;
  m_alternative_chains := ∅; m_checkpoints := ∅; m_votingCompleteHeight := UNDEF_HEIGHT; m_current_block_cumul_sz_limit := 0; m_timestampIndex := [];
  m_generatedTransactionsIndex := GeneratedTransactionsIndex.empty; m_orthanBlocksIndex := ∅ |}.
Definition coin_source (k : list Z) : TransactionSourceEntry :=
  {| se_outputs := [(0, k)]; se_realOutput := 0; realTransactionPublicKey := pub 13; realOutputIndexInTransaction := 0; se_amount := 50 |}.
Definition order_payments : list TransactionDestinationEntry := [{| de_amount := 30; de_addr := payee |}; {| de_amount := 15; de_addr := payee |}].
Definition order_messages : list tx_message_entry := [{| me_message := [104; 105]; me_encrypt := true; me_addr := payee |}].

Lemma key_secret n : 0 <= n < 100 -> secret (key n).
Proof. intros Hn. apply secret_digits. assert (100 < order) by done. lia. Qed.
Lemma pub_owned n : 0 <= n < 100 -> owns (pub n) (key n).
Proof. intros Hn. apply owns_spec. split; [by apply key_secret|reflexivity]. Qed.
Lemma coin_ok k : valid_key (fun l => l) (fun l => l) k -> source_ok default_currency (coin_chain k) 0 (coin_source k).
Proof.
  intros Hk. split; [repeat constructor|]. split; [repeat constructor; unfold is_u32; cbn; lia|]. split; [split; [reflexivity|constructor; [exact Hk|constructor] ]|]. split; [unfold is_u64; cbn; lia|].
  exists [({| ti_block := 0; ti_transaction := 0 |}, 0)]. split; [reflexivity|]. constructor; [|constructor].
  exists {| ti_block := 0; ti_transaction := 0 |}, 0, {| te_tx := coin_tx k; m_global_output_indexes := [] |}, 50. split_and!; reflexivity.
Qed.
Lemma coin_owned : owned_source payer (coin_source coin).
Proof.
  exists earlier, coin. cbn [realTransactionPublicKey realOutputIndexInTransaction coin_source viewSecretKey payer address spendPublicKey se_outputs se_realOutput]. split; [|split; [|reflexivity] ].
  - apply derivation_total, key_secret. lia.
  - apply derive_public_key_total; [apply length_point_bytes|unfold is_u64; lia].
Qed.
Lemma order_payable ttl : is_u64 ttl -> payable (fun l => l) (fun l => l) default_currency (coin_chain coin) 0 (pair 11) payer [coin_source coin] order_payments order_messages ttl 0.
Proof.
  intros Ht.
  assert (Hp : forall n, valid_key (fun l => l) (fun l => l) (pub n)) by (intros n; apply point_valid_key). assert (Hd : forall a, 0 < a < 2 ^ 64 -> valid_destination (fun l => l) (fun l => l) {| de_amount := a; de_addr := payee |}) by (intros a Ha; split; [exact Ha|split; apply Hp]).
  split.
  - apply pub_owned. lia.
  - apply pub_owned. lia.
  - constructor; [apply coin_ok, point_valid_key|constructor].
  - constructor; [apply coin_owned|constructor].
  - constructor; [unfold is_u64; cbn; lia|constructor].
  - apply Z.leb_le. reflexivity.
  - constructor; [apply Hd; lia|]. constructor; [apply Hd; lia|constructor].
  - apply Z.leb_le. reflexivity.
  - constructor; [|constructor]. split; [repeat constructor; unfold is_u8; lia|intros _; apply Hp].
  - apply Z.leb_le. reflexivity.
  - exact Ht.
  - unfold is_u64. lia.
  - reflexivity.
  - apply Z.leb_le. reflexivity.
Qed.

