(* ===== verification/PaymentPool.v ===== *)
(** Payments from the wallet to the pool: the transaction that
    [constructTransaction] makes passes the checks of the core and of the chain
    and enters the pool of a node, with the functions of [crypto/] themselves. *)
From S2P Require Import Prelude IntUtil Keccak Chacha8 Varint Stream CryptoNote Serializer Serialization TransactionExtra Currency.
From S2P Require Import DepositIndex BlockIndex Checkpoints UpgradeDetector TreeHash BlockchainIndices ChainState Validation Blockchain TransactionPool PoolInvariant Reorganization TransactionApi TransactionConstruction.
From S2P Require Import Limbs ScalarOps FieldOps Group Edwards GroupOps ScalarMult HashToPoint Cofactor Crypto CryptoTheory Payments.

(** * Transactions with key inputs only *)

Section KeyInputs.
Implicit Types ins : list KeyInput.

Lemma key_images_keys ins : key_images (map InKey ins) = map keyImage ins.
Proof. induction ins as [|i ins IH]; [done|]. cbn. by rewrite <- IH. Qed.

Lemma keyimages_diff_keys ins ki :
  NoDup (map keyImage ins) -> (forall k, k ∈ map keyImage ins -> k ∉ ki) -> keyimages_diff ki (map InKey ins) = true.
Proof.
  revert ki. induction ins as [|i ins IH]; intros ki HN Hk; [done|]. cbn in *. apply NoDup_cons in HN as [Hn HN].
  rewrite decide_False by (apply Hk; left). apply IH; [done|]. intros k Hin.
  rewrite elem_of_union, elem_of_singleton. intros [->|?]; [done|]. by apply (Hk k); [right|].
Qed.

Lemma multisignature_diff_keys ins used : multisignature_inputs_diff used (map InKey ins) = true.
Proof. by induction ins. Qed.

Lemma no_overflow_sum money l :
  0 <= money -> Forall (fun x => 0 <= x) l -> money + sum_Z l < 2 ^ 64 -> no_sum_overflow money l = true.
Proof.
  intros Hm HF. revert money Hm. induction HF as [|x l Hx HF IH]; intros money Hm Hs; [done|].
  change (sum_Z (x :: l)) with (x + sum_Z l) in Hs. pose proof (sum_Z_nonneg l HF).
  cbn [no_sum_overflow]. rewrite !u64_small by (unfold is_u64; lia).
  destruct (Z.ltb_spec (x + money) money); [lia|]. apply IH; lia.
Qed.

Lemma inputs_no_overflow_keys money ins : inputs_no_overflow money (map InKey ins) = no_sum_overflow money (map ki_amount ins).
Proof. revert money. induction ins as [|i ins IH]; intros money; [done|]. cbn. case_match; [done|]. apply IH. Qed.

Lemma all_inputs_keys ins (m : Z) :
  fold_left (fun (acc : outcome Z) i => amount ← acc; v ← Currency.getTransactionInputAmount i; Ok (u64 (amount + v))) (map InKey ins) (Ok m) =
  Ok (fold_left (fun m x => u64 (m + x)) (map ki_amount ins) m).
Proof. revert m. induction ins as [|i ins IH]; intros m; [done|]. cbn [map fold_left]. apply IH. Qed.

(** The pool registers unused key images. *)
Lemma add_inputs_keys `{BuildConfig} id ins imgs outs :
  NoDup (map keyImage ins) -> (forall k, k ∈ map keyImage ins -> imgs !! k = None) ->
  exists imgs', add_inputs id false (map InKey ins) imgs outs = Ok (true, imgs', outs).
Proof.
  revert imgs. induction ins as [|i ins IH]; intros imgs HN Hk; [by eexists|]. cbn in HN. apply NoDup_cons in HN as [Hn HN].
  cbn [map add_inputs]. assert (Hi : imgs !! keyImage i = None) by (apply Hk; cbn; left). rewrite Hi. cbn [default from_option orb negb].
  rewrite size_empty. cbn [Nat.eqb negb]. rewrite decide_False by apply not_elem_of_empty. apply IH; [done|].
  intros k Hin. rewrite lookup_insert_ne by (intros <-; done). apply Hk. cbn. by right.
Qed.
End KeyInputs.

(** * The block of the youngest ring member *)

Section MaxUsed.
Context {B : BuildConfig} {K : Validation.Crypto}.
Variable m_currency : Currency.
Variables (bc : Blockchain) (now : Z).

Definition used_block (p : option Z) : Prop := match p with Some m => 0 <= m < zlen (m_blocks bc) | None => False end.

Lemma scan_outputs_used vec offsets keys pmax keys' pmax' :
  scan_outputs m_currency bc now vec offsets keys pmax = Ok (Some keys', pmax') -> used_block pmax -> used_block pmax'.
Proof.
  revert keys pmax. induction offsets as [|i offsets IH]; intros keys pmax E Hp; cbn [scan_outputs] in E; [congruence|].
  case_in E; [done|]. apply bind_Ok in E as ([idx o] & _ & E). apply bind_Ok in E as (e & He & E).
  case_in E; [done|]. apply bind_Ok in E as (out & _ & E). destruct (handle_output _ _ _ _ _) as [key|]; [|done].
  apply IH in E; [done|]. clear E IH. destruct offsets; [|done]. destruct pmax as [m|]; [|done]. cbn in *.
  unfold transactionByIndex in He. apply bind_Ok in He as (b & [H0 Hb]%sget_Ok & _). apply lookup_lt_Some in Hb.
  case_match; zbool; unfold zlen in *; lia.
Qed.

Lemma check_inputs_used tx h i ins pmax pmax' :
  check_inputs m_currency bc now tx h i ins pmax = Ok (true, pmax') -> used_block pmax -> used_block pmax'.
Proof.
  revert i pmax. induction ins as [|x ins IH]; intros i pmax E Hp; cbn [check_inputs] in E; [congruence|].
  apply bind_Ok in E as (_ & _ & E). destruct x as [x|x|x]; [done|..].
  - destruct (outputIndexes x) as [|o0 os] eqn:Eo; [done|]. case_in E; [done|]. case_in E; [by eapply IH|].
    apply bind_Ok in E as (sig & _ & E). apply bind_Ok in E as ([ok p1] & Ec & E). destruct ok; [|done].
    eapply IH; [exact E|]. unfold check_tx_input in Ec. apply bind_Ok in Ec as ([r p2] & Es & Ec). injection Ec as Er <-.
    destruct r as [ks|]; [|done]. unfold scanOutputKeysForIndexes in Es.
    destruct (m_outputs (m_store bc) !! ki_amount x); [|done]. rewrite Eo in Es. by eapply scan_outputs_used.
  - case_in E; [by eapply IH|]. apply bind_Ok in E as (sig & _ & E). apply bind_Ok in E as ([] & _ & E); [|done]. by eapply IH.
Qed.

(** The validator of the pool accepts what [checkTransactionInputs] accepts, if the
    blocks of the chain can be hashed. *)
Lemma validator_accepts tx :
  m_blocks bc <> [] -> Forall (fun e => exists id, get_block_hash_opt cn_fast_hash (bl e) = Ok id) (m_blocks bc) ->
  (exists m, checkTransactionInputs m_currency bc now tx (Some 0) = Ok (true, m)) -> check_tx_outputs m_currency tx = true ->
  exists b, chain_checkTransactionInputs m_currency now bc tx no_block = Ok (true, b).
Proof.
  intros Hne HB [m Hm] Ho. unfold chain_checkTransactionInputs, checkTransactionInputs_at. cbn [mbind outcome_bind].
  change (bi_height no_block) with 0. rewrite Hm. cbn [mbind outcome_bind negb].
  assert (Hu : used_block m).
  { unfold checkTransactionInputs in Hm. apply bind_Ok in Hm as ([ [? ?] ?] & _ & Hm). eapply check_inputs_used; [exact Hm|].
    cbn. destruct (m_blocks bc) as [|b0 bs]; [done|]. rewrite zlen_cons. pose proof (zlen_nonneg bs). lia. }
  destruct m as [m|]; [|done]. cbn [default from_option id]. cbn in Hu. rewrite (proj2 (Z.ltb_lt m (zlen (m_blocks bc)))) by lia. cbn [negb].
  destruct (sget_in_range (m_blocks bc) m Hu) as [e He]. rewrite He. cbn [mbind outcome_bind].
  apply sget_Ok in He as [_ He]. apply list_elem_of_lookup_2 in He. rewrite Forall_forall in HB. destruct (HB e He) as [id ->].
  cbn [mbind outcome_bind andb]. rewrite Ho. by eexists.
Qed.
End MaxUsed.

(** * From the wallet to the pool *)

Section Payment.
Context `{BuildConfig} (slow slow_v0 : list Z -> list Z).
#[local] Existing Instance wallet_crypto.
#[local] Instance pool_node : Validation.Crypto := node_crypto slow slow_v0.

Variable m_currency : Currency.
Variables (bc : Blockchain) (now : Z) (rnd : Z -> list Z) (txkey : KeyPair) (keys : AccountKeys) (sources : list TransactionSourceEntry) (dsts : list TransactionDestinationEntry).
Variables (messages : list tx_message_entry) (unlock_time : Z).

Local Notation payable := (payable slow slow_v0 m_currency bc now txkey keys sources dsts messages 0 unlock_time).
Local Notation pays tx := (pays txkey keys sources dsts messages 0 unlock_time tx).

Lemma pays_key_inputs tx : pays tx -> exists ins, tx_inputs tx = map InKey ins /\ map ki_amount ins = map se_amount sources.
Proof.
  intros HT. destruct (pays_inputs _ _ _ _ _ _ _ _ HT) as (ins & Ei & HF). exists (map fst ins). unfold tx_inputs. rewrite Ei, map_map.
  split; [done|]. rewrite <- (inputs_amounts keys sources ins HF), !map_map. done.
Qed.

Lemma pays_input_sum tx : payable -> pays tx -> getTransactionAllInputsAmount tx = Ok (sum_Z (map se_amount sources)).
Proof.
  intros HP HT. destruct (pays_key_inputs tx HT) as (ins & Ei & Ea). unfold getTransactionAllInputsAmount.
  rewrite Ei, all_inputs_keys, Ea. f_equal. apply fold_small; [|apply (pay_no_overflow _ _ _ _ _ _ _ _ _ _ _ _ HP)].
  apply Forall_map. eapply Forall_impl; [apply (pay_source_amounts _ _ _ _ _ _ _ _ _ _ _ _ HP)|]. intros x [Hx _]. exact Hx.
Qed.

Lemma destination_amounts : payable -> Forall (fun x => 0 <= x) (map de_amount dsts).
Proof. intros HP. apply Forall_map. eapply Forall_impl; [apply (pay_destinations _ _ _ _ _ _ _ _ _ _ _ _ HP)|]. intros x [ [Hx _] _]. cbn. lia. Qed.

Lemma pays_output_sum tx : payable -> pays tx -> get_outs_money_amount tx = sum_Z (map de_amount dsts).
Proof.
  intros HP HT. pose proof (pays_amounts _ _ _ _ _ _ _ _ HT) as Ep. pose proof (destination_amounts HP) as HF.
  pose proof (pay_covered _ _ _ _ _ _ _ _ _ _ _ _ HP). pose proof (pay_no_overflow _ _ _ _ _ _ _ _ _ _ _ _ HP).
  unfold get_outs_money_amount, sum_u64. rewrite fold_small; [by rewrite Ep|by rewrite Ep|rewrite Ep; lia].
Qed.

Lemma pays_outputs_valid tx : payable -> pays tx -> check_outs_valid Validation.check_key (prefix tx) true = Ok true.
Proof.
  intros HP HT. unfold check_outs_valid. pose proof (pays_outputs _ _ _ _ _ _ _ _ HT) as HO.
  pose proof (pays_length _ _ _ _ _ _ _ _ HT) as HL.
  assert (HF : Forall (fun o => exists a P, 0 < a /\ o = {| out_amount := a; target := OutKey {| ko_key := point_bytes P |} |}) (outputs (prefix tx))).
  { apply Forall_lookup. intros j o Ho.
    destruct (lookup_lt_is_Some_2 (merge_sort amount_le dsts) j) as [d Hd].
    { apply lookup_lt_Some in Ho. rewrite merge_sort_Permutation. lia. }
    destruct (HO j d Hd) as (o' & Ho' & D & P & _ & _ & ->). rewrite Ho in Ho'. injection Ho' as ->. exists (de_amount d), P.
    split; [|done]. apply list_elem_of_lookup_2 in Hd. rewrite merge_sort_Permutation in Hd.
    pose proof (pay_destinations _ _ _ _ _ _ _ _ _ _ _ _ HP) as HD. rewrite Forall_forall in HD. destruct (HD d Hd) as [ [? _] _]. done. }
  clear HO HL HT. induction HF as [|o l (a & P & Ha & ->) HF IH]; [done|]. cbn [outs_valid output_valid target out_amount ko_key].
  destruct (Z.eqb_spec a 0); [lia|]. cbn [mbind outcome_bind].
  pose proof (point_valid_key slow slow_v0 P) as [_ E]. change (Validation.check_key (point_bytes P) = true) in E. rewrite E. exact IH.
Qed.

Lemma pays_semantic tx : payable -> sources <> [] -> pays tx -> NoDup (key_images (tx_inputs tx)) -> check_tx_semantic tx = Ok true.
Proof.
  intros HP Hne HT HN. destruct (pays_key_inputs tx HT) as (ins & Ei & Ea). unfold check_tx_semantic.
  assert (Hi : tx_inputs tx <> []) by (rewrite Ei; destruct ins, sources; done).
  destruct (tx_inputs tx) as [|i0 l] eqn:El; [done|]. rewrite <- El in *. clear Hi.
  assert (Es : check_inputs_types_supported (prefix tx) = true).
  { unfold check_inputs_types_supported. change (inputs (prefix tx)) with (tx_inputs tx). rewrite Ei. clear. by induction ins. }
  rewrite Es. cbn [negb]. rewrite (pays_outputs_valid tx HP HT). cbn [mbind outcome_bind negb].
  pose proof (pay_no_overflow _ _ _ _ _ _ _ _ _ _ _ _ HP) as Hno. pose proof (pay_covered _ _ _ _ _ _ _ _ _ _ _ _ HP) as Hc.
  assert (Eo : check_money_overflow (prefix tx) = true).
  { unfold check_money_overflow, check_inputs_overflow, check_outs_overflow.
    change (inputs (prefix tx)) with (tx_inputs tx). rewrite Ei, inputs_no_overflow_keys, Ea, no_overflow_sum; [cbn [andb]|lia| |lia].
    - pose proof (pays_amounts _ _ _ _ _ _ _ _ HT) as Ep. unfold tx_outputs in Ep. pose proof (destination_amounts HP).
      apply no_overflow_sum; [lia|by rewrite Ep|rewrite Ep; lia].
    - apply Forall_map. eapply Forall_impl; [apply (pay_source_amounts _ _ _ _ _ _ _ _ _ _ _ _ HP)|]. intros x [Hx _]. exact Hx. }
  rewrite Eo. cbn [negb]. rewrite (pays_input_sum tx HP HT). cbn [mbind outcome_bind]. rewrite (pays_output_sum tx HP HT).
  destruct (Z.ltb_spec (sum_Z (map se_amount sources)) (sum_Z (map de_amount dsts))); [lia|].
  unfold check_tx_inputs_keyimages_diff, checkMultisignatureInputsDiff. change (inputs (prefix tx)) with (tx_inputs tx).
  rewrite Ei in *. rewrite key_images_keys in HN. rewrite keyimages_diff_keys; [|done|intros k _; apply not_elem_of_empty].
  cbn [negb]. by rewrite multisignature_diff_keys.
Qed.

Lemma pays_ttl tx : payable -> pays tx -> get_ttl tx = Ok 0.
Proof.
  intros HP HT. destruct (pays_extra _ _ _ _ _ _ _ _ HT) as (tags & Ee & Ht & _).
  destruct (proj1 (owns_spec _ _) (pay_txkey _ _ _ _ _ _ _ _ _ _ _ _ HP)) as [_ Epub].
  assert (Hpub : is_pod 32 (kp_publicKey txkey)) by (rewrite Epub; apply point_pod).
  destruct (payment_fields_wf _ tags 0 Hpub Ht ltac:(unfold is_u64; lia)) as [Hw Hl].
  unfold get_ttl, tx_extra. rewrite Ee, (parse_write _ Hw Hl). cbn [mbind outcome_bind]. f_equal.
  unfold payment_fields, ttl_fields. cbn [find_field as_ttl]. rewrite Z.eqb_refl, app_nil_r. clear. by induction tags.
Qed.

Lemma moved_indexed tx index : payable -> pays tx -> exists r, PaymentIdIndex.add cn_fast_hash index (moved_from tx) = Ok r.
Proof.
  intros HP HT. destruct (pays_version _ _ _ _ _ _ _ _ HT) as [Ev Eu].
  assert (Hw : wf_tx (moved_from tx)).
  { unfold moved_from, wf_tx, wf_prefix, wf_signatures, tx_version, tx_unlockTime. cbn. rewrite Ev, Eu.
    split; [|by repeat split; try constructor]. split; [unfold TRANSACTION_VERSION_1; lia|].
    split; [apply (pay_unlock _ _ _ _ _ _ _ _ _ _ _ _ HP)|]. by repeat split; try constructor. }
  unfold PaymentIdIndex.add, PaymentIdIndex.entry_of, getObjectHash.
  rewrite (proj1 (whole_object _ _ _ codec_Transaction) _ Hw). cbn [mbind outcome_bind]. unfold PaymentIdIndex.getPaymentId, tx_extra, moved_from.
  cbn [prefix extra]. cbn. by eexists.
Qed.

End Payment.

(** * An order *)

#[local] Existing Instance debug_build.
#[local] Existing Instance wallet_crypto.
Local Notation order_node := (pool_node (fun l => l) (fun l => l)).

Lemma keccak_pod l : is_pod 32 (keccak_hash l).
Proof.
  apply is_pod_scalar. unfold keccak_hash, Keccak.cn_fast_hash, hash_process.
  destruct (to_int (zlen l) <? 0); [split; [repeat constructor; unfold is_u8; lia|reflexivity]|].
  rewrite keccak1600_sponge, bind_ok. cbn [total]. destruct (hash_bytes (take (Z.to_nat (to_int (zlen l))) l)). by split.
Qed.

Lemma coin_blocks k : Forall (fun e => exists id, get_block_hash_opt (@Validation.cn_fast_hash order_node) (bl e) = Ok id) (m_blocks (coin_chain k)).
Proof.
  assert (E : exists id, get_block_hash_opt (@Validation.cn_fast_hash order_node) sample_block = Ok id).
  { change (@Validation.cn_fast_hash order_node) with keccak_hash. destruct (block_hash_form keccak_hash keccak_pod sample_block wf_sample_block) as (r & _ & _ & Eb & _).
    unfold get_block_hash_opt. rewrite Eb. by eexists. }
  constructor; [exact E|]. constructor; [exact E|constructor].
Qed.

