(* ===== verification/KVBinary.v ===== *)
(** The key-value binary format of the messages between nodes:
    [Serialization/KVBinaryCommon.h], [KVBinaryInputStreamSerializer.cpp] with
    the base class [JsonInputValueSerializer.cpp], and
    [KVBinaryOutputStreamSerializer.cpp].

    The reader first parses the whole input into a [JsonValue] and then answers
    the calls of a [serialize] function from that tree; the writer is a stack of
    open objects and arrays over a stack of buffers.  Both implement the named
    serializer interface [KVSerializer], the one of [ISerializer.h] with the
    names of the fields. *)
From Stdlib Require Floats.SpecFloat.
From S2P Require Import Prelude Varint Stream Serializer.

(** * [KVBinaryCommon.h] *)

Definition PORTABLE_STORAGE_SIGNATUREA : Z := 16847105.   (* 0x01011101 *)
Definition PORTABLE_STORAGE_SIGNATUREB : Z := 16908545.   (* 0x01020101 *)
Definition PORTABLE_STORAGE_FORMAT_VER : Z := 1.

Definition PORTABLE_RAW_SIZE_MARK_MASK : Z := 3.
Definition PORTABLE_RAW_SIZE_MARK_BYTE : Z := 0.
Definition PORTABLE_RAW_SIZE_MARK_WORD : Z := 1.
Definition PORTABLE_RAW_SIZE_MARK_DWORD : Z := 2.
Definition PORTABLE_RAW_SIZE_MARK_INT64 : Z := 3.

Definition BIN_KV_SERIALIZE_TYPE_INT64 : Z := 1.
Definition BIN_KV_SERIALIZE_TYPE_INT32 : Z := 2.
Definition BIN_KV_SERIALIZE_TYPE_INT16 : Z := 3.
Definition BIN_KV_SERIALIZE_TYPE_INT8 : Z := 4.
Definition BIN_KV_SERIALIZE_TYPE_UINT64 : Z := 5.
Definition BIN_KV_SERIALIZE_TYPE_UINT32 : Z := 6.
Definition BIN_KV_SERIALIZE_TYPE_UINT16 : Z := 7.
Definition BIN_KV_SERIALIZE_TYPE_UINT8 : Z := 8.
Definition BIN_KV_SERIALIZE_TYPE_DOUBLE : Z := 9.
Definition BIN_KV_SERIALIZE_TYPE_STRING : Z := 10.
Definition BIN_KV_SERIALIZE_TYPE_BOOL : Z := 11.
Definition BIN_KV_SERIALIZE_TYPE_OBJECT : Z := 12.
Definition BIN_KV_SERIALIZE_TYPE_ARRAY : Z := 13.
Definition BIN_KV_SERIALIZE_FLAG_ARRAY : Z := 128.

(** * [JsonValue]

    An object is a [std::map]; the code only looks names up, counts the
    entries and adds with [emplace], so the order of the entries does not
    matter and an association list without duplicate names stands for the map.
    A [double] is its eight bytes. *)

Inductive JsonValue :=
| ARRAY (a : list JsonValue)
| BOOL (b : bool)
| INTEGER (i : Z)
| NIL
| OBJECT (o : list (list Z * JsonValue))
| REAL (r : list Z)
| STRING (s : list Z).

Definition JsonObject : Type := list (list Z * JsonValue).

Fixpoint object_find (key : list Z) (o : JsonObject) : option JsonValue :=
  match o with
  | [] => None
  | (k, v) :: o => if decide (k = key) then Some v else object_find key o
  end.

Definition isArray (v : JsonValue) : bool := match v with ARRAY _ => true | _ => false end.
Definition isObject (v : JsonValue) : bool := match v with OBJECT _ => true | _ => false end.

Definition getObject (v : JsonValue) : outcome JsonObject :=
  match v with OBJECT o => Ok o | _ => Throw runtime_error end.
Definition getInteger (v : JsonValue) : outcome Z :=
  match v with INTEGER i => Ok i | _ => Throw runtime_error end.
Definition getBool (v : JsonValue) : outcome bool :=
  match v with BOOL b => Ok b | _ => Throw runtime_error end.
Definition getString (v : JsonValue) : outcome (list Z) :=
  match v with STRING s => Ok s | _ => Throw runtime_error end.

Definition json_size (v : JsonValue) : outcome Z :=
  match v with
  | ARRAY a => Ok (zlen a)
  | OBJECT o => Ok (zlen o)
  | _ => Throw runtime_error
  end.

(** [operator[]]: [at] on the vector. *)
Definition json_index (v : JsonValue) (index : Z) : outcome JsonValue :=
  match v with
  | ARRAY a => match a !! Z.to_nat index with Some x => Ok x | None => Throw out_of_range end
  | _ => Throw runtime_error
  end.

(** [operator()]: [at] on the map. *)
Definition json_at (v : JsonValue) (key : list Z) : outcome JsonValue :=
  o ← getObject v;
  match object_find key o with Some x => Ok x | None => Throw out_of_range end.

Definition json_contains (v : JsonValue) (key : list Z) : outcome bool :=
  o ← getObject v; Ok (match object_find key o with Some _ => true | None => false end).

(** [insert]: [emplace] leaves an entry that is already there. *)
Definition object_emplace (key : list Z) (v : JsonValue) (o : JsonObject) : JsonObject :=
  match object_find key o with Some _ => o | None => o ++ [(key, v)] end.

(** * The parser *)

Section Parser.
Context {S : Type} `{IInputStream S} {B : BuildConfig}.

(** [read(s, data, size)] of [StreamTools]. *)
Definition kv_read (size : nat) : ser S (list Z) := fun s => read s size.

Fixpoint kv_readVarint_loop (n : nat) (i value : Z) : ser S Z :=
  match n with
  | O => mret value
  | Datatypes.S n =>
      c ← read_uint8;
      kv_readVarint_loop n (i + 1) (Z.lor value (u64 (Z.shiftl c (i * 8))))
  end.

Definition kv_readVarint : ser S Z :=
  b ← read_uint8;
  let size_mask := Z.land b PORTABLE_RAW_SIZE_MARK_MASK in
  let bytesLeft :=
    if size_mask =? PORTABLE_RAW_SIZE_MARK_BYTE then 0%nat
    else if size_mask =? PORTABLE_RAW_SIZE_MARK_WORD then 1%nat
    else if size_mask =? PORTABLE_RAW_SIZE_MARK_DWORD then 3%nat
    else if size_mask =? PORTABLE_RAW_SIZE_MARK_INT64 then 7%nat
    else 0%nat in
  value ← kv_readVarint_loop bytesLeft 1 b;
  mret (Z.shiftr value 2).

Definition kv_readString : ser S (list Z) :=
  size ← kv_readVarint;
  if 100 * 1024 * 1024 <? size then ser_throw runtime_error
  else if size =? 0 then mret [] else kv_read (Z.to_nat size).

(** [readName(s, name)]: an empty name leaves the variable as it was. *)
Definition readName (name : list Z) : ser S (list Z) :=
  len ← read_uint8;
  if len =? 0 then mret name else kv_read (Z.to_nat len).

Definition readIntegerJson (readPod : ser S Z) : ser S JsonValue :=
  v ← readPod; mret (INTEGER (i64 v)).

(** The loops [while (count--)].  Every iteration consumes a byte or throws, so
    as many iterations as there are bytes are enough. *)
Fixpoint loadSection_loop (loadEntry : ser S JsonValue) (fuel : nat) (count : Z)
    (name : list Z) (sec : JsonObject) : ser S JsonObject :=
  if count =? 0 then mret sec else
  match fuel with
  | O => fun _ => Undefined
  | Datatypes.S fuel =>
      name ← readName name;
      v ← loadEntry;
      loadSection_loop loadEntry fuel (count - 1) name (object_emplace name v sec)
  end.

Fixpoint loadArray_loop (loadItem : ser S JsonValue) (fuel : nat) (count : Z)
    (arr : list JsonValue) : ser S (list JsonValue) :=
  if count =? 0 then mret arr else
  match fuel with
  | O => fun _ => Undefined
  | Datatypes.S fuel =>
      v ← loadItem;
      loadArray_loop loadItem fuel (count - 1) (arr ++ [v])
  end.

(** The functions that call [loadValue] back, with it as an argument. *)
Definition loadArray_with (loadValue : Z -> ser S JsonValue) (fuel : nat) (itemType : Z)
  : ser S JsonValue :=
  count ← kv_readVarint;
  arr ← loadArray_loop (loadValue itemType) fuel count [];
  mret (ARRAY arr).

Definition loadEntry_with (loadValue : Z -> ser S JsonValue) (fuel : nat) : ser S JsonValue :=
  type ← read_uint8;
  if negb (Z.land type BIN_KV_SERIALIZE_FLAG_ARRAY =? 0) then
    loadArray_with loadValue fuel (Z.land type 127)
  else loadValue type.

Definition loadSection_with (loadValue : Z -> ser S JsonValue) (fuel : nat) : ser S JsonValue :=
  count ← kv_readVarint;
  sec ← loadSection_loop (loadEntry_with loadValue fuel) fuel count [] [];
  mret (OBJECT sec).

(** Every level of nesting consumes a byte before it goes deeper: fuel above
    the number of bytes left is enough. *)
Fixpoint loadValue (fuel : nat) (type : Z) : ser S JsonValue :=
  match fuel with
  | O => fun _ => Undefined
  | Datatypes.S fuel =>
      if type =? BIN_KV_SERIALIZE_TYPE_INT64 then readIntegerJson (read_sint 8)
      else if type =? BIN_KV_SERIALIZE_TYPE_INT32 then readIntegerJson (read_sint 4)
      else if type =? BIN_KV_SERIALIZE_TYPE_INT16 then readIntegerJson (read_sint 2)
      else if type =? BIN_KV_SERIALIZE_TYPE_INT8 then readIntegerJson (read_sint 1)
      else if type =? BIN_KV_SERIALIZE_TYPE_UINT64 then readIntegerJson (read_uint 8)
      else if type =? BIN_KV_SERIALIZE_TYPE_UINT32 then readIntegerJson (read_uint 4)
      else if type =? BIN_KV_SERIALIZE_TYPE_UINT16 then readIntegerJson (read_uint 2)
      else if type =? BIN_KV_SERIALIZE_TYPE_UINT8 then readIntegerJson (read_uint 1)
      else if type =? BIN_KV_SERIALIZE_TYPE_DOUBLE then
        r ← kv_read 8; mret (REAL r)
      else if type =? BIN_KV_SERIALIZE_TYPE_BOOL then
        b ← read_uint8; mret (BOOL (negb (b =? 0)))
      else if type =? BIN_KV_SERIALIZE_TYPE_STRING then
        str ← kv_readString; mret (STRING str)
      else if type =? BIN_KV_SERIALIZE_TYPE_OBJECT then
        loadSection_with (loadValue fuel) fuel
      else if type =? BIN_KV_SERIALIZE_TYPE_ARRAY then
        loadArray_with (loadValue fuel) fuel type
      else ser_throw runtime_error
  end.

Definition loadEntry (fuel : nat) : ser S JsonValue := loadEntry_with (loadValue fuel) fuel.
Definition loadArray (fuel : nat) : Z -> ser S JsonValue := loadArray_with (loadValue fuel) fuel.
Definition loadSection (fuel : nat) : ser S JsonValue := loadSection_with (loadValue fuel) fuel.

(** [hdr] is a packed structure of nine bytes. *)
Definition parseBinary (fuel : nat) : ser S JsonValue :=
  hdr ← kv_read 9;
  if negb (le_combine (take 4 hdr) =? PORTABLE_STORAGE_SIGNATUREA)
     || negb (le_combine (take 4 (drop 4 hdr)) =? PORTABLE_STORAGE_SIGNATUREB)
  then ser_throw runtime_error
  else if negb (le_combine (drop 8 hdr) =? PORTABLE_STORAGE_FORMAT_VER) then ser_throw runtime_error
  else loadSection fuel.
End Parser.

(** * The named serializer interface

    The operations of [ISerializer.h].  An operation on a value takes it by
    reference and returns whether it found it: here it takes the old value and
    returns the flag and the new value. *)

Record KVSerializer (S : Type) := {
  kv_type : SerializerType;
  kv_beginObject : list Z -> ser S bool;
  kv_endObject : ser S unit;
  kv_beginArray : Z -> list Z -> ser S (bool * Z);
  kv_endArray : ser S unit;
  kv_uint8 : list Z -> Z -> ser S (bool * Z);
  kv_int16 : list Z -> Z -> ser S (bool * Z);
  kv_uint16 : list Z -> Z -> ser S (bool * Z);
  kv_int32 : list Z -> Z -> ser S (bool * Z);
  kv_uint32 : list Z -> Z -> ser S (bool * Z);
  kv_int64 : list Z -> Z -> ser S (bool * Z);
  kv_uint64 : list Z -> Z -> ser S (bool * Z);
  kv_double : list Z -> list Z -> ser S (bool * list Z);
  kv_bool : list Z -> bool -> ser S (bool * bool);
  kv_string : list Z -> list Z -> ser S (bool * list Z);
  kv_binary : nat -> list Z -> list Z -> ser S (bool * list Z);
  kv_binary_string : list Z -> list Z -> ser S (bool * list Z);
}.
Arguments kv_type {S}.
Arguments kv_beginObject {S}.
Arguments kv_endObject {S}.
Arguments kv_beginArray {S}.
Arguments kv_endArray {S}.
Arguments kv_uint8 {S}.
Arguments kv_int16 {S}.
Arguments kv_uint16 {S}.
Arguments kv_int32 {S}.
Arguments kv_uint32 {S}.
Arguments kv_int64 {S}.
Arguments kv_uint64 {S}.
Arguments kv_double {S}.
Arguments kv_bool {S}.
Arguments kv_string {S}.
Arguments kv_binary {S}.
Arguments kv_binary_string {S}.

(** Lifts an outcome that does not touch the state. *)
Definition ser_lift {S A} (m : outcome A) : ser S A := fun s => a ← m; Ok (a, s).

(** * The reader

    [chain] and [idxs] are stacks; their backs are the heads of the lists.  The
    pointers of [chain] point into the parsed value, which nobody changes, so a
    pointer is the value it points to. *)

Record JsonInputValueSerializer := { chain : list JsonValue; idxs : list Z }.

Section Reader.
Context {B : BuildConfig}.
Local Notation M := (ser JsonInputValueSerializer).

(** [chain.back()]. *)
Definition chain_back : M JsonValue := fun s =>
  match chain s with v :: _ => Ok (v, s) | [] => Undefined end.

(** [idxs.back()++]: the old value; undefined on an empty vector. *)
Definition idxs_next : M Z := fun s =>
  match idxs s with
  | i :: r => Ok (i, {| chain := chain s; idxs := u64 (i + 1) :: r |})
  | [] => Undefined
  end.

Definition chain_push (v : JsonValue) : M unit := fun s =>
  Ok (tt, {| chain := v :: chain s; idxs := idxs s |}).

Definition idxs_push : M unit := fun s =>
  Ok (tt, {| chain := chain s; idxs := 0 :: idxs s |}).

Definition in_getValue (name : list Z) : M (option JsonValue) :=
  val ← chain_back;
  if isArray val then i ← idxs_next; v ← ser_lift (json_index val i); mret (Some v)
  else
    c ← ser_lift (json_contains val name);
    if c : bool then v ← ser_lift (json_at val name); mret (Some v) else mret None.

Definition in_beginObject (name : list Z) : M bool :=
  parent ← chain_back;
  if isArray parent then
    i ← idxs_next; v ← ser_lift (json_index parent i); _ ← chain_push v; mret true
  else
    c ← ser_lift (json_contains parent name);
    if c : bool then v ← ser_lift (json_at parent name); _ ← chain_push v; mret true
    else mret false.

Definition in_endObject : M unit := fun s =>
  _ ← massert (negb (bool_decide (chain s = [])));
  match chain s with
  | _ :: r => Ok (tt, {| chain := r; idxs := idxs s |})
  | [] => Undefined
  end.

Definition in_beginArray_kv (size : Z) (name : list Z) : M (bool * Z) :=
  parent ← chain_back;
  c ← ser_lift (json_contains parent name);
  if c : bool then
    arr ← ser_lift (json_at parent name);
    size ← ser_lift (json_size arr);
    _ ← chain_push arr;
    _ ← idxs_push;
    mret (true, size)
  else mret (false, 0).

Definition in_endArray : M unit := fun s =>
  _ ← massert (negb (bool_decide (chain s = [])));
  _ ← massert (negb (bool_decide (idxs s = [])));
  match chain s, idxs s with
  | _ :: c, _ :: i => Ok (tt, {| chain := c; idxs := i |})
  | _, _ => Undefined
  end.

(** [getNumber], for a conversion [static_cast<T>]. *)
Definition getNumber (cast : Z -> Z) (name : list Z) (v : Z) : M (bool * Z) :=
  ptr ← in_getValue name;
  match ptr with
  | None => mret (false, v)
  | Some j => i ← ser_lift (getInteger j); mret (true, cast i)
  end.

(** [static_cast<double>] of an integer, as the eight bytes of the result: the
    nearest binary64, which for a nonzero integer of 64 bits is normal. *)
Definition double_of_integer (i : Z) : list Z :=
  match SpecFloat.binary_normalize 53 1024 i 0 false with
  | SpecFloat.S754_finite s m e =>
      le_split 8 ((if s then 2 ^ 63 else 0) + Z.shiftl (e + 1075) 52 + (Z.pos m - 2 ^ 52))
  | _ => le_split 8 0
  end.

(** The [double] overload goes through [getInteger] too: a [REAL] throws. *)
Definition getNumber_double (name v : list Z) : M (bool * list Z) :=
  ptr ← in_getValue name;
  match ptr with
  | None => mret (false, v)
  | Some j => i ← ser_lift (getInteger j); mret (true, double_of_integer i)
  end.

Definition in_kv_string (name value : list Z) : M (bool * list Z) :=
  ptr ← in_getValue name;
  match ptr with
  | None => mret (false, value)
  | Some j => str ← ser_lift (getString j); mret (true, str)
  end.

Definition in_kv_bool (name : list Z) (value : bool) : M (bool * bool) :=
  ptr ← in_getValue name;
  match ptr with
  | None => mret (false, value)
  | Some j => b ← ser_lift (getBool j); mret (true, b)
  end.

(** [KVBinaryInputStreamSerializer::binary(void*, size_t, StringView)]. *)
Definition in_kv_binary (size : nat) (name value : list Z) : M (bool * list Z) :=
  '(b, str) ← in_kv_string name [];
  if b : bool then
    if (length str =? size)%nat then mret (true, str) else ser_throw runtime_error
  else mret (false, value).

Definition KVInput : KVSerializer JsonInputValueSerializer := {|
  kv_type := INPUT;
  kv_beginObject := in_beginObject;
  kv_endObject := in_endObject;
  kv_beginArray := in_beginArray_kv;
  kv_endArray := in_endArray;
  kv_uint8 := getNumber u8;
  kv_int16 := getNumber (fun i => signed 16 (u16 i));
  kv_uint16 := getNumber u16;
  kv_int32 := getNumber (fun i => signed 32 (u32 i));
  kv_uint32 := getNumber u32;
  kv_int64 := getNumber (fun i => i);
  kv_uint64 := getNumber u64;
  kv_double := getNumber_double;
  kv_bool := in_kv_bool;
  kv_string := in_kv_string;
  kv_binary := in_kv_binary;
  kv_binary_string := in_kv_string;
|}.

(** The constructor: parse, and require an object. *)
Definition KVBinaryInputStreamSerializer_new {S} `{IInputStream S} (fuel : nat) (strm : S)
  : outcome JsonInputValueSerializer :=
  '(value, _) ← parseBinary fuel strm;
  if isObject value then Ok {| chain := [value]; idxs := [] |} else Throw runtime_error.
End Reader.

(** * The writer

    [m_stack] and [m_objectsStack] are stacks with their backs first; a
    [MemoryStream] is the bytes written to it. *)

Inductive State := Root | Object | ArrayPrefix | Array.

#[export] Instance State_eq_dec : EqDecision State.
Proof. solve_decision. Defined.

Record Level := { l_state : State; l_name : list Z; l_count : Z }.

Record KVBinaryOutputStreamSerializer := {
  m_objectsStack : list (list Z);
  m_stack : list Level;
}.

Section Writer.
Context {B : BuildConfig}.
Local Notation M := (ser KVBinaryOutputStreamSerializer).

(** [write(stream(), data, size)]. *)
Definition out_write (data : list Z) : M unit := fun s =>
  match m_objectsStack s with
  | [] => _ ← massert false; Undefined
  | out :: r =>
      out ← write out data;
      Ok (tt, {| m_objectsStack := out :: r; m_stack := m_stack s |})
  end.

(** [m_stack.back()] and its update. *)
Definition level_back : M Level := fun s =>
  match m_stack s with l :: _ => Ok (l, s) | [] => Undefined end.
Definition level_set (l : Level) : M unit := fun s =>
  match m_stack s with
  | _ :: r => Ok (tt, {| m_objectsStack := m_objectsStack s; m_stack := l :: r |})
  | [] => Undefined
  end.
Definition level_push (l : Level) : M unit := fun s =>
  Ok (tt, {| m_objectsStack := m_objectsStack s; m_stack := l :: m_stack s |}).
Definition level_pop : M unit := fun s =>
  match m_stack s with
  | _ :: r => Ok (tt, {| m_objectsStack := m_objectsStack s; m_stack := r |})
  | [] => Undefined
  end.

(** [m_objectsStack.push_back(MemoryStream())], and taking its back. *)
Definition object_push : M unit := fun s =>
  Ok (tt, {| m_objectsStack := [] :: m_objectsStack s; m_stack := m_stack s |}).
Definition object_pop : M (list Z) := fun s =>
  match m_objectsStack s with
  | o :: r => Ok (o, {| m_objectsStack := r; m_stack := m_stack s |})
  | [] => Undefined
  end.

(** [packVarint<T>] writes the [sizeof(T)] bytes of this value. *)
Definition packVarint (n : nat) (type_or pv : Z) : list Z :=
  le_split n (Z.lor ((Z.shiftl pv 2) mod 2 ^ (8 * Z.of_nat n)) type_or).

Definition writeArraySize (val : Z) : outcome (list Z) :=
  if val <=? 63 then Ok (packVarint 1 PORTABLE_RAW_SIZE_MARK_BYTE val)
  else if val <=? 16383 then Ok (packVarint 2 PORTABLE_RAW_SIZE_MARK_WORD val)
  else if val <=? 1073741823 then Ok (packVarint 4 PORTABLE_RAW_SIZE_MARK_DWORD val)
  else if 4611686018427387903 <? val then Throw runtime_error
  else Ok (packVarint 8 PORTABLE_RAW_SIZE_MARK_INT64 val).

Definition out_writeArraySize (val : Z) : M unit :=
  d ← ser_lift (writeArraySize val); out_write d.

Definition writeElementName (name : list Z) : M unit :=
  if 255 <? zlen name then ser_throw runtime_error
  else _ ← out_write [zlen name]; out_write name.

Definition checkArrayPreamble (type : Z) : M unit := fun s =>
  match m_stack s with
  | [] => Ok (tt, s)
  | level :: _ =>
      if decide (l_state level = ArrayPrefix) then
        (_ ← writeElementName (l_name level);
         _ ← out_write [Z.lor BIN_KV_SERIALIZE_FLAG_ARRAY type];
         _ ← out_writeArraySize (l_count level);
         level_set {| l_state := Array; l_name := l_name level; l_count := l_count level |}) s
      else Ok (tt, s)
  end.

Definition writeElementPrefix (type : Z) (name : list Z) : M unit := fun s =>
  _ ← massert (negb (bool_decide (m_stack s = [])));
  (_ ← checkArrayPreamble type;
   level ← level_back;
   if decide (l_state level = Array) then mret tt
   else
     _ ← (if bool_decide (name = []) then mret tt
          else _ ← writeElementName name; out_write [type]);
     level_set {| l_state := l_state level; l_name := l_name level;
                  l_count := u64 (l_count level + 1) |}) s.

Definition out_beginObject (name : list Z) : M bool :=
  _ ← checkArrayPreamble BIN_KV_SERIALIZE_TYPE_OBJECT;
  _ ← level_push {| l_state := Object; l_name := name; l_count := 0 |};
  _ ← object_push;
  mret true.

Definition out_endObject : M unit := fun s =>
  _ ← massert (negb (bool_decide (m_objectsStack s = [])));
  (level ← level_back;
   _ ← level_pop;
   objStream ← object_pop;
   _ ← writeElementPrefix BIN_KV_SERIALIZE_TYPE_OBJECT (l_name level);
   _ ← out_writeArraySize (l_count level);
   out_write objStream) s.

Definition out_beginArray_kv (size : Z) (name : list Z) : M (bool * Z) :=
  _ ← level_push {| l_state := ArrayPrefix; l_name := name; l_count := size |};
  mret (true, size).

Definition out_endArray : M unit :=
  back ← level_back;
  let validArray := bool_decide (l_state back = Array) in
  _ ← level_pop;
  level ← level_back;
  if bool_decide (l_state level = Object) && validArray then
    level_set {| l_state := l_state level; l_name := l_name level; l_count := u64 (l_count level + 1) |}
  else mret tt.

(** [writeElementPrefix] followed by [writePod]. *)
Definition out_pod {A} (type : Z) (bytes : list Z) (name : list Z) (value : A) : M (bool * A) :=
  _ ← writeElementPrefix type name; _ ← out_write bytes; mret (true, value).

Definition out_kv_string (name value : list Z) : M (bool * list Z) :=
  _ ← writeElementPrefix BIN_KV_SERIALIZE_TYPE_STRING name;
  _ ← out_writeArraySize (zlen value);
  _ ← out_write value;
  mret (true, value).

Definition out_kv_binary (size : nat) (name value : list Z) : M (bool * list Z) :=
  if (0 <? size)%nat then
    _ ← writeElementPrefix BIN_KV_SERIALIZE_TYPE_STRING name;
    _ ← out_writeArraySize (Z.of_nat size);
    _ ← out_write value;
    mret (true, value)
  else mret (true, value).

Definition KVOutput : KVSerializer KVBinaryOutputStreamSerializer := {|
  kv_type := OUTPUT;
  kv_beginObject := out_beginObject;
  kv_endObject := out_endObject;
  kv_beginArray := out_beginArray_kv;
  kv_endArray := out_endArray;
  kv_uint8 := fun name v => out_pod BIN_KV_SERIALIZE_TYPE_UINT8 (le_split 1 v) name v;
  kv_int16 := fun name v => out_pod BIN_KV_SERIALIZE_TYPE_INT16 (le_split 2 v) name v;
  kv_uint16 := fun name v => out_pod BIN_KV_SERIALIZE_TYPE_UINT16 (le_split 2 v) name v;
  kv_int32 := fun name v => out_pod BIN_KV_SERIALIZE_TYPE_INT32 (le_split 4 v) name v;
  kv_uint32 := fun name v => out_pod BIN_KV_SERIALIZE_TYPE_UINT32 (le_split 4 v) name v;
  kv_int64 := fun name v => out_pod BIN_KV_SERIALIZE_TYPE_INT64 (le_split 8 v) name v;
  kv_uint64 := fun name v => out_pod BIN_KV_SERIALIZE_TYPE_UINT64 (le_split 8 v) name v;
  kv_double := fun name v => out_pod BIN_KV_SERIALIZE_TYPE_DOUBLE v name v;
  kv_bool := fun name v => out_pod BIN_KV_SERIALIZE_TYPE_BOOL [if v : bool then 1 else 0] name v;
  kv_string := out_kv_string;
  kv_binary := out_kv_binary;
  kv_binary_string := fun name v => out_kv_binary (length v) name v;
|}.

(** The constructor opens the outermost object. *)
Definition KVBinaryOutputStreamSerializer_new : outcome KVBinaryOutputStreamSerializer :=
  '(_, s) ← out_beginObject [] {| m_objectsStack := []; m_stack := [] |}; Ok s.

Definition dump {S} `{IOutputStream S} (s : KVBinaryOutputStreamSerializer) (target : S) : outcome S :=
  _ ← massert (length (m_objectsStack s) =? 1)%nat;
  _ ← massert (length (m_stack s) =? 1)%nat;
  target ← write target (le_split 4 PORTABLE_STORAGE_SIGNATUREA ++
                         le_split 4 PORTABLE_STORAGE_SIGNATUREB ++
                         le_split 1 PORTABLE_STORAGE_FORMAT_VER);
  front ← vback (m_stack s);
  d ← writeArraySize (l_count front);
  target ← write target d;
  out ← (match m_objectsStack s with o :: _ => Ok o | [] => Undefined end);
  write target out.
End Writer.

(** * Overloads of [SerializationOverloads.h] and [ISerializer.h] *)

Section NamedOverloads.
Context {S : Type} (s : KVSerializer S).

(** [KV_MEMBER(member)]: the flag that says whether the member was there is not
    used. *)
Definition KV_MEMBER {A} (op : ser S (bool * A)) : ser S A := '(_, v) ← op; mret v.

(** The template [serialize(T&, StringView, ISerializer&)] for a structure. *)
Definition kv_object {A} (serialize : KVSerializer S -> A -> ser S A) (name : list Z) (value : A)
  : ser S (bool * A) :=
  b ← kv_beginObject s name;
  if b : bool then
    v ← serialize s value;
    _ ← kv_endObject s;
    mret (true, v)
  else mret (false, value).

(** [serializeContainer], for vectors and lists; [item] is
    [serializer(item, "")] and [d] a value-initialized element. *)
Definition kv_container {A} (d : A) (item : list Z -> A -> ser S (bool * A)) (name : list Z)
    (value : list A) : ser S (bool * list A) :=
  '(b, size) ← kv_beginArray s (zlen value) name;
  if b : bool then
    v ← serialize_items (fun x => KV_MEMBER (item [] x)) (vresize d (Z.to_nat size) value);
    _ ← kv_endArray s;
    mret (true, v)
  else mret (false, []).

(** The elements of a vector of structures of [n] bytes, from its memory. *)
Fixpoint pods {A} (n : nat) (of_bytes : list Z -> A) (count : nat) (blob : list Z) : list A :=
  match count with
  | O => []
  | Datatypes.S count => of_bytes (take n blob) :: pods n of_bytes count (drop n blob)
  end.

(** [serializeAsBinary] for a vector of structures without padding. *)
Definition kv_asBinary_vector {A} (n : nat) (to_bytes : A -> list Z) (of_bytes : list Z -> A)
    (name : list Z) (value : list A) : ser S (list A) :=
  match kv_type s with
  | INPUT =>
      blob ← KV_MEMBER (kv_binary_string s name []);
      if negb (length blob mod n =? 0)%nat then ser_throw runtime_error
      else mret (pods n of_bytes (length blob / n) blob)
  | OUTPUT => _ ← kv_binary_string s name (concat (map to_bytes value)); mret value
  end.

(** The same for a list: the elements read are appended. *)
Definition kv_asBinary_list {A} (n : nat) (to_bytes : A -> list Z) (of_bytes : list Z -> A)
    (name : list Z) (value : list A) : ser S (list A) :=
  match kv_type s with
  | INPUT =>
      blob ← KV_MEMBER (kv_binary_string s name []);
      if negb (length blob mod n =? 0)%nat then ser_throw runtime_error
      else mret (value ++ pods n of_bytes (length blob / n) blob)
  | OUTPUT => _ ← kv_binary_string s name (concat (map to_bytes value)); mret value
  end.
End NamedOverloads.

(** Serializers of a structure and of a named member, for every implementation. *)
Notation kv_struct A := (forall S : Type, KVSerializer S -> A -> ser S A).
Notation kv_named A := (forall S : Type, KVSerializer S -> list Z -> A -> ser S (bool * A)).

(** [storeToBinaryKeyValue] and [LevinProtocol::encode]. *)
Definition storeToBinaryKeyValue `{BuildConfig} {A} (serialize : kv_struct A) (v : A)
  : outcome (list Z) :=
  s ← KVBinaryOutputStreamSerializer_new;
  '(_, s) ← serialize _ KVOutput v s;
  dump s [].

(** [loadFromBinaryKeyValue] and [LevinProtocol::decode]: every exception of the
    standard library is caught; [None] is the result [false], after which the
    contents of the variable are not used. *)
Definition loadFromBinaryKeyValue `{BuildConfig} {A} (serialize : kv_struct A) (v : A) (buf : list Z)
  : outcome (option A) :=
  match
    s ← KVBinaryInputStreamSerializer_new (Datatypes.S (length buf)) (MemoryInputStream_new buf);
    serialize _ KVInput v s
  with
  | Ok (x, _) => Ok (Some x)
  | Throw _ => Ok None
  | AssertFailed => AssertFailed
  | Undefined => Undefined
  end.
