(* ===== verification/KVTheory.v ===== *)
(** The key-value format: the parser returns or throws on every input, within
    bounds set by the length of the input, and reads back what the writer
    wrote. *)
From S2P Require Import Prelude Varint IntUtil Stream Serializer KVBinary.

(** * Parsed values *)

(** Nodes, characters of strings and characters of names. *)
Fixpoint weight (v : JsonValue) : nat :=
  match v with
  | ARRAY a => S (sum_list (map weight a))
  | OBJECT o => S (sum_list (map (fun p => match p with (k, x) => length k + weight x end)%nat o))
  | STRING s => S (length s)
  | _ => 1
  end.

Definition object_weight (o : JsonObject) : nat :=
  sum_list (map (fun p => length p.1 + weight p.2)%nat o).

(** Integers in range, strings of bytes and no name twice in an object. *)
Fixpoint json_ok (v : JsonValue) : Prop :=
  match v with
  | ARRAY a => foldr (fun x P => json_ok x /\ P) True a
  | OBJECT o => NoDup (map fst o) /\
      foldr (fun p P => match p with (k, x) => bytes_ok k /\ json_ok x /\ P end) True o
  | INTEGER i => is_i64 i
  | REAL r => length r = 8%nat /\ bytes_ok r
  | STRING s => bytes_ok s
  | _ => True
  end.

Definition object_ok (o : JsonObject) : Prop :=
  NoDup (map fst o) /\ Forall (fun p => bytes_ok p.1 /\ json_ok p.2) o.

Lemma json_ok_array a : json_ok (ARRAY a) <-> Forall json_ok a.
Proof.
  cbn. induction a as [|x a IH]; cbn; [split; [constructor|done]|].
  rewrite IH, Forall_cons. done.
Qed.

Lemma json_ok_object o : json_ok (OBJECT o) <-> object_ok o.
Proof.
  unfold object_ok. cbn [json_ok]. apply and_iff_compat_l.
  induction o as [|[k x] o IH]; cbn; [split; [constructor|done]|].
  rewrite IH, Forall_cons. cbn. tauto.
Qed.

Lemma weight_object o : weight (OBJECT o) = S (object_weight o).
Proof.
  cbn [weight]. f_equal. unfold object_weight. f_equal. apply map_ext. by intros [k x].
Qed.

Lemma object_find_None key o : object_find key o = None <-> key ∉ map fst o.
Proof.
  induction o as [|[k v] o IH]; cbn; [split; [|done]; intros _ []%not_elem_of_nil|].
  rewrite not_elem_of_cons. case_decide as E.
  - split; [done|]. intros [? _]. congruence.
  - rewrite IH. split; [|tauto]. intros ?. split; [congruence|done].
Qed.

Lemma object_emplace_ok key v o :
  bytes_ok key -> json_ok v -> object_ok o -> object_ok (object_emplace key v o).
Proof.
  intros Hk Hv [Hd Hf]. unfold object_emplace.
  destruct (object_find key o) eqn:E; [done|]. apply object_find_None in E. split.
  - rewrite map_app. cbn. apply NoDup_app. split; [done|]. split; [|apply NoDup_singleton].
    intros k Hin ->%list_elem_of_singleton. done.
  - apply Forall_app. split; [done|]. by repeat constructor.
Qed.

Lemma object_weight_app o o' : object_weight (o ++ o') = (object_weight o + object_weight o')%nat.
Proof.
  unfold object_weight. rewrite map_app. induction (map _ o) as [|x l IH]; cbn; [done|]. lia.
Qed.

Lemma object_emplace_weight key v o :
  (object_weight (object_emplace key v o) <= object_weight o + (length key + weight v))%nat.
Proof.
  unfold object_emplace. destruct (object_find key o); [lia|].
  rewrite object_weight_app. unfold object_weight at 2. cbn. lia.
Qed.

Lemma object_emplace_present key v o : object_find key o <> None -> object_emplace key v o = o.
Proof. unfold object_emplace. by destruct (object_find key o). Qed.

Lemma object_emplace_find key v o : object_find key (object_emplace key v o) <> None.
Proof.
  unfold object_emplace. destruct (object_find key o) eqn:E; [by rewrite E|].
  rewrite object_find_None, map_app, elem_of_app. cbn. rewrite list_elem_of_singleton. tauto.
Qed.

(** * The parser on every input *)

Section Total.
Context {S : Type} `{InputStreamLaws S} {B : BuildConfig}.

(** [steps Q n m]: on a stream with at most [n] bytes left, [m] throws the
    exception of the parser or returns a value, having taken [k] bytes, with
    [Q] of the two. *)
Definition steps {A} (Q : A -> nat -> Prop) (n : nat) (m : ser S A) : Prop :=
  forall s, in_sane s -> bytes_ok (pending s) -> (length (pending s) <= n)%nat ->
  match m s with
  | Ok (a, s') => in_sane s' /\ exists d, pending s = d ++ pending s' /\ Q a (length d)
  | Throw e => e = runtime_error
  | _ => False
  end.

Lemma steps_ret {A} (Q : A -> nat -> Prop) n (a : A) : Q a 0%nat -> steps Q n (mret a).
Proof. intros HQ s Hs _ _. split; [done|]. by exists []. Qed.

Lemma steps_throw {A} (Q : A -> nat -> Prop) n : steps Q n (ser_throw runtime_error).
Proof. by intros s _ _ _. Qed.

Lemma steps_bind {A C} (Q1 : A -> nat -> Prop) (Q : C -> nat -> Prop) n (m : ser S A) (f : A -> ser S C) :
  steps Q1 n m ->
  (forall a k, Q1 a k -> (k <= n)%nat -> steps (fun c j => Q c (k + j)%nat) (n - k) (f a)) ->
  steps Q n (m ≫= f).
Proof.
  intros Hm Hf s Hs Hb Hn. specialize (Hm s Hs Hb Hn). unfold mbind, ser_bind.
  destruct (m s) as [[a s1]|e| |]; try done. destruct Hm as (Hs1 & d & Ed & HQ). cbn.
  rewrite Ed in Hb, Hn. rewrite length_app in Hn. apply Forall_app in Hb as [_ Hb].
  specialize (Hf a _ HQ ltac:(lia) s1 Hs1 Hb ltac:(lia)).
  destruct (f a s1) as [[c s2]|e| |]; try done. destruct Hf as (Hs2 & d2 & Ed2 & HQ2).
  split; [done|]. exists (d ++ d2). rewrite Ed, Ed2, <- app_assoc, length_app. done.
Qed.

Lemma steps_weaken {A} (Q Q' : A -> nat -> Prop) n n' (m : ser S A) :
  steps Q n m -> (n' <= n)%nat -> (forall a k, Q a k -> (k <= n')%nat -> Q' a k) -> steps Q' n' m.
Proof.
  intros Hm Hn HQ s Hs Hb Hl. specialize (Hm s Hs Hb ltac:(lia)).
  destruct (m s) as [[a s1]|e| |]; try done. destruct Hm as (? & d & Ed & ?).
  split; [done|]. exists d. split; [done|]. apply HQ; [done|].
  rewrite Ed, length_app in Hl. lia.
Qed.

Lemma steps_read n size :
  steps (fun d k => length d = size /\ k = size /\ bytes_ok d) n (kv_read size).
Proof.
  intros s Hs Hb _. unfold kv_read. pose proof (read_exact s size Hs) as R.
  destruct (Nat.leb_spec size (length (pending s))); [|by rewrite R].
  destruct R as (s' & -> & Hs' & Ep). split; [done|]. exists (take size (pending s)).
  rewrite Ep, take_drop, length_take. split; [done|]. split; [lia|]. split; [lia|].
  by apply Forall_take.
Qed.

Lemma steps_uint n size :
  steps (fun v k => k = size /\ 0 <= v < 256 ^ Z.of_nat size) n (read_uint size).
Proof.
  change (read_uint size) with ((kv_read size) ≫= fun d => mret (le_combine d)).
  eapply steps_bind; [apply steps_read|].
  cbv beta. intros d k (Hl & -> & Hd) _. apply steps_ret. split; [lia|]. rewrite <- Hl.
  by apply value_bound.
Qed.

Lemma steps_sint n size : (0 < size)%nat ->
  steps (fun v k => k = size /\ - 256 ^ Z.of_nat size <= v < 256 ^ Z.of_nat size) n (read_sint size).
Proof.
  intros Hp.
  change (read_sint size) with
    ((kv_read size) ≫= fun d => mret (signed (8 * Z.of_nat size) (le_combine d))).
  eapply steps_bind; [apply steps_read|].
  cbv beta. intros d k (Hl & -> & Hd) _. apply steps_ret. split; [lia|]. rewrite <- Hl.
  pose proof (value_bound 256 d ltac:(lia) Hd) as R. unfold signed, zlen in *.
  fold (le_combine d) in R.
  replace (2 ^ (8 * Z.of_nat (length d))) with (256 ^ Z.of_nat (length d))
    by (rewrite Z.pow_mul_r by lia; done).
  case_match; lia.
Qed.

Lemma steps_byte n : steps (fun v k => k = 1%nat /\ is_u8 v) n read_uint8.
Proof. apply (steps_uint n 1). Qed.

Lemma steps_varint_loop j n i value : 0 <= value ->
  steps (fun v _ => 0 <= v) n (kv_readVarint_loop j i value).
Proof.
  revert n i value. induction j as [|j IH]; intros n i value Hv; [by apply steps_ret|].
  cbn [kv_readVarint_loop]. eapply steps_bind; [apply steps_byte|]. intros c k [-> Hc] _.
  apply IH. apply Z.lor_nonneg. split; [done|]. apply u64_range.
Qed.

Lemma steps_varint n : steps (fun v k => (1 <= k)%nat /\ 0 <= v) n kv_readVarint.
Proof.
  unfold kv_readVarint. eapply steps_bind; [apply steps_byte|]. intros b k [-> Hb] _.
  eapply steps_bind; [apply steps_varint_loop; unfold is_u8 in Hb; lia|]. intros v j Hv _.
  apply steps_ret. split; [lia|]. by apply Z.shiftr_nonneg.
Qed.

Lemma steps_string n : steps (fun v k => (1 + length v <= k)%nat /\ bytes_ok v) n kv_readString.
Proof.
  unfold kv_readString. eapply steps_bind; [apply steps_varint|]. intros size k [Hk Hs] _.
  case_match; [apply steps_throw|]. case_match.
  - apply steps_ret. split; [cbn; lia|constructor].
  - eapply steps_weaken; [apply steps_read|reflexivity|]. intros d j (Hl & -> & Hb) _. split; [lia|done].
Qed.

Lemma steps_name name n :
  steps (fun v k => (1 <= k)%nat /\ (v = name \/ (1 + length v <= k)%nat /\ bytes_ok v)) n (readName name).
Proof.
  unfold readName. eapply steps_bind; [apply steps_byte|]. intros len k [-> Hl] _.
  case_match.
  - apply steps_ret. split; [lia|by left].
  - eapply steps_weaken; [apply steps_read|reflexivity|]. intros d j (? & -> & Hb) _. split; [lia|].
    right. split; [lia|done].
Qed.

(** What is said of a value read from [k] bytes. *)
Definition value_post (v : JsonValue) (k : nat) : Prop := (weight v <= k)%nat /\ json_ok v.

Lemma steps_section_loop entry f fuel :
  (forall n, (n < f)%nat -> steps (fun v k => (1 + weight v <= k)%nat /\ json_ok v) n entry) ->
  forall n count name sec,
  (n < fuel)%nat -> (n < f)%nat -> 0 <= count -> bytes_ok name ->
  (name = [] \/ object_find name sec <> None) -> object_ok sec ->
  steps (fun sec' k => (object_weight sec' <= object_weight sec + k)%nat /\ object_ok sec') n
    (loadSection_loop entry fuel count name sec).
Proof.
  intros He. induction fuel as [|fuel IH]; intros n count name sec Hn Hf Hc Hb Hname Hsec; [lia|].
  cbn [loadSection_loop]. case_match; [apply steps_ret; split; [lia|done]|].
  eapply steps_bind; [apply steps_name|]. intros name' k [Hk Hname'] Hkn.
  eapply steps_bind; [apply He; lia|]. intros v j [Hj Hv] Hjn. zbool.
  assert (Hb' : bytes_ok name') by (destruct Hname' as [->|[_ ?]]; done).
  eapply steps_weaken; [apply IH|reflexivity|].
  - lia.
  - lia.
  - lia.
  - done.
  - right. apply object_emplace_find.
  - by apply object_emplace_ok.
  - cbv beta. intros sec' i [Hi Ho] _. split; [|done].
    assert (object_weight (object_emplace name' v sec) <= object_weight sec + k + j)%nat; [|lia].
    pose proof (object_emplace_weight name' v sec).
    destruct Hname' as [->|[? _]]; [|lia]. destruct Hname as [->|Hp]; [cbn in *; lia|].
    rewrite object_emplace_present by done. lia.
Qed.

Lemma steps_array_loop item f fuel :
  (forall n, (n < f)%nat -> steps value_post n item) ->
  forall n count arr,
  (n < fuel)%nat -> (n < f)%nat -> 0 <= count -> Forall json_ok arr ->
  steps (fun arr' k => (sum_list (map weight arr') <= sum_list (map weight arr) + k)%nat /\
           Forall json_ok arr') n (loadArray_loop item fuel count arr).
Proof.
  intros He. induction fuel as [|fuel IH]; intros n count arr Hn Hf Hc Ha; [lia|].
  cbn [loadArray_loop]. case_match; [apply steps_ret; split; [lia|done]|].
  eapply steps_bind; [apply He; lia|]. intros v j [Hj Hv] Hjn. zbool.
  assert (1 <= weight v)%nat by (destruct v; cbn; lia).
  eapply steps_weaken; [apply IH|reflexivity|]; [lia|lia|lia| |].
  - apply Forall_app. by repeat constructor.
  - cbv beta. intros arr' i [Hi Ho] _. split; [|done]. revert Hi. rewrite map_app.
    assert (E : forall l, sum_list (l ++ map weight [v]) = (sum_list l + weight v)%nat)
      by (intros l; induction l; cbn in *; lia).
    rewrite E. lia.
Qed.

Section With.
Context (lv : Z -> ser S JsonValue) (f : nat).
Hypothesis Hlv : forall n type, (n < f)%nat -> steps value_post n (lv type).

Lemma steps_array_with n type : (n <= f)%nat -> steps value_post n (loadArray_with lv f type).
Proof.
  intros Hn. unfold loadArray_with. eapply steps_bind; [apply steps_varint|].
  intros count k [Hk Hc] Hkn. destruct (decide (n = 0)%nat); [lia|].
  eapply steps_bind; [eapply (steps_array_loop _ f); [by intros; apply Hlv|lia|lia|done|constructor]|].
  cbv beta. intros arr j [Hj Ha] _. apply steps_ret. cbn in Hj. split; [cbn; lia|]. by apply json_ok_array.
Qed.

Lemma steps_entry_with n : (n < f)%nat ->
  steps (fun v k => (1 + weight v <= k)%nat /\ json_ok v) n (loadEntry_with lv f).
Proof.
  intros Hn. unfold loadEntry_with. eapply steps_bind; [apply steps_byte|]. intros type k [-> Ht] _.
  case_match; (eapply (steps_weaken _ _ (n - 1)); [first [apply steps_array_with|apply Hlv]; lia|reflexivity|]);
    intros v j [Hj Hv] _; (split; [lia|done]).
Qed.

Lemma steps_section_with n : (n <= f)%nat -> steps value_post n (loadSection_with lv f).
Proof.
  intros Hn. unfold loadSection_with. eapply steps_bind; [apply steps_varint|].
  intros count k [Hk Hc] Hkn.
  eapply steps_bind.
  { apply (steps_section_loop _ f f); [apply steps_entry_with|lia|lia|done|constructor|by left|].
    split; [constructor|constructor]. }
  cbv beta. intros sec j [Hj Hs] _. apply steps_ret. split; [|by apply json_ok_object].
  rewrite weight_object. change (object_weight []) with 0%nat in Hj. lia.
Qed.
End With.

Lemma steps_integer n size (m : ser S Z) (Q : Z -> nat -> Prop) :
  steps Q n m -> (forall v k, Q v k -> k = size) -> (0 < size)%nat ->
  steps value_post n (readIntegerJson m).
Proof.
  intros Hm HQ Hp. eapply steps_bind; [exact Hm|]. intros v k Hv _.
  apply steps_ret. rewrite (HQ v k Hv). split; [cbn; lia|]. apply i64_range.
Qed.

Lemma steps_value fuel : forall n type, (n < fuel)%nat -> steps value_post n (loadValue fuel type).
Proof.
  induction fuel as [|fuel IH]; intros n type Hn; [lia|]. cbn [loadValue].
  do 4 (case_match; [eapply steps_integer; [apply steps_sint; lia|cbn; intros ?? [? _]; eassumption|lia]|]).
  do 4 (case_match; [eapply steps_integer; [apply steps_uint|cbn; intros ?? [? _]; eassumption|lia]|]).
  case_match.
  { eapply steps_bind; [apply steps_read|]. intros r k (Hl & -> & Hb) _. apply steps_ret.
    split; [cbn; lia|done]. }
  case_match.
  { eapply steps_bind; [apply steps_byte|]. intros b k [-> _] _. apply steps_ret. split; [cbn; lia|done]. }
  case_match.
  { eapply steps_bind; [apply steps_string|]. intros str k [Hk Hb] _. apply steps_ret.
    split; [cbn; lia|done]. }
  case_match; [apply steps_section_with; [exact IH|lia]|].
  case_match; [apply steps_array_with; [exact IH|lia]|apply steps_throw].
Qed.

Lemma parse_safe (fuel n : nat) : (n < fuel)%nat ->
  steps (fun v k => isObject v = true /\ (weight v <= k)%nat /\ json_ok v) n (parseBinary fuel).
Proof.
  intros Hn. unfold parseBinary. eapply steps_bind; [apply steps_read|]. intros hdr k (_ & -> & _) Hk.
  case_match; [apply steps_throw|]. case_match; [apply steps_throw|].
  assert (Ho : steps (fun v _ => isObject v = true) (n - 9) (loadSection fuel)).
  { unfold loadSection, loadSection_with. eapply steps_bind; [apply steps_varint|]. intros count j [? ?] ?.
    eapply steps_bind.
    { apply (steps_section_loop _ fuel fuel); [|lia|lia|done|constructor|by left|split; constructor].
      intros. apply steps_entry_with; [apply steps_value|done]. }
    intros. by apply steps_ret. }
  pose proof (steps_section_with (loadValue fuel) fuel (steps_value fuel) (n - 9) ltac:(lia)) as Hs.
  intros s Hi Hb Hl. specialize (Ho s Hi Hb Hl). specialize (Hs s Hi Hb Hl).
  unfold loadSection in *. destruct (loadSection_with _ _ s) as [[v s']|e| |]; try done.
  destruct Ho as (_ & _ & _ & Ho). destruct Hs as (Hs & d & Ed & Hw & Hj). split; [done|].
  exists d. split; [done|]. split; [done|]. split; [lia|done].
Qed.
End Total.

Lemma reader_safe {B : BuildConfig} (input : list Z) :
  bytes_ok input ->
  match KVBinaryInputStreamSerializer_new (S (length input)) (MemoryInputStream_new input) with
  | Ok s => exists o, s = {| chain := [OBJECT o]; idxs := [] |} /\ object_ok o /\
              (weight (OBJECT o) <= length input)%nat
  | Throw e => e = runtime_error
  | _ => False
  end.
Proof.
  intros Hb. unfold KVBinaryInputStreamSerializer_new.
  pose proof (parse_safe (S := MemoryInputStream) (Datatypes.S (length input)) (length input) ltac:(lia) (MemoryInputStream_new input)) as R.
  cbn [pending MemoryInputStream_laws in_sane MemoryInputStream_new mis_position mis_buffer] in R.
  rewrite drop_0 in R. specialize (R ltac:(lia) Hb ltac:(lia)).
  destruct (parseBinary _ _) as [[v s']|e| |]; cbn [mbind outcome_bind]; try done.
  destruct R as (_ & d & Ed & Ho & Hw & Hj). rewrite Ho. destruct v as [| | | |o| |]; try done. exists o.
  split; [done|]. split; [by apply json_ok_object|]. apply (f_equal length) in Ed. rewrite length_app in Ed. lia.
Qed.

(** C31.  The reader of the key-value format is safe on every input: whatever the
    bytes, the constructor of [KVBinaryInputStreamSerializer] terminates (one
    unit of fuel per byte and one more is enough for every loop and every level
    of nesting), returns or throws [std::runtime_error], and never runs into an
    assertion or undefined behaviour.  When it returns, the value is an object in
    which no name occurs twice, every integer fits 64 bits, and the number of its
    nodes and characters together is at most the length of the input. *)
Theorem kv_parser_safe {B : BuildConfig} (input : list Z) :
  bytes_ok input ->
  match KVBinaryInputStreamSerializer_new (S (length input)) (MemoryInputStream_new input) with
  | Ok s => exists o, s = {| chain := [OBJECT o]; idxs := [] |} /\ object_ok o /\
              (weight (OBJECT o) <= length input)%nat
  | Throw e => e = runtime_error
  | _ => False
  end.
Proof. exact (reader_safe input). Qed.

Lemma kv_parser_safe_witness :
  let input := [1; 17; 1; 1; 1; 1; 2; 1; 1; 4; 1; 97; 141; 8; 0; 0] in
  let B := debug_build in
  match KVBinaryInputStreamSerializer_new (S (length input)) (MemoryInputStream_new input) with
  | Ok s => exists o, s = {| chain := [OBJECT o]; idxs := [] |} /\ object_ok o /\
              (weight (OBJECT o) <= length input)%nat
  | Throw e => e = runtime_error
  | _ => False
  end.
Proof. intros input B. apply (kv_parser_safe input). repeat constructor; unfold is_u8; lia. Defined.

(** * Reading given bytes *)

Section Yields.
Context {S : Type} `{InputStreamLaws S} {B : BuildConfig}.

(** [yields m bs a]: with [bs] next in the stream, [m] consumes exactly [bs]
    and returns [a]. *)
Definition yields {A} (m : ser S A) (bs : list Z) (a : A) : Prop :=
  forall s rest, in_sane s -> pending s = bs ++ rest ->
  exists s', m s = Ok (a, s') /\ in_sane s' /\ pending s' = rest.

Lemma yields_ret {A} (a : A) : yields (mret a) [] a.
Proof. intros s rest Hs Ep. by exists s. Qed.

Lemma yields_seq {A C} (m : ser S A) (f : A -> ser S C) b1 b2 a c :
  yields m b1 a -> yields (f a) b2 c -> yields (m ≫= f) (b1 ++ b2) c.
Proof.
  intros Hm Hf s rest Hs Ep. rewrite <- app_assoc in Ep.
  destruct (Hm s _ Hs Ep) as (s1 & E1 & Hs1 & Ep1).
  destruct (Hf s1 _ Hs1 Ep1) as (s2 & E2 & Hs2 & Ep2).
  exists s2. unfold mbind, ser_bind. rewrite E1. done.
Qed.

Lemma yields_bind_ret {A C} (m : ser S A) (g : A -> C) bs a :
  yields m bs a -> yields (m ≫= fun x => mret (g x)) bs (g a).
Proof.
  intros Hm. rewrite <- (app_nil_r bs). eapply yields_seq; [exact Hm|apply yields_ret].
Qed.

Lemma yields_read d : yields (kv_read (length d)) d d.
Proof.
  intros s rest Hs Ep. pose proof (read_exact s (length d) Hs) as R. rewrite Ep, length_app in R.
  rewrite (proj2 (Nat.leb_le _ _)) in R by lia. destruct R as (s' & E & Hs' & Ep').
  exists s'. unfold kv_read. rewrite E, take_app_length. rewrite drop_app_length in Ep'. done.
Qed.

Lemma yields_read_n n d : length d = n -> yields (kv_read n) d d.
Proof. intros <-. apply yields_read. Qed.

Lemma yields_uint n v : 0 <= v < 256 ^ Z.of_nat n -> yields (read_uint n) (le_split n v) v.
Proof.
  intros Hv. change (read_uint n) with ((kv_read n : ser S (list Z)) ≫= fun d => mret (le_combine d)).
  replace v with (le_combine (le_split n v)) at 2 by (unfold le_combine, le_split; apply value_digits; lia).
  apply yields_bind_ret, yields_read_n. apply length_digits.
Qed.

Lemma yields_byte b : is_u8 b -> yields read_uint8 [b] b.
Proof.
  intros Hb. replace [b] with (le_split 1 b); [apply (yields_uint 1); exact Hb|].
  unfold le_split. cbn. unfold is_u8 in Hb. by rewrite Z.mod_small.
Qed.

(** ** Sizes *)

Lemma pow256 n : 256 ^ Z.of_nat n = 2 ^ (8 * Z.of_nat n).
Proof. rewrite Z.pow_mul_r by lia. done. Qed.

Lemma yields_varint_loop bs (i : nat) v :
  bytes_ok bs -> 0 <= v < 256 ^ Z.of_nat i -> (i + length bs <= 8)%nat ->
  yields (kv_readVarint_loop (length bs) (Z.of_nat i) v) bs (v + 256 ^ Z.of_nat i * value 256 bs).
Proof.
  revert i v. induction bs as [|b bs IH]; intros i v Hb Hv Hl.
  { replace (v + _) with v by (cbn; lia). apply yields_ret. }
  apply Forall_cons in Hb as [Hb Hbs]. cbn [length] in Hl.
  cbn [length kv_readVarint_loop]. eapply (yields_seq _ _ [b]); [by apply yields_byte|].
  unfold is_u8 in Hb. rewrite pow256 in Hv.
  assert (Hc : 0 <= b * 2 ^ (8 * Z.of_nat i) < 2 ^ 64).
  { split; [nia|]. apply Z.lt_le_trans with (2 ^ 8 * 2 ^ (8 * Z.of_nat i));
      [apply Z.mul_lt_mono_pos_r; lia|]. rewrite <- Z.pow_add_r by lia. apply Z.pow_le_mono_r; lia. }
  rewrite (Z.mul_comm _ 8), u64_small by (unfold is_u64; rewrite Z.shiftl_mul_pow2 by lia; lia).
  rewrite lor_add_disjoint by lia.
  replace (Z.of_nat i + 1) with (Z.of_nat (Datatypes.S i)) by lia.
  replace (v + 256 ^ Z.of_nat i * value 256 (b :: bs)) with
    ((b * 2 ^ (8 * Z.of_nat i) + v) + 256 ^ Z.of_nat (Datatypes.S i) * value 256 bs).
  2:{ rewrite Nat2Z.inj_succ, Z.pow_succ_r, pow256 by lia. cbn [value foldr]. fold (value 256 bs). ring. }
  apply IH; [done| |lia]. rewrite Nat2Z.inj_succ, Z.pow_succ_r, pow256 by lia. nia.
Qed.

Definition size_bytes (val : Z) : list Z :=
  match writeArraySize val with Ok d => d | _ => [] end.

(** Sizes the writer accepts. *)
Definition size_ok (val : Z) : Prop := 0 <= val <= 4611686018427387903.

Lemma writeArraySize_ok val : size_ok val -> writeArraySize val = Ok (size_bytes val).
Proof.
  unfold size_ok, size_bytes, writeArraySize. intros Hv. repeat (case_match; [done|]).
  case_match; zbool; [lia|done].
Qed.

Lemma packVarint_value n m v :
  0 <= m < 4 -> 0 <= v -> 4 * v + m < 256 ^ Z.of_nat n -> packVarint n m v = le_split n (4 * v + m).
Proof.
  intros Hm Hv Hb. unfold packVarint. f_equal. rewrite pow256 in Hb.
  rewrite Z.mod_small by (rewrite Z.shiftl_mul_pow2 by lia; lia).
  rewrite Z.lor_comm, lor_add_disjoint by lia. lia.
Qed.

Lemma yields_packed n m v bytesLeft :
  0 <= m < 4 -> 0 <= v -> 4 * v + m < 256 ^ Z.of_nat n -> (n <= 8)%nat ->
  n = Datatypes.S bytesLeft ->
  bytesLeft = (if m =? 0 then 0%nat else if m =? 1 then 1%nat else if m =? 2 then 3%nat else 7%nat) ->
  yields kv_readVarint (packVarint n m v) v.
Proof.
  intros Hm Hv Hb Hn -> Hl. rewrite packVarint_value by done. set (w := 4 * v + m) in *.
  pose proof (digits_ok 256 (Datatypes.S bytesLeft) w ltac:(lia)) as Hd.
  pose proof (value_digits 256 (Datatypes.S bytesLeft) w ltac:(lia) ltac:(lia)) as Ev.
  pose proof (length_digits 256 (Datatypes.S bytesLeft) w) as El.
  unfold le_split. cbn [digits] in *. set (bs := digits 256 bytesLeft (w / 256)) in *.
  apply Forall_cons in Hd as [Hb0 Hbs]. cbn in El.
  assert (Em : Z.land (w mod 256) PORTABLE_RAW_SIZE_MARK_MASK = m).
  { change PORTABLE_RAW_SIZE_MARK_MASK with (Z.ones 2). rewrite Z.land_ones by lia.
    change (2 ^ 2) with 4. rewrite Z.mod_mod_divide by (by exists 64).
    subst w. rewrite Z.add_comm, Z.mul_comm, Z_mod_plus_full. apply Z.mod_small. lia. }
  unfold kv_readVarint. eapply (yields_seq _ _ [w mod 256]); [apply yields_byte; exact Hb0|].
  cbv zeta. rewrite Em.
  replace (if m =? PORTABLE_RAW_SIZE_MARK_BYTE then _ else _) with (length bs).
  2:{ injection El as ->. rewrite Hl. unfold PORTABLE_RAW_SIZE_MARK_BYTE, PORTABLE_RAW_SIZE_MARK_WORD,
      PORTABLE_RAW_SIZE_MARK_DWORD, PORTABLE_RAW_SIZE_MARK_INT64. repeat (case_match; [done|]).
      zbool. lia. }
  assert (E : v = Z.shiftr w 2).
  { rewrite Z.shiftr_div_pow2 by lia. subst w. change (2 ^ 2) with 4. rewrite Z.mul_comm.
    rewrite Z.div_add_l by lia. rewrite Z.div_small by lia. lia. }
  rewrite E at 1. apply (yields_bind_ret _ (fun x => Z.shiftr x 2)).
  replace w with (w mod 256 + 256 ^ Z.of_nat 1 * value 256 bs) at 2
    by (rewrite <- Ev at 2; cbn [value foldr]; fold (value 256 bs); lia).
  apply (yields_varint_loop bs 1); [exact Hbs|exact Hb0|lia].
Qed.

Lemma yields_size val : size_ok val -> yields kv_readVarint (size_bytes val) val.
Proof.
  unfold size_ok, size_bytes, writeArraySize. intros Hv.
  destruct (Z.leb_spec val 63); [|destruct (Z.leb_spec val 16383);
    [|destruct (Z.leb_spec val 1073741823); [|destruct (Z.ltb_spec 4611686018427387903 val); [lia|] ] ] ];
    (eapply yields_packed; [done|lia| |lia|reflexivity|done]);
    match goal with |- _ + ?m < ?b => let m' := eval vm_compute in m in let b' := eval vm_compute in b in
      change m with m'; change b with b' end; lia.
Qed.
End Yields.
