(* ===== verification/KVCodec.v ===== *)
(** Round trips of the key-value format, composed from the members of a
    structure.

    [kv_value] says what the two directions of a serializer of one value
    promise each other, [kv_member] the same for a member that may be left out
    (an empty vector), and [kv_body] for the members of a structure; the
    combinators prove each from the parts; [kv_store] and [kv_load] are about a
    structure as the outermost object. *)
From S2P Require Import Prelude Varint IntUtil Stream Serializer KVBinary KVTheory.

Lemma ser_bind_ok {S A C} (m : ser S A) (f : A -> ser S C) s a s' :
  m s = Ok (a, s') -> (m ≫= f) s = f a s'.
Proof. intros E. unfold mbind, ser_bind. by rewrite E. Qed.

(** A bound step of a monadic block. *)
Ltac kv_bind H := rewrite (ser_bind_ok _ _ _ _ _ H).

(** A writer with bytes [out] in the innermost open object. *)
Notation KW out os ls := {| m_objectsStack := out :: os; m_stack := ls |}.
Notation Lv st nm c := {| l_state := st; l_name := nm; l_count := c |}.

Definition name_ok (name : list Z) : Prop := name <> [] /\ zlen name <= 255 /\ bytes_ok name.

Section Writer.
Context {B : BuildConfig}.

Lemma out_write_ok d out os ls : out_write d (KW out os ls) = Ok (tt, KW (out ++ d) os ls).
Proof.
  unfold out_write. cbn [m_objectsStack m_stack].
  destruct (write_spec (S := list Z) out d) as (s' & -> & E). cbn in E. by subst s'.
Qed.

Lemma out_size_ok v out os ls : size_ok v ->
  out_writeArraySize v (KW out os ls) = Ok (tt, KW (out ++ size_bytes v) os ls).
Proof.
  intros Hv. unfold out_writeArraySize.
  rewrite (ser_bind_ok _ _ _ (size_bytes v) (KW out os ls)); [apply out_write_ok|].
  unfold ser_lift. by rewrite writeArraySize_ok.
Qed.

Lemma writeElementName_ok name out os ls : zlen name <= 255 ->
  writeElementName name (KW out os ls) = Ok (tt, KW (out ++ zlen name :: name) os ls).
Proof.
  intros Hn. unfold writeElementName. destruct (Z.ltb_spec 255 (zlen name)); [lia|].
  kv_bind (out_write_ok [zlen name] out os ls). rewrite out_write_ok, <- app_assoc. done.
Qed.

(** The three positions a value can be written at. *)
Lemma prefix_object ty name out os nm c ls : name_ok name -> 0 <= c < 2 ^ 32 ->
  writeElementPrefix ty name (KW out os (Lv Object nm c :: ls)) =
  Ok (tt, KW (out ++ zlen name :: name ++ [ty]) os (Lv Object nm (c + 1) :: ls)).
Proof.
  intros (Hne & Hl & _) Hc. unfold writeElementPrefix. rewrite massert_true by done.
  cbn [mbind outcome_bind].
  rewrite (ser_bind_ok (checkArrayPreamble ty) _ _ tt (KW out os (Lv Object nm c :: ls))) by done.
  rewrite (ser_bind_ok level_back _ _ (Lv Object nm c) (KW out os (Lv Object nm c :: ls))) by done.
  rewrite decide_False by done. rewrite bool_decide_eq_false_2 by done.
  rewrite (ser_bind_ok _ _ _ tt (KW (out ++ zlen name :: name ++ [ty]) os (Lv Object nm c :: ls))).
  - unfold level_set. cbn [m_stack m_objectsStack l_state l_name l_count].
    rewrite u64_small by (unfold is_u64; lia). done.
  - kv_bind (writeElementName_ok name out os (Lv Object nm c :: ls) Hl). rewrite out_write_ok.
    by rewrite <- app_assoc.
Qed.

Lemma prefix_array ty out os nm c ls :
  writeElementPrefix ty [] (KW out os (Lv Array nm c :: ls)) = Ok (tt, KW out os (Lv Array nm c :: ls)).
Proof. unfold writeElementPrefix. rewrite massert_true by done. reflexivity. Qed.

Lemma preamble_first ty out os nm c ls : zlen nm <= 255 -> size_ok c ->
  checkArrayPreamble ty (KW out os (Lv ArrayPrefix nm c :: ls)) =
  Ok (tt, KW (out ++ (zlen nm :: nm ++ [Z.lor BIN_KV_SERIALIZE_FLAG_ARRAY ty]) ++ size_bytes c) os
            (Lv Array nm c :: ls)).
Proof.
  intros Hn Hc. unfold checkArrayPreamble. cbn [m_stack l_state]. rewrite decide_True by done.
  cbn [l_name l_count].
  kv_bind (writeElementName_ok nm out os (Lv ArrayPrefix nm c :: ls) Hn).
  kv_bind (out_write_ok [Z.lor BIN_KV_SERIALIZE_FLAG_ARRAY ty] (out ++ zlen nm :: nm) os
             (Lv ArrayPrefix nm c :: ls)).
  kv_bind (out_size_ok c ((out ++ zlen nm :: nm) ++ [Z.lor BIN_KV_SERIALIZE_FLAG_ARRAY ty]) os
             (Lv ArrayPrefix nm c :: ls) Hc).
  unfold level_set. cbn [m_stack m_objectsStack]. rewrite <- !app_assoc. cbn [app]. rewrite <- ?app_assoc. done.
Qed.

Lemma prefix_first ty out os nm c ls : zlen nm <= 255 -> size_ok c ->
  writeElementPrefix ty [] (KW out os (Lv ArrayPrefix nm c :: ls)) =
  Ok (tt, KW (out ++ (zlen nm :: nm ++ [Z.lor BIN_KV_SERIALIZE_FLAG_ARRAY ty]) ++ size_bytes c) os
            (Lv Array nm c :: ls)).
Proof.
  intros Hn Hc. unfold writeElementPrefix. rewrite massert_true by done. cbn [mbind outcome_bind].
  kv_bind (preamble_first ty out os nm c ls Hn Hc). done.
Qed.

(** [beginObject] has already done the part of [writeElementPrefix] that
    [endObject] does again. *)
Lemma preamble_once ty name st st1 :
  writeElementPrefix ty name st = Ok (tt, st1) ->
  exists st0, checkArrayPreamble ty st = Ok (tt, st0) /\ writeElementPrefix ty name st0 = Ok (tt, st1).
Proof.
  unfold writeElementPrefix at 1. destruct st as [os ms].
  destruct ms as [|level ls].
  { cbn. unfold massert. destruct NDEBUG; cbn; done. }
  rewrite massert_true by done. cbn [mbind outcome_bind].
  destruct (checkArrayPreamble ty _) as [[[] st0]|e| |] eqn:E;
    unfold mbind, ser_bind; rewrite E; cbn [mbind outcome_bind]; try done.
  intros Hrest. exists st0. split; [done|]. unfold writeElementPrefix.
  assert (Hn : exists l r, m_stack st0 = l :: r /\ l_state l <> ArrayPrefix).
  { unfold checkArrayPreamble in E. cbn [m_stack] in E. case_decide as Ha.
    - apply bind_Ok in E as ([[] s1] & E1 & E). apply bind_Ok in E as ([[] s2] & E2 & E).
      apply bind_Ok in E as ([[] s3] & E3 & E). unfold level_set in E.
      destruct (m_stack s3); [done|]. injection E as <-. by eexists _, _.
    - injection E as <-. by eexists _, _. }
  destruct Hn as (l & r & El & Hl). rewrite massert_true by (by rewrite El).
  cbn [mbind outcome_bind].
  assert (E0 : checkArrayPreamble ty st0 = Ok (tt, st0))
    by (unfold checkArrayPreamble; rewrite El, decide_False by done; done).
  rewrite (ser_bind_ok _ _ _ _ _ E0). exact Hrest.
Qed.
End Writer.

Section Codec.
Context {B : BuildConfig}.

Local Notation yields := (yields (S := MemoryInputStream)).

(** * One value

    [ty] is the type byte, [body] the bytes after it, [val] what the parser
    makes of them.  A value read replaces a [fresh] one. *)
Record kv_value {A} (f : kv_named A) (ty : Z) (wf : A -> Prop) (body : A -> list Z)
    (val : A -> JsonValue) (fresh : A -> Prop) : Prop := {
  kvv_type : 0 <= ty < 128;
  kvv_bytes x : wf x -> bytes_ok (body x) /\ body x <> [];
  kvv_write x name st out os ls : wf x ->
    writeElementPrefix ty name st = Ok (tt, KW out os ls) ->
    f _ KVOutput name x st = Ok ((true, x), KW (out ++ body x) os ls);
  kvv_parse x fuel : wf x -> (length (body x) < fuel)%nat ->
    yields (loadValue fuel ty) (body x) (val x);
  kvv_read x y name st st' : wf x -> fresh y ->
    in_getValue name st = Ok (Some (val x), st') ->
    f _ KVInput name y st = Ok ((true, x), st');
}.

Lemma pod_write {A} ty bytes name (x : A) st out os ls :
  writeElementPrefix ty name st = Ok (tt, KW out os ls) ->
  out_pod ty bytes name x st = Ok ((true, x), KW (out ++ bytes) os ls).
Proof.
  intros E. unfold out_pod. kv_bind E. kv_bind (out_write_ok bytes out os ls). done.
Qed.

Lemma kv_value_number (f : kv_named Z) ty n cast (rd : ser MemoryInputStream Z) (wf : Z -> Prop) :
  0 <= ty < 128 -> (0 < n)%nat ->
  (forall name x, f _ KVOutput name x = out_pod ty (le_split n x) name x) ->
  (forall name y, f _ KVInput name y = getNumber cast name y) ->
  (forall fuel, loadValue (S fuel) ty = readIntegerJson rd) ->
  (forall x, wf x -> yields rd (le_split n x) x) ->
  (forall x, wf x -> cast (i64 x) = x) ->
  kv_value f ty wf (le_split n) (fun x => INTEGER (i64 x)) (fun _ => True).
Proof.
  intros Ht Hn Eo Ei El Hy Hc. split; [done| | | |].
  - intros x _. split; [apply digits_ok; lia|]. intros E%(f_equal length).
    unfold le_split in E. rewrite length_digits in E. cbn in E. lia.
  - intros x name st out os ls _ E. rewrite Eo. by apply pod_write.
  - intros x fuel Hx Hf. destruct fuel as [|fuel]; [lia|]. rewrite El.
    apply (yields_bind_ret _ (fun v => INTEGER (i64 v))). by apply Hy.
  - intros x y name st st' Hx _ E. rewrite Ei. unfold getNumber. kv_bind E.
    rewrite <- (Hc x Hx) at 2. reflexivity.
Qed.

Lemma u64_i64 x : is_u64 x -> u64 (i64 x) = x.
Proof.
  unfold is_u64, u64, i64. intros Hx. rewrite Zminus_mod_idemp_l.
  replace (_ + _ - _) with x by lia. apply Z.mod_small. lia.
Qed.

(** Conversions of integers that the 64 bits hold. *)
Ltac numeric :=
  intros x Hx; rewrite i64_small by (unfold is_u8, is_u16, is_u32, is_i64 in *; lia);
  unfold signed, u8, u16, u32, is_u8, is_u16, is_u32 in *;
  destruct (Z.lt_ge_cases x 0);
  [first [lia | match goal with |- context [x mod ?m] =>
     replace (x mod m) with (x + m) by (rewrite <- (Z.mod_add x 1 m), Z.mod_small by lia; lia) end]
  |rewrite Z.mod_small by lia];
  try reflexivity; match goal with |- context [Z.ltb ?a ?b] => destruct (Z.ltb_spec a b) end; lia.

Lemma yields_sint n x : (0 < n)%nat ->
  - 2 ^ (8 * Z.of_nat n - 1) <= x < 2 ^ (8 * Z.of_nat n - 1) -> yields (read_sint n) (le_split n x) x.
Proof.
  intros Hn Hx.
  change (read_sint n) with ((kv_read n : ser MemoryInputStream (list Z)) ≫=
    fun d => mret (signed (8 * Z.of_nat n) (le_combine d))).
  assert (E : le_split n x = le_split n (x mod 2 ^ (8 * Z.of_nat n))).
  { rewrite <- pow256. unfold le_split. clear Hx Hn. revert x. induction n as [|n IH]; intros x; [done|].
    cbn [digits]. rewrite Nat2Z.inj_succ, Z.pow_succ_r by lia. f_equal.
    - rewrite Z.mod_mod_divide; [done|]. by exists (256 ^ Z.of_nat n); lia.
    - rewrite (IH (x / 256)). f_equal.
      rewrite Z.rem_mul_r, Z.mul_comm, Z.div_add by lia.
      rewrite (Z.div_small (x mod 256) 256) by (apply Z.mod_pos_bound; lia). lia. }
  set (m := 2 ^ (8 * Z.of_nat n)) in *.
  assert (Em : m = 2 * 2 ^ (8 * Z.of_nat n - 1))
    by (subst m; rewrite <- Z.pow_succ_r by lia; f_equal; lia).
  assert (Ev : le_combine (le_split n (x mod m)) = x mod m).
  { unfold le_combine, le_split. apply value_digits; [lia|]. rewrite pow256. fold m.
    apply Z.mod_pos_bound. lia. }
  rewrite E. replace x with (signed (8 * Z.of_nat n) (le_combine (le_split n (x mod m)))) at 2.
  { apply (yields_bind_ret _ (fun d => signed (8 * Z.of_nat n) (le_combine d))).
    apply yields_read_n, length_digits. }
  rewrite Ev. unfold signed. fold m.
  destruct (Z.lt_ge_cases x 0).
  - replace (x mod m) with (x + m) by (rewrite <- (Z.mod_add x 1 m), Z.mod_small by lia; lia).
    destruct (Z.ltb_spec (x + m) (2 ^ (8 * Z.of_nat n - 1))); lia.
  - rewrite Z.mod_small by lia. destruct (Z.ltb_spec x (2 ^ (8 * Z.of_nat n - 1))); lia.
Qed.

Lemma kv_value_uint8 : kv_value (@kv_uint8) BIN_KV_SERIALIZE_TYPE_UINT8 is_u8 (le_split 1)
  (fun x => INTEGER (i64 x)) (fun _ => True).
Proof.
  apply (kv_value_number _ _ 1 u8 (read_uint 1)); [done|lia|done|done|done| |numeric].
  intros x Hx. by apply yields_uint.
Qed.
Lemma kv_value_uint16 : kv_value (@kv_uint16) BIN_KV_SERIALIZE_TYPE_UINT16 is_u16 (le_split 2)
  (fun x => INTEGER (i64 x)) (fun _ => True).
Proof.
  apply (kv_value_number _ _ 2 u16 (read_uint 2)); [done|lia|done|done|done| |numeric].
  intros x Hx. by apply yields_uint.
Qed.
Lemma kv_value_uint32 : kv_value (@kv_uint32) BIN_KV_SERIALIZE_TYPE_UINT32 is_u32 (le_split 4)
  (fun x => INTEGER (i64 x)) (fun _ => True).
Proof.
  apply (kv_value_number _ _ 4 u32 (read_uint 4)); [done|lia|done|done|done| |numeric].
  intros x Hx. by apply yields_uint.
Qed.
Lemma kv_value_uint64 : kv_value (@kv_uint64) BIN_KV_SERIALIZE_TYPE_UINT64 is_u64 (le_split 8)
  (fun x => INTEGER (i64 x)) (fun _ => True).
Proof.
  apply (kv_value_number _ _ 8 u64 (read_uint 8)); [done|lia|done|done|done| |exact u64_i64].
  intros x Hx. by apply yields_uint.
Qed.
Lemma kv_value_int16 : kv_value (@kv_int16) BIN_KV_SERIALIZE_TYPE_INT16
  (fun x => - 2 ^ 15 <= x < 2 ^ 15) (le_split 2) (fun x => INTEGER (i64 x)) (fun _ => True).
Proof.
  apply (kv_value_number _ _ 2 (fun i => signed 16 (u16 i)) (read_sint 2));
    [done|lia|done|done|done| |numeric].
  intros x Hx. apply yields_sint; [lia|exact Hx].
Qed.
Lemma kv_value_int32 : kv_value (@kv_int32) BIN_KV_SERIALIZE_TYPE_INT32
  (fun x => - 2 ^ 31 <= x < 2 ^ 31) (le_split 4) (fun x => INTEGER (i64 x)) (fun _ => True).
Proof.
  apply (kv_value_number _ _ 4 (fun i => signed 32 (u32 i)) (read_sint 4));
    [done|lia|done|done|done| |numeric].
  intros x Hx. apply yields_sint; [lia|exact Hx].
Qed.
Lemma kv_value_int64 : kv_value (@kv_int64) BIN_KV_SERIALIZE_TYPE_INT64 is_i64 (le_split 8)
  (fun x => INTEGER (i64 x)) (fun _ => True).
Proof.
  apply (kv_value_number _ _ 8 (fun i => i) (read_sint 8)); [done|lia|done|done|done| |].
  - intros x Hx. apply yields_sint; [lia|exact Hx].
  - intros x Hx. by apply i64_small.
Qed.

Lemma kv_value_bool : kv_value (@kv_bool) BIN_KV_SERIALIZE_TYPE_BOOL (fun _ => True)
  (fun b => [if b : bool then 1 else 0]) BOOL (fun _ => True).
Proof.
  split; [done| | | |].
  - intros x _. split; [|done]. repeat constructor; destruct x; lia.
  - intros x name st out os ls _ E. by apply pod_write.
  - intros x fuel _ Hf. destruct fuel as [|fuel]; [cbn in Hf; lia|].
    change (loadValue (S fuel) BIN_KV_SERIALIZE_TYPE_BOOL) with
      (b ← (read_uint8 : ser MemoryInputStream Z); mret (BOOL (negb (b =? 0)))).
    replace (BOOL x) with (BOOL (negb ((if x then 1 else 0) =? 0))) by (by destruct x).
    apply (yields_bind_ret _ (fun b => BOOL (negb (b =? 0)))), yields_byte. destruct x; unfold is_u8; lia.
  - intros x y name st st' _ _ E. cbn [kv_bool KVInput]. unfold in_kv_bool. kv_bind E. done.
Qed.

(** Strings, within the limit of the reader. *)
Definition string_ok (x : list Z) : Prop := bytes_ok x /\ zlen x <= 100 * 1024 * 1024.

Definition string_body (x : list Z) : list Z := size_bytes (zlen x) ++ x.

Lemma string_size_ok x : string_ok x -> size_ok (zlen x).
Proof. intros [_ ?]. unfold size_ok. pose proof (zlen_nonneg x). lia. Qed.

Lemma size_bytes_bytes v : bytes_ok (size_bytes v).
Proof.
  unfold size_bytes. destruct (writeArraySize v) eqn:E; try constructor. unfold writeArraySize in E.
  repeat case_match; simplify_eq; apply digits_ok; lia.
Qed.

Lemma size_bytes_nonempty v : size_ok v -> size_bytes v <> [].
Proof.
  intros Hv E. pose proof (writeArraySize_ok v Hv) as Ew. rewrite E in Ew. unfold writeArraySize in Ew.
  repeat case_match; try done; injection Ew as Ew; by apply (f_equal length) in Ew.
Qed.

Lemma string_body_ok x : string_ok x -> bytes_ok (string_body x) /\ string_body x <> [].
Proof.
  intros Hx. split; [apply Forall_app; split; [apply size_bytes_bytes|apply Hx]|].
  unfold string_body. intros [E _]%app_eq_nil. by apply (size_bytes_nonempty (zlen x)); [apply string_size_ok|].
Qed.

Lemma string_parse x fuel : string_ok x -> (length (string_body x) < fuel)%nat ->
  yields (loadValue fuel BIN_KV_SERIALIZE_TYPE_STRING) (string_body x) (STRING x).
Proof.
  intros Hx Hf. destruct fuel as [|fuel]; [lia|].
  change (loadValue (S fuel) BIN_KV_SERIALIZE_TYPE_STRING) with
    (str ← (kv_readString : ser MemoryInputStream (list Z)); mret (STRING str)).
  apply yields_bind_ret. unfold kv_readString, string_body.
  eapply yields_seq; [apply yields_size; by apply string_size_ok|].
  destruct Hx as [_ Hl]. destruct (Z.ltb_spec (100 * 1024 * 1024) (zlen x)); [lia|].
  destruct (Z.eqb_spec (zlen x) 0) as [E|E].
  - assert (x = []) as -> by (unfold zlen in E; apply nil_length_inv; lia). apply yields_ret.
  - apply yields_read_n. unfold zlen. lia.
Qed.

Lemma string_read x y name st st' :
  in_getValue name st = Ok (Some (STRING x), st') -> in_kv_string name y st = Ok ((true, x), st').
Proof. intros E. unfold in_kv_string. kv_bind E. done. Qed.

Lemma string_write x name st out os ls : string_ok x ->
  writeElementPrefix BIN_KV_SERIALIZE_TYPE_STRING name st = Ok (tt, KW out os ls) ->
  out_kv_string name x st = Ok ((true, x), KW (out ++ string_body x) os ls).
Proof.
  intros Hx E. unfold out_kv_string. kv_bind E.
  kv_bind (out_size_ok (zlen x) out os ls (string_size_ok x Hx)).
  kv_bind (out_write_ok x (out ++ size_bytes (zlen x)) os ls). by rewrite <- app_assoc.
Qed.

Lemma kv_value_string : kv_value (@kv_string) BIN_KV_SERIALIZE_TYPE_STRING string_ok string_body STRING
  (fun _ => True).
Proof.
  split; [done|apply string_body_ok| | |].
  - intros x name st out os ls. apply string_write.
  - apply string_parse.
  - intros x y name st st' _ _. apply string_read.
Qed.

(** Blocks of a fixed size: hashes, keys, identifiers. *)
Lemma kv_value_binary n : (0 < n)%nat -> Z.of_nat n <= 100 * 1024 * 1024 ->
  kv_value (fun S s => kv_binary s n) BIN_KV_SERIALIZE_TYPE_STRING
    (fun x => length x = n /\ bytes_ok x) string_body STRING (fun _ => True).
Proof.
  intros Hn Hm. assert (Hs : forall x, length x = n /\ bytes_ok x -> string_ok x)
    by (intros x [El ?]; split; [done|unfold zlen; lia]).
  split; [done| | | |].
  - intros x Hx. by apply string_body_ok, Hs.
  - intros x name st out os ls Hx E. pose proof (string_write x name st out os ls (Hs x Hx) E) as Ew.
    cbn [kv_binary KVOutput]. unfold out_kv_binary. destruct (Nat.ltb_spec 0 n); [|lia].
    unfold out_kv_string in Ew. replace (Z.of_nat n) with (zlen x) by (unfold zlen; lia). exact Ew.
  - intros x fuel Hx. by apply string_parse, Hs.
  - intros x y name st st' [El _] _ E. cbn [kv_binary KVInput]. unfold in_kv_binary.
    kv_bind (string_read x [] name st st' E). cbn beta iota. by rewrite El, Nat.eqb_refl.
Qed.

(** * Members of an object *)

(** What a member leaves in the object: the type byte with the array flag, the
    bytes after it and the value parsed from them; or nothing. *)
Definition entry : Type := Z * list Z * JsonValue.

Definition entry_bytes (name : list Z) (e : option entry) : list Z :=
  match e with Some (tag, body, _) => zlen name :: name ++ tag :: body | None => [] end.
Definition entry_count (e : option entry) : Z := match e with Some _ => 1 | None => 0 end.

Record kv_member {A} (f : forall S : Type, KVSerializer S -> list Z -> A -> ser S A) (wf : A -> Prop)
    (ent : A -> option entry) (fresh : A -> Prop) : Prop := {
  kvm_write x name out os nm c ls : wf x -> name_ok name -> 0 <= c < 2 ^ 32 ->
    f _ KVOutput name x (KW out os (Lv Object nm c :: ls)) =
    Ok (x, KW (out ++ entry_bytes name (ent x)) os (Lv Object nm (c + entry_count (ent x)) :: ls));
  kvm_parse x tag body v : wf x -> ent x = Some (tag, body, v) ->
    bytes_ok (tag :: body) /\
    forall fuel, (length body < fuel)%nat ->
      yields (loadEntry_with (loadValue fuel) fuel) (tag :: body) v;
  kvm_read x y name o ch ix : wf x -> fresh y ->
    object_find name o = snd <$> ent x ->
    f _ KVInput name y {| chain := OBJECT o :: ch; idxs := ix |} =
    Ok (x, {| chain := OBJECT o :: ch; idxs := ix |});
}.

Lemma getValue_found name o v ch ix :
  object_find name o = Some v ->
  in_getValue name {| chain := OBJECT o :: ch; idxs := ix |} =
  Ok (Some v, {| chain := OBJECT o :: ch; idxs := ix |}).
Proof.
  intros E. unfold in_getValue, chain_back, mbind, ser_bind. cbn.
  unfold ser_lift, json_contains, json_at. cbn. by rewrite E.
Qed.

Lemma getValue_missing name o ch ix :
  object_find name o = None ->
  in_getValue name {| chain := OBJECT o :: ch; idxs := ix |} =
  Ok (None, {| chain := OBJECT o :: ch; idxs := ix |}).
Proof.
  intros E. unfold in_getValue, chain_back, mbind, ser_bind. cbn.
  unfold ser_lift, json_contains. cbn. by rewrite E.
Qed.

Lemma member_of_value {A} (f : kv_named A) ty wf body val fresh :
  kv_value f ty wf body val fresh ->
  kv_member (fun S s name x => KV_MEMBER (f S s name x)) wf
    (fun x => Some (ty, body x, val x)) fresh.
Proof.
  intros F. pose proof (kvv_type _ _ _ _ _ _ F) as Ht. split.
  - intros x name out os nm c ls Hx Hn Hc. unfold KV_MEMBER.
    kv_bind (kvv_write _ _ _ _ _ _ F x name _ _ _ _ Hx (prefix_object ty name out os nm c ls Hn Hc)).
    cbn [entry_bytes entry_count]. rewrite <- app_assoc. cbn [app]. by rewrite <- app_assoc.
  - intros x tag b v Hx E. injection E as <- <- <-. split.
    { apply Forall_cons. split; [unfold is_u8; lia|]. by apply (kvv_bytes _ _ _ _ _ _ F). }
    intros fuel Hf. unfold loadEntry_with. eapply (yields_seq _ _ [ty]); [apply yields_byte; unfold is_u8; lia|].
    replace (Z.land ty BIN_KV_SERIALIZE_FLAG_ARRAY) with 0; [by apply (kvv_parse _ _ _ _ _ _ F)|].
    change BIN_KV_SERIALIZE_FLAG_ARRAY with (2 ^ 7). symmetry. apply Z.bits_inj'. intros i Hi.
    rewrite Z.land_spec, Z.pow2_bits_eqb, Z.bits_0 by lia.
    destruct (Z.eqb_spec 7 i) as [<-|]; [|by rewrite andb_false_r].
    rewrite andb_true_r. apply Z.bits_above_log2; [lia|].
    destruct (decide (ty = 0)) as [->|]; [done|]. apply Z.log2_lt_pow2; lia.
  - intros x y name o ch ix Hx Hy E. unfold KV_MEMBER.
    kv_bind (kvv_read _ _ _ _ _ _ F x y name _ _ Hx Hy (getValue_found name o (val x) ch ix E)). done.
Qed.

(** ** Vectors and lists of values *)

Section Container.
Context {A : Type} (item : kv_named A) (ty : Z) (wf : A -> Prop) (body : A -> list Z)
  (val : A -> JsonValue) (fresh : A -> Prop) (d : A).
Hypothesis F : kv_value item ty wf body val fresh.
Hypothesis Hd : fresh d.

Local Notation items S s := (serialize_items (fun x => KV_MEMBER (item S s [] x))).

Definition container_body (l : list A) : list Z := size_bytes (zlen l) ++ concat (map body l).

Definition container_entry (l : list A) : option entry :=
  match l with
  | [] => None
  | _ => Some (Z.lor BIN_KV_SERIALIZE_FLAG_ARRAY ty, container_body l, ARRAY (map val l))
  end.

Definition container_ok (l : list A) : Prop := Forall wf l /\ zlen l < 2 ^ 32.

Lemma items_write l out os nm c ls : Forall wf l ->
  items _ KVOutput l (KW out os (Lv Array nm c :: ls)) =
  Ok (l, KW (out ++ concat (map body l)) os (Lv Array nm c :: ls)).
Proof.
  intros Hl. revert out. induction Hl as [|x l Hx Hl IH]; intros out; cbn [serialize_items map concat].
  { by rewrite app_nil_r. }
  rewrite (ser_bind_ok _ _ _ x (KW (out ++ body x) os (Lv Array nm c :: ls))).
  2:{ unfold KV_MEMBER. kv_bind (kvv_write _ _ _ _ _ _ F x [] _ _ _ _ Hx (prefix_array ty out os nm c ls)). done. }
  kv_bind (IH (out ++ body x)). by rewrite <- app_assoc.
Qed.

Lemma items_write_first x l out os nm c ls : Forall wf (x :: l) -> zlen nm <= 255 -> size_ok c ->
  items _ KVOutput (x :: l) (KW out os (Lv ArrayPrefix nm c :: ls)) =
  Ok (x :: l, KW (out ++ (zlen nm :: nm ++ [Z.lor BIN_KV_SERIALIZE_FLAG_ARRAY ty]) ++ size_bytes c ++
                  concat (map body (x :: l))) os (Lv Array nm c :: ls)).
Proof.
  intros [Hx Hl]%Forall_cons Hn Hc. cbn [serialize_items map concat].
  erewrite ser_bind_ok.
  2:{ unfold KV_MEMBER.
      kv_bind (kvv_write _ _ _ _ _ _ F x [] _ _ _ _ Hx (prefix_first ty out os nm c ls Hn Hc)). reflexivity. }
  kv_bind (items_write l ((out ++ (zlen nm :: nm ++ [Z.lor BIN_KV_SERIALIZE_FLAG_ARRAY ty]) ++ size_bytes c)
             ++ body x) os nm c ls Hl).
  by rewrite <- !app_assoc.
Qed.

Lemma getValue_index (a : list JsonValue) (i : nat) v ch ix : a !! i = Some v -> zlen a < 2 ^ 32 ->
  in_getValue [] {| chain := ARRAY a :: ch; idxs := Z.of_nat i :: ix |} =
  Ok (Some v, {| chain := ARRAY a :: ch; idxs := Z.of_nat (S i) :: ix |}).
Proof.
  intros E Hl. pose proof (lookup_lt_Some _ _ _ E). unfold zlen in Hl.
  unfold in_getValue, chain_back, idxs_next, ser_lift, json_index, mbind, ser_bind. cbn -[u64 Z.of_nat].
  rewrite Nat2Z.id, E, u64_small by (unfold is_u64; lia). cbn -[Z.of_nat].
  by replace (Z.of_nat i + 1) with (Z.of_nat (S i)) by lia.
Qed.

Lemma items_read l (pre : list A) ch ix : Forall wf l -> zlen (pre ++ l) < 2 ^ 32 ->
  items _ KVInput (replicate (length l) d)
    {| chain := ARRAY (map val (pre ++ l)) :: ch; idxs := Z.of_nat (length pre) :: ix |} =
  Ok (l, {| chain := ARRAY (map val (pre ++ l)) :: ch; idxs := Z.of_nat (length (pre ++ l)) :: ix |}).
Proof.
  intros Hl. revert pre. induction Hl as [|x l Hx Hl IH]; intros pre Hn; cbn [serialize_items replicate length].
  { by rewrite app_nil_r. }
  set (a := map val (pre ++ x :: l)).
  assert (Ea : a !! length pre = Some (val x))
    by (subst a; rewrite list_lookup_fmap, list_lookup_middle by done; done).
  assert (Hz : zlen a < 2 ^ 32) by (subst a; unfold zlen in *; rewrite length_map; done).
  erewrite ser_bind_ok.
  2:{ unfold KV_MEMBER.
      kv_bind (kvv_read _ _ _ _ _ _ F x d [] _ _ Hx Hd (getValue_index a (length pre) (val x) ch ix Ea Hz)).
      reflexivity. }
  specialize (IH (pre ++ [x])). rewrite <- app_assoc in IH. cbn [app] in IH. specialize (IH Hn).
  rewrite length_app in IH at 1. cbn [length] in IH. rewrite Nat.add_1_r in IH. kv_bind IH. done.
Qed.

Lemma kv_resize_same (l : list A) : vresize d (Z.to_nat (zlen l)) l = l.
Proof. unfold vresize, zlen. rewrite Nat2Z.id, firstn_all, Nat.sub_diag. apply app_nil_r. Qed.

Lemma container_write x name out os nm c ls : container_ok x -> name_ok name -> 0 <= c < 2 ^ 32 ->
  KV_MEMBER (kv_container KVOutput d (fun n => item _ KVOutput n) name x) (KW out os (Lv Object nm c :: ls)) =
  Ok (x, KW (out ++ entry_bytes name (container_entry x)) os
           (Lv Object nm (c + entry_count (container_entry x)) :: ls)).
Proof.
  intros [Hx Hl] (Hne & Hn & _) Hc. pose proof (zlen_nonneg x) as Hp.
  unfold KV_MEMBER, kv_container.
  rewrite (ser_bind_ok _ _ _ (true, x) (KW (out ++ entry_bytes name (container_entry x)) os
             (Lv Object nm (c + entry_count (container_entry x)) :: ls))); [done|].
  rewrite (ser_bind_ok _ _ _ (true, zlen x) (KW out os (Lv ArrayPrefix name (zlen x) :: Lv Object nm c :: ls)))
    by done. cbn beta iota. rewrite kv_resize_same.
  destruct x as [|a x].
  { cbn [serialize_items]. rewrite (ser_bind_ok _ _ _ [] _ eq_refl).
    cbn [container_entry entry_bytes entry_count]. by rewrite app_nil_r, Z.add_0_r. }
  kv_bind (items_write_first a x out os name (zlen (a :: x)) (Lv Object nm c :: ls) Hx Hn ltac:(unfold size_ok; lia)).
  cbn [container_entry entry_bytes entry_count kv_endArray KVOutput].
  rewrite (ser_bind_ok out_endArray _ _ tt (KW (out ++ (zlen name :: name ++ [Z.lor BIN_KV_SERIALIZE_FLAG_ARRAY ty]) ++
       size_bytes (zlen (a :: x)) ++ concat (map body (a :: x))) os (Lv Object nm (c + 1) :: ls))).
  2:{ rewrite <- (u64_small (c + 1)) by (unfold is_u64; lia). done. }
  unfold container_body, mret, ser_ret. repeat f_equal. cbn [app]. by rewrite <- app_assoc.
Qed.

Lemma concat_bytes l : Forall wf l -> bytes_ok (concat (map body l)) /\ (length l <= length (concat (map body l)))%nat.
Proof.
  induction 1 as [|x l Hx Hl [IHb IHl] ]; cbn; [split; [constructor|lia]|].
  destruct (kvv_bytes _ _ _ _ _ _ F x Hx) as [Hb Hne]. split; [by apply Forall_app|].
  rewrite length_app. assert (length (body x) <> 0)%nat by (by destruct (body x)). lia.
Qed.

Lemma array_loop_yields l arr lf fuel : Forall wf l -> (length l <= lf)%nat ->
  (length (concat (map body l)) < fuel)%nat ->
  yields (loadArray_loop (loadValue fuel ty) lf (zlen l) arr) (concat (map body l)) (arr ++ map val l).
Proof.
  intros Hl. revert arr lf. induction Hl as [|x l Hx Hl IH]; intros arr lf Hf Hb.
  { cbn. rewrite app_nil_r. destruct lf; apply yields_ret. }
  cbn [length map concat] in *. rewrite length_app in Hb. destruct lf as [|lf]; [lia|].
  cbn [loadArray_loop]. rewrite zlen_cons. pose proof (zlen_nonneg l).
  destruct (Z.eqb_spec (1 + zlen l) 0); [lia|].
  eapply yields_seq; [apply (kvv_parse _ _ _ _ _ _ F); [done|lia]|].
  replace (1 + zlen l - 1) with (zlen l) by lia.
  replace (arr ++ val x :: map val l) with ((arr ++ [val x]) ++ map val l) by (by rewrite <- app_assoc).
  apply IH; lia.
Qed.

Lemma flag_bits : Z.land (Z.lor BIN_KV_SERIALIZE_FLAG_ARRAY ty) BIN_KV_SERIALIZE_FLAG_ARRAY <> 0 /\
  Z.land (Z.lor BIN_KV_SERIALIZE_FLAG_ARRAY ty) 127 = ty /\
  is_u8 (Z.lor BIN_KV_SERIALIZE_FLAG_ARRAY ty).
Proof.
  pose proof (kvv_type _ _ _ _ _ _ F) as Ht. unfold is_u8.
  assert (Hall : forall k : nat, (k < 128)%nat ->
    negb (Z.land (Z.lor 128 (Z.of_nat k)) 128 =? 0) && (Z.land (Z.lor 128 (Z.of_nat k)) 127 =? Z.of_nat k) &&
    (0 <=? Z.lor 128 (Z.of_nat k)) && (Z.lor 128 (Z.of_nat k) <? 256) = true).
  { intros k Hk. do 128 (destruct k as [|k]; [reflexivity|]). lia. }
  specialize (Hall (Z.to_nat ty) ltac:(lia)). rewrite Z2Nat.id in Hall by lia.
  unfold BIN_KV_SERIALIZE_FLAG_ARRAY. zbool. done.
Qed.

Lemma container_parse l fuel : container_ok l -> l <> [] -> (length (container_body l) < fuel)%nat ->
  yields (loadEntry_with (loadValue fuel) fuel) (Z.lor BIN_KV_SERIALIZE_FLAG_ARRAY ty :: container_body l)
    (ARRAY (map val l)).
Proof.
  intros [Hl Hz] Hne Hf. destruct flag_bits as (Hb1 & Hb2 & Hb3). unfold container_body in *.
  rewrite length_app in Hf. destruct (concat_bytes l Hl) as [_ Hlen].
  unfold loadEntry_with. eapply (yields_seq _ _ [_]); [by apply yields_byte|].
  rewrite (proj2 (Z.eqb_neq _ _) Hb1). cbn [negb]. rewrite Hb2. unfold loadArray_with.
  pose proof (zlen_nonneg l).
  eapply yields_seq; [apply yields_size; unfold size_ok; lia|].
  apply (yields_bind_ret _ ARRAY). apply (array_loop_yields l []); [done|lia|lia].
Qed.

Lemma container_read x y name o ch ix : container_ok x -> y = [] ->
  object_find name o = snd <$> container_entry x ->
  KV_MEMBER (kv_container KVInput d (fun n => item _ KVInput n) name y) {| chain := OBJECT o :: ch; idxs := ix |} =
  Ok (x, {| chain := OBJECT o :: ch; idxs := ix |}).
Proof.
  intros [Hx Hl] -> E. unfold KV_MEMBER, kv_container. destruct x as [|a x].
  { cbn in E. unfold mbind, ser_bind. cbn. unfold in_beginArray_kv, chain_back, mbind, ser_bind, ser_lift, json_contains.
    cbn. by rewrite E. }
  cbn [container_entry fmap option_fmap option_map snd] in E. set (l := a :: x) in *.
  rewrite (ser_bind_ok _ _ _ (true, l) {| chain := OBJECT o :: ch; idxs := ix |}); [done|].
  rewrite (ser_bind_ok _ _ _ (true, zlen l) {| chain := ARRAY (map val l) :: OBJECT o :: ch; idxs := 0 :: ix |}).
  2:{ cbn [kv_beginArray KVInput].
      unfold in_beginArray_kv, chain_back, chain_push, idxs_push, mbind, ser_bind, ser_lift, json_contains, json_at.
      cbn -[zlen map l]. rewrite E. cbn -[zlen map l]. unfold zlen. by rewrite length_map. }
  cbn beta iota. unfold vresize. rewrite take_nil, Nat.sub_0_r. cbn [app].
  replace (Z.to_nat (zlen l)) with (length l) by (unfold zlen; lia).
  kv_bind (items_read l [] (OBJECT o :: ch) ix Hx Hl).
  cbn [kv_endArray KVInput]. rewrite (ser_bind_ok in_endArray _ _ tt {| chain := OBJECT o :: ch; idxs := ix |}); [reflexivity|].
  unfold in_endArray. rewrite !massert_true by done. done.
Qed.

Lemma kv_member_container :
  kv_member (fun S s name x => KV_MEMBER (kv_container s d (fun n => item S s n) name x))
    container_ok container_entry (fun y => y = []).
Proof.
  split.
  - intros. by apply container_write.
  - intros x tag b v Hx E. destruct x as [|a x]; [done|]. injection E as <- <- <-. split.
    + apply Forall_cons. split; [apply flag_bits|]. apply Forall_app. split; [apply size_bytes_bytes|].
      by apply concat_bytes, Hx.
    + intros fuel Hf. by apply container_parse.
  - intros. by apply container_read.
Qed.
End Container.

(** ** Vectors of structures as one block *)

Section AsBinary.
Context {A : Type} (n : nat) (to_bytes : A -> list Z) (of_bytes : list Z -> A) (wf : A -> Prop).
Hypothesis Hn : (0 < n)%nat.
Hypothesis Hto : forall a, wf a -> length (to_bytes a) = n /\ bytes_ok (to_bytes a) /\ of_bytes (to_bytes a) = a.

Definition pods_ok (l : list A) : Prop :=
  Forall wf l /\ Z.of_nat n * zlen l <= 100 * 1024 * 1024.

Definition pods_bytes (l : list A) : list Z := concat (map to_bytes l).

Definition pods_entry (l : list A) : option entry :=
  match l with
  | [] => None
  | _ => Some (BIN_KV_SERIALIZE_TYPE_STRING, string_body (pods_bytes l), STRING (pods_bytes l))
  end.

Lemma pods_bytes_ok l : Forall wf l ->
  length (pods_bytes l) = (length l * n)%nat /\ bytes_ok (pods_bytes l) /\
  pods n of_bytes (length l) (pods_bytes l) = l.
Proof.
  induction 1 as [|a l Ha Hl (IHl & IHb & IHp)]; [split; [done|]; split; [constructor|done]|].
  destruct (Hto a Ha) as (El & Hb & Eo). unfold pods_bytes in *. cbn [map concat length pods].
  rewrite length_app, IHl, El. split; [lia|]. split; [by apply Forall_app|].
  rewrite <- El at 1 3. rewrite take_app_length, drop_app_length, Eo. by rewrite IHp.
Qed.

Lemma pods_string_ok l : pods_ok l -> string_ok (pods_bytes l).
Proof.
  intros [Hl Hs]. destruct (pods_bytes_ok l Hl) as (El & Hb & _). split; [done|]. unfold zlen in *. lia.
Qed.

Lemma pods_write x name out os nm c ls : pods_ok x -> name_ok name -> 0 <= c < 2 ^ 32 ->
  kv_binary_string KVOutput name (pods_bytes x) (KW out os (Lv Object nm c :: ls)) =
  Ok ((true, pods_bytes x), KW (out ++ entry_bytes name (pods_entry x)) os
        (Lv Object nm (c + entry_count (pods_entry x)) :: ls)).
Proof.
  intros Hx Hname Hc. destruct (pods_bytes_ok x (proj1 Hx)) as (El & _ & _).
  cbn [kv_binary_string KVOutput]. unfold out_kv_binary. rewrite El. destruct x as [|a x].
  { cbn. by rewrite app_nil_r, Z.add_0_r. }
  destruct (Nat.ltb_spec 0 (length (a :: x) * n)); [|cbn [length] in *; lia].
  pose proof (string_write _ name _ _ _ _ (pods_string_ok _ Hx)
                (prefix_object BIN_KV_SERIALIZE_TYPE_STRING name out os nm c ls Hname Hc)) as Ew.
  unfold out_kv_string, zlen at 1 in Ew. rewrite El in Ew. rewrite Ew.
  cbn [pods_entry entry_bytes entry_count]. rewrite <- (app_assoc out). cbn [app].
  by rewrite <- (app_assoc name).
Qed.

Lemma pods_parse x tag body v : pods_ok x -> pods_entry x = Some (tag, body, v) ->
  bytes_ok (tag :: body) /\
  forall fuel, (length body < fuel)%nat -> yields (loadEntry_with (loadValue fuel) fuel) (tag :: body) v.
Proof.
  intros Hx E. destruct x as [|a x]; [done|]. injection E as <- <- <-.
  apply (kvm_parse _ _ _ _ (member_of_value _ _ _ _ _ _ kv_value_string) (pods_bytes (a :: x)));
    [by apply pods_string_ok|done].
Qed.

Lemma pods_blob x name o ch ix : object_find name o = snd <$> pods_entry x ->
  KV_MEMBER (kv_binary_string KVInput name []) {| chain := OBJECT o :: ch; idxs := ix |} =
  Ok (pods_bytes x, {| chain := OBJECT o :: ch; idxs := ix |}).
Proof.
  intros E. unfold KV_MEMBER. cbn [kv_binary_string KVInput]. destruct x as [|a x].
  - unfold in_kv_string.
    rewrite (ser_bind_ok _ _ _ (false, []) {| chain := OBJECT o :: ch; idxs := ix |}); [done|].
    kv_bind (getValue_missing name o ch ix E). done.
  - kv_bind (string_read (pods_bytes (a :: x)) [] name _ _
               (getValue_found name o (STRING (pods_bytes (a :: x))) ch ix E)). done.
Qed.

Lemma pods_read x : Forall wf x ->
  negb (length (pods_bytes x) mod n =? 0)%nat = false /\
  pods n of_bytes (length (pods_bytes x) / n) (pods_bytes x) = x.
Proof.
  intros Hx. destruct (pods_bytes_ok x Hx) as (El & _ & Ep).
  rewrite El, Nat.Div0.mod_mul, Nat.div_mul by lia. done.
Qed.

Lemma kv_member_pods_vector :
  kv_member (fun S s name x => kv_asBinary_vector s n to_bytes of_bytes name x)
    pods_ok pods_entry (fun _ => True).
Proof.
  split; [| |].
  - intros x name out os nm c ls Hx Hname Hc. unfold kv_asBinary_vector. cbn [kv_type KVOutput].
    kv_bind (pods_write x name out os nm c ls Hx Hname Hc). done.
  - intros x tag body v Hx. by apply pods_parse.
  - intros x y name o ch ix Hx _ E. unfold kv_asBinary_vector. cbn [kv_type KVInput].
    kv_bind (pods_blob x name o ch ix E). destruct (pods_read x (proj1 Hx)) as [-> ->]. done.
Qed.

Lemma kv_member_pods_list :
  kv_member (fun S s name x => kv_asBinary_list s n to_bytes of_bytes name x)
    pods_ok pods_entry (fun y => y = []).
Proof.
  split; [| |].
  - intros x name out os nm c ls Hx Hname Hc. unfold kv_asBinary_list. cbn [kv_type KVOutput].
    kv_bind (pods_write x name out os nm c ls Hx Hname Hc). done.
  - intros x tag body v Hx. by apply pods_parse.
  - intros x y name o ch ix Hx -> E. unfold kv_asBinary_list. cbn [kv_type KVInput].
    kv_bind (pods_blob x name o ch ix E). destruct (pods_read x (proj1 Hx)) as [-> ->]. done.
Qed.
End AsBinary.

(** * Structures *)

Section Body.
Context {A : Type}.

Definition body_bytes (fields : list (list Z * (A -> option entry))) (x : A) : list Z :=
  concat (map (fun p => entry_bytes p.1 (p.2 x)) fields).
Definition body_count (fields : list (list Z * (A -> option entry))) (x : A) : Z :=
  sum_Z (map (fun p => entry_count (p.2 x)) fields).
Definition body_object (fields : list (list Z * (A -> option entry))) (x : A) : JsonObject :=
  omap (fun p => (fun e : entry => (p.1, e.2)) <$> p.2 x) fields.

(** The members of a structure, in order, with their names. *)
Record kv_body (f : kv_struct A) (wf : A -> Prop) (fields : list (list Z * (A -> option entry)))
    (fresh : A -> Prop) : Prop := {
  kvb_names : NoDup (map fst fields) /\ Forall name_ok (map fst fields) /\ zlen fields < 2 ^ 31;
  kvb_write x out os nm ls : wf x ->
    f _ KVOutput x (KW out os (Lv Object nm 0 :: ls)) =
    Ok (x, KW (out ++ body_bytes fields x) os (Lv Object nm (body_count fields x) :: ls));
  kvb_parse x : wf x -> Forall (fun p => forall tag body v, p.2 x = Some (tag, body, v) ->
    bytes_ok (tag :: body) /\
    forall fuel, (length body < fuel)%nat -> yields (loadEntry_with (loadValue fuel) fuel) (tag :: body) v) fields;
  kvb_read x y o ch ix : wf x -> fresh y ->
    Forall (fun p => object_find p.1 o = snd <$> p.2 x) fields ->
    f _ KVInput y {| chain := OBJECT o :: ch; idxs := ix |} = Ok (x, {| chain := OBJECT o :: ch; idxs := ix |});
}.

Lemma body_find fields x : NoDup (map fst fields) ->
  Forall (fun p => object_find p.1 (body_object fields x) = snd <$> p.2 x) fields.
Proof.
  intros Hd.
  assert (Hk : forall fs n, n ∉ map fst fs -> object_find n (body_object fs x) = None).
  { intros fs n. induction fs as [|[k e] fs IH]; cbn; [done|]. rewrite not_elem_of_cons. intros [Hne Hn].
    destruct (e x) as [v|]; cbn; [rewrite decide_False by congruence|]; by apply IH. }
  induction fields as [|[k e] fs IH]; [constructor|]. cbn in Hd. apply NoDup_cons in Hd as [Hn Hd].
  apply Forall_cons. split.
  - cbn. destruct (e x) as [v|]; cbn; [by rewrite decide_True by done|]. by apply Hk.
  - specialize (IH Hd). rewrite Forall_forall in IH. apply Forall_forall.
    intros [k' e'] Hin. specialize (IH _ Hin). cbn in *. destruct (e x) as [v|]; cbn; [|done].
    rewrite decide_False; [done|]. intros <-. apply Hn. change k with (fst (k, e')). by apply (list_elem_of_fmap_2 fst).
Qed.

Lemma yields_name old name : name_ok name -> yields (readName old) (zlen name :: name) name.
Proof.
  intros (Hne & Hl & Hb). unfold readName. pose proof (zlen_nonneg name).
  eapply (yields_seq _ _ [_]); [apply yields_byte; unfold is_u8; lia|].
  destruct (Z.eqb_spec (zlen name) 0) as [E|E]; [unfold zlen in E; destruct name; [done|cbn in E; lia]|].
  apply yields_read_n. unfold zlen. lia.
Qed.

Lemma section_loop_yields fs x name sec lf fuel :
  NoDup (map fst sec ++ map fst fs) -> Forall name_ok (map fst fs) ->
  Forall (fun p => forall tag body v, p.2 x = Some (tag, body, v) ->
    bytes_ok (tag :: body) /\
    forall fuel, (length body < fuel)%nat -> yields (loadEntry_with (loadValue fuel) fuel) (tag :: body) v) fs ->
  (length (body_bytes fs x) <= lf)%nat -> (length (body_bytes fs x) < fuel)%nat ->
  yields (loadSection_loop (loadEntry_with (loadValue fuel) fuel) lf (body_count fs x) name sec)
    (body_bytes fs x) (sec ++ body_object fs x).
Proof.
  revert name sec lf. induction fs as [|[k e] fs IH]; intros name sec lf Hd Hn Hp Hlf Hf.
  { cbn. rewrite app_nil_r. destruct lf; apply yields_ret. }
  apply Forall_cons in Hn as [Hk Hn]. apply Forall_cons in Hp as [Hp Hps].
  unfold body_bytes, body_count, body_object in *. cbn [map concat sum_Z foldr omap list_omap fst snd] in *.
  assert (Hd' : NoDup (map fst sec ++ map fst fs)).
  { apply NoDup_app in Hd as (H1 & H2 & H3). apply NoDup_cons in H3 as [H3 H4]. apply NoDup_app.
    split; [done|]. split; [|done]. intros z Hz1 Hz2. apply (H2 z Hz1). by right. }
  destruct (e x) as [ [ [tag body] v]|] eqn:Ee; cbn [entry_bytes entry_count fmap option_fmap option_map snd] in *.
  2:{ cbn [app]. rewrite Z.add_0_l. by apply IH. }
  fold (sum_Z (map (fun p => entry_count (p.2 x)) fs)).
  assert (Hs : 0 <= sum_Z (map (fun p => entry_count (p.2 x)) fs)).
  { apply sum_Z_nonneg, Forall_map, Forall_true. intros p. cbn. destruct (p.2 x); cbn; lia. }
  rewrite length_app in Hlf, Hf. cbn [length] in Hlf, Hf. rewrite length_app in Hlf, Hf. cbn [length] in Hlf, Hf.
  destruct lf as [|lf]; [lia|]. cbn [loadSection_loop].
  destruct (Z.eqb_spec (1 + sum_Z (map (fun p => entry_count (p.2 x)) fs)) 0); [lia|].
  change ((zlen k :: k ++ tag :: body) ++ concat (map (fun p => entry_bytes p.1 (p.2 x)) fs)) with
    (zlen k :: (k ++ tag :: body) ++ concat (map (fun p => entry_bytes p.1 (p.2 x)) fs)).
  rewrite <- app_assoc.
  eapply (yields_seq _ _ (zlen k :: k)); [by apply yields_name|].
  destruct (Hp tag body v eq_refl) as [_ Hy].
  eapply (yields_seq _ _ (tag :: body)); [apply Hy; lia|].
  assert (Hnone : object_find k sec = None).
  { apply object_find_None. intros Hin. apply NoDup_app in Hd as (_ & H2 & _). apply (H2 k Hin). by left. }
  unfold object_emplace. rewrite Hnone.
  replace (1 + _ - 1) with (sum_Z (map (fun p => entry_count (p.2 x)) fs)) by lia.
  replace (sec ++ (k, v) :: omap _ fs) with ((sec ++ [(k, v)]) ++ omap (fun p => (fun e : entry => (p.1, e.2)) <$> p.2 x) fs)
    by (by rewrite <- app_assoc).
  apply IH; [|done|done|lia|lia]. rewrite map_app, <- app_assoc. cbn [map fst app]. exact Hd.
Qed.

Section Structure.
Context (f : kv_struct A) (wf : A -> Prop) (fields : list (list Z * (A -> option entry))) (fresh : A -> Prop).
Hypothesis F : kv_body f wf fields fresh.

(** The contents of an object: the number of its members and the members. *)
Definition object_body (x : A) : list Z := size_bytes (body_count fields x) ++ body_bytes fields x.

Lemma body_count_ok x : size_ok (body_count fields x).
Proof.
  destruct (kvb_names _ _ _ _ F) as (_ & _ & Hl). unfold size_ok, body_count.
  assert (forall fs : list (list Z * (A -> option entry)),
    0 <= sum_Z (map (fun p => entry_count (p.2 x)) fs) <= zlen fs) as Hb.
  { intros fs. induction fs as [|p fs IH]; [done|]. rewrite zlen_cons. cbn [map sum_Z foldr].
    fold (sum_Z (map (fun p => entry_count (p.2 x)) fs)). destruct (p.2 x); cbn [entry_count]; lia. }
  specialize (Hb fields). lia.
Qed.

Lemma body_bytes_ok x : wf x -> bytes_ok (body_bytes fields x).
Proof.
  intros Hx. pose proof (kvb_parse _ _ _ _ F x Hx) as Hp. destruct (kvb_names _ _ _ _ F) as (_ & Hn & _).
  unfold body_bytes. clear F. induction fields as [|[k e] fs IH]; [constructor|].
  apply Forall_cons in Hn as [(_ & Hl & Hk) Hn]. apply Forall_cons in Hp as [Hp Hps]. cbn in *.
  apply Forall_app. split; [|by apply IH].
  destruct (e x) as [ [ [tag body] v]|]; cbn [entry_bytes]; [|constructor].
  apply Forall_cons. split; [pose proof (zlen_nonneg k); unfold is_u8; lia|].
  apply Forall_app. split; [done|]. by apply (Hp tag body v).
Qed.

Lemma object_body_ok x : wf x -> bytes_ok (object_body x) /\ object_body x <> [].
Proof.
  intros Hx. split; [apply Forall_app; split; [apply size_bytes_bytes|by apply body_bytes_ok]|].
  unfold object_body. intros [E _]%app_eq_nil. by apply (size_bytes_nonempty _ (body_count_ok x)).
Qed.

Lemma section_yields x fuel : wf x -> (length (object_body x) <= fuel)%nat ->
  yields (loadSection fuel) (object_body x) (OBJECT (body_object fields x)).
Proof.
  intros Hx Hf. unfold loadSection, loadSection_with, object_body in *. rewrite length_app in Hf.
  assert (length (size_bytes (body_count fields x)) <> 0)%nat.
  { pose proof (size_bytes_nonempty _ (body_count_ok x)). by destruct (size_bytes _). }
  eapply yields_seq; [apply yields_size, body_count_ok|]. apply (yields_bind_ret _ OBJECT).
  destruct (kvb_names _ _ _ _ F) as (Hd & Hn & _).
  apply (section_loop_yields fields x [] []); [done|done|by apply (kvb_parse _ _ _ _ F)|lia|lia].
Qed.

Lemma beginObject_found name st v st' :
  in_getValue name st = Ok (Some v, st') ->
  in_beginObject name st = Ok (true, {| chain := v :: chain st'; idxs := idxs st' |}).
Proof.
  unfold in_getValue, in_beginObject, mbind, ser_bind. destruct st as [ [|j ch] ix]; [done|]. cbn.
  destruct (isArray j); cbn.
  - destruct (idxs_next _) as [ [i st1]|e| |]; cbn; try done. unfold ser_lift.
    destruct (json_index j i); cbn; try done. intros E. injection E as <- <-. done.
  - unfold ser_lift. destruct (json_contains j name) as [[]|e| |]; cbn; try done.
    destruct (json_at j name); cbn; try done. intros E. injection E as <- <-. done.
Qed.

Lemma object_write x name st out os ls : wf x ->
  writeElementPrefix BIN_KV_SERIALIZE_TYPE_OBJECT name st = Ok (tt, KW out os ls) ->
  kv_object KVOutput (f _) name x st = Ok ((true, x), KW (out ++ object_body x) os ls).
Proof.
  intros Hx E. destruct (preamble_once _ _ _ _ E) as ([os0 ls0] & E0 & E1).
  unfold kv_object. cbn [kv_beginObject kv_endObject KVOutput].
  rewrite (ser_bind_ok _ _ _ true (KW [] os0 (Lv Object name 0 :: ls0))).
  2:{ unfold out_beginObject. kv_bind E0. done. }
  cbn beta iota. kv_bind (kvb_write _ _ _ _ F x [] os0 name ls0 Hx). cbn [app].
  rewrite (ser_bind_ok out_endObject _ _ tt (KW (out ++ object_body x) os ls)); [done|].
  unfold out_endObject. rewrite massert_true by done. cbn [mbind outcome_bind].
  erewrite (ser_bind_ok level_back) by reflexivity.
  erewrite (ser_bind_ok level_pop) by reflexivity.
  erewrite (ser_bind_ok object_pop) by reflexivity. cbn [m_stack m_objectsStack l_name l_count].
  kv_bind E1. kv_bind (out_size_ok (body_count fields x) out os ls (body_count_ok x)).
  rewrite out_write_ok. unfold object_body. by rewrite <- app_assoc.
Qed.

(** A structure as a member, or as an element of a vector. *)
Lemma kv_value_object :
  kv_value (fun S s => kv_object s (f S)) BIN_KV_SERIALIZE_TYPE_OBJECT wf object_body
    (fun x => OBJECT (body_object fields x)) fresh.
Proof.
  split; [done|apply object_body_ok| | |].
  - intros x name st out os ls. apply object_write.
  - intros x fuel Hx Hf. destruct fuel as [|fuel]; [lia|].
    change (loadValue (S fuel) BIN_KV_SERIALIZE_TYPE_OBJECT) with
      (loadSection (S := MemoryInputStream) fuel). apply section_yields; [done|lia].
  - intros x y name st [ch ix] Hx Hy E. unfold kv_object. cbn [kv_beginObject kv_endObject KVInput].
    kv_bind (beginObject_found name st _ _ E). cbn [chain idxs].
    destruct (kvb_names _ _ _ _ F) as (Hd & _ & _).
    kv_bind (kvb_read _ _ _ _ F x y (body_object fields x) ch ix Hx Hy (body_find fields x Hd)).
    rewrite (ser_bind_ok in_endObject _ _ tt {| chain := ch; idxs := ix |}); [done|].
    unfold in_endObject. by rewrite massert_true by done.
Qed.

(** The whole document. *)
Definition kv_document (x : A) : list Z :=
  (le_split 4 PORTABLE_STORAGE_SIGNATUREA ++ le_split 4 PORTABLE_STORAGE_SIGNATUREB ++
   le_split 1 PORTABLE_STORAGE_FORMAT_VER) ++ object_body x.

Lemma kv_store x : wf x -> storeToBinaryKeyValue f x = Ok (kv_document x).
Proof.
  intros Hx. unfold storeToBinaryKeyValue, KVBinaryOutputStreamSerializer_new. cbn [out_beginObject].
  change (out_beginObject [] {| m_objectsStack := []; m_stack := [] |}) with
    (Ok (true, KW [] [] [Lv Object [] 0])). cbn [mbind outcome_bind].
  rewrite (kvb_write _ _ _ _ F x [] [] [] [] Hx). cbn [mbind outcome_bind app].
  unfold dump. rewrite !massert_true by done. cbn [mbind outcome_bind m_stack m_objectsStack].
  assert (W : forall a b, write (S := list Z) a b = Ok (a ++ b))
    by (intros a b; destruct (write_spec (S := list Z) a b) as (s & -> & E); cbn in E; by subst s).
  rewrite W. cbn [mbind outcome_bind vback last l_count].
  rewrite (writeArraySize_ok _ (body_count_ok x)). cbn [mbind outcome_bind]. rewrite W.
  cbn [mbind outcome_bind]. rewrite W. unfold kv_document, object_body. by rewrite <- app_assoc.
Qed.

Lemma kv_document_bytes x : wf x -> bytes_ok (kv_document x).
Proof.
  intros Hx. unfold kv_document. apply Forall_app. split; [|by apply object_body_ok].
  repeat (apply Forall_app; split); apply digits_ok; lia.
Qed.

Lemma kv_load x y : wf x -> fresh y -> loadFromBinaryKeyValue f y (kv_document x) = Ok (Some x).
Proof.
  intros Hx Hy. unfold loadFromBinaryKeyValue, KVBinaryInputStreamSerializer_new.
  assert (P : yields (parseBinary (S (length (kv_document x)))) (kv_document x) (OBJECT (body_object fields x))).
  { unfold parseBinary, kv_document at 2. eapply yields_seq; [apply yields_read_n; reflexivity|].
    set (hdr := le_split 4 _ ++ _). vm_compute in hdr.
    apply section_yields; [done|]. unfold kv_document. rewrite length_app. lia. }
  destruct (P (MemoryInputStream_new (kv_document x)) []) as (s' & -> & _); [cbn; lia|by rewrite app_nil_r|].
  cbn [mbind outcome_bind isObject].
  destruct (kvb_names _ _ _ _ F) as (Hd & _ & _).
  by rewrite (kvb_read _ _ _ _ F x y (body_object fields x) [] [] Hx Hy (body_find fields x Hd)).
Qed.
End Structure.
End Body.
End Codec.
