(* ===== verification/P2pProtocol.v ===== *)
(** The messages of the network: [P2p/P2pProtocolTypes.h],
    [P2p/P2pProtocolDefinitions.h] and
    [CryptoNoteProtocol/CryptoNoteProtocolDefinitions.h], each structure with
    its [serialize] function, and their round trips through the key-value
    format. *)
From S2P Require Import Prelude Varint IntUtil Stream StringTools Serializer KVBinary KVTheory KVCodec.

(** * [P2pProtocolTypes.h]: packed structures *)

Record NetworkAddress := { na_ip : Z; na_port : Z }.
Record PeerlistEntry := { pe_adr : NetworkAddress; pe_id : Z; pe_last_seen : Z }.

(** The 24 bytes of a [PeerlistEntry]. *)
Definition PeerlistEntry_bytes (p : PeerlistEntry) : list Z :=
  le_split 4 (na_ip (pe_adr p)) ++ le_split 4 (na_port (pe_adr p)) ++
  le_split 8 (pe_id p) ++ le_split 8 (pe_last_seen p).
Definition PeerlistEntry_of_bytes (b : list Z) : PeerlistEntry :=
  {| pe_adr := {| na_ip := le_combine (take 4 b); na_port := le_combine (take 4 (drop 4 b)) |};
     pe_id := le_combine (take 8 (drop 8 b));
     pe_last_seen := le_combine (take 8 (drop 16 b)) |}.

Definition PeerlistEntry_ok (p : PeerlistEntry) : Prop :=
  is_u32 (na_ip (pe_adr p)) /\ is_u32 (na_port (pe_adr p)) /\ is_u64 (pe_id p) /\ is_u64 (pe_last_seen p).

Lemma PeerlistEntry_pod p : PeerlistEntry_ok p ->
  length (PeerlistEntry_bytes p) = 24%nat /\ bytes_ok (PeerlistEntry_bytes p) /\
  PeerlistEntry_of_bytes (PeerlistEntry_bytes p) = p.
Proof.
  destruct p as [[ip port] id seen]. intros (H1 & H2 & H3 & H4). cbn in H1, H2, H3, H4.
  unfold is_u32, is_u64 in *. split; [done|]. split.
  { unfold PeerlistEntry_bytes. repeat (apply Forall_app; split); apply digits_ok; lia. }
  unfold PeerlistEntry_of_bytes, PeerlistEntry_bytes, le_combine, le_split. cbn [pe_adr na_ip na_port pe_id pe_last_seen].
  assert (V : forall n x, 0 <= x < 256 ^ Z.of_nat n -> value 256 (digits 256 n x) = x)
    by (intros; apply value_digits; lia).
  f_equal; [f_equal; [exact (V 4%nat ip H1)|exact (V 4%nat port H2)]|exact (V 8%nat id H3)|
    exact (V 8%nat seen H4)].
Qed.

(** A hash is its 32 bytes. *)
Definition hash_ok (h : list Z) : Prop := length h = 32%nat /\ bytes_ok h.

Lemma hash_pod h : hash_ok h -> length h = 32%nat /\ bytes_ok h /\ h = h.
Proof. by intros [? ?]. Qed.

(** * [P2pProtocolDefinitions.h] *)

Record network_config := {
  connections_count : Z; connection_timeout : Z; ping_connection_timeout : Z; handshake_interval : Z;
  packet_max_size : Z; config_id : Z; send_peerlist_sz : Z;
}.

Definition serialize_network_config S (s : KVSerializer S) (v : network_config) : ser S network_config :=
  a ← KV_MEMBER (kv_uint32 s (chars "connections_count") (connections_count v));
  b ← KV_MEMBER (kv_uint32 s (chars "handshake_interval") (handshake_interval v));
  c ← KV_MEMBER (kv_uint32 s (chars "packet_max_size") (packet_max_size v));
  d ← KV_MEMBER (kv_uint32 s (chars "config_id") (config_id v));
  mret {| connections_count := a; connection_timeout := connection_timeout v;
          ping_connection_timeout := ping_connection_timeout v; handshake_interval := b;
          packet_max_size := c; config_id := d; send_peerlist_sz := send_peerlist_sz v |}.

Record basic_node_data := {
  network_id : list Z; bnd_version : Z; bnd_local_time : Z; my_port : Z; bnd_peer_id : Z;
}.

(** The version is set to 0 before it is read, for peers that send none. *)
Definition serialize_basic_node_data S (s : KVSerializer S) (v : basic_node_data) : ser S basic_node_data :=
  a ← KV_MEMBER (kv_binary s 16 (chars "network_id") (network_id v));
  let version := match kv_type s with INPUT => 0 | OUTPUT => bnd_version v end in
  b ← KV_MEMBER (kv_uint8 s (chars "version") version);
  c ← KV_MEMBER (kv_uint64 s (chars "peer_id") (bnd_peer_id v));
  d ← KV_MEMBER (kv_uint64 s (chars "local_time") (bnd_local_time v));
  e ← KV_MEMBER (kv_uint32 s (chars "my_port") (my_port v));
  mret {| network_id := a; bnd_version := b; bnd_local_time := d; my_port := e; bnd_peer_id := c |}.

Record CORE_SYNC_DATA := { csd_current_height : Z; top_id : list Z }.

Definition serialize_CORE_SYNC_DATA S (s : KVSerializer S) (v : CORE_SYNC_DATA) : ser S CORE_SYNC_DATA :=
  a ← KV_MEMBER (kv_uint32 s (chars "current_height") (csd_current_height v));
  b ← KV_MEMBER (kv_binary s 32 (chars "top_id") (top_id v));
  mret {| csd_current_height := a; top_id := b |}.

(** [serializeAsBinary(local_peerlist, "local_peerlist", s)]. *)
Definition kv_peerlist {S} (s : KVSerializer S) (name : list Z) (v : list PeerlistEntry)
  : ser S (list PeerlistEntry) :=
  kv_asBinary_list s 24 PeerlistEntry_bytes PeerlistEntry_of_bytes name v.

Module COMMAND_HANDSHAKE.
Definition ID : Z := 1001.

Record request := { node_data : basic_node_data; payload_data : CORE_SYNC_DATA }.

Definition serialize_request S (s : KVSerializer S) (v : request) : ser S request :=
  a ← KV_MEMBER (kv_object s (serialize_basic_node_data S) (chars "node_data") (node_data v));
  b ← KV_MEMBER (kv_object s (serialize_CORE_SYNC_DATA S) (chars "payload_data") (payload_data v));
  mret {| node_data := a; payload_data := b |}.

Record response := {
  r_node_data : basic_node_data; r_payload_data : CORE_SYNC_DATA; local_peerlist : list PeerlistEntry;
}.

Definition serialize_response S (s : KVSerializer S) (v : response) : ser S response :=
  a ← KV_MEMBER (kv_object s (serialize_basic_node_data S) (chars "node_data") (r_node_data v));
  b ← KV_MEMBER (kv_object s (serialize_CORE_SYNC_DATA S) (chars "payload_data") (r_payload_data v));
  c ← kv_peerlist s (chars "local_peerlist") (local_peerlist v);
  mret {| r_node_data := a; r_payload_data := b; local_peerlist := c |}.
End COMMAND_HANDSHAKE.

Module COMMAND_TIMED_SYNC.
Definition ID : Z := 1002.

Record request := { payload_data : CORE_SYNC_DATA }.

Definition serialize_request S (s : KVSerializer S) (v : request) : ser S request :=
  a ← KV_MEMBER (kv_object s (serialize_CORE_SYNC_DATA S) (chars "payload_data") (payload_data v));
  mret {| payload_data := a |}.

Record response := {
  local_time : Z; r_payload_data : CORE_SYNC_DATA; local_peerlist : list PeerlistEntry;
}.

Definition serialize_response S (s : KVSerializer S) (v : response) : ser S response :=
  a ← KV_MEMBER (kv_uint64 s (chars "local_time") (local_time v));
  b ← KV_MEMBER (kv_object s (serialize_CORE_SYNC_DATA S) (chars "payload_data") (r_payload_data v));
  c ← kv_peerlist s (chars "local_peerlist") (local_peerlist v);
  mret {| local_time := a; r_payload_data := b; local_peerlist := c |}.
End COMMAND_TIMED_SYNC.

Module COMMAND_PING.
Definition ID : Z := 1003.
Definition PING_OK_RESPONSE_STATUS_TEXT : list Z := chars "OK".

(** The request carries nothing. *)
Definition serialize_request S (s : KVSerializer S) (v : unit) : ser S unit := mret v.

Record response := { status : list Z; peer_id : Z }.

Definition serialize_response S (s : KVSerializer S) (v : response) : ser S response :=
  a ← KV_MEMBER (kv_string s (chars "status") (status v));
  b ← KV_MEMBER (kv_uint64 s (chars "peer_id") (peer_id v));
  mret {| status := a; peer_id := b |}.
End COMMAND_PING.

(** * [CryptoNoteProtocolDefinitions.h] *)

Record block_complete_entry := { bce_block : list Z; bce_txs : list (list Z) }.

(** [s(txs, "txs")] for a vector of strings. *)
Definition kv_strings {S} (s : KVSerializer S) (name : list Z) (v : list (list Z)) : ser S (list (list Z)) :=
  KV_MEMBER (kv_container s [] (fun n => kv_string s n) name v).

(** [serializeAsBinary] for a vector of hashes. *)
Definition kv_hashes {S} (s : KVSerializer S) (name : list Z) (v : list (list Z)) : ser S (list (list Z)) :=
  kv_asBinary_vector s 32 (fun h => h) (fun h => h) name v.

Definition serialize_block_complete_entry S (s : KVSerializer S) (v : block_complete_entry)
  : ser S block_complete_entry :=
  a ← KV_MEMBER (kv_string s (chars "block") (bce_block v));
  b ← kv_strings s (chars "txs") (bce_txs v);
  mret {| bce_block := a; bce_txs := b |}.

Record BlockFullInfo := { bfi_block_id : list Z; bfi_entry : block_complete_entry }.

Definition serialize_BlockFullInfo S (s : KVSerializer S) (v : BlockFullInfo) : ser S BlockFullInfo :=
  a ← KV_MEMBER (kv_binary s 32 (chars "block_id") (bfi_block_id v));
  b ← KV_MEMBER (kv_string s (chars "block") (bce_block (bfi_entry v)));
  c ← kv_strings s (chars "txs") (bce_txs (bfi_entry v));
  mret {| bfi_block_id := a; bfi_entry := {| bce_block := b; bce_txs := c |} |}.

Record NOTIFY_NEW_BLOCK_request := {
  nb_b : block_complete_entry; nb_current_blockchain_height : Z; nb_hop : Z;
}.

Definition serialize_NOTIFY_NEW_BLOCK_request S (s : KVSerializer S) (v : NOTIFY_NEW_BLOCK_request)
  : ser S NOTIFY_NEW_BLOCK_request :=
  a ← KV_MEMBER (kv_object s (serialize_block_complete_entry S) (chars "b") (nb_b v));
  b ← KV_MEMBER (kv_uint32 s (chars "current_blockchain_height") (nb_current_blockchain_height v));
  c ← KV_MEMBER (kv_uint32 s (chars "hop") (nb_hop v));
  mret {| nb_b := a; nb_current_blockchain_height := b; nb_hop := c |}.

Record NOTIFY_NEW_TRANSACTIONS_request := { nt_txs : list (list Z) }.

Definition serialize_NOTIFY_NEW_TRANSACTIONS_request S (s : KVSerializer S)
    (v : NOTIFY_NEW_TRANSACTIONS_request) : ser S NOTIFY_NEW_TRANSACTIONS_request :=
  a ← kv_strings s (chars "txs") (nt_txs v);
  mret {| nt_txs := a |}.

Record NOTIFY_REQUEST_GET_OBJECTS_request := { rgo_txs : list (list Z); rgo_blocks : list (list Z) }.

Definition serialize_NOTIFY_REQUEST_GET_OBJECTS_request S (s : KVSerializer S)
    (v : NOTIFY_REQUEST_GET_OBJECTS_request) : ser S NOTIFY_REQUEST_GET_OBJECTS_request :=
  a ← kv_hashes s (chars "txs") (rgo_txs v);
  b ← kv_hashes s (chars "blocks") (rgo_blocks v);
  mret {| rgo_txs := a; rgo_blocks := b |}.

Record NOTIFY_RESPONSE_GET_OBJECTS_request := {
  go_txs : list (list Z); go_blocks : list block_complete_entry; go_missed_ids : list (list Z);
  go_current_blockchain_height : Z;
}.

Definition serialize_NOTIFY_RESPONSE_GET_OBJECTS_request S (s : KVSerializer S)
    (v : NOTIFY_RESPONSE_GET_OBJECTS_request) : ser S NOTIFY_RESPONSE_GET_OBJECTS_request :=
  a ← kv_strings s (chars "txs") (go_txs v);
  b ← KV_MEMBER (kv_container s {| bce_block := []; bce_txs := [] |}
        (fun n => kv_object s (serialize_block_complete_entry S) n) (chars "blocks") (go_blocks v));
  c ← kv_hashes s (chars "missed_ids") (go_missed_ids v);
  d ← KV_MEMBER (kv_uint32 s (chars "current_blockchain_height") (go_current_blockchain_height v));
  mret {| go_txs := a; go_blocks := b; go_missed_ids := c; go_current_blockchain_height := d |}.

Record NOTIFY_REQUEST_CHAIN_request := { rc_block_ids : list (list Z) }.

Definition serialize_NOTIFY_REQUEST_CHAIN_request S (s : KVSerializer S)
    (v : NOTIFY_REQUEST_CHAIN_request) : ser S NOTIFY_REQUEST_CHAIN_request :=
  a ← kv_hashes s (chars "block_ids") (rc_block_ids v);
  mret {| rc_block_ids := a |}.

Record NOTIFY_RESPONSE_CHAIN_ENTRY_request := {
  ce_start_height : Z; ce_total_height : Z; ce_m_block_ids : list (list Z);
}.

Definition serialize_NOTIFY_RESPONSE_CHAIN_ENTRY_request S (s : KVSerializer S)
    (v : NOTIFY_RESPONSE_CHAIN_ENTRY_request) : ser S NOTIFY_RESPONSE_CHAIN_ENTRY_request :=
  a ← KV_MEMBER (kv_uint32 s (chars "start_height") (ce_start_height v));
  b ← KV_MEMBER (kv_uint32 s (chars "total_height") (ce_total_height v));
  c ← kv_hashes s (chars "m_block_ids") (ce_m_block_ids v);
  mret {| ce_start_height := a; ce_total_height := b; ce_m_block_ids := c |}.

Record NOTIFY_REQUEST_TX_POOL_request := { tp_txs : list (list Z) }.

Definition serialize_NOTIFY_REQUEST_TX_POOL_request S (s : KVSerializer S)
    (v : NOTIFY_REQUEST_TX_POOL_request) : ser S NOTIFY_REQUEST_TX_POOL_request :=
  a ← kv_hashes s (chars "txs") (tp_txs v);
  mret {| tp_txs := a |}.

(** * Round trips of the members *)

Section Messages.
Context {B : BuildConfig}.

Notation entry_of ty body val := (fun x => Some (ty, body x, val x)).

Definition uint32_entry (x : Z) : option entry :=
  Some (BIN_KV_SERIALIZE_TYPE_UINT32, le_split 4 x, INTEGER (i64 x)).
Definition uint64_entry (x : Z) : option entry :=
  Some (BIN_KV_SERIALIZE_TYPE_UINT64, le_split 8 x, INTEGER (i64 x)).
Definition uint8_entry (x : Z) : option entry :=
  Some (BIN_KV_SERIALIZE_TYPE_UINT8, le_split 1 x, INTEGER (i64 x)).
Definition string_entry (x : list Z) : option entry :=
  Some (BIN_KV_SERIALIZE_TYPE_STRING, string_body x, STRING x).
Definition strings_entry : list (list Z) -> option entry :=
  container_entry BIN_KV_SERIALIZE_TYPE_STRING string_body STRING.
Definition hashes_entry : list (list Z) -> option entry := pods_entry (fun h => h).
Definition peerlist_entry : list PeerlistEntry -> option entry := pods_entry PeerlistEntry_bytes.
Definition object_entry {A} (fields : list (list Z * (A -> option entry))) (x : A) : option entry :=
  Some (BIN_KV_SERIALIZE_TYPE_OBJECT, object_body fields x, OBJECT (body_object fields x)).

Lemma member_uint8 :
  kv_member (fun S s name x => KV_MEMBER (kv_uint8 s name x)) is_u8 uint8_entry (fun _ => True).
Proof. exact (member_of_value _ _ _ _ _ _ kv_value_uint8). Qed.
Lemma member_uint32 :
  kv_member (fun S s name x => KV_MEMBER (kv_uint32 s name x)) is_u32 uint32_entry (fun _ => True).
Proof. exact (member_of_value _ _ _ _ _ _ kv_value_uint32). Qed.
Lemma member_uint64 :
  kv_member (fun S s name x => KV_MEMBER (kv_uint64 s name x)) is_u64 uint64_entry (fun _ => True).
Proof. exact (member_of_value _ _ _ _ _ _ kv_value_uint64). Qed.
Lemma member_string :
  kv_member (fun S s name x => KV_MEMBER (kv_string s name x)) string_ok string_entry (fun _ => True).
Proof. exact (member_of_value _ _ _ _ _ _ kv_value_string). Qed.
Definition uuid_ok (x : list Z) : Prop := length x = 16%nat /\ bytes_ok x.

Lemma member_uuid :
  kv_member (fun S s name x => KV_MEMBER (kv_binary s 16 name x)) uuid_ok string_entry (fun _ => True).
Proof. refine (member_of_value _ _ _ _ _ _ (kv_value_binary 16 _ _)); lia. Qed.
Lemma member_hash :
  kv_member (fun S s name x => KV_MEMBER (kv_binary s 32 name x)) hash_ok string_entry (fun _ => True).
Proof. refine (member_of_value _ _ _ _ _ _ (kv_value_binary 32 _ _)); lia. Qed.
Lemma member_strings :
  kv_member (fun S s name x => kv_strings s name x) (container_ok string_ok) strings_entry (fun y => y = []).
Proof. exact (kv_member_container _ _ _ _ _ _ [] kv_value_string I). Qed.
Lemma member_hashes :
  kv_member (fun S s name x => kv_hashes s name x) (pods_ok 32 hash_ok) hashes_entry (fun _ => True).
Proof. refine (kv_member_pods_vector 32 _ _ _ _ hash_pod). lia. Qed.
Lemma member_peerlist :
  kv_member (fun S s name x => kv_peerlist s name x) (pods_ok 24 PeerlistEntry_ok) peerlist_entry
    (fun y => y = []).
Proof. refine (kv_member_pods_list 24 _ _ _ _ PeerlistEntry_pod). lia. Qed.
Lemma member_object {A} (f : kv_struct A) wf fields fresh :
  kv_body f wf fields fresh ->
  kv_member (fun S s name x => KV_MEMBER (kv_object s (f S) name x)) wf (object_entry fields) fresh.
Proof. intros F. exact (member_of_value _ _ _ _ _ _ (kv_value_object f wf fields fresh F)). Qed.

(** * Round trips of the structures *)

Lemma chars_bytes s : bytes_ok (chars s).
Proof.
  unfold chars. apply Forall_map, Forall_true. intros a. pose proof (Ascii.N_ascii_bounded a).
  unfold is_u8. lia.
Qed.

Lemma entry_count_range e : 0 <= entry_count e <= 1.
Proof. destruct e; cbn; lia. Qed.

(** The member at the head of a structure is written or read by the lemma of its
    type; [M] and [N] are those of nested structures. *)
Ltac head_member K M N :=
  lazymatch goal with |- (?m ≫= _) _ = _ =>
    lazymatch m with
    | KV_MEMBER (kv_uint8 _ _ _) => K member_uint8
    | KV_MEMBER (kv_uint32 _ _ _) => K member_uint32
    | KV_MEMBER (kv_uint64 _ _ _) => K member_uint64
    | KV_MEMBER (kv_string _ _ _) => K member_string
    | KV_MEMBER (kv_binary _ 16 _ _) => K member_uuid
    | KV_MEMBER (kv_binary _ 32 _ _) => K member_hash
    | kv_strings _ _ _ => K member_strings
    | kv_hashes _ _ _ => K member_hashes
    | kv_peerlist _ _ _ => K member_peerlist
    | KV_MEMBER (kv_object _ (serialize_CORE_SYNC_DATA _) _ _) => K (member_object _ _ _ _ N)
    | KV_MEMBER (kv_object _ _ _ _) => K (member_object _ _ _ _ M)
    | _ => K M
    end
  end.
Ltac entry_member K M N :=
  lazymatch goal with E : ?e = Some _ |- _ =>
    lazymatch e with
    | uint8_entry _ => K member_uint8
    | uint32_entry _ => K member_uint32
    | uint64_entry _ => K member_uint64
    | string_entry _ => first [K member_string | K member_uuid | K member_hash]
    | strings_entry _ => K member_strings
    | hashes_entry _ => K member_hashes
    | peerlist_entry _ => K member_peerlist
    | object_entry _ _ => first [K (member_object _ _ _ _ M) | K (member_object _ _ _ _ N)]
    | _ => K M
    end
  end.
Ltac name_solve := split; [discriminate|split; [vm_compute; discriminate|apply chars_bytes] ].
Ltac write_with M :=
  erewrite ser_bind_ok;
  [|apply (kvm_write _ _ _ _ M);
    [assumption|name_solve
    |repeat match goal with |- context [entry_count ?e] =>
       pose proof (entry_count_range e); generalize dependent (entry_count e); intros end; lia] ].
Ltac read_with M :=
  erewrite ser_bind_ok; [|eapply (kvm_read _ _ _ _ M); [| |eassumption]; first [assumption|exact I] ].
Ltac parse_with M :=
  match goal with E : _ = Some _ |- _ => refine (kvm_parse _ _ _ _ M _ _ _ _ _ E); assumption end.

(** A structure, given the lemmas of the structures inside it. *)
Ltac conjuncts := repeat match goal with H : _ /\ _ |- _ => destruct H end.
Ltac body_names :=
  split; [apply (bool_decide_unpack _); vm_compute; exact I|split; [|done] ];
  repeat (apply Forall_cons; split; [name_solve|]); constructor.
Ltac body_write ser ok fields M N :=
  intros x out os nm ls Hx; unfold ser; unfold ok in Hx; conjuncts; cbn [kv_type KVOutput]; cbv zeta;
  repeat head_member write_with M N;
  unfold mret, ser_ret, body_bytes, body_count, fields; cbn [map concat sum_Z foldr fst snd];
  rewrite ?app_nil_r, <- ?app_assoc, ?Z.add_0_r, ?Z.add_0_l, <- ?Z.add_assoc; destruct x; reflexivity.
Ltac body_parse ok M N :=
  intros x Hx; unfold ok in Hx; conjuncts;
  repeat (apply Forall_cons; split); [..|constructor]; cbn [snd]; intros tag body v E;
  entry_member parse_with M N.
Ltac body_read ser ok fields M N :=
  intros x y o ch ix Hx Hy Hf; unfold ser, fields in *; unfold ok in Hx; conjuncts;
  repeat match goal with H : Forall _ (_ :: _) |- _ => apply Forall_cons in H as [? H] end;
  cbn [fst snd] in *; cbn [kv_type KVInput]; cbv zeta;
  repeat head_member read_with M N; destruct x; reflexivity.
Ltac solve_body ser ok fields M N :=
  split; [body_names|body_write ser ok fields M N|body_parse ok M N|body_read ser ok fields M N].

Definition block_complete_entry_ok (v : block_complete_entry) : Prop :=
  string_ok (bce_block v) /\ container_ok string_ok (bce_txs v).
Definition block_complete_entry_fields : list (list Z * (block_complete_entry -> option entry)) :=
  [(chars "block", fun v => string_entry (bce_block v)); (chars "txs", fun v => strings_entry (bce_txs v))].

Lemma body_block_complete_entry :
  kv_body serialize_block_complete_entry block_complete_entry_ok block_complete_entry_fields
    (fun v => bce_txs v = []).
Proof.
  solve_body serialize_block_complete_entry block_complete_entry_ok block_complete_entry_fields
    member_string member_string.
Qed.


Definition basic_node_data_ok (v : basic_node_data) : Prop :=
  uuid_ok (network_id v) /\ is_u8 (bnd_version v) /\ is_u64 (bnd_peer_id v) /\ is_u64 (bnd_local_time v) /\ is_u32 (my_port v).
Definition basic_node_data_fields : list (list Z * (basic_node_data -> option entry)) :=
  [(chars "network_id", fun v => string_entry (network_id v));
   (chars "version", fun v => uint8_entry (bnd_version v));
   (chars "peer_id", fun v => uint64_entry (bnd_peer_id v));
   (chars "local_time", fun v => uint64_entry (bnd_local_time v));
   (chars "my_port", fun v => uint32_entry (my_port v))].

Lemma body_basic_node_data :
  kv_body serialize_basic_node_data basic_node_data_ok basic_node_data_fields
    (fun v => True).
Proof.
  solve_body serialize_basic_node_data basic_node_data_ok basic_node_data_fields
    member_string member_string.
Qed.

Definition CORE_SYNC_DATA_ok (v : CORE_SYNC_DATA) : Prop :=
  is_u32 (csd_current_height v) /\ hash_ok (top_id v).
Definition CORE_SYNC_DATA_fields : list (list Z * (CORE_SYNC_DATA -> option entry)) :=
  [(chars "current_height", fun v => uint32_entry (csd_current_height v));
   (chars "top_id", fun v => string_entry (top_id v))].

Lemma body_CORE_SYNC_DATA :
  kv_body serialize_CORE_SYNC_DATA CORE_SYNC_DATA_ok CORE_SYNC_DATA_fields
    (fun v => True).
Proof.
  solve_body serialize_CORE_SYNC_DATA CORE_SYNC_DATA_ok CORE_SYNC_DATA_fields
    member_string member_string.
Qed.

Definition COMMAND_HANDSHAKE_request_ok (v : COMMAND_HANDSHAKE.request) : Prop :=
  basic_node_data_ok (COMMAND_HANDSHAKE.node_data v) /\ CORE_SYNC_DATA_ok (COMMAND_HANDSHAKE.payload_data v).
Definition COMMAND_HANDSHAKE_request_fields : list (list Z * (COMMAND_HANDSHAKE.request -> option entry)) :=
  [(chars "node_data", fun v => object_entry basic_node_data_fields (COMMAND_HANDSHAKE.node_data v));
   (chars "payload_data", fun v => object_entry CORE_SYNC_DATA_fields (COMMAND_HANDSHAKE.payload_data v))].

Lemma body_COMMAND_HANDSHAKE_request :
  kv_body COMMAND_HANDSHAKE.serialize_request COMMAND_HANDSHAKE_request_ok COMMAND_HANDSHAKE_request_fields
    (fun v => True).
Proof.
  solve_body COMMAND_HANDSHAKE.serialize_request COMMAND_HANDSHAKE_request_ok COMMAND_HANDSHAKE_request_fields
    body_basic_node_data body_CORE_SYNC_DATA.
Qed.

Definition COMMAND_HANDSHAKE_response_ok (v : COMMAND_HANDSHAKE.response) : Prop :=
  basic_node_data_ok (COMMAND_HANDSHAKE.r_node_data v) /\ CORE_SYNC_DATA_ok (COMMAND_HANDSHAKE.r_payload_data v) /\ pods_ok 24 PeerlistEntry_ok (COMMAND_HANDSHAKE.local_peerlist v).
Definition COMMAND_HANDSHAKE_response_fields : list (list Z * (COMMAND_HANDSHAKE.response -> option entry)) :=
  [(chars "node_data", fun v => object_entry basic_node_data_fields (COMMAND_HANDSHAKE.r_node_data v));
   (chars "payload_data", fun v => object_entry CORE_SYNC_DATA_fields (COMMAND_HANDSHAKE.r_payload_data v));
   (chars "local_peerlist", fun v => peerlist_entry (COMMAND_HANDSHAKE.local_peerlist v))].

Lemma body_COMMAND_HANDSHAKE_response :
  kv_body COMMAND_HANDSHAKE.serialize_response COMMAND_HANDSHAKE_response_ok COMMAND_HANDSHAKE_response_fields
    (fun v => COMMAND_HANDSHAKE.local_peerlist v = []).
Proof.
  solve_body COMMAND_HANDSHAKE.serialize_response COMMAND_HANDSHAKE_response_ok COMMAND_HANDSHAKE_response_fields
    body_basic_node_data body_CORE_SYNC_DATA.
Qed.

Definition COMMAND_TIMED_SYNC_request_ok (v : COMMAND_TIMED_SYNC.request) : Prop :=
  CORE_SYNC_DATA_ok (COMMAND_TIMED_SYNC.payload_data v).
Definition COMMAND_TIMED_SYNC_request_fields : list (list Z * (COMMAND_TIMED_SYNC.request -> option entry)) :=
  [(chars "payload_data", fun v => object_entry CORE_SYNC_DATA_fields (COMMAND_TIMED_SYNC.payload_data v))].

Lemma body_COMMAND_TIMED_SYNC_request :
  kv_body COMMAND_TIMED_SYNC.serialize_request COMMAND_TIMED_SYNC_request_ok COMMAND_TIMED_SYNC_request_fields
    (fun v => True).
Proof.
  solve_body COMMAND_TIMED_SYNC.serialize_request COMMAND_TIMED_SYNC_request_ok COMMAND_TIMED_SYNC_request_fields
    body_basic_node_data body_CORE_SYNC_DATA.
Qed.

Definition COMMAND_TIMED_SYNC_response_ok (v : COMMAND_TIMED_SYNC.response) : Prop :=
  is_u64 (COMMAND_TIMED_SYNC.local_time v) /\ CORE_SYNC_DATA_ok (COMMAND_TIMED_SYNC.r_payload_data v) /\ pods_ok 24 PeerlistEntry_ok (COMMAND_TIMED_SYNC.local_peerlist v).
Definition COMMAND_TIMED_SYNC_response_fields : list (list Z * (COMMAND_TIMED_SYNC.response -> option entry)) :=
  [(chars "local_time", fun v => uint64_entry (COMMAND_TIMED_SYNC.local_time v));
   (chars "payload_data", fun v => object_entry CORE_SYNC_DATA_fields (COMMAND_TIMED_SYNC.r_payload_data v));
   (chars "local_peerlist", fun v => peerlist_entry (COMMAND_TIMED_SYNC.local_peerlist v))].

Lemma body_COMMAND_TIMED_SYNC_response :
  kv_body COMMAND_TIMED_SYNC.serialize_response COMMAND_TIMED_SYNC_response_ok COMMAND_TIMED_SYNC_response_fields
    (fun v => COMMAND_TIMED_SYNC.local_peerlist v = []).
Proof.
  solve_body COMMAND_TIMED_SYNC.serialize_response COMMAND_TIMED_SYNC_response_ok COMMAND_TIMED_SYNC_response_fields
    body_basic_node_data body_CORE_SYNC_DATA.
Qed.

Definition COMMAND_PING_response_ok (v : COMMAND_PING.response) : Prop :=
  string_ok (COMMAND_PING.status v) /\ is_u64 (COMMAND_PING.peer_id v).
Definition COMMAND_PING_response_fields : list (list Z * (COMMAND_PING.response -> option entry)) :=
  [(chars "status", fun v => string_entry (COMMAND_PING.status v));
   (chars "peer_id", fun v => uint64_entry (COMMAND_PING.peer_id v))].

Lemma body_COMMAND_PING_response :
  kv_body COMMAND_PING.serialize_response COMMAND_PING_response_ok COMMAND_PING_response_fields
    (fun v => True).
Proof.
  solve_body COMMAND_PING.serialize_response COMMAND_PING_response_ok COMMAND_PING_response_fields
    member_string member_string.
Qed.

Definition NOTIFY_NEW_BLOCK_request_ok (v : NOTIFY_NEW_BLOCK_request) : Prop :=
  block_complete_entry_ok (nb_b v) /\ is_u32 (nb_current_blockchain_height v) /\ is_u32 (nb_hop v).
Definition NOTIFY_NEW_BLOCK_request_fields : list (list Z * (NOTIFY_NEW_BLOCK_request -> option entry)) :=
  [(chars "b", fun v => object_entry block_complete_entry_fields (nb_b v));
   (chars "current_blockchain_height", fun v => uint32_entry (nb_current_blockchain_height v));
   (chars "hop", fun v => uint32_entry (nb_hop v))].

Lemma body_NOTIFY_NEW_BLOCK_request :
  kv_body serialize_NOTIFY_NEW_BLOCK_request NOTIFY_NEW_BLOCK_request_ok NOTIFY_NEW_BLOCK_request_fields
    (fun v => bce_txs (nb_b v) = []).
Proof.
  solve_body serialize_NOTIFY_NEW_BLOCK_request NOTIFY_NEW_BLOCK_request_ok NOTIFY_NEW_BLOCK_request_fields
    body_block_complete_entry body_block_complete_entry.
Qed.

Definition NOTIFY_NEW_TRANSACTIONS_request_ok (v : NOTIFY_NEW_TRANSACTIONS_request) : Prop :=
  container_ok string_ok (nt_txs v).
Definition NOTIFY_NEW_TRANSACTIONS_request_fields : list (list Z * (NOTIFY_NEW_TRANSACTIONS_request -> option entry)) :=
  [(chars "txs", fun v => strings_entry (nt_txs v))].

Lemma body_NOTIFY_NEW_TRANSACTIONS_request :
  kv_body serialize_NOTIFY_NEW_TRANSACTIONS_request NOTIFY_NEW_TRANSACTIONS_request_ok NOTIFY_NEW_TRANSACTIONS_request_fields
    (fun v => nt_txs v = []).
Proof.
  solve_body serialize_NOTIFY_NEW_TRANSACTIONS_request NOTIFY_NEW_TRANSACTIONS_request_ok NOTIFY_NEW_TRANSACTIONS_request_fields
    member_string member_string.
Qed.

Definition NOTIFY_REQUEST_GET_OBJECTS_request_ok (v : NOTIFY_REQUEST_GET_OBJECTS_request) : Prop :=
  pods_ok 32 hash_ok (rgo_txs v) /\ pods_ok 32 hash_ok (rgo_blocks v).
Definition NOTIFY_REQUEST_GET_OBJECTS_request_fields : list (list Z * (NOTIFY_REQUEST_GET_OBJECTS_request -> option entry)) :=
  [(chars "txs", fun v => hashes_entry (rgo_txs v));
   (chars "blocks", fun v => hashes_entry (rgo_blocks v))].

Lemma body_NOTIFY_REQUEST_GET_OBJECTS_request :
  kv_body serialize_NOTIFY_REQUEST_GET_OBJECTS_request NOTIFY_REQUEST_GET_OBJECTS_request_ok NOTIFY_REQUEST_GET_OBJECTS_request_fields
    (fun v => True).
Proof.
  solve_body serialize_NOTIFY_REQUEST_GET_OBJECTS_request NOTIFY_REQUEST_GET_OBJECTS_request_ok NOTIFY_REQUEST_GET_OBJECTS_request_fields
    member_string member_string.
Qed.

(** Vectors of blocks. *)
Definition blocks_entry : list block_complete_entry -> option entry :=
  container_entry BIN_KV_SERIALIZE_TYPE_OBJECT (object_body block_complete_entry_fields)
    (fun x => OBJECT (body_object block_complete_entry_fields x)).

Lemma member_blocks :
  kv_member (fun S s name x => KV_MEMBER (kv_container s {| bce_block := []; bce_txs := [] |}
      (fun n => kv_object s (serialize_block_complete_entry S) n) name x))
    (container_ok block_complete_entry_ok) blocks_entry (fun y => y = []).
Proof.
  refine (kv_member_container _ _ _ _ _ _ _ (kv_value_object _ _ _ _ body_block_complete_entry) _). done.
Qed.

Definition NOTIFY_RESPONSE_GET_OBJECTS_request_ok (v : NOTIFY_RESPONSE_GET_OBJECTS_request) : Prop :=
  container_ok string_ok (go_txs v) /\ container_ok block_complete_entry_ok (go_blocks v) /\ pods_ok 32 hash_ok (go_missed_ids v) /\ is_u32 (go_current_blockchain_height v).
Definition NOTIFY_RESPONSE_GET_OBJECTS_request_fields : list (list Z * (NOTIFY_RESPONSE_GET_OBJECTS_request -> option entry)) :=
  [(chars "txs", fun v => strings_entry (go_txs v));
   (chars "blocks", fun v => blocks_entry (go_blocks v));
   (chars "missed_ids", fun v => hashes_entry (go_missed_ids v));
   (chars "current_blockchain_height", fun v => uint32_entry (go_current_blockchain_height v))].

Lemma body_NOTIFY_RESPONSE_GET_OBJECTS_request :
  kv_body serialize_NOTIFY_RESPONSE_GET_OBJECTS_request NOTIFY_RESPONSE_GET_OBJECTS_request_ok NOTIFY_RESPONSE_GET_OBJECTS_request_fields
    (fun v => go_txs v = [] /\ go_blocks v = []).
Proof.
  solve_body serialize_NOTIFY_RESPONSE_GET_OBJECTS_request NOTIFY_RESPONSE_GET_OBJECTS_request_ok NOTIFY_RESPONSE_GET_OBJECTS_request_fields
    member_blocks member_blocks.
Qed.

Definition NOTIFY_REQUEST_CHAIN_request_ok (v : NOTIFY_REQUEST_CHAIN_request) : Prop :=
  pods_ok 32 hash_ok (rc_block_ids v).
Definition NOTIFY_REQUEST_CHAIN_request_fields : list (list Z * (NOTIFY_REQUEST_CHAIN_request -> option entry)) :=
  [(chars "block_ids", fun v => hashes_entry (rc_block_ids v))].

Lemma body_NOTIFY_REQUEST_CHAIN_request :
  kv_body serialize_NOTIFY_REQUEST_CHAIN_request NOTIFY_REQUEST_CHAIN_request_ok NOTIFY_REQUEST_CHAIN_request_fields
    (fun v => True).
Proof.
  solve_body serialize_NOTIFY_REQUEST_CHAIN_request NOTIFY_REQUEST_CHAIN_request_ok NOTIFY_REQUEST_CHAIN_request_fields
    member_string member_string.
Qed.

Definition NOTIFY_RESPONSE_CHAIN_ENTRY_request_ok (v : NOTIFY_RESPONSE_CHAIN_ENTRY_request) : Prop :=
  is_u32 (ce_start_height v) /\ is_u32 (ce_total_height v) /\ pods_ok 32 hash_ok (ce_m_block_ids v).
Definition NOTIFY_RESPONSE_CHAIN_ENTRY_request_fields : list (list Z * (NOTIFY_RESPONSE_CHAIN_ENTRY_request -> option entry)) :=
  [(chars "start_height", fun v => uint32_entry (ce_start_height v));
   (chars "total_height", fun v => uint32_entry (ce_total_height v));
   (chars "m_block_ids", fun v => hashes_entry (ce_m_block_ids v))].

Lemma body_NOTIFY_RESPONSE_CHAIN_ENTRY_request :
  kv_body serialize_NOTIFY_RESPONSE_CHAIN_ENTRY_request NOTIFY_RESPONSE_CHAIN_ENTRY_request_ok NOTIFY_RESPONSE_CHAIN_ENTRY_request_fields
    (fun v => True).
Proof.
  solve_body serialize_NOTIFY_RESPONSE_CHAIN_ENTRY_request NOTIFY_RESPONSE_CHAIN_ENTRY_request_ok NOTIFY_RESPONSE_CHAIN_ENTRY_request_fields
    member_string member_string.
Qed.

Definition NOTIFY_REQUEST_TX_POOL_request_ok (v : NOTIFY_REQUEST_TX_POOL_request) : Prop :=
  pods_ok 32 hash_ok (tp_txs v).
Definition NOTIFY_REQUEST_TX_POOL_request_fields : list (list Z * (NOTIFY_REQUEST_TX_POOL_request -> option entry)) :=
  [(chars "txs", fun v => hashes_entry (tp_txs v))].

Lemma body_NOTIFY_REQUEST_TX_POOL_request :
  kv_body serialize_NOTIFY_REQUEST_TX_POOL_request NOTIFY_REQUEST_TX_POOL_request_ok NOTIFY_REQUEST_TX_POOL_request_fields
    (fun v => True).
Proof.
  solve_body serialize_NOTIFY_REQUEST_TX_POOL_request NOTIFY_REQUEST_TX_POOL_request_ok NOTIFY_REQUEST_TX_POOL_request_fields
    member_string member_string.
Qed.
End Messages.
