(* ===== verification/Levin.v ===== *)
(** [P2p/LevinProtocol.cpp] and [LevinProtocol.h]: framing of messages on a
    connection, requests and their replies.

    A connection ([System::TcpConnection]) has the interface of the streams: a
    read returns up to so many bytes and none only at the end, a write takes at
    least one byte. *)
From S2P Require Import Prelude Varint IntUtil Stream StringTools Serializer KVBinary KVTheory KVCodec P2pProtocol.

Definition LEVIN_SIGNATURE : Z := 72340172838084865.   (* 0x0101010101012101 *)
Definition LEVIN_PACKET_REQUEST : Z := 1.
Definition LEVIN_PACKET_RESPONSE : Z := 2.
Definition LEVIN_DEFAULT_MAX_PACKET_SIZE : Z := 100000000.
Definition LEVIN_PROTOCOL_VER_1 : Z := 1.
Definition LEVIN_PROTOCOL_RETCODE_SUCCESS : Z := 1.

(** The packed structure of 33 bytes at the front of a packet. *)
Record bucket_head2 := {
  m_signature : Z; m_cb : Z; m_have_to_return_data : bool; m_command : Z; m_return_code : Z;
  m_flags : Z; m_protocol_version : Z;
}.

Definition head_bytes (h : bucket_head2) : list Z :=
  le_split 8 (m_signature h) ++ le_split 8 (m_cb h) ++ [if m_have_to_return_data h then 1 else 0] ++
  le_split 4 (m_command h) ++ le_split 4 (m_return_code h) ++ le_split 4 (m_flags h) ++
  le_split 4 (m_protocol_version h).

(** [Command] and [needReply]. *)
Record Command := { command : Z; isNotify : bool; isResponse : bool; buf : list Z }.

Definition needReply (c : Command) : bool := negb (isNotify c || isResponse c).

(** The [bool] of the structure is overwritten with a byte of the packet; a
    byte other than 0 and 1 is no value of the type. *)
Definition bool_of_byte (b : Z) : outcome bool :=
  if b =? 0 then Ok false else if b =? 1 then Ok true else Undefined.

Section Protocol.
Context {C : Type} `{IInputStream C} `{IOutputStream C} {B : BuildConfig}.

(** [writeStrict]: every write takes at least one byte, so there are at most
    [size] of them. *)
Fixpoint writeStrict_loop (fuel : nat) (data : list Z) (conn : C) : outcome C :=
  if (length data =? 0)%nat then Ok conn else
  match fuel with
  | O => Undefined
  | S fuel => let '(n, conn) := writeSome conn data in writeStrict_loop fuel (drop n data) conn
  end.

Definition writeStrict (data : list Z) (conn : C) : outcome C :=
  writeStrict_loop (length data) data conn.

(** [readStrict]: [None] when the connection ends first. *)
Fixpoint readStrict_loop (fuel : nat) (data : list Z) (size : nat) (conn : C)
  : outcome (option (list Z) * C) :=
  if (size =? 0)%nat then Ok (Some data, conn) else
  match fuel with
  | O => Undefined
  | S fuel =>
      '(d, conn) ← readSome B conn size;
      if (length d =? 0)%nat then Ok (None, conn)
      else readStrict_loop fuel (data ++ d) (size - length d) conn
  end.

Definition readStrict (size : nat) (conn : C) : outcome (option (list Z) * C) :=
  readStrict_loop size [] size conn.

Definition sendMessage (command : Z) (out : list Z) (needResponse : bool) (conn : C) : outcome C :=
  let head := {| m_signature := LEVIN_SIGNATURE; m_cb := zlen out; m_have_to_return_data := needResponse;
                 m_command := command; m_return_code := 0; m_flags := LEVIN_PACKET_REQUEST;
                 m_protocol_version := LEVIN_PROTOCOL_VER_1 |} in
  writeStrict (head_bytes head ++ out) conn.

Definition sendReply (command : Z) (out : list Z) (returnCode : Z) (conn : C) : outcome C :=
  let head := {| m_signature := LEVIN_SIGNATURE; m_cb := zlen out; m_have_to_return_data := false;
                 m_command := command; m_return_code := returnCode; m_flags := LEVIN_PACKET_RESPONSE;
                 m_protocol_version := LEVIN_PROTOCOL_VER_1 |} in
  writeStrict (head_bytes head ++ out) conn.

(** [readCommand]: [None] is the result [false], which leaves [cmd] alone. *)
Definition readCommand (conn : C) : outcome (option Command * C) :=
  '(h, conn) ← readStrict 33 conn;
  match h with
  | None => Ok (None, conn)
  | Some h =>
      let signature := le_combine (take 8 h) in
      let cb := le_combine (take 8 (drop 8 h)) in
      if negb (signature =? LEVIN_SIGNATURE) then Throw runtime_error
      else if LEVIN_DEFAULT_MAX_PACKET_SIZE <? cb then Throw runtime_error
      else
        '(b, conn) ← (if cb =? 0 then Ok (Some [], conn) else readStrict (Z.to_nat cb) conn);
        match b with
        | None => Ok (None, conn)
        | Some b =>
            have_to_return_data ← bool_of_byte (nth 16 h 0);
            Ok (Some {| command := le_combine (take 4 (drop 17 h)); isNotify := negb have_to_return_data;
                        isResponse := Z.land (le_combine (take 4 (drop 25 h))) LEVIN_PACKET_RESPONSE
                                      =? LEVIN_PACKET_RESPONSE;
                        buf := b |}, conn)
        end
  end.

Definition encode {A} (serialize : kv_struct A) (value : A) : outcome (list Z) :=
  storeToBinaryKeyValue serialize value.
Definition decode {A} (serialize : kv_struct A) (value : A) (buf : list Z) : outcome (option A) :=
  loadFromBinaryKeyValue serialize value buf.

(** [invoke]: the result of [readCommand] is not looked at; when it is
    [false], [cmd.isResponse] is read before anything was written to it. *)
Definition invoke {Request Response} (req : kv_struct Request) (rsp : kv_struct Response)
    (command : Z) (request : Request) (response : Response) (conn : C) : outcome (option Response * C) :=
  out ← encode req request;
  conn ← sendMessage command out true conn;
  '(cmd, conn) ← readCommand conn;
  match cmd with
  | None => Undefined
  | Some cmd =>
      if negb (isResponse cmd) then Ok (None, conn)
      else r ← decode rsp response (buf cmd); Ok (r, conn)
  end.

Definition notify {Request} (req : kv_struct Request) (command : Z) (request : Request) (conn : C)
  : outcome C :=
  out ← encode req request;
  sendMessage command out false conn.

(** [invokeAdaptor] of [NetNode.cpp], for a handler of decoded requests: it
    answers with a return code and an encoded response. *)
Definition invokeAdaptor {Request Response X} (req : kv_struct Request) (rsp : kv_struct Response)
    (empty : Request) (handler : Request -> X -> outcome (Z * Response * X)) (reqBuf : list Z) (ctx : X)
  : outcome (Z * list Z * X) :=
  r ← decode req empty reqBuf;
  match r with
  | None => Throw runtime_error
  | Some r =>
      '(ret, res, ctx) ← handler r ctx;
      resBuf ← encode rsp res;
      Ok (ret, resBuf, ctx)
  end.
End Protocol.

(** * What a connection promises *)

(** The two directions do not disturb each other. *)
Class DuplexLaws (C : Type) `{InputStreamLaws C, OutputStreamLaws C} := {
  write_pending conn data : pending (writeSome conn data).2 = pending conn;
  write_sane conn data : in_sane conn -> in_sane (writeSome conn data).2;
  read_written B conn size d conn' :
    readSome B conn size = Ok (d, conn') -> written conn' = written conn;
}.

(** Both directions in memory. *)
Record Duplex := { incoming : MemoryInputStream; outgoing : list Z }.

#[export] Instance Duplex_input : IInputStream Duplex := {|
  readSome B s size := '(d, i) ← MemoryInputStream_readSome B (incoming s) size;
                       Ok (d, {| incoming := i; outgoing := outgoing s |});
|}.
#[export] Instance Duplex_output : IOutputStream Duplex := {|
  writeSome s data := (length data, {| incoming := incoming s; outgoing := outgoing s ++ data |});
|}.

#[export] Program Instance Duplex_input_laws : InputStreamLaws Duplex := {|
  pending s := pending (incoming s);
  in_sane s := in_sane (incoming s);
|}.
Next Obligation.
  intros B s size Hs. destruct (readSome_prefix B (incoming s) size Hs) as (d & i & E & Hi & Ep & Hl & He).
  cbn in E. exists d, {| incoming := i; outgoing := outgoing s |}. cbn. by rewrite E.
Qed.
#[export] Program Instance Duplex_output_laws : OutputStreamLaws Duplex := {| written s := outgoing s |}.
Next Obligation. intros s data. cbn. rewrite firstn_all. split; [lia|]. split; [done|]. by destruct data. Qed.
#[export] Program Instance Duplex_laws : DuplexLaws Duplex.
Next Obligation. done. Qed.
Next Obligation. done. Qed.
Next Obligation.
  intros B s size d s'. cbn. destruct (MemoryInputStream_readSome B (incoming s) size) as [[d' i]|e| |]; cbn; try done.
  intros E. by injection E as <- <-.
Qed.

(** * Packets *)

Section Theory.
Context {C : Type} `{DuplexLaws C} {B : BuildConfig}.

Lemma writeStrict_loop_ok fuel data (conn : C) : (length data <= fuel)%nat -> in_sane conn ->
  exists conn', writeStrict_loop fuel data conn = Ok conn' /\ written conn' = written conn ++ data /\
    pending conn' = pending conn /\ in_sane conn'.
Proof.
  revert data conn. induction fuel as [|fuel IH]; intros data conn Hf Hs; cbn [writeStrict_loop].
  { destruct data; [|cbn in Hf; lia]. exists conn. by rewrite app_nil_r. }
  destruct (Nat.eqb_spec (length data) 0) as [E|E].
  { apply nil_length_inv in E as ->. exists conn. by rewrite app_nil_r. }
  pose proof (writeSome_prefix conn data) as Hw. pose proof (write_pending conn data) as Hp.
  pose proof (write_sane conn data Hs) as Hs'.
  destruct (writeSome conn data) as [n conn1]. destruct Hw as (Hn & Ew & Hz). cbn in Hp, Hs'.
  destruct n as [|n]; [rewrite Hz in E by done; done|].
  destruct (IH (drop (S n) data) conn1) as (conn' & E' & Ew' & Ep' & Hs2); [rewrite length_drop; lia|done|].
  exists conn'. rewrite E'. split; [done|]. rewrite Ew', Ew, <- app_assoc, take_drop. by rewrite Ep', Hp.
Qed.

Lemma writeStrict_ok data (conn : C) : in_sane conn ->
  exists conn', writeStrict data conn = Ok conn' /\ written conn' = written conn ++ data /\
    pending conn' = pending conn /\ in_sane conn'.
Proof. by apply writeStrict_loop_ok. Qed.

Lemma readStrict_loop_spec fuel data size (conn : C) : (size <= fuel)%nat -> in_sane conn ->
  exists conn', in_sane conn' /\ written conn' = written conn /\
  if (size <=? length (pending conn))%nat
  then readStrict_loop fuel data size conn = Ok (Some (data ++ take size (pending conn)), conn') /\
       pending conn' = drop size (pending conn)
  else readStrict_loop fuel data size conn = Ok (None, conn').
Proof.
  revert data size conn. induction fuel as [|fuel IH]; intros data size conn Hf Hs; cbn [readStrict_loop].
  { assert (size = 0)%nat as -> by lia. exists conn. cbn. by rewrite app_nil_r, drop_0. }
  destruct (Nat.eqb_spec size 0) as [->|Hz].
  { exists conn. cbn. by rewrite app_nil_r, drop_0. }
  destruct (readSome_prefix B conn size Hs) as (d & c1 & Er & Hs1 & Ep & Hl & He).
  pose proof (read_written B conn size d c1 Er) as Ew1. rewrite Er. cbn [mbind outcome_bind].
  destruct (Nat.eqb_spec (length d) 0) as [E0|E0].
  { apply nil_length_inv in E0. destruct (He E0) as [|Ee]; [lia|]. exists c1. rewrite Ee.
    destruct size; [lia|]. done. }
  destruct (IH (data ++ d) (size - length d)%nat c1) as (c2 & Hs2 & Ew2 & R); [lia|done|].
  exists c2. split; [done|]. split; [congruence|]. rewrite Ep, length_app.
  destruct (Nat.leb_spec (size - length d) (length (pending c1)));
    destruct (Nat.leb_spec size (length d + length (pending c1))); try lia; [|done].
  destruct R as [-> Ed]. rewrite take_app_ge, drop_app_ge by lia. by rewrite <- app_assoc.
Qed.

Lemma readStrict_spec size (conn : C) : in_sane conn ->
  exists conn', in_sane conn' /\ written conn' = written conn /\
  if (size <=? length (pending conn))%nat
  then readStrict size conn = Ok (Some (take size (pending conn)), conn') /\
       pending conn' = drop size (pending conn)
  else readStrict size conn = Ok (None, conn').
Proof. intros Hs. by apply (readStrict_loop_spec size [] size conn). Qed.

Lemma readStrict_bytes d rest (conn : C) : in_sane conn -> pending conn = d ++ rest ->
  exists conn', readStrict (length d) conn = Ok (Some d, conn') /\ pending conn' = rest /\ in_sane conn' /\
    written conn' = written conn.
Proof.
  intros Hs Ep. destruct (readStrict_spec (length d) conn Hs) as (c' & Hs' & Ew & R).
  rewrite Ep, length_app, (proj2 (Nat.leb_le _ _)) in R by lia.
  rewrite take_app_length, drop_app_length in R. exists c'. by destruct R.
Qed.

(** A packet of our own. *)
Definition packet (flags cmd rc : Z) (need : bool) (out : list Z) : list Z :=
  head_bytes {| m_signature := LEVIN_SIGNATURE; m_cb := zlen out; m_have_to_return_data := need;
                m_command := cmd; m_return_code := rc; m_flags := flags;
                m_protocol_version := LEVIN_PROTOCOL_VER_1 |} ++ out.

Lemma le_value n x : 0 <= x < 256 ^ Z.of_nat n -> le_combine (le_split n x) = x.
Proof. intros Hx. apply value_digits; lia. Qed.

Lemma readCommand_packet flags cmd rc need out rest (conn : C) :
  in_sane conn -> is_u32 cmd -> is_u32 flags -> zlen out <= LEVIN_DEFAULT_MAX_PACKET_SIZE ->
  pending conn = packet flags cmd rc need out ++ rest ->
  exists conn', readCommand conn =
      Ok (Some {| command := cmd; isNotify := negb need;
                  isResponse := Z.land flags LEVIN_PACKET_RESPONSE =? LEVIN_PACKET_RESPONSE;
                  buf := out |}, conn') /\
    pending conn' = rest /\ in_sane conn' /\ written conn' = written conn.
Proof.
  intros Hs Hc Hfl Hl Ep. unfold packet in Ep. rewrite <- app_assoc in Ep.
  set (h := head_bytes _) in Ep. pose proof (zlen_nonneg out) as Hp. unfold LEVIN_DEFAULT_MAX_PACKET_SIZE in Hl.
  destruct (readStrict_bytes h (out ++ rest) conn Hs Ep) as (c1 & E1 & Ep1 & Hs1 & Ew1).
  change (length h) with 33%nat in E1. unfold readCommand. rewrite E1. cbn [mbind outcome_bind].
  change (le_combine (take 8 h)) with (le_combine (le_split 8 LEVIN_SIGNATURE)).
  change (le_combine (take 8 (drop 8 h))) with (le_combine (le_split 8 (zlen out))).
  change (le_combine (take 4 (drop 17 h))) with (le_combine (le_split 4 cmd)).
  change (le_combine (take 4 (drop 25 h))) with (le_combine (le_split 4 flags)).
  change (nth 16 h 0) with (if need then 1 else 0).
  rewrite !le_value by first [done|cbn; lia]. rewrite Z.eqb_refl. cbn [negb].
  unfold LEVIN_DEFAULT_MAX_PACKET_SIZE. destruct (Z.ltb_spec 100000000 (zlen out)); [lia|].
  assert (R : exists c2, (if zlen out =? 0 then Ok (Some [], c1) else readStrict (Z.to_nat (zlen out)) c1)
    = Ok (Some out, c2) /\ pending c2 = rest /\ in_sane c2 /\ written c2 = written conn).
  { destruct (Z.eqb_spec (zlen out) 0) as [E|E].
    - unfold zlen in E. assert (out = []) as -> by (apply nil_length_inv; lia). by exists c1.
    - unfold zlen. rewrite Nat2Z.id. destruct (readStrict_bytes out rest c1 Hs1 Ep1) as (c2 & -> & ? & ? & ?).
      exists c2. by rewrite <- Ew1. }
  destruct R as (c2 & -> & ? & ? & ?). cbn [mbind outcome_bind]. exists c2.
  destruct need; done.
Qed.
End Theory.

(** * Messages *)

(** What the protocol relies on in a structure it sends: the two directions of
    its serializer fit. *)
Class KVMessage {B : BuildConfig} {A : Type} (f : kv_struct A) := {
  msg_ok : A -> Prop;
  msg_fields : list (list Z * (A -> option entry));
  msg_fresh : A -> Prop;
  msg_body : kv_body f msg_ok msg_fields msg_fresh;
}.

Section Instances.
Context {B : BuildConfig}.
#[export] Instance message_handshake_request : KVMessage COMMAND_HANDSHAKE.serialize_request :=
  {| msg_body := body_COMMAND_HANDSHAKE_request |}.
#[export] Instance message_handshake_response : KVMessage COMMAND_HANDSHAKE.serialize_response :=
  {| msg_body := body_COMMAND_HANDSHAKE_response |}.
#[export] Instance message_timed_sync_request : KVMessage COMMAND_TIMED_SYNC.serialize_request :=
  {| msg_body := body_COMMAND_TIMED_SYNC_request |}.
#[export] Instance message_timed_sync_response : KVMessage COMMAND_TIMED_SYNC.serialize_response :=
  {| msg_body := body_COMMAND_TIMED_SYNC_response |}.
#[export] Instance message_ping_response : KVMessage COMMAND_PING.serialize_response :=
  {| msg_body := body_COMMAND_PING_response |}.
#[export] Instance message_new_block : KVMessage serialize_NOTIFY_NEW_BLOCK_request :=
  {| msg_body := body_NOTIFY_NEW_BLOCK_request |}.
#[export] Instance message_new_transactions : KVMessage serialize_NOTIFY_NEW_TRANSACTIONS_request :=
  {| msg_body := body_NOTIFY_NEW_TRANSACTIONS_request |}.
#[export] Instance message_request_objects : KVMessage serialize_NOTIFY_REQUEST_GET_OBJECTS_request :=
  {| msg_body := body_NOTIFY_REQUEST_GET_OBJECTS_request |}.
#[export] Instance message_response_objects : KVMessage serialize_NOTIFY_RESPONSE_GET_OBJECTS_request :=
  {| msg_body := body_NOTIFY_RESPONSE_GET_OBJECTS_request |}.
#[export] Instance message_request_chain : KVMessage serialize_NOTIFY_REQUEST_CHAIN_request :=
  {| msg_body := body_NOTIFY_REQUEST_CHAIN_request |}.
#[export] Instance message_response_chain : KVMessage serialize_NOTIFY_RESPONSE_CHAIN_ENTRY_request :=
  {| msg_body := body_NOTIFY_RESPONSE_CHAIN_ENTRY_request |}.
#[export] Instance message_tx_pool : KVMessage serialize_NOTIFY_REQUEST_TX_POOL_request :=
  {| msg_body := body_NOTIFY_REQUEST_TX_POOL_request |}.

(** The empty request of a ping. *)
Lemma body_ping_request :
  kv_body COMMAND_PING.serialize_request (fun _ => True) [] (fun _ => True).
Proof.
  split.
  - split; [constructor|]. split; [constructor|done].
  - intros x out os nm ls _. unfold body_bytes. cbn. by rewrite app_nil_r.
  - constructor.
  - intros [] [] o ch ix _ _ _. done.
Qed.
#[export] Instance message_ping_request : KVMessage COMMAND_PING.serialize_request :=
  {| msg_body := body_ping_request |}.
End Instances.

Section Exchange.
Context {C : Type} `{DuplexLaws C} {B : BuildConfig}.

(** The bytes of a message, and the limit on them. *)
Definition message_bytes {A} (f : kv_struct A) `{!KVMessage f} (x : A) : list Z :=
  kv_document msg_fields x.
Definition sendable {A} (f : kv_struct A) `{!KVMessage f} (x : A) : Prop :=
  msg_ok x /\ zlen (message_bytes f x) <= LEVIN_DEFAULT_MAX_PACKET_SIZE.

Lemma encode_ok {A} (f : kv_struct A) `{!KVMessage f} x :
  msg_ok x -> encode f x = Ok (message_bytes f x).
Proof. apply (kv_store _ _ _ _ msg_body). Qed.

Lemma decode_ok {A} (f : kv_struct A) `{!KVMessage f} x y :
  msg_ok x -> msg_fresh y -> decode f y (message_bytes f x) = Ok (Some x).
Proof. apply (kv_load _ _ _ _ msg_body). Qed.

(** A notification arrives as it was sent: for every message type of the
    protocol and every well-formed message within the packet limit, [notify]
    appends one packet to the connection; a peer whose connection has that
    packet next reads one command with the same number, as a notification that
    needs no reply, leaves the bytes after it for the next command, and decodes
    the same message from it. *)
Theorem notification_delivered {A} (f : kv_struct A) `{!KVMessage f} (cmd : Z) (x y : A)
    (sender receiver : C) (rest : list Z) :
  sendable f x -> msg_fresh y -> is_u32 cmd -> in_sane sender -> in_sane receiver ->
  exists bytes sender',
    notify f cmd x sender = Ok sender' /\ written sender' = written sender ++ bytes /\
    (pending receiver = bytes ++ rest ->
     exists q receiver', readCommand receiver = Ok (Some q, receiver') /\ pending receiver' = rest /\
       command q = cmd /\ needReply q = false /\ decode f y (buf q) = Ok (Some x)).
Proof.
  intros [Hx Hl] Hy Hc Hs Hr. unfold notify. rewrite (encode_ok f x Hx). cbn [mbind outcome_bind].
  destruct (writeStrict_ok (packet LEVIN_PACKET_REQUEST cmd 0 false (message_bytes f x)) sender Hs)
    as (s' & Es & Ew & _).
  exists (packet LEVIN_PACKET_REQUEST cmd 0 false (message_bytes f x)), s'. split; [exact Es|]. split; [exact Ew|].
  intros Ep.
  destruct (readCommand_packet LEVIN_PACKET_REQUEST cmd 0 false _ rest receiver Hr Hc ltac:(done) Hl Ep)
    as (r' & Er & Ep' & _).
  eexists _, r'. split; [exact Er|]. split; [done|]. split; [done|]. split; [done|]. cbn [buf].
  by apply decode_ok.
Qed.

(** The bytes of a request and of the reply to it. *)
Definition request_packet {Req} (f : kv_struct Req) `{!KVMessage f} (cmd : Z) (x : Req) : list Z :=
  packet LEVIN_PACKET_REQUEST cmd 0 true (message_bytes f x).
Definition reply_packet {Rsp} (g : kv_struct Rsp) `{!KVMessage g} (cmd ret : Z) (z : Rsp) : list Z :=
  packet LEVIN_PACKET_RESPONSE cmd ret false (message_bytes g z).

(** C30.  A request is answered.  The server, with the bytes of the request next on
    its connection, reads a command of the same number that needs a reply, decodes
    the request [x], runs the handler on it and writes exactly the bytes of the
    reply, leaving what follows the request for the next command.  The client, with
    those bytes of the reply next on its connection, writes exactly the bytes of
    the request in [invoke] and returns the handler's response [z], leaving what
    follows the reply.  This holds for every message type of the protocol, with
    requests and responses that are well-formed and within the packet limit. *)
Theorem request_answered {Req Rsp X} (f : kv_struct Req) `{!KVMessage f}
    (g : kv_struct Rsp) `{!KVMessage g} (handler : Req -> X -> outcome (Z * Rsp * X))
    (cmd : Z) (x empty : Req) (y z : Rsp) (ctx ctx' : X) (ret : Z) (client server : C) (rest after : list Z) :
  sendable f x -> sendable g z -> msg_fresh empty -> msg_fresh y -> is_u32 cmd ->
  handler x ctx = Ok (ret, z, ctx') -> in_sane client -> in_sane server ->
  pending server = (request_packet f cmd x ++ rest) ->
  pending client = reply_packet g cmd ret z ++ after ->
  (exists q server' out server'', readCommand server = Ok (Some q, server') /\
     command q = cmd /\ needReply q = true /\
     invokeAdaptor f g empty handler (buf q) ctx = Ok (ret, out, ctx') /\
     sendReply cmd out ret server' = Ok server'' /\
     written server'' = written server ++ reply_packet g cmd ret z /\ pending server'' = rest) /\
  (exists client', invoke f g cmd x y client = Ok (Some z, client') /\
     written client' = written client ++ request_packet f cmd x /\ pending client' = after).
Proof.
  intros [Hx Hlx] [Hz Hlz] He Hy Hc Eh Hcl Hsv Ps Pc. split.
  - destruct (readCommand_packet LEVIN_PACKET_REQUEST cmd 0 true (message_bytes f x) rest server Hsv Hc
                ltac:(done) Hlx Ps) as (s1 & Er & Ep1 & Hs1 & Ew1).
    destruct (writeStrict_ok (reply_packet g cmd ret z) s1 Hs1) as (s2 & Es & Ew & Ep & _).
    eexists _, s1, (message_bytes g z), s2. split; [exact Er|]. split; [done|]. split; [done|].
    unfold invokeAdaptor. cbn [buf]. rewrite (decode_ok f x empty Hx He). cbn [mbind outcome_bind].
    rewrite Eh. cbn [mbind outcome_bind]. rewrite (encode_ok g z Hz). split; [done|]. split; [exact Es|].
    by rewrite Ew, Ew1, Ep.
  - unfold invoke. rewrite (encode_ok f x Hx). cbn [mbind outcome_bind].
    destruct (writeStrict_ok (request_packet f cmd x) client Hcl) as (c1 & Es & Ew & Ep1 & Hs1).
    change (sendMessage cmd (message_bytes f x) true client) with
      (writeStrict (request_packet f cmd x) client).
    rewrite Es. cbn [mbind outcome_bind].
    destruct (readCommand_packet LEVIN_PACKET_RESPONSE cmd ret false (message_bytes g z) after c1 Hs1 Hc
                ltac:(done) Hlz) as (c2 & -> & Ep2 & _ & Ew2); [by rewrite Ep1|].
    cbn [mbind outcome_bind isResponse buf]. rewrite (decode_ok g z y Hz Hy).
    exists c2. split; [done|]. by rewrite Ew2.
Qed.
End Exchange.

(** * Decoding arbitrary bytes *)

Section Hostile.
Context {B : BuildConfig}.

(** At the outermost object, [m] returns there or throws. *)
Definition tame {A} (m : ser JsonInputValueSerializer A) : Prop :=
  forall o, match m {| chain := [OBJECT o]; idxs := [] |} with
  | Ok (_, s) => s = {| chain := [OBJECT o]; idxs := [] |}
  | Throw _ => True
  | _ => False
  end.

Lemma tame_ret {A} (a : A) : tame (mret a).
Proof. by intros o. Qed.

Lemma tame_throw {A} e : tame (A := A) (ser_throw e).
Proof. by intros o. Qed.

Lemma tame_bind {A C} (m : ser JsonInputValueSerializer A) (f : A -> ser JsonInputValueSerializer C) :
  tame m -> (forall a, tame (f a)) -> tame (m ≫= f).
Proof.
  intros Hm Hf o. specialize (Hm o). unfold mbind, ser_bind.
  destruct (m _) as [[a s]|e| |]; cbn; try done. subst s. apply Hf.
Qed.

Lemma tame_member {A} (m : ser JsonInputValueSerializer (bool * A)) : tame m -> tame (KV_MEMBER m).
Proof. intros Hm. apply tame_bind; [done|]. intros [b a]. apply tame_ret. Qed.

Lemma tame_getValue name : tame (in_getValue name).
Proof.
  intros o. destruct (object_find name o) as [v|] eqn:E.
  - by rewrite (getValue_found name o v [] []).
  - by rewrite (getValue_missing name o [] []).
Qed.

Lemma tame_getter {A} (get : JsonValue -> outcome A) :
  (forall v, match get v with Ok _ | Throw _ => True | _ => False end) ->
  forall v, tame (ser_lift (get v)).
Proof. intros Hg v o. specialize (Hg v). unfold ser_lift. by destruct (get v). Qed.

Lemma tame_number cast name y : tame (getNumber cast name y).
Proof.
  apply tame_bind; [apply tame_getValue|]. intros [v|]; [|apply tame_ret].
  apply tame_bind; [apply tame_getter; by intros []|]. intros. apply tame_ret.
Qed.

Lemma tame_string name y : tame (in_kv_string name y).
Proof.
  apply tame_bind; [apply tame_getValue|]. intros [v|]; [|apply tame_ret].
  apply tame_bind; [apply tame_getter; by intros []|]. intros. apply tame_ret.
Qed.

Lemma tame_hashes name y : tame (kv_hashes KVInput name y).
Proof.
  unfold kv_hashes, kv_asBinary_vector. cbn [kv_type KVInput].
  apply tame_bind; [apply tame_member, tame_string|]. intros blob. case_match; [apply tame_throw|apply tame_ret].
Qed.

Lemma items_stay l v i o : (exists n, json_size v = Ok n) ->
  match serialize_items (fun x => KV_MEMBER (kv_string KVInput [] x)) l
          {| chain := [v; OBJECT o]; idxs := [i] |} with
  | Ok (_, s) => exists i', s = {| chain := [v; OBJECT o]; idxs := [i'] |}
  | Throw _ => True
  | _ => False
  end.
Proof.
  intros Hv. revert i. induction l as [|x l IH]; intros i; cbn [serialize_items]; [by exists i|].
  assert (Hg : match KV_MEMBER (kv_string KVInput [] x) {| chain := [v; OBJECT o]; idxs := [i] |} with
    | Ok (_, s) => exists i', s = {| chain := [v; OBJECT o]; idxs := [i'] |}
    | Throw _ => True | _ => False end).
  { cbn [kv_string KVInput].
    unfold KV_MEMBER, in_kv_string, in_getValue, chain_back, idxs_next, mbind, ser_bind, ser_lift. cbn.
    destruct v as [a| | | |o'| |]; try (by destruct Hv). all: cbn.
    - destruct (a !! Z.to_nat i) as [ []|]; cbn; try done. by eexists.
    - unfold json_contains, json_at; cbn. destruct (object_find [] o') as [ []|]; cbn; try done; by eexists. }
  unfold mbind, ser_bind. destruct (KV_MEMBER _ _) as [[a s]|e| |]; cbn; try done.
  destruct Hg as [i' ->]. specialize (IH i').
  destruct (serialize_items _ l _) as [[ys s]|e| |]; cbn; done.
Qed.

Lemma ser_bind_throw {S A C} (m : ser S A) (f : A -> ser S C) s e :
  m s = Throw e -> (m ≫= f) s = Throw e.
Proof. intros E. unfold mbind, ser_bind. by rewrite E. Qed.

Lemma beginArray_cases size name o :
  let s := {| chain := [OBJECT o]; idxs := [] |} in
  in_beginArray_kv size name s = Ok ((false, 0), s) \/
  (exists e, in_beginArray_kv size name s = Throw e) \/
  (exists v n, in_beginArray_kv size name s = Ok ((true, n), {| chain := [v; OBJECT o]; idxs := [0] |}) /\
     json_size v = Ok n).
Proof.
  unfold in_beginArray_kv, chain_back, chain_push, idxs_push, mbind, ser_bind, ser_lift, json_contains, json_at. cbn.
  destruct (object_find name o) as [v|]; cbn; [|by left]. right.
  destruct v; cbn; first [left; by eexists|right; by eexists _, _].
Qed.

Lemma tame_strings name y : tame (kv_strings KVInput name y).
Proof.
  apply tame_member. intros o. unfold kv_container. cbn [kv_beginArray KVInput].
  destruct (beginArray_cases (zlen y) name o) as [E|[ [e E]|(v & n & E & En)] ].
  - by rewrite (ser_bind_ok _ _ _ _ _ E).
  - by rewrite (ser_bind_throw _ _ _ _ E).
  - rewrite (ser_bind_ok _ _ _ _ _ E). cbn beta iota.
    pose proof (items_stay (vresize [] (Z.to_nat n) y) v 0 o (ex_intro _ n En)) as Hi.
    destruct (serialize_items _ _ _) as [[ys s]|e| |] eqn:Ei in Hi; try done.
    + destruct Hi as [i' ->]. rewrite (ser_bind_ok _ _ _ _ _ Ei). cbn [kv_endArray KVInput].
      rewrite (ser_bind_ok in_endArray _ _ tt {| chain := [OBJECT o]; idxs := [] |}); [done|].
      unfold in_endArray. by rewrite !massert_true by done.
    + by rewrite (ser_bind_throw _ _ _ _ Ei).
Qed.

Lemma decode_tame {A} (f : kv_struct A) y (input : list Z) :
  (forall z, tame (f _ KVInput z)) -> bytes_ok input -> exists r, decode f y input = Ok r.
Proof.
  intros Hf Hb. unfold decode, loadFromBinaryKeyValue.
  pose proof (reader_safe input Hb) as R.
  destruct (KVBinaryInputStreamSerializer_new _ _) as [s|e| |]; cbn [mbind outcome_bind]; try done.
  - destruct R as (o & -> & _). specialize (Hf y o). destruct (f _ _ _ _) as [[x s]|e| |]; try done; by eexists.
  - by eexists.
Qed.
End Hostile.

Section Hostile2.
Context {B : BuildConfig}.

(** C38.  No bytes a peer can send harm the decoding of a message without nested
    structures: for the announcements of transactions, the requests for objects,
    chain and pool, the answer to a request for the chain, and the answer to a
    ping, [decode] on any input returns true or false; it never runs into an
    assertion or undefined behaviour. *)
Theorem flat_messages_decode (input : list Z) :
  bytes_ok input ->
  (forall y, exists r, decode serialize_NOTIFY_NEW_TRANSACTIONS_request y input = Ok r) /\
  (forall y, exists r, decode serialize_NOTIFY_REQUEST_GET_OBJECTS_request y input = Ok r) /\
  (forall y, exists r, decode serialize_NOTIFY_REQUEST_CHAIN_request y input = Ok r) /\
  (forall y, exists r, decode serialize_NOTIFY_RESPONSE_CHAIN_ENTRY_request y input = Ok r) /\
  (forall y, exists r, decode serialize_NOTIFY_REQUEST_TX_POOL_request y input = Ok r) /\
  (forall y, exists r, decode COMMAND_PING.serialize_response y input = Ok r).
Proof.
  intros Hb. repeat split; intros y; (apply decode_tame; [intros z|exact Hb]);
    match goal with |- tame (?f _ _ _) => unfold f end;
    repeat first [apply tame_ret | apply tame_strings | apply tame_hashes | apply tame_member, tame_number
                 |apply tame_member, tame_string | apply tame_bind; [|intros ?] ].
Qed.

(** A structure inside a message is another matter: [beginObject] enters
    whatever value has the name.  When that is an array, the next member is
    looked up with [idxs.back()++] on an empty vector.  Ten bytes of payload in
    a handshake do that, before anything about the peer was checked. *)
Definition handshake_with_array : list Z :=
  [1; 17; 1; 1; 1; 1; 2; 1; 1; 4; 9] ++ chars "node_data" ++ [136; 0].

Theorem handshake_array_undefined y :
  decode COMMAND_HANDSHAKE.serialize_request y handshake_with_array = Undefined.
Proof. destruct B as [ []]; reflexivity. Qed.

(** Members that are left out keep the old contents of the variable. *)
Theorem handshake_empty_keeps y :
  decode COMMAND_HANDSHAKE.serialize_response y [1; 17; 1; 1; 1; 1; 2; 1; 1; 0] = Ok (Some y).
Proof.
  destruct y as [nd pd pl]. transitivity (Ok (Some {| COMMAND_HANDSHAKE.r_node_data := nd;
    COMMAND_HANDSHAKE.r_payload_data := pd; COMMAND_HANDSHAKE.local_peerlist := pl ++ [] |}));
    [destruct B as [ []]; reflexivity|by rewrite app_nil_r].
Qed.

(** A [double] that was written cannot be read back. *)
Theorem double_not_readable o ch ix name r y :
  object_find name o = Some (REAL r) ->
  kv_double KVInput name y {| chain := OBJECT o :: ch; idxs := ix |} = Throw runtime_error.
Proof.
  intros E. cbn [kv_double KVInput]. unfold getNumber_double.
  rewrite (ser_bind_ok _ _ _ _ _ (getValue_found name o (REAL r) ch ix E)). done.
Qed.
End Hostile2.

(** A connection that ends while [invoke] waits for the reply. *)
Theorem invoke_closed_undefined :
  let B := debug_build in
  let closed := {| incoming := MemoryInputStream_new []; outgoing := [] |} in
  invoke COMMAND_PING.serialize_request COMMAND_PING.serialize_response COMMAND_PING.ID tt
    {| COMMAND_PING.status := []; COMMAND_PING.peer_id := 0 |} closed = Undefined.
Proof. reflexivity. Qed.

(** * Concrete exchanges *)

Local Notation wB := debug_build.
Local Notation idle := {| incoming := MemoryInputStream_new []; outgoing := [] |}.
Local Notation wblock := {| nb_b := {| bce_block := [1; 2; 3]; bce_txs := [ [4]; [] ] |};
  nb_current_blockchain_height := 70000; nb_hop := 1 |}.
Local Notation wempty := {| nb_b := {| bce_block := []; bce_txs := [] |};
  nb_current_blockchain_height := 0; nb_hop := 0 |}.

Ltac concrete := cbn; unfold string_ok, is_u32, is_u64, is_u8, bytes_ok; repeat split;
  repeat first [constructor | unfold is_u8; lia | vm_compute; congruence].

Lemma notification_delivered_witness :
  exists bytes sender',
    notify (B := wB) serialize_NOTIFY_NEW_BLOCK_request 2001 wblock idle = Ok sender' /\
    written sender' = written idle ++ bytes /\
    (pending idle = bytes ++ [] ->
     exists q receiver', readCommand (B := wB) idle = Ok (Some q, receiver') /\ pending receiver' = [] /\
       command q = 2001 /\ needReply q = false /\
       decode (B := wB) serialize_NOTIFY_NEW_BLOCK_request wempty (buf q) = Ok (Some wblock)).
Proof.
  apply (notification_delivered (B := wB) serialize_NOTIFY_NEW_BLOCK_request 2001 wblock wempty idle idle []).
  - split; [concrete|vm_compute; congruence].
  - done.
  - done.
  - cbn; lia.
  - cbn; lia.
Defined.

Local Notation wpong := {| COMMAND_PING.status := COMMAND_PING.PING_OK_RESPONSE_STATUS_TEXT;
  COMMAND_PING.peer_id := 12345 |}.
Local Notation wnone := {| COMMAND_PING.status := []; COMMAND_PING.peer_id := 0 |}.

Definition ping_request : list Z := request_packet (B := wB) COMMAND_PING.serialize_request COMMAND_PING.ID tt.
Definition ping_reply : list Z := reply_packet (B := wB) COMMAND_PING.serialize_response COMMAND_PING.ID 1 wpong.
Local Notation reads l := {| incoming := MemoryInputStream_new l; outgoing := [] |}.

(** The bytes of a ping and of the answer to it, with another ping behind. *)
Lemma request_answered_witness :
  (exists q server' out server'', readCommand (B := wB) (reads (ping_request ++ ping_request)) = Ok (Some q, server') /\
     command q = COMMAND_PING.ID /\ needReply q = true /\
     invokeAdaptor (B := wB) COMMAND_PING.serialize_request COMMAND_PING.serialize_response tt
       (fun _ ctx => Ok (1, wpong, ctx)) (buf q) 0 = Ok (1, out, 0) /\
     sendReply COMMAND_PING.ID out 1 server' = Ok server'' /\
     written server'' = written (reads (ping_request ++ ping_request)) ++ ping_reply /\ pending server'' = ping_request) /\
  (exists client', invoke (B := wB) COMMAND_PING.serialize_request COMMAND_PING.serialize_response
       COMMAND_PING.ID tt wnone (reads (ping_reply ++ [])) = Ok (Some wpong, client') /\
     written client' = written (reads (ping_reply ++ [])) ++ ping_request /\ pending client' = []).
Proof.
  apply (request_answered (B := wB) COMMAND_PING.serialize_request COMMAND_PING.serialize_response
           (fun _ ctx => Ok (1, wpong, ctx)) COMMAND_PING.ID tt tt wnone wpong 0 0 1
           (reads (ping_reply ++ [])) (reads (ping_request ++ ping_request)) ping_request []).
  - split; [done|vm_compute; congruence].
  - split; [concrete|vm_compute; congruence].
  - done.
  - done.
  - done.
  - done.
  - cbn; lia.
  - cbn; lia.
  - reflexivity.
  - reflexivity.
Defined.

Lemma flat_messages_decode_witness :
  exists r, decode (B := wB) serialize_NOTIFY_REQUEST_CHAIN_request {| rc_block_ids := [] |}
    [1; 17; 1; 1; 1; 1; 2; 1; 1; 4; 9; 1] = Ok r.
Proof.
  apply (flat_messages_decode (B := wB) [1; 17; 1; 1; 1; 1; 2; 1; 1; 4; 9; 1]).
  repeat constructor; unfold is_u8; lia.
Defined.
