(* ===== verification/PeerList.v ===== *)
(** The peers a node knows: [P2p/PeerListManager.cpp], the addresses of
    [System/Ipv4Address.cpp], and the parts of [P2p/NetNode.cpp] that take peers
    from others and keep account of misbehaving hosts. *)
From S2P Require Import Prelude Varint Stream Serializer KVBinary P2pProtocol.

#[export] Instance NetworkAddress_eq_dec : EqDecision NetworkAddress.
Proof. solve_decision. Defined.

(** * Addresses *)

(** [hostToNetwork] and [networkToHost] swap the bytes of 32 bits. *)
Definition hostToNetwork (n : Z) : Z :=
  Z.lor (Z.lor (Z.lor (u32 (Z.shiftl n 24)) (u32 (Z.shiftl (Z.land n 65280) 8)))
    (Z.shiftr (Z.land n 16711680) 8)) (Z.shiftr n 24).
Definition networkToHost (n : Z) : Z := hostToNetwork n.

Definition isLoopback (value : Z) : bool := Z.land value 4278190080 =? Z.shiftl 127 24.
Definition isPrivate (value : Z) : bool :=
  (Z.land value 4278190080 =? Z.shiftl 10 24) ||
  (Z.land value 4293918720 =? Z.lor (Z.shiftl 172 24) (Z.shiftl 16 16)) ||
  (Z.land value 4294901760 =? Z.lor (Z.shiftl 192 24) (Z.shiftl 168 16)).

(** * The lists

    A list of peers has two indices: unique by address and ordered by time.  It
    is modelled as the sequence of the second.  A new entry goes behind those of
    the same time; an entry that is replaced stays where it is if the order
    allows, and otherwise moves. *)

Section Container.
Context {E : Type} (adr : E -> NetworkAddress) (time : E -> Z).

Fixpoint insert_by_time (e : E) (l : list E) : list E :=
  match l with
  | [] => [e]
  | x :: l' => if time e <? time x then e :: l else x :: insert_by_time e l'
  end.

Fixpoint sorted_by_time (l : list E) : bool :=
  match l with
  | x :: (y :: _) as l' => (time x <=? time y) && sorted_by_time l'
  | _ => true
  end.

Definition find_by_addr (a : NetworkAddress) (l : list E) : option E :=
  snd <$> list_find (fun e => adr e = a) l.

Definition erase_by_addr (a : NetworkAddress) (l : list E) : list E :=
  filter (fun e => adr e <> a) l.

Definition container_insert (e : E) (l : list E) : list E :=
  match find_by_addr (adr e) l with Some _ => l | None => insert_by_time e l end.

Definition container_replace (e : E) (l : list E) : list E :=
  let l' := map (fun x => if decide (adr x = adr e) then e else x) l in
  if sorted_by_time l' then l' else insert_by_time e (erase_by_addr (adr e) l).

(** [Peerlist::trim]: the oldest entries go. *)
Fixpoint peerlist_trim (maxSize : Z) (l : list E) : list E :=
  match l with
  | [] => []
  | x :: l' => if maxSize <? zlen l then peerlist_trim maxSize l' else l
  end.
End Container.

Record AnchorPeerlistEntry := { ape_adr : NetworkAddress; ape_id : Z; ape_first_seen : Z }.

Definition P2P_LOCAL_WHITE_PEERLIST_LIMIT : Z := 1000.
Definition P2P_LOCAL_GRAY_PEERLIST_LIMIT : Z := 5000.
Definition P2P_DEFAULT_PEERS_IN_HANDSHAKE : Z := 250.

Record PeerlistManager := {
  m_allow_local_ip : bool;
  m_peers_gray : list PeerlistEntry;
  m_peers_white : list PeerlistEntry;
  m_peers_anchor : list AnchorPeerlistEntry;
}.

Definition PeerlistManager_new (allow_local_ip : bool) : PeerlistManager :=
  {| m_allow_local_ip := allow_local_ip; m_peers_gray := []; m_peers_white := []; m_peers_anchor := [] |}.

Definition with_gray (l : list PeerlistEntry) (p : PeerlistManager) : PeerlistManager :=
  {| m_allow_local_ip := m_allow_local_ip p; m_peers_gray := l; m_peers_white := m_peers_white p;
     m_peers_anchor := m_peers_anchor p |}.
Definition with_white (l : list PeerlistEntry) (p : PeerlistManager) : PeerlistManager :=
  {| m_allow_local_ip := m_allow_local_ip p; m_peers_gray := m_peers_gray p; m_peers_white := l;
     m_peers_anchor := m_peers_anchor p |}.
Definition with_anchor (l : list AnchorPeerlistEntry) (p : PeerlistManager) : PeerlistManager :=
  {| m_allow_local_ip := m_allow_local_ip p; m_peers_gray := m_peers_gray p;
     m_peers_white := m_peers_white p; m_peers_anchor := l |}.

Local Notation insert := (container_insert pe_adr pe_last_seen).
Local Notation replace_entry := (container_replace pe_adr pe_last_seen).
Local Notation find := (find_by_addr pe_adr).
Local Notation erase := (erase_by_addr pe_adr).

Definition trim_white_peerlist (p : PeerlistManager) : PeerlistManager :=
  with_white (peerlist_trim P2P_LOCAL_WHITE_PEERLIST_LIMIT (m_peers_white p)) p.
Definition trim_gray_peerlist (p : PeerlistManager) : PeerlistManager :=
  with_gray (peerlist_trim P2P_LOCAL_GRAY_PEERLIST_LIMIT (m_peers_gray p)) p.

(** [Peerlist::get]: the newest entries first. *)
Definition peerlist_get (l : list PeerlistEntry) (i : Z) : option PeerlistEntry :=
  if zlen l <=? i then None else rev l !! Z.to_nat i.

Definition get_white_peer_by_index (p : PeerlistManager) (i : Z) : option PeerlistEntry :=
  peerlist_get (m_peers_white p) i.
Definition get_gray_peer_by_index (p : PeerlistManager) (i : Z) : option PeerlistEntry :=
  peerlist_get (m_peers_gray p) i.

Definition is_ip_allowed (p : PeerlistManager) (ip : Z) : bool :=
  let addr := networkToHost ip in
  if isLoopback addr then false
  else if negb (m_allow_local_ip p) && isPrivate addr then false
  else true.

Definition append_with_peer_white (ple : PeerlistEntry) (p : PeerlistManager) : PeerlistManager :=
  if negb (is_ip_allowed p (na_ip (pe_adr ple))) then p else
  let p := match find (pe_adr ple) (m_peers_white p) with
           | None => trim_white_peerlist (with_white (insert ple (m_peers_white p)) p)
           | Some _ => with_white (replace_entry ple (m_peers_white p)) p
           end in
  match find (pe_adr ple) (m_peers_gray p) with
  | Some _ => with_gray (erase (pe_adr ple) (m_peers_gray p)) p
  | None => p
  end.

Definition append_with_peer_gray (ple : PeerlistEntry) (p : PeerlistManager) : PeerlistManager :=
  if negb (is_ip_allowed p (na_ip (pe_adr ple))) then p else
  match find (pe_adr ple) (m_peers_white p) with
  | Some _ => p
  | None =>
      match find (pe_adr ple) (m_peers_gray p) with
      | None => trim_gray_peerlist (with_gray (insert ple (m_peers_gray p)) p)
      | Some _ => with_gray (replace_entry ple (m_peers_gray p)) p
      end
  end.

Definition append_with_peer_anchor (ple : AnchorPeerlistEntry) (p : PeerlistManager) : PeerlistManager :=
  if negb (is_ip_allowed p (na_ip (ape_adr ple))) then p else
  match find_by_addr ape_adr (ape_adr ple) (m_peers_anchor p) with
  | None => with_anchor (container_insert ape_adr ape_first_seen ple (m_peers_anchor p)) p
  | Some _ => p
  end.

Definition merge_peerlist (outer_bs : list PeerlistEntry) (p : PeerlistManager) : PeerlistManager :=
  trim_gray_peerlist (fold_left (fun p be => append_with_peer_gray be p) outer_bs p).

Definition set_peer_just_seen (peer : Z) (addr : NetworkAddress) (now : Z) (p : PeerlistManager)
  : PeerlistManager :=
  append_with_peer_white {| pe_adr := addr; pe_id := peer; pe_last_seen := u64 now |} p.

(** The loop of [get_peerlist_head]: entries never seen are left out, and the
    counter is compared before it counts the entry just added. *)
Fixpoint get_peerlist_head_loop (l : list PeerlistEntry) (cnt depth : Z) : list PeerlistEntry :=
  match l with
  | [] => []
  | vl :: l =>
      if pe_last_seen vl =? 0 then get_peerlist_head_loop l cnt depth
      else if depth <? cnt then [vl]
      else vl :: get_peerlist_head_loop l (u32 (cnt + 1)) depth
  end.

Definition get_peerlist_head (p : PeerlistManager) (depth : Z) : list PeerlistEntry :=
  get_peerlist_head_loop (rev (m_peers_white p)) 0 depth.

Definition get_peerlist_full (p : PeerlistManager) : list PeerlistEntry * list PeerlistEntry :=
  (rev (m_peers_gray p), rev (m_peers_white p)).

Definition get_and_empty_anchor_peerlist (p : PeerlistManager) : list AnchorPeerlistEntry * PeerlistManager :=
  (m_peers_anchor p, with_anchor [] p).

Definition remove_from_peer_anchor (addr : NetworkAddress) (p : PeerlistManager) : PeerlistManager :=
  match find_by_addr ape_adr addr (m_peers_anchor p) with
  | Some _ => with_anchor (erase_by_addr ape_adr addr (m_peers_anchor p)) p
  | None => p
  end.

(** * Peers from others ([NetNode.cpp]) *)

(** [fix_time_delta]: entries are moved to our time; a list with an entry from
    the future of the sender is refused. *)
Fixpoint fix_time_delta_loop (l : list PeerlistEntry) (local_time delta : Z) : option (list PeerlistEntry) :=
  match l with
  | [] => Some []
  | be :: l =>
      if u64 local_time <? pe_last_seen be then None
      else l ← fix_time_delta_loop l local_time delta;
           Some ({| pe_adr := pe_adr be; pe_id := pe_id be; pe_last_seen := u64 (pe_last_seen be + delta) |} :: l)
  end.

Definition fix_time_delta (l : list PeerlistEntry) (local_time now : Z) : option (list PeerlistEntry) :=
  fix_time_delta_loop l local_time (i64 (now - local_time)).

Definition handle_remote_peerlist (peerlist : list PeerlistEntry) (local_time now : Z) (p : PeerlistManager)
  : bool * PeerlistManager :=
  match fix_time_delta peerlist local_time now with
  | None => (false, p)
  | Some l => (true, merge_peerlist l p)
  end.

(** [get_random_index_with_fixed_probability], for a random number; the caller
    gives an index of at most 20. *)
Definition get_random_index_with_fixed_probability (max_index rand : Z) : Z :=
  if max_index =? 0 then 0
  else let x := rand mod (max_index + 1) in u64 (u64 (x * x) * x) / u64 (max_index * max_index).

(** * Misbehaving hosts ([NetNode.cpp]) *)

Definition P2P_IP_BLOCKTIME : Z := 60 * 60 * 24.
Definition P2P_IP_FAILS_BEFORE_BLOCK : Z := 10.

(** [P2p/ConnectionContext.h]: what a node knows of a connection. *)
Inductive connection_state :=
| state_befor_handshake
| state_synchronizing
| state_idle
| state_normal
| state_sync_required
| state_pool_sync_required
| state_shutdown.

#[export] Instance connection_state_eq_dec : EqDecision connection_state.
Proof. solve_decision. Defined.

(** [NetNode.h]: a message waiting to be written to a connection. *)
Inductive P2pMessage_Type := COMMAND | REPLY | NOTIFY.
Record P2pMessage := { pm_type : P2pMessage_Type; pm_command : Z; pm_buffer : list Z; pm_returnCode : Z }.

Definition P2P_CONNECTION_MAX_WRITE_BUFFER_SIZE : Z := 64 * 1024 * 1024.

(** [CryptoNoteConnectionContext] with the members that [P2pConnectionContext]
    adds to it: [peerId], the queue of messages to write and whether the
    connection was interrupted.  [m_needed_objects] is a list and
    [m_requested_objects] a set of hashes. *)
Record P2pConnectionContext := {
  ctx_version : Z;
  m_connection_id : list Z;
  m_remote_ip : Z;
  m_remote_port : Z;
  m_is_income : bool;
  m_state : connection_state;
  m_needed_objects : list (list Z);
  m_requested_objects : gset (list Z);
  m_remote_blockchain_height : Z;
  m_last_response_height : Z;
  peerId : Z;
  writeQueue : list P2pMessage;
  writeQueueSize : Z;
  stopped : bool;
}.

(** Assignments to members. *)
Definition set_identity (ver id : Z) (c : P2pConnectionContext) : P2pConnectionContext :=
  {| ctx_version := ver; m_connection_id := m_connection_id c; m_remote_ip := m_remote_ip c;
     m_remote_port := m_remote_port c; m_is_income := m_is_income c; m_state := m_state c;
     m_needed_objects := m_needed_objects c; m_requested_objects := m_requested_objects c;
     m_remote_blockchain_height := m_remote_blockchain_height c;
     m_last_response_height := m_last_response_height c; peerId := id;
     writeQueue := writeQueue c; writeQueueSize := writeQueueSize c; stopped := stopped c |}.
Definition set_state (st : connection_state) (c : P2pConnectionContext) : P2pConnectionContext :=
  {| ctx_version := ctx_version c; m_connection_id := m_connection_id c; m_remote_ip := m_remote_ip c;
     m_remote_port := m_remote_port c; m_is_income := m_is_income c; m_state := st;
     m_needed_objects := m_needed_objects c; m_requested_objects := m_requested_objects c;
     m_remote_blockchain_height := m_remote_blockchain_height c;
     m_last_response_height := m_last_response_height c; peerId := peerId c;
     writeQueue := writeQueue c; writeQueueSize := writeQueueSize c; stopped := stopped c |}.
Definition set_objects (needed : list (list Z)) (requested : gset (list Z)) (c : P2pConnectionContext)
  : P2pConnectionContext :=
  {| ctx_version := ctx_version c; m_connection_id := m_connection_id c; m_remote_ip := m_remote_ip c;
     m_remote_port := m_remote_port c; m_is_income := m_is_income c; m_state := m_state c;
     m_needed_objects := needed; m_requested_objects := requested;
     m_remote_blockchain_height := m_remote_blockchain_height c;
     m_last_response_height := m_last_response_height c; peerId := peerId c;
     writeQueue := writeQueue c; writeQueueSize := writeQueueSize c; stopped := stopped c |}.
Definition set_heights (remote last : Z) (c : P2pConnectionContext) : P2pConnectionContext :=
  {| ctx_version := ctx_version c; m_connection_id := m_connection_id c; m_remote_ip := m_remote_ip c;
     m_remote_port := m_remote_port c; m_is_income := m_is_income c; m_state := m_state c;
     m_needed_objects := m_needed_objects c; m_requested_objects := m_requested_objects c;
     m_remote_blockchain_height := remote; m_last_response_height := last; peerId := peerId c;
     writeQueue := writeQueue c; writeQueueSize := writeQueueSize c; stopped := stopped c |}.
Definition set_queue (q : list P2pMessage) (size : Z) (stop : bool) (c : P2pConnectionContext)
  : P2pConnectionContext :=
  {| ctx_version := ctx_version c; m_connection_id := m_connection_id c; m_remote_ip := m_remote_ip c;
     m_remote_port := m_remote_port c; m_is_income := m_is_income c; m_state := m_state c;
     m_needed_objects := m_needed_objects c; m_requested_objects := m_requested_objects c;
     m_remote_blockchain_height := m_remote_blockchain_height c;
     m_last_response_height := m_last_response_height c; peerId := peerId c;
     writeQueue := q; writeQueueSize := size; stopped := stop |}.

(** [pushMessage]: a queue that would grow too large interrupts the connection. *)
Definition pushMessage (msg : P2pMessage) (c : P2pConnectionContext) : bool * P2pConnectionContext :=
  let size := u64 (writeQueueSize c + zlen (pm_buffer msg)) in
  if P2P_CONNECTION_MAX_WRITE_BUFFER_SIZE <? size then (false, set_queue (writeQueue c) size true c)
  else (true, set_queue (writeQueue c ++ [msg]) size (stopped c) c).

(** [popBuffer], once there is something to write or the connection stopped. *)
Definition popBuffer (c : P2pConnectionContext) : list P2pMessage * P2pConnectionContext :=
  (writeQueue c, set_queue [] 0 (stopped c) c).

(** The part of [NodeServer] that is modelled.  A connection whose message is
    being handled is passed to the handler; [m_connections] has the others. *)
Record NodeServer := {
  m_peerlist : PeerlistManager;
  m_blocked_hosts : gmap Z Z;
  m_host_fails_score : gmap Z Z;
  m_connections : gmap (list Z) P2pConnectionContext;
}.

Definition with_peerlist (p : PeerlistManager) (h : NodeServer) : NodeServer :=
  {| m_peerlist := p; m_blocked_hosts := m_blocked_hosts h; m_host_fails_score := m_host_fails_score h;
     m_connections := m_connections h |}.

Definition is_addr_recently_failed (ip : Z) (h : NodeServer) : bool :=
  match m_host_fails_score h !! ip with Some _ => true | None => false end.

Definition block_host (ip seconds now : Z) (h : NodeServer) : NodeServer :=
  {| m_peerlist := m_peerlist h;
     m_blocked_hosts := <[ip := i64 (now + seconds)]> (m_blocked_hosts h);
     m_host_fails_score := m_host_fails_score h;
     m_connections := (fun c => if m_remote_ip c =? ip then set_state state_shutdown c else c)
                      <$> m_connections h |}.

Definition unblock_host (ip : Z) (h : NodeServer) : bool * NodeServer :=
  match m_blocked_hosts h !! ip with
  | None => (false, h)
  | Some _ => (true, {| m_peerlist := m_peerlist h; m_blocked_hosts := delete ip (m_blocked_hosts h);
                        m_host_fails_score := m_host_fails_score h; m_connections := m_connections h |})
  end.

Definition add_host_fail (ip now : Z) (h : NodeServer) : NodeServer :=
  let fails := u64 (default 0 (m_host_fails_score h !! ip) + 1) in
  let with_score n := {| m_peerlist := m_peerlist h; m_blocked_hosts := m_blocked_hosts h;
                         m_host_fails_score := <[ip := n]> (m_host_fails_score h);
                         m_connections := m_connections h |} in
  if P2P_IP_FAILS_BEFORE_BLOCK <=? fails
  then block_host ip P2P_IP_BLOCKTIME now (with_score (P2P_IP_FAILS_BEFORE_BLOCK / 2))
  else with_score fails.

Definition is_remote_host_allowed (ip now : Z) (h : NodeServer) : bool * NodeServer :=
  match m_blocked_hosts h !! ip with
  | None => (true, h)
  | Some t => if t <=? now then unblock_host ip h else (false, h)
  end.

Definition ban_host (ip seconds now : Z) (h : NodeServer) : NodeServer := block_host ip seconds now h.
Definition unban_host (ip : Z) (h : NodeServer) : bool * NodeServer := unblock_host ip h.

Definition drop_connection (now : Z) (add_fail : bool) (context : P2pConnectionContext) (h : NodeServer)
  : P2pConnectionContext * NodeServer :=
  (set_state state_shutdown context, if add_fail then add_host_fail (m_remote_ip context) now h else h).

(** [is_peer_used] and [is_addr_connected], for our own identifier. *)
Definition is_peer_used (m_peer_id id : Z) (adr : NetworkAddress) (h : NodeServer) : bool :=
  (m_peer_id =? id) ||
  existsb (fun kv => (peerId kv.2 =? id) ||
    (negb (m_is_income kv.2) && (na_ip adr =? m_remote_ip kv.2) && (na_port adr =? m_remote_port kv.2)))
    (map_to_list (m_connections h)).

Definition is_addr_connected (peer : NetworkAddress) (h : NodeServer) : bool :=
  existsb (fun kv => negb (m_is_income kv.2) && (na_ip peer =? m_remote_ip kv.2) &&
    (na_port peer =? m_remote_port kv.2)) (map_to_list (m_connections h)).

Definition get_outgoing_connections_count (h : NodeServer) : Z :=
  zlen (filter (fun kv => m_is_income kv.2 = false) (map_to_list (m_connections h))).

(** [relay_notify_to_all], which [externalRelayNotifyToAll] runs later. *)
Definition relay_notify_to_all (command : Z) (data_buff : list Z) (excludeConnection : option (list Z))
    (h : NodeServer) : NodeServer :=
  let excludeId := default (repeat 0 16) excludeConnection in
  {| m_peerlist := m_peerlist h; m_blocked_hosts := m_blocked_hosts h;
     m_host_fails_score := m_host_fails_score h;
     m_connections := (fun c =>
       if negb (peerId c =? 0) && negb (bool_decide (m_connection_id c = excludeId)) &&
          (bool_decide (m_state c = state_normal) || bool_decide (m_state c = state_synchronizing))
       then (pushMessage {| pm_type := NOTIFY; pm_command := command; pm_buffer := data_buff;
                            pm_returnCode := 0 |} c).2
       else c) <$> m_connections h |}.

(** [timedSync] asks the connections at rest for their state. *)
Definition timedSync_connections (ID : Z) (cmdBuf : list Z) (h : NodeServer) : NodeServer :=
  {| m_peerlist := m_peerlist h; m_blocked_hosts := m_blocked_hosts h;
     m_host_fails_score := m_host_fails_score h;
     m_connections := (fun c =>
       if negb (peerId c =? 0) &&
          (bool_decide (m_state c = state_normal) || bool_decide (m_state c = state_idle))
       then (pushMessage {| pm_type := COMMAND; pm_command := ID; pm_buffer := cmdBuf;
                            pm_returnCode := 0 |} c).2
       else c) <$> m_connections h |}.

(** * The invariant of the lists *)

Section ContainerTheory.
Context {E : Type} (adr : E -> NetworkAddress) (time : E -> Z).

Definition peers_ok (l : list E) : Prop :=
  NoDup (map adr l) /\ StronglySorted (fun x y => time x <= time y) l.

Lemma insert_by_time_Permutation e l : insert_by_time time e l ≡ₚ e :: l.
Proof.
  induction l as [|x l IH]; cbn; [done|]. case_match; [done|]. rewrite IH. apply Permutation_swap.
Qed.

Lemma insert_by_time_sorted e l :
  StronglySorted (fun x y => time x <= time y) l ->
  StronglySorted (fun x y => time x <= time y) (insert_by_time time e l).
Proof.
  induction 1 as [|x l Hs IH Hx]; cbn; [repeat constructor|].
  destruct (Z.ltb_spec (time e) (time x)).
  - constructor; [by constructor|]. constructor; [lia|].
    eapply Forall_impl; [exact Hx|]. cbn. intros; lia.
  - constructor; [done|]. rewrite insert_by_time_Permutation. by constructor.
Qed.

Lemma find_by_addr_None a l : find_by_addr adr a l = None <-> a ∉ map adr l.
Proof.
  unfold find_by_addr. rewrite fmap_None, list_find_None.
  split.
  - intros Hf Hin. apply list_elem_of_fmap in Hin as (e & -> & He).
    rewrite Forall_forall in Hf. by apply (Hf e He).
  - intros Hn. apply Forall_forall. intros e He Ha. apply Hn. rewrite <- Ha. by apply (list_elem_of_fmap_2 adr).
Qed.

Lemma sorted_by_time_spec l : sorted_by_time time l = true -> StronglySorted (fun x y => time x <= time y) l.
Proof.
  intros Hs. apply Sorted_StronglySorted; [intros x y z; lia|].
  induction l as [|x l IH]; [constructor|]. destruct l as [|y l]; [repeat constructor|].
  cbn [sorted_by_time] in Hs. apply andb_prop in Hs as [H1 H2]. constructor; [by apply IH|].
  constructor. zbool. done.
Qed.

Lemma sublist_elem_of (l' l : list E) x : l' `sublist_of` l -> x ∈ l' -> x ∈ l.
Proof.
  induction 1 as [|y l1 l2 Hs IH|y l1 l2 Hs IH]; [done| |].
  - rewrite !elem_of_cons. intros [?|?]; [by left|right]. by apply IH.
  - intros Hx. right. by apply IH.
Qed.

Lemma erase_addr_sublist a l : erase_by_addr adr a l `sublist_of` l.
Proof. unfold erase_by_addr. induction l as [|x l IH]; [done|]. rewrite filter_cons. case_decide; by constructor. Qed.

Lemma sublist_container l' l : l' `sublist_of` l -> peers_ok l -> peers_ok l'.
Proof.
  intros Hs [Hd Ho]. split.
  - eapply sublist_NoDup; [exact Hd|]. by apply (fmap_sublist adr).
  - clear Hd. induction Hs as [|x l1 l2 Hs IH|x l1 l2 Hs IH]; [done| |].
    + apply StronglySorted_inv in Ho as [Ho Hx]. constructor; [by apply IH|].
      apply Forall_forall. rewrite Forall_forall in Hx. intros y Hy. apply Hx.
      by eapply sublist_elem_of.
    + apply StronglySorted_inv in Ho as [Ho _]. by apply IH.
Qed.

Lemma erase_no_addr a l : a ∉ map adr (erase_by_addr adr a l).
Proof.
  intros Hin. apply list_elem_of_fmap in Hin as (e & -> & He).
  unfold erase_by_addr in He. apply list_elem_of_filter in He as [Hne _]. done.
Qed.

Lemma container_insert_ok e l : peers_ok l -> peers_ok (container_insert adr time e l).
Proof.
  intros [Hd Ho]. unfold container_insert. destruct (find_by_addr adr (adr e) l) eqn:Ef; [done|].
  apply find_by_addr_None in Ef. split; [|by apply insert_by_time_sorted].
  rewrite insert_by_time_Permutation. cbn. by constructor.
Qed.

Lemma map_adr_replace e l :
  map adr (map (fun x => if decide (adr x = adr e) then e else x) l) = map adr l.
Proof. rewrite map_map. apply map_ext. intros x. case_decide; congruence. Qed.

Lemma container_replace_ok e l : peers_ok l -> peers_ok (container_replace adr time e l).
Proof.
  intros Hl. unfold container_replace. destruct (sorted_by_time time _) eqn:Es.
  - split; [rewrite map_adr_replace; apply Hl|by apply sorted_by_time_spec].
  - pose proof (sublist_container _ _ (erase_addr_sublist (adr e) l) Hl) as [Hd Ho].
    split; [|by apply insert_by_time_sorted]. rewrite insert_by_time_Permutation. cbn.
    constructor; [apply erase_no_addr|done].
Qed.

Lemma trim_sublist n (l : list E) : peerlist_trim n l `sublist_of` l.
Proof. induction l as [|x l IH]; cbn [peerlist_trim]; [done|]. case_match; [by constructor|done]. Qed.

Lemma trim_size n (l : list E) : 0 <= n -> zlen (peerlist_trim n l) <= n.
Proof.
  intros Hn. induction l as [|x l IH]; cbn [peerlist_trim]; [done|]. case_match; zbool; [done|lia].
Qed.
End ContainerTheory.

Local Notation listed p l := (peers_ok pe_adr pe_last_seen l /\
  Forall (fun e => is_ip_allowed p (na_ip (pe_adr e)) = true) l).

(** What the lists promise each other and their users. *)
Definition peerlists_ok (p : PeerlistManager) : Prop :=
  listed p (m_peers_white p) /\ listed p (m_peers_gray p) /\
  peers_ok ape_adr ape_first_seen (m_peers_anchor p) /\
  Forall (fun e => is_ip_allowed p (na_ip (ape_adr e)) = true) (m_peers_anchor p) /\
  zlen (m_peers_white p) <= P2P_LOCAL_WHITE_PEERLIST_LIMIT /\
  zlen (m_peers_gray p) <= P2P_LOCAL_GRAY_PEERLIST_LIMIT /\
  (forall a, a ∈ map pe_adr (m_peers_white p) -> a ∉ map pe_adr (m_peers_gray p)).

Lemma insert_time_elem {E} adr (time : E -> Z) e l x :
  x ∈ container_insert adr time e l -> x = e \/ x ∈ l.
Proof.
  unfold container_insert. case_match; [by right|]. rewrite insert_by_time_Permutation, elem_of_cons. done.
Qed.

Lemma replace_elem {E} adr (time : E -> Z) e l x :
  x ∈ container_replace adr time e l -> x = e \/ x ∈ l.
Proof.
  unfold container_replace. case_match.
  - intros (y & -> & Hy)%list_elem_of_fmap. case_decide; [by left|by right].
  - rewrite insert_by_time_Permutation, elem_of_cons. intros [?|Hx]; [by left|right].
    unfold erase_by_addr in Hx. by apply list_elem_of_filter in Hx as [_ ?].
Qed.

Lemma replace_size {E} adr (time : E -> Z) e l :
  NoDup (map adr l) -> adr e ∈ map adr l -> zlen (container_replace adr time e l) = zlen l.
Proof.
  intros Hd Hin. unfold container_replace, zlen. case_match; [by rewrite length_map|].
  rewrite insert_by_time_Permutation. cbn [length]. f_equal.
  clear -Hd Hin. induction l as [|x l IH]; [by apply not_elem_of_nil in Hin|].
  cbn in Hd, Hin. apply NoDup_cons in Hd as [Hn Hd]. unfold erase_by_addr in *. rewrite filter_cons.
  case_decide as Hx.
  - cbn. f_equal. apply IH; [done|]. by apply elem_of_cons in Hin as [E0|Hin]; [congruence|].
  - cbn. f_equal. clear IH Hin. rewrite Hx in Hn. clear Hx. induction l as [|y l IH]; [done|]. rewrite filter_cons. cbn in Hn.
    apply not_elem_of_cons in Hn as [Hy Hn]. rewrite decide_True by congruence. cbn. f_equal.
    apply NoDup_cons in Hd as [_ Hd]. by apply IH.
Qed.

Lemma listed_sublist p l l' : l' `sublist_of` l -> listed p l -> listed p l'.
Proof.
  intros Hs [Hc Hf]. split; [by eapply sublist_container|]. rewrite Forall_forall in Hf |- *.
  intros x Hx. apply Hf. by eapply sublist_elem_of.
Qed.

Lemma listed_container_insert p e l :
  is_ip_allowed p (na_ip (pe_adr e)) = true -> listed p l ->
  listed p (container_insert pe_adr pe_last_seen e l).
Proof.
  intros Ha [Hc Hf]. split; [by apply container_insert_ok|]. apply Forall_forall. intros x Hx.
  apply insert_time_elem in Hx as [->|Hx]; [done|]. rewrite Forall_forall in Hf. by apply Hf.
Qed.

Lemma listed_replace p e l :
  is_ip_allowed p (na_ip (pe_adr e)) = true -> listed p l ->
  listed p (container_replace pe_adr pe_last_seen e l).
Proof.
  intros Ha [Hc Hf]. split; [by apply container_replace_ok|]. apply Forall_forall. intros x Hx.
  apply replace_elem in Hx as [->|Hx]; [done|]. rewrite Forall_forall in Hf. by apply Hf.
Qed.

Lemma find_Some_in {E} adr a (l : list E) e : find_by_addr adr a l = Some e -> a ∈ map adr l.
Proof.
  intros Ef. destruct (decide (a ∈ map adr l)) as [|Hn]; [done|]. apply find_by_addr_None in Hn. congruence.
Qed.

Lemma sublist_addr {E} (adr : E -> NetworkAddress) a l l' : l' `sublist_of` l -> a ∈ map adr l' -> a ∈ map adr l.
Proof.
  intros Hs (e & -> & He)%list_elem_of_fmap. apply (list_elem_of_fmap_2 adr). by eapply sublist_elem_of.
Qed.

Lemma elem_addr {E} (adr : E -> NetworkAddress) e l l' a :
  (forall x, x ∈ l' -> x = e \/ x ∈ l) -> a ∈ map adr l' -> a = adr e \/ a ∈ map adr l.
Proof.
  intros Hs (x & -> & Hx)%list_elem_of_fmap. apply Hs in Hx as [->|Hx]; [by left|right].
  by apply (list_elem_of_fmap_2 adr).
Qed.

Lemma white_ok e p : peerlists_ok p -> peerlists_ok (append_with_peer_white e p).
Proof.
  intros Hp. pose proof Hp as ([Hw Hwa] & [Hg Hga] & Han & Haa & Hnw & Hng & Hd). unfold append_with_peer_white.
  destruct (is_ip_allowed p (na_ip (pe_adr e))) eqn:Ha; cbn [negb]; [|done].
  set (w := match find_by_addr pe_adr (pe_adr e) (m_peers_white p) with
            | None => peerlist_trim P2P_LOCAL_WHITE_PEERLIST_LIMIT (container_insert pe_adr pe_last_seen e (m_peers_white p))
            | Some _ => container_replace pe_adr pe_last_seen e (m_peers_white p) end).
  assert (Hlw : listed p w /\ zlen w <= P2P_LOCAL_WHITE_PEERLIST_LIMIT /\
                (forall a, a ∈ map pe_adr w -> a = pe_adr e \/ a ∈ map pe_adr (m_peers_white p))).
  { subst w. destruct (find_by_addr pe_adr (pe_adr e) (m_peers_white p)) eqn:Ef.
    - split; [by apply listed_replace|]. split.
      + rewrite replace_size; [done|apply Hw|by eapply find_Some_in].
      + intros a. apply elem_addr. intros x. apply replace_elem.
    - split; [eapply listed_sublist; [apply trim_sublist|by apply listed_container_insert]|]. split.
      + apply trim_size. unfold P2P_LOCAL_WHITE_PEERLIST_LIMIT. lia.
      + intros a Hin. apply (sublist_addr pe_adr a _ _ (trim_sublist _ _)) in Hin. revert Hin.
        apply elem_addr. intros x. apply insert_time_elem. }
  assert (E : match find_by_addr pe_adr (pe_adr e) (m_peers_white p) with
              | None => trim_white_peerlist (with_white (container_insert pe_adr pe_last_seen e (m_peers_white p)) p)
              | Some _ => with_white (container_replace pe_adr pe_last_seen e (m_peers_white p)) p
              end = with_white w p) by (subst w; by destruct (find_by_addr _ _ _)).
  rewrite E. clearbody w. clear E. destruct Hlw as (Hlw & Hsw & Hew). cbn [m_peers_gray with_white].
  set (g := match find_by_addr pe_adr (pe_adr e) (m_peers_gray p) with
            | Some _ => erase_by_addr pe_adr (pe_adr e) (m_peers_gray p) | None => m_peers_gray p end).
  assert (Hlg : listed p g /\ zlen g <= P2P_LOCAL_GRAY_PEERLIST_LIMIT /\ pe_adr e ∉ map pe_adr g /\
                (forall a, a ∈ map pe_adr g -> a ∈ map pe_adr (m_peers_gray p))).
  { subst g. destruct (find_by_addr pe_adr (pe_adr e) (m_peers_gray p)) eqn:Ef.
    - pose proof (erase_addr_sublist pe_adr (pe_adr e) (m_peers_gray p)) as Hs.
      split; [by eapply listed_sublist|]. split; [apply sublist_length in Hs; unfold zlen in *; lia|].
      split; [apply erase_no_addr|]. intros a. by apply sublist_addr.
    - split; [done|]. split; [done|]. split; [by apply find_by_addr_None|done]. }
  assert (E : match find_by_addr pe_adr (pe_adr e) (m_peers_gray p) with
              | Some _ => with_gray (erase_by_addr pe_adr (pe_adr e) (m_peers_gray p)) (with_white w p)
              | None => with_white w p
              end = with_gray g (with_white w p)) by (subst g; by destruct (find_by_addr _ _ _)).
  rewrite E. destruct Hlg as (Hlg & Hsg & Hng' & Heg).
  split; [exact Hlw|]. split; [exact Hlg|]. split; [done|]. split; [exact Haa|]. split; [done|]. split; [done|].
  cbn. intros a Hin Hg'. destruct (Hew a Hin) as [->|Hin']; [done|]. by apply (Hd a Hin'), Heg.
Qed.

Lemma gray_ok e p : peerlists_ok p -> peerlists_ok (append_with_peer_gray e p).
Proof.
  intros Hp. pose proof Hp as ([Hw Hwa] & [Hg Hga] & Han & Haa & Hnw & Hng & Hd). unfold append_with_peer_gray.
  destruct (is_ip_allowed p (na_ip (pe_adr e))) eqn:Ha; cbn [negb]; [|done].
  destruct (find_by_addr pe_adr (pe_adr e) (m_peers_white p)) eqn:Ew; [done|].
  apply find_by_addr_None in Ew.
  destruct (find_by_addr pe_adr (pe_adr e) (m_peers_gray p)) eqn:Ef.
  - split; [done|]. split; [by apply (listed_replace p)|]. split; [done|]. split; [exact Haa|]. split; [done|]. split.
    + cbn. rewrite replace_size; [done|apply Hg|by eapply find_Some_in].
    + cbn. intros a Hin Hr. apply (elem_addr pe_adr e (m_peers_gray p)) in Hr as [->|Hr]; [done|by apply (Hd a)|].
      intros x. apply replace_elem.
  - split; [done|]. split; [apply (listed_sublist p _ _ (trim_sublist _ _)); by apply (listed_container_insert p)|].
    split; [done|]. split; [exact Haa|]. split; [done|]. split.
    + apply trim_size. unfold P2P_LOCAL_GRAY_PEERLIST_LIMIT. lia.
    + cbn. intros a Hin Hr. apply (sublist_addr pe_adr a _ _ (trim_sublist _ _)) in Hr.
      apply (elem_addr pe_adr e (m_peers_gray p)) in Hr as [->|Hr]; [done|by apply (Hd a)|].
      intros x. apply insert_time_elem.
Qed.

Lemma merge_ok l p : peerlists_ok p -> peerlists_ok (merge_peerlist l p).
Proof.
  intros Hp. unfold merge_peerlist. assert (Hf : peerlists_ok (fold_left (fun p be => append_with_peer_gray be p) l p)).
  { revert p Hp. induction l as [|e l IH]; intros p Hp; cbn; [done|]. by apply IH, gray_ok. }
  set (q := fold_left _ _ _) in *. destruct Hf as (Hw & Hg & Han & Haa & Hnw & Hng & Hd).
  pose proof (trim_sublist P2P_LOCAL_GRAY_PEERLIST_LIMIT (m_peers_gray q)) as Hs.
  split; [exact Hw|]. split; [by apply (listed_sublist q _ _ Hs)|]. split; [done|]. split; [exact Haa|].
  split; [done|]. split; [apply trim_size; unfold P2P_LOCAL_GRAY_PEERLIST_LIMIT; lia|].
  cbn. intros a Hin Hr. apply (Hd a Hin). by apply (sublist_addr pe_adr a _ _ Hs).
Qed.

Lemma anchor_ok e p : peerlists_ok p -> peerlists_ok (append_with_peer_anchor e p).
Proof.
  intros Hp. pose proof Hp as (Hw & Hg & Han & Haa & Hnw & Hng & Hd). unfold append_with_peer_anchor.
  destruct (is_ip_allowed p (na_ip (ape_adr e))) eqn:Ha; cbn [negb]; [|done]. case_match; [done|].
  split; [exact Hw|]. split; [exact Hg|]. split; [by apply container_insert_ok|]. split; [|done].
  apply Forall_forall. intros x Hx. apply insert_time_elem in Hx as [->|Hx]; [done|].
  rewrite Forall_forall in Haa. by apply Haa.
Qed.

Lemma remove_anchor_ok a p : peerlists_ok p -> peerlists_ok (remove_from_peer_anchor a p).
Proof.
  intros Hp. pose proof Hp as (Hw & Hg & Han & Haa & Hnw & Hng & Hd). unfold remove_from_peer_anchor.
  case_match; [|done]. pose proof (erase_addr_sublist ape_adr a (m_peers_anchor p)) as Hs.
  split; [exact Hw|]. split; [exact Hg|]. split; [by eapply sublist_container|]. split; [|done].
  rewrite Forall_forall in Haa. apply Forall_forall. intros x Hx. apply Haa. by eapply sublist_elem_of.
Qed.

(** The operations that change the lists. *)
Inductive peerlist_step : PeerlistManager -> PeerlistManager -> Prop :=
| step_white e p : peerlist_step p (append_with_peer_white e p)
| step_gray e p : peerlist_step p (append_with_peer_gray e p)
| step_anchor e p : peerlist_step p (append_with_peer_anchor e p)
| step_seen id a now p : peerlist_step p (set_peer_just_seen id a now p)
| step_remote l t now p : peerlist_step p (handle_remote_peerlist l t now p).2
| step_take_anchors p : peerlist_step p (get_and_empty_anchor_peerlist p).2
| step_remove_anchor a p : peerlist_step p (remove_from_peer_anchor a p).

(** Whatever peers tell us, the lists of peers stay in order: starting from
    empty lists and after any sequence of additions, merges of lists from other
    nodes and removals, every list has each address once and is ordered by time,
    the white list has at most 1000 and the gray list at most 5000 entries, no
    address is in both, and no list has a loopback address or, unless they are
    allowed, a private one. *)
Theorem peerlists_invariant (allow_local : bool) (p : PeerlistManager) :
  rtc peerlist_step (PeerlistManager_new allow_local) p -> peerlists_ok p.
Proof.
  intros Hr. assert (H0 : peerlists_ok (PeerlistManager_new allow_local)).
  { repeat split; try constructor; try (by unfold P2P_LOCAL_WHITE_PEERLIST_LIMIT, P2P_LOCAL_GRAY_PEERLIST_LIMIT).
    intros a Hin. by apply not_elem_of_nil in Hin. }
  induction Hr as [|p q r Hs _ IH]; [done|]. apply IH. clear IH.
  destruct Hs as [e p|e p|e p|id a now p|l t now p|p|a p]; [by apply white_ok|by apply gray_ok|by apply anchor_ok
    |by apply white_ok| | |by apply remove_anchor_ok].
  - unfold handle_remote_peerlist. case_match; [by apply merge_ok|done].
  - destruct H0 as (Hw & Hg & Han & Haa & Hnw & Hng & Hd). cbn.
    repeat (split; [assumption|]). split; [split; constructor|]. split; [constructor|]. done.
Qed.

Lemma peerlists_invariant_witness :
  peerlists_ok (append_with_peer_white
    {| pe_adr := {| na_ip := 16843009; na_port := 38999 |}; pe_id := 5; pe_last_seen := 100 |}
    (PeerlistManager_new false)).
Proof.
  apply (peerlists_invariant false). eapply rtc_l; [apply step_white|apply rtc_refl].
Defined.

(** ** Peers given to others *)

Lemma head_loop_size l cnt depth : 0 <= cnt <= depth + 1 -> depth < 2 ^ 32 - 2 ->
  zlen (get_peerlist_head_loop l cnt depth) <= depth + 2 - cnt.
Proof.
  revert cnt. induction l as [|e l IH]; intros cnt Hc Hd; cbn [get_peerlist_head_loop]; [rewrite zlen_nil; lia|].
  case_match; [by apply IH|]. destruct (Z.ltb_spec depth cnt); [change (zlen [e]) with 1; lia|].
  rewrite zlen_cons, u32_small by (unfold is_u32; lia). specialize (IH (cnt + 1) ltac:(lia) Hd). lia.
Qed.

(** A node gives away two peers more than the depth it was asked for. *)
Theorem peerlist_head_size p depth : 0 <= depth < 2 ^ 32 - 2 ->
  zlen (get_peerlist_head p depth) <= depth + 2.
Proof. intros Hd. pose proof (head_loop_size (rev (m_peers_white p)) 0 depth). unfold get_peerlist_head. lia. Qed.

Theorem peerlist_head_two_more :
  let peer n := {| pe_adr := {| na_ip := n; na_port := 1 |}; pe_id := 1; pe_last_seen := n |} in
  let p := with_white [peer 1; peer 2; peer 3; peer 4] (PeerlistManager_new false) in
  get_peerlist_head p 1 = [peer 4; peer 3; peer 2].
Proof. reflexivity. Qed.

(** The draw of a peer to connect to stays in the list. *)
Lemma random_index_in_range max_index rand : 0 <= max_index <= 20 -> 0 <= rand ->
  0 <= get_random_index_with_fixed_probability max_index rand <= max_index.
Proof.
  intros Hm Hr. unfold get_random_index_with_fixed_probability. case_match; [lia|]. zbool.
  pose proof (Z.mod_pos_bound rand (max_index + 1) ltac:(lia)) as Hx. set (x := rand mod (max_index + 1)) in *.
  cbv zeta. rewrite !u64_small by (rewrite ?u64_small; unfold is_u64; nia).
  split; [apply Z.div_pos; nia|]. apply Z.div_le_upper_bound; [nia|].
  assert (x * x <= max_index * max_index) by nia. nia.
Qed.

(** ** Hosts that fail *)

(** A host that fails too often is shut out for a day: the tenth failure
    puts every other connection of the host into the shutdown state and, for
    86400 seconds and not one more, the host is refused; after that it is
    allowed again, with half of the failures still on its account. *)
Theorem failing_host_blocked (ip now : Z) (h : NodeServer) :
  m_host_fails_score h !! ip = Some 9 -> 0 <= now < 2 ^ 62 ->
  let h' := add_host_fail ip now h in
  (forall id c, m_connections h' !! id = Some c -> m_remote_ip c = ip -> m_state c = state_shutdown) /\
  (forall t, t < now + P2P_IP_BLOCKTIME -> is_remote_host_allowed ip t h' = (false, h')) /\
  (forall t, now + P2P_IP_BLOCKTIME <= t -> exists h'', is_remote_host_allowed ip t h' = (true, h'') /\
     m_blocked_hosts h'' !! ip = None /\ m_host_fails_score h'' !! ip = Some 5).
Proof.
  intros E9 Hn. unfold add_host_fail. rewrite E9.
  change (P2P_IP_FAILS_BEFORE_BLOCK <=? u64 (default 0 (Some 9) + 1)) with true. cbv iota zeta.
  unfold block_host, is_remote_host_allowed. cbn [m_connections m_blocked_hosts].
  assert (Ei : i64 (now + P2P_IP_BLOCKTIME) = now + P2P_IP_BLOCKTIME)
    by (apply i64_small; unfold is_i64, P2P_IP_BLOCKTIME; lia).
  split; [|split].
  - intros id c Ec Hip. rewrite lookup_fmap in Ec. destruct (m_connections h !! id) as [c0|]; [|done].
    cbn in Ec. injection Ec as <-. destruct (Z.eqb_spec (m_remote_ip c0) ip); [done|]. done.
  - intros t Ht. rewrite lookup_insert_eq, Ei. destruct (Z.leb_spec (now + P2P_IP_BLOCKTIME) t); [lia|done].
  - intros t Ht. rewrite lookup_insert_eq, Ei. destruct (Z.leb_spec (now + P2P_IP_BLOCKTIME) t); [|lia].
    unfold unblock_host. cbn [m_blocked_hosts]. rewrite lookup_insert_eq. eexists. split; [reflexivity|].
    cbn [m_blocked_hosts m_host_fails_score]. rewrite lookup_delete_eq, lookup_insert_eq. done.
Qed.

Lemma failing_host_blocked_witness :
  let h := {| m_peerlist := PeerlistManager_new false; m_blocked_hosts := ∅;
              m_host_fails_score := {[ 7 := 9 ]}; m_connections := ∅ |} in
  let h' := add_host_fail 7 1000 h in
  (forall id c, m_connections h' !! id = Some c -> m_remote_ip c = 7 -> m_state c = state_shutdown) /\
  (forall t, t < 1000 + P2P_IP_BLOCKTIME -> is_remote_host_allowed 7 t h' = (false, h')) /\
  (forall t, 1000 + P2P_IP_BLOCKTIME <= t -> exists h'', is_remote_host_allowed 7 t h' = (true, h'') /\
     m_blocked_hosts h'' !! 7 = None /\ m_host_fails_score h'' !! 7 = Some 5).
Proof. intros h. apply (failing_host_blocked 7 1000 h); [reflexivity|lia]. Defined.
