(* ===== verification/ProtocolHandler.v ===== *)
(** The protocol between nodes: [CryptoNoteProtocol/CryptoNoteProtocolHandler.cpp]
    and the commands of [P2p/NetNode.cpp], the whole way from a command that a
    connection has read to the calls of the core and the messages queued in
    answer.

    The core is the interface [ICore].  A handler works on a state that has the
    connection whose command it handles as [context]; [m_connections] of the node
    has the others.  All connections are served by contexts of one dispatcher:
    they interleave only where a handler waits, which is [dispatcher_yield]. *)
From S2P Require Import Prelude CryptoNote Varint Stream StringTools Serializer Serialization Currency.
From S2P Require Import TreeHash Blockchain TransactionPool ChainQueries.
From S2P Require Import KVBinary P2pProtocol Levin PeerList.

(** * The core *)

(** [ICore]: the operations the handler uses, on a core [C].  Arguments that the
    source fills in by reference are results. *)
Class ICore (C : Type) := {
  have_block : list Z -> ser C bool;
  get_blockchain_top : ser C (Z * list Z);
  buildSparseChain : ser C (list (list Z));
  isInCheckpointZone : Z -> ser C bool;
  getBlockIdByHeight : Z -> ser C (list Z);
  core_findBlockchainSupplement : list (list Z) -> Z -> ser C (list (list Z) * Z * Z);
  handle_get_objects : NOTIFY_REQUEST_GET_OBJECTS_request -> ser C (bool * NOTIFY_RESPONSE_GET_OBJECTS_request);
  getPoolTransactions : ser C (list Transaction);
  getPoolChanges : list (list Z) -> ser C (list Transaction * list (list Z));
  handle_incoming_tx : list Z -> tx_verification_context -> bool -> ser C tx_verification_context;
  handle_incoming_block_blob :
    list Z -> block_verification_context -> bool -> bool -> ser C block_verification_context;
  handle_incoming_block :
    Block -> block_verification_context -> bool -> bool -> ser C block_verification_context;
  pause_mining : ser C unit;
  update_block_template_and_resume_mining : ser C unit;
  on_synchronized : ser C unit;
}.

(** * The state *)

(** Notifications of [ICryptoNoteProtocolObserver]. *)
Inductive protocol_event :=
| peerCountUpdated (count : Z)
| lastKnownBlockHeightUpdated (height : Z)
| blockchainSynchronized (height : Z).

Record CryptoNoteProtocolHandler (C : Type) := {
  m_core : C;
  m_p2p : NodeServer;
  context : P2pConnectionContext;
  m_synchronized : bool;
  m_stop : bool;
  m_observedHeight : Z;
  m_blockchainHeight : Z;
  m_peersCount : Z;
  (* the tasks given to [remoteSpawn] by [externalRelayNotifyToAll] *)
  m_relays : list (Z * list Z * option (list Z));
  m_notified : list protocol_event;
}.
Arguments m_core {C} _.
Arguments m_p2p {C} _.
Arguments context {C} _.
Arguments m_synchronized {C} _.
Arguments m_stop {C} _.
Arguments m_observedHeight {C} _.
Arguments m_blockchainHeight {C} _.
Arguments m_peersCount {C} _.
Arguments m_relays {C} _.
Arguments m_notified {C} _.

(** The members of [NodeServer] and its configuration that do not change. *)
Record NodeConfig := {
  m_peer_id : Z; m_network_id : list Z; m_hide_my_port : bool; m_external_port : Z; m_listeningPort : Z;
}.

(** [P2PProtocolVersion] and the versions of [CryptoNoteConfig.h]. *)
Definition P2PProtocolVersion_V1 : Z := 1.
Definition P2P_CURRENT_VERSION : Z := 2.
Definition P2P_MINIMUM_VERSION : Z := 1.

Definition NOTIFY_NEW_BLOCK_ID : Z := 2001.
Definition NOTIFY_NEW_TRANSACTIONS_ID : Z := 2002.
Definition NOTIFY_REQUEST_GET_OBJECTS_ID : Z := 2003.
Definition NOTIFY_RESPONSE_GET_OBJECTS_ID : Z := 2004.
Definition NOTIFY_REQUEST_CHAIN_ID : Z := 2006.
Definition NOTIFY_RESPONSE_CHAIN_ENTRY_ID : Z := 2007.
Definition NOTIFY_REQUEST_TX_POOL_ID : Z := 2008.

Record parsed_block_entry := { pbe_block : Block; pbe_txs : list (list Z) }.

Section Handler.
Context {C : Type} {core : ICore C} {B : BuildConfig}.
Variable cn_fast_hash : list Z -> list Z.
Variable m_currency : Currency.

Local Notation H := (CryptoNoteProtocolHandler C).
Implicit Types h : H.

(** What the other connections do while a handler lets them run. *)
Variable dispatcher_yield : ser H unit.

(** [time(NULL)] *)
Variable now : Z.

(** ** Access to the state *)

Definition with_context (f : P2pConnectionContext -> P2pConnectionContext) : ser H unit := fun h =>
  Ok (tt, {| m_core := m_core h; m_p2p := m_p2p h; context := f (context h); m_synchronized := m_synchronized h;
             m_stop := m_stop h; m_observedHeight := m_observedHeight h; m_blockchainHeight := m_blockchainHeight h;
             m_peersCount := m_peersCount h; m_relays := m_relays h; m_notified := m_notified h |}).
Definition with_core (c : C) h : H :=
  {| m_core := c; m_p2p := m_p2p h; context := context h; m_synchronized := m_synchronized h;
     m_stop := m_stop h; m_observedHeight := m_observedHeight h; m_blockchainHeight := m_blockchainHeight h;
     m_peersCount := m_peersCount h; m_relays := m_relays h; m_notified := m_notified h |}.
Definition with_node (f : NodeServer -> NodeServer) : ser H unit := fun h =>
  Ok (tt, {| m_core := m_core h; m_p2p := f (m_p2p h); context := context h; m_synchronized := m_synchronized h;
             m_stop := m_stop h; m_observedHeight := m_observedHeight h; m_blockchainHeight := m_blockchainHeight h;
             m_peersCount := m_peersCount h; m_relays := m_relays h; m_notified := m_notified h |}).
Definition with_observed (o b : Z) : ser H unit := fun h =>
  Ok (tt, {| m_core := m_core h; m_p2p := m_p2p h; context := context h; m_synchronized := m_synchronized h;
             m_stop := m_stop h; m_observedHeight := o; m_blockchainHeight := b;
             m_peersCount := m_peersCount h; m_relays := m_relays h; m_notified := m_notified h |}).
Definition with_peersCount (n : Z) : ser H unit := fun h =>
  Ok (tt, {| m_core := m_core h; m_p2p := m_p2p h; context := context h; m_synchronized := m_synchronized h;
             m_stop := m_stop h; m_observedHeight := m_observedHeight h; m_blockchainHeight := m_blockchainHeight h;
             m_peersCount := n; m_relays := m_relays h; m_notified := m_notified h |}).
Definition set_synchronized : ser H unit := fun h =>
  Ok (tt, {| m_core := m_core h; m_p2p := m_p2p h; context := context h; m_synchronized := true;
             m_stop := m_stop h; m_observedHeight := m_observedHeight h; m_blockchainHeight := m_blockchainHeight h;
             m_peersCount := m_peersCount h; m_relays := m_relays h; m_notified := m_notified h |}).

(** [stop()]. *)
Definition stop : ser H unit := fun h =>
  Ok (tt, {| m_core := m_core h; m_p2p := m_p2p h; context := context h; m_synchronized := m_synchronized h;
             m_stop := true; m_observedHeight := m_observedHeight h; m_blockchainHeight := m_blockchainHeight h;
             m_peersCount := m_peersCount h; m_relays := m_relays h; m_notified := m_notified h |}).

(** [m_observerManager.notify] *)
Definition notify_observers (e : protocol_event) : ser H unit := fun h =>
  Ok (tt, {| m_core := m_core h; m_p2p := m_p2p h; context := context h; m_synchronized := m_synchronized h;
             m_stop := m_stop h; m_observedHeight := m_observedHeight h; m_blockchainHeight := m_blockchainHeight h;
             m_peersCount := m_peersCount h; m_relays := m_relays h; m_notified := m_notified h ++ [e] |}).

(** [externalRelayNotifyToAll] *)
Definition externalRelayNotifyToAll (command : Z) (data : list Z) (exclude : option (list Z)) : ser H unit :=
  fun h =>
  Ok (tt, {| m_core := m_core h; m_p2p := m_p2p h; context := context h; m_synchronized := m_synchronized h;
             m_stop := m_stop h; m_observedHeight := m_observedHeight h; m_blockchainHeight := m_blockchainHeight h;
             m_peersCount := m_peersCount h; m_relays := m_relays h ++ [(command, data, exclude)];
             m_notified := m_notified h |}).

Definition get {A} (f : H -> A) : ser H A := fun h => Ok (f h, h).
Definition ask {A} (f : P2pConnectionContext -> A) : ser H A := get (fun h => f (context h)).
Definition liftO {A} (m : outcome A) : ser H A := fun h => a ← m; Ok (a, h).
Definition on_core {A} (m : ser C A) : ser H A := fun h =>
  '(a, c) ← m (m_core h); Ok (a, with_core c h).

Definition set_m_state (st : connection_state) : ser H unit := with_context (set_state st).

(** [m_p2p->drop_connection(context, add_fail)] *)
Definition p2p_drop_connection (add_fail : bool) : ser H unit :=
  ctx ← ask id;
  node ← get m_p2p;
  let '(ctx, node) := drop_connection now add_fail ctx node in
  _ ← with_context (fun _ => ctx);
  with_node (fun _ => node).

(** [invoke_notify_to_peer]: the connection of a command is found, since it is
    erased only after its last command. *)
Definition invoke_notify_to_peer (command : Z) (buffer : list Z) : ser H bool :=
  _ ← with_context (fun c =>
        (pushMessage {| pm_type := NOTIFY; pm_command := command; pm_buffer := buffer; pm_returnCode := 0 |} c).2);
  mret true.

Definition post_notify {A} (f : kv_struct A) (ID : Z) (arg : A) : ser H bool :=
  buffer ← liftO (encode f arg);
  invoke_notify_to_peer ID buffer.

Definition relay_post_notify {A} (f : kv_struct A) (ID : Z) (arg : A) (exclude : option (list Z)) : ser H unit :=
  buffer ← liftO (encode f arg);
  externalRelayNotifyToAll ID buffer exclude.

Definition relay_block (arg : NOTIFY_NEW_BLOCK_request) : ser H unit :=
  buf ← liftO (encode serialize_NOTIFY_NEW_BLOCK_request arg);
  externalRelayNotifyToAll NOTIFY_NEW_BLOCK_ID buf None.
Definition relay_transactions (arg : NOTIFY_NEW_TRANSACTIONS_request) : ser H unit :=
  buf ← liftO (encode serialize_NOTIFY_NEW_TRANSACTIONS_request arg);
  externalRelayNotifyToAll NOTIFY_NEW_TRANSACTIONS_ID buf None.

(** ** Heights of the peers *)

Definition get_current_blockchain_height : ser H Z :=
  '(height, _) ← on_core get_blockchain_top; mret height.

Definition recalculateMaxObservedHeight : ser H unit :=
  h ← get id;
  let peerHeight := foldr (fun kv m =>
        if bool_decide (m_connection_id kv.2 = m_connection_id (context h)) then m
        else Z.max m (m_remote_blockchain_height kv.2)) 0 (map_to_list (m_connections (m_p2p h))) in
  localHeight ← get_current_blockchain_height;
  let observed := if bool_decide (m_state (context h) = state_normal) then localHeight
                  else Z.max peerHeight (u32 (localHeight + 1)) in
  with_observed observed (m_blockchainHeight h).

Definition updateObservedHeight (peerHeight : Z) : ser H unit :=
  h ← get id;
  let height := m_observedHeight h in
  let remote := m_remote_blockchain_height (context h) in
  _ ← (if negb (remote =? 0) && (m_last_response_height (context h) <=? u32 (remote - 1))
       then with_observed (u32 (remote - 1)) (m_blockchainHeight h)
       else if remote <? peerHeight
       then with_observed (Z.max height peerHeight) (m_blockchainHeight h)
       else if negb (peerHeight =? remote) && (remote =? height)
       then recalculateMaxObservedHeight
       else mret tt);
  observed ← get m_observedHeight;
  top ← get m_blockchainHeight;
  _ ← (if top <? peerHeight then with_observed observed peerHeight else mret tt);
  if negb (observed =? height) then notify_observers (lastKnownBlockHeightUpdated observed) else mret tt.

Definition onConnectionClosed : ser H unit :=
  prevHeight ← get m_observedHeight;
  _ ← recalculateMaxObservedHeight;
  observed ← get m_observedHeight;
  _ ← (if negb (prevHeight =? observed) then notify_observers (lastKnownBlockHeightUpdated observed) else mret tt);
  st ← ask m_state;
  if bool_decide (st = state_befor_handshake) then mret tt else
  n ← get m_peersCount;
  _ ← with_peersCount (u64 (n - 1));
  notify_observers (peerCountUpdated (u64 (n - 1))).

(** ** Synchronization with a peer *)

Definition getObjectHash_tx (tx : Transaction) : outcome (list Z) :=
  '(_, hash, _) ← getObjectHash cn_fast_hash (@serialize_Transaction) tx; Ok hash.

Fixpoint map_outcome {A D} (f : A -> outcome D) (l : list A) : outcome (list D) :=
  match l with
  | [] => Ok []
  | x :: l => y ← f x; ys ← map_outcome f l; Ok (y :: ys)
  end.

Definition requestMissingPoolTransactions : ser H unit :=
  ver ← ask ctx_version;
  if ver <? P2PProtocolVersion_V1 then mret tt else
  poolTxs ← on_core getPoolTransactions;
  txs ← liftO (map_outcome getObjectHash_tx poolTxs);
  _ ← post_notify serialize_NOTIFY_REQUEST_TX_POOL_request NOTIFY_REQUEST_TX_POOL_ID {| tp_txs := txs |};
  mret tt.

(** [compare_exchange_strong] on [m_synchronized]. *)
Definition on_connection_synchronized : ser H bool :=
  done ← get m_synchronized;
  if done : bool then mret true else
  _ ← set_synchronized;
  _ ← on_core on_synchronized;
  height ← get_current_blockchain_height;
  _ ← notify_observers (blockchainSynchronized height);
  mret true.

Definition request_chain : ser H unit :=
  ids ← on_core buildSparseChain;
  _ ← post_notify serialize_NOTIFY_REQUEST_CHAIN_request NOTIFY_REQUEST_CHAIN_ID {| rc_block_ids := ids |};
  mret tt.

Definition start_sync : ser H bool :=
  ctx ← ask id;
  if negb (bool_decide (m_state ctx = state_synchronizing)) then mret true else
  _ ← liftO (massert (bool_decide (m_needed_objects ctx = [])));
  _ ← liftO (massert (bool_decide (m_requested_objects ctx = ∅)));
  _ ← request_chain;
  mret true.

(** The [while] loop over [m_needed_objects]: the blocks asked for, and what is
    left in the list. *)
Fixpoint request_loop (check_having_blocks : bool) (needed : list (list Z)) (count : Z) (blocks : list (list Z))
  : ser H (list (list Z) * list (list Z)) :=
  match needed with
  | [] => mret (blocks, [])
  | it :: rest =>
      if count <? BLOCKS_SYNCHRONIZING_DEFAULT_COUNT then
        skip ← (if check_having_blocks then on_core (have_block it) else mret false);
        if skip : bool then request_loop check_having_blocks rest count blocks
        else request_loop check_having_blocks rest (count + 1) (blocks ++ [it])
      else mret (blocks, needed)
  end.

Definition request_missing_objects (check_having_blocks : bool) : ser H bool :=
  ctx ← ask id;
  match m_needed_objects ctx with
  | _ :: _ =>
      '(blocks, rest) ← request_loop check_having_blocks (m_needed_objects ctx) 0 [];
      _ ← with_context (set_objects rest (list_to_set blocks ∪ m_requested_objects ctx));
      _ ← post_notify serialize_NOTIFY_REQUEST_GET_OBJECTS_request NOTIFY_REQUEST_GET_OBJECTS_ID
            {| rgo_txs := []; rgo_blocks := blocks |};
      mret true
  | [] =>
      if m_last_response_height ctx <? u32 (m_remote_blockchain_height ctx - 1) then
        _ ← request_chain; mret true
      else if negb ((m_last_response_height ctx =? u32 (m_remote_blockchain_height ctx - 1)) &&
                    bool_decide (m_requested_objects ctx = ∅)) then mret false
      else
        _ ← requestMissingPoolTransactions;
        _ ← set_m_state state_normal;
        _ ← on_connection_synchronized;
        mret true
  end.

(** [process_payload_sync_data]: after [drop_connection] the function goes on. *)
Definition process_payload_sync_data (hshd : CORE_SYNC_DATA) (is_initial : bool) : ser H bool :=
  st ← ask m_state;
  if bool_decide (st = state_befor_handshake) && negb is_initial then mret true else
  _ ← (if bool_decide (st = state_synchronizing) then mret tt else
       have ← on_core (have_block (top_id hshd));
       if have : bool then
         if is_initial then
           _ ← on_connection_synchronized; set_m_state state_pool_sync_required
         else set_m_state state_normal
       else
         height ← get_current_blockchain_height;
         let diff := csd_current_height hshd - height in
         zone ← (if (diff <? 0) && (10 <? Z.abs diff)
                 then on_core (isInCheckpointZone (csd_current_height hshd)) else mret false);
         _ ← (if zone : bool then p2p_drop_connection true else mret tt);
         set_m_state state_sync_required);
  _ ← updateObservedHeight (csd_current_height hshd);
  _ ← with_context (fun c => set_heights (csd_current_height hshd) (m_last_response_height c) c);
  if is_initial then
    n ← get m_peersCount;
    _ ← with_peersCount (u64 (n + 1));
    _ ← notify_observers (peerCountUpdated (u64 (n + 1)));
    mret true
  else mret true.

Definition get_payload_sync_data : ser H CORE_SYNC_DATA :=
  '(current_height, top) ← on_core get_blockchain_top;
  mret {| csd_current_height := u32 (current_height + 1); top_id := top |}.

(** ** Handlers of the notifications; [1] is what they return *)

Fixpoint new_block_txs (txs : list (list Z)) : ser H bool :=
  match txs with
  | [] => mret true
  | tx :: txs =>
      tvc ← on_core (handle_incoming_tx tx no_tvc true);
      if tvc_verification_failed tvc then _ ← p2p_drop_connection true; mret false
      else new_block_txs txs
  end.

Definition handle_notify_new_block (arg : NOTIFY_NEW_BLOCK_request) : ser H Z :=
  _ ← updateObservedHeight (nb_current_blockchain_height arg);
  _ ← with_context (fun c => set_heights (nb_current_blockchain_height arg) (m_last_response_height c) c);
  st ← ask m_state;
  if negb (bool_decide (st = state_normal)) then mret 1 else
  good ← new_block_txs (bce_txs (nb_b arg));
  if negb good then mret 1 else
  bvc ← on_core (handle_incoming_block_blob (bce_block (nb_b arg)) no_bvc true false);
  if m_verification_failed bvc then _ ← p2p_drop_connection true; mret 1
  else if m_added_to_main_chain bvc then
    id ← ask m_connection_id;
    _ ← relay_post_notify serialize_NOTIFY_NEW_BLOCK_request NOTIFY_NEW_BLOCK_ID
          {| nb_b := nb_b arg; nb_current_blockchain_height := nb_current_blockchain_height arg;
             nb_hop := u32 (nb_hop arg + 1) |} (Some id);
    _ ← (if m_switched_to_alt_chain bvc then requestMissingPoolTransactions else mret tt);
    mret 1
  else if m_marked_as_orphaned bvc then
    _ ← set_m_state state_synchronizing; _ ← request_chain; mret 1
  else mret 1.

Fixpoint new_transactions_loop (txs : list (list Z)) : ser H (list (list Z)) :=
  match txs with
  | [] => mret []
  | tx :: txs =>
      tvc ← on_core (handle_incoming_tx tx no_tvc false);
      rest ← new_transactions_loop txs;
      mret (if negb (tvc_verification_failed tvc) && tvc_should_be_relayed tvc then tx :: rest else rest)
  end.

Definition handle_notify_new_transactions (arg : NOTIFY_NEW_TRANSACTIONS_request) : ser H Z :=
  st ← ask m_state;
  if negb (bool_decide (st = state_normal)) then mret 1 else
  txs ← new_transactions_loop (nt_txs arg);
  id ← ask m_connection_id;
  _ ← (match txs with
       | [] => mret tt
       | _ => relay_post_notify serialize_NOTIFY_NEW_TRANSACTIONS_request NOTIFY_NEW_TRANSACTIONS_ID
                {| nt_txs := txs |} (Some id)
       end);
  mret 1.

Definition handle_request_get_objects (arg : NOTIFY_REQUEST_GET_OBJECTS_request) : ser H Z :=
  '(good, rsp) ← on_core (handle_get_objects arg);
  _ ← (if good : bool then mret tt else set_m_state state_shutdown);
  _ ← post_notify serialize_NOTIFY_RESPONSE_GET_OBJECTS_request NOTIFY_RESPONSE_GET_OBJECTS_ID rsp;
  mret 1.

Definition empty_block : Block := {|
  header := {| majorVersion := 0; minorVersion := 0; nonce := 0; timestamp := 0; previousBlockHash := repeat 0 32 |};
  baseTransaction := {|
    prefix := {| CryptoNote.version := 0; unlockTime := 0; inputs := []; outputs := []; extra := [] |};
    signatures := [] |};
  transactionHashes := [] |}.

(** The loop over the received blocks: [None] when the handler returns from it. *)
Fixpoint parse_blocks (blocks : list block_complete_entry) (count : Z) (block_hashes : list (list Z))
    (parsed_blocks : list parsed_block_entry) : ser H (option (list (list Z) * list parsed_block_entry)) :=
  match blocks with
  | [] => mret (Some (block_hashes, parsed_blocks))
  | block_entry :: blocks =>
      let count := count + 1 in
      if maxBlockBlobSize m_currency <? zlen (bce_block block_entry)
      then _ ← set_m_state state_shutdown; mret None else
      parsed ← liftO (fromBinaryArray (@serialize_Block) empty_block (bce_block block_entry));
      match parsed with
      | None => _ ← set_m_state state_shutdown; mret None
      | Some b =>
          blockHash ← liftO (get_block_hash cn_fast_hash b);
          have ← (if count =? 2 then on_core (have_block blockHash) else mret false);
          if have : bool then
            _ ← with_context (fun c => set_objects [] ∅ (set_state state_idle c)); mret None
          else
          requested ← ask m_requested_objects;
          if negb (bool_decide (blockHash ∈ requested)) then _ ← set_m_state state_shutdown; mret None
          else if negb (zlen (transactionHashes b) =? zlen (bce_txs block_entry))
          then _ ← set_m_state state_shutdown; mret None
          else
            _ ← with_context (fun c => set_objects (m_needed_objects c) (m_requested_objects c ∖ {[blockHash]}) c);
            parse_blocks blocks count (block_hashes ++ [blockHash])
              (parsed_blocks ++ [{| pbe_block := b; pbe_txs := bce_txs block_entry |}])
      end
  end.

(** The number of blocks to dismiss: up to the one that is the top already. *)
Fixpoint dismiss_count (top : list Z) (block_hashes : list (list Z)) (dismiss : nat) : option nat :=
  match block_hashes with
  | [] => None
  | x :: l => if bool_decide (top = x) then Some dismiss else dismiss_count top l (S dismiss)
  end.

(** The transactions of a block: whether all were accepted. *)
Fixpoint process_txs (hashes txs : list (list Z)) : ser H bool :=
  match txs with
  | [] => mret true
  | transactionBinary :: txs =>
      match hashes with
      | [] => liftO Undefined
      | expected :: hashes =>
          if negb (bool_decide (cn_fast_hash transactionBinary = expected))
          then _ ← set_m_state state_shutdown; mret false
          else
            tvc ← on_core (handle_incoming_tx transactionBinary no_tvc true);
            if tvc_verification_failed tvc then _ ← set_m_state state_shutdown; mret false
            else process_txs hashes txs
      end
  end.

Fixpoint processObjects (blocks : list parsed_block_entry) : ser H Z :=
  match blocks with
  | [] => mret 0
  | block_entry :: blocks =>
      stopping ← get m_stop;
      if stopping : bool then mret 0 else
      good ← process_txs (transactionHashes (pbe_block block_entry)) (pbe_txs block_entry);
      if negb good then mret 1 else
      bvc ← on_core (handle_incoming_block (pbe_block block_entry) no_bvc false false);
      if m_verification_failed bvc then _ ← set_m_state state_shutdown; mret 1
      else if m_marked_as_orphaned bvc then _ ← set_m_state state_shutdown; mret 1
      else if m_already_exists bvc then
        _ ← with_context (fun c => set_objects [] ∅ (set_state state_idle c)); mret 1
      else
        _ ← dispatcher_yield;
        processObjects blocks
  end.

Definition handle_response_get_objects (arg : NOTIFY_RESPONSE_GET_OBJECTS_request) : ser H Z :=
  last ← ask m_last_response_height;
  if go_current_blockchain_height arg <? last then _ ← set_m_state state_shutdown; mret 1 else
  _ ← updateObservedHeight (go_current_blockchain_height arg);
  _ ← with_context (fun c => set_heights (go_current_blockchain_height arg) (m_last_response_height c) c);
  parsed ← parse_blocks (go_blocks arg) 0 [] [];
  match parsed with
  | None => mret 1
  | Some (block_hashes, parsed_blocks) =>
      requested ← ask m_requested_objects;
      if negb (bool_decide (requested = ∅)) then _ ← set_m_state state_shutdown; mret 1 else
      _ ← on_core pause_mining;
      '(_, top) ← on_core get_blockchain_top;
      let parsed_blocks := match dismiss_count top block_hashes 1 with
                           | Some n => drop n parsed_blocks | None => parsed_blocks end in
      result ← processObjects parsed_blocks;
      _ ← on_core update_block_template_and_resume_mining;
      if negb (result =? 0) then mret result else
      _ ← on_core get_blockchain_top;
      stopping ← get m_stop;
      st ← ask m_state;
      _ ← (if negb stopping && bool_decide (st = state_synchronizing)
           then _ ← request_missing_objects true; mret tt else mret tt);
      mret 1
  end.

Definition handle_request_chain (arg : NOTIFY_REQUEST_CHAIN_request) : ser H Z :=
  match last (rc_block_ids arg) with
  | None => _ ← set_m_state state_shutdown; mret 1
  | Some back =>
      genesis ← on_core (getBlockIdByHeight 0);
      if negb (bool_decide (back = genesis)) then _ ← set_m_state state_shutdown; mret 1 else
      '(ids, total_height, start_height) ←
        on_core (core_findBlockchainSupplement (rc_block_ids arg) BLOCKS_IDS_SYNCHRONIZING_DEFAULT_COUNT);
      _ ← post_notify serialize_NOTIFY_RESPONSE_CHAIN_ENTRY_request NOTIFY_RESPONSE_CHAIN_ENTRY_ID
            {| ce_start_height := start_height; ce_total_height := total_height; ce_m_block_ids := ids |};
      mret 1
  end.

Fixpoint unknown_ids (ids : list (list Z)) : ser H (list (list Z)) :=
  match ids with
  | [] => mret []
  | x :: ids =>
      have ← on_core (have_block x);
      rest ← unknown_ids ids;
      mret (if have : bool then rest else x :: rest)
  end.

Definition handle_response_chain_entry (arg : NOTIFY_RESPONSE_CHAIN_ENTRY_request) : ser H Z :=
  match ce_m_block_ids arg with
  | [] => _ ← set_m_state state_shutdown; mret 1
  | front :: _ =>
      have ← on_core (have_block front);
      if negb have then _ ← set_m_state state_shutdown; mret 1 else
      let last := u32 (ce_start_height arg + u32 (zlen (ce_m_block_ids arg)) - 1) in
      _ ← with_context (set_heights (ce_total_height arg) last);
      _ ← (if ce_total_height arg <? last then set_m_state state_shutdown else mret tt);
      unknown ← unknown_ids (ce_m_block_ids arg);
      _ ← with_context (fun c => set_objects (m_needed_objects c ++ unknown) (m_requested_objects c) c);
      good ← request_missing_objects false;
      _ ← (if good : bool then mret tt else p2p_drop_connection true);
      mret 1
  end.

(** [toBinaryArray(tx)], for the transactions of the pool, which were read and can
    be written; what a failed attempt leaves behind is not modelled. *)
Definition tx_blob (tx : Transaction) : outcome (list Z) :=
  r ← toBinaryArray (@serialize_Transaction) tx;
  Ok (default [] r).

Definition handleRequestTxPool (arg : NOTIFY_REQUEST_TX_POOL_request) : ser H Z :=
  '(added, _) ← on_core (getPoolChanges (tp_txs arg));
  match added with
  | [] => mret 1
  | _ =>
      txs ← liftO (map_outcome tx_blob added);
      _ ← post_notify serialize_NOTIFY_NEW_TRANSACTIONS_request NOTIFY_NEW_TRANSACTIONS_ID {| nt_txs := txs |};
      mret 1
  end.

(** ** Dispatch *)

Definition notifyAdaptor {Request} (f : kv_struct Request) (empty : Request) (handler : Request -> ser H Z)
    (reqBuf : list Z) : ser H Z :=
  req ← liftO (decode f empty reqBuf);
  match req with
  | None => ser_throw runtime_error
  | Some req => handler req
  end.

(** [handleCommand] of the protocol: the return code and whether the command is
    one of the protocol. *)
Definition protocol_handleCommand (command : Z) (data : list Z) : ser H (Z * bool) :=
  let handled m := ret ← m; mret (ret, true) in
  if command =? NOTIFY_NEW_BLOCK_ID then
    handled (notifyAdaptor serialize_NOTIFY_NEW_BLOCK_request
      {| nb_b := {| bce_block := []; bce_txs := [] |}; nb_current_blockchain_height := 0; nb_hop := 0 |}
      handle_notify_new_block data)
  else if command =? NOTIFY_NEW_TRANSACTIONS_ID then
    handled (notifyAdaptor serialize_NOTIFY_NEW_TRANSACTIONS_request {| nt_txs := [] |}
      handle_notify_new_transactions data)
  else if command =? NOTIFY_REQUEST_GET_OBJECTS_ID then
    handled (notifyAdaptor serialize_NOTIFY_REQUEST_GET_OBJECTS_request {| rgo_txs := []; rgo_blocks := [] |}
      handle_request_get_objects data)
  else if command =? NOTIFY_RESPONSE_GET_OBJECTS_ID then
    handled (notifyAdaptor serialize_NOTIFY_RESPONSE_GET_OBJECTS_request
      {| go_txs := []; go_blocks := []; go_missed_ids := []; go_current_blockchain_height := 0 |}
      handle_response_get_objects data)
  else if command =? NOTIFY_REQUEST_CHAIN_ID then
    handled (notifyAdaptor serialize_NOTIFY_REQUEST_CHAIN_request {| rc_block_ids := [] |}
      handle_request_chain data)
  else if command =? NOTIFY_RESPONSE_CHAIN_ENTRY_ID then
    handled (notifyAdaptor serialize_NOTIFY_RESPONSE_CHAIN_ENTRY_request
      {| ce_start_height := 0; ce_total_height := 0; ce_m_block_ids := [] |}
      handle_response_chain_entry data)
  else if command =? NOTIFY_REQUEST_TX_POOL_ID then
    handled (notifyAdaptor serialize_NOTIFY_REQUEST_TX_POOL_request {| tp_txs := [] |}
      handleRequestTxPool data)
  else mret (0, false).

(** ** The commands of [NodeServer] *)

Variable cfg : NodeConfig.

(** The response that [invoke] leaves after a ping of an address and port; none
    when connecting or the ping ends with an exception. *)
Variable back_ping : Z -> Z -> option COMMAND_PING.response.

Definition no_payload : CORE_SYNC_DATA := {| csd_current_height := 0; top_id := repeat 0 32 |}.
Definition no_node_data : basic_node_data :=
  {| network_id := repeat 0 16; bnd_version := 0; bnd_local_time := 0; my_port := 0; bnd_peer_id := 0 |}.

Definition get_local_node_data : basic_node_data :=
  {| network_id := m_network_id cfg; bnd_version := P2P_CURRENT_VERSION; bnd_local_time := u64 now;
     my_port := if m_hide_my_port cfg then 0
                else if negb (m_external_port cfg =? 0) then m_external_port cfg else m_listeningPort cfg;
     bnd_peer_id := m_peer_id cfg |}.

Definition with_peers (f : PeerlistManager -> PeerlistManager) : ser H unit :=
  with_node (fun n => with_peerlist (f (m_peerlist n)) n).

(** [try_ping] waits for the answer, so that other connections run. *)
Definition try_ping (node_data : basic_node_data) : ser H bool :=
  if my_port node_data =? 0 then mret false else
  ip ← ask m_remote_ip;
  allowed ← get (fun h => is_ip_allowed (m_peerlist (m_p2p h)) ip);
  if negb allowed then mret false else
  _ ← dispatcher_yield;
  mret (match back_ping ip (u16 (my_port node_data)) with
        | None => false
        | Some rsp => bool_decide (COMMAND_PING.status rsp = COMMAND_PING.PING_OK_RESPONSE_STATUS_TEXT) &&
                      (bnd_peer_id node_data =? COMMAND_PING.peer_id rsp)
        end).

Definition node_add_host_fail : ser H unit :=
  ip ← ask m_remote_ip; with_node (add_host_fail ip now).

Definition node_is_remote_host_allowed : ser H bool :=
  ip ← ask m_remote_ip;
  '(allowed, node) ← get (fun h => is_remote_host_allowed ip now (m_p2p h));
  _ ← with_node (fun _ => node);
  mret allowed.

Definition node_handle_remote_peerlist (peers : list PeerlistEntry) (local_time : Z) : ser H bool :=
  '(good, p) ← get (fun h => handle_remote_peerlist peers local_time now (m_peerlist (m_p2p h)));
  _ ← with_peers (fun _ => p);
  mret good.

Definition handle_timed_sync (arg : COMMAND_TIMED_SYNC.request) : ser H (Z * COMMAND_TIMED_SYNC.response) :=
  good ← process_payload_sync_data (COMMAND_TIMED_SYNC.payload_data arg) false;
  if negb good then
    _ ← set_m_state state_shutdown;
    mret (1, {| COMMAND_TIMED_SYNC.local_time := 0; COMMAND_TIMED_SYNC.r_payload_data := no_payload;
                COMMAND_TIMED_SYNC.local_peerlist := [] |})
  else
    peers ← get (fun h => get_peerlist_head (m_peerlist (m_p2p h)) P2P_DEFAULT_PEERS_IN_HANDSHAKE);
    payload ← get_payload_sync_data;
    mret (1, {| COMMAND_TIMED_SYNC.local_time := u64 now; COMMAND_TIMED_SYNC.r_payload_data := payload;
                COMMAND_TIMED_SYNC.local_peerlist := peers |}).

Definition refuse_handshake (fail : bool) : ser H (Z * COMMAND_HANDSHAKE.response) :=
  _ ← (if fail then node_add_host_fail else mret tt);
  _ ← set_m_state state_shutdown;
  mret (1, {| COMMAND_HANDSHAKE.r_node_data := no_node_data; COMMAND_HANDSHAKE.r_payload_data := no_payload;
              COMMAND_HANDSHAKE.local_peerlist := [] |}).

Definition handle_handshake (arg : COMMAND_HANDSHAKE.request) : ser H (Z * COMMAND_HANDSHAKE.response) :=
  let node_data := COMMAND_HANDSHAKE.node_data arg in
  _ ← with_context (fun c => set_identity (bnd_version node_data) (peerId c) c);
  allowed ← node_is_remote_host_allowed;
  if negb allowed then refuse_handshake false
  else if negb (bool_decide (network_id node_data = m_network_id cfg)) then refuse_handshake true
  else if bnd_version node_data <? P2P_MINIMUM_VERSION then refuse_handshake false
  else
  income ← ask m_is_income;
  if negb income then refuse_handshake true else
  peer ← ask peerId;
  if negb (peer =? 0) then refuse_handshake false else
  good ← process_payload_sync_data (COMMAND_HANDSHAKE.payload_data arg) true;
  if negb good then refuse_handshake false else
  _ ← with_context (fun c => set_identity (ctx_version c) (bnd_peer_id node_data) c);
  _ ← (if negb (bnd_peer_id node_data =? m_peer_id cfg) && negb (my_port node_data =? 0) then
         pinged ← try_ping node_data;
         if pinged : bool then
           ip ← ask m_remote_ip;
           with_peers (append_with_peer_white
             {| pe_adr := {| na_ip := ip; na_port := my_port node_data |}; pe_id := bnd_peer_id node_data;
                pe_last_seen := u64 now |})
         else mret tt
       else mret tt);
  peers ← get (fun h => get_peerlist_head (m_peerlist (m_p2p h)) P2P_DEFAULT_PEERS_IN_HANDSHAKE);
  payload ← get_payload_sync_data;
  mret (1, {| COMMAND_HANDSHAKE.r_node_data := get_local_node_data; COMMAND_HANDSHAKE.r_payload_data := payload;
              COMMAND_HANDSHAKE.local_peerlist := peers |}).

Definition handle_ping (arg : unit) : ser H (Z * COMMAND_PING.response) :=
  mret (1, {| COMMAND_PING.status := COMMAND_PING.PING_OK_RESPONSE_STATUS_TEXT;
              COMMAND_PING.peer_id := m_peer_id cfg |}).

(** [handleTimedSyncResponse] decodes into a response that is not initialised,
    [rsp]. *)
Definition handleTimedSyncResponse (rsp : COMMAND_TIMED_SYNC.response) (data : list Z) : ser H bool :=
  r ← liftO (decode COMMAND_TIMED_SYNC.serialize_response rsp data);
  match r with
  | None => mret false
  | Some rsp =>
      good ← node_handle_remote_peerlist (COMMAND_TIMED_SYNC.local_peerlist rsp)
               (i64 (COMMAND_TIMED_SYNC.local_time rsp));
      if negb good then mret false else
      ctx ← ask id;
      _ ← (if m_is_income ctx then mret tt
           else with_peers (set_peer_just_seen (peerId ctx)
                  {| na_ip := m_remote_ip ctx; na_port := m_remote_port ctx |} now));
      process_payload_sync_data (COMMAND_TIMED_SYNC.r_payload_data rsp) false
  end.

(** [NodeServer::handleCommand]: the return code, the response and whether the
    command was handled. *)
Definition handleCommand (rsp : COMMAND_TIMED_SYNC.response) (cmd : Command) : ser H (Z * list Z * bool) :=
  let handled (m : ser H (Z * list Z)) := '(ret, out) ← m; mret (ret, out, true) in
  if isResponse cmd && (command cmd =? COMMAND_TIMED_SYNC.ID) then
    good ← handleTimedSyncResponse rsp (buf cmd);
    _ ← (if good : bool then mret tt else set_m_state state_shutdown);
    mret (0, [], true)
  else if command cmd =? COMMAND_HANDSHAKE.ID then
    handled (invokeAdaptor COMMAND_HANDSHAKE.serialize_request COMMAND_HANDSHAKE.serialize_response
      {| COMMAND_HANDSHAKE.node_data := no_node_data; COMMAND_HANDSHAKE.payload_data := no_payload |}
      handle_handshake (buf cmd))
  else if command cmd =? COMMAND_TIMED_SYNC.ID then
    handled (invokeAdaptor COMMAND_TIMED_SYNC.serialize_request COMMAND_TIMED_SYNC.serialize_response
      {| COMMAND_TIMED_SYNC.payload_data := no_payload |} handle_timed_sync (buf cmd))
  else if command cmd =? COMMAND_PING.ID then
    handled (invokeAdaptor COMMAND_PING.serialize_request COMMAND_PING.serialize_response tt
      handle_ping (buf cmd))
  else
    '(ret, known) ← protocol_handleCommand (command cmd) (buf cmd);
    mret (ret, [], known).

Definition ERROR_CONNECTION_HANDLER_NOT_DEFINED : Z := -6.

(** The head of the loop of [connectionHandler]. *)
Definition connection_start : ser H unit :=
  st ← ask m_state;
  match st with
  | state_sync_required => _ ← set_m_state state_synchronizing; _ ← start_sync; mret tt
  | state_pool_sync_required => _ ← set_m_state state_normal; requestMissingPoolTransactions
  | _ => mret tt
  end.

(** The rest of it: whether the loop goes on. *)
Definition connection_command (rsp : COMMAND_TIMED_SYNC.response) (cmd : Command) : ser H bool :=
  '(retcode, response, handled) ← handleCommand rsp cmd;
  _ ← (if needReply cmd then
         let '(retcode, response) := if handled : bool then (retcode, response)
                                     else (ERROR_CONNECTION_HANDLER_NOT_DEFINED, []) in
         with_context (fun c => (pushMessage {| pm_type := REPLY; pm_command := command cmd;
           pm_buffer := response; pm_returnCode := retcode |} c).2)
       else mret tt);
  st ← ask m_state;
  mret (negb (bool_decide (st = state_shutdown))).

(** [on_connection_close] *)
Definition on_connection_close (m_stopEvent : bool) : ser H unit :=
  ctx ← ask id;
  _ ← (if negb m_stopEvent && negb (m_is_income ctx)
       then with_peers (remove_from_peer_anchor {| na_ip := m_remote_ip ctx; na_port := m_remote_port ctx |})
       else mret tt);
  onConnectionClosed.

(** The loop of [connectionHandler], for the commands that [readCommand] returns
    one after the other until the connection ends, each with the contents of the
    uninitialised response that it may be decoded into; other connections run
    while it waits for a command.  However the loop ends, by an exception too,
    the connection is then closed with [on_connection_close]. *)
Fixpoint connection_loop (cmds : list (Command * COMMAND_TIMED_SYNC.response)) : ser H unit :=
  _ ← connection_start;
  _ ← dispatcher_yield;
  match cmds with
  | [] => mret tt
  | (cmd, rsp) :: cmds =>
      go ← connection_command rsp cmd;
      if go : bool then connection_loop cmds else mret tt
  end.

(** [handshake] of a connection we opened; [rsp] is the uninitialised response. *)
Definition handshake {N : Type} `{IInputStream N, IOutputStream N} (rsp : COMMAND_HANDSHAKE.response)
    (just_take_peerlist : bool) (proto : N) : ser H (bool * N) :=
  payload ← get_payload_sync_data;
  '(r, proto) ← liftO (invoke COMMAND_HANDSHAKE.serialize_request COMMAND_HANDSHAKE.serialize_response
    COMMAND_HANDSHAKE.ID {| COMMAND_HANDSHAKE.node_data := get_local_node_data;
                            COMMAND_HANDSHAKE.payload_data := payload |} rsp proto);
  _ ← dispatcher_yield;
  match r with
  | None => mret (false, proto)
  | Some rsp =>
      let node_data := COMMAND_HANDSHAKE.r_node_data rsp in
      _ ← with_context (fun c => set_identity (bnd_version node_data) (peerId c) c);
      if negb (bool_decide (network_id node_data = m_network_id cfg)) then mret (false, proto)
      else if bnd_version node_data <? P2P_MINIMUM_VERSION then mret (false, proto)
      else
      good ← node_handle_remote_peerlist (COMMAND_HANDSHAKE.local_peerlist rsp) (i64 (bnd_local_time node_data));
      if negb good then _ ← node_add_host_fail; mret (false, proto)
      else if just_take_peerlist then mret (true, proto)
      else
      good ← process_payload_sync_data (COMMAND_HANDSHAKE.r_payload_data rsp) true;
      if negb good then mret (false, proto) else
      _ ← with_context (fun c => set_identity (ctx_version c) (bnd_peer_id node_data) c);
      ctx ← ask id;
      _ ← with_peers (set_peer_just_seen (bnd_peer_id node_data)
            {| na_ip := m_remote_ip ctx; na_port := m_remote_port ctx |} now);
      mret (negb (bnd_peer_id node_data =? m_peer_id cfg), proto)
  end.

(** [timedSync] *)
Definition timedSync : ser H bool :=
  payload ← get_payload_sync_data;
  cmdBuf ← liftO (encode COMMAND_TIMED_SYNC.serialize_request {| COMMAND_TIMED_SYNC.payload_data := payload |});
  _ ← with_node (timedSync_connections COMMAND_TIMED_SYNC.ID cmdBuf);
  mret true.
End Handler.

(** * What reaches the core *)

(** The calls that give the core something from the network. *)
Inductive core_call := IncomingTx (blob : list Z) | IncomingBlob (blob : list Z) | IncomingBlock (b : Block).

Section Logging.
Context {C : Type} {core : ICore C}.

Definition unlogged {A} (m : ser C A) : ser (C * list core_call) A := fun c =>
  '(a, c0) ← m c.1; Ok (a, (c0, c.2)).
Definition logged {A} (call : core_call) (m : ser C A) : ser (C * list core_call) A := fun c =>
  '(a, c0) ← m c.1; Ok (a, (c0, c.2 ++ [call])).

(** Any core, with a record of these calls. *)
Definition logging_core : ICore (C * list core_call) := {|
  have_block id := unlogged (have_block id);
  get_blockchain_top := unlogged get_blockchain_top;
  buildSparseChain := unlogged buildSparseChain;
  isInCheckpointZone n := unlogged (isInCheckpointZone n);
  getBlockIdByHeight n := unlogged (getBlockIdByHeight n);
  core_findBlockchainSupplement ids n := unlogged (core_findBlockchainSupplement ids n);
  handle_get_objects r := unlogged (handle_get_objects r);
  getPoolTransactions := unlogged getPoolTransactions;
  getPoolChanges ids := unlogged (getPoolChanges ids);
  handle_incoming_tx blob tvc keep := logged (IncomingTx blob) (handle_incoming_tx blob tvc keep);
  handle_incoming_block_blob blob bvc c r := logged (IncomingBlob blob) (handle_incoming_block_blob blob bvc c r);
  handle_incoming_block b bvc c r := logged (IncomingBlock b) (handle_incoming_block b bvc c r);
  pause_mining := unlogged pause_mining;
  update_block_template_and_resume_mining := unlogged update_block_template_and_resume_mining;
  on_synchronized := unlogged on_synchronized;
|}.
End Logging.

Section Solicited.
Context {C : Type} {core : ICore C} {B : BuildConfig}.
Variable cn_fast_hash : list Z -> list Z.
Variable m_currency : Currency.
Variable now : Z.
Local Existing Instance logging_core.
Local Notation H := (CryptoNoteProtocolHandler (C * list core_call)).
Implicit Types h : H.

Definition log h : list core_call := (m_core h).2.

(** Steps that leave a part of the state alone. *)
Definition keeps {X A} (f : H -> X) (m : ser H A) : Prop := forall h a h', m h = Ok (a, h') -> f h' = f h.

Lemma ser_bind_Ok {S A D} (m : ser S A) (f : A -> ser S D) s b s' :
  (m ≫= f) s = Ok (b, s') -> exists a s1, m s = Ok (a, s1) /\ f a s1 = Ok (b, s').
Proof. intros E. apply bind_Ok in E as ([a s1] & E1 & E2). by exists a, s1. Qed.

Section Keeps.
Context {X : Type} (p : H -> X).

Lemma keeps_bind {A D} (m : ser H A) (f : A -> ser H D) : keeps p m -> (forall a, keeps p (f a)) -> keeps p (m ≫= f).
Proof. intros Hm Hf h b h' (a & h1 & E1 & E2)%ser_bind_Ok. rewrite (Hf _ _ _ _ E2). by eapply Hm. Qed.
Lemma keeps_ret {A} (a : A) : keeps p (mret a).
Proof. intros h b h' [= _ <-]. done. Qed.
Lemma keeps_get {A} (f : H -> A) : keeps p (get f).
Proof. intros h a h' [= _ <-]. done. Qed.
Lemma keeps_liftO {A} (m : outcome A) : keeps p (liftO m).
Proof. intros h a h' E. by apply bind_Ok in E as (? & _ & [= _ <-]). Qed.
End Keeps.

Lemma log_on_core {A} (m : ser C A) : keeps log (on_core (unlogged m)).
Proof. intros h a h' E. apply bind_Ok in E as ([x c] & E & [= _ <-]). by apply bind_Ok in E as ([y c0] & _ & [= _ <-]). Qed.
Lemma context_on_core {A} (m : ser (C * list core_call) A) : keeps context (on_core m).
Proof. intros h a h' E. by apply bind_Ok in E as ([x c] & E & [= _ <-]). Qed.
Lemma log_context f : keeps log (with_context (C := C * list core_call) f).
Proof. intros h a h' [= _ <-]. done. Qed.
Lemma log_node f : keeps log (with_node (C := C * list core_call) f).
Proof. intros h a h' [= _ <-]. done. Qed.
Lemma log_observed o b : keeps log (with_observed (C := C * list core_call) o b).
Proof. intros h a h' [= _ <-]. done. Qed.
Lemma context_observed o b : keeps context (with_observed (C := C * list core_call) o b).
Proof. intros h a h' [= _ <-]. done. Qed.
Lemma log_notify e : keeps log (notify_observers (C := C * list core_call) e).
Proof. intros h a h' [= _ <-]. done. Qed.
Lemma context_notify e : keeps context (notify_observers (C := C * list core_call) e).
Proof. intros h a h' [= _ <-]. done. Qed.
Lemma log_synchronized : keeps log (set_synchronized (C := C * list core_call)).
Proof. intros h a h' [= _ <-]. done. Qed.

#[local] Hint Resolve keeps_ret keeps_get keeps_liftO log_context log_node log_observed context_observed
  log_notify context_notify log_synchronized context_on_core : quiet.
#[local] Hint Extern 1 (keeps log (on_core _)) => refine (log_on_core _) : quiet.

Ltac head_of m := match m with ?f _ => head_of f | _ => m end.
(** Goes through a handler down to these steps. *)
Ltac keep :=
  repeat (cbv beta zeta;
    match goal with
    | |- keeps _ (_ ≫= _) => apply keeps_bind; [|intros]
    | |- keeps _ (match ?x with _ => _ end) => destruct x
    | |- forall _, _ => intros
    | |- _ => solve [auto with quiet]
    | |- keeps _ ?m => let f := head_of m in unfold f
    end).

Lemma log_updateObservedHeight n : keeps log (updateObservedHeight n).
Proof. keep. Qed.
Lemma context_updateObservedHeight n : keeps context (updateObservedHeight n).
Proof. keep. Qed.
Lemma log_request_loop check needed count blocks : keeps log (request_loop check needed count blocks).
Proof. revert count blocks. induction needed as [|x needed IH]; intros count blocks; cbn [request_loop]; keep. Qed.
Lemma log_request_missing_objects check : keeps log (request_missing_objects cn_fast_hash check).
Proof. pose proof log_request_loop. keep. Qed.
Lemma log_parse_blocks blocks count hashes parsed : keeps log (parse_blocks cn_fast_hash m_currency blocks count hashes parsed).
Proof. revert count hashes parsed. induction blocks as [|e blocks IH]; intros count hashes parsed; cbn [parse_blocks]; keep. Qed.

(** ** The blocks of a response *)

Definition requested h : gset (list Z) := m_requested_objects (context h).
Definition hash_of (p : parsed_block_entry) : outcome (list Z) := get_block_hash cn_fast_hash (pbe_block p).

(** The blocks that pass were requested, and each one only once. *)
Lemma parse_blocks_spec blocks count hashes parsed h hashes' parsed' h' :
  parse_blocks cn_fast_hash m_currency blocks count hashes parsed h = Ok (Some (hashes', parsed'), h') ->
  exists new entries, hashes' = hashes ++ new /\ parsed' = parsed ++ entries /\
    Forall2 (fun id p => hash_of p = Ok id) new entries /\ NoDup new /\
    (forall id, id ∈ new -> id ∈ requested h) /\ requested h' = requested h ∖ list_to_set new.
Proof.
  revert count hashes parsed h. induction blocks as [|e blocks IH]; intros count hashes parsed h E; cbn [parse_blocks] in E.
  { injection E as <- <- <-. exists [], []. rewrite !app_nil_r. split_and!; [done|done|constructor|apply NoDup_nil_2|by intros id ?%elem_of_nil|unfold requested; cbn; set_solver]. }
  cbv zeta in E. destruct (_ <? _); [by apply ser_bind_Ok in E as (? & ? & _ & [=])|].
  apply ser_bind_Ok in E as (r & h1 & E1 & E). apply bind_Ok in E1 as (? & _ & [= -> <-]).
  destruct r as [b|]; [|by apply ser_bind_Ok in E as (? & ? & _ & [=])].
  apply ser_bind_Ok in E as (id & h2 & E2 & E). apply bind_Ok in E2 as (? & Eid & [= -> <-]).
  apply ser_bind_Ok in E as (have & h3 & E3 & E).
  assert (Ec : requested h3 = requested h).
  { unfold requested. f_equal. destruct (count + 1 =? 2); [by apply context_on_core in E3|by injection E3 as _ <-]. }
  destruct have; [by apply ser_bind_Ok in E as (? & ? & _ & [=])|].
  apply ser_bind_Ok in E as (req & h4 & [= <- <-] & E). fold (requested h3) in E. rewrite Ec in E.
  destruct (bool_decide (id ∈ requested h)) eqn:Er; cbn [negb] in E; [|by apply ser_bind_Ok in E as (? & ? & _ & [=])].
  apply bool_decide_eq_true in Er. destruct (zlen (transactionHashes b) =? zlen (bce_txs e)); cbn [negb] in E; [|by apply ser_bind_Ok in E as (? & ? & _ & [=])].
  apply ser_bind_Ok in E as (? & h5 & [= _ <-] & E). apply IH in E as (new & entries & -> & -> & HF & HN & Hin & Hreq).
  assert (E5 : forall x : gset (list Z), m_requested_objects (set_objects (m_needed_objects (context h3)) x (context h3)) = x) by done.
  unfold requested in Hin, Hreq. cbn [context] in Hin, Hreq. rewrite E5 in Hin, Hreq. fold (requested h3) in Hin, Hreq. rewrite Ec in Hin, Hreq.
  exists (id :: new), ({| pbe_block := b; pbe_txs := bce_txs e |} :: entries). rewrite <- !app_assoc. split_and!; try done.
  - by constructor.
  - constructor; [|done]. intros Hi. apply Hin in Hi. set_solver.
  - intros y [->|Hy]%elem_of_cons; [done|]. apply Hin in Hy. set_solver.
  - unfold requested. rewrite Hreq. cbn. set_solver.
Qed.

Definition block_of (c : core_call) : option Block := match c with IncomingBlock b => Some b | _ => None end.

Lemma log_incoming_tx blob tvc keep h r h' : on_core (handle_incoming_tx blob tvc keep) h = Ok (r, h') -> log h' = log h ++ [IncomingTx blob].
Proof. intros E. apply bind_Ok in E as ([x c] & E & [= _ <-]). by apply bind_Ok in E as ([y c0] & _ & [= _ <-]). Qed.
Lemma log_incoming_block b bvc c r h v h' : on_core (handle_incoming_block b bvc c r) h = Ok (v, h') -> log h' = log h ++ [IncomingBlock b].
Proof. intros E. apply bind_Ok in E as ([x k] & E & [= _ <-]). by apply bind_Ok in E as ([y c0] & _ & [= _ <-]). Qed.

Lemma process_txs_spec hashes txs h r h' : process_txs cn_fast_hash hashes txs h = Ok (r, h') ->
  exists done, log h' = log h ++ map IncomingTx done /\ Forall (fun blob => cn_fast_hash blob ∈ hashes) done.
Proof.
  revert hashes h. induction txs as [|tx txs IH]; intros hashes h E.
  { assert (h' = h) as -> by (destruct hashes; by injection E). exists []. split; [by rewrite app_nil_r|constructor]. }
  destruct hashes as [|expected hashes]; cbn [process_txs] in E; [done|].
  destruct (bool_decide (cn_fast_hash tx = expected)) eqn:Et; cbn [negb] in E.
  2:{ apply ser_bind_Ok in E as (? & h1 & [= _ <-] & [= _ <-]). exists []. split; [by rewrite app_nil_r|constructor]. }
  apply bool_decide_eq_true in Et. apply ser_bind_Ok in E as (tvc & h1 & El%log_incoming_tx & E).
  assert (Hstop : exists done, log h1 = log h ++ map IncomingTx done /\ Forall (fun blob => cn_fast_hash blob ∈ expected :: hashes) done).
  { exists [tx]. split; [done|]. constructor; [rewrite Et; by left|constructor]. }
  destruct (tvc_verification_failed tvc); [by apply ser_bind_Ok in E as (? & h2 & [= _ <-] & [= _ <-])|].
  apply IH in E as (l & El2 & HF). exists (tx :: l). rewrite El2, El, <- app_assoc. split; [done|].
  constructor; [rewrite Et; by left|]. eapply Forall_impl; [exact HF|]. cbn. intros x Hx. by right.
Qed.

(** What the core gets for the blocks of a response: each block at most once, in
    their order, and transactions that the blocks name. *)
Definition calls_for (blocks : list parsed_block_entry) (calls : list core_call) : Prop :=
  omap block_of calls `prefix_of` map pbe_block blocks /\
  Forall (fun c => match c with
                   | IncomingTx blob => exists p, p ∈ blocks /\ cn_fast_hash blob ∈ transactionHashes (pbe_block p)
                   | IncomingBlock b => b ∈ map pbe_block blocks
                   | IncomingBlob _ => False
                   end) calls.

Lemma omap_tx l : omap block_of (map IncomingTx l) = [].
Proof. by induction l. Qed.

Lemma processObjects_spec blocks h r h' : processObjects cn_fast_hash (mret tt) blocks h = Ok (r, h') ->
  exists calls, log h' = log h ++ calls /\ calls_for blocks calls.
Proof.
  revert h. induction blocks as [|p blocks IH]; intros h E; cbn [processObjects] in E.
  { injection E as _ <-. exists []. rewrite app_nil_r. split; [done|]. split; [apply prefix_nil|constructor]. }
  apply ser_bind_Ok in E as (st & h0 & [= <- <-] & E). destruct (m_stop h).
  { injection E as _ <-. exists []. rewrite app_nil_r. split; [done|]. split; [apply prefix_nil|constructor]. }
  apply ser_bind_Ok in E as (good & h1 & (txs & E1 & HT)%process_txs_spec & E).
  assert (Htx : Forall (fun c => match c with
                   | IncomingTx blob => exists q, q ∈ p :: blocks /\ cn_fast_hash blob ∈ transactionHashes (pbe_block q)
                   | IncomingBlock b => b ∈ map pbe_block (p :: blocks) | IncomingBlob _ => False end) (map IncomingTx txs)).
  { apply Forall_map. eapply Forall_impl; [exact HT|]. intros x Hx. exists p. split; [by left|done]. }
  destruct good; cbn [negb] in E.
  2:{ injection E as _ <-. exists (map IncomingTx txs). split; [done|]. split; [rewrite omap_tx; apply prefix_nil|done]. }
  apply ser_bind_Ok in E as (bvc & h2 & E2%log_incoming_block & E). rewrite E1 in E2.
  assert (Hstop : log h2 = log h ++ map IncomingTx txs ++ [IncomingBlock (pbe_block p)] /\ calls_for (p :: blocks) (map IncomingTx txs ++ [IncomingBlock (pbe_block p)])).
  { rewrite E2, <- app_assoc. split; [done|]. split.
    - rewrite omap_app, omap_tx. cbn. apply prefix_cons, prefix_nil.
    - apply Forall_app. split; [done|]. constructor; [by left|constructor]. }
  assert (HS : log h' = log h2 -> exists calls, log h' = log h ++ calls /\ calls_for (p :: blocks) calls).
  { intros ->. destruct Hstop. eauto. }
  destruct (m_verification_failed bvc); [apply HS; by apply ser_bind_Ok in E as (? & h3 & [= _ <-] & [= _ <-])|].
  destruct (m_marked_as_orphaned bvc); [apply HS; by apply ser_bind_Ok in E as (? & h3 & [= _ <-] & [= _ <-])|].
  destruct (m_already_exists bvc); [apply HS; by apply ser_bind_Ok in E as (? & h3 & [= _ <-] & [= _ <-])|].
  apply ser_bind_Ok in E as (? & h3 & [= _ <-] & E). apply IH in E as (calls & E3 & Hpre & HF).
  exists ((map IncomingTx txs ++ [IncomingBlock (pbe_block p)]) ++ calls). destruct Hstop as [E4 [_ HF4] ]. split; [by rewrite E3, E4, <- !app_assoc|]. split.
  - rewrite !omap_app, omap_tx. cbn. by apply prefix_cons.
  - apply Forall_app. split; [exact HF4|]. eapply Forall_impl; [exact HF|]. intros [y|y|b] Hx; cbn in Hx |- *; [|done|by right].
    destruct Hx as (q & Hq & Hx). exists q. split; [by right|done].
Qed.

(** Only what was asked for reaches the core.  When a node handles a response with
    blocks and no other connection runs meanwhile, then every block given to the
    core has a hash that was requested on this connection, no two have the same,
    and every transaction given to the core is named by such a block; and the core
    gets nothing at all unless the response has all the blocks that were
    requested. *)
Theorem response_solicited (arg : NOTIFY_RESPONSE_GET_OBJECTS_request) (h h' : H) (ret : Z) :
  handle_response_get_objects cn_fast_hash m_currency (mret tt) arg h = Ok (ret, h') ->
  exists calls ids entries, log h' = log h ++ calls /\ Forall2 (fun id p => hash_of p = Ok id) ids entries /\ NoDup ids /\
    (forall id, id ∈ ids -> id ∈ requested h) /\ (exists rest, rest `suffix_of` entries /\ calls_for rest calls) /\
    (calls <> [] -> forall id, id ∈ requested h -> id ∈ ids).
Proof.
  intros E. unfold handle_response_get_objects in E. apply ser_bind_Ok in E as (last & h0 & [= <- <-] & E).
  assert (Hnone : log h' = log h -> exists calls ids entries, log h' = log h ++ calls /\ Forall2 (fun id p => hash_of p = Ok id) ids entries /\ NoDup ids /\
    (forall id, id ∈ ids -> id ∈ requested h) /\ (exists rest, rest `suffix_of` entries /\ calls_for rest calls) /\ (calls <> [] -> forall id, id ∈ requested h -> id ∈ ids)).
  { intros ->. exists [], [], []. rewrite app_nil_r. split_and!; [done|constructor|apply NoDup_nil_2|by intros ? ?%elem_of_nil| |done].
    exists []. split; [done|]. split; [apply prefix_nil|constructor]. }
  destruct (_ <? _). { apply Hnone. by apply ser_bind_Ok in E as (? & h1 & [= _ <-] & [= _ <-]). }
  apply ser_bind_Ok in E as (? & h1 & E1 & E). pose proof (log_updateObservedHeight _ _ _ _ E1) as L1. apply context_updateObservedHeight in E1.
  apply ser_bind_Ok in E as (? & h2 & E2 & E). pose proof (log_context _ _ _ _ E2) as L2.
  assert (R2 : requested h2 = requested h) by (injection E2 as _ <-; unfold requested; cbn; by rewrite E1).
  apply ser_bind_Ok in E as (parsed & h3 & E3 & E). pose proof (log_parse_blocks _ _ _ _ _ _ _ E3) as L3.
  destruct parsed as [ [hashes entries]|]; [|injection E as _ <-; apply Hnone; congruence].
  apply parse_blocks_spec in E3 as (ids & new & -> & -> & HF & HN & Hin & Hreq). rewrite R2 in Hin, Hreq. cbn [app] in *.
  apply ser_bind_Ok in E as (req & h4 & [= <- <-] & E). fold (requested h3) in E.
  destruct (bool_decide (requested h3 = ∅)) eqn:Er; cbn [negb] in E.
  2:{ apply Hnone. apply ser_bind_Ok in E as (? & h4 & [= _ <-] & [= _ <-]). cbn. unfold log in *. cbn. congruence. }
  apply bool_decide_eq_true in Er. rewrite Hreq in Er.
  apply ser_bind_Ok in E as (? & h4 & L4 & E). apply log_on_core in L4.
  apply ser_bind_Ok in E as ([t top] & h5 & L5 & E). apply log_on_core in L5.
  apply ser_bind_Ok in E as (result & h6 & (calls & L6 & HC)%processObjects_spec & E).
  apply ser_bind_Ok in E as (? & h7 & L7 & E). apply log_on_core in L7.
  assert (L8 : log h' = log h7).
  { destruct (result =? 0); cbn [negb] in E; [|by injection E as _ <-].
    apply ser_bind_Ok in E as (? & h8 & L8 & E). apply log_on_core in L8. rewrite <- L8.
    match type of E with ?m h8 = _ => assert (K : keeps log m) by (pose proof log_request_missing_objects; keep) end. exact (K _ _ _ E). }
  set (rest := match dismiss_count top ids 1 with Some n => drop n new | None => new end) in *.
  assert (Hsub : exists pre, new = pre ++ rest).
  { unfold rest. destruct (dismiss_count top ids 1) as [n|]; [exists (take n new); by rewrite take_drop|by exists []]. }
  exists calls, ids, new. split_and!; [congruence|done|done|done| |].
  - exists rest. split; [|exact HC]. destruct Hsub as [pre Hp]. by exists pre.
  - intros _ id Hid. destruct (decide (id ∈ ids)); [done|]. set_solver.
Qed.
End Solicited.

(** * A chain entry that nobody asked for *)

(** A core that knows the block [known] only. *)
Definition known : list Z := repeat 1 32.
Definition small_core (top : Z) (zone : bool) : ICore unit := {|
  have_block id := mret (bool_decide (id = known));
  get_blockchain_top := mret (top, known);
  buildSparseChain := mret [known];
  isInCheckpointZone _ := mret zone;
  getBlockIdByHeight _ := mret known;
  core_findBlockchainSupplement _ _ := mret ([], 0, 0);
  handle_get_objects _ := mret (true, {| go_txs := []; go_blocks := []; go_missed_ids := []; go_current_blockchain_height := 0 |});
  getPoolTransactions := mret [];
  getPoolChanges _ := mret ([], []);
  handle_incoming_tx _ tvc _ := mret tvc;
  handle_incoming_block_blob _ bvc _ _ := mret bvc;
  handle_incoming_block _ bvc _ _ := mret bvc;
  pause_mining := mret tt;
  update_block_template_and_resume_mining := mret tt;
  on_synchronized := mret tt;
|}.

Definition peer_connection : P2pConnectionContext :=
  {| ctx_version := 2; m_connection_id := repeat 9 16; m_remote_ip := 16843009; m_remote_port := 38999; m_is_income := true;
     m_state := state_normal; m_needed_objects := []; m_requested_objects := ∅; m_remote_blockchain_height := 6;
     m_last_response_height := 0; peerId := 3; writeQueue := []; writeQueueSize := 0; stopped := false |}.
Definition node_at_rest : CryptoNoteProtocolHandler unit :=
  {| m_core := tt;
     m_p2p := {| m_peerlist := PeerlistManager_new false; m_blocked_hosts := ∅; m_host_fails_score := ∅; m_connections := ∅ |};
     context := peer_connection; m_synchronized := true; m_stop := false; m_observedHeight := 5; m_blockchainHeight := 5; m_peersCount := 1;
     m_relays := []; m_notified := [] |}.

(** A peer in the normal state sends a chain entry with an unknown block, which is
    taken without having been asked for, and then a timed synchronization with an
    unknown top block: the node fails the assertion of [start_sync] that nothing
    is requested. *)
Theorem unsolicited_chain_entry :
  let entry := {| ce_start_height := 4; ce_total_height := 6; ce_m_block_ids := [known; repeat 2 32] |} in
  let sync := {| csd_current_height := 7; top_id := repeat 3 32 |} in
  (_ ← handle_response_chain_entry (core := small_core 5 false) (B := debug_build) (fun l => l) 1000 entry;
   _ ← process_payload_sync_data (core := small_core 5 false) 1000 sync false;
   connection_start (core := small_core 5 false) (B := debug_build) (fun l => l)) node_at_rest = AssertFailed.
Proof. vm_compute. reflexivity. Qed.

(** A peer whose chain is to be refused at a checkpoint is dropped, but the
    connection goes on: the state set by [drop_connection] is overwritten. *)
Theorem dropped_connection_goes_on :
  let sync := {| csd_current_height := 20; top_id := repeat 3 32 |} in
  match process_payload_sync_data (core := small_core 50 true) 1000 sync false node_at_rest with
  | Ok (good, h) => good = true /\ m_state (context h) = state_sync_required /\ m_host_fails_score (m_p2p h) !! 16843009 = Some 1
  | _ => False
  end.
Proof. vm_compute. done. Qed.
